(* ===== verification/_CoqProject ===== *)
-Q . S2P
Prelude.v
Bytes.v
Value.v
Caps.v
Config.v
Id.v
Node.v
Hostcall.v
Handles.v
Connector.v
Engine.v
Requests.v
Msgpack.v
Swarm.v
SwarmQuiet.v
SwarmInv.v
SwarmKill.v
SwarmSafe.v
SwarmStep.v
SwarmLive.v
Toy.v
SwarmSpec.v
Pump.v
SwarmDemo.v
Time.v
Realm.v
Canon.v
Sign.v
Project.v
Consent.v
Gsr.v
ConsentDemo.v
Session.v
SessionSpec.v
SessionTable.v
SessionDemo.v
Backend.v
Jail.v
JailSpec.v
Reach.v
ReachSpec.v
Args.v
Resolve.v
ResolveSpec.v
Root.v
Gate.v
Deploy.v
DeploySpec.v
Boot.v
BootDemo.v
Rest.v
RestBody.v
RestSpec.v
ChunkSpec.v
BodySpec.v
RestDemo.v
Float.v
Table.v
TableSpec.v
Parquet.v
ParquetSpec.v
Data.v
DataDemo.v
Presence.v
Forward.v
Host.v
HostSpec.v
StreamSpec.v
Caller.v
HostDemo.v
Modules.v
ModulesSpec.v
Chunk.v
Require.v
Snapshot.v
Kv.v
KvSpec.v
Listen.v
ListenSpec.v
Serve.v
