(* ===== verification/Prelude.v ===== *)
(** * DRT, the Diluvium RunTime: a verification of its core

    DRT hosts swarms of small guest programs.  A swarm is a table of
    instances of an embedded engine; instances ask the runtime, over queues,
    to spawn, kill, cache or name other instances, push messages at each
    other, and call host services through a dispatcher that checks every call
    against the capabilities the instance holds.  What a swarm may hold is
    decided before it starts: a root on disk names a ceiling, its owner
    consents to it, and a start merges profile, project and command line
    inside it.  Around the core sit connectors (files, tables, HTTP, plugin
    processes) and sessions that carry a peer's streams to what a host
    serves.  This development models that in Rocq, operation by operation,
    and proves what makes it safe.  Paths below are relative to [src/].

    ** The parts and where they are modelled

    Shared library: [Prelude] (this file: outcomes, the state monad [M] with
    panics, its weakest preconditions [wp], loops, list lemmas, tactics),
    [Bytes] (text, UTF-8, numbers and digits as Rust's standard library has
    them), [Float] (the bits and the text of an [f64], text as characters),
    [Value] (msgpack values, the interface [Codec] of the codec, ordered
    maps).  Addresses and their text open [Reach], paths open [Backend].

    Authority: [Caps] is [crates/drt-caps/src/lib.rs] (patterns, grants,
    [CapSet], attenuation, scope types); [Config] is the bounds and instance
    configuration of [crates/drt-config/src/lib.rs]; [Id] and [Node] are
    the root ids, node paths and peer addresses of the same crate.

    Calls: [Hostcall] is [crates/drt-hostcall/src/lib.rs] (requests, replies,
    the blob lane), [Handles] and [Connector] are
    [crates/drt-connector/src/handles.rs] and [lib.rs] (the handle table, the
    registry, the dispatcher and its answers).

    The swarm, [crates/drt-swarm/src]: [Engine] is [refs.rs] and the traits
    and data of [engine.rs], [Requests] the free functions of
    [swarm.rs] (reading requests, attaching senders), [Swarm] the whole of
    [Swarm], [StepHost] and [SwarmHost] of [swarm.rs], one definition per
    method, and [Pump] is [pump.rs].

    Consent, [crates/drt-config/src]: [Time] is [time.rs] (instants and
    windows), [Realm] is [realm.rs], [Canon] is [canon.rs] (canonical JSON,
    hashes), [Sign] is [sign.rs], [Project] the root descriptor and its
    ceiling in [project.rs], [Consent] is [consent.rs], [Gsr] is [gsr.rs]
    (requests to sign a grant, decisions, the chain that verifies one).

    The start, [crates/drt-config/src] and [crates/drt/src]: [Args] is
    [version.rs] and, with [Resolve], [resolve.rs] (declared arguments,
    profiles, the merge), [Root] is [envelope.rs] and [drt_root.rs] (roots on
    disk), [Gate] is [consent_gate.rs], [Deploy] is
    [deploy.rs], [Boot] is [boot.rs] and the shipped programs of [stdlib.rs].
    [Modules] is [modules.rs] of both crates (the names of modules, those
    beside a program), [Chunk] the Lua that carries them to an engine, and
    [Require] the running of what it preloads.

    Files: [Backend] is Rust's [std::path] as the code uses it, the filesystem
    interface and the memory filesystem of [crates/drt-platform/src/fs.rs], [Jail] is
    [connectors/fs/src/lib.rs], [Snapshot] the store of
    [crates/drt-swarm/src/snapshot.rs].

    Plugins, [crates/drt-plugin/src]: [Session] is [frame.rs], [session.rs]
    and the channel of [channel.rs].

    Connectors: [Rest] and [RestBody] are [connectors/rest/src/lib.rs] (URLs,
    scopes and requests; responses, chunks, the exchange); [Table], [Parquet]
    and [Data] are [connectors/data/src/lib.rs] (CSV, ranges of a Parquet
    file, the four calls over the file jail); [Kv] is
    [connectors/kv/src/lib.rs] and, in its Module [KvServer], what the
    signalling server [crates/drt/src/stdlib/p2p_match.dlua] answers it.

    Listeners: [Listen] is [crates/drt/src/listen.rs] (what a request and a
    reply mean, the bytes of a response and of a stream; in its Module
    [Polled] the acceptor that polls its sockets), [Serve] the loop of
    [crates/drt/src/start.rs] that runs a deployment: the host with a clock,
    the residency policy, requests from listeners to the root and replies
    back.

    Sessions, [crates/drt-rtc/src]: [Reach] is [cidr.rs], [scope.rs] and
    [wisp.rs] (blocks, entries, packets), [Presence] is [record.rs],
    [Forward] the targets of [caller.rs] and the routing of [host.rs],
    [Host] the loop and the sessions of [host.rs], [Caller] the task that
    owns a call of [caller.rs].

    A file [XSpec] holds what is proved of [X] (a shorter one proves it at
    its end), a file [XDemo] concrete
    parameters, the witnesses, and the runs in which the code does not do
    what it says.

    ** How they interact

    [Swarm::step] is [Swarm.step]: it asks the host what ended and what there
    is to say, routes what instances pushed at each other, wakes, drains each
    lifecycle queue ([drain], [dispatch], [do_spawn], [do_kill], [do_query],
    [do_hibernate], [do_ref]) and drives each resident instance through the
    host.  [do_spawn] attenuates with [CapSet.attenuate_held_by] and
    [Budget.fits_within]; delivery stamps messages with
    [Requests.attach_sender].  A host is the class [SwarmHost]; [StepHost],
    [Serve.deploy_host] and [Pump.pump_host] are its instances, and the pump
    calls [Connector.route_as] for every request it drains.

    [Boot.boot_with] finds a root, asks [Resolve.resolve] what it would run
    under which ceiling, takes it to [Gate.gate], which asks [Consent.check]
    and writes the entry that answers it, and hands on a configuration.
    [Jail.call_in] resolves a guest's path against its scope and works on the
    class [Backend]; [Data.call] goes to files through it, [Deploy.deploy]
    through the class itself.  [RestBody.call] judges a URL by
    [Rest.matching], dials what [Rest.permits_address] allows and reads the
    answer.  [Kv.call] makes a URL of a key and goes out through the same
    exchange.  [Polled.poll] hands on a request as a map, and
    [Polled.answer] puts what [Listen.parse_reply] makes of a program's map
    on its connection; [Serve.pass] asks that of the class [Acceptor], steps
    the swarm and pushes what was handed on at the root.  [Modules.discover] looks beside a program,
    [Chunk] writes what it found as one chunk of Lua, and [Require] runs it.
    [Snapshot.put] writes through the class [Backend].  [Host.turn] drives every session's connection, and a packet goes
    through [Wisp.parse] and [Forward.route].

    State: a slot of the table is the record [Slot], the table [Swarm], both
    with the source's fields.  A method with [&mut self] is a computation of
    [M (Swarm E H I)]; an index out of range or a failed [expect] is [Panic].
    The engine and its instances are parameters ([EngineOps],
    [InstanceOps]), a method with [&mut self] giving back the changed value.
    A step of a session ([Host.Act], [Caller.Act]) takes the session to the
    one after it and the effects it leaves, in order: an event reported, a
    task started or ended, bytes for a target.

    ** What is proved

    - [SwarmQuiet], [SwarmInv], [SwarmKill], [SwarmSafe], [SwarmStep] and
      [SwarmLive] build the table's invariant [wf] and prove that every
      operation keeps it: [quiet] operations leave the tree alone, [wp_claim],
      [wp_place] and [wp_release] change it, and the rest is put together from
      these.  The second half of [SwarmLive] concludes: no sequence of public calls panics,
      whatever the engine does ([swarm_never_panics]); for an engine whose
      queues are bounded every run ends ([swarm_terminates]).
    - [SwarmSpec]: the contracts of subtree kill, ancestry, spawning, killing,
      delivery, hibernation, references and the reference host, each as what
      the operation returns and the state it leaves; and that every instance
      stays inside the capabilities, budget, numeric bounds, flags and path of
      its root ([tree_within_root]).
    - [Caps]: the grammar of patterns, that attenuation narrows, at any
      depth, for sets without double stars, and how it fails with them.
    - [Connector], [Handles], [Hostcall]: no connector sees a call its asker
      does not hold, handles answer to their owner only, columns survive the
      lane.
    - [Pump]: every drained request is answered once, in order, to its asker.
    - [Requests], [Engine], [Id], [Node], [Config]: round trips and refusals.
    - [Canon]: equal canonical bytes are equal values up to key order.
      [Consent]: when a check that asks nobody cannot widen, and three
      edits with which it does.  [Gsr]: a decision
      grants exactly what its chain allows, and what is signed verifies.
    - [ResolveSpec], [Gate], [Boot]: what a resolution reports, when
      the gate opens and what it writes, and that what starts is inside the
      project's ceiling.  [DeploySpec]: what a deploy leaves.
    - [ModulesSpec], [Chunk], [Require]: which modules are found and by what
      name, that the chunk is read by Lua as those modules and nothing else,
      for sources and names that it carries, and that what it preloads runs to its end or stops at a
      circle.
    - [Snapshot]: the store is a map from names, whatever file a crash in
      mid-write leaves.
    - [Backend], [JailSpec]: the memory filesystem stays a tree; a file call
      changes nothing outside its root and cannot tell what is there.
    - [SessionSpec], [SessionTable]: a plugin session refines
      its table of calls, answers go to the call they answer, and a call whose
      reply comes is answered.
    - [RestSpec], [ChunkSpec], [BodySpec]: a request reads back as what was
      asked and nothing of the guest's besides; the chunk decoder against its
      grammar; whole answers only; nothing outside the scope is looked up.
    - [KvSpec]: the client and the server of the key-value store together are
      a map with versions, over whatever carries the bytes.
    - [ListenSpec]: a reply reads back as one head with the deployment's
      headers and its body, a stream as what was streamed or as cut, and the
      polled acceptor keeps its bounds and ends its passes.
    - [Serve]: a park's timeout outlives hibernation, the residency policy
      hibernates the longest idle and nobody it need not, a held request is
      taken up, kept or answered, and no pass of the loop panics; the polled
      acceptor is shown to be what the loop asks of one ([PolledServe]).
    - [TableSpec], [ParquetSpec], [Data]: CSV and range reads against the
      table they stand for (of flat columns, for Parquet); what a data call
      may change.
    - [HostSpec], [StreamSpec], [Caller], [Presence], [ReachSpec]:
      what a host keeps is bounded whatever a peer sends, what it reaches is
      granted, streams carry what was written, in order, while their answers
      are their own, and records read back.

    [Toy] is a small concrete engine, [Msgpack] a concrete codec; with
    [SwarmDemo] they show that the hypotheses of the theorems can be met and
    apply them to concrete runs; the other demos do the same for their parts.

    ** Hypotheses

    Code that is not the repository's is a parameter with the documented
    behaviour as the fields of a class: [CodecLaws] and [MapLaws] (msgpack
    values within the nesting limit read back as written), [RefWireLaws] (a
    record of strings serializes and reads back), [LawfulInstance] (a handle
    names one queue, queues are bounded, a pop takes a message away, only a
    push to a queue adds to it), [LawfulHost] (a drive keeps the names of
    handles); [JsonText], [JsonRead], [Base64], [Digest], [Curve] (JSON text,
    base64, SHA-256, ed25519) with their laws; [Serde] and the [...Wire]
    classes (what a derived deserializer reads); [Env], [Stdlib], [Build],
    [Clock], [Ask] (the process, its build, the clock, the person asked);
    [Httparse], [Net], [Pem] (response heads, sockets and TLS, certificates);
    [ParquetReader] and [ParquetWriter]; [Rtc] (ICE, DTLS and SCTP);
    [LuaHost] (the Lua compiler, with Lua 5.4's lexical conventions as the
    reader of what is written for it); [Renames] ([fs::rename]); [KvWire];
    [HttparseRequest], [ToLowercase] and [Sockets] (request heads,
    Unicode's lower case, sockets that do not block); [Instants] (the
    monotonic clock).  [AcceptorLaws] is what the loop relies on in an
    acceptor, and is proved of the polled one.

    ** Fuel and width

    Loops the source bounds by the table ([kill_subtree]'s marking,
    [is_ancestor]'s walk) get the table's length as fuel and are proved to
    end within it for any engine.  The loops over queues ([drain],
    [route_one], the pump) take a fuel argument: two more than the longest
    queue is enough for the swarm, one more for the pump.  Handles are 32-bit:
    an increment that would leave the width is the outcome [Overflow], at
    which the model stops, because the source panics there in one build and
    wraps in another.  The loops over text take its length.  [Deploy]'s walk
    is proved to end within its bounds on entries; a Parquet read ends within
    the rows the library announces; the chunk decoder's widths are an
    argument, the wrapping build and the checked one.  A listener's pass
    takes the sockets' pending work as fuel, and its tokens are what 32 bits
    hold of an unbounded counter.  The loops that drain a
    connection's library end when it does, and their results are [None] until
    the fuel is enough: what is proved of them is proved at every fuel.

    ** What is not modelled

    The engine binding itself (a C++ library that is not in the repository)
    and what it writes into a snapshot, and the glue to files, sockets, processes, terminals
    and clocks ([crates/drt-platform]'s standard backends, the transports of
    [crates/drt-plugin], [Host::start] and [Caller::new] beyond the loops they
    run).  Of the listener, the acceptor with a thread for each connection;
    of the deployment loop, the bridges to relay, STUN, TURN, WireGuard,
    WebRTC and netcheck, and the control endpoint;
    of the key-value server, listings, watchers and the sweep of what has
    expired; [Require] takes the chunks it runs as finite trees of what they
    require.  The filter that drops comment keys while a document is read
    ([comments.rs]) and the loader of configuration files hang on a derived
    deserializer and are its library's; secrets are not modelled.  The command line, the front ends
    (web, ssh, p2p verbs), the WireGuard and TURN services and the remaining
    connectors are not modelled. *)

From Stdlib Require Export Ascii.
From stdpp Require Export prelude strings gmap.
From stdpp Require Export list.

#[export] Set Warnings "-clear-no-such-hyp,-register-all".

(** ** Outcomes of a computation

    Rust code returns, panics (an index out of range, a failed [expect]), or
    loops; a model with fuel has one more way not to answer, which is kept
    apart from a panic.  [Overflow] is an unsigned addition that leaves its
    width: a panic in a build that checks it and a wrap in one that does not,
    so the model stops there and claims nothing beyond it. *)
Inductive outcome (S A : Type) : Type :=
  | Ret (a : A) (s : S)
  | Panic
  | Overflow
  | OutOfFuel.
Arguments Ret {S A} a s.
Arguments Panic {S A}.
Arguments Overflow {S A}.
Arguments OutOfFuel {S A}.

(** A computation over a state [S]. *)
Definition M (S A : Type) : Type := S → outcome S A.

Global Instance M_ret {S} : MRet (M S) := λ A a s, Ret a s.
Global Instance M_bind {S} : MBind (M S) := λ A B f m s,
  match m s with
  | Ret a s' => f a s'
  | Panic => Panic
  | Overflow => Overflow
  | OutOfFuel => OutOfFuel
  end.

Section primitives.
Context {S : Type}.

Definition panic {A} : M S A := λ _, Panic.
Definition overflow {A} : M S A := λ _, Overflow.
Definition no_fuel {A} : M S A := λ _, OutOfFuel.
Definition get_state : M S S := λ s, Ret s s.
Definition put_state (s : S) : M S unit := λ _, Ret tt s.
Definition gets {A} (f : S → A) : M S A := λ s, Ret (f s) s.
Definition modify (f : S → S) : M S unit := λ s, Ret tt (f s).

(** [expect]: the value of an option, or a panic. *)
Definition expect {A} (o : option A) : M S A :=
  match o with Some a => mret a | None => panic end.

Definition when (b : bool) (m : M S unit) : M S unit :=
  if b then m else mret tt.

(** [for i in start..start+n]: the bounds are fixed when the loop starts,
    as a Rust range is. *)
Fixpoint for_range (start n : nat) (body : nat → M S unit) : M S unit :=
  match n with
  | 0 => mret tt
  | Datatypes.S n' => body start;; for_range (Datatypes.S start) n' body
  end.

(** [for x in xs]. *)
Fixpoint for_each {A} (xs : list A) (body : A → M S unit) : M S unit :=
  match xs with
  | [] => mret tt
  | x :: xs' => body x;; for_each xs' body
  end.

(** [loop { body }], where [body] answers whether to go round again. *)
Fixpoint loop (fuel : nat) (body : M S bool) : M S unit :=
  match fuel with
  | 0 => no_fuel
  | Datatypes.S fuel' =>
      again ← body; if (again : bool) then loop fuel' body else mret tt
  end.
End primitives.

(** ** Weakest preconditions

    [wp t m Q s]: run from [s], [m] does not panic and what it returns
    satisfies [Q]; with [t = true] it also does not run out of fuel.  It may
    stop at an overflow. *)
Definition wp {S A} (t : bool) (m : M S A) (Q : A → S → Prop) (s : S) : Prop :=
  match m s with
  | Ret a s' => Q a s'
  | Panic => False
  | Overflow => True
  | OutOfFuel => t = false
  end.

Section wp_rules.
Context {S : Type} (t : bool).

Lemma wp_ret {A} (a : A) (Q : A → S → Prop) s : Q a s → wp t (mret a) Q s.
Proof. done. Qed.

Lemma wp_bind {A B} (m : M S A) (f : A → M S B) Q s :
  wp t m (λ a s', wp t (f a) Q s') s → wp t (m ≫= f) Q s.
Proof. unfold wp, mbind, M_bind. by destruct (m s). Qed.

(** Two steps as one, for a rule about their sequence. *)
Lemma wp_bind_assoc {A B C} (m : M S A) (f : A → M S B) (g : B → M S C) Q s :
  wp t (m ≫= f) (λ b s', wp t (g b) Q s') s → wp t (m ≫= λ a, f a ≫= g) Q s.
Proof.
  unfold wp, mbind, M_bind. destruct (m s) as [a s'| | |]; try done.
  by destruct (f a s').
Qed.

Lemma wp_mono {A} (m : M S A) (Q Q' : A → S → Prop) s :
  wp t m Q s → (∀ a s', Q a s' → Q' a s') → wp t m Q' s.
Proof. unfold wp. destruct (m s); naive_solver. Qed.

Lemma wp_and {A} (m : M S A) (Q Q' : A → S → Prop) s :
  wp t m Q s → wp t m Q' s → wp t m (λ a s', Q a s' ∧ Q' a s') s.
Proof. unfold wp. destruct (m s); naive_solver. Qed.

Lemma wp_gets {A} (f : S → A) (Q : A → S → Prop) s :
  Q (f s) s → wp t (gets f) Q s.
Proof. done. Qed.

Lemma wp_get (Q : S → S → Prop) s : Q s s → wp t get_state Q s.
Proof. done. Qed.

Lemma wp_put s' (Q : unit → S → Prop) s : Q tt s' → wp t (put_state s') Q s.
Proof. done. Qed.

Lemma wp_modify f (Q : unit → S → Prop) s : Q tt (f s) → wp t (modify f) Q s.
Proof. done. Qed.

Lemma wp_expect {A} (o : option A) a (Q : A → S → Prop) s :
  o = Some a → Q a s → wp t (expect o) Q s.
Proof. by intros ->. Qed.

Lemma wp_when (b : bool) m (Q : unit → S → Prop) s :
  (b = true → wp t m Q s) → (b = false → Q tt s) → wp t (when b m) Q s.
Proof. destruct b; simpl; [auto|]. intros _ HQ. by apply wp_ret, HQ. Qed.

(** An invariant indexed by the position of a [for] loop. *)
Lemma wp_for_range (I : nat → S → Prop) start n body s :
  I start s →
  (∀ i s', start ≤ i < start + n → I i s' →
     wp t (body i) (λ _, I (Datatypes.S i)) s') →
  wp t (for_range start n body) (λ _, I (start + n)) s.
Proof.
  revert start s; induction n as [|n IH]; intros start s Hi Hbody; simpl.
  { rewrite Nat.add_0_r. by apply wp_ret. }
  apply wp_bind. eapply wp_mono; [apply Hbody; [lia|done]|].
  intros ? s' Hi'. rewrite <-Nat.add_succ_comm. apply IH; [done|].
  intros i s'' Hr. apply Hbody. lia.
Qed.

(** The usual case: one invariant throughout. *)
Lemma wp_for_inv (I : S → Prop) start n body s :
  I s →
  (∀ i s', start ≤ i < start + n → I s' → wp t (body i) (λ _, I) s') →
  wp t (for_range start n body) (λ _, I) s.
Proof. intros. by apply (wp_for_range (λ _, I)). Qed.

Lemma wp_for_each {A} (I : S → Prop) (xs : list A) body s :
  I s → (∀ x s', x ∈ xs → I s' → wp t (body x) (λ _, I) s') →
  wp t (for_each xs body) (λ _, I) s.
Proof.
  revert s; induction xs as [|x xs IH]; intros s Hi Hbody; simpl.
  { by apply wp_ret. }
  apply wp_bind. eapply wp_mono; [apply Hbody; [set_solver|done]|].
  intros ? s' Hi'. apply IH; [done|]. intros; apply Hbody; set_solver.
Qed.
End wp_rules.

(** With an exit condition of its own, and a measure where termination is
    claimed. *)
Lemma wp_loop {S} t (I Q : S → Prop) (mu : S → nat) fuel (body : M S bool) s :
  I s → (t = true → mu s < fuel) →
  (∀ s', I s' → wp t body (λ again s'',
     if again : bool then I s'' ∧ (t = true → mu s'' < mu s') else Q s'') s') →
  wp t (loop fuel body) (λ _, Q) s.
Proof.
  revert s; induction fuel as [|fuel IH]; intros s Hi Hmu Hbody; simpl.
  { destruct t; [|done]. specialize (Hmu eq_refl). lia. }
  apply wp_bind. eapply wp_mono; [by apply Hbody|].
  intros [] s' Hs; [|by apply wp_ret]. destruct Hs as [Hi' Hlt]. apply IH; auto.
  intros ->. specialize (Hmu eq_refl). specialize (Hlt eq_refl). lia.
Qed.

(** A total run gives a value. *)
Lemma wp_total_inv {S A} (m : M S A) Q s :
  wp true m Q s → m s = Overflow ∨ ∃ a s', m s = Ret a s' ∧ Q a s'.
Proof. unfold wp. destruct (m s) as [a s'| | |]; [right; by exists a, s'|done|by left|done]. Qed.

Lemma wp_ret_inv {S A} t (m : M S A) Q s a s' :
  wp t m Q s → m s = Ret a s' → Q a s'.
Proof. unfold wp. intros H Hm. by rewrite Hm in H. Qed.

Lemma wp_not_panic {S A} t (m : M S A) Q s : wp t m Q s → m s ≠ Panic.
Proof. unfold wp. by destruct (m s). Qed.

(** ** Tactics *)

(** One step of the calculus over the primitives. *)
Ltac wp_step :=
  cbv beta zeta;
  lazymatch goal with
  | |- wp _ (mbind _ _) _ _ => apply wp_bind
  | |- wp _ (mret _) _ _ => apply wp_ret
  | |- wp _ (gets _) _ _ => apply wp_gets
  | |- wp _ get_state _ _ => apply wp_get
  | |- wp _ (put_state _) _ _ => apply wp_put
  | |- wp _ (modify _) _ _ => apply wp_modify
  end; cbv beta zeta.
Ltac wp_steps := repeat wp_step.

(** Case analysis on the first match of the goal, keeping the equation. *)
Ltac case_goal :=
  match goal with
  | |- context [match ?x with _ => _ end] => destruct x eqn:?
  end.

(** ** Results

    Rust's [Result]: a sum whose left side is [Ok] and right side [Err]. *)
Abbreviation result A E := (A + E)%type.
Abbreviation Ok := inl.
Abbreviation Err := inr.

(** The [?] operator: go on with the value, return the error. *)
Definition rbind {A B E} (r : result A E) (k : A → result B E) : result B E :=
  match r with Ok a => k a | Err e => Err e end.
Notation "x ←? r ; k" := (rbind r (λ x, k))
  (at level 20, r at level 100, k at level 200, right associativity).

Definition map_err {A E F} (f : E → F) (r : result A E) : result A F :=
  match r with Ok a => Ok a | Err e => Err (f e) end.

Definition is_ok {A E} (r : result A E) : bool :=
  match r with Ok _ => true | Err _ => false end.

(** [map] then [collect] into a [Result]: the first error is the answer. *)
Fixpoint try_map {A B E} (f : A → result B E) (l : list A) : result (list B) E :=
  match l with
  | [] => Ok []
  | x :: l' => y ←? f x; ys ←? try_map f l'; Ok (y :: ys)
  end.

Lemma rbind_Ok {A B E} (r : result A E) (k : A → result B E) b :
  rbind r k = Ok b ↔ ∃ a, r = Ok a ∧ k a = Ok b.
Proof.
  destruct r as [a|e]; simpl; [|split; [done|by intros (? & ? & _)]].
  split; [by eauto|]. by intros (? & [= <-] & ?).
Qed.

Lemma try_map_Ok {A B E} (f : A → result B E) l ys :
  try_map f l = Ok ys ↔ Forall2 (λ x y, f x = Ok y) l ys.
Proof.
  revert ys; induction l as [|x l IH]; intros ys; simpl.
  - split; [intros [= <-]; constructor|by intros ->%Forall2_nil_inv_l].
  - rewrite rbind_Ok. split.
    + intros (y & Hy & Hr). apply rbind_Ok in Hr as (ys' & Hys & [= <-]).
      constructor; [done|]. by apply IH.
    + intros (y & ys' & Hy & Hys & ->)%Forall2_cons_inv_l. exists y. split; [done|].
      apply rbind_Ok. exists ys'. split; [by apply IH|done].
Qed.

(** ** Lists *)

(** [Vec::remove(i)] for an index in range, as what is left. *)
Definition remove_at {A} (i : nat) (l : list A) : list A := take i l ++ drop (S i) l.

(** [iter().position(p)]. *)
Fixpoint position {A} (p : A → bool) (l : list A) : option nat :=
  match l with
  | [] => None
  | x :: l' => if p x then Some 0 else S <$> position p l'
  end.

Lemma position_Some {A} (p : A → bool) l i :
  position p l = Some i → ∃ x, l !! i = Some x ∧ p x = true.
Proof.
  revert i; induction l as [|x l IH]; intros i; simpl; [done|].
  destruct (p x) eqn:Hp.
  { intros [= <-]. by exists x. }
  destruct (position p l) as [j|]; intros; simplify_eq/=. naive_solver.
Qed.

Lemma position_None {A} (p : A → bool) l x :
  position p l = None → x ∈ l → p x = false.
Proof.
  induction l as [|y l IH]; simpl; [by intros _ ?%not_elem_of_nil|].
  destruct (p y) eqn:Hp; [done|].
  destruct (position p l); [done|]. intros _ [->|]%elem_of_cons; auto.
Qed.

(** [iter().find(p)]. *)
Fixpoint find_first {A} (p : A → bool) (l : list A) : option A :=
  match l with
  | [] => None
  | x :: l' => if p x then Some x else find_first p l'
  end.

Lemma find_first_Some {A} (p : A → bool) l x :
  find_first p l = Some x → x ∈ l ∧ p x = true.
Proof.
  induction l as [|y l IH]; simpl; [done|].
  destruct (p y) eqn:Hp; [intros [= ->]; split; [left|done]|].
  intros [? ?]%IH. split; [by right|done].
Qed.

Lemma find_first_None {A} (p : A → bool) l x :
  find_first p l = None → x ∈ l → p x = false.
Proof.
  induction l as [|y l IH]; simpl; [by intros _ ?%not_elem_of_nil|].
  destruct (p y) eqn:Hp; [done|]. intros ? [->|]%elem_of_cons; auto.
Qed.

Lemma existsb_elem_of {A} (p : A → bool) (l : list A) :
  existsb p l = true ↔ ∃ x, x ∈ l ∧ p x = true.
Proof. rewrite existsb_exists. by setoid_rewrite list_elem_of_In. Qed.

Lemma existsb_false_elem_of {A} (p : A → bool) (l : list A) :
  existsb p l = false ↔ ∀ x, x ∈ l → p x = false.
Proof.
  rewrite <-not_true_iff_false, existsb_elem_of. split.
  - intros H x Hx. apply not_true_iff_false. naive_solver.
  - intros H (x & Hx & Hp). rewrite H in Hp; done.
Qed.

(** [into_iter().map(f).collect()] where [f] also updates a state. *)
Section map_accum.
Context {A B St : Type} (f : A → St → B * St).
Fixpoint map_accum (l : list A) (st : St) : list B * St :=
  match l with
  | [] => ([], st)
  | x :: l' =>
      let '(y, st1) := f x st in
      let '(ys, st2) := map_accum l' st1 in (y :: ys, st2)
  end.
End map_accum.

(** ** Hint databases *)

(** Facts a component exports to its clients' invariant proofs. *)
Create HintDb drt.
#[export] Hint Resolve wp_ret wp_gets wp_get wp_put wp_modify : drt.
