(* ===== verification/Bytes.v ===== *)
(** * Bytes, text and numbers as Rust's standard library has them

    A [str] or [String] is a Rocq [string], a sequence of bytes; a [Vec<u8>]
    or a byte slice is a [list ascii].  Nothing here is code of the
    repository: it is the meaning of the standard-library calls its code
    makes (UTF-8 checking, decimal text, splitting, big-endian integers). *)


From S2P Require Import Prelude.

Abbreviation bytes := (list ascii).

(** [str::as_bytes] and its inverse. *)
Definition as_bytes (s : string) : bytes := String.list_ascii_of_string s.
Definition of_bytes (bs : bytes) : string := String.string_of_list_ascii bs.

Lemma of_as_bytes s : of_bytes (as_bytes s) = s.
Proof. apply String.string_of_list_ascii_of_string. Qed.
Lemma as_of_bytes bs : as_bytes (of_bytes bs) = bs.
Proof. apply String.list_ascii_of_string_of_list_ascii. Qed.

Lemma as_bytes_inj s1 s2 : as_bytes s1 = as_bytes s2 → s1 = s2.
Proof. intros H. by rewrite <-(of_as_bytes s1), H, of_as_bytes. Qed.

Lemma as_bytes_app s1 s2 : as_bytes (s1 +:+ s2) = as_bytes s1 ++ as_bytes s2.
Proof.
  induction s1 as [|c s1 IH]; [done|].
  change (c :: as_bytes (s1 +:+ s2) = c :: as_bytes s1 ++ as_bytes s2). by f_equal.
Qed.

Lemma str_app_assoc a b c : (a +:+ b) +:+ c = a +:+ b +:+ c.
Proof.
  apply as_bytes_inj. by rewrite !as_bytes_app, app_assoc.
Qed.

Lemma str_app_nil_r a : a +:+ "" = a.
Proof. apply as_bytes_inj. rewrite as_bytes_app. apply app_nil_r. Qed.

Lemma str_app_cons x a b : String x a +:+ b = String x (a +:+ b).
Proof. done. Qed.

(** [str::len] and [str::is_empty]. *)
Definition str_len (s : string) : nat := length (as_bytes s).
Definition str_is_empty (s : string) : bool := bool_decide (s = "").

Lemma str_len_app s1 s2 : str_len (s1 +:+ s2) = str_len s1 + str_len s2.
Proof. unfold str_len. by rewrite as_bytes_app, length_app. Qed.

Lemma str_len_cons c s : str_len (String c s) = S (str_len s).
Proof. done. Qed.

(** [str::starts_with]. *)
Definition starts_with (s p : string) : bool :=
  bool_decide (as_bytes p `prefix_of` as_bytes s).

(** ** Splitting on an ASCII separator *)

(** [str::split(c)]: always at least one piece. *)
Fixpoint split_on (c : ascii) (s : string) : list string :=
  match s with
  | EmptyString => [""]
  | String a s' =>
      if bool_decide (a = c) then "" :: split_on c s'
      else match split_on c s' with
           | piece :: rest => String a piece :: rest
           | [] => [String a ""]
           end
  end.

(** [str::split_once(c)]: at the first occurrence. *)
Fixpoint split_once (c : ascii) (s : string) : option (string * string) :=
  match s with
  | EmptyString => None
  | String a s' =>
      if bool_decide (a = c) then Some ("", s')
      else '(l, r) ← split_once c s'; Some (String a l, r)
  end.

(** [str::rsplit_once(c)]: at the last occurrence. *)
Fixpoint rsplit_once (c : ascii) (s : string) : option (string * string) :=
  match s with
  | EmptyString => None
  | String a s' =>
      match rsplit_once c s' with
      | Some (l, r) => Some (String a l, r)
      | None => if bool_decide (a = c) then Some ("", s') else None
      end
  end.

(** [str::strip_prefix]. *)
Definition strip_prefix (p s : string) : option string :=
  if starts_with s p then Some (of_bytes (drop (str_len p) (as_bytes s))) else None.

(** [str::strip_suffix]. *)
Definition strip_suffix (p s : string) : option string :=
  let n := str_len s - str_len p in
  if bool_decide (as_bytes p `suffix_of` as_bytes s) then Some (of_bytes (take n (as_bytes s)))
  else None.

(** [str::contains(c)] for a character. *)
Definition contains_char (c : ascii) (s : string) : bool :=
  bool_decide (c ∈ as_bytes s).

Lemma contains_char_cons c a s :
  contains_char c (String a s) = bool_decide (c = a) || contains_char c s.
Proof.
  unfold contains_char. change (as_bytes (String a s)) with (a :: as_bytes s).
  rewrite <-bool_decide_or. apply bool_decide_ext, elem_of_cons.
Qed.

Lemma contains_char_app c a b :
  contains_char c (a +:+ b) = contains_char c a || contains_char c b.
Proof.
  unfold contains_char. rewrite <-bool_decide_or. apply bool_decide_ext.
  by rewrite as_bytes_app, elem_of_app.
Qed.

Lemma split_once_app c l r :
  contains_char c l = false → split_once c (l +:+ String c r) = Some (l, r).
Proof.
  induction l as [|a l IH]; intros Hl.
  - change ("" +:+ String c r) with (String c r). simpl. by rewrite bool_decide_true.
  - rewrite contains_char_cons in Hl. apply orb_false_iff in Hl as [Ha Hl].
    change (String a l +:+ String c r) with (String a (l +:+ String c r)). simpl.
    apply bool_decide_eq_false in Ha. rewrite bool_decide_false by congruence.
    by rewrite (IH Hl).
Qed.

Lemma split_once_None c s : split_once c s = None ↔ contains_char c s = false.
Proof.
  induction s as [|a s IH]; [done|]. rewrite contains_char_cons. simpl.
  case_bool_decide as Ha.
  - subst. rewrite bool_decide_true by done. done.
  - rewrite (bool_decide_false (c = a)) by congruence. simpl. rewrite <-IH.
    by destruct (split_once c s) as [[]|].
Qed.

Lemma split_once_head c s l r : split_once c s = Some (l, r) → contains_char c l = false.
Proof.
  revert l r; induction s as [|a s IH]; intros l r; simpl; [done|].
  case_bool_decide as Ha; [by intros [= <- <-]|].
  destruct (split_once c s) as [[l' r']|]; [|done]. intros [= <- <-].
  rewrite contains_char_cons, bool_decide_false by congruence. simpl. by eapply IH.
Qed.

Lemma split_once_Some c s l r : split_once c s = Some (l, r) → s = l +:+ String c r.
Proof.
  revert l r; induction s as [|a s IH]; intros l r; simpl; [done|].
  case_bool_decide as Ha; [intros [= <- <-]; by subst|].
  destruct (split_once c s) as [[l' r']|]; [|done]. intros [= <- <-].
  rewrite str_app_cons. f_equal. by apply IH.
Qed.

Lemma rsplit_once_Some c s l r : rsplit_once c s = Some (l, r) → s = l +:+ String c r.
Proof.
  revert l r; induction s as [|a s IH]; intros l r; simpl; [done|].
  destruct (rsplit_once c s) as [[l' r']|].
  - intros [= <- <-]. rewrite str_app_cons. f_equal. by apply IH.
  - case_bool_decide as Ha; [|done]. intros [= <- <-]. by subst.
Qed.

Lemma rsplit_once_none c s : contains_char c s = false → rsplit_once c s = None.
Proof.
  induction s as [|a s IH]; intros Hs; [done|].
  rewrite contains_char_cons in Hs. apply orb_false_iff in Hs as [Ha Hs].
  simpl. rewrite (IH Hs). apply bool_decide_eq_false in Ha.
  by rewrite bool_decide_false by congruence.
Qed.

Lemma rsplit_once_app c l r :
  contains_char c r = false → rsplit_once c (l +:+ String c r) = Some (l, r).
Proof.
  induction l as [|a l IH]; intros Hr.
  - change ("" +:+ String c r) with (String c r). simpl.
    by rewrite (rsplit_once_none _ _ Hr), bool_decide_true.
  - change (String a l +:+ String c r) with (String a (l +:+ String c r)). simpl.
    by rewrite (IH Hr).
Qed.

Lemma split_on_nonempty c s : split_on c s ≠ [].
Proof.
  destruct s as [|a s]; simpl; [done|].
  by destruct (bool_decide _); [|destruct (split_on c s)].
Qed.

Lemma split_on_none c s : contains_char c s = false → split_on c s = [s].
Proof.
  induction s as [|a s IH]; intros Hs; [done|].
  rewrite contains_char_cons in Hs. apply orb_false_iff in Hs as [Ha Hs].
  simpl. apply bool_decide_eq_false in Ha. rewrite bool_decide_false by congruence.
  by rewrite (IH Hs).
Qed.

Lemma split_on_app c l r :
  split_on c (l +:+ String c r) = split_on c l ++ split_on c r.
Proof.
  induction l as [|a l IH].
  - change ("" +:+ String c r) with (String c r). simpl. by rewrite bool_decide_true.
  - change (String a l +:+ String c r) with (String a (l +:+ String c r)). simpl.
    case_bool_decide; [by rewrite IH|]. rewrite IH.
    destruct (split_on c l) eqn:E; [by apply split_on_nonempty in E|done].
Qed.

(** ** UTF-8 *)

Definition byte_val (c : ascii) : N := N_of_ascii c.
Definition of_byte (n : N) : ascii := ascii_of_N n.

Definition in_range (lo hi x : N) : bool := bool_decide (lo ≤ x ≤ hi)%N.

(** The first sequence of a byte string: whether it is well formed, and how
    many bytes it takes (for an ill-formed one, the maximal part that is
    replaced by one U+FFFD). *)
Definition utf8_head (bs : bytes) : bool * nat :=
  let at_ i := from_option byte_val 0%N (bs !! i) in
  let cont i := in_range 128 191 (at_ i) in
  let b := at_ 0 in
  let three lo hi :=
    if in_range lo hi (at_ 1) then (if cont 2 then (true, 3) else (false, 2)) else (false, 1) in
  let four lo hi :=
    if in_range lo hi (at_ 1) then
      if cont 2 then (if cont 3 then (true, 4) else (false, 3)) else (false, 2)
    else (false, 1) in
  if in_range 0 127 b then (true, 1)
  else if in_range 194 223 b then (if cont 1 then (true, 2) else (false, 1))
  else if in_range 224 224 b then three 160%N 191%N
  else if in_range 237 237 b then three 128%N 159%N
  else if in_range 225 239 b then three 128%N 191%N
  else if in_range 240 240 b then four 144%N 191%N
  else if in_range 241 243 b then four 128%N 191%N
  else if in_range 244 244 b then four 128%N 143%N
  else (false, 1).

Fixpoint utf8_valid_go (fuel : nat) (bs : bytes) : bool :=
  match bs with
  | [] => true
  | _ =>
      match fuel with
      | 0 => false
      | S fuel' =>
          let '(ok, n) := utf8_head bs in ok && utf8_valid_go fuel' (drop n bs)
      end
  end.
Definition utf8_valid (bs : bytes) : bool := utf8_valid_go (length bs) bs.

(** [str::chars]: each character as its bytes. *)
Fixpoint chars_go (fuel : nat) (bs : bytes) : list bytes :=
  match bs, fuel with
  | [], _ | _, 0 => []
  | _, S fuel' => let n := (utf8_head bs).2 in take n bs :: chars_go fuel' (drop n bs)
  end.
Definition chars (s : string) : list bytes := chars_go (str_len s) (as_bytes s).

(** [char::is_whitespace]. *)
Definition is_whitespace (c : bytes) : bool :=
  match byte_val <$> c with
  | [a] => in_range 9 13 a || in_range 32 32 a
  | [a; b] => in_range 194 194 a && (in_range 133 133 b || in_range 160 160 b)
  | [a; b; c] =>
      (in_range 225 225 a && in_range 154 154 b && in_range 128 128 c)
      || (in_range 226 226 a && in_range 128 128 b
          && (in_range 128 138 c || in_range 168 169 c || in_range 175 175 c))
      || (in_range 226 226 a && in_range 129 129 b && in_range 159 159 c)
      || (in_range 227 227 a && in_range 128 128 b && in_range 128 128 c)
  | _ => false
  end.

Fixpoint trim_start_chars (cs : list bytes) : list bytes :=
  match cs with
  | c :: cs' => if is_whitespace c then trim_start_chars cs' else cs
  | [] => []
  end.

(** [str::trim]. *)
Definition trim (s : string) : string :=
  of_bytes (mjoin (reverse (trim_start_chars (reverse (trim_start_chars (chars s)))))).

(** [std::str::from_utf8]. *)
Definition from_utf8 (bs : bytes) : option string :=
  if utf8_valid bs then Some (of_bytes bs) else None.

(** U+FFFD, as UTF-8. *)
Definition replacement : bytes := of_byte <$> [239; 191; 189]%N.

Fixpoint lossy_go (fuel : nat) (bs : bytes) : bytes :=
  match bs, fuel with
  | [], _ | _, 0 => []
  | _, S fuel' =>
      let '(ok, n) := utf8_head bs in
      (if ok : bool then take n bs else replacement) ++ lossy_go fuel' (drop n bs)
  end.

(** [String::from_utf8_lossy]. *)
Definition from_utf8_lossy (bs : bytes) : string := of_bytes (lossy_go (length bs) bs).

Lemma from_utf8_Some bs s : from_utf8 bs = Some s → s = of_bytes bs.
Proof. unfold from_utf8. by destruct (utf8_valid bs); intros [= <-]. Qed.

Lemma lossy_valid_go fuel bs :
  utf8_valid_go fuel bs = true → lossy_go fuel bs = bs.
Proof.
  revert bs; induction fuel as [|fuel IH]; intros [|b bs]; [done..|].
  cbn -[utf8_head take drop]. destruct (utf8_head (b :: bs)) as [[] n]; [|done]; intros H.
  by rewrite IH, take_drop.
Qed.

(** Lossy conversion is the identity on valid text. *)
Lemma lossy_valid bs : utf8_valid bs = true → from_utf8_lossy bs = of_bytes bs.
Proof. intros H. unfold from_utf8_lossy. by rewrite lossy_valid_go. Qed.

(** [str::is_char_boundary]. *)
Definition is_char_boundary (s : string) (i : nat) : bool :=
  if bool_decide (i = 0 ∨ i = str_len s) then true
  else match as_bytes s !! i with
       | Some b => negb (in_range 128 191 (byte_val b))
       | None => false
       end.

(** ** Decimal text *)

Definition digit (n : N) : ascii := of_byte (48 + n).

Fixpoint dec_go (fuel : nat) (n : N) (acc : string) : string :=
  match fuel with
  | 0 => acc
  | S fuel' =>
      let acc := String (digit (n `mod` 10)) acc in
      if bool_decide (n < 10)%N then acc else dec_go fuel' (n / 10) acc
  end.

(** [to_string] of an unsigned integer. *)
Definition dec (n : N) : string := dec_go (S (N.size_nat n)) n "".

Definition digit_val (c : ascii) : option N :=
  let v := byte_val c in if in_range 48 57 v then Some (v - 48)%N else None.

Fixpoint parse_digits (acc : N) (s : string) : option N :=
  match s with
  | EmptyString => Some acc
  | String c s' => d ← digit_val c; parse_digits (acc * 10 + d)%N s'
  end.

(** [str::parse::<u32>]: an optional [+], at least one digit, no overflow. *)
Definition parse_u32 (s : string) : option N :=
  let digits := match s with
                | String "+" s' => s'
                | _ => s
                end in
  if str_is_empty digits then None
  else n ← parse_digits 0 digits; if bool_decide (n < 2 ^ 32)%N then Some n else None.

(** [str::parse::<i64>]: an optional sign, at least one digit, no overflow. *)
Definition split_sign (s : string) : bool * string :=
  match s with
  | String "+" s' => (false, s')
  | String "-" s' => (true, s')
  | _ => (false, s)
  end.

Definition parse_i64 (s : string) : option Z :=
  let '(negative, digits) := split_sign s in
  if str_is_empty digits then None
  else n ← parse_digits 0 digits;
       let z := if negative : bool then (- Z.of_N n)%Z else Z.of_N n in
       if bool_decide (- 2 ^ 63 ≤ z < 2 ^ 63)%Z then Some z else None.

(** [format!("{n:0w$}")] of a signed integer: the sign, then zeroes, then the
    digits, at least [w] characters in all. *)
Fixpoint zeros (n : nat) : string :=
  match n with 0 => "" | S n' => String "0" (zeros n') end.

Definition fmt_zero (w : nat) (z : Z) : string :=
  let sign := if bool_decide (z < 0)%Z then "-" else "" in
  let digits := dec (Z.to_N (Z.abs z)) in
  sign +:+ zeros (w - str_len sign - str_len digits) +:+ digits.

(** [str::get(from..to)]: nothing when an end is not a character boundary. *)
Definition str_get (s : string) (from to : nat) : option string :=
  if bool_decide (from ≤ to ≤ str_len s)
     && is_char_boundary s from && is_char_boundary s to
  then Some (of_bytes (take (to - from) (drop from (as_bytes s))))
  else None.

(** ** Big-endian integers *)

Definition be16 (n : N) : bytes := [of_byte (n / 256); of_byte (n `mod` 256)].
Definition be32 (n : N) : bytes :=
  [of_byte (n / 16777216); of_byte ((n / 65536) `mod` 256);
   of_byte ((n / 256) `mod` 256); of_byte (n `mod` 256)].
Definition from_be (bs : bytes) : N :=
  foldl (λ acc b, acc * 256 + byte_val b)%N 0%N bs.

Lemma digit_byte n : (n < 10)%N → byte_val (digit n) = (48 + n)%N.
Proof. intros H. unfold byte_val, digit, of_byte. apply N_ascii_embedding. lia. Qed.

Lemma digit_val_digit n : (n < 10)%N → digit_val (digit n) = Some n.
Proof.
  intros H. unfold digit_val. rewrite digit_byte by done. unfold in_range.
  rewrite bool_decide_true by lia. f_equal. lia.
Qed.

Lemma parse_dec_go fuel n acc :
  fuel ≠ 0 → (n < 2 ^ N.of_nat fuel)%N →
  parse_digits 0 (dec_go fuel n acc) = parse_digits n acc.
Proof.
  revert n acc; induction fuel as [|fuel IH]; intros n acc Hf Hn; [done|]. simpl.
  assert (Hm : (n `mod` 10 < 10)%N) by (apply N.mod_lt; lia).
  case_bool_decide as Hlt.
  - cbn -[N.mul N.add]. rewrite digit_val_digit by done. simpl.
    by rewrite N.mod_small by done.
  - destruct fuel as [|fuel]; [simpl in Hn; lia|].
    rewrite IH; [|done|].
    + cbn -[N.mul N.add]. rewrite digit_val_digit by done. simpl.
      f_equal. rewrite (N.mul_comm _ 10). symmetry. apply N.div_mod'.
    + apply N.Div0.div_lt_upper_bound.
      rewrite (Nat2N.inj_succ (S fuel)), N.pow_succ_r' in Hn. lia.
Qed.

Lemma size_nat_bound n : (n < 2 ^ N.of_nat (S (N.size_nat n)))%N.
Proof.
  destruct n as [|p]; [done|]. rewrite Nat2N.inj_succ, N.pow_succ_r'. simpl.
  induction p as [p IH|p IH|]; [| |done];
    cbn [Pos.size_nat]; rewrite Nat2N.inj_succ, N.pow_succ_r'; lia.
Qed.

Lemma parse_digits_dec n : parse_digits 0 (dec n) = Some n.
Proof. unfold dec. by rewrite parse_dec_go by (done || apply size_nat_bound). Qed.

Definition is_digit (c : ascii) : Prop := is_Some (digit_val c).

Lemma dec_go_digits fuel n acc :
  Forall is_digit (as_bytes acc) → Forall is_digit (as_bytes (dec_go fuel n acc)).
Proof.
  revert n acc; induction fuel as [|fuel IH]; intros n acc H; [done|]. simpl.
  assert (Forall is_digit (as_bytes (String (digit (n `mod` 10)) acc))).
  { constructor; [|done]. exists (n `mod` 10)%N. apply digit_val_digit, N.mod_lt. lia. }
  case_bool_decide; auto.
Qed.

Lemma dec_digits n : Forall is_digit (as_bytes (dec n)).
Proof. apply dec_go_digits. constructor. Qed.

Lemma dec_not_empty n : dec n ≠ "".
Proof.
  intros H. pose proof (parse_digits_dec n) as Hp. rewrite H in Hp. simpl in Hp.
  by simplify_eq.
Qed.

(** Decimal text contains no character that is not a digit. *)
Lemma dec_no_char c n : digit_val c = None → contains_char c (dec n) = false.
Proof.
  intros Hc. apply bool_decide_eq_false. intros Hin.
  pose proof (dec_digits n) as H. rewrite Forall_forall in H.
  apply H in Hin as [d Hd]. congruence.
Qed.

Lemma parse_u32_dec n : (n < 2 ^ 32)%N → parse_u32 (dec n) = Some n.
Proof.
  intros Hn. unfold parse_u32.
  pose proof (dec_not_empty n) as Hne. pose proof (dec_digits n) as Hd.
  pose proof (parse_digits_dec n) as Hp.
  destruct (dec n) as [|c s] eqn:E; [done|].
  assert (Hc : is_digit c) by (by apply Forall_inv in Hd).
  assert (match String c s with String "+" s' => s' | _ => String c s end = String c s)
    as ->.
  { destruct c as [[] [] [] [] [] [] [] []]; try done. }
  unfold str_is_empty. rewrite bool_decide_false by done. rewrite Hp. simpl.
  by rewrite bool_decide_true.
Qed.

Lemma byte_of_byte n : (n < 256)%N → byte_val (of_byte n) = n.
Proof. apply N_ascii_embedding. Qed.

Lemma byte_val_lt c : (byte_val c < 256)%N.
Proof. apply N_ascii_bounded. Qed.

Lemma of_byte_val c : of_byte (byte_val c) = c.
Proof. apply ascii_N_embedding. Qed.

Lemma from_be16 n : (n < 65536)%N → from_be (be16 n) = n.
Proof.
  intros Hn. unfold from_be, be16. cbn -[N.mul N.add N.div N.modulo].
  rewrite !byte_of_byte; [|apply N.mod_lt; lia|apply N.Div0.div_lt_upper_bound; lia].
  rewrite (N.mul_comm _ 256). symmetry. apply N.div_mod'.
Qed.

Lemma from_be32 n : (n < 2 ^ 32)%N → from_be (be32 n) = n.
Proof.
  change (2 ^ 32)%N with 4294967296%N. intros Hn. unfold from_be, be32.
  cbn -[N.mul N.add N.div N.modulo].
  rewrite !byte_of_byte;
    [|apply N.mod_lt; lia|apply N.mod_lt; lia|apply N.mod_lt; lia
     |apply N.Div0.div_lt_upper_bound; lia].
  zify; Z.to_euclidean_division_equations; lia.
Qed.

(** Four bytes are the big-endian text of the number they spell. *)
Lemma be32_from_be a b c d : be32 (from_be [a; b; c; d]) = [a; b; c; d].
Proof.
  pose proof (byte_val_lt a); pose proof (byte_val_lt b); pose proof (byte_val_lt c);
    pose proof (byte_val_lt d).
  assert (Hb : ∀ x y, (y < 256 → byte_val x = y → of_byte y = x)%N)
    by (intros x y _ <-; apply of_byte_val).
  unfold be32, from_be. cbn -[N.mul N.add N.div N.modulo].
  repeat f_equal; (apply Hb; [zify; Z.to_euclidean_division_equations; lia|]);
    zify; Z.to_euclidean_division_equations; lia.
Qed.

(** ** Padded numbers and slices *)

Lemma parse_digits_bound acc s n :
  parse_digits acc s = Some n → (n < (acc + 1) * 10 ^ N.of_nat (str_len s))%N.
Proof.
  revert acc; induction s as [|c s IH]; intros acc H; simpl in H;
    [simplify_eq; change (str_len "") with 0; rewrite N.pow_0_r; lia|].
  destruct (digit_val c) as [d|] eqn:Ed; [|done]. apply IH in H.
  assert (d < 10)%N.
  { unfold digit_val, in_range in Ed. case_bool_decide; simplify_eq. lia. }
  change (str_len (String c s)) with (S (str_len s)). rewrite Nat2N.inj_succ, N.pow_succ_r'. nia.
Qed.

Lemma dec_go_short w fuel n acc :
  (n < 10 ^ N.of_nat (S w))%N → str_len (dec_go fuel n acc) ≤ S w + str_len acc.
Proof.
  revert fuel n acc; induction w as [|w IH]; intros [|fuel] n acc H; cbn [dec_go]; [lia| |lia|].
  - rewrite bool_decide_true by lia. unfold str_len. simpl. lia.
  - case_bool_decide; [unfold str_len; simpl; lia|].
    assert (n / 10 < 10 ^ N.of_nat (S w))%N.
    { apply N.Div0.div_lt_upper_bound. by rewrite <-N.pow_succ_r', <-Nat2N.inj_succ. }
    specialize (IH fuel _ (String (digit (n `mod` 10)) acc) H1).
    change (str_len (String _ acc)) with (S (str_len acc)) in IH. lia.
Qed.

(** How many digits a number has. *)
Lemma dec_length n w : str_len (dec n) ≤ S w ↔ (n < 10 ^ N.of_nat (S w))%N.
Proof.
  split; intros H.
  - pose proof (parse_digits_bound _ _ _ (parse_digits_dec n)) as Hb.
    eapply N.lt_le_trans; [exact Hb|]. rewrite N.mul_1_l. apply N.pow_le_mono_r; lia.
  - unfold dec. pose proof (dec_go_short w (S (N.size_nat n)) n "" H). simpl in *.
    unfold str_len in *. simpl in *. lia.
Qed.

Lemma zeros_len k : str_len (zeros k) = k.
Proof. induction k as [|k IH]; [done|]. change (str_len (zeros (S k))) with (S (str_len (zeros k))). lia. Qed.

Lemma parse_digits_zeros k s : parse_digits 0 (zeros k +:+ s) = parse_digits 0 s.
Proof. induction k as [|k IH]; [done|]. exact IH. Qed.

Lemma zeros_dec_head k n : ∃ c s, zeros k +:+ dec n = String c s ∧ is_digit c.
Proof.
  destruct k as [|k]; [|by exists "0"%char, (zeros k +:+ dec n); split; [|exists 0%N]].
  pose proof (dec_digits n) as Hd. destruct (dec n) as [|c s] eqn:E; [by apply dec_not_empty in E|].
  exists c, s. split; [done|]. by apply Forall_inv in Hd.
Qed.

(** A padded number is its sign and its digits. *)
Lemma fmt_zero_parts w z :
  ∃ ds, split_sign (fmt_zero w z) = (bool_decide (z < 0)%Z, ds)
        ∧ ds ≠ "" ∧ parse_digits 0 ds = Some (Z.to_N (Z.abs z)).
Proof.
  unfold fmt_zero. set (k := w - _ - _). clearbody k.
  destruct (zeros_dec_head k (Z.to_N (Z.abs z))) as (c & s & E & Hc).
  exists (String c s). rewrite E. split; [|split; [done|]].
  - case_bool_decide; [done|]. change ("" +:+ String c s) with (String c s).
    destruct Hc as [d Hd]. by destruct c as [[] [] [] [] [] [] [] []].
  - by rewrite <-E, parse_digits_zeros, parse_digits_dec.
Qed.

Lemma parse_i64_fmt w z : (- 2 ^ 63 ≤ z < 2 ^ 63)%Z → parse_i64 (fmt_zero w z) = Some z.
Proof.
  intros Hz. unfold parse_i64. destruct (fmt_zero_parts w z) as (ds & -> & Hne & ->).
  unfold str_is_empty. rewrite (bool_decide_false (ds = "")) by done. simpl.
  repeat case_bool_decide; try (f_equal; lia); exfalso; lia.
Qed.

Lemma fmt_zero_inj w z z' : fmt_zero w z = fmt_zero w z' → z = z'.
Proof.
  destruct (fmt_zero_parts w z) as (ds & Es & _ & Ed), (fmt_zero_parts w z') as (ds' & Es' & _ & Ed').
  intros E. rewrite E, Es' in Es. injection Es as Eb ->. rewrite Ed in Ed'. injection Ed' as En.
  repeat case_bool_decide; try done; lia.
Qed.

Lemma split_sign_len s :
  str_len (split_sign s).2 + (if (split_sign s).1 then 1 else 0) ≤ str_len s.
Proof.
  destruct s as [|[[] [] [] [] [] [] [] []] s]; [done|..]; unfold str_len; simpl; lia.
Qed.

(** A number has as many digits as its text allows. *)
Lemma parse_i64_bound s z k :
  parse_i64 s = Some z → str_len s ≤ S k → (- 10 ^ Z.of_nat k < z < 10 ^ Z.of_nat (S k))%Z.
Proof.
  unfold parse_i64. pose proof (split_sign_len s) as Hl.
  destruct (split_sign s) as [neg ds]. simpl in Hl. intros E Hs.
  destruct (str_is_empty ds); [done|]. destruct (parse_digits 0 ds) as [n|] eqn:Ed; [|done].
  simpl in E. apply parse_digits_bound in Ed.
  assert (Hn : (n < 10 ^ N.of_nat (if neg then k else S k))%N).
  { eapply N.lt_le_trans; [exact Ed|]. rewrite N.mul_1_l. apply N.pow_le_mono_r; destruct neg; lia. }
  apply N2Z.inj_lt in Hn. rewrite N2Z.inj_pow, nat_N_Z in Hn. change (Z.of_N 10) with 10%Z in Hn.
  pose proof (Z.pow_pos_nonneg 10 (Z.of_nat k)). pose proof (Z.pow_pos_nonneg 10 (Z.of_nat (S k))).
  destruct neg; simpl in E; case_bool_decide; simplify_eq; lia.
Qed.

Lemma fmt_zero_len w z :
  str_len (fmt_zero w z)
  = max w ((if bool_decide (z < 0)%Z then 1 else 0) + str_len (dec (Z.to_N (Z.abs z)))).
Proof.
  unfold fmt_zero. rewrite !str_len_app, zeros_len. case_bool_decide; unfold str_len; simpl; lia.
Qed.

(** Seven-bit text: every index is a character boundary. *)
Definition is_ascii_text (s : string) : Prop := Forall (λ c, (byte_val c < 128)%N) (as_bytes s).

Lemma is_ascii_app s s' : is_ascii_text s → is_ascii_text s' → is_ascii_text (s +:+ s').
Proof. unfold is_ascii_text. rewrite as_bytes_app. apply Forall_app_2. Qed.

Lemma is_digit_ascii c : is_digit c → (byte_val c < 128)%N.
Proof. intros [d Hd]. unfold digit_val, in_range in Hd. case_bool_decide; [lia|done]. Qed.

Lemma zeros_ascii k : is_ascii_text (zeros k).
Proof. induction k; [by constructor|]. by constructor. Qed.

Lemma fmt_zero_ascii w z : is_ascii_text (fmt_zero w z).
Proof.
  unfold fmt_zero. apply is_ascii_app; [case_bool_decide; repeat constructor|].
  apply is_ascii_app; [apply zeros_ascii|].
  eapply Forall_impl; [apply dec_digits|]. intros c. apply is_digit_ascii.
Qed.

Lemma ascii_boundary s i : is_ascii_text s → i ≤ str_len s → is_char_boundary s i = true.
Proof.
  intros Ha Hi. unfold is_char_boundary. case_bool_decide as Hb; [done|].
  destruct (lookup_lt_is_Some_2 (as_bytes s) i) as [c Hc]; [unfold str_len in *; lia|].
  rewrite Hc. unfold is_ascii_text in Ha. rewrite Forall_lookup in Ha. specialize (Ha _ _ Hc).
  unfold in_range. by rewrite bool_decide_false by lia.
Qed.

Lemma str_get_app a b c :
  is_ascii_text (a +:+ b +:+ c) →
  str_get (a +:+ b +:+ c) (str_len a) (str_len a + str_len b) = Some b.
Proof.
  intros Ha. unfold str_get.
  rewrite !ascii_boundary by (done || rewrite !str_len_app; lia).
  rewrite bool_decide_true by (rewrite !str_len_app; lia). simpl.
  replace (str_len a + str_len b - str_len a) with (str_len b) by lia.
  unfold str_len. by rewrite !as_bytes_app, drop_app_length, take_app_length, of_as_bytes.
Qed.

Lemma mjoin_singles {A} (l : list A) : mjoin ((λ b, [b]) <$> l) = l.
Proof. induction l as [|a l IH]; [done|]. simpl. by f_equal. Qed.

(** ** Joining *)

(** [join] of the pieces of a split. *)
Fixpoint join (c : ascii) (l : list string) : string :=
  match l with
  | [] => ""
  | [x] => x
  | x :: l' => x +:+ String c (join c l')
  end.

Lemma join_cons c x l : l ≠ [] → join c (x :: l) = x +:+ String c (join c l).
Proof. by destruct l. Qed.

Lemma join_app c l l' : l ≠ [] → l' ≠ [] → join c (l ++ l') = join c l +:+ String c (join c l').
Proof.
  intros Hl Hl'. induction l as [|x l IH]; [done|]. destruct l as [|y l].
  - simpl app. by rewrite join_cons.
  - change ((x :: y :: l) ++ l') with (x :: ((y :: l) ++ l')).
    rewrite join_cons, IH by done. rewrite (join_cons c x (y :: l)) by done.
    apply as_bytes_inj. rewrite !as_bytes_app. simpl.
    change (as_bytes (String c ?s)) with (c :: as_bytes s). by rewrite <-app_assoc, as_bytes_app.
Qed.

Lemma join_split c s : join c (split_on c s) = s.
Proof.
  induction s as [|a s IH]; [done|]. simpl. case_bool_decide as Ha.
  - rewrite join_cons by apply split_on_nonempty. by rewrite IH, Ha.
  - destruct (split_on c s) as [|x l] eqn:E; [by apply split_on_nonempty in E|].
    destruct l; simpl in *; by rewrite <-IH.
Qed.

Lemma split_on_inj c s s' : split_on c s = split_on c s' → s = s'.
Proof. intros H. by rewrite <-(join_split c s), H, join_split. Qed.

Lemma starts_with_iff s p : starts_with s p = true ↔ ∃ r, s = p +:+ r.
Proof.
  unfold starts_with. rewrite bool_decide_eq_true. split.
  - intros [r Hr]. exists (of_bytes r). apply as_bytes_inj. by rewrite as_bytes_app, as_of_bytes.
  - intros [r ->]. rewrite as_bytes_app. by eexists.
Qed.

Lemma strip_prefix_Some p s r : strip_prefix p s = Some r ↔ s = p +:+ r.
Proof.
  unfold strip_prefix. destruct (starts_with s p) eqn:E.
  - apply starts_with_iff in E as [r' ->]. rewrite as_bytes_app. unfold str_len.
    rewrite drop_app_length, of_as_bytes. split; [by intros [= ->]|].
    intros H%(f_equal as_bytes). rewrite !as_bytes_app in H. apply app_inv_head in H.
    f_equal. by apply as_bytes_inj.
  - split; [done|]. intros ->. by rewrite (proj2 (starts_with_iff _ _)) in E by eauto.
Qed.

Lemma strip_prefix_app p r : strip_prefix p (p +:+ r) = Some r.
Proof. by apply strip_prefix_Some. Qed.

Lemma utf8_head_ascii b l : (byte_val b < 128)%N → utf8_head (b :: l) = (true, 1).
Proof. intros Hb. unfold utf8_head. simpl. unfold in_range at 1. by rewrite bool_decide_true by lia. Qed.

Lemma ascii_utf8 s : is_ascii_text s → utf8_valid (as_bytes s) = true.
Proof.
  unfold utf8_valid, is_ascii_text. generalize (as_bytes s). intros l.
  assert (Hg : ∀ fuel, length l ≤ fuel → Forall (λ c, (byte_val c < 128)%N) l → utf8_valid_go fuel l = true); [|by apply Hg].
  induction l as [|c l IH]; intros fuel Hf Hl; [by destruct fuel|].
  destruct fuel as [|fuel]; [cbn in Hf; lia|]. apply Forall_cons in Hl as [Hc Hl].
  cbn [utf8_valid_go]. rewrite utf8_head_ascii by done. cbn. apply IH; [cbn in Hf; lia|done].
Qed.

(** Seven-bit text has one character a byte. *)
Lemma chars_ascii s : is_ascii_text s → chars s = (λ b, [b]) <$> as_bytes s.
Proof.
  unfold chars, str_len, is_ascii_text. generalize (as_bytes s). intros l Hl.
  induction l as [|b l IH]; [done|]. apply Forall_cons in Hl as [Hb Hl].
  simpl length. cbn [chars_go]. rewrite utf8_head_ascii by done. cbn. f_equal. by apply IH.
Qed.

Lemma chars_nonempty s : s ≠ "" → chars s ≠ [].
Proof. by destruct s. Qed.

Lemma strip_suffix_Some p s r : strip_suffix p s = Some r ↔ s = r +:+ p.
Proof.
  unfold strip_suffix. case_bool_decide as E.
  - destruct E as [l Hl]. assert (s = of_bytes l +:+ p) as ->.
    { apply as_bytes_inj. by rewrite as_bytes_app, as_of_bytes. }
    rewrite as_bytes_app, str_len_app, as_of_bytes. unfold str_len. rewrite as_of_bytes.
    replace (length l + length (as_bytes p) - length (as_bytes p)) with (length l) by lia.
    rewrite take_app_length. split; [by intros [= <-]|]. intros H%(f_equal as_bytes).
    rewrite !as_bytes_app, as_of_bytes in H. apply app_inv_tail in H as ->. by rewrite of_as_bytes.
  - split; [done|]. intros ->. destruct E. rewrite as_bytes_app. by eexists.
Qed.
