(* ===== verification/Value.v ===== *)
(** * Msgpack values

    [rmpv::Value] is the vocabulary in which every message, scope and answer
    of the runtime is written.  The type below has exactly the variants the
    repository's own patterns name; the accessors are the ones it calls.  The
    encoding of a value as bytes is the library's and stays a parameter,
    [Codec].

    ** [BTreeMap]: a map iterated in key order

    The repository keeps its registries, scope declarations and handle tables
    in [BTreeMap]s and relies on their iteration being in key order.  A
    sorted association list is that map: [get], [insert], [remove] and
    iteration, with the laws the components use.  [Ordered] is the key order
    ([Ord] in Rust), with instances for strings, integers and pairs. *)

From Stdlib Require Import SpecFloat.
From S2P Require Import Prelude.
From S2P Require Import Bytes.

(** A msgpack string may hold bytes that are not UTF-8, so it is bytes here;
    integers are the union of [u64] and [i64]; an ext tag is an [i8]. *)
Inductive Value :=
  | VNil
  | VBool (b : bool)
  | VInt (z : Z)
  | VF32 (f : spec_float)
  | VF64 (f : spec_float)
  | VStr (s : bytes)
  | VBin (b : bytes)
  | VArr (vs : list Value)
  | VMap (kvs : list (Value * Value))
  | VExt (tag : Z) (b : bytes).

(** [Value::from(&str)] and [Value::from] of an unsigned integer. *)
Definition vstr (s : string) : Value := VStr (as_bytes s).
Definition vnat (n : N) : Value := VInt (Z.of_N n).

Definition as_str (v : Value) : option string :=
  match v with VStr b => from_utf8 b | _ => None end.
Definition is_str (v : Value) : bool :=
  match as_str v with Some _ => true | None => false end.
Definition as_map (v : Value) : option (list (Value * Value)) :=
  match v with VMap kvs => Some kvs | _ => None end.
Definition is_map (v : Value) : bool := match v with VMap _ => true | _ => false end.
Definition as_array (v : Value) : option (list Value) :=
  match v with VArr vs => Some vs | _ => None end.
Definition as_u64 (v : Value) : option N :=
  match v with
  | VInt z => if bool_decide (0 ≤ z < 2 ^ 64)%Z then Some (Z.to_N z) else None
  | _ => None
  end.

(** The key test the repository writes everywhere:
    [k.as_str() == Some(key)]. *)
Definition key_is (key : string) (k : Value) : bool :=
  bool_decide (as_str k = Some key).

(** Induction through the nested lists. *)
Section value_ind.
Variable P : Value → Prop.
Hypothesis Hnil : P VNil.
Hypothesis Hbool : ∀ b, P (VBool b).
Hypothesis Hint : ∀ z, P (VInt z).
Hypothesis Hf32 : ∀ f, P (VF32 f).
Hypothesis Hf64 : ∀ f, P (VF64 f).
Hypothesis Hstr : ∀ s, P (VStr s).
Hypothesis Hbin : ∀ b, P (VBin b).
Hypothesis Harr : ∀ vs, Forall P vs → P (VArr vs).
Hypothesis Hmap : ∀ kvs, Forall (λ kv, P kv.1 ∧ P kv.2) kvs → P (VMap kvs).
Hypothesis Hext : ∀ t b, P (VExt t b).

Fixpoint value_ind (v : Value) : P v :=
  match v with
  | VNil => Hnil
  | VBool b => Hbool b
  | VInt z => Hint z
  | VF32 f => Hf32 f
  | VF64 f => Hf64 f
  | VStr s => Hstr s
  | VBin b => Hbin b
  | VArr vs =>
      Harr vs ((fix go (l : list Value) : Forall P l :=
                  match l with
                  | [] => Forall_nil_2 P
                  | x :: l' => Forall_cons_2 P x l' (value_ind x) (go l')
                  end) vs)
  | VMap kvs =>
      Hmap kvs ((fix go (l : list (Value * Value)) : Forall (λ kv, P kv.1 ∧ P kv.2) l :=
                   match l with
                   | [] => Forall_nil_2 _
                   | (k, x) :: l' =>
                       Forall_cons_2 (λ kv, P kv.1 ∧ P kv.2) (k, x) l'
                         (conj (value_ind k) (value_ind x)) (go l')
                   end) kvs)
  | VExt t b => Hext t b
  end.
End value_ind.

(** ** Floats as Rust compares and converts them *)

(** [1e18] as an [f64]. *)
Definition f64_1e18 : spec_float := S754_finite false 7812500000000000 7.

(** [f >= 0.0]: true of both zeroes, false of a NaN. *)
Definition f_nonneg (f : spec_float) : bool := SFleb (S754_zero false) f.
Definition f_lt_1e18 (f : spec_float) : bool := SFltb f f64_1e18.

Definition u64_max : N := (2 ^ 64 - 1)%N.

(** [f as u64]: truncation, saturating at both ends, zero for a NaN. *)
Definition f_as_u64 (f : spec_float) : N :=
  match f with
  | S754_finite false m e => N.min (Z.to_N (Z.shiftl (Z.pos m) e)) u64_max
  | S754_infinity false => u64_max
  | _ => 0%N
  end.

(** ** The codec: [rmpv::encode::write_value] and [rmpv::decode::read_value]

    [write_value] gives the bytes appended to the buffer, [None] for an
    encoding error; [read_value] gives the value and the bytes left after
    it. *)
Class Codec := {
  write_value : Value → option bytes;
  read_value : bytes → option (Value * bytes);
}.

(** How deeply a value nests. *)
Fixpoint vdepth (v : Value) : nat :=
  match v with
  | VArr vs => S (foldr (λ x n, max (vdepth x) n) 0 vs)
  | VMap kvs => S (foldr (λ '(k, x) n, max (max (vdepth k) (vdepth x)) n) 0 kvs)
  | _ => 0
  end.

(** The decoder's own nesting limit ([rmpv]'s [MAX_DEPTH]). *)
Definition MAX_DEPTH : nat := 1024.

(** What the msgpack library documents: a value written that nests within
    the limit is the value read, whatever follows it. *)
Class CodecLaws `{Codec} : Prop := {
  read_write v bs rest :
    write_value v = Some bs → vdepth v < MAX_DEPTH → read_value (bs ++ rest) = Some (v, rest);
}.

Lemma vdepth_map_cons k v kvs :
  vdepth (VMap ((k, v) :: kvs)) = S (max (max (vdepth k) (vdepth v)) (Nat.pred (vdepth (VMap kvs)))).
Proof. done. Qed.

(** [Ord]: a decidable strict total order. *)
Class Ordered (K : Type) := { klt : K → K → bool }.
Class OrderedLaws (K : Type) `{Ordered K} : Prop := {
  klt_irrefl k : klt k k = false;
  klt_trans a b c : klt a b = true → klt b c = true → klt a c = true;
  klt_total a b : klt a b = false → klt b a = false → a = b;
}.

Abbreviation btree K V := (list (K * V)).

Section btree.
Context {K V : Type} `{!EqDecision K} `{!Ordered K}.

Fixpoint bt_get (k : K) (m : btree K V) : option V :=
  match m with
  | [] => None
  | (k', v) :: m' => if decide (k' = k) then Some v else bt_get k m'
  end.

(** [BTreeMap::insert]: a key already there keeps its place. *)
Fixpoint bt_insert (k : K) (v : V) (m : btree K V) : btree K V :=
  match m with
  | [] => [(k, v)]
  | (k', v') :: m' =>
      if decide (k' = k) then (k, v) :: m'
      else if klt k k' then (k, v) :: (k', v') :: m'
      else (k', v') :: bt_insert k v m'
  end.

Definition bt_remove (k : K) (m : btree K V) : btree K V :=
  filter (λ kv, kv.1 ≠ k) m.

Definition bt_keys (m : btree K V) : list K := m.*1.
Definition bt_values (m : btree K V) : list V := m.*2.

(** Strictly increasing keys. *)
Definition bt_sorted (m : btree K V) : Prop :=
  ∀ i j a b, i < j → m !! i = Some a → m !! j = Some b → klt a.1 b.1 = true.

Lemma bt_get_insert_eq k v m : bt_get k (bt_insert k v m) = Some v.
Proof.
  induction m as [|[k' v'] m IH]; simpl; [by rewrite decide_True|].
  case_decide; simpl; [by rewrite decide_True|].
  destruct (klt k k'); simpl; [by rewrite decide_True|]. by rewrite decide_False.
Qed.

Lemma bt_get_insert_ne k k' v m : k ≠ k' → bt_get k' (bt_insert k v m) = bt_get k' m.
Proof.
  intros Hne. induction m as [|[k0 v0] m IH]; simpl; [by rewrite decide_False|].
  case_decide as E; simpl.
  { subst. by rewrite !decide_False. }
  destruct (klt k k0); simpl; [by rewrite (decide_False (P := k = k'))|]. by rewrite IH.
Qed.

Lemma bt_get_remove_eq k m : bt_get k (bt_remove k m) = None.
Proof.
  unfold bt_remove. induction m as [|[k' v'] m IH]; [done|].
  destruct (decide (k' = k)) as [->|Hne].
  - by rewrite filter_cons_False by naive_solver.
  - rewrite filter_cons_True by done. simpl. by rewrite decide_False.
Qed.

Lemma bt_get_remove_ne k k' m : k ≠ k' → bt_get k' (bt_remove k m) = bt_get k' m.
Proof.
  intros Hne. unfold bt_remove. induction m as [|[k0 v0] m IH]; [done|]. simpl.
  destruct (decide (k0 = k)) as [->|].
  - rewrite filter_cons_False by naive_solver. by rewrite (decide_False (P := k = k')).
  - rewrite filter_cons_True by done. simpl. by case_decide.
Qed.

Lemma bt_get_elem k v m : bt_get k m = Some v → (k, v) ∈ m.
Proof.
  induction m as [|[k' v'] m IH]; simpl; [done|].
  case_decide; [intros [= ->]; subst; left|]. intros ?. right. auto.
Qed.

Lemma bt_keys_insert_elem k v m k' :
  k' ∈ bt_keys (bt_insert k v m) ↔ k' = k ∨ k' ∈ bt_keys m.
Proof.
  unfold bt_keys. induction m as [|[k0 v0] m IH]; simpl; [by rewrite !elem_of_cons|].
  case_decide; [subst|destruct (klt k k0)]; simpl; rewrite ?elem_of_cons, ?IH; naive_solver.
Qed.

Lemma bt_keys_remove_elem k m k' :
  k' ∈ bt_keys (bt_remove k m) ↔ k' ≠ k ∧ k' ∈ bt_keys m.
Proof.
  unfold bt_keys, bt_remove. rewrite !list_elem_of_fmap. split.
  - intros ([k0 v0] & -> & [? ?]%list_elem_of_filter). split; [done|].
    by exists (k0, v0).
  - intros (Hne & [k0 v0] & -> & Hin). exists (k0, v0).
    split; [done|]. by apply list_elem_of_filter.
Qed.

Lemma bt_get_is_Some k m : is_Some (bt_get k m) ↔ k ∈ bt_keys m.
Proof.
  unfold bt_keys. induction m as [|[k' v'] m IH]; simpl.
  { rewrite is_Some_alt. set_solver. }
  case_decide; [subst; split; [set_solver|done]|]. rewrite IH. set_solver.
Qed.

(** Inserting at a key that is there keeps the keys. *)
Lemma bt_get_is_Some_insert_keys k v m :
  is_Some (bt_get k m) → bt_sorted m → OrderedLaws K →
  bt_keys (bt_insert k v m) = bt_keys m.
Proof.
  intros Hk Hs Hl. induction m as [|[k' v'] m IH]; simpl in *; [by destruct Hk|].
  case_decide as E; [by subst|].
  assert (k ∈ bt_keys m) as Hin by by apply bt_get_is_Some.
  unfold bt_keys in Hin. apply list_elem_of_fmap in Hin as (kv & -> & [i Hi]%list_elem_of_lookup).
  assert (klt k' kv.1 = true) as Hlt.
  { by apply (Hs 0 (S i) (k', v') kv); [lia|..]. }
  destruct (klt kv.1 k') eqn:Hlt'.
  { pose proof (klt_trans _ _ _ Hlt Hlt') as Hc. by rewrite klt_irrefl in Hc. }
  unfold bt_keys. cbn [fmap list_fmap fst]. f_equal. apply IH; [done|].
  intros a b x y Hab Hx Hy. by apply (Hs (S a) (S b)); [lia|..].
Qed.

Lemma bt_get_None k m : bt_get k m = None ↔ k ∉ bt_keys m.
Proof. rewrite <-bt_get_is_Some. by rewrite <-eq_None_not_Some. Qed.
End btree.

Section sorted.
Context {K V : Type} `{!EqDecision K} `{!Ordered K, !OrderedLaws K}.
Implicit Types m : btree K V.

Lemma bt_sorted_nil : bt_sorted ([] : btree K V).
Proof. by intros i j a b _ ?. Qed.

Lemma bt_sorted_cons k v m :
  bt_sorted ((k, v) :: m) ↔ (∀ k', k' ∈ bt_keys m → klt k k' = true) ∧ bt_sorted m.
Proof.
  split.
  - intros H. split.
    + intros k' Hin. unfold bt_keys in Hin.
      apply list_elem_of_fmap in Hin as ([k0 v0] & -> & [i Hi]%list_elem_of_lookup).
      by apply (H 0 (S i) (k, v) (k0, v0)); [lia|..].
    + intros i j a b Hij Ha Hb. by apply (H (S i) (S j)); [lia|..].
  - intros [Hk Hm] [|i] [|j] a b Hij Ha Hb; simplify_eq/=; try lia.
    + apply Hk. unfold bt_keys. apply list_elem_of_fmap. exists b.
      split; [done|]. by apply list_elem_of_lookup_2 in Hb.
    + by apply (Hm i j); [lia|..].
Qed.

Lemma bt_sorted_insert k v m : bt_sorted m → bt_sorted (bt_insert k v m).
Proof.
  induction m as [|[k' v'] m IH]; simpl; intros Hm.
  { apply bt_sorted_cons. split; [set_solver|apply bt_sorted_nil]. }
  pose proof (proj1 (bt_sorted_cons _ _ _) Hm) as [Hk Hm'].
  destruct (decide (k' = k)) as [->|Hne]; [by apply bt_sorted_cons|].
  destruct (klt k k') eqn:Hlt; apply bt_sorted_cons; split; auto.
  - intros k0. unfold bt_keys. simpl. intros [->|Hin]%elem_of_cons; [done|].
    by eapply klt_trans, Hk.
  - intros k0 [->|Hin]%bt_keys_insert_elem; [|by apply Hk].
    destruct (klt k' k) eqn:Hlt'; [done|]. by destruct Hne; apply klt_total.
Qed.

Lemma bt_sorted_remove k m : bt_sorted m → bt_sorted (bt_remove k m).
Proof.
  induction m as [|[k' v'] m IH]; [done|]. intros [Hk Hm]%bt_sorted_cons.
  unfold bt_remove. destruct (decide (k' = k)) as [->|Hne].
  - rewrite filter_cons_False by naive_solver. by apply IH.
  - rewrite filter_cons_True by done. apply bt_sorted_cons. split; [|by apply IH].
    intros k0 [_ Hin]%bt_keys_remove_elem. by apply Hk.
Qed.

Lemma bt_sorted_NoDup m : bt_sorted m → NoDup (bt_keys m).
Proof.
  induction m as [|[k v] m IH]; intros Hm; [constructor|].
  apply bt_sorted_cons in Hm as [Hk Hm]. constructor; [|by apply IH].
  intros Hin%Hk. rewrite klt_irrefl in Hin. done.
Qed.

Lemma bt_sorted_get_elem m k v : bt_sorted m → (k, v) ∈ m → bt_get k m = Some v.
Proof.
  induction m as [|[k' v'] m IH]; intros Hm Hin; [by apply not_elem_of_nil in Hin|].
  apply bt_sorted_cons in Hm as [Hk Hm].
  apply elem_of_cons in Hin as [[= -> ->]|Hin]; simpl; [by rewrite decide_True|].
  rewrite decide_False; [by apply IH|]. intros ->.
  assert (klt k k = true) as Hlt.
  { apply Hk. unfold bt_keys. apply list_elem_of_fmap. by exists (k, v). }
  by rewrite klt_irrefl in Hlt.
Qed.
End sorted.

(** ** Key orders *)

#[export] Instance N_ordered : Ordered N := {| klt := N.ltb |}.
#[export] Instance N_ordered_laws : OrderedLaws N.
Proof.
  split; simpl; intros; rewrite ?N.ltb_lt, ?N.ltb_ge in *; try lia.
Qed.

(** Strings compare byte by byte. *)
#[export] Instance string_ordered : Ordered string := {| klt := String.ltb |}.

Lemma string_compare_trans_lt a b c :
  String.compare a b = Lt → String.compare b c = Lt → String.compare a c = Lt.
Proof.
  revert b c; induction a as [|x a IH]; intros [|y b] [|z c]; simpl; try done.
  unfold Ascii.compare.
  destruct (N.compare_spec (N_of_ascii x) (N_of_ascii y)) as [E1|E1|E1];
    destruct (N.compare_spec (N_of_ascii y) (N_of_ascii z)) as [E2|E2|E2]; try done;
    intros H1 H2;
    destruct (N.compare_spec (N_of_ascii x) (N_of_ascii z)) as [E3|E3|E3]; try done;
    try lia. eauto.
Qed.

#[export] Instance string_ordered_laws : OrderedLaws string.
Proof.
  split; simpl; unfold String.ltb.
  - intros k. destruct (String.compare k k) eqn:E; try done.
    pose proof (String.compare_antisym k k) as H. by rewrite E in H.
  - intros a b c. destruct (String.compare a b) eqn:E1; [done| |done].
    destruct (String.compare b c) eqn:E2; [done| |done]. intros _ _.
    by rewrite (string_compare_trans_lt _ _ _ E1 E2).
  - intros a b. rewrite (String.compare_antisym a b).
    destruct (String.compare b a) eqn:E; simpl; try done.
    intros _ _. symmetry. by apply String.compare_eq_iff.
Qed.

(** Pairs compare lexicographically. *)
#[export] Instance prod_ordered {A B} `{Ordered A, Ordered B} `{EqDecision A} :
  Ordered (A * B) := {|
    klt x y := klt x.1 y.1 || (bool_decide (x.1 = y.1) && klt x.2 y.2)
  |}.
#[export] Instance prod_ordered_laws {A B}
  `{!EqDecision A} `{!Ordered A, !Ordered B, !OrderedLaws A, !OrderedLaws B} :
  OrderedLaws (A * B).
Proof.
  split; simpl.
  - intros [a b]; simpl. by rewrite !klt_irrefl, andb_false_r.
  - intros [a1 b1] [a2 b2] [a3 b3]; simpl.
    rewrite !orb_true_iff, !andb_true_iff, !bool_decide_eq_true.
    intros [|[-> ?]] [|[-> ?]]; [left|left|left|right]; eauto using klt_trans.
  - intros [a1 b1] [a2 b2]; simpl. rewrite !orb_false_iff.
    intros [H1 H2] [H3 H4]. pose proof (klt_total _ _ H1 H3) as ->.
    rewrite bool_decide_true in H2, H4 by done. simpl in *.
    by rewrite (klt_total _ _ H2 H4).
Qed.
