(* ===== verification/Caps.v ===== *)
(** * The capability grammar ([crates/drt-caps/src/lib.rs])

    Names and trailing-star patterns ([implies]), grants and denies, the
    capability set with its provenance, attenuation, and the scope-type
    registry that gates a configuration at startup. *)

From S2P Require Import Prelude.
From S2P Require Import Bytes.
From S2P Require Import Value.

(** ** Patterns *)

Definition star : ascii := "*"%char.

(** [implies]: exact match, or a trailing [*] that covers a prefix; a bare
    ["*"] is a literal. *)
Definition implies (held want : string) : bool :=
  let held := as_bytes held in
  let want := as_bytes want in
  let n := length held in
  if bool_decide (1 < n ∧ held !! (n - 1) = Some star) then
    let prefix := take (n - 1) held in
    bool_decide (length prefix ≤ length want ∧ take (length prefix) want = prefix)
  else bool_decide (held = want).

Definition call_capability (call : string) : string := "host:" +:+ call.

Inductive Effect := Grant_ | Deny.
Global Instance Effect_eq_dec : EqDecision Effect.
Proof. solve_decision. Defined.

Record Scope := MkScope { scope_value : Value }.

Record Grant := MkGrant {
  effect : Effect;
  capability : string;
  scope : option Scope
}.

Definition grant (capability : string) : Grant := MkGrant Grant_ capability None.
Definition deny (capability : string) : Grant := MkGrant Deny capability None.
Definition with_scope (g : Grant) (v : Value) : Grant :=
  MkGrant (effect g) (capability g) (Some (MkScope v)).

Definition is_grant (g : Grant) : bool := bool_decide (effect g = Grant_).
Definition is_deny (g : Grant) : bool := bool_decide (effect g = Deny).

Definition Principal := string.

Inductive AttenuationError :=
  | NotHeldByParent (capability : string)
  | DenyDropped (capability : string).
Global Instance AttenuationError_eq_dec : EqDecision AttenuationError.
Proof. solve_decision. Defined.

(** The [Display] of an attenuation refusal. *)
Definition attenuation_error_text (e : AttenuationError) : string :=
  match e with
  | NotHeldByParent c =>
      "'" +:+ c +:+ "' is not covered by any grant the parent holds; a grant may only narrow"
  | DenyDropped c =>
      "the parent denies '" +:+ c +:+ "' and the child does not; a deny may only grow"
  end.

(** ** Capability sets and provenance *)

(** An [Arc<CapSet>] is the set itself: nothing mutates one. *)
Inductive CapSet :=
  | MkCapSet (grants : list Grant) (provenance : Provenance) (holder : option Principal)
with Provenance :=
  | Root
  | Granted (by_ : Principal) (from : CapSet).

Definition grants (c : CapSet) : list Grant := let 'MkCapSet gs _ _ := c in gs.
Definition provenance (c : CapSet) : Provenance := let 'MkCapSet _ p _ := c in p.
Definition holder (c : CapSet) : option Principal := let 'MkCapSet _ _ h := c in h.

Module CapSet.

Definition root (gs : list Grant) : CapSet := MkCapSet gs Root None.
Definition root_held_by (h : Principal) (gs : list Grant) : CapSet :=
  MkCapSet gs Root (Some h).

(** [CapSet::holds]: some grant implies it and no deny does. *)
Definition holds (c : CapSet) (want : string) : bool :=
  let denied := existsb (λ g, is_deny g && implies (capability g) want) (grants c) in
  negb denied && existsb (λ g, is_grant g && implies (capability g) want) (grants c).

Definition may_grant (c : CapSet) (cap : string) : bool := holds c cap.

(** [CapSet::attenuate_held_by]: every child grant is one the parent may
    pass on, then every parent deny is covered by a child deny. *)
Definition attenuate_held_by (parent : CapSet) (h : option Principal)
    (by_ : Principal) (gs : list Grant) : CapSet + AttenuationError :=
  match find_first (λ g, is_grant g && negb (may_grant parent (capability g))) gs with
  | Some g => inr (NotHeldByParent (capability g))
  | None =>
      let covered (pd : Grant) :=
        existsb (λ child, is_deny child && implies (capability child) (capability pd)) gs in
      match find_first (λ pd, is_deny pd && negb (covered pd)) (grants parent) with
      | Some pd => inr (DenyDropped (capability pd))
      | None => inl (MkCapSet gs (Granted by_ parent) h)
      end
  end.

Definition attenuate (parent : CapSet) (by_ : Principal) (gs : list Grant) :
    CapSet + AttenuationError :=
  attenuate_held_by parent None by_ gs.

(** [CapSet::chain]: each step is the granting principal and the set it
    attenuated from, this set's first. *)
Fixpoint chain (c : CapSet) : list (Principal * CapSet) :=
  match c with
  | MkCapSet _ Root _ => []
  | MkCapSet _ (Granted by_ from) _ => (by_, from) :: chain from
  end.

End CapSet.

(** ** Scope types and the startup gate *)

(** [ScopeType]: what a capability's scopes look like, and whether one
    qualifies ([None] is [Ok], [Some] the refusal). *)
Record ScopeType := MkScopeType {
  describe : string;
  validate_scope : option Scope → option string
}.

Definition NoScope : ScopeType := {|
  describe := "no scope";
  validate_scope scope := match scope with None => None | Some _ => Some "takes no scope" end
|}.

Record ScopeError := MkScopeError {
  se_capability : string;
  se_expected : string;
  se_detail : string
}.

(** Capability pattern to declared scope type, iterated in name order. *)
Definition ScopeRegistry := btree string ScopeType.

Module ScopeRegistry.

Definition new : ScopeRegistry := [].
Definition declare (r : ScopeRegistry) (cap : string) (ty : ScopeType) : ScopeRegistry :=
  bt_insert cap ty r.

(** The inner loop of [validate]: every declaration whose pattern covers the
    grant, in name order, until one refuses. *)
Fixpoint validate_one (types : ScopeRegistry) (g : Grant) : option ScopeError :=
  match types with
  | [] => None
  | (pattern, ty) :: types' =>
      if implies pattern (capability g) then
        match validate_scope ty (scope g) with
        | Some detail => Some (MkScopeError (capability g) (describe ty) detail)
        | None => validate_one types' g
        end
      else validate_one types' g
  end.

Fixpoint validate (r : ScopeRegistry) (gs : list Grant) : option ScopeError :=
  match gs with
  | [] => None
  | g :: gs' =>
      match validate_one r g with
      | Some e => Some e
      | None => validate r gs'
      end
  end.

End ScopeRegistry.

(** ** The peer family, reserved *)

Definition PEER_FAMILY : string := "host:peer/*".
Definition peer_capability (role : string) : string := "host:peer/" +:+ role.

Definition PeerScope : ScopeType := {|
  describe := "no scope yet; narrowing a peer grant to particular queues is not settled";
  validate_scope scope :=
    match scope with
    | None => None
    | Some _ => Some
        "a peer grant takes no scope in this build: which queues a cap may narrow to is not settled, and a scope accepted now could mean something else later"
    end
|}.

(** ** Theory of patterns *)

(** What a pattern covers: the prefix before its star. *)
Definition pattern_prefix (held : string) : option bytes :=
  let h := as_bytes held in
  if bool_decide (1 < length h ∧ last h = Some star) then Some (take (length h - 1) h)
  else None.

(** A name or pattern that does not end in two stars. *)
Definition clean (held : string) : bool :=
  match pattern_prefix held with
  | Some p => bool_decide (last p ≠ Some star)
  | None => true
  end.

Lemma pattern_prefix_Some held p :
  pattern_prefix held = Some p ↔ as_bytes held = p ++ [star] ∧ p ≠ [].
Proof.
  unfold pattern_prefix. case_bool_decide as H.
  - destruct H as [Hlen [l Hl]%last_Some]. rewrite Hl, length_app in *. simpl in *.
    rewrite Nat.add_sub, take_app_length. split.
    + intros [= <-]. split; [done|]. intros ->. simpl in Hlen. lia.
    + intros [[-> _]%app_inj_tail _]. done.
  - split; [done|]. intros [Hh Hp]. destruct H. rewrite Hh, last_snoc, length_app.
    destruct p; simpl; [done|]. split; [lia|done].
Qed.

Lemma implies_pattern held want :
  implies held want = true ↔
    match pattern_prefix held with
    | Some p => p `prefix_of` as_bytes want
    | None => held = want
    end.
Proof.
  unfold implies, pattern_prefix. rewrite last_lookup.
  replace (Init.Nat.pred (length (as_bytes held))) with (length (as_bytes held) - 1) by lia.
  case_bool_decide; rewrite bool_decide_eq_true.
  - set (p := take _ _). split.
    + intros [_ Hp]. exists (drop (length p) (as_bytes want)).
      by rewrite <-Hp at 1; rewrite take_drop.
    + intros [k ->]. by rewrite length_app, take_app_length; split; [lia|].
  - split; [apply as_bytes_inj|by intros ->].
Qed.

Lemma implies_refl c : implies c c = true.
Proof.
  apply implies_pattern. destruct (pattern_prefix c) as [p|] eqn:Hp; [|done].
  apply pattern_prefix_Some in Hp as [-> _]. by exists [star].
Qed.

(** Coverage composes, as long as the outer name does not end in two stars. *)
Lemma implies_trans a b c :
  clean a = true → implies a b = true → implies b c = true → implies a c = true.
Proof.
  unfold clean. rewrite !implies_pattern.
  destruct (pattern_prefix a) as [p|] eqn:Ha; [|by intros _ ->; rewrite Ha].
  intros Hp%bool_decide_eq_true.
  destruct (pattern_prefix b) as [q|] eqn:Hb; [|by intros ? ->].
  apply pattern_prefix_Some in Hb as [-> Hq]. intros Hpq Hqc.
  trans q; [|done]. destruct Hpq as [k Hk].
  destruct k as [|x k _] using rev_ind.
  - rewrite app_nil_r in Hk. subst p. by rewrite last_snoc in Hp.
  - rewrite app_assoc in Hk. apply app_inj_tail in Hk as [-> _]. by exists k.
Qed.

(** [implies] is exactly the documented grammar: a name of more than one
    byte ending in a star covers every name that starts with what precedes the
    star, and any other name, a bare star included, covers itself alone. *)
Theorem implies_spec held want :
  implies held want = true ↔
    (∃ p, as_bytes held = p ++ [star] ∧ p ≠ [] ∧ p `prefix_of` as_bytes want) ∨
    ((∀ p, as_bytes held = p ++ [star] → p = []) ∧ held = want).
Proof.
  rewrite implies_pattern. destruct (pattern_prefix held) as [p|] eqn:Hp.
  - apply pattern_prefix_Some in Hp as [Hh Hne]. split.
    + intros ?. left. eauto.
    + intros [(p' & Hh' & _ & Hpre)|[Hno _]].
      * rewrite Hh in Hh'. by apply app_inj_tail in Hh' as [-> _].
      * destruct Hne. auto.
  - assert (Hno : ∀ p, as_bytes held = p ++ [star] → p = []).
    { intros p Hh. destruct (decide (p = [])) as [|Hne]; [done|].
      assert (pattern_prefix held = Some p) by by apply pattern_prefix_Some.
      congruence. }
    split; [by right|]. intros [(p & Hh & Hne & _)|[_ ?]]; [|done]. by apply Hno in Hh.
Qed.

(** ** Theory of capability sets *)

Module CapSetFacts.
Import CapSet.

Lemma is_grant_deny g : is_grant g = negb (is_deny g).
Proof. unfold is_grant, is_deny. by destruct g as [[] ? ?]. Qed.

Lemma holds_iff c want :
  holds c want = true ↔
    (∃ g, g ∈ grants c ∧ is_grant g = true ∧ implies (capability g) want = true) ∧
    (∀ g, g ∈ grants c → is_deny g = true → implies (capability g) want = false).
Proof.
  unfold holds. rewrite andb_true_iff, negb_true_iff, existsb_elem_of,
    existsb_false_elem_of. setoid_rewrite andb_true_iff. setoid_rewrite andb_false_iff.
  split.
  - intros [Hd Hg]. split; [done|]. intros g Hin Hdeny.
    destruct (Hd g Hin); congruence.
  - intros [Hg Hd]. split; [|done]. intros g Hin.
    destruct (is_deny g) eqn:E; [right|left]; auto.
Qed.

(** What a successful attenuation checked. *)
Lemma attenuate_inv parent h by_ gs child :
  attenuate_held_by parent h by_ gs = Ok child →
  child = MkCapSet gs (Granted by_ parent) h ∧
  (∀ g, g ∈ gs → is_grant g = true → holds parent (capability g) = true) ∧
  (∀ pd, pd ∈ grants parent → is_deny pd = true →
     ∃ cd, cd ∈ gs ∧ is_deny cd = true ∧ implies (capability cd) (capability pd) = true).
Proof.
  unfold attenuate_held_by, may_grant.
  destruct (find_first _ gs) eqn:Hf; [done|].
  destruct (find_first _ (grants parent)) eqn:Hd; [done|]. intros [= <-].
  split_and!; [done| |].
  - intros g Hin Hg. pose proof (find_first_None _ _ _ Hf Hin) as Hc. simpl in Hc.
    rewrite Hg in Hc. by destruct (holds parent (capability g)).
  - intros pd Hin Hpd. pose proof (find_first_None _ _ _ Hd Hin) as Hc. simpl in Hc.
    rewrite Hpd in Hc. simpl in Hc. apply negb_false_iff, existsb_elem_of in Hc.
    destruct Hc as (cd & Hcd & [? ?]%andb_true_iff). eauto.
Qed.

Lemma attenuate_intro parent h by_ gs :
  (∀ g, g ∈ gs → is_grant g = true → holds parent (capability g) = true) →
  (∀ pd, pd ∈ grants parent → is_deny pd = true →
     ∃ cd, cd ∈ gs ∧ is_deny cd = true ∧ implies (capability cd) (capability pd) = true) →
  attenuate_held_by parent h by_ gs = Ok (MkCapSet gs (Granted by_ parent) h).
Proof.
  intros Hg Hd. unfold attenuate_held_by, may_grant.
  destruct (find_first _ gs) as [g|] eqn:Hf.
  { apply find_first_Some in Hf as [Hin [? Hn]%andb_true_iff].
    rewrite (Hg g) in Hn by done. done. }
  destruct (find_first _ (grants parent)) as [pd|] eqn:Hf'; [|done].
  apply find_first_Some in Hf' as [Hin [Hpd Hn]%andb_true_iff].
  destruct (Hd pd) as (cd & Hcd & Hcd' & Himp); [done..|].
  apply negb_true_iff in Hn. rewrite existsb_false_elem_of in Hn.
  specialize (Hn _ Hcd). by rewrite Hcd', Himp in Hn.
Qed.

(** Names that are safe to attenuate through: no grant of the parent and no
    deny of the child ends in two stars. *)
Definition clean_grants (gs : list Grant) : Prop :=
  ∀ g, g ∈ gs → is_grant g = true → clean (capability g) = true.
Definition clean_denies (gs : list Grant) : Prop :=
  ∀ g, g ∈ gs → is_deny g = true → clean (capability g) = true.

Lemma attenuate_narrows parent h by_ gs child want :
  clean_grants (grants parent) → clean_denies gs →
  attenuate_held_by parent h by_ gs = Ok child →
  holds child want = true → holds parent want = true.
Proof.
  intros Hcg Hcd (-> & Hg & Hd)%attenuate_inv. rewrite !holds_iff.
  intros [(g & Hin & Hgr & Himp) Hno]. simpl in *.
  pose proof (Hg _ Hin Hgr) as Hheld. apply holds_iff in Hheld as [(pg & ? & ? & ?) _].
  split; [exists pg; split_and!; eauto using implies_trans|].
  intros pd Hpd Hpd'. apply not_true_iff_false. intros Hpw.
  destruct (Hd pd) as (cd & Hcdin & Hcd' & Hcov); [done..|].
  specialize (Hno cd Hcdin Hcd').
  rewrite (implies_trans _ (capability pd)) in Hno; [done|by apply Hcd|done..].
Qed.

(** C8: When no grant of the parent and no deny of the child is a pattern
    ending in two stars, whatever a child set derived by [attenuate] holds its
    parent holds.  Both conditions are needed: [attenuate_widens] and
    [attenuate_sheds_deny]. *)
Theorem attenuate_sound parent h by_ gs child want :
  clean_grants (grants parent) → clean_denies gs →
  attenuate_held_by parent h by_ gs = Ok child →
  holds child want = true → holds parent want = true.
Proof. apply attenuate_narrows. Qed.

Lemma attenuate_sound_witness :
  let parent := CapSet.root [grant "host:fs/*"; deny "host:fs/secret"] in
  attenuate_held_by parent None "root" [grant "host:fs/read"; deny "host:fs/secret*"] =
    Ok (MkCapSet [grant "host:fs/read"; deny "host:fs/secret*"] (Granted "root" parent) None) ∧
  holds parent "host:fs/read" = true.
Proof.
  split; [reflexivity|].
  eapply (attenuate_sound _ None "root" [grant "host:fs/read"; deny "host:fs/secret*"]);
    [| |reflexivity|reflexivity];
    intros g Hg; repeat (apply elem_of_cons in Hg as [->|Hg]; [by vm_compute|]);
    by apply not_elem_of_nil in Hg.
Defined.

(** The guard on double stars is needed: attenuation can widen.  A parent
    whose one grant is [p**] may grant [p*], and the child then holds every name
    that starts with [p] where the parent holds only those that start with
    [p*]. *)
Theorem attenuate_widens p c rest h by_ :
  p ≠ "" → c ≠ star →
  let parent := CapSet.root [grant (p +:+ "**")] in
  let want := p +:+ String c rest in
  ∃ child,
    attenuate_held_by parent h by_ [grant (p +:+ "*")] = Ok child ∧
    holds child want = true ∧ holds parent want = false.
Proof.
  intros Hp Hc parent want.
  assert (Hne : as_bytes p ≠ []) by (by destruct p).
  assert (H2 : pattern_prefix (p +:+ "**") = Some (as_bytes p ++ [star])).
  { apply pattern_prefix_Some. rewrite as_bytes_app, <-app_assoc.
    split; [done|]. by destruct (as_bytes p). }
  assert (H1 : pattern_prefix (p +:+ "*") = Some (as_bytes p)).
  { apply pattern_prefix_Some. by rewrite as_bytes_app. }
  eexists. split; [apply attenuate_intro|split].
  - intros g ->%list_elem_of_singleton _. unfold parent, holds, root, grants. simpl.
    rewrite orb_false_r. apply implies_pattern. rewrite H2, as_bytes_app. done.
  - intros pd ->%list_elem_of_singleton Hd. by vm_compute in Hd.
  - unfold holds. simpl. rewrite orb_false_r. apply implies_pattern. rewrite H1.
    unfold want. rewrite as_bytes_app. by eexists.
  - unfold holds. simpl. rewrite orb_false_r.
    apply not_true_iff_false. rewrite implies_pattern, H2. unfold want.
    rewrite as_bytes_app. intros Hpre%prefix_app_inv. by apply prefix_cons_inv_1 in Hpre.
Qed.

Lemma attenuate_widens_witness :
  "host:" ≠ "" ∧
  ∃ child,
    attenuate_held_by (CapSet.root [grant "host:**"]) None "root" [grant "host:*"] = Ok child ∧
    holds child "host:fs/read" = true ∧
    holds (CapSet.root [grant "host:**"]) "host:fs/read" = false.
Proof.
  split; [done|]. exact (attenuate_widens "host:" "f" "s/read" None "root" ltac:(done) ltac:(done)).
Defined.

(** A deny can be shed the same way.  Under a parent that holds [p*] and
    denies [p/*], the child list that writes the deny as [p/**] passes the
    [DenyDropped] check, and the child holds names under [p/] the parent
    denies. *)
Theorem attenuate_sheds_deny p c rest h by_ :
  p ≠ "" → c ≠ star →
  let parent := CapSet.root [grant (p +:+ "*"); deny (p +:+ "/*")] in
  let want := p +:+ String "/" (String c rest) in
  ∃ child,
    attenuate_held_by parent h by_ [grant (p +:+ "*"); deny (p +:+ "/**")] = Ok child ∧
    holds child want = true ∧ holds parent want = false.
Proof.
  intros Hp Hc parent want.
  assert (Hne : as_bytes p ≠ []) by (by destruct p).
  assert (H1 : pattern_prefix (p +:+ "*") = Some (as_bytes p)).
  { apply pattern_prefix_Some. by rewrite as_bytes_app. }
  assert (H2 : pattern_prefix (p +:+ "/*") = Some (as_bytes p ++ as_bytes "/")).
  { apply pattern_prefix_Some. rewrite as_bytes_app, <-app_assoc.
    split; [done|]. by destruct (as_bytes p). }
  assert (H3 : pattern_prefix (p +:+ "/**") = Some (as_bytes p ++ as_bytes "/*")).
  { apply pattern_prefix_Some. rewrite as_bytes_app, <-app_assoc.
    split; [done|]. by destruct (as_bytes p). }
  assert (Hgw : implies (p +:+ "*") want = true).
  { apply implies_pattern. rewrite H1. unfold want. rewrite as_bytes_app. by eexists. }
  assert (Hdw : implies (p +:+ "/*") want = true).
  { apply implies_pattern. rewrite H2. unfold want. rewrite as_bytes_app.
    apply prefix_app. by eexists. }
  assert (Hcw : implies (p +:+ "/**") want = false).
  { apply not_true_iff_false. rewrite implies_pattern, H3. unfold want.
    rewrite as_bytes_app. intros Hpre%prefix_app_inv.
    by apply prefix_cons_inv_2, prefix_cons_inv_1 in Hpre. }
  eexists. split; [apply attenuate_intro|split].
  - intros g [->| ->%list_elem_of_singleton]%elem_of_cons Hg; [|by vm_compute in Hg].
    apply holds_iff. split.
    + exists (grant (p +:+ "*")). split_and!; [by left|done|apply implies_refl].
    + intros d [->| ->%list_elem_of_singleton]%elem_of_cons Hd; [by vm_compute in Hd|].
      apply not_true_iff_false. simpl. rewrite implies_pattern, H2, as_bytes_app.
      intros Hpre%prefix_app_inv. by apply prefix_cons_inv_1 in Hpre.
  - intros pd [->| ->%list_elem_of_singleton]%elem_of_cons Hd; [by vm_compute in Hd|].
    exists (deny (p +:+ "/**")). split_and!; [by right; left|done|].
    change (implies (p +:+ "/**") (p +:+ "/*") = true).
    apply implies_pattern. by rewrite H3, as_bytes_app.
  - unfold holds. simpl. by rewrite Hcw, Hgw.
  - unfold holds. simpl. by rewrite Hdw.
Qed.

Lemma attenuate_sheds_deny_witness :
  ∃ child,
    attenuate_held_by (CapSet.root [grant "host:fs*"; deny "host:fs/*"]) None "root"
      [grant "host:fs*"; deny "host:fs/**"] = Ok child ∧
    holds child "host:fs/read" = true ∧
    holds (CapSet.root [grant "host:fs*"; deny "host:fs/*"]) "host:fs/read" = false.
Proof.
  exact (attenuate_sheds_deny "host:fs" "r" "ead" None "root" ltac:(done) ltac:(done)).
Defined.

(** The sets an attenuation chain can reach, every deny added being clean. *)
Inductive derived (r : CapSet) : CapSet → Prop :=
  | derived_root : derived r r
  | derived_step c h by_ gs c' :
      derived r c → clean_denies gs →
      attenuate_held_by c h by_ gs = Ok c' → derived r c'.

Lemma derived_covered r c :
  clean_grants (grants r) → derived r c →
  (∀ g, g ∈ grants c → is_grant g = true →
     ∃ rg, rg ∈ grants r ∧ is_grant rg = true ∧ implies (capability rg) (capability g) = true) ∧
  (∀ rd want, rd ∈ grants r → is_deny rd = true → implies (capability rd) want = true →
     ∃ d, d ∈ grants c ∧ is_deny d = true ∧ implies (capability d) want = true).
Proof.
  intros Hr. induction 1 as [|c h by_ gs c' Hder [IHg IHd] Hclean Hatt].
  { split; eauto using implies_refl. }
  apply attenuate_inv in Hatt as (-> & Hg & Hd). simpl. split.
  - intros g Hin Hgr. pose proof (Hg g Hin Hgr) as Hheld.
    apply holds_iff in Hheld as [(pg & Hpg & Hpg' & Himp) _].
    destruct (IHg pg) as (rg & ? & ? & ?); [done..|].
    exists rg. split_and!; eauto using implies_trans.
  - intros rd want Hrd Hrd' Hw. destruct (IHd rd want) as (d & Hdin & Hd' & Hdw); [done..|].
    destruct (Hd d) as (cd & Hcd & Hcd' & Hcov); [done..|].
    exists cd. split_and!; eauto using implies_trans.
Qed.

(** The ceiling holds at any depth.  However many attenuations lead from a
    root whose grants do not end in two stars, and even through intermediate
    grants that do, a derived set never holds a name the root does not, as long
    as every deny a set adds is clean. *)
Theorem derived_within_root r c want :
  clean_grants (grants r) → derived r c → holds c want = true → holds r want = true.
Proof.
  intros Hr Hder. destruct (derived_covered r c Hr Hder) as [Hg Hd]. rewrite !holds_iff.
  intros [(g & Hin & Hgr & Himp) Hno]. split.
  - destruct (Hg g) as (rg & ? & ? & ?); [done..|].
    exists rg. split_and!; eauto using implies_trans.
  - intros rd Hrd Hrd'. apply not_true_iff_false. intros Hw.
    destruct (Hd rd want) as (d & Hdin & Hd' & Hdw); [done..|].
    specialize (Hno d Hdin Hd'). congruence.
Qed.

Lemma derived_within_root_witness :
  holds (CapSet.root [grant "host:*"]) "host:fs/read" = true.
Proof.
  pose (r := CapSet.root [grant "host:*"]).
  pose (a := MkCapSet [grant "host:**"] (Granted "root" r) None).
  pose (b := MkCapSet [grant "host:*"] (Granted "a" a) None).
  apply (derived_within_root r b); [| |by vm_compute].
  - intros g ->%list_elem_of_singleton _. by vm_compute.
  - apply (derived_step r a None "a" [grant "host:*"]); [|
      intros g ->%list_elem_of_singleton Hg; by vm_compute in Hg|by vm_compute].
    apply (derived_step r r None "root" [grant "host:**"]); [constructor|
      intros g ->%list_elem_of_singleton Hg; by vm_compute in Hg|by vm_compute].
Defined.

(** With no deny anywhere, [holds] and [may_grant] are [dvs_holds] and
    [dvs_may_grant]: some held name implies the wanted one. *)
Theorem holds_without_denies gs want :
  (∀ g, g ∈ gs → is_deny g = false) →
  holds (CapSet.root gs) want = existsb (λ g, implies (capability g) want) gs ∧
  may_grant (CapSet.root gs) want = existsb (λ g, implies (capability g) want) gs.
Proof.
  intros Hnd. unfold may_grant. split; apply eq_iff_eq_true;
    rewrite holds_iff, existsb_elem_of; simpl; (split;
    [naive_solver|intros (g & Hin & Himp); split;
      [exists g; split_and!; [done| |done]; rewrite is_grant_deny, (Hnd g); done
      |intros d Hd; rewrite (Hnd d); done]]).
Qed.

Lemma holds_without_denies_witness :
  holds (CapSet.root [grant "lifecycle"; grant "host:fs/*"]) "host:fs/read" = true.
Proof.
  rewrite (proj1 (holds_without_denies [grant "lifecycle"; grant "host:fs/*"] "host:fs/read"
    ltac:(intros g Hg; repeat (apply elem_of_cons in Hg as [->|Hg]; [by vm_compute|]);
          by apply not_elem_of_nil in Hg))).
  by vm_compute.
Defined.

(** Provenance is a chain to the process root.  An attenuated set's chain
    is its granter and its parent, then the parent's own chain, and the last
    set of any chain is a root's. *)
Theorem chain_to_root c :
  (∀ h by_ gs c', attenuate_held_by c h by_ gs = Ok c' →
     chain c' = (by_, c) :: chain c ∧ holder c' = h ∧ grants c' = gs) ∧
  (∃ r, last (c :: (chain c).*2) = Some r ∧ provenance r = Root).
Proof.
  split.
  - by intros h by_ gs c' (-> & _ & _)%attenuate_inv.
  - revert c. fix IH 1. intros [gs [|by_ from] h].
    + by exists (MkCapSet gs Root h).
    + destruct (IH from) as (r & Hlast & Hroot). exists r. split; [|done].
      change (last (MkCapSet gs (Granted by_ from) h :: from :: (chain from).*2) = Some r).
      exact Hlast.
Qed.

Lemma chain_to_root_witness :
  chain (MkCapSet [grant "host:time"] (Granted "root" (CapSet.root [grant "host:*"])) None) =
    [("root", CapSet.root [grant "host:*"])].
Proof.
  exact (proj1 (proj1 (chain_to_root (CapSet.root [grant "host:*"]))
    None "root" [grant "host:time"] _ eq_refl)).
Defined.

End CapSetFacts.

(** ** Theory of the scope registry *)

Module ScopeRegistryFacts.
Import ScopeRegistry.

Lemma validate_one_Some r g e :
  validate_one r g = Some e →
  ∃ pattern ty detail,
    (pattern, ty) ∈ r ∧ implies pattern (capability g) = true ∧
    validate_scope ty (scope g) = Some detail ∧
    e = MkScopeError (capability g) (describe ty) detail.
Proof.
  induction r as [|[pattern ty] r IH]; simpl; [done|]. intros H.
  destruct (implies pattern (capability g)) eqn:Himp.
  - destruct (validate_scope ty (scope g)) as [d|] eqn:Hv.
    + simplify_eq. exists pattern, ty, d. split_and!; [by left|done..].
    + destruct (IH H) as (p & t & d & ? & ?). exists p, t, d. split; [by right|done].
  - destruct (IH H) as (p & t & d & ? & ?). exists p, t, d. split; [by right|done].
Qed.

Lemma validate_one_None r g :
  validate_one r g = None ↔
  ∀ pattern ty, (pattern, ty) ∈ r → implies pattern (capability g) = true →
    validate_scope ty (scope g) = None.
Proof.
  induction r as [|[pattern ty] r IH]; simpl.
  { split; [|done]. by intros _ p t ?%not_elem_of_nil. }
  split.
  - intros H p t [[= -> ->]|Hin]%elem_of_cons Himp.
    + rewrite Himp in H. by destruct (validate_scope ty (scope g)).
    + destruct (implies pattern (capability g)); [|by eapply IH].
      destruct (validate_scope ty (scope g)); [done|by eapply IH].
  - intros H. assert (validate_one r g = None) as ->.
    { apply IH. intros p t Hin. apply H. by right. }
    destruct (implies pattern (capability g)) eqn:Himp; [|done].
    by rewrite (H pattern ty); [|left|].
Qed.

(** The startup gate.  Validation passes exactly when every grant satisfies
    every declaration whose pattern covers it, and a refusal names a grant of
    the configuration, the declared scope type it misses and that type's own
    reason. *)
Theorem validate_spec r gs :
  (validate r gs = None ↔
     ∀ g pattern ty, g ∈ gs → (pattern, ty) ∈ r →
       implies pattern (capability g) = true → validate_scope ty (scope g) = None) ∧
  (∀ e, validate r gs = Some e →
     ∃ g pattern ty detail,
       g ∈ gs ∧ (pattern, ty) ∈ r ∧ implies pattern (capability g) = true ∧
       validate_scope ty (scope g) = Some detail ∧
       e = MkScopeError (capability g) (describe ty) detail).
Proof.
  induction gs as [|g gs [IHn IHs]]; simpl.
  { split; [|done]. split; [|done]. by intros _ g p t ?%not_elem_of_nil. }
  destruct (validate_one r g) as [e0|] eqn:Hone.
  - apply validate_one_Some in Hone as (p & t & d & Hin & Himp & Hv & ->). split.
    + split; [done|]. intros H. rewrite (H g p t) in Hv; [done|by left|done..].
    + intros e [= <-]. exists g, p, t, d. split_and!; [by left|done..].
  - split.
    + rewrite IHn. split.
      * intros H g' p t [->|Hin]%elem_of_cons; [by eapply validate_one_None|by apply H].
      * intros H g' p t Hin. apply H. by right.
    + intros e He. destruct (IHs e He) as (g' & p & t & d & Hin & ?).
      exists g', p, t, d. split; [by right|done].
Qed.

Example validate_names_the_grant :
  validate (declare (declare new "host:time*" NoScope) PEER_FAMILY PeerScope)
    [grant "host:fs/read"; with_scope (grant "host:time") (vstr "nope")] =
    Some (MkScopeError "host:time" "no scope" "takes no scope").
Proof. by vm_compute. Qed.

End ScopeRegistryFacts.
