(* ===== verification/Config.v ===== *)
(** * Budgets, numeric bounds and the one config shape
    ([crates/drt-config/src/lib.rs])

    The bounds an instance runs under and the rule that a child's fit inside
    its parent's, for budgets, numeric bounds and whole instance
    configurations. *)

From S2P Require Import Prelude.
From S2P Require Import Bytes.
From S2P Require Import Value.
From S2P Require Import Caps.

(** ** Budgets *)

(** Bounds are [u64]; [None] is "no bound stated". *)
Record Budget := MkBudget {
  instructions : option N;
  memory_kb : option N
}.
Global Instance Budget_eq_dec : EqDecision Budget.
Proof. solve_decision. Defined.

Module Budget.

Definition default : Budget := MkBudget None None.
Definition is_unlimited (b : Budget) : bool := bool_decide (b = default).

(** The local [fits] of [fits_within]. *)
Definition fits (child parent : option N) : bool :=
  match child, parent with
  | _, None | None, _ => true
  | Some c, Some p => bool_decide (c ≤ p)%N
  end.

Definition fits_within (b parent : Budget) : bool :=
  fits (instructions b) (instructions parent) && fits (memory_kb b) (memory_kb parent).

Definition or_ {A} (x y : option A) : option A :=
  match x with Some _ => x | None => y end.

Definition resolved_against (b parent : Budget) : Budget :=
  MkBudget (or_ (instructions b) (instructions parent)) (or_ (memory_kb b) (memory_kb parent)).

End Budget.

(** ** Numeric bounds *)

Inductive Tier := Exact | Reproducible | Fast.
Global Instance Tier_eq_dec : EqDecision Tier.
Proof. solve_decision. Defined.

Module Tier.

Definition rank (t : Tier) : N :=
  match t with Exact => 0 | Reproducible => 1 | Fast => 2 end.

Definition name (t : Tier) : string :=
  match t with Exact => "exact" | Reproducible => "reproducible" | Fast => "fast" end.

Definition parse (s : string) : option Tier :=
  if bool_decide (s = "exact") then Some Exact
  else if bool_decide (s = "reproducible") then Some Reproducible
  else if bool_decide (s = "fast") then Some Fast
  else None.

End Tier.

Record Numeric := MkNumeric {
  max_elements : option N;
  max_tier : option Tier
}.
Global Instance Numeric_eq_dec : EqDecision Numeric.
Proof. solve_decision. Defined.

Module Numeric.

Definition default : Numeric := MkNumeric None None.
Definition is_unbounded (n : Numeric) : bool := bool_decide (n = default).

Definition fits_within (n parent : Numeric) : bool :=
  let elements :=
    match max_elements n, max_elements parent with
    | _, None | None, _ => true
    | Some c, Some p => bool_decide (c ≤ p)%N
    end in
  let tier :=
    match max_tier n, max_tier parent with
    | _, None | None, _ => true
    | Some c, Some p => bool_decide (Tier.rank c ≤ Tier.rank p)%N
    end in
  elements && tier.

Definition resolved_against (n parent : Numeric) : Numeric :=
  MkNumeric (Budget.or_ (max_elements n) (max_elements parent))
            (Budget.or_ (max_tier n) (max_tier parent)).

End Numeric.

(** ** The one config shape *)

Inductive Program :=
  | Path (p : string)
  | Source (s : string).

Record InstanceConfig := MkInstanceConfig {
  program : option Program;
  caps : list Grant;
  budget : Budget;
  numeric : Numeric
}.

Inductive ConfigError :=
  | CapsRefused (e : AttenuationError)
  | BudgetExceedsParent
  | NumericElementsExceedParent
  | NumericTierExceedsParent.

(** The [Display] of a config refusal. *)
Definition config_error_text (e : ConfigError) : string :=
  match e with
  | CapsRefused e => attenuation_error_text e
  | BudgetExceedsParent => "the budget exceeds the parent's; a budget may only narrow"
  | NumericElementsExceedParent =>
      "numeric.max_elements exceeds the parent's; a child may state a smaller element bound than its parent's, never a larger"
  | NumericTierExceedsParent =>
      "numeric.max_tier is looser than the parent's; a child may state a stricter tier than its parent's, never a looser one"
  end.

(** [InstanceConfig::check_attenuation]. *)
Definition check_attenuation (c parent : InstanceConfig) : result unit ConfigError :=
  match CapSet.attenuate (CapSet.root (caps parent)) "attenuation-check" (caps c) with
  | Err e => Err (CapsRefused e)
  | Ok _ =>
      if negb (Budget.fits_within (budget c) (budget parent)) then Err BudgetExceedsParent
      else
        let elements_only := MkNumeric (max_elements (numeric c)) None in
        if negb (Numeric.fits_within elements_only (numeric parent)) then
          Err NumericElementsExceedParent
        else if negb (Numeric.fits_within (numeric c) (numeric parent)) then
          Err NumericTierExceedsParent
        else Ok tt
  end.

(** ** Theory *)

(** A bound no looser than another: whatever the parent bounds, the child
    bounds at least as tightly. *)
Definition no_looser (child parent : option N) : Prop :=
  ∀ p, parent = Some p → ∃ c, child = Some c ∧ (c ≤ p)%N.

Definition budget_within (b parent : Budget) : Prop :=
  no_looser (instructions b) (instructions parent) ∧
  no_looser (memory_kb b) (memory_kb parent).

Definition tier_within (child parent : option Tier) : Prop :=
  ∀ p, parent = Some p → ∃ c, child = Some c ∧ (Tier.rank c ≤ Tier.rank p)%N.

Definition numeric_within (n parent : Numeric) : Prop :=
  no_looser (max_elements n) (max_elements parent) ∧
  tier_within (max_tier n) (max_tier parent).

#[export] Instance no_looser_preorder : PreOrder no_looser.
Proof.
  split; [intros x p ->; eauto|].
  intros x y z Hxy Hyz p Hp. destruct (Hyz p Hp) as (q & Hq & ?).
  destruct (Hxy q Hq) as (c & ? & ?). exists c. split; [done|lia].
Qed.

#[export] Instance tier_within_preorder : PreOrder tier_within.
Proof.
  split; [intros x p ->; eauto|].
  intros x y z Hxy Hyz p Hp. destruct (Hyz p Hp) as (q & Hq & ?).
  destruct (Hxy q Hq) as (c & ? & ?). exists c. split; [done|lia].
Qed.

#[export] Instance budget_within_preorder : PreOrder budget_within.
Proof. split; [by split|]. intros x y z [??] [??]. split; by etrans. Qed.

#[export] Instance numeric_within_preorder : PreOrder numeric_within.
Proof. split; [by split|]. intros x y z [??] [??]. split; by etrans. Qed.

Lemma fits_or child parent :
  Budget.fits child parent = true ↔ no_looser (Budget.or_ child parent) parent.
Proof.
  unfold no_looser. destruct child as [c|], parent as [p|]; simpl;
    rewrite ?bool_decide_eq_true; naive_solver.
Qed.

Lemma budget_fits_iff b parent :
  Budget.fits_within b parent = true ↔
  budget_within (Budget.resolved_against b parent) parent.
Proof.
  unfold Budget.fits_within, budget_within. by rewrite andb_true_iff, !fits_or.
Qed.

Lemma numeric_fits_iff n parent :
  Numeric.fits_within n parent = true ↔
  numeric_within (Numeric.resolved_against n parent) parent.
Proof.
  unfold Numeric.fits_within, numeric_within, no_looser, tier_within. simpl.
  rewrite andb_true_iff.
  destruct (max_elements n), (max_elements parent), (max_tier n), (max_tier parent);
    simpl; rewrite ?bool_decide_eq_true; naive_solver.
Qed.

(** Bounds attenuate.  The budget and the numeric bounds that enforcement
    runs on, a request resolved against its parent, are no looser than the
    parent's exactly when [fits_within] accepted the request, so a child that
    states nothing is still bounded by whatever bounds its parent. *)
Theorem bounds_attenuate b n pb pn :
  (Budget.fits_within b pb = true ↔ budget_within (Budget.resolved_against b pb) pb) ∧
  (Numeric.fits_within n pn = true ↔ numeric_within (Numeric.resolved_against n pn) pn).
Proof. split; [apply budget_fits_iff|apply numeric_fits_iff]. Qed.

(** [check_attenuation] accepts a child configuration exactly when its
    grants attenuate the parent's and its budget and numeric bounds fit, and a
    refusal reports the first of these, in that order, that fails. *)
Theorem check_attenuation_spec c parent :
  let att := CapSet.attenuate (CapSet.root (caps parent)) "attenuation-check" (caps c) in
  let fits_b := Budget.fits_within (budget c) (budget parent) in
  let fits_e := Budget.fits (max_elements (numeric c)) (max_elements (numeric parent)) in
  let fits_n := Numeric.fits_within (numeric c) (numeric parent) in
  (check_attenuation c parent = Ok tt ↔
     (∃ s, att = Ok s) ∧ fits_b = true ∧ fits_n = true) ∧
  (∀ e, check_attenuation c parent = Err e →
     match e with
     | CapsRefused ae => att = Err ae
     | BudgetExceedsParent => (∃ s, att = Ok s) ∧ fits_b = false
     | NumericElementsExceedParent => (∃ s, att = Ok s) ∧ fits_b = true ∧ fits_e = false
     | NumericTierExceedsParent =>
         (∃ s, att = Ok s) ∧ fits_b = true ∧ fits_e = true ∧ fits_n = false
     end).
Proof.
  intros att fits_b fits_e fits_n. unfold check_attenuation. fold att fits_b fits_n.
  assert (Numeric.fits_within (MkNumeric (max_elements (numeric c)) None) (numeric parent)
          = fits_e) as ->.
  { unfold Numeric.fits_within, fits_e, Budget.fits. simpl.
    destruct (max_tier (numeric parent)), (max_elements (numeric c)),
      (max_elements (numeric parent)); by rewrite ?andb_true_r. }
  assert (He : fits_n = true → fits_e = true).
  { unfold fits_n, fits_e, Numeric.fits_within, Budget.fits. by intros [??]%andb_true_iff. }
  destruct att as [s|e0]; [|split; [split; [done|by intros [[? [=]] _]]|by intros e [= <-]]].
  destruct fits_b; simpl; [|split; [split; [done|by intros (_ & [=] & _)]|]].
  2: by intros e [= <-]; eauto.
  destruct fits_e eqn:Hfe; simpl.
  - destruct fits_n; simpl; (split; [split; [by eauto|naive_solver]|]); intros e; [done|].
    intros [= <-]. eauto.
  - split; [split; [done|]|intros e [= <-]; eauto].
    intros (_ & _ & Hn). by discriminate (He Hn).
Qed.

(** A tier's name is what [parse] reads, and nothing else is. *)
Theorem tier_parse_name s t : Tier.parse s = Some t ↔ s = Tier.name t.
Proof.
  unfold Tier.parse, Tier.name. split.
  - intros H. repeat case_bool_decide; by simplify_eq.
  - intros ->. by destruct t.
Qed.
