(* ===== verification/Id.v ===== *)
(** * Root ids: version 7 UUIDs ([crates/drt-config/src/id.rs])

    Minting from a clock reading and ten random bytes, the creation time back
    out, the textual form and its parser. *)

From S2P Require Import Prelude.
From S2P Require Import Bytes.

(** [Uuid7([u8; 16])]. *)
Definition Uuid7 : Type := bytes.

Inductive BadUuid7 :=
  | Shape (text : string)
  | NotLowercase (text : string)
  | WrongVersion (text : string) (version : N).

Module Uuid7.

(** The six low bytes of a [u64], big-endian: [to_be_bytes()[2..]]. *)
Definition be48 (n : N) : bytes :=
  (λ k, of_byte ((n / 2 ^ (8 * k)) `mod` 256)) <$> [5; 4; 3; 2; 1; 0]%N.

(** Overwrite the byte at [i] under a mask. *)
Definition stamp (i : nat) (mask bits : N) (bs : bytes) : bytes :=
  alter (λ b, of_byte (N.lor (N.land (byte_val b) mask) bits)) i bs.

Definition mint (unix_ms : N) (random : bytes) : Uuid7 :=
  stamp 8 63 128 (stamp 6 15 112 (be48 unix_ms ++ random)).

Definition unix_ms (u : Uuid7) : N := from_be (take 6 u).

Definition version (u : Uuid7) : N :=
  N.shiftr (from_option byte_val 0%N (u !! 6)) 4.

(** ** Text *)

Definition hex_digit (n : N) : ascii :=
  of_byte (if bool_decide (n < 10)%N then 48 + n else 87 + n)%N.

Definition hex2 (b : ascii) : string :=
  String (hex_digit (byte_val b / 16)) (String (hex_digit (byte_val b `mod` 16)) "").

(** [Display]: a hyphen before bytes 4, 6, 8 and 10. *)
Definition display (u : Uuid7) : string :=
  foldr String.append ""
    (imap (λ i b, (if bool_decide (i ∈ [4; 6; 8; 10]) then "-" else "") +:+ hex2 b) u).

(** One digit of [from_str_radix(_, 16)]. *)
Definition hex_val (c : ascii) : option N :=
  let v := byte_val c in
  if in_range 48 57 v then Some (v - 48)%N
  else if in_range 97 102 v then Some (v - 87)%N
  else if in_range 65 70 v then Some (v - 55)%N
  else None.

(** [u8::from_str_radix(hex, 16)] of a two-byte text: the standard library
    takes a leading plus sign for an unsigned type too. *)
Definition u8_from_hex2 (a b : ascii) : option N :=
  if bool_decide (a = "+"%char) then hex_val b
  else x ← hex_val a; y ← hex_val b; Some (16 * x + y)%N.

Definition is_ascii_uppercase (c : ascii) : bool := in_range 65 90 (byte_val c).

(** The inner loop of [parse]: a group two bytes at a time. *)
Fixpoint parse_group (text : string) (g : bytes) : result bytes BadUuid7 :=
  match g with
  | a :: b :: g' =>
      match from_utf8 [a; b] with
      | None => Err (Shape text)
      | Some _ =>
          if is_ascii_uppercase a || is_ascii_uppercase b then Err (NotLowercase text)
          else match u8_from_hex2 a b with
               | None => Err (Shape text)
               | Some v =>
                   match parse_group text g' with
                   | Ok rest => Ok (of_byte v :: rest)
                   | Err e => Err e
                   end
               end
      end
  | _ => Ok []
  end.

Definition GROUPS : list nat := [8; 4; 4; 4; 12].

Fixpoint parse_groups (text : string) (expected : list nat) (groups : list string) :
    result bytes BadUuid7 :=
  match expected with
  | [] => match groups with [] => Ok [] | _ => Err (Shape text) end
  | n :: expected' =>
      match groups with
      | [] => Err (Shape text)
      | g :: groups' =>
          if negb (bool_decide (str_len g = n)) then Err (Shape text)
          else match parse_group text (as_bytes g) with
               | Err e => Err e
               | Ok bs =>
                   match parse_groups text expected' groups' with
                   | Ok rest => Ok (bs ++ rest)
                   | Err e => Err e
                   end
               end
      end
  end.

Definition parse (text : string) : result Uuid7 BadUuid7 :=
  match parse_groups text GROUPS (split_on "-" text) with
  | Err e => Err e
  | Ok u => if bool_decide (version u = 7%N) then Ok u else Err (WrongVersion text (version u))
  end.

End Uuid7.

(** ** Theory *)

Module Uuid7Facts.
Import Uuid7.

(** The hexadecimal text of one byte, checked on all 256. *)
Definition hex2_ok (b : ascii) : bool :=
  match hex2 b with
  | String x (String y EmptyString) =>
      negb (bool_decide (x = "-"%char)) && negb (bool_decide (y = "-"%char)) &&
      negb (is_ascii_uppercase x || is_ascii_uppercase y) &&
      bool_decide (from_utf8 [x; y] = Some (hex2 b)) &&
      bool_decide (u8_from_hex2 x y = Some (byte_val b))
  | _ => false
  end.

Lemma hex2_all b : hex2_ok b = true.
Proof. by destruct b as [[] [] [] [] [] [] [] []]; vm_compute. Qed.

Lemma hex2_inv b :
  ∃ x y, hex2 b = String x (String y "") ∧ x ≠ "-"%char ∧ y ≠ "-"%char ∧
    is_ascii_uppercase x || is_ascii_uppercase y = false ∧
    from_utf8 [x; y] = Some (hex2 b) ∧ u8_from_hex2 x y = Some (byte_val b).
Proof.
  pose proof (hex2_all b) as H. unfold hex2_ok in H.
  destruct (hex2 b) as [|x [|y [|z s]]] eqn:E; try done.
  rewrite !andb_true_iff, !negb_true_iff, !bool_decide_eq_false, !bool_decide_eq_true in H.
  exists x, y. naive_solver.
Qed.

Definition hex_of (bs : bytes) : string := foldr (λ b s, hex2 b +:+ s) "" bs.

Lemma parse_hex_of text bs : parse_group text (as_bytes (hex_of bs)) = Ok bs.
Proof.
  induction bs as [|b bs IH]; [done|].
  change (hex_of (b :: bs)) with (hex2 b +:+ hex_of bs). rewrite as_bytes_app.
  destruct (hex2_inv b) as (x & y & E & _ & _ & Hup & Hutf & Hhex). rewrite E in *.
  cbn -[from_utf8 u8_from_hex2 is_ascii_uppercase].
  by rewrite Hutf, Hup, Hhex, IH, of_byte_val.
Qed.

Lemma hex_of_len bs : str_len (hex_of bs) = 2 * length bs.
Proof.
  induction bs as [|b bs IH]; [done|].
  change (hex_of (b :: bs)) with (hex2 b +:+ hex_of bs). rewrite str_len_app, IH.
  destruct (hex2_inv b) as (x & y & -> & _). change (str_len (String x (String y ""))) with 2. simpl. lia.
Qed.

Lemma hex_of_no_hyphen bs : contains_char "-" (hex_of bs) = false.
Proof.
  induction bs as [|b bs IH]; [done|].
  change (hex_of (b :: bs)) with (hex2 b +:+ hex_of bs).
  destruct (hex2_inv b) as (x & y & -> & Hx & Hy & _).
  change (String x (String y "") +:+ hex_of bs) with (String x (String y (hex_of bs))).
  rewrite !contains_char_cons, IH, !bool_decide_false by congruence. done.
Qed.

Lemma display_groups u :
  length u = 16 →
  display u = hex_of (take 4 u) +:+ String "-" (hex_of (take 2 (drop 4 u)) +:+
    String "-" (hex_of (take 2 (drop 6 u)) +:+ String "-" (hex_of (take 2 (drop 8 u)) +:+
    String "-" (hex_of (drop 10 u))))).
Proof. intros Hlen. by do 17 (destruct u as [|? u]; try done). Qed.

Lemma uuid7_parse_display_of u :
  length u = 16 → version u = 7%N → parse (display u) = Ok u.
Proof.
  intros Hlen Hver. rewrite display_groups by done. unfold parse.
  rewrite !split_on_app, !split_on_none by apply hex_of_no_hyphen.
  do 17 (destruct u as [|? u]; try done).
  unfold GROUPS. cbn [parse_groups app]. rewrite !hex_of_len. cbn [length take drop].
  rewrite !bool_decide_true by done. cbn [negb]. rewrite !parse_hex_of.
  cbn [app]. by rewrite Hver.
Qed.

(** A character of the displayed form is a hyphen or a hex digit. *)
Lemma hex_of_no_char c bs :
  (∀ b x y, hex2 b = String x (String y "") → c ≠ x ∧ c ≠ y) →
  contains_char c (hex_of bs) = false.
Proof.
  intros Hc. induction bs as [|b bs IH]; [done|].
  change (hex_of (b :: bs)) with (hex2 b +:+ hex_of bs).
  destruct (hex2_inv b) as (x & y & E & _). destruct (Hc b x y E). rewrite E.
  change (String x (String y "") +:+ hex_of bs) with (String x (String y (hex_of bs))).
  rewrite !contains_char_cons, IH, !bool_decide_false by done. done.
Qed.

Lemma display_no_slash u : length u = 16 → contains_char "/" (display u) = false.
Proof.
  intros Hlen. rewrite display_groups by done.
  assert (∀ bs, contains_char "/" (hex_of bs) = false) as Hh.
  { intros bs. apply hex_of_no_char. intros b x y.
    destruct b as [[] [] [] [] [] [] [] []]; vm_compute; intros [= <- <-]; done. }
  repeat (rewrite contains_char_app, Hh, contains_char_cons).
  by rewrite Hh.
Qed.

(** An id round-trips through its text: for any 16 bytes whose version
    nibble is 7, parsing the displayed form gives the id back. *)
Theorem uuid7_parse_display u :
  length u = 16 → version u = 7%N → parse (display u) = Ok u.
Proof.
  apply uuid7_parse_display_of.
Qed.

Lemma uuid7_parse_display_witness :
  parse (display (mint 1757707440000 (replicate 10 "U"%char))) =
    Ok (mint 1757707440000 (replicate 10 "U"%char)).
Proof. apply uuid7_parse_display; by vm_compute. Defined.

(** The text of an id is not unique: [parse] accepts a plus sign for the
    first digit of any pair, so one id has spellings that compare unequal. *)
Theorem uuid7_two_spellings :
  ∃ t1 t2 u, parse t1 = Ok u ∧ parse t2 = Ok u ∧ t1 ≠ t2.
Proof.
  exists "01993c0e-b580-7000-8000-000000000000", "+1993c0e-b580-7000-8000-0000000000+0".
  eexists. split; [by vm_compute|]. by split; [vm_compute|].
Qed.

Lemma from_be_app a b : from_be (a ++ b) = (from_be a * 256 ^ N.of_nat (length b) + from_be b)%N.
Proof.
  unfold from_be. rewrite foldl_app. generalize (foldl (λ acc b, acc * 256 + byte_val b) 0 a)%N.
  clear a. intros n. revert n. induction b as [|c b IH]; intros n; cbn -[N.mul N.pow].
  { rewrite N.pow_0_r. lia. }
  rewrite IH, (IH (0 * 256 + byte_val c)%N), Nat2N.inj_succ, N.pow_succ_r'. lia.
Qed.

Lemma from_be48 n : from_be (be48 n) = (n `mod` 2 ^ 48)%N.
Proof.
  unfold be48, from_be. cbn -[N.mul N.add N.div N.modulo N.pow].
  rewrite !byte_of_byte by (apply N.mod_lt; lia).
  change (2 ^ (8 * 5))%N with 1099511627776%N. change (2 ^ (8 * 4))%N with 4294967296%N.
  change (2 ^ (8 * 3))%N with 16777216%N. change (2 ^ (8 * 2))%N with 65536%N.
  change (2 ^ (8 * 1))%N with 256%N. change (2 ^ (8 * 0))%N with 1%N.
  change (2 ^ 48)%N with 281474976710656%N. zify. Z.to_euclidean_division_equations. lia.
Qed.

(** An id carries its creation time to the millisecond, modulo 2^48, and
    the version and variant RFC 9562 asks for, whatever the random bytes. *)
Theorem uuid7_mint_spec ms random :
  length random = 10 →
  let u := mint ms random in
  length u = 16 ∧ unix_ms u = (ms `mod` 2 ^ 48)%N ∧ version u = 7%N ∧
  (∃ b, u !! 8 = Some b ∧ N.shiftr (byte_val b) 6 = 2%N).
Proof.
  intros Hlen u. do 11 (destruct random as [|? random]; try done). clear Hlen.
  split_and!; [done| | |].
  - unfold u, unix_ms, mint, stamp. cbn -[from_be be48 N.pow N.modulo of_byte byte_val].
    apply from_be48.
  - change (version u) with (N.shiftr (byte_val (of_byte (N.lor (N.land (byte_val a) 15) 112))) 4).
    by destruct a as [[] [] [] [] [] [] [] []]; vm_compute.
  - exists (of_byte (N.lor (N.land (byte_val a1) 63) 128)). split; [done|].
    by destruct a1 as [[] [] [] [] [] [] [] []]; vm_compute.
Qed.

Lemma uuid7_mint_spec_witness :
  unix_ms (mint 1757707440000 (replicate 10 "U"%char)) = 1757707440000%N.
Proof.
  destruct (uuid7_mint_spec 1757707440000 (replicate 10 "U"%char) eq_refl) as (_ & -> & _).
  reflexivity.
Defined.

End Uuid7Facts.
