(* ===== verification/Node.v ===== *)
(** * Node paths ([crates/drt-config/src/project.rs])

    A node's derived identity in its root, the reserved names no segment may
    take, and the qualified form that names a node on a peer.

    ** Addressing a peer, and saying who a message came from
    ([crates/drt-config/src/peer.rs]) *)

From S2P Require Import Prelude.
From S2P Require Import Bytes.
From S2P Require Import Value.
From S2P Require Import Id.

(** ** Reserved names *)

Definition INIT_DIR : string := "init".
Definition LIVE_DIR : string := "live".
Definition LOG_DIR : string := "log".
Definition PROFILE_DIR : string := "profile".
Definition STATE_DIR : string := "state".
Definition RESERVED : list string :=
  ["drt"; INIT_DIR; LIVE_DIR; LOG_DIR; PROFILE_DIR; STATE_DIR].

(** [eq_ignore_ascii_case]. *)
Definition to_ascii_lowercase (c : ascii) : ascii :=
  if in_range 65 90 (byte_val c) then of_byte (byte_val c + 32) else c.
Definition eq_ignore_ascii_case (a b : string) : bool :=
  bool_decide (to_ascii_lowercase <$> as_bytes a = to_ascii_lowercase <$> as_bytes b).

Definition is_reserved (name : string) : bool :=
  existsb (λ r, eq_ignore_ascii_case r name) RESERVED.

(** ** Paths *)

(** [NodePath(String)]. *)
Definition NodePath : Type := string.

Definition ROOT_NODE : string := "root".

Inductive BadNodePath :=
  | NotRooted (path : string)
  | EmptySegment
  | Reserved (name : string)
  | Separator (name : string).

(** The [Display] of a refused path. *)
Definition bad_node_path_text (e : BadNodePath) : string :=
  match e with
  | NotRooted path =>
      "'" +:+ path +:+ "' does not start at '" +:+ ROOT_NODE +:+ "'; every node path is rooted there"
  | EmptySegment => "a node name cannot be empty"
  | Reserved name => "'" +:+ name +:+ "' is a reserved name and cannot name a node"
  | Separator name => "'" +:+ name +:+ "' contains a path separator; a node name is one segment"
  end.

Definition check_segment (name : string) : result unit BadNodePath :=
  if str_is_empty name then Err EmptySegment
  else if is_reserved name then Err (Reserved name)
  else if contains_char "/" name || contains_char "\" name then Err (Separator name)
  else Ok tt.

Module NodePath.

Definition root : NodePath := ROOT_NODE.

Definition child (p : NodePath) (name : string) : result NodePath BadNodePath :=
  match check_segment name with
  | Err e => Err e
  | Ok _ => Ok (p +:+ String "/" name)
  end.

Definition segments (p : NodePath) : list string := split_on "/" p.

Definition parent (p : NodePath) : option NodePath := fst <$> rsplit_once "/" p.

Fixpoint check_segments (l : list string) : result unit BadNodePath :=
  match l with
  | [] => Ok tt
  | s :: l' => match check_segment s with Err e => Err e | Ok _ => check_segments l' end
  end.

Definition parse (text : string) : result NodePath BadNodePath :=
  match split_on "/" text with
  | first :: rest =>
      if bool_decide (first = ROOT_NODE) then
        match check_segments rest with Err e => Err e | Ok _ => Ok text end
      else Err (NotRooted text)
  | [] => Err (NotRooted text)
  end.

End NodePath.

(** ** Qualified paths *)

Record QualifiedNode := MkQualifiedNode { root_id : Uuid7; node : NodePath }.

Inductive BadQualifiedNode :=
  | NotQualified (path : string)
  | BadRoot (head : string) (e : BadUuid7)
  | BadNode (e : BadNodePath).

Module QualifiedNode.

(** [QualifiedNode::parse]; the refusal of the head carries the id's own
    reason, which the code renders into its [detail]. *)
Definition parse (text : string) : result QualifiedNode BadQualifiedNode :=
  match split_once "/" text with
  | None => Err (NotQualified text)
  | Some (head, rest) =>
      match Uuid7.parse head with
      | Err e => Err (BadRoot head e)
      | Ok u =>
          match NodePath.parse rest with
          | Err e => Err (BadNode e)
          | Ok n => Ok (MkQualifiedNode u n)
          end
      end
  end.

Definition display (q : QualifiedNode) : string :=
  Uuid7.display (root_id q) +:+ String "/" (node q).

End QualifiedNode.

(** ** Theory *)

Module NodeFacts.
Import NodePath.

(** A segment that may name a node. *)
Definition good_segment (name : string) : Prop :=
  name ≠ "" ∧ is_reserved name = false ∧
  contains_char "/" name = false ∧ contains_char "\" name = false.

Lemma check_segment_ok name : check_segment name = Ok tt ↔ good_segment name.
Proof.
  unfold check_segment, good_segment, str_is_empty.
  case_bool_decide; [naive_solver|]. destruct (is_reserved name); [naive_solver|].
  destruct (contains_char "/" name), (contains_char "\" name); naive_solver.
Qed.

Lemma check_segments_ok l : check_segments l = Ok tt ↔ Forall good_segment l.
Proof.
  induction l as [|s l IH]; simpl; [by split|]. rewrite Forall_cons, <-check_segment_ok, <-IH.
  destruct (check_segment s) as [[]|]; naive_solver.
Qed.

(** The paths of a root: those [parse] reads back as themselves. *)
Definition valid (p : NodePath) : Prop :=
  ∃ rest, segments p = ROOT_NODE :: rest ∧ Forall good_segment rest.

Lemma parse_valid text p : parse text = Ok p ↔ p = text ∧ valid text.
Proof.
  unfold parse, valid, segments. destruct (split_on "/" text) as [|first rest].
  { split; [done|]. by intros (_ & ? & ? & _). }
  case_bool_decide as Hf.
  - subst. destruct (check_segments rest) as [[]|] eqn:Hc.
    + apply check_segments_ok in Hc. split; [intros [= <-]; eauto|by intros [-> _]].
    + split; [done|]. intros (_ & ? & [= <-] & Hg%check_segments_ok). congruence.
  - split; [done|]. by intros (_ & ? & [= -> <-] & _).
Qed.

Lemma root_valid : valid root.
Proof. by exists []. Qed.

Lemma child_ok p name q : child p name = Ok q → q = p +:+ String "/" name ∧ good_segment name.
Proof.
  unfold child. destruct (check_segment name) as [[]|] eqn:Hc; [|done].
  apply check_segment_ok in Hc. by intros [= <-].
Qed.

Lemma child_segments p name q :
  child p name = Ok q → segments q = segments p ++ [name].
Proof.
  intros [-> (_ & _ & Hs & _)]%child_ok. unfold segments.
  by rewrite split_on_app, (split_on_none _ name).
Qed.

Lemma child_valid p name q : valid p → child p name = Ok q → valid q.
Proof.
  intros (rest & Hp & Hrest) Hc. pose proof (child_segments _ _ _ Hc) as Hq.
  apply child_ok in Hc as [_ Hg]. exists (rest ++ [name]).
  rewrite Hq, Hp. split; [done|]. by apply Forall_app_2; [|constructor].
Qed.

(** A path is derived, not declared.  A child of a path of this root is a
    path of this root that [parse] reads back, one segment longer, whose parent
    is the path it was derived from; and its name is not empty, not reserved in
    any case, and holds no separator. *)
Theorem node_child_spec p name q :
  parse p = Ok p → child p name = Ok q →
  parse q = Ok q ∧ parent q = Some p ∧ segments q = segments p ++ [name] ∧ good_segment name.
Proof.
  intros [_ Hp]%parse_valid Hc. pose proof (child_ok _ _ _ Hc) as [Hq Hg].
  split_and!; [by apply parse_valid; eauto using child_valid| |by apply child_segments|done].
  unfold parent. rewrite Hq, rsplit_once_app; [done|]. apply Hg.
Qed.

Lemma node_child_spec_witness :
  parent "root/intake/worker" = Some "root/intake" ∧
  child "root/intake" "Live" = Err (Reserved "Live").
Proof.
  split; [|reflexivity].
  apply (node_child_spec "root/intake" "worker" "root/intake/worker"); by vm_compute.
Defined.

(** A qualified node round-trips through its text, and its two halves
    cannot be confused: the head is the id and the rest is the local path. *)
Theorem qualified_parse_display u p :
  length u = 16 → Uuid7.version u = 7%N → parse p = Ok p →
  QualifiedNode.parse (QualifiedNode.display (MkQualifiedNode u p)) = Ok (MkQualifiedNode u p).
Proof.
  intros Hlen Hver Hp. unfold QualifiedNode.parse, QualifiedNode.display. simpl.
  rewrite split_once_app.
  - by rewrite Uuid7Facts.uuid7_parse_display_of, Hp.
  - by apply Uuid7Facts.display_no_slash.
Qed.

Lemma qualified_parse_display_witness :
  let u := Uuid7.mint 1757707440000 (replicate 10 "U"%char) in
  QualifiedNode.parse (QualifiedNode.display (MkQualifiedNode u "root/intake")) =
    Ok (MkQualifiedNode u "root/intake").
Proof. intros u. by apply qualified_parse_display; vm_compute. Defined.

End NodeFacts.

(** The reserved key a delivered message carries its sender under. *)
Definition SENDER_KEY : string := "from".

Inductive PeerRef :=
  | PeerRoot (root_id : Uuid7)
  | Plugin (name : string)
  | Runtime.

Module PeerRef.

Definition is_root (p : PeerRef) (u : Uuid7) : bool :=
  match p with PeerRoot u' => bool_decide (u' = u) | _ => false end.

(** [Display]. *)
Definition display (p : PeerRef) : string :=
  match p with
  | PeerRoot u => "root " +:+ Uuid7.display u
  | Plugin name => "plugin '" +:+ name +:+ "'"
  | Runtime => "this runtime, which has no root"
  end.

End PeerRef.

Record QueueAddress := MkQueueAddress { addr_peer : option PeerRef; addr_queue : string }.

Record PeerDeliveryUnsupported := MkPeerDeliveryUnsupported {
  pdu_peer : string;
  pdu_queue : string
}.

Definition peer_delivery_text (e : PeerDeliveryUnsupported) : string :=
  "peer delivery is not supported in this build: '" +:+ pdu_queue e +:+ "' on " +:+ pdu_peer e.

Module QueueAddress.

Definition local (queue : string) : QueueAddress := MkQueueAddress None queue.
Definition on (peer : PeerRef) (queue : string) : QueueAddress :=
  MkQueueAddress (Some peer) queue.

Definition deliverable (a : QueueAddress) : result string PeerDeliveryUnsupported :=
  match addr_peer a with
  | None => Ok (addr_queue a)
  | Some peer => Err (MkPeerDeliveryUnsupported (PeerRef.display peer) (addr_queue a))
  end.

End QueueAddress.

Record Sender := MkSender { sender_peer : PeerRef; sender_node : NodePath }.

Module Sender.

Definition local (u : Uuid7) (n : NodePath) : Sender := MkSender (PeerRoot u) n.
Definition runtime (n : NodePath) : Sender := MkSender Runtime n.

Definition to_value (s : Sender) : Value :=
  let peer :=
    match sender_peer s with
    | PeerRoot u => [(vstr "kind", vstr "root"); (vstr "root_id", vstr (Uuid7.display u))]
    | Plugin name => [(vstr "kind", vstr "plugin"); (vstr "name", vstr name)]
    | Runtime => [(vstr "kind", vstr "runtime")]
    end in
  VMap [(vstr "peer", VMap peer); (vstr "node", vstr (sender_node s))].

End Sender.
