(* ===== verification/Hostcall.v ===== *)
(** * The hostcall encoding ([crates/drt-hostcall/src/lib.rs])

    Requests, replies and statuses, and the blob lane: columns travel from a
    connector to the pump as ext values, are lifted out of the answer into the
    reply's side channel, and are inlined again where the reply becomes
    bytes. *)

From S2P Require Import Prelude.
From S2P Require Import Bytes.
From S2P Require Import Value.

(** [Token]: a [u64]. *)
Definition Token : Type := N.
Definition GUEST_LIB_TOKEN_BASE : Token := N.shiftl 1 30.

Record Request := MkRequest {
  req_tok : Token;
  req_call : string;
  req_args : option Value
}.

Inductive Status :=
  | StatusOk
  | StatusDenied
  | StatusError
  | StatusMalformed
  | StatusTimeout
  | StatusOther (s : string).
Global Instance Status_eq_dec : EqDecision Status.
Proof. solve_decision. Defined.

Definition is_failure (s : Status) : bool := bool_decide (s ≠ StatusOk).

Record Reply := MkReply {
  rep_tok : option Token;
  rep_status : Status;
  rep_value : option Value;
  rep_detail : option string;
  rep_blobs : list bytes
}.

Module Reply.

Definition ok (tok : Token) (v : Value) : Reply := MkReply (Some tok) StatusOk (Some v) None [].
Definition denied (tok : Token) (detail : string) : Reply :=
  MkReply (Some tok) StatusDenied None (Some detail) [].
Definition error (tok : Token) (detail : string) : Reply :=
  MkReply (Some tok) StatusError None (Some detail) [].
Definition timed_out (tok : Token) (detail : string) : Reply :=
  MkReply (Some tok) StatusTimeout None (Some detail) [].
Definition malformed (tok : option Token) (detail : string) : Reply :=
  MkReply tok StatusMalformed None (Some detail) [].

End Reply.

(** ** The blob lane *)

Inductive Dtype := F64 | I64 | U8.
Global Instance Dtype_eq_dec : EqDecision Dtype.
Proof. solve_decision. Defined.

(** The first of the three ext tags, an [i8]. *)
Definition COLUMN_EXT_BASE : Z := 112.

Module Dtype.

Definition code (d : Dtype) : N := match d with F64 => 0 | I64 => 1 | U8 => 2 end.

Definition from_code (c : N) : option Dtype :=
  if bool_decide (c = 0)%N then Some F64
  else if bool_decide (c = 1)%N then Some I64
  else if bool_decide (c = 2)%N then Some U8
  else None.

Definition width (d : Dtype) : nat := match d with F64 | I64 => 8 | U8 => 1 end.

(** [i8] arithmetic wraps in a release build. *)
Definition wrap_i8 (z : Z) : Z := ((z + 128) `mod` 256 - 128)%Z.

Definition ext_tag (d : Dtype) : Z := wrap_i8 (COLUMN_EXT_BASE + Z.of_N (code d)).

(** [u8::try_from(tag - COLUMN_EXT_BASE)], then the code. *)
Definition from_ext_tag (tag : Z) : option Dtype :=
  let d := wrap_i8 (tag - COLUMN_EXT_BASE) in
  if bool_decide (0 ≤ d)%Z then from_code (Z.to_N d) else None.

End Dtype.

Definition column (d : Dtype) (bs : bytes) : Value := VExt (Dtype.ext_tag d) bs.

(** The descriptor a column leaves behind. *)
Definition descriptor (d : Dtype) (len index : nat) : Value :=
  VMap [(vstr "dtype", vnat (Dtype.code d));
        (vstr "len", vnat (N.of_nat len));
        (vstr "blob", vnat (N.of_nat index))].

(** [lift_columns]: the answer with its columns replaced by descriptors, and
    the lane extended by their bytes. *)
Fixpoint lift_columns (v : Value) (blobs : list bytes) : Value * list bytes :=
  match v with
  | VExt tag bs =>
      match Dtype.from_ext_tag tag with
      | Some d => (descriptor d (length bs / Dtype.width d) (length blobs), blobs ++ [bs])
      | None => (VExt tag bs, blobs)
      end
  | VArr items =>
      let '(items', blobs') := map_accum lift_columns items blobs in (VArr items', blobs')
  | VMap fields =>
      let '(fields', blobs') :=
        map_accum (λ kv b, match kv with
                           | (k, x) => let '(x', b') := lift_columns x b in ((k, x'), b')
                           end) fields blobs in
      (VMap fields', blobs')
  | other => (other, blobs)
  end.

(** [blob_index]: the index of a three-field map that has [dtype] and [len]
    and an unsigned [blob]. *)
Definition map_field (name : string) (fields : list (Value * Value)) : option Value :=
  snd <$> find_first (λ kv, key_is name kv.1) fields.

Definition blob_index (fields : list (Value * Value)) : option N :=
  if bool_decide (length fields ≠ 3) then None
  else match map_field "dtype" fields, map_field "len" fields with
       | Some _, Some _ => v ← map_field "blob" fields; as_u64 v
       | _, _ => None
       end.

(** [blobs.get_mut(index)], which an index out of range answers [None]. *)
Definition get_blob (blobs : list bytes) (i : N) : option bytes :=
  if bool_decide (i < N.of_nat (length blobs))%N then blobs !! N.to_nat i else None.

(** [inline_blobs::walk]: a descriptor whose index is in the lane becomes the
    bytes, which are taken out of the lane; anything else is walked. *)
Fixpoint walk (v : Value) (blobs : list bytes) : Value * list bytes :=
  match v with
  | VMap fields =>
      let inside :=
        let '(fields', blobs') :=
          map_accum (λ kv b, match kv with
                             | (k, x) => let '(x', b') := walk x b in ((k, x'), b')
                             end) fields blobs in
        (VMap fields', blobs') in
      match blob_index fields with
      | Some i =>
          match get_blob blobs i with
          | Some bs => (VBin bs, <[N.to_nat i := []]> blobs)
          | None => inside
          end
      | None => inside
      end
  | VArr items =>
      let '(items', blobs') := map_accum walk items blobs in (VArr items', blobs')
  | other => (other, blobs)
  end.

Definition inline_blobs (v : Value) (blobs : list bytes) : Value := (walk v blobs).1.

(** ** Bytes

    The serde encodings are the library's: [to_bytes] of a reply (which never
    carries the lane) and [from_bytes] of a request are parameters, the second
    with the text of its error. *)
Class HostcallWire := {
  reply_to_bytes : Reply → option bytes;
  request_from_bytes : bytes → result Request string;
  value_from_slice : bytes → option Value;
}.

(** [to_wire]: the reply as bytes, its lane inlined. *)
Definition inlined (r : Reply) : Reply :=
  match rep_blobs r with
  | [] => r
  | (_ :: _) as blobs =>
      MkReply (rep_tok r) (rep_status r) ((λ v, inline_blobs v blobs) <$> rep_value r)
        (rep_detail r) []
  end.
Definition to_wire `{HostcallWire} (r : Reply) : option bytes := reply_to_bytes (inlined r).

(** [salvage_token]: the integer [tok] of a readable map. *)
Definition salvage_token `{HostcallWire} (raw : bytes) : option Token :=
  v ← value_from_slice raw; m ← as_map v; t ← map_field "tok" m; as_u64 t.

(** ** Theory of the lane *)

Module LaneFacts.

(** What a guest reads: every column as its bytes. *)
Fixpoint delivered (v : Value) : Value :=
  match v with
  | VExt tag bs =>
      match Dtype.from_ext_tag tag with Some _ => VBin bs | None => VExt tag bs end
  | VArr items => VArr (delivered <$> items)
  | VMap fields => VMap ((λ kv, match kv with (k, x) => (k, delivered x) end) <$> fields)
  | other => other
  end.

(** The columns of an answer, in the order a walk meets them. *)
Fixpoint columns (v : Value) : list bytes :=
  match v with
  | VExt tag bs => match Dtype.from_ext_tag tag with Some _ => [bs] | None => [] end
  | VArr items => concat (columns <$> items)
  | VMap fields => concat ((λ kv, match kv with (_, x) => columns x end) <$> fields)
  | _ => []
  end.

(** No map of the answer is itself shaped like a descriptor. *)
Fixpoint no_descriptor (v : Value) : bool :=
  match v with
  | VArr items => forallb no_descriptor items
  | VMap fields =>
      bool_decide (blob_index fields = None) &&
      forallb (λ kv, match kv with (_, x) => no_descriptor x end) fields
  | _ => true
  end.

Lemma ext_tag_roundtrip d : Dtype.from_ext_tag (Dtype.ext_tag d) = Some d.
Proof. by destruct d. Qed.

(** Lifting appends the columns to the lane. *)
Lemma lift_lane v blobs : (lift_columns v blobs).2 = blobs ++ columns v.
Proof.
  revert blobs. induction v as [| | | | | | |vs IH|kvs IH|tag bs] using value_ind;
    intros blobs; simpl; try by rewrite app_nil_r.
  - assert (∀ blobs, (map_accum lift_columns vs blobs).2 = blobs ++ concat (columns <$> vs)) as H.
    { induction IH as [|x l Hx _ IHl]; intros b; simpl; [by rewrite app_nil_r|].
      specialize (Hx b). destruct (lift_columns x b) as [x' b1]. simpl in Hx. subst b1.
      specialize (IHl (b ++ columns x)).
      destruct (map_accum lift_columns l _) as [l'' b2]. simpl in *. by rewrite IHl, app_assoc. }
    specialize (H blobs). by destruct (map_accum lift_columns vs blobs).
  - set (f := λ kv b, match kv with
                      | (k, x) => let '(x', b') := lift_columns x b in ((k, x'), b') end).
    assert (∀ blobs, (map_accum f kvs blobs).2 =
              blobs ++ concat ((λ kv, match kv with (_, x) => columns x end) <$> kvs)) as H.
    { induction IH as [|[k x] l [_ Hx] _ IHl]; intros b; simpl; [by rewrite app_nil_r|].
      simpl in Hx. specialize (Hx b). destruct (lift_columns x b) as [x' b1]. simpl in Hx. subst b1.
      specialize (IHl (b ++ columns x)).
      destruct (map_accum f l _) as [l'' b2]. simpl in *. by rewrite IHl, app_assoc. }
    specialize (H blobs). by destruct (map_accum f kvs blobs).
  - destruct (Dtype.from_ext_tag tag); [done|by rewrite app_nil_r].
Qed.

Lemma as_u64_lift v blobs : as_u64 (lift_columns v blobs).1 = as_u64 v.
Proof.
  destruct v; simpl; try done.
  - by destruct (map_accum _ _ _).
  - by destruct (map_accum _ _ _).
  - by destruct (Dtype.from_ext_tag tag).
Qed.

Definition lift_field (kv : Value * Value) (b : list bytes) : Value * Value * list bytes :=
  match kv with (k, x) => let '(x', b') := lift_columns x b in ((k, x'), b') end.
Definition walk_field (kv : Value * Value) (b : list bytes) : Value * Value * list bytes :=
  match kv with (k, x) => let '(x', b') := walk x b in ((k, x'), b') end.

Lemma lift_map kvs blobs :
  lift_columns (VMap kvs) blobs =
    (VMap (map_accum lift_field kvs blobs).1, (map_accum lift_field kvs blobs).2).
Proof.
  change (lift_columns (VMap kvs) blobs) with
    (let '(fields', blobs') := map_accum lift_field kvs blobs in (VMap fields', blobs')).
  by destruct (map_accum _ _ _).
Qed.

Lemma walk_map kvs blobs :
  blob_index kvs = None →
  walk (VMap kvs) blobs =
    (VMap (map_accum walk_field kvs blobs).1, (map_accum walk_field kvs blobs).2).
Proof.
  intros Hb.
  change (walk (VMap kvs) blobs) with
    (let inside := let '(fields', blobs') := map_accum walk_field kvs blobs in
                   (VMap fields', blobs') in
     match blob_index kvs with
     | Some i =>
         match get_blob blobs i with
         | Some bs => (VBin bs, <[N.to_nat i := []]> blobs)
         | None => inside
         end
     | None => inside
     end).
  rewrite Hb. simpl. by destruct (map_accum _ _ _).
Qed.

(** Lifting a field keeps its key and whether it is an integer, so it cannot
    make or unmake a descriptor. *)
Lemma blob_index_same (l l' : list (Value * Value)) :
  Forall2 (λ a b, a.1 = b.1 ∧ as_u64 a.2 = as_u64 b.2) l l' →
  blob_index l = blob_index l'.
Proof.
  intros H. unfold blob_index. rewrite (Forall2_length _ _ _ H).
  assert (∀ name, match map_field name l, map_field name l' with
                  | Some x, Some y => as_u64 x = as_u64 y
                  | None, None => True
                  | _, _ => False
                  end) as Hf.
  { intros name. unfold map_field.
    induction H as [|[k x] [k' x'] l l' [Hk Hx] _ IH]; simpl; [done|].
    simpl in Hk. subst k'. by destruct (key_is name k). }
  pose proof (Hf "dtype"). pose proof (Hf "len"). specialize (Hf "blob").
  destruct (map_field "dtype" l), (map_field "dtype" l'); try done.
  destruct (map_field "len" l), (map_field "len" l'); try done.
  destruct (map_field "blob" l), (map_field "blob" l'); simpl; try done. by rewrite Hf.
Qed.

Lemma lift_fields_same kvs blobs :
  Forall2 (λ a b, a.1 = b.1 ∧ as_u64 a.2 = as_u64 b.2) kvs (map_accum lift_field kvs blobs).1.
Proof.
  revert blobs. induction kvs as [|[k x] kvs IH]; intros blobs; simpl; [constructor|].
  pose proof (as_u64_lift x blobs) as Hx. destruct (lift_columns x blobs) as [x' b1].
  specialize (IH b1). destruct (map_accum lift_field kvs b1). by constructor.
Qed.

Lemma blob_index_descriptor d len i :
  (N.of_nat i < 2 ^ 64)%N →
  (fields ← as_map (descriptor d len i); blob_index fields) = Some (N.of_nat i).
Proof.
  intros Hi. change (as_u64 (vnat (N.of_nat i)) = Some (N.of_nat i)).
  unfold vnat, as_u64. rewrite bool_decide_true by lia. by rewrite N2Z.id.
Qed.

Lemma walk_descriptor d len i pre bs post :
  length pre = i → (N.of_nat i < 2 ^ 64)%N →
  walk (descriptor d len i) (pre ++ [bs] ++ post) = (VBin bs, pre ++ [[]] ++ post).
Proof.
  intros <- Hi. pose proof (blob_index_descriptor d len (length pre) Hi) as Hb.
  unfold descriptor in *. cbn [as_map mbind option_bind] in Hb.
  cbn [walk]. rewrite Hb. unfold get_blob.
  rewrite bool_decide_true by (rewrite !length_app; simpl; lia).
  rewrite Nat2N.id. change ([bs] ++ post) with (bs :: post).
  rewrite list_lookup_middle by done. by rewrite insert_app_r_alt, Nat.sub_diag by lia.
Qed.

Lemma replicate_app_assoc {A} n m (x : A) l :
  replicate n x ++ replicate m x ++ l = replicate (n + m) x ++ l.
Proof. by rewrite replicate_add, app_assoc. Qed.

Lemma walk_lift v :
  ∀ blobs pre post, no_descriptor v = true → length pre = length blobs →
  (N.of_nat (length blobs + length (columns v)) ≤ 2 ^ 64)%N →
  walk (lift_columns v blobs).1 (pre ++ columns v ++ post) =
    (delivered v, pre ++ replicate (length (columns v)) [] ++ post).
Proof.
  induction v as [| | | | | | |vs IH|kvs IH|tag bs] using value_ind;
    intros blobs pre post Hnd Hlen Hn; try done.
  - simpl in Hnd. cbn [columns delivered] in *.
    assert (∀ blobs pre, length pre = length blobs →
      (N.of_nat (length blobs + length (concat (columns <$> vs))) ≤ 2 ^ 64)%N →
      map_accum walk (map_accum lift_columns vs blobs).1
        (pre ++ concat (columns <$> vs) ++ post) =
      (delivered <$> vs, pre ++ replicate (length (concat (columns <$> vs))) [] ++ post)) as H.
    { clear Hlen Hn blobs pre.
      induction IH as [|x l Hx _ IHl]; intros blobs pre Hlen Hn; [done|].
      simpl in Hnd. apply andb_true_iff in Hnd as [Hx' Hl]. cbn [fmap list_fmap concat] in *.
      rewrite length_app in Hn. simpl.
      pose proof (lift_lane x blobs) as Hlane.
      specialize (Hx blobs pre (concat (columns <$> l) ++ post) Hx' Hlen ltac:(lia)).
      destruct (lift_columns x blobs) as [x' b1] eqn:E. simpl in Hlane, Hx. subst b1.
      specialize (IHl Hl (blobs ++ columns x) (pre ++ replicate (length (columns x)) [])).
      destruct (map_accum lift_columns l (blobs ++ columns x)) as [l' b2]. simpl in *.
      rewrite <-app_assoc, Hx. rewrite <-app_assoc in IHl.
      rewrite IHl by (rewrite !length_app, ?length_replicate; lia).
      by rewrite <-app_assoc, length_app, replicate_app_assoc. }
    specialize (H blobs pre Hlen Hn). simpl.
    destruct (map_accum lift_columns vs blobs) as [vs' b']. simpl in *. by rewrite H.
  - simpl in Hnd. apply andb_true_iff in Hnd as [Hbi%bool_decide_eq_true Hnd].
    cbn [columns delivered] in *.
    set (cols := λ kv : Value * Value, match kv with (_, x) => columns x end) in *.
    set (del := λ kv : Value * Value, match kv with (k, x) => (k, delivered x) end) in *.
    assert (∀ blobs pre, length pre = length blobs →
      (N.of_nat (length blobs + length (concat (cols <$> kvs))) ≤ 2 ^ 64)%N →
      map_accum walk_field (map_accum lift_field kvs blobs).1
        (pre ++ concat (cols <$> kvs) ++ post) =
      (del <$> kvs, pre ++ replicate (length (concat (cols <$> kvs))) [] ++ post)) as H.
    { clear Hlen Hn blobs pre Hbi.
      induction IH as [|[k x] l [_ Hx] _ IHl]; intros blobs pre Hlen Hn; [done|].
      simpl in Hnd. apply andb_true_iff in Hnd as [Hx' Hl]. cbn [fmap list_fmap concat] in *.
      rewrite length_app in Hn. simpl in Hx, Hn |- *.
      pose proof (lift_lane x blobs) as Hlane.
      specialize (Hx blobs pre (concat (cols <$> l) ++ post) Hx' Hlen ltac:(lia)).
      destruct (lift_columns x blobs) as [x' b1] eqn:E. simpl in Hlane, Hx. subst b1.
      specialize (IHl Hl (blobs ++ columns x) (pre ++ replicate (length (columns x)) [])).
      destruct (map_accum lift_field l (blobs ++ columns x)) as [l' b2]. simpl in *.
      rewrite <-app_assoc, Hx. rewrite <-app_assoc in IHl.
      rewrite IHl by (rewrite !length_app, ?length_replicate; lia).
      by rewrite <-app_assoc, length_app, replicate_app_assoc. }
    specialize (H blobs pre Hlen Hn). rewrite lift_map. cbn [fst].
    rewrite walk_map; [by rewrite H|].
    by rewrite <-(blob_index_same _ _ (lift_fields_same kvs blobs)).
  - simpl in *. destruct (Dtype.from_ext_tag tag) as [d|] eqn:E; [|done].
    simpl. rewrite <-Hlen. apply walk_descriptor; [done|]. simpl in Hn. lia.
Qed.

(** The blob lane is faithful.  Lifting an answer moves exactly its columns
    into the lane, in order, and inlining the lifted answer gives the guest the
    same answer with every column as its bytes, as long as no map of the answer
    is already shaped like a descriptor (and the lane's indices fit a [u64]). *)
Theorem lane_roundtrip v :
  no_descriptor v = true → (N.of_nat (length (columns v)) ≤ 2 ^ 64)%N →
  let '(lifted, blobs) := lift_columns v [] in
  blobs = columns v ∧ inline_blobs lifted blobs = delivered v.
Proof.
  intros Hnd Hn. pose proof (lift_lane v []) as Hlane.
  pose proof (walk_lift v [] [] [] Hnd eq_refl Hn) as Hw.
  destruct (lift_columns v []) as [lifted blobs]. simpl in *. subst blobs.
  split; [done|]. unfold inline_blobs. rewrite app_nil_r in Hw. by rewrite Hw.
Qed.

Lemma lane_roundtrip_witness :
  let v := VMap [(vstr "n", vnat 2); (vstr "x", column F64 (replicate 16 "a"%char));
                 (vstr "t", VArr [column U8 ["b"%char]; VNil])] in
  inline_blobs (lift_columns v []).1 (lift_columns v []).2 =
    VMap [(vstr "n", vnat 2); (vstr "x", VBin (replicate 16 "a"%char));
          (vstr "t", VArr [VBin ["b"%char]; VNil])].
Proof.
  intros v. pose proof (lane_roundtrip v) as H.
  assert (no_descriptor v = true) as Hnd by (by vm_compute).
  specialize (H Hnd ltac:(by vm_compute)).
  destruct (lift_columns v []) as [l b]. exact (proj2 H).
Defined.

(** The hypothesis is needed: an answer holding a column beside a map that
    already has the fields [dtype], [len] and [blob] reaches the guest with that
    map replaced by the column's bytes, and the column itself empty. *)
Theorem lane_collision bs :
  let forged := VMap [(vstr "dtype", VNil); (vstr "len", VNil); (vstr "blob", vnat 0)] in
  let '(lifted, blobs) := lift_columns (VArr [forged; column U8 bs]) [] in
  inline_blobs lifted blobs = VArr [VBin bs; VBin []].
Proof. reflexivity. Qed.

End LaneFacts.
