(* ===== verification/Handles.v ===== *)
(** * Host-held resources with an owner
    ([crates/drt-connector/src/handles.rs])

    One table per resource kind, keyed by owner and handle.  The mutex is per
    operation, so each operation is one function on the table. *)

From S2P Require Import Prelude.
From S2P Require Import Bytes.
From S2P Require Import Value.

(** Who is asking, and therefore who owns what the call creates. *)
Inductive Caller :=
  | CRoot
  | CNode (id : N).
Global Instance Caller_eq_dec : EqDecision Caller.
Proof. solve_decision. Defined.

(** The derived [Ord]: the root first, then nodes by id. *)
#[export] Instance Caller_ordered : Ordered Caller := {|
  klt a b := match a, b with
             | CRoot, CNode _ => true
             | CNode x, CNode y => N.ltb x y
             | _, _ => false
             end
|}.
#[export] Instance Caller_ordered_laws : OrderedLaws Caller.
Proof.
  split.
  - intros [|x]; simpl; [done|apply N.ltb_irrefl].
  - intros [|x] [|y] [|z]; simpl; rewrite ?N.ltb_lt; try done; lia.
  - intros [|x] [|y]; simpl; rewrite ?N.ltb_ge; try done. intros. f_equal. lia.
Qed.

(** [Display]. *)
Definition caller_text (c : Caller) : string :=
  match c with CRoot => "the root" | CNode id => "instance " +:+ dec id end.

(** [HandleId(u64)]. *)
Abbreviation HandleId := N (only parsing).

(** The one thing a wrong handle is told. *)
Inductive NoSuchHandle := MkNoSuchHandle.

Record Handles (R : Type) := MkHandles {
  kind : string;
  next : N;
  table : btree (Caller * HandleId) R
}.
Arguments MkHandles {R} _ _ _.
Arguments kind {R} _.
Arguments next {R} _.
Arguments table {R} _.

Definition wrap64 (n : N) : N := (n `mod` 2 ^ 64)%N.

Module Handles.
Section ops.
Context {R : Type}.
Definition new (kind : string) : Handles R := MkHandles kind 1 [].

Definition with_table (t : Handles R) (tbl : btree (Caller * HandleId) R) : Handles R := MkHandles (kind t) (next t) tbl.

Definition insert (t : Handles R) (caller : Caller) (resource : R) : HandleId * Handles R :=
  let id := next t in
  (id, MkHandles (kind t) (wrap64 (next t + 1)) (bt_insert (caller, id) resource (table t))).

(** [with]: the closure may change the resource and answers a value. *)
Definition with_ {T} (t : Handles R) (caller : Caller) (handle : HandleId) (f : R → T * R) :
    result T NoSuchHandle * Handles R :=
  match bt_get (caller, handle) (table t) with
  | Some r =>
      let '(v, r') := f r in
      (Ok v, with_table t (bt_insert (caller, handle) r' (table t)))
  | None => (Err MkNoSuchHandle, t)
  end.

Definition remove (t : Handles R) (caller : Caller) (handle : HandleId) :
    result R NoSuchHandle * Handles R :=
  match bt_get (caller, handle) (table t) with
  | Some r => (Ok r, with_table t (bt_remove (caller, handle) (table t)))
  | None => (Err MkNoSuchHandle, t)
  end.

Definition rekey (t : Handles R) (from to : Caller) (handle : HandleId) :
    result unit NoSuchHandle * Handles R :=
  match bt_get (from, handle) (table t) with
  | Some r =>
      (Ok tt, with_table t (bt_insert (to, handle) r (bt_remove (from, handle) (table t))))
  | None => (Err MkNoSuchHandle, t)
  end.

Definition owned_by (caller : Caller) (kv : Caller * HandleId * R) : bool :=
  bool_decide (kv.1.1 = caller).

(** [release]: the caller's entries come back in key order, the rest stay. *)
Definition release (t : Handles R) (caller : Caller) : list (HandleId * R) * Handles R :=
  let mine := filter (λ kv, kv.1.1 = caller) (table t) in
  ((λ kv, (kv.1.2, kv.2)) <$> mine,
   with_table t (filter (λ kv, kv.1.1 ≠ caller) (table t))).

Definition drain_root (t : Handles R) : list (HandleId * R) * Handles R := release t CRoot.

(** [take_where]: the predicate looks at every entry, and may change it. *)
Definition take_where (t : Handles R) (done : Caller → HandleId → R → bool * R) :
    list (Caller * HandleId * R) * Handles R :=
  let looked := (λ kv, (kv.1, done kv.1.1 kv.1.2 kv.2)) <$> table t in
  (omap (λ kv, if (kv.2.1 : bool) then Some (kv.1.1, kv.1.2, kv.2.2) else None) looked,
   with_table t (omap (λ kv, if (kv.2.1 : bool) then None else Some (kv.1, kv.2.2)) looked)).

Definition each (t : Handles R) (f : Caller → HandleId → R → R) : Handles R :=
  with_table t ((λ kv, (kv.1, f kv.1.1 kv.1.2 kv.2)) <$> table t).

Definition count (t : Handles R) (caller : Caller) : nat :=
  length (filter (λ k, k.1 = caller) (bt_keys (table t))).
End ops.
End Handles.

(** ** Theory *)

Module HandlesFacts.
Import Handles.
Section facts.
Context {R : Type}.
Implicit Types t : Handles R.

(** Sorted, every number below the next one, and no number twice: a handle
    belongs to exactly one caller. *)
Record handles_ok t : Prop := {
  ok_sorted : bt_sorted (table t);
  ok_below k : k ∈ bt_keys (table t) → (k.2 < next t)%N;
  ok_unique : NoDup (bt_keys (table t)).*2;
  ok_next : (0 < next t)%N
}.

Lemma new_ok k : handles_ok (new (R := R) k).
Proof. split; simpl; [apply bt_sorted_nil|by intros ? ?%not_elem_of_nil|constructor|lia]. Qed.

Lemma keys_nodup_insert (c : Caller) (h : HandleId) (r : R) tbl :
  NoDup (bt_keys tbl).*2 → h ∉ (bt_keys tbl).*2 →
  NoDup (bt_keys (bt_insert (c, h) r tbl)).*2.
Proof.
  induction tbl as [|[[c0 h0] r0] tbl IH]; intros Hnd Hh.
  { simpl. by apply NoDup_singleton. }
  cbn [bt_keys fmap list_fmap fst snd] in Hnd, Hh.
  apply NoDup_cons in Hnd as [Hh0 Hnd]. apply not_elem_of_cons in Hh as [Hne Hh].
  cbn [bt_insert]. rewrite decide_False by congruence.
  destruct (klt (c, h) (c0, h0)).
  - cbn [bt_keys fmap list_fmap fst snd]. apply NoDup_cons. split; [|by apply NoDup_cons].
    by apply not_elem_of_cons.
  - cbn [bt_keys fmap list_fmap fst snd]. apply NoDup_cons. split; [|by apply IH].
    intros Hin. apply list_elem_of_fmap in Hin as ([c1 h1] & Heq & Hin).
    apply bt_keys_insert_elem in Hin as [[= -> ->]|Hin]; [done|].
    destruct Hh0. apply list_elem_of_fmap. eauto.
Qed.

Lemma nodup_sub (p : Caller * HandleId → bool) l :
  NoDup l.*2 → NoDup (filter (λ k, p k = true) l).*2.
Proof.
  induction l as [|k l IH]; [done|]. cbn [fmap list_fmap]. intros [Hk Hl]%NoDup_cons.
  rewrite filter_cons. case_decide; [|by apply IH]. cbn [fmap list_fmap].
  apply NoDup_cons. split; [|by apply IH].
  intros Hin. destruct Hk. apply list_elem_of_fmap in Hin as (k' & -> & Hin).
  apply list_elem_of_filter in Hin as [_ Hin]. apply list_elem_of_fmap. eauto.
Qed.

Lemma keys_filter (p : Caller * HandleId → bool) (tbl : btree (Caller * HandleId) R) :
  bt_keys (filter (λ kv, p kv.1 = true) tbl) = filter (λ k, p k = true) (bt_keys tbl).
Proof.
  unfold bt_keys. induction tbl as [|[k r] tbl IH]; [done|].
  rewrite filter_cons. cbn [fmap list_fmap fst]. rewrite filter_cons. simpl.
  case_decide; [|done]. cbn [fmap list_fmap fst]. by rewrite IH.
Qed.

Lemma sorted_filter (P : Caller * HandleId * R → Prop) `{!∀ x, Decision (P x)}
    (tbl : btree (Caller * HandleId) R) :
  bt_sorted tbl → bt_sorted (filter P tbl).
Proof.
  induction tbl as [|[k r] tbl IH]; [done|]. intros [Hk Hs]%bt_sorted_cons.
  rewrite filter_cons. case_decide; [|by apply IH]. apply bt_sorted_cons.
  split; [|by apply IH]. intros k'. unfold bt_keys. intros Hin. apply Hk.
  unfold bt_keys. apply list_elem_of_fmap in Hin as (kv & -> & Hin).
  apply list_elem_of_filter in Hin as [_ Hin]. apply list_elem_of_fmap. eauto.
Qed.

(** A table whose entries are some of another's is in order if that is. *)
Lemma ok_filter t (p : Caller * HandleId → bool) tbl :
  handles_ok t → tbl = filter (λ kv, p kv.1 = true) (table t) →
  handles_ok (with_table t tbl).
Proof.
  intros [Hs Hb Hu Hn] ->. split; simpl; [by apply sorted_filter| | |done].
  - intros k. rewrite keys_filter. intros [_ Hk]%list_elem_of_filter. by apply Hb.
  - rewrite keys_filter. by apply nodup_sub.
Qed.

Lemma remove_as_filter k (tbl : btree (Caller * HandleId) R) :
  bt_remove k tbl = filter (λ kv, bool_decide (kv.1 ≠ k) = true) tbl.
Proof. apply list_filter_iff. intros x. by rewrite bool_decide_eq_true. Qed.

Lemma insert_ok t c r :
  handles_ok t → (next t + 1 < 2 ^ 64)%N → handles_ok (insert t c r).2.
Proof.
  intros [Hs Hb Hu Hn] Hw. unfold insert. split; simpl.
  - by apply bt_sorted_insert.
  - unfold wrap64. rewrite N.mod_small by done.
    intros k [->|Hk%Hb]%bt_keys_insert_elem; simpl; lia.
  - apply keys_nodup_insert; [done|]. intros Hin.
    apply list_elem_of_fmap in Hin as (k & Heq & Hk%Hb). lia.
  - unfold wrap64. rewrite N.mod_small by done. lia.
Qed.

Lemma remove_ok t c h : handles_ok t → handles_ok (remove t c h).2.
Proof.
  intros Hok. unfold remove. destruct (bt_get _ _); [|done].
  by apply (ok_filter t (λ k, bool_decide (k ≠ (c, h)))), remove_as_filter.
Qed.

Lemma get_in_keys c h (tbl : btree (Caller * HandleId) R) r :
  bt_get (c, h) tbl = Some r → (c, h) ∈ bt_keys tbl.
Proof. intros H. apply bt_get_is_Some. eauto. Qed.

Lemma nodup_fst_eq (l : list (Caller * HandleId)) c c' h :
  NoDup l.*2 → (c, h) ∈ l → (c', h) ∈ l → c = c'.
Proof.
  induction l as [|[c0 h0] l IH]; intros Hnd H1 H2; [by apply not_elem_of_nil in H1|].
  cbn [fmap list_fmap snd] in Hnd. apply NoDup_cons in Hnd as [Hh Hnd].
  apply elem_of_cons in H1 as [E1|H1]; apply elem_of_cons in H2 as [E2|H2].
  - congruence.
  - destruct Hh. apply list_elem_of_fmap. exists (c', h). by simplify_eq.
  - destruct Hh. apply list_elem_of_fmap. exists (c, h). by simplify_eq.
  - by apply IH.
Qed.

Lemma ok_owner_unique t c c' h r r' :
  handles_ok t → bt_get (c, h) (table t) = Some r →
  bt_get (c', h) (table t) = Some r' → c = c'.
Proof.
  intros Hok H1%get_in_keys H2%get_in_keys. eapply nodup_fst_eq; eauto using ok_unique.
Qed.

Lemma with_ok {T} t c h (f : R → T * R) : handles_ok t → handles_ok (with_ t c h f).2.
Proof.
  intros [Hs Hb Hu Hn]. unfold with_. destruct (bt_get _ _) as [r|] eqn:Hg; [|by split].
  destruct (f r) as [v r']. simpl.
  assert (bt_keys (bt_insert (c, h) r' (table t)) = bt_keys (table t)) as Hk.
  { apply bt_get_is_Some_insert_keys; [by eauto|done|apply _]. }
  split; simpl; [by apply bt_sorted_insert|by rewrite Hk..|done].
Qed.

Lemma rekey_ok t c c' h : handles_ok t → handles_ok (rekey t c c' h).2.
Proof.
  intros Hok. unfold rekey. destruct (bt_get _ _) as [r|] eqn:Hg; [|done]. simpl.
  pose proof (remove_ok t c h Hok) as Hrem. unfold remove in Hrem. rewrite Hg in Hrem.
  simpl in Hrem. destruct Hok as [_ Hb0 Hu0 _], Hrem as [Hs Hb Hu Hn]. simpl in *.
  split; simpl; [by apply bt_sorted_insert| | |done].
  - intros k [->|Hk]%bt_keys_insert_elem; [|by apply Hb].
    apply (Hb0 (c, h)). by eapply get_in_keys.
  - apply keys_nodup_insert; [done|]. intros Hin.
    apply list_elem_of_fmap in Hin as ([c0 h0] & Heq & Hin). simpl in Heq. subst h0.
    apply bt_keys_remove_elem in Hin as [Hne Hin]. destruct Hne. f_equal.
    eapply nodup_fst_eq; [exact Hu0|exact Hin|by eapply get_in_keys].
Qed.

Lemma release_ok t c : handles_ok t → handles_ok (release t c).2.
Proof.
  intros Hok. apply (ok_filter t (λ k, bool_decide (k.1 ≠ c))); [done|].
  apply list_filter_iff. intros x. by rewrite bool_decide_eq_true.
Qed.

(** The operations a connector can call, as steps on a table whose counter
    has not wrapped. *)
Inductive op :=
  | OpInsert (c : Caller) (r : R)
  | OpWith (c : Caller) (h : HandleId) (f : R → R)
  | OpRemove (c : Caller) (h : HandleId)
  | OpRekey (c c' : Caller) (h : HandleId)
  | OpRelease (c : Caller).

Definition run_op t (o : op) : Handles R :=
  match o with
  | OpInsert c r => (insert t c r).2
  | OpWith c h f => (with_ t c h (λ r, (tt, f r))).2
  | OpRemove c h => (remove t c h).2
  | OpRekey c c' h => (rekey t c c' h).2
  | OpRelease c => (release t c).2
  end.

Lemma run_op_ok t o :
  handles_ok t → (next t + 1 < 2 ^ 64)%N →
  handles_ok (run_op t o) ∧ (next t ≤ next (run_op t o) ≤ next t + 1)%N.
Proof.
  intros Hok Hw. split.
  - destruct o; [by apply insert_ok|by apply with_ok|by apply remove_ok
      |by apply rekey_ok|by apply release_ok].
  - destruct o; simpl; unfold insert, with_, remove, rekey, release, wrap64; simpl.
    + rewrite N.mod_small by done. lia.
    + destruct (bt_get _ _); simpl; lia.
    + destruct (bt_get _ _); simpl; lia.
    + destruct (bt_get _ _); simpl; lia.
    + lia.
Qed.

Lemma run_handles_ok k ops :
  (N.of_nat (length ops) + 1 < 2 ^ 64)%N → handles_ok (foldl run_op (new k) ops).
Proof.
  intros Hlen.
  enough (handles_ok (foldl run_op (new k) ops) ∧
          (next (foldl run_op (new k) ops) ≤ N.of_nat (length ops) + 1)%N) as [? _]; [done|].
  induction ops as [|o ops IH] using rev_ind.
  - split; [apply new_ok|simpl; lia].
  - rewrite foldl_app. rewrite length_app in *. simpl in *.
    destruct IH as [Hok Hn]; [lia|].
    destruct (run_op_ok (foldl run_op (new k) ops) o Hok); [lia|]. split; [done|lia].
Qed.

(** A handle belongs to exactly one caller and is never reused.  After
    any sequence of table operations shorter than 2^64, keys are in order, no
    number is live under two owners, and every live number is below the next
    one [insert] will issue, so a stale number aliases nothing. *)
Theorem handles_invariant k ops :
  (N.of_nat (length ops) + 1 < 2 ^ 64)%N →
  let t := foldl run_op (new k) ops in
  handles_ok t ∧
  (∀ c c' h r r', bt_get (c, h) (table t) = Some r →
     bt_get (c', h) (table t) = Some r' → c = c') ∧
  (∀ c r c', bt_get (c', (insert t c r).1) (table t) = None).
Proof.
  intros Hlen t.
  pose proof (run_handles_ok k ops Hlen : handles_ok t) as Hok.
  split_and!; [done|by eauto using ok_owner_unique|].
  intros c r c'. apply bt_get_None. intros Hin%(ok_below t Hok). simpl in Hin. lia.
Qed.

(** Ownership is what an operation answers by.  A caller that does not
    own a handle gets the one constant refusal and changes nothing, whoever
    owns it; [rekey] moves a handle, number unchanged, and leaves its old
    owner with nothing; [release] takes every entry of its caller and no
    other. *)
Theorem handles_ownership t :
  handles_ok t →
  (∀ c c' h r, c ≠ c' → bt_get (c, h) (table t) = Some r →
     remove t c' h = (Err MkNoSuchHandle, t) ∧
     rekey t c' c h = (Err MkNoSuchHandle, t) ∧
     ∀ T (f : R → T * R), with_ t c' h f = (Err MkNoSuchHandle, t)) ∧
  (∀ c c' h r, c ≠ c' → bt_get (c, h) (table t) = Some r →
     let '(res, t') := rekey t c c' h in
     res = Ok tt ∧ bt_get (c', h) (table t') = Some r ∧ bt_get (c, h) (table t') = None) ∧
  (∀ c, let '(took, t') := release t c in
     (∀ h r, (h, r) ∈ took ↔ bt_get (c, h) (table t) = Some r) ∧
     (∀ c' h, bt_get (c', h) (table t') =
        if decide (c' = c) then None else bt_get (c', h) (table t))).
Proof.
  intros Hok.
  assert (Hother : ∀ c c' h r, c ≠ c' → bt_get (c, h) (table t) = Some r →
            bt_get (c', h) (table t) = None).
  { intros c c' h r Hne Hg. destruct (bt_get (c', h) (table t)) eqn:Hg'; [|done].
    destruct Hne. by eapply ok_owner_unique. }
  split_and!.
  - intros c c' h r Hne Hg. unfold remove, rekey, with_.
    by rewrite (Hother c c' h r Hne Hg).
  - intros c c' h r Hne Hg. unfold rekey. rewrite Hg. simpl.
    rewrite bt_get_insert_eq, bt_get_insert_ne, bt_get_remove_eq by congruence. done.
  - intros c. simpl. split.
    + intros h r. rewrite list_elem_of_fmap. split.
      * intros ([[c0 h0] r0] & [= -> ->] & [Hc Hin]%list_elem_of_filter). simpl in *. subst c0.
        apply bt_sorted_get_elem; [by apply ok_sorted|done].
      * intros Hg%bt_get_elem. exists ((c, h), r). split; [done|].
        by apply list_elem_of_filter.
    + intros c' h. generalize (table t). intros tbl. case_decide as Hc.
      * subst. apply bt_get_None. intros Hin.
        apply list_elem_of_fmap in Hin as (kv & Heq & [Hne _]%list_elem_of_filter).
        by rewrite <-Heq in Hne.
      * induction tbl as [|[[c0 h0] r0] tbl IH]; [done|]. rewrite filter_cons. simpl.
        case_decide as Hc0; simpl; [by case_decide|].
        rewrite IH. destruct (decide (c0 = c)) as [->|]; [|done].
        by rewrite decide_False by congruence.
Qed.
End facts.

Definition demo_ops : list (op (R := string)) :=
  [OpInsert (CNode 4) "a"; OpInsert CRoot "b"; OpRekey (CNode 4) (CNode 5) 1%N;
   OpRelease (CNode 4)].

Lemma handles_invariant_witness :
  let t := foldl run_op (new "socket") demo_ops in
  handles_ok t ∧ table t = [((CRoot, 2%N), "b"); ((CNode 5, 1%N), "a")].
Proof.
  split; [|by vm_compute].
  apply (handles_invariant "socket" demo_ops). by vm_compute.
Defined.

Lemma handles_ownership_witness :
  let t := foldl run_op (new "socket") demo_ops in
  remove t (CNode 4) 2%N = (Err MkNoSuchHandle, t).
Proof.
  intros t.
  assert (handles_ok t) as Hok by (apply (run_handles_ok "socket" demo_ops); by vm_compute).
  apply (proj1 (handles_ownership t Hok) CRoot (CNode 4) 2%N "b"); [done|by vm_compute].
Defined.

End HandlesFacts.
