(* ===== verification/Connector.v ===== *)
(** * Connectors and the dispatcher ([crates/drt-connector/src/lib.rs])

    The connector trait as an interface, the registry of wired families, and
    the dispatcher: capability gating, token echo and the answered-always
    guarantee, with the capability menu and the grant desk it answers
    itself. *)

From S2P Require Import Prelude.
From S2P Require Import Bytes.
From S2P Require Import Value.
From S2P Require Import Caps.
From S2P Require Import Hostcall.
From S2P Require Import Handles.

(** Who is asking, and the scope on each grant that lets the call through. *)
Record Asker := MkAsker { asker_caller : Caller; asker_grants : list Scope }.

Record Notice := MkNotice {
  notice_owner : Caller;
  notice_queue : string;
  notice_message : Value
}.

Record CallError := MkCallError { ce_detail : string; ce_status : Status }.
Module CallError.
Definition new (detail : string) : CallError := MkCallError detail StatusError.
Definition timed_out (detail : string) : CallError := MkCallError detail StatusTimeout.
End CallError.

Definition CallResult : Type := result Value CallError.

Inductive Backing :=
  | Builtin
  | PluginBacked (name : string).
Definition backing_kind (b : Backing) : string :=
  match b with Builtin => "builtin" | PluginBacked _ => "plugin" end.
Definition backing_owner (b : Backing) : Value :=
  match b with Builtin => VNil | PluginBacked name => vstr name end.

(** ** The connector trait

    [conn] is an [Arc<dyn Connector>], [W] what the connectors keep behind
    their shared references, [fut] the future [call_as] returns, which does
    nothing until it is polled. *)
Class Connectors (conn fut W : Type) := {
  c_scope_type : conn → ScopeType;
  c_backing : conn → Backing;
  c_call_as : conn → Asker → string → option Value → option Scope → fut;
  c_poll : fut → W → (CallResult + fut) * W;
  c_release : conn → Caller → W → list string * W;
  c_finish : conn → W → list string * W;
  c_ended : conn → W → list (Caller * string) * W;
  c_notices : conn → W → list Notice * W;
}.

(** The trait's default methods. *)
Definition default_scope_type : ScopeType := NoScope.
Definition default_backing : Backing := Builtin.
Definition default_release {W} (_ : Caller) (w : W) : list string * W := ([], w).
Definition default_finish {W} (w : W) : list string * W := ([], w).
Definition default_ended {W} (w : W) : list (Caller * string) * W := ([], w).
Definition default_notices {W} (w : W) : list Notice * W := ([], w).

(** Where a grant request goes, and the root's ceiling. *)
Record GrantDesk (W : Type) := MkGrantDesk {
  ceiling : list string;
  desk_request : string → option Value → W → result Value string * W
}.
Arguments MkGrantDesk {W} _ _.
Arguments ceiling {W} _.
Arguments desk_request {W} _.

Definition CAPABILITIES_LIST : string := "capabilities/list".
Definition REQUEST_GRANT : string := "capabilities/request_grant".

Section dispatcher.
Context {conn fut W : Type} `{!Connectors conn fut W} `{!HostcallWire}.

Record Wired := MkWired { connector : conn; wired_scope : option Scope }.

(** ** The registry *)

Record Registry := MkRegistry { wired : btree string Wired }.

Definition registry_new : Registry := MkRegistry [].

Definition wire (r : Registry) (family : string) (c : conn) (scope : option Scope) :
    result Registry ScopeError :=
  let ty := c_scope_type c in
  match validate_scope ty scope with
  | Some detail => Err (MkScopeError (call_capability family) (describe ty) detail)
  | None => Ok (MkRegistry (bt_insert family (MkWired c scope) (wired r)))
  end.

Definition declare_scope_types (r : Registry) (scopes : ScopeRegistry) : ScopeRegistry :=
  foldl (λ acc kv, ScopeRegistry.declare acc (call_capability kv.1) (c_scope_type (connector kv.2)))
    scopes (wired r).

Definition family_of (call : string) : string := default call (head (split_on "/" call)).

Definition resolve (r : Registry) (call : string) : option Wired :=
  bt_get (family_of call) (wired r).

(** ** The dispatcher *)

Record Dispatcher := MkDispatcher { registry : Registry; desk : option (GrantDesk W) }.

Definition dispatcher_new (r : Registry) : Dispatcher := MkDispatcher r None.
Definition with_grants (d : Dispatcher) (g : GrantDesk W) : Dispatcher :=
  MkDispatcher (registry d) (Some g).

(** The sweeps, in name order, each connector's words concatenated. *)
Definition sweep {A} (d : Dispatcher) (f : conn → W → list A * W) (w : W) : list A * W :=
  let '(lists, w') := map_accum (λ c w, f (connector c) w) (bt_values (wired (registry d))) w in
  (concat lists, w').

Definition finish (d : Dispatcher) : W → list string * W := sweep d c_finish.
Definition dispatcher_release (d : Dispatcher) (caller : Caller) : W → list string * W :=
  sweep d (λ c, c_release c caller).
Definition dispatcher_ended (d : Dispatcher) : W → list (Caller * string) * W := sweep d c_ended.
Definition dispatcher_notices (d : Dispatcher) : W → list Notice * W := sweep d c_notices.

(** *** [capabilities/list] *)

(** The closure [under_family]. *)
Definition under_family (family name : string) : bool :=
  let cap := call_capability family in
  bool_decide (name = cap) || starts_with name (cap +:+ "/").

Definition granted (caps : CapSet) (family : string) : bool :=
  let cap := call_capability family in
  CapSet.holds caps cap ||
  existsb (λ g, is_grant g && under_family family (capability g)) (grants caps).

Definition held (caps : CapSet) (family : string) : Value :=
  VArr ((λ g, VMap [(vstr "capability", vstr (capability g));
                    (vstr "effect", vstr (match effect g with
                                          | Grant_ => "grant" | Deny => "deny" end))])
        <$> filter (λ g, under_family family (capability g) = true) (grants caps)).

Definition within_ceiling (d : Dispatcher) (family : string) : bool :=
  match desk d with
  | None => true
  | Some g =>
      existsb (λ name, under_family family name || implies name (call_capability family))
        (ceiling g)
  end.

Definition entry (d : Dispatcher) (caps : CapSet) (name family : string)
    (is_granted : bool) (backing : Backing) : Value :=
  VMap [(vstr "name", vstr name);
        (vstr "kind", vstr (backing_kind backing));
        (vstr "owner", backing_owner backing);
        (vstr "granted", VBool is_granted);
        (vstr "visibility", vstr "public");
        (vstr "held", held caps family);
        (vstr "within_ceiling", VBool (within_ceiling d family))].

Definition capabilities (d : Dispatcher) (caps : CapSet) : Value :=
  VArr (((λ kv, entry d caps kv.1 kv.1 (granted caps kv.1) (c_backing (connector kv.2)))
           <$> wired (registry d)) ++
        [entry d caps "capabilities" "capabilities"
           (CapSet.holds caps (call_capability CAPABILITIES_LIST)) Builtin]).

(** *** [capabilities/request_grant] *)

Definition request_grant (d : Dispatcher) (caps : CapSet) (tok : Token)
    (args : option Value) (w : W) : Reply * W :=
  match desk d with
  | None =>
      (Reply.denied tok
         "this process has no root to record a grant request in; `request_grant` needs a deployment, not a single program", w)
  | Some g =>
      match holder caps with
      | None =>
          (Reply.error tok
             "this instance has no node path, so a grant request would have no subject", w)
      | Some node =>
          match desk_request g node args w with
          | (Ok value, w') => (Reply.ok tok value, w')
          | (Err why, w') => (Reply.error tok why, w')
          end
      end
  end.

(** *** Routing *)

Record PendingCall := MkPendingCall {
  pc_caller : Caller;
  pc_grants : list Scope;
  pc_tok : Token;
  pc_call : string;
  pc_args : option Value;
  pc_connector : conn;
  pc_scope : option Scope
}.

Inductive Routed :=
  | Answered (r : Reply)
  | Call (c : PendingCall).

(** The scope on each grant that lets a call through. *)
Definition permitting_scopes (caps : CapSet) (cap : string) : list Scope :=
  omap scope (filter (λ g, is_grant g && implies (capability g) cap = true) (grants caps)).

Definition route_as (d : Dispatcher) (caller : Caller) (caps : CapSet) (raw : bytes) (w : W) :
    Routed * W :=
  match request_from_bytes raw with
  | Err e => (Answered (Reply.malformed (salvage_token raw) ("unreadable request: " +:+ e)), w)
  | Ok req =>
      let cap := call_capability (req_call req) in
      if negb (CapSet.holds caps cap) then
        (Answered (Reply.denied (req_tok req)
           ("'" +:+ req_call req +:+ "' is outside this instance's grants")), w)
      else
        let scopes := permitting_scopes caps cap in
        if bool_decide (req_call req = CAPABILITIES_LIST) then
          (Answered (Reply.ok (req_tok req) (capabilities d caps)), w)
        else if bool_decide (req_call req = REQUEST_GRANT) then
          let '(r, w') := request_grant d caps (req_tok req) (req_args req) w in (Answered r, w')
        else
          match resolve (registry d) (req_call req) with
          | None =>
              (Answered (Reply.denied (req_tok req)
                 ("no connector is wired for '" +:+ req_call req +:+ "' in this process")), w)
          | Some wd =>
              (Call (MkPendingCall caller scopes (req_tok req) (req_call req) (req_args req)
                       (connector wd) (wired_scope wd)), w)
          end
  end.

Definition route (d : Dispatcher) : CapSet → bytes → W → Routed * W := route_as d CRoot.

(** *** Answering *)

(** The future of [PendingCall::answer]. *)
Record AnswerFuture := MkAnswerFuture { af_tok : Token; af_fut : fut }.

Definition answer (c : PendingCall) : AnswerFuture :=
  MkAnswerFuture (pc_tok c)
    (c_call_as (pc_connector c) (MkAsker (pc_caller c) (pc_grants c)) (pc_call c)
       (pc_args c) (pc_scope c)).

(** What [answer] makes of the connector's result. *)
Definition shape_answer (tok : Token) (r : CallResult) : Reply :=
  match r with
  | Ok value =>
      let '(v, blobs) := lift_columns value [] in
      MkReply (Some tok) StatusOk (Some v) None blobs
  | Err e =>
      match ce_status e with
      | StatusTimeout => Reply.timed_out tok (ce_detail e)
      | _ => Reply.error tok (ce_detail e)
      end
  end.

Definition poll_answer (f : AnswerFuture) (w : W) : (Reply + AnswerFuture) * W :=
  match c_poll (af_fut f) w with
  | (inl r, w') => (inl (shape_answer (af_tok f) r), w')
  | (inr fut', w') => (inr (MkAnswerFuture (af_tok f) fut'), w')
  end.
End dispatcher.

Arguments MkWired {conn} _ _.
Arguments Registry : clear implicits.
Arguments Dispatcher : clear implicits.
Arguments PendingCall : clear implicits.
Arguments AnswerFuture : clear implicits.
Arguments Routed : clear implicits.

(** ** The mock connector: a first-class backing *)

Record MockConnector := MkMockConnector { answers : btree string Value; mock_backing : Backing }.

Module Mock.
Definition new : MockConnector := MkMockConnector [] default_backing.
Definition answer (m : MockConnector) (call : string) (v : Value) : MockConnector :=
  MkMockConnector (bt_insert call v (answers m)) (mock_backing m).
Definition backed_by (m : MockConnector) (b : Backing) : MockConnector :=
  MkMockConnector (answers m) b.
Definition call (m : MockConnector) (c : string) : CallResult :=
  match bt_get c (answers m) with
  | Some v => Ok v
  | None => Err (CallError.new ("the mock has no answer for '" +:+ c +:+ "'"))
  end.
End Mock.

(** It keeps nothing, so its future is its answer and its state is trivial. *)
#[export] Instance mock_connectors : Connectors MockConnector CallResult unit := {|
  c_scope_type _ := default_scope_type;
  c_backing := mock_backing;
  c_call_as m _ call _ _ := Mock.call m call;
  c_poll r w := (inl r, w);
  c_release _ := default_release;
  c_finish _ := default_finish;
  c_ended _ := default_ended;
  c_notices _ := default_notices
|}.

(** ** Theory *)

Module ConnectorFacts.
Import CapSet CapSetFacts.

Section facts.
Context {conn fut W : Type} `{!Connectors conn fut W} `{!HostcallWire}.
Implicit Types d : Dispatcher conn W.

(** The dispatcher's whole contract at routing.  Bytes that do not decode
    are answered [malformed] with whatever token was readable; a decoded call
    the instance does not hold is answered [denied]; the menu and the grant
    request are answered here; a family nobody wires is [denied]; and only
    what is left is handed to a connector.  Every answer echoes the
    request's token. *)
Theorem route_as_spec d caller caps raw w :
  match request_from_bytes raw with
  | Err e =>
      route_as d caller caps raw w =
        (Answered (Reply.malformed (salvage_token raw) ("unreadable request: " +:+ e)), w)
  | Ok req =>
      let call := req_call req in
      let held := holds caps (call_capability call) in
      (held = false → ∃ why, route_as d caller caps raw w =
         (Answered (Reply.denied (req_tok req) why), w)) ∧
      (held = true → call = CAPABILITIES_LIST →
         route_as d caller caps raw w =
           (Answered (Reply.ok (req_tok req) (capabilities d caps)), w)) ∧
      (held = true → call = REQUEST_GRANT →
         ∃ r w', route_as d caller caps raw w = (Answered r, w') ∧
           rep_tok r = Some (req_tok req)) ∧
      (held = true → call ≠ CAPABILITIES_LIST → call ≠ REQUEST_GRANT →
         match resolve (registry d) call with
         | None => ∃ why, route_as d caller caps raw w =
             (Answered (Reply.denied (req_tok req) why), w)
         | Some wd => route_as d caller caps raw w =
             (Call (MkPendingCall caller (permitting_scopes caps (call_capability call))
                      (req_tok req) call (req_args req) (connector wd) (wired_scope wd)), w)
         end)
  end.
Proof.
  unfold route_as. destruct (request_from_bytes raw) as [req|e]; [|done].
  destruct (holds caps (call_capability (req_call req))) eqn:Hh; simpl; split_and!;
    try done; try (by intros _; eauto); intros _.
  - intros Hc. by rewrite bool_decide_true.
  - intros Hc. rewrite bool_decide_false by (rewrite Hc; by vm_compute).
    rewrite bool_decide_true by done. unfold request_grant.
    destruct (desk d) as [g|]; [|by eexists _, _].
    destruct (holder caps) as [node|]; [|by eexists _, _].
    destruct (desk_request g node (req_args req) w) as [[v|why] w']; by eexists _, _.
  - intros Hl Hg. rewrite !bool_decide_false by done.
    destruct (resolve (registry d) (req_call req)); [done|by eexists].
Qed.

(** No connector sees a call its asker does not hold.  Whenever routing
    hands a call to a connector, the instance's own set holds the call's
    capability, the connector is the one wired for the call's family, and the
    scopes it is told are exactly those on the grants that permit the call. *)
Theorem routed_call_held d caller caps raw w pc w' :
  route_as d caller caps raw w = (Call pc, w') →
  w' = w ∧ pc_caller pc = caller ∧
  holds caps (call_capability (pc_call pc)) = true ∧
  (∃ wd, resolve (registry d) (pc_call pc) = Some wd ∧
     connector wd = pc_connector pc ∧ wired_scope wd = pc_scope pc) ∧
  (∀ sc, sc ∈ pc_grants pc ↔
     ∃ g, g ∈ grants caps ∧ is_grant g = true ∧
       implies (capability g) (call_capability (pc_call pc)) = true ∧ scope g = Some sc).
Proof.
  unfold route_as. destruct (request_from_bytes raw) as [req|e]; [|done].
  destruct (holds caps (call_capability (req_call req))) eqn:Hh; [|done]. simpl.
  case_bool_decide; [done|]. case_bool_decide.
  { by destruct (request_grant d caps (req_tok req) (req_args req) w). }
  destruct (resolve (registry d) (req_call req)) as [wd|] eqn:Hr; [|done].
  intros [= <- <-]. simpl. split_and!; [done..|by eauto|].
  intros sc. unfold permitting_scopes. rewrite list_elem_of_omap.
  setoid_rewrite list_elem_of_filter. setoid_rewrite andb_True || idtac. split.
  - intros (g & [Hp Hin] & Hsc). exists g.
    apply andb_true_iff in Hp as [? ?]. done.
  - intros (g & Hin & Hg & Himp & Hsc). exists g. by rewrite Hg, Himp.
Qed.

(** A connector's answer is shaped once.  A ready call gives a reply with
    the request's token; it is [ok] with the lifted value and its columns in
    the lane, or the connector's own [error] or [timeout], and never
    [denied] or [malformed]. *)
Theorem answer_shape tok r :
  let reply := shape_answer tok r in
  rep_tok reply = Some tok ∧
  match r with
  | Ok v =>
      rep_status reply = StatusOk ∧ rep_detail reply = None ∧
      rep_value reply = Some (lift_columns v []).1 ∧ rep_blobs reply = LaneFacts.columns v
  | Err e =>
      rep_status reply =
        (if decide (ce_status e = StatusTimeout) then StatusTimeout else StatusError) ∧
      rep_value reply = None ∧ rep_detail reply = Some (ce_detail e) ∧ rep_blobs reply = []
  end.
Proof.
  destruct r as [v|[detail st]]; simpl.
  - pose proof (LaneFacts.lift_lane v []) as Hl.
    destruct (lift_columns v []) as [v' blobs]. by simplify_eq/=.
  - by destruct st.
Qed.

(** Wiring validates.  A connector is wired only under a scope its scope
    type accepts, a refusal names the family's capability and changes
    nothing, and a wired family answers exactly the calls whose first segment
    it is. *)
Theorem wire_spec (r : Registry conn) family (c : conn) sc :
  match wire r family c sc with
  | Ok r' =>
      validate_scope (c_scope_type c) sc = None ∧
      ∀ call, resolve r' call =
        if decide (family_of call = family) then Some (MkWired c sc) else resolve r call
  | Err e =>
      se_capability e = call_capability family ∧
      validate_scope (c_scope_type c) sc = Some (se_detail e) ∧
      se_expected e = describe (c_scope_type c)
  end.
Proof.
  unfold wire. destruct (validate_scope (c_scope_type c) sc) eqn:Hv; [done|].
  split; [done|]. intros call. unfold resolve. simpl. case_decide as Hf.
  - by rewrite Hf, bt_get_insert_eq.
  - by rewrite bt_get_insert_ne.
Qed.
End facts.

(** A family is the name before the first separator. *)
Lemma family_of_self f : contains_char "/" f = false → family_of f = f.
Proof. intros Hf. unfold family_of. by rewrite split_on_none. Qed.

Lemma family_of_under f rest :
  contains_char "/" f = false → family_of (f +:+ String "/" rest) = f.
Proof. intros Hf. unfold family_of. by rewrite split_on_app, split_on_none. Qed.

Lemma family_of_inv f call :
  family_of call = f → call = f ∨ ∃ rest, call = f +:+ String "/" rest.
Proof.
  unfold family_of. revert f. induction call as [|a call IH]; intros f; simpl.
  { intros <-. by left. }
  case_bool_decide as Ha.
  { subst. intros <-. right. by exists call. }
  destruct (split_on "/" call) as [|piece pieces] eqn:E; [by apply split_on_nonempty in E|].
  simpl in *. intros <-. destruct (IH piece eq_refl) as [->|[rest ->]]; [by left|].
  right. by exists rest.
Qed.

Lemma call_capability_bytes c : as_bytes (call_capability c) = as_bytes "host:" ++ as_bytes c.
Proof. apply as_bytes_app. Qed.

Lemma under_family_iff f name :
  under_family f name = true ↔
  name = call_capability f ∨ as_bytes (call_capability f) ++ ["/"%char] `prefix_of` as_bytes name.
Proof.
  unfold under_family, starts_with. rewrite orb_true_iff, !bool_decide_eq_true.
  by rewrite as_bytes_app.
Qed.

(** A name under a family is the capability of one of its calls. *)
Lemma under_family_call f name :
  contains_char "/" f = false → under_family f name = true →
  ∃ call, family_of call = f ∧ name = call_capability call.
Proof.
  intros Hf [->|[k Hk]]%under_family_iff; [by eauto using family_of_self|].
  exists (f +:+ String "/" (of_bytes k)). split; [by apply family_of_under|].
  apply as_bytes_inj. rewrite Hk, !call_capability_bytes, as_bytes_app, <-!app_assoc.
  change (as_bytes (String "/" (of_bytes k))) with ("/"%char :: as_bytes (of_bytes k)).
  by rewrite as_of_bytes.
Qed.

(** What covers some call of a family covers the family's own name, or is a
    name under it. *)
Lemma implies_family f cap call :
  family_of call = f → implies cap (call_capability call) = true →
  implies cap (call_capability f) = true ∨ under_family f cap = true.
Proof.
  intros Hf Himp. apply family_of_inv in Hf as [->|[rest ->]]; [by left|].
  assert (Hb : as_bytes (call_capability (f +:+ String "/" rest)) =
    (as_bytes (call_capability f) ++ ["/"%char]) ++ as_bytes rest).
  { by rewrite !call_capability_bytes, as_bytes_app, <-!app_assoc. }
  rewrite implies_pattern in Himp.
  destruct (pattern_prefix cap) as [p|] eqn:Hp.
  - rewrite Hb in Himp.
    destruct (prefix_weak_total p (as_bytes (call_capability f) ++ ["/"%char]) _ Himp)
      as [Hpre|Hpre]; [by eexists| |].
    + destruct (decide (p = as_bytes (call_capability f) ++ ["/"%char])) as [->|Hne].
      * right. apply under_family_iff. right. apply pattern_prefix_Some in Hp as [-> _].
        by eexists.
      * left. apply implies_pattern. rewrite Hp. destruct Hpre as [k Hk].
        destruct k as [|x k _] using rev_ind; [by rewrite app_nil_r in Hk|].
        rewrite app_assoc in Hk. apply app_inj_tail in Hk as [-> _]. by eexists.
    + right. apply under_family_iff. right. apply pattern_prefix_Some in Hp as [-> _].
      by apply prefix_app_r.
  - right. apply under_family_iff. right. rewrite Himp, Hb. by eexists.
Qed.

(** The menu tells the truth about grants.  For a set with no denies, the
    [granted] flag [capabilities/list] reports for a family is true exactly
    when some call of that family would be let through. *)
Theorem granted_iff_some_call caps f :
  contains_char "/" f = false → (∀ g, g ∈ grants caps → is_deny g = false) →
  granted caps f = true ↔
  ∃ call, family_of call = f ∧ holds caps (call_capability call) = true.
Proof.
  intros Hf Hnd.
  assert (Hholds : ∀ want, holds caps want = true ↔
    ∃ g, g ∈ grants caps ∧ is_grant g = true ∧ implies (capability g) want = true).
  { intros want. rewrite holds_iff. split; [naive_solver|]. intros Hg. split; [done|].
    intros g Hin Hd. by rewrite Hnd in Hd. }
  unfold granted. rewrite orb_true_iff, existsb_elem_of. split.
  - intros [Hh|(g & Hin & [Hg Hu]%andb_true_iff)].
    + exists f. split; [by apply family_of_self|done].
    + destruct (under_family_call _ _ Hf Hu) as (call & Hcall & Heq).
      exists call. split; [done|]. apply Hholds. exists g. rewrite <-Heq.
      by split_and!; [..|apply implies_refl].
  - intros (call & Hcall & (g & Hin & Hg & Himp)%Hholds).
    destruct (implies_family _ _ _ Hcall Himp) as [?|Hu].
    + left. apply Hholds. eauto.
    + right. exists g. by rewrite Hg, Hu.
Qed.

Lemma granted_iff_some_call_witness :
  ∃ call, family_of call = "fs" ∧
    holds (CapSet.root [grant "host:fs/read"]) (call_capability call) = true.
Proof.
  apply (granted_iff_some_call (CapSet.root [grant "host:fs/read"]) "fs");
    [by vm_compute| |by vm_compute].
  intros g Hg. apply elem_of_cons in Hg as [->|Hg]; [by vm_compute|].
  by apply not_elem_of_nil in Hg.
Defined.

(** With denies the flag drifts, both ways.  A set whose only grant of a
    family is denied again is listed [granted] though no call of the family is
    let through; and a set that denies a family's bare name is listed as not
    granted though it lets a call of the family through. *)
Theorem granted_drifts_under_denies :
  (let caps := CapSet.root [grant "host:fs/read"; deny "host:fs/*"] in
   granted caps "fs" = true ∧
   ∀ rest, holds caps (call_capability ("fs" +:+ String "/" rest)) = false) ∧
  (let caps := CapSet.root [grant "host:*"; deny "host:fs"] in
   granted caps "fs" = false ∧ holds caps (call_capability "fs/read") = true).
Proof.
  split; (split; [by vm_compute|]); [|by vm_compute].
  intros rest. apply not_true_iff_false. intros [_ Hd]%holds_iff.
  specialize (Hd (deny "host:fs/*") ltac:(right; left) eq_refl).
  assert (implies "host:fs/*" (call_capability ("fs" +:+ String "/" rest)) = true) as Hi.
  { apply implies_pattern. change (pattern_prefix "host:fs/*") with (Some (as_bytes "host:fs/")).
    by exists (as_bytes rest). }
  change (implies "host:fs/*" (call_capability ("fs" +:+ String "/" rest)) = false) in Hd.
  congruence.
Qed.

End ConnectorFacts.
