(* ===== verification/Engine.v ===== *)
(** * Endpoint references ([crates/drt-swarm/src/refs.rs])

    A reference names an endpoint by scheme, address and minting identity and
    travels as an opaque msgpack ext value.  The named-map encoding of the
    payload is the serializer's, the parameter [RefWire].

    ** The engine seam ([crates/drt-swarm/src/engine.rs])

    The traits through which the swarm reaches instances.  An engine is a
    parameter: the classes below state its operations, one per trait method
    the swarm calls, with a [&mut self] method returning the changed value.
    The data that crosses the seam is the source's. *)

From S2P Require Import Prelude.
From S2P Require Import Bytes.
From S2P Require Import Value.
From S2P Require Import Config.

Definition ENDPOINT_EXT_TYPE : Z := 2.
Definition SCHEME_LOCAL : string := "local".

Record EndpointRef := MkEndpointRef {
  scheme : string;
  address : string;
  identity : option string
}.
Global Instance EndpointRef_eq_dec : EqDecision EndpointRef.
Proof. solve_decision. Defined.

Inductive RefError :=
  | WrongExtType (found : Z)
  | NotExt
  | Payload (why : string).

(** [rmp_serde::to_vec_named] and [rmp_serde::from_slice] at [EndpointRef]. *)
Class RefWire := {
  ref_to_vec : EndpointRef → option bytes;
  ref_from_slice : bytes → result EndpointRef string
}.

(** Strings msgpack has a length for. *)
Definition ref_fits (r : EndpointRef) : Prop :=
  (N.of_nat (str_len (scheme r)) < 2 ^ 32)%N ∧ (N.of_nat (str_len (address r)) < 2 ^ 32)%N ∧
  (N.of_nat (str_len (default "" (identity r))) < 2 ^ 32)%N.

(** What the serializer documents: a record of strings serializes, and reads
    back as itself. *)
Class RefWireLaws `{RefWire} : Prop := {
  ref_wire_roundtrip r :
    ref_fits r → ∃ payload, ref_to_vec r = Some payload ∧ ref_from_slice payload = Ok r
}.

Module EndpointRef.

Section ops.
Context `{RefWire}.

Definition local (address : string) (identity : option string) : EndpointRef :=
  MkEndpointRef SCHEME_LOCAL address identity.

(** [None] is the panic of [expect("a ref of three strings serializes")]. *)
Definition to_value (r : EndpointRef) : option Value :=
  VExt ENDPOINT_EXT_TYPE <$> ref_to_vec r.

Definition from_value (v : Value) : result EndpointRef RefError :=
  match v with
  | VExt tag payload =>
      if bool_decide (tag = ENDPOINT_EXT_TYPE) then
        match ref_from_slice payload with
        | Ok r => Ok r
        | Err e => Err (Payload e)
        end
      else Err (WrongExtType tag)
  | _ => Err NotExt
  end.
End ops.

End EndpointRef.

Section facts.
Context `{RefWireLaws}.

Lemma ref_value_roundtrip r :
  ref_fits r → ∃ v, EndpointRef.to_value r = Some v ∧ EndpointRef.from_value v = Ok r.
Proof.
  intros Hfit. destruct (ref_wire_roundtrip r Hfit) as (p & Hto & Hfrom).
  exists (VExt ENDPOINT_EXT_TYPE p). unfold EndpointRef.to_value, EndpointRef.from_value.
  rewrite Hto. split; [done|]. by rewrite bool_decide_eq_true_2, Hfrom.
Qed.

End facts.

Inductive EngineError :=
  | AbiMismatch (library expected : N)
  | ProgramError (why : string)
  | SnapshotMismatch (why : string)
  | EngineFault (why : string).

(** [Display]. *)
Definition engine_error_text (e : EngineError) : string :=
  match e with
  | AbiMismatch library expected =>
      "ABI mismatch: library speaks v" +:+ dec library +:+ ", engine expects v" +:+ dec expected
  | ProgramError why | SnapshotMismatch why | EngineFault why => why
  end.

(** [QueueHandle(u32)]. *)
Abbreviation QueueHandle := N (only parsing).

Definition WAIT_MAX : nat := 32.

(** The handles are inline: an array of [WAIT_MAX], of which the first [len]
    are named. A duration is in nanoseconds. *)
Record WaitSet := MkWaitSet {
  ws_queues : list QueueHandle;
  ws_len : nat;
  timeout : option N;
  for_space : bool
}.

Module WaitSet.

(** One round of the loop of [WaitSet::new]. *)
Definition add (set : WaitSet) (q : QueueHandle) : WaitSet :=
  if bool_decide (ws_len set < WAIT_MAX) then
    MkWaitSet (<[ws_len set := q]> (ws_queues set)) (S (ws_len set)) (timeout set) (for_space set)
  else set.

Definition new (qs : list QueueHandle) (timeout : option N) (for_space : bool) : WaitSet :=
  fold_left add qs (MkWaitSet (replicate WAIT_MAX 0%N) 0 timeout for_space).

Definition queues (w : WaitSet) : list QueueHandle := take (ws_len w) (ws_queues w).

Definition is_empty (w : WaitSet) : bool := bool_decide (ws_len w = 0).

End WaitSet.

Inductive Step :=
  | Parked (w : WaitSet)
  | Done.

Inductive PushOutcome := Accepted | DroppedOldest | Full | Disabled.
Global Instance PushOutcome_eq_dec : EqDecision PushOutcome.
Proof. solve_decision. Defined.

Definition is_accepted (o : PushOutcome) : bool :=
  match o with Accepted | DroppedOldest => true | _ => false end.

Record UsageReport := MkUsageReport {
  used_instructions : N;
  memory_kb_peak : N;
  bytes_now : N
}.

Inductive ProgramBytes :=
  | Source_ (text : string)
  | Bytecode (code : bytes).

Record LoadSpec := MkLoadSpec {
  load_program : ProgramBytes;
  load_name : string;
  load_budget : Budget;
  load_numeric : Numeric;
  load_unsafe_stdlib : bool;
  load_unsafe_debug : bool
}.

Record RestoreSpec := MkRestoreSpec {
  restore_snapshot : bytes;
  restore_numeric : Numeric;
  restore_host_stamp : option string;
  restore_budget : Budget;
  restore_unsafe_stdlib : bool;
  restore_unsafe_debug : bool
}.

Record QueueStatus := MkQueueStatus {
  q_len : N;
  q_capacity : N;
  q_enabled : bool;
  q_exported : bool
}.

(** [trait Instance]: one live instance. *)
Class InstanceOps (I : Type) := {
  i_queue : string → I → option QueueHandle * I;
  i_queue_info : QueueHandle → I → result QueueStatus EngineError * I;
  i_push : QueueHandle → bytes → I → result PushOutcome EngineError * I;
  i_pop : QueueHandle → I → result (option bytes) EngineError * I;
  i_run : I → result Step EngineError * I;
  i_resume : QueueHandle → I → result Step EngineError * I;
  i_resume_timeout : I → result Step EngineError * I;
  i_current_wait : I → option WaitSet * I;
  i_usage : I → UsageReport;
  i_exceeded : I → bool;
  i_numeric_touched_fast : I → bool;
  i_snapshot : option string → I → result bytes EngineError * I;
  i_endpoint_count : I → N;
  i_enable_endpoints : I → I;
  i_endpoint_queue : N → I → option QueueHandle * I;
  i_endpoint_ref : N → I → option bytes;
  i_endpoint_close : QueueHandle → I → result unit EngineError * I
}.

(** [trait Engine]: loading and restoring; the engine's own state is
    threaded. *)
Class EngineOps (E I : Type) := {
  e_load : LoadSpec → E → result I EngineError * E;
  e_restore : RestoreSpec → E → result I EngineError * E
}.

(** ** The wait set names the first [WAIT_MAX] handles *)

Lemma waitset_fold qs : ∀ set,
  length (ws_queues set) = WAIT_MAX →
  let w := fold_left WaitSet.add qs set in
  WaitSet.queues w = WaitSet.queues set ++ take (WAIT_MAX - ws_len set) qs
  ∧ timeout w = timeout set ∧ for_space w = for_space set.
Proof.
  induction qs as [|q qs IH]; intros set Hlen; cbn [fold_left].
  { by rewrite take_nil, app_nil_r. }
  unfold WaitSet.add at 2 4 6. destruct (bool_decide_reflect (ws_len set < WAIT_MAX)) as [Hlt|Hge].
  - destruct (IH (MkWaitSet (<[ws_len set := q]> (ws_queues set)) (S (ws_len set))
      (timeout set) (for_space set))) as (Hq & Ht & Hf).
    { cbn. by rewrite length_insert. }
    cbn in Ht, Hf. rewrite Hq, Ht, Hf. split; [|done].
    unfold WaitSet.queues; cbn [ws_len ws_queues].
    rewrite (take_S_r _ _ q) by (apply list_lookup_insert_eq; lia).
    rewrite take_insert_ge by lia. rewrite <-app_assoc. f_equal.
    replace (WAIT_MAX - ws_len set) with (S (WAIT_MAX - S (ws_len set))) by lia. done.
  - destruct (IH set Hlen) as (-> & -> & ->). split; [|done].
    by replace (WAIT_MAX - ws_len set) with 0 by lia.
Qed.

(** A wait set holds exactly the first [WAIT_MAX] handles the program
    named, in its order, and keeps the timeout and the kind of wait: the
    bound drops handles, it never reorders or loses an earlier one. *)
Theorem waitset_new_queues qs t f :
  WaitSet.queues (WaitSet.new qs t f) = take WAIT_MAX qs ∧
  timeout (WaitSet.new qs t f) = t ∧ for_space (WaitSet.new qs t f) = f.
Proof.
  destruct (waitset_fold qs (MkWaitSet (replicate WAIT_MAX 0%N) 0 t f)) as (Hq & Ht & Hf).
  { done. }
  unfold WaitSet.new. by rewrite Hq, Ht, Hf.
Qed.
