(* ===== verification/Requests.v ===== *)
(** * Reading lifecycle requests and attaching senders
    ([crates/drt-swarm/src/swarm.rs], from [read_request] on)

    The free functions below the swarm: reading the fields of a request,
    deriving a child's path, checking capability names, and putting the
    sender into a delivered message without decoding it. *)

From S2P Require Import Prelude.
From S2P Require Import Bytes.
From S2P Require Import Value.
From S2P Require Import Caps.
From S2P Require Import Config.
From S2P Require Import Node.

Definition MAX_CAPS : nat := 32.
Definition MAX_CAP_LEN : nat := 96.

(** ** Fields of a request *)

(** Trailing bytes are tolerated. *)
Definition read_request `{Codec} (msg : bytes) : option Value := fst <$> read_value msg.

Definition field (request : Value) (key : string) : option Value :=
  kvs ← as_map request;
  snd <$> find_first (λ kv : Value * Value, key_is key kv.1) kvs.

Definition field_str (request : Value) (key : string) : option string :=
  v ← field request key;
  match v with VStr s => Some (from_utf8_lossy s) | _ => None end.

Definition field_bytes (request : Value) (key : string) : option bytes :=
  v ← field request key;
  match v with VStr s => Some s | _ => None end.

Definition field_int (request : Value) (key : string) : option N :=
  v ← field request key;
  match v with
  | VInt _ => as_u64 v
  | VF64 f => if f_nonneg f && f_lt_1e18 f then Some (f_as_u64 f) else None
  | VF32 f => if f_nonneg f then Some (f_as_u64 f) else None
  | _ => None
  end.

(** 32 bits, not zero: anything else is refused. *)
Definition field_id (request : Value) (key : string) : option N :=
  v ← field_int request key;
  if bool_decide (v = 0 ∨ 2 ^ 32 - 1 < v)%N then None else Some v.

Definition field_bool (request : Value) (key : string) : bool :=
  match field request key with Some (VBool true) => true | _ => false end.

Definition field_budget (request : Value) : Budget :=
  let instructions := field_int request "instructions" in
  let memory_kb := field_int request "memory_kb" in
  match field request "budget" with
  | Some nested =>
      if is_map nested then
        MkBudget (Budget.or_ (field_int nested "instructions") instructions)
          (Budget.or_ (field_int nested "memory_kb") memory_kb)
      else MkBudget instructions memory_kb
  | None => MkBudget instructions memory_kb
  end.

Definition field_numeric (request : Value) : Numeric :=
  match field request "numeric" with
  | None => Numeric.default
  | Some block =>
      if negb (is_map block) then Numeric.default
      else MkNumeric (field_int block "max_elements")
             (v ← field block "max_tier"; s ← as_str v; Tier.parse s)
  end.

(** The loop of [field_caps] over the entries. *)
Fixpoint cap_names (entries : list Value) : result (list string) unit :=
  match entries with
  | [] => Ok []
  | VStr bs :: entries' =>
      if bool_decide (length bs = 0 ∨ MAX_CAP_LEN ≤ length bs) then Err tt
      else match cap_names entries' with
           | Ok names => Ok (from_utf8_lossy bs :: names)
           | Err e => Err e
           end
  | _ :: _ => Err tt
  end.

Definition field_caps (request : Value) : result (list string) unit :=
  match field request "caps" with
  | None => Ok []
  | Some value =>
      match as_map value with
      | Some [] => Ok []
      | Some _ => Err tt
      | None =>
          match as_array value with
          | None => Err tt
          | Some entries =>
              if bool_decide (MAX_CAPS < length entries) then Err tt else cap_names entries
          end
      end
  end.

(** The loop of [check_grant_names] over the grants. *)
Fixpoint check_names (gs : list Grant) : result unit string :=
  match gs with
  | [] => Ok tt
  | g :: gs' =>
      let n := str_len (capability g) in
      if bool_decide (n = 0 ∨ MAX_CAP_LEN ≤ n) then
        Err ("a capability name of " +:+ dec (N.of_nat n) +:+ " characters is not usable")
      else check_names gs'
  end.

Definition check_grant_names (gs : list Grant) : result unit string :=
  if bool_decide (MAX_CAPS < length gs) then
    Err ("a capability set of " +:+ dec (N.of_nat (length gs)) +:+ " is beyond the "
         +:+ dec (N.of_nat MAX_CAPS) +:+ " this layer holds")
  else check_names gs.

Definition derive_path (parent : NodePath) (requested : option string) (id : N) :
    result NodePath BadNodePath :=
  match requested with
  | Some name => NodePath.child parent name
  | None => NodePath.child parent (dec id)
  end.

(** ** Attaching the sender *)

(** [b"\xa4from"]. *)
Definition SENDER_KEY_BYTES : bytes := of_byte 164 :: as_bytes "from".

(** [msg.get(a..b)]. *)
Definition get_range (a b : nat) (bs : bytes) : option bytes :=
  if bool_decide (b ≤ length bs) then Some (take (b - a) (drop a bs)) else None.

Definition map_header (msg : bytes) : option (N * nat) :=
  c ← head msg;
  let b := byte_val c in
  if in_range 128 143 b then Some (N.land b 15, 1)
  else if in_range 222 222 b then bs ← get_range 1 3 msg; Some (from_be bs, 3)
  else if in_range 223 223 b then bs ← get_range 1 5 msg; Some (from_be bs, 5)
  else None.

Definition write_map_header (count : N) : bytes :=
  if in_range 0 15 count then [of_byte (N.lor 128 count)]
  else if in_range 16 65535 count then of_byte 222 :: be16 count
  else of_byte 223 :: be32 count.

Definition saturating_succ (count : N) : N := N.min (count + 1) (2 ^ 32 - 1).

Fixpoint contains (haystack needle : bytes) : bool :=
  match haystack with
  | [] => bool_decide (needle = [])
  | _ :: rest => bool_decide (take (length needle) haystack = needle) || contains rest needle
  end.

Section senders.
Context `{Codec}.

Fixpoint write_pairs (kvs : list (Value * Value)) : option bytes :=
  match kvs with
  | [] => Some []
  | (k, v) :: kvs' =>
      kb ← write_value k; vb ← write_value v; rest ← write_pairs kvs';
      Some (kb ++ vb ++ rest)
  end.

Definition rebuild_without_forged_sender (msg encoded_pair : bytes) : bytes :=
  match read_value msg with
  | Some (VMap pairs, _) =>
      let pairs := filter (λ kv : Value * Value, key_is SENDER_KEY kv.1 = false) pairs in
      match write_pairs pairs with
      | Some body =>
          write_map_header (saturating_succ (N.of_nat (length pairs) `mod` 2 ^ 32)) ++ encoded_pair ++ body
      | None => msg
      end
  | _ => msg
  end.

Definition attach_sender (msg : bytes) (from : Sender) : bytes :=
  match map_header msg with
  | None => msg
  | Some (count, body_at) =>
      match write_value (Sender.to_value from) with
      | None => msg
      | Some sender =>
          let encoded := SENDER_KEY_BYTES ++ sender in
          if contains msg SENDER_KEY_BYTES then rebuild_without_forged_sender msg encoded
          else write_map_header (saturating_succ count) ++ encoded ++ drop body_at msg
      end
  end.

End senders.

(** [n] keys and values in a row. *)
Fixpoint read_pairs `{Codec} (n : nat) (bs : bytes) : option (list (Value * Value) * bytes) :=
  match n with
  | 0 => Some ([], bs)
  | S n' =>
      '(k, bs1) ← read_value bs; '(v, bs2) ← read_value bs1; '(kvs, rest) ← read_pairs n' bs2;
      Some ((k, v) :: kvs, rest)
  end.

(** What the msgpack format says of maps and short strings: a map is its
    header and its entries, and a string under 32 bytes has a one-byte
    header. *)
Class MapLaws `{Codec} : Prop := {
  write_map kvs :
    (N.of_nat (length kvs) < 2 ^ 32)%N →
    write_value (VMap kvs) = app (write_map_header (N.of_nat (length kvs))) <$> write_pairs kvs;
  read_map msg n at_ kvs rest :
    map_header msg = Some (n, at_) →
    read_pairs (N.to_nat n) (drop at_ msg) = Some (kvs, rest) →
    vdepth (VMap kvs) < MAX_DEPTH →
    read_value msg = Some (VMap kvs, rest);
  write_fixstr s :
    length s < 32 → write_value (VStr s) = Some (of_byte (160 + N.of_nat (length s)) :: s)
}.

(** [clamp_utf8]: back off to a character boundary. *)
Fixpoint boundary_below (s : string) (i : nat) : nat :=
  match i with
  | 0 => 0
  | S i' => if is_char_boundary s i then i else boundary_below s i'
  end.

Definition clamp_utf8 (s : string) (max : nat) : string :=
  if bool_decide (str_len s ≤ max) then s
  else of_bytes (take (boundary_below s max) (as_bytes s)).

(** ** Facts *)

Module RequestFacts.

Lemma byte_of_byte_small n : (n < 256)%N → byte_val (of_byte n) = n.
Proof. apply byte_of_byte. Qed.

Lemma lor_128 n : (n ≤ 15)%N → N.lor 128 n = (128 + n)%N.
Proof.
  intros H. assert (Hall : forallb (λ k, N.lor 128 (N.of_nat k) =? 128 + N.of_nat k)%N (seq 0 16) = true)
    by by vm_compute.
  rewrite forallb_forall in Hall. specialize (Hall (N.to_nat n)).
  rewrite N2Nat.id in Hall. apply N.eqb_eq, Hall. apply in_seq. lia.
Qed.

Lemma land_15 n : (n ≤ 15)%N → N.land (128 + n) 15 = n.
Proof.
  intros H. assert (Hall : forallb (λ k, N.land (128 + N.of_nat k) 15 =? N.of_nat k)%N (seq 0 16) = true)
    by by vm_compute.
  rewrite forallb_forall in Hall. specialize (Hall (N.to_nat n)).
  rewrite N2Nat.id in Hall. apply N.eqb_eq, Hall. apply in_seq. lia.
Qed.

Lemma get_range_at a b pre mid rest :
  length pre = a → length mid = b - a → a ≤ b → get_range a b (pre ++ mid ++ rest) = Some mid.
Proof.
  intros <- Hm Hle. unfold get_range. rewrite bool_decide_eq_true_2 by (rewrite !length_app; lia).
  by rewrite drop_app_length, <-Hm, take_app_length.
Qed.

(** A written header is read back with its count, and gives where the body
    starts. *)
Lemma map_header_write n body :
  (n < 2 ^ 32)%N →
  ∃ at_, map_header (write_map_header n ++ body) = Some (n, at_) ∧
         drop at_ (write_map_header n ++ body) = body.
Proof.
  intros Hn. unfold write_map_header, map_header, in_range.
  destruct (bool_decide_reflect (0 ≤ n ≤ 15)%N); [|destruct (bool_decide_reflect (16 ≤ n ≤ 65535)%N)].
  - exists 1. cbn [app head mbind option_bind].
    rewrite byte_of_byte by (rewrite lor_128 by lia; lia). rewrite lor_128 by lia.
    by rewrite bool_decide_eq_true_2, land_15 by lia.
  - exists 3. cbn [app head mbind option_bind]. rewrite byte_of_byte by lia.
    rewrite bool_decide_eq_false_2, bool_decide_eq_true_2 by lia.
    change (of_byte 222 :: be16 n ++ body) with ([of_byte 222] ++ be16 n ++ body).
    rewrite get_range_at by (done || lia). cbn [mbind option_bind].
    by rewrite from_be16 by lia.
  - exists 5. cbn [app head mbind option_bind]. rewrite byte_of_byte by lia.
    rewrite !bool_decide_eq_false_2, bool_decide_eq_true_2 by lia.
    change (of_byte 223 :: be32 n ++ body) with ([of_byte 223] ++ be32 n ++ body).
    rewrite get_range_at by (done || lia). cbn [mbind option_bind].
    by rewrite from_be32.
Qed.

Lemma contains_app pre needle post : contains (pre ++ needle ++ post) needle = true.
Proof.
  induction pre as [|c pre IH]; simpl.
  - destruct (needle ++ post) eqn:E.
    + apply app_eq_nil in E as [-> _]. done.
    + simpl. rewrite <-E, take_app_length. by rewrite bool_decide_eq_true_2.
  - by rewrite IH, orb_true_r.
Qed.

Lemma key_is_from k : key_is SENDER_KEY k = true → k = vstr SENDER_KEY.
Proof.
  unfold key_is. rewrite bool_decide_eq_true. destruct k; simpl; try done.
  intros Hs%from_utf8_Some%(f_equal as_bytes). rewrite as_of_bytes in Hs. by rewrite <-Hs.
Qed.

Section attach.
Context `{MapLaws} `{!CodecLaws}.

Lemma write_sender_key : write_value (vstr SENDER_KEY) = Some SENDER_KEY_BYTES.
Proof. apply write_fixstr. simpl. lia. Qed.

Lemma read_write_pairs kvs body rest :
  write_pairs kvs = Some body → vdepth (VMap kvs) < MAX_DEPTH →
  read_pairs (length kvs) (body ++ rest) = Some (kvs, rest).
Proof.
  revert body; induction kvs as [|[k v] kvs IH]; intros body; [by intros [= <-]|].
  rewrite vdepth_map_cons. cbn [write_pairs]. intros Hw Hd.
  destruct (write_value k) as [kb|] eqn:Hk; [|done]. cbn [mbind option_bind] in Hw.
  destruct (write_value v) as [vb|] eqn:Hv; [|done]. cbn [mbind option_bind] in Hw.
  destruct (write_pairs kvs) as [bs|]; [|done]. simplify_eq/=.
  rewrite <-!app_assoc. cbn [length read_pairs].
  rewrite (read_write k kb) by (done || lia). cbn [mbind option_bind].
  rewrite (read_write v vb) by (done || lia). cbn [mbind option_bind].
  rewrite IH; [done..|]. change (vdepth (VMap kvs)) with (S (Nat.pred (vdepth (VMap kvs)))). lia.
Qed.

Lemma write_pairs_sublist (P : Value * Value → Prop) `{!∀ x, Decision (P x)} kvs :
  is_Some (write_pairs kvs) → is_Some (write_pairs (filter P kvs)).
Proof.
  induction kvs as [|[k v] kvs IH]; [done|]. cbn [write_pairs].
  destruct (write_value k) eqn:Hk; [|by intros []]. destruct (write_value v) eqn:Hv; [|by intros []].
  destruct (write_pairs kvs); [|by intros []]. intros _.
  destruct IH as [bs Hbs]; [done|]. rewrite filter_cons.
  destruct (decide (P (k, v))); [|by eexists]. cbn [write_pairs]. rewrite Hk, Hv, Hbs. by eexists.
Qed.

Lemma vdepth_filter (P : Value * Value → Prop) `{!∀ x, Decision (P x)} kvs :
  vdepth (VMap (filter P kvs)) ≤ vdepth (VMap kvs).
Proof.
  induction kvs as [|[k v] kvs IH]; [done|]. rewrite filter_cons.
  destruct (decide (P (k, v))); rewrite !vdepth_map_cons; lia.
Qed.

Lemma no_sender_key kvs body :
  write_pairs kvs = Some body → ∀ pre, contains (pre ++ body) SENDER_KEY_BYTES = false →
  filter (λ kv : Value * Value, key_is SENDER_KEY kv.1 = false) kvs = kvs.
Proof.
  revert body; induction kvs as [|[k v] kvs IH]; intros body; [done|]. cbn [write_pairs].
  destruct (write_value k) as [kb|] eqn:Hk; [|done]. cbn [mbind option_bind].
  destruct (write_value v) as [vb|] eqn:Hv; [|done]. cbn [mbind option_bind].
  destruct (write_pairs kvs) as [bs|] eqn:Hp; [|done]. intros [= <-] pre Hc. rewrite filter_cons.
  destruct (key_is SENDER_KEY k) eqn:Hkey; cbn [fst].
  - apply key_is_from in Hkey as ->. rewrite write_sender_key in Hk. injection Hk as <-.
    by rewrite contains_app in Hc.
  - rewrite Hkey. rewrite decide_True by done. f_equal. apply (IH _ eq_refl (pre ++ kb ++ vb)).
    by rewrite <-!app_assoc.
Qed.

(** What every delivered map looks like: the sender's entry, then entries. *)
Lemma read_with_sender kvs body from sender :
  write_pairs kvs = Some body → write_value (Sender.to_value from) = Some sender →
  vdepth (VMap kvs) < MAX_DEPTH → (N.of_nat (S (length kvs)) < 2 ^ 32)%N →
  read_value (write_map_header (N.of_nat (S (length kvs))) ++ (SENDER_KEY_BYTES ++ sender) ++ body)
  = Some (VMap ((vstr SENDER_KEY, Sender.to_value from) :: kvs), []).
Proof.
  intros Hb Hs Hd Hlen.
  destruct (map_header_write _ ((SENDER_KEY_BYTES ++ sender) ++ body) Hlen) as (at_ & Hh & Hdrop).
  assert (Hdepth : vdepth (VMap ((vstr SENDER_KEY, Sender.to_value from) :: kvs)) < MAX_DEPTH).
  { rewrite vdepth_map_cons. change (vdepth (vstr SENDER_KEY)) with 0.
    assert (vdepth (Sender.to_value from) = 2) as -> by (by destruct (sender_peer from) eqn:E;
      unfold Sender.to_value; rewrite E). unfold MAX_DEPTH in *. lia. }
  eapply read_map; [exact Hh| |done]. rewrite Hdrop, Nat2N.id.
  rewrite <-(app_nil_r body). cbn [read_pairs].
  rewrite <-!app_assoc, (read_write _ _ _ write_sender_key) by (simpl; unfold MAX_DEPTH; lia).
  cbn [mbind option_bind]. rewrite (read_write _ _ _ Hs).
  - cbn [mbind option_bind]. by rewrite (read_write_pairs _ _ _ Hb Hd).
  - rewrite vdepth_map_cons in Hdepth. lia.
Qed.

(** Attaching a sender to a map a node wrote gives a message that
    decodes to the true sender under [from] followed by the node's own
    entries in their order, with every [from] the node wrote itself removed
    and nothing else changed, on the fast path and on the slow one. *)
Theorem attach_sender_authentic kvs msg from :
  write_value (VMap kvs) = Some msg → vdepth (VMap kvs) < MAX_DEPTH →
  (N.of_nat (S (length kvs)) < 2 ^ 32)%N → is_Some (write_value (Sender.to_value from)) →
  read_value (attach_sender msg from) =
    Some (VMap ((vstr SENDER_KEY, Sender.to_value from)
                  :: filter (λ kv : Value * Value, key_is SENDER_KEY kv.1 = false) kvs), []).
Proof.
  intros Hw Hd Hlen [sender Hs]. pose proof Hw as Hw'. rewrite write_map in Hw by lia.
  destruct (write_pairs kvs) as [body|] eqn:Hp; [|done]. injection Hw as <-.
  destruct (map_header_write (N.of_nat (length kvs)) body) as (at_ & Hh & Hdrop); [lia|].
  unfold attach_sender. rewrite Hh, Hs.
  assert (Hsat : ∀ n, (N.of_nat (S n) < 2 ^ 32)%N → saturating_succ (N.of_nat n) = N.of_nat (S n)).
  { intros n Hn. unfold saturating_succ. lia. }
  destruct (contains _ _) eqn:Hc.
  - unfold rebuild_without_forged_sender.
    rewrite <-(app_nil_r (write_map_header _ ++ body)), (read_write _ _ [] Hw' Hd).
    destruct (write_pairs_sublist (λ kv : Value * Value, key_is SENDER_KEY kv.1 = false) kvs)
      as [body' Hb']; [by eexists|].
    pose proof (vdepth_filter (λ kv : Value * Value, key_is SENDER_KEY kv.1 = false) kvs).
    pose proof (length_filter (λ kv : Value * Value, key_is SENDER_KEY kv.1 = false) kvs).
    rewrite Hb', N.mod_small, Hsat by lia. apply read_with_sender; [done|done|lia|lia].
  - rewrite Hdrop, Hsat by done. rewrite (no_sender_key _ _ Hp _ Hc). by apply read_with_sender.
Qed.

(** The scan for a forged [from] looks for its shortest encoding only.  A
    message whose key is written with a two-byte header ([str 8], as legal in
    msgpack) takes the fast path, and the delivered map carries the true
    sender and, after it, the forged one under the same key. *)
Theorem attach_sender_forged_survives forged vb from :
  let key := of_byte 217 :: of_byte 4 :: as_bytes SENDER_KEY in
  let msg := write_map_header 1 ++ key ++ vb in
  (∀ r, read_value (key ++ r) = Some (vstr SENDER_KEY, r)) →
  write_value forged = Some vb → vdepth forged < 1000 →
  contains msg SENDER_KEY_BYTES = false → is_Some (write_value (Sender.to_value from)) →
  read_value (attach_sender msg from) =
    Some (VMap [(vstr SENDER_KEY, Sender.to_value from); (vstr SENDER_KEY, forged)], []).
Proof.
  intros key msg Hkey Hw Hd Hc [sender Hs].
  assert (Hds : vdepth (Sender.to_value from) = 2)
    by (by destruct (sender_peer from) eqn:E; unfold Sender.to_value; rewrite E).
  destruct (map_header_write 1 (key ++ vb)) as (at_ & Hh & Hdrop); [lia|].
  unfold attach_sender. fold msg in Hh, Hdrop. rewrite Hh, Hs, Hc, Hdrop.
  change (saturating_succ 1) with 2%N.
  destruct (map_header_write 2 ((SENDER_KEY_BYTES ++ sender) ++ key ++ vb))
    as (at2 & Hh2 & Hdrop2); [lia|].
  eapply read_map; [exact Hh2| |].
  - rewrite Hdrop2. change (N.to_nat 2) with 2. cbn [read_pairs]. rewrite <-!(app_assoc SENDER_KEY_BYTES).
    rewrite (read_write _ _ _ write_sender_key) by (simpl; unfold MAX_DEPTH; lia).
    cbn [mbind option_bind]. rewrite (read_write _ _ _ Hs) by (unfold MAX_DEPTH; lia).
    cbn [mbind option_bind]. rewrite Hkey. cbn [mbind option_bind].
    rewrite <-(app_nil_r vb), (read_write _ _ _ Hw) by (unfold MAX_DEPTH; lia). done.
  - rewrite !vdepth_map_cons, Hds. change (vdepth (vstr SENDER_KEY)) with 0.
    change (vdepth (VMap [])) with 1. unfold MAX_DEPTH. lia.
Qed.

End attach.

(** What is not a map is delivered byte for byte. *)
Theorem attach_sender_non_map `{Codec} msg from :
  (∀ c, head msg = Some c → ¬ (128 ≤ byte_val c ≤ 143)%N ∧ byte_val c ≠ 222%N ∧ byte_val c ≠ 223%N) →
  attach_sender msg from = msg.
Proof.
  intros Hc. unfold attach_sender, map_header. destruct (head msg) as [c|]; [|done].
  destruct (Hc c eq_refl) as (H1 & H2 & H3). cbn [mbind option_bind]. unfold in_range.
  by rewrite !bool_decide_eq_false_2 by lia.
Qed.

(** [clamp_utf8] cuts to at most [max] bytes, never changes what it
    keeps, ends at a character boundary, and cuts nothing that fits. *)
Theorem clamp_utf8_spec s max :
  str_len (clamp_utf8 s max) ≤ max ∧
  (∃ rest, as_bytes s = as_bytes (clamp_utf8 s max) ++ rest) ∧
  is_char_boundary s (str_len (clamp_utf8 s max)) = true ∧
  (str_len s ≤ max → clamp_utf8 s max = s).
Proof.
  unfold clamp_utf8. destruct (bool_decide_reflect (str_len s ≤ max)) as [Hle|Hgt].
  { split_and!; [done|by exists []; rewrite app_nil_r| |done].
    unfold is_char_boundary. by rewrite bool_decide_eq_true_2 by auto. }
  assert (Hb : boundary_below s max ≤ max ∧ is_char_boundary s (boundary_below s max) = true).
  { clear Hgt. induction max as [|m [IH1 IH2]]; [by split|]. cbn [boundary_below].
    destruct (is_char_boundary s (S m)) eqn:E; [by split|]. split; [lia|done]. }
  destruct Hb as [Hb1 Hb2].
  assert (Hn : str_len (of_bytes (take (boundary_below s max) (as_bytes s))) = boundary_below s max).
  { unfold str_len in *. rewrite as_of_bytes, length_take. lia. }
  rewrite Hn, as_of_bytes. split_and!; [done| |done|lia].
  exists (drop (boundary_below s max) (as_bytes s)). by rewrite take_drop.
Qed.

(** An ephemeral child's path is not its own: a sibling that asks for the
    handle's decimal text as its name gets the same path, and so do two
    siblings that ask for one name. *)
Theorem derive_path_collides parent id id' name :
  derive_path parent None id = derive_path parent (Some (dec id)) id' ∧
  derive_path parent (Some name) id = derive_path parent (Some name) id'.
Proof. done. Qed.

(** A message whose header says map and that the decoder refuses keeps
    whatever sender it claims. *)
Lemma attach_sender_unreadable `{Codec} msg h from pair :
  map_header msg = Some h → write_value (Sender.to_value from) = Some pair →
  contains msg SENDER_KEY_BYTES = true → read_value msg = None → attach_sender msg from = msg.
Proof.
  intros Hh Hw Hc Hr. unfold attach_sender, rebuild_without_forged_sender.
  destruct h as [count at_]. rewrite Hh. cbn [mbind option_bind]. rewrite Hw, Hc. by rewrite Hr.
Qed.

End RequestFacts.
