(* ===== verification/Msgpack.v ===== *)
(** * A concrete codec

    The development takes msgpack encoding as a parameter ([Codec],
    [RefWire]).  This file gives one concrete instance, the part of the
    format the runtime's own messages use (nil, booleans, non-negative 32-bit
    integers, strings, arrays, maps, extensions), and proves the laws of those classes for it: the
    parameters can be instantiated, and the theorems that rest on the laws
    can be applied to concrete bytes. *)

From S2P Require Import Prelude.
From S2P Require Import Bytes.
From S2P Require Import Value.
From S2P Require Import Node.
From S2P Require Import Engine.
From S2P Require Import Requests.

Definition write_str (s : bytes) : option bytes :=
  let n := N.of_nat (length s) in
  if bool_decide (n < 32)%N then Some (of_byte (160 + n) :: s)
  else if bool_decide (n < 2 ^ 32)%N then Some (of_byte 219 :: be32 n ++ s)
  else None.

Fixpoint mini_write (v : Value) : option bytes :=
  match v with
  | VNil => Some [of_byte 192]
  | VBool b => Some [of_byte (if b then 195 else 194)]
  | VInt z =>
      if bool_decide (0 ≤ z < 2 ^ 32)%Z then Some (of_byte 206 :: be32 (Z.to_N z)) else None
  | VStr s => write_str s
  | VMap kvs =>
      if bool_decide (N.of_nat (length kvs) < 2 ^ 32)%N then
        body ← foldr (λ '(k, x) acc,
          kb ← mini_write k; xb ← mini_write x; rest ← acc; Some (kb ++ xb ++ rest))
          (Some []) kvs;
        Some (write_map_header (N.of_nat (length kvs)) ++ body)
      else None
  | VArr vs =>
      if bool_decide (N.of_nat (length vs) < 2 ^ 32)%N then
        body ← foldr (λ x acc, xb ← mini_write x; rest ← acc; Some (xb ++ rest)) (Some []) vs;
        Some (of_byte 221 :: be32 (N.of_nat (length vs)) ++ body)
      else None
  | VExt tag b =>
      if bool_decide (-128 ≤ tag < 128)%Z && bool_decide (N.of_nat (length b) < 2 ^ 32)%N then
        Some (of_byte 201 :: be32 (N.of_nat (length b)) ++ of_byte (Z.to_N (tag mod 256)) :: b)
      else None
  | _ => None
  end.

(** [k] bytes, then the rest. *)
Definition take_bytes (k : nat) (bs : bytes) : option (bytes * bytes) :=
  if bool_decide (k ≤ length bs) then Some (take k bs, drop k bs) else None.

Fixpoint entries (read : bytes → option (Value * bytes)) (n : nat) (bs : bytes) :
    option (list (Value * Value) * bytes) :=
  match n with
  | 0 => Some ([], bs)
  | S n' =>
      '(k, bs1) ← read bs; '(v, bs2) ← read bs1; '(kvs, rest) ← entries read n' bs2;
      Some ((k, v) :: kvs, rest)
  end.

Fixpoint items (read : bytes → option (Value * bytes)) (n : nat) (bs : bytes) :
    option (list Value * bytes) :=
  match n with
  | 0 => Some ([], bs)
  | S n' => '(v, bs1) ← read bs; '(vs, rest) ← items read n' bs1; Some (v :: vs, rest)
  end.

(** The signed byte of an extension's type. *)
Definition signed (n : N) : Z :=
  if bool_decide (n < 128)%N then Z.of_N n else (Z.of_N n - 256)%Z.

(** The header of an array: its length, and what follows. *)
Definition array_header (bs : bytes) : option (N * bytes) :=
  c ← head bs;
  if in_range 221 221 (byte_val c) then '(n, r) ← take_bytes 4 (tail bs); Some (from_be n, r)
  else None.

(** Values that hold no others. *)
Definition mini_leaf (bs : bytes) : option (Value * bytes) :=
  match bs with
  | [] => None
  | c :: r =>
      let b := byte_val c in
      if in_range 192 192 b then Some (VNil, r)
      else if in_range 194 195 b then Some (VBool (bool_decide (b = 195%N)), r)
      else if in_range 206 206 b then
        '(n, r) ← take_bytes 4 r; Some (VInt (Z.of_N (from_be n)), r)
      else if in_range 160 191 b then
        '(s, r) ← take_bytes (N.to_nat (b - 160)) r; Some (VStr s, r)
      else if in_range 217 217 b then
        '(n, r) ← take_bytes 1 r;
        '(s, r) ← take_bytes (N.to_nat (from_be n)) r; Some (VStr s, r)
      else if in_range 219 219 b then
        '(n, r) ← take_bytes 4 r;
        '(s, r) ← take_bytes (N.to_nat (from_be n)) r; Some (VStr s, r)
      else if in_range 201 201 b then
        '(n, r) ← take_bytes 4 r;
        '(t, r) ← take_bytes 1 r;
        '(s, r) ← take_bytes (N.to_nat (from_be n)) r; Some (VExt (signed (from_be t)) s, r)
      else None
  end.

Fixpoint mini_read (fuel : nat) (bs : bytes) : option (Value * bytes) :=
  match fuel with
  | 0 => None
  | S fuel' =>
      match map_header bs, array_header bs with
      | Some (n, at_), _ =>
          '(kvs, rest) ← entries (mini_read fuel') (N.to_nat n) (drop at_ bs);
          Some (VMap kvs, rest)
      | None, Some (n, r) =>
          '(vs, rest) ← items (mini_read fuel') (N.to_nat n) r; Some (VArr vs, rest)
      | None, None => mini_leaf bs
      end
  end.

#[export] Instance mini_codec : Codec := {|
  write_value := mini_write;
  read_value := mini_read MAX_DEPTH
|}.

(** ** The laws *)

Lemma take_bytes_app s rest : take_bytes (length s) (s ++ rest) = Some (s, rest).
Proof.
  unfold take_bytes. rewrite bool_decide_eq_true_2 by (rewrite length_app; lia).
  by rewrite take_app_length, drop_app_length.
Qed.

(** A first byte that starts no map. *)
Lemma map_header_none b r :
  (b < 256)%N → (143 < b)%N → b ≠ 222%N → b ≠ 223%N → map_header (of_byte b :: r) = None.
Proof.
  intros. unfold map_header, in_range. cbn [head mbind option_bind].
  rewrite byte_of_byte by done. by rewrite !bool_decide_eq_false_2 by lia.
Qed.

Ltac read_head :=
  cbn [mini_read]; rewrite map_header_none by lia;
  unfold array_header, mini_leaf, in_range; cbn [head tail mbind option_bind];
  rewrite ?byte_of_byte by lia; cbv zeta;
  repeat first [rewrite bool_decide_eq_false_2 by lia | rewrite bool_decide_eq_true_2 by lia].

Lemma read_str fuel s bs rest :
  write_str s = Some bs → mini_read (S fuel) (bs ++ rest) = Some (VStr s, rest).
Proof.
  unfold write_str. destruct (bool_decide_reflect (N.of_nat (length s) < 32)%N).
  { intros <-%(inj Some). cbn [app]. read_head.
    replace (N.to_nat (160 + N.of_nat (length s) - 160)) with (length s) by lia.
    by rewrite take_bytes_app. }
  destruct (bool_decide_reflect (N.of_nat (length s) < 2 ^ 32)%N); [|done].
  intros <-%(inj Some). cbn [app]. read_head.
  rewrite <-app_assoc. change 4 with (length (be32 (N.of_nat (length s)))).
  rewrite take_bytes_app. cbn [mbind option_bind]. rewrite from_be32, Nat2N.id by done.
  by rewrite take_bytes_app.
Qed.

(** [foldr] in [mini_write] is [write_pairs]. *)
Lemma mini_write_pairs kvs :
  foldr (λ '(k, x) acc, kb ← mini_write k; xb ← mini_write x; rest ← acc;
    Some (kb ++ xb ++ rest)) (Some []) kvs = write_pairs kvs.
Proof. induction kvs as [|[k v] kvs IH]; [done|]. cbn [foldr write_pairs]. by rewrite IH. Qed.

Lemma items_read fuel vs : Forall (λ v, ∀ fuel bs rest, mini_write v = Some bs →
    vdepth v < fuel → mini_read fuel (bs ++ rest) = Some (v, rest)) vs → ∀ body rest,
  foldr (λ x acc, xb ← mini_write x; rest ← acc; Some (xb ++ rest)) (Some []) vs = Some body →
  vdepth (VArr vs) < S fuel → items (mini_read fuel) (length vs) (body ++ rest) = Some (vs, rest).
Proof.
  induction 1 as [|v vs Hv _ IH]; intros body rest; cbn [foldr length items]; [by intros [= <-]|].
  destruct (mini_write v) as [vb|] eqn:Ev; [|done]. cbn [mbind option_bind].
  destruct (foldr _ _ vs) as [b|]; [|done]. cbn [mbind option_bind]. intros [= <-] Hd.
  change (vdepth (VArr (v :: vs))) with (S (max (vdepth v) (Nat.pred (vdepth (VArr vs))))) in Hd.
  rewrite <-app_assoc, (Hv fuel vb) by (done || lia). cbn [mbind option_bind].
  rewrite IH; [done..|].
  change (vdepth (VArr vs)) with (S (Nat.pred (vdepth (VArr vs)))). lia.
Qed.

Lemma signed_byte z : (-128 ≤ z < 128)%Z → signed (Z.to_N (z mod 256)) = z.
Proof.
  intros Hz. unfold signed. destruct (decide (0 ≤ z)%Z).
  - rewrite Z.mod_small by lia. rewrite bool_decide_eq_true_2 by lia. lia.
  - replace (z mod 256)%Z with (z + 256)%Z.
    + rewrite bool_decide_eq_false_2 by lia. lia.
    + rewrite <-(Z.mod_add z 1 256), Z.mod_small by lia. lia.
Qed.

Lemma mini_read_write v : ∀ fuel bs rest,
  mini_write v = Some bs → vdepth v < fuel → mini_read fuel (bs ++ rest) = Some (v, rest).
Proof.
  induction v as [|b|z| | |s| |vs IH|kvs IH|tag b] using value_ind; intros [|fuel] bs rest; try lia; try done.
  - intros <-%(inj Some) _. cbn [app]. by read_head.
  - intros <-%(inj Some) _. cbn [app]. by destruct b; read_head.
  - cbn [mini_write]. destruct (bool_decide_reflect (0 ≤ z < 2 ^ 32)%Z); [|done].
    intros <-%(inj Some) _. cbn [app]. read_head.
    change 4 with (length (be32 (Z.to_N z))). rewrite take_bytes_app. cbn [mbind option_bind].
    rewrite from_be32 by lia. by rewrite Z2N.id by lia.
  - intros Hw _. by apply read_str.
  - cbn [mini_write]. destruct (bool_decide_reflect (N.of_nat (length vs) < 2 ^ 32)%N); [|done].
    destruct (foldr _ _ vs) as [body|] eqn:Hb; [|done]. cbn [mbind option_bind].
    intros <-%(inj Some) Hd. cbn [app]. read_head. rewrite <-app_assoc.
    change 4 with (length (be32 (N.of_nat (length vs)))). rewrite take_bytes_app.
    cbn [mbind option_bind]. rewrite from_be32, Nat2N.id by done. by rewrite (items_read fuel vs IH body).
  - cbn [mini_write]. destruct (bool_decide_reflect (N.of_nat (length kvs) < 2 ^ 32)%N); [|done].
    rewrite mini_write_pairs. destruct (write_pairs kvs) as [body|] eqn:Hb; [|done].
    intros [= <-] Hd. rewrite <-app_assoc.
    destruct (RequestFacts.map_header_write (N.of_nat (length kvs)) (body ++ rest))
      as (at_ & Hh & Hdrop); [done|].
    cbn [mini_read]. rewrite Hh, Hdrop, Nat2N.id.
    assert (entries (mini_read fuel) (length kvs) (body ++ rest) = Some (kvs, rest)) as ->; [|done].
    clear - IH Hb Hd. revert body Hb Hd; induction IH as [|[k v] kvs [Hk Hv] _ IHkvs];
      intros body; [by intros [= <-]|]. cbn [write_pairs fst snd] in *.
    destruct (write_value k) as [kb|] eqn:Ek; [|done]. cbn [mbind option_bind].
    destruct (write_value v) as [vb|] eqn:Ev; [|done]. cbn [mbind option_bind].
    destruct (write_pairs kvs) as [bs|]; [|done]. intros [= <-] Hd.
    rewrite vdepth_map_cons in Hd. rewrite <-!app_assoc. cbn [length entries].
    rewrite (Hk _ _ _ Ek) by lia. cbn [mbind option_bind].
    rewrite (Hv _ _ _ Ev) by lia. cbn [mbind option_bind].
    rewrite IHkvs; [done..|]. change (vdepth (VMap kvs)) with (S (Nat.pred (vdepth (VMap kvs)))).
    lia.
  - cbn [mini_write]. destruct (bool_decide_reflect (-128 ≤ tag < 128)%Z); [|done].
    destruct (bool_decide_reflect (N.of_nat (length b) < 2 ^ 32)%N); [|done]. cbn [andb].
    intros <-%(inj Some) _. cbn [app]. read_head. rewrite <-app_assoc.
    change 4 with (length (be32 (N.of_nat (length b)))). rewrite take_bytes_app.
    cbn [mbind option_bind]. rewrite from_be32, Nat2N.id by done.
    change ((of_byte (Z.to_N (tag mod 256)) :: b) ++ rest)
      with ([of_byte (Z.to_N (tag mod 256))] ++ b ++ rest).
    change 1 with (length [of_byte (Z.to_N (tag mod 256))]). rewrite take_bytes_app.
    cbn [mbind option_bind]. rewrite take_bytes_app. cbn [mbind option_bind].
    unfold from_be. cbn [foldl].
    rewrite byte_of_byte by (pose proof (Z.mod_pos_bound tag 256); lia).
    rewrite N.mul_0_l, N.add_0_l. by rewrite signed_byte.
Qed.

#[export] Instance mini_codec_laws : CodecLaws.
Proof. constructor. intros v bs rest Hw Hd. by apply mini_read_write. Qed.

Lemma entries_more fuel fuel' kvs :
  Forall (λ kv, (∀ bs rest, mini_read fuel bs = Some (kv.1, rest) → vdepth kv.1 < fuel' →
      mini_read fuel' bs = Some (kv.1, rest)) ∧
    (∀ bs rest, mini_read fuel bs = Some (kv.2, rest) → vdepth kv.2 < fuel' →
      mini_read fuel' bs = Some (kv.2, rest))) kvs → ∀ n bs rest,
  entries (mini_read fuel) n bs = Some (kvs, rest) → vdepth (VMap kvs) < S fuel' →
  entries (mini_read fuel') n bs = Some (kvs, rest).
Proof.
  induction 1 as [|[k v] kvs [Hk Hv] _ IH]; intros [|n] bs rest; cbn [entries]; try done;
    (destruct (mini_read fuel bs) as [[k' r1]|] eqn:Ek; [|done]); cbn [mbind option_bind];
    (destruct (mini_read fuel r1) as [[v' r2]|] eqn:Ev; [|done]); cbn [mbind option_bind];
    (destruct (entries (mini_read fuel) n r2) as [[kvs' r3]|] eqn:Er; [|done]);
    cbn [mbind option_bind]; intros; simplify_eq.
  rewrite vdepth_map_cons in *. cbn [fst snd] in *.
  rewrite (Hk bs r1) by (done || lia). cbn [mbind option_bind].
  rewrite (Hv r1 r2) by (done || lia). cbn [mbind option_bind].
  rewrite (IH _ _ _ Er); [done|].
  change (vdepth (VMap kvs)) with (S (Nat.pred (vdepth (VMap kvs)))). lia.
Qed.

Lemma items_more fuel fuel' vs :
  Forall (λ v, ∀ bs rest, mini_read fuel bs = Some (v, rest) → vdepth v < fuel' →
      mini_read fuel' bs = Some (v, rest)) vs → ∀ n bs rest,
  items (mini_read fuel) n bs = Some (vs, rest) → vdepth (VArr vs) < S fuel' →
  items (mini_read fuel') n bs = Some (vs, rest).
Proof.
  induction 1 as [|v vs Hv _ IH]; intros [|n] bs rest; cbn [items]; try done;
    (destruct (mini_read fuel bs) as [[v' r1]|] eqn:Ev; [|done]); cbn [mbind option_bind];
    (destruct (items (mini_read fuel) n r1) as [[vs' r2]|] eqn:Er; [|done]);
    cbn [mbind option_bind]; intros; simplify_eq.
  change (vdepth (VArr (v :: vs)))
    with (S (max (vdepth v) (Nat.pred (vdepth (VArr vs))))) in *.
  rewrite (Hv bs r1) by (done || lia). cbn [mbind option_bind].
  rewrite (IH _ _ _ Er); [done|].
  change (vdepth (VArr vs)) with (S (Nat.pred (vdepth (VArr vs)))). lia.
Qed.

(** More fuel reads what less fuel read. *)
Lemma mini_read_mono v : ∀ fuel fuel' bs rest,
  mini_read fuel bs = Some (v, rest) → vdepth v < fuel' → mini_read fuel' bs = Some (v, rest).
Proof.
  induction v as [| | | | | | |vs IH|kvs IH|] using value_ind; intros [|fuel] [|fuel'] bs rest;
    try lia; try done; cbn [mini_read];
    (destruct (map_header bs) as [[n at_]|];
      [destruct (entries (mini_read fuel) _ _) as [[??]|] eqn:He;
       cbn [mbind option_bind]; intros; simplify_eq|
       destruct (array_header bs) as [[n r]|];
       [destruct (items (mini_read fuel) _ _) as [[??]|] eqn:He;
        cbn [mbind option_bind]; intros; simplify_eq|try done]]).
  - erewrite (items_more fuel fuel' vs) by
      (first [eassumption|eapply Forall_impl; [exact IH|]; eauto]). done.
  - erewrite (entries_more fuel fuel' kvs) by
      (first [eassumption|eapply Forall_impl; [exact IH|]; cbn; naive_solver]). done.
Qed.

Lemma entries_mono kvs fuel fuel' n bs rest :
  entries (mini_read fuel) n bs = Some (kvs, rest) → vdepth (VMap kvs) < S fuel' →
  entries (mini_read fuel') n bs = Some (kvs, rest).
Proof.
  apply entries_more, Forall_forall. intros [k v] _. split; intros bs' rest'; apply mini_read_mono.
Qed.

(** [read_pairs] reads with the codec what [entries] reads with any reader. *)
Lemma read_pairs_entries `{Codec} n : ∀ bs, read_pairs n bs = entries read_value n bs.
Proof.
  induction n as [|n IH]; intros bs; [done|]. cbn [read_pairs entries].
  destruct (read_value bs) as [[k r]|]; [|done]. cbn [mbind option_bind].
  destruct (read_value r) as [[v r2]|]; [|done]. cbn [mbind option_bind]. by rewrite IH.
Qed.

Lemma mini_read_map fuel bs n at_ :
  0 < fuel → map_header bs = Some (n, at_) →
  mini_read fuel bs =
    ('(kvs, rest) ← entries (mini_read (Nat.pred fuel)) (N.to_nat n) (drop at_ bs);
     Some (VMap kvs, rest)).
Proof. intros Hf Hh. destruct fuel; [lia|]. cbn [mini_read]. by rewrite Hh. Qed.

Lemma max_depth_pos : 0 < MAX_DEPTH.
Proof. unfold MAX_DEPTH. lia. Qed.

#[local] Opaque MAX_DEPTH.

#[export] Instance mini_map_laws : MapLaws.
Proof.
  constructor.
  - intros kvs Hlen. unfold write_value, mini_codec at 1. cbn [mini_write].
    rewrite bool_decide_eq_true_2 by done. rewrite mini_write_pairs. by destruct (write_pairs kvs).
  - intros msg n at_ kvs rest Hh Hp Hd. rewrite read_pairs_entries in Hp.
    change (@read_value mini_codec) with (mini_read MAX_DEPTH) in Hp |- *.
    pose proof max_depth_pos. rewrite (mini_read_map _ _ n at_) by done.
    rewrite (entries_mono kvs MAX_DEPTH (Nat.pred MAX_DEPTH) _ _ rest); [done|exact Hp|lia].
  - intros s Hlen. cbn. unfold write_str. by rewrite bool_decide_eq_true_2 by lia.
Qed.

#[local] Transparent MAX_DEPTH.

(** ** References *)

(** A reference as the map the serializer names: an absent identity is left
    out. *)
#[export] Instance mini_ref_wire : RefWire := {|
  ref_to_vec r :=
    write_value (VMap ([(vstr "scheme", vstr (scheme r)); (vstr "address", vstr (address r))]
      ++ match identity r with Some i => [(vstr "identity", vstr i)] | None => [] end));
  ref_from_slice bs :=
    match read_value bs with
    | Some (VMap [(_, VStr s); (_, VStr a)], _) =>
        Ok (MkEndpointRef (of_bytes s) (of_bytes a) None)
    | Some (VMap [(_, VStr s); (_, VStr a); (_, VStr i)], _) =>
        Ok (MkEndpointRef (of_bytes s) (of_bytes a) (Some (of_bytes i)))
    | _ => Err "invalid reference"
    end
|}.

Lemma write_vstr s :
  (N.of_nat (str_len s) < 2 ^ 32)%N → is_Some (mini_write (vstr s)).
Proof.
  intros Hs. cbn [mini_write vstr]. unfold write_str, str_len in *.
  destruct (bool_decide _); [by eexists|]. rewrite bool_decide_eq_true_2 by done. by eexists.
Qed.

#[export] Instance mini_ref_wire_laws : RefWireLaws.
Proof.
  constructor. intros [s a i] (Hs & Ha & Hi). cbn in Hs, Ha, Hi.
  destruct (write_vstr s Hs) as [sb Hsb], (write_vstr a Ha) as [ab Hab].
  assert (H : ∀ kvs, is_Some (write_pairs kvs) → (N.of_nat (length kvs) < 2 ^ 32)%N →
    is_Some (write_value (VMap kvs))).
  { intros kvs [b Hb] Hl. rewrite write_map, Hb by done. by eexists. }
  assert (Hr : ∀ v p, write_value v = Some p → vdepth v < MAX_DEPTH → read_value p = Some (v, [])).
  { intros v p Hw Hd. rewrite <-(app_nil_r p). by apply read_write. }
  cbn [ref_to_vec ref_from_slice mini_ref_wire scheme address identity].
  destruct i as [i|]; cbn [default] in Hi.
  - destruct (write_vstr i Hi) as [ib Hib].
    edestruct H as [p Hp]; cycle 2.
    { exists p. split; [exact Hp|]. rewrite (Hr _ _ Hp) by (simpl; unfold MAX_DEPTH; lia).
      cbn [app vstr]. by rewrite !of_as_bytes. }
    + cbn [app write_pairs]. change write_value with mini_write. rewrite Hsb, Hab, Hib. by eexists.
    + done.
  - edestruct H as [p Hp]; cycle 2.
    { exists p. split; [exact Hp|]. rewrite (Hr _ _ Hp) by (simpl; unfold MAX_DEPTH; lia).
      cbn [app vstr]. by rewrite !of_as_bytes. }
    + cbn [app write_pairs]. change write_value with mini_write. rewrite Hsb, Hab. by eexists.
    + done.
Qed.

(** ** The sender theorems at concrete messages *)

Definition demo_sender : Sender := Sender.runtime "root/a".
Definition demo_pairs : list (Value * Value) :=
  [(vstr "n", vnat 7); (vstr "from", vstr "someone else")].

Lemma attach_sender_authentic_witness :
  read_value (attach_sender (default [] (write_value (VMap demo_pairs))) demo_sender) =
    Some (VMap [(vstr SENDER_KEY, Sender.to_value demo_sender); (vstr "n", vnat 7)], []).
Proof.
  refine (RequestFacts.attach_sender_authentic demo_pairs _ demo_sender _ _ _ _).
  - vm_compute. reflexivity.
  - vm_compute. lia.
  - vm_compute. reflexivity.
  - eexists. vm_compute. reflexivity.
Defined.

Lemma attach_sender_forged_survives_witness :
  read_value (attach_sender (write_map_header 1 ++ (of_byte 217 :: of_byte 4 :: as_bytes SENDER_KEY)
      ++ default [] (write_value (vstr "forged"))) demo_sender) =
    Some (VMap [(vstr SENDER_KEY, Sender.to_value demo_sender); (vstr SENDER_KEY, vstr "forged")], []).
Proof.
  refine (RequestFacts.attach_sender_forged_survives (vstr "forged") _ demo_sender _ _ _ _ _).
  - intros r. reflexivity.
  - vm_compute. reflexivity.
  - vm_compute. lia.
  - vm_compute. reflexivity.
  - eexists. vm_compute. reflexivity.
Defined.

Lemma attach_sender_non_map_witness :
  attach_sender (as_bytes "plain") demo_sender = as_bytes "plain".
Proof.
  apply RequestFacts.attach_sender_non_map. intros c [= <-].
  replace (byte_val _) with 112%N by reflexivity. lia.
Defined.
