(* ===== verification/Swarm.v ===== *)
(** * The swarm ([crates/drt-swarm/src/swarm.rs])

    The instance table and everything the runtime does to it: building and
    releasing instances, lifecycle requests, subtree kill, hibernation and
    waking, delivery, and the routing of what instances push at each other.
    One definition per method; a method with [&mut self] is a computation of
    the monad [M] over the whole [Swarm], a panic being an outcome of its
    own. *)

From S2P Require Import Prelude.
From S2P Require Import Bytes.
From S2P Require Import Value.
From S2P Require Import Caps.
From S2P Require Import Config.
From S2P Require Import Node.
From S2P Require Import Engine.
From S2P Require Import Requests.

(** ** Constants *)

Definition CAP_LIFECYCLE : string := "lifecycle".
Definition DEFAULT_MAX_INSTANCES : N := 256.
Definition DEFAULT_SPAWN_RATE : N := 8.
Definition MAX_PENDING : nat := 16.
Definition MAX_QNAME : nat := 64.
Definition MAX_EVENT_DETAIL : nat := 191.
Definition INBOX : string := "inbox".
Definition REQUEST_CAP_BYTES : nat := 32 * 1024.

(** [InstanceId(u32)]: a handle; 0 is never valid. *)
Abbreviation InstanceId := N (only parsing).

Inductive SwarmError :=
  | Gone
  | Unknown
  | UnknownQueue
  | Limit (why : string)
  | SwarmErr (why : string).
Global Instance SwarmError_eq_dec : EqDecision SwarmError.
Proof. solve_decision. Defined.

(** [Display]. *)
Definition swarm_error_text (e : SwarmError) : string :=
  match e with
  | Gone => "gone"
  | Unknown => "no such instance"
  | UnknownQueue => "no such queue"
  | Limit why | SwarmErr why => why
  end.

Inductive Driven :=
  | Alive
  | Exited
  | Faulted (why : string).

(** ** The host *)

(** [trait SwarmHost]. *)
Class SwarmHost (H I : Type) := {
  h_drive : InstanceId → CapSet → I → H → Driven * I * H;
  h_attached : InstanceId → H → H;
  h_detached : InstanceId → H → H;
  h_released : InstanceId → H → H;
  h_ended : H → list (InstanceId * string) * H;
  h_notices : H → list (InstanceId * string * bytes) * H
}.

(** [StepHost]: one [run] or [resume] per drive. *)
Record StepHost := MkStepHost { parked : gmap N WaitSet }.

Module StepHost.

Definition new : StepHost := MkStepHost ∅.

Section drive.
Context {I : Type} `{InstanceOps I}.

(** The closure [ready] of [drive]. *)
Definition ready (wait : WaitSet) (info : QueueStatus) : bool :=
  if for_space wait then bool_decide (q_len info < q_capacity info)%N
  else bool_decide (0 < q_len info)%N.

(** The first waited queue that is ready; each look may change the
    instance. *)
Fixpoint find_fired (wait : WaitSet) (qs : list QueueHandle) (inst : I) : option QueueHandle * I :=
  match qs with
  | [] => (None, inst)
  | q :: qs' =>
      let '(info, inst) := i_queue_info q inst in
      if match info with Ok info => ready wait info | Err _ => false end then (Some q, inst)
      else find_fired wait qs' inst
  end.

(** What a step's result does to the parked table. *)
Definition settle (h : StepHost) (id : InstanceId) (step : result Step EngineError) (inst : I) :
    Driven * I * StepHost :=
  match step with
  | Ok (Parked wait) => (Alive, inst, MkStepHost (<[id := wait]> (parked h)))
  | Ok Done => (Exited, inst, MkStepHost (delete id (parked h)))
  | Err e => (Faulted (engine_error_text e), inst, MkStepHost (delete id (parked h)))
  end.

Definition drive (id : InstanceId) (caps : CapSet) (inst : I) (h : StepHost) :
    Driven * I * StepHost :=
  let '(wait, inst) :=
    match parked h !! id with
    | Some wait => (Some wait, inst)
    | None => i_current_wait inst
    end in
  match wait with
  | None => let '(step, inst) := i_run inst in settle h id step inst
  | Some wait =>
      let '(fired, inst) := find_fired wait (WaitSet.queues wait) inst in
      match fired with
      | Some q => let '(step, inst) := i_resume q inst in settle h id step inst
      | None => (Alive, inst, h)
      end
  end.

Definition forget_park (id : InstanceId) (h : StepHost) : StepHost :=
  MkStepHost (delete id (parked h)).
End drive.

End StepHost.

#[export] Instance step_host {I} `{InstanceOps I} : SwarmHost StepHost I := {|
  h_drive := StepHost.drive;
  h_attached := StepHost.forget_park;
  h_detached := StepHost.forget_park;
  h_released _ h := h;
  h_ended h := ([], h);
  h_notices h := ([], h)
|}.

(** ** The table *)

Record Pending := MkPending { p_queue : string; p_msg : bytes }.

Record Slot (I : Type) := MkSlot {
  s_id : N;
  s_parent : N;
  s_path : NodePath;
  s_inst : option I;
  s_caps : CapSet;
  s_budget : Budget;
  s_numeric : Numeric;
  s_unsafe_stdlib : bool;
  s_unsafe_debug : bool;
  s_wake_on_message : bool;
  s_alive : bool;
  s_doomed : bool;
  s_snap : option bytes;
  s_pending : list Pending;
  s_deferred : option bytes;
  s_held : list (N * bytes);
  s_endpoints : bool;
  s_handles : list (string * QueueHandle)
}.
Arguments MkSlot {I}.
Arguments s_id {I}. Arguments s_parent {I}. Arguments s_path {I}. Arguments s_inst {I}.
Arguments s_caps {I}. Arguments s_budget {I}. Arguments s_numeric {I}.
Arguments s_unsafe_stdlib {I}. Arguments s_unsafe_debug {I}. Arguments s_wake_on_message {I}.
Arguments s_alive {I}. Arguments s_doomed {I}. Arguments s_snap {I}. Arguments s_pending {I}.
Arguments s_deferred {I}. Arguments s_held {I}. Arguments s_endpoints {I}. Arguments s_handles {I}.

(** Assignments to one field of a slot. *)
Section slot_setters.
Context {I : Type}.

Definition set_id (x : N) (s : Slot I) : Slot I :=
  MkSlot x (s_parent s) (s_path s) (s_inst s) (s_caps s) (s_budget s) (s_numeric s)
    (s_unsafe_stdlib s) (s_unsafe_debug s) (s_wake_on_message s) (s_alive s) (s_doomed s)
    (s_snap s) (s_pending s) (s_deferred s) (s_held s) (s_endpoints s) (s_handles s).
Definition set_inst (x : option I) (s : Slot I) : Slot I :=
  MkSlot (s_id s) (s_parent s) (s_path s) x (s_caps s) (s_budget s) (s_numeric s)
    (s_unsafe_stdlib s) (s_unsafe_debug s) (s_wake_on_message s) (s_alive s) (s_doomed s)
    (s_snap s) (s_pending s) (s_deferred s) (s_held s) (s_endpoints s) (s_handles s).
Definition set_wake_on_message (x : bool) (s : Slot I) : Slot I :=
  MkSlot (s_id s) (s_parent s) (s_path s) (s_inst s) (s_caps s) (s_budget s) (s_numeric s)
    (s_unsafe_stdlib s) (s_unsafe_debug s) x (s_alive s) (s_doomed s) (s_snap s) (s_pending
    s) (s_deferred s) (s_held s) (s_endpoints s) (s_handles s).
Definition set_alive (x : bool) (s : Slot I) : Slot I :=
  MkSlot (s_id s) (s_parent s) (s_path s) (s_inst s) (s_caps s) (s_budget s) (s_numeric s)
    (s_unsafe_stdlib s) (s_unsafe_debug s) (s_wake_on_message s) x (s_doomed s) (s_snap s)
    (s_pending s) (s_deferred s) (s_held s) (s_endpoints s) (s_handles s).
Definition set_doomed (x : bool) (s : Slot I) : Slot I :=
  MkSlot (s_id s) (s_parent s) (s_path s) (s_inst s) (s_caps s) (s_budget s) (s_numeric s)
    (s_unsafe_stdlib s) (s_unsafe_debug s) (s_wake_on_message s) (s_alive s) x (s_snap s)
    (s_pending s) (s_deferred s) (s_held s) (s_endpoints s) (s_handles s).
Definition set_snap (x : option bytes) (s : Slot I) : Slot I :=
  MkSlot (s_id s) (s_parent s) (s_path s) (s_inst s) (s_caps s) (s_budget s) (s_numeric s)
    (s_unsafe_stdlib s) (s_unsafe_debug s) (s_wake_on_message s) (s_alive s) (s_doomed s) x
    (s_pending s) (s_deferred s) (s_held s) (s_endpoints s) (s_handles s).
Definition set_pending (x : list Pending) (s : Slot I) : Slot I :=
  MkSlot (s_id s) (s_parent s) (s_path s) (s_inst s) (s_caps s) (s_budget s) (s_numeric s)
    (s_unsafe_stdlib s) (s_unsafe_debug s) (s_wake_on_message s) (s_alive s) (s_doomed s)
    (s_snap s) x (s_deferred s) (s_held s) (s_endpoints s) (s_handles s).
Definition set_deferred (x : option bytes) (s : Slot I) : Slot I :=
  MkSlot (s_id s) (s_parent s) (s_path s) (s_inst s) (s_caps s) (s_budget s) (s_numeric s)
    (s_unsafe_stdlib s) (s_unsafe_debug s) (s_wake_on_message s) (s_alive s) (s_doomed s)
    (s_snap s) (s_pending s) x (s_held s) (s_endpoints s) (s_handles s).
Definition set_held (x : list (N * bytes)) (s : Slot I) : Slot I :=
  MkSlot (s_id s) (s_parent s) (s_path s) (s_inst s) (s_caps s) (s_budget s) (s_numeric s)
    (s_unsafe_stdlib s) (s_unsafe_debug s) (s_wake_on_message s) (s_alive s) (s_doomed s)
    (s_snap s) (s_pending s) (s_deferred s) x (s_endpoints s) (s_handles s).
Definition set_endpoints (x : bool) (s : Slot I) : Slot I :=
  MkSlot (s_id s) (s_parent s) (s_path s) (s_inst s) (s_caps s) (s_budget s) (s_numeric s)
    (s_unsafe_stdlib s) (s_unsafe_debug s) (s_wake_on_message s) (s_alive s) (s_doomed s)
    (s_snap s) (s_pending s) (s_deferred s) (s_held s) x (s_handles s).
Definition set_handles (x : list (string * QueueHandle)) (s : Slot I) : Slot I :=
  MkSlot (s_id s) (s_parent s) (s_path s) (s_inst s) (s_caps s) (s_budget s) (s_numeric s)
    (s_unsafe_stdlib s) (s_unsafe_debug s) (s_wake_on_message s) (s_alive s) (s_doomed s)
    (s_snap s) (s_pending s) (s_deferred s) (s_held s) (s_endpoints s) x.
End slot_setters.

Module Slot.

Definition free {I} : Slot I :=
  MkSlot 0 0 NodePath.root None (CapSet.root []) Budget.default Numeric.default false false false
    false false None [] None [] false [].

End Slot.

Record Swarm (E H I : Type) := MkSwarm {
  engine : E;
  host : H;
  slots : list (Slot I);
  index : gmap N nat;
  max_instances : nat;
  next_id : N;
  spawn_rate : N;
  spawns_this_step : N;
  sw_allow_hibernation : bool;
  sw_allow_bytecode : bool;
  sw_unsafe_stdlib : bool;
  sw_unsafe_debug : bool;
  host_identity : option string
}.
Arguments MkSwarm {E H I}.
Arguments engine {E H I}. Arguments host {E H I}. Arguments slots {E H I}. Arguments index {E H I}. Arguments max_instances {E H I}.
Arguments next_id {E H I}. Arguments spawn_rate {E H I}. Arguments spawns_this_step {E H I}. Arguments sw_allow_hibernation {E H I}.
Arguments sw_allow_bytecode {E H I}. Arguments sw_unsafe_stdlib {E H I}. Arguments sw_unsafe_debug {E H I}. Arguments host_identity {E H I}.

(** Assignments to one field of the swarm. *)
Section swarm_setters.
Context {E H I : Type}.

Definition set_engine (x : E) (s : Swarm E H I) : Swarm E H I :=
  MkSwarm x (host s) (slots s) (index s) (max_instances s) (next_id s) (spawn_rate s)
    (spawns_this_step s) (sw_allow_hibernation s) (sw_allow_bytecode s) (sw_unsafe_stdlib s)
    (sw_unsafe_debug s) (host_identity s).
Definition set_host (x : H) (s : Swarm E H I) : Swarm E H I :=
  MkSwarm (engine s) x (slots s) (index s) (max_instances s) (next_id s) (spawn_rate s)
    (spawns_this_step s) (sw_allow_hibernation s) (sw_allow_bytecode s) (sw_unsafe_stdlib s)
    (sw_unsafe_debug s) (host_identity s).
Definition set_slots (x : list (Slot I)) (s : Swarm E H I) : Swarm E H I :=
  MkSwarm (engine s) (host s) x (index s) (max_instances s) (next_id s) (spawn_rate s)
    (spawns_this_step s) (sw_allow_hibernation s) (sw_allow_bytecode s) (sw_unsafe_stdlib s)
    (sw_unsafe_debug s) (host_identity s).
Definition set_index (x : gmap N nat) (s : Swarm E H I) : Swarm E H I :=
  MkSwarm (engine s) (host s) (slots s) x (max_instances s) (next_id s) (spawn_rate s)
    (spawns_this_step s) (sw_allow_hibernation s) (sw_allow_bytecode s) (sw_unsafe_stdlib s)
    (sw_unsafe_debug s) (host_identity s).
Definition set_next_id (x : N) (s : Swarm E H I) : Swarm E H I :=
  MkSwarm (engine s) (host s) (slots s) (index s) (max_instances s) x (spawn_rate s)
    (spawns_this_step s) (sw_allow_hibernation s) (sw_allow_bytecode s) (sw_unsafe_stdlib s)
    (sw_unsafe_debug s) (host_identity s).
Definition set_spawns_this_step (x : N) (s : Swarm E H I) : Swarm E H I :=
  MkSwarm (engine s) (host s) (slots s) (index s) (max_instances s) (next_id s) (spawn_rate
    s) x (sw_allow_hibernation s) (sw_allow_bytecode s) (sw_unsafe_stdlib s)
    (sw_unsafe_debug s) (host_identity s).
Definition set_allow_hibernation (x : bool) (s : Swarm E H I) : Swarm E H I :=
  MkSwarm (engine s) (host s) (slots s) (index s) (max_instances s) (next_id s) (spawn_rate
    s) (spawns_this_step s) x (sw_allow_bytecode s) (sw_unsafe_stdlib s) (sw_unsafe_debug s)
    (host_identity s).
Definition set_allow_bytecode (x : bool) (s : Swarm E H I) : Swarm E H I :=
  MkSwarm (engine s) (host s) (slots s) (index s) (max_instances s) (next_id s) (spawn_rate
    s) (spawns_this_step s) (sw_allow_hibernation s) x (sw_unsafe_stdlib s) (sw_unsafe_debug
    s) (host_identity s).
Definition set_unsafe_stdlib (x : bool) (s : Swarm E H I) : Swarm E H I :=
  MkSwarm (engine s) (host s) (slots s) (index s) (max_instances s) (next_id s) (spawn_rate
    s) (spawns_this_step s) (sw_allow_hibernation s) (sw_allow_bytecode s) x
    (sw_unsafe_debug s) (host_identity s).
Definition set_unsafe_debug (x : bool) (s : Swarm E H I) : Swarm E H I :=
  MkSwarm (engine s) (host s) (slots s) (index s) (max_instances s) (next_id s) (spawn_rate
    s) (spawns_this_step s) (sw_allow_hibernation s) (sw_allow_bytecode s) (sw_unsafe_stdlib
    s) x (host_identity s).
Definition put_host_identity (x : option string) (s : Swarm E H I) : Swarm E H I :=
  MkSwarm (engine s) (host s) (slots s) (index s) (max_instances s) (next_id s) (spawn_rate
    s) (spawns_this_step s) (sw_allow_hibernation s) (sw_allow_bytecode s) (sw_unsafe_stdlib
    s) (sw_unsafe_debug s) x.
End swarm_setters.

(** ** Operations *)

Section swarm.
Context {E H I : Type} `{InstanceOps I, EngineOps E I, SwarmHost H I, Codec, RefWire}.

Abbreviation Sw := (Swarm E H I).
Abbreviation Mn := (M Sw).

(** [Swarm::with_limits]: 0 means the built-in default. *)
Definition with_limits (engine : E) (host : H) (max_instances spawns_per_step : N) : Sw :=
  MkSwarm engine host [] ∅
    (N.to_nat (if bool_decide (max_instances = 0)%N then DEFAULT_MAX_INSTANCES else max_instances))
    1
    (if bool_decide (spawns_per_step = 0)%N then DEFAULT_SPAWN_RATE else spawns_per_step)
    0 true false false false None.

Definition swarm_new (engine : E) (host : H) : Sw := with_limits engine host 0 0.

Definition allow_hibernation (allow : bool) : Sw → Sw := set_allow_hibernation allow.
Definition allow_bytecode (allow : bool) : Sw → Sw := set_allow_bytecode allow.
Definition allow_unsafe_debug (allow : bool) : Sw → Sw := set_unsafe_debug allow.
Definition allow_unsafe_stdlib (allow : bool) : Sw → Sw := set_unsafe_stdlib allow.
Definition set_host_identity (identity : option string) : Sw → Sw :=
  put_host_identity (match identity with
                     | Some s => if str_is_empty s then None else Some s
                     | None => None
                     end).

(** [self.slots[i]]: a panic out of range. *)
Definition slot_at (i : nat) : Mn (Slot I) := s ← get_state; expect (slots s !! i).
Definition upd_slot (i : nat) (f : Slot I → Slot I) : Mn unit :=
  s ← get_state; sl ← expect (slots s !! i); put_state (set_slots (<[i := f sl]> (slots s)) s).

Definition host_do (f : H → H) : Mn unit := modify (λ s, set_host (f (host s)) s).

(** A method call on the resident instance of a slot, [None] when there is
    none. *)
Definition inst_call {A} (i : nat) (f : I → A * I) : Mn (option A) :=
  sl ← slot_at i;
  match s_inst sl with
  | None => mret None
  | Some inst => let '(a, inst') := f inst in upd_slot i (set_inst (Some inst'));; mret (Some a)
  end.

(** [Swarm::find]. *)
Definition find (s : Sw) (id : N) : option nat :=
  if bool_decide (id = 0)%N then None else index s !! id.

Definition slot_of (s : Sw) (id : N) : option (Slot I) := i ← find s id; slots s !! i.

(** *** Claiming and releasing slots *)

Definition claim : Mn (option nat) :=
  s ← get_state;
  index_ ← match position (λ sl, bool_decide (s_id sl = 0)%N) (slots s) with
           | Some i => mret (Some i)
           | None =>
               if bool_decide (length (slots s) < max_instances s) then
                 put_state (set_slots (slots s ++ [Slot.free]) s);; mret (Some (length (slots s)))
               else mret None
           end;
  match index_ with
  | None => mret None
  | Some i =>
      upd_slot i (λ _, Slot.free);;
      upd_slot i (set_id (next_id s));;
      modify (λ s, set_index (<[next_id s := i]> (index s)) s);;
      if bool_decide (next_id s + 1 < 2 ^ 32)%N then
        modify (λ s, set_next_id (next_id s + 1)%N s);; mret (Some i)
      else overflow
  end.

Definition release (i : nat) : Mn unit :=
  sl ← slot_at i;
  when (bool_decide (is_Some (s_inst sl))) (host_do (h_detached (s_id sl)));;
  host_do (h_released (s_id sl));;
  modify (λ s, set_index (delete (s_id sl) (index s)) s);;
  upd_slot i (λ _, Slot.free).

(** [Swarm::build]. *)
Definition build (i : nat) (code : bytes) : Mn (result unit string) :=
  sl ← slot_at i;
  s ← get_state;
  let program :=
    match from_utf8 code with
    | Some text => Ok (Source_ text)
    | None =>
        if sw_allow_bytecode s then Ok (Bytecode code)
        else Err ("the code is not source text, and bytecode spawns are switched off for "
                  +:+ "this swarm (allow_bytecode)")
    end in
  match program with
  | Err why => mret (Err why)
  | Ok program =>
      let '(loaded, engine') :=
        e_load (MkLoadSpec program "=agent" (s_budget sl) (s_numeric sl)
                  (s_unsafe_stdlib sl) (s_unsafe_debug sl)) (engine s) in
      modify (set_engine engine');;
      match loaded with
      | Err e => mret (Err ("the program would not load: " +:+ engine_error_text e))
      | Ok inst =>
          upd_slot i (set_inst (Some inst) ∘ set_handles [] ∘ set_alive true);;
          host_do (h_attached (s_id sl));; mret (Ok tt)
      end
  end.

(** The assignments that configure a claimed slot. *)
Definition configure (parent : N) (path : NodePath) (caps : CapSet) (budget : Budget)
    (numeric : Numeric) (wake stdlib debug : bool) (s : Slot I) : Slot I :=
  MkSlot (s_id s) parent path (s_inst s) caps budget numeric stdlib debug wake (s_alive s)
    (s_doomed s) (s_snap s) (s_pending s) (s_deferred s) (s_held s) (s_endpoints s) (s_handles s).

(** [Swarm::root_with_numeric]. *)
Definition root_with_numeric (code : bytes) (caps : list Grant) (budget : Budget)
    (numeric : Numeric) : Mn (result InstanceId SwarmError) :=
  match check_grant_names caps with
  | Err why => mret (Err (SwarmErr why))
  | Ok _ =>
      claimed ← claim;
      s ← get_state;
      match claimed with
      | None =>
          mret (Err (Limit ("the instance table is full ("
                            +:+ dec (N.of_nat (max_instances s)) +:+ ")")))
      | Some i =>
          upd_slot i (configure 0 NodePath.root (CapSet.root_held_by NodePath.root caps) budget
                        numeric false (sw_unsafe_stdlib s) (sw_unsafe_debug s));;
          built ← build i code;
          match built with
          | Ok _ => sl ← slot_at i; mret (Ok (s_id sl))
          | Err why => release i;; mret (Err (SwarmErr why))
          end
      end
  end.

Definition root (code : bytes) (caps : list Grant) (budget : Budget) :
    Mn (result InstanceId SwarmError) :=
  root_with_numeric code caps budget Numeric.default.

(** *** Accessors *)

Definition is_live (sl : Slot I) : bool := bool_decide (s_id sl ≠ 0)%N && s_alive sl.

Definition alive (s : Sw) : nat := length (filter (λ sl, is_live sl = true) (slots s)).
Definition ids (s : Sw) : list InstanceId :=
  s_id <$> filter (λ sl, is_live sl = true) (slots s).
Definition slots_allocated (s : Sw) : nat := length (slots s).
Definition path (s : Sw) (id : InstanceId) : option NodePath := s_path <$> slot_of s id.
Definition parent (s : Sw) (id : InstanceId) : option InstanceId := s_parent <$> slot_of s id.
Definition resident (s : Sw) (id : InstanceId) : bool :=
  from_option (λ sl, s_alive sl && bool_decide (is_Some (s_inst sl))) false (slot_of s id).
Definition usage (s : Sw) (id : InstanceId) : option UsageReport :=
  sl ← slot_of s id; i_usage <$> s_inst sl.
Definition wake_on_message (s : Sw) (id : InstanceId) : bool :=
  from_option s_wake_on_message false (slot_of s id).
Definition snapshot (s : Sw) (id : InstanceId) : option bytes := sl ← slot_of s id; s_snap sl.
Definition cached_size (s : Sw) (id : InstanceId) : nat :=
  from_option length 0 (snapshot s id).
Definition budget (s : Sw) (id : InstanceId) : option Budget := s_budget <$> slot_of s id.
Definition numeric (s : Sw) (id : InstanceId) : option Numeric := s_numeric <$> slot_of s id.
Definition numeric_touched_fast (s : Sw) (id : InstanceId) : option bool :=
  sl ← slot_of s id; Some (from_option i_numeric_touched_fast false (s_inst sl)).
Definition caps (s : Sw) (id : InstanceId) : option CapSet := s_caps <$> slot_of s id.
Definition holds (s : Sw) (id : InstanceId) (cap : string) : bool :=
  from_option (λ sl, CapSet.holds (s_caps sl) cap) false (slot_of s id).
Definition may_grant (s : Sw) (id : InstanceId) (cap : string) : bool := holds s id cap.

(** *** Events *)

Definition enable_endpoints (id : N) : Mn unit :=
  s ← get_state;
  match find s id with
  | None => mret tt
  | Some i =>
      upd_slot i (set_endpoints true);;
      _ ← inst_call i (λ inst, (tt, i_enable_endpoints inst)); mret tt
  end.

(** The map an event is. *)
Definition event_map (what : string) (about : N) (detail : option string) (touched_fast : bool)
    (extra : list (string * Value)) : Value :=
  VMap ([(vstr "event", vstr what); (vstr "id", vnat about)]
    ++ match detail with
       | Some d => [(vstr "detail", vstr (clamp_utf8 d MAX_EVENT_DETAIL))]
       | None => []
       end
    ++ (if touched_fast then [(vstr "numeric_touched_fast", VBool true)] else [])
    ++ ((λ '(key, value), (vstr key, value)) <$> extra)).

Definition emit_fields (to_ : N) (what : string) (about : N) (detail : option string)
    (touched_fast : bool) (extra : list (string * Value)) : Mn unit :=
  when (bool_decide (extra ≠ [])) (enable_endpoints to_);;
  s ← get_state;
  match find s to_ with
  | None => mret tt
  | Some i =>
      looked ← inst_call i (i_queue "system/events");
      match looked with
      | Some (Some q) =>
          match write_value (event_map what about detail touched_fast extra) with
          | Some buf => _ ← inst_call i (i_push q buf); mret tt
          | None => mret tt
          end
      | _ => mret tt
      end
  end.

Definition emit_with (to_ : N) (what : string) (about : N) (detail : option string)
    (touched_fast : bool) : Mn unit := emit_fields to_ what about detail touched_fast [].
Definition emit_stop := emit_with.
Definition emit (to_ : N) (what : string) (about : N) (detail : option string) : Mn unit :=
  emit_with to_ what about detail false.
Definition emit_extra (to_ : N) (what : string) (about : N) (detail : option string)
    (extra : list (string * Value)) : Mn unit := emit_fields to_ what about detail false extra.

(** *** Subtree kill *)

(** One slot's turn in the marking pass: whether it was newly doomed. *)
Definition mark_one (i : nat) : Mn bool :=
  sl ← slot_at i;
  if bool_decide (s_id sl = 0)%N || s_doomed sl || bool_decide (s_parent sl = 0)%N then mret false
  else
    s ← get_state;
    parent_doomed ← match find s (s_parent sl) with
                    | Some p => psl ← slot_at p; mret (s_doomed psl)
                    | None => mret false
                    end;
    if (parent_doomed : bool) then upd_slot i (set_doomed true);; mret true else mret false.

(** [for i in start..start+n]: whether anything changed. *)
Fixpoint mark_pass (start n : nat) : Mn bool :=
  match n with
  | 0 => mret false
  | S n' => changed ← mark_one start; rest ← mark_pass (S start) n'; mret (changed || rest)
  end.

Definition release_doomed (i : nat) : Mn unit :=
  sl ← slot_at i;
  when (bool_decide (s_id sl ≠ 0)%N && s_doomed sl) (release i).

Definition kill_subtree (id : N) (notify_parent : bool) : Mn unit :=
  s ← get_state;
  match find s id with
  | None => mret tt
  | Some target =>
      tsl ← slot_at target;
      let parent := s_parent tsl in
      modify (λ s, set_slots (set_doomed false <$> slots s) s);;
      upd_slot target (set_doomed true);;
      loop (S (length (slots s))) (mark_pass 0 (length (slots s)));;
      for_range 0 (length (slots s)) release_doomed;;
      when (notify_parent && bool_decide (parent ≠ 0)%N)
        (emit parent "exited" id (Some "killed"))
  end.

Definition kill (id : N) : Mn (result unit SwarmError) :=
  s ← get_state;
  match find s id with
  | None => mret (Err Unknown)
  | Some _ => kill_subtree id true;; mret (Ok tt)
  end.

(** *** Hibernate and wake *)

Definition hibernate (id : N) : Mn (result unit SwarmError) :=
  s ← get_state;
  match find s id with
  | None => mret (Err Gone)
  | Some i =>
      sl ← slot_at i;
      if negb (s_alive sl) then mret (Err Gone)
      else if negb (sw_allow_hibernation s) then
        mret (Err (SwarmErr ("hibernation is switched off for this swarm: this host called "
          +:+ "allow_hibernation(false). Call it with true to switch it back on.")))
      else if bool_decide (s_inst sl = None) then mret (Ok tt)
      else
        taken ← inst_call i (i_snapshot (host_identity s));
        snap ← expect taken;
        match snap with
        | Err e =>
            mret (Err (SwarmErr ("instance " +:+ dec id +:+ " will not hibernate: "
                                 +:+ engine_error_text e)))
        | Ok snap =>
            upd_slot i (set_snap (Some snap));;
            upd_slot i (set_inst None ∘ set_handles []);;
            host_do (h_detached id);; mret (Ok tt)
        end
  end.

(** One buffered message handed to a woken instance. *)
Definition deliver_pending (inst : I) (p : Pending) : I :=
  match i_queue (p_queue p) inst with
  | (Some q, inst) => (i_push q (p_msg p) inst).2
  | (None, inst) => inst
  end.

Definition wake (id : N) : Mn (result unit SwarmError) :=
  s ← get_state;
  match find s id with
  | None => mret (Err Gone)
  | Some i =>
      sl ← slot_at i;
      if negb (s_alive sl) then mret (Err Gone)
      else if bool_decide (is_Some (s_inst sl)) then mret (Ok tt)
      else
        match s_snap sl with
        | None =>
            mret (Err (SwarmErr ("instance " +:+ dec id +:+ " has no cached snapshot")))
        | Some snap =>
            upd_slot i (set_snap None);;
            let '(restored, engine') :=
              e_restore (MkRestoreSpec snap (s_numeric sl) (host_identity s) (s_budget sl)
                           (s_unsafe_stdlib sl) (s_unsafe_debug sl)) (engine s) in
            modify (set_engine engine');;
            match restored with
            | Err e =>
                upd_slot i (set_snap (Some snap));;
                mret (Err (SwarmErr ("instance " +:+ dec id +:+ " will not restore: "
                                     +:+ engine_error_text e)))
            | Ok inst =>
                let inst := if s_endpoints sl then i_enable_endpoints inst else inst in
                let inst := fold_left deliver_pending (s_pending sl) inst in
                upd_slot i (set_pending []);;
                upd_slot i (set_inst (Some inst));;
                upd_slot i (set_handles []);;
                host_do (h_attached id);; mret (Ok tt)
            end
        end
  end.

(** *** Delivery *)

Definition resolve_queue (i : nat) (queue : string) : Mn (option QueueHandle) :=
  sl ← slot_at i;
  match find_first (λ nh : string * QueueHandle, bool_decide (nh.1 = queue)) (s_handles sl) with
  | Some (_, handle) => mret (Some handle)
  | None =>
      looked ← inst_call i (i_queue queue);
      match looked with
      | Some (Some handle) =>
          upd_slot i (λ sl, set_handles (s_handles sl ++ [(queue, handle)]) sl);;
          mret (Some handle)
      | _ => mret None
      end
  end.

Definition push (id : N) (queue : string) (from : Sender) (msg : bytes) :
    Mn (result unit SwarmError) :=
  let msg := attach_sender msg from in
  s ← get_state;
  match find s id with
  | None => mret (Err Gone)
  | Some i =>
      sl ← slot_at i;
      if negb (s_alive sl) then mret (Err Gone)
      else if bool_decide (is_Some (s_inst sl)) then
        q ← resolve_queue i queue;
        match q with
        | None => mret (Err UnknownQueue)
        | Some q =>
            pushed ← inst_call i (i_push q msg);
            pushed ← expect pushed;
            match pushed with
            | Ok Accepted => mret (Ok tt)
            | Ok _ => mret (Err (Limit ("'" +:+ queue +:+ "' did not accept the message")))
            | Err e => mret (Err (SwarmErr (engine_error_text e)))
            end
        end
      else if negb (s_wake_on_message sl) then mret (Err Gone)
      else if str_is_empty queue || bool_decide (MAX_QNAME ≤ str_len queue) then
        mret (Err (SwarmErr ("'" +:+ queue +:+ "' is not a usable queue name")))
      else if bool_decide (MAX_PENDING ≤ length (s_pending sl)) then
        mret (Err (Limit ("the wake buffer holds " +:+ dec (N.of_nat MAX_PENDING)
                          +:+ " messages and is full")))
      else
        upd_slot i (λ sl, set_pending (s_pending sl ++ [MkPending queue msg]) sl);;
        mret (Ok tt)
  end.

Definition push_to (id : N) (addr : QueueAddress) (from : Sender) (msg : bytes) :
    Mn (result unit SwarmError) :=
  match QueueAddress.deliverable addr with
  | Err e => mret (Err (SwarmErr (peer_delivery_text e)))
  | Ok queue => push id queue from msg
  end.

(** *** Lifecycle requests *)

(** The walk of [is_ancestor]; the fuel is one more than the table holds. *)
Fixpoint walk_up (fuel : nat) (ancestor walk : N) : Mn bool :=
  if bool_decide (walk = 0)%N then mret false
  else
    match fuel with
    | 0 => no_fuel
    | S fuel' =>
        if bool_decide (walk = ancestor) then mret true
        else
          s ← get_state;
          next ← match find s walk with
                 | Some i => sl ← slot_at i; mret (s_parent sl)
                 | None => mret 0%N
                 end;
          walk_up fuel' ancestor next
    end.

Definition is_ancestor (ancestor : N) (of_ : nat) : Mn bool :=
  sl ← slot_at of_;
  s ← get_state;
  walk_up (S (length (slots s))) ancestor (s_parent sl).

(** The endpoint reference of an instance's inbox. *)
Definition reference (id : N) : Mn Value :=
  s ← get_state;
  expect (EndpointRef.to_value
            (EndpointRef.local (dec id +:+ "/" +:+ INBOX) (host_identity s))).

Definition numeric_refusal (requested parent : Numeric) : string :=
  if match max_elements requested, max_elements parent with
     | Some c, Some p => bool_decide (p < c)%N
     | _, _ => false
     end
  then "numeric.max_elements: a child may state a smaller element bound than its "
       +:+ "parent's, never a larger"
  else "numeric.max_tier: a child may state a stricter tier than its parent's, never "
       +:+ "a looser one".

Definition do_spawn (pi : nat) (request : Value) : Mn unit :=
  psl ← slot_at pi;
  s ← get_state;
  let parent_id := s_id psl in
  let denied why := emit parent_id "denied" 0 (Some why) in
  if bool_decide (spawn_rate s ≤ spawns_this_step s)%N then denied "spawn rate limit"
  else
  match field_bytes request "code" with
  | None => denied "no code in the spawn request"
  | Some code =>
  match field_caps request with
  | Err _ => denied "malformed caps"
  | Ok names =>
  let grants_ := (grant <$> names) ++ filter (λ g, is_deny g = true) (grants (s_caps psl)) in
  match derive_path (s_path psl) (field_str request "name") (next_id s) with
  | Err e => denied (bad_node_path_text e)
  | Ok child_path =>
  match CapSet.attenuate_held_by (s_caps psl) (Some child_path) (s_path psl) grants_ with
  | Err (NotHeldByParent cap) => denied cap
  | Err e => denied (attenuation_error_text e)
  | Ok child_caps =>
  let requested := field_budget request in
  if negb (Budget.fits_within requested (s_budget psl)) then
    denied "budget: a child may state a smaller budget than its parent's, never a larger"
  else
  let requested_numeric := field_numeric request in
  if negb (Numeric.fits_within requested_numeric (s_numeric psl)) then
    denied (numeric_refusal requested_numeric (s_numeric psl))
  else
  claimed ← claim;
  match claimed with
  | None => denied "the instance table is full"
  | Some ci =>
  psl ← slot_at pi;
  let sealed := field_bool request "sealed" in
  upd_slot ci (configure parent_id child_path child_caps
    (Budget.resolved_against requested (s_budget psl))
    (Numeric.resolved_against requested_numeric (s_numeric psl))
    (field_bool request "wake_on_message")
    (s_unsafe_stdlib psl && negb sealed) (s_unsafe_debug psl && negb sealed));;
  built ← build ci code;
  csl ← slot_at ci;
  match built with
  | Ok _ =>
      modify (λ s, set_spawns_this_step ((spawns_this_step s + 1) `mod` 2 ^ 32)%N s);;
      reference_ ← reference (s_id csl);
      emit_extra parent_id "spawned" (s_id csl) None [("ref", reference_)]
  | Err why =>
      release ci;;
      emit parent_id "faulted" (s_id csl) (Some why)
  end
  end
  end
  end
  end
  end.

Definition do_kill (pi : nat) (request : Value) : Mn unit :=
  psl ← slot_at pi;
  s ← get_state;
  let parent_id := s_id psl in
  match field_id request "id" with
  | None => emit parent_id "denied" 0 (Some "no usable id in the kill request")
  | Some target =>
      match find s target with
      | None => emit parent_id "denied" target (Some "no such instance")
      | Some ti =>
          ancestor ← is_ancestor parent_id ti;
          if (ancestor : bool) then kill_subtree target true
          else emit parent_id "denied" target (Some "not a descendant")
      end
  end.

(** The hibernation itself, once the subject is known. *)
Definition hibernate_subject (parent_id parent_parent who : N) (request : Value) : Mn unit :=
  when (field_bool request "wake_on_message") (
    s ← get_state;
    match find s who with
    | Some subject => upd_slot subject (set_wake_on_message true)
    | None => mret tt
    end);;
  done ← hibernate who;
  match done with
  | Err e => emit parent_id "denied" who (Some (swarm_error_text e))
  | Ok _ =>
      if bool_decide (who ≠ parent_id) then emit parent_id "hibernated" who None
      else when (bool_decide (parent_parent ≠ 0)%N) (emit parent_parent "hibernated" who None)
  end.

Definition do_hibernate (pi : nat) (request : Value) : Mn unit :=
  psl ← slot_at pi;
  s ← get_state;
  let parent_id := s_id psl in
  match field_id request "id" with
  | None => hibernate_subject parent_id (s_parent psl) parent_id request
  | Some target =>
      if bool_decide (target = parent_id) then
        hibernate_subject parent_id (s_parent psl) parent_id request
      else
        match find s target with
        | None => emit parent_id "denied" target (Some "no such instance")
        | Some ti =>
            ancestor ← is_ancestor parent_id ti;
            if (ancestor : bool) then hibernate_subject parent_id (s_parent psl) target request
            else emit parent_id "denied" target (Some "not a descendant")
        end
  end.

Definition status_text (sl : Slot I) : string :=
  let '(state, usage) :=
    match s_inst sl with
    | None => ("cached", MkUsageReport 0 0 0)
    | Some inst => (if s_alive sl then "alive" else "dead", i_usage inst)
    end in
  state +:+ " insns=" +:+ dec (used_instructions usage)
  +:+ " mem_kb=" +:+ dec (memory_kb_peak usage).

Definition do_query (pi : nat) (request : Value) : Mn unit :=
  psl ← slot_at pi;
  s ← get_state;
  let parent_id := s_id psl in
  match field_id request "id" with
  | None => emit parent_id "denied" 0 (Some "no usable id in the query")
  | Some target =>
      match find s target with
      | None => emit parent_id "status" target (Some "gone")
      | Some ti => sl ← slot_at ti; emit parent_id "status" target (Some (status_text sl))
      end
  end.

Definition do_ref (i : nat) (request : Value) : Mn unit :=
  sl ← slot_at i;
  s ← get_state;
  let me := s_id sl in
  let give target := reference_ ← reference target;
                     emit_extra me "ref" target None [("ref", reference_)] in
  match field request "id", field_id request "id" with
  | Some _, None => emit me "denied" 0 (Some "no usable id in the ref request")
  | None, _ => give me
  | Some _, Some target =>
      if bool_decide (target = me) then give me
      else
        match find s target with
        | None => emit me "status" target (Some "gone")
        | Some ti =>
            ancestor ← is_ancestor me ti;
            if (ancestor : bool) then give target
            else emit me "denied" target (Some "not a descendant")
        end
  end.

(** The request's op, dispatched. *)
Definition dispatch (i : nat) (id : N) (op : string) (request : Value) : Mn unit :=
  if bool_decide (op = "spawn") then do_spawn i request
  else if bool_decide (op = "kill") then do_kill i request
  else if bool_decide (op = "query") then do_query i request
  else if bool_decide (op = "hibernate") then do_hibernate i request
  else if bool_decide (op = "ref") then do_ref i request
  else emit id "denied" 0 (Some op).

(** The next request: a deferred one first, then the queue. *)
Definition next_request (i : nat) : Mn (option bytes) :=
  sl ← slot_at i;
  match s_deferred sl with
  | Some deferred => upd_slot i (set_deferred None);; mret (Some deferred)
  | None =>
      looked ← inst_call i (i_queue "system/lifecycle");
      match looked with
      | Some (Some q) =>
          popped ← inst_call i (i_pop q);
          match popped with
          | Some (Ok (Some msg)) => mret (Some msg)
          | _ => mret None
          end
      | _ => mret None
      end
  end.

(** One round of [drain]'s loop: whether to go round again. *)
Definition drain_body (i : nat) (id : N) : Mn bool :=
  taken ← next_request i;
  match taken with
  | None => mret false
  | Some msg =>
      if bool_decide (REQUEST_CAP_BYTES < length msg) then
        emit id "denied" 0 (Some "the request is too large");; mret true
      else
        let request := read_request msg in
        match (r ← request; field_str r "op") with
        | None => emit id "denied" 0 (Some "no op in the request");; mret true
        | Some op =>
            s ← get_state;
            if bool_decide (op = "spawn") && bool_decide (spawn_rate s ≤ spawns_this_step s)%N then
              upd_slot i (set_deferred (Some msg));;
              emit id "throttled" 0 (Some "spawn rate limit");; mret false
            else
              request ← expect request;
              dispatch i id op request;;
              sl ← slot_at i;
              mret (bool_decide (s_id sl = id) && s_alive sl && bool_decide (is_Some (s_inst sl)))
        end
  end.

Definition drain (fuel : nat) (i : nat) : Mn unit :=
  sl ← slot_at i;
  if bool_decide (s_inst sl = None) || negb (s_alive sl) then mret tt
  else if negb (CapSet.holds (s_caps sl) CAP_LIFECYCLE) then mret tt
  else loop fuel (drain_body i (s_id sl)).

(** *** Routing what instances push at each other *)

(** The instance a reference names: scheme [local], this swarm's identity,
    ["<id>/inbox"]. *)
Definition resolve_reference (s : Sw) (payload : bytes) : option N :=
  match EndpointRef.from_value (VExt ENDPOINT_EXT_TYPE payload) with
  | Err _ => None
  | Ok reference =>
      if bool_decide (scheme reference ≠ SCHEME_LOCAL)
         || bool_decide (identity reference ≠ host_identity s) then None
      else
        '(id, queue) ← split_once "/" (address reference);
        if bool_decide (queue ≠ INBOX) then None
        else id ← parse_u32 id; if bool_decide (id ≠ 0)%N then Some id else None
  end.

Definition close_endpoint (i : nat) (queue : QueueHandle) : Mn unit :=
  _ ← inst_call i (i_endpoint_close queue); mret tt.

Definition hold (i : nat) (target : N) (msg : bytes) : Mn unit :=
  upd_slot i (λ sl, set_held (s_held sl ++ [(target, msg)]) sl).

(** One round of [route_one]'s loop. *)
Definition route_body (i : nat) (queue : QueueHandle) (target : N) (from : Sender) : Mn bool :=
  popped ← inst_call i (i_pop queue);
  popped ← expect popped;
  match popped with
  | Ok (Some msg) =>
      pushed ← push target INBOX from msg;
      match pushed with
      | Ok _ => mret true
      | Err (Limit _) | Err UnknownQueue => hold i target msg;; mret false
      | Err _ => close_endpoint i queue;; mret false
      end
  | _ => mret false
  end.

Definition route_one (fuel : nat) (i : nat) (token : N) (from : Sender) : Mn unit :=
  bound ← inst_call i (i_endpoint_queue token);
  match bound with
  | Some (Some queue) =>
      info ← inst_call i (i_queue_info queue);
      match info with
      | Some (Ok info) =>
          if bool_decide (0 < q_len info)%N then
            sl ← slot_at i;
            s ← get_state;
            match (inst ← s_inst sl; ref ← i_endpoint_ref token inst; resolve_reference s ref) with
            | None => close_endpoint i queue
            | Some target =>
                if existsb (λ tm : N * bytes, bool_decide (tm.1 = target)) (s_held sl) then mret tt
                else enable_endpoints target;; loop fuel (route_body i queue target from)
            end
          else mret tt
      | _ => mret tt
      end
  | _ => mret tt
  end.

(** A held message, tried again. *)
Definition retry_held (i : nat) (from : Sender) (held : N * bytes) : Mn unit :=
  let '(target, msg) := held in
  enable_endpoints target;;
  pushed ← push target INBOX from msg;
  match pushed with
  | Err (Limit _) | Err UnknownQueue => hold i target msg
  | _ => mret tt
  end.

Definition route_slot (fuel : nat) (i : nat) : Mn unit :=
  sl ← slot_at i;
  if bool_decide (s_id sl = 0)%N || negb (s_alive sl) then mret tt
  else
    let from := Sender.runtime (s_path sl) in
    when (bool_decide (s_held sl ≠ [])) (
      upd_slot i (set_held []);;
      for_each (s_held sl) (retry_held i from));;
    sl ← slot_at i;
    match s_inst sl with
    | None => mret tt
    | Some inst =>
        let from := Sender.runtime (s_path sl) in
        for_range 1 (N.to_nat (i_endpoint_count inst))
          (λ token, route_one fuel i (N.of_nat token) from)
    end.

Definition route_endpoints (fuel : nat) : Mn unit :=
  s ← get_state; for_range 0 (length (slots s)) (route_slot fuel).

(** *** One step *)

(** A vital resource ended. *)
Definition end_vital (ended : InstanceId * string) : Mn unit :=
  let '(id, why) := ended in
  s ← get_state;
  match find s id with
  | None => mret tt
  | Some i =>
      sl ← slot_at i;
      if negb (s_alive sl) then mret tt
      else
        kill_subtree id false;;
        when (bool_decide (s_parent sl ≠ 0)%N) (emit (s_parent sl) "ended" id (Some why))
  end.

Definition deliver_notice (notice : InstanceId * string * bytes) : Mn unit :=
  let '(id, queue, msg) := notice in
  _ ← push id queue (Sender.runtime NodePath.root) msg; mret tt.

Definition wake_slot (i : nat) : Mn unit :=
  sl ← slot_at i;
  if bool_decide (s_id sl = 0)%N || negb (s_alive sl) || bool_decide (is_Some (s_inst sl))
     || bool_decide (s_pending sl = []) then mret tt
  else
    woken ← wake (s_id sl);
    match woken with
    | Ok _ => mret tt
    | Err e =>
        kill_subtree (s_id sl) false;;
        when (bool_decide (s_parent sl ≠ 0)%N)
          (emit (s_parent sl) "faulted" (s_id sl) (Some (swarm_error_text e)))
    end.

Definition drain_slot (fuel : nat) (i : nat) : Mn unit :=
  sl ← slot_at i; when (is_live sl) (drain fuel i).

(** What a stop is called, and why. *)
Definition classify (driven : Driven) (over : bool) : string * option string :=
  if over then ("exceeded", None)
  else match driven with
       | Faulted msg => ("faulted", Some msg)
       | _ => ("exited", None)
       end.

(** An instance that stopped. *)
Definition stop (fuel : nat) (id : N) (i : nat) (driven : Driven) : Mn unit :=
  sl ← slot_at i;
  let over := from_option i_exceeded false (s_inst sl) in
  let touched_fast := from_option i_numeric_touched_fast false (s_inst sl) in
  let '(what, why) := classify driven over in
  route_slot fuel i;;
  kill_subtree id false;;
  when (bool_decide (s_parent sl ≠ 0)%N) (emit_stop (s_parent sl) what id why touched_fast).

Definition drive_slot (fuel : nat) (i : nat) : Mn unit :=
  sl ← slot_at i;
  if bool_decide (s_id sl = 0)%N || negb (s_alive sl) then mret tt
  else
    match s_inst sl with
    | None => mret tt
    | Some inst =>
        s ← get_state;
        let '(driven, inst', host') := h_drive (s_id sl) (s_caps sl) inst (host s) in
        modify (set_host host');;
        upd_slot i (set_inst (Some inst'));;
        s ← get_state;
        match find s (s_id sl) with
        | None => mret tt
        | Some i' =>
            match driven with
            | Alive => mret tt
            | outcome => stop fuel (s_id sl) i' outcome
            end
        end
    end.

(** [Swarm::step]: how many instances are alive after it. *)
Definition step (fuel : nat) : Mn nat :=
  modify (set_spawns_this_step 0);;
  s ← get_state;
  let '(ended, host') := h_ended (host s) in
  modify (set_host host');;
  for_each ended end_vital;;
  s ← get_state;
  let '(notices, host') := h_notices (host s) in
  modify (set_host host');;
  for_each notices deliver_notice;;
  route_endpoints fuel;;
  s ← get_state; for_range 0 (length (slots s)) wake_slot;;
  s ← get_state; for_range 0 (length (slots s)) (drain_slot fuel);;
  s ← get_state; for_range 0 (length (slots s)) (drive_slot fuel);;
  gets alive.

End swarm.
