(* ===== verification/SwarmQuiet.v ===== *)
(** * What most operations leave alone

    Events, deliveries, routing and driving change an instance and its
    buffers, never the table: who exists, under whom, with which
    capabilities and bounds, and who is resident.  [quiet] is that relation
    and this file proves, operation by operation, that it holds and that no
    operation of this kind panics. *)

From S2P Require Import Prelude.
From S2P Require Import Bytes.
From S2P Require Import Value.
From S2P Require Import Caps.
From S2P Require Import Config.
From S2P Require Import Node.
From S2P Require Import Engine.
From S2P Require Import Requests.
From S2P Require Import Swarm.

(** ** How an instance may change under the host's hands

    A flow is a relation between an instance before and after host calls,
    closed under every call the swarm makes on a resident instance except
    running it; pushes are limited to handles that name an allowed queue.
    [named] is what a handle names: the swarm keeps the handles it looked up.
    The trivial flow asks nothing of the engine; the flows of [SwarmLive]
    carry what a lawful engine's queues do. *)
Class Naming (I : Type) := named : I → QueueHandle → string → Prop.

Class Flow (I : Type) `{InstanceOps I, Naming I} := {
  allowed : string → Prop;
  flow : I → I → Prop;
  flow_preorder :: PreOrder flow;
  flow_named a b q n : flow a b → named a q n → named b q n;
  flow_queue inst n : flow inst (i_queue n inst).2;
  flow_queue_named inst n q : (i_queue n inst).1 = Some q → named (i_queue n inst).2 q n;
  flow_push inst q n m : allowed n → named inst q n → flow inst (i_push q m inst).2;
  flow_pop inst q : flow inst (i_pop q inst).2;
  flow_info inst q : flow inst (i_queue_info q inst).2;
  flow_snapshot inst st : flow inst (i_snapshot st inst).2;
  flow_enable inst : flow inst (i_enable_endpoints inst);
  flow_endpoint_queue inst k : flow inst (i_endpoint_queue k inst).2;
  flow_endpoint_close inst q : flow inst (i_endpoint_close q inst).2;
  allowed_events : allowed "system/events"
}.

(** ** The relation *)

Section relation.
Context {E H I : Type} `{Fl : Flow I}.

(** The cached handles name the queues they are cached for. *)
Definition clean (sl : Slot I) : Prop :=
  ∀ inst n q, s_inst sl = Some inst → (n, q) ∈ s_handles sl → named inst q n.

(** The fields a quiet operation keeps; a buffer within its bound stays
    within it. *)
Record same_slot (a b : Slot I) : Prop := {
  same_id : s_id b = s_id a;
  same_parent : s_parent b = s_parent a;
  same_path : s_path b = s_path a;
  same_caps : s_caps b = s_caps a;
  same_budget : s_budget b = s_budget a;
  same_numeric : s_numeric b = s_numeric a;
  same_stdlib : s_unsafe_stdlib b = s_unsafe_stdlib a;
  same_debug : s_unsafe_debug b = s_unsafe_debug a;
  same_alive : s_alive b = s_alive a;
  same_resident : is_Some (s_inst b) ↔ is_Some (s_inst a);
  same_snap : s_snap b = s_snap a;
  same_deferred : s_deferred b = s_deferred a;
  same_flow ia ib : s_inst a = Some ia → s_inst b = Some ib → flow ia ib;
  same_clean : clean a → clean b;
  same_pending : length (s_pending a) ≤ MAX_PENDING → length (s_pending b) ≤ MAX_PENDING
}.

#[global] Instance same_slot_preorder : PreOrder same_slot.
Proof.
  split; [by intros a; split; try done; intros; simplify_eq; reflexivity|].
  intros a b c Hab Hbc. pose proof Hab as []. pose proof Hbc as [].
  split; try congruence; [naive_solver| |naive_solver..].
  intros ia ic Ha Hc. destruct (s_inst b) as [ib|] eqn:Hb.
  - etrans; [by apply Hab|by apply Hbc].
  - assert (is_Some (s_inst b)) as [??] by (apply Hab; by eexists). congruence.
Qed.

Record quiet (s s' : Swarm E H I) : Prop := {
  quiet_slots : Forall2 same_slot (slots s) (slots s');
  quiet_index : index s' = index s;
  quiet_max : max_instances s' = max_instances s;
  quiet_next : next_id s' = next_id s;
  quiet_rate : spawn_rate s' = spawn_rate s;
  quiet_spawns : spawns_this_step s' = spawns_this_step s;
  quiet_stdlib : sw_unsafe_stdlib s' = sw_unsafe_stdlib s;
  quiet_debug : sw_unsafe_debug s' = sw_unsafe_debug s;
  quiet_identity : host_identity s' = host_identity s
}.

#[global] Instance quiet_preorder : PreOrder quiet.
Proof.
  split; [intros s; split; reflexivity|].
  intros s1 s2 s3 [] []. split; try congruence. by etrans.
Qed.

Lemma quiet_length s s' : quiet s s' → length (slots s') = length (slots s).
Proof. intros [Hs]. symmetry. by eapply Forall2_length. Qed.

Lemma quiet_lookup s s' i sl :
  quiet s s' → slots s !! i = Some sl → ∃ sl', slots s' !! i = Some sl' ∧ same_slot sl sl'.
Proof. intros [Hs] Hi. eapply Forall2_lookup_l in Hs; [|done]. naive_solver. Qed.

Lemma quiet_lookup_rev s s' i sl' :
  quiet s s' → slots s' !! i = Some sl' → ∃ sl, slots s !! i = Some sl ∧ same_slot sl sl'.
Proof. intros [Hs] Hi. eapply Forall2_lookup_r in Hs; [|done]. naive_solver. Qed.

(** Every handle the index knows is in the table, the swarm's identity is a
    string msgpack has a length for, and the cached handles are right. *)
Record in_table (s : Swarm E H I) : Prop := {
  table_index id i : index s !! id = Some i → i < length (slots s);
  table_identity : (N.of_nat (str_len (default "" (host_identity s))) < 2 ^ 32)%N;
  table_clean : Forall clean (slots s)
}.

Lemma quiet_in_table s s' : quiet s s' → in_table s → in_table s'.
Proof.
  intros Hq Ht. split.
  - intros id i. rewrite (quiet_index s s' Hq), (quiet_length s s' Hq). apply (table_index s Ht).
  - rewrite (quiet_identity s s' Hq). apply (table_identity s Ht).
  - apply Forall_lookup_2. intros i sl' Hi.
    destruct (quiet_lookup_rev s s' i sl' Hq Hi) as (sl & Hsl & Hs).
    apply (same_clean _ _ Hs), (Forall_lookup_1 _ _ _ _ (table_clean s Ht) Hsl).
Qed.

Lemma find_in_table s id i : in_table s → find s id = Some i → is_Some (slots s !! i).
Proof.
  intros Ht. unfold find. destruct (bool_decide _); [done|]. intros Hi.
  apply lookup_lt_is_Some. by eapply table_index.
Qed.

(** A change of one slot that keeps it the same. *)
Lemma quiet_insert s i sl sl' :
  slots s !! i = Some sl → same_slot sl sl' → quiet s (set_slots (<[i := sl']> (slots s)) s).
Proof.
  intros Hi Hs. split; try done. apply Forall2_same_length_lookup_2.
  { cbn. by rewrite length_insert. }
  intros j a b Ha Hb. cbn in Hb.
  apply list_lookup_insert_Some in Hb as [(-> & <- & _)|[_ Hb]]; simplify_eq; [done|reflexivity].
Qed.

End relation.

(** ** Rules for the table's primitives *)

Section rules.
Context {E H I : Type} `{Fl : Flow I} (t : bool).
Implicit Types (s : Swarm E H I) (i : nat).

Lemma wp_slot_at i s sl (Q : Slot I → Swarm E H I → Prop) :
  slots s !! i = Some sl → Q sl s → wp t (slot_at i) Q s.
Proof. intros Hi HQ. unfold slot_at. wp_steps. by eapply wp_expect. Qed.

Lemma wp_upd_slot i f s sl (Q : unit → Swarm E H I → Prop) :
  slots s !! i = Some sl → Q tt (set_slots (<[i := f sl]> (slots s)) s) →
  wp t (upd_slot i f) Q s.
Proof. intros Hi HQ. unfold upd_slot. wp_steps. eapply wp_expect; [done|]. by wp_steps. Qed.

Lemma wp_inst_call {A} i (f : I → A * I) s sl (Q : option A → Swarm E H I → Prop) :
  slots s !! i = Some sl →
  match s_inst sl with
  | None => Q None s
  | Some inst =>
      Q (Some (f inst).1) (set_slots (<[i := set_inst (Some (f inst).2) sl]> (slots s)) s)
  end → wp t (inst_call i f) Q s.
Proof.
  intros Hi HQ. unfold inst_call. wp_steps. eapply wp_slot_at; [done|].
  destruct (s_inst sl) as [inst|]; [|done]. destruct (f inst) as [a inst'] eqn:Hf. cbn in HQ.
  wp_steps. eapply wp_upd_slot; [done|]. by wp_steps.
Qed.

(** [calm n m]: with the index in range and a table of at least [n] slots,
    [m] is quiet. *)
Definition calm {A} (n : nat) (m : M (Swarm E H I) A) : Prop :=
  ∀ s, in_table s → n ≤ length (slots s) → wp t m (λ _, quiet s) s.

Lemma calm_ret {A} n (a : A) : calm n (mret a).
Proof. intros s _ _. wp_steps. reflexivity. Qed.

Lemma calm_bind {A B} n (m : M (Swarm E H I) A) (f : A → M (Swarm E H I) B) :
  calm n m → (∀ a, calm n (f a)) → calm n (m ≫= f).
Proof.
  intros Hm Hf s Ht Hn. apply wp_bind. eapply wp_mono; [by apply Hm|]. intros a s' Hq.
  eapply wp_mono; [apply Hf|].
  - by apply (quiet_in_table s).
  - by rewrite (quiet_length s s' Hq).
  - intros b s'' Hq'. etrans; [exact Hq|exact Hq'].
Qed.

Lemma calm_get {A} n (f : Swarm E H I → M (Swarm E H I) A) :
  (∀ s, in_table s → n ≤ length (slots s) → wp t (f s) (λ _, quiet s) s) →
  calm n (get_state ≫= f).
Proof. intros Hf s Ht Hn. wp_steps. by apply Hf. Qed.

Lemma calm_when n b (m : M (Swarm E H I) unit) : calm n m → calm n (when b m).
Proof. intros Hm s Ht Hn. apply wp_when; [by intros _; apply Hm|intros _; reflexivity]. Qed.

Lemma calm_weaken {A} n n' (m : M (Swarm E H I) A) : calm n m → n ≤ n' → calm n' m.
Proof. intros Hm Hle s Ht Hn. apply Hm; [done|lia]. Qed.

Lemma calm_for_range n start k body :
  (∀ i, start ≤ i < start + k → calm n (body i)) → calm n (for_range start k body).
Proof.
  intros Hb s Ht Hn. apply wp_for_inv; [reflexivity|]. intros i s' Hi Hq.
  eapply wp_mono; [apply Hb; [done| |]|].
  - by apply (quiet_in_table s).
  - by rewrite (quiet_length s s' Hq).
  - intros u s'' Hq'. etrans; [exact Hq|exact Hq'].
Qed.

Lemma calm_for_each {A} n (xs : list A) body :
  (∀ x, calm n (body x)) → calm n (for_each xs body).
Proof.
  intros Hb s Ht Hn. apply wp_for_each; [reflexivity|]. intros x s' _ Hq.
  eapply wp_mono; [apply Hb|].
  - by apply (quiet_in_table s).
  - by rewrite (quiet_length s s' Hq).
  - intros u s'' Hq'. etrans; [exact Hq|exact Hq'].
Qed.

Lemma calm_host_do n f : calm n (host_do f).
Proof.
  intros s _ _. unfold host_do. wp_steps. split; reflexivity.
Qed.

Lemma calm_upd_slot i f : (∀ sl, same_slot sl (f sl)) → calm (S i) (upd_slot i f).
Proof.
  intros Hf s _ Hi. destruct (lookup_lt_is_Some_2 (slots s) i Hi) as [sl Hsl].
  eapply wp_upd_slot; [done|]. by apply quiet_insert with sl.
Qed.

Lemma same_slot_inst sl (inst inst' : I) :
  s_inst sl = Some inst → flow inst inst' → same_slot sl (set_inst (Some inst') sl).
Proof.
  intros Hi Hf. split; cbn; try done.
  - intros ia ib ? [= <-]; by simplify_eq.
  - unfold clean; cbn. intros Hc j n q [= <-] Hq. by eapply flow_named, Hc.
Qed.

Lemma calm_inst_call {A} i (f : I → A * I) :
  (∀ inst, flow inst (f inst).2) → calm (S i) (inst_call i f).
Proof.
  intros Hf s _ Hi. destruct (lookup_lt_is_Some_2 (slots s) i Hi) as [sl Hsl].
  eapply wp_inst_call; [done|]. destruct (s_inst sl) as [inst|] eqn:Hinst; [|reflexivity].
  eapply quiet_insert; [done|]. by eapply same_slot_inst.
Qed.

Lemma calm_slot_at i : calm (S i) (slot_at (E:=E) (H:=H) (I:=I) i).
Proof.
  intros s _ Hi. destruct (lookup_lt_is_Some_2 (slots s) i Hi) as [sl Hsl].
  by eapply wp_slot_at; [|reflexivity].
Qed.

End rules.
Arguments calm {E H I _ _ Fl} t {A} n m.

(** ** The quiet operations *)

Section quiet_ops.
Context {E H I : Type} `{Fl : Flow I, !EngineOps E I, !SwarmHost H I, !Codec, !RefWire}.
Context (t : bool).
Implicit Types (s : Swarm E H I) (i : nat).
Abbreviation Mn := (M (Swarm E H I)).

Lemma calm_enable_endpoints id : calm t 0 (enable_endpoints id : Mn unit).
Proof.
  apply calm_get. intros s Ht _. destruct (find s id) as [i|] eqn:Hf; [|by wp_steps; reflexivity].
  destruct (find_in_table _ _ _ Ht Hf) as [sl Hsl%lookup_lt_Some].
  apply (calm_bind t (S i)); [| |done|lia].
  - apply calm_upd_slot. by intros; split; try done; cbn; intros; simplify_eq; reflexivity.
  - intros _. apply calm_bind; [|intros; apply calm_ret]. apply calm_inst_call.
    intros inst. apply flow_enable.
Qed.

(** A lookup and a push of the handle it found. *)
Lemma calm_lookup_push i n (f : option (option QueueHandle) → option bytes) :
  allowed n →
  calm t (S i) (
    looked ← inst_call i (i_queue n);
    match looked with
    | Some (Some q) =>
        match f looked with
        | Some buf => _ ← inst_call i (i_push q buf); mret tt
        | None => mret tt
        end
    | _ => mret tt
    end : Mn unit).
Proof.
  intros Hn s Ht Hi. destruct (lookup_lt_is_Some_2 (slots s) i Hi) as [sl Hsl].
  wp_steps. eapply wp_inst_call; [done|].
  destruct (s_inst sl) as [inst|] eqn:Hinst; [|wp_steps; reflexivity].
  assert (Hq1 : quiet s (set_slots (<[i := set_inst (Some (i_queue n inst).2) sl]> (slots s)) s)).
  { eapply quiet_insert, same_slot_inst; [done..|]. apply flow_queue. }
  destruct (i_queue n inst).1 as [q|] eqn:Hq; [|wp_steps; done].
  destruct (f _) as [buf|]; [|wp_steps; done].
  wp_steps. eapply wp_inst_call.
  { cbn. by rewrite list_lookup_insert_eq. }
  cbn. wp_steps. etrans; [exact Hq1|]. eapply quiet_insert.
  { cbn. by rewrite list_lookup_insert_eq. }
  cbn. apply (same_slot_inst (set_inst (Some (i_queue n inst).2) sl) (i_queue n inst).2); [done|].
  apply flow_push with n; [done|]. by apply flow_queue_named.
Qed.

Lemma calm_emit_fields to_ what about detail fast extra :
  calm t 0 (emit_fields to_ what about detail fast extra : Mn unit).
Proof.
  apply calm_bind; [apply calm_when, calm_enable_endpoints|]. intros _.
  apply calm_get. intros s Ht _. destruct (find s to_) as [i|] eqn:Hf; [|by wp_steps; reflexivity].
  destruct (find_in_table _ _ _ Ht Hf) as [sl Hsl%lookup_lt_Some].
  apply (calm_lookup_push i "system/events"
    (λ _, write_value (event_map what about detail fast extra))); [apply allowed_events|done|lia].
Qed.

Lemma calm_emit to_ what about detail : calm t 0 (emit to_ what about detail : Mn unit).
Proof. apply calm_emit_fields. Qed.

Lemma calm_emit_extra to_ what about detail extra :
  calm t 0 (emit_extra to_ what about detail extra : Mn unit).
Proof. apply calm_emit_fields. Qed.

Lemma calm_emit_stop to_ what about detail fast :
  calm t 0 (emit_stop to_ what about detail fast : Mn unit).
Proof. apply calm_emit_fields. Qed.

Lemma calm_close_endpoint i q : calm t (S i) (close_endpoint i q : Mn unit).
Proof.
  apply calm_bind; [|intros; apply calm_ret]. apply calm_inst_call. intros. apply flow_endpoint_close.
Qed.

(** Setting fields no claim of [same_slot] is about. *)
Lemma same_slot_held sl h : same_slot sl (set_held h sl).
Proof. split; try done; cbn; intros; simplify_eq; reflexivity. Qed.
Lemma same_slot_wake sl b : same_slot sl (set_wake_on_message b sl).
Proof. split; try done; cbn; intros; simplify_eq; reflexivity. Qed.
Lemma same_slot_doomed sl b : same_slot sl (set_doomed b sl).
Proof. split; try done; cbn; intros; simplify_eq; reflexivity. Qed.

Lemma calm_hold i target msg : calm t (S i) (hold i target msg : Mn unit).
Proof. apply calm_upd_slot. intros. apply same_slot_held. Qed.

(** Looking a queue up through the cache: what it answers is a handle that
    names the queue, on an instance that is still resident. *)
Lemma wp_resolve_queue i n s sl :
  in_table s → slots s !! i = Some sl → is_Some (s_inst sl) →
  wp t (resolve_queue i n) (λ q s', quiet s s' ∧
    ∀ h, q = Some h → ∃ sl' inst, slots s' !! i = Some sl' ∧ s_inst sl' = Some inst ∧
                                  named inst h n) s.
Proof.
  intros Ht Hsl [inst Hinst]. unfold resolve_queue. wp_steps. eapply wp_slot_at; [done|].
  pose proof (Forall_lookup_1 _ _ _ _ (table_clean s Ht) Hsl) as Hclean.
  destruct (find_first _ (s_handles sl)) as [[n' h]|] eqn:Hc.
  - apply find_first_Some in Hc as [Hin Hn]. apply bool_decide_eq_true in Hn. cbn in Hn; subst n'.
    wp_steps. split; [reflexivity|]. intros h' [= <-]. exists sl, inst. split_and!; [done..|].
    by eapply Hclean.
  - wp_steps. eapply wp_inst_call; [done|]. rewrite Hinst.
    set (s1 := set_slots _ s).
    assert (Hq1 : quiet s s1).
    { eapply quiet_insert, same_slot_inst; [done..|]. apply flow_queue. }
    assert (Hs1 : slots s1 !! i = Some (set_inst (Some (i_queue n inst).2) sl)).
    { cbn. apply list_lookup_insert_eq. by eapply lookup_lt_Some. }
    destruct (i_queue n inst).1 as [h|] eqn:Hh; [|wp_steps; done].
    wp_steps. eapply wp_upd_slot; [done|]. wp_steps. split.
    + etrans; [exact Hq1|]. eapply quiet_insert; [done|]. split; try done; cbn.
      * intros; simplify_eq; reflexivity.
      * intros Hcl j m q [= <-] [Hin|Hin%list_elem_of_singleton]%elem_of_app; [by eapply Hcl|].
        simplify_eq. by apply flow_queue_named.
    + intros h' [= <-]. eexists _, _. split_and!.
      * cbn. apply list_lookup_insert_eq. rewrite length_insert. by eapply lookup_lt_Some.
      * done.
      * by apply flow_queue_named.
Qed.

Lemma calm_push id n from msg :
  allowed n → calm t 0 (push id n from msg : Mn (result unit SwarmError)).
Proof.
  intros Hn. apply calm_get. intros s Ht _.
  destruct (find s id) as [i|] eqn:Hf; [|wp_steps; reflexivity].
  destruct (find_in_table _ _ _ Ht Hf) as [sl Hsl].
  wp_steps. eapply wp_slot_at; [done|]. destruct (negb (s_alive sl)); [wp_steps; reflexivity|].
  case_bool_decide as Hres.
  - wp_steps. eapply wp_mono; [by apply (wp_resolve_queue i n s sl)|]. intros [h|] s' [Hq Hh]; [|by wp_steps].
    destruct (Hh h eq_refl) as (sl' & inst & Hsl' & Hinst & Hnamed).
    wp_steps. eapply wp_inst_call; [done|]. rewrite Hinst.
    assert (Hq' : quiet s' (set_slots (<[i:=set_inst (Some (i_push h (attach_sender msg from) inst).2) sl']>
      (slots s')) s')).
    { eapply quiet_insert, same_slot_inst; [done..|]. by apply flow_push with n. }
    wp_steps. eapply wp_expect; [done|].
    destruct (i_push _ _ _).1 as [[]|]; wp_steps; etrans; [exact Hq|exact Hq'|..];
      first [exact Hq|exact Hq'].
  - destruct (negb _); [wp_steps; reflexivity|]. destruct (str_is_empty n || _); [wp_steps; reflexivity|].
    case_bool_decide as Hp; [wp_steps; reflexivity|].
    wp_steps. eapply wp_upd_slot; [done|]. wp_steps. eapply quiet_insert; [done|].
    split; try done; cbn; [intros; simplify_eq; reflexivity|].
    rewrite length_app. cbn. lia.
Qed.

End quiet_ops.
