(* ===== verification/SwarmInv.v ===== *)
(** * The invariant of the instance table

    [wf] says what the table is between two operations: the index and the
    slots agree, handles are distinct and never reused, every live slot is
    resident or cached, its buffers are within bounds, and it is either a
    root or a child whose path, capabilities, bounds and flags are those its
    live parent could give.  This file proves the rules for claiming,
    building and releasing slots; [SwarmKill] and [SwarmSafe] lift them to
    the operations. *)

From S2P Require Import Prelude.
From S2P Require Import Bytes.
From S2P Require Import Value.
From S2P Require Import Caps.
From S2P Require Import Config.
From S2P Require Import Node.
From S2P Require Import Engine.
From S2P Require Import Requests.
From S2P Require Import Swarm.
From S2P Require Import SwarmQuiet.

Section invariant.
Context {E H I : Type} `{Fl : Flow I}.
Implicit Types (s : Swarm E H I) (sl : Slot I).

(** What a child may be under a parent. *)
Record child_of (p c : Slot I) : Prop := {
  child_path : ∃ name, NodePath.child (s_path p) name = Ok (s_path c);
  child_caps : ∃ names, CapSet.attenuate_held_by (s_caps p) (Some (s_path c)) (s_path p)
    ((grant <$> names) ++ filter (λ g, is_deny g = true) (grants (s_caps p))) = Ok (s_caps c);
  child_budget : budget_within (s_budget c) (s_budget p);
  child_numeric : numeric_within (s_numeric c) (s_numeric p);
  child_stdlib : s_unsafe_stdlib c = true → s_unsafe_stdlib p = true;
  child_debug : s_unsafe_debug c = true → s_unsafe_debug p = true
}.

Definition root_ok sl : Prop :=
  s_parent sl = 0%N ∧ s_path sl = NodePath.root ∧
  ∃ gs, s_caps sl = CapSet.root_held_by NodePath.root gs.

(** The parent is live in [s] and older. *)
Definition parented s sl : Prop :=
  ∃ j p, slots s !! j = Some p ∧ s_id p = s_parent sl ∧ s_id p ≠ 0%N ∧ s_alive p = true ∧
         (s_parent sl < s_id sl)%N ∧ child_of p sl.

Record slot_ok s sl : Prop := {
  ok_state : is_Some (s_inst sl) ∨ is_Some (s_snap sl);
  ok_pending : length (s_pending sl) ≤ MAX_PENDING;
  ok_path : NodeFacts.valid (s_path sl);
  ok_place : root_ok sl ∨ parented s sl
}.

(** The table, all but that every used slot is live: a slot between its
    claim and its build is used and not yet live. *)
Record wf0 s : Prop := {
  wf_index id i :
    index s !! id = Some i ↔ id ≠ 0%N ∧ ∃ sl, slots s !! i = Some sl ∧ s_id sl = id;
  wf_ids i sl : slots s !! i = Some sl → (s_id sl < next_id s)%N;
  wf_next : (0 < next_id s < 2 ^ 32)%N;
  wf_len : length (slots s) ≤ max_instances s;
  wf_rate : (spawns_this_step s ≤ spawn_rate s < 2 ^ 32)%N;
  wf_identity : (N.of_nat (str_len (default "" (host_identity s))) < 2 ^ 32)%N;
  wf_slot i sl : slots s !! i = Some sl → s_id sl ≠ 0%N → s_alive sl = true → slot_ok s sl;
  wf_clean : Forall clean (slots s)
}.

Definition all_live s : Prop :=
  ∀ i sl, slots s !! i = Some sl → s_id sl ≠ 0%N → s_alive sl = true.

Definition wf s : Prop := wf0 s ∧ all_live s.

Lemma wf0_in_table s : wf0 s → in_table s.
Proof.
  intros Hw. split; [|apply Hw..]. intros id i [_ (sl & Hi & _)]%(wf_index s Hw).
  by eapply lookup_lt_Some.
Qed.

Lemma wf_find s id i : wf0 s → find s id = Some i ↔
  id ≠ 0%N ∧ ∃ sl, slots s !! i = Some sl ∧ s_id sl = id.
Proof.
  intros Hw. unfold find. case_bool_decide as Hnz; [naive_solver|]. apply wf_index, Hw.
Qed.

Lemma wf_slot_of s id sl : wf0 s → slot_of s id = Some sl ↔
  id ≠ 0%N ∧ ∃ i, slots s !! i = Some sl ∧ s_id sl = id.
Proof.
  intros Hw. unfold slot_of. split.
  - intros (i & Hf & Hi)%bind_Some. apply wf_find in Hf as (? & sl' & ? & ?); [|done]. naive_solver.
  - intros (Hid & i & Hi & Hs). apply bind_Some. exists i. split; [|done].
    apply wf_find; naive_solver.
Qed.

(** Handles are distinct. *)
Lemma wf_unique s i j a b :
  wf0 s → slots s !! i = Some a → slots s !! j = Some b → s_id a = s_id b → s_id a ≠ 0%N → i = j.
Proof.
  intros Hw Ha Hb Hab Hnz.
  assert (index s !! s_id a = Some i) by (apply wf_index; naive_solver).
  assert (index s !! s_id a = Some j) by (apply wf_index; naive_solver). congruence.
Qed.

Lemma wf_none s id : wf0 s → find s id = None → id = 0%N ∨
  ∀ i sl, slots s !! i = Some sl → s_id sl ≠ id.
Proof.
  intros Hw Hf. destruct (decide (id = 0%N)) as [|Hnz]; [by left|right]. intros i sl Hi Hs.
  assert (find s id = Some i) by (apply wf_find; naive_solver). congruence.
Qed.

(** *** Quiet operations keep it *)

Lemma child_of_same p c p' c' :
  same_slot p p' → same_slot c c' → child_of p c → child_of p' c'.
Proof. intros [] [] []. split; by repeat match goal with H : _ = _ |- _ => rewrite H end. Qed.

Lemma quiet_slot_ok s s' sl sl' :
  quiet s s' → same_slot sl sl' → slot_ok s sl → slot_ok s' sl'.
Proof.
  intros Hq Hs Hok. pose proof Hs as []. destruct Hok as [Hst Hp Hv Hpl]. split.
  - rewrite same_snap. naive_solver.
  - auto.
  - by rewrite same_path.
  - destruct Hpl as [(Hr & Hpa & Hc)|(j & p & Hj & Hid & Hnz & Hal & Hlt & Hch)].
    + left. split_and!; [congruence|congruence|by rewrite same_caps].
    + right. destruct (quiet_lookup s s' j p Hq Hj) as (p' & Hj' & Hp').
      exists j, p'. rewrite same_parent, same_id, (SwarmQuiet.same_id _ _ Hp'), (SwarmQuiet.same_alive _ _ Hp').
      split_and!; [done..|]. by eapply child_of_same.
Qed.

Lemma quiet_wf0 s s' : quiet s s' → wf0 s → wf0 s'.
Proof.
  intros Hq Hw. pose proof (quiet_in_table s s' Hq (wf0_in_table s Hw)) as Ht.
  split.
  - intros id i. rewrite (quiet_index s s' Hq), (wf_index s Hw). split; intros (Hnz & sl & Hi & Hid).
    + destruct (quiet_lookup s s' i sl Hq Hi) as (sl' & ? & Hs).
      split; [done|]. exists sl'. by rewrite (same_id _ _ Hs).
    + destruct (quiet_lookup_rev s s' i sl Hq Hi) as (sl' & ? & Hs).
      split; [done|]. exists sl'. by rewrite <-(same_id _ _ Hs).
  - intros i sl' Hi. destruct (quiet_lookup_rev s s' i sl' Hq Hi) as (sl & Hsl & Hs).
    rewrite (same_id _ _ Hs), (quiet_next s s' Hq). by eapply wf_ids.
  - rewrite (quiet_next s s' Hq). apply Hw.
  - rewrite (quiet_length s s' Hq), (quiet_max s s' Hq). apply Hw.
  - rewrite (quiet_spawns s s' Hq), (quiet_rate s s' Hq). apply Hw.
  - apply Ht.
  - intros i sl' Hi. destruct (quiet_lookup_rev s s' i sl' Hq Hi) as (sl & Hsl & Hs).
    rewrite (same_id _ _ Hs), (SwarmQuiet.same_alive _ _ Hs). intros.
    eapply quiet_slot_ok; [done..|]. by eapply wf_slot.
  - apply Ht.
Qed.

Lemma quiet_all_live s s' : quiet s s' → all_live s → all_live s'.
Proof.
  intros Hq Hl i sl' Hi. destruct (quiet_lookup_rev s s' i sl' Hq Hi) as (sl & Hsl & Hs).
  rewrite (same_id _ _ Hs), (SwarmQuiet.same_alive _ _ Hs). by eapply Hl.
Qed.

Lemma quiet_wf s s' : quiet s s' → wf s → wf s'.
Proof. intros Hq [? ?]. split; [by eapply quiet_wf0|by eapply quiet_all_live]. Qed.

(** *** Changing one slot *)

(** All but the slots, the engine, the host and the index. *)
Record frame s s' : Prop := {
  frame_max : max_instances s' = max_instances s;
  frame_next : next_id s' = next_id s;
  frame_rate : spawn_rate s' = spawn_rate s;
  frame_spawns : spawns_this_step s' = spawns_this_step s;
  frame_stdlib : sw_unsafe_stdlib s' = sw_unsafe_stdlib s;
  frame_debug : sw_unsafe_debug s' = sw_unsafe_debug s;
  frame_identity : host_identity s' = host_identity s
}.

#[global] Instance frame_preorder : PreOrder frame.
Proof. split; [by intros s; split|]. intros s1 s2 s3 [] []. split; congruence. Qed.

Lemma child_of_parent p p' c :
  child_of p c → s_path p' = s_path p → s_caps p' = s_caps p → s_budget p' = s_budget p →
  s_numeric p' = s_numeric p → s_unsafe_stdlib p' = s_unsafe_stdlib p →
  s_unsafe_debug p' = s_unsafe_debug p → child_of p' c.
Proof. intros [] ? ? ? ? ? ?. split; by repeat match goal with H : _ = _ |- _ => rewrite H end. Qed.

(** A slot whose identity and grant stay what they were. *)
Record same_grant (a b : Slot I) : Prop := {
  grant_id : s_id b = s_id a;
  grant_alive : s_alive b = s_alive a;
  grant_path : s_path b = s_path a;
  grant_caps : s_caps b = s_caps a;
  grant_budget : s_budget b = s_budget a;
  grant_numeric : s_numeric b = s_numeric a;
  grant_stdlib : s_unsafe_stdlib b = s_unsafe_stdlib a;
  grant_debug : s_unsafe_debug b = s_unsafe_debug a
}.

(** A used slot may take any new value that keeps its handle, that is right
    if live, and that keeps its grant if it was live. *)
Lemma wf0_update s s' i sl sl' :
  wf0 s → frame s s' → index s' = index s → slots s !! i = Some sl →
  slots s' = <[i := sl']> (slots s) → s_id sl' = s_id sl →
  (s_alive sl = true → same_grant sl sl') →
  (s_id sl' ≠ 0%N → s_alive sl' = true → slot_ok s sl') → clean sl' → wf0 s'.
Proof.
  intros Hw Hf Hix Hi Hs' Hid Hgrant Hok Hcl.
  assert (Hlt : i < length (slots s)) by by eapply lookup_lt_Some.
  assert (Hlook : ∀ j x, slots s' !! j = Some x ↔ (j = i ∧ x = sl') ∨ (j ≠ i ∧ slots s !! j = Some x)).
  { intros j x. rewrite Hs', list_lookup_insert_Some. naive_solver. }
  assert (Hpar : ∀ x, parented s x → parented s' x).
  { intros x (j & p & Hj & Hpid & Hnz & Hal & Hl & Hc). destruct (decide (j = i)) as [->|Hne].
    - simplify_eq. destruct (Hgrant Hal) as [].
      exists i, sl'. rewrite Hlook. split_and!; [by left|congruence|congruence|congruence|done|].
      by eapply child_of_parent.
    - exists j, p. rewrite Hlook. split_and!; [by right|done..]. }
  assert (Hso : ∀ x, slot_ok s x → slot_ok s' x).
  { intros x []. split; [done..|]. naive_solver. }
  split.
  - intros id j. rewrite Hix, (wf_index s Hw). split; intros (Hnz & x & Hj & Hx); split; try done.
    + destruct (decide (j = i)) as [->|Hne].
      * exists sl'. rewrite Hlook. split; [by left|]. by simplify_eq.
      * exists x. rewrite Hlook. split; [by right|done].
    + apply Hlook in Hj as [[-> ->]|[_ Hj]]; [|by eauto]. exists sl. split; [done|congruence].
  - intros j x Hj. rewrite (frame_next s s' Hf).
    apply Hlook in Hj as [[-> ->]|[_ Hj]]; [rewrite Hid|]; by eapply wf_ids.
  - rewrite (frame_next s s' Hf). apply Hw.
  - rewrite Hs', length_insert, (frame_max s s' Hf). apply Hw.
  - rewrite (frame_spawns s s' Hf), (frame_rate s s' Hf). apply Hw.
  - rewrite (frame_identity s s' Hf). apply Hw.
  - intros j x Hj Hnz Hal. apply Hso.
    apply Hlook in Hj as [[-> ->]|[_ Hj]]; [by apply Hok|by eapply wf_slot].
  - rewrite Hs'. apply Forall_insert; [apply Hw|done].
Qed.

(** *** Claiming *)

Record claimed s (i : nat) s' : Prop := {
  cl_slot : slots s' !! i = Some (set_id (next_id s) Slot.free);
  cl_others j : j ≠ i → slots s' !! j = slots s !! j;
  cl_was sl : slots s !! i = Some sl → s_id sl = 0%N;
  cl_index : index s' = <[next_id s := i]> (index s);
  cl_next : next_id s' = (next_id s + 1)%N;
  cl_bound : (next_id s + 1 < 2 ^ 32)%N;
  cl_len : length (slots s) ≤ length (slots s') ≤ max_instances s;
  cl_max : max_instances s' = max_instances s;
  cl_rate : spawn_rate s' = spawn_rate s;
  cl_spawns : spawns_this_step s' = spawns_this_step s;
  cl_stdlib : sw_unsafe_stdlib s' = sw_unsafe_stdlib s;
  cl_debug : sw_unsafe_debug s' = sw_unsafe_debug s;
  cl_identity : host_identity s' = host_identity s
}.

Lemma claimed_lookup s i s' j sl :
  claimed s i s' → slots s !! j = Some sl → s_id sl ≠ 0%N → j ≠ i ∧ slots s' !! j = Some sl.
Proof.
  intros Hc Hj Hnz. destruct (decide (j = i)) as [->|Hne].
  - by pose proof (cl_was s i s' Hc sl Hj).
  - split; [done|]. by rewrite (cl_others s i s' Hc).
Qed.

Lemma claimed_parented s i s' sl : claimed s i s' → parented s sl → parented s' sl.
Proof.
  intros Hc (j & p & Hj & Hid & Hnz & Hrest). exists j, p.
  split; [|done]. by eapply claimed_lookup.
Qed.

Lemma claimed_wf0 s i s' : wf0 s → claimed s i s' → wf0 s'.
Proof.
  intros Hw Hc.
  assert (Hlook : ∀ j x, slots s' !! j = Some x →
    (j = i ∧ x = set_id (next_id s) Slot.free) ∨ (j ≠ i ∧ slots s !! j = Some x)).
  { intros j x Hj. destruct (decide (j = i)) as [->|Hne].
    - left. rewrite (cl_slot s i s' Hc) in Hj. by simplify_eq.
    - right. by rewrite <-(cl_others s i s' Hc). }
  pose proof (wf_next s Hw).
  split.
  - intros id j. rewrite (cl_index s i s' Hc). split.
    + intros [[<- <-]|[Hne (Hnz & x & Hj & Hx)%(wf_index s Hw)]]%lookup_insert_Some.
      * split; [lia|]. eexists. split; [apply Hc|done].
      * split; [done|]. exists x. split; [|done]. eapply claimed_lookup; [done..|congruence].
    + intros (Hnz & x & Hj & Hx). apply lookup_insert_Some.
      apply Hlook in Hj as [[-> ->]|[Hne Hj]]; [by left|]. right.
      split; [|apply wf_index; naive_solver].
      pose proof (wf_ids s Hw _ _ Hj). lia.
  - intros j x Hj. rewrite (cl_next s i s' Hc).
    apply Hlook in Hj as [[-> ->]|[Hne Hj]]; [cbn; lia|]. pose proof (wf_ids s Hw _ _ Hj). lia.
  - rewrite (cl_next s i s' Hc). pose proof (cl_bound s i s' Hc). lia.
  - rewrite (cl_max s i s' Hc). apply Hc.
  - rewrite (cl_spawns s i s' Hc), (cl_rate s i s' Hc). apply Hw.
  - rewrite (cl_identity s i s' Hc). apply Hw.
  - intros j x Hj Hnz Hal. apply Hlook in Hj as [[-> ->]|[Hne Hj]]; [done|].
    destruct (wf_slot s Hw _ _ Hj Hnz Hal) as [? ? ? Hpl]. split; [done..|].
    destruct Hpl; [by left|right]. by eapply claimed_parented.
  - apply Forall_lookup_2. intros j x Hj. apply Hlook in Hj as [[-> ->]|[Hne Hj]]; [done|].
    by apply (Forall_lookup_1 _ _ _ _ (wf_clean s Hw) Hj).
Qed.

(** The tail of [claim], once a free slot is found. *)
Lemma wp_claim_at t s s1 i :
  wf0 s → i < length (slots s1) →
  length (slots s) ≤ length (slots s1) ≤ max_instances s →
  (∀ j, j ≠ i → slots s1 !! j = slots s !! j) →
  (∀ sl, slots s !! i = Some sl → s_id sl = 0%N) →
  index s1 = index s → frame s s1 →
  wp t (upd_slot i (λ _, Slot.free);;
        upd_slot i (set_id (next_id s));;
        modify (λ s1, set_index (<[next_id s1 := i]> (index s1)) s1);;
        if bool_decide (next_id s + 1 < 2 ^ 32)%N then
          modify (λ s1, set_next_id (next_id s1 + 1)%N s1);; mret (Some i)
        else overflow)
    (λ r s', match r with Some j => j = i ∧ claimed s i s' | None => False end) s1.
Proof.
  intros Hw Hi Hlen Hoth Hwas Hix []. destruct (lookup_lt_is_Some_2 _ _ Hi) as [sl Hsl].
  wp_steps. eapply wp_upd_slot; [done|]. wp_steps. eapply wp_upd_slot.
  { cbn. by apply list_lookup_insert_eq. }
  wp_steps. case_bool_decide as Hn; [|done]. wp_steps. split; [done|]. split; cbn; try done.
  - rewrite list_lookup_insert_eq; [done|]. by rewrite length_insert.
  - intros j Hj. rewrite !list_lookup_insert_ne by done. by apply Hoth.
  - by rewrite Hix, frame_next0.
  - by rewrite frame_next0.
  - by rewrite !length_insert.
Qed.

Lemma wp_claim t s :
  wf0 s →
  wp t claim (λ r s', match r with
                      | None => s' = s ∧ length (slots s) = max_instances s ∧
                                Forall (λ sl, s_id sl ≠ 0%N) (slots s)
                      | Some i => claimed s i s'
                      end) s.
Proof.
  intros Hw. unfold claim. wp_steps.
  destruct (position _ (slots s)) as [i|] eqn:Hpos.
  - apply position_Some in Hpos as (sl & Hi & Hz). apply bool_decide_eq_true in Hz.
    wp_step. eapply wp_mono; [apply (wp_claim_at t s s i Hw)|].
    + by eapply lookup_lt_Some.
    + split; [done|apply Hw].
    + done.
    + intros; by simplify_eq.
    + done.
    + reflexivity.
    + intros [j|] s'; [by intros [-> ?]|done].
  - case_bool_decide as Hlen.
    + do 3 wp_step. eapply wp_mono; [apply (wp_claim_at t s _ (length (slots s)) Hw)|].
      * cbn. rewrite length_app. cbn. lia.
      * cbn. rewrite length_app. cbn. lia.
      * intros j Hj. cbn. destruct (decide (j < length (slots s))).
        -- by apply lookup_app_l.
        -- rewrite (lookup_ge_None_2 (slots s)) by lia. apply lookup_ge_None_2.
           rewrite length_app. cbn. lia.
      * intros sl Hsl%lookup_lt_Some. lia.
      * done.
      * by split.
      * intros [j|] s'; [by intros [-> ?]|done].
    + wp_steps. split_and!; [done|pose proof (wf_len s Hw); lia|].
      apply Forall_forall. intros sl Hin Hz.
      pose proof (position_None _ _ _ Hpos Hin) as Hp.
      cbv beta in Hp. by rewrite bool_decide_eq_true_2 in Hp.
Qed.

(** *** Building and releasing *)

(** What [build] may do: the engine and the host move on, and on success the
    slot becomes live with a fresh instance. *)
Record built s i sl s' (ok : bool) : Prop := {
  bu_frame : frame s s';
  bu_index : index s' = index s;
  bu_slots : if ok then
      ∃ inst, slots s' = <[i := set_inst (Some inst) (set_handles [] (set_alive true sl))]> (slots s)
    else slots s' = slots s
}.

Lemma wp_build `{!EngineOps E I, !SwarmHost H I} t i code s sl :
  slots s !! i = Some sl →
  wp t (build i code)
    (λ r s', built s i sl s' (match r with Ok _ => true | Err _ => false end)) s.
Proof.
  intros Hsl. unfold build. wp_step. eapply wp_slot_at; [done|]. do 2 wp_step.
  set (program := match from_utf8 code with Some _ => _ | None => _ end).
  destruct program as [program|why]; [|by wp_steps].
  destruct (e_load _ _) as [[inst|e] eng]; wp_steps; [|by split].
  eapply wp_upd_slot; [done|]. unfold host_do. wp_steps. split; [by split|done|]. by exists inst.
Qed.

Record released s i sl s' : Prop := {
  re_frame : frame s s';
  re_index : index s' = delete (s_id sl) (index s);
  re_slots : slots s' = <[i := Slot.free]> (slots s)
}.

Lemma wp_release `{!EngineOps E I, !SwarmHost H I} t i s sl :
  slots s !! i = Some sl → wp t (release i) (λ _ s', released s i sl s') s.
Proof.
  intros Hsl. unfold release, host_do. wp_step. eapply wp_slot_at; [done|]. wp_step.
  apply wp_when; intros _; wp_steps; (eapply wp_upd_slot; [done|]); by split; [split|..].
Qed.

(** No live slot is under the handle [id]. *)
Definition childless s (id : N) : Prop :=
  ∀ j sl, slots s !! j = Some sl → s_id sl ≠ 0%N → s_alive sl = true → s_parent sl ≠ id.

Lemma released_wf0 s i sl s' :
  wf0 s → slots s !! i = Some sl → s_id sl ≠ 0%N → childless s (s_id sl) →
  released s i sl s' → wf0 s'.
Proof.
  intros Hw Hi Hnz Hch [Hf Hix Hs'].
  assert (Hlt : i < length (slots s)) by by eapply lookup_lt_Some.
  assert (Hlook : ∀ j x, slots s' !! j = Some x ↔
    (j = i ∧ x = Slot.free) ∨ (j ≠ i ∧ slots s !! j = Some x)).
  { intros j x. rewrite Hs', list_lookup_insert_Some. naive_solver. }
  split.
  - intros id j. rewrite Hix, lookup_delete_Some, (wf_index s Hw). split.
    + intros (Hne & Hid & x & Hj & Hx). split; [done|]. exists x. rewrite Hlook.
      split; [|done]. right. split; [|done]. intros ->. by simplify_eq.
    + intros (Hid & x & [[-> ->]|[Hji Hj]]%Hlook & Hx); [by cbn in Hx|].
      split; [|split; [done|by exists x]]. intros Heq. apply Hji.
      eapply (wf_unique s j i x sl); naive_solver.
  - intros j x Hj. rewrite (frame_next s s' Hf).
    apply Hlook in Hj as [[-> ->]|[_ Hj]]; [cbn; apply Hw|by eapply wf_ids].
  - rewrite (frame_next s s' Hf). apply Hw.
  - rewrite Hs', length_insert, (frame_max s s' Hf). apply Hw.
  - rewrite (frame_spawns s s' Hf), (frame_rate s s' Hf). apply Hw.
  - rewrite (frame_identity s s' Hf). apply Hw.
  - intros j x Hj Hxz Hal. apply Hlook in Hj as [[-> ->]|[Hji Hj]]; [done|].
    destruct (wf_slot s Hw _ _ Hj Hxz Hal) as [? ? ? Hpl]. split; [done..|].
    destruct Hpl as [|(k & p & Hk & Hpid & Hpz & Hpal & Hlt' & Hc)]; [by left|right].
    exists k, p. rewrite Hlook. split_and!; [right; split; [|done]|done..].
    intros ->. simplify_eq. by apply (Hch j x).
  - rewrite Hs'. apply Forall_insert; [apply Hw|done].
Qed.

(** A used slot that is not live has no live children. *)
Lemma childless_dead s i sl :
  wf0 s → slots s !! i = Some sl → s_id sl ≠ 0%N → s_alive sl = false → childless s (s_id sl).
Proof.
  intros Hw Hi Hnz Hal j c Hj Hcz Hcal Hpar.
  destruct (wf_slot s Hw _ _ Hj Hcz Hcal) as [_ _ _ [(Hp & _)|(k & p & Hk & Hpid & Hpz & Hpal & _)]];
    [congruence|].
  assert (k = i) as -> by (apply (wf_unique s k i p sl); [done..|congruence|done]). congruence.
Qed.

(** *** Placing a new slot: configuring and building what was claimed *)

(** The slot as [configure] leaves it: claimed by [s], right where it is. *)
Record placeable s sl : Prop := {
  pl_id : s_id sl = next_id s;
  pl_alive : s_alive sl = false;
  pl_pending : s_pending sl = [];
  pl_handles : s_handles sl = [];
  pl_path : NodeFacts.valid (s_path sl);
  pl_place : root_ok sl ∨ parented s sl
}.

(** The slot once its instance is loaded. *)
Definition started sl (inst : I) : Slot I :=
  set_inst (Some inst) (set_handles [] (set_alive true sl)).

(** The table after a placement: the others are untouched. *)
Record placed s i s' x : Prop := {
  pd_slot : slots s' !! i = Some x;
  pd_others j y : slots s !! j = Some y → s_id y ≠ 0%N → j ≠ i ∧ slots s' !! j = Some y;
  pd_back j y : slots s' !! j = Some y → j ≠ i → slots s !! j = Some y;
  pd_len : length (slots s) ≤ length (slots s');
  pd_next : next_id s' = (next_id s + 1)%N;
  pd_max : max_instances s' = max_instances s;
  pd_rate : spawn_rate s' = spawn_rate s;
  pd_spawns : spawns_this_step s' = spawns_this_step s;
  pd_identity : host_identity s' = host_identity s
}.

Lemma placed_all_live s i s' x :
  all_live s → placed s i s' x → (s_id x ≠ 0%N → s_alive x = true) → all_live s'.
Proof.
  intros Hl Hp Hx j y Hj Hnz. destruct (decide (j = i)) as [->|Hne].
  - rewrite (pd_slot s i s' x Hp) in Hj. simplify_eq. auto.
  - by eapply Hl; [eapply pd_back|].
Qed.

Lemma wp_place `{!EngineOps E I, !SwarmHost H I} t s s1 i f code :
  wf s → claimed s i s1 → (∀ sl, s_id (f sl) = s_id sl) →
  placeable s (f (set_id (next_id s) Slot.free)) →
  wp t (upd_slot i f;; build i code)
    (λ r s', match r with
             | Ok _ => wf s' ∧
                 ∃ inst, placed s i s' (started (f (set_id (next_id s) Slot.free)) inst)
             | Err _ => wf0 s' ∧ placed s i s' (f (set_id (next_id s) Slot.free))
             end) s1.
Proof.
  intros [Hw Hl] Hc Hfid Hpl. pose proof (claimed_wf0 s i s1 Hw Hc) as Hw1.
  set (x := f (set_id (next_id s) Slot.free)) in *. destruct Hpl as [Hid Hal Hpe Hha Hpa Hplace].
  wp_step. eapply wp_upd_slot; [apply Hc|]. fold x. set (s2 := set_slots _ s1).
  assert (Hlt : i < length (slots s1)) by (eapply lookup_lt_Some; apply Hc).
  assert (Hx2 : slots s2 !! i = Some x) by by apply list_lookup_insert_eq.
  assert (Hpar : parented s x → parented s1 x) by by apply (claimed_parented s i s1).
  assert (Hok : ∀ inst, slot_ok s1 (started x inst)).
  { intros inst. split; cbn; [left; by eexists|rewrite Hpe; cbn; lia|done|].
    destruct Hplace as [Hr|Hp]; [left; apply Hr|right].
    destruct (Hpar Hp) as (j & p & Hj & Hpid & Hpz & Hpal & Hlt' & []).
    exists j, p. split_and!; [done..|]. by split. }
  assert (Hw2 : wf0 s2).
  { eapply (wf0_update s1 s2 i); [done|by split|done|apply Hc|done|by rewrite Hid|done|congruence|].
    intros inst n q _. rewrite Hha. by intros ?%elem_of_nil. }
  eapply wp_mono; [by apply (wp_build t i code s2 x)|].
  assert (Hplaced : ∀ s' y, frame s2 s' → slots s' = <[i:=y]> (slots s2) → placed s i s' y).
  { intros s' y [] Hs'. split.
    - rewrite Hs'. apply list_lookup_insert_eq. cbn. by rewrite length_insert.
    - intros j z Hj Hz. destruct (claimed_lookup _ _ _ _ _ Hc Hj Hz) as [Hne Hj1].
      split; [done|]. rewrite Hs', list_lookup_insert_ne by done. cbn.
      by rewrite list_lookup_insert_ne by done.
    - intros j z Hj Hne. rewrite Hs', list_lookup_insert_ne in Hj by done. cbn in Hj.
      rewrite list_lookup_insert_ne in Hj by done. by rewrite <-(cl_others s i s1 Hc).
    - rewrite Hs', length_insert. cbn. rewrite length_insert. apply Hc.
    - rewrite frame_next0. apply Hc.
    - rewrite frame_max0. apply Hc.
    - rewrite frame_rate0. apply Hc.
    - rewrite frame_spawns0. apply Hc.
    - rewrite frame_identity0. apply Hc. }
  intros [[]|why] s' [Hf Hix Hs'].
  - destruct Hs' as [inst Hs']. fold (started x inst) in Hs'.
    assert (Hp : placed s i s' (started x inst)) by by apply Hplaced.
    split; [|by exists inst].
    split; [|by apply (placed_all_live s i s' (started x inst))].
    eapply (wf0_update s2 s' i x); try done; try (by rewrite Hal).
    + intros _ _. destruct (Hok inst) as [? ? ? Hpl']. split; [done..|].
      destruct Hpl' as [|(j & p & Hj & Hpid & Hpz & Hrest)]; [by left|right].
      exists j, p. split; [|done]. cbn. destruct (decide (j = i)) as [->|Hne].
      * exfalso. rewrite (cl_slot s i s1 Hc) in Hj. simplify_eq. naive_solver.
      * by rewrite list_lookup_insert_ne.
    + intros inst' n q _. cbn. by intros ?%elem_of_nil.
  - split.
    + eapply (wf0_update s2 s' i x x); try done; try (intros; congruence).
      * rewrite Hs'. by rewrite list_insert_id.
      * intros inst n q _. rewrite Hha. by intros ?%elem_of_nil.
    + apply Hplaced; [done|]. rewrite Hs'. by rewrite list_insert_id.
Qed.

(** Giving the slot up again. *)
Lemma wp_unplace `{!EngineOps E I, !SwarmHost H I} t s i s' x :
  wf s → wf0 s' → placed s i s' x → s_id x ≠ 0%N → s_alive x = false →
  wp t (release i) (λ _ s'', wf s'' ∧ placed s i s'' Slot.free) s'.
Proof.
  intros [Hw Hl] Hw' Hp Hnz Hal. pose proof (pd_slot s i s' x Hp) as Hx.
  eapply wp_mono; [by apply (wp_release t i s' x)|]. intros u s'' Hr.
  assert (Hp' : placed s i s'' Slot.free).
  { destruct Hp, Hr as [[] _ Hs]. split; try congruence; rewrite Hs.
    - apply list_lookup_insert_eq. by eapply lookup_lt_Some.
    - intros j y Hj Hy. destruct (pd_others0 j y Hj Hy). by rewrite list_lookup_insert_ne by done.
    - intros j y Hj Hne. rewrite list_lookup_insert_ne in Hj by done. auto.
    - by rewrite length_insert. }
  split; [|done]. split; [|by apply (placed_all_live s i s'' Slot.free)].
  eapply (released_wf0 s' i x); [done..| |done]. by eapply childless_dead.
Qed.

End invariant.
