(* ===== verification/SwarmKill.v ===== *)
(** * Subtree kill

    [kill_subtree] marks and sweeps a flat table.  Here: the marking loop
    ends within the table's size, it marks exactly the target and what is
    below it, the sweep frees exactly the marked slots, and the invariant of
    the table is kept. *)

From S2P Require Import Prelude.
From S2P Require Import Bytes.
From S2P Require Import Value.
From S2P Require Import Caps.
From S2P Require Import Config.
From S2P Require Import Node.
From S2P Require Import Engine.
From S2P Require Import Requests.
From S2P Require Import Swarm.
From S2P Require Import SwarmQuiet.
From S2P Require Import SwarmInv.

Section kill.
Context {E H I : Type} `{Fl : Flow I}.
Implicit Types (s : Swarm E H I) (sl : Slot I) (d : nat → bool).

(** The slots at or below slot [target]. *)
Inductive under s (target : nat) : nat → Prop :=
  | under_self : under s target target
  | under_child j sl p :
      slots s !! j = Some sl → s_id sl ≠ 0%N → s_parent sl ≠ 0%N →
      find s (s_parent sl) = Some p → under s target p → under s target j.

(** The table with exactly the marks [d]. *)
Definition with_marks d s : Swarm E H I :=
  set_slots (imap (λ j sl, set_doomed (d j) sl) (slots s)) s.

Lemma with_marks_lookup d s j :
  slots (with_marks d s) !! j = set_doomed (d j) <$> slots s !! j.
Proof. unfold with_marks; cbn. by rewrite list_lookup_imap. Qed.

Lemma with_marks_length d s : length (slots (with_marks d s)) = length (slots s).
Proof. apply length_imap. Qed.

Lemma with_marks_set d s j :
  set_slots (<[j := set_doomed true (default Slot.free (slots (with_marks d s) !! j))]>
    (slots (with_marks d s))) (with_marks d s)
  = with_marks (λ k, bool_decide (k = j) || d k) s.
Proof.
  unfold with_marks, set_slots; cbn. f_equal. generalize (slots s) as l; intros l.
  apply list_eq. intros k.
  destruct (decide (k = j)) as [->|Hne].
  - destruct (decide (j < length l)).
    + rewrite list_lookup_insert_eq by (by rewrite length_imap).
      rewrite !list_lookup_imap, bool_decide_eq_true_2 by done.
      destruct (l !! j) eqn:Hj; [done|]. apply lookup_ge_None in Hj. lia.
    + rewrite !lookup_ge_None_2; rewrite ?length_insert, ?length_imap; try done; lia.
  - rewrite list_lookup_insert_ne by done. rewrite !list_lookup_imap.
    by rewrite bool_decide_eq_false_2.
Qed.

(** Slot [j] needs no mark under [d]: its parent is not marked, or it is. *)
Definition closed_at d s (j : nat) : Prop :=
  ∀ sl p, slots s !! j = Some sl → s_id sl ≠ 0%N → s_parent sl ≠ 0%N →
          find s (s_parent sl) = Some p → d p = true → d j = true.

(** Marks only below the target. *)
Definition sound d s target : Prop := ∀ j, d j = true → under s target j.

(** What a marking step from [d] gives: more marks, all sound; nothing
    changed means nothing to change. *)
Record marks_step d s target (lo hi : nat) (changed : bool) s' : Prop := {
  ms_state : ∃ d', s' = with_marks d' s ∧ sound d' s target ∧ (∀ j, d j = true → d' j = true) ∧
    (changed = true → ∃ j, j < length (slots s) ∧ d j = false ∧ d' j = true);
  ms_stay : changed = false → s' = with_marks d s ∧ ∀ j, lo ≤ j < hi → closed_at d s j
}.

Lemma wp_mark_one t d s target i :
  wf0 s → sound d s target → i < length (slots s) →
  wp t (mark_one i) (marks_step d s target i (S i)) (with_marks d s).
Proof.
  intros Hw Hsnd Hi. destruct (lookup_lt_is_Some_2 _ _ Hi) as [sl Hsl].
  unfold mark_one. wp_step. eapply wp_slot_at; [by rewrite with_marks_lookup, Hsl|]. cbn.
  assert (Hstay : closed_at d s i → marks_step d s target i (S i) false (with_marks d s)).
  { intros Hc. split; [by exists d|]. intros _. split; [done|]. intros j Hj.
    by replace j with i by lia. }
  destruct (bool_decide_reflect (s_id sl = 0%N)) as [Hz|Hz]; cbn [orb].
  { apply wp_ret, Hstay. intros ?? Hsl'. by simplify_eq. }
  destruct (d i) eqn:Hdi; cbn [orb].
  { apply wp_ret, Hstay. by intros ??. }
  destruct (bool_decide_reflect (s_parent sl = 0%N)) as [Hp0|Hp0].
  { apply wp_ret, Hstay. intros ?? Hsl'. by simplify_eq. }
  do 2 wp_step. change (find (with_marks d s) (s_parent sl)) with (find s (s_parent sl)).
  destruct (find s (s_parent sl)) as [p|] eqn:Hf.
  - destruct (find_in_table s _ p (wf0_in_table s Hw) Hf) as [psl Hpsl].
    do 2 wp_step. eapply wp_slot_at; [by rewrite with_marks_lookup, Hpsl|]. wp_step. cbn.
    destruct (d p) eqn:Hdp; [|apply wp_ret, Hstay].
    + wp_step. eapply wp_upd_slot; [by rewrite with_marks_lookup, Hsl|]. wp_step.
      pose proof (with_marks_set d s i) as Hset. rewrite with_marks_lookup, Hsl in Hset.
      cbn in Hset. cbn. rewrite Hset. split; [|done].
      exists (λ k, bool_decide (k = i) || d k). split_and!; [done| | |].
      * intros j [->%bool_decide_eq_true|Hj]%orb_true_iff; [|by apply Hsnd].
        eapply under_child; [done..|]. by apply Hsnd.
      * intros j ->. apply orb_true_r.
      * intros _. exists i. by rewrite bool_decide_eq_true_2.
    + intros ?? Hsl' ? ? Hf' Hd. simplify_eq. congruence.
  - do 2 wp_step. apply wp_ret, Hstay. intros ?? Hsl' ? ? Hf'. by simplify_eq.
Qed.

Lemma wp_mark_pass t s target n : ∀ d start,
  wf0 s → sound d s target → start + n ≤ length (slots s) →
  wp t (mark_pass start n) (marks_step d s target start (start + n)) (with_marks d s).
Proof.
  induction n as [|n IH]; intros d start Hw Hsnd Hlen; cbn [mark_pass].
  { apply wp_ret. split; [by exists d|]. intros _. split; [done|]. lia. }
  wp_step. eapply wp_mono; [apply wp_mark_one; [done..|lia]|].
  intros c s1 [(d1 & -> & Hs1 & Hmono & Hch) Hstay].
  wp_step. eapply wp_mono; [apply IH; [done..|lia]|].
  intros c' s2 [(d2 & -> & Hs2 & Hmono2 & Hch2) Hstay2]. wp_step. split.
  - exists d2. split_and!; [done..|naive_solver|].
    destruct c.
    + intros _. destruct Hch as (j & Hj & Hd & Hd1); [done|]. exists j. eauto.
    + destruct Hstay as [Heq Hcl]; [done|]. cbn. intros Hc'.
      destruct Hch2 as (j & Hj & Hd & Hd2); [done|]. exists j. split_and!; [done| |done].
      destruct (d j) eqn:E'; [|done]. by rewrite Hmono in Hd.
  - intros [-> ->]%orb_false_iff. destruct Hstay as [Heq Hcl]; [done|].
    destruct Hstay2 as [Heq2 Hcl2]; [done|]. split; [congruence|].
    intros j Hj sl p Hsl Hz Hp0 Hf Hdp.
    destruct (decide (j = start)) as [->|Hne].
    + by apply (Hcl start ltac:(lia) sl p).
    + assert (Hd1 : d1 j = true).
      { apply (Hcl2 j ltac:(lia) sl p); auto. }
      assert (Hl : is_Some (slots s !! j)) by by eexists.
      pose proof (f_equal (λ x, slots x !! j) Heq) as Hj2. cbv beta in Hj2.
      rewrite !with_marks_lookup, Hsl in Hj2.
      apply (inj Some), (f_equal s_doomed) in Hj2. cbn in Hj2. congruence.
Qed.

Lemma with_marks_ext d d' s : (∀ j, d j = d' j) → with_marks d s = with_marks d' s.
Proof.
  intros Hd. unfold with_marks. f_equal. apply imap_ext. intros j x _. by rewrite Hd.
Qed.

Lemma clear_marks s : set_slots (set_doomed false <$> slots s) s = with_marks (λ _, false) s.
Proof.
  unfold with_marks. f_equal. apply list_eq. intros j.
  by rewrite list_lookup_fmap, list_lookup_imap.
Qed.

Lemma mark_target s target sl :
  slots s !! target = Some sl →
  set_slots (<[target := set_doomed true (set_doomed false sl)]> (slots (with_marks (λ _, false) s)))
    (with_marks (λ _, false) s)
  = with_marks (λ k, bool_decide (k = target)) s.
Proof.
  intros Htg. pose proof (with_marks_set (λ _, false) s target) as Hset.
  rewrite with_marks_lookup, Htg in Hset. cbn [fmap option_fmap option_map default] in Hset.
  etrans; [exact Hset|]. apply with_marks_ext. intros j. apply orb_false_r.
Qed.

(** How many slots are not marked. *)
Definition unmarked s : nat := length (filter (λ sl, s_doomed sl = false) (slots s)).

Lemma unmarked_lt d d' s :
  (∀ j, d j = true → d' j = true) →
  (∃ j, j < length (slots s) ∧ d j = false ∧ d' j = true) →
  unmarked (with_marks d' s) < unmarked (with_marks d s).
Proof.
  unfold unmarked, with_marks; cbn. generalize (slots s) as l. intros l.
  revert d d'; induction l as [|sl l IH]; intros d d' Hm (j & Hj & Hd & Hd'); cbn in Hj; [lia|].
  assert (Hle : ∀ d d' : nat → bool, (∀ j, d j = true → d' j = true) →
    length (filter (λ sl, s_doomed sl = false) (imap (λ j sl, set_doomed (d' j) sl) l)) ≤
    length (filter (λ sl, s_doomed sl = false) (imap (λ j sl, set_doomed (d j) sl) l))).
  { clear. induction l as [|x l IH]; intros d d' Hm; [done|]. cbn [imap].
    specialize (IH (d ∘ S) (d' ∘ S) (λ j, Hm (S j))). rewrite !filter_cons.
    unfold compose in *. cbn [s_doomed set_doomed] in *. specialize (Hm 0).
    repeat case_decide; cbn [length]; try lia.
    destruct (d 0); [specialize (Hm eq_refl)|]; congruence. }
  cbn [imap]. rewrite !filter_cons. cbn [s_doomed set_doomed].
  destruct j as [|j].
  - rewrite Hd, Hd'. specialize (Hle (d ∘ S) (d' ∘ S) (λ j, Hm (S j))).
    unfold compose in *. rewrite decide_False, decide_True by done. cbn [length]. lia.
  - assert (length (filter (λ sl, s_doomed sl = false) (imap (λ j sl, set_doomed (d' (S j)) sl) l)) <
      length (filter (λ sl, s_doomed sl = false) (imap (λ j sl, set_doomed (d (S j)) sl) l))).
    { apply (IH (d ∘ S) (d' ∘ S) (λ j, Hm (S j))). exists j. split; [lia|done]. }
    unfold compose in *. specialize (Hm 0).
    repeat case_decide; cbn [length]; try lia.
    destruct (d 0); [specialize (Hm eq_refl)|]; congruence.
Qed.

Lemma unmarked_le s : unmarked s ≤ length (slots s).
Proof. apply length_filter. Qed.

(** Marks that are sound, hold the target and are closed are exactly the
    subtree. *)
Definition exact d s target : Prop := ∀ j, d j = true ↔ under s target j.

Lemma wp_mark_loop t s target :
  wf0 s → target < length (slots s) →
  wp t (loop (S (length (slots s))) (mark_pass 0 (length (slots s))))
    (λ _ s', ∃ d, s' = with_marks d s ∧ exact d s target)
    (with_marks (λ k, bool_decide (k = target)) s).
Proof.
  intros Hw Ht.
  apply (wp_loop t (λ s', ∃ d, s' = with_marks d s ∧ sound d s target ∧ d target = true)
    _ unmarked).
  - eexists. split_and!; [done| |by apply bool_decide_eq_true_2].
    intros j ->%bool_decide_eq_true. constructor.
  - pose proof (unmarked_le (with_marks (λ k, bool_decide (k = target)) s)).
    rewrite with_marks_length in *. intros _. lia.
  - intros s' (d & -> & Hsnd & Htg).
    eapply wp_mono; [by apply (wp_mark_pass t s target _ d 0)|].
    intros [] s'' [(d' & -> & Hs' & Hm & Hch) Hstay].
    + split; [exists d'; auto|]. intros _. apply unmarked_lt; auto.
    + destruct Hstay as [Heq Hcl]; [done|]. exists d. split; [done|].
      intros j. split; [apply Hsnd|]. induction 1 as [|j sl p Hj Hz Hp Hf _ IH]; [done|].
      apply (Hcl j) with sl p; try done. split; [lia|]. by eapply lookup_lt_Some.
Qed.

(** *** The sweep *)

(** Everything at or below a used slot is used. *)
Lemma under_used s target j :
  (∃ sl, slots s !! target = Some sl ∧ s_id sl ≠ 0%N) → under s target j →
  ∃ sl, slots s !! j = Some sl ∧ s_id sl ≠ 0%N.
Proof. intros Ht. induction 1; [done|]. by eexists. Qed.

(** The table after the sweep: the marked slots are free, the others are
    what they were, and the index has lost exactly the marked. *)
Record killed s target s' : Prop := {
  ki_frame : frame s s';
  ki_slots : ∃ d, exact d s target ∧ ∀ j, slots s' !! j =
    if d j then (λ _, Slot.free) <$> slots s !! j else set_doomed false <$> slots s !! j;
  ki_index id j : index s' !! id = Some j ↔ index s !! id = Some j ∧ ¬ under s target j
}.

(** The sweep's invariant before slot [k]. *)
Record swept d s (k : nat) s' : Prop := {
  sw_frame : frame s s';
  sw_slots j : slots s' !! j =
    if d j && bool_decide (j < k) then (λ _, Slot.free) <$> slots s !! j
    else set_doomed (d j) <$> slots s !! j;
  sw_index id j : index s' !! id = Some j ↔
    index s !! id = Some j ∧ (d j && bool_decide (j < k)) = false
}.

Lemma wp_release_doomed `{!EngineOps E I, !SwarmHost H I} t d s k s' :
  wf0 s → (∀ j, d j = true → ∃ sl, slots s !! j = Some sl ∧ s_id sl ≠ 0%N) →
  k < length (slots s) → swept d s k s' →
  wp t (release_doomed k) (λ _, swept d s (S k)) s'.
Proof.
  intros Hw Hd Hk [Hf Hs Hi]. destruct (lookup_lt_is_Some_2 _ _ Hk) as [sl Hsl].
  assert (Hsl' : slots s' !! k = Some (set_doomed (d k) sl)).
  { rewrite Hs, Hsl, (bool_decide_eq_false_2 (k < k)) by lia. by rewrite andb_false_r. }
  assert (Hlt : ∀ j, j ≠ k → bool_decide (j < S k) = bool_decide (j < k)).
  { intros j Hj. apply bool_decide_ext. lia. }
  unfold release_doomed. wp_step. eapply wp_slot_at; [exact Hsl'|]. cbn. apply wp_when; intros Hdk.
  - apply andb_true_iff in Hdk as [Hz%bool_decide_eq_true Hdk].
    eapply wp_mono; [by apply wp_release|]. intros u s'' [Hf' Hi' Hs'']. split.
    + by etrans.
    + intros j. rewrite Hs''. destruct (decide (j = k)) as [->|Hne].
      * rewrite list_lookup_insert_eq by by eapply lookup_lt_Some.
        by rewrite Hdk, (bool_decide_eq_true_2 (k < S k)), Hsl by lia.
      * rewrite list_lookup_insert_ne by done. by rewrite Hs, Hlt.
    + intros id j. rewrite Hi', lookup_delete_Some, Hi. cbn [s_id set_doomed].
      destruct (decide (j = k)) as [->|Hne].
      * rewrite Hdk, (bool_decide_eq_true_2 (k < S k)), (bool_decide_eq_false_2 (k < k)) by lia. cbn.
        split; [|by intros [_ ?]]. intros (Hid & Hix & _). exfalso.
        apply (wf_index s Hw) in Hix as (_ & x & Hx & Hxi). by simplify_eq.
      * rewrite Hlt by done. split; [naive_solver|]. intros [Hix Hb]. split; [|done].
        intros <-. apply Hne. assert (index s !! s_id sl = Some k) by (apply (wf_index s Hw); eauto).
        congruence.
  - assert (Hdk' : d k = false).
    { destruct (d k) eqn:E'; [|done]. destruct (Hd k E') as (x & Hx & Hxz).
      simplify_eq. by rewrite bool_decide_eq_true_2 in Hdk. }
    split; [done| |].
    + intros j. rewrite Hs. destruct (decide (j = k)) as [->|Hne]; [by rewrite Hdk'|by rewrite Hlt].
    + intros id j. rewrite Hi. destruct (decide (j = k)) as [->|Hne]; [by rewrite Hdk'|by rewrite Hlt].
Qed.

Lemma wp_sweep `{!EngineOps E I, !SwarmHost H I} t d s target :
  wf0 s → exact d s target → (∃ sl, slots s !! target = Some sl ∧ s_id sl ≠ 0%N) →
  wp t (for_range 0 (length (slots s)) release_doomed) (λ _, killed s target) (with_marks d s).
Proof.
  intros Hw Hex Htg.
  assert (Hd : ∀ j, d j = true → ∃ sl, slots s !! j = Some sl ∧ s_id sl ≠ 0%N).
  { intros j Hj. apply (under_used s target); [done|by apply Hex]. }
  eapply wp_mono; [apply (wp_for_range t (swept d s))|].
  - split; [by split| |].
    + intros j. rewrite with_marks_lookup, andb_comm. by rewrite bool_decide_eq_false_2 by lia.
    + intros id j. cbn. rewrite andb_comm, bool_decide_eq_false_2 by lia. naive_solver.
  - intros k s' Hk Hsw. apply wp_release_doomed; [done..|lia|done].
  - intros u s' [Hf Hs Hi]. split; [done| |].
    + exists d. split; [done|]. intros j. rewrite Hs.
      destruct (d j) eqn:Hj; [|by destruct (slots s !! j)]. cbn.
      destruct (Hd j Hj) as (sl & Hsl & _). rewrite bool_decide_eq_true_2; [done|].
      by eapply lookup_lt_Some.
    + intros id j. rewrite Hi. split; intros [Hix Hu]; (split; [done|]).
      * intros Hun%Hex. rewrite Hun in Hu. cbn in Hu. apply bool_decide_eq_false in Hu.
        apply Hu. cbn. by apply (table_index s (wf0_in_table s Hw) id).
      * destruct (d j) eqn:Hj; [|done]. by apply Hex in Hj.
Qed.

(** *** The table after a kill *)

Lemma killed_lookup s target s' j sl :
  killed s target s' → slots s' !! j = Some sl →
  (sl = Slot.free ∧ under s target j) ∨
  (¬ under s target j ∧ ∃ x, slots s !! j = Some x ∧ sl = set_doomed false x).
Proof.
  intros [_ (d & Hex & Hs) _] Hj. rewrite Hs in Hj. specialize (Hex j).
  destruct (d j), (slots s !! j) as [x|]; simplify_eq/=; [left|right]; naive_solver.
Qed.

Lemma killed_survives s target s' j x :
  killed s target s' → slots s !! j = Some x → ¬ under s target j →
  slots s' !! j = Some (set_doomed false x).
Proof.
  intros [_ (d & Hex & Hs) _] Hj Hn. rewrite Hs, Hj.
  destruct (d j) eqn:E'; [by apply Hex in E'|done].
Qed.

Lemma killed_length s target s' : killed s target s' → length (slots s') = length (slots s).
Proof.
  intros [_ (d & _ & Hs) _].
  apply Nat.le_antisymm; apply Nat.nlt_ge; intros Hlt.
  - destruct (lookup_lt_is_Some_2 _ _ Hlt) as [x Hx]. rewrite Hs, (lookup_ge_None_2 (slots s)) in Hx by done.
    by destruct (d _).
  - destruct (lookup_lt_is_Some_2 _ _ Hlt) as [x Hx]. pose proof (Hs (length (slots s'))) as Hs'.
    rewrite Hx, (lookup_ge_None_2 (slots s')) in Hs' by done. by destruct (d _).
Qed.

Lemma killed_wf s target s' : wf s → killed s target s' → wf s'.
Proof.
  intros [Hw Hl] Hk. pose proof Hk as [Hf Hsl Hix].
  assert (Hok : ∀ j x, slots s !! j = Some x → s_id x ≠ 0%N → s_alive x = true →
    ¬ under s target j → slot_ok s' (set_doomed false x)).
  { intros j x Hj Hz Hal Hn. destruct (wf_slot s Hw j x Hj Hz Hal) as [? ? ? Hpl]. split; [done..|].
    destruct Hpl as [|(k & p & Hk' & Hpid & Hpz & Hpal & Hlt & Hc)]; [by left|right].
    exists k, (set_doomed false p). split_and!; [|done..|].
    - apply (killed_survives s target); [done..|]. intros Hun. apply Hn.
      apply (under_child s target j x k); [done..|congruence| |done].
      rewrite <-Hpid. apply wf_find; [done|]. eauto.
    - destruct Hc. by split. }
  split; [split|].
  - intros id j. rewrite Hix, (wf_index s Hw). split.
    + intros [(Hz & x & Hj & Hx) Hn]. split; [done|].
      exists (set_doomed false x). split; [by apply (killed_survives s target)|done].
    + intros (Hz & y & Hj & Hy). destruct (killed_lookup s target s' j y Hk Hj) as [[-> _]|(Hn & x & Hx & ->)].
      { by cbn in Hy. }
      split; [|done]. split; [done|]. by exists x.
  - intros j y Hj. rewrite (frame_next s s' Hf).
    destruct (killed_lookup s target s' j y Hk Hj) as [[-> _]|(Hn & x & Hx & ->)].
    + cbn. apply Hw.
    + cbn. by eapply wf_ids.
  - rewrite (frame_next s s' Hf). apply Hw.
  - rewrite (killed_length s target s' Hk), (frame_max s s' Hf). apply Hw.
  - rewrite (frame_spawns s s' Hf), (frame_rate s s' Hf). apply Hw.
  - rewrite (frame_identity s s' Hf). apply Hw.
  - intros j y Hj Hz Hal. destruct (killed_lookup s target s' j y Hk Hj) as [[-> _]|(Hn & x & Hx & ->)].
    + done.
    + by eapply Hok.
  - apply Forall_lookup_2. intros j y Hj.
    destruct (killed_lookup s target s' j y Hk Hj) as [[-> _]|(Hn & x & Hx & ->)]; [done|].
    by apply (Forall_lookup_1 _ _ _ _ (wf_clean s Hw) Hx).
  - intros j y Hj Hz. destruct (killed_lookup s target s' j y Hk Hj) as [[-> _]|(Hn & x & Hx & ->)].
    + done.
    + by apply (Hl j x).
Qed.

End kill.

Section kill_subtree.
Context {E H I : Type} `{Fl : Flow I, !EngineOps E I, !SwarmHost H I, !Codec, !RefWire}.
Implicit Types (s : Swarm E H I).

(** [kill_subtree]: nothing for an unknown handle; else the subtree goes and
    what follows is quiet. *)
Lemma wp_kill_subtree t s id notify :
  wf s → wp t (kill_subtree id notify) (λ _ s', wf s' ∧
    match find s id with
    | None => s' = s
    | Some target => ∃ s1, killed s target s1 ∧ quiet s1 s'
    end) s.
Proof.
  intros Hwf. pose proof Hwf as [Hw Hl]. unfold kill_subtree. do 2 wp_step.
  destruct (find s id) as [target|] eqn:Hf; [|by wp_step].
  apply wf_find in Hf as (Hid & sl & Htg & Hsl); [|done].
  pose proof (lookup_lt_Some _ _ _ Htg) as Hlt.
  wp_step. eapply wp_slot_at; [done|]. do 3 wp_step.
  rewrite clear_marks.
  eapply wp_upd_slot; [by rewrite with_marks_lookup, Htg|].
  rewrite (mark_target s target sl Htg). wp_step.
  eapply wp_mono; [by apply wp_mark_loop|]. intros u1 s1 (d & -> & Hex). wp_step.
  eapply wp_mono; [apply (wp_sweep t d s target Hw Hex)|].
  { exists sl. split; [done|]. by rewrite Hsl. }
  intros u2 s2 Hk. pose proof (killed_wf s target s2 Hwf Hk) as Hwf2.
  apply wp_when; intros _.
  - eapply wp_mono; [apply calm_emit; [by apply wf0_in_table, Hwf2|lia]|].
    intros u3 s3 Hq. split; [by apply (quiet_wf s2)|]. by exists s2.
  - split; [done|]. exists s2. split; [done|reflexivity].
Qed.

End kill_subtree.
