(* ===== verification/SwarmSafe.v ===== *)
(** * Lifecycle requests keep the table

    Hibernating and waking, ancestry, references, and the five lifecycle
    operations: none panics, each keeps the invariant of the table, and each
    does what its request may do. *)

From S2P Require Import Prelude.
From S2P Require Import Bytes.
From S2P Require Import Value.
From S2P Require Import Caps.
From S2P Require Import Config.
From S2P Require Import Node.
From S2P Require Import Engine.
From S2P Require Import Requests.
From S2P Require Import Swarm.
From S2P Require Import SwarmQuiet.
From S2P Require Import SwarmInv.
From S2P Require Import SwarmKill.

(** ** Decimal text is short *)

Lemma dec_go_len fuel n acc : str_len (dec_go fuel n acc) ≤ fuel + str_len acc.
Proof.
  revert n acc; induction fuel as [|fuel IH]; intros n acc; [done|]. cbn [dec_go].
  case_bool_decide.
  - change (str_len (String (digit (n `mod` 10)) acc)) with (S (str_len acc)). lia.
  - etrans; [apply IH|].
    change (str_len (String (digit (n `mod` 10)) acc)) with (S (str_len acc)). lia.
Qed.

Lemma size_nat_le p k : (N.pos p < 2 ^ N.of_nat k)%N → Pos.size_nat p ≤ k.
Proof.
  revert k; induction p as [p IH|p IH|]; intros k Hk; cbn [Pos.size_nat].
  - destruct k as [|k]; [cbn in Hk; lia|]. apply le_n_S, IH.
    rewrite Nat2N.inj_succ, N.pow_succ_r' in Hk. lia.
  - destruct k as [|k]; [cbn in Hk; lia|]. apply le_n_S, IH.
    rewrite Nat2N.inj_succ, N.pow_succ_r' in Hk. lia.
  - destruct k; [cbn in Hk; lia|lia].
Qed.

Lemma dec_len n : (n < 2 ^ 32)%N → str_len (dec n) ≤ 33.
Proof.
  intros Hn. unfold dec. etrans; [apply dec_go_len|].
  change (str_len "") with 0. destruct n as [|p]; cbn [N.size_nat]; [lia|].
  pose proof (size_nat_le p 32 Hn). lia.
Qed.

Section grow.
Context {E H I : Type} `{Fl : Flow I}.
Implicit Types (s : Swarm E H I) (sl : Slot I).

(** ** How the table grows *)

Record later s s' : Prop := {
  la_len : length (slots s) ≤ length (slots s');
  la_max : max_instances s' = max_instances s;
  la_rate : spawn_rate s' = spawn_rate s;
  la_next : (next_id s ≤ next_id s')%N;
  la_identity : host_identity s' = host_identity s
}.

#[global] Instance later_preorder : PreOrder later.
Proof. split; [by intros s; split|]. intros s1 s2 s3 [] []. split; try congruence; lia. Qed.

Lemma quiet_later s s' : quiet s s' → later s s'.
Proof.
  intros Hq. pose proof (quiet_length s s' Hq). destruct Hq. split; try done; [lia|].
  by rewrite quiet_next.
Qed.

Lemma killed_later s target s' : killed s target s' → later s s'.
Proof.
  intros Hk. pose proof (killed_length s target s' Hk). destruct Hk as [[] _ _].
  split; try done; [lia|]. by rewrite frame_next.
Qed.

Lemma placed_later s i s' x : placed s i s' x → later s s'.
Proof. intros []. split; try done. rewrite pd_next. lia. Qed.

(** Changing a live slot without touching what it holds. *)
Lemma wf_update s s' i sl sl' :
  wf s → frame s s' → index s' = index s → slots s !! i = Some sl →
  slots s' = <[i := sl']> (slots s) → same_grant sl sl' → s_parent sl' = s_parent sl →
  (s_id sl ≠ 0%N → slot_ok s sl') → clean sl' → wf s' ∧ later s s'.
Proof.
  intros [Hw Hl] Hf Hix Hi Hs' Hg Hp Hok Hcl. pose proof Hg as []. split; [split|].
  - eapply (wf0_update s s' i sl); try done. intros Hz _. apply Hok. congruence.
  - intros j x. rewrite Hs', list_lookup_insert_Some. intros [(<- & <- & _)|[_ Hj]].
    + rewrite grant_id, grant_alive. by apply (Hl i).
    + by apply (Hl j).
  - destruct Hf. split; try done; [by rewrite Hs', length_insert|by rewrite frame_next].
Qed.

(** The same place in the tree, whatever else changed. *)
Lemma slot_ok_place s sl sl' :
  slot_ok s sl → same_grant sl sl' → s_parent sl' = s_parent sl →
  (is_Some (s_inst sl') ∨ is_Some (s_snap sl')) → length (s_pending sl') ≤ MAX_PENDING →
  slot_ok s sl'.
Proof.
  intros [_ _ Hv Hpl] [] Hp Hst Hpe. split; [done|done|by rewrite grant_path|].
  destruct Hpl as [(Hr & Hpa & Hc)|(j & p & Hj & Hpid & Hpz & Hpal & Hlt & [])].
  - left. split_and!; [congruence|congruence|by rewrite grant_caps].
  - right. exists j, p. rewrite Hp, grant_id. split_and!; [done..|].
    split; by rewrite ?grant_path, ?grant_caps, ?grant_budget, ?grant_numeric, ?grant_stdlib, ?grant_debug.
Qed.

End grow.

(** For a goal that starts with [wf s'], where [s'] is [s] with one slot
    changed: what [wf_update] still asks, then its answers. *)
Ltac update_goal H1 H2 :=
  match goal with
  | |- wf ?x ∧ later ?s _ ∧ _ =>
      let Hup := fresh in
      assert (Hup : wf x ∧ later s x);
        [eapply (wf_update s x); [done|by split|done|eassumption|..]|destruct Hup as [H1 H2]]
  end.

Section safe.
Context {E H I : Type} `{Fl : Flow I, !EngineOps E I, !SwarmHost H I, !Codec}.
Context (t : bool).
Implicit Types (s : Swarm E H I) (sl : Slot I).

(** ** Hibernate and wake *)

(** No instance gained, none moved: what is still resident has flowed. *)
Definition dozed (a b : Slot I) : Prop :=
  s_id b = s_id a ∧ s_deferred b = s_deferred a ∧
  ∀ ib, s_inst b = Some ib → ∃ ia, s_inst a = Some ia ∧ flow ia ib.

#[global] Instance dozed_preorder : PreOrder dozed.
Proof.
  split.
  - intros a. split_and!; [done..|]. intros ib Hb. exists ib. split; [done|reflexivity].
  - intros a b c (? & ? & Hab) (? & ? & Hbc). split_and!; [congruence..|].
    intros ic Hc. destruct (Hbc ic Hc) as (ib & Hb & ?). destruct (Hab ib Hb) as (ia & ? & ?).
    exists ia. split; [done|]. by etrans.
Qed.

Definition steady s s' : Prop := Forall2 dozed (slots s) (slots s').

#[global] Instance steady_preorder : PreOrder steady.
Proof.
  split; [intros s; unfold steady; reflexivity|].
  intros s1 s2 s3. unfold steady. by intros ? ?; etrans.
Qed.

Lemma quiet_steady s s' : quiet s s' → steady s s'.
Proof.
  intros [Hs]. unfold steady. eapply Forall2_impl; [exact Hs|]. intros a b Hab.
  split_and!; [apply Hab..|]. intros ib Hb.
  assert (is_Some (s_inst a)) as [ia Ha] by (apply Hab; by eexists).
  exists ia. split; [done|]. by apply (same_flow a b Hab).
Qed.

Lemma steady_insert s s' i sl sl' :
  slots s !! i = Some sl → slots s' = <[i := sl']> (slots s) → dozed sl sl' → steady s s'.
Proof.
  intros Hi Hs Hd. unfold steady. rewrite Hs. apply Forall2_same_length_lookup_2.
  { by rewrite length_insert. }
  intros j a b Ha [(-> & <- & _)|[_ Hb]]%list_lookup_insert_Some; simplify_eq; [done|reflexivity].
Qed.

Lemma wp_hibernate s id :
  wf s → wp t (hibernate id) (λ r s', wf s' ∧ later s s' ∧ steady s s' ∧
    (r = Ok tt → ∃ sl, slot_of s' id = Some sl ∧ s_inst sl = None)) s.
Proof.
  intros Hwf. pose proof Hwf as [Hw Hl]. unfold hibernate. do 2 wp_step.
  destruct (find s id) as [i|] eqn:Hf; [|wp_step; by split_and!; [..|reflexivity|]].
  pose proof Hf as (Hid & sl & Hsl & Hslid)%wf_find; [|done].
  wp_step. eapply wp_slot_at; [done|].
  destruct (negb (s_alive sl)) eqn:Hal; [wp_step; by split_and!; [..|reflexivity|]|].
  destruct (negb (sw_allow_hibernation s)); [wp_step; by split_and!; [..|reflexivity|]|].
  case_bool_decide as Hinst.
  { wp_step. split_and!; [done|reflexivity|reflexivity|]. intros _. exists sl. split; [|done].
    apply wf_slot_of; [done|]. eauto. }
  destruct (s_inst sl) as [inst|] eqn:Hi; [|done].
  wp_step. eapply wp_inst_call; [done|]. rewrite Hi.
  assert (Hlt : i < length (slots s)) by by eapply lookup_lt_Some.
  assert (Hok : slot_ok s sl).
  { apply (wf_slot s Hw i); [done|congruence|]. by apply negb_false_iff. }
  pose proof (Forall_lookup_1 _ _ _ _ (wf_clean s Hw) Hsl) as Hcl.
  wp_step. eapply wp_expect; [done|].
  destruct (i_snapshot (host_identity s) inst).1 as [snap|e]; wp_step.
  - eapply wp_upd_slot; [by apply list_lookup_insert_eq|].
    wp_step. eapply wp_upd_slot; [apply list_lookup_insert_eq; cbn; by rewrite length_insert|].
    unfold host_do. wp_steps.
    update_goal Hwf' Hla.
    { cbn [slots set_slots set_host]. by rewrite !list_insert_insert_eq. }
    { by split. } { done. } { intros _. apply (slot_ok_place s sl); [done|by split|done|right; by eexists|apply Hok]. }
    { by intros ? ? ? [=]. }
    split_and!; [exact Hwf'|exact Hla| |].
    { eapply (steady_insert s _ i); [exact Hsl|cbn [slots set_slots set_host]|].
      - by rewrite !list_insert_insert_eq.
      - by split. }
    intros _.
    eexists. split.
    { apply wf_slot_of; [apply Hwf'|]. split; [done|]. exists i. split.
      - cbn [slots set_slots set_host]. rewrite !list_insert_insert_eq.
        by apply list_lookup_insert_eq.
      - exact Hslid. }
    done.
  - update_goal Hwf' Hla.
    { reflexivity. } { by split. } { done. }
    { intros _. apply (slot_ok_place s sl); [done|by split|done|left; by eexists|apply Hok]. }
    { intros x n q [= <-] Hq. eapply flow_named; [apply flow_snapshot|]. by eapply Hcl. }
    split_and!; [exact Hwf'|exact Hla| |done].
    eapply (steady_insert s _ i); [exact Hsl|reflexivity|]. split_and!; [done..|].
    intros ib [= <-]. exists inst. split; [done|]. apply flow_snapshot.
Qed.

Lemma wp_wake s id :
  wf s → wp t (wake id) (λ r s', wf s' ∧ later s s' ∧
    (r = Ok tt → ∃ sl, slot_of s' id = Some sl ∧ is_Some (s_inst sl))) s.
Proof.
  intros Hwf. pose proof Hwf as [Hw Hl]. unfold wake. do 2 wp_step.
  destruct (find s id) as [i|] eqn:Hf; [|by wp_step].
  pose proof Hf as (Hid & sl & Hsl & Hslid)%wf_find; [|done].
  wp_step. eapply wp_slot_at; [done|].
  destruct (negb (s_alive sl)) eqn:Hal; [by wp_step|].
  assert (Hlt : i < length (slots s)) by by eapply lookup_lt_Some.
  assert (Hok : slot_ok s sl).
  { apply (wf_slot s Hw i); [done|congruence|]. by apply negb_false_iff. }
  case_bool_decide as Hinst.
  { wp_step. split_and!; [done..|]. intros _. exists sl. split; [|done].
    apply wf_slot_of; [done|]. eauto. }
  destruct (s_snap sl) as [snap|] eqn:Hsnap; [|by wp_step].
  wp_step. eapply wp_upd_slot; [done|].
  destruct (e_restore _ (engine s)) as [[inst|e] eng]; do 3 wp_step.
  - eapply wp_upd_slot; [by apply list_lookup_insert_eq|].
    wp_step. eapply wp_upd_slot; [apply list_lookup_insert_eq; cbn; by rewrite length_insert|].
    wp_step. eapply wp_upd_slot; [apply list_lookup_insert_eq; cbn; by rewrite !length_insert|].
    unfold host_do. wp_steps. update_goal Hwf' Hla.
    { cbn [slots set_slots set_host set_engine]. by rewrite !list_insert_insert_eq. }
    { by split. } { done. }
    { intros _. apply (slot_ok_place s sl); [done|by split|done|left; by eexists|cbn; lia]. }
    { intros x n q _. cbn. by intros ?%elem_of_nil. }
    split_and!; [exact Hwf'|exact Hla|]. intros _. eexists. split.
    { apply wf_slot_of; [apply Hwf'|]. split; [done|]. exists i. split.
      - cbn [slots set_slots set_host set_engine]. rewrite !list_insert_insert_eq.
        by apply list_lookup_insert_eq.
      - exact Hslid. }
    by eexists.
  - eapply wp_upd_slot; [by apply list_lookup_insert_eq|]. wp_step. update_goal Hwf' Hla.
    { cbn [slots set_slots set_engine]. by rewrite !list_insert_insert_eq. }
    { by split. } { done. }
    { intros _. apply (slot_ok_place s sl); [done|by split|done|right; by eexists|apply Hok]. }
    { intros x n q Hx. cbn in Hx. destruct Hinst. by eexists. }
    split_and!; [exact Hwf'|exact Hla|done].
Qed.

(** ** Ancestry *)

(** [a] is [w] or above it. *)
Inductive ancestor s (a : N) : N → Prop :=
  | anc_here : a ≠ 0%N → ancestor s a a
  | anc_up w sl : w ≠ 0%N → slot_of s w = Some sl → ancestor s a (s_parent sl) → ancestor s a w.

(** Used slots up to a handle: what the walk has left. *)
Definition rank s (w : N) : nat :=
  length (filter (λ sl, s_id sl ≠ 0%N ∧ (s_id sl ≤ w)%N) (slots s)).

Lemma rank_lt s i sl (w : N) :
  slots s !! i = Some sl → s_id sl ≠ 0%N → (w < s_id sl)%N → rank s w < rank s (s_id sl).
Proof.
  unfold rank. generalize (slots s) as l. intros l Hi Hz Hlt. revert i Hi.
  assert (Hle : ∀ l : list (Slot I), length (filter (λ x, s_id x ≠ 0%N ∧ (s_id x ≤ w)%N) l) ≤
    length (filter (λ x, s_id x ≠ 0%N ∧ (s_id x ≤ s_id sl)%N) l)).
  { intros k. induction k as [|x k IH]; [done|]. rewrite !filter_cons.
    repeat case_decide; cbn [length]; lia. }
  induction l as [|x l IH]; intros i Hi; [done|]. rewrite !filter_cons.
  destruct i as [|i]; cbn in Hi.
  - simplify_eq. specialize (Hle l). rewrite decide_False, decide_True by lia. cbn [length]. lia.
  - specialize (IH i Hi). repeat case_decide; cbn [length]; lia.
Qed.

Lemma wp_walk_up s a : ∀ fuel w,
  wf s → rank s w < fuel →
  wp t (walk_up fuel a w) (λ b s', s' = s ∧ (b = true ↔ ancestor s a w)) s.
Proof.
  induction fuel as [|fuel IH]; intros w Hwf Hr; [lia|]. pose proof Hwf as [Hw Hl].
  cbn [walk_up]. case_bool_decide as Hw0.
  { wp_step. split; [done|]. split; [done|]. by destruct 1. }
  case_bool_decide as Hwa.
  { wp_step. split; [done|]. split; [|done]. intros _. subst. by constructor. }
  do 2 wp_step. destruct (find s w) as [i|] eqn:Hf.
  - pose proof Hf as (Hid & sl & Hsl & Hslid)%wf_find; [|done].
    do 2 wp_step. eapply wp_slot_at; [done|]. wp_step.
    assert (Hlt : s_parent sl = 0%N ∨ (s_parent sl < s_id sl)%N).
    { assert (Hz : s_id sl ≠ 0%N) by congruence.
      destruct (wf_slot s Hw i sl Hsl Hz (Hl i sl Hsl Hz)) as [_ _ _ [(?&_)|(?&?&?&?&?&?&?&_)]];
        [by left|by right]. }
    assert (Hup : ancestor s a w ↔ ancestor s a (s_parent sl)).
    { assert (Hso : slot_of s w = Some sl) by (apply wf_slot_of; [done|eauto]).
      split; [|by apply anc_up]. destruct 1 as [|? sl' ? Hsl']; [done|]. by simplify_eq. }
    eapply wp_mono; [apply IH; [done|]|].
    + assert (rank s (s_parent sl) < rank s (s_id sl)); [|subst; lia].
      apply (rank_lt s i); [done|congruence|]. destruct Hlt as [->|]; lia.
    + intros b s' [-> Hb]. by rewrite Hup.
  - do 2 wp_step. unfold walk_up. destruct fuel; cbn; (split; [done|]); (split; [done|]);
      (destruct 1 as [|? sl' ? Hsl']; [done|]); unfold slot_of in Hsl'; by rewrite Hf in Hsl'.
Qed.

Lemma wp_is_ancestor s a i sl :
  wf s → slots s !! i = Some sl →
  wp t (is_ancestor a i) (λ b s', s' = s ∧ (b = true ↔ ancestor s a (s_parent sl))) s.
Proof.
  intros Hwf Hsl. unfold is_ancestor. wp_step. eapply wp_slot_at; [done|]. do 2 wp_step.
  apply wp_walk_up; [done|]. unfold rank.
  pose proof (length_filter (λ x, s_id x ≠ 0%N ∧ (s_id x ≤ s_parent sl)%N) (slots s)). lia.
Qed.

(** ** References *)

Context `{!RefWire, !RefWireLaws}.

(** The reference [Swarm::reference] mints. *)
Definition minted s (id : N) : EndpointRef :=
  EndpointRef.local (dec id +:+ "/" +:+ INBOX) (host_identity s).

Lemma minted_fits s id : in_table s → (id < 2 ^ 32)%N → ref_fits (minted s id).
Proof.
  intros Ht Hid. unfold ref_fits, minted, EndpointRef.local. cbn [scheme address identity].
  split; [cbn; lia|]. split; [|apply Ht]. rewrite !str_len_app. pose proof (dec_len id Hid).
  change (str_len "/") with 1. change (str_len INBOX) with 5. lia.
Qed.

Lemma wp_reference s id :
  in_table s → (id < 2 ^ 32)%N →
  wp t (reference id) (λ v s', s' = s ∧ EndpointRef.from_value v = Ok (minted s id)) s.
Proof.
  intros Ht Hid. destruct (ref_value_roundtrip (minted s id)) as (v & Hto & Hfrom).
  { by apply minted_fits. }
  unfold reference. do 2 wp_step. eapply wp_expect; [exact Hto|]. done.
Qed.

(** ** The lifecycle operations *)

Lemma field_id_spec request key id :
  field_id request key = Some id → id ≠ 0%N ∧ (id < 2 ^ 32)%N.
Proof.
  unfold field_id. destruct (field_int request key) as [v|]; [|done]. cbn.
  case_bool_decide; [done|]. intros [= <-]. lia.
Qed.

(** A quiet step from a good table. *)
Lemma wp_quiet {A} n (m : M (Swarm E H I) A) s :
  calm t n m → wf s → n ≤ length (slots s) → wp t m (λ _ s', wf s' ∧ later s s' ∧ quiet s s') s.
Proof.
  intros Hm Hwf Hn. eapply wp_mono; [apply Hm; [apply wf0_in_table, Hwf|done]|].
  intros a s' Hq. cbv beta in Hq. split_and!; [by apply (quiet_wf s)|by apply quiet_later|done].
Qed.

(** What a kill request may do: nothing to the table, or the end of a
    subtree strictly below the requester. *)
Inductive kill_result s (me : N) s' : Prop :=
  | kill_refused : quiet s s' → kill_result s me s'
  | kill_done ti tsl s1 :
      slots s !! ti = Some tsl → ancestor s me (s_parent tsl) →
      killed s ti s1 → quiet s1 s' → kill_result s me s'.

Lemma wp_do_kill s i sl request :
  wf s → slots s !! i = Some sl →
  wp t (do_kill i request) (λ _ s', wf s' ∧ later s s' ∧ kill_result s (s_id sl) s') s.
Proof.
  intros Hwf Hsl. pose proof Hwf as [Hw _]. unfold do_kill.
  assert (Hem : ∀ what about d, wp t (emit (s_id sl) what about d)
    (λ _ s', wf s' ∧ later s s' ∧ kill_result s (s_id sl) s') s).
  { intros. eapply wp_mono; [apply (wp_quiet 0); [apply calm_emit|done|lia]|].
    intros u s' (? & ? & ?). split_and!; [done..|by left]. }
  wp_step. eapply wp_slot_at; [done|]. do 2 wp_step.
  destruct (field_id request "id") as [target|]; [|apply Hem].
  destruct (find s target) as [ti|] eqn:Hf; [|apply Hem].
  pose proof Hf as (_ & tsl & Htsl & _)%wf_find; [|done].
  wp_step. eapply wp_mono; [by apply wp_is_ancestor|]. intros b s' [-> Hb].
  destruct b; [|apply Hem].
  eapply wp_mono; [by apply wp_kill_subtree|]. intros u s' [Hwf' Hk]. rewrite Hf in Hk.
  destruct Hk as (s1 & Hk & Hq). split_and!; [done| |].
  - etrans; [by eapply killed_later|by apply quiet_later].
  - eapply kill_done; [done|by apply Hb|done..].
Qed.

Lemma wp_do_query s i sl request :
  wf s → slots s !! i = Some sl →
  wp t (do_query i request) (λ _ s', wf s' ∧ later s s' ∧ quiet s s') s.
Proof.
  intros Hwf Hsl. pose proof Hwf as [Hw _]. unfold do_query.
  assert (Hem : ∀ what about d, wp t (emit (s_id sl) what about d)
    (λ _ s', wf s' ∧ later s s' ∧ quiet s s') s).
  { intros. apply (wp_quiet 0); [apply calm_emit|done|lia]. }
  wp_step. eapply wp_slot_at; [done|]. do 2 wp_step.
  destruct (field_id request "id") as [target|]; [|apply Hem].
  destruct (find s target) as [ti|] eqn:Hf; [|apply Hem].
  destruct (find_in_table s _ ti (wf0_in_table s Hw) Hf) as [tsl Htsl].
  wp_step. eapply wp_slot_at; [done|]. apply Hem.
Qed.

Lemma wp_do_ref s i sl request :
  wf s → slots s !! i = Some sl →
  wp t (do_ref i request) (λ _ s', wf s' ∧ later s s' ∧ quiet s s') s.
Proof.
  intros Hwf Hsl. pose proof Hwf as [Hw _]. unfold do_ref.
  assert (Hem : ∀ what about d, wp t (emit (s_id sl) what about d)
    (λ _ s', wf s' ∧ later s s' ∧ quiet s s') s).
  { intros. apply (wp_quiet 0); [apply calm_emit|done|lia]. }
  assert (Hgive : ∀ target, (target < 2 ^ 32)%N →
    wp t (reference_ ← reference target; emit_extra (s_id sl) "ref" target None [("ref", reference_)])
      (λ _ s', wf s' ∧ later s s' ∧ quiet s s') s).
  { intros target Hlt. wp_step.
    eapply wp_mono; [apply wp_reference; [by apply wf0_in_table|done]|]. intros v s' [-> _].
    apply (wp_quiet 0); [apply calm_emit_extra|done|lia]. }
  assert (Hme : (s_id sl < 2 ^ 32)%N).
  { pose proof (wf_ids s Hw i sl Hsl). pose proof (wf_next s Hw). lia. }
  wp_step. eapply wp_slot_at; [done|]. do 2 wp_step.
  destruct (field request "id"); [|by apply Hgive].
  destruct (field_id request "id") as [target|] eqn:Hid; [|apply Hem].
  apply field_id_spec in Hid as [_ Hlt]. case_bool_decide; [by apply Hgive|].
  destruct (find s target) as [ti|] eqn:Hf; [|apply Hem].
  destruct (find_in_table s _ ti (wf0_in_table s Hw) Hf) as [tsl Htsl].
  wp_step. eapply wp_mono; [by apply wp_is_ancestor|]. intros b s' [-> Hb].
  destruct b; [by apply Hgive|apply Hem].
Qed.

Lemma wp_hibernate_subject s me up who request :
  wf s →
  wp t (hibernate_subject me up who request) (λ _ s', wf s' ∧ later s s' ∧ steady s s') s.
Proof.
  intros Hwf. unfold hibernate_subject. wp_step.
  apply (wp_mono t _ (λ _ s', wf s' ∧ later s s' ∧ steady s s')).
  { apply wp_when; intros _; [|by split_and!; [|reflexivity..]]. do 2 wp_step.
    destruct (find s who) as [k|] eqn:Hf; [|wp_step; by split_and!; [|reflexivity..]].
    destruct (find_in_table s _ k (wf0_in_table s (proj1 Hwf)) Hf) as [sl Hsl].
    eapply wp_upd_slot; [done|].
    assert (Hq : quiet s (set_slots (<[k:=set_wake_on_message true sl]> (slots s)) s)).
    { eapply quiet_insert, same_slot_wake. done. }
    split_and!; [by apply (quiet_wf s)|by apply quiet_later|by apply quiet_steady]. }
  intros u s1 (Hwf1 & Hla1 & Hst1). wp_step.
  eapply wp_mono; [by apply wp_hibernate|]. intros r s2 (Hwf2 & Hla2 & Hst2 & _).
  assert (Hem : ∀ to_ what about d, wp t (emit to_ what about d)
    (λ _ s', wf s' ∧ later s s' ∧ steady s s') s2).
  { intros. eapply wp_mono; [apply (wp_quiet 0); [apply calm_emit|done|lia]|].
    intros u' s' (? & Hl' & Hq). split_and!; [done|etrans; [exact Hla1|by etrans]|].
    etrans; [exact Hst1|]. etrans; [exact Hst2|]. by apply quiet_steady. }
  destruct r; [|apply Hem]. case_bool_decide; [apply Hem|].
  apply wp_when; intros _; [apply Hem|]. split_and!; [done|by etrans|by etrans].
Qed.

Lemma wp_do_hibernate s i sl request :
  wf s → slots s !! i = Some sl →
  wp t (do_hibernate i request) (λ _ s', wf s' ∧ later s s' ∧ steady s s') s.
Proof.
  intros Hwf Hsl. pose proof Hwf as [Hw _]. unfold do_hibernate.
  assert (Hem : ∀ what about d, wp t (emit (s_id sl) what about d)
    (λ _ s', wf s' ∧ later s s' ∧ steady s s') s).
  { intros. eapply wp_mono; [apply (wp_quiet 0); [apply calm_emit|done|lia]|].
    intros u s' (? & ? & ?). split_and!; [done..|by apply quiet_steady]. }
  wp_step. eapply wp_slot_at; [done|]. do 2 wp_step.
  destruct (field_id request "id") as [target|]; [|by apply wp_hibernate_subject].
  case_bool_decide; [by apply wp_hibernate_subject|].
  destruct (find s target) as [ti|] eqn:Hf; [|apply Hem].
  destruct (find_in_table s _ ti (wf0_in_table s Hw) Hf) as [tsl Htsl].
  wp_step. eapply wp_mono; [by apply wp_is_ancestor|]. intros b s' [-> Hb].
  destruct b; [by apply wp_hibernate_subject|apply Hem].
Qed.

(** *** Spawning *)

(** What a spawn request may do: nothing to the table; a handle used up on a
    program that did not load; or one new live child of the requester. *)
Inductive spawn_result s psl s' : Prop :=
  | spawn_refused : quiet s s' → spawn_result s psl s'
  | spawn_failed i s1 : placed s i s1 Slot.free → quiet s1 s' → spawn_result s psl s'
  | spawn_done i x s1 :
      placed s i s1 x → s_id x = next_id s → s_alive x = true → s_parent x = s_id psl →
      child_of psl x → (spawns_this_step s < spawn_rate s)%N →
      quiet (set_spawns_this_step (spawns_this_step s1 + 1)%N s1) s' → spawn_result s psl s'.

Lemma derive_path_child parent requested id path :
  derive_path parent requested id = Ok path → ∃ name, NodePath.child parent name = Ok path.
Proof. destruct requested; cbn; eauto. Qed.

(** The configured slot of an accepted request. *)
Lemma spawn_placeable s pi psl request path caps :
  wf s → slots s !! pi = Some psl → s_id psl ≠ 0%N →
  (∃ name, NodePath.child (s_path psl) name = Ok path) →
  (∃ names, CapSet.attenuate_held_by (s_caps psl) (Some path) (s_path psl)
    ((grant <$> names) ++ filter (λ g, is_deny g = true) (grants (s_caps psl))) = Ok caps) →
  Budget.fits_within (field_budget request) (s_budget psl) = true →
  Numeric.fits_within (field_numeric request) (s_numeric psl) = true →
  let x := configure (s_id psl) path caps
    (Budget.resolved_against (field_budget request) (s_budget psl))
    (Numeric.resolved_against (field_numeric request) (s_numeric psl))
    (field_bool request "wake_on_message")
    (s_unsafe_stdlib psl && negb (field_bool request "sealed"))
    (s_unsafe_debug psl && negb (field_bool request "sealed"))
    (set_id (next_id s) Slot.free) in
  placeable s x ∧ child_of psl x.
Proof.
  intros [Hw Hl] Hp Hz Hpath Hcaps Hb%budget_fits_iff Hn%numeric_fits_iff x.
  assert (Hc : child_of psl x).
  { split; cbn; try done; by intros [? _]%andb_true_iff. }
  split; [|done].
  destruct (wf_slot s Hw pi psl Hp Hz (Hl pi psl Hp Hz)) as [_ _ Hv _].
  split; try done.
  - cbn. destruct Hpath as [name Hn']. by eapply NodeFacts.child_valid.
  - right. exists pi, psl. split_and!; [done..|by eapply Hl| |done]. cbn. by eapply wf_ids.
Qed.

Lemma slot_ok_ext s s' sl : slots s' = slots s → slot_ok s sl → slot_ok s' sl.
Proof. intros Hs []. split; [done..|]. unfold parented in *. by rewrite Hs. Qed.

(** The end of a successful spawn: the count, the reference, the event. *)
Lemma wp_spawned s s1 i x :
  wf s1 → placed s i s1 x → (spawns_this_step s < spawn_rate s)%N → (spawn_rate s < 2 ^ 32)%N →
  s_id x = next_id s → (next_id s < 2 ^ 32)%N → ∀ parent_id,
  wp t (modify (λ s, set_spawns_this_step ((spawns_this_step s + 1) `mod` 2 ^ 32)%N s);;
        reference_ ← reference (s_id x);
        emit_extra parent_id "spawned" (s_id x) None [("ref", reference_)])
    (λ _ s', wf s' ∧ later s s' ∧
             quiet (set_spawns_this_step (spawns_this_step s1 + 1)%N s1) s') s1.
Proof.
  intros Hwf1 Hp Hlt Hrate Hid Hnext parent_id. do 2 wp_step.
  pose proof (pd_spawns _ _ _ _ Hp) as Hs1. pose proof (pd_rate _ _ _ _ Hp) as Hr1.
  rewrite N.mod_small by lia. set (s2 := set_spawns_this_step _ s1).
  assert (Hwf2 : wf s2).
  { destruct Hwf1 as [[] Hl1]. split; [|done]. split; try done; [cbn; lia|].
    intros j y Hj Hy Hal. apply (slot_ok_ext s1); [done|by eapply wf_slot]. }
  wp_step. eapply wp_mono; [apply wp_reference; [by apply wf0_in_table, Hwf2|by rewrite Hid]|].
  intros v s3 [-> _].
  eapply wp_mono; [apply (wp_quiet 0); [apply calm_emit_extra|done|lia]|].
  intros u s3 (Hwf3 & Hla3 & Hq). split_and!; [done| |done].
  etrans; [by eapply placed_later|]. etrans; [|exact Hla3]. by split.
Qed.

Lemma wp_do_spawn s pi psl request :
  wf s → slots s !! pi = Some psl → s_id psl ≠ 0%N →
  wp t (do_spawn pi request) (λ _ s', wf s' ∧ later s s' ∧ spawn_result s psl s') s.
Proof.
  intros Hwf Hpsl Hz. pose proof Hwf as [Hw Hl]. unfold do_spawn.
  assert (Hem : ∀ what about d, wp t (emit (s_id psl) what about d)
    (λ _ s', wf s' ∧ later s s' ∧ spawn_result s psl s') s).
  { intros. eapply wp_mono; [apply (wp_quiet 0); [apply calm_emit|done|lia]|].
    intros u s' (? & ? & ?). split_and!; [done..|by constructor 1]. }
  wp_step. eapply wp_slot_at; [done|]. do 2 wp_step. case_bool_decide as Hrate; [apply Hem|].
  destruct (field_bytes request "code") as [code|]; [|apply Hem].
  destruct (field_caps request) as [names|]; [|apply Hem].
  destruct (derive_path _ _ _) as [path|] eqn:Hpath; [|apply Hem].
  apply derive_path_child in Hpath.
  destruct (CapSet.attenuate_held_by _ _ _ _) as [caps|[]] eqn:Hcaps; [|apply Hem..].
  destruct (Budget.fits_within _ _) eqn:Hb; [|apply Hem].
  destruct (Numeric.fits_within _ _) eqn:Hn; [|apply Hem]. cbn [negb].
  wp_step. eapply wp_mono; [by apply wp_claim|]. intros [ci|] s1 Hc; [|destruct Hc as [-> _]; apply Hem].
  destruct (claimed_lookup s ci s1 pi psl Hc Hpsl Hz) as [Hne Hpsl1].
  wp_step. eapply wp_slot_at; [done|].
  destruct (spawn_placeable s pi psl request path caps Hwf Hpsl Hz Hpath ltac:(eauto) Hb Hn)
    as [Hpl Hch].
  set (f := configure _ _ _ _ _ _ _ _) in *. set (x := f _) in *.
  pose proof (wp_place t s s1 ci f code Hwf Hc (λ _, eq_refl) Hpl) as Hplace. fold x in Hplace.
  apply wp_bind_assoc. eapply wp_mono; [exact Hplace|].
  intros [[]|why] s2; cbv beta iota.
  - intros [Hwf2 [inst Hp]].
    wp_step. eapply wp_slot_at; [apply Hp|]. cbn [s_id started set_inst set_handles set_alive x f configure set_id].
    eapply wp_mono; [apply (wp_spawned s s2 ci (started x inst)); try done|].
    + lia.
    + apply Hw.
    + apply Hw.
    + intros u s3 (? & ? & Hq). split_and!; [done..|]. eapply spawn_done; [exact Hp|done..| |lia|done].
      destruct Hch. by split.
  - intros [Hwf2 Hp]. wp_step. eapply wp_slot_at; [apply Hp|]. wp_step.
    eapply wp_mono; [apply (wp_unplace t s ci s2 x); try done|].
    { cbn. pose proof (wf_next s Hw). lia. }
    intros u s3 [Hwf3 Hp3]. eapply wp_mono; [apply (wp_quiet 0); [apply calm_emit|done|lia]|].
    intros u' s4 (Hwf4 & Hla4 & Hq4). split_and!; [done| |by eapply spawn_failed].
    etrans; [by eapply placed_later|done].
Qed.

End safe.
