(* ===== verification/SwarmStep.v ===== *)
(** * Draining and routing keep the table

    The request loop of one instance and the routing of what instances push,
    for any flow: the invariant is kept, nothing panics, and where a measure
    of the queues is given the loops end within the fuel. *)

From S2P Require Import Prelude.
From S2P Require Import Bytes.
From S2P Require Import Value.
From S2P Require Import Caps.
From S2P Require Import Config.
From S2P Require Import Node.
From S2P Require Import Engine.
From S2P Require Import Requests.
From S2P Require Import Swarm.
From S2P Require Import SwarmQuiet.
From S2P Require Import SwarmInv.
From S2P Require Import SwarmKill.
From S2P Require Import SwarmSafe.

(** ** Draining *)

Section drain.
Context {E H I : Type} `{Fl : Flow I, !EngineOps E I, !SwarmHost H I, !Codec, !RefWire, !RefWireLaws}.
Context (t : bool).
Implicit Types (s : Swarm E H I) (sl : Slot I).

(** A backlog of the lifecycle queue that nothing but a pop changes for the
    worse, and that a pop which answers makes smaller. *)
Context (load : I → nat).
Hypothesis load_flow : t = true → ∀ a b, flow a b → load b ≤ load a.
Hypothesis load_pop : t = true → ∀ inst q msg,
  (i_queue "system/lifecycle" inst).1 = Some q →
  (i_pop q (i_queue "system/lifecycle" inst).2).1 = Ok (Some msg) →
  load (i_pop q (i_queue "system/lifecycle" inst).2).2 < load inst.

(** The slot at [i] across one request: gone, reused, cached, or flowed. *)
Definition after s s' (i : nat) : Prop :=
  ∀ sl sl', slots s !! i = Some sl → slots s' !! i = Some sl' → s_id sl ≠ 0%N →
            s_id sl' = s_id sl → dozed sl sl'.

Lemma steady_after s s' i : steady s s' → after s s' i.
Proof. intros Hs sl sl' Hi Hi' _ _. by eapply Forall2_lookup_lr. Qed.

Lemma quiet_after s s' i : quiet s s' → after s s' i.
Proof. intros Hq. by apply steady_after, quiet_steady. Qed.

Lemma kill_after s me s' i : kill_result s me s' → after s s' i.
Proof.
  intros [Hq|ti tsl s1 _ _ Hk Hq]; [by apply quiet_after|].
  intros sl sl' Hi Hi' Hz Hid.
  destruct (quiet_lookup_rev s1 s' i sl' Hq Hi') as (x & Hx & Hs).
  destruct (killed_lookup s ti s1 i x Hk Hx) as [[-> _]|(_ & y & Hy & ->)].
  - exfalso. rewrite (same_id _ _ Hs) in Hid. cbn in Hid. congruence.
  - simplify_eq. etrans; [|split_and!; [apply Hs..|]].
    + split_and!; [done..|]. intros ib Hb. exists ib. split; [done|reflexivity].
    + intros ib Hb. assert (is_Some (s_inst (set_doomed false sl))) as [ia Ha].
      { apply Hs. by eexists. }
      exists ia. split; [done|]. by apply (same_flow _ _ Hs).
Qed.

Lemma spawn_after s psl s' i : spawn_result s psl s' → after s s' i.
Proof.
  intros [Hq|ci s1 Hp Hq|ci x s1 Hp _ _ _ _ _ Hq]; [by apply quiet_after|..];
    intros sl sl' Hi Hi' Hz Hid; destruct (pd_others _ _ _ _ Hp i sl Hi Hz) as [_ Hi1];
    by apply (quiet_after _ _ i Hq sl sl').
Qed.

Lemma wp_dispatch s i sl op request :
  wf s → slots s !! i = Some sl → s_id sl ≠ 0%N →
  wp t (dispatch i (s_id sl) op request) (λ _ s', wf s' ∧ later s s' ∧ after s s' i) s.
Proof.
  intros Hwf Hsl Hz. unfold dispatch. repeat case_bool_decide.
  - eapply wp_mono; [by apply (wp_do_spawn t s i sl)|]. intros u s' (? & ? & ?).
    split_and!; [done..|]. by eapply spawn_after.
  - eapply wp_mono; [by apply (wp_do_kill t s i sl)|]. intros u s' (? & ? & ?).
    split_and!; [done..|]. by eapply kill_after.
  - eapply wp_mono; [by apply (wp_do_query t s i sl)|]. intros u s' (? & ? & ?).
    split_and!; [done..|]. by apply quiet_after.
  - eapply wp_mono; [by apply (wp_do_hibernate t s i sl)|]. intros u s' (? & ? & ?).
    split_and!; [done..|]. by apply steady_after.
  - eapply wp_mono; [by apply (wp_do_ref t s i sl)|]. intros u s' (? & ? & ?).
    split_and!; [done..|]. by apply quiet_after.
  - eapply wp_mono; [apply (wp_quiet t 0); [apply calm_emit|done|lia]|]. intros u s' (? & ? & ?).
    split_and!; [done..|]. by apply quiet_after.
Qed.

(** What is left to read for a slot. *)
Definition to_read sl : nat :=
  from_option load 0 (s_inst sl) + (if s_deferred sl is Some _ then 1 else 0).

Definition to_read_at (i : nat) s : nat := from_option to_read 0 (slots s !! i).

(** Taking a request leaves strictly less to read. *)
Lemma wp_next_request s i sl inst :
  wf s → slots s !! i = Some sl → s_id sl ≠ 0%N → s_inst sl = Some inst →
  wp t (next_request i) (λ r s', wf s' ∧ later s s' ∧
    ∃ sl' inst', slots s' !! i = Some sl' ∧ s_id sl' = s_id sl ∧ s_alive sl' = s_alive sl ∧
      s_inst sl' = Some inst' ∧ (t = true → is_Some r → to_read sl' < to_read sl)) s.
Proof.
  intros Hwf Hsl Hz Hinst. pose proof Hwf as [Hw Hl]. unfold next_request.
  wp_step. eapply wp_slot_at; [done|].
  pose proof (Forall_lookup_1 _ _ _ _ (wf_clean s Hw) Hsl) as Hcl.
  assert (Hlt : i < length (slots s)) by by eapply lookup_lt_Some.
  assert (Hok : slot_ok s sl) by (apply (wf_slot s Hw i); [done..|by apply (Hl i)]).
  destruct (s_deferred sl) as [d|] eqn:Hd.
  - wp_step. eapply wp_upd_slot; [done|]. wp_step. update_goal Hwf' Hla'.
    { reflexivity. } { by split. } { done. }
    { intros _. apply (slot_ok_place s sl); [done|by split|done|apply Hok|apply Hok]. }
    { done. }
    split_and!; [exact Hwf'|exact Hla'|]. exists (set_deferred None sl), inst.
    split_and!; try done; [by apply list_lookup_insert_eq|]. intros _ _. unfold to_read. cbn.
    rewrite Hd. lia.
  - wp_step. eapply wp_inst_call; [done|]. rewrite Hinst.
    set (inst1 := (i_queue "system/lifecycle" inst).2).
    assert (Hup : ∀ inst2, flow inst inst2 →
      wf (set_slots (<[i := set_inst (Some inst2) sl]> (slots s)) s) ∧
      later s (set_slots (<[i := set_inst (Some inst2) sl]> (slots s)) s)).
    { intros inst2 Hfl. eapply (wf_update s _ i sl); [done|by split|done|done|reflexivity|by split|done|..].
      - intros _. apply (slot_ok_place s sl); [done|by split|done|left; by eexists|apply Hok].
      - intros x n q [= <-] Hq. eapply flow_named; [exact Hfl|]. by eapply Hcl. }
    assert (Hfl1 : flow inst inst1) by apply flow_queue.
    destruct (i_queue "system/lifecycle" inst).1 as [q|] eqn:Hq.
    + wp_step. eapply wp_inst_call; [by apply list_lookup_insert_eq|]. cbn [s_inst set_inst].
      set (inst2 := (i_pop q inst1).2). cbn [slots set_slots].
      change (set_inst (Some inst2) (set_inst (Some inst1) sl)) with (set_inst (Some inst2) sl).
      rewrite list_insert_insert_eq.
      assert (Hfl2 : flow inst inst2) by (etrans; [exact Hfl1|apply flow_pop]).
      destruct (Hup inst2 Hfl2) as [Hwf2 Hla2].
      destruct (i_pop q inst1).1 as [[msg|]|] eqn:Hpop; wp_step; (split_and!; [exact Hwf2|exact Hla2|]);
        exists (set_inst (Some inst2) sl), inst2;
        (split_and!; [by apply list_lookup_insert_eq|done..|]); intros Ht [? [=]].
      unfold to_read. cbn. rewrite Hd, Hinst. cbn. pose proof (load_pop Ht inst q msg Hq Hpop).
      unfold inst2, inst1. lia.
    + destruct (Hup inst1 Hfl1) as [Hwf1 Hla1]. wp_step. split_and!; [exact Hwf1|exact Hla1|].
      exists (set_inst (Some inst1) sl), inst1.
      split_and!; [by apply list_lookup_insert_eq|done..|]. by intros _ [? [=]].
Qed.

(** The loop's condition. *)
Definition reading (id : N) (i : nat) s : Prop :=
  ∃ sl inst, slots s !! i = Some sl ∧ s_id sl = id ∧ s_alive sl = true ∧ s_inst sl = Some inst.

Lemma wp_drain_body s i id :
  wf s → id ≠ 0%N → reading id i s →
  wp t (drain_body i id) (λ again s', wf s' ∧ later s s' ∧
    (again = true → reading id i s' ∧ (t = true → to_read_at i s' < to_read_at i s))) s.
Proof.
  intros Hwf Hid (sl & inst & Hsl & <- & Hal & Hinst). unfold drain_body. wp_step.
  eapply wp_mono; [by eapply wp_next_request|].
  intros r s1 (Hwf1 & Hla1 & sl1 & inst1 & Hsl1 & Hid1 & Hal1 & Hinst1 & Hless).
  destruct r as [msg|]; [|wp_step; by split_and!].
  assert (Hfin : ∀ (b : bool) s', wf s' → later s1 s' → (b = true → after s1 s' i) →
    (b = true → reading (s_id sl) i s') →
    wf s' ∧ later s s' ∧ (b = true → reading (s_id sl) i s' ∧
      (t = true → to_read_at i s' < to_read_at i s))).
  { intros b s' Hwf' Hla' Haf Hre. split_and!; [done|by etrans|]. intros Hb.
    split; [auto|]. intros Ht. destruct (Hre Hb) as (sl' & inst' & Hsl' & Hid' & _ & Hinst').
    destruct (Haf Hb sl1 sl' Hsl1 Hsl') as (_ & Hde & Hfl); [congruence..|].
    specialize (Hless Ht ltac:(by eexists)). unfold to_read_at. rewrite Hsl, Hsl'. cbn.
    eapply Nat.le_lt_trans; [|exact Hless]. unfold to_read. rewrite Hde.
    destruct (Hfl inst' Hinst') as (ia & Ha & Hab). rewrite Ha, Hinst'. cbn.
    pose proof (load_flow Ht _ _ Hab). lia. }
  assert (Hem : ∀ what about d, wp t (emit (s_id sl) what about d;; mret true)
    (λ again s', wf s' ∧ later s s' ∧
    (again = true → reading (s_id sl) i s' ∧ (t = true → to_read_at i s' < to_read_at i s))) s1).
  { intros. wp_step. eapply wp_mono; [apply (wp_quiet t 0); [apply calm_emit|done|lia]|].
    intros u s' (? & ? & Hq). wp_step. apply Hfin; [done..|by intros _; apply quiet_after|].
    intros _. destruct (quiet_lookup s1 s' i sl1 Hq Hsl1) as (sl' & Hsl' & Hs).
    assert (is_Some (s_inst sl')) as [inst' ?] by (apply Hs; by eexists).
    exists sl', inst'. rewrite (same_id _ _ Hs), (SwarmQuiet.same_alive _ _ Hs).
    split_and!; [done..|congruence|done]. }
  case_bool_decide; [apply Hem|]. cbv zeta.
  destruct (read_request msg ≫= _) as [op|] eqn:Hop; [|apply Hem].
  do 2 wp_step. destruct (_ && _) eqn:Hthr.
  - (* throttled: held for the next step *)
    wp_step. eapply wp_upd_slot; [done|]. set (s2 := set_slots _ s1).
    assert (Hwf2 : wf s2 ∧ later s1 s2).
    { pose proof Hwf1 as [Hw1 Hl1].
      eapply (wf_update s1 _ i sl1); [done|by split|done|done|reflexivity|by split|done|..].
      - intros Hz.
        assert (Hok1 : slot_ok s1 sl1) by (apply (wf_slot s1 Hw1 i); [done|done|congruence]).
        apply (slot_ok_place s1 sl1); [done|by split|done|left; by eexists|apply Hok1].
      - by apply (Forall_lookup_1 _ _ _ _ (wf_clean s1 Hw1) Hsl1). }
    destruct Hwf2 as [Hwf2 Hla2]. wp_step.
    eapply wp_mono; [apply (wp_quiet t 0); [apply calm_emit|done|lia]|].
    intros u s' (? & ? & Hq). wp_step. apply Hfin; [done|by etrans|done..].
  - destruct (read_request msg) as [request|]; [|done]. wp_step. eapply wp_expect; [done|].
    wp_step. rewrite <-Hid1.
    eapply wp_mono; [apply wp_dispatch; [done..|congruence]|]. intros u s' (Hwf' & Hla' & Haf).
    assert (is_Some (slots s' !! i)) as [sl' Hsl'].
    { apply lookup_lt_is_Some. pose proof (lookup_lt_Some _ _ _ Hsl1). pose proof (la_len _ _ Hla').
      lia. }
    wp_step. eapply wp_slot_at; [done|]. wp_step. rewrite Hid1. apply Hfin; [done..|].
    rewrite !andb_true_iff, !bool_decide_eq_true. intros [[? ?] [inst' ?]]. by exists sl', inst'.
Qed.

Lemma wp_drain fuel s i sl :
  wf s → slots s !! i = Some sl → s_id sl ≠ 0%N →
  (t = true → ∀ inst, s_inst sl = Some inst → to_read sl < fuel) →
  wp t (drain fuel i) (λ _ s', wf s' ∧ later s s') s.
Proof.
  intros Hwf Hsl Hz Hfuel. unfold drain. wp_step. eapply wp_slot_at; [done|].
  case_bool_decide as Hnone; cbn [orb]; [by wp_step|].
  destruct (s_inst sl) as [inst|] eqn:Hinst; [|done].
  destruct (s_alive sl) eqn:Hal; cbn [negb]; [|by wp_step].
  destruct (CapSet.holds _ _); cbn [negb]; [|by wp_step].
  apply (wp_loop t (λ s', wf s' ∧ later s s' ∧ reading (s_id sl) i s') _ (to_read_at i)).
  - split_and!; [done|done|]. by exists sl, inst.
  - intros Ht. unfold to_read_at. rewrite Hsl. by eapply Hfuel.
  - intros s' (Hwf' & Hla' & Hre). eapply wp_mono; [by apply wp_drain_body|].
    intros [] s'' (Hwf'' & Hla'' & Hag).
    + destruct Hag as [Hre'' Hlt]; [done|]. split_and!; [done|by etrans|done|done].
    + split; [done|by etrans].
Qed.

End drain.

(** ** Routing *)

Section route.
Context {E H I : Type} `{Fl : Flow I, !EngineOps E I, !SwarmHost H I, !Codec, !RefWire}.
Context (t : bool) (fuel : nat).
Implicit Types (s : Swarm E H I) (sl : Slot I).
Hypothesis allowed_inbox : allowed INBOX.

(** Handles that are endpoints, and what waits behind one: a pop makes it
    smaller and nothing else the swarm does makes it larger. *)
Context (endpoint : I → QueueHandle → Prop) (waiting : I → QueueHandle → nat).
Hypothesis endpoint_flow : t = true → ∀ a b q, flow a b → endpoint a q →
  endpoint b q ∧ waiting b q ≤ waiting a q.
Hypothesis endpoint_bound : t = true → ∀ inst k q,
  (i_endpoint_queue k inst).1 = Some q → endpoint (i_endpoint_queue k inst).2 q.
Hypothesis waiting_pop : t = true → ∀ inst q msg, endpoint inst q →
  (i_pop q inst).1 = Ok (Some msg) → waiting (i_pop q inst).2 q < waiting inst q.
Hypothesis waiting_fuel : t = true → ∀ inst q, waiting inst q < fuel.

Abbreviation Mn := (M (Swarm E H I)).

Lemma quiet_inst s s' i sl inst :
  quiet s s' → slots s !! i = Some sl → s_inst sl = Some inst →
  ∃ sl' inst', slots s' !! i = Some sl' ∧ s_inst sl' = Some inst' ∧ flow inst inst'.
Proof.
  intros Hq Hsl Hi. destruct (quiet_lookup s s' i sl Hq Hsl) as (sl' & Hsl' & Hs).
  assert (is_Some (s_inst sl')) as [inst' Hi'] by (apply Hs; by eexists).
  exists sl', inst'. split_and!; [done..|]. by apply (same_flow _ _ Hs).
Qed.

(** The loop's state: a resident instance with endpoint [q]. *)
Definition bound_at (i : nat) (q : QueueHandle) (n : nat) s : Prop :=
  ∃ sl inst, slots s !! i = Some sl ∧ s_inst sl = Some inst ∧
    (t = true → endpoint inst q ∧ waiting inst q ≤ n).

Lemma bound_at_quiet i q n s s' : quiet s s' → bound_at i q n s → bound_at i q n s'.
Proof.
  intros Hq (sl & inst & Hsl & Hi & Hb).
  destruct (quiet_inst s s' i sl inst Hq Hsl Hi) as (sl' & inst' & Hsl' & Hi' & Hf).
  exists sl', inst'. split_and!; [done..|]. intros Ht. destruct (Hb Ht) as [He Hw].
  destruct (endpoint_flow Ht _ _ q Hf He). split; [done|lia].
Qed.

Definition waits (i : nat) (q : QueueHandle) s : nat :=
  from_option (λ inst, waiting inst q) 0 (slots s !! i ≫= s_inst).

Lemma bound_waits i q n s : t = true → bound_at i q n s → waits i q s ≤ n.
Proof.
  intros Ht (sl & inst & Hsl & Hi & Hb). unfold waits. rewrite Hsl. cbn. rewrite Hi. by apply Hb.
Qed.

Lemma wp_route_body s i q target from :
  in_table s → bound_at i q (waits i q s) s →
  wp t (route_body i q target from) (λ again s', quiet s s' ∧
    (again = true → ∃ n, bound_at i q n s' ∧ (t = true → n < waits i q s))) s.
Proof.
  intros Ht (sl & inst & Hsl & Hinst & Hb). unfold route_body. wp_step.
  assert (Hw : waits i q s = waiting inst q).
  { unfold waits. rewrite Hsl. cbn. by rewrite Hinst. }
  assert (Hlt : i < length (slots s)) by by eapply lookup_lt_Some.
  eapply wp_inst_call; [done|]. rewrite Hinst. set (s1 := set_slots _ s).
  assert (Hq1 : quiet s s1) by (eapply quiet_insert, same_slot_inst; [done..|apply flow_pop]).
  wp_step. eapply wp_expect; [done|].
  destruct (i_pop q inst).1 as [[msg|]|] eqn:Hpop; [|by wp_steps..].
  assert (Hb1 : bound_at i q (Nat.pred (waits i q s)) s1 ∧
    (t = true → Nat.pred (waits i q s) < waits i q s)).
  { split.
    - eexists _, _. split_and!; [by apply list_lookup_insert_eq|done|]. intros He.
      destruct (Hb He) as [Hep _].
      pose proof (waiting_pop He inst q msg Hep Hpop).
      destruct (endpoint_flow He inst (i_pop q inst).2 q) as [? _]; [apply flow_pop|done|].
      split; [done|]. lia.
    - intros He. destruct (Hb He) as [Hep _].
      pose proof (waiting_pop He inst q msg Hep Hpop). lia. }
  destruct Hb1 as [Hb1 Hpred]. wp_step.
  eapply wp_mono; [apply (calm_push t target INBOX from msg allowed_inbox);
    [by apply (quiet_in_table s)|lia]|].
  intros pushed s2 Hq2. cbv beta in Hq2.
  assert (Hq12 : quiet s s2) by (etrans; [exact Hq1|exact Hq2]).
  assert (Hend : ∀ m : Mn unit, calm t (S i) m → wp t (m;; mret false) (λ again s', quiet s s' ∧
    (again = true → ∃ n, bound_at i q n s' ∧ (t = true → n < waits i q s))) s2).
  { intros m Hm. wp_step. eapply wp_mono; [apply Hm; [by apply (quiet_in_table s)|]|].
    - rewrite (quiet_length s s2 Hq12). lia.
    - intros u s3 Hq3. wp_step. split; [etrans; [exact Hq12|exact Hq3]|done]. }
  destruct pushed as [u|[]]; try (apply Hend; first [apply calm_hold|apply calm_close_endpoint]).
  wp_step. split; [done|]. intros _. eexists. split; [|exact Hpred].
  by apply (bound_at_quiet i q _ s1).
Qed.

Lemma calm_route_one i token from : calm t (S i) (route_one fuel i token from : Mn unit).
Proof.
  intros s Ht Hi. destruct (lookup_lt_is_Some_2 (slots s) i Hi) as [sl Hsl].
  unfold route_one. wp_step. eapply wp_inst_call; [done|].
  destruct (s_inst sl) as [inst|] eqn:Hinst; [|wp_step; reflexivity].
  set (s1 := set_slots _ s). set (inst1 := (i_endpoint_queue token inst).2) in *.
  assert (Hq1 : quiet s s1) by (eapply quiet_insert, same_slot_inst; [done..|apply flow_endpoint_queue]).
  destruct (i_endpoint_queue token inst).1 as [q|] eqn:Hq; [|by wp_step].
  wp_step. eapply wp_inst_call; [by apply list_lookup_insert_eq|]. cbn [s_inst set_inst].
  set (s2 := set_slots _ s1). set (inst2 := (i_queue_info q inst1).2) in *.
  assert (Hsl2 : slots s2 !! i = Some (set_inst (Some inst2) (set_inst (Some inst1) sl))).
  { cbn. apply list_lookup_insert_eq. by rewrite length_insert. }
  assert (Hf2 : flow inst1 inst2) by apply flow_info.
  assert (Hq2 : quiet s s2).
  { etrans; [exact Hq1|]. eapply quiet_insert; [by apply list_lookup_insert_eq|].
    by apply (same_slot_inst _ inst1). }
  destruct (i_queue_info q inst1).1 as [info|]; [|by wp_step].
  case_bool_decide; [|by wp_step].
  wp_step. eapply wp_slot_at; [done|]. do 2 wp_step.
  destruct (s_inst _ ≫= _) as [target|].
  - destruct (existsb _ _); [by wp_step|]. wp_step.
    assert (Ht2 : in_table s2) by by apply (quiet_in_table s).
    eapply wp_mono; [apply calm_enable_endpoints; [done|lia]|]. intros u s3 Hq3. cbv beta in Hq3.
    assert (Hb2 : bound_at i q (waiting inst2 q) s2).
    { eexists _, _. split_and!; [exact Hsl2|done|]. intros He. split; [|done].
      eapply endpoint_flow; [done|exact Hf2|]. by eapply endpoint_bound. }
    apply (wp_loop t (λ s', quiet s3 s' ∧ in_table s' ∧ ∃ n, bound_at i q n s') _ (waits i q)).
    + split_and!; [reflexivity|by apply (quiet_in_table s2)|].
      eexists. by eapply bound_at_quiet.
    + intros He. unfold waits. destruct (slots s3 !! i ≫= s_inst); cbn; [by apply waiting_fuel|].
      specialize (waiting_fuel He inst q). lia.
    + intros s' (Hq' & Ht' & n & Hb').
      assert (Hbw : bound_at i q (waits i q s') s').
      { destruct Hb' as (sl' & inst' & Hsl' & Hi' & Hb'). exists sl', inst'.
        split_and!; [done..|]. intros He. split; [by apply Hb'|]. unfold waits. rewrite Hsl'.
        cbn. by rewrite Hi'. }
      eapply wp_mono; [by apply wp_route_body|]. intros [] s'' [Hq'' Hag].
      * destruct Hag as (m & Hbm & Hlt); [done|]. split.
        -- split_and!; [by etrans|by apply (quiet_in_table s')|by exists m].
        -- intros He. eapply Nat.le_lt_trans; [by apply (bound_waits _ _ m)|by apply Hlt].
      * etrans; [exact Hq2|]. etrans; [exact Hq3|]. by etrans.
  - eapply wp_mono; [apply calm_close_endpoint; [by apply (quiet_in_table s)|]|].
    + rewrite (quiet_length s s2 Hq2). lia.
    + intros u s3 Hq3. etrans; [exact Hq2|exact Hq3].
Qed.

Lemma calm_retry_held i from held : calm t (S i) (retry_held i from held : Mn unit).
Proof.
  destruct held as [target msg].
  apply calm_bind; [eapply calm_weaken; [apply calm_enable_endpoints|lia]|]. intros _.
  apply calm_bind; [eapply calm_weaken; [by apply calm_push|lia]|].
  intros [u|[]]; first [apply calm_hold|apply calm_ret].
Qed.

Lemma calm_route_slot i : calm t (S i) (route_slot fuel i : Mn unit).
Proof.
  apply calm_bind; [apply calm_slot_at|]. intros sl.
  destruct (_ || _); [apply calm_ret|].
  apply calm_bind.
  { apply calm_when, calm_bind; [apply calm_upd_slot; intros; apply same_slot_held|]. intros _.
    apply calm_for_each. intros; apply calm_retry_held. }
  intros _. apply calm_bind; [apply calm_slot_at|]. intros sl'.
  destruct (s_inst sl'); [|apply calm_ret].
  apply calm_for_range. intros k _. apply calm_route_one.
Qed.

Lemma calm_route_endpoints : calm t 0 (route_endpoints fuel : Mn unit).
Proof.
  apply calm_get. intros s Ht _.
  apply (calm_for_range t (length (slots s)) 0 (length (slots s))); [|done|lia].
  intros i Hi. eapply calm_weaken; [apply calm_route_slot|lia].
Qed.

End route.
