(* ===== verification/SwarmLive.v ===== *)
(** * One step of the swarm

    [Swarm::step] put together: vital ends, notices, routing, waking,
    draining, driving.  Two flows are used, one for the request loops and one
    for everything else, over one notion of what a handle names.

    ** Running a swarm: safety for any engine, termination for a lawful one

    A run is a list of calls of the swarm's public interface from an empty
    swarm.  For every engine, host and run nothing panics and the table stays
    right.  For an engine whose queues are bounded and behave as queues, every
    step also ends, within fuel that depends on the queues' bound only. *)

From S2P Require Import Prelude.
From S2P Require Import Bytes.
From S2P Require Import Value.
From S2P Require Import Caps.
From S2P Require Import Config.
From S2P Require Import Node.
From S2P Require Import Engine.
From S2P Require Import Requests.
From S2P Require Import Swarm.
From S2P Require Import SwarmQuiet.
From S2P Require Import SwarmInv.
From S2P Require Import SwarmKill.
From S2P Require Import SwarmSafe.
From S2P Require Import SwarmStep.

(** What the step asks of the flows and of the host; [t = true] adds what
    bounds its loops by [fuel]. *)
Class Stepping (t : bool) (fuel : nat) (H I : Type) `{Ops : InstanceOps I, Nm : Naming I,
    Host : SwarmHost H I} (FlA FlD : Flow I) := {
  any_queue n : allowed (Flow := FlA) n;
  drive_named id caps inst h q n : named inst q n → named (h_drive id caps inst h).1.2 q n;
  load : I → nat;
  load_flow : t = true → ∀ a b, flow (Flow := FlD) a b → load b ≤ load a;
  load_pop : t = true → ∀ inst q msg,
    (i_queue "system/lifecycle" inst).1 = Some q →
    (i_pop q (i_queue "system/lifecycle" inst).2).1 = Ok (Some msg) →
    load (i_pop q (i_queue "system/lifecycle" inst).2).2 < load inst;
  load_fuel : t = true → ∀ inst, S (load inst) < fuel;
  endpoint : I → QueueHandle → Prop;
  waiting : I → QueueHandle → nat;
  endpoint_flow : t = true → ∀ a b q, flow (Flow := FlA) a b → endpoint a q →
    endpoint b q ∧ waiting b q ≤ waiting a q;
  endpoint_bound : t = true → ∀ inst k q,
    (i_endpoint_queue k inst).1 = Some q → endpoint (i_endpoint_queue k inst).2 q;
  waiting_pop : t = true → ∀ inst q msg, endpoint inst q →
    (i_pop q inst).1 = Ok (Some msg) → waiting (i_pop q inst).2 q < waiting inst q;
  waiting_fuel : t = true → ∀ inst q, waiting inst q < fuel
}.

Section step.
Context {E H I : Type} {Ops : InstanceOps I} {Nm : Naming I} {EOps : EngineOps E I}
  {Host : SwarmHost H I} {Cdc : Codec} {RW : RefWire} {RWL : RefWireLaws}.
Context (t : bool) (fuel : nat) (FlA FlD : Flow I).
Context {St : Stepping t fuel H I FlA FlD}.
Implicit Types (s : Swarm E H I) (sl : Slot I).

Abbreviation keeps m s := (wp t m (λ _ s', wf s' ∧ later s s') s).

Lemma keeps_refl {A} (a : A) s : wf s → keeps (mret a) s.
Proof. intros. wp_step. by split; [|reflexivity]. Qed.

Lemma keeps_bind {A B} (m : M (Swarm E H I) A) (f : A → M (Swarm E H I) B) s :
  keeps m s → (∀ a s', wf s' → later s s' → keeps (f a) s') → keeps (m ≫= f) s.
Proof.
  intros Hm Hf. wp_step. eapply wp_mono; [exact Hm|]. intros a s' [Hwf Hla].
  eapply wp_mono; [by apply Hf|]. intros b s'' [? ?]. split; [done|by etrans].
Qed.

Lemma keeps_from {A} s s1 (m : M (Swarm E H I) A) :
  later s s1 → keeps m s1 → wp t m (λ _ s', wf s' ∧ later s s') s1.
Proof. intros Hla Hm. eapply wp_mono; [exact Hm|]. intros a s' [? ?]. split; [done|by etrans]. Qed.

Lemma keeps_calm {A} n (m : M (Swarm E H I) A) s :
  calm (Fl := FlA) t n m → wf s → n ≤ length (slots s) → keeps m s.
Proof.
  intros Hm Hwf Hn. eapply wp_mono; [by apply (wp_quiet (Fl := FlA) t n)|].
  by intros a s' (? & ? & _).
Qed.

Lemma keeps_emit to_ what about d s : wf s → keeps (emit to_ what about d) s.
Proof. intros. apply (keeps_calm 0); [apply calm_emit|done|lia]. Qed.

Lemma keeps_kill id notify s : wf s → keeps (kill_subtree id notify) s.
Proof.
  intros Hwf. eapply wp_mono; [by apply (wp_kill_subtree (Fl := FlA))|].
  intros u s' [Hwf' Hk]. split; [done|]. destruct (find s id) as [i|]; [|by rewrite Hk].
  destruct Hk as (s1 & Hk & Hq). etrans; [apply (killed_later s i s1 Hk)|apply (quiet_later (Fl := FlA) s1 s' Hq)].
Qed.

Lemma keeps_when b m s : (b = true → keeps m s) → wf s → keeps (when b m) s.
Proof. intros Hm Hwf. apply wp_when; [done|]. intros _. by split; [|reflexivity]. Qed.

(** A change of the host only. *)
Lemma wf_set_host s h : wf s → wf (set_host h s) ∧ later s (set_host h s).
Proof.
  intros [[] Hl]. split; [|by split]. split; [|done]. split; try done.
  intros i sl Hi Hz Hal. apply (slot_ok_ext s); [done|by eapply wf_slot].
Qed.

Lemma keeps_for_range start n body s :
  wf s → start + n ≤ length (slots s) →
  (∀ i s', wf s' → i < length (slots s') → keeps (body i) s') →
  keeps (for_range start n body) s.
Proof.
  intros Hwf Hlen Hb. apply wp_for_inv; [by split; [|reflexivity]|].
  intros i s' Hi [Hwf' Hla]. pose proof (la_len _ _ Hla).
  eapply wp_mono; [apply Hb; [done|lia]|]. intros u s'' [? ?]. split; [done|by etrans].
Qed.

Lemma keeps_for_each {A} (xs : list A) body s :
  wf s → (∀ x s', wf s' → keeps (body x) s') → keeps (for_each xs body) s.
Proof.
  intros Hwf Hb. apply wp_for_each; [by split; [|reflexivity]|].
  intros x s' _ [Hwf' Hla]. eapply wp_mono; [by apply Hb|]. intros u s'' [? ?].
  split; [done|by etrans].
Qed.

Lemma keeps_route_slot i s : wf s → i < length (slots s) → keeps (route_slot fuel i) s.
Proof.
  intros Hwf Hi. apply (keeps_calm (S i)); [|done|lia].
  apply (calm_route_slot (Fl := FlA) t fuel (any_queue _) endpoint waiting).
  - apply endpoint_flow.
  - apply endpoint_bound.
  - apply waiting_pop.
  - apply waiting_fuel.
Qed.

Lemma keeps_end_vital ended s : wf s → keeps (end_vital ended) s.
Proof.
  intros Hwf. destruct ended as [id why]. unfold end_vital. do 2 wp_step.
  destruct (find s id) as [i|] eqn:Hf; [|by apply keeps_refl].
  destruct (find_in_table s id i (wf0_in_table s (proj1 Hwf)) Hf) as [sl Hsl].
  wp_step. eapply wp_slot_at; [done|]. destruct (negb _); [by apply keeps_refl|].
  apply keeps_bind; [by apply keeps_kill|]. intros u s' Hwf' _.
  apply keeps_when; [|done]. intros _. by apply keeps_emit.
Qed.

Lemma keeps_notice notice s : wf s → keeps (deliver_notice notice) s.
Proof.
  intros Hwf. destruct notice as [[id queue] msg]. unfold deliver_notice.
  apply keeps_bind; [|intros; by apply keeps_refl].
  apply (keeps_calm 0); [apply calm_push, any_queue|done|lia].
Qed.

Lemma keeps_wake_slot i s : wf s → i < length (slots s) → keeps (wake_slot i) s.
Proof.
  intros Hwf Hi. destruct (lookup_lt_is_Some_2 _ _ Hi) as [sl Hsl]. unfold wake_slot.
  wp_step. eapply wp_slot_at; [done|]. destruct (_ || _); [by apply keeps_refl|].
  apply keeps_bind.
  { eapply wp_mono; [by apply wp_wake|]. by intros r s' (? & ? & _). }
  intros [u|e] s' Hwf' _; [by apply keeps_refl|].
  apply keeps_bind; [by apply keeps_kill|]. intros u s'' Hwf'' _.
  apply keeps_when; [|done]. intros _. by apply keeps_emit.
Qed.

Lemma keeps_drain_slot i s : wf s → i < length (slots s) → keeps (drain_slot fuel i) s.
Proof.
  intros Hwf Hi. destruct (lookup_lt_is_Some_2 _ _ Hi) as [sl Hsl]. unfold drain_slot.
  wp_step. eapply wp_slot_at; [done|]. apply keeps_when; [|done].
  intros [Hz%bool_decide_eq_true _]%andb_true_iff.
  apply (wp_drain (Fl := FlD) t load load_flow load_pop fuel s i sl); [done..|].
  intros Ht inst Hinst. unfold to_read. rewrite Hinst. cbn.
  pose proof (load_fuel Ht inst). destruct (s_deferred sl); lia.
Qed.

(** The host may not lose what the handles name, so the table stays right
    when an instance comes back from a drive. *)
Lemma wf_driven s i sl inst inst' h :
  wf s → slots s !! i = Some sl → s_inst sl = Some inst →
  (∀ q n, named inst q n → named inst' q n) →
  let s' := set_slots (<[i := set_inst (Some inst') sl]> (slots s)) (set_host h s) in
  wf s' ∧ later s s'.
Proof.
  intros Hwf Hsl Hinst Hn s'. pose proof Hwf as [Hw Hl].
  pose proof (Forall_lookup_1 _ _ _ _ (wf_clean s Hw) Hsl) as Hcl.
  eapply (wf_update s s' i sl); [done|by split|done|done|reflexivity|by split|done|..].
  - intros Hz. assert (Hok : slot_ok s sl).
    { apply (wf_slot s Hw i); [done..|by apply (Hl i)]. }
    apply (slot_ok_place s sl); [done|by split|done|left; by eexists|apply Hok].
  - intros x n q [= <-] Hq. by apply Hn, Hcl.
Qed.

Lemma keeps_stop id i driven s :
  wf s → i < length (slots s) → keeps (stop fuel id i driven) s.
Proof.
  intros Hwf Hi. destruct (lookup_lt_is_Some_2 _ _ Hi) as [sl Hsl]. unfold stop.
  wp_step. eapply wp_slot_at; [done|]. cbv zeta. destruct (classify _ _) as [what why].
  apply keeps_bind; [by apply keeps_route_slot|]. intros u s' Hwf' _.
  apply keeps_bind; [by apply keeps_kill|]. intros u' s'' Hwf'' _.
  apply keeps_when; [|done]. intros _. apply (keeps_calm 0); [apply calm_emit_stop|done|lia].
Qed.

Lemma keeps_drive_slot i s : wf s → i < length (slots s) → keeps (drive_slot fuel i) s.
Proof.
  intros Hwf Hi. destruct (lookup_lt_is_Some_2 _ _ Hi) as [sl Hsl]. unfold drive_slot.
  wp_step. eapply wp_slot_at; [done|]. destruct (_ || _); [by apply keeps_refl|].
  destruct (s_inst sl) as [inst|] eqn:Hinst; [|by apply keeps_refl]. do 2 wp_step.
  pose proof (drive_named (s_id sl) (s_caps sl) inst (host s)) as Hn.
  destruct (h_drive _ _ inst (host s)) as [[driven inst'] h']. cbn in Hn.
  do 3 wp_step. eapply wp_upd_slot; [done|].
  destruct (wf_driven s i sl inst inst' h' Hwf Hsl Hinst Hn) as [Hwf1 Hla1].
  set (s1 := set_slots _ _) in *. change (set_slots _ _) with s1.
  apply (keeps_from s s1); [done|].
  do 2 wp_step. destruct (find s1 (s_id sl)) as [i'|] eqn:Hf; [|by apply keeps_refl].
  pose proof (find_in_table s1 _ i' (wf0_in_table s1 (proj1 Hwf1)) Hf) as Hi'.
  destruct driven; [by apply keeps_refl|..];
    (apply keeps_stop; [done|by apply lookup_lt_is_Some]).
Qed.

Lemma wf_reset_spawns s : wf s → wf (set_spawns_this_step 0 s) ∧ later s (set_spawns_this_step 0 s).
Proof.
  intros [[] Hl]. split; [|by split]. split; [|done]. split; try done; [cbn; lia|].
  intros i sl Hi Hz Hal. apply (slot_ok_ext s); [done|by eapply wf_slot].
Qed.

(** Calling the host, when only the host changes. *)
Lemma keeps_host {A} (f : H → A * H) (g : A → M (Swarm E H I) unit) s :
  wf s → (∀ a s', wf s' → keeps (g a) s') →
  keeps (s ← get_state; let '(a, h') := f (host s) in modify (set_host h');; g a) s.
Proof.
  intros Hwf Hg. do 2 wp_step. destruct (f (host s)) as [a h']. do 2 wp_step.
  destruct (wf_set_host s h' Hwf). apply keeps_from; [done|]. by apply Hg.
Qed.

Lemma keeps_all (body : nat → M (Swarm E H I) unit) s :
  wf s → (∀ i s', wf s' → i < length (slots s') → keeps (body i) s') →
  keeps (s ← get_state; for_range 0 (length (slots s)) body) s.
Proof. intros Hwf Hb. do 2 wp_step. by apply keeps_for_range. Qed.

(** The phases of a step, in order. *)
Definition phases : M (Swarm E H I) unit :=
  (s ← get_state;
   let '(ended, host') := h_ended (host s) in
   modify (set_host host');; for_each ended end_vital);;
  (s ← get_state;
   let '(notices, host') := h_notices (host s) in
   modify (set_host host');; for_each notices deliver_notice);;
  route_endpoints fuel;;
  (s ← get_state; for_range 0 (length (slots s)) wake_slot);;
  (s ← get_state; for_range 0 (length (slots s)) (drain_slot fuel));;
  (s ← get_state; for_range 0 (length (slots s)) (drive_slot fuel)).

Lemma step_phases s :
  step fuel s = (modify (set_spawns_this_step 0);; phases;; gets alive) s.
Proof.
  unfold step, phases, modify, get_state, gets, mbind, M_bind, mret, M_ret; cbv beta iota.
  destruct (h_ended _) as [ended h1]. cbv beta iota.
  destruct (for_each ended end_vital _) as [? s1| | |]; try done.
  destruct (h_notices (host s1)) as [notices h2]. cbv beta iota.
  destruct (for_each notices deliver_notice _) as [? s2| | |]; try done.
  destruct (route_endpoints fuel s2) as [? s3| | |]; try done.
  destruct (for_range 0 _ wake_slot s3) as [? s4| | |]; try done.
  by destruct (for_range 0 _ (drain_slot fuel) s4) as [? s5| | |].
Qed.

Lemma keeps_phases s : wf s → keeps phases s.
Proof.
  intros Hwf. unfold phases.
  apply keeps_bind.
  { apply keeps_host; [done|]. intros. apply keeps_for_each; [done|]. intros; by apply keeps_end_vital. }
  intros _ s1 Hwf1 _. apply keeps_bind.
  { apply keeps_host; [done|]. intros. apply keeps_for_each; [done|]. intros; by apply keeps_notice. }
  intros _ s2 Hwf2 _. apply keeps_bind.
  { apply (keeps_all (route_slot fuel)); [done|]. intros; by apply keeps_route_slot. }
  intros _ s3 Hwf3 _. apply keeps_bind; [apply keeps_all; [done|]; intros; by apply keeps_wake_slot|].
  intros _ s4 Hwf4 _. apply keeps_bind; [apply keeps_all; [done|]; intros; by apply keeps_drain_slot|].
  intros _ s5 Hwf5 _. apply keeps_all; [done|]. intros; by apply keeps_drive_slot.
Qed.

(** A step keeps the table, never panics, and counts the live. *)
Lemma wp_step_swarm s :
  wf s → wp t (step fuel) (λ n s', wf s' ∧ later s s' ∧ n = alive s') s.
Proof.
  intros Hwf. destruct (wf_reset_spawns s Hwf) as [Hwf0 Hla0].
  assert (Hp : wp t (modify (set_spawns_this_step 0);; phases;; gets alive)
    (λ n s', wf s' ∧ later s s' ∧ n = alive s') s).
  { do 3 wp_step. eapply wp_mono; [by apply keeps_phases|]. intros u s' [? ?]. wp_step.
    split_and!; [done|by etrans|done]. }
  unfold wp in *. by rewrite step_phases.
Qed.

(** *** Building a root *)

Lemma wp_root s code cs b n :
  wf s → wp t (root_with_numeric code cs b n) (λ r s', wf s' ∧ later s s' ∧
    match r with
    | Ok id => id = next_id s ∧ ∃ sl, slot_of s' id = Some sl ∧ is_Some (s_inst sl) ∧
        root_ok sl ∧ s_caps sl = CapSet.root_held_by NodePath.root cs ∧
        s_budget sl = b ∧ s_numeric sl = n
    | Err _ => True
    end) s.
Proof.
  intros Hwf. pose proof Hwf as [Hw Hl]. unfold root_with_numeric.
  destruct (check_grant_names cs) as [u|]; [|wp_step; by split_and!; [|reflexivity|]].
  wp_step. eapply wp_mono; [by apply wp_claim|]. intros [i|] s1 Hc; cbv beta iota in Hc.
  2:{ destruct Hc as [-> _]. do 3 wp_step. by split_and!; [|reflexivity|]. }
  do 2 wp_step.
  set (f := configure _ _ _ _ _ _ _ _). set (x := f (set_id (next_id s) Slot.free)).
  assert (Hpl : placeable s x).
  { split; try done; [apply NodeFacts.root_valid|left]. split_and!; [done..|]. by exists cs. }
  pose proof (wp_place t s s1 i f code Hwf Hc (λ _, eq_refl) Hpl) as Hplace. fold x in Hplace.
  apply wp_bind_assoc. eapply wp_mono; [exact Hplace|].
  assert (Hz : s_id x ≠ 0%N) by (cbn; pose proof (wf_next s Hw); lia).
  intros [[]|why] s2; cbv beta iota.
  - intros [Hwf2 [inst Hp]]. wp_step. eapply wp_slot_at; [apply Hp|]. wp_step.
    split_and!; [done|by eapply placed_later|done|].
    exists (started x inst). split_and!; [|by eexists| |done..].
    + apply wf_slot_of; [apply Hwf2|]. split; [done|]. exists i. split; [apply Hp|done].
    + split_and!; [done..|]. by exists cs.
  - intros [Hwf2 Hp]. wp_step. eapply wp_mono; [by apply (wp_unplace t s i s2 x)|].
    intros u' s3 [Hwf3 Hp3]. wp_step. split_and!; [done|by eapply placed_later|done].
Qed.

End step.

(** ** Calls *)

(** The public methods that change a swarm. *)
Inductive call :=
  | CRoot (code : bytes) (caps : list Grant) (budget : Budget) (numeric : Numeric)
  | CKill (id : N)
  | CHibernate (id : N)
  | CWake (id : N)
  | CPush (id : N) (queue : string) (from : Sender) (msg : bytes)
  | CPushTo (id : N) (addr : QueueAddress) (from : Sender) (msg : bytes)
  | CStep
  | CAllowHibernation (allow : bool)
  | CAllowBytecode (allow : bool)
  | CUnsafeDebug (allow : bool)
  | CUnsafeStdlib (allow : bool)
  | CIdentity (identity : option string).

(** An identity is a string msgpack has a length for. *)
Definition call_ok (c : call) : Prop :=
  match c with
  | CIdentity (Some s) => (N.of_nat (str_len s) < 2 ^ 32)%N
  | _ => True
  end.

Section calls.
Context {E H I : Type} `{InstanceOps I, EngineOps E I, SwarmHost H I, Codec, RefWire}.

Definition run_call (fuel : nat) (c : call) : M (Swarm E H I) unit :=
  match c with
  | CRoot code caps budget numeric => _ ← root_with_numeric code caps budget numeric; mret tt
  | CKill id => _ ← kill id; mret tt
  | CHibernate id => _ ← hibernate id; mret tt
  | CWake id => _ ← wake id; mret tt
  | CPush id queue from msg => _ ← push id queue from msg; mret tt
  | CPushTo id addr from msg => _ ← push_to id addr from msg; mret tt
  | CStep => _ ← step fuel; mret tt
  | CAllowHibernation b => modify (allow_hibernation b)
  | CAllowBytecode b => modify (allow_bytecode b)
  | CUnsafeDebug b => modify (allow_unsafe_debug b)
  | CUnsafeStdlib b => modify (allow_unsafe_stdlib b)
  | CIdentity i => modify (set_host_identity i)
  end.

Definition run_calls (fuel : nat) (cs : list call) : M (Swarm E H I) unit :=
  for_each cs (run_call fuel).

End calls.

(** ** Every call keeps the table *)

Section keep.
Context {E H I : Type} {Ops : InstanceOps I} {Nm : Naming I} {EOps : EngineOps E I}
  {Host : SwarmHost H I} {Cdc : Codec} {RW : RefWire} {RWL : RefWireLaws}.
Context (t : bool) (fuel : nat) (FlA FlD : Flow I) {St : Stepping t fuel H I FlA FlD}.
Implicit Types (s : Swarm E H I).

(** A change of the settings only. *)
Lemma wf_settings s s' :
  slots s' = slots s → index s' = index s → max_instances s' = max_instances s →
  next_id s' = next_id s → spawn_rate s' = spawn_rate s →
  spawns_this_step s' = spawns_this_step s →
  (N.of_nat (str_len (default "" (host_identity s'))) < 2 ^ 32)%N → wf s → wf s'.
Proof.
  intros Hs Hx Hm Hn Hr Hc Hi [[] Hl].
  split; [|unfold all_live; by rewrite Hs].
  split; rewrite ?Hs, ?Hx, ?Hm, ?Hn, ?Hr, ?Hc; try done.
  intros i sl Hi' Hz Hal. apply (slot_ok_ext s); [done|by eapply wf_slot].
Qed.

Lemma wp_run_call s c : wf s → call_ok c → wp t (run_call fuel c) (λ _ s', wf s') s.
Proof.
  intros Hwf Hok. destruct c; cbn [run_call].
  - wp_step. eapply wp_mono; [by apply (wp_root t)|]. intros r s' [? _]. by wp_step.
  - wp_step. unfold kill. do 2 wp_step. destruct (find s id); [|by wp_steps].
    wp_step. eapply wp_mono; [by apply (wp_kill_subtree (Fl := FlA))|].
    intros u s' [? _]. by wp_steps.
  - wp_step. eapply wp_mono; [by apply (wp_hibernate (Fl := FlA))|]. intros r s' [? _]. by wp_step.
  - wp_step. eapply wp_mono; [by apply wp_wake|]. intros r s' [? _]. by wp_step.
  - wp_step. eapply wp_mono.
    { apply (wp_quiet (Fl := FlA) t 0); [apply calm_push, any_queue|done|lia]. }
    intros r s' [? _]. by wp_step.
  - wp_step. unfold push_to. destruct (QueueAddress.deliverable addr); [|by wp_steps].
    eapply wp_mono.
    { apply (wp_quiet (Fl := FlA) t 0); [apply calm_push, any_queue|done|lia]. }
    intros r s' [? _]. by wp_step.
  - wp_step. eapply wp_mono; [by apply (wp_step_swarm t fuel FlA FlD)|].
    intros n s' [? _]. by wp_step.
  - wp_step. by apply (wf_settings s); [..|apply Hwf|].
  - wp_step. by apply (wf_settings s); [..|apply Hwf|].
  - wp_step. by apply (wf_settings s); [..|apply Hwf|].
  - wp_step. by apply (wf_settings s); [..|apply Hwf|].
  - wp_step. apply (wf_settings s); [done..| |done].
    destruct identity as [i|]; cbn in Hok |- *; [|lia]. destruct (str_is_empty i); [cbn; lia|done].
Qed.

Lemma wp_run_calls s cs :
  wf s → Forall call_ok cs → wp t (run_calls fuel cs) (λ _ s', wf s') s.
Proof.
  intros Hwf Hok. apply wp_for_each; [done|]. intros c s' Hc Hwf'.
  apply wp_run_call; [done|]. by apply (proj1 (Forall_forall _ _) Hok).
Qed.

Lemma wf_with_limits (e : E) (h : H) m r :
  (m < 2 ^ 32)%N → (r < 2 ^ 32)%N → wf (with_limits e h m r).
Proof.
  intros Hm Hr. split; [|by intros i sl]. split; cbn; try done; try lia.
  - intros id i. split; [done|]. by intros (_ & sl & ? & _).
  - case_bool_decide; unfold DEFAULT_SPAWN_RATE; lia.
Qed.

End keep.

(** ** Any engine: nothing panics *)

Definition any_name {I} : Naming I := λ _ _ _, True.

Definition any_flow {I} `{InstanceOps I} : Flow I (H0 := any_name).
Proof. by refine {| allowed _ := True; flow _ _ := True |}. Defined.

#[export] Instance any_stepping {I H} `{!InstanceOps I, !SwarmHost H I} fuel :
  Stepping (Nm := any_name) false fuel H I any_flow any_flow.
Proof.
  by refine {| load _ := 0; endpoint _ _ := True; waiting _ _ := 0 |}.
Defined.

(** C1: Whatever the engine and the host do, no sequence of calls of the
    public interface from an empty swarm panics, and whatever state a run
    reaches satisfies the table's invariant [wf]: index and slots agree,
    handles are distinct and never zero, every live slot is resident or
    cached, buffers are within their bounds, and every slot is a root or a
    child its live, older parent could have made. *)
Theorem swarm_never_panics {E H I} `{!InstanceOps I, !EngineOps E I, !SwarmHost H I, !Codec,
    !RefWire, !RefWireLaws} (e : E) (h : H) (m r : N) (fuel : nat) (cs : list call)
  (Hm : (m < 2 ^ 32)%N) (Hr : (r < 2 ^ 32)%N) (Hcs : Forall call_ok cs) :
  match run_calls fuel cs (with_limits e h m r) with
  | Ret _ s => wf (H1 := any_name) s
  | Panic => False
  | Overflow | OutOfFuel => True
  end.
Proof.
  pose proof (wp_run_calls (Nm := any_name) false fuel any_flow any_flow (with_limits e h m r) cs
    (wf_with_limits e h m r Hm Hr) Hcs) as Hwp.
  unfold wp in Hwp. by destruct (run_calls _ _ _).
Qed.

(** ** A lawful engine: every step ends *)

(** What the swarm needs of an instance's queues for its loops to end: a
    handle keeps naming its queue, queues are bounded, a pop that answers
    takes a message away, a push goes to its own queue, and nothing else the
    swarm calls adds a message. *)
Class LawfulInstance (I : Type) `{InstanceOps I} := {
  l_named : Naming I;
  l_endpoint : I → QueueHandle → Prop;
  l_waiting : I → string → nat;
  l_outbound : I → QueueHandle → nat;
  l_capacity : nat;
  l_waiting_le inst n : l_waiting inst n ≤ l_capacity;
  l_outbound_le inst q : l_outbound inst q ≤ l_capacity;
  l_keeps (a b : I) : Prop :=
    (∀ q n, l_named a q n → l_named b q n) ∧
    (∀ q, l_endpoint a q → l_endpoint b q ∧ l_outbound b q ≤ l_outbound a q);
  l_drops (a b : I) : Prop := l_keeps a b ∧ ∀ n, l_waiting b n ≤ l_waiting a n;
  l_queue inst n : l_drops inst (i_queue n inst).2;
  l_queue_named inst n q : (i_queue n inst).1 = Some q → l_named (i_queue n inst).2 q n;
  l_info inst q : l_drops inst (i_queue_info q inst).2;
  l_snapshot inst st : l_drops inst (i_snapshot st inst).2;
  l_enable inst : l_drops inst (i_enable_endpoints inst);
  l_endpoint_queue inst k : l_drops inst (i_endpoint_queue k inst).2;
  l_endpoint_close inst q : l_drops inst (i_endpoint_close q inst).2;
  l_endpoint_bound inst k q :
    (i_endpoint_queue k inst).1 = Some q → l_endpoint (i_endpoint_queue k inst).2 q;
  l_pop inst q : l_drops inst (i_pop q inst).2;
  l_pop_named inst q n msg : l_named inst q n → (i_pop q inst).1 = Ok (Some msg) →
    l_waiting (i_pop q inst).2 n < l_waiting inst n;
  l_pop_endpoint inst q msg : l_endpoint inst q → (i_pop q inst).1 = Ok (Some msg) →
    l_outbound (i_pop q inst).2 q < l_outbound inst q;
  l_push inst q n msg : l_named inst q n → l_keeps inst (i_push q msg inst).2 ∧
    ∀ n', n' ≠ n → l_waiting (i_push q msg inst).2 n' ≤ l_waiting inst n'
}.

(** A host's drive keeps the names the swarm has cached handles for. *)
Class LawfulHost (H I : Type) `{LawfulInstance I, SwarmHost H I} :=
  l_drive id caps inst h q n : l_named inst q n → l_named (h_drive id caps inst h).1.2 q n.

Section lawful.
Context {I : Type} `{Law : LawfulInstance I}.
#[local] Existing Instance l_named.

#[global] Instance l_keeps_preorder : PreOrder (l_keeps (I := I)).
Proof.
  split; [by intros a; split|]. intros a b c [Hab Hab'] [Hbc Hbc']. split; [naive_solver|].
  intros q Hq. destruct (Hab' q Hq) as [Hb ?]. destruct (Hbc' q Hb). split; [done|lia].
Qed.

(** What every call keeps. *)
Definition kept_flow : Flow I.
Proof.
  refine {| allowed _ := True; flow := l_keeps |}; try done.
  - intros a b q n [Hn _]. apply Hn.
  - intros inst n. apply l_queue.
  - intros inst n q. apply l_queue_named.
  - intros inst q n m _ Hq. by apply (l_push inst q n m).
  - intros inst q. apply l_pop.
  - intros inst q. apply l_info.
  - intros inst st. apply l_snapshot.
  - intros inst. apply l_enable.
  - intros inst k. apply l_endpoint_queue.
  - intros inst q. apply l_endpoint_close.
Defined.

(** What every call but a push of a lifecycle request keeps: no request is
    added while an instance is drained. *)
Definition drain_flow : Flow I.
Proof.
  refine {| allowed n := n ≠ "system/lifecycle";
            flow a b := l_keeps a b ∧
              l_waiting b "system/lifecycle" ≤ l_waiting a "system/lifecycle" |}.
  - split; [by intros a; split|]. intros a b c [? ?] [? ?]. split; [by etrans|lia].
  - intros a b q n [[Hn _] _]. apply Hn.
  - intros inst n. split; apply l_queue.
  - intros inst n q. apply l_queue_named.
  - intros inst q n m Hn Hq. destruct (l_push inst q n m Hq) as [? Ho].
    split; [done|]. apply Ho. congruence.
  - intros inst q. split; apply l_pop.
  - intros inst q. split; apply l_info.
  - intros inst st. split; apply l_snapshot.
  - intros inst. split; apply l_enable.
  - intros inst k. split; apply l_endpoint_queue.
  - intros inst q. split; apply l_endpoint_close.
  - done.
Defined.

#[export] Instance lawful_stepping {HT} `{!SwarmHost HT I, !LawfulHost HT I} fuel :
  l_capacity + 1 < fuel → Stepping true fuel HT I kept_flow drain_flow.
Proof.
  intros Hfuel.
  refine {| load inst := l_waiting inst "system/lifecycle";
            endpoint := l_endpoint; waiting := l_outbound |}; try done.
  - by intros _ a b [_ ?].
  - intros _ inst q msg Hq Hpop.
    pose proof (l_queue_named inst "system/lifecycle" q Hq) as Hn.
    pose proof (l_pop_named _ q _ msg Hn Hpop).
    destruct (l_queue inst "system/lifecycle") as [_ Hw].
    specialize (Hw "system/lifecycle"). lia.
  - intros _ inst. pose proof (l_waiting_le inst "system/lifecycle"). lia.
  - intros _ a b q [_ He]. apply He.
  - intros _ inst k q. apply l_endpoint_bound.
  - intros _ inst q msg. apply l_pop_endpoint.
  - intros _ inst q. pose proof (l_outbound_le inst q). lia.
Defined.

End lawful.

(** C2: For an engine whose queues are bounded and behave as queues, every
    run of the swarm ends: with fuel for two rounds more than the longest
    queue in the loops over them, and the fuel the source's own loops need
    everywhere else, a run from an empty swarm never exhausts it.  It either
    uses up the 32-bit handles or returns, with the invariant. *)
Theorem swarm_terminates {E H I} `{LawfulInstance I, !EngineOps E I, !SwarmHost H I,
    !LawfulHost H I, !Codec, !RefWire, !RefWireLaws}
  (e : E) (h : H) (m r : N) (fuel : nat) (cs : list call)
  (Hm : (m < 2 ^ 32)%N) (Hr : (r < 2 ^ 32)%N) (Hcs : Forall call_ok cs)
  (Hfuel : l_capacity + 1 < fuel) :
  run_calls fuel cs (with_limits e h m r) = Overflow ∨
  ∃ s, run_calls fuel cs (with_limits e h m r) = Ret tt s ∧ wf (H1 := l_named) s.
Proof.
  pose proof (lawful_stepping (HT := H) fuel Hfuel) as St.
  pose proof (wp_run_calls (Nm := l_named) (St := St) true fuel kept_flow drain_flow
    (with_limits e h m r) cs (wf_with_limits e h m r Hm Hr) Hcs) as Hwp.
  destruct (wp_total_inv _ _ _ Hwp) as [?|([] & s & ? & ?)]; [by left|right]. by exists s.
Qed.
