(* ===== verification/Toy.v ===== *)
(** * A small engine

    A concrete engine at which the theorems about any engine are applied: an
    instance is four bounded queues and a name for how it runs, and loading
    one fills its lifecycle queue from the engine's scripts.  It models no
    code of the repository; it shows that the laws the swarm's theorems ask
    of an engine can be kept. *)

From S2P Require Import Prelude.
From S2P Require Import Bytes.
From S2P Require Import Value.
From S2P Require Import Caps.
From S2P Require Import Config.
From S2P Require Import Engine.
From S2P Require Import Requests.
From S2P Require Import Msgpack.
From S2P Require Import Swarm.
From S2P Require Import SwarmQuiet.
From S2P Require Import SwarmLive.

Definition TOY_BOUND : nat := 4.

(** A queue; what is beyond the bound is not there. *)
Definition toy_front (l : list bytes) : list bytes := take TOY_BOUND l.

Record Toy := MkToy {
  toy_text : string;
  toy_life : list bytes;
  toy_events : list bytes;
  toy_inbox : list bytes;
  toy_out : list bytes;
  toy_calls : list bytes;
  toy_replies : list bytes;
  toy_target : option bytes;
  toy_enabled : bool
}.

(** Handle 3 is the endpoint of token 1, the others are named queues. *)
Definition toy_handle (name : string) : option N :=
  if bool_decide (name = "system/lifecycle") then Some 0%N
  else if bool_decide (name = "system/events") then Some 1%N
  else if bool_decide (name = "inbox") then Some 2%N
  else if bool_decide (name = "host/calls") then Some 4%N
  else if bool_decide (name = "host/replies") then Some 5%N
  else None.

Definition toy_get (q : N) (i : Toy) : list bytes :=
  match q with
  | 0%N => toy_life i
  | 1%N => toy_events i
  | 2%N => toy_inbox i
  | 3%N => toy_out i
  | 4%N => toy_calls i
  | 5%N => toy_replies i
  | _ => []
  end.

Definition toy_set (q : N) (l : list bytes) (i : Toy) : Toy :=
  let '(MkToy text a b c d e f ref en) := i in
  match q with
  | 0%N => MkToy text l b c d e f ref en
  | 1%N => MkToy text a l c d e f ref en
  | 2%N => MkToy text a b l d e f ref en
  | 3%N => MkToy text a b c l e f ref en
  | 4%N => MkToy text a b c d l f ref en
  | 5%N => MkToy text a b c d e l ref en
  | _ => i
  end.

Definition toy_push (q : N) (m : bytes) (i : Toy) : result PushOutcome EngineError * Toy :=
  if bool_decide (length (toy_get q i) < TOY_BOUND) then
    (Ok Accepted, toy_set q (toy_get q i ++ [m]) i)
  else if bool_decide (toy_text i = "ring") then
    (Ok DroppedOldest, toy_set q (tail (toy_get q i) ++ [m]) i)
  else (Ok Full, i).

Definition toy_pop (q : N) (i : Toy) : result (option bytes) EngineError * Toy :=
  match toy_front (toy_get q i) with
  | [] => (Ok None, i)
  | m :: rest => (Ok (Some m), toy_set q rest i)
  end.

(** Running: once to the end, a fault, or a wait for the inbox. *)
Definition toy_run (i : Toy) : result Step EngineError * Toy :=
  (if bool_decide (toy_text i = "exit") then Ok Done
   else if bool_decide (toy_text i = "fault") then Err (EngineFault "stopped")
   else Ok (Parked (WaitSet.new [2%N] None false)), i).

#[export] Instance toy_ops : InstanceOps Toy := {|
  i_queue n i := (toy_handle n, i);
  i_queue_info q i := (Ok (MkQueueStatus (N.of_nat (length (toy_front (toy_get q i)))) 4 true true), i);
  i_push := toy_push;
  i_pop := toy_pop;
  i_run := toy_run;
  i_resume _ := toy_run;
  i_resume_timeout := toy_run;
  i_current_wait i := (None, i);
  i_usage i := MkUsageReport 0 0 0;
  i_exceeded i := false;
  i_numeric_touched_fast i := false;
  i_snapshot _ i :=
    (if bool_decide (toy_text i = "stubborn") then Err (SnapshotMismatch "it will not") else Ok [], i);
  i_endpoint_count i := 1%N;
  i_enable_endpoints i :=
    MkToy (toy_text i) (toy_life i) (toy_events i) (toy_inbox i) (toy_out i)
      (toy_calls i) (toy_replies i) (toy_target i) true;
  i_endpoint_queue token i := (if bool_decide (token = 1%N) then Some 3%N else None, i);
  i_endpoint_ref _ i := toy_target i;
  i_endpoint_close q i := (Ok tt, i)
|}.

(** What the next load puts in the lifecycle queue, the outbound queue and
    the endpoint's reference. *)
Record ToyScript := MkToyScript {
  script_life : list bytes;
  script_out : list bytes;
  script_target : option bytes
}.

Definition toy_blank (text : string) : Toy := MkToy text [] [] [] [] [] [] None false.

Definition toy_load (spec : LoadSpec) (e : list ToyScript) : result Toy EngineError * list ToyScript :=
  match load_program spec with
  | Bytecode _ => (Err (ProgramError "no bytecode"), e)
  | Source_ text =>
      if bool_decide (text = "bad") then (Err (ProgramError "a syntax error"), e)
      else match e with
           | [] => (Ok (toy_blank text), [])
           | MkToyScript life out target :: rest =>
               (Ok (MkToy text life [] [] out [] [] target false), rest)
           end
  end.

#[export] Instance toy_engine : EngineOps (list ToyScript) Toy := {|
  e_load := toy_load;
  e_restore spec e := (Ok (toy_blank "restored"), e)
|}.

(** ** It is lawful *)

Lemma toy_get_set q q' l i : (q < 6)%N →
  toy_get q' (toy_set q l i) = if bool_decide (q = q') then l else toy_get q' i.
Proof.
  intros Hq. assert (q = 0 ∨ q = 1 ∨ q = 2 ∨ q = 3 ∨ q = 4 ∨ q = 5)%N as Hc by lia.
  destruct i, Hc as [->|[->|[->|[->|[->| ->]]]]]; case_bool_decide as Hqq; subst; try done;
    destruct q' as [|[[[]|[]|]|[[]|[]|]|]]; done.
Qed.

Definition toy_waiting (i : Toy) (name : string) : nat :=
  match toy_handle name with Some q => length (toy_front (toy_get q i)) | None => 0 end.

Definition toy_named (_ : Toy) (q : N) (name : string) : Prop := toy_handle name = Some q.

Lemma toy_handle_lt name q : toy_handle name = Some q → (q < 6)%N ∧ q ≠ 3%N.
Proof. unfold toy_handle. repeat case_bool_decide; intros Hq; try done; injection Hq as <-; done. Qed.

Lemma toy_handle_inj a b q : toy_handle a = Some q → toy_handle b = Some q → a = b.
Proof. unfold toy_handle. repeat case_bool_decide; intros; congruence. Qed.

Lemma toy_pop_front q i q' : 
  length (toy_front (toy_get q' (toy_pop q i).2)) ≤ length (toy_front (toy_get q' i)).
Proof.
  unfold toy_pop. destruct (toy_front (toy_get q i)) as [|m rest] eqn:Hf; [done|]. cbn [snd].
  destruct (decide (q < 6)%N) as [Hq|Hq].
  - rewrite toy_get_set by done. case_bool_decide; [subst|done].
    rewrite Hf. unfold toy_front. rewrite length_take. cbn [length]. lia.
  - exfalso. unfold toy_get in Hf. by destruct q as [|[[[]|[]|]|[[]|[]|]|]].
Qed.

Lemma toy_pop_less q i m : (q < 6)%N → (toy_pop q i).1 = Ok (Some m) →
  length (toy_front (toy_get q (toy_pop q i).2)) < length (toy_front (toy_get q i)).
Proof.
  intros Hq. unfold toy_pop. destruct (toy_front (toy_get q i)) as [|m' rest] eqn:Hf; [done|].
  intros _. cbn [snd]. rewrite toy_get_set, bool_decide_eq_true_2 by done.
  unfold toy_front. rewrite length_take. cbn [length]. lia.
Qed.

Lemma toy_push_front q q' m i : q ≠ q' →
  length (toy_front (toy_get q' (toy_push q m i).2)) ≤ length (toy_front (toy_get q' i)).
Proof.
  intros Hne. assert (Hset : ∀ l, toy_get q' (toy_set q l i) = toy_get q' i).
  { intros l. destruct (decide (q < 6)%N) as [Hq|Hq]; [by rewrite toy_get_set, bool_decide_eq_false_2|].
    destruct i. unfold toy_set. by destruct q as [|[[[]|[]|]|[[]|[]|]|]]. }
  unfold toy_push. repeat case_bool_decide; cbn [snd]; by rewrite ?Hset.
Qed.

Lemma toy_waiting_le i name q' :
  (∀ q, length (toy_front (toy_get q q')) ≤ length (toy_front (toy_get q i))) →
  toy_waiting q' name ≤ toy_waiting i name.
Proof. intros Hq. unfold toy_waiting. by destruct (toy_handle name). Qed.

#[export] Instance toy_lawful : LawfulInstance Toy.
Proof.
  refine {| l_named := toy_named; l_endpoint _ q := q = 3%N; l_waiting := toy_waiting;
            l_outbound i q := length (toy_front (toy_get q i)); l_capacity := TOY_BOUND |};
    try (by intros; repeat split).
  - intros i name. unfold toy_waiting. destruct (toy_handle name); [apply firstn_le_length|lia].
  - intros i q. apply firstn_le_length.
  - intros i k q. cbn. case_bool_decide; [|done]. by intros [= <-].
  - intros i q. split; [split; [done|]|].
    + intros q' ->. split; [done|]. apply toy_pop_front.
    + intros name. apply toy_waiting_le. intros q'. apply toy_pop_front.
  - intros i q name m Hn Hpop. unfold toy_waiting. rewrite Hn. eapply toy_pop_less; [|exact Hpop].
    pose proof (toy_handle_lt name q Hn). lia.
  - intros i q m -> Hpop. by eapply toy_pop_less.
  - intros i q name m Hn. split; [split; [done|]|].
    + intros q' ->. split; [done|]. apply toy_push_front.
      pose proof (toy_handle_lt name q Hn). lia.
    + intros name' Hne. unfold toy_waiting. destruct (toy_handle name') as [q'|] eqn:Hq'; [|done].
      apply toy_push_front. intros ->. apply Hne. by eapply toy_handle_inj.
Defined.

#[export] Instance toy_host : LawfulHost StepHost Toy.
Proof. by intros id caps inst h q n. Qed.

(** ** A run *)

Definition demo_request (fields : list (string * Value)) : bytes :=
  default [] (write_value (VMap ((λ '(k, v), (vstr k, v)) <$> fields))).

Definition demo_spawn (name code : string) (caps : list string) : bytes :=
  demo_request [("op", vstr "spawn"); ("name", vstr name); ("code", vstr code);
                ("caps", VArr (vstr <$> caps)); ("wake_on_message", VBool true)].

(** A root that spawns two children, of which the first spawns one more. *)
Definition demo_engine : list ToyScript := [
  MkToyScript [demo_spawn "a" "wait" ["lifecycle"; "net/*"]; demo_spawn "b" "wait" ["net/http"]]
    [] None;
  MkToyScript [demo_spawn "c" "wait" ["net/http"]] [] None ].

Definition demo_caps : list Grant := [grant "lifecycle"; grant "net/*"; deny "net/raw"].

Definition demo_calls : list call :=
  [CRoot (as_bytes "wait") demo_caps Budget.default Numeric.default; CStep; CStep].

Definition demo_start : Swarm (list ToyScript) StepHost Toy :=
  with_limits demo_engine StepHost.new 8 8.

Definition demo : Swarm (list ToyScript) StepHost Toy :=
  match run_calls 6 demo_calls demo_start with Ret _ s => s | _ => demo_start end.

Example demo_runs : run_calls 6 demo_calls demo_start = Ret tt demo.
Proof. vm_compute. reflexivity. Qed.

Example demo_paths : (λ sl, (s_id sl, s_parent sl, s_path sl)) <$> slots demo =
  [(1%N, 0%N, "root"); (2%N, 1%N, "root/a"); (3%N, 1%N, "root/b"); (4%N, 2%N, "root/a/c")].
Proof. vm_compute. reflexivity. Qed.
