(* ===== verification/SwarmSpec.v ===== *)
(** * What the swarm's operations promise

    The contracts of subtree kill, ancestry, the lifecycle requests,
    delivery, hibernation and references, as equations on what the operation
    returns and the table it leaves, for every engine and host. *)

From S2P Require Import Prelude.
From S2P Require Import Bytes.
From S2P Require Import Value.
From S2P Require Import Caps.
From S2P Require Import Config.
From S2P Require Import Node.
From S2P Require Import Engine.
From S2P Require Import Requests.
From S2P Require Import Msgpack.
From S2P Require Import Swarm.
From S2P Require Import SwarmQuiet.
From S2P Require Import SwarmInv.
From S2P Require Import SwarmKill.
From S2P Require Import SwarmSafe.
From S2P Require Import SwarmStep.
From S2P Require Import SwarmLive.
From S2P Require Import Toy.

(** ** Operations that count nothing

    Only claiming a handle can overflow. *)

Definition sure {S A} (m : M S A) : Prop := ∀ s, m s ≠ Overflow.

Section sure.
Context {S : Type}.

Lemma sure_bind {A B} (m : M S A) (f : A → M S B) :
  sure m → (∀ a, sure (f a)) → sure (m ≫= f).
Proof.
  intros Hm Hf s. unfold mbind, M_bind. specialize (Hm s).
  destruct (m s) as [a s'| | |]; [apply Hf|done..].
Qed.

Lemma sure_ret {A} (a : A) : sure (mret a : M S A).
Proof. done. Qed.

Lemma sure_expect {A} (o : option A) : sure (expect o : M S A).
Proof. by destruct o. Qed.

Lemma sure_when b (m : M S unit) : sure m → sure (when b m).
Proof. by destruct b. Qed.

Lemma sure_for_range body : (∀ i, sure (body i : M S unit)) → ∀ n start, sure (for_range start n body).
Proof. intros Hb n. induction n; intros start; [done|]. by apply sure_bind. Qed.

Lemma sure_loop (body : M S bool) : sure body → ∀ fuel, sure (loop fuel body).
Proof.
  intros Hb fuel. induction fuel; [done|]. apply sure_bind; [done|]. by intros [].
Qed.

End sure.

Create HintDb sure.
#[export] Hint Resolve sure_expect sure_ret : sure.

(** Everything but the loops, by structure. *)
Ltac sure_steps :=
  repeat first
    [ progress intros
    | solve [eauto with sure]
    | apply sure_bind
    | apply sure_when
    | apply sure_for_range
    | apply sure_loop
    | case_match
    | progress cbv zeta
    | done ].

Section sure_ops.
Context {E H I : Type} {Ops : InstanceOps I} {EOps : EngineOps E I}
  {Host : SwarmHost H I} {Cdc : Codec} {RW : RefWire}.
Abbreviation Mn := (M (Swarm E H I)).

Lemma sure_get : sure (get_state : Mn _). Proof. done. Qed.
Lemma sure_put s : sure (put_state s : Mn _). Proof. done. Qed.
Lemma sure_modify f : sure (modify f : Mn _). Proof. done. Qed.
#[local] Hint Resolve sure_get sure_put sure_modify : sure.

Lemma sure_slot_at i : sure (slot_at i : Mn _).
Proof. unfold slot_at. sure_steps. Qed.
Lemma sure_upd_slot i f : sure (upd_slot i f : Mn _).
Proof. unfold upd_slot. sure_steps. Qed.
Lemma sure_host_do f : sure (host_do f : Mn _).
Proof. apply sure_modify. Qed.
#[local] Hint Resolve sure_slot_at sure_upd_slot sure_host_do : sure.

Lemma sure_inst_call {A} i (f : I → A * I) : sure (inst_call i f : Mn _).
Proof. unfold inst_call. sure_steps. Qed.
#[local] Hint Resolve sure_inst_call : sure.

Lemma sure_enable id : sure (enable_endpoints id : Mn _).
Proof. unfold enable_endpoints. sure_steps. Qed.
#[local] Hint Resolve sure_enable : sure.

Lemma sure_emit_fields a b c d e x : sure (emit_fields a b c d e x : Mn _).
Proof. unfold emit_fields. sure_steps. Qed.
Lemma sure_emit a b c d : sure (emit a b c d : Mn _).
Proof. apply sure_emit_fields. Qed.
#[local] Hint Resolve sure_emit_fields sure_emit : sure.

Lemma sure_mark_one i : sure (mark_one i : Mn _).
Proof. unfold mark_one. sure_steps. Qed.
#[local] Hint Resolve sure_mark_one : sure.

Lemma sure_mark_pass n : ∀ start, sure (mark_pass start n : Mn _).
Proof. induction n; intros start; cbn [mark_pass]; sure_steps. Qed.
#[local] Hint Resolve sure_mark_pass : sure.

Lemma sure_release_doomed i : sure (release_doomed i : Mn _).
Proof. unfold release_doomed, release. sure_steps. Qed.
#[local] Hint Resolve sure_release_doomed : sure.

Lemma sure_kill_subtree id b : sure (kill_subtree id b : Mn _).
Proof. unfold kill_subtree. sure_steps. Qed.

Lemma sure_walk_up fuel a : ∀ w, sure (walk_up fuel a w : Mn _).
Proof. induction fuel; intros w; cbn [walk_up]; sure_steps. Qed.
#[local] Hint Resolve sure_kill_subtree sure_walk_up : sure.

Lemma sure_is_ancestor a i : sure (is_ancestor a i : Mn _).
Proof. unfold is_ancestor. sure_steps. Qed.
#[local] Hint Resolve sure_is_ancestor : sure.

Lemma sure_do_kill i r : sure (do_kill i r : Mn _).
Proof. unfold do_kill. sure_steps. Qed.

Lemma sure_hibernate id : sure (hibernate id : Mn _).
Proof. unfold hibernate. sure_steps. Qed.

Lemma sure_wake id : sure (wake id : Mn _).
Proof. unfold wake. sure_steps. Qed.

Lemma sure_resolve_queue i q : sure (resolve_queue i q : Mn _).
Proof. unfold resolve_queue. sure_steps. Qed.
#[local] Hint Resolve sure_resolve_queue : sure.

Lemma sure_push id q from msg : sure (push id q from msg : Mn _).
Proof. unfold push. sure_steps. Qed.

End sure_ops.

(** A sure operation that meets its precondition returns. *)
Lemma wp_sure {S A} (m : M S A) Q s :
  sure m → wp true m Q s → ∃ a s', m s = Ret a s' ∧ Q a s'.
Proof. intros Hm Hwp. destruct (wp_total_inv _ _ _ Hwp); [by destruct (Hm s)|done]. Qed.

Section specs.
Context {E H I : Type} {Ops : InstanceOps I} {EOps : EngineOps E I}
  {Host : SwarmHost H I} {Cdc : Codec} {RW : RefWire}.
#[local] Existing Instances any_name any_flow.
Implicit Types (s : Swarm E H I) (sl : Slot I).

(** ** Subtree kill *)

(** The same instance, grant and place. *)
Record untouched sl sl' : Prop := {
  un_grant : same_grant sl sl';
  un_parent : s_parent sl' = s_parent sl;
  un_resident : is_Some (s_inst sl') ↔ is_Some (s_inst sl);
  un_snap : s_snap sl' = s_snap sl;
  un_deferred : s_deferred sl' = s_deferred sl
}.

Lemma same_untouched sl sl' b : same_slot (set_doomed b sl) sl' → untouched sl sl'.
Proof. intros []. by split; [split|..]. Qed.

Lemma killed_quiet s target s1 s' j sl :
  wf s → killed s target s1 → quiet s1 s' → slots s !! j = Some sl → s_id sl ≠ 0%N →
  (under s target j → slot_of s' (s_id sl) = None) ∧
  (¬ under s target j → ∃ sl', slot_of s' (s_id sl) = Some sl' ∧ untouched sl sl').
Proof.
  intros Hwf Hk Hq Hj Hz. pose proof Hwf as [Hw _].
  assert (wf0 s') as Hw' by (eapply quiet_wf0; [done|]; by apply (killed_wf s target)).
  split; intros Hu.
  - apply eq_None_not_Some. intros [x Hx]. apply wf_slot_of in Hx as (_ & k & Hk' & Hid); [|done].
    destruct (quiet_lookup_rev s1 s' k x Hq Hk') as (y & Hy & Hs).
    rewrite (same_id _ _ Hs) in Hid.
    destruct (killed_lookup s target s1 k y Hk Hy) as [[-> _]|(Hn & z & Hz' & ->)].
    + by apply Hz.
    + cbn in Hid. apply Hn.
      by rewrite (wf_unique s k j z sl) by (done || congruence).
  - pose proof (killed_survives s target s1 j sl Hk Hj Hu) as Hj1.
    destruct (quiet_lookup s1 s' j _ Hq Hj1) as (x & Hx & Hs). exists x.
    split; [|by eapply same_untouched]. apply wf_slot_of; [done|]. split; [done|].
    exists j. split; [done|]. apply (same_id _ _ Hs).
Qed.

Lemma killed_no_more s target s1 s' id :
  wf s → killed s target s1 → quiet s1 s' → is_Some (slot_of s' id) → is_Some (slot_of s id).
Proof.
  intros Hwf Hk Hq [x Hx]. pose proof Hwf as [Hw _].
  assert (wf0 s') as Hw' by (eapply quiet_wf0; [done|]; by apply (killed_wf s target)).
  apply wf_slot_of in Hx as (Hid & k & Hk' & <-); [|done].
  destruct (quiet_lookup_rev s1 s' k x Hq Hk') as (y & Hy & Hs).
  rewrite (same_id _ _ Hs) in Hid |- *.
  destruct (killed_lookup s target s1 k y Hk Hy) as [[-> _]|(Hn & z & Hz' & ->)]; [by cbn in Hid|].
  exists z. apply wf_slot_of; [done|]. split; [done|]. by exists k.
Qed.

(** C3: [kill_subtree] ends exactly the subtree.  It returns, whatever the
    shape of the tree, and afterwards the instances at or below the target
    are gone, every other keeps its handle, grant, parent, residency and
    cached image, and nothing new exists. *)
Theorem kill_subtree_exact s id target notify
  (Hwf : wf s) (Hf : find s id = Some target) :
  ∃ s', kill_subtree id notify s = Ret tt s' ∧ wf s' ∧
    (∀ j sl, slots s !! j = Some sl → s_id sl ≠ 0%N →
       (under s target j → slot_of s' (s_id sl) = None) ∧
       (¬ under s target j → ∃ sl', slot_of s' (s_id sl) = Some sl' ∧ untouched sl sl')) ∧
    (∀ id', is_Some (slot_of s' id') → is_Some (slot_of s id')).
Proof.
  destruct (wp_sure _ _ _ (sure_kill_subtree id notify) (wp_kill_subtree true s id notify Hwf))
    as ([] & s' & Hrun & Hwf' & Hk). rewrite Hf in Hk. destruct Hk as (s1 & Hk & Hq).
  exists s'. split_and!; [done..| |].
  - intros j sl. by eapply killed_quiet.
  - intros id'. by eapply killed_no_more.
Qed.

(** ** Ancestry and the right to kill *)

(** [is_ancestor] decides ancestry: it returns, leaves the swarm as it
    was, and answers whether the handle is on the chain of parents of the
    slot. *)
Theorem is_ancestor_spec s a i sl (Hwf : wf s) (Hsl : slots s !! i = Some sl) :
  ∃ b, is_ancestor a i s = Ret b s ∧ (b = true ↔ ancestor s a (s_parent sl)).
Proof.
  destruct (wp_sure _ _ _ (sure_is_ancestor a i) (wp_is_ancestor true s a i sl Hwf Hsl))
    as (b & s' & Hrun & -> & Hb). by exists b.
Qed.

Lemma under_ancestor s me target tsl j :
  wf0 s → slots s !! target = Some tsl → ancestor s me (s_parent tsl) → under s target j →
  ∀ x, slots s !! j = Some x → ancestor s me (s_parent x).
Proof.
  intros Hw Ht Ha Hu. induction Hu as [|j sl p Hj Hz Hpz Hp Hu IH]; intros x Hx; simplify_eq; [done|].
  pose proof Hp as (_ & psl & Hpsl & Hpid)%wf_find; [|done].
  apply (anc_up s me _ psl); [done| |by apply IH].
  apply wf_slot_of; [done|]. split; [done|]. by exists p.
Qed.

(** C17: A kill request ends descendants of its sender and nobody else.
    Whatever the request says, [do_kill] returns, an instance that is gone
    afterwards has the requester among the parents above it, and in
    particular the requester itself and its ancestors survive. *)
Theorem do_kill_only_descendants s i sl request (Hwf : wf s) (Hsl : slots s !! i = Some sl) :
  ∃ s', do_kill i request s = Ret tt s' ∧ wf s' ∧
    ∀ j x, slots s !! j = Some x → s_id x ≠ 0%N → slot_of s' (s_id x) = None →
           ancestor s (s_id sl) (s_parent x).
Proof.
  pose proof Hwf as [Hw _].
  destruct (wp_sure _ _ _ (sure_do_kill i request) (wp_do_kill true s i sl request Hwf Hsl))
    as ([] & s' & Hrun & Hwf' & _ & Hk). exists s'. split_and!; [done..|].
  intros j x Hj Hz Hgone. destruct Hk as [Hq|ti tsl s1 Hti Ha Hk Hq].
  - destruct (quiet_lookup s s' j x Hq Hj) as (x' & Hx' & Hs).
    assert (slot_of s' (s_id x) = Some x') as Hso; [|by rewrite Hso in Hgone].
    apply wf_slot_of; [apply Hwf'|]. split; [done|]. exists j. split; [done|]. apply (same_id _ _ Hs).
  - destruct (killed_quiet s ti s1 s' j x Hwf Hk Hq Hj Hz) as [_ Hs].
    pose proof (ki_slots _ _ _ Hk) as (d & Hex & _). destruct (d j) eqn:Hd.
    + apply (under_ancestor s (s_id sl) ti tsl j Hw Hti Ha); [by apply Hex|done].
    + destruct Hs as (? & Hx & _); [|by rewrite Hx in Hgone]. intros Hu%Hex. congruence.
Qed.

(** ** The ceiling of a tree *)

(** Every grant under a pattern of the root's, every deny of the root's. *)
Definition under_caps (r c : CapSet) : Prop :=
  (∀ g, g ∈ grants c → is_grant g = true → ∃ rg, rg ∈ grants r ∧ is_grant rg = true ∧
    implies (capability rg) (capability g) = true) ∧
  (∀ d, d ∈ grants r → is_deny d = true → d ∈ grants c).

Lemma under_caps_refl c : under_caps c c.
Proof. split; eauto using implies_refl. Qed.

Lemma under_caps_step r p c names h by_ :
  CapSetFacts.clean_grants (grants r) → under_caps r p →
  CapSet.attenuate_held_by p h by_
    ((grant <$> names) ++ filter (λ g, is_deny g = true) (grants p)) = Ok c →
  under_caps r c.
Proof.
  intros Hr [Hg Hd] (-> & Hc & _)%CapSetFacts.attenuate_inv. split; cbn [grants].
  - intros g Hin Hgr. specialize (Hc g Hin Hgr).
    apply CapSetFacts.holds_iff in Hc as [(pg & Hpg & Hpg' & Himp) _].
    destruct (Hg pg Hpg Hpg') as (rg & ? & ? & ?). exists rg. eauto using implies_trans.
  - intros d Hdr Hdd. apply elem_of_app. right. apply list_elem_of_filter. auto.
Qed.

Lemma under_caps_holds r c want :
  CapSetFacts.clean_grants (grants r) → under_caps r c →
  CapSet.holds c want = true → CapSet.holds r want = true.
Proof.
  intros Hr [Hg Hd]. rewrite !CapSetFacts.holds_iff. intros [(g & Hin & Hgr & Himp) Hno]. split.
  - destruct (Hg g Hin Hgr) as (rg & ? & ? & ?). exists rg. eauto using implies_trans.
  - intros d Hdr Hdd. auto.
Qed.

(** What a root's limits allow an instance below it. *)
Record within_root (r c : Slot I) : Prop := {
  wr_path : ∃ names, NodePath.segments (s_path c) = NodePath.segments (s_path r) ++ names;
  wr_caps : CapSetFacts.clean_grants (grants (s_caps r)) → under_caps (s_caps r) (s_caps c);
  wr_budget : budget_within (s_budget c) (s_budget r);
  wr_numeric : numeric_within (s_numeric c) (s_numeric r);
  wr_stdlib : s_unsafe_stdlib c = true → s_unsafe_stdlib r = true;
  wr_debug : s_unsafe_debug c = true → s_unsafe_debug r = true
}.

Lemma within_root_refl r : within_root r r.
Proof.
  split; try done; [by exists []; rewrite app_nil_r|intros _; apply under_caps_refl].
Qed.

Lemma within_root_step r p c : within_root r p → child_of p c → within_root r c.
Proof.
  intros [[names Hn]] [[name Hp] [cs Hc]]. split; [|intros; by eapply under_caps_step; eauto
    |by etrans|by etrans|auto|auto].
  exists (names ++ [name]). rewrite (NodeFacts.child_segments _ _ _ Hp), Hn. by rewrite app_assoc.
Qed.

(** C5: Every instance stays inside its root, at any depth.  Each instance of
    a good table hangs below a live root: its path extends the root's, its
    budget and numeric bounds are no larger, it has no unsafe library the
    root lacks, and, for a root whose grants do not end in two stars, it
    holds no capability the root does not hold. *)
Theorem tree_within_root s id sl (Hwf : wf s) (Hsl : slot_of s id = Some sl) :
  ∃ r rsl, slot_of s r = Some rsl ∧ root_ok rsl ∧ ancestor s r id ∧ within_root rsl sl ∧
    (CapSetFacts.clean_grants (grants (s_caps rsl)) →
     ∀ want, CapSet.holds (s_caps sl) want = true → CapSet.holds (s_caps rsl) want = true).
Proof.
  pose proof Hwf as [Hw Hl].
  enough (∃ r rsl, slot_of s r = Some rsl ∧ root_ok rsl ∧ ancestor s r id ∧ within_root rsl sl)
    as (r & rsl & ? & ? & ? & Hwr).
  { exists r, rsl. split_and!; [done..|]. intros Hc want. apply under_caps_holds; [done|].
    by apply Hwr. }
  revert sl Hsl. induction (N.lt_wf_0 id) as [id _ IH]. intros sl Hsl.
  pose proof Hsl as (Hid & i & Hi & Hsid)%wf_slot_of; [|done].
  assert (Hz : s_id sl ≠ 0%N) by congruence.
  destruct (wf_slot s Hw i sl Hi Hz (Hl i sl Hi Hz)) as [_ _ _ [Hroot|Hpar]].
  - exists id, sl. split_and!; [done..|by constructor|apply within_root_refl].
  - destruct Hpar as (j & p & Hj & Hpid & Hpz & _ & Hlt & Hc).
    destruct (IH (s_parent sl)) with (sl := p) as (r & rsl & ? & ? & ? & ?).
    + congruence.
    + apply wf_slot_of; [done|]. split; [congruence|]. by exists j.
    + exists r, rsl. split_and!; [done..| |by eapply within_root_step].
      by apply (anc_up s r id sl).
Qed.

(** ** Spawning *)

(** C11: A spawn request adds at most one instance, and only one its sender
    could make.  [do_spawn] returns unless the handles run out; then every
    instance there was is still there with its grant, and an instance that is
    new has a handle no instance had, the requester as parent, a path one
    segment below the requester's, capabilities attenuated from the
    requester's with all its denies, bounds within the requester's, and no
    unsafe library the requester lacks. *)
Theorem do_spawn_attenuates `{!RefWireLaws} s i psl request
  (Hwf : wf s) (Hsl : slots s !! i = Some psl) (Hz : s_id psl ≠ 0%N) :
  do_spawn i request s = Overflow ∨
  ∃ s', do_spawn i request s = Ret tt s' ∧ wf s' ∧
    (∀ id sl, slot_of s id = Some sl → ∃ sl', slot_of s' id = Some sl' ∧ same_grant sl sl') ∧
    (∀ id sl', slot_of s' id = Some sl' → slot_of s id = None →
       id = next_id s ∧ s_parent sl' = s_id psl ∧ child_of psl sl').
Proof.
  pose proof Hwf as [Hw Hl].
  destruct (wp_total_inv _ _ _ (wp_do_spawn true s i psl request Hwf Hsl Hz))
    as [?|([] & s' & Hrun & Hwf' & _ & Hres)]; [by left|right].
  exists s'. split_and!; [done..| |].
  - intros id sl (Hid & k & Hk & Hsid)%wf_slot_of; [|done].
    assert (Hex : ∃ sl', slots s' !! k = Some sl' ∧ same_slot sl sl').
    { destruct Hres as [Hq|ci s1 Hp Hq|ci x s1 Hp _ _ _ _ _ Hq]; [by apply (quiet_lookup s s')|..];
        destruct (pd_others _ _ _ _ Hp k sl Hk ltac:(congruence)) as [_ Hk1];
        by apply (quiet_lookup _ s' k sl Hq). }
    destruct Hex as (sl' & Hk' & Hs). exists sl'. split; [|by destruct Hs; split].
    apply wf_slot_of; [apply Hwf'|]. split; [done|]. exists k. split; [done|].
    by rewrite (same_id _ _ Hs).
  - intros id sl' (Hid & k & Hk & Hsid)%wf_slot_of Hnone; [|apply Hwf'].
    assert (Hold : ∀ y, slots s !! k = Some y → same_slot y sl' → False).
    { intros y Hy Hs. assert (slot_of s id = Some y) as Hso; [|congruence].
      apply wf_slot_of; [done|]. split; [done|]. exists k. split; [done|].
      by rewrite <-(same_id _ _ Hs). }
    destruct Hres as [Hq|ci s1 Hp Hq|ci x s1 Hp Hxid _ Hpar Hch _ Hq].
    + destruct (quiet_lookup_rev s s' k sl' Hq Hk) as (y & Hy & Hs). by destruct (Hold y).
    + destruct (quiet_lookup_rev s1 s' k sl' Hq Hk) as (y & Hy & Hs).
      destruct (decide (k = ci)) as [->|Hne].
      * rewrite (pd_slot _ _ _ _ Hp) in Hy. injection Hy as <-.
        rewrite (same_id _ _ Hs) in Hsid. by cbn in Hsid.
      * destruct (Hold y); [by apply (pd_back _ _ _ _ Hp)|done].
    + destruct (quiet_lookup_rev _ s' k sl' Hq Hk) as (y & Hy & Hs). cbn in Hy.
      destruct (decide (k = ci)) as [->|Hne].
      * rewrite (pd_slot _ _ _ _ Hp) in Hy. injection Hy as <-. rewrite <-Hsid.
        rewrite (same_id _ _ Hs), (same_parent _ _ Hs). split_and!; [done..|].
        by eapply child_of_same; [reflexivity|..].
      * destruct (Hold y); [by apply (pd_back _ _ _ _ Hp)|done].
Qed.

(** ** Delivery *)

(** What a cached instance accepts.  A push to an instance that is not
    resident returns: it succeeds exactly when the instance asked to be woken,
    the queue name is usable and fewer than [MAX_PENDING] messages wait; then
    the message joins the end of the wake buffer under the sender the swarm
    attached and nothing else changes, and a refusal changes nothing at
    all. *)
Theorem push_cached_spec s id i sl queue from msg
  (Hf : find s id = Some i) (Hsl : slots s !! i = Some sl)
  (Hal : s_alive sl = true) (Hcached : s_inst sl = None) :
  ∃ r, push id queue from msg s = Ret r
    (if bool_decide (r = Ok tt) then
       set_slots (<[i := set_pending (s_pending sl ++ [MkPending queue (attach_sender msg from)]) sl]>
         (slots s)) s
     else s) ∧
    (r = Ok tt ↔ s_wake_on_message sl = true ∧ queue ≠ "" ∧ str_len queue < MAX_QNAME ∧
                 length (s_pending sl) < MAX_PENDING).
Proof.
  assert (Hwp : wp true (push id queue from msg) (λ r s', s' =
    (if bool_decide (r = Ok tt) then
       set_slots (<[i := set_pending (s_pending sl ++ [MkPending queue (attach_sender msg from)]) sl]>
         (slots s)) s
     else s) ∧
    (r = Ok tt ↔ s_wake_on_message sl = true ∧ queue ≠ "" ∧ str_len queue < MAX_QNAME ∧
                 length (s_pending sl) < MAX_PENDING)) s).
  { unfold push. do 2 wp_step. rewrite Hf. wp_step. eapply wp_slot_at; [done|].
    rewrite Hal, Hcached. cbn [negb]. rewrite bool_decide_eq_false_2 by by intros [? [=]].
    destruct (s_wake_on_message sl); cbn [negb]; [|wp_step; split; [done|]; split; [done|by intros [? _]]].
    assert (He : str_is_empty queue = true ↔ queue = "") by by destruct queue.
    destruct (str_is_empty queue); cbn [orb].
    { wp_step. split; [done|]. split; [done|]. naive_solver. }
    case_bool_decide; [wp_step; split; [done|]; split; [done|]; lia|].
    case_bool_decide; [wp_step; split; [done|]; split; [done|]; lia|].
    wp_step. eapply wp_upd_slot; [done|]. wp_step. split; [done|]. split; [|done]. intros _.
    split_and!; [done| |lia|lia]. intros Hq. apply He in Hq. done. }
  destruct (wp_sure _ _ _ (sure_push id queue from msg) Hwp) as (r & s' & Hrun & -> & ?).
  by exists r.
Qed.

(** The handle a push uses, and the instance once it is looked up. *)
Definition handle_of sl queue (inst : I) : option QueueHandle * I :=
  match find_first (λ nh : string * QueueHandle, bool_decide (nh.1 = queue)) (s_handles sl) with
  | Some (_, h) => (Some h, inst)
  | None => i_queue queue inst
  end.

(** The outcome of handing [m] to a resident instance, slot [i] of [s]. *)
Definition handed s i sl inst queue (m : bytes) (r : result unit SwarmError) s' : Prop :=
  ∃ sl', slots s' !! i = Some sl' ∧ (∀ j, j ≠ i → slots s' !! j = slots s !! j) ∧
    match handle_of sl queue inst with
    | (None, inst1) => r = Err UnknownQueue ∧ s_inst sl' = Some inst1
    | (Some q, inst1) =>
        s_inst sl' = Some (i_push q m inst1).2 ∧
        (r = Ok tt ↔ (i_push q m inst1).1 = Ok Accepted) ∧
        ((i_push q m inst1).1 = Ok DroppedOldest → ∃ why, r = Err (Limit why))
    end.

(** The push itself, once the handle is known. *)
Lemma wp_hand s i sl inst queue m s1 sl1 q inst1 :
  slots s1 !! i = Some sl1 → s_inst sl1 = Some inst1 →
  (∀ j, j ≠ i → slots s1 !! j = slots s !! j) → handle_of sl queue inst = (Some q, inst1) →
  wp true (pushed ← inst_call i (i_push q m);
    pushed ← expect pushed;
    match pushed with
    | Ok Accepted => mret (Ok tt)
    | Ok _ => mret (Err (Limit ("'" +:+ queue +:+ "' did not accept the message")))
    | Err e => mret (Err (SwarmErr (engine_error_text e)))
    end) (handed s i sl inst queue m) s1.
Proof.
  intros H1 Hi1 Ho1 Hh. assert (Hlt : i < length (slots s1)) by by eapply lookup_lt_Some.
  wp_step. eapply wp_inst_call; [done|]. rewrite Hi1. wp_step. eapply wp_expect; [done|].
  assert (Hend : ∀ r, (r = Ok tt ↔ (i_push q m inst1).1 = Ok Accepted) →
    ((i_push q m inst1).1 = Ok DroppedOldest → ∃ why, r = Err (Limit why)) →
    handed s i sl inst queue m r
      (set_slots (<[i:=set_inst (Some (i_push q m inst1).2) sl1]> (slots s1)) s1)).
  { intros r Hr Hd. eexists. split; [by apply list_lookup_insert_eq|]. split.
    - intros j Hj. cbn. rewrite list_lookup_insert_ne by done. auto.
    - by rewrite Hh. }
  destruct (i_push q m inst1).1 as [[]|e] eqn:Ho; wp_step; apply Hend;
    first [done|by intros [=]|by intros _; eexists].
Qed.

Lemma wp_push_resident s id i sl inst queue from msg :
  find s id = Some i → slots s !! i = Some sl → s_alive sl = true → s_inst sl = Some inst →
  wp true (push id queue from msg) (handed s i sl inst queue (attach_sender msg from)) s.
Proof.
  intros Hf Hsl Hal Hinst. assert (Hlt : i < length (slots s)) by by eapply lookup_lt_Some.
  unfold push. do 2 wp_step. rewrite Hf. wp_step. eapply wp_slot_at; [done|].
  rewrite Hal, Hinst. cbn [negb]. rewrite bool_decide_eq_true_2 by by eexists.
  wp_step. unfold resolve_queue. wp_step. eapply wp_slot_at; [done|].
  destruct (find_first _ (s_handles sl)) as [[n h]|] eqn:Hc.
  { wp_step. eapply wp_hand; [done..|]. unfold handle_of. by rewrite Hc. }
  wp_step. eapply wp_inst_call; [done|]. rewrite Hinst.
  destruct (i_queue queue inst) as [[q|] inst1] eqn:Hq; cbn [fst snd].
  - wp_step. eapply wp_upd_slot; [by apply list_lookup_insert_eq|]. wp_step.
    eapply wp_hand; [apply list_lookup_insert_eq; cbn; by rewrite length_insert|done| |].
    + intros j Hj. cbn. by rewrite !list_lookup_insert_ne.
    + unfold handle_of. by rewrite Hc, Hq.
  - do 2 wp_step. eexists. split; [by apply list_lookup_insert_eq|]. split.
    + intros j Hj. cbn. by rewrite list_lookup_insert_ne.
    + unfold handle_of. by rewrite Hc, Hq.
Qed.

(** What a resident instance accepts.  A push to a resident instance hands
    the message, under the sender the swarm attached, to the queue the cached
    handle or a fresh look-up names, exactly once; it succeeds exactly when
    the engine answers [Accepted], is refused as unknown when there is no
    such queue, and touches no other slot.  So [DroppedOldest], which is an
    acceptance, is reported as a refusal. *)
Theorem push_resident_spec s id i sl inst queue from msg
  (Hf : find s id = Some i) (Hsl : slots s !! i = Some sl)
  (Hal : s_alive sl = true) (Hinst : s_inst sl = Some inst) :
  ∃ r s', push id queue from msg s = Ret r s' ∧
          handed s i sl inst queue (attach_sender msg from) r s'.
Proof. by apply (wp_sure _ _ _ (sure_push id queue from msg)), wp_push_resident. Qed.

Lemma sure_retry_held i from tm : sure (retry_held i from tm : M (Swarm E H I) unit).
Proof.
  destruct tm. unfold retry_held, hold. apply sure_bind; [apply sure_enable|]. intros _.
  apply sure_bind; [apply sure_push|]. intros [?|[]]; first [apply sure_upd_slot|apply sure_ret].
Qed.

(** A routed message is delivered again and again.  When the far end's
    inbox takes a held message by evicting its oldest, the routing has handed
    it over and yet keeps it held, so the next step delivers it once more. *)
Theorem routing_redelivers s i sl t k tsl inst q inst1 from msg
  (Hsl : slots s !! i = Some sl) (Hf : find s t = Some k) (Hk : slots s !! k = Some tsl)
  (Hne : i ≠ k) (Hal : s_alive tsl = true) (Hinst : s_inst tsl = Some inst)
  (Hq : handle_of tsl INBOX (i_enable_endpoints inst) = (Some q, inst1))
  (Hdrop : (i_push q (attach_sender msg from) inst1).1 = Ok DroppedOldest) :
  ∃ s' sl' tsl', retry_held i from (t, msg) s = Ret tt s' ∧
    slots s' !! k = Some tsl' ∧ s_inst tsl' = Some (i_push q (attach_sender msg from) inst1).2 ∧
    slots s' !! i = Some sl' ∧ s_held sl' = s_held sl ++ [(t, msg)].
Proof.
  enough (wp true (retry_held i from (t, msg)) (λ _ s', ∃ sl' tsl',
    slots s' !! k = Some tsl' ∧ s_inst tsl' = Some (i_push q (attach_sender msg from) inst1).2 ∧
    slots s' !! i = Some sl' ∧ s_held sl' = s_held sl ++ [(t, msg)]) s) as Hwp.
  { destruct (wp_sure _ _ _ (sure_retry_held i from (t, msg)) Hwp)
      as ([] & s' & Hrun & sl' & tsl' & ?). by exists s', sl', tsl'. }
  assert (Hlt : k < length (slots s)) by by eapply lookup_lt_Some.
  unfold retry_held, enable_endpoints. do 3 wp_step. rewrite Hf. wp_step.
  eapply wp_upd_slot; [done|]. wp_step. eapply wp_inst_call; [by apply list_lookup_insert_eq|].
  cbn [s_inst set_endpoints]. rewrite Hinst. wp_step. cbn [snd].
  set (s1 := set_slots _ _).
  assert (Hk1 : slots s1 !! k = Some (set_inst (Some (i_enable_endpoints inst)) (set_endpoints true tsl))).
  { cbn. apply list_lookup_insert_eq. by rewrite length_insert. }
  wp_step. eapply wp_mono; [by apply (wp_push_resident s1 t k
    (set_inst (Some (i_enable_endpoints inst)) (set_endpoints true tsl)) (i_enable_endpoints inst))|].
  intros r s2 (tsl' & Htsl' & Ho & Hh). unfold handle_of in *. cbn [s_handles set_inst set_endpoints] in Hh.
  rewrite Hq in Hh. destruct Hh as (Hi & _ & Hd). destruct (Hd Hdrop) as [why ->].
  assert (Hsl2 : slots s2 !! i = Some sl).
  { rewrite Ho by done. cbn. by rewrite !list_lookup_insert_ne. }
  unfold hold. eapply wp_upd_slot; [done|]. exists (set_held (s_held sl ++ [(t, msg)]) sl), tsl'.
  split_and!; [|done|apply list_lookup_insert_eq; by eapply lookup_lt_Some|done].
  cbn. by rewrite list_lookup_insert_ne.
Qed.

(** ** References *)

(** A reference comes home and only home.  The reference [reference]
    mints for an instance is an endpoint extension that this swarm resolves
    to that instance, and a swarm of any other identity does not resolve at
    all. *)
Theorem reference_resolves_at_home `{!RefWireLaws} s id
  (Hwf : wf s) (Hid : id ≠ 0%N) (Hlt : (id < 2 ^ 32)%N) :
  ∃ payload, reference id s = Ret (VExt ENDPOINT_EXT_TYPE payload) s ∧
    resolve_reference s payload = Some id ∧
    (∀ s2, host_identity s2 ≠ host_identity s → resolve_reference s2 payload = None).
Proof.
  destruct (ref_wire_roundtrip (minted s id)) as (p & Hto & Hfrom).
  { apply minted_fits; [apply wf0_in_table, Hwf|done]. }
  assert (Hval : EndpointRef.from_value (VExt ENDPOINT_EXT_TYPE p) = Ok (minted s id)).
  { unfold EndpointRef.from_value. by rewrite bool_decide_eq_true_2, Hfrom. }
  exists p. split_and!.
  - unfold reference, mbind, M_bind, get_state. cbv beta iota.
    change (EndpointRef.local _ _) with (minted s id). unfold EndpointRef.to_value. by rewrite Hto.
  - unfold resolve_reference. rewrite Hval. unfold minted, EndpointRef.local.
    cbn [scheme identity address]. rewrite !bool_decide_eq_false_2 by naive_solver. cbn [orb].
    change ("/" +:+ INBOX) with (String "/" INBOX).
    rewrite split_once_app by by apply dec_no_char. cbn [mbind option_bind].
    rewrite bool_decide_eq_false_2 by naive_solver. rewrite parse_u32_dec by done.
    cbn [mbind option_bind]. by rewrite bool_decide_eq_true_2.
  - intros s2 Hne. unfold resolve_reference. rewrite Hval. unfold minted, EndpointRef.local.
    cbn [scheme identity address]. rewrite (bool_decide_eq_false_2 (SCHEME_LOCAL ≠ _)) by naive_solver.
    by rewrite bool_decide_eq_true_2 by congruence.
Qed.

(** ** The lifecycle queue *)

(** The queue is a channel only for a holder.  The requests of an instance
    that does not hold [lifecycle] are never read: draining it changes
    nothing, not even its queue. *)
Theorem drain_needs_lifecycle fuel s i sl
  (Hsl : slots s !! i = Some sl) (Hno : CapSet.holds (s_caps sl) CAP_LIFECYCLE = false) :
  drain fuel i s = Ret tt s.
Proof.
  unfold drain, slot_at, get_state, mbind, M_bind. cbv beta iota. rewrite Hsl. cbn [expect].
  unfold mret, M_ret. rewrite Hno. cbn [negb]. by destruct (_ || _).
Qed.

(** A spawn past the rate waits, first in line.  When the step's spawns
    are used up, a spawn request read from the queue ends the draining of its
    sender, spawns nothing, and is the next request the sender's next
    draining takes, unchanged. *)
Theorem throttled_spawn_waits s i sl s1 msg
  (Hwf : wf s) (Hsl : slots s !! i = Some sl) (Hz : s_id sl ≠ 0%N) (Hres : is_Some (s_inst sl))
  (Hnext : next_request i s = Ret (Some msg) s1)
  (Hfit : length msg ≤ REQUEST_CAP_BYTES)
  (Hop : (r ← read_request msg; field_str r "op") = Some "spawn")
  (Hrate : (spawn_rate s1 ≤ spawns_this_step s1)%N) :
  ∃ s' sl', drain_body i (s_id sl) s = Ret false s' ∧ slots s' !! i = Some sl' ∧
    next_id s' = next_id s1 ∧ spawns_this_step s' = spawns_this_step s1 ∧
    s_deferred sl' = Some msg ∧
    next_request i s' = Ret (Some msg) (set_slots (<[i := set_deferred None sl']> (slots s')) s').
Proof.
  destruct Hres as [inst Hinst].
  assert (Hn : wf s1 ∧ ∃ sl1, slots s1 !! i = Some sl1).
  { pose proof (wp_next_request (Fl := any_flow) false (λ _, 0) ltac:(done)
      s i sl inst Hwf Hsl Hz Hinst) as Hw.
    apply (wp_ret_inv _ _ _ _ _ _ Hw) in Hnext as (? & _ & sl1 & _ & ? & _). eauto. }
  destruct Hn as [Hwf1 [sl1 Hsl1]].
  assert (Hrun : drain_body i (s_id sl) s =
    (upd_slot i (set_deferred (Some msg));;
     emit (s_id sl) "throttled" 0 (Some "spawn rate limit");; mret false) s1).
  { unfold drain_body at 1, mbind at 1, M_bind at 1. rewrite Hnext. cbv beta iota zeta.
    rewrite bool_decide_eq_false_2 by lia. rewrite Hop.
    unfold mbind at 1, M_bind at 1, get_state. cbv beta iota.
    by rewrite !bool_decide_eq_true_2. }
  assert (Hwp : wp true (upd_slot i (set_deferred (Some msg));;
     emit (s_id sl) "throttled" 0 (Some "spawn rate limit");; mret false)
    (λ b s', b = false ∧ ∃ sl', slots s' !! i = Some sl' ∧ next_id s' = next_id s1 ∧
       spawns_this_step s' = spawns_this_step s1 ∧ s_deferred sl' = Some msg) s1).
  { wp_step. eapply wp_upd_slot; [done|]. set (s2 := set_slots _ s1).
    assert (Hsl2 : slots s2 !! i = Some (set_deferred (Some msg) sl1)).
    { apply list_lookup_insert_eq. by eapply lookup_lt_Some. }
    wp_step. eapply wp_mono; [apply (calm_emit (Fl := any_flow))|].
    - destruct (wf0_in_table s1 (proj1 Hwf1)) as [Hix Hi Hc]. split; [|done|].
      + intros id k Hk. cbn. rewrite length_insert. by eapply Hix.
      + cbn. apply Forall_insert; [done|]. apply (Forall_lookup_1 _ _ _ _ Hc Hsl1).
    - lia.
    - intros u s3 Hq. cbv beta in Hq. wp_step. split; [done|].
      destruct (quiet_lookup s2 s3 i _ Hq Hsl2) as (sl' & Hsl' & Hs). exists sl'.
      split_and!; [done|apply Hq|apply Hq|apply Hs]. }
  apply wp_sure in Hwp as (b & s' & Hrun' & -> & sl' & Hsl' & ? & ? & Hd);
    [|apply sure_bind; [apply sure_upd_slot|]; intros; apply sure_bind; [apply sure_emit|done]].
  exists s', sl'. split_and!; [by rewrite Hrun|done..|].
  unfold next_request, slot_at, upd_slot, get_state, put_state, mbind, M_bind, mret, M_ret.
  cbv beta iota. rewrite Hsl'. cbn [expect]. unfold mret, M_ret. rewrite Hd. cbv beta iota.
  rewrite Hsl'. by cbn [expect].
Qed.

(** ** Hibernating and waking *)

(** Hibernation trades the instance for its snapshot.  For a resident live
    instance in a swarm that allows it, [hibernate] succeeds exactly when the
    engine snapshots the instance: the slot then holds the snapshot and no
    instance and no cached handle, with everything else of it and every other
    slot as before, and the host is told it is detached.  A refusal keeps the
    instance resident. *)
Theorem hibernate_spec s id i sl inst
  (Hf : find s id = Some i) (Hsl : slots s !! i = Some sl) (Hal : s_alive sl = true)
  (Hinst : s_inst sl = Some inst) (Hallow : sw_allow_hibernation s = true) :
  let taken := i_snapshot (host_identity s) inst in
  ∃ r s', hibernate id s = Ret r s' ∧ index s' = index s ∧
    match taken.1 with
    | Ok snap => r = Ok tt ∧ host s' = h_detached id (host s) ∧ slots s' =
        <[i := set_handles [] (set_inst None (set_snap (Some snap) sl))]> (slots s)
    | Err _ => (∃ why, r = Err (SwarmErr why)) ∧ host s' = host s ∧
               slots s' = <[i := set_inst (Some taken.2) sl]> (slots s)
    end.
Proof.
  cbv zeta. apply (wp_sure _ _ _ (sure_hibernate id)). unfold hibernate.
  do 2 wp_step. rewrite Hf. wp_step. eapply wp_slot_at; [done|]. rewrite Hal, Hallow. cbn [negb].
  rewrite bool_decide_eq_false_2 by congruence. assert (Hlt : i < length (slots s)) by by eapply lookup_lt_Some.
  wp_step. eapply wp_inst_call; [done|]. rewrite Hinst. wp_step. eapply wp_expect; [done|].
  destruct (i_snapshot (host_identity s) inst).1 as [snap|e]; wp_step.
  - eapply wp_upd_slot; [by apply list_lookup_insert_eq|].
    wp_step. eapply wp_upd_slot; [apply list_lookup_insert_eq; cbn; by rewrite length_insert|].
    unfold host_do. wp_steps. cbn [slots set_slots set_host]. by rewrite !list_insert_insert_eq.
  - split; [done|]. split; [by eexists|done].
Qed.

(** Waking hands over what waited.  For a cached live instance with a
    snapshot, [wake] restores it with the budget, numeric bounds and unsafe
    flags its slot already has; when the engine restores it, the buffered
    messages are given to it in the order they came, with endpoints switched
    on first if it had any, and the buffer and the snapshot are gone; when the
    engine refuses, snapshot and buffer are kept. *)
Theorem wake_spec s id i sl snap
  (Hf : find s id = Some i) (Hsl : slots s !! i = Some sl) (Hal : s_alive sl = true)
  (Hinst : s_inst sl = None) (Hsnap : s_snap sl = Some snap) :
  let restored := e_restore (MkRestoreSpec snap (s_numeric sl) (host_identity s) (s_budget sl)
    (s_unsafe_stdlib sl) (s_unsafe_debug sl)) (engine s) in
  ∃ r s', wake id s = Ret r s' ∧ engine s' = restored.2 ∧
    match restored.1 with
    | Ok inst =>
        r = Ok tt ∧ host s' = h_attached id (host s) ∧
        slots s' = <[i := set_handles [] (set_inst (Some (fold_left deliver_pending (s_pending sl)
            (if s_endpoints sl then i_enable_endpoints inst else inst)))
          (set_pending [] (set_snap None sl)))]> (slots s)
    | Err _ => (∃ why, r = Err (SwarmErr why)) ∧ slots s' = slots s
    end.
Proof.
  cbv zeta. apply (wp_sure _ _ _ (sure_wake id)). unfold wake.
  do 2 wp_step. rewrite Hf. wp_step. eapply wp_slot_at; [done|]. rewrite Hal, Hinst, Hsnap.
  cbn [negb]. rewrite bool_decide_eq_false_2 by by intros [? [=]].
  assert (Hlt : i < length (slots s)) by by eapply lookup_lt_Some.
  wp_step. eapply wp_upd_slot; [done|].
  destruct (e_restore _ (engine s)) as [[inst|e] eng]; do 3 wp_step; cbn [fst snd].
  - eapply wp_upd_slot; [by apply list_lookup_insert_eq|].
    wp_step. eapply wp_upd_slot; [apply list_lookup_insert_eq; cbn; by rewrite length_insert|].
    wp_step. eapply wp_upd_slot; [apply list_lookup_insert_eq; cbn; by rewrite !length_insert|].
    unfold host_do. wp_steps. cbn [slots set_slots set_host set_engine].
    by rewrite !list_insert_insert_eq.
  - eapply wp_upd_slot; [by apply list_lookup_insert_eq|]. wp_step. split; [done|].
    split; [by eexists|]. cbn [slots set_slots set_engine]. rewrite list_insert_insert_eq.
    apply list_insert_id. rewrite Hsl. f_equal. destruct sl. cbn in Hsnap. subst. reflexivity.
Qed.
End specs.

(** ** The reference host *)

Section step_host.
Context {I : Type} `{InstanceOps I}.
Implicit Types (h : StepHost) (inst : I).

Lemma settle_others h id r inst id' :
  id' ≠ id → parked (StepHost.settle h id r inst).2 !! id' = parked h !! id'.
Proof.
  intros Hne. destruct r as [[w|]|e]; cbn [StepHost.settle snd parked].
  - by apply lookup_insert_ne.
  - by apply lookup_delete_ne.
  - by apply lookup_delete_ne.
Qed.

Lemma settle_parked h id r inst :
  parked (StepHost.settle h id r inst).2 !! id =
    match r with Ok (Parked w) => Some w | _ => None end.
Proof.
  destruct r as [[w|]|e]; cbn [StepHost.settle snd parked].
  - by rewrite lookup_insert_eq.
  - by rewrite lookup_delete_eq.
  - by rewrite lookup_delete_eq.
Qed.

Lemma find_fired_in w qs : ∀ inst q,
  (StepHost.find_fired w qs inst).1 = Some q → q ∈ qs.
Proof.
  induction qs as [|q' qs IH]; intros inst q; [done|]. cbn [StepHost.find_fired].
  destruct (i_queue_info q' inst) as [info inst']. destruct (match info with Ok _ => _ | Err _ => _ end).
  - intros [= ->]. by left.
  - intros Hq. right. by eapply IH.
Qed.

(** The reference host runs what is ready and no one else.  A drive
    changes no other instance's parking; an instance that stopped is no
    longer parked; a parked instance of whose queues none is ready is not run
    and stays parked on the same wait; and one that is resumed is resumed for
    a queue of its own wait, and is afterwards parked exactly on the wait it
    names, if it names one. *)
Theorem step_host_drive id caps inst h :
  let d := StepHost.drive id caps inst h in
  (∀ id', id' ≠ id → parked d.2 !! id' = parked h !! id') ∧
  (d.1.1 ≠ Alive → parked d.2 !! id = None) ∧
  (∀ w, parked h !! id = Some w →
     let '(fired, inst1) := StepHost.find_fired w (WaitSet.queues w) inst in
     match fired with
     | None => d = (Alive, inst1, h)
     | Some q => q ∈ WaitSet.queues w ∧ d.1.2 = (i_resume q inst1).2 ∧
         parked d.2 !! id = match (i_resume q inst1).1 with Ok (Parked w') => Some w' | _ => None end
     end).
Proof.
  cbv zeta. unfold StepHost.drive.
  assert (Hset : ∀ r inst1, let d := StepHost.settle h id r inst1 in
    (∀ id', id' ≠ id → parked d.2 !! id' = parked h !! id') ∧
    (d.1.1 ≠ Alive → parked d.2 !! id = None)).
  { intros r inst1. split; [intros; by apply settle_others|]. rewrite settle_parked.
    by destruct r as [[w|]|e]. }
  destruct (parked h !! id) as [w|] eqn:Hp.
  - pose proof (find_fired_in w (WaitSet.queues w) inst) as Hin.
    destruct (StepHost.find_fired w _ inst) as [[q|] inst1] eqn:Hf.
    + destruct (i_resume q inst1) as [r inst2] eqn:Hr. destruct (Hset r inst2) as [? ?].
      split_and!; [done..|]. intros w' [= <-]. rewrite Hf, Hr. split; [by apply Hin|].
      split; [by destruct r as [[]|]|apply settle_parked].
    + split_and!; [done..|]. intros w' [= <-]. by rewrite Hf.
  - destruct (i_current_wait inst) as [[w|] inst0].
    + destruct (StepHost.find_fired w _ inst0) as [[q|] inst1].
      * destruct (i_resume q inst1) as [r inst2]. destruct (Hset r inst2). by split_and!.
      * by split_and!.
    + destruct (i_run inst0) as [r inst1]. destruct (Hset r inst1). by split_and!.
Qed.

End step_host.
