(* ===== verification/Pump.v ===== *)
(** * The hostcall pump ([crates/drt-swarm/src/pump.rs])

    The in-flight table and the host that answers each instance's calls
    around every drive.  The pump, the instance it serves and what the
    connectors keep are threaded together as one state.  The loop over an
    instance's call queue takes fuel; for a lawful engine the fuel bounds no
    run ([served_by_condition]). *)

From S2P Require Import Prelude.
From S2P Require Import Bytes.
From S2P Require Import Value.
From S2P Require Import Caps.
From S2P Require Import Config.
From S2P Require Import Hostcall.
From S2P Require Import Handles.
From S2P Require Import Connector.
From S2P Require Import Engine.
From S2P Require Import Swarm.
From S2P Require Import SwarmQuiet.
From S2P Require Import SwarmLive.

Definition CALLS : string := "host/calls".
Definition REPLIES : string := "host/replies".

Record InFlight (fut : Type) := MkInFlight { fl_id : N; fl_future : AnswerFuture fut }.
Arguments MkInFlight {fut}. Arguments fl_id {fut}. Arguments fl_future {fut}.

(** An answer that arrived, encoded, waiting for room on its reply queue. *)
Record Settled := MkSettled { st_id : N; st_bytes : bytes }.

Record Pump (fut : Type) := MkPump { inflight : list (InFlight fut); settled : list Settled }.
Arguments MkPump {fut}. Arguments inflight {fut}. Arguments settled {fut}.

(** How many rounds the loop over a call queue may take. *)
Class PumpFuel := pump_fuel : nat.

Section pump.
Context {I conn fut W : Type} `{!InstanceOps I, !Connectors conn fut W, !HostcallWire}.

Definition pump_new : Pump fut := MkPump [] [].

(** What a pump works on. *)
Record Pumping := MkPumping { pg_pump : Pump fut; pg_inst : I; pg_world : W }.

Definition set_pg_inst (inst : I) (s : Pumping) : Pumping := MkPumping (pg_pump s) inst (pg_world s).
Definition set_pg_world (w : W) (s : Pumping) : Pumping := MkPumping (pg_pump s) (pg_inst s) w.
Definition set_pg_pump (p : Pump fut) (s : Pumping) : Pumping := MkPumping p (pg_inst s) (pg_world s).

(** Whether one more reply fits. *)
Definition room (replies : QueueHandle) (inst : I) : bool * I :=
  let '(info, inst) := i_queue_info replies inst in
  (match info with
   | Ok q => q_enabled q && bool_decide (q_len q < q_capacity q)%N
   | Err _ => false
   end, inst).

(** [Ok(outcome) if outcome.is_accepted()]. *)
Definition pushed_ok (r : result PushOutcome EngineError) : bool :=
  match r with Ok o => is_accepted o | Err _ => false end.

(** [Pump::land], without its debug assertion. *)
Definition land (id : N) (replies : QueueHandle) (reply : Reply) (s : Pumping) : nat * Pumping :=
  match to_wire reply with
  | None => (0, s)
  | Some bytes =>
      let '(o, inst) := i_push replies bytes (pg_inst s) in
      if pushed_ok o then (1, set_pg_inst inst s)
      else (0, MkPumping (MkPump (inflight (pg_pump s)) (settled (pg_pump s) ++ [MkSettled id bytes]))
                 inst (pg_world s))
  end.

(** The loop of [Pump::deliver] over the settled answers: what stays, and how
    many landed. *)
Fixpoint deliver_all (id : N) (replies : QueueHandle) (l : list Settled) (inst : I) :
    list Settled * nat * I :=
  match l with
  | [] => ([], 0, inst)
  | x :: l' =>
      if bool_decide (st_id x ≠ id) then
        let '(rest, n, inst) := deliver_all id replies l' inst in (x :: rest, n, inst)
      else
        let '(o, inst) := i_push replies (st_bytes x) inst in
        if pushed_ok o then
          let '(rest, n, inst) := deliver_all id replies l' inst in (rest, S n, inst)
        else (l, 0, inst)
  end.

Definition deliver (id : N) (replies : QueueHandle) (s : Pumping) : nat * Pumping :=
  let '(rest, n, inst) := deliver_all id replies (settled (pg_pump s)) (pg_inst s) in
  (n, MkPumping (MkPump (inflight (pg_pump s)) rest) inst (pg_world s)).

(** One drained request: routed, and its future polled once. *)
Definition serve (id : N) (caps : CapSet) (d : Dispatcher conn W) (replies : QueueHandle)
    (raw : bytes) (s : Pumping) : nat * Pumping :=
  let '(routed, w) := route_as d (CNode id) caps raw (pg_world s) in
  match routed with
  | Answered reply => land id replies reply (set_pg_world w s)
  | Call call =>
      let '(polled, w) := poll_answer (answer call) w in
      match polled with
      | inl reply => land id replies reply (set_pg_world w s)
      | inr future =>
          (0, MkPumping (MkPump (inflight (pg_pump s) ++ [MkInFlight id future])
                           (settled (pg_pump s))) (pg_inst s) w)
      end
  end.

(** [while room(inst, replies)]. *)
Fixpoint serve_all (fuel : nat) (id : N) (caps : CapSet) (d : Dispatcher conn W)
    (calls replies : QueueHandle) (s : Pumping) : nat * Pumping :=
  match fuel with
  | 0 => (0, s)
  | S fuel' =>
      let '(fits, inst) := room replies (pg_inst s) in
      if fits then
        let '(popped, inst) := i_pop calls inst in
        match popped with
        | Ok (Some raw) =>
            let '(n, s) := serve id caps d replies raw (set_pg_inst inst s) in
            let '(m, s) := serve_all fuel' id caps d calls replies s in (n + m, s)
        | _ => (0, set_pg_inst inst s)
        end
      else (0, set_pg_inst inst s)
  end.

(** [Pump::pump]. *)
Definition pump (fuel : nat) (id : N) (caps : CapSet) (d : Dispatcher conn W) (s : Pumping) :
    nat * Pumping :=
  let '(calls, inst) := i_queue CALLS (pg_inst s) in
  let '(replies, inst) := i_queue REPLIES inst in
  let s := set_pg_inst inst s in
  match calls, replies with
  | Some calls, Some replies =>
      let '(n, s) := deliver id replies s in
      let '(m, s) := serve_all fuel id caps d calls replies s in (n + m, s)
  | _, _ => (0, s)
  end.

(** The loop of [Pump::poll]: what is still in flight, and what settled. *)
Fixpoint poll_all (l : list (InFlight fut)) (w : W) : list (InFlight fut) * list Settled * W :=
  match l with
  | [] => ([], [], w)
  | x :: l' =>
      let '(polled, w) := poll_answer (fl_future x) w in
      let '(rest, done, w) := poll_all l' w in
      match polled with
      | inl reply =>
          (rest, match to_wire reply with
                 | Some bytes => MkSettled (fl_id x) bytes :: done
                 | None => done
                 end, w)
      | inr future => (MkInFlight (fl_id x) future :: rest, done, w)
      end
  end.

Definition poll (p : Pump fut) (w : W) : Pump fut * W :=
  let '(rest, done, w) := poll_all (inflight p) w in (MkPump rest (settled p ++ done), w).

Definition outstanding (id : N) (p : Pump fut) : nat :=
  length (filter (λ f, fl_id f = id) (inflight p)) + length (filter (λ x, st_id x = id) (settled p)).

Definition in_flight (p : Pump fut) : nat := length (inflight p) + length (settled p).

Definition forget (id : N) (p : Pump fut) : Pump fut :=
  MkPump (filter (λ f, fl_id f ≠ id) (inflight p)) (filter (λ x, st_id x ≠ id) (settled p)).

End pump.
Arguments Pumping : clear implicits.

(** ** The host around it *)

Record PumpHost (H conn fut W : Type) := MkPumpHost {
  ph_inner : H;
  ph_dispatcher : Dispatcher conn W;
  ph_pump : Pump fut;
  ph_lost : list (N * string);
  ph_world : W
}.
Arguments MkPumpHost {H conn fut W}. Arguments ph_inner {H conn fut W}.
Arguments ph_dispatcher {H conn fut W}. Arguments ph_pump {H conn fut W}.
Arguments ph_lost {H conn fut W}. Arguments ph_world {H conn fut W}.

Module PumpHost.
Section host.
Context {H I conn fut W : Type} `{!InstanceOps I, !Connectors conn fut W, !HostcallWire, !Codec}
  `{Host : !SwarmHost H I, Fuel : PumpFuel}.
Abbreviation T := (PumpHost H conn fut W).

Definition new (inner : H) (d : Dispatcher conn W) (w : W) : T := MkPumpHost inner d pump_new [] w.

Definition take_lost (h : T) : list (N * string) * T :=
  (ph_lost h, MkPumpHost (ph_inner h) (ph_dispatcher h) (ph_pump h) [] (ph_world h)).

Definition set_inner (x : H) (h : T) : T :=
  MkPumpHost x (ph_dispatcher h) (ph_pump h) (ph_lost h) (ph_world h).

Definition drive (id : N) (caps : CapSet) (inst : I) (h : T) : Driven * I * T :=
  let d := ph_dispatcher h in
  let '(p, w) := poll (ph_pump h) (ph_world h) in
  let s := (pump pump_fuel id caps d (MkPumping p inst w)).2 in
  let '(driven, inst, inner) := h_drive id caps (pg_inst s) (ph_inner h) in
  let s := set_pg_inst inst s in
  let s := match driven with Alive => (pump pump_fuel id caps d s).2 | _ => s end in
  (driven, pg_inst s, MkPumpHost inner d (pg_pump s) (ph_lost h) (pg_world s)).

(** What connectors say ended, as instances. *)
Definition ended_nodes (l : list (Caller * string)) : list (N * string) :=
  omap (λ '(caller, why), match caller with CNode id => Some (id, why) | Handles.CRoot => None end) l.

Definition ended (h : T) : list (N * string) * T :=
  let '(first, inner) := h_ended (ph_inner h) in
  let '(more, w) := dispatcher_ended (ph_dispatcher h) (ph_world h) in
  (first ++ ended_nodes more, MkPumpHost inner (ph_dispatcher h) (ph_pump h) (ph_lost h) w).

(** What connectors have to say, encoded. *)
Definition encoded (l : list Notice) : list (N * string * bytes) :=
  omap (λ n, match notice_owner n with
             | CNode id => (λ b, (id, notice_queue n, b)) <$> write_value (notice_message n)
             | Handles.CRoot => None
             end) l.

Definition notices (h : T) : list (N * string * bytes) * T :=
  let '(first, inner) := h_notices (ph_inner h) in
  let '(more, w) := dispatcher_notices (ph_dispatcher h) (ph_world h) in
  (first ++ encoded more, MkPumpHost inner (ph_dispatcher h) (ph_pump h) (ph_lost h) w).

Definition released (id : N) (h : T) : T :=
  let '(what, w) := dispatcher_release (ph_dispatcher h) (CNode id) (ph_world h) in
  MkPumpHost (h_released id (ph_inner h)) (ph_dispatcher h) (forget id (ph_pump h))
    (ph_lost h ++ ((λ x, (id, x)) <$> what)) w.

End host.
End PumpHost.

#[export] Instance pump_host {H I conn fut W} `{!InstanceOps I, !Connectors conn fut W,
    !HostcallWire, !Codec, !SwarmHost H I, !PumpFuel} : SwarmHost (PumpHost H conn fut W) I := {|
  h_drive := PumpHost.drive;
  h_attached id h := PumpHost.set_inner (h_attached id (ph_inner h)) h;
  h_detached id h := PumpHost.set_inner (h_detached id (ph_inner h)) h;
  h_released := PumpHost.released;
  h_ended := PumpHost.ended;
  h_notices := PumpHost.notices
|}.

(** ** Theory *)

Module PumpFacts.
Section facts.
Context {I conn fut W : Type} `{!InstanceOps I, !Connectors conn fut W, !HostcallWire}.
Implicit Types (s : Pumping I fut W) (p : Pump fut).

(** *** Landing what settled *)

Lemma deliver_all_spec id replies l : ∀ inst rest n inst',
  deliver_all id replies l inst = (rest, n, inst') →
  ∃ now left,
    filter (λ x, st_id x = id) l = now ++ left ∧ length now = n ∧
    filter (λ x, st_id x = id) rest = left ∧
    filter (λ x, st_id x ≠ id) rest = filter (λ x, st_id x ≠ id) l ∧
    inst' = fold_left (λ i x, (i_push replies (st_bytes x) i).2) (now ++ take 1 left) inst.
Proof.
  induction l as [|x l IH]; intros inst rest n inst'; cbn [deliver_all].
  { intros [= <- <- <-]. by exists [], []. }
  rewrite !filter_cons. destruct (bool_decide_reflect (st_id x ≠ id)) as [Hne|Heq].
  - destruct (deliver_all id replies l inst) as [[r k] i] eqn:Hd. intros [= <- <- <-].
    destruct (IH _ _ _ _ Hd) as (now & left & ? & ? & Hl & Hr & ?). exists now, left.
    rewrite !filter_cons, !(decide_False (P := st_id x = id)) by done.
    rewrite !(decide_True (P := st_id x ≠ id)) by done. rewrite Hr. by split_and!.
  - assert (st_id x = id) as Hx by (destruct (decide (st_id x = id)); [done|by destruct Heq]).
    rewrite !(decide_True (P := st_id x = id)) by done.
    rewrite !(decide_False (P := st_id x ≠ id)) by (intros ?; congruence).
    destruct (i_push replies (st_bytes x) inst) as [o i1] eqn:Hp. destruct (pushed_ok o).
    + destruct (deliver_all id replies l i1) as [[r k] i] eqn:Hd. intros [= <- <- <-].
      destruct (IH _ _ _ _ Hd) as (now & left & Hf & Hn & Hl & Hr & Hi).
      exists (x :: now), left. split_and!; [by rewrite Hf|cbn; by rewrite Hn|done|done|].
      cbn [app fold_left]. by rewrite Hp.
    + intros [= <- <- <-]. exists [], (x :: filter (λ x, st_id x = id) l).
      rewrite !filter_cons, !(decide_True (P := st_id x = id)) by done.
      rewrite !(decide_False (P := st_id x ≠ id)) by (intros ?; congruence).
      split_and!; [done..|]. cbn. by rewrite Hp.
Qed.

(** Settled answers land oldest first, and the first that does not fit
    stops the rest.  Of the answers settled for an instance, [deliver] lands
    an initial segment in its order and offers at most one more; those that
    did not land stay in their order, and no other instance's are touched. *)
Theorem deliver_in_order id replies s :
  let '(n, s') := deliver id replies s in
  let mine l := filter (λ x, st_id x = id) l in
  let others l := filter (λ x, st_id x ≠ id) l in
  mine (settled (pg_pump s')) = drop n (mine (settled (pg_pump s))) ∧
  others (settled (pg_pump s')) = others (settled (pg_pump s)) ∧
  inflight (pg_pump s') = inflight (pg_pump s) ∧
  pg_inst s' = fold_left (λ i x, (i_push replies (st_bytes x) i).2)
    (take (S n) (mine (settled (pg_pump s)))) (pg_inst s).
Proof.
  unfold deliver.
  destruct (deliver_all id replies (settled (pg_pump s)) (pg_inst s)) as [[rest n] inst] eqn:Hd.
  destruct (deliver_all_spec _ _ _ _ _ _ _ Hd) as (now & left & Hl & Hn & Hr & Ho & Hi).
  cbn. rewrite Hl, Hr, Ho, Hi. subst n. rewrite drop_app_length. split_and!; [done..|].
  rewrite take_app_ge by lia. by replace (S (length now) - length now) with 1 by lia.
Qed.

(** *** Serving a call queue *)

(** The loop without fuel: the requests it drains, how many of their replies
    landed at once, and the state it stops in. *)
Inductive served id caps (d : Dispatcher conn W) (calls replies : QueueHandle) :
    Pumping I fut W → list bytes → nat → Pumping I fut W → Prop :=
  | served_full s inst :
      room replies (pg_inst s) = (false, inst) →
      served id caps d calls replies s [] 0 (set_pg_inst inst s)
  | served_empty s inst inst' r :
      room replies (pg_inst s) = (true, inst) → i_pop calls inst = (r, inst') →
      (∀ raw, r ≠ Ok (Some raw)) →
      served id caps d calls replies s [] 0 (set_pg_inst inst' s)
  | served_one s inst inst' raw raws n s1 m s2 :
      room replies (pg_inst s) = (true, inst) → i_pop calls inst = (Ok (Some raw), inst') →
      serve id caps d replies raw (set_pg_inst inst' s) = (n, s1) →
      served id caps d calls replies s1 raws m s2 →
      served id caps d calls replies s (raw :: raws) (n + m) s2.

(** Every reply has bytes. *)
Hypothesis wired_replies : ∀ r : Reply, is_Some (to_wire r).

Lemma outstanding_app_fl id f fs st : outstanding id (MkPump (fs ++ [f]) st : Pump fut) =
  outstanding id (MkPump fs st) + (if decide (fl_id f = id) then 1 else 0).
Proof.
  unfold outstanding. cbn. rewrite filter_app, length_app, filter_cons. case_decide; cbn; lia.
Qed.

Lemma outstanding_app_st id x fs st : outstanding id (MkPump fs (st ++ [x]) : Pump fut) =
  outstanding id (MkPump fs st) + (if decide (st_id x = id) then 1 else 0).
Proof.
  unfold outstanding. cbn. rewrite filter_app, length_app, filter_cons. case_decide; cbn; lia.
Qed.

Lemma outstanding_eta id p : outstanding id (MkPump (inflight p) (settled p)) = outstanding id p.
Proof. done. Qed.

Lemma land_counts id replies reply s n s' :
  land id replies reply s = (n, s') →
  n + outstanding id (pg_pump s') = outstanding id (pg_pump s) + 1 ∧
  ∀ id', id' ≠ id → outstanding id' (pg_pump s') = outstanding id' (pg_pump s).
Proof.
  unfold land. destruct (wired_replies reply) as [b ->].
  destruct (i_push replies b (pg_inst s)) as [o inst]. destruct (pushed_ok o); intros [= <- <-];
    cbn [pg_pump set_pg_inst].
  - split; [lia|done].
  - split; [|intros id' Hne]; rewrite outstanding_app_st, outstanding_eta; cbn [st_id].
    + rewrite decide_True by done. lia.
    + rewrite decide_False by done. lia.
Qed.

Lemma serve_counts id caps d replies raw s n s' :
  serve id caps d replies raw s = (n, s') →
  n + outstanding id (pg_pump s') = outstanding id (pg_pump s) + 1 ∧
  ∀ id', id' ≠ id → outstanding id' (pg_pump s') = outstanding id' (pg_pump s).
Proof.
  unfold serve. destruct (route_as d (CNode id) caps raw (pg_world s)) as [[reply|call] w].
  { intros Hl. by apply land_counts in Hl. }
  destruct (poll_answer (answer call) w) as [[reply|future] w']; [intros Hl; by apply land_counts in Hl|].
  intros [= <- <-]. cbn [pg_pump].
  split; [|intros id' Hne]; rewrite outstanding_app_fl, outstanding_eta; cbn [fl_id].
  - rewrite decide_True by done. lia.
  - rewrite decide_False by done. lia.
Qed.

Lemma served_counts id caps d calls replies s raws n s' :
  served id caps d calls replies s raws n s' →
  n + outstanding id (pg_pump s') = outstanding id (pg_pump s) + length raws ∧
  ∀ id', id' ≠ id → outstanding id' (pg_pump s') = outstanding id' (pg_pump s).
Proof.
  induction 1 as [| |s inst inst' raw raws n s1 m s2 _ _ Hs _ [IH IHo]]; [cbn; split; [lia|done]..|].
  apply serve_counts in Hs as [Hs Hso]. cbn [pg_pump set_pg_inst length] in *. split; [lia|].
  intros id' Hne. rewrite IHo, Hso by done. done.
Qed.

Lemma deliver_counts id replies s n s' :
  deliver id replies s = (n, s') →
  n + outstanding id (pg_pump s') = outstanding id (pg_pump s) ∧
  ∀ id', id' ≠ id → outstanding id' (pg_pump s') = outstanding id' (pg_pump s).
Proof.
  unfold deliver. destruct (deliver_all _ _ _ _) as [[rest k] inst] eqn:Hd. intros [= <- <-].
  destruct (deliver_all_spec _ _ _ _ _ _ _ Hd) as (now & left & Hl & Hn & Hr & Ho & _).
  unfold outstanding. cbn. split.
  - rewrite Hl, Hr, length_app. lia.
  - intros id' Hne. f_equal.
    assert (Hsub : ∀ l : list Settled, filter (λ x, st_id x = id') l =
      filter (λ x, st_id x = id') (filter (λ x, st_id x ≠ id) l)).
    { intros l. rewrite list_filter_filter. apply list_filter_iff. intros x. naive_solver. }
    rewrite (Hsub rest), (Hsub (settled (pg_pump s))). by rewrite Ho.
Qed.

End facts.

(** *** With a lawful engine *)

Section lawful.
Context {I conn fut W : Type} `{Law : LawfulInstance I, !Connectors conn fut W, !HostcallWire}.
Implicit Types (s : Pumping I fut W) (p : Pump fut) (a b : I).

(** No call is added. *)
Definition replying a b : Prop := l_keeps a b ∧ l_waiting b CALLS ≤ l_waiting a CALLS.

#[global] Instance replying_preorder : PreOrder replying.
Proof.
  split; [by intros a; split|]. intros a b c [? ?] [? ?]. split; [by etrans|lia].
Qed.

Lemma drops_replying a b : l_drops a b → replying a b.
Proof. intros [? Hw]. by split. Qed.

Lemma push_replying a replies m : l_named a replies REPLIES → replying a (i_push replies m a).2.
Proof. intros Hn. destruct (l_push a replies REPLIES m Hn) as [? Hw]. split; [done|by apply Hw]. Qed.

Lemma replying_named a b q n : replying a b → l_named a q n → l_named b q n.
Proof. intros [[Hn _] _]. apply Hn. Qed.

Lemma land_replying id replies reply s :
  l_named (pg_inst s) replies REPLIES → replying (pg_inst s) (pg_inst (land id replies reply s).2).
Proof.
  intros Hn. unfold land. destruct (to_wire reply) as [b|]; [|done].
  pose proof (push_replying _ _ b Hn) as Hp.
  destruct (i_push replies b (pg_inst s)) as [o inst]. by destruct (pushed_ok o).
Qed.

Lemma serve_replying id caps d replies raw s :
  l_named (pg_inst s) replies REPLIES →
  replying (pg_inst s) (pg_inst (serve id caps d replies raw s).2).
Proof.
  intros Hn. unfold serve. destruct (route_as d (CNode id) caps raw (pg_world s)) as [[reply|call] w].
  { by apply (land_replying id replies reply (set_pg_world w s)). }
  destruct (poll_answer (answer call) w) as [[reply|future] w']; [|done].
  by apply (land_replying id replies reply (set_pg_world w' s)).
Qed.

Lemma deliver_all_replying id replies l : ∀ inst, l_named inst replies REPLIES →
  replying inst (deliver_all id replies l inst).2.
Proof.
  induction l as [|x l IH]; intros inst Hn; [done|]. cbn [deliver_all].
  case_bool_decide.
  - specialize (IH inst Hn). by destruct (deliver_all id replies l inst) as [[r k] i].
  - pose proof (push_replying _ _ (st_bytes x) Hn) as Hp.
    destruct (i_push replies (st_bytes x) inst) as [o i1]. cbn [snd] in Hp.
    destruct (pushed_ok o); [|done].
    assert (Hi : replying i1 (deliver_all id replies l i1).2).
    { apply IH. by eapply replying_named. }
    destruct (deliver_all id replies l i1) as [[r k] i]. by etrans.
Qed.

Lemma deliver_replying id replies s :
  l_named (pg_inst s) replies REPLIES → replying (pg_inst s) (pg_inst (deliver id replies s).2).
Proof.
  intros Hn. unfold deliver.
  pose proof (deliver_all_replying id replies (settled (pg_pump s)) (pg_inst s) Hn).
  by destruct (deliver_all _ _ _ _) as [[r k] i].
Qed.

(** Enough fuel: the loop stops by its own condition. *)
Lemma serve_all_served id caps d calls replies fuel : ∀ s,
  l_named (pg_inst s) calls CALLS → l_named (pg_inst s) replies REPLIES →
  replying (pg_inst s) (pg_inst (serve_all fuel id caps d calls replies s).2) ∧
  (l_waiting (pg_inst s) CALLS < fuel → ∃ raws, served id caps d calls replies s raws
    (serve_all fuel id caps d calls replies s).1 (serve_all fuel id caps d calls replies s).2).
Proof.
  induction fuel as [|fuel IH]; intros s Hc Hr; [split; [done|lia]|]. cbn [serve_all].
  assert (Hroom : replying (pg_inst s) (room replies (pg_inst s)).2).
  { unfold room. pose proof (l_info (pg_inst s) replies).
    destruct (i_queue_info replies (pg_inst s)). by apply drops_replying. }
  destruct (room replies (pg_inst s)) as [fits inst] eqn:Hfit. cbn [snd] in Hroom.
  destruct fits; [|split; [done|]; intros _; exists []; by apply served_full].
  pose proof (l_pop inst calls) as Hpop.
  assert (Hless : ∀ raw, (i_pop calls inst).1 = Ok (Some raw) →
    l_waiting (i_pop calls inst).2 CALLS < l_waiting inst CALLS).
  { intros raw. apply l_pop_named. by eapply replying_named. }
  destruct (i_pop calls inst) as [[[raw|]|e] inst'] eqn:Hp; cbn [fst snd] in Hpop, Hless.
  2,3: split; [by etrans; [exact Hroom|apply drops_replying]|];
    intros _; exists []; eapply served_empty; [exact Hfit|exact Hp|done].
  assert (Hin : replying (pg_inst s) inst') by (etrans; [exact Hroom|by apply drops_replying]).
  pose proof (serve_replying id caps d replies raw (set_pg_inst inst' s)) as Hs.
  destruct (serve id caps d replies raw (set_pg_inst inst' s)) as [n s1] eqn:Hserve.
  cbn [pg_inst set_pg_inst snd] in Hs.
  assert (Hs1 : replying inst' (pg_inst s1)) by (apply Hs; by eapply replying_named).
  assert (Hall : replying (pg_inst s) (pg_inst s1)) by (by etrans).
  destruct (IH s1) as [Hk Hf]; [by eapply replying_named..|].
  destruct (serve_all fuel id caps d calls replies s1) as [m s2]. cbn [fst snd] in *.
  split; [by etrans|]. intros Hlt. destruct Hf as [raws Hf].
  { specialize (Hless raw eq_refl). destruct Hroom as [_ ?], Hs1 as [_ ?]. lia. }
  exists (raw :: raws). by eapply served_one.
Qed.

Lemma pump_replying fuel id caps d s :
  replying (pg_inst s) (pg_inst (pump fuel id caps d s).2).
Proof.
  unfold pump. pose proof (l_queue (pg_inst s) CALLS) as H1.
  pose proof (l_queue_named (pg_inst s) CALLS) as N1.
  destruct (i_queue CALLS (pg_inst s)) as [calls i1]. cbn [fst snd] in *.
  pose proof (l_queue i1 REPLIES) as H2. pose proof (l_queue_named i1 REPLIES) as N2.
  destruct (i_queue REPLIES i1) as [replies i2]. cbn [fst snd] in *.
  apply drops_replying in H1, H2. assert (H12 : replying (pg_inst s) i2) by by etrans.
  destruct calls as [calls|]; [|done]. destruct replies as [replies|]; [|done].
  pose proof (deliver_replying id replies (set_pg_inst i2 s) (N2 _ eq_refl)) as Hd.
  destruct (deliver id replies (set_pg_inst i2 s)) as [n s1]. cbn [snd pg_inst set_pg_inst] in Hd.
  destruct (serve_all_served id caps d calls replies fuel s1) as [Hs _].
  { eapply replying_named; [exact Hd|]. eapply replying_named; [exact H2|]. by apply N1. }
  { eapply replying_named; [exact Hd|]. by apply N2. }
  destruct (serve_all fuel id caps d calls replies s1) as [m s2].
  etrans; [exact H12|]. etrans; [exact Hd|exact Hs].
Qed.

(** C18: Every drained request is answered or still owed, exactly once.  For a
    lawful engine, a pump of an instance that has both queues drains some
    requests, as its loop does without any fuel; the replies that landed and
    the answers now outstanding for the instance are those outstanding before
    and one for each request drained, and nothing owed to another instance
    changes. *)
Theorem pump_answers_once fuel id caps d s calls i1 replies i2
  (Hwire : ∀ r : Reply, is_Some (to_wire r)) (Hfuel : l_capacity < fuel)
  (Hcalls : i_queue CALLS (pg_inst s) = (Some calls, i1))
  (Hreplies : i_queue REPLIES i1 = (Some replies, i2)) :
  ∃ raws n m s1 s',
    deliver id replies (set_pg_inst i2 s) = (n, s1) ∧
    served id caps d calls replies s1 raws m s' ∧
    pump fuel id caps d s = (n + m, s') ∧
    n + m + outstanding id (pg_pump s') = outstanding id (pg_pump s) + length raws ∧
    ∀ id', id' ≠ id → outstanding id' (pg_pump s') = outstanding id' (pg_pump s).
Proof.
  unfold pump. pose proof (l_queue_named (pg_inst s) CALLS calls) as N1.
  pose proof (l_queue_named i1 REPLIES replies) as N2. pose proof (l_queue i1 REPLIES) as H2.
  rewrite Hcalls in N1 |- *. rewrite Hreplies in N2, H2 |- *. cbn [fst snd] in *.
  apply drops_replying in H2.
  pose proof (deliver_replying id replies (set_pg_inst i2 s) (N2 eq_refl)) as Hd.
  destruct (deliver id replies (set_pg_inst i2 s)) as [n s1] eqn:Hdel.
  cbn [snd pg_inst set_pg_inst] in Hd. apply deliver_counts in Hdel as Hdc. destruct Hdc as [Hn Hno].
  destruct (serve_all_served id caps d calls replies fuel s1) as [_ Hs].
  { eapply replying_named; [exact Hd|]. eapply replying_named; [exact H2|]. by apply N1. }
  { eapply replying_named; [exact Hd|]. by apply N2. }
  destruct Hs as [raws Hs]; [pose proof (l_waiting_le (pg_inst s1) CALLS); lia|].
  destruct (serve_all fuel id caps d calls replies s1) as [m s2]. cbn [fst snd] in Hs.
  destruct (served_counts Hwire _ _ _ _ _ _ _ _ _ Hs) as [Hm Hmo]. cbn [pg_pump set_pg_inst] in *.
  exists raws, n, m, s1, s2. split_and!; [done..|lia|].
  intros id' Hne. by rewrite Hmo, Hno.
Qed.

(** A pump host over a lawful host is lawful. *)
#[export] Instance pump_host_lawful {HT} `{!Codec, !SwarmHost HT I, !LawfulHost HT I, !PumpFuel} :
  LawfulHost (PumpHost HT conn fut W) I.
Proof.
  intros id caps inst h q n Hn. cbn [h_drive pump_host]. unfold PumpHost.drive.
  destruct (poll (ph_pump h) (ph_world h)) as [p w].
  set (s0 := MkPumping p inst w). pose proof (pump_replying pump_fuel id caps (ph_dispatcher h) s0) as Hk1.
  set (s1 := (pump pump_fuel id caps (ph_dispatcher h) s0).2) in *.
  apply (replying_named _ _ q n) in Hk1; [|done].
  pose proof (l_drive id caps (pg_inst s1) (ph_inner h) q n Hk1) as Hk2.
  destruct (h_drive id caps (pg_inst s1) (ph_inner h)) as [[driven inst2] inner]. cbn [fst snd] in *.
  destruct driven; [|done..].
  by apply (replying_named _ _ q n (pump_replying pump_fuel id caps (ph_dispatcher h)
    (set_pg_inst inst2 s1))).
Qed.

End lawful.

(** *** Whose answers *)

Section owed.
Context {fut : Type}.
Implicit Types p : Pump fut.

(** Forgetting is one instance's affair.  After [forget id] nothing is
    outstanding for [id], and what is owed to any other instance, in flight
    or settled, is exactly what it was, in its order. *)
Theorem forget_only_one id p :
  outstanding id (forget id p) = 0 ∧
  ∀ id', id' ≠ id →
    filter (λ f, fl_id f = id') (inflight (forget id p)) = filter (λ f, fl_id f = id') (inflight p) ∧
    filter (λ x, st_id x = id') (settled (forget id p)) = filter (λ x, st_id x = id') (settled p).
Proof.
  split.
  - unfold outstanding, forget. cbn. rewrite !list_filter_filter.
    rewrite (list_filter_iff _ (λ _, False)), (list_filter_iff (λ x, st_id x = id ∧ _) (λ _, False)) by naive_solver.
    assert (Hnil : ∀ {A} (l : list A), filter (λ _, False) l = []).
    { intros A l. by induction l. }
    by rewrite !Hnil.
  - intros id' Hne. unfold forget. cbn. rewrite !list_filter_filter.
    split; apply list_filter_iff; naive_solver.
Qed.

End owed.

End PumpFacts.
