(* ===== verification/SwarmDemo.v ===== *)
(** * The swarm's theorems at a concrete run

    Each theorem of [SwarmLive] and [SwarmSpec] that has hypotheses, applied
    at states the small engine of [Toy] reaches.

    ** The dispatcher and the pump at concrete calls

    A wire with two messages, a registry with one mock connector, and an
    instance of the small engine with one call waiting. *)

From S2P Require Import Prelude.
From S2P Require Import Bytes.
From S2P Require Import Value.
From S2P Require Import Caps.
From S2P Require Import Config.
From S2P Require Import Node.
From S2P Require Import Hostcall.
From S2P Require Import Handles.
From S2P Require Import Connector.
From S2P Require Import Engine.
From S2P Require Import Requests.
From S2P Require Import Msgpack.
From S2P Require Import Swarm.
From S2P Require Import SwarmQuiet.
From S2P Require Import SwarmInv.
From S2P Require Import SwarmKill.
From S2P Require Import SwarmSafe.
From S2P Require Import SwarmLive.
From S2P Require Import Toy.
From S2P Require Import SwarmSpec.
From S2P Require Import Pump.

#[local] Existing Instances any_name any_flow.

Abbreviation DemoSwarm := (Swarm (list ToyScript) StepHost Toy).

(** Any state a run from an empty swarm reaches is good. *)
Lemma reached_wf fuel cs e m r (s : DemoSwarm) :
  (m < 2 ^ 32)%N → (r < 2 ^ 32)%N → Forall call_ok cs →
  run_calls fuel cs (with_limits e StepHost.new m r) = Ret tt s → wf s.
Proof.
  intros Hm Hr Hcs Hrun.
  exact (wp_ret_inv _ _ _ _ _ _ (wp_run_calls false fuel any_flow any_flow _ cs
    (wf_with_limits e StepHost.new m r Hm Hr) Hcs) Hrun).
Qed.

Definition ran (m r : N) (cs : list call) : DemoSwarm :=
  match run_calls 6 cs (with_limits demo_engine StepHost.new m r) with Ret _ s => s | _ => demo_start end.

Definition slot (s : DemoSwarm) (i : nat) : Slot Toy := default Slot.free (slots s !! i).

Lemma demo_wf : wf demo.
Proof.
  apply (reached_wf 6 demo_calls demo_engine 8 8); [lia|lia|by repeat constructor|].
  vm_compute. reflexivity.
Qed.

(** The run with its third instance cached. *)
Definition cached_calls : list call := demo_calls ++ [CHibernate 3].
Definition cached : DemoSwarm := ran 8 8 cached_calls.

(** One spawn a step: the second request waits. *)
Definition slow_calls : list call :=
  [CRoot (as_bytes "wait") demo_caps Budget.default Numeric.default; CStep].
Definition slow : DemoSwarm := ran 8 1 slow_calls.

Lemma slow_wf : wf slow.
Proof.
  apply (reached_wf 6 slow_calls demo_engine 8 1); [lia|lia|by repeat constructor|].
  vm_compute. reflexivity.
Qed.

(** Two roots, the first with a full inbox that evicts. *)
Definition ring_calls : list call :=
  [CRoot (as_bytes "ring") [] Budget.default Numeric.default;
   CRoot (as_bytes "wait") [] Budget.default Numeric.default] ++
  replicate 4 (CPush 1 INBOX demo_sender (as_bytes "m")).
Definition ring : DemoSwarm := ran 8 8 ring_calls.

Definition demo_child : Value := VMap [(vstr "op", vstr "spawn"); (vstr "code", vstr "wait");
  (vstr "caps", VArr [vstr "net/http"])].

Definition demo_kill : Value := VMap [(vstr "op", vstr "kill"); (vstr "id", vnat 4)].

Ltac concrete := by vm_compute.

Lemma swarm_never_panics_witness :
  match run_calls 6 demo_calls demo_start with
  | Ret _ s => wf s
  | Panic => False
  | Overflow | OutOfFuel => True
  end.
Proof.
  apply (swarm_never_panics demo_engine StepHost.new 8 8 6 demo_calls); [lia|lia|].
  by repeat constructor.
Defined.

Lemma swarm_terminates_witness :
  run_calls 6 demo_calls demo_start = Overflow ∨
  ∃ s, run_calls 6 demo_calls demo_start = Ret tt s ∧ wf (H1 := l_named) s.
Proof.
  apply (swarm_terminates demo_engine StepHost.new 8 8 6 demo_calls); [lia|lia| |cbn; lia].
  by repeat constructor.
Defined.

Lemma kill_subtree_exact_witness :
  ∃ s', kill_subtree 2 true demo = Ret tt s' ∧ wf s' ∧ slot_of s' 4 = None.
Proof.
  destruct (kill_subtree_exact demo 2 1 true demo_wf ltac:(concrete)) as (s' & Hrun & Hwf & Hk & _).
  exists s'. split; [exact Hrun|]. split; [exact Hwf|].
  apply (Hk 3 (slot demo 3)); [concrete|concrete|].
  apply (under_child demo 1 3 (slot demo 3) 1); [concrete..|constructor].
Defined.

Lemma is_ancestor_spec_witness :
  ∃ b, is_ancestor 1 3 demo = Ret b demo ∧ (b = true ↔ ancestor demo 1 (s_parent (slot demo 3))).
Proof. apply (is_ancestor_spec demo 1 3 (slot demo 3) demo_wf). concrete. Defined.

Lemma do_kill_only_descendants_witness :
  ∃ s', do_kill 1 demo_kill demo = Ret tt s' ∧ wf s' ∧
    ∀ j x, slots demo !! j = Some x → s_id x ≠ 0%N → slot_of s' (s_id x) = None →
           ancestor demo 2 (s_parent x).
Proof. apply (do_kill_only_descendants demo 1 (slot demo 1) demo_kill demo_wf). concrete. Defined.

Lemma tree_within_root_witness :
  ∃ r rsl, slot_of demo r = Some rsl ∧ root_ok rsl ∧ ancestor demo r 4 ∧
    within_root rsl (slot demo 3) ∧
    (CapSetFacts.clean_grants (grants (s_caps rsl)) →
     ∀ want, CapSet.holds (s_caps (slot demo 3)) want = true → CapSet.holds (s_caps rsl) want = true).
Proof. apply (tree_within_root demo 4 (slot demo 3) demo_wf). concrete. Defined.

Lemma do_spawn_attenuates_witness :
  do_spawn 1 demo_child demo = Overflow ∨
  ∃ s', do_spawn 1 demo_child demo = Ret tt s' ∧ wf s' ∧
    (∀ id sl, slot_of demo id = Some sl → ∃ sl', slot_of s' id = Some sl' ∧ same_grant sl sl') ∧
    (∀ id sl', slot_of s' id = Some sl' → slot_of demo id = None →
       id = next_id demo ∧ s_parent sl' = 2%N ∧ child_of (slot demo 1) sl').
Proof. apply (do_spawn_attenuates demo 1 (slot demo 1) demo_child demo_wf); concrete. Defined.

Lemma push_cached_spec_witness :
  ∃ r, r = Ok tt ∧ push 3 INBOX demo_sender (as_bytes "m") cached = Ret r
    (set_slots (<[2 := set_pending [MkPending INBOX (as_bytes "m")] (slot cached 2)]> (slots cached)) cached).
Proof.
  destruct (push_cached_spec cached 3 2 (slot cached 2) INBOX demo_sender (as_bytes "m")
    ltac:(concrete) ltac:(concrete) ltac:(concrete) ltac:(concrete)) as (r & Hrun & Hok).
  exists r. assert (r = Ok tt) as ->; [|split; [reflexivity|exact Hrun]].
  apply Hok. split; [concrete|]. split; [done|]. split; vm_compute; lia.
Defined.

Lemma push_resident_spec_witness :
  ∃ r s', push 2 INBOX demo_sender (as_bytes "m") demo = Ret r s' ∧
    handed demo 1 (slot demo 1) (default (toy_blank "") (s_inst (slot demo 1))) INBOX
      (attach_sender (as_bytes "m") demo_sender) r s'.
Proof. apply (push_resident_spec demo 2 1); concrete. Defined.

Lemma routing_redelivers_witness :
  ∃ s' sl' tsl', retry_held 1 demo_sender (1%N, as_bytes "m") ring = Ret tt s' ∧
    slots s' !! 0 = Some tsl' ∧
    s_inst tsl' = Some (i_push 2%N (attach_sender (as_bytes "m") demo_sender)
      (i_enable_endpoints (default (toy_blank "") (s_inst (slot ring 0))))).2 ∧
    slots s' !! 1 = Some sl' ∧ s_held sl' = s_held (slot ring 1) ++ [(1%N, as_bytes "m")].
Proof.
  apply (routing_redelivers ring 1 (slot ring 1) 1 0 (slot ring 0)
    (default (toy_blank "") (s_inst (slot ring 0)))); concrete.
Defined.

Lemma reference_resolves_at_home_witness :
  ∃ payload, reference 2 demo = Ret (VExt ENDPOINT_EXT_TYPE payload) demo ∧
    resolve_reference demo payload = Some 2%N ∧
    (∀ s2 : DemoSwarm, host_identity s2 ≠ host_identity demo → resolve_reference s2 payload = None).
Proof. apply (reference_resolves_at_home demo 2 demo_wf); [done|lia]. Defined.

Lemma drain_needs_lifecycle_witness : drain 6 2 demo = Ret tt demo.
Proof. apply (drain_needs_lifecycle 6 demo 2 (slot demo 2)); concrete. Defined.

Lemma throttled_spawn_waits_witness :
  let msg := demo_spawn "b" "wait" ["net/http"] in
  ∃ s' sl', drain_body 0 1 slow = Ret false s' ∧ slots s' !! 0 = Some sl' ∧ s_deferred sl' = Some msg ∧
    next_request 0 s' = Ret (Some msg) (set_slots (<[0 := set_deferred None sl']> (slots s')) s').
Proof.
  intros msg.
  destruct (throttled_spawn_waits slow 0 (slot slow 0)
    (set_slots (<[0 := set_deferred None (slot slow 0)]> (slots slow)) slow) msg slow_wf)
    as (s' & sl' & Hrun & Hsl & _ & _ & Hd & Hn).
  - concrete.
  - concrete.
  - vm_compute; eexists; reflexivity.
  - vm_compute. reflexivity.
  - apply Nat.leb_le. vm_compute. reflexivity.
  - vm_compute. reflexivity.
  - concrete.
  - exists s', sl'. split; [exact Hrun|]. split; [exact Hsl|]. split; [exact Hd|exact Hn].
Defined.

Definition resident (s : DemoSwarm) (i : nat) : Toy := default (toy_blank "") (s_inst (slot s i)).

Lemma hibernate_spec_witness :
  let taken := i_snapshot (host_identity demo) (resident demo 2) in
  ∃ r s', hibernate 3 demo = Ret r s' ∧ index s' = index demo ∧
    match taken.1 with
    | Ok snap => r = Ok tt ∧ host s' = h_detached 3 (host demo) ∧ slots s' =
        <[2 := set_handles [] (set_inst None (set_snap (Some snap) (slot demo 2)))]> (slots demo)
    | Err _ => (∃ why, r = Err (SwarmErr why)) ∧ host s' = host demo ∧
               slots s' = <[2 := set_inst (Some taken.2) (slot demo 2)]> (slots demo)
    end.
Proof. apply (hibernate_spec demo 3 2 (slot demo 2) (resident demo 2)); concrete. Defined.

Lemma wake_spec_witness :
  let restored := e_restore (MkRestoreSpec [] (s_numeric (slot cached 2)) (host_identity cached)
    (s_budget (slot cached 2)) (s_unsafe_stdlib (slot cached 2)) (s_unsafe_debug (slot cached 2)))
    (engine cached) in
  ∃ r s', wake 3 cached = Ret r s' ∧ engine s' = restored.2 ∧
    match restored.1 with
    | Ok inst =>
        r = Ok tt ∧ host s' = h_attached 3 (host cached) ∧
        slots s' = <[2 := set_handles [] (set_inst (Some (fold_left deliver_pending
            (s_pending (slot cached 2))
            (if s_endpoints (slot cached 2) then i_enable_endpoints inst else inst)))
          (set_pending [] (set_snap None (slot cached 2))))]> (slots cached)
    | Err _ => (∃ why, r = Err (SwarmErr why)) ∧ slots s' = slots cached
    end.
Proof. apply (wake_spec cached 3 2 (slot cached 2) []); concrete. Defined.

#[local] Instance demo_wire : HostcallWire := {|
  reply_to_bytes r := Some (as_bytes (default "ok" (rep_detail r)));
  request_from_bytes raw :=
    if bool_decide (raw = as_bytes "now") then Ok (MkRequest 7%N "time/now" None)
    else Err "not a request";
  value_from_slice _ := None
|}.

Definition demo_mock : MockConnector := Mock.answer Mock.new "time/now" (vnat 12).

Definition demo_dispatcher : Dispatcher MockConnector unit :=
  dispatcher_new (default registry_new
    (match wire registry_new "time" demo_mock None with Ok r => Some r | Err _ => None end)).

Definition demo_holder : CapSet := CapSet.root [grant "host:time/*"].

Lemma routed_call_held_witness :
  CapSet.holds demo_holder (call_capability "time/now") = true ∧
  (∃ wd, resolve (registry demo_dispatcher) "time/now" = Some wd ∧ connector wd = demo_mock ∧
         wired_scope wd = None).
Proof.
  assert (Hrun : route_as demo_dispatcher (CNode 1) demo_holder (as_bytes "now") tt =
    (Call (MkPendingCall (CNode 1) [] 7%N "time/now" None demo_mock None), tt)).
  { vm_compute. reflexivity. }
  pose proof (ConnectorFacts.routed_call_held _ _ _ _ _ _ _ Hrun) as (_ & _ & Hh & Hr & _).
  split; [exact Hh|exact Hr].
Defined.

(** One call waiting, room for its reply. *)
Definition demo_guest : Toy := MkToy "wait" [] [] [] [] [as_bytes "now"] [] None false.

Definition demo_pumping : Pumping Toy CallResult unit := MkPumping pump_new demo_guest tt.

Lemma pump_answers_once_witness :
  ∃ raws n m s1 s',
    deliver 1 5%N demo_pumping = (n, s1) ∧
    PumpFacts.served 1 demo_holder demo_dispatcher 4%N 5%N s1 raws m s' ∧
    pump 5 1 demo_holder demo_dispatcher demo_pumping = (n + m, s') ∧
    n + m + outstanding 1 (pg_pump s') = outstanding 1 (pg_pump demo_pumping) + length raws ∧
    ∀ id', id' ≠ 1%N → outstanding id' (pg_pump s') = outstanding id' (pg_pump demo_pumping).
Proof.
  apply (PumpFacts.pump_answers_once 5 1 demo_holder demo_dispatcher demo_pumping 4%N demo_guest
    5%N demo_guest); [|cbn; unfold TOY_BOUND; lia|by vm_compute..].
  intros r. eexists. reflexivity.
Defined.

(** It was answered at once. *)
Example demo_pump_lands : (pump 5 1 demo_holder demo_dispatcher demo_pumping).1 = 1.
Proof. vm_compute. reflexivity. Qed.
