(* ===== verification/Time.v ===== *)
(** * Instants and windows ([crates/drt-config/src/time.rs])

    The RFC 3339 instants consent and grant decisions are dated with: their
    one accepted spelling, the civil calendar behind it, and the window that
    a request and an approval intersect in. *)

From S2P Require Import Prelude.
From S2P Require Import Bytes.

Local Open Scope Z_scope.

(** [Timestamp(i64)], seconds since the epoch. *)
Definition Timestamp : Type := Z.

Record BadTimestamp := { bad_text : string }.

(** ** The civil calendar

    [i64] division truncates towards zero, so it is [Z.quot] here; every
    intermediate value stays far inside the type. *)

Definition days_from_civil (year month day : Z) : Z :=
  let year := if bool_decide (month ≤ 2) then year - 1 else year in
  let era := Z.quot (if bool_decide (0 ≤ year) then year else year - 399) 400 in
  let yoe := year - era * 400 in
  let doy := Z.quot (153 * (if bool_decide (2 < month) then month - 3 else month + 9) + 2) 5
             + day - 1 in
  let doe := yoe * 365 + Z.quot yoe 4 - Z.quot yoe 100 + doy in
  era * 146097 + doe - 719468.

Definition civil_from_days (days : Z) : Z * Z * Z :=
  let z := days + 719468 in
  let era := Z.quot (if bool_decide (0 ≤ z) then z else z - 146096) 146097 in
  let doe := z - era * 146097 in
  let yoe := Z.quot (doe - Z.quot doe 1460 + Z.quot doe 36524 - Z.quot doe 146096) 365 in
  let y := yoe + era * 400 in
  let doy := doe - (365 * yoe + Z.quot yoe 4 - Z.quot yoe 100) in
  let mp := Z.quot (5 * doy + 2) 153 in
  let d := doy - Z.quot (153 * mp + 2) 5 + 1 in
  let m := if bool_decide (mp < 10) then mp + 3 else mp - 9 in
  (if bool_decide (m ≤ 2) then y + 1 else y, m, d).

(** ** Timestamps *)

Module Timestamp.

Definition from_unix_secs (secs : Z) : Timestamp := secs.
Definition unix_secs (t : Timestamp) : Z := t.
Definition is_after (t now : Timestamp) : bool := bool_decide (now < t).

(** [b[i] != c] for an index known to be in range. *)
Definition byte_is (b : bytes) (i : nat) (c : ascii) : bool :=
  bool_decide (b !! i = Some c).

(** The closure [num]. *)
Definition num (text : string) (from to : nat) : result Z BadTimestamp :=
  match str_get text from to with
  | None => Err {| bad_text := text |}
  | Some piece =>
      match parse_i64 piece with
      | Some n => Ok n
      | None => Err {| bad_text := text |}
      end
  end.

Definition parse (text : string) : result Timestamp BadTimestamp :=
  let bad := {| bad_text := text |} in
  let b := as_bytes text in
  if negb (bool_decide (length b = 20%nat))
     || negb (byte_is b 4 "-") || negb (byte_is b 7 "-") || negb (byte_is b 10 "T")
     || negb (byte_is b 13 ":") || negb (byte_is b 16 ":") || negb (byte_is b 19 "Z")
  then Err bad
  else
    year ←? num text 0 4; month ←? num text 5 7; day ←? num text 8 10;
    hour ←? num text 11 13; minute ←? num text 14 16; second ←? num text 17 19;
    if negb (bool_decide (1 ≤ month ≤ 12)) || negb (bool_decide (1 ≤ day ≤ 31)) then Err bad
    else if bool_decide (23 < hour) || bool_decide (59 < minute) || bool_decide (59 < second)
    then Err bad
    else Ok (days_from_civil year month day * 86400 + hour * 3600 + minute * 60 + second).

(** [Display]; [div_euclid] and [rem_euclid] by a positive number are floor
    division and modulo. *)
Definition display (t : Timestamp) : string :=
  let days := t / 86400 in
  let rest := t mod 86400 in
  let '(year, month, day) := civil_from_days days in
  fmt_zero 4 year +:+ "-" +:+ fmt_zero 2 month +:+ "-" +:+ fmt_zero 2 day +:+ "T"
  +:+ fmt_zero 2 (Z.quot rest 3600) +:+ ":" +:+ fmt_zero 2 (Z.quot (Z.rem rest 3600) 60)
  +:+ ":" +:+ fmt_zero 2 (Z.rem rest 60) +:+ "Z".

End Timestamp.

(** ** Windows *)

Record Window := { from : option Timestamp; until : option Timestamp }.

Module Window.

Definition unbounded : Window := {| from := None; until := None |}.

(** [Option::or]. *)
Definition tighter (f : Z → Z → Z) (a b : option Timestamp) : option Timestamp :=
  match a, b with
  | Some a, Some b => Some (f a b)
  | Some a, None => Some a
  | None, b => b
  end.

Definition intersect (w other : Window) : Window :=
  {| from := tighter Z.max (from w) (from other);
     until := tighter Z.min (until w) (until other) |}.

Definition is_non_empty (w : Window) : bool :=
  match from w, until w with
  | Some f, Some u => bool_decide (f ≤ u)
  | _, _ => true
  end.

Definition contains (w : Window) (now : Timestamp) : bool :=
  match from w with Some f => bool_decide (f ≤ now) | None => true end
  && match until w with Some u => bool_decide (now ≤ u) | None => true end.

End Window.

(** ** The calendar as a count of days

    The reference: the Gregorian calendar given by its month lengths, one day
    following another. *)

Definition is_leap (y : Z) : bool :=
  bool_decide (y mod 4 = 0 ∧ y mod 100 ≠ 0 ∨ y mod 400 = 0).

Definition days_in_month (y m : Z) : Z :=
  if bool_decide (m = 2) then (if is_leap y then 29 else 28)
  else if bool_decide (m = 4 ∨ m = 6 ∨ m = 9 ∨ m = 11) then 30 else 31.

Definition valid_date (date : Z * Z * Z) : Prop :=
  let '(y, m, d) := date in 1 ≤ m ≤ 12 ∧ 1 ≤ d ≤ days_in_month y m.

Definition next_day (date : Z * Z * Z) : Z * Z * Z :=
  let '(y, m, d) := date in
  if bool_decide (d < days_in_month y m) then (y, m, d + 1)
  else if bool_decide (m < 12) then (y, m + 1, 1) else (y + 1, 1, 1).

Definition day_number (date : Z * Z * Z) : Z := let '(y, m, d) := date in days_from_civil y m d.

Module TimeFacts.

(** Years are counted from March, so the leap day is the last of its year. *)
Definition leaps (y : Z) : Z := y / 4 - y / 100 + y / 400.
Definition march_year (y m : Z) : Z := if bool_decide (m ≤ 2) then y - 1 else y.
Definition march_month (m : Z) : Z := if bool_decide (2 < m) then m - 3 else m + 9.

Lemma floor_quot a b : 0 < b → Z.quot (if bool_decide (0 ≤ a) then a else a - (b - 1)) b = a / b.
Proof.
  intros Hb. case_bool_decide; [by rewrite Z.quot_div_nonneg by lia|].
  replace (a - (b - 1)) with (- (b - 1 - a)) by lia.
  rewrite Z.quot_opp_l, Z.quot_div_nonneg by lia. Z.div_mod_to_equations. nia.
Qed.

Lemma days_from_civil_eq y m d :
  1 ≤ m ≤ 12 →
  days_from_civil y m d =
    365 * march_year y m + leaps (march_year y m) + (153 * march_month m + 2) / 5 + d - 719469.
Proof.
  intros Hm. unfold days_from_civil, march_month, leaps. cbv zeta. fold (march_year y m).
  set (y' := march_year y m).
  pose proof (floor_quot y' 400 ltac:(lia)) as Hf. change (400 - 1) with 399 in Hf. rewrite Hf.
  rewrite !Z.quot_div_nonneg by (repeat case_bool_decide; Z.div_mod_to_equations; lia).
  clear Hf. clearbody y'. set (mp := if bool_decide (2 < m) then _ else _). clearbody mp.
  assert ((y' - y' / 400 * 400) / 100 = y' / 100 - 4 * (y' / 400)) by (Z.div_mod_to_equations; lia).
  assert ((y' - y' / 400 * 400) / 4 = y' / 4 - 100 * (y' / 400)) by (Z.div_mod_to_equations; lia).
  Z.div_mod_to_equations. lia.
Qed.

Lemma leap_step y : leaps (y + 1) - leaps y = if is_leap (y + 1) then 1 else 0.
Proof.
  unfold leaps, is_leap. case_bool_decide as E; Z.div_mod_to_equations; lia.
Qed.

Ltac month_cases Hm :=
  let H := fresh in
  match type of Hm with 1 ≤ ?m ≤ 12 =>
    assert (H : m = 1 ∨ m = 2 ∨ m = 3 ∨ m = 4 ∨ m = 5 ∨ m = 6 ∨ m = 7 ∨ m = 8 ∨ m = 9
                ∨ m = 10 ∨ m = 11 ∨ m = 12) by lia;
    destruct_or! H; subst m
  end.

(** Evaluate the day a known month starts at. *)
Ltac eval_months :=
  repeat match goal with
  | |- context [(153 * march_month ?x + 2) / 5] =>
      let v := eval vm_compute in ((153 * march_month x + 2) / 5) in
      change ((153 * march_month x + 2) / 5) with v
  | _ : context [(153 * march_month ?x + 2) / 5] |- _ =>
      let v := eval vm_compute in ((153 * march_month x + 2) / 5) in
      change ((153 * march_month x + 2) / 5) with v in *
  end.

(** The month lengths, from the table of the algorithm. *)
Lemma days_in_month_eq y m :
  1 ≤ m ≤ 12 → m ≠ 2 →
  days_in_month y m = (153 * (march_month m + 1) + 2) / 5 - (153 * march_month m + 2) / 5
  ∨ m = 2.
Proof. intros Hm H2. left. month_cases Hm; try done. Qed.

Lemma next_day_number date :
  valid_date date → valid_date (next_day date) ∧ day_number (next_day date) = day_number date + 1.
Proof.
  destruct date as [[y m] d]. intros [Hm Hd].
  assert (Hl := leap_step (y - 1)). replace (y - 1 + 1) with y in Hl by lia.
  assert (Hv : valid_date (next_day (y, m, d))).
  { unfold next_day. case_bool_decide; [simpl; lia|].
    case_bool_decide; [|by split; simpl; vm_compute].
    split; [lia|]. unfold days_in_month. repeat case_bool_decide; try lia; by destruct (is_leap y). }
  split; [done|]. clear Hv. unfold next_day, day_number.
  assert (Hx : days_in_month y m = if bool_decide (m = 2) then if is_leap y then 29 else 28
               else if bool_decide (m = 4 ∨ m = 6 ∨ m = 9 ∨ m = 11) then 30 else 31) by done.
  destruct (is_leap y); month_cases Hm; simpl in Hx; rewrite Hx in *;
    case_bool_decide; simpl; rewrite !days_from_civil_eq by lia; unfold march_year; simpl;
    replace (y + 1 - 1) with y by lia; clear Hx;
    eval_months; lia.
Qed.

(** The year of the 400-year cycle a day falls in. *)
Lemma year_of_era doe :
  0 ≤ doe < 146097 →
  let yoe := (doe - doe / 1460 + doe / 36524 - doe / 146096) / 365 in
  let doy := doe - (365 * yoe + yoe / 4 - yoe / 100) in
  0 ≤ yoe < 400 ∧ 0 ≤ doy < 366
  ∧ (doy = 365 → (yoe + 1) mod 4 = 0 ∧ ((yoe + 1) mod 100 ≠ 0 ∨ yoe = 399)).
Proof. intros Hd yoe doy. subst yoe doy. Z.div_mod_to_equations. lia. Qed.

(** The month and day of a day of the year. *)
Lemma month_of_year doy :
  0 ≤ doy < 366 →
  let mp := (5 * doy + 2) / 153 in
  let d := doy - (153 * mp + 2) / 5 + 1 in
  0 ≤ mp < 12 ∧ 1 ≤ d ∧ doy + 1 ≤ (153 * (mp + 1) + 2) / 5 ∧ (mp = 11 → d ≤ 29 ∧ (d = 29 → doy = 365)).
Proof. intros Hd mp d. subst mp d. Z.div_mod_to_equations. lia. Qed.

Lemma civil_spec days : valid_date (civil_from_days days) ∧ day_number (civil_from_days days) = days.
Proof.
  unfold civil_from_days. cbv zeta.
  pose proof (floor_quot (days + 719468) 146097 ltac:(lia)) as Hf.
  change (146097 - 1) with 146096 in Hf. rewrite Hf. clear Hf.
  set (era := (days + 719468) / 146097).
  assert (Hdoe : 0 ≤ days + 719468 - era * 146097 < 146097)
    by (subst era; Z.div_mod_to_equations; lia).
  set (doe := days + 719468 - era * 146097) in *.
  rewrite !(Z.quot_div_nonneg doe) by lia.
  rewrite (Z.quot_div_nonneg (doe - _ + _ - _)) by (Z.div_mod_to_equations; lia).
  destruct (year_of_era doe Hdoe) as (Hy & Hdoy & Hleap). cbv zeta in *.
  set (yoe := (doe - doe / 1460 + doe / 36524 - doe / 146096) / 365) in *.
  rewrite !(Z.quot_div_nonneg yoe) by lia.
  set (doy := doe - (365 * yoe + yoe / 4 - yoe / 100)) in *.
  rewrite (Z.quot_div_nonneg (5 * doy + 2)) by lia.
  destruct (month_of_year doy Hdoy) as (Hmp & Hd1 & Hd2 & Hfeb). cbv zeta in *.
  set (mp := (5 * doy + 2) / 153) in *.
  rewrite (Z.quot_div_nonneg (153 * mp + 2)) by lia.
  assert (Hera : days = era * 146097 + 365 * yoe + yoe / 4 - yoe / 100 + doy - 719468)
    by (subst doy doe; lia).
  clearbody mp doy yoe. clear doe Hdoe. clearbody era.
  assert (Hl : leaps (yoe + era * 400) = era * 97 + yoe / 4 - yoe / 100)
    by (unfold leaps; Z.div_mod_to_equations; lia).
  assert (Hlp : doy = 365 → is_leap (yoe + era * 400 + 1) = true).
  { intros E. destruct (Hleap E) as [H4 H100]. apply bool_decide_eq_true.
    Z.div_mod_to_equations; lia. }
  set (m := if bool_decide (mp < 10) then mp + 3 else mp - 9).
  assert (Hm : 1 ≤ m ≤ 12) by (subst m; case_bool_decide; lia).
  assert (Hmm : march_month m = mp)
    by (subst m; unfold march_month; repeat case_bool_decide; lia).
  set (yy := if bool_decide (m ≤ 2) then _ else _).
  assert (Hmy : march_year yy m = yoe + era * 400)
    by (unfold march_year, yy; case_bool_decide; lia).
  split.
  - split; [done|]. split; [lia|].
    destruct (decide (m = 2)) as [E2|N2].
    + assert (mp = 11) as E11 by (subst m; case_bool_decide; lia).
      destruct (Hfeb E11) as [H29 H29']. unfold days_in_month. rewrite bool_decide_true by done.
      destruct (decide (doy - (153 * mp + 2) / 5 + 1 = 29)) as [E|N].
      * assert (yy = yoe + era * 400 + 1) as -> by (unfold yy; rewrite bool_decide_true by lia; lia).
        rewrite (Hlp (H29' E)). lia.
      * destruct (is_leap yy); lia.
    + destruct (days_in_month_eq yy m Hm N2) as [->|]; [rewrite Hmm; lia|done].
  - unfold day_number. rewrite days_from_civil_eq, Hmy, Hmm, Hl by done. lia.
Qed.

Lemma days_in_month_le y m : 1 ≤ m ≤ 12 → m ≠ 2 →
  days_in_month y m ≤ (153 * (march_month m + 1) + 2) / 5 - (153 * march_month m + 2) / 5.
Proof. intros Hm H2. destruct (days_in_month_eq y m Hm H2); lia. Qed.

(** A date is its March year and the day within it. *)
Lemma day_of_year_bound y m d :
  valid_date (y, m, d) →
  0 ≤ march_month m < 12 ∧ 1 ≤ d
  ∧ (153 * march_month m + 2) / 5 + d - 1
    < (if bool_decide (march_month m = 11) then 365 + (leaps (march_year y m + 1) - leaps (march_year y m))
       else (153 * (march_month m + 1) + 2) / 5).
Proof.
  intros [Hm Hd]. split; [unfold march_month; case_bool_decide; lia|]. split; [lia|].
  destruct (decide (m = 2)) as [->|N].
  - assert (Hl := leap_step (y - 1)). replace (y - 1 + 1) with y in Hl by lia.
    unfold march_year, days_in_month in *. simpl in *. replace (y - 1 + 1) with y by lia.
    change ((153 * march_month 2 + 2) / 5) with 337. destruct (is_leap y); lia.
  - pose proof (days_in_month_le y m Hm N).
    rewrite bool_decide_false by (unfold march_month; case_bool_decide; lia). lia.
Qed.

Lemma leaps_mono a b : a ≤ b → leaps a ≤ leaps b.
Proof. intros H. unfold leaps. Z.div_mod_to_equations. lia. Qed.

Lemma day_number_inj date date' :
  valid_date date → valid_date date' → day_number date = day_number date' → date = date'.
Proof.
  destruct date as [[y m] d], date' as [[y' m'] d']. intros Hv Hv'.
  destruct (day_of_year_bound _ _ _ Hv) as (Hmp & Hd & Hb), (day_of_year_bound _ _ _ Hv') as (Hmp' & Hd' & Hb').
  destruct Hv as [Hm _], Hv' as [Hm' _]. unfold day_number. rewrite !days_from_civil_eq by done. intros E.
  assert (HY : march_year y m = march_year y' m').
  { pose proof (leaps_mono (march_year y m + 1) (march_year y' m')).
    pose proof (leaps_mono (march_year y' m' + 1) (march_year y m)).
    pose proof (leaps_mono (march_year y m) (march_year y' m')).
    pose proof (leaps_mono (march_year y' m') (march_year y m)).
    repeat case_bool_decide; Z.div_mod_to_equations; lia. }
  rewrite HY in *.
  assert (HM : march_month m = march_month m').
  { repeat case_bool_decide; Z.div_mod_to_equations; lia. }
  rewrite HM in *. assert (d = d') as -> by lia.
  assert (m = m') as -> by (unfold march_month in HM; repeat case_bool_decide; lia).
  assert (y = y') as -> by (unfold march_year in HY; repeat case_bool_decide; lia).
  done.
Qed.

(** ** Text *)

Definition of_piece (text : string) (piece : string) : result Z BadTimestamp :=
  match parse_i64 piece with Some n => Ok n | None => Err {| bad_text := text |} end.

Lemma num_ascii text i j :
  is_ascii_text text → (i ≤ j ≤ str_len text)%nat →
  Timestamp.num text i j = of_piece text (of_bytes (take (j - i) (drop i (as_bytes text)))).
Proof.
  intros Ha Hij. unfold Timestamp.num, str_get.
  rewrite !ascii_boundary by (done || lia). by rewrite bool_decide_true.
Qed.

(** Text of the fixed shape parses field by field. *)
Lemma parse_shape y mo d h mi s :
  let text := y +:+ "-" +:+ mo +:+ "-" +:+ d +:+ "T" +:+ h +:+ ":" +:+ mi +:+ ":" +:+ s +:+ "Z" in
  is_ascii_text text →
  str_len y = 4%nat → str_len mo = 2%nat → str_len d = 2%nat → str_len h = 2%nat →
  str_len mi = 2%nat → str_len s = 2%nat →
  Timestamp.parse text =
    (year ←? of_piece text y; month ←? of_piece text mo; day ←? of_piece text d;
     hour ←? of_piece text h; minute ←? of_piece text mi; second ←? of_piece text s;
     if negb (bool_decide (1 ≤ month ≤ 12)) || negb (bool_decide (1 ≤ day ≤ 31))
     then Err {| bad_text := text |}
     else if bool_decide (23 < hour) || bool_decide (59 < minute) || bool_decide (59 < second)
     then Err {| bad_text := text |}
     else Ok (days_from_civil year month day * 86400 + hour * 3600 + minute * 60 + second)).
Proof.
  intros text Ha Hy Hmo Hd Hh Hmi Hs.
  assert (Hlen : length (as_bytes text) = 20%nat).
  { change (str_len text = 20%nat). subst text. rewrite !str_len_app.
    rewrite Hy, Hmo, Hd, Hh, Hmi, Hs. done. }
  unfold Timestamp.parse. rewrite !num_ascii by (done || unfold str_len; lia).
  rewrite Hlen, bool_decide_true by done. subst text. clear Ha Hlen.
  repeat match goal with
  | H : str_len ?p = S _ |- _ =>
      destruct p as [|? p]; [done|]; rewrite str_len_cons in H; injection H as H
  | H : str_len ?p = 0%nat |- _ => destruct p; [clear H|done]
  end.
  reflexivity.
Qed.

Lemma new_year y : day_number (y, 1, 1) = 365 * (y - 1) + leaps (y - 1) - 719162.
Proof. unfold day_number. rewrite days_from_civil_eq by lia. unfold march_year. simpl. eval_months. lia. Qed.

Lemma within_year y m d :
  valid_date (y, m, d) → day_number (y, 1, 1) ≤ day_number (y, m, d) < day_number (y + 1, 1, 1).
Proof.
  intros Hv. pose proof (day_of_year_bound _ _ _ Hv) as (Hmp & Hd & Hb). destruct Hv as [Hm Hdm].
  rewrite !new_year. unfold day_number. rewrite days_from_civil_eq by done.
  assert (Hl := leap_step (y - 1)). replace (y - 1 + 1) with y in Hl by lia.
  replace (y + 1 - 1) with y by lia.
  unfold march_year, days_in_month in *. destruct (is_leap y);
    month_cases Hm; simpl in *;
    eval_months; lia.
Qed.

(** The days whose year has four characters. *)
Lemma four_character_years y m d :
  valid_date (y, m, d) →
  -999 ≤ y ≤ 9999 ↔ day_number (-999, 1, 1) ≤ day_number (y, m, d) < day_number (10000, 1, 1).
Proof.
  intros Hv. pose proof (within_year _ _ _ Hv). rewrite !new_year in *.
  change (-999 - 1) with (-1000). change (10000 - 1) with 9999.
  replace (y + 1 - 1) with y in * by lia.
  assert (Hmono : ∀ a b, a ≤ b → leaps a ≤ leaps b) by apply leaps_mono.
  split; intros Hr.
  - pose proof (Hmono (-1000) (y - 1)). pose proof (Hmono y 9999). lia.
  - destruct (decide (y < -999)) as [|].
    + pose proof (Hmono y (-1000)). lia.
    + destruct (decide (9999 < y)); [|lia]. pose proof (Hmono 9999 (y - 1)). lia.
Qed.

Definition earliest : Timestamp := day_number (-999, 1, 1) * 86400.
Definition latest : Timestamp := day_number (10000, 1, 1) * 86400 - 1.

(** A field is as long as its width when the number fits it. *)
Lemma fmt_two z : 0 ≤ z < 100 → str_len (fmt_zero 2 z) = 2%nat.
Proof.
  intros Hz. rewrite fmt_zero_len. rewrite bool_decide_false by lia.
  pose proof (proj2 (dec_length (Z.to_N (Z.abs z)) 1)). simpl in *. lia.
Qed.

Lemma fmt_four z : str_len (fmt_zero 4 z) = 4%nat ↔ -999 ≤ z ≤ 9999.
Proof.
  rewrite fmt_zero_len.
  pose proof (dec_length (Z.to_N (Z.abs z)) 3) as H3. pose proof (dec_length (Z.to_N (Z.abs z)) 2) as H2.
  simpl in *. case_bool_decide; lia.
Qed.

Lemma fmt_four_ge z : (4 ≤ str_len (fmt_zero 4 z))%nat.
Proof. rewrite fmt_zero_len. lia. Qed.

Lemma day_of_seconds t :
  0 ≤ t mod 86400 < 86400
  ∧ t = t / 86400 * 86400 + Z.quot (t mod 86400) 3600 * 3600
        + Z.quot (Z.rem (t mod 86400) 3600) 60 * 60 + Z.rem (t mod 86400) 60
  ∧ 0 ≤ Z.quot (t mod 86400) 3600 ≤ 23 ∧ 0 ≤ Z.quot (Z.rem (t mod 86400) 3600) 60 ≤ 59
  ∧ 0 ≤ Z.rem (t mod 86400) 60 ≤ 59.
Proof.
  assert (0 ≤ t mod 86400 < 86400) by (apply Z.mod_pos_bound; lia). split; [done|].
  rewrite !Z.rem_mod_nonneg, !Z.quot_div_nonneg by (try apply Z.mod_pos_bound; lia).
  Z.div_mod_to_equations. lia.
Qed.

Lemma of_piece_fmt text w z : -(2 ^ 63) ≤ z < 2 ^ 63 → of_piece text (fmt_zero w z) = Ok z.
Proof. intros Hz. unfold of_piece. by rewrite parse_i64_fmt. Qed.

Lemma range_in_days t : earliest ≤ t ≤ latest ↔
  day_number (-999, 1, 1) ≤ t / 86400 < day_number (10000, 1, 1).
Proof. unfold earliest, latest. Z.div_mod_to_equations. lia. Qed.

Lemma display_parses t :
  Timestamp.parse (Timestamp.display t) = Ok t ↔ earliest ≤ t ≤ latest.
Proof.
  rewrite range_in_days. pose proof (civil_spec (t / 86400)) as [Hv Hn].
  pose proof (day_of_seconds t) as (Hs & Ht & Hh & Hmi & Hse).
  unfold Timestamp.display. destruct (civil_from_days (t / 86400)) as [[y m] d].
  rewrite <-Hn, <-(four_character_years y m d Hv), <-fmt_four.
  assert (Hm : 1 ≤ m ≤ 12) by apply Hv.
  assert (Hd : 1 ≤ d ≤ 31).
  { destruct Hv as [_ Hd]. unfold days_in_month in Hd. repeat case_match; lia. }
  set (hh := Z.quot (t mod 86400) 3600) in *. set (mi := Z.quot _ 60) in *. set (se := Z.rem _ 60) in *.
  assert (Hl2 : ∀ z, 0 ≤ z ≤ 59 → str_len (fmt_zero 2 z) = 2%nat) by (intros; apply fmt_two; lia).
  split.
  - intros Hp. pose proof (fmt_four_ge y). destruct (decide (str_len (fmt_zero 4 y) = 4%nat)) as [|Hne]; [done|].
    exfalso. revert Hp. unfold Timestamp.parse. rewrite bool_decide_false; [done|].
    change (length (as_bytes ?x)) with (str_len x). rewrite !str_len_app, !Hl2 by lia.
    unfold str_len at 2 3 4 5 6 7. simpl. lia.
  - intros Hy. pose proof (proj1 (fmt_four y) Hy).
    rewrite parse_shape by
      (done || (apply Hl2; lia) || (repeat (apply is_ascii_app; [first [apply fmt_zero_ascii|by repeat constructor]|]); by repeat constructor)).
    rewrite !of_piece_fmt by lia. simpl.
    rewrite !(bool_decide_true (_ ≤ _ ≤ _)), !bool_decide_false by lia. simpl. f_equal.
    change (days_from_civil y m d) with (day_number (y, m, d)). lia.
Qed.
Lemma num_bound text i j z :
  Timestamp.num text i j = Ok z → (j - i ≤ 4)%nat → -999 ≤ z ≤ 9999.
Proof.
  unfold Timestamp.num, str_get. case_match eqn:E; [|done].
  destruct (_ && _) eqn:Eb in E; [|done]. injection E as <-. intros Hp Hij.
  destruct (parse_i64 _) as [n|] eqn:En in Hp; [|done]. injection Hp as ->.
  apply parse_i64_bound with (k := 3%nat) in En; [simpl in En; lia|].
  unfold str_len. rewrite as_of_bytes, length_take. lia.
Qed.

Lemma num_two text i j z :
  Timestamp.num text i j = Ok z → (j - i ≤ 2)%nat → -9 ≤ z.
Proof.
  unfold Timestamp.num, str_get. case_match eqn:E; [|done].
  destruct (_ && _) eqn:Eb in E; [|done]. injection E as <-. intros Hp Hij.
  destruct (parse_i64 _) as [n|] eqn:En in Hp; [|done]. injection Hp as ->.
  apply parse_i64_bound with (k := 1%nat) in En; [simpl in En; lia|].
  unfold str_len. rewrite as_of_bytes, length_take. lia.
Qed.

Lemma month_day_bounds y m d :
  1 ≤ m ≤ 12 → 1 ≤ d ≤ 31 →
  day_number (y, 1, 1) ≤ day_number (y, m, d) < day_number (y + 1, 1, 1).
Proof.
  intros Hm Hd. rewrite !new_year. unfold day_number. rewrite days_from_civil_eq by done.
  assert (Hl := leap_step (y - 1)). replace (y - 1 + 1) with y in Hl by lia.
  replace (y + 1 - 1) with y by lia.
  unfold march_year. destruct (is_leap y); month_cases Hm; simpl in *; eval_months; lia.
Qed.

Lemma app_inj_tail (a b r r' : string) :
  str_len r = str_len r' → a +:+ r = b +:+ r' → a = b ∧ r = r'.
Proof.
  intros Hl E. apply (f_equal as_bytes) in E. rewrite !as_bytes_app in E.
  apply app_inj_2 in E as [Ea Er]; [|done]. split; by apply as_bytes_inj.
Qed.

Lemma app_inj_head (a b r r' : string) :
  str_len a = str_len b → a +:+ r = b +:+ r' → a = b ∧ r = r'.
Proof.
  intros Hl E. apply (f_equal as_bytes) in E. rewrite !as_bytes_app in E.
  apply app_inj_1 in E as [Ea Er]; [|done]. split; by apply as_bytes_inj.
Qed.

(** A two-character field and what is after it. *)
Lemma two_field_inj z z' c r r' :
  0 ≤ z < 100 → 0 ≤ z' < 100 →
  fmt_zero 2 z +:+ String c r = fmt_zero 2 z' +:+ String c r' → z = z' ∧ r = r'.
Proof.
  intros Hz Hz' E. apply app_inj_head in E as [E1 E2]; [|by rewrite !fmt_two].
  apply fmt_zero_inj in E1. by injection E2.
Qed.

(** Different instants have different text, whatever their year. *)
Lemma display_inj t t' : Timestamp.display t = Timestamp.display t' → t = t'.
Proof.
  unfold Timestamp.display.
  pose proof (civil_spec (t / 86400)) as [Hv Hn]. pose proof (civil_spec (t' / 86400)) as [Hv' Hn'].
  pose proof (day_of_seconds t) as (_ & Ht & Hh & Hmi & Hse).
  pose proof (day_of_seconds t') as (_ & Ht' & Hh' & Hmi' & Hse').
  destruct (civil_from_days (t / 86400)) as [[y m] d], (civil_from_days (t' / 86400)) as [[y' m'] d'].
  assert (Hb : ∀ y m d, valid_date (y, m, d) → 0 ≤ m < 100 ∧ 0 ≤ d < 100).
  { intros y0 m0 d0 [Hm Hd]. unfold days_in_month in Hd. repeat case_match; lia. }
  destruct (Hb _ _ _ Hv) as [Hm Hd], (Hb _ _ _ Hv') as [Hm' Hd'].
  intros E. apply app_inj_tail in E as [Ey E].
  2:{ rewrite !str_len_app, !fmt_two by lia. done. }
  apply fmt_zero_inj in Ey as <-. injection E as E.
  apply two_field_inj in E as [<- E]; [|lia..]. apply two_field_inj in E as [<- E]; [|lia..].
  apply two_field_inj in E as [Eh E]; [|lia..]. apply two_field_inj in E as [Em E]; [|lia..].
  apply two_field_inj in E as [Es _]; [|lia..].
  assert (t / 86400 = t' / 86400) by congruence. lia.
Qed.

(** ** Theorems *)

(** The calendar arithmetic is the Gregorian calendar: the two functions are
    inverse on valid dates, the epoch is 1970-01-01, and each day's date is
    the successor of the day before's. *)
Theorem civil_calendar :
  day_number (1970, 1, 1) = 0
  ∧ (∀ days, valid_date (civil_from_days days)
             ∧ day_number (civil_from_days days) = days
             ∧ civil_from_days (days + 1) = next_day (civil_from_days days))
  ∧ (∀ date, valid_date date → civil_from_days (day_number date) = date).
Proof.
  split; [done|].
  assert (Hinv : ∀ date, valid_date date → civil_from_days (day_number date) = date).
  { intros date Hd. destruct (civil_spec (day_number date)). by apply day_number_inj. }
  split; [|done]. intros days. destruct (civil_spec days) as [Hv Hn]. split_and!; [done|done|].
  destruct (next_day_number _ Hv) as [Hv' Hn']. rewrite <-(Hinv _ Hv'), Hn', Hn. done.
Qed.

(** Every instant from the start of the year -999 to the end of 9999 is named
    by its own display and no other is; whatever text parses is within those
    years, short of ten hours before them, and so inside 64 bits. *)
Theorem timestamp_range t :
  (Timestamp.parse (Timestamp.display t) = Ok t ↔ earliest ≤ t ≤ latest)
  ∧ ∀ text, Timestamp.parse text = Ok t →
      earliest - 10 * 3600 < t ≤ latest ∧ - 2 ^ 63 ≤ t < 2 ^ 63.
Proof.
  split; [apply display_parses|]. intros text H.
  unfold Timestamp.parse in H. destruct (_ || _) in H; [done|].
  apply rbind_Ok in H as (y & Hy & H). apply rbind_Ok in H as (m & Hm & H).
  apply rbind_Ok in H as (d & Hd & H). apply rbind_Ok in H as (h & Hh & H).
  apply rbind_Ok in H as (mi & Hmi & H). apply rbind_Ok in H as (s & Hs & H).
  case_bool_decide as Em; [|done]. case_bool_decide as Ed; [|done]. simpl in H.
  do 3 (case_bool_decide; [done|]). simpl in H. injection H as <-.
  apply num_bound in Hy; [|lia].
  apply num_two in Hh, Hmi, Hs; [|lia..].
  pose proof (month_day_bounds y m d Em Ed) as Hb. rewrite !new_year in Hb.
  change (day_number (y, m, d)) with (days_from_civil y m d) in Hb.
  pose proof (leaps_mono (-1000) (y - 1)). pose proof (leaps_mono y 9999).
  replace (y + 1 - 1) with y in * by lia.
  unfold earliest, latest. rewrite !new_year.
  change (-999 - 1) with (-1000). change (10000 - 1) with 9999.
  change (leaps (-1000)) with (-243) in *. change (leaps 9999) with 2424 in *. lia.
Qed.

(** The day, hour, minute and second are checked against an upper bound only,
    and a sign is read as part of a field, so one instant has spellings the
    display never writes: a day the month does not have, and a field below
    zero. *)
Theorem timestamp_respelled :
  Timestamp.parse "2026-02-31T00:00:00Z" = Timestamp.parse "2026-03-03T00:00:00Z"
  ∧ Timestamp.parse "2026-09-11T-5:00:00Z" = Timestamp.parse "2026-09-10T19:00:00Z"
  ∧ Timestamp.parse "2026-09-11T+5:-1:00Z" = Timestamp.parse "2026-09-11T04:59:00Z"
  ∧ is_ok (Timestamp.parse "2026-02-31T00:00:00Z") = true
  ∧ is_ok (Timestamp.parse "2026-09-11T-5:00:00Z") = true
  ∧ is_ok (Timestamp.parse "2026-09-11T+5:-1:00Z") = true.
Proof. by vm_compute. Qed.

Lemma intersect_contains w w' now :
  Window.contains (Window.intersect w w') now = Window.contains w now && Window.contains w' now.
Proof.
  destruct w as [[] []], w' as [[] []]; unfold Window.contains; simpl;
    rewrite ?andb_true_r; apply eq_true_iff_eq; rewrite ?andb_true_iff, ?bool_decide_eq_true; lia.
Qed.

Lemma non_empty_contains w :
  Window.is_non_empty w = true ↔ ∃ now, Window.contains w now = true.
Proof.
  destruct w as [[f|] [u|]]; unfold Window.is_non_empty, Window.contains; simpl.
  - rewrite bool_decide_eq_true. split; [|intros [now [? ?]%andb_true_iff]; by case_bool_decide; case_bool_decide; lia].
    intros Hfu. exists f. by rewrite !bool_decide_true by lia.
  - split; [|done]. exists f. by rewrite bool_decide_true by lia.
  - split; [|done]. exists u. by rewrite bool_decide_true by lia.
  - split; [|done]. by exists 0.
Qed.

(** The effective window holds exactly the instants both windows hold, and a
    window is non-empty exactly when some instant is in it. *)
Theorem window_intersection w w' :
  (∀ now, Window.contains (Window.intersect w w') now = Window.contains w now && Window.contains w' now)
  ∧ (Window.is_non_empty w = true ↔ ∃ now, Window.contains w now = true).
Proof. split; [intros; apply intersect_contains|apply non_empty_contains]. Qed.

End TimeFacts.
