(* ===== verification/Realm.v ===== *)
(** * Realms ([crates/drt-config/src/realm.rs])

    The dotted policy paths consent is given in: parsing, coverage, the
    mapping from a capability to the realm it lives under, and the realms a
    ceiling covers. *)

From S2P Require Import Prelude.
From S2P Require Import Bytes.
From S2P Require Import Value.
From S2P Require Import Caps.

Definition ROOT : string := "operator".

(** [Realm(String)]. *)
Definition Realm : Type := string.

(** A [char] is its UTF-8 bytes. *)
Inductive BadRealm :=
  | NotUnderRoot (realm : string)
  | EmptySegment (realm : string)
  | BadCharacter (realm : string) (character : bytes).

(** [is_ascii_lowercase], [is_ascii_uppercase] and [is_ascii_digit] of a
    character. *)
Definition char_in (lo hi : N) (c : bytes) : bool :=
  match c with [b] => in_range lo hi (byte_val b) | _ => false end.
Definition is_lowercase : bytes → bool := char_in 97 122.
Definition is_uppercase : bytes → bool := char_in 65 90.
Definition is_dec_digit : bytes → bool := char_in 48 57.

(** A character a realm segment may hold. *)
Definition realm_char (c : bytes) : bool :=
  is_lowercase c || is_dec_digit c || bool_decide (c = ["_"%char]) || bool_decide (c = ["-"%char]).

Module Realm.

Definition root : Realm := ROOT.

Definition covers (r other : Realm) : bool :=
  if bool_decide (r = other) then true
  else match strip_prefix r other with
       | Some rest => starts_with rest "."
       | None => false
       end.

Definition covered_by_any (r : Realm) (set : list Realm) : bool :=
  existsb (λ x, covers x r) set.

(** The loop over the segments. *)
Fixpoint check_segments (text : string) (segments : list string) : result unit BadRealm :=
  match segments with
  | [] => Ok tt
  | segment :: segments' =>
      if str_is_empty segment then Err (EmptySegment text)
      else match find_first (λ c, negb (realm_char c)) (chars segment) with
           | Some bad => Err (BadCharacter text bad)
           | None => check_segments text segments'
           end
  end.

Definition parse (text : string) : result Realm BadRealm :=
  match split_on "." text with
  | first :: _ =>
      if bool_decide (first = ROOT) then
        _ ←? check_segments text (split_on "." text); Ok text
      else Err (NotUnderRoot text)
  | [] => Err (NotUnderRoot text)
  end.

End Realm.

(** ** Capability to realm *)

(** [RealmOf]: one family's mapping. *)
Definition RealmOf : Type := Grant → option Realm.

(** [str::trim_end_matches('*')]. *)
Fixpoint trim_end_stars (s : string) : string :=
  match s with
  | EmptyString => ""
  | String c s' =>
      let t := trim_end_stars s' in
      if str_is_empty t && bool_decide (c = star) then "" else String c t
  end.

(** What one character of a segment becomes in the path. *)
Definition realm_spelling (c : bytes) : bytes :=
  if is_lowercase c || is_dec_digit c || bool_decide (c = ["_"%char]) || bool_decide (c = ["-"%char])
  then c
  else if is_uppercase c then (λ b, of_byte (byte_val b + 32)) <$> c
  else ["_"%char].

Module Structural.

(** One segment appended to the path. *)
Definition push_segment (path segment : string) : string :=
  let segment := trim_end_stars segment in
  if str_is_empty segment then path
  else path +:+ "." +:+ of_bytes (mjoin (realm_spelling <$> chars segment)).

Definition path_of (capability : string) : string :=
  let name := default capability (strip_prefix "host:" capability) in
  foldl push_segment ROOT (split_on "/" name).

Definition realm_of : RealmOf := λ g,
  match Realm.parse (path_of (capability g)) with Ok r => Some r | Err _ => None end.

End Structural.

Module Peer.

Definition realm_of : RealmOf := Structural.realm_of.

End Peer.

Record RealmRegistry := { families : btree string RealmOf; fallback : RealmOf }.

(** [Vec::sort] and [Vec::dedup] on realms. *)
Fixpoint insert_sorted (r : Realm) (l : list Realm) : list Realm :=
  match l with
  | [] => [r]
  | x :: l' => if klt x r then x :: insert_sorted r l' else r :: l
  end.
Definition sort (l : list Realm) : list Realm := foldr insert_sorted [] l.

Fixpoint dedup (l : list Realm) : list Realm :=
  match l with
  | x :: (y :: _) as l' => if bool_decide (x = y) then dedup l' else x :: dedup l'
  | _ => l
  end.

(** The forward pass of [collapse]: [out] is the kept realms, last first. *)
Fixpoint collapse_pass (out realms : list Realm) : list Realm :=
  match realms with
  | [] => reverse out
  | realm :: realms' =>
      match out with
      | kept :: _ =>
          if Realm.covers kept realm then collapse_pass out realms'
          else collapse_pass (realm :: out) realms'
      | [] => collapse_pass [realm] realms'
      end
  end.

Definition collapse (realms : list Realm) : list Realm := collapse_pass [] (dedup (sort realms)).

Module RealmRegistry.

Definition new : RealmRegistry := {| families := []; fallback := Structural.realm_of |}.

Definition declare (r : RealmRegistry) (cap : string) (mapping : RealmOf) : RealmRegistry :=
  {| families := bt_insert cap mapping (families r); fallback := fallback r |}.

(** The loop of [realm_of]: the first family, in name order, whose pattern
    covers the grant answers, whatever it answers. *)
Fixpoint lookup_family (fs : btree string RealmOf) (g : Grant) : option RealmOf :=
  match fs with
  | [] => None
  | (pattern, mapping) :: fs' =>
      if implies pattern (capability g) then Some mapping else lookup_family fs' g
  end.

Definition realm_of (r : RealmRegistry) (g : Grant) : option Realm :=
  match lookup_family (families r) g with
  | Some mapping => mapping g
  | None => fallback r g
  end.

Definition realms_of (r : RealmRegistry) (caps : list Grant) : list Realm :=
  collapse (dedup (sort (omap (realm_of r) (filter (λ g, is_grant g = true) caps)))).

End RealmRegistry.

Definition declare_families (r : RealmRegistry) : RealmRegistry :=
  RealmRegistry.declare r PEER_FAMILY Peer.realm_of.

(** ** Facts *)

Module RealmFacts.

Lemma covers_iff r o : Realm.covers r o = true ↔ r = o ∨ ∃ x, o = r +:+ String "." x.
Proof.
  unfold Realm.covers. case_bool_decide as E; [split; auto|].
  destruct (strip_prefix r o) as [rest|] eqn:S.
  - apply strip_prefix_Some in S as ->. rewrite starts_with_iff. split.
    + intros [x ->]. right. by exists x.
    + intros [|[x Hx]]; [done|]. exists x.
      apply (f_equal as_bytes) in Hx. rewrite !as_bytes_app in Hx. apply app_inv_head in Hx.
      by apply as_bytes_inj.
  - split; [done|]. intros [|[x ->]]; [done|]. by rewrite strip_prefix_app in S.
Qed.

Lemma covers_segments r o :
  Realm.covers r o = true ↔ split_on "." r `prefix_of` split_on "." o.
Proof.
  rewrite covers_iff. split.
  - intros [->|[x ->]]; [done|]. rewrite split_on_app. by eexists.
  - intros [l Hl]. destruct l as [|y l].
    + left. rewrite app_nil_r in Hl. by apply split_on_inj in Hl.
    + right. exists (join "." (y :: l)).
      by rewrite <-(join_split "." o), Hl, join_app, join_split by (done || apply split_on_nonempty).
Qed.

(** Coverage is segment by segment: one realm covers another exactly when its
    dotted segments begin the other's, so [operator.net] covers
    [operator.net.domains] and never [operator.network]. *)
Theorem covers_spec r o :
  Realm.covers r o = true ↔ split_on "." r `prefix_of` split_on "." o.
Proof. apply covers_segments. Qed.

Lemma covers_refl r : Realm.covers r r = true.
Proof. apply covers_iff. by left. Qed.

Lemma covers_trans a b c :
  Realm.covers a b = true → Realm.covers b c = true → Realm.covers a c = true.
Proof.
  rewrite !covers_iff. intros [->|[x ->]]; [done|]. intros [<-|[y ->]]; right; [by eexists|].
  exists (x +:+ String "." y). apply as_bytes_inj. rewrite !as_bytes_app. simpl.
  change (as_bytes (String ?c ?s)) with (c :: as_bytes s). by rewrite as_bytes_app, <-app_assoc.
Qed.

Lemma covered_iff r set :
  Realm.covered_by_any r set = true ↔ ∃ x, x ∈ set ∧ Realm.covers x r = true.
Proof. apply existsb_elem_of. Qed.

(** *** Collapsing *)

Lemma insert_sorted_elem x r l : x ∈ insert_sorted r l ↔ x = r ∨ x ∈ l.
Proof.
  induction l as [|y l IH]; simpl; [by rewrite elem_of_cons|].
  case_match; rewrite !elem_of_cons, ?IH; tauto.
Qed.

Lemma sort_elem x l : x ∈ sort l ↔ x ∈ l.
Proof. induction l as [|y l IH]; simpl; [done|]. rewrite insert_sorted_elem, elem_of_cons, IH. done. Qed.

Lemma dedup_elem x l : x ∈ dedup l ↔ x ∈ l.
Proof.
  induction l as [|y [|z l] IH]; [done..|].
  change (dedup (y :: z :: l)) with (if bool_decide (y = z) then dedup (z :: l) else y :: dedup (z :: l)).
  case_bool_decide as E; [subst|]; rewrite !elem_of_cons in *; rewrite IH; tauto.
Qed.

Lemma pass_covers x out rs :
  (∃ k, k ∈ collapse_pass out rs ∧ Realm.covers k x = true)
  ↔ ∃ k, k ∈ out ++ rs ∧ Realm.covers k x = true.
Proof.
  revert out; induction rs as [|r rs IH]; intros out; cbn [collapse_pass].
  - rewrite app_nil_r. by setoid_rewrite elem_of_reverse.
  - destruct out as [|kept out]; [by rewrite IH|].
    destruct (Realm.covers kept r) eqn:E; rewrite IH;
      repeat setoid_rewrite elem_of_app; repeat setoid_rewrite elem_of_cons; [|naive_solver].
    split; [naive_solver|]. intros (k & [|[->|]] & Hc); [naive_solver| |naive_solver].
    exists kept. split; [by left; left|]. by apply covers_trans with r.
Qed.

Lemma pass_elem x out rs : x ∈ collapse_pass out rs → x ∈ out ++ rs.
Proof.
  revert out; induction rs as [|r rs IH]; intros out; cbn [collapse_pass].
  - rewrite app_nil_r. apply elem_of_reverse.
  - destruct out as [|kept out]; [by intros ?%IH|].
    destruct (Realm.covers kept r); intros H%IH; rewrite elem_of_app, !elem_of_cons in *; tauto.
Qed.

(** Collapsing a list of realms keeps only realms of the list and loses no
    coverage: whatever some realm of the list covers, some kept realm
    covers. *)
Theorem collapse_keeps_coverage rs x :
  Realm.covered_by_any x (collapse rs) = Realm.covered_by_any x rs
  ∧ (x ∈ collapse rs → x ∈ rs).
Proof.
  unfold collapse. split.
  - apply eq_true_iff_eq. rewrite !covered_iff, pass_covers. simpl.
    by setoid_rewrite dedup_elem; setoid_rewrite sort_elem.
  - intros H%pass_elem. simpl in H. by rewrite dedup_elem, sort_elem in H.
Qed.

(** The forward pass compares with the last kept realm alone, and a hyphen
    sorts before a dot, so a realm another one of the list covers can
    survive. *)
Theorem collapse_keeps_covered :
  let rs := ["operator.a"; "operator.a-b"; "operator.a.c"] in
  collapse rs = rs ∧ Realm.covers "operator.a" "operator.a.c" = true.
Proof. by vm_compute. Qed.

(** *** The structural mapping *)

(** What one capability segment adds to the path. *)
Definition spelled (segment : string) : option string :=
  let s := trim_end_stars segment in
  if str_is_empty s then None else Some (of_bytes (mjoin (realm_spelling <$> chars s))).

Definition realm_byte (b : ascii) : Prop := realm_char [b] = true.

Lemma realm_byte_ascii b : realm_byte b → (byte_val b < 128)%N ∧ b ≠ "."%char.
Proof.
  destruct b as [[] [] [] [] [] [] [] []]; intros H; first [by vm_compute in H|by split].
Qed.

Lemma spelling_bytes c : Forall realm_byte (realm_spelling c) ∧ realm_spelling c ≠ [].
Proof.
  unfold realm_spelling. destruct (_ || _) eqn:E.
  - change (realm_char c = true) in E. unfold realm_char in E.
    assert (∃ b, c = [b]) as [b ->].
    { unfold is_lowercase, is_dec_digit, char_in in E. destruct c as [|b [|? ?]]; [|by eexists|];
        repeat case_bool_decide; simplify_eq; done. }
    split; [|done]. by constructor.
  - clear E. destruct (is_uppercase c) eqn:E; [|split; [by repeat constructor|done]].
    unfold is_uppercase, char_in in E. destruct c as [|b [|? ?]]; [done| |done].
    unfold in_range in E. apply bool_decide_eq_true in E. split; [|done]. constructor; [|done].
    unfold realm_byte, realm_char, is_lowercase, char_in, in_range.
    rewrite byte_of_byte by lia. by rewrite bool_decide_true by lia.
Qed.

Lemma spelled_good segment s :
  spelled segment = Some s → s ≠ "" ∧ Forall realm_byte (as_bytes s).
Proof.
  unfold spelled, str_is_empty. case_bool_decide as E; [done|]. intros [= <-]. split.
  - destruct (chars (trim_end_stars segment)) as [|c l] eqn:Ec; [by apply chars_nonempty in Ec|].
    simpl. pose proof (proj2 (spelling_bytes c)). by destruct (realm_spelling c).
  - rewrite as_of_bytes. generalize (chars (trim_end_stars segment)). intros l.
    induction l as [|c l IH]; [constructor|]. simpl. apply Forall_app_2; [apply spelling_bytes|done].
Qed.

Lemma no_dot s : Forall realm_byte (as_bytes s) → contains_char "." s = false.
Proof.
  intros H. unfold contains_char. apply bool_decide_eq_false. intros Hin.
  rewrite Forall_forall in H. by destruct (realm_byte_ascii _ (H _ Hin)).
Qed.

Lemma push_segments segs path :
  split_on "." (foldl Structural.push_segment path segs) = split_on "." path ++ omap spelled segs.
Proof.
  revert path; induction segs as [|s segs IH]; intros path; simpl; [by rewrite app_nil_r|].
  rewrite IH. unfold Structural.push_segment. unfold spelled at 2.
  destruct (str_is_empty (trim_end_stars s)) eqn:E; [done|].
  assert (Hs : spelled s = Some (of_bytes (mjoin (realm_spelling <$> chars (trim_end_stars s)))))
    by (unfold spelled; by rewrite E).
  destruct (spelled_good _ _ Hs) as [_ Hb].
  change (path +:+ "." +:+ ?x) with (path +:+ String "." x).
  by rewrite split_on_app, (split_on_none _ _ (no_dot _ Hb)), <-app_assoc.
Qed.

Lemma segments_parse text segs :
  Forall (λ s, s ≠ "" ∧ Forall realm_byte (as_bytes s)) segs → Realm.check_segments text segs = Ok tt.
Proof.
  induction 1 as [|s segs [Hne Hb] _ IH]; [done|]. simpl. unfold str_is_empty.
  rewrite bool_decide_false by done.
  rewrite chars_ascii by (eapply Forall_impl; [exact Hb|]; intros; by apply realm_byte_ascii).
  destruct (find_first _ _) as [c|] eqn:Ef; [|done].
  apply find_first_Some in Ef as [Hc Hn]. apply list_elem_of_fmap in Hc as (b & -> & Hin).
  rewrite Forall_forall in Hb. specialize (Hb _ Hin). unfold realm_byte in Hb. by rewrite Hb in Hn.
Qed.

Lemma structural_segments cap :
  split_on "." (Structural.path_of cap) =
    ROOT :: omap spelled (split_on "/" (default cap (strip_prefix "host:" cap))).
Proof. unfold Structural.path_of. by rewrite push_segments. Qed.

Lemma structural_parses g : Structural.realm_of g = Some (Structural.path_of (capability g)).
Proof.
  unfold Structural.realm_of, Realm.parse. rewrite structural_segments.
  rewrite bool_decide_true by done. rewrite segments_parse; [done|].
  constructor; [split; [done|by repeat constructor]|].
  apply Forall_forall. intros s Hs. apply list_elem_of_omap in Hs as (seg & _ & Hseg).
  by apply spelled_good in Hseg.
Qed.

Lemma implied_by_family p want :
  implies ("host:" +:+ p +:+ "/*") want = true →
  ∃ leaf, want = "host:" +:+ p +:+ String "/" leaf.
Proof.
  rewrite implies_pattern.
  assert (pattern_prefix ("host:" +:+ p +:+ "/*") = Some (as_bytes ("host:" +:+ p +:+ "/"))) as ->.
  { apply pattern_prefix_Some. rewrite !as_bytes_app, <-!app_assoc. split; [done|]. by destruct (as_bytes p). }
  intros [l Hl]. exists (of_bytes l). apply as_bytes_inj. rewrite Hl, !as_bytes_app, <-!app_assoc.
  change (as_bytes (String "/" ?s)) with ("/"%char :: as_bytes s). by rewrite as_of_bytes.
Qed.

(** The structural mapping never fails and stays under the root realm, and
    a family grant's realm covers the realm of every capability the grant
    implies. *)
Theorem structural_covers_family p want :
  (∀ g, ∃ r, Structural.realm_of g = Some r ∧ Realm.parse r = Ok r ∧ Realm.covers ROOT r = true)
  ∧ (implies ("host:" +:+ p +:+ "/*") want = true →
     ∃ r r', Structural.realm_of (grant ("host:" +:+ p +:+ "/*")) = Some r
             ∧ Structural.realm_of (grant want) = Some r' ∧ Realm.covers r r' = true).
Proof.
  split.
  - intros g. exists (Structural.path_of (capability g)). pose proof (structural_parses g) as Hp.
    split; [done|]. split.
    + unfold Structural.realm_of in Hp. destruct (Realm.parse _); by simplify_eq.
    + apply covers_segments. rewrite structural_segments. by eexists.
  - intros [leaf ->]%implied_by_family. do 2 eexists. rewrite !structural_parses.
    split_and!; [done..|]. apply covers_segments. rewrite !structural_segments.
    change (capability (grant ?x)) with x. rewrite !strip_prefix_app.
    change (default ?x (Some ?y)) with y. change (p +:+ "/*") with (p +:+ String "/" "*").
    rewrite !split_on_app, !omap_app. simpl. rewrite app_nil_r. by eexists (omap spelled _).
Qed.
End RealmFacts.
