(* ===== verification/Canon.v ===== *)
(** * Canonical JSON and content hashes ([crates/drt-config/src/canon.rs])

    The one form every hashed and signed object is written in, the hash type
    it is named by, and the guest boundary where a msgpack value becomes a
    JSON value or a named refusal. *)

From Stdlib Require Import SpecFloat.
From stdpp Require Import sorting.
From S2P Require Import Prelude.
From S2P Require Import Bytes.
From S2P Require Import Value.
From S2P Require Import Id.

(** ** JSON values

    [serde_json::Value].  A number is what [serde_json::Number] holds; an
    object is its entries in the order the map iterates them. *)

Inductive Number :=
  | PosInt (n : N)
  | NegInt (z : Z)
  | Float (f : spec_float).

Inductive Json :=
  | JNull
  | JBool (b : bool)
  | JNumber (n : Number)
  | JString (s : string)
  | JArray (items : list Json)
  | JObject (map : list (string * Json)).

Section json_ind.
Variable P : Json → Prop.
Hypothesis Hnull : P JNull.
Hypothesis Hbool : ∀ b, P (JBool b).
Hypothesis Hnumber : ∀ n, P (JNumber n).
Hypothesis Hstring : ∀ s, P (JString s).
Hypothesis Harray : ∀ l, Forall P l → P (JArray l).
Hypothesis Hobject : ∀ m, Forall (λ kv, P kv.2) m → P (JObject m).

Fixpoint json_ind (v : Json) : P v :=
  match v with
  | JNull => Hnull
  | JBool b => Hbool b
  | JNumber n => Hnumber n
  | JString s => Hstring s
  | JArray l =>
      Harray l ((fix go (l : list Json) : Forall P l :=
                   match l with
                   | [] => Forall_nil_2 P
                   | x :: l' => Forall_cons_2 P x l' (json_ind x) (go l')
                   end) l)
  | JObject m =>
      Hobject m ((fix go (m : list (string * Json)) : Forall (λ kv, P kv.2) m :=
                    match m with
                    | [] => Forall_nil_2 _
                    | (k, x) :: m' => Forall_cons_2 (λ kv, P kv.2) (k, x) m' (json_ind x) (go m')
                    end) m)
  end.
End json_ind.

(** How [serde_json] writes a string (quoted and escaped) and a finite float
    (the shortest text that reads back as it): the library's own. *)
Class JsonText := {
  quote : string → string;
  float_text : spec_float → string;
}.

(** [collect] into a [BTreeMap]: the last of two equal keys stays. *)
Definition bt_of {V} (m : list (string * V)) : btree string V :=
  foldl (λ acc kv, bt_insert kv.1 kv.2 acc) [] m.

Section canonical.
Context `{JsonText}.

(** [Number]'s [Display]. *)
Definition number_text (n : Number) : string :=
  match n with
  | PosInt n => dec n
  | NegInt z => "-" +:+ dec (Z.to_N (- z))
  | Float f => float_text f
  end.

(** [write_canonical].  Each entry's text is written when its key is
    collected, which is the text the sorted pass writes. *)
Fixpoint write_canonical (v : Json) : string :=
  match v with
  | JNull => "null"
  | JBool true => "true"
  | JBool false => "false"
  | JNumber n => number_text n
  | JString s => quote s
  | JArray items => "[" +:+ join "," (write_canonical <$> items) +:+ "]"
  | JObject map =>
      let sorted := bt_of ((λ kv, (kv.1, write_canonical kv.2)) <$> map) in
      "{" +:+ join "," ((λ kt, quote kt.1 +:+ ":" +:+ kt.2) <$> sorted) +:+ "}"
  end.

Definition to_canonical_bytes (v : Json) : bytes := as_bytes (write_canonical v).

End canonical.

(** ** Hashes *)

Definition HASH_PREFIX : string := "sha256:".

(** [Hash(String)]. *)
Definition Hash : Type := string.

(** [Sha256::digest]: the library's. *)
Class Digest := { sha256 : bytes → bytes }.

Definition is_ascii_hexdigit (b : ascii) : bool :=
  in_range 48 57 (byte_val b) || in_range 65 70 (byte_val b) || in_range 97 102 (byte_val b).

Module Hash.

Definition as_str (h : Hash) : string := h.

Definition hex (h : Hash) : string := of_bytes (drop (str_len HASH_PREFIX) (as_bytes h)).

(** [TryFrom<String>]. *)
Definition try_from (s : string) : result Hash string :=
  match strip_prefix HASH_PREFIX s with
  | None => Err ("'" +:+ s +:+ "' is not a hash; expected '" +:+ HASH_PREFIX +:+ "<64 hex digits>'")
  | Some hex =>
      if negb (bool_decide (str_len hex = 64)) || negb (forallb is_ascii_hexdigit (as_bytes hex)) then
        Err ("'" +:+ s +:+ "' is not a hash; expected 64 lowercase hex digits after '"
             +:+ HASH_PREFIX +:+ "'")
      else if existsb Uuid7.is_ascii_uppercase (as_bytes hex) then
        Err ("'" +:+ s +:+ "': hex digits must be lowercase, or two spellings of one hash would compare unequal")
      else Ok s
  end.

End Hash.

Definition hash `{Digest} (bs : bytes) : Hash :=
  HASH_PREFIX +:+ foldr String.append "" (Uuid7.hex2 <$> sha256 bs).

Definition hash_value `{JsonText} `{Digest} (v : Json) : Hash := hash (to_canonical_bytes v).

(** ** The guest boundary *)

Inductive NotCanonical :=
  | NonFinite (at_ : string) (value : string)
  | DuplicateKey (at_ : string) (key : string)
  | NonStringKey (at_ : string) (kind : string)
  | NoJsonForm (at_ : string) (kind : string).

Definition kind_of (v : Value) : string :=
  match v with
  | VNil => "nil"
  | VBool _ => "a boolean"
  | VInt _ => "an integer"
  | VF32 _ | VF64 _ => "a float"
  | VStr _ => "a string"
  | VBin _ => "a binary blob"
  | VArr _ => "an array"
  | VMap _ => "a map"
  | VExt _ _ => "an extension value"
  end.

(** [f64::from(f32)]: exact. *)
Definition f64_from_f32 (f : spec_float) : spec_float :=
  match f with
  | S754_finite s m e => binary_normalize 53 1024 (if s then Z.neg m else Z.pos m) e s
  | _ => f
  end.

(** The [Display] of a float that is not finite. *)
Definition nonfinite_text (f : spec_float) : string :=
  match f with
  | S754_infinity false => "inf"
  | S754_infinity true => "-inf"
  | _ => "NaN"
  end.

Definition f_is_finite (f : spec_float) : bool :=
  match f with S754_finite _ _ _ | S754_zero _ => true | _ => false end.

(** [finite]: [Number::from_f64] refuses what is not finite. *)
Definition finite (f : spec_float) (at_ : string) : result Json NotCanonical :=
  if f_is_finite f then Ok (JNumber (Float f)) else Err (NonFinite at_ (nonfinite_text f)).

(** [rmpv::Integer::as_i64]. *)
Definition as_i64 (z : Z) : option Z :=
  if bool_decide (- 2 ^ 63 ≤ z < 2 ^ 63)%Z then Some z else None.

(** The loops of [walk] over an array and over a map. *)
Section walk_loops.
Variable walk : Value → string → result Json NotCanonical.
Variable at_ : string.

Fixpoint walk_items (i : N) (l : list Value) (out : list Json) : result Json NotCanonical :=
  match l with
  | [] => Ok (JArray (reverse out))
  | item :: l' =>
      j ←? walk item (at_ +:+ "[" +:+ dec i +:+ "]");
      walk_items (i + 1) l' (j :: out)
  end.

(** [out] is [serde_json::Map], a [BTreeMap] in this workspace. *)
Fixpoint walk_pairs (l : list (Value * Value)) (out : btree string Json) :
    result Json NotCanonical :=
  match l with
  | [] => Ok (JObject out)
  | (key, item) :: l' =>
      match as_str key with
      | None => Err (NonStringKey at_ (kind_of key))
      | Some key =>
          child ←? walk item (at_ +:+ "." +:+ key);
          match bt_get key out with
          | Some _ => Err (DuplicateKey at_ key)
          | None => walk_pairs l' (bt_insert key child out)
          end
      end
  end.
End walk_loops.

Fixpoint walk (v : Value) (at_ : string) {struct v} : result Json NotCanonical :=
  match v with
  | VNil => Ok JNull
  | VBool b => Ok (JBool b)
  | VInt z =>
      match as_u64 v with
      | Some u => Ok (JNumber (PosInt u))
      | None =>
          match as_i64 z with
          | Some s => Ok (JNumber (NegInt s))
          | None => Err (NoJsonForm at_ "an integer outside i64 and u64")
          end
      end
  | VF32 f => finite (f64_from_f32 f) at_
  | VF64 f => finite f at_
  | VStr s =>
      match from_utf8 s with
      | Some s => Ok (JString s)
      | None => Err (NoJsonForm at_ "a string that is not UTF-8")
      end
  | VArr items => walk_items walk at_ 0 items []
  | VMap pairs => walk_pairs walk at_ pairs []
  | VBin _ => Err (NoJsonForm at_ "a binary blob")
  | VExt _ _ => Err (NoJsonForm at_ "a msgpack extension value")
  end.

Definition from_msgpack (v : Value) : result Json NotCanonical := walk v "ask".

Fixpoint to_msgpack (v : Json) : Value :=
  match v with
  | JNull => VNil
  | JBool b => VBool b
  | JNumber (PosInt n) => VInt (Z.of_N n)
  | JNumber (NegInt z) => VInt z
  | JNumber (Float f) => VF64 f
  | JString s => vstr s
  | JArray items => VArr (to_msgpack <$> items)
  | JObject map => VMap ((λ kv, (vstr kv.1, to_msgpack kv.2)) <$> map)
  end.

(** ** What the JSON library documents

    A string's text is self-delimiting and starts with the quote character; a
    finite float's text is made of digits, signs, dots and exponents, is not
    an integer's text, and reads back as the float. *)
Definition dquote : ascii := of_byte 34.

Definition number_char (c : ascii) : bool :=
  in_range 48 57 (byte_val c) || bool_decide (c ∈ ["-"; "+"; "."; "e"; "E"]%char).

(** A double that is a number. *)
Definition finite64 (f : spec_float) : bool := f_is_finite f && valid_binary 53 1024 f.

Class JsonTextLaws `{JsonText} : Prop := {
  quote_head s : ∃ t, quote s = String dquote t;
  quote_delimits s s' r r' : quote s +:+ r = quote s' +:+ r' → s = s' ∧ r = r';
  float_chars f : finite64 f = true →
    Forall (λ c, number_char c = true) (as_bytes (float_text f));
  float_head f : finite64 f = true → ∃ c t, float_text f = String c t
    ∧ (c = "-"%char ∨ is_digit c);
  float_not_integer f : finite64 f = true →
    ∃ c, c ∈ as_bytes (float_text f) ∧ c ≠ "-"%char ∧ digit_val c = None;
  float_inj f g : finite64 f = true → finite64 g = true → float_text f = float_text g → f = g;
}.

(** ** Well-formed values, and equality up to the order of keys *)

Definition wf_number (n : Number) : Prop :=
  match n with
  | PosInt n => (n < 2 ^ 64)%N
  | NegInt z => (- 2 ^ 63 ≤ z < 0)%Z
  | Float f => finite64 f = true
  end.

Fixpoint wf_json (v : Json) : Prop :=
  match v with
  | JNumber n => wf_number n
  | JArray l => foldr (λ x acc, wf_json x ∧ acc) True l
  | JObject m => foldr (λ kv acc, wf_json kv.2 ∧ acc) True m
  | _ => True
  end.

(** The value with every object's entries in key order. *)
Fixpoint norm (v : Json) : Json :=
  match v with
  | JArray l => JArray (norm <$> l)
  | JObject m => JObject (bt_of ((λ kv, (kv.1, norm kv.2)) <$> m))
  | _ => v
  end.

#[export] Instance json_equiv : Equiv Json := λ v v', norm v = norm v'.

#[export] Instance json_equivalence : Equivalence (≡@{Json}).
Proof. split; unfold equiv, json_equiv; red; congruence. Qed.

Lemma wf_array l : wf_json (JArray l) ↔ Forall wf_json l.
Proof. simpl. induction l as [|x l IH]; simpl; [by rewrite Forall_nil|]. by rewrite Forall_cons, IH. Qed.

Lemma wf_object m : wf_json (JObject m) ↔ Forall (λ kv, wf_json kv.2) m.
Proof. simpl. induction m as [|x m IH]; simpl; [by rewrite Forall_nil|]. by rewrite Forall_cons, IH. Qed.

(** *** Collecting into a map *)

Section collect.
Context {V W : Type}.
Implicit Types (m : list (string * V)).

Lemma bt_insert_fmap (f : V → W) k v (m : btree string V) :
  bt_insert k (f v) ((λ kv, (kv.1, f kv.2)) <$> m) = (λ kv, (kv.1, f kv.2)) <$> bt_insert k v m.
Proof.
  induction m as [|[k' v'] m IH]; [done|]. cbn -[klt]. repeat case_match; try done.
  cbn -[klt]. by rewrite <-IH.
Qed.

Lemma bt_of_fmap (f : V → W) m :
  bt_of ((λ kv, (kv.1, f kv.2)) <$> m) = (λ kv, (kv.1, f kv.2)) <$> bt_of m.
Proof.
  unfold bt_of. change (@nil (string * W)) with ((λ kv, (kv.1, f kv.2)) <$> @nil (string * V)) at 1.
  generalize (@nil (string * V)) as acc. induction m as [|[k v] m IH]; intros acc; [done|].
  simpl. by rewrite bt_insert_fmap, IH.
Qed.

Lemma bt_insert_elem k v m kv : kv ∈ bt_insert k v m → kv = (k, v) ∨ kv ∈ m.
Proof.
  induction m as [|[k' v'] m IH]; cbn -[klt]; [by rewrite list_elem_of_singleton; left|].
  repeat case_match; rewrite !elem_of_cons in *; naive_solver.
Qed.

Lemma bt_of_elem m kv : kv ∈ bt_of m → kv ∈ m.
Proof.
  unfold bt_of. assert (∀ acc, kv ∈ foldl (λ acc kv, bt_insert kv.1 kv.2 acc) acc m → kv ∈ acc ∨ kv ∈ m).
  { induction m as [|[k v] m IH]; intros acc; simpl; [by left|].
    intros [[->|]%bt_insert_elem|]%IH; rewrite ?elem_of_cons; auto. }
  intros [?%not_elem_of_nil|]%H; done.
Qed.

Lemma bt_of_sorted m : bt_sorted (bt_of m).
Proof.
  unfold bt_of. assert (∀ acc, bt_sorted acc → bt_sorted (foldl (λ acc kv, bt_insert kv.1 kv.2 acc) acc m)) as Hs.
  { induction m as [|[k v] m IH]; intros acc Hacc; simpl; [done|]. by apply IH, bt_sorted_insert. }
  apply Hs, bt_sorted_nil.
Qed.

End collect.

(** ** The text determines the value *)

Section text.
Context `{JsonTextLaws}.

(** Writing entries in the order they are in. *)
Fixpoint write (v : Json) : string :=
  match v with
  | JArray items => "[" +:+ join "," (write <$> items) +:+ "]"
  | JObject map => "{" +:+ join "," ((λ kv, quote kv.1 +:+ ":" +:+ write kv.2) <$> map) +:+ "}"
  | _ => write_canonical v
  end.

Lemma canonical_norm v : write_canonical v = write (norm v).
Proof.
  induction v as [| | | |l IH|m IH] using json_ind; try done.
  - simpl. do 3 f_equal. rewrite <-list_fmap_compose.
    apply list_fmap_ext. intros i x Hx. apply list_elem_of_lookup_2 in Hx.
    rewrite Forall_forall in IH. by apply IH.
  - simpl. rewrite !bt_of_fmap, <-!list_fmap_compose. do 3 f_equal.
    apply list_fmap_ext. intros i [k v] Hkv. simpl.
    apply list_elem_of_lookup_2, bt_of_elem in Hkv.
    rewrite Forall_forall in IH. specialize (IH _ Hkv). simpl in IH. by rewrite IH.
Qed.

Lemma wf_norm v : wf_json v → wf_json (norm v).
Proof.
  induction v as [| | | |l IH|m IH] using json_ind; try done; cbn [norm].
  - rewrite !wf_array, Forall_fmap. intros Hl. rewrite Forall_forall in *. naive_solver.
  - rewrite !wf_object. rewrite bt_of_fmap, Forall_fmap, !Forall_forall. intros Hm kv Hkv.
    rewrite Forall_forall in IH. apply bt_of_elem in Hkv. apply IH; auto.
Qed.

(** What may follow a value: nothing, a comma or a closing bracket. *)
Definition closer (c : ascii) : bool := bool_decide (c ∈ [","; "]"; "}"]%char).
Definition stops (r : string) : Prop :=
  match r with EmptyString => True | String c _ => closer c = true end.

(** *** Numbers *)

Lemma digit_number_char c : is_digit c → number_char c = true.
Proof.
  intros [d Hd]. unfold digit_val, number_char in *. by destruct (in_range 48 57 (byte_val c)).
Qed.

Lemma number_chars n : wf_number n → Forall (λ c, number_char c = true) (as_bytes (number_text n)).
Proof.
  destruct n as [n|z|f]; simpl; intros Hn.
  - eapply Forall_impl; [apply dec_digits|]. apply digit_number_char.
  - constructor; [done|]. eapply Forall_impl; [apply dec_digits|]. apply digit_number_char.
  - by apply float_chars.
Qed.

(** A run of characters ends where the first other one is. *)
Lemma run_delimits (p : ascii → bool) a b r r' :
  Forall (λ c, p c = true) (as_bytes a) → Forall (λ c, p c = true) (as_bytes b) →
  (∀ c t, r = String c t → p c = false) → (∀ c t, r' = String c t → p c = false) →
  a +:+ r = b +:+ r' → a = b ∧ r = r'.
Proof.
  revert b; induction a as [|x a IH]; intros [|y b] Ha Hb Hr Hr' E; simpl in *.
  - done.
  - apply Forall_cons in Hb as [Hy _]. by rewrite (Hr _ _ E) in Hy.
  - apply Forall_cons in Ha as [Hx _]. by rewrite (Hr' _ _ (eq_sym E)) in Hx.
  - apply Forall_cons in Ha as [_ Ha]. apply Forall_cons in Hb as [_ Hb].
    injection E as -> E. by destruct (IH b Ha Hb Hr Hr' E) as [-> ->].
Qed.

Lemma dec_inj n m : dec n = dec m → n = m.
Proof. intros E. pose proof (parse_digits_dec n) as Hp. rewrite E, parse_digits_dec in Hp. by injection Hp. Qed.

Lemma number_text_inj n m : wf_number n → wf_number m → number_text n = number_text m → n = m.
Proof.
  assert (Hfd : ∀ f k, finite64 f = true → float_text f = dec k → False).
  { intros f k Hf E. destruct (float_not_integer f Hf) as (c & Hc & _ & Hn).
    rewrite E in Hc. pose proof (dec_digits k) as Hd. rewrite Forall_forall in Hd.
    apply Hd in Hc as [? ?]. congruence. }
  assert (Hfn : ∀ f k, finite64 f = true → float_text f = "-" +:+ dec k → False).
  { intros f k Hf E. destruct (float_not_integer f Hf) as (c & Hc & Hne & Hn).
    rewrite E in Hc. change (as_bytes ("-" +:+ dec k)) with ("-"%char :: as_bytes (dec k)) in Hc.
    apply elem_of_cons in Hc as [|Hc]; [done|]. pose proof (dec_digits k) as Hd.
    rewrite Forall_forall in Hd. apply Hd in Hc as [? ?]. congruence. }
  assert (Hdn : ∀ k l, dec k = "-" +:+ dec l → False).
  { intros k l E. pose proof (dec_digits k) as Hd. rewrite E in Hd.
    change (as_bytes ("-" +:+ dec l)) with ("-"%char :: as_bytes (dec l)) in Hd.
    apply Forall_cons in Hd as [[? ?] _]. done. }
  destruct n as [n|z|f], m as [m|z'|g]; simpl; intros Hn Hm E.
  - f_equal. by apply dec_inj.
  - by apply Hdn in E.
  - by apply eq_sym, Hfd in E.
  - by apply eq_sym, Hdn in E.
  - f_equal. injection E as E. apply dec_inj in E. lia.
  - by apply eq_sym, Hfn in E.
  - by apply Hfd in E.
  - by apply Hfn in E.
  - f_equal. by apply float_inj.
Qed.

Lemma stops_not_number r c t : stops r → r = String c t → number_char c = false.
Proof.
  intros Hr ->. simpl in Hr. unfold closer in Hr. apply bool_decide_eq_true in Hr.
  repeat (apply elem_of_cons in Hr as [->|Hr]; [done|]). by apply not_elem_of_nil in Hr.
Qed.

Lemma number_delimits n m r r' :
  wf_number n → wf_number m → stops r → stops r' →
  number_text n +:+ r = number_text m +:+ r' → n = m ∧ r = r'.
Proof.
  intros Hn Hm Hr Hr' E.
  destruct (run_delimits number_char _ _ _ _ (number_chars _ Hn) (number_chars _ Hm)
              (λ c t, stops_not_number r c t Hr) (λ c t, stops_not_number r' c t Hr') E) as [E1 ->].
  split; [by apply number_text_inj|done].
Qed.

(** *** The kind of a value shows in its first character *)

Definition head_class (v : Json) (c : ascii) : Prop :=
  match v with
  | JNull => c = "n"%char
  | JBool true => c = "t"%char
  | JBool false => c = "f"%char
  | JNumber _ => c = "-"%char ∨ is_digit c
  | JString _ => c = dquote
  | JArray _ => c = "["%char
  | JObject _ => c = "{"%char
  end.

Lemma write_head v : wf_json v → ∃ c t, write v = String c t ∧ head_class v c.
Proof.
  destruct v as [|[]|[n|z|f]|s|l|m]; simpl; intros Hv; try by do 2 eexists.
  - pose proof (dec_digits n) as Hd. destruct (dec n) as [|c t] eqn:E; [by apply dec_not_empty in E|].
    apply Forall_cons in Hd as [Hc _]. do 2 eexists. split; [done|]. by right.
  - do 2 eexists. split; [done|]. by left.
  - by apply float_head.
  - destruct (quote_head s) as [t ->]. by do 2 eexists.
Qed.

Lemma head_not_closer v c : head_class v c → closer c = false.
Proof.
  destruct v as [|[]| | | |]; simpl; intros Hc; try by subst c.
  destruct Hc as [->|[d Hd]]; [done|]. unfold closer. apply bool_decide_eq_false. intros Hin.
  repeat (apply elem_of_cons in Hin as [->|Hin]; [done|]). by apply not_elem_of_nil in Hin.
Qed.

(** *** Separated items *)

Section items.
Context {A : Type} (f : A → string) (good : A → Prop) (l0 : list A).
Hypothesis Hhead : ∀ a, good a → ∃ c t, f a = String c t ∧ closer c = false.
Hypothesis Hdelim : ∀ a b r r', a ∈ l0 → good a → good b → stops r → stops r' →
  f a +:+ r = f b +:+ r' → a = b ∧ r = r'.

Definition rest_of (l : list A) (tail : string) : string :=
  match l with [] => tail | _ => String "," (join "," (f <$> l) +:+ tail) end.

Lemma join_rest a l tail :
  join "," (f <$> a :: l) +:+ tail = f a +:+ rest_of l tail.
Proof.
  destruct l as [|b l]; [done|]. cbn [fmap list_fmap].
  rewrite join_cons by done. by rewrite str_app_assoc.
Qed.

Lemma rest_stops l tail : stops tail → stops (rest_of l tail).
Proof. by destruct l. Qed.

Lemma items_delimit l l' close r r' :
  closer close = true → close ≠ ","%char → l ⊆ l0 → Forall good l → Forall good l' →
  join "," (f <$> l) +:+ String close r = join "," (f <$> l') +:+ String close r' →
  l = l' ∧ r = r'.
Proof.
  intros Hc Hcomma. revert l'. induction l as [|a l IH]; intros [|b l'] Hsub Hl Hl' E.
  - by injection E.
  - apply Forall_cons in Hl' as [Hb _]. destruct (Hhead b Hb) as (c & t & Hf & Hn).
    rewrite join_rest, Hf in E. simpl in E. injection E as -> _. congruence.
  - apply Forall_cons in Hl as [Ha _]. destruct (Hhead a Ha) as (c & t & Hf & Hn).
    rewrite join_rest, Hf in E. simpl in E. injection E as <- _. congruence.
  - apply Forall_cons in Hl as [Ha Hl]. apply Forall_cons in Hl' as [Hb Hl'].
    rewrite !join_rest in E.
    apply Hdelim in E as [-> E]; [|set_solver|done|done|by apply rest_stops..].
    assert (Hsub' : l ⊆ l0) by set_solver.
    destruct l as [|x l], l' as [|y l']; simpl in E.
    + by injection E as ->.
    + injection E as E1 _. congruence.
    + injection E as E1 _. congruence.
    + injection E as E. destruct (IH (y :: l') Hsub' Hl Hl' E) as [-> ->]. done.
Qed.
End items.

Definition same_kind (v v' : Json) : Prop :=
  match v, v' with
  | JNull, JNull | JNumber _, JNumber _ | JString _, JString _ => True
  | JArray _, JArray _ | JObject _, JObject _ => True
  | JBool b, JBool b' => b = b'
  | _, _ => False
  end.

Lemma head_same_kind v v' c : head_class v c → head_class v' c → same_kind v v'.
Proof.
  assert (Hnum : ∀ x, x = "-"%char ∨ is_digit x →
            x ≠ "n"%char ∧ x ≠ "t"%char ∧ x ≠ "f"%char ∧ x ≠ dquote ∧ x ≠ "["%char ∧ x ≠ "{"%char).
  { intros x [->|[d Hd]]; [done|]. split_and!; intros ->; by vm_compute in Hd. }
  destruct v as [|[]| | | |], v' as [|[]| | | |]; simpl; intros H1 H2; try done;
    try (subst c; done); try (destruct (Hnum _ H1) as (?&?&?&?&?&?); done);
    destruct (Hnum _ H2) as (?&?&?&?&?&?); done.
Qed.

Lemma str_app_inj a r r' : a +:+ r = a +:+ r' → r = r'.
Proof. induction a as [|x a IH]; simpl; [done|]. intros E. injection E. apply IH. Qed.

(** A value's text, and what follows it, determine the value. *)
Lemma write_delimits v : ∀ v' r r',
  wf_json v → wf_json v' → stops r → stops r' →
  write v +:+ r = write v' +:+ r' → v = v' ∧ r = r'.
Proof.
  induction v as [|b|n|s|l IH|m IH] using json_ind; intros v' r r' Hw Hw' Hr Hr' E;
    match type of Hw with wf_json ?v => destruct (write_head v Hw) as (c & t & Hc & Hk) end;
    destruct (write_head v' Hw') as (c' & t' & Hc' & Hk');
    assert (c' = c) as -> by (rewrite Hc, Hc' in E; by injection E);
    pose proof (head_same_kind _ _ _ Hk Hk') as Hs; clear t t' Hc Hc' Hk Hk';
    destruct v' as [|b'|n'|s'|l'|m']; try done; simpl in Hs; simpl write in E.
  - by apply str_app_inj in E.
  - subst b'. by apply str_app_inj in E.
  - destruct (number_delimits n n' r r') as [-> ->]; done.
  - apply quote_delimits in E as [-> ->]. done.
  - rewrite !str_app_assoc in E. injection E as E. rewrite wf_array in Hw, Hw'.
    destruct (items_delimit write wf_json l) with (l := l) (l' := l') (close := "]"%char) (r := r) (r' := r')
      as [-> ->]; try done.
    + intros a Ha. destruct (write_head a Ha) as (c0 & t0 & ? & ?%head_not_closer). eauto.
    + intros a b r0 r0' Hin. rewrite Forall_forall in IH. by apply IH.
  - rewrite !str_app_assoc in E. injection E as E. rewrite wf_object in Hw, Hw'.
    destruct (items_delimit (λ kv, quote kv.1 +:+ ":" +:+ write kv.2) (λ kv, wf_json kv.2) m)
      with (l := m) (l' := m') (close := "}"%char) (r := r) (r' := r') as [-> ->]; try done.
    + intros [k v] _. destruct (quote_head k) as [t0 Ht]. simpl. rewrite Ht. by do 2 eexists.
    + intros [k v] [k' v'] r0 r0' Hin Hv Hv' Hr0 Hr0'. simpl. rewrite !str_app_assoc.
      intros [-> E0]%quote_delimits. injection E0 as E0. rewrite Forall_forall in IH.
      specialize (IH _ Hin v' r0 r0'). simpl in IH. by destruct IH as [-> ->].
Qed.


(** *** The order of keys does not matter *)

Lemma bt_insert_fresh {V} k (v : V) (m : btree string V) :
  k ∉ m.*1 → bt_insert k v m ≡ₚ (k, v) :: m.
Proof.
  induction m as [|[k' v'] m IH]; intros Hk; [done|]. cbn -[klt] in *.
  apply not_elem_of_cons in Hk as [Hne Hk]. rewrite decide_False by done.
  destruct (klt k k'); [done|]. rewrite IH by done. apply perm_swap.
Qed.

Lemma bt_of_perm {V} (m : list (string * V)) : NoDup m.*1 → bt_of m ≡ₚ m.
Proof.
  unfold bt_of. intros Hnd.
  assert (Hg : ∀ acc, NoDup (acc ++ m).*1 →
            foldl (λ acc kv, bt_insert kv.1 kv.2 acc) acc m ≡ₚ acc ++ m).
  { clear Hnd. induction m as [|[k v] m IH]; intros acc Hnd; simpl; [by rewrite app_nil_r|].
    assert (Hp : bt_insert k v acc ≡ₚ (k, v) :: acc).
    { apply bt_insert_fresh. rewrite fmap_app in Hnd. apply NoDup_app in Hnd as (_ & Hd & _).
      intros Hin. apply (Hd _ Hin). by left. }
    rewrite IH, Hp; [apply Permutation_middle|].
    rewrite Hp. by rewrite <-Permutation_middle in Hnd. }
  by rewrite Hg.
Qed.

Lemma sorted_unique {V} (m m' : btree string V) :
  bt_sorted m → bt_sorted m' → m ≡ₚ m' → m = m'.
Proof.
  assert (Hss : ∀ m : btree string V, bt_sorted m → StronglySorted (λ a b, klt a.1 b.1 = true) m).
  { intros l. induction l as [|[k v] l IH]; intros Hs; constructor.
    - apply IH. intros i j a b Hij Ha Hb. by apply (Hs (S i) (S j)); [lia|..].
    - apply Forall_lookup. intros i a Ha. apply (Hs 0 (S i)); [lia|done..]. }
  intros H1%Hss H2%Hss Hp. eapply StronglySorted_unique_strong; [|exact H1|exact H2|exact Hp].
  intros a b _ _ Hab Hba. pose proof (klt_trans _ _ _ Hab Hba) as Hc. by rewrite klt_irrefl in Hc.
Qed.

Lemma canonical_eq v v' :
  wf_json v → wf_json v' → to_canonical_bytes v = to_canonical_bytes v' ↔ v ≡ v'.
Proof.
  intros Hv Hv'. unfold to_canonical_bytes, equiv, json_equiv. rewrite !canonical_norm. split.
  - intros E%as_bytes_inj. apply wf_norm in Hv, Hv'.
    destruct (write_delimits _ _ "" "" Hv Hv' I I) as [-> _]; [by rewrite E|done].
  - by intros ->.
Qed.

(** C13: Equal bytes mean equal values: two well-formed JSON values have the same
    canonical bytes exactly when they are equal up to the order of object
    keys, so a hash or a signature over the bytes is one over the value. *)
Theorem canonical_injective v v' :
  wf_json v → wf_json v' → to_canonical_bytes v = to_canonical_bytes v' ↔ v ≡ v'.
Proof. apply canonical_eq. Qed.

(** The bytes of an object do not depend on the order its map iterates its
    entries in. *)
Theorem canonical_key_order m m' :
  NoDup m.*1 → m ≡ₚ m' → to_canonical_bytes (JObject m) = to_canonical_bytes (JObject m').
Proof.
  intros Hnd Hp. unfold to_canonical_bytes. rewrite !canonical_norm.
  cbn [norm]. rewrite !bt_of_fmap. enough (bt_of m = bt_of m') as -> by done.
  apply sorted_unique; [apply bt_of_sorted..|].
  rewrite !bt_of_perm; [done|by rewrite <-Hp|done].
Qed.

End text.

(** *** A concrete text for the laws *)

Fixpoint escape (s : string) : string :=
  match s with
  | EmptyString => ""
  | String c s' =>
      if bool_decide (c = dquote ∨ c = "\"%char) then String "\" (String c (escape s'))
      else String c (escape s')
  end.

Definition float_parts (f : spec_float) : bool * N * Z :=
  match f with
  | S754_finite s m e => (s, Npos m, e)
  | S754_zero s => (s, 0%N, 0%Z)
  | S754_infinity s => (s, 1%N, 0%Z)
  | S754_nan => (false, 2%N, 0%Z)
  end.

Definition plain_float (f : spec_float) : string :=
  let '(s, m, e) := float_parts f in
  (if s : bool then "-" else "") +:+ dec m +:+ String "e" (fmt_zero 1 e).

Definition plain_text : JsonText := {|
  quote s := String dquote (escape s +:+ String dquote "");
  float_text := plain_float;
|}.

Lemma escape_delimits s s' r r' :
  escape s +:+ String dquote r = escape s' +:+ String dquote r' → s = s' ∧ r = r'.
Proof.
  revert s'; induction s as [|c s IH]; intros [|c' s'] E; simpl in *.
  - by injection E.
  - case_bool_decide as Hc'; simpl in E; injection E as E1 E; [done|]. subst c'. by destruct Hc'; left.
  - case_bool_decide as Hc; simpl in E; injection E as E1 E; [done|]. subst c. by destruct Hc; left.
  - do 2 case_bool_decide; simpl in E.
    + injection E as -> E. by destruct (IH _ E) as [-> ->].
    + injection E as <- E. naive_solver.
    + injection E as -> E. naive_solver.
    + injection E as -> E. by destruct (IH _ E) as [-> ->].
Qed.

Lemma fmt_zero_chars w z : Forall (λ c, number_char c = true) (as_bytes (fmt_zero w z)).
Proof.
  unfold fmt_zero. rewrite !as_bytes_app. apply Forall_app_2; [case_bool_decide; by repeat constructor|].
  apply Forall_app_2.
  - generalize (w - str_len (if bool_decide (z < 0)%Z then "-" else "") - str_len (dec (Z.to_N (Z.abs z)))).
    intros k. induction k as [|k IHk]; [constructor|]. by constructor.
  - eapply Forall_impl; [apply dec_digits|]. apply digit_number_char.
Qed.

#[export] Instance plain_text_laws : @JsonTextLaws plain_text.
Proof.
  split; cbn [quote float_text plain_text].
  - intros s. by eexists.
  - intros s s' r r'. rewrite !str_app_cons, !str_app_assoc. intros E. injection E as E.
    by apply escape_delimits in E.
  - intros f _. unfold plain_float. destruct (float_parts f) as [[s m] e].
    rewrite !as_bytes_app. apply Forall_app_2; [destruct s; by repeat constructor|].
    apply Forall_app_2; [eapply Forall_impl; [apply dec_digits|]; apply digit_number_char|].
    constructor; [done|apply fmt_zero_chars].
  - intros f _. unfold plain_float. destruct (float_parts f) as [[s m] e].
    destruct s; [by do 2 eexists; split; [|left]|]. simpl.
    pose proof (dec_digits m) as Hd. destruct (dec m) as [|c t] eqn:E; [by apply dec_not_empty in E|].
    apply Forall_cons in Hd as [Hc _]. do 2 eexists. split; [done|]. by right.
  - intros f _. exists "e"%char. split; [|done]. unfold plain_float.
    destruct (float_parts f) as [[s m] e]. rewrite !as_bytes_app.
    apply elem_of_app. right. apply elem_of_app. right. by left.
  - intros f g Hf Hg E.
    assert (Hp : float_parts f = float_parts g).
    { unfold plain_float in E. destruct (float_parts f) as [[s m] e] eqn:E1, (float_parts g) as [[s' m'] e'] eqn:E2.
      assert (Hse : s = s' ∧ dec m +:+ String "e" (fmt_zero 1 e) = dec m' +:+ String "e" (fmt_zero 1 e')).
      { assert (Hd : ∀ k x y, "-" +:+ x = dec k +:+ y → False).
        { intros k x y Ex. pose proof (dec_digits k) as Hd. destruct (dec k) as [|c t] eqn:Ek.
          - by apply dec_not_empty in Ek.
          - injection Ex as <- _. by apply Forall_cons in Hd as [[? ?] _]. }
        destruct s, s'; rewrite ?str_app_cons in E; simpl in E.
        - by injection E.
        - by apply Hd in E.
        - by apply eq_sym, Hd in E.
        - done. }
      destruct Hse as [-> E']. pose proof (f_equal (split_once "e") E') as Hs.
      rewrite !split_once_app in Hs by (by apply dec_no_char). injection Hs as Em Ee.
      apply dec_inj in Em as ->. f_equal.
      by apply fmt_zero_inj in Ee. }
    unfold finite64 in *. destruct f, g; simpl in *; by simplify_eq.
Qed.

(** ** The guest boundary *)

Module GuestFacts.

(** What a guest's value must be to have a JSON form: finite numbers, UTF-8
    text, string keys and no key twice, nothing binary. *)
Fixpoint jsonable (v : Value) : bool :=
  match v with
  | VNil | VBool _ => true
  | VInt z => bool_decide (- 2 ^ 63 ≤ z < 2 ^ 64)%Z
  | VF32 f => f_is_finite (f64_from_f32 f)
  | VF64 f => f_is_finite f
  | VStr s => utf8_valid s
  | VArr items => forallb jsonable items
  | VMap pairs =>
      forallb (λ kv, is_str kv.1 && jsonable kv.2) pairs
      && bool_decide (NoDup (omap (λ kv, as_str kv.1) pairs))
  | VBin _ | VExt _ _ => false
  end.

Lemma is_ok_bind {A B E} (r : result A E) (k : A → result B E) b :
  (∀ a, r = Ok a → is_ok (k a) = b) → (is_ok r = false → b = false) → is_ok (rbind r k) = b.
Proof. destruct r as [a|e]; simpl; intros H1 H2; [by apply H1|by rewrite H2]. Qed.

Lemma bt_get_insert_iff (k k' : string) (v : Json) m :
  bt_get k' (bt_insert k v m) = None ↔ k' ≠ k ∧ bt_get k' m = None.
Proof.
  destruct (decide (k = k')) as [->|Hne].
  - rewrite bt_get_insert_eq. naive_solver.
  - rewrite bt_get_insert_ne by done. naive_solver.
Qed.

Lemma walk_items_ok (wk : Value → string → result Json NotCanonical) at_ l : ∀ i out,
  Forall (λ v, ∀ at_, is_ok (wk v at_) = jsonable v) l →
  is_ok (walk_items wk at_ i l out) = forallb jsonable l.
Proof.
  induction l as [|v l IH]; intros i out Hl; [done|]. apply Forall_cons in Hl as [Hv Hl].
  cbn [walk_items forallb]. apply is_ok_bind.
  - intros j Hj. rewrite IH by done. by rewrite <-(Hv (at_ +:+ "[" +:+ dec i +:+ "]")), Hj.
  - rewrite Hv. by intros ->.
Qed.

Lemma walk_pairs_ok (wk : Value → string → result Json NotCanonical) at_ l : ∀ out,
  Forall (λ kv, ∀ at_, is_ok (wk kv.2 at_) = jsonable kv.2) l →
  is_ok (walk_pairs wk at_ l out) = true ↔
    forallb (λ kv, is_str kv.1 && jsonable kv.2) l = true
    ∧ NoDup (omap (λ kv, as_str kv.1) l)
    ∧ ∀ k, k ∈ omap (λ kv, as_str kv.1) l → bt_get k out = None.
Proof.
  induction l as [|[k v] l IH]; intros out Hl.
  { split; [|done]. intros _. split_and!; [done|constructor|]. intros k Hk. by apply not_elem_of_nil in Hk. }
  apply Forall_cons in Hl as [Hv Hl]. cbn [walk_pairs forallb omap list_omap fst snd].
  unfold is_str at 1. destruct (as_str k) as [key|] eqn:Ek; [|by split; [|intros []]].
  simpl in Hv. specialize (Hv (at_ +:+ "." +:+ key)).
  destruct (wk v _) as [j|e] eqn:Ej; simpl in Hv |- *; rewrite <-Hv; [|by split; [|intros []]].
  destruct (bt_get key out) as [j'|] eqn:Eg.
  { split; [done|]. intros (_ & _ & Hf). by rewrite Hf in Eg by (by left). }
  rewrite IH by done. rewrite NoDup_cons.
  setoid_rewrite elem_of_cons. setoid_rewrite bt_get_insert_iff.
  split; [intros (? & ? & Hf)|intros (? & [Hn ?] & Hf)]; (split; [done|]).
  - split; [split; [|done]; intros Hin; by destruct (Hf _ Hin)|].
    intros k0 [->|Hin]; [done|]. by apply Hf.
  - split; [done|]. intros k0 Hin. split; [by intros ->|]. apply Hf. by right.
Qed.

(** A guest's value is accepted exactly when it has a JSON form, wherever in
    the value the obstacle is. *)
Theorem from_msgpack_accepts v : is_ok (from_msgpack v) = jsonable v.
Proof.
  unfold from_msgpack. generalize "ask" as at_.
  induction v as [| |z|f|f|s| |l IH|m IH|] using value_ind; intros at_; try done; cbn [walk jsonable].
  - unfold as_u64, as_i64. repeat case_bool_decide; try done; lia.
  - unfold finite. by destruct (f_is_finite _).
  - unfold finite. by destruct (f_is_finite _).
  - unfold from_utf8. by destruct (utf8_valid s).
  - by apply walk_items_ok.
  - apply eq_true_iff_eq. rewrite walk_pairs_ok by (eapply Forall_impl; [exact IH|]; by intros [k v] [_ ?]).
    rewrite andb_true_iff, bool_decide_eq_true. naive_solver.
Qed.

(** What a JSON value must be to cross: numbers in the two 64-bit ranges,
    UTF-8 text, and objects in the order a [BTreeMap] has. *)
Fixpoint crosses (v : Json) : Prop :=
  match v with
  | JNull | JBool _ => True
  | JNumber (PosInt n) => (n < 2 ^ 64)%N
  | JNumber (NegInt z) => (- 2 ^ 63 ≤ z < 0)%Z
  | JNumber (Float f) => f_is_finite f = true
  | JString s => utf8_valid (as_bytes s) = true
  | JArray l => foldr (λ x acc, crosses x ∧ acc) True l
  | JObject m =>
      bt_sorted m ∧ foldr (λ kv acc, (utf8_valid (as_bytes kv.1) = true ∧ crosses kv.2) ∧ acc) True m
  end.

Lemma foldr_and {A} (P : A → Prop) l : foldr (λ x acc, P x ∧ acc) True l ↔ Forall P l.
Proof. induction l as [|x l IH]; simpl; [by rewrite Forall_nil|]. by rewrite Forall_cons, IH. Qed.

Lemma as_str_vstr s : utf8_valid (as_bytes s) = true → as_str (vstr s) = Some s.
Proof. intros Hs. unfold vstr, as_str, from_utf8. by rewrite Hs, of_as_bytes. Qed.

Lemma bt_insert_last (k : string) (v : Json) m :
  (∀ kv, kv ∈ m → klt kv.1 k = true) → bt_insert k v m = m ++ [(k, v)] ∧ bt_get k m = None.
Proof.
  induction m as [|[k' v'] m IH]; intros Hm; [done|].
  assert (Hk : klt k' k = true) by (apply (Hm (k', v')); by left).
  assert (Hne : k' ≠ k) by (intros ->; by rewrite klt_irrefl in Hk).
  destruct IH as [IH1 IH2]; [intros kv Hkv; apply Hm; by right|].
  cbn -[klt]. rewrite !decide_False by done.
  destruct (klt k k') eqn:E; [pose proof (klt_trans _ _ _ Hk E) as Hc; by rewrite klt_irrefl in Hc|].
  by rewrite IH1.
Qed.

Lemma walk_items_back (l : list Json) at_ : ∀ i out,
  Forall (λ j, ∀ at_, walk (to_msgpack j) at_ = Ok j) l →
  walk_items walk at_ i (to_msgpack <$> l) out = Ok (JArray (reverse out ++ l)).
Proof.
  induction l as [|j l IH]; intros i out Hl; simpl; [by rewrite app_nil_r|].
  apply Forall_cons in Hl as [Hj Hl]. rewrite Hj. simpl. rewrite IH by done.
  by rewrite reverse_cons, <-app_assoc.
Qed.

Lemma walk_pairs_back (m : list (string * Json)) at_ : ∀ out,
  bt_sorted (out ++ m) →
  Forall (λ kv, utf8_valid (as_bytes kv.1) = true ∧ ∀ at_, walk (to_msgpack kv.2) at_ = Ok kv.2) m →
  walk_pairs walk at_ ((λ kv, (vstr kv.1, to_msgpack kv.2)) <$> m) out = Ok (JObject (out ++ m)).
Proof.
  induction m as [|[k j] m IH]; intros out Hs Hm; [by rewrite app_nil_r|].
  apply Forall_cons in Hm as [[Hk Hj] Hm]. cbn [fmap list_fmap walk_pairs fst snd].
  rewrite as_str_vstr by done. rewrite Hj. simpl rbind.
  destruct (bt_insert_last k j out) as [-> ->].
  { intros kv [i Hi]%list_elem_of_lookup. apply (Hs i (length out) kv (k, j)).
    - by apply lookup_lt_Some in Hi.
    - by apply lookup_app_l_Some.
    - rewrite lookup_app_r by done. by rewrite Nat.sub_diag. }
  rewrite IH; [by rewrite <-app_assoc|by rewrite <-app_assoc|done].
Qed.

(** A JSON value crosses to a guest and back unchanged. *)
Theorem msgpack_roundtrip j : crosses j → from_msgpack (to_msgpack j) = Ok j.
Proof.
  unfold from_msgpack. generalize "ask" as at_.
  induction j as [|b|[n|z|f]|s|l IH|m IH] using json_ind; intros at_ Hj;
    cbn [to_msgpack walk crosses] in *; try done.
  - unfold as_u64. rewrite bool_decide_true by lia. by rewrite N2Z.id.
  - unfold as_u64, as_i64. rewrite bool_decide_false by lia. by rewrite bool_decide_true by lia.
  - unfold finite. by rewrite Hj.
  - unfold vstr. cbn [walk]. unfold from_utf8. by rewrite Hj, of_as_bytes.
  - apply foldr_and in Hj. rewrite walk_items_back; [done|].
    rewrite Forall_forall in *. naive_solver.
  - destruct Hj as [Hs Hj]. apply foldr_and in Hj. rewrite walk_pairs_back; [done|done|].
    rewrite Forall_forall in *. naive_solver.
Qed.

End GuestFacts.

(** Two objects that differ in the order of their keys and in nothing else
    hash alike; a third that differs in a value does not. *)
Lemma canonical_injective_witness :
  let v := JObject [("b", JNumber (PosInt 1)); ("a", JArray [JBool true; JString "x"])] in
  let v' := JObject [("a", JArray [JBool true; JString "x"]); ("b", JNumber (PosInt 1))] in
  wf_json v ∧ wf_json v'
  ∧ (to_canonical_bytes (H := plain_text) v = to_canonical_bytes (H := plain_text) v' ↔ v ≡ v')
  ∧ v ≡ v'.
Proof.
  cbv zeta. split; [by split_and!|]. split; [by split_and!|].
  split; [|by vm_compute].
  apply (canonical_injective (H := plain_text) (H0 := plain_text_laws)); by split_and!.
Defined.

(** ** Hashes *)

Module HashFacts.
Section hash.
Context `{Digest}.

Lemma hash_hex bs : hash bs = HASH_PREFIX +:+ Uuid7Facts.hex_of (sha256 bs).
Proof.
  unfold hash, Uuid7Facts.hex_of. f_equal.
  induction (sha256 bs) as [|b l IH]; [done|]. cbn [fmap list_fmap foldr]. by rewrite IH.
Qed.

(** A hash is its digest. *)
Lemma hash_inj bs bs' : hash bs = hash bs' → sha256 bs = sha256 bs'.
Proof.
  rewrite !hash_hex. intros E%str_app_inj.
  pose proof (Uuid7Facts.parse_hex_of "" (sha256 bs)) as Hp.
  rewrite E, Uuid7Facts.parse_hex_of in Hp. by injection Hp.
Qed.

Lemma hex_of_bytes bs :
  Forall (λ c, is_ascii_hexdigit c = true ∧ Uuid7.is_ascii_uppercase c = false)
    (as_bytes (Uuid7Facts.hex_of bs)).
Proof.
  induction bs as [|b bs IH]; [constructor|].
  change (Uuid7Facts.hex_of (b :: bs)) with (Uuid7.hex2 b +:+ Uuid7Facts.hex_of bs).
  rewrite as_bytes_app. apply Forall_app_2; [|done].
  clear. destruct b as [[] [] [] [] [] [] [] []]; by repeat constructor.
Qed.

(** A hash made here reads back as one, and its hexadecimal part is what
    follows the prefix. *)
Theorem hash_reads_back bs :
  length (sha256 bs) = 32 →
  Hash.try_from (hash bs) = Ok (hash bs)
  ∧ hash bs = HASH_PREFIX +:+ Hash.hex (hash bs) ∧ str_len (Hash.hex (hash bs)) = 64.
Proof.
  intros Hl. pose proof (Uuid7Facts.hex_of_len (sha256 bs)) as Hlen. rewrite Hl in Hlen.
  assert (Hhex : Hash.hex (hash bs) = Uuid7Facts.hex_of (sha256 bs)).
  { unfold Hash.hex, str_len. by rewrite hash_hex, as_bytes_app, drop_app_length, of_as_bytes. }
  pose proof (hex_of_bytes (sha256 bs)) as Hb. rewrite Forall_forall in Hb.
  rewrite Hhex, hash_hex. split; [|done]. unfold Hash.try_from.
  rewrite strip_prefix_app, Hlen, bool_decide_true by done. simpl negb.
  assert (forallb is_ascii_hexdigit (as_bytes (Uuid7Facts.hex_of (sha256 bs))) = true) as ->.
  { apply forallb_forall. intros c Hc%list_elem_of_In. by apply Hb. }
  assert (existsb Uuid7.is_ascii_uppercase (as_bytes (Uuid7Facts.hex_of (sha256 bs))) = false) as ->; [|done].
  apply existsb_false_elem_of. intros c Hc. by apply Hb.
Qed.

End hash.

Lemma hash_reads_back_witness :
  let D := {| sha256 _ := replicate 32 "a"%char |} : Digest in
  length (sha256 []) = 32
  ∧ Hash.try_from (hash []) = Ok (hash [])
  ∧ hash [] = HASH_PREFIX +:+ Hash.hex (hash []) ∧ str_len (Hash.hex (hash [])) = 64.
Proof.
  cbv zeta. split; [done|].
  by apply (hash_reads_back (H := {| sha256 _ := replicate 32 "a"%char |})).
Defined.

End HashFacts.
