(* ===== verification/Sign.v ===== *)
(** * Signing and verification ([crates/drt-config/src/sign.rs])

    Keys, signatures, the bytes a signature covers and the stored form of a
    key.  The curve and the base64 engine are libraries and stay
    parameters. *)

From S2P Require Import Prelude.
From S2P Require Import Bytes.
From S2P Require Import Canon.

Definition ALG_ED25519 : string := "ed25519".

(** [Alg], with its [Display] and default. *)
Inductive Alg := Ed25519.
#[export] Instance Alg_eq_dec : EqDecision Alg.
Proof. solve_decision. Defined.
Definition alg_text (a : Alg) : string := match a with Ed25519 => ALG_ED25519 end.

(** [KeyId(String)], [PublicKey([u8; 32])], [Signature([u8; 64])] and
    [SecretKey], which is its 32-byte seed. *)
Definition KeyId : Type := string.
Definition PublicKey : Type := bytes.
Definition Signature : Type := bytes.
Definition SecretKey : Type := bytes.

Inductive VerifyFailed := DoesNotVerify | MalformedKey.

(** [ed25519-dalek]: decompressing a key, strict verification, the public half
    of a seed and its signature over a message. *)
Class Curve := {
  valid_key : bytes → bool;
  verify_strict : bytes → bytes → bytes → bool;
  verifying_key : bytes → bytes;
  sign_with : bytes → bytes → bytes;
}.

(** What the library documents: a seed's public half is a key of 32 bytes, a
    signature is 64, and it verifies under that key. *)
Class CurveLaws `{Curve} : Prop := {
  verifying_key_valid seed : length seed = 32 → valid_key (verifying_key seed) = true;
  verifying_key_len seed : length seed = 32 → length (verifying_key seed) = 32;
  sign_len seed m : length seed = 32 → length (sign_with seed m) = 64;
  sign_verifies seed m : length seed = 32 →
    verify_strict (verifying_key seed) m (sign_with seed m) = true;
}.

(** The [STANDARD] base64 engine. *)
Class Base64 := {
  b64_encode : bytes → string;
  b64_decode : string → result bytes string;
}.

(** A visible seven-bit character: what an encoding is made of. *)
Definition b64_char (c : ascii) : Prop := (33 ≤ byte_val c < 128)%N.

Class Base64Laws `{Base64} : Prop := {
  b64_roundtrip bs : b64_decode (b64_encode bs) = Ok bs;
  b64_visible bs : Forall b64_char (as_bytes (b64_encode bs));
}.

(** [fixed::<N>]: base64 to a fixed-size array. *)
Definition fixed `{Base64} (n : nat) (text what : string) : result bytes string :=
  match b64_decode text with
  | Err e => Err (what +:+ " is not base64: " +:+ e)
  | Ok bs =>
      if bool_decide (length bs = n) then Ok bs
      else Err (what +:+ " is " +:+ dec (N.of_nat (length bs)) +:+ " bytes; ed25519 wants "
                +:+ dec (N.of_nat n))
  end.

Module SecretKey.
Section key.
Context `{Curve} `{Base64}.

Definition generate (random : bytes) : SecretKey := random.
Definition from_seed (seed : bytes) : SecretKey := seed.
Definition seed_bytes (k : SecretKey) : bytes := k.
Definition public_key (k : SecretKey) : PublicKey := verifying_key k.
Definition sign (k : SecretKey) (bs : bytes) : Signature := sign_with k bs.
Definition to_file_text (k : SecretKey) : string :=
  b64_encode (seed_bytes k) +:+ String (of_byte 10) "".
Definition from_file_text (text : string) : result SecretKey string :=
  seed ←? fixed 32 (trim text) "a key file"; Ok (from_seed seed).

End key.
End SecretKey.

Module PublicKey.
Section key.
Context `{Curve} `{Base64}.

Definition to_string (k : PublicKey) : string := b64_encode k.
Definition try_from (s : string) : result PublicKey string := fixed 32 s "a public key".

Definition verify (k : PublicKey) (bs : bytes) (signature : Signature) : result unit VerifyFailed :=
  if valid_key k then
    if verify_strict k bs signature then Ok tt else Err DoesNotVerify
  else Err MalformedKey.

End key.
End PublicKey.

Module Signature.
Section signature.
Context `{Base64}.

Definition to_string (s : Signature) : string := b64_encode s.
Definition try_from (s : string) : result Signature string := fixed 64 s "a signature".

End signature.
End Signature.

(** The bytes a signature covers: one field omitted, not blanked. *)
Definition signing_bytes `{JsonText} (value : Json) (omit : string) : bytes :=
  to_canonical_bytes
    (match value with
     | JObject map => JObject (filter (λ kv, kv.1 ≠ omit) map)
     | _ => value
     end).

(** ** Facts *)

Module SignFacts.
Section facts.
Context `{CurveLaws} `{Base64Laws}.

Lemma fixed_ok n bs what : length bs = n → fixed n (b64_encode bs) what = Ok bs.
Proof. intros Hl. unfold fixed. rewrite b64_roundtrip. by rewrite bool_decide_true. Qed.

Lemma visible_not_space c : b64_char c → is_whitespace [c] = false.
Proof.
  intros Hc. unfold b64_char, is_whitespace, in_range in *. simpl.
  by rewrite !bool_decide_false by lia.
Qed.

Lemma trim_start_visible (l : list ascii) :
  Forall b64_char l → trim_start_chars ((λ b, [b]) <$> l) = (λ b, [b]) <$> l.
Proof.
  destruct 1 as [|c l Hc _]; [done|]. simpl. by rewrite visible_not_space.
Qed.

(** Trimming visible text with one line feed after it. *)
Lemma trim_line s :
  Forall b64_char (as_bytes s) → trim (s +:+ String (of_byte 10) "") = s.
Proof.
  intros Hs. unfold trim.
  rewrite chars_ascii.
  2:{ apply is_ascii_app; [|by repeat constructor].
      eapply Forall_impl; [exact Hs|]. intros c [_ ?]. done. }
  rewrite as_bytes_app, fmap_app. change (as_bytes (String (of_byte 10) "")) with [of_byte 10].
  destruct (as_bytes s) as [|c l] eqn:E.
  { assert (s = "") as -> by (by apply as_bytes_inj). reflexivity. }
  assert (Hc : b64_char c) by (by apply Forall_cons in Hs as [? _]).
  cbn [fmap list_fmap app trim_start_chars]. rewrite visible_not_space by done.
  change ([c] :: ((λ b, [b]) <$> l) ++ [[of_byte 10]]) with (((λ b, [b]) <$> (c :: l)) ++ [[of_byte 10]]).
  rewrite reverse_app. cbn [reverse rev_append]. change (reverse [[of_byte 10]]) with [[of_byte 10]].
  cbn [app trim_start_chars]. change (is_whitespace [of_byte 10]) with true. cbv iota.
  rewrite <-fmap_reverse, trim_start_visible by (by apply Forall_reverse).
  rewrite <-fmap_reverse, reverse_involutive, mjoin_singles. by rewrite <-E, of_as_bytes.
Qed.

(** A key survives its file, its public half and its signatures survive
    their text, and what a key signs verifies under its public half. *)
Theorem keys_roundtrip k m :
  length k = 32 →
  SecretKey.from_file_text (SecretKey.to_file_text k) = Ok k
  ∧ PublicKey.try_from (PublicKey.to_string (SecretKey.public_key k)) = Ok (SecretKey.public_key k)
  ∧ Signature.try_from (Signature.to_string (SecretKey.sign k m)) = Ok (SecretKey.sign k m)
  ∧ PublicKey.verify (SecretKey.public_key k) m (SecretKey.sign k m) = Ok tt.
Proof.
  intros Hk. split_and!.
  - unfold SecretKey.from_file_text, SecretKey.to_file_text.
    rewrite trim_line by apply b64_visible. by rewrite fixed_ok.
  - by apply fixed_ok, verifying_key_len.
  - by apply fixed_ok, sign_len.
  - unfold PublicKey.verify, SecretKey.public_key, SecretKey.sign.
    by rewrite verifying_key_valid, sign_verifies.
Qed.

End facts.
End SignFacts.
