(* ===== verification/Project.v ===== *)
(** * The root descriptor and the declared ceiling ([crates/drt-config/src/project.rs])

    [project.json] as a type, the ceiling an operator consents to and its
    hash, the peer roles it declares, and the rule between a profile's name
    and its filename.  Node paths are in [Node]. *)

From S2P Require Import Prelude.
From S2P Require Import Bytes.
From S2P Require Import Value.
From S2P Require Import Caps.
From S2P Require Import Id.
From S2P Require Import Node.
From S2P Require Import Canon.

Definition PROFILE_SUFFIX : string := ".config.json".

Inductive AllowNested := Allow | Warn | Error_.

(** [AllowNested::default]. *)
Definition default_nesting : AllowNested := Warn.

(** ** Peer declarations *)

Record PeerDeclaration := MkPeerDeclaration {
  role : string;
  queues : list string;
  contract : string;
}.

Inductive BadRole :=
  | RoleEmpty
  | RoleSeparator (role : string)
  | RoleReserved (role : string).

Module PeerDeclaration.

Definition check_role (role : string) : result unit BadRole :=
  if str_is_empty role then Err RoleEmpty
  else if contains_char "/" role || contains_char "\" role then Err (RoleSeparator role)
  else if is_reserved role then Err (RoleReserved role)
  else Ok tt.

End PeerDeclaration.

(** ** The descriptor *)

Record ProjectJson := MkProjectJson {
  project_name : option string;
  project_version : option string;
  root_id : Uuid7;
  duplicated_from : option Uuid7;
  drt : option string;
  caps : list Grant;
  peers : list PeerDeclaration;
  allow_nested : AllowNested;
  sources : list Json;
  require_signatures : bool;
  default_profile : option string;
  profiles : list string;
}.

(** ** The ceiling *)

Record DeclaredCeiling := MkDeclaredCeiling {
  ceiling_caps : list Grant;
  ceiling_peers : list PeerDeclaration;
}.

Module DeclaredCeiling.

Definition of_caps (gs : list Grant) : DeclaredCeiling := MkDeclaredCeiling gs [].
Definition roles (c : DeclaredCeiling) : list string := role <$> ceiling_peers c.

End DeclaredCeiling.

Definition declared_ceiling (p : ProjectJson) : DeclaredCeiling :=
  MkDeclaredCeiling (caps p) (peers p).

Record CeilingHashError := { detail : string }.

(** How a scope's value serializes, where it does: the msgpack library's
    [Serialize]. *)
Class ScopeJson := { scope_json : Value → result Json string }.

(** An object built field by field. *)
Definition object (fields : list (string * Json)) : Json := JObject (bt_of fields).

Definition effect_text (e : Effect) : string :=
  match e with Grant_ => "grant" | Deny => "deny" end.

Section ceiling_hash.
Context `{JsonText} `{Digest} `{ScopeJson}.

(** The derived [Serialize] of [Grant]: an absent scope is omitted. *)
Definition grant_json (g : Grant) : result Json string :=
  let fields := [("effect", JString (effect_text (effect g)));
                 ("capability", JString (capability g))] in
  match scope g with
  | None => Ok (object fields)
  | Some s => j ←? scope_json (scope_value s); Ok (object (fields ++ [("scope", j)]))
  end.

(** The derived [Serialize] of [PeerDeclaration]: no queues, no field. *)
Definition peer_json (p : PeerDeclaration) : Json :=
  object ([("role", JString (role p))]
          ++ (if bool_decide (queues p = []) then [] else [("queues", JArray (JString <$> queues p))])
          ++ [("contract", JString (contract p))]).

(** The derived [Serialize] of [DeclaredCeiling]: both keys, always. *)
Definition ceiling_json (c : DeclaredCeiling) : result Json string :=
  gs ←? try_map grant_json (ceiling_caps c);
  Ok (object [("caps", JArray gs); ("peers", JArray (peer_json <$> ceiling_peers c))]).

Definition ceiling_hash_of (c : DeclaredCeiling) : result Hash CeilingHashError :=
  match ceiling_json c with
  | Err e => Err {| detail := e |}
  | Ok v => Ok (hash_value v)
  end.

Definition ceiling_hash (p : ProjectJson) : result Hash CeilingHashError :=
  ceiling_hash_of (declared_ceiling p).

Definition caps_hash (gs : list Grant) : result Hash CeilingHashError :=
  ceiling_hash_of (DeclaredCeiling.of_caps gs).

End ceiling_hash.

(** ** Profiles *)

(** [ProfileName(String)]. *)
Definition ProfileName : Type := string.

Inductive BadProfileName :=
  | ProfileEmpty
  | ProfileReserved (name : string)
  | NotAName (name : string)
  | NotAProfileFilename (filename : string).

Module ProfileName.

Definition new (name : string) : result ProfileName BadProfileName :=
  if str_is_empty name then Err ProfileEmpty
  else if is_reserved name then Err (ProfileReserved name)
  else if contains_char "." name || contains_char "/" name || contains_char "\" name
  then Err (NotAName name)
  else Ok name.

Definition from_filename (filename : string) : result ProfileName BadProfileName :=
  match strip_suffix PROFILE_SUFFIX filename with
  | None => Err (NotAProfileFilename filename)
  | Some stem => new stem
  end.

Definition filename (p : ProfileName) : string := p +:+ PROFILE_SUFFIX.

End ProfileName.

Module ProjectJson.

Definition new (id : Uuid7) : ProjectJson := {|
  project_name := None;
  project_version := None;
  root_id := id;
  duplicated_from := None;
  drt := None;
  caps := [];
  peers := [];
  allow_nested := default_nesting;
  sources := [];
  require_signatures := true;
  default_profile := None;
  profiles := [];
|}.

(** The loop of [declared_profiles]. *)
Fixpoint name_profiles (files : list string) (named : btree ProfileName string)
    (bad : list BadProfileName) : btree ProfileName string * list BadProfileName :=
  match files with
  | [] => (named, bad)
  | filename :: files' =>
      match ProfileName.from_filename filename with
      | Ok name => name_profiles files' (bt_insert (K := string) name filename named) bad
      | Err e => name_profiles files' named (bad ++ [e])
      end
  end.

Definition declared_profiles (p : ProjectJson) : btree ProfileName string * list BadProfileName :=
  name_profiles (profiles p) [] [].

End ProjectJson.

(** ** Facts *)

Module ProjectFacts.

Lemma profile_filename name p :
  ProfileName.new name = Ok p → ProfileName.from_filename (ProfileName.filename p) = Ok p.
Proof.
  intros Hn. assert (name = p) as -> by (unfold ProfileName.new in Hn; repeat case_match; by simplify_eq).
  unfold ProfileName.from_filename.
  by rewrite (proj2 (strip_suffix_Some PROFILE_SUFFIX (ProfileName.filename p) p) eq_refl).
Qed.

Lemma from_filename_inv f p :
  ProfileName.from_filename f = Ok p → f = ProfileName.filename p ∧ ProfileName.new p = Ok p.
Proof.
  unfold ProfileName.from_filename. destruct (strip_suffix _ f) as [stem|] eqn:E; [|done].
  apply strip_suffix_Some in E as ->. intros Hn.
  assert (stem = p) as -> by (unfold ProfileName.new in Hn; repeat case_match; by simplify_eq).
  done.
Qed.

Lemma name_profiles_spec files : ∀ named bad,
  (∀ n f, bt_get (K := string) n named = Some f → ProfileName.from_filename f = Ok n) →
  let r := ProjectJson.name_profiles files named bad in
  (∀ n f, bt_get (K := string) n r.1 = Some f →
     ProfileName.from_filename f = Ok n ∧ (f ∈ files ∨ bt_get (K := string) n named = Some f))
  ∧ (∀ f n, f ∈ files → ProfileName.from_filename f = Ok n → bt_get (K := string) n r.1 = Some f)
  ∧ (∀ n f, bt_get (K := string) n named = Some f → bt_get (K := string) n r.1 = Some f)
  ∧ r.2 = bad ++ omap (λ f, match ProfileName.from_filename f with Ok _ => None | Err e => Some e end) files.
Proof.
  induction files as [|f files IH]; intros named bad Hn r; subst r.
  { simpl. rewrite app_nil_r. split_and!; [auto|by intros ? ? ?%not_elem_of_nil|done|done]. }
  cbn [ProjectJson.name_profiles omap list_omap].
  destruct (ProfileName.from_filename f) as [name|e] eqn:Ef.
  - assert (Hn' : ∀ n g, bt_get (K := string) n (bt_insert (K := string) name f named) = Some g →
              ProfileName.from_filename g = Ok n).
    { intros n g. destruct (decide (name = n)) as [->|Hne].
      - rewrite bt_get_insert_eq. by intros [= <-].
      - rewrite bt_get_insert_ne by done. apply Hn. }
    destruct (IH _ bad Hn') as (H1 & H2 & H3 & H4). split_and!; [| | |done].
    + intros n g [Hg [Hin|Hi]]%H1; (split; [done|]); [left; by right|].
      destruct (decide (name = n)) as [->|Hne]; [|by rewrite bt_get_insert_ne in Hi; auto].
      rewrite bt_get_insert_eq in Hi. simplify_eq. left. by left.
    + intros g n [->|Hin]%elem_of_cons Hg; [|by apply H2]. rewrite Ef in Hg. simplify_eq.
      apply H3. by rewrite bt_get_insert_eq.
    + intros n g Hg. apply H3. destruct (decide (name = n)) as [->|Hne]; [|by rewrite bt_get_insert_ne].
      rewrite bt_get_insert_eq. f_equal. apply Hn in Hg. apply from_filename_inv in Hg as [-> _].
      by apply from_filename_inv in Ef as [-> _].
  - destruct (IH named (bad ++ [e]) Hn) as (H1 & H2 & H3 & H4). split_and!; [|  |done|].
    + intros n g [Hg [Hin|Hi]]%H1; (split; [done|]); [left; by right|by right].
    + intros g n [->|Hin]%elem_of_cons Hg; [congruence|by apply H2].
    + by rewrite H4, <-app_assoc.
Qed.

(** A profile's name and filename determine each other, and the declared
    profiles are exactly the well-named files of the list, each under its
    name, with every other file reported in order. *)
Theorem declared_profiles_spec p :
  (∀ name n, ProfileName.new name = Ok n → ProfileName.from_filename (ProfileName.filename n) = Ok n)
  ∧ (∀ f n, ProfileName.from_filename f = Ok n → f = ProfileName.filename n)
  ∧ (∀ n f, bt_get (K := string) n (ProjectJson.declared_profiles p).1 = Some f
            ↔ f ∈ profiles p ∧ ProfileName.from_filename f = Ok n)
  ∧ (ProjectJson.declared_profiles p).2
    = omap (λ f, match ProfileName.from_filename f with Ok _ => None | Err e => Some e end) (profiles p).
Proof.
  split; [intros; by eapply profile_filename|]. split; [intros f n Hf; by apply from_filename_inv in Hf as [? _]|].
  destruct (name_profiles_spec (profiles p) [] []) as (H1 & H2 & _ & H4); [done|].
  split; [|done]. intros n f. split; [|intros [? ?]; by apply H2].
  intros Hf. apply H1 in Hf as [Hf [?|?]]; [done|done].
Qed.

(** *** What a ceiling's hash stands for *)

Section ceiling.
Context `{JsonTextLaws} `{Digest} `{ScopeJson}.

(** Two grants written alike: the same but for scopes with one JSON form. *)
Definition grants_agree (g g' : Grant) : Prop :=
  effect g = effect g' ∧ capability g = capability g'
  ∧ match scope g, scope g' with
    | None, None => True
    | Some s, Some s' =>
        ∃ j j', scope_json (scope_value s) = Ok j ∧ scope_json (scope_value s') = Ok j' ∧ j ≡ j'
    | _, _ => False
    end.

Definition ceilings_agree (c c' : DeclaredCeiling) : Prop :=
  Forall2 grants_agree (ceiling_caps c) (ceiling_caps c') ∧ ceiling_peers c = ceiling_peers c'.

Lemma effect_text_inj e e' : effect_text e = effect_text e' → e = e'.
Proof. by destruct e, e'. Qed.

Lemma norm_plain_grant e c :
  norm (object [("effect", JString e); ("capability", JString c)])
  = JObject [("capability", JString c); ("effect", JString e)].
Proof. reflexivity. Qed.

Lemma norm_scoped_grant e c j :
  norm (object ([("effect", JString e); ("capability", JString c)] ++ [("scope", j)]))
  = JObject [("capability", JString c); ("effect", JString e); ("scope", norm j)].
Proof. reflexivity. Qed.

Lemma grant_json_agree g g' j j' :
  grant_json g = Ok j → grant_json g' = Ok j' → norm j = norm j' → grants_agree g g'.
Proof.
  unfold grant_json, grants_agree. destruct (scope g) as [s|], (scope g') as [s'|];
    rewrite ?rbind_Ok; intros Hg Hg' E.
  - destruct Hg as (x & Hx & <-%(inj inl)), Hg' as (x' & Hx' & <-%(inj inl)).
    rewrite !norm_scoped_grant in E. injection E as Ec Ee%effect_text_inj Ej.
    split_and!; [done..|]. by exists x, x'.
  - destruct Hg as (x & Hx & <-%(inj inl)). apply (inj inl) in Hg' as <-.
    by rewrite norm_scoped_grant, norm_plain_grant in E.
  - destruct Hg' as (x & Hx & <-%(inj inl)). apply (inj inl) in Hg as <-.
    by rewrite norm_scoped_grant, norm_plain_grant in E.
  - apply (inj inl) in Hg as <-. apply (inj inl) in Hg' as <-. rewrite !norm_plain_grant in E.
    by injection E as Ec Ee%effect_text_inj.
Qed.

Lemma norm_peer p :
  norm (peer_json p) =
    if bool_decide (queues p = []) then
      JObject [("contract", JString (contract p)); ("role", JString (role p))]
    else
      JObject [("contract", JString (contract p)); ("queues", JArray (JString <$> queues p));
               ("role", JString (role p))].
Proof.
  unfold peer_json. case_bool_decide; [reflexivity|].
  transitivity (JObject [("contract", JString (contract p));
                         ("queues", JArray (norm <$> (JString <$> queues p))); ("role", JString (role p))]);
    [reflexivity|]. by rewrite <-list_fmap_compose.
Qed.

#[local] Instance json_string_inj : Inj (=) (=) JString.
Proof. by intros ? ? [= ->]. Qed.

Lemma peer_json_inj p p' : norm (peer_json p) = norm (peer_json p') → p = p'.
Proof.
  rewrite !norm_peer. destruct p as [r q c], p' as [r' q' c']. cbn [role queues contract].
  repeat case_bool_decide; intros E; by simplify_eq.
Qed.

Lemma norm_ceiling gs ps :
  norm (object [("caps", JArray gs); ("peers", JArray ps)])
  = JObject [("caps", JArray (norm <$> gs)); ("peers", JArray (norm <$> ps))].
Proof. reflexivity. Qed.

Lemma ceiling_json_agree c c' v v' :
  ceiling_json c = Ok v → ceiling_json c' = Ok v' → v ≡ v' → ceilings_agree c c'.
Proof.
  unfold ceiling_json.
  intros (gs & Hgs & <-%(inj inl))%rbind_Ok (gs' & Hgs' & <-%(inj inl))%rbind_Ok.
  unfold equiv, json_equiv. rewrite !norm_ceiling. intros E. injection E as Eg Ep. split.
  - apply try_map_Ok in Hgs, Hgs'. revert Hgs' Eg. generalize (ceiling_caps c') as l'.
    revert gs'. induction Hgs as [|g j l gs Hg Hgs IH]; intros gs' l' Hgs' E.
    + destruct gs'; [|done]. by apply Forall2_nil_inv_r in Hgs' as ->.
    + destruct gs' as [|j' gs']; [done|].
      apply Forall2_cons_inv_r in Hgs' as (g' & l1 & Hg' & Hl1 & ->).
      injection E as Ej E. constructor; [by eapply grant_json_agree|by eapply IH].
  - rewrite <-!list_fmap_compose in Ep.
    assert (Inj (=) (=) (norm ∘ peer_json)) by (intros p p'; apply peer_json_inj).
    by apply (inj (fmap (norm ∘ peer_json))) in Ep.
Qed.

Lemma wf_ceiling_json c v :
  (∀ x j, scope_json x = Ok j → wf_json j) → ceiling_json c = Ok v → wf_json v.
Proof.
  unfold ceiling_json. intros Hs (gs & Hgs & <-%(inj inl))%rbind_Ok.
  change (wf_json (JArray gs) ∧ wf_json (JArray (peer_json <$> ceiling_peers c)) ∧ True).
  rewrite !wf_array. split_and!; [| |done].
  - apply try_map_Ok in Hgs. induction Hgs as [|g j l gs Hg Hgs IH]; constructor; [|done].
    unfold grant_json in Hg. destruct (scope g) as [s|].
    + apply rbind_Ok in Hg as (x & Hx & <-%(inj inl)). split_and!; simpl; eauto.
    + by apply (inj inl) in Hg as <-.
  - apply Forall_fmap, Forall_true. intros p. unfold peer_json. simpl.
    case_bool_decide; [done|].
    change (wf_json (JString (contract p)) ∧ wf_json (JArray (JString <$> queues p))
            ∧ wf_json (JString (role p)) ∧ True).
    rewrite wf_array. split_and!; [done| |done..]. apply Forall_fmap. by apply Forall_true.
Qed.

Lemma hash_agree c c' h :
  (∀ x j, scope_json x = Ok j → wf_json j) →
  (∀ v v', ceiling_json c = Ok v → ceiling_json c' = Ok v' →
     sha256 (to_canonical_bytes v) = sha256 (to_canonical_bytes v') →
     to_canonical_bytes v = to_canonical_bytes v') →
  ceiling_hash_of c = Ok h → ceiling_hash_of c' = Ok h → ceilings_agree c c'.
Proof.
  intros Hs Hcol. unfold ceiling_hash_of.
  destruct (ceiling_json c) as [v|] eqn:E; [|done]. destruct (ceiling_json c') as [v'|] eqn:E'; [|done].
  intros <-%(inj inl) Hh%(inj inl)%HashFacts.hash_inj. eapply ceiling_json_agree; [done..|].
  apply (canonical_eq v v'); [by eapply wf_ceiling_json..|]. symmetry in Hh. auto.
Qed.

(** The ceiling's hash stands for the ceiling: unless the digest collides on
    the two, ceilings with one hash agree on every grant, up to the JSON form
    of its scope, and on every declared peer. *)
Theorem ceiling_hash_binds c c' h :
  (∀ x j, scope_json x = Ok j → wf_json j) →
  (∀ v v', ceiling_json c = Ok v → ceiling_json c' = Ok v' →
     sha256 (to_canonical_bytes v) = sha256 (to_canonical_bytes v') →
     to_canonical_bytes v = to_canonical_bytes v') →
  ceiling_hash_of c = Ok h → ceiling_hash_of c' = Ok h → ceilings_agree c c'.
Proof. apply hash_agree. Qed.

End ceiling.

End ProjectFacts.
