(* ===== verification/Consent.v ===== *)
(** * Consent ([crates/drt-config/src/consent.rs])

    [consent.json]: what the operator accepted, which signers they trust, and
    the one function that decides whether a root's declared ceiling may start
    silently. *)

From S2P Require Import Prelude.
From S2P Require Import Bytes.
From S2P Require Import Value.
From S2P Require Import Caps.
From S2P Require Import Id.
From S2P Require Import Time.
From S2P Require Import Realm.
From S2P Require Import Canon.
From S2P Require Import Sign.
From S2P Require Import Project.

(** ** The file *)

Inductive PeerKind :=
  | PeerRoot (root_id : Uuid7) (public_key : PublicKey)
  | PeerPlugin (public_key : PublicKey).

Record PeerBinding := {
  binding_peer : string;
  binding_kind : PeerKind;
  binding_queues : list string;
}.

Definition describe_binding (b : PeerBinding) : string :=
  match binding_kind b with
  | PeerRoot root_id _ => "'" +:+ binding_peer b +:+ "' (root " +:+ Uuid7.display root_id +:+ ")"
  | PeerPlugin _ => "'" +:+ binding_peer b +:+ "' (a plugin)"
  end.

Inductive Accepted :=
  | All (realm : Realm) (accepted_against : Hash) (accepted_at : Timestamp)
  | Listed (realm : Realm) (ceiling_hash : Hash) (ceiling : DeclaredCeiling)
      (accepted_at : Timestamp).

Module Accepted.

Definition realm (a : Accepted) : Realm :=
  match a with All realm _ _ | Listed realm _ _ _ => realm end.

Definition accepted_at (a : Accepted) : Timestamp :=
  match a with All _ _ at_ | Listed _ _ _ at_ => at_ end.

Definition realms (a : Accepted) (registry : RealmRegistry) : list Realm :=
  match a with
  | All realm _ _ => [realm]
  | Listed _ _ ceiling _ => RealmRegistry.realms_of registry (ceiling_caps ceiling)
  end.

End Accepted.

Record Signer := {
  signer_key_id : KeyId;
  signer_alg : Alg;
  signer_public_key : PublicKey;
  signer_realms : list Realm;
}.

Record ConsentJson := {
  consent_root_id : Uuid7;
  accepted : list Accepted;
  signers : list Signer;
  consent_peers : list PeerBinding;
}.

Module ConsentJson.

Definition new (id : Uuid7) : ConsentJson :=
  {| consent_root_id := id; accepted := []; signers := []; consent_peers := [] |}.

Definition root_entry (c : ConsentJson) : option Accepted :=
  find_first (λ e, bool_decide (Accepted.realm e = Realm.root)) (accepted c).

Definition signer (c : ConsentJson) (key_id : KeyId) : option Signer :=
  find_first (λ s, bool_decide (signer_key_id s = key_id)) (signers c).

End ConsentJson.

(** ** The widen relation *)

Inductive Objection :=
  | ObjectCaps (e : AttenuationError)
  | ObjectPeers (added : list string).

Definition widen_check (new accepted : list Grant) : result unit Objection :=
  match CapSet.attenuate (CapSet.root accepted) "consent-widen-check" new with
  | Ok _ => Ok tt
  | Err e => Err (ObjectCaps e)
  end.

(** The roles of one list no entry of the other has. *)
Definition roles_not_in (from not_in : DeclaredCeiling) : list string :=
  role <$> filter (λ p, existsb (λ o, bool_decide (role o = role p)) (ceiling_peers not_in) = false)
             (ceiling_peers from).

Definition widen_check_ceiling (new accepted : DeclaredCeiling) : result unit Objection :=
  _ ←? widen_check (ceiling_caps new) (ceiling_caps accepted);
  let added := roles_not_in new accepted in
  if bool_decide (added = []) then Ok tt else Err (ObjectPeers added).

(** ** The edit described *)

Record Change := {
  added : list Grant;
  removed : list Grant;
  peers_added : list string;
  peers_removed : list string;
}.

(** [Scope]'s [==], which is the msgpack library's on values. *)
Class ScopeEq := { scope_eqb : Value → Value → bool }.

Module Change.

Definition same_scope `{ScopeEq} (a b : option Scope) : bool :=
  match a, b with
  | None, None => true
  | Some a, Some b => scope_eqb (scope_value a) (scope_value b)
  | _, _ => false
  end.

Definition same `{ScopeEq} (a b : Grant) : bool :=
  bool_decide (effect a = effect b) && bool_decide (capability a = capability b)
  && same_scope (scope a) (scope b).

Definition between `{ScopeEq} (accepted new : DeclaredCeiling) : Change :=
  {| added := filter (λ g, existsb (λ a, same a g) (ceiling_caps accepted) = false) (ceiling_caps new);
     removed := filter (λ g, existsb (λ n, same n g) (ceiling_caps new) = false) (ceiling_caps accepted);
     peers_added := roles_not_in new accepted;
     peers_removed := roles_not_in accepted new |}.

Definition describe (sign : ascii) (g : Grant) : string :=
  String sign (String " " ((match effect g with Grant_ => "" | Deny => "deny " end) +:+ capability g)).

Definition lines (c : Change) : list string :=
  (describe "+" <$> added c) ++ (describe "-" <$> removed c)
  ++ ((λ r, "+ peer " +:+ r) <$> peers_added c) ++ ((λ r, "- peer " +:+ r) <$> peers_removed c).

Definition is_empty (c : Change) : bool :=
  match added c, removed c, peers_added c, peers_removed c with
  | [], [], [], [] => true
  | _, _, _, _ => false
  end.

End Change.

(** ** The check *)

Inductive ConsentCheck :=
  | Blanket (accepted_at : Timestamp) (ceiling_changed : bool)
  | First (ceiling_hash : Hash)
  | Unchanged
  | Narrowed (ceiling_hash : Hash) (change : Change)
  | Widened (ceiling_hash : Hash) (objection : Objection) (change : Change).

Inductive ConsentFailure :=
  | RootIdMismatch (expected found : Uuid7)
  | NoCeiling
  | CeilingHash (e : CeilingHashError)
  | PeersNotSupported (binding : string).

Section check.
Context `{JsonText} `{Digest} `{ScopeJson} `{ScopeEq}.

Definition check (project : ProjectJson) (consent : option ConsentJson) :
    result ConsentCheck ConsentFailure :=
  if bool_decide (caps project = []) then Err NoCeiling
  else
    hash ←? map_err CeilingHash (ceiling_hash project);
    match consent with
    | None => Ok (First hash)
    | Some consent =>
        if bool_decide (consent_root_id consent ≠ root_id project) then
          Err (RootIdMismatch (root_id project) (consent_root_id consent))
        else
          match consent_peers consent with
          | binding :: _ => Err (PeersNotSupported (describe_binding binding))
          | [] =>
              match ConsentJson.root_entry consent with
              | None => Ok (First hash)
              | Some (All _ accepted_against accepted_at) =>
                  Ok (Blanket accepted_at (bool_decide (accepted_against ≠ hash)))
              | Some (Listed _ accepted_hash accepted _) =>
                  if bool_decide (accepted_hash = hash) then Ok Unchanged
                  else
                    let declared := declared_ceiling project in
                    let change := Change.between accepted declared in
                    match widen_check_ceiling declared accepted with
                    | Ok _ => Ok (Narrowed hash change)
                    | Err objection => Ok (Widened hash objection change)
                    end
              end
          end
    end.

End check.

(** ** Facts *)

Module ConsentFacts.
Import CapSet.
Import CapSetFacts.
Import ProjectFacts.

(** What a ceiling lets a root do: the set its root node would hold. *)
Definition ceiling_holds (c : DeclaredCeiling) (want : string) : bool :=
  holds (CapSet.root (ceiling_caps c)) want.

(** A check that prompts nobody. *)
Definition silent (r : ConsentCheck) : bool :=
  match r with Unchanged | Narrowed _ _ => true | _ => false end.

Lemma roles_not_in_nil from not_in :
  roles_not_in from not_in = [] ↔ DeclaredCeiling.roles from ⊆ DeclaredCeiling.roles not_in.
Proof.
  unfold roles_not_in, DeclaredCeiling.roles.
  assert (Hnil : ∀ l : list PeerDeclaration, role <$> l = [] ↔ l = []) by (by intros []).
  rewrite Hnil. split.
  - intros Hf r (p & -> & Hp)%list_elem_of_fmap.
    destruct (existsb (λ o, bool_decide (role o = role p)) (ceiling_peers not_in)) eqn:E.
    + apply existsb_elem_of in E as (o & Ho & Hr%bool_decide_eq_true).
      apply list_elem_of_fmap. by exists o.
    + assert (p ∈ filter (λ p, existsb (λ o, bool_decide (role o = role p)) (ceiling_peers not_in) = false)
                   (ceiling_peers from)) as Hin by (by apply list_elem_of_filter).
      rewrite Hf in Hin. by apply not_elem_of_nil in Hin.
  - intros Hsub. destruct (filter _ _) as [|p l] eqn:E; [done|].
    assert (p ∈ p :: l) as Hin by (by left). rewrite <-E in Hin.
    apply list_elem_of_filter in Hin as [Hn Hp].
    assert (role p ∈ role <$> ceiling_peers not_in) as Hr
      by (apply Hsub, list_elem_of_fmap; eauto).
    apply list_elem_of_fmap in Hr as (o & Ho & Hino).
    assert (existsb (λ o, bool_decide (role o = role p)) (ceiling_peers not_in) = true) as Ht.
    { apply existsb_elem_of. exists o. split; [done|]. by apply bool_decide_eq_true. }
    congruence.
Qed.

Lemma widen_check_ok new acc :
  widen_check new acc = Ok tt ↔ is_ok (attenuate (CapSet.root acc) "consent-widen-check" new) = true.
Proof. unfold widen_check. by destruct (attenuate _ _ _). Qed.

(** The relation decides attenuation of both halves. *)
Lemma widen_check_ceiling_ok new acc :
  widen_check_ceiling new acc = Ok tt ↔
    widen_check (ceiling_caps new) (ceiling_caps acc) = Ok tt
    ∧ DeclaredCeiling.roles new ⊆ DeclaredCeiling.roles acc.
Proof.
  unfold widen_check_ceiling. rewrite rbind_Ok, <-roles_not_in_nil. split.
  - intros ([] & Hw & Hp). by case_bool_decide.
  - intros [Hw Hr]. exists tt. by rewrite bool_decide_true.
Qed.

Lemma widen_check_narrows new acc want :
  clean_grants acc → clean_denies new → widen_check new acc = Ok tt →
  holds (CapSet.root new) want = true → holds (CapSet.root acc) want = true.
Proof.
  intros Hg Hd. unfold widen_check, attenuate. destruct (attenuate_held_by _ _ _ _) as [child|] eqn:E; [|done].
  intros _ Hw. apply (attenuate_narrows (CapSet.root acc) None "consent-widen-check" new child want); try done.
  by apply attenuate_inv in E as [-> _].
Qed.

Section facts.
Context `{JsonTextLaws} `{Digest} `{ScopeJson} `{ScopeEq}.

Lemma agree_holds c c' want :
  ceilings_agree c c' → ceiling_holds c want = ceiling_holds c' want.
Proof.
  intros [Hg _]. unfold ceiling_holds, holds, CapSet.root. simpl.
  f_equal; [f_equal|]; induction Hg as [|g g' l l' (He & Hc & _) _ IH]; try done; simpl;
    rewrite IH; f_equal; unfold is_deny, is_grant; by rewrite He, Hc.
Qed.

Lemma check_listed project consent realm h acc at_ r :
  check project (Some consent) = Ok r →
  ConsentJson.root_entry consent = Some (Listed realm h acc at_) →
  ∃ hash, ceiling_hash project = Ok hash ∧ caps project ≠ []
    ∧ consent_root_id consent = root_id project ∧ consent_peers consent = []
    ∧ r = if bool_decide (h = hash) then Unchanged
          else match widen_check_ceiling (declared_ceiling project) acc with
               | Ok _ => Narrowed hash (Change.between acc (declared_ceiling project))
               | Err o => Widened hash o (Change.between acc (declared_ceiling project))
               end.
Proof.
  unfold check. intros Hc He. case_bool_decide as Hn; [done|].
  apply rbind_Ok in Hc as (hash & Hh & Hc). case_bool_decide as Hid; [done|].
  destruct (consent_peers consent) as [|b l] eqn:Ep; [|done]. rewrite He in Hc.
  exists hash. split_and!; [|done| |done|].
  - destruct (ceiling_hash project); simpl in Hh; by simplify_eq.
  - done.
  - case_bool_decide; [by simplify_eq|]. by destruct (widen_check_ceiling _ _); simplify_eq.
Qed.

(** What a silent check of a listed acceptance leaves. *)
Lemma silent_narrows project consent realm h acc at_ r :
  (∀ x j, scope_json x = Ok j → wf_json j) →
  (∀ v v', ceiling_json acc = Ok v → ceiling_json (declared_ceiling project) = Ok v' →
     sha256 (to_canonical_bytes v) = sha256 (to_canonical_bytes v') →
     to_canonical_bytes v = to_canonical_bytes v') →
  clean_grants (ceiling_caps acc) → clean_denies (caps project) →
  ConsentJson.root_entry consent = Some (Listed realm h acc at_) →
  ceiling_hash_of acc = Ok h →
  check project (Some consent) = Ok r → silent r = true →
  (∀ want, ceiling_holds (declared_ceiling project) want = true → ceiling_holds acc want = true)
  ∧ DeclaredCeiling.roles (declared_ceiling project) ⊆ DeclaredCeiling.roles acc.
Proof.
  intros Hwf Hcol Hg Hd He Hh Hc Hs.
  destruct (check_listed _ _ _ _ _ _ _ Hc He) as (hash & Hhash & _ & _ & _ & ->).
  case_bool_decide as Eh.
  - subst hash. assert (Ha : ceilings_agree acc (declared_ceiling project)).
    { by apply (hash_agree acc (declared_ceiling project) h). }
    split; [intros want; by rewrite (agree_holds _ _ _ Ha)|].
    destruct Ha as [_ Hp]. unfold DeclaredCeiling.roles. by rewrite Hp.
  - destruct (widen_check_ceiling _ _) as [[]|] eqn:Ew; [|done].
    apply widen_check_ceiling_ok in Ew as [Hw Hr]. split; [|done].
    intros want. by apply widen_check_narrows.
Qed.

(** C6: When the consent entry of the root lists what was accepted, its hash is
    that of its ceiling, the digest does not collide on the accepted and the
    declared ceiling, and no accepted grant or declared deny is a pattern
    ending in two stars: if the check is silent, the accepted ceiling holds
    whatever the declared one holds, and every declared peer role was
    accepted.  (Scopes and the queues of a peer are not compared:
    [silent_edits_that_widen].) *)
Theorem silent_check_narrows project consent realm h acc at_ r :
  (∀ x j, scope_json x = Ok j → wf_json j) →
  (∀ v v', ceiling_json acc = Ok v → ceiling_json (declared_ceiling project) = Ok v' →
     sha256 (to_canonical_bytes v) = sha256 (to_canonical_bytes v') →
     to_canonical_bytes v = to_canonical_bytes v') →
  clean_grants (ceiling_caps acc) → clean_denies (caps project) →
  ConsentJson.root_entry consent = Some (Listed realm h acc at_) →
  ceiling_hash_of acc = Ok h →
  check project (Some consent) = Ok r → silent r = true →
  (∀ want, ceiling_holds (declared_ceiling project) want = true → ceiling_holds acc want = true)
  ∧ DeclaredCeiling.roles (declared_ceiling project) ⊆ DeclaredCeiling.roles acc.
Proof. apply silent_narrows. Qed.

(** An acceptance whose hash still matches is silent without its ceiling
    being read, and one whose hash moved is silent exactly when the declared
    ceiling attenuates under the accepted one and declares no new role. *)
Theorem listed_check project consent realm h acc at_ r :
  ConsentJson.root_entry consent = Some (Listed realm h acc at_) →
  check project (Some consent) = Ok r →
  ∃ hash, ceiling_hash project = Ok hash ∧
    (silent r = true ↔
       h = hash
       ∨ (is_ok (CapSet.attenuate (CapSet.root (ceiling_caps acc)) "consent-widen-check"
                   (caps project)) = true
          ∧ DeclaredCeiling.roles (declared_ceiling project) ⊆ DeclaredCeiling.roles acc)).
Proof.
  intros He Hc. destruct (check_listed _ _ _ _ _ _ _ Hc He) as (hash & Hhash & _ & _ & _ & ->).
  exists hash. split; [done|]. case_bool_decide as Eh; [by split; [left|]|].
  rewrite <-widen_check_ok. change (caps project) with (ceiling_caps (declared_ceiling project)).
  rewrite <-widen_check_ceiling_ok. destruct (widen_check_ceiling _ _) as [[]|] eqn:Ew; simpl.
  - split; [by right|done].
  - split; [done|]. by intros [|].
Qed.

(** The silent path lets three edits widen what a root may do: a [p**]
    narrowed to [p*], a scope dropped from a grant, and a queue added to a
    declared peer.  Each checks as a narrowing whenever the hash moved. *)
Theorem silent_edits_that_widen project consent realm h acc at_ hash :
  caps project ≠ [] → consent_root_id consent = root_id project → consent_peers consent = [] →
  ConsentJson.root_entry consent = Some (Listed realm h acc at_) →
  ceiling_hash project = Ok hash → h ≠ hash →
  (ceiling_caps acc = [grant "host:**"] ∧ caps project = [grant "host:*"]
     ∧ peers project = ceiling_peers acc)
  ∨ (∃ s, ceiling_caps acc = [with_scope (grant "host:fs/read") s]
          ∧ caps project = [grant "host:fs/read"] ∧ peers project = ceiling_peers acc)
  ∨ (∃ role_ qs q ver, ceiling_peers acc = [MkPeerDeclaration role_ qs ver]
          ∧ peers project = [MkPeerDeclaration role_ (qs ++ [q]) ver]
          ∧ caps project = [grant "host:fs/read"] ∧ ceiling_caps acc = [grant "host:fs/read"]) →
  check project (Some consent) = Ok (Narrowed hash (Change.between acc (declared_ceiling project))).
Proof.
  intros Hn Hid Hp He Hh Hne Hedit. unfold check.
  rewrite bool_decide_false by done. rewrite Hh. simpl. rewrite bool_decide_false by (by intros []).
  rewrite Hp, He. rewrite bool_decide_false by done.
  assert (widen_check_ceiling (declared_ceiling project) acc = Ok tt) as ->; [|done].
  apply widen_check_ceiling_ok. unfold DeclaredCeiling.roles, declared_ceiling. simpl.
  destruct Hedit as [(-> & -> & ->)|[(s & -> & -> & ->)|(r & qs & q & v & -> & -> & -> & ->)]];
    split; done || reflexivity.
Qed.

(** An edit that changes nothing can prompt: where the ceiling grants a
    capability one of its own denies covers, the same ceiling under an older
    hash is reported as widened. *)
Theorem unchanged_ceiling_prompts project consent realm h acc at_ hash :
  caps project = [grant "host:fs/read"; deny "host:fs/*"] → peers project = [] →
  acc = declared_ceiling project →
  consent_root_id consent = root_id project → consent_peers consent = [] →
  ConsentJson.root_entry consent = Some (Listed realm h acc at_) →
  ceiling_hash project = Ok hash → h ≠ hash →
  ∃ change, check project (Some consent)
            = Ok (Widened hash (ObjectCaps (NotHeldByParent "host:fs/read")) change).
Proof.
  intros Hcaps Hpeers -> Hid Hp He Hh Hne. eexists. unfold check.
  rewrite bool_decide_false by (by rewrite Hcaps). rewrite Hh. simpl.
  rewrite bool_decide_false by (by intros []). rewrite Hp, He. rewrite bool_decide_false by done.
  assert (widen_check_ceiling (declared_ceiling project) (declared_ceiling project)
          = Err (ObjectCaps (NotHeldByParent "host:fs/read"))) as ->; [|done].
  unfold widen_check_ceiling, declared_ceiling. cbn [ceiling_caps ceiling_peers]. by rewrite Hcaps.
Qed.

End facts.
End ConsentFacts.
