(* ===== verification/Gsr.v ===== *)
(** * Grant signing requests ([crates/drt-config/src/gsr.rs])

    A node's request for more than it holds, the signed decision about it,
    and the four-step chain a decision is verified by on every read. *)

From S2P Require Import Prelude.
From S2P Require Import Bytes.
From S2P Require Import Value.
From S2P Require Import Caps.
From S2P Require Import Id.
From S2P Require Import Node.
From S2P Require Import Time.
From S2P Require Import Realm.
From S2P Require Import Canon.
From S2P Require Import Sign.
From S2P Require Import Project.
From S2P Require Import Consent.

Definition PENDING_DIR : string := "gsr/pending".
Definition DECIDED_DIR : string := "gsr/decided".

(** ** Requests *)

Record Request := {
  created_uuid7 : Uuid7;
  req_root_id : Uuid7;
  node : NodePath;
  req_realm : Realm;
  ask : Json;
  valid_from : option Timestamp;
  valid_until : option Timestamp;
  reason : string;
}.

Module Request.

Definition new (created root : Uuid7) (node : NodePath) (realm : Realm) (ask : Json) : Request :=
  {| created_uuid7 := created; req_root_id := root; node := node; req_realm := realm; ask := ask;
     valid_from := None; valid_until := None; reason := "" |}.

Definition with_window (r : Request) (w : Window) : Request :=
  {| created_uuid7 := created_uuid7 r; req_root_id := req_root_id r; node := node r;
     req_realm := req_realm r; ask := ask r; valid_from := from w; valid_until := until w;
     reason := reason r |}.

Definition with_reason (r : Request) (why : string) : Request :=
  {| created_uuid7 := created_uuid7 r; req_root_id := req_root_id r; node := node r;
     req_realm := req_realm r; ask := ask r; valid_from := valid_from r;
     valid_until := valid_until r; reason := why |}.

Definition window (r : Request) : Window := {| from := valid_from r; until := valid_until r |}.

(** An optional field: omitted, never blanked. *)
Definition instant_field (name : string) (t : option Timestamp) : list (string * Json) :=
  match t with Some t => [(name, JString (Timestamp.display t))] | None => [] end.

(** The object [identity] hashes. *)
Definition identity_json (r : Request) : Json :=
  object ([("root_id", JString (Uuid7.display (req_root_id r)));
           ("node", JString (node r));
           ("realm", JString (req_realm r));
           ("ask", ask r)]
          ++ instant_field "valid_from" (valid_from r)
          ++ instant_field "valid_until" (valid_until r)).

Definition identity `{JsonText} `{Digest} (r : Request) : Hash := hash_value (identity_json r).

Definition filename `{JsonText} `{Digest} (r : Request) : string :=
  Hash.hex (identity r) +:+ ".json".

End Request.

(** ** Decisions *)

Inductive Verdict := Approve | DenyIt.
#[export] Instance Verdict_eq_dec : EqDecision Verdict.
Proof. solve_decision. Defined.

(** The derived [Serialize] of [Verdict]. *)
Definition verdict_text (v : Verdict) : string :=
  match v with Approve => "approve" | DenyIt => "deny" end.

Record Decision := {
  request_hash : Hash;
  decision : Verdict;
  not_after : Timestamp;
  key_id : KeyId;
  alg : Alg;
  signature : Signature;
}.

Definition with_signature (d : Decision) (s : Signature) : Decision :=
  {| request_hash := request_hash d; decision := decision d; not_after := not_after d;
     key_id := key_id d; alg := alg d; signature := s |}.

Module Decision.
Section decision.
Context `{JsonText} `{Base64}.

(** The derived [Serialize]: every field, always. *)
Definition to_json (d : Decision) : Json :=
  object [("request_hash", JString (request_hash d));
          ("decision", JString (verdict_text (decision d)));
          ("not_after", JString (Timestamp.display (not_after d)));
          ("key_id", JString (key_id d));
          ("alg", JString (alg_text (alg d)));
          ("signature", JString (Signature.to_string (signature d)))].

(** The bytes a signature covers; serializing a decision never fails. *)
Definition covered_bytes (d : Decision) : bytes := Sign.signing_bytes (to_json d) "signature".

Definition signing_bytes (d : Decision) : result bytes string := Ok (covered_bytes d).

Definition zero_signature : Signature := replicate 64 (of_byte 0).

Definition sign `{Curve} (hash : Hash) (verdict : Verdict) (until : Timestamp) (id : KeyId)
    (key : SecretKey) : result Decision string :=
  let unsigned := {| request_hash := hash; decision := verdict; not_after := until; key_id := id;
                     alg := Ed25519; signature := zero_signature |} in
  bytes ←? signing_bytes unsigned;
  Ok (with_signature unsigned (SecretKey.sign key bytes)).

End decision.
End Decision.

(** ** Verification *)

Inductive Verified :=
  | Granted_ (window : Window)
  | Denied.

Inductive Unverified :=
  | WrongRequest (expected found : Hash)
  | UnknownKey (key_id : KeyId)
  | WrongAlgorithm (key_id : KeyId) (expected found : Alg)
  | BadSignature (e : VerifyFailed)
  | SignerNotAuthorized (key_id : KeyId) (realm : Realm)
  | OutsideCeiling (realm : Realm)
  | Expired (not_after : Timestamp)
  | EmptyWindow
  | NotSerializable (detail : string).

Section verify.
Context `{JsonText} `{Digest} `{Curve} `{Base64}.

(** The realms step 3 asks about: the root entry's, or none. *)
Definition consented (consent : ConsentJson) (registry : RealmRegistry) : list Realm :=
  match ConsentJson.root_entry consent with
  | Some entry => Accepted.realms entry registry
  | None => []
  end.

Definition verify (request : Request) (d : Decision) (consent : ConsentJson)
    (registry : RealmRegistry) (now : Timestamp) : result Verified Unverified :=
  let identity := Request.identity request in
  if bool_decide (request_hash d ≠ identity) then Err (WrongRequest identity (request_hash d))
  else
    match ConsentJson.signer consent (key_id d) with
    | None => Err (UnknownKey (key_id d))
    | Some signer =>
        if bool_decide (signer_alg signer ≠ alg d) then
          Err (WrongAlgorithm (key_id d) (signer_alg signer) (alg d))
        else
          bytes ←? map_err NotSerializable (Decision.signing_bytes d);
          _ ←? map_err BadSignature
                 (PublicKey.verify (signer_public_key signer) bytes (signature d));
          if negb (Realm.covered_by_any (req_realm request) (signer_realms signer)) then
            Err (SignerNotAuthorized (key_id d) (req_realm request))
          else if negb (Realm.covered_by_any (req_realm request) (consented consent registry)) then
            Err (OutsideCeiling (req_realm request))
          else if negb (Timestamp.is_after (not_after d) now) then Err (Expired (not_after d))
          else if bool_decide (decision d = DenyIt) then Ok Denied
          else
            let window := Window.intersect (Request.window request)
                            {| from := None; until := Some (not_after d) |} in
            if negb (Window.is_non_empty window) then Err EmptyWindow
            else Ok (Granted_ window)
    end.

Definition is_expired (d : Decision) (now : Timestamp) : bool :=
  negb (Timestamp.is_after (not_after d) now).

End verify.

(** ** Facts *)

Module GsrFacts.

(** What a window says at an instant, in terms of the request. *)
Lemma approved_window w until now :
  Window.contains (Window.intersect w {| from := None; until := Some until |}) now = true
  ↔ Window.contains w now = true ∧ (now ≤ until)%Z.
Proof.
  rewrite (TimeFacts.intersect_contains w), andb_true_iff. unfold Window.contains at 2. simpl.
  by rewrite bool_decide_eq_true.
Qed.

Section facts.
Context `{JsonTextLaws} `{Digest} `{Curve} `{Base64Laws}.

(** *** The chain *)

(** Steps 1 to 3: a trusted signer of the decision's algorithm, whose key the
    signature verifies under, and a realm inside both what the signer may
    approve and what the operator consented to. *)
Record authenticated (r : Request) (d : Decision) (consent : ConsentJson)
    (registry : RealmRegistry) (s : Signer) : Prop := {
  au_request : request_hash d = Request.identity r;
  au_signer : ConsentJson.signer consent (key_id d) = Some s;
  au_alg : signer_alg s = alg d;
  au_signature :
    PublicKey.verify (signer_public_key s) (Decision.covered_bytes d) (signature d) = Ok tt;
  au_realm : Realm.covered_by_any (req_realm r) (signer_realms s) = true;
  au_ceiling : Realm.covered_by_any (req_realm r) (consented consent registry) = true;
}.

(** Past step 3 only the instant, the verdict and the window are left. *)
Lemma verify_authenticated r d consent registry now s :
  authenticated r d consent registry s →
  verify r d consent registry now =
    if bool_decide (now < not_after d)%Z then
      match decision d with
      | DenyIt => Ok Denied
      | Approve =>
          let window := Window.intersect (Request.window r)
                          {| from := None; until := Some (not_after d) |} in
          if Window.is_non_empty window then Ok (Granted_ window) else Err EmptyWindow
      end
    else Err (Expired (not_after d)).
Proof.
  intros [Hq Hs Ha Hv Hr Hc]. unfold verify. rewrite Hq, bool_decide_false by (by intros []).
  rewrite Hs, Ha, bool_decide_false by (by intros []). simpl. rewrite Hv. simpl. rewrite Hr, Hc. simpl.
  unfold Timestamp.is_after. case_bool_decide; simpl; [|done].
  destruct (decision d); simpl; [|done]. by destruct (Window.is_non_empty _).
Qed.

Definition past_step_three (o : result Verified Unverified) : bool :=
  match o with
  | Ok _ | Err (Expired _) | Err EmptyWindow => true
  | _ => false
  end.

Lemma past_step_three_inv r d consent registry now :
  past_step_three (verify r d consent registry now) = true →
  ∃ s, authenticated r d consent registry s.
Proof.
  unfold verify. case_bool_decide as Hq; [done|].
  destruct (ConsentJson.signer consent (key_id d)) as [s|] eqn:Hs; [|done].
  case_bool_decide as Ha; [done|]. simpl.
  destruct (PublicKey.verify _ _ _) as [[]|e] eqn:Hv; [|done]. simpl.
  destruct (Realm.covered_by_any _ (signer_realms s)) eqn:Hr; [|done].
  destruct (Realm.covered_by_any _ (consented consent registry)) eqn:Hc; [|done].
  intros _. exists s. split; try done; by apply dec_stable.
Qed.

(** C4: The chain grants exactly what its contract allows.  A decision verifies
    as granted precisely when it is about this request, a trusted signer's key
    verifies it, that signer may approve the realm, the realm is inside the
    consented ceiling, the decision is an approval still live, and the window
    granted is the asked one cut at the approval's end, and not empty. *)
Theorem verify_grants r d consent registry now w :
  verify r d consent registry now = Ok (Granted_ w) ↔
    (∃ s, authenticated r d consent registry s)
    ∧ (now < not_after d)%Z ∧ decision d = Approve
    ∧ w = Window.intersect (Request.window r) {| from := None; until := Some (not_after d) |}
    ∧ ∃ t, Window.contains w t = true.
Proof.
  split.
  - intros Hv. assert (Hp : past_step_three (verify r d consent registry now) = true) by (by rewrite Hv).
    apply past_step_three_inv in Hp as [s Hs]. rewrite (verify_authenticated _ _ _ _ _ _ Hs) in Hv.
    case_bool_decide; [|done]. destruct (decision d); [|done]. cbv zeta in Hv.
    destruct (Window.is_non_empty _) eqn:E; [|done]. apply (inj inl) in Hv. injection Hv as <-.
    split_and!; [by eexists|done|done|done|]. by apply TimeFacts.non_empty_contains.
  - intros ([s Hs] & Hn & Hd & -> & Ht). rewrite (verify_authenticated _ _ _ _ _ _ Hs).
    rewrite bool_decide_true by done. rewrite Hd. cbv zeta.
    by rewrite (proj2 (TimeFacts.non_empty_contains _) Ht).
Qed.

(** C38: Nothing unauthenticated is interpreted.  A decision is reported denied,
    expired or empty only when steps 1 to 3 passed, expired then being a
    matter of the date alone; and a grant never reaches outside what was asked
    or past the approval's end. *)
Theorem verify_reports r d consent registry now :
  (verify r d consent registry now = Ok Denied ↔
     (∃ s, authenticated r d consent registry s) ∧ (now < not_after d)%Z ∧ decision d = DenyIt)
  ∧ (∀ t, verify r d consent registry now = Err (Expired t) ↔
     (∃ s, authenticated r d consent registry s) ∧ t = not_after d ∧ is_expired d now = true)
  ∧ (∀ w t, verify r d consent registry now = Ok (Granted_ w) → Window.contains w t = true →
     Window.contains (Request.window r) t = true ∧ (t ≤ not_after d)%Z).
Proof.
  split_and!.
  - split.
    + intros Hv. assert (Hp : past_step_three (verify r d consent registry now) = true) by (by rewrite Hv).
      apply past_step_three_inv in Hp as [s Hs]. rewrite (verify_authenticated _ _ _ _ _ _ Hs) in Hv.
      case_bool_decide; [|done]. destruct (decision d); [|by eauto].
      cbv zeta in Hv. by destruct (Window.is_non_empty _).
    + intros ([s Hs] & Hn & Hd). rewrite (verify_authenticated _ _ _ _ _ _ Hs).
      by rewrite bool_decide_true, Hd.
  - intros t. unfold is_expired, Timestamp.is_after. split.
    + intros Hv. assert (Hp : past_step_three (verify r d consent registry now) = true) by (by rewrite Hv).
      apply past_step_three_inv in Hp as [s Hs]. rewrite (verify_authenticated _ _ _ _ _ _ Hs) in Hv.
      case_bool_decide; [|by simplify_eq; eauto]. destruct (decision d); [|done].
      cbv zeta in Hv. by destruct (Window.is_non_empty _).
    + intros ([s Hs] & -> & Hn). rewrite (verify_authenticated _ _ _ _ _ _ Hs).
      by destruct (bool_decide _).
  - intros w t Hv Ht. assert (Hp : past_step_three (verify r d consent registry now) = true) by (by rewrite Hv).
    apply past_step_three_inv in Hp as [s Hs]. rewrite (verify_authenticated _ _ _ _ _ _ Hs) in Hv.
    case_bool_decide; [|done]. destruct (decision d); [|done]. cbv zeta in Hv.
    destruct (Window.is_non_empty _); [|done]. apply (inj inl) in Hv. injection Hv as <-.
    by apply approved_window in Ht.
Qed.

(** *** What a signature covers *)

Definition unsigned_json (d : Decision) : Json :=
  JObject [("alg", JString (alg_text (alg d)));
           ("decision", JString (verdict_text (decision d)));
           ("key_id", JString (key_id d));
           ("not_after", JString (Timestamp.display (not_after d)));
           ("request_hash", JString (request_hash d))].

Lemma covered_bytes_eq d : Decision.covered_bytes d = to_canonical_bytes (unsigned_json d).
Proof. reflexivity. Qed.

Lemma verdict_text_inj v v' : verdict_text v = verdict_text v' → v = v'.
Proof. by destruct v, v'. Qed.

(** A signature is over the whole decision but itself: two decisions with
    the same signing bytes differ in their signatures at most. *)
Theorem signing_bytes_bind d d' :
  Decision.signing_bytes d = Decision.signing_bytes d' → d' = with_signature d (signature d').
Proof.
  unfold Decision.signing_bytes. rewrite !covered_bytes_eq.
  intros E%(inj inl)%canonical_eq; [|by split_and!..].
  unfold equiv, json_equiv in E.
  change (unsigned_json d = unsigned_json d') in E. unfold unsigned_json in E.
  injection E as Ha Hd Hk Ht Hr. apply verdict_text_inj in Hd. apply TimeFacts.display_inj in Ht.
  destruct d as [? ? ? ? [] ?], d' as [? ? ? ? [] ?]. simpl in *. by subst.
Qed.

(** A decision signed here verifies: with the signer's key in the consent
    file under the same label, for a realm both the signer and the ceiling
    cover, an approval still live is granted for the asked window cut at its
    end, and a denial is reported as one. *)
Theorem signed_decision_verifies `{!CurveLaws} r consent registry now verdict until id key s :
  length key = 32 →
  ConsentJson.signer consent id = Some s →
  signer_public_key s = SecretKey.public_key key →
  Realm.covered_by_any (req_realm r) (signer_realms s) = true →
  Realm.covered_by_any (req_realm r) (consented consent registry) = true →
  (now < until)%Z →
  let w := Window.intersect (Request.window r) {| from := None; until := Some until |} in
  ∃ d, Decision.sign (Request.identity r) verdict until id key = Ok d
       ∧ verify r d consent registry now =
           match verdict with
           | DenyIt => Ok Denied
           | Approve => if Window.is_non_empty w then Ok (Granted_ w) else Err EmptyWindow
           end.
Proof.
  intros Hk Hs Hp Hr Hc Hn w. eexists. split; [reflexivity|].
  set (d := with_signature _ _). rewrite (verify_authenticated r d consent registry now s).
  - change (not_after d) with until. change (decision d) with verdict.
    by rewrite bool_decide_true by done.
  - split; try done.
    + by destruct (signer_alg s).
    + rewrite Hp. unfold PublicKey.verify, SecretKey.public_key.
      rewrite verifying_key_valid by done. rewrite covered_bytes_eq.
      change (signature d) with (SecretKey.sign key (to_canonical_bytes (unsigned_json d))).
      unfold SecretKey.sign. by rewrite sign_verifies.
Qed.

(** *** Request identity *)

Definition wf_id (u : Uuid7) : Prop := length u = 16 ∧ Uuid7.version u = 7%N.

Lemma uuid_display_inj u u' : wf_id u → wf_id u' → Uuid7.display u = Uuid7.display u' → u = u'.
Proof.
  intros [Hl Hv] [Hl' Hv'] E. pose proof (Uuid7Facts.uuid7_parse_display_of u Hl Hv) as Hp.
  rewrite E, (Uuid7Facts.uuid7_parse_display_of u' Hl' Hv') in Hp. by injection Hp.
Qed.

Lemma norm_identity r :
  norm (Request.identity_json r) =
    JObject ([("ask", norm (ask r)); ("node", JString (node r)); ("realm", JString (req_realm r));
              ("root_id", JString (Uuid7.display (req_root_id r)))]
             ++ Request.instant_field "valid_from" (valid_from r)
             ++ Request.instant_field "valid_until" (valid_until r)).
Proof. unfold Request.identity_json. destruct (valid_from r), (valid_until r); reflexivity. Qed.

Lemma wf_identity r : wf_json (ask r) → wf_json (Request.identity_json r).
Proof.
  intros Ha. unfold Request.identity_json. destruct (valid_from r), (valid_until r); by split_and!.
Qed.

(** Who is asking, where, for what and for when. *)
Definition same_ask (r r' : Request) : Prop :=
  req_root_id r = req_root_id r' ∧ node r = node r' ∧ req_realm r = req_realm r'
  ∧ ask r ≡ ask r' ∧ Request.window r = Request.window r'.

(** A request's identity is who asks, in which root, for which realm, for
    exactly what and for when: unless the digest collides on the two, requests
    have one identity precisely when they agree on those, whatever their
    creation ids and reasons and however the keys of what they ask are
    ordered. *)
Theorem identity_is_the_ask r r' :
  wf_id (req_root_id r) → wf_id (req_root_id r') → wf_json (ask r) → wf_json (ask r') →
  (let v := Request.identity_json r in let v' := Request.identity_json r' in
   sha256 (to_canonical_bytes v) = sha256 (to_canonical_bytes v') →
   to_canonical_bytes v = to_canonical_bytes v') →
  Request.identity r = Request.identity r' ↔ same_ask r r'.
Proof.
  intros Hi Hi' Ha Ha' Hcol. unfold Request.identity, hash_value.
  pose proof (canonical_eq _ _ (wf_identity r Ha) (wf_identity r' Ha')) as Hcan.
  split.
  - intros E%HashFacts.hash_inj%Hcol%Hcan. unfold equiv, json_equiv in E. rewrite !norm_identity in E.
    unfold same_ask, equiv, json_equiv, Request.window.
    destruct (valid_from r) as [f|], (valid_from r') as [f'|], (valid_until r) as [u|], (valid_until r') as [u'|];
      simpl in E; simplify_eq;
      repeat match goal with
      | Ht : Timestamp.display _ = Timestamp.display _ |- _ => apply TimeFacts.display_inj in Ht as ->
      | Hu : Uuid7.display _ = Uuid7.display _ |- _ => apply uuid_display_inj in Hu; [|done..]
      end; split_and!; done.
  - intros (E1 & E2 & E3 & E4 & E5). f_equal. apply Hcan. unfold equiv, json_equiv in *.
    rewrite !norm_identity. injection E5 as E5 E6. by rewrite E1, E2, E3, E4, E5, E6.
Qed.

End facts.
End GsrFacts.
