(* ===== verification/ConsentDemo.v ===== *)
(** * The consent chain at concrete inputs

    Concrete libraries behind the parameters of the consent chain (a JSON
    writer, a digest that keeps its input, a curve whose signature is the seed
    and the start of the message, hexadecimal for base64), one root with its
    ceiling, consent file and signer, and the theorems of the chain applied to
    them. *)

From Stdlib Require Import SpecFloat.
From S2P Require Import Prelude.
From S2P Require Import Bytes.
From S2P Require Import Value.
From S2P Require Import Caps.
From S2P Require Import Id.
From S2P Require Import Node.
From S2P Require Import Time.
From S2P Require Import Realm.
From S2P Require Import Canon.
From S2P Require Import Sign.
From S2P Require Import Project.
From S2P Require Import Consent.
From S2P Require Import Gsr.

#[local] Existing Instance plain_text.

#[local] Instance plain_digest : Digest := {| sha256 bs := bs |}.

#[local] Instance plain_curve : Curve := {|
  valid_key _ := true;
  verify_strict k m s := bool_decide (s = k ++ take 32 (m ++ replicate 32 (of_byte 0)));
  verifying_key seed := seed;
  sign_with seed m := seed ++ take 32 (m ++ replicate 32 (of_byte 0));
|}.

#[local] Instance plain_curve_laws : CurveLaws.
Proof.
  split; [done|done| |intros; by apply bool_decide_eq_true].
  intros seed m Hl. change (length (seed ++ take 32 (m ++ replicate 32 (of_byte 0))) = 64).
  rewrite length_app, length_take, length_app, length_replicate. lia.
Qed.

#[local] Instance hex_base64 : Base64 := {|
  b64_encode := Uuid7Facts.hex_of;
  b64_decode s := match Uuid7.parse_group "" (as_bytes s) with Ok bs => Ok bs | Err _ => Err "not hex" end;
|}.

#[local] Instance hex_base64_laws : Base64Laws.
Proof.
  split; simpl; intros bs; [by rewrite Uuid7Facts.parse_hex_of|].
  eapply Forall_impl; [apply HashFacts.hex_of_bytes|]. intros c [Hc _].
  unfold is_ascii_hexdigit, in_range, b64_char in *. repeat case_bool_decide; try done; lia.
Qed.

(** Scopes that are text, and no other. *)
#[local] Instance text_scopes : ScopeJson := {|
  scope_json v := match as_str v with Some s => Ok (JString s) | None => Err "not text" end;
|}.
#[local] Instance text_scope_eq : ScopeEq := {| scope_eqb a b := bool_decide (as_str a = as_str b) |}.

Lemma text_scopes_wf x j : scope_json x = Ok j → wf_json j.
Proof. simpl. destruct (as_str x); [by intros [= <-]|done]. Qed.

(** The digest keeps its input, so it never collides. *)
Lemma no_collision (v v' : Json) :
  sha256 (to_canonical_bytes v) = sha256 (to_canonical_bytes v') →
  to_canonical_bytes v = to_canonical_bytes v'.
Proof. done. Qed.

(** ** One root *)

Definition demo_id : Uuid7 := Uuid7.mint 1757707440000 (replicate 10 "U"%char).
Definition demo_seed : SecretKey := replicate 32 "k"%char.

Definition project_of (gs : list Grant) (ps : list PeerDeclaration) : ProjectJson :=
  {| project_name := None; project_version := None; root_id := demo_id; duplicated_from := None;
     drt := None; caps := gs; peers := ps; allow_nested := default_nesting; sources := [];
     require_signatures := true; default_profile := None; profiles := [] |}.

Definition consent_of (h : Hash) (c : DeclaredCeiling) : ConsentJson :=
  {| consent_root_id := demo_id; accepted := [Listed Realm.root h c 0%Z];
     signers := [{| signer_key_id := "ops"; signer_alg := Ed25519;
                    signer_public_key := SecretKey.public_key demo_seed;
                    signer_realms := ["operator.fs"] |}];
     consent_peers := [] |}.

Definition hash_of (c : DeclaredCeiling) : Hash :=
  match ceiling_hash_of c with Ok h => h | Err _ => "" end.

Definition wide : DeclaredCeiling :=
  MkDeclaredCeiling [grant "host:fs/*"; deny "host:fs/remove"] [MkPeerDeclaration "db" ["query"] "db/1"].
Definition narrow : ProjectJson :=
  project_of [grant "host:fs/read"; deny "host:fs/remove"] [].

Lemma singleton_clean (P : Grant → Prop) g g' : P g → P g' → ∀ x, x ∈ [g; g'] → P x.
Proof. intros Hg Hg' x [->| ->%list_elem_of_singleton]%elem_of_cons; done. Qed.

Lemma silent_check_narrows_witness :
  ∃ r, check narrow (Some (consent_of (hash_of wide) wide)) = Ok r ∧ ConsentFacts.silent r = true
  ∧ (∀ want, ConsentFacts.ceiling_holds (declared_ceiling narrow) want = true →
             ConsentFacts.ceiling_holds wide want = true)
  ∧ DeclaredCeiling.roles (declared_ceiling narrow) ⊆ DeclaredCeiling.roles wide.
Proof.
  eexists. split; [vm_compute; reflexivity|]. split; [reflexivity|].
  eapply (ConsentFacts.silent_check_narrows narrow (consent_of (hash_of wide) wide) Realm.root
            (hash_of wide) wide 0%Z).
  - apply text_scopes_wf.
  - intros v v' _ _. apply no_collision.
  - by refine (singleton_clean (λ g, is_grant g = true → clean (capability g) = true)
               (grant "host:fs/*") (deny "host:fs/remove") _ _).
  - by refine (singleton_clean (λ g, is_deny g = true → clean (capability g) = true)
               (grant "host:fs/read") (deny "host:fs/remove") _ _).
  - reflexivity.
  - vm_compute. reflexivity.
  - vm_compute. reflexivity.
  - reflexivity.
Defined.

Lemma listed_check_witness :
  ∃ r hash, check narrow (Some (consent_of "" wide)) = Ok r ∧ ceiling_hash narrow = Ok hash ∧
    (ConsentFacts.silent r = true ↔
       "" = hash
       ∨ (is_ok (CapSet.attenuate (CapSet.root (ceiling_caps wide)) "consent-widen-check"
                   (caps narrow)) = true
          ∧ DeclaredCeiling.roles (declared_ceiling narrow) ⊆ DeclaredCeiling.roles wide)).
Proof.
  eexists.
  destruct (ConsentFacts.listed_check narrow (consent_of "" wide) Realm.root "" wide 0%Z
              (match check narrow (Some (consent_of "" wide)) with Ok r => r | Err _ => Unchanged end))
    as (hash & Hh & Hs); [reflexivity|vm_compute; reflexivity|].
  exists hash. split; [|split; [exact Hh|exact Hs]]. vm_compute. reflexivity.
Defined.

Definition starred : DeclaredCeiling := MkDeclaredCeiling [grant "host:**"] [].

Lemma silent_edits_that_widen_witness :
  let p := project_of [grant "host:*"] [] in
  ∃ hash, ceiling_hash p = Ok hash ∧
    check p (Some (consent_of "" starred))
    = Ok (Narrowed hash (Change.between starred (declared_ceiling p)))
    ∧ ConsentFacts.ceiling_holds (declared_ceiling p) "host:fs/read" = true
    ∧ ConsentFacts.ceiling_holds starred "host:fs/read" = false.
Proof.
  cbv zeta. eexists. split; [reflexivity|]. split; [|by vm_compute].
  apply (ConsentFacts.silent_edits_that_widen _ _ Realm.root "" starred 0%Z); try done.
  by left.
Defined.

Definition shadowed : ProjectJson := project_of [grant "host:fs/read"; deny "host:fs/*"] [].

Lemma unchanged_ceiling_prompts_witness :
  ∃ hash change,
    ceiling_hash shadowed = Ok hash
    ∧ check shadowed (Some (consent_of "" (declared_ceiling shadowed)))
      = Ok (Widened hash (ObjectCaps (NotHeldByParent "host:fs/read")) change).
Proof.
  eexists.
  destruct (ConsentFacts.unchanged_ceiling_prompts shadowed (consent_of "" (declared_ceiling shadowed))
              Realm.root "" (declared_ceiling shadowed) 0%Z (hash_of (declared_ceiling shadowed)))
    as [change Hc]; try reflexivity; [by vm_compute|].
  exists change. split; [|exact Hc]. reflexivity.
Defined.

Lemma ceiling_hash_binds_witness :
  ProjectFacts.ceilings_agree wide wide ∧ ceiling_hash_of wide = Ok (hash_of wide).
Proof.
  split; [|vm_compute; reflexivity].
  apply (ProjectFacts.ceiling_hash_binds wide wide (hash_of wide));
    [apply text_scopes_wf|intros v v' _ _; apply no_collision|vm_compute; reflexivity..].
Defined.

(** ** One request *)

Definition demo_request : Request :=
  Request.with_window
    (Request.new demo_id demo_id "root/intake" "operator.fs.read" (JObject [("path", JString "data")]))
    {| from := Some 100%Z; until := Some 900%Z |}.

Definition demo_consent : ConsentJson := consent_of "" wide.

Lemma signed_decision_verifies_witness :
  ∃ d, Decision.sign (Request.identity demo_request) Approve 500%Z "ops" demo_seed = Ok d
       ∧ verify demo_request d demo_consent RealmRegistry.new 200%Z
         = Ok (Granted_ {| from := Some 100%Z; until := Some 500%Z |}).
Proof.
  apply (GsrFacts.signed_decision_verifies demo_request demo_consent RealmRegistry.new 200%Z Approve
           500%Z "ops" demo_seed
           {| signer_key_id := "ops"; signer_alg := Ed25519;
              signer_public_key := SecretKey.public_key demo_seed;
              signer_realms := ["operator.fs"] |});
    vm_compute; reflexivity.
Defined.

Lemma signing_bytes_bind_witness :
  let d := {| request_hash := Request.identity demo_request; decision := Approve; not_after := 500%Z;
              key_id := "ops"; alg := Ed25519; signature := replicate 64 "s"%char |} in
  let d' := with_signature d Decision.zero_signature in
  Decision.signing_bytes d = Decision.signing_bytes d' ∧ d' = with_signature d (signature d').
Proof.
  cbv zeta. split; [reflexivity|]. by apply GsrFacts.signing_bytes_bind.
Defined.

Lemma identity_is_the_ask_witness :
  let r' := Request.with_reason demo_request "please" in
  (Request.identity demo_request = Request.identity r' ↔ GsrFacts.same_ask demo_request r')
  ∧ GsrFacts.same_ask demo_request r'.
Proof.
  cbv zeta. split; [|by split_and!].
  apply (GsrFacts.identity_is_the_ask demo_request (Request.with_reason demo_request "please"));
    try by split_and!. by intros v v'.
Defined.

Lemma keys_roundtrip_witness :
  let m := as_bytes "message" in
  SecretKey.from_file_text (SecretKey.to_file_text demo_seed) = Ok demo_seed
  ∧ PublicKey.try_from (PublicKey.to_string (SecretKey.public_key demo_seed))
    = Ok (SecretKey.public_key demo_seed)
  ∧ Signature.try_from (Signature.to_string (SecretKey.sign demo_seed m)) = Ok (SecretKey.sign demo_seed m)
  ∧ PublicKey.verify (SecretKey.public_key demo_seed) m (SecretKey.sign demo_seed m) = Ok tt.
Proof. cbv zeta. by apply (SignFacts.keys_roundtrip demo_seed (as_bytes "message")). Defined.

Lemma canonical_key_order_witness :
  let m := [("a", JNull); ("b", JBool true)] in let m' := [("b", JBool true); ("a", JNull)] in
  NoDup m.*1 ∧ m ≡ₚ m' ∧ to_canonical_bytes (JObject m) = to_canonical_bytes (JObject m').
Proof.
  cbv zeta. assert (Hn : NoDup ([("a", JNull); ("b", JBool true)] : list (string * Json)).*1).
  { simpl. apply NoDup_cons. split; [by rewrite list_elem_of_singleton|apply NoDup_singleton]. }
  split; [exact Hn|]. split; [apply perm_swap|]. by apply canonical_key_order; [exact Hn|apply perm_swap].
Defined.

Lemma msgpack_roundtrip_witness :
  let j := JObject [("count", JNumber (PosInt 7)); ("items", JArray [JString "x"; JNumber (NegInt (-3))])] in
  from_msgpack (to_msgpack j) = Ok j.
Proof.
  cbv zeta. apply GuestFacts.msgpack_roundtrip. split; [|by split_and!].
  intros i k a b Hik Ha Hb. destruct i as [|[|i]], k as [|[|k]]; try done; try lia.
  simpl in Ha, Hb. injection Ha as <-. injection Hb as <-. reflexivity.
Defined.
