(* ===== verification/Session.v ===== *)
(** * Plugin frames

    [crates/drt-plugin/src/frame.rs]: the length-prefixed frames between a
    host and a plugin.  The serializer behind a frame's body is the class
    [Serde], one instance per frame type, with its round trip as the law.

    ** Plugin sessions

    [crates/drt-plugin/src/channel.rs] (the stream under the frames and its
    in-memory double [Loopback]) and [session.rs] (many calls over one
    stream, polled and never blocking).  A transport is an instance of
    [Channel]. *)

From stdpp Require Import gmap.
From S2P Require Import Prelude.
From S2P Require Import Bytes.
From S2P Require Import Value.

(** [rmp_serde::to_vec_named] and [rmp_serde::from_slice] at a type: the
    bytes or the serializer's message. *)
Class Serde (T : Type) := {
  to_vec_named : T → result bytes string;
  from_slice : bytes → result T string;
}.
Class SerdeLaws (T : Type) `{!Serde T} : Prop := {
  from_slice_named t bs : to_vec_named t = Ok bs → from_slice bs = Ok t;
}.

Module Frame.

Definition PROTOCOL_VERSION : N := 1.
Definition MAX_FRAME_BYTES : N := (16 * 1024 * 1024)%N.
Definition LENGTH_PREFIX : nat := 4.

Record Request := MkRequest {
  rq_version : N;
  rq_id : N;
  rq_target : string;
  rq_args : option Value;
}.

Inductive ErrorClass := Transport | Plugin | Capability.

Record PluginError := MkPluginError {
  pe_class : ErrorClass;
  pe_code : string;
  pe_message : string;
}.

Inductive ReplyBody :=
  | BodyOk (value : Value)
  | BodyErr (error : PluginError).

Record Reply := MkReply {
  rp_version : N;
  rp_id : N;
  rp_is_final : bool;
  rp_body : ReplyBody;
}.

Inductive FrameError :=
  | TooLarge (len : N)
  | Malformed (why : string)
  | Unencodable (why : string)
  | Version (found : N).

(** The [Display] of the error. *)
Definition frame_error_text (e : FrameError) : string :=
  match e with
  | TooLarge len =>
      "plugin frame declares " +:+ dec len +:+ " bytes, over the " +:+ dec MAX_FRAME_BYTES
        +:+ "-byte ceiling; the stream is desynced or the plugin is misframing"
  | Malformed why => "plugin frame is not valid msgpack: " +:+ why
  | Unencodable why => "plugin frame could not be encoded: " +:+ why
  | Version found =>
      "plugin frame declares protocol version " +:+ dec found +:+ ", and this host speaks "
        +:+ dec PROTOCOL_VERSION
  end.

(** [next_wire_id]: the process-wide counter is an [AtomicU64], its value
    before the call being the id. *)
Definition FIRST_ID : N := 1.
Definition next_wire_id (counter : N) : N * N := (counter, ((counter + 1) `mod` 2 ^ 64)%N).

Section codec.
Context {T : Type} `{!Serde T}.

(** [body.len() as u32] keeps the low 32 bits. *)
Definition encode (frame : T) : result bytes FrameError :=
  body ←? map_err Unencodable (to_vec_named frame);
  Ok (be32 (N.of_nat (length body) `mod` 2 ^ 32) ++ body).

Definition decode (buf : bytes) : result (option (T * nat)) FrameError :=
  if bool_decide (length buf < LENGTH_PREFIX) then Ok None
  else
    let len := from_be (take LENGTH_PREFIX buf) in
    if bool_decide (MAX_FRAME_BYTES < len)%N then Err (TooLarge len)
    else
      let end_ := LENGTH_PREFIX + N.to_nat len in
      if bool_decide (length buf < end_) then Ok None
      else
        frame ←? map_err Malformed
                   (from_slice (take (end_ - LENGTH_PREFIX) (drop LENGTH_PREFIX buf)));
        Ok (Some (frame, end_)).
End codec.

End Frame.

Module FrameFacts.
Import Frame.

Lemma be32_length n : length (be32 n) = LENGTH_PREFIX.
Proof. done. Qed.

Lemma max_frame_fits n : (n ≤ MAX_FRAME_BYTES)%N → (n < 2 ^ 32)%N.
Proof. intros H. eapply N.le_lt_trans; [exact H|done]. Qed.

Section facts.
Context {T : Type} `{!Serde T}.

(** What a frame on the wire is: its length in front, within the ceiling. *)
Definition framed (body : bytes) : bytes := be32 (N.of_nat (length body)) ++ body.

Lemma framed_length body : length (framed body) = LENGTH_PREFIX + length body.
Proof. unfold framed. by rewrite length_app, be32_length. Qed.

Lemma encode_framed f body :
  to_vec_named f = Ok body → (N.of_nat (length body) ≤ MAX_FRAME_BYTES)%N →
  encode f = Ok (framed body).
Proof.
  intros Hf Hn. unfold encode, framed. rewrite Hf. simpl.
  by rewrite N.mod_small by by apply max_frame_fits.
Qed.

Lemma decode_framed body rest :
  (N.of_nat (length body) ≤ MAX_FRAME_BYTES)%N →
  decode (T := T) (framed body ++ rest) =
  (frame ←? map_err Malformed (from_slice body); Ok (Some (frame, length (framed body)))).
Proof.
  intros Hn. unfold decode. rewrite framed_length.
  assert (Hl : length (framed body ++ rest) = LENGTH_PREFIX + length body + length rest).
  { by rewrite length_app, framed_length. }
  rewrite bool_decide_false by (rewrite Hl; lia).
  assert (Ht : take LENGTH_PREFIX (framed body ++ rest) = be32 (N.of_nat (length body))).
  { unfold framed. rewrite <-app_assoc. by apply take_app_length'. }
  assert (Hd : drop LENGTH_PREFIX (framed body ++ rest) = body ++ rest).
  { unfold framed. rewrite <-app_assoc. by apply drop_app_length'. }
  rewrite Ht, Hd, from_be32 by by apply max_frame_fits.
  rewrite bool_decide_false by lia. rewrite Nat2N.id.
  rewrite bool_decide_false by (rewrite Hl; lia).
  replace (LENGTH_PREFIX + length body - LENGTH_PREFIX) with (length body) by lia.
  by rewrite take_app_length.
Qed.

(** A buffer that ends inside a frame asks for more. *)
Lemma decode_short body buf :
  (N.of_nat (length body) ≤ MAX_FRAME_BYTES)%N →
  buf `prefix_of` framed body → length buf < length (framed body) →
  decode (T := T) buf = Ok None.
Proof.
  intros Hn [k Hk] Hlt. unfold decode. case_bool_decide as Hs; [done|].
  assert (Ht : take LENGTH_PREFIX buf = be32 (N.of_nat (length body))).
  { assert (Hf : take LENGTH_PREFIX (framed body) = be32 (N.of_nat (length body)))
      by by apply take_app_length'.
    rewrite Hk, take_app_le in Hf by lia. done. }
  rewrite Ht, from_be32 by by apply max_frame_fits.
  rewrite bool_decide_false by lia. rewrite Nat2N.id.
  rewrite framed_length in Hlt. by rewrite bool_decide_true by lia.
Qed.

(** What a decoded frame took is on the buffer, and more than the prefix is
    not left behind. *)
Lemma decode_Some buf f n :
  decode (T := T) buf = Ok (Some (f, n)) →
  ∃ body, buf = framed body ++ drop n buf ∧ n = length (framed body)
    ∧ (N.of_nat (length body) ≤ MAX_FRAME_BYTES)%N ∧ from_slice body = Ok f.
Proof.
  unfold decode. case_bool_decide as H1; [done|].
  case_bool_decide as H2; [done|]. case_bool_decide as H3; [done|].
  set (len := from_be (take LENGTH_PREFIX buf)) in *.
  replace (LENGTH_PREFIX + N.to_nat len - LENGTH_PREFIX) with (N.to_nat len) by lia.
  destruct (from_slice _) as [g|] eqn:Hg; cbn [rbind map_err]; [|done].
  intros [<- <-]%(inj inl)%(inj Some)%pair_eq.
  exists (take (N.to_nat len) (drop LENGTH_PREFIX buf)).
  assert (Hl : length (take (N.to_nat len) (drop LENGTH_PREFIX buf)) = N.to_nat len)
    by (rewrite length_take, length_drop; lia).
  rewrite framed_length, Hl. split_and!; [|done|lia|done].
  unfold framed. rewrite Hl, N2Nat.id, <-app_assoc, <-drop_drop, take_drop.
  assert (Hbe : be32 len = take LENGTH_PREFIX buf).
  { unfold len. destruct buf as [|a [|b [|c [|d buf]]]]; try (simpl in H1; unfold LENGTH_PREFIX in H1; lia).
    apply be32_from_be. }
  by rewrite Hbe, take_drop.
Qed.

(** An encoded frame has its length in front, whatever the body. *)
Lemma encode_Ok f bs :
  encode f = Ok bs ↔ ∃ body, to_vec_named f = Ok body
    ∧ bs = be32 (N.of_nat (length body) `mod` 2 ^ 32) ++ body.
Proof.
  unfold encode. split.
  - intros (body & Hb & [= <-])%rbind_Ok. exists body.
    destruct (to_vec_named f); by simplify_eq/=.
  - intros (body & Hb & ->). by rewrite Hb.
Qed.

(** What [encode] wrote, [decode] reads back. *)
Lemma encoded_decodes `{!SerdeLaws T} f bs rest :
  encode f = Ok bs → (N.of_nat (length bs) ≤ MAX_FRAME_BYTES)%N →
  decode (bs ++ rest) = Ok (Some (f, length bs))
  ∧ ∀ k, k < length bs → decode (T := T) (take k bs) = Ok None.
Proof.
  intros (body & Hb & ->)%encode_Ok Hlen.
  rewrite length_app in Hlen.
  assert (Hn : (N.of_nat (length body) ≤ MAX_FRAME_BYTES)%N) by lia.
  rewrite N.mod_small by by apply max_frame_fits. fold (framed body). split.
  - rewrite decode_framed by done. by rewrite (from_slice_named _ _ Hb).
  - intros k Hk. apply (decode_short body); [done|apply prefix_take|].
    rewrite length_take. lia.
Qed.

(** A frame whose body is within the ceiling reads back, whatever follows it,
    and no proper part of its bytes reads as a frame or fails. *)
Theorem frame_roundtrip `{!SerdeLaws T} f bs rest :
  encode f = Ok bs → (N.of_nat (length bs) ≤ MAX_FRAME_BYTES)%N →
  decode (bs ++ rest) = Ok (Some (f, length bs))
  ∧ ∀ k, k < length bs → decode (T := T) (take k bs) = Ok None.
Proof. apply encoded_decodes. Qed.

(** Nothing holds a frame to the ceiling on its way out: a body past it is
    encoded, and refused by whoever reads it. *)
Theorem oversized_frame_encodes f body :
  to_vec_named f = Ok body → (MAX_FRAME_BYTES < N.of_nat (length body) < 2 ^ 32)%N →
  ∃ bs, encode f = Ok bs ∧ decode (T := T) bs = Err (TooLarge (N.of_nat (length body))).
Proof.
  intros Hb Hn. exists (framed body). split.
  - apply encode_Ok. exists body. by rewrite N.mod_small by lia.
  - unfold decode. rewrite framed_length, bool_decide_false by lia.
    assert (Ht : take LENGTH_PREFIX (framed body) = be32 (N.of_nat (length body)))
      by by apply take_app_length'.
    rewrite Ht, from_be32, bool_decide_true by lia. done.
Qed.
End facts.
End FrameFacts.

(** ** The stream *)
Module Channel.

Inductive ChannelError := Closed | Broken (why : string).

Definition channel_error_text (e : ChannelError) : string :=
  match e with
  | Closed => "the plugin closed the channel"
  | Broken why => "the plugin channel failed: " +:+ why
  end.

(** How many bytes moved, and the changed channel; a read also gives back the
    buffer it appended to. *)
Class Channel (C : Type) := {
  write_some : bytes → C → result nat ChannelError * C;
  read_some : bytes → C → result nat ChannelError * bytes * C;
}.

Record Loopback := MkLoopback {
  to_peer : bytes;
  from_peer : bytes;
  write_limit : option nat;
  capacity : option nat;
  broken : option ChannelError;
}.

Definition loopback_new : Loopback := MkLoopback [] [] None None None.

Definition peer_take (c : Loopback) : bytes * Loopback :=
  (to_peer c, MkLoopback [] (from_peer c) (write_limit c) (capacity c) (broken c)).
Definition peer_put (bs : bytes) (c : Loopback) : Loopback :=
  MkLoopback (to_peer c) (from_peer c ++ bs) (write_limit c) (capacity c) (broken c).

Definition loopback_write_some (bs : bytes) (c : Loopback) : result nat ChannelError * Loopback :=
  match broken c with
  | Some e => (Err e, c)
  | None =>
      let room := match capacity c with
                  | Some cap => cap - length (to_peer c)
                  | None => length bs
                  end in
      let n := min (min (default (length bs) (write_limit c)) (length bs)) room in
      (Ok n, MkLoopback (to_peer c ++ take n bs) (from_peer c) (write_limit c) (capacity c) (broken c))
  end.

Definition loopback_read_some (out : bytes) (c : Loopback) :
    result nat ChannelError * bytes * Loopback :=
  match broken c with
  | Some e => (Err e, out, c)
  | None =>
      (Ok (length (from_peer c)), out ++ from_peer c,
       MkLoopback (to_peer c) [] (write_limit c) (capacity c) (broken c))
  end.

#[export] Instance loopback_channel : Channel Loopback := {|
  write_some := loopback_write_some;
  read_some := loopback_read_some;
|}.
End Channel.

(** ** The session *)
Module Session.
Import Channel Frame.

Inductive SessionError :=
  | EChannel (e : ChannelError)
  | EFrame (e : FrameError)
  | Streamed (id : N)
  | Unasked (id : N)
  | Saturated (in_flight : nat).

Definition session_error_text (e : SessionError) : string :=
  match e with
  | EChannel e => "the plugin channel failed: " +:+ channel_error_text e
  | EFrame e => "the plugin sent a frame this host cannot read: " +:+ frame_error_text e
  | Streamed id =>
      "the plugin answered call " +:+ dec id +:+
      " with a non-final reply, and this host does not consume streamed replies"
  | Unasked id => "the plugin answered call " +:+ dec id +:+ ", which this host never made"
  | Saturated n =>
      "the plugin has " +:+ dec (N.of_nat n) +:+
      " calls outstanding, its max_inflight; the call was not sent"
  end.

Record Session (C : Type) := MkSession {
  channel : C;
  outbound : bytes;
  inbound : bytes;
  ready : gmap N Reply;
  live : gset N;
  abandoned : gset N;
  failed : option string;
  max_inflight : nat;
}.
Arguments MkSession {C} _ _ _ _ _ _ _ _.
Arguments channel {C} _.
Arguments outbound {C} _.
Arguments inbound {C} _.
Arguments ready {C} _.
Arguments live {C} _.
Arguments abandoned {C} _.
Arguments failed {C} _.
Arguments max_inflight {C} _.

Section session.
Context {C : Type} `{!Channel C, !Serde Request, !Serde Reply}.
Implicit Types s : Session C.

Definition set_channel (c : C) s : Session C :=
  MkSession c (outbound s) (inbound s) (ready s) (live s) (abandoned s) (failed s) (max_inflight s).
Definition set_outbound (bs : bytes) s : Session C :=
  MkSession (channel s) bs (inbound s) (ready s) (live s) (abandoned s) (failed s) (max_inflight s).
Definition set_inbound (bs : bytes) s : Session C :=
  MkSession (channel s) (outbound s) bs (ready s) (live s) (abandoned s) (failed s) (max_inflight s).
Definition set_calls (rd : gmap N Reply) (lv ab : gset N) s : Session C :=
  MkSession (channel s) (outbound s) (inbound s) rd lv ab (failed s) (max_inflight s).
Definition set_failed (f : option string) s : Session C :=
  MkSession (channel s) (outbound s) (inbound s) (ready s) (live s) (abandoned s) f (max_inflight s).

Definition new (c : C) (max_inflight : nat) : Session C :=
  MkSession c [] [] ∅ ∅ ∅ None max_inflight.

Definition in_flight s : nat := size (live s).

Definition check_failed s : result unit SessionError :=
  match failed s with
  | Some why => Err (EChannel (Broken why))
  | None => Ok tt
  end.

(** [fail]: the first failure is kept. *)
Definition fail (e : SessionError) s : SessionError * Session C :=
  (e, match failed s with
      | None => set_failed (Some (session_error_text e)) s
      | Some _ => s
      end).

(** [Err(self.fail(e))]. *)
Definition fails {A} (e : SessionError) s : outcome (Session C) (result A SessionError) :=
  let '(e, s) := fail e s in Ret (Err e) s.

(** The wire id comes from the process's counter, given back with its next
    value. *)
Definition begin_ (target : string) (args : option Value) (counter : N) s :
    result N SessionError * N * Session C :=
  match check_failed s with
  | Err e => (Err e, counter, s)
  | Ok _ =>
      if negb (bool_decide (max_inflight s = 0)) && bool_decide (max_inflight s ≤ size (live s))
      then (Err (Saturated (size (live s))), counter, s)
      else
        let '(id, counter') := next_wire_id counter in
        match encode (MkRequest PROTOCOL_VERSION id target args) with
        | Err e => let '(e, s) := fail (EFrame e) s in (Err e, counter', s)
        | Ok bs =>
            (Ok id, counter',
             set_calls (ready s) (live s ∪ {[ id ]}) (abandoned s)
               (set_outbound (outbound s ++ bs) s))
        end
  end.

(** [drain(..n)] panics past the end; a write of nothing ends the loop. *)
Fixpoint flush (fuel : nat) s : outcome (Session C) (result unit SessionError) :=
  match fuel with
  | 0 => OutOfFuel
  | S fuel' =>
      match outbound s with
      | [] => Ret (Ok tt) s
      | _ =>
          let '(r, c) := write_some (outbound s) (channel s) in
          let s := set_channel c s in
          match r with
          | Err e => fails (EChannel e) s
          | Ok 0 => Ret (Ok tt) s
          | Ok n =>
              if bool_decide (length (outbound s) < n) then Panic
              else flush fuel' (set_outbound (drop n (outbound s)) s)
          end
      end
  end.

Fixpoint fill (fuel : nat) s : outcome (Session C) (result unit SessionError) :=
  match fuel with
  | 0 => OutOfFuel
  | S fuel' =>
      let '(r, inb, c) := read_some (inbound s) (channel s) in
      let s := set_inbound inb (set_channel c s) in
      match r with
      | Err e => fails (EChannel e) s
      | Ok 0 => Ret (Ok tt) s
      | Ok _ => fill fuel' s
      end
  end.

(** What [sort] does with one decoded reply: an error, or the calls left. *)
Definition file (r : Reply) s : result (Session C) SessionError :=
  if negb (bool_decide (rp_version r = PROTOCOL_VERSION)) then Err (EFrame (Version (rp_version r)))
  else if negb (rp_is_final r) then Err (Streamed (rp_id r))
  else if bool_decide (rp_id r ∈ abandoned s) then
    Ok (set_calls (ready s) (live s) (abandoned s ∖ {[ rp_id r ]}) s)
  else if negb (bool_decide (rp_id r ∈ live s)) then Err (Unasked (rp_id r))
  else Ok (set_calls (<[rp_id r := r]> (ready s)) (live s) (abandoned s) s).

Fixpoint sort (fuel : nat) s : outcome (Session C) (result unit SessionError) :=
  match fuel with
  | 0 => OutOfFuel
  | S fuel' =>
      match decode (inbound s) with
      | Err e => fails (EFrame e) s
      | Ok None => Ret (Ok tt) s
      | Ok (Some (reply, used)) =>
          let s := set_inbound (drop used (inbound s)) s in
          match file reply s with
          | Err e => fails e s
          | Ok s => sort fuel' s
          end
      end
  end.

(** One step: the fuel is for [fill], which goes on for as long as the
    channel has bytes; the other two loops end by themselves. *)
Definition poll (fuel : nat) s : outcome (Session C) (result unit SessionError) :=
  match check_failed s with
  | Err e => Ret (Err e) s
  | Ok _ =>
      match flush (S (length (outbound s))) s with
      | Ret (Ok _) s =>
          match fill fuel s with
          | Ret (Ok _) s => sort (S (length (inbound s))) s
          | o => o
          end
      | o => o
      end
  end.

(** [take]: a reply is collected once. *)
Definition take_ (id : N) s : result (option Reply) SessionError * Session C :=
  match check_failed s with
  | Err e => (Err e, s)
  | Ok _ =>
      match ready s !! id with
      | Some reply =>
          (Ok (Some reply), set_calls (delete id (ready s)) (live s ∖ {[ id ]}) (abandoned s) s)
      | None => (Ok None, s)
      end
  end.

Definition abandon (id : N) s : Session C :=
  let '(lv, ab) :=
    if bool_decide (id ∈ live s) then (live s ∖ {[ id ]}, abandoned s ∪ {[ id ]})
    else (live s, abandoned s) in
  set_calls (delete id (ready s)) lv ab s.
End session.

(** [outcome]: the value or the error a finished call carries. *)
Definition outcome_of (r : Reply) : ReplyBody := rp_body r.
End Session.
