(* ===== verification/SessionSpec.v ===== *)
(** * What a plugin session promises

    The stream may arrive in any pieces; a session is a table of calls, each
    waiting, answered or given up; a failure is permanent; and a request
    handed to a peer that reads is answered. *)

From stdpp Require Import gmap.
From S2P Require Import Prelude.
From S2P Require Import Bytes.
From S2P Require Import Value.
From S2P Require Import Session.
Import Channel Frame Session.

(** The trait's contract: a write moves at most what was offered, a read only
    appends, and says how much. *)
Class ChannelLaws (C : Type) `{!Channel C} : Prop := {
  write_some_le bs (c : C) n c' : write_some bs c = (Ok n, c') → n ≤ length bs;
  read_some_appends out (c : C) r out' c' :
    read_some out c = (r, out', c') →
    ∃ got, out' = out ++ got ∧ ∀ n, r = Ok n → n = length got;
}.

#[export] Instance loopback_laws : ChannelLaws Loopback.
Proof.
  split.
  - intros bs c n c'. simpl. unfold loopback_write_some.
    destruct (broken c); intros ?; simplify_eq/=. lia.
  - intros out c r out' c'. simpl. unfold loopback_read_some.
    destruct (broken c); intros ?; simplify_eq/=.
    + exists []. by rewrite app_nil_r.
    + exists (from_peer c). split; [done|]. by intros ? [= <-].
Qed.

Module SessionFacts.

(** ** Decoding a growing buffer *)
Section growing.
Context {T : Type} `{!Serde T}.

Lemma decode_grows (b c : bytes) :
  match decode (T := T) b with
  | Ok None => True
  | r => decode (T := T) (b ++ c) = r
  end.
Proof.
  destruct (decode b) as [[[f n]|]|e] eqn:Hd; [|done|].
  - apply FrameFacts.decode_Some in Hd as (body & Hb & -> & Hn & Hs).
    rewrite Hb, <-app_assoc, FrameFacts.decode_framed by done. by rewrite Hs.
  - revert Hd. unfold decode. case_bool_decide as H1; [done|].
    rewrite length_app, (bool_decide_false (_ + _ < LENGTH_PREFIX)), take_app_le by lia.
    case_bool_decide as H2; [done|]. case_bool_decide as H3; [done|].
    rewrite bool_decide_false by lia.
    rewrite drop_app_le, take_app_le by (rewrite ?length_drop; lia). done.
Qed.

Lemma decode_progress (b : bytes) (f : T) n :
  decode b = Ok (Some (f, n)) → 0 < n ≤ length b ∧ length (drop n b) < length b.
Proof.
  intros (body & Hb & -> & _)%FrameFacts.decode_Some.
  assert (Hl : length (FrameFacts.framed body) ≤ length b) by (rewrite Hb, length_app; lia).
  rewrite length_drop, FrameFacts.framed_length in *. unfold LENGTH_PREFIX in *. lia.
Qed.
End growing.

Section session.
Context {C : Type} `{!Channel C, !Serde Request, !Serde Reply}.
Implicit Types s : Session C.

Definition sorted s : outcome (Session C) (result unit SessionError) :=
  sort (S (length (inbound s))) s.

Definition grow (c : bytes) s : Session C := set_inbound (inbound s ++ c) s.

Lemma file_inbound r b s :
  file r (set_inbound b s) =
  match file r s with Ok s' => Ok (set_inbound b s') | Err e => Err e end.
Proof. unfold file. simpl. by repeat case_match. Qed.

Lemma file_keeps r s s' :
  file r s = Ok s' →
  inbound s' = inbound s ∧ outbound s' = outbound s ∧ channel s' = channel s
  ∧ failed s' = failed s ∧ max_inflight s' = max_inflight s.
Proof. unfold file. by repeat case_match; intros [= <-]. Qed.

(** Enough fuel is the length of what has arrived. *)
Lemma sort_enough fuel s : length (inbound s) < fuel → sort fuel s = sorted s.
Proof.
  unfold sorted. generalize (Nat.lt_succ_diag_r (length (inbound s))).
  generalize (S (length (inbound s))). revert fuel s.
  induction fuel as [|fuel IH]; intros s [|fuel'] H1 H2; try lia. simpl.
  destruct (decode (inbound s)) as [[[r n]|]|e] eqn:Hd; try done.
  apply decode_progress in Hd as [_ Hp].
  destruct (file r _) as [s'|e] eqn:Hf; [|done].
  apply file_keeps in Hf as (Hi & _). simpl in Hi.
  apply IH; rewrite Hi; lia.
Qed.

Lemma sorted_unfold s :
  sorted s =
  match decode (inbound s) with
  | Err e => fails (EFrame e) s
  | Ok None => Ret (Ok tt) s
  | Ok (Some (reply, used)) =>
      match file reply (set_inbound (drop used (inbound s)) s) with
      | Err e => fails e (set_inbound (drop used (inbound s)) s)
      | Ok s => sorted s
      end
  end.
Proof.
  unfold sorted at 1. cbn [sort].
  destruct (decode (inbound s)) as [[[r n]|]|e] eqn:Hd; try done.
  destruct (file r _) as [s'|e] eqn:Hf; [|done].
  apply sort_enough. apply file_keeps in Hf as (-> & _).
  by apply decode_progress in Hd as [_ ?].
Qed.

(** Induction on what has arrived, frame by frame. *)
Lemma sorted_ind (P : Session C → Prop) :
  (∀ s, (∀ r n s', decode (inbound s) = Ok (Some (r, n)) →
           file r (set_inbound (drop n (inbound s)) s) = Ok s' → P s') → P s) →
  ∀ s, P s.
Proof.
  intros Hstep s. remember (length (inbound s)) as k eqn:Hk. revert s Hk.
  induction (lt_wf k) as [k _ IH]. intros s ->. apply Hstep. intros r n s' Hd Hf.
  eapply IH; [|done]. apply file_keeps in Hf as (-> & _).
  by apply decode_progress in Hd as [_ ?].
Qed.

Lemma sorted_channel s r s' :
  sorted s = Ret r s' → channel s' = channel s ∧ outbound s' = outbound s.
Proof.
  revert r s'; induction s as [s IH] using sorted_ind. intros r s'. rewrite sorted_unfold.
  destruct (decode (inbound s)) as [[[q n]|]|e] eqn:Hd.
  - destruct (file q _) as [t|e] eqn:Hf.
    + intros [-> ->]%(IH q n t eq_refl Hf). by apply file_keeps in Hf as (_ & ? & ? & _).
    + intros [= <- <-]. by destruct (failed s).
  - by intros [= _ <-].
  - intros [= <- <-]. by destruct (failed s).
Qed.

(** [sort] always answers. *)
Lemma sorted_total s : ∃ r s', sorted s = Ret r s'.
Proof.
  induction s as [s IH] using sorted_ind. rewrite sorted_unfold.
  destruct (decode (inbound s)) as [[[r n]|]|e] eqn:Hd; [|by eauto..].
  destruct (file r _) as [s'|e] eqn:Hf; [|by unfold fails; eauto]. eauto.
Qed.

(** ** Pieces

    Sorting what has come and then the rest is sorting it all. *)
Lemma fails_eq {A} e s : fails (A := A) e s = Ret (Err e) (fail e s).2.
Proof. done. Qed.

Lemma fail_grow e c s : (fail e (grow c s)).2 = grow c (fail e s).2.
Proof. unfold fail, grow. simpl. by destruct (failed s). Qed.

Lemma file_grow r c s :
  file r (grow c s) = match file r s with Ok s' => Ok (grow c s') | Err e => Err e end.
Proof.
  unfold grow at 1. rewrite file_inbound. destruct (file r s) as [s'|e] eqn:Hf; [|done].
  apply file_keeps in Hf as (Hi & _). unfold grow. by rewrite Hi.
Qed.

Lemma sorted_grow c s :
  match sorted s with
  | Ret (Ok _) s' => sorted (grow c s) = sorted (grow c s')
  | Ret (Err e) s' => sorted (grow c s) = Ret (Err e) (grow c s')
  | _ => False
  end.
Proof.
  induction s as [s IH] using sorted_ind. rewrite (sorted_unfold s).
  pose proof (decode_grows (T := Reply) (inbound s) c) as Hg.
  destruct (decode (inbound s)) as [[[r n]|]|e] eqn:Hd; [|done|].
  - assert (Hn : n ≤ length (inbound s)) by by apply decode_progress in Hd as [[_ ?] _].
    assert (Hin : set_inbound (drop n (inbound (grow c s))) (grow c s)
                  = grow c (set_inbound (drop n (inbound s)) s)).
    { unfold grow. simpl. rewrite drop_app_le by done. by destruct s. }
    destruct (file r (set_inbound (drop n (inbound s)) s)) as [s'|e] eqn:Hf.
    + specialize (IH r n s' eq_refl Hf).
      assert (Hs : sorted (grow c s) = sorted (grow c s')).
      { rewrite (sorted_unfold (grow c s)). simpl (inbound (grow c s)). rewrite Hg.
        simpl in Hin. by rewrite Hin, file_grow, Hf. }
      destruct (sorted s') as [[[]|e] s''| | |]; [by rewrite Hs..|done|done|done].
    + rewrite (sorted_unfold (grow c s)). simpl (inbound (grow c s)). rewrite Hg.
      simpl in Hin. by rewrite Hin, file_grow, Hf, !fails_eq, fail_grow.
  - rewrite (sorted_unfold (grow c s)). simpl (inbound (grow c s)). rewrite Hg, !fails_eq.
    by rewrite fail_grow.
Qed.

(** What a poll does to the calls depends on these fields only. *)
Definition core s := (inbound s, ready s, live s, abandoned s, failed s).
Definition calls s := (ready s, live s, abandoned s, failed s).

Lemma core_inv s1 s2 :
  core s1 = core s2 →
  inbound s1 = inbound s2 ∧ ready s1 = ready s2 ∧ live s1 = live s2
  ∧ abandoned s1 = abandoned s2 ∧ failed s1 = failed s2.
Proof. by intros [= -> -> -> -> ->]. Qed.

Lemma file_core r s1 s2 :
  core s1 = core s2 →
  match file r s1, file r s2 with
  | Ok t1, Ok t2 => core t1 = core t2
  | Err e1, Err e2 => e1 = e2
  | _, _ => False
  end.
Proof.
  intros (Hi & Hr & Hl & Ha & Hf)%core_inv. unfold file. rewrite Hl, Ha.
  destruct (negb _); [done|]. destruct (negb _); [done|].
  destruct (bool_decide _); [unfold core; simpl; congruence|].
  destruct (negb _); [done|]. unfold core; simpl; congruence.
Qed.

Lemma fails_core {A} e s1 s2 :
  core s1 = core s2 →
  ∃ t1 t2, fails (A := A) e s1 = Ret (Err e) t1 ∧ fails (A := A) e s2 = Ret (Err e) t2
    ∧ core t1 = core t2.
Proof.
  intros (Hi & Hr & Hl & Ha & Hf)%core_inv. do 2 eexists. split_and!; [done..|].
  unfold fail. rewrite Hf. destruct (failed s2) eqn:?; unfold core; simpl; congruence.
Qed.

Lemma sorted_core s1 s2 :
  core s1 = core s2 →
  ∃ r t1 t2, sorted s1 = Ret r t1 ∧ sorted s2 = Ret r t2 ∧ core t1 = core t2.
Proof.
  revert s2; induction s1 as [s1 IH] using sorted_ind. intros s2 Hc.
  pose proof (core_inv _ _ Hc) as (Hi & Hr & Hl & Ha & Hf).
  rewrite (sorted_unfold s1), (sorted_unfold s2), <-Hi.
  destruct (decode (inbound s1)) as [[[r n]|]|e] eqn:Hd.
  - set (t1 := set_inbound (drop n (inbound s1)) s1) in *.
    set (t2 := set_inbound (drop n (inbound s1)) s2).
    assert (Ht : core t1 = core t2) by (unfold core; simpl; congruence).
    pose proof (file_core r t1 t2 Ht) as Hfile.
    destruct (file r t1) as [u1|e1] eqn:H1, (file r t2) as [u2|e2]; try done.
    + by apply (IH r n u1).
    + subst e2. destruct (fails_core (A := unit) e1 t1 t2 Ht) as (v1 & v2 & H).
      by exists (Err e1), v1, v2.
  - by exists (Ok tt), s1, s2.
  - destruct (fails_core (A := unit) (EFrame e) s1 s2 Hc) as (v1 & v2 & H).
    by exists (Err (EFrame e)), v1, v2.
Qed.

(** A failed sort leaves the session failed; a successful one does not, and
    leaves less than a frame. *)
Lemma sorted_failed s :
  failed s = None →
  match sorted s with
  | Ret (Ok _) s' => failed s' = None ∧ decode (T := Reply) (inbound s') = Ok None
  | Ret (Err e) s' => failed s' = Some (session_error_text e)
  | _ => False
  end.
Proof.
  induction s as [s IH] using sorted_ind. intros Hf. rewrite sorted_unfold.
  destruct (decode (inbound s)) as [[[r n]|]|e] eqn:Hd.
  - destruct (file r _) as [s'|e] eqn:Hfile.
    + apply (IH r n s'); [done..|]. by apply file_keeps in Hfile as (_ & _ & _ & -> & _).
    + rewrite fails_eq. unfold fail. simpl. by rewrite Hf.
  - done.
  - rewrite fails_eq. unfold fail. by rewrite Hf.
Qed.
End session.

#[global] Arguments sorted {_ _} _ : simpl never.

(** ** The in-memory channel *)
Section loopback.
Context `{!Serde Request, !Serde Reply}.
Implicit Types s : Session Loopback.

Definition put (bs : bytes) s : Session Loopback := set_channel (peer_put bs (channel s)) s.

(** How much a flush of a working loopback moves. *)
Lemma flush_loopback fuel s :
  broken (channel s) = None → length (outbound s) < fuel →
  ∃ k, k ≤ length (outbound s) ∧
    flush fuel s = Ret (Ok tt)
      (set_outbound (drop k (outbound s))
        (set_channel (MkLoopback (to_peer (channel s) ++ take k (outbound s))
                        (from_peer (channel s)) (write_limit (channel s))
                        (capacity (channel s)) None) s))
    ∧ (write_limit (channel s) ≠ Some 0 → k < length (outbound s) →
       ∃ cap, capacity (channel s) = Some cap ∧ cap ≤ length (to_peer (channel s)) + k).
Proof.
  revert s; induction fuel as [|fuel IH]; intros s Hb Hlt; [lia|]. cbn [flush].
  destruct (outbound s) as [|b out] eqn:Ho.
  { exists 0. split; [done|]. split; [|simpl; lia]. destruct s as [[]]; simpl in *.
    by rewrite app_nil_r, <-Hb, Ho. }
  assert (Hpos : 0 < length (outbound s)) by (rewrite Ho; simpl; lia).
  rewrite <-Ho in *. simpl. unfold loopback_write_some at 1. rewrite Hb. simpl.
  set (room := match capacity (channel s) with Some cap => _ | None => _ end).
  set (n := min _ room).
  destruct n as [|n'] eqn:Hn.
  - exists 0. split; [lia|]. split; [by destruct s|]. intros Hw _.
    assert (Hroom : room = 0).
    { subst n. destruct (write_limit (channel s)) as [[|w]|]; cbn [from_option id] in Hn; [done|lia..]. }
    subst room. destruct (capacity (channel s)) as [cap|]; [|lia].
    exists cap. split; [done|]. lia.
  - assert (Hle : S n' ≤ length (outbound s)) by (subst n; lia).
    rewrite bool_decide_false by lia.
    set (s1 := set_outbound _ _).
    destruct (IH s1) as (k & Hk & Hf & Hroom); [done| |].
    { simpl. rewrite length_drop. lia. }
    simpl in Hk, Hf, Hroom. rewrite length_drop in Hk, Hroom.
    exists (S n' + k). split; [lia|]. split.
    + rewrite Hf. unfold set_outbound, set_channel. simpl.
      by rewrite <-app_assoc, take_take_drop, drop_drop.
    + intros Hw Hlt'. destruct Hroom as (cap & Hc & Hle'); [done|lia|].
      exists cap. split; [done|]. rewrite length_app, length_take in Hle'. lia.
Qed.

Definition working s : Prop := failed s = None ∧ broken (channel s) = None.

(** A poll of a working loopback writes what it can, reads all there is and
    sorts. *)
Lemma poll_loopback fuel s :
  working s → 2 ≤ fuel →
  ∃ k, k ≤ length (outbound s) ∧
    poll fuel s = sorted
      (set_inbound (inbound s ++ from_peer (channel s))
        (set_outbound (drop k (outbound s))
          (set_channel (MkLoopback (to_peer (channel s) ++ take k (outbound s)) []
                          (write_limit (channel s)) (capacity (channel s)) None) s)))
    ∧ (write_limit (channel s) ≠ Some 0 → k < length (outbound s) →
       ∃ cap, capacity (channel s) = Some cap ∧ cap ≤ length (to_peer (channel s)) + k).
Proof.
  intros [Hf Hb] Hfuel.
  destruct (flush_loopback (S (length (outbound s))) s Hb) as (k & Hk & Hfl & Hroom); [lia|].
  exists k. split; [done|]. split; [|done].
  unfold poll, check_failed. rewrite Hf, Hfl.
  destruct fuel as [|[|fuel]]; [lia..|]. cbn [fill read_some loopback_channel].
  unfold loopback_read_some. simpl.
  destruct (from_peer (channel s)) as [|b bs] eqn:Hp; [done|]. simpl.
  by rewrite app_nil_r.
Qed.

Lemma poll_failed fuel s why :
  failed s = Some why → poll fuel s = Ret (Err (EChannel (Broken why))) s.
Proof. intros Hf. unfold poll, check_failed. by rewrite Hf. Qed.

(** Polls of a loopback whose peer writes the pieces in turn. *)
Fixpoint pieces (fuel : nat) (cs : list bytes) s : outcome (Session Loopback) unit :=
  match cs with
  | [] => Ret tt s
  | c :: cs' =>
      match poll fuel (put c s) with
      | Ret _ s' => pieces fuel cs' s'
      | Panic => Panic
      | Overflow => Overflow
      | OutOfFuel => OutOfFuel
      end
  end.

(** Nothing is waiting to be read, and what has been read is not a frame
    yet. *)
Definition idle s : Prop :=
  working s ∧ from_peer (channel s) = [] ∧ decode (T := Reply) (inbound s) = Ok None.

Lemma pieces_failed fuel cs s why :
  failed s = Some why → ∃ s', pieces fuel cs s = Ret tt s' ∧ calls s' = calls s.
Proof.
  revert s; induction cs as [|c cs IH]; intros s Hf; [by exists s|]. simpl.
  rewrite (poll_failed _ _ why) by done.
  destruct (IH (put c s) Hf) as (s' & Hs & Hc). by exists s'.
Qed.

(** A poll of what one piece brings, up to what does not bear on the calls. *)
Lemma poll_put fuel c s :
  idle s → 2 ≤ fuel →
  ∃ r s1 s2, poll fuel (put c s) = Ret r s1 ∧ sorted (grow c s) = Ret r s2 ∧ core s1 = core s2
    ∧ broken (channel s1) = None ∧ from_peer (channel s1) = [].
Proof.
  intros ((Hf & Hb) & Hp & _) Hfuel.
  destruct (poll_loopback fuel (put c s)) as (k & _ & Hpoll & _); [done..|].
  simpl in Hpoll. rewrite Hp in Hpoll. simpl in Hpoll.
  set (s0 := set_inbound _ _) in Hpoll.
  destruct (sorted_core s0 (grow c s)) as (r & t1 & t2 & H1 & H2 & Hc); [done|].
  exists r, t1, t2. rewrite Hpoll. split_and!; [done..| |].
  all: destruct (sorted_channel s0 r t1 H1) as [-> _]; done.
Qed.

Lemma core_calls s1 s2 : core s1 = core s2 → calls s1 = calls s2.
Proof. by intros (_ & Hr & Hl & Ha & Hf)%core_inv; unfold calls; rewrite Hr, Hl, Ha, Hf. Qed.

Lemma grow_core c s1 s2 : core s1 = core s2 → core (grow c s1) = core (grow c s2).
Proof.
  intros (Hi & Hr & Hl & Ha & Hf)%core_inv. unfold core, grow. simpl. congruence.
Qed.

Lemma grow_grow c d s : grow d (grow c s) = grow (c ++ d) s.
Proof. unfold grow, set_inbound. simpl. by rewrite app_assoc. Qed.

(** How the bytes were cut up does not matter to a live session. *)
Lemma pieces_same fuel cs s :
  idle s → 2 ≤ fuel →
  ∃ r s1 s2, poll fuel (put (concat cs) s) = Ret r s1 ∧ pieces fuel cs s = Ret tt s2
    ∧ calls s1 = calls s2.
Proof.
  intros Hidle Hfuel. revert s Hidle; induction cs as [|c cs IH]; intros s Hidle; simpl.
  - destruct (poll_put fuel [] s Hidle Hfuel) as (r & s1 & s2 & Hp & Hs & Hc & _).
    exists r, s1, s. split_and!; [done..|].
    assert (Hg : grow [] s = s) by (unfold grow; rewrite app_nil_r; by destruct s).
    rewrite Hg, sorted_unfold in Hs. destruct Hidle as (_ & _ & Hd). rewrite Hd in Hs.
    apply core_calls in Hc. by injection Hs as <- <-.
  - destruct (poll_put fuel c s Hidle Hfuel) as (r & s1 & s2 & Hp & Hs & Hc & Hb & Hfp).
    destruct (poll_put fuel (c ++ concat cs) s Hidle Hfuel)
      as (r' & s1' & s2' & Hp' & Hs' & Hc' & _).
    rewrite Hp, Hp'. rewrite <-grow_grow in Hs'.
    pose proof (sorted_grow (concat cs) (grow c s)) as Hg. rewrite Hs, Hs' in Hg.
    pose proof (sorted_failed (grow c s) (proj1 (proj1 Hidle))) as Hfail. rewrite Hs in Hfail.
    pose proof (core_inv _ _ Hc) as (Hi & _ & _ & _ & Hf).
    destruct r as [[]|e].
    + destruct Hfail as [Hnone Hdec].
      assert (Hidle1 : idle s1) by (unfold idle, working; rewrite Hi, Hf; auto).
      destruct (IH s1 Hidle1) as (r3 & t1 & t2 & Ht1 & Ht2 & Hcalls).
      exists r', s1', t2. split_and!; [done..|]. rewrite <-Hcalls.
      destruct (poll_put fuel (concat cs) s1 Hidle1 Hfuel) as (r4 & u1 & u2 & Hu1 & Hu2 & Hcu & _).
      rewrite Ht1 in Hu1. injection Hu1 as <- <-.
      destruct (sorted_core _ _ (grow_core (concat cs) _ _ Hc)) as (r5 & v1 & v2 & Hv1 & Hv2 & Hv).
      rewrite Hu2 in Hv1. injection Hv1 as <- <-.
      rewrite <-Hg in Hv2. injection Hv2 as <- <-.
      rewrite (core_calls _ _ Hc'), (core_calls _ _ Hcu). by rewrite (core_calls _ _ Hv).
    + injection Hg as -> ->. rewrite Hfail in Hf.
      destruct (pieces_failed fuel cs s1 _ Hf) as (s3 & Hs3 & Hc3).
      exists (Err e), s1', s3. split_and!; [done..|].
      rewrite Hc3, (core_calls _ _ Hc'), (core_calls _ _ Hc). done.
Qed.

(** However the bytes are cut into pieces, the calls end up as if they had
    come at once. *)
Theorem pieces_irrelevant fuel cs s :
  idle s → 2 ≤ fuel →
  ∃ r s1 s2, poll fuel (put (concat cs) s) = Ret r s1 ∧ pieces fuel cs s = Ret tt s2
    ∧ calls s1 = calls s2.
Proof. apply pieces_same. Qed.
End loopback.
End SessionFacts.
