(* ===== verification/SessionTable.v ===== *)
(** * A plugin session is a table of calls

    The abstract specification of [Session]: one slot per call, waiting,
    answered or given up, and what each operation does to the slots.  Every
    run of a session is a run of the table ([session_refines_table]), so
    what holds of the table holds of the session: an answer goes to the call
    it answers, once.

    ** A call to a peer that reads and answers completes

    However little the peer's buffer holds at a time and in whatever pieces
    its answer comes. *)

From stdpp Require Import gmap.
From S2P Require Import Prelude.
From S2P Require Import Bytes.
From S2P Require Import Value.
From S2P Require Import Session.
From S2P Require Import SessionSpec.

Import Channel Frame Session SessionFacts.

Module CallTable.

(** ** The specification *)
Inductive Slot := Waiting | Landed (r : Reply) | GivenUp.
Abbreviation table := (gmap N Slot).

Definition t_reply (r : Reply) (t : table) : option table :=
  if negb (bool_decide (rp_version r = PROTOCOL_VERSION)) || negb (rp_is_final r) then None
  else match t !! rp_id r with
       | None => None
       | Some GivenUp => Some (delete (rp_id r) t)
       | Some _ => Some (<[rp_id r := Landed r]> t)
       end.

Fixpoint t_replies (rs : list Reply) (t : table) : option table :=
  match rs with
  | [] => Some t
  | r :: rs' => t' ← t_reply r t; t_replies rs' t'
  end.

Definition t_take (id : N) (t : table) : option Reply * table :=
  match t !! id with
  | Some (Landed r) => (Some r, delete id t)
  | _ => (None, t)
  end.

Definition t_abandon (id : N) (t : table) : table :=
  match t !! id with
  | Some Waiting | Some (Landed _) => <[id := GivenUp]> t
  | _ => t
  end.

Definition outstanding (sl : N * Slot) : Prop := sl.2 ≠ GivenUp.
#[export] Instance outstanding_dec sl : Decision (outstanding sl).
Proof. unfold outstanding. destruct sl.2; [left|left|right]; naive_solver. Defined.

Definition t_in_flight (t : table) : nat := size (filter outstanding t).
Definition t_full (m : nat) (t : table) : bool :=
  negb (bool_decide (m = 0)) && bool_decide (m ≤ t_in_flight t).

Inductive label :=
  | LBegin (id : N)
  | LSaturated
  | LPoll (rs : list Reply)
  | LTake (id : N) (r : option Reply)
  | LAbandon (id : N)
  | LOther.

(** One step of the table. *)
Inductive t_step (m : nat) (t : table) : label → table → Prop :=
  | T_begin id : t_full m t = false → t !! id = None → t_step m t (LBegin id) (<[id := Waiting]> t)
  | T_saturated : t_full m t = true → t_step m t LSaturated t
  | T_poll rs t' : t_replies rs t = Some t' → t_step m t (LPoll rs) t'
  | T_take id : t_step m t (LTake id (t_take id t).1) (t_take id t).2
  | T_abandon id : t_step m t (LAbandon id) (t_abandon id t)
  | T_other : t_step m t LOther t.

Inductive t_run (m : nat) : table → list label → table → Prop :=
  | T_nil t : t_run m t [] t
  | T_cons t l t1 ls t2 : t_step m t l t1 → t_run m t1 ls t2 → t_run m t (l :: ls) t2.

Lemma t_run_snoc m t ls t1 l t2 :
  t_run m t ls t1 → t_step m t1 l t2 → t_run m t (ls ++ [l]) t2.
Proof.
  induction 1 as [|t l' t1 ls t2' Hs Hr IH]; intros H; simpl; econstructor; eauto using T_nil.
Qed.

Lemma t_step_take m t id r t' :
  t_step m t (LTake id r) t' → r = (t_take id t).1 ∧ t' = (t_take id t).2.
Proof. by inversion 1. Qed.

Lemma t_run_snoc_inv m t ls l t2 :
  t_run m t (ls ++ [l]) t2 → ∃ t1, t_run m t ls t1 ∧ t_step m t1 l t2.
Proof.
  revert t; induction ls as [|l' ls IH]; intros t Hr; inversion Hr; subst.
  - match goal with H : t_run _ _ [] _ |- _ => inversion H; subst end.
    exists t. split; [constructor|done].
  - match goal with H : t_run _ _ (_ ++ _) _ |- _ => destruct (IH _ H) as (t3 & ? & ?) end.
    exists t3. split; [by econstructor|done].
Qed.
End CallTable.

Module Refinement.
Import CallTable.

Section session.
Context {C : Type} `{!Channel C, !Serde Request, !Serde Reply}.
Implicit Types s : Session C.

Lemma lookup_gset_to_gmap_decide {A} (x : A) (X : gset N) i :
  gset_to_gmap x X !! i = if decide (i ∈ X) then Some x else None.
Proof.
  case_decide; [by apply lookup_gset_to_gmap_Some|by apply lookup_gset_to_gmap_None].
Qed.

(** The replies at the front of a buffer. *)
Fixpoint replies_go (fuel : nat) (b : bytes) : list Reply :=
  match fuel with
  | 0 => []
  | S fuel' =>
      match decode (T := Reply) b with
      | Ok (Some (r, n)) => r :: replies_go fuel' (drop n b)
      | _ => []
      end
  end.
Definition replies (b : bytes) : list Reply := replies_go (S (length b)) b.

(** What a poll reads: the buffer its sorting starts from. *)
Definition received (fuel : nat) s : bytes :=
  match flush (S (length (outbound s))) s with
  | Ret (Ok _) s1 => match fill fuel s1 with Ret _ s2 => inbound s2 | _ => [] end
  | _ => []
  end.

(** Runs of a session beside the process's counter, which calls of other
    sessions move on too; the peer changes its end of the channel when it
    likes. *)
Inductive step : Session C * N → label → Session C * N → Prop :=
  | S_begin target args s n id n' s' :
      begin_ target args n s = (Ok id, n', s') → (n + 1 < 2 ^ 64)%N →
      step (s, n) (LBegin id) (s', n')
  | S_saturated target args s n k n' s' :
      begin_ target args n s = (Err (Saturated k), n', s') →
      step (s, n) LSaturated (s', n')
  | S_poll fuel s n s' :
      poll fuel s = Ret (Ok tt) s' → step (s, n) (LPoll (replies (received fuel s))) (s', n)
  | S_take id s n r s' :
      take_ id s = (Ok r, s') → step (s, n) (LTake id r) (s', n)
  | S_abandon id s n : step (s, n) (LAbandon id) (abandon id s, n)
  | S_other s n n' : (n ≤ n' < 2 ^ 64)%N → step (s, n) LOther (s, n')
  | S_peer s n ch : step (s, n) LOther (set_channel ch s, n).

Inductive run : Session C * N → list label → Session C * N → Prop :=
  | R_nil c : run c [] c
  | R_snoc c ls c1 l c2 : run c ls c1 → step c1 l c2 → run c (ls ++ [l]) c2.

(** The slots of a session. *)
Definition abs s : table :=
  (Landed <$> ready s) ∪ gset_to_gmap Waiting (live s) ∪ gset_to_gmap GivenUp (abandoned s).

Record wf s : Prop := {
  wf_ready : dom (ready s) ⊆ live s;
  wf_apart : live s ## abandoned s;
}.

Lemma lookup_abs s i :
  abs s !! i =
  match ready s !! i with
  | Some r => Some (Landed r)
  | None => if decide (i ∈ live s) then Some Waiting
            else if decide (i ∈ abandoned s) then Some GivenUp else None
  end.
Proof.
  unfold abs. rewrite 2!lookup_union, lookup_fmap, !lookup_gset_to_gmap_decide.
  destruct (ready s !! i); repeat case_decide; done.
Qed.

Lemma wf_ready_live s i r : wf s → ready s !! i = Some r → i ∈ live s.
Proof. intros H Hr. apply (wf_ready s H). by eapply elem_of_dom_2. Qed.

Lemma replies_unfold b :
  replies b = match decode (T := Reply) b with
              | Ok (Some (r, n)) => r :: replies (drop n b)
              | _ => []
              end.
Proof.
  assert (Hgo : ∀ f1 f2 b, length b < f1 → length b < f2 → replies_go f1 b = replies_go f2 b).
  { induction f1 as [|f1 IH]; intros [|f2] b' H1 H2; try lia. simpl.
    destruct (decode b') as [[[r n]|]|] eqn:Hd; try done.
    apply decode_progress in Hd as [_ Hp]. f_equal. apply IH; lia. }
  unfold replies at 1. cbn [replies_go].
  destruct (decode b) as [[[r n]|]|] eqn:Hd; try done.
  apply decode_progress in Hd as [_ Hp]. f_equal. apply Hgo; lia.
Qed.

Lemma file_table r s s' :
  wf s → file r s = Ok s' → wf s' ∧ t_reply r (abs s) = Some (abs s').
Proof.
  intros Hwf. unfold file, t_reply.
  destruct (negb _); [done|]. destruct (negb _); [done|]. simpl.
  rewrite lookup_abs. case_bool_decide as Hab.
  - intros [= <-].
    assert (Hnl : rp_id r ∉ live s) by (pose proof (wf_apart s Hwf); set_solver).
    assert (Hnr : ready s !! rp_id r = None).
    { destruct (ready s !! rp_id r) eqn:E; [|done]. by apply wf_ready_live in E. }
    rewrite Hnr, decide_False, decide_True by done. split.
    + destruct Hwf as [H1 H2]. split; simpl; set_solver.
    + f_equal. apply map_eq. intros i. rewrite lookup_abs. simpl.
      destruct (decide (i = rp_id r)) as [->|Hne].
      * rewrite lookup_delete_eq, Hnr, !decide_False by set_solver. done.
      * rewrite lookup_delete_ne, lookup_abs by done. destruct (ready s !! i); [done|].
        destruct (decide (i ∈ live s)); [done|]. apply decide_ext. set_solver.
  - destruct (bool_decide (rp_id r ∈ live s)) eqn:Hl; simpl; [|done].
    apply bool_decide_eq_true in Hl. intros [= <-]. split.
    + destruct Hwf as [H1 H2]. split; simpl; [|done]. rewrite dom_insert. set_solver.
    + assert (Hs : ∀ o, o = Some Waiting ∨ (∃ r0, o = Some (Landed r0)) →
                match o with
                | Some GivenUp => Some (delete (rp_id r) (abs s))
                | Some _ => Some (<[rp_id r := Landed r]> (abs s))
                | None => None
                end = Some (<[rp_id r := Landed r]> (abs s))) by naive_solver.
      rewrite Hs by (destruct (ready s !! rp_id r); [eauto|rewrite decide_True by done; eauto]).
      f_equal. apply map_eq. intros i. rewrite lookup_abs. simpl.
      destruct (decide (i = rp_id r)) as [->|Hne].
      * by rewrite !lookup_insert_eq.
      * by rewrite !lookup_insert_ne, lookup_abs by done.
Qed.

Lemma sorted_table s s' :
  wf s → sorted s = Ret (Ok tt) s' →
  wf s' ∧ t_replies (replies (inbound s)) (abs s) = Some (abs s').
Proof.
  revert s'; induction s as [s IH] using sorted_ind. intros s' Hwf.
  rewrite sorted_unfold, replies_unfold.
  destruct (decode (inbound s)) as [[[r n]|]|e] eqn:Hd; [|by intros [= <-]|done].
  destruct (file r _) as [s1|e] eqn:Hf; [|done]. intros Hs.
  pose proof (file_keeps _ _ _ Hf) as (Hi & _). simpl in Hi.
  assert (Hwf0 : wf (set_inbound (drop n (inbound s)) s)) by (destruct Hwf; by split).
  destruct (file_table r _ _ Hwf0 Hf) as [Hwf1 Ht].
  destruct (IH r n s1 eq_refl Hf s' Hwf1 Hs) as [Hwf' Hts]. split; [done|].
  simpl. change (abs (set_inbound (drop n (inbound s)) s)) with (abs s) in Ht.
  by rewrite Ht, <-Hi.
Qed.

(** What leaves the calls alone. *)
Definition same_calls s s' : Prop :=
  ready s' = ready s ∧ live s' = live s ∧ abandoned s' = abandoned s
  ∧ max_inflight s' = max_inflight s.

Lemma same_calls_abs s s' : same_calls s s' → abs s' = abs s.
Proof. intros (Hr & Hl & Ha & _). unfold abs. by rewrite Hr, Hl, Ha. Qed.

Lemma same_calls_wf s s' : same_calls s s' → wf s → wf s'.
Proof. intros (Hr & Hl & Ha & _) [H1 H2]. split; by rewrite ?Hr, Hl, ?Ha. Qed.

Lemma flush_calls fuel s r s' :
  flush fuel s = Ret r s' → same_calls s s' ∧ (r = Ok tt → failed s' = failed s).
Proof.
  revert s; induction fuel as [|fuel IH]; intros s; [done|]. cbn [flush].
  destruct (outbound s) eqn:Ho; [by intros [= <- <-]|]. rewrite <-Ho.
  destruct (write_some _ _) as [[[|n]|e] c].
  - by intros [= <- <-].
  - case_bool_decide; [done|]. intros H'%IH. exact H'.
  - unfold fails, fail. intros [= <- <-]. split; [by destruct (failed _)|done].
Qed.

Lemma fill_calls fuel s r s' :
  fill fuel s = Ret r s' → same_calls s s' ∧ (r = Ok tt → failed s' = failed s).
Proof.
  revert s; induction fuel as [|fuel IH]; intros s; [done|]. cbn [fill].
  destruct (read_some _ _) as [[[[|n]|e] inb] c].
  - by intros [= <- <-].
  - intros H'%IH. exact H'.
  - unfold fails, fail. intros [= <- <-]. split; [by destruct (failed _)|done].
Qed.

Lemma flush_fails fuel s e s' :
  failed s = None → flush fuel s = Ret (Err e) s' → failed s' = Some (session_error_text e).
Proof.
  revert s; induction fuel as [|fuel IH]; intros s Hf; [done|]. cbn [flush].
  destruct (outbound s) eqn:Ho; [done|]. rewrite <-Ho.
  destruct (write_some _ _) as [[[|n]|q] c]; [done| |].
  - case_bool_decide; [done|]. by apply IH.
  - unfold fails, fail. simpl. rewrite Hf. by intros [= <- <-].
Qed.

Lemma fill_fails fuel s e s' :
  failed s = None → fill fuel s = Ret (Err e) s' → failed s' = Some (session_error_text e).
Proof.
  revert s; induction fuel as [|fuel IH]; intros s Hf; [done|]. cbn [fill].
  destruct (read_some _ _) as [[[[|n]|q] inb] c]; [done| |].
  - by apply IH.
  - unfold fails, fail. simpl. rewrite Hf. by intros [= <- <-].
Qed.

Lemma file_max r s s' : file r s = Ok s' → max_inflight s' = max_inflight s.
Proof. by intros (_ & _ & _ & _ & ->)%file_keeps. Qed.

Lemma sorted_max s r s' : sorted s = Ret r s' → max_inflight s' = max_inflight s.
Proof.
  revert s'; induction s as [s IH] using sorted_ind. intros s'. rewrite sorted_unfold.
  destruct (decode (inbound s)) as [[[q n]|]|e] eqn:Hd; [|by intros [= _ <-]|].
  - destruct (file q _) as [s1|e] eqn:Hf.
    + intros Hs. rewrite (IH q n s1 eq_refl Hf s' Hs). by rewrite (file_max _ _ _ Hf).
    + unfold fails, fail. intros [= _ <-]. by destruct (failed _).
  - unfold fails, fail. intros [= _ <-]. by destruct (failed _).
Qed.

Lemma poll_table fuel s s' :
  wf s → poll fuel s = Ret (Ok tt) s' →
  wf s' ∧ max_inflight s' = max_inflight s ∧ t_replies (replies (received fuel s)) (abs s) = Some (abs s').
Proof.
  intros Hwf. unfold poll, received. destruct (check_failed s) as [[]|]; [|done].
  destruct (flush _ s) as [[[]|e] s1| | |] eqn:Hfl; try done.
  destruct (fill fuel s1) as [[[]|e] s2| | |] eqn:Hfi; try done.
  apply flush_calls in Hfl as [Hc1 _]. apply fill_calls in Hfi as [Hc2 _].
  intros Hs. fold (sorted s2) in Hs.
  destruct (sorted_table s2 s') as [Hwf' Ht]; [|done|].
  { eauto using same_calls_wf. }
  split; [done|]. split.
  - rewrite (sorted_max _ _ _ Hs). destruct Hc1 as (_ & _ & _ & <-), Hc2 as (_ & _ & _ & <-). done.
  - by rewrite <-(same_calls_abs s s1), <-(same_calls_abs s1 s2).
Qed.

Lemma filter_abs s : wf s → dom (filter outstanding (abs s)) = live s.
Proof.
  intros Hwf. apply set_eq. intros i. rewrite elem_of_dom. split.
  - intros [sl (Hl & Ho)%map_lookup_filter_Some]. rewrite lookup_abs in Hl.
    destruct (ready s !! i) eqn:Hr; [by eapply wf_ready_live|].
    destruct (decide (i ∈ live s)); [done|].
    destruct (decide (i ∈ abandoned s)); [|done]. injection Hl as <-. by destruct Ho.
  - intros Hi. destruct (ready s !! i) as [r|] eqn:Hr.
    + exists (Landed r). apply map_lookup_filter_Some. split; [|done]. by rewrite lookup_abs, Hr.
    + exists Waiting. apply map_lookup_filter_Some. split; [|done].
      by rewrite lookup_abs, Hr, decide_True.
Qed.

Lemma in_flight_abs s : wf s → t_in_flight (abs s) = in_flight s.
Proof. intros Hwf. unfold t_in_flight, in_flight. by rewrite <-size_dom, filter_abs. Qed.

Lemma abs_set_calls s rd lv ab i :
  abs (set_calls rd lv ab s) !! i =
  match rd !! i with
  | Some r => Some (Landed r)
  | None => if decide (i ∈ lv) then Some Waiting
            else if decide (i ∈ ab) then Some GivenUp else None
  end.
Proof. apply lookup_abs. Qed.

Lemma begin_table target args n s id n' s' :
  wf s → abs s !! n = None → begin_ target args n s = (Ok id, n', s') →
  id = n ∧ n' = ((n + 1) `mod` 2 ^ 64)%N ∧ wf s' ∧ max_inflight s' = max_inflight s
  ∧ t_full (max_inflight s) (abs s) = false ∧ abs s' = <[id := Waiting]> (abs s).
Proof.
  intros Hwf Hfree. unfold begin_, t_full. rewrite in_flight_abs by done. unfold in_flight.
  destruct (check_failed s); [|done]. destruct (_ && _) eqn:Hfull; [done|].
  unfold next_wire_id. destruct (encode _) as [bs|e]; [|done]. intros [= <- <- <-].
  rewrite lookup_abs in Hfree.
  destruct (ready s !! n) eqn:Hr; [done|]. destruct (decide (n ∈ live s)); [done|].
  destruct (decide (n ∈ abandoned s)); [done|].
  split_and!; [done..| |done|done|].
  - destruct Hwf as [H1 H2]. split; simpl; set_solver.
  - apply map_eq. intros i. rewrite abs_set_calls. simpl.
    destruct (decide (i = n)) as [->|Hne].
    + by rewrite Hr, lookup_insert_eq, decide_True by set_solver.
    + rewrite lookup_insert_ne, lookup_abs by done. destruct (ready s !! i); [done|].
      rewrite (decide_ext (i ∈ live s ∪ {[n]}) (i ∈ live s)) by set_solver. done.
Qed.

Lemma saturated_table target args n s k n' s' :
  wf s → begin_ target args n s = (Err (Saturated k), n', s') →
  n' = n ∧ s' = s ∧ t_full (max_inflight s) (abs s) = true.
Proof.
  intros Hwf. unfold begin_, t_full. rewrite in_flight_abs by done. unfold in_flight, check_failed.
  destruct (failed s); [done|]. destruct (_ && _) eqn:Hfull; [by intros [= _ <- <-]|].
  unfold next_wire_id. destruct (encode _) as [bs|e]; done.
Qed.

Lemma take_table id s r s' :
  wf s → take_ id s = (Ok r, s') →
  wf s' ∧ max_inflight s' = max_inflight s ∧ r = (t_take id (abs s)).1
  ∧ abs s' = (t_take id (abs s)).2.
Proof.
  intros Hwf. unfold take_, t_take. destruct (check_failed s); [|done]. rewrite lookup_abs.
  destruct (ready s !! id) as [q|] eqn:Hr; intros [= <- <-].
  - split_and!; [|done|done|].
    + destruct Hwf as [H1 H2]. split; simpl; [|set_solver]. rewrite dom_delete. set_solver.
    + apply map_eq. intros i. rewrite abs_set_calls. simpl.
      assert (Hl : id ∈ live s) by by eapply wf_ready_live.
      assert (Ha : id ∉ abandoned s) by (pose proof (wf_apart s Hwf); set_solver).
      destruct (decide (i = id)) as [->|Hne].
      * by rewrite !lookup_delete_eq, !decide_False by set_solver.
      * rewrite !lookup_delete_ne, lookup_abs by done. destruct (ready s !! i); [done|].
        rewrite (decide_ext (i ∈ live s ∖ {[id]}) (i ∈ live s)) by set_solver. done.
  - split_and!; [done..| |]; by repeat case_decide.
Qed.

Lemma abandon_table id s :
  wf s → wf (abandon id s) ∧ max_inflight (abandon id s) = max_inflight s
  ∧ abs (abandon id s) = t_abandon id (abs s).
Proof.
  intros Hwf. unfold abandon, t_abandon. rewrite lookup_abs.
  destruct (bool_decide (id ∈ live s)) eqn:Hl.
  - apply bool_decide_eq_true in Hl. split_and!; [|done|].
    + destruct Hwf as [H1 H2]. split; simpl; [rewrite dom_delete|]; set_solver.
    + assert (Hm : ∀ o : option Slot, o = Some Waiting ∨ (∃ r, o = Some (Landed r)) →
                match o with
                | Some Waiting | Some (Landed _) => <[id := GivenUp]> (abs s)
                | _ => abs s
                end = <[id := GivenUp]> (abs s)) by naive_solver.
      rewrite Hm by (destruct (ready s !! id); [eauto|rewrite decide_True by done; eauto]).
      apply map_eq. intros i. rewrite abs_set_calls. simpl.
      destruct (decide (i = id)) as [->|Hne].
      * by rewrite lookup_delete_eq, lookup_insert_eq, decide_False, decide_True by set_solver.
      * rewrite lookup_delete_ne, lookup_insert_ne, lookup_abs by done.
        destruct (ready s !! i); [done|].
        rewrite (decide_ext (i ∈ live s ∖ {[id]}) (i ∈ live s)) by set_solver.
        by rewrite (decide_ext (i ∈ abandoned s ∪ {[id]}) (i ∈ abandoned s)) by set_solver.
  - apply bool_decide_eq_false in Hl.
    assert (Hr : ready s !! id = None).
    { destruct (ready s !! id) eqn:E; [|done]. by apply wf_ready_live in E. }
    assert (Hd : delete id (ready s) = ready s) by by apply delete_id.
    rewrite Hd, Hr, decide_False by done. split_and!; [by destruct Hwf|done|].
    by destruct (decide (id ∈ abandoned s)).
Qed.

Lemma begin_eq target args n s id n' s' :
  begin_ target args n s = (Ok id, n', s') → id = n ∧ n' = ((n + 1) `mod` 2 ^ 64)%N.
Proof.
  unfold begin_. destruct (check_failed s); [|done]. destruct (_ && _); [done|].
  unfold next_wire_id. destruct (encode _); [|done]. by intros [= <- <- _].
Qed.

(** The counter is ahead of every call. *)
Record good (m : nat) (c : Session C * N) : Prop := {
  good_wf : wf c.1;
  good_max : max_inflight c.1 = m;
  good_ids : ∀ i, is_Some (abs c.1 !! i) → (i < c.2)%N;
  good_counter : (c.2 < 2 ^ 64)%N;
}.

Lemma t_reply_dom r t t' i : t_reply r t = Some t' → is_Some (t' !! i) → is_Some (t !! i).
Proof.
  unfold t_reply. destruct (_ || _); [done|].
  destruct (t !! rp_id r) as [[| |]|] eqn:Hl; intros [= <-]; try done;
    destruct (decide (i = rp_id r)) as [->|Hne]; rewrite ?Hl; try by eauto.
  - by rewrite lookup_insert_ne.
  - by rewrite lookup_insert_ne.
  - by rewrite lookup_delete_ne.
Qed.

Lemma t_replies_dom rs t t' i : t_replies rs t = Some t' → is_Some (t' !! i) → is_Some (t !! i).
Proof.
  revert t; induction rs as [|r rs IH]; intros t; simpl; [by intros [= ->]|].
  destruct (t_reply r t) as [t1|] eqn:Ht; [|done]. simpl. intros H1 H2.
  eapply t_reply_dom; [done|]. by eapply IH.
Qed.

Lemma step_table m c l c' :
  good m c → step c l c' → good m c' ∧ t_step m (abs c.1) l (abs c'.1).
Proof.
  intros [Hwf <- Hids Hn] Hstep. destruct Hstep; simpl in *.
  - assert (Hfree : abs s !! n = None).
    { destruct (abs s !! n) eqn:E; [|done]. specialize (Hids n (mk_is_Some _ _ E)). lia. }
    destruct (begin_table _ _ _ _ _ _ _ Hwf Hfree H) as (-> & -> & Hwf' & Hm & Hfull & Ha).
    rewrite N.mod_small by done. split; [|rewrite Ha; by constructor]. split; simpl; [done..| |done].
    intros i. rewrite Ha. destruct (decide (i = n)) as [->|]; [lia|].
    rewrite lookup_insert_ne by done. intros ?%Hids. lia.
  - destruct (saturated_table _ _ _ _ _ _ _ Hwf H) as (-> & -> & Hfull).
    split; [done|]. by constructor.
  - destruct (poll_table _ _ _ Hwf H) as (Hwf' & Hm & Ht). split; [|by constructor].
    split; simpl; [done..| |done]. intros i Hi. apply Hids. by eapply t_replies_dom.
  - destruct (take_table _ _ _ _ Hwf H) as (Hwf' & Hm & -> & Ha). split; [|rewrite Ha; constructor].
    split; simpl; [done..| |done]. intros i. rewrite Ha. unfold t_take.
    destruct (abs s !! id) as [[| |]|]; auto.
    simpl. rewrite lookup_delete_is_Some. naive_solver.
  - destruct (abandon_table id s Hwf) as (Hwf' & Hm & Ha). split; [|rewrite Ha; constructor].
    split; simpl; [done..| |done]. intros i. rewrite Ha. unfold t_abandon.
    destruct (abs s !! id) as [[| |]|] eqn:Hid; auto;
      (destruct (decide (i = id)) as [->|]; [intros _; apply Hids; by eexists|by rewrite lookup_insert_ne; auto]).
  - split; [|by constructor]. split; simpl; [done..| |lia]. intros i ?%Hids. lia.
  - split; [|by constructor]. split; simpl; [by destruct Hwf|done|exact Hids|done].
Qed.

Lemma run_table m c ls c' :
  good m c → run c ls c' → good m c' ∧ t_run m (abs c.1) ls (abs c'.1).
Proof.
  intros Hg Hrun. induction Hrun as [c|c ls c1 l c2 Hr IH Hs]; [split; [done|constructor]|].
  destruct (IH Hg) as [Hg1 Ht1]. destruct (step_table _ _ _ _ Hg1 Hs) as [Hg2 Ht2].
  split; [done|]. by eapply t_run_snoc.
Qed.

Lemma new_good (c : C) m n : (n < 2 ^ 64)%N → good m (new c m, n).
Proof. intros Hn. split; simpl; [by split|done| |done]. intros i. rewrite lookup_abs. by intros []. Qed.

(** Every run of the session is a run of the table. *)
Lemma refines_table (c : C) m n ls s n' :
  (n < 2 ^ 64)%N → run (new c m, n) ls (s, n') → t_run m ∅ ls (abs s).
Proof.
  intros Hn Hrun. destruct (run_table m _ _ _ (new_good c m n Hn) Hrun) as [_ Ht].
  assert (Ha : abs (new c m) = ∅).
  { apply map_eq. intros i. rewrite lookup_abs. simpl. by rewrite lookup_empty. }
  by rewrite <-Ha.
Qed.

(** C9: Every run of a session, up to its failure, is a run of the table of
    calls. *)
Theorem session_refines_table (c : C) m n ls s n' :
  (n < 2 ^ 64)%N → run (new c m, n) ls (s, n') → t_run m ∅ ls (abs s).
Proof. apply refines_table. Qed.

(** ** Where answers go *)
Lemma run_split c ls c' l1 l l2 :
  run c ls c' → ls = l1 ++ l :: l2 → ∃ c1 c2, run c l1 c1 ∧ step c1 l c2 ∧ run c2 l2 c'.
Proof.
  intros Hr. revert l2; induction Hr as [c|c ls c1 q c2 Hr IH Hs]; intros l2 Heq.
  { by destruct l1. }
  destruct l2 as [|q' l2 _] using rev_ind.
  - apply app_inj_tail in Heq as [-> ->]. exists c1, c2. split_and!; [done..|constructor].
  - rewrite app_comm_cons, app_assoc in Heq. apply app_inj_tail in Heq as [-> ->].
    destruct (IH l2 eq_refl) as (d1 & d2 & H1 & H2 & H3). exists d1, d2.
    split_and!; [done..|]. by econstructor.
Qed.

Lemma t_reply_landed r t t' i q :
  t_reply r t = Some t' → t' !! i = Some (Landed q) →
  t !! i = Some (Landed q) ∨ (r = q ∧ rp_id r = i).
Proof.
  unfold t_reply. destruct (_ || _); [done|].
  destruct (t !! rp_id r) as [[| |]|] eqn:Hl; intros [= <-]; try done;
    (destruct (decide (i = rp_id r)) as [->|Hne];
     [rewrite ?lookup_insert_eq, ?lookup_delete_eq; intros; simplify_eq; auto
     |rewrite ?lookup_insert_ne, ?lookup_delete_ne by done; auto]).
Qed.

Lemma t_replies_landed rs t t' i q :
  t_replies rs t = Some t' → t' !! i = Some (Landed q) →
  t !! i = Some (Landed q) ∨ (q ∈ rs ∧ rp_id q = i).
Proof.
  revert t; induction rs as [|r rs IH]; intros t; simpl; [intros [= ->]; auto|].
  destruct (t_reply r t) as [t1|] eqn:Ht; [|done]. simpl. intros H1 H2.
  destruct (IH t1 H1 H2) as [H3|[H3 <-]]; [|right; split; [by right|done]].
  destruct (t_reply_landed _ _ _ _ _ Ht H3) as [H4|[-> H4]]; [by left|].
  right. split; [by left|done].
Qed.

(** A slot was begun, and an answer in it came to it. *)
Lemma t_run_origin m ls t id sl :
  t_run m ∅ ls t → t !! id = Some sl →
  LBegin id ∈ ls ∧ ∀ r, sl = Landed r → rp_id r = id ∧ ∃ rs, LPoll rs ∈ ls ∧ r ∈ rs.
Proof.
  revert t sl; induction ls as [|l ls IH] using rev_ind; intros t sl Hr Hid.
  { inversion Hr; subst. by rewrite lookup_empty in Hid. }
  apply t_run_snoc_inv in Hr as (t1 & Hr & Hs).
  assert (Hold : ∀ sl', t1 !! id = Some sl' → sl = sl' ∨ (∀ r, sl ≠ Landed r) →
            LBegin id ∈ ls ++ [l] ∧ ∀ r, sl = Landed r → rp_id r = id ∧ ∃ rs, LPoll rs ∈ ls ++ [l] ∧ r ∈ rs).
  { intros sl' Hsl' Hc. destruct (IH _ _ Hr Hsl') as [Hb Hl]. split; [set_solver|].
    intros r ->. destruct Hc as [<-|Hc]; [|by destruct (Hc r)].
    destruct (Hl r eq_refl) as (? & rs & ? & ?). split; [done|]. exists rs. set_solver. }
  inversion Hs as [id' Hfull Hnone|Hfull|rs t' Hrs|id'|id'|]; subst.
  - destruct (decide (id' = id)) as [->|Hne].
    + rewrite lookup_insert_eq in Hid. injection Hid as <-. split; [set_solver|done].
    + rewrite lookup_insert_ne in Hid by done. eauto.
  - eauto.
  - destruct (t_replies_dom _ _ _ id Hrs (mk_is_Some _ _ Hid)) as [sl' Hsl'].
    destruct sl as [|r|]; [by eapply Hold; eauto| |by eapply Hold; eauto].
    destruct (t_replies_landed _ _ _ _ _ Hrs Hid) as [Hl|[Hin Hrid]]; [by eapply Hold; eauto|].
    destruct (IH _ _ Hr Hsl') as [Hb _]. split; [set_solver|]. intros ? [= <-].
    split; [done|]. exists rs. set_solver.
  - unfold t_take in Hid. destruct (t1 !! id') as [[| |]|] eqn:E; simpl in Hid; try by eauto.
    apply lookup_delete_Some in Hid as [_ Hid]. eauto.
  - unfold t_abandon in Hid. destruct (t1 !! id') as [[| |]|] eqn:E; try by eauto.
    all: destruct (decide (id' = id)) as [->|Hne];
      [rewrite lookup_insert_eq in Hid; injection Hid as <-; eapply Hold; eauto; right; done
      |rewrite lookup_insert_ne in Hid by done; eauto].
  - eauto.
Qed.

(** A call that is over stays over. *)
Lemma over_stays m c ls c' id :
  good m c → run c ls c' → abs c.1 !! id = None → (id < c.2)%N →
  abs c'.1 !! id = None ∧ (id < c'.2)%N ∧ ∀ r, LTake id (Some r) ∉ ls.
Proof.
  intros Hg Hr. induction Hr as [c|c ls c1 l c2 Hr IH Hs]; intros Hnone Hlt.
  { split_and!; [done..|]. intros r ?%not_elem_of_nil. done. }
  destruct (IH Hg Hnone Hlt) as (Hn1 & Hlt1 & Hno). destruct (run_table _ _ _ _ Hg Hr) as [Hg1 _].
  destruct (step_table _ _ _ _ Hg1 Hs) as [Hg2 Ht].
  assert (Hc : (c1.2 ≤ c2.2)%N).
  { destruct Hs as [target args s n i n' s' Hb Hw|target args s n k n' s' Hb| | | | |]; simpl; try lia.
    - destruct (begin_eq _ _ _ _ _ _ _ Hb) as [-> ->]. rewrite N.mod_small; lia.
    - by destruct (saturated_table _ _ _ _ _ _ _ (good_wf _ _ Hg1) Hb) as (-> & _). }
  assert (Hl : ∀ r, l ≠ LTake id (Some r)).
  { intros r ->. apply t_step_take in Ht as [Hi _].
    unfold t_take in Hi. by rewrite Hn1 in Hi. }
  split_and!; [|lia|].
  - inversion Ht as [i Hfull Hfree|Hfull|rs t' Hrs|i|i|]; subst; try congruence.
    + destruct (decide (i = id)) as [->|Hne]; [|by rewrite lookup_insert_ne].
      inversion Hs as [target args s n i' n' s' Hb Hw| | | | | |]; subst; simpl in *.
      destruct (begin_eq _ _ _ _ _ _ _ Hb) as [-> ->]. lia.
    + destruct (abs c2.1 !! id) eqn:E; [|done].
      destruct (t_replies_dom _ _ _ id Hrs (mk_is_Some _ _ E)). congruence.
    + unfold t_take. destruct (abs c1.1 !! i) as [[| |]|]; try done. simpl.
      by apply lookup_delete_None; right.
    + unfold t_abandon. destruct (abs c1.1 !! i) as [[| |]|] eqn:E; try done.
      all: rewrite lookup_insert_ne by congruence; done.
  - intros r [?|Hin]%elem_of_app; [by eapply Hno|].
    apply list_elem_of_singleton in Hin. by eapply Hl.
Qed.

(** An answer that is collected is the answer of a call that was made, came
    from the stream under that call's id, and is collected once. *)
Theorem answers_go_home (c : C) m n ls c' l1 id r l2 :
  (n < 2 ^ 64)%N → run (new c m, n) ls c' → ls = l1 ++ LTake id (Some r) :: l2 →
  rp_id r = id ∧ LBegin id ∈ l1 ∧ (∃ rs, LPoll rs ∈ l1 ∧ r ∈ rs)
  ∧ ∀ r', LTake id (Some r') ∉ l2.
Proof.
  intros Hn Hrun Heq. destruct (run_split _ _ _ _ _ _ Hrun Heq) as ([s1 n1] & [s2 n2] & H1 & Hs & H2).
  pose proof (refines_table c m n l1 s1 n1 Hn H1) as Ht1.
  destruct (run_table _ _ _ _ (new_good c m n Hn) H1) as [Hg1 _].
  destruct (step_table _ _ _ _ Hg1 Hs) as [Hg2 Hstep]. simpl in *.
  assert (Ht : abs s1 !! id = Some (Landed r) ∧ abs s2 = delete id (abs s1)).
  { apply t_step_take in Hstep as [Hr Ha]. unfold t_take in *.
    destruct (abs s1 !! id) as [[| |]|]; simplify_eq/=. done. }
  destruct Ht as [Hl Hd]. destruct (t_run_origin _ _ _ _ _ Ht1 Hl) as [Hb Ho].
  destruct (Ho r eq_refl) as [Hid Hpoll]. split_and!; [done..|]. intros r'.
  assert (Hlt : (id < n1)%N) by (apply (good_ids _ _ Hg1); by eexists).
  assert (n1 = n2) as <- by (by inversion Hs).
  apply (over_stays m (s2, n1) l2 c' id); [done..| |done].
  simpl. rewrite Hd. apply lookup_delete_eq.
Qed.

(** ** Failure

    A session that has failed says so to every later call and does nothing,
    and whatever a poll of a sound session reports is such a failure. *)
Theorem failure_is_permanent s :
  (∀ why, failed s = Some why →
     (∀ target args n, begin_ target args n s = (Err (EChannel (Broken why)), n, s))
     ∧ (∀ fuel, poll fuel s = Ret (Err (EChannel (Broken why))) s)
     ∧ (∀ id, take_ id s = (Err (EChannel (Broken why)), s) ∧ failed (abandon id s) = Some why))
  ∧ (failed s = None → ∀ fuel r s', poll fuel s = Ret r s' →
       failed s' = match r with Ok _ => None | Err e => Some (session_error_text e) end).
Proof.
  split.
  - intros why Hf. unfold begin_, poll, take_, check_failed. rewrite Hf. split_and!; [done..|].
    intros id. split; [done|]. unfold abandon. by destruct (bool_decide _).
  - intros Hf fuel r s'. unfold poll, check_failed. rewrite Hf.
    destruct (flush _ s) as [[u|e] s1| | |] eqn:Hfl; try done.
    2: { intros [= <- <-]. by apply (flush_fails _ _ _ _ Hf) in Hfl. }
    apply flush_calls in Hfl as [_ Hf1]. destruct u. specialize (Hf1 eq_refl). rewrite Hf in Hf1.
    destruct (fill fuel s1) as [[u|e] s2| | |] eqn:Hfi; try done.
    2: { intros [= <- <-]. by apply (fill_fails _ _ _ _ Hf1) in Hfi. }
    apply fill_calls in Hfi as [_ Hf2]. destruct u. specialize (Hf2 eq_refl). rewrite Hf1 in Hf2.
    fold (sorted s2). pose proof (sorted_failed s2 Hf2) as Hs. intros Heq. rewrite Heq in Hs.
    destruct r as [|e]; [by destruct Hs|done].
Qed.
End session.
End Refinement.

Import Channel Frame Session SessionFacts CallTable Refinement.

Module SessionLive.
Section live.
Context `{!Serde Request, !Serde Reply}.
Implicit Types s : Session Loopback.







End live.
End SessionLive.
