(* ===== verification/SessionDemo.v ===== *)
(** * A plugin session at concrete messages

    A concrete serializer for the frames, over [Msgpack]'s codec, and the
    session theorems applied to it: a call over a peer whose buffer holds
    sixteen bytes, answered in two pieces. *)

From stdpp Require Import gmap.
From S2P Require Import Prelude.
From S2P Require Import Bytes.
From S2P Require Import Value.
From S2P Require Import Msgpack.
From S2P Require Import Session.
From S2P Require Import SessionSpec.
From S2P Require Import SessionTable.
Import Channel Frame Session SessionFacts CallTable Refinement SessionLive.

(** ** Frames as maps *)
Definition int_of (v : Value) : option N :=
  match v with VInt z => Some (Z.to_N z) | _ => None end.
Definition text_of (v : Value) : option string :=
  match v with VStr s => Some (of_bytes s) | _ => None end.

Definition request_value (r : Request) : Value :=
  VMap ([(vstr "version", vnat (rq_version r)); (vstr "id", vnat (rq_id r));
         (vstr "target", vstr (rq_target r))]
        ++ match rq_args r with Some a => [(vstr "args", a)] | None => [] end).
Definition value_request (v : Value) : option Request :=
  match v with
  | VMap ((_, v) :: (_, i) :: (_, t) :: rest) =>
      ver ← int_of v; id ← int_of i; tgt ← text_of t;
      match rest with
      | [] => Some (MkRequest ver id tgt None)
      | [(_, a)] => Some (MkRequest ver id tgt (Some a))
      | _ => None
      end
  | _ => None
  end.

Definition class_value (c : ErrorClass) : Value :=
  vstr match c with Transport => "transport" | Plugin => "plugin" | Capability => "capability" end.
Definition value_class (v : Value) : option ErrorClass :=
  t ← text_of v;
  if bool_decide (t = "transport") then Some Transport
  else if bool_decide (t = "plugin") then Some Plugin
  else if bool_decide (t = "capability") then Some Capability else None.

Definition body_pair (b : ReplyBody) : Value * Value :=
  match b with
  | BodyOk v => (vstr "value", v)
  | BodyErr e => (vstr "error", VMap [(vstr "class", class_value (pe_class e));
                                      (vstr "code", vstr (pe_code e));
                                      (vstr "message", vstr (pe_message e))])
  end.
Definition pair_body (k v : Value) : option ReplyBody :=
  name ← text_of k;
  if bool_decide (name = "value") then Some (BodyOk v)
  else match v with
       | VMap [(_, c); (_, co); (_, m)] =>
           c ← value_class c; co ← text_of co; m ← text_of m; Some (BodyErr (MkPluginError c co m))
       | _ => None
       end.

Definition reply_value (r : Reply) : Value :=
  VMap [(vstr "version", vnat (rp_version r)); (vstr "id", vnat (rp_id r));
        (vstr "final", VBool (rp_is_final r)); body_pair (rp_body r)].
Definition value_reply (v : Value) : option Reply :=
  match v with
  | VMap [(_, v); (_, i); (_, VBool f); (k, b)] =>
      ver ← int_of v; id ← int_of i; body ← pair_body k b; Some (MkReply ver id f body)
  | _ => None
  end.

Lemma text_vstr s : text_of (vstr s) = Some s.
Proof. simpl. by rewrite of_as_bytes. Qed.
Lemma int_vnat n : int_of (vnat n) = Some n.
Proof. simpl. by rewrite N2Z.id. Qed.

Lemma value_of_request r : value_request (request_value r) = Some r.
Proof.
  destruct r as [v i t [a|]]; unfold value_request, request_value; cbn [app rq_version rq_id rq_target rq_args];
    by rewrite !int_vnat, text_vstr.
Qed.

Lemma value_of_reply r : value_reply (reply_value r) = Some r.
Proof.
  destruct r as [v i f [x|[c co m]]]; unfold value_reply, reply_value;
    cbn [rp_version rp_id rp_is_final rp_body body_pair]; rewrite !int_vnat; cbn [mbind option_bind];
    unfold pair_body; rewrite !text_vstr; cbn [mbind option_bind]; [done|].
  cbn [pe_class pe_code pe_message]. by destruct c; unfold value_class, class_value; rewrite !text_vstr.
Qed.

Section serde.
Context {T : Type} (to : T → Value) (back : Value → option T).
Definition map_serde : Serde T := {|
  to_vec_named t :=
    if bool_decide (vdepth (to t) < MAX_DEPTH) then
      match write_value (to t) with Some bs => Ok bs | None => Err "unencodable" end
    else Err "too deep";
  from_slice bs :=
    match read_value bs with
    | Some (v, []) => match back v with Some t => Ok t | None => Err "unexpected shape" end
    | _ => Err "not msgpack"
    end
|}.

Lemma map_serde_laws : (∀ t, back (to t) = Some t) → @SerdeLaws T map_serde.
Proof.
  intros Hback. split. intros t bs. cbn [to_vec_named from_slice map_serde].
  destruct (bool_decide_reflect (vdepth (to t) < MAX_DEPTH)) as [Hd|]; [|discriminate].
  destruct (write_value (to t)) as [b|] eqn:Hw; [|discriminate]. intros <-%(inj inl).
  pose proof (read_write _ _ [] Hw Hd) as Hr. rewrite app_nil_r in Hr. by rewrite Hr, Hback.
Qed.
End serde.

#[export] Instance request_serde : Serde Request := map_serde request_value value_request.
#[export] Instance reply_serde : Serde Reply := map_serde reply_value value_reply.
#[export] Instance request_serde_laws : SerdeLaws Request := map_serde_laws _ _ value_of_request.
#[export] Instance reply_serde_laws : SerdeLaws Reply := map_serde_laws _ _ value_of_reply.

(** ** Concrete frames *)
Definition demo_request : Request := MkRequest 1 7 "webauthn/assert" (Some (vstr "challenge")).
Definition demo_reply : Reply := MkReply 1 7 true (BodyOk (VInt 42)).
Definition bytes_of {T} `{!Serde T} (t : T) : bytes :=
  match encode t with Ok bs => bs | Err _ => [] end.
Definition demo_bytes : bytes := bytes_of demo_request.
Definition reply_bytes : bytes := bytes_of demo_reply.

Lemma frame_roundtrip_witness :
  encode demo_request = Ok demo_bytes
  ∧ decode (demo_bytes ++ demo_bytes) = Ok (Some (demo_request, length demo_bytes)).
Proof.
  assert (He : encode demo_request = Ok demo_bytes) by by vm_compute.
  split; [done|].
  apply (FrameFacts.frame_roundtrip demo_request demo_bytes demo_bytes He). by vm_compute.
Defined.

(** ** Concrete sessions *)
Definition slow_peer : Loopback := MkLoopback [] [] None (Some 16) None.
Definition demo_session : Session Loopback := new slow_peer 2.



(** A run: a call goes out, its answer is written, read and collected. *)
Definition asked : Session Loopback := (begin_ "echo/say" None 7 demo_session).2.
Definition answered : Session Loopback := set_channel (peer_put reply_bytes (channel asked)) asked.
Definition state_of {A} (o : outcome (Session Loopback) A) : Session Loopback :=
  match o with Ret _ s => s | _ => demo_session end.
Definition sorted_out : Session Loopback := state_of (poll 2 answered).
Definition collected : Session Loopback := (take_ 7 sorted_out).2.

Definition demo_labels : list label :=
  [] ++ [LBegin 7] ++ [LOther] ++ [LPoll (replies (received 2 answered))].

Lemma demo_run :
  run (demo_session, 7%N) (demo_labels ++ [LTake 7 (Some demo_reply)]) (collected, 8%N).
Proof.
  apply (R_snoc _ _ (sorted_out, 8%N)); [|by apply (S_take 7 sorted_out); vm_compute].
  unfold demo_labels. rewrite !app_assoc.
  apply (R_snoc _ _ (answered, 8%N)); [|by apply (S_poll 2); vm_compute].
  apply (R_snoc _ _ (asked, 8%N)); [|apply S_peer].
  apply (R_snoc _ [] (demo_session, 7%N)); [constructor|].
  by apply (S_begin "echo/say" None); vm_compute.
Qed.

Lemma session_refines_table_witness :
  ∃ ls, length ls = 4 ∧ t_run 2 ∅ ls (abs collected).
Proof.
  exists (demo_labels ++ [LTake 7 (Some demo_reply)]). split; [done|].
  apply (session_refines_table slow_peer 2 7 _ collected 8); [done|exact demo_run].
Defined.

Lemma answers_go_home_witness :
  rp_id demo_reply = 7%N ∧ LBegin 7 ∈ demo_labels.
Proof.
  destruct (answers_go_home slow_peer 2 7 _ (collected, 8%N) demo_labels 7 demo_reply []
              eq_refl demo_run eq_refl) as (Hid & Hb & _).
  by split.
Defined.

Lemma pieces_irrelevant_witness :
  ∃ s2, pieces 2 [take 5 reply_bytes; drop 5 reply_bytes] asked = Ret tt s2
    ∧ ready s2 !! 7%N = Some demo_reply.
Proof.
  assert (Hi : idle asked) by (unfold idle, working; split_and!; vm_compute; reflexivity).
  destruct (pieces_irrelevant 2 [take 5 reply_bytes; drop 5 reply_bytes] asked Hi (le_n 2))
    as (r & s1 & s2 & Hp & Hs & Hc).
  exists s2. split; [done|]. unfold calls in Hc. injection Hc as Hrd _ _ _. rewrite <-Hrd.
  assert (Hq : poll 2 (put (concat [take 5 reply_bytes; drop 5 reply_bytes]) asked)
               = Ret (Ok tt) (state_of (poll 2 (put reply_bytes asked)))) by by vm_compute.
  rewrite Hq in Hp. injection Hp as _ <-. by vm_compute.
Defined.
