(* ===== verification/Backend.v ===== *)
(** * Paths as Rust's standard library has them on Unix

    A [Path] is compared, joined and cut by its components, so a path here is
    the list of them; [path_of] reads one from its text.  Nothing here is
    code of the repository.

    ** The filesystem behind the connectors

    [crates/drt-platform/src/fs.rs]: what a backend provides, the in-memory
    backend [MemFs], and the wrappers over the process's backend.  [StdFs] is
    [std::fs] with the names filled in and has no definition of its own.  A
    path is its components, so a [BTreeMap] keyed by paths is a [gmap]; what
    iterates it sorts afterwards.

    ** The in-memory filesystem keeps its shape

    Every path in it is absolute and folded, every directory and every file
    is inside a directory; folding, joining and the operations of [MemFs]. *)

From stdpp Require Import gmap sorting.
From S2P Require Import Prelude.
From S2P Require Import Bytes.
From S2P Require Import Value.

Inductive Component :=
  | RootDir
  | CurDir
  | ParentDir
  | Normal (name : string).

#[export] Instance Component_eq_dec : EqDecision Component.
Proof. solve_decision. Defined.

#[export] Instance Normal_inj : Inj (=) (=) Normal.
Proof. by intros ?? [=]. Qed.

#[export] Instance Component_countable : Countable Component.
Proof.
  apply (inj_countable' (λ c, match c with
                              | RootDir => inl 0 | CurDir => inl 1 | ParentDir => inl 2
                              | Normal n => inr n
                              end)
                        (λ x, match x with
                              | inl 0 => RootDir | inl 1 => CurDir | inl _ => ParentDir
                              | inr n => Normal n
                              end)).
  by intros [].
Defined.

Abbreviation Path := (list Component).

(** [Path::components]: repeated separators and inner [.]s go, a leading [.]
    of a relative path stays. *)
Definition component_of (piece : string) : Component :=
  if bool_decide (piece = "..") then ParentDir else Normal piece.

Definition inner (pieces : list string) : Path :=
  component_of <$> filter (λ p, p ≠ "" ∧ p ≠ ".") pieces.

Definition path_of (s : string) : Path :=
  match split_on "/" s with
  | "" :: rest => if bool_decide (rest = []) then [] else RootDir :: inner rest
  | "." :: rest => CurDir :: inner rest
  | pieces => inner pieces
  end.

(** [Path::has_root], which on Unix is [is_absolute] too. *)
Definition has_root (p : Path) : bool :=
  match p with RootDir :: _ => true | _ => false end.
Definition is_absolute (p : Path) : bool := has_root p.

(** [Path::join]: an absolute path replaces; otherwise a leading [.] is an
    inner one. *)
Definition path_join (base rel : Path) : Path :=
  if has_root rel then rel
  else match base, rel with
       | [], _ => rel
       | _, CurDir :: rel' => base ++ rel'
       | _, _ => base ++ rel
       end.

(** [Path::parent] and [Path::file_name]. *)
Definition parent (p : Path) : option Path :=
  match last p with
  | None | Some RootDir => None
  | Some _ => Some (take (length p - 1) p)
  end.
Definition file_name (p : Path) : option string :=
  match last p with Some (Normal n) => Some n | _ => None end.

(** [Path::starts_with]: by whole components. *)
Definition path_starts_with (p base : Path) : bool := bool_decide (base `prefix_of` p).

(** [PathBuf::pop] (no effect on a root) and [push] of one name. *)
Definition pop (p : Path) : Path := default p (parent p).
Definition push (p : Path) (name : string) : Path := p ++ [Normal name].

(** [Path::display]. *)
Definition component_text (c : Component) : string :=
  match c with RootDir => "" | CurDir => "." | ParentDir => ".." | Normal n => n end.
Definition path_text (p : Path) : string :=
  match p with [RootDir] => "/" | _ => join "/" (component_text <$> p) end.

(** ** Lemmas *)

Lemma parent_snoc p name : parent (p ++ [Normal name]) = Some p.
Proof.
  unfold parent. rewrite last_snoc, length_app. simpl.
  replace (length p + 1 - 1) with (length p) by lia. by rewrite take_app_length.
Qed.

Lemma file_name_snoc p name : file_name (p ++ [Normal name]) = Some name.
Proof. unfold file_name. by rewrite last_snoc. Qed.

Lemma parent_Some p q : parent p = Some q → ∃ c, p = q ++ [c] ∧ c ≠ RootDir.
Proof.
  unfold parent. destruct p as [|c p _] using rev_ind; [done|].
  rewrite last_snoc, length_app. simpl. replace (length p + 1 - 1) with (length p) by lia.
  rewrite take_app_length. destruct c; intros [= <-]; by eexists.
Qed.

Lemma file_name_Some p n : file_name p = Some n → ∃ q, p = q ++ [Normal n].
Proof.
  unfold file_name. destruct p as [|c p _] using rev_ind; [done|].
  rewrite last_snoc. destruct c; intros [= <-]. by eexists.
Qed.

Lemma path_starts_with_iff p base : path_starts_with p base = true ↔ base `prefix_of` p.
Proof. apply bool_decide_eq_true. Qed.

Record Metadata := MkMetadata { md_len : N; md_is_dir : bool }.
Definition is_file (m : Metadata) : bool := negb (md_is_dir m).

(** [io::Error]: its kind and the path its message names. *)
Inductive ErrorKind := NotFound | IsADirectory | NotADirectory | AlreadyExists | OtherKind.
Record IoError := MkIoError { io_kind : ErrorKind; io_path : Path }.

(** A backend over a filesystem [F]; the operations that change it give it
    back.  [io_text] is the [Display] of an error. *)
Class Backend (F : Type) := {
  canonicalize : Path → F → result Path IoError;
  metadata : Path → F → result Metadata IoError;
  read : Path → F → result bytes IoError;
  write : Path → bytes → bool → F → result unit IoError * F;
  read_dir : Path → F → result (list string) IoError;
  remove_file : Path → F → result unit IoError * F;
  create_dir_all : Path → F → result unit IoError * F;
  remove_dir_all : Path → F → result unit IoError * F;
  io_text : IoError → string;
}.

Definition exists_ {F} `{!Backend F} (p : Path) (fs : F) : bool := is_ok (metadata p fs).
Definition is_dir_at {F} `{!Backend F} (p : Path) (fs : F) : bool :=
  match metadata p fs with Ok m => md_is_dir m | Err _ => false end.

(** [str]'s order, for sorting. *)
Definition str_le (a b : string) : Prop := klt b a = false.
#[export] Instance str_le_dec a b : Decision (str_le a b).
Proof. unfold str_le. apply _. Defined.

(** ** The process's backend

    What was installed, else the target's own; [install] and [uninstall] give
    back what was there. *)
Section host.
Context {F : Type} `{!Backend F}.

Definition host (own : F) (installed : option F) : F := default own installed.
Definition install (backend : F) (installed : option F) : option F * option F :=
  (installed, Some backend).
Definition uninstall (installed : option F) : option F * option F := (installed, None).

(** [read_to_string]: what is read, when it is text. *)
Definition read_to_string (p : Path) (fs : F) : result string (option IoError) :=
  match read p fs with
  | Err e => Err (Some e)
  | Ok bs => match from_utf8 bs with Some s => Ok s | None => Err None end
  end.
End host.

(** ** The in-memory backend *)
Module MemFs.

Record MemState := MkMemState {
  cwd : Path;
  dirs : gset Path;
  files : gmap Path bytes;
}.

Definition root : Path := [RootDir].
Definition new : MemState := MkMemState root {[ root ]} ∅.

(** [normalize]: [.] and [..] folded, [..] above the root staying there. *)
Definition normalize_step (out : Path) (part : Component) : Path :=
  match part with
  | RootDir | CurDir => out
  | ParentDir => pop out
  | Normal name => push out name
  end.
Definition normalize (p : Path) : Path := foldl normalize_step root p.

Definition absolute (p : Path) (st : MemState) : Path :=
  if is_absolute p then normalize p else normalize (path_join (cwd st) p).

Definition is_dir (abs : Path) (st : MemState) : bool := bool_decide (abs ∈ dirs st).

Definition set_dirs (d : gset Path) (st : MemState) : MemState := MkMemState (cwd st) d (files st).
Definition set_files (f : gmap Path bytes) (st : MemState) : MemState :=
  MkMemState (cwd st) (dirs st) f.

(** [mkdir_p]: every directory on the way is inserted. *)
Definition mkdir_step (acc : Path * gset Path) (part : Component) : Path * gset Path :=
  match part with
  | Normal name => let cur := push acc.1 name in (cur, acc.2 ∪ {[ cur ]})
  | _ => acc
  end.
Definition mkdir_p (abs : Path) (st : MemState) : MemState :=
  set_dirs (foldl mkdir_step (root, dirs st) abs).2 st.

Definition add_dir (p : Path) (st : MemState) : MemState := mkdir_p (absolute p st) st.
Definition add_file (p : Path) (bs : bytes) (st : MemState) : MemState :=
  let abs := absolute p st in
  let st := match parent abs with Some up => mkdir_p up st | None => st end in
  set_files (<[abs := bs]> (files st)) st.
Definition set_cwd (p : Path) (st : MemState) : MemState :=
  let abs := absolute p st in
  let st := mkdir_p abs st in MkMemState abs (dirs st) (files st).

Definition mem_canonicalize (p : Path) (st : MemState) : result Path IoError :=
  let abs := absolute p st in
  if is_dir abs st || bool_decide (is_Some (files st !! abs)) then Ok abs
  else Err (MkIoError NotFound p).

Definition mem_metadata (p : Path) (st : MemState) : result Metadata IoError :=
  let abs := absolute p st in
  if is_dir abs st then Ok (MkMetadata 0 true)
  else match files st !! abs with
       | Some bs => Ok (MkMetadata (N.of_nat (length bs)) false)
       | None => Err (MkIoError NotFound p)
       end.

Definition mem_read (p : Path) (st : MemState) : result bytes IoError :=
  let abs := absolute p st in
  if is_dir abs st then Err (MkIoError IsADirectory p)
  else match files st !! abs with
       | Some bs => Ok bs
       | None => Err (MkIoError NotFound p)
       end.

Definition mem_write (p : Path) (data : bytes) (append : bool) (st : MemState) :
    result unit IoError * MemState :=
  let abs := absolute p st in
  if is_dir abs st then (Err (MkIoError IsADirectory p), st)
  else
    let up := default [] (parent abs) in
    if negb (is_dir up st) then (Err (MkIoError NotFound up), st)
    else if append
    then (Ok tt, set_files (<[abs := default [] (files st !! abs) ++ data]> (files st)) st)
    else (Ok tt, set_files (<[abs := data]> (files st)) st).

(** The names right under a directory, sorted and without repeats. *)
Definition names_under (abs : Path) (paths : list Path) : list string :=
  omap (λ p, if bool_decide (parent p = Some abs) then file_name p else None) paths.

Fixpoint dedup (l : list string) : list string :=
  match l with
  | x :: (y :: _) as l' => if bool_decide (x = y) then dedup l' else x :: dedup l'
  | _ => l
  end.

Definition mem_read_dir (p : Path) (st : MemState) : result (list string) IoError :=
  let abs := absolute p st in
  if negb (is_dir abs st) then
    if bool_decide (is_Some (files st !! abs)) then Err (MkIoError NotADirectory p)
    else Err (MkIoError NotFound p)
  else
    let paths := elements (dirs st) ++ elements (dom (files st)) in
    Ok (dedup (merge_sort str_le (names_under abs paths))).

Definition mem_remove_file (p : Path) (st : MemState) : result unit IoError * MemState :=
  let abs := absolute p st in
  if is_dir abs st then (Err (MkIoError IsADirectory p), st)
  else match files st !! abs with
       | Some _ => (Ok tt, set_files (delete abs (files st)) st)
       | None => (Err (MkIoError NotFound p), st)
       end.

Definition mem_create_dir_all (p : Path) (st : MemState) : result unit IoError * MemState :=
  let abs := absolute p st in
  if bool_decide (is_Some (files st !! abs)) then (Err (MkIoError AlreadyExists p), st)
  else (Ok tt, mkdir_p abs st).

(** [remove_dir_all]: what starts with the path goes, the root itself
    stays. *)
Definition mem_remove_dir_all (p : Path) (st : MemState) : result unit IoError * MemState :=
  let abs := absolute p st in
  (Ok tt,
   MkMemState (cwd st)
     (filter (λ q, ¬ abs `prefix_of` q ∨ q = root) (dirs st))
     (filter (λ kv, ¬ abs `prefix_of` kv.1) (files st))).

(** The messages of [not_found] and of the other refusals. *)
Definition mem_text (e : IoError) : string :=
  match io_kind e with
  | NotFound => "No such file or directory: "
  | IsADirectory => "Is a directory: "
  | NotADirectory | AlreadyExists => "Not a directory: "
  | OtherKind => ""
  end +:+ path_text (io_path e).

#[export] Instance mem_backend : Backend MemState := {|
  canonicalize := mem_canonicalize;
  metadata := mem_metadata;
  read := mem_read;
  write := mem_write;
  read_dir := mem_read_dir;
  remove_file := mem_remove_file;
  create_dir_all := mem_create_dir_all;
  remove_dir_all := mem_remove_dir_all;
  io_text := mem_text;
|}.
End MemFs.

Import MemFs.

Module MemFsFacts.

(** ** Folded paths *)
Definition folded (p : Path) : Prop := ∃ names, p = RootDir :: (Normal <$> names).

Lemma folded_root : folded root.
Proof. by exists []. Qed.

Lemma folded_push p name : folded p → folded (push p name).
Proof. intros [ns ->]. exists (ns ++ [name]). unfold push. by rewrite fmap_app. Qed.

Lemma folded_inv p : folded p → p = root ∨ ∃ q name, p = push q name ∧ folded q.
Proof.
  intros [ns ->]. destruct ns as [|n ns _] using rev_ind; [by left|]. right.
  exists (RootDir :: (Normal <$> ns)), n. split; [by rewrite fmap_app|by exists ns].
Qed.

Lemma pop_push p name : pop (push p name) = p.
Proof. unfold pop, push. by rewrite parent_snoc. Qed.

Lemma parent_root : parent root = None.
Proof. done. Qed.

Lemma folded_parent p q : folded p → parent p = Some q → folded q ∧ ∃ name, p = push q name.
Proof.
  intros [->|(q' & n & -> & Hq)]%folded_inv; [done|].
  unfold push. rewrite parent_snoc. intros [= <-]. split; [done|by exists n].
Qed.

Lemma folded_pop p : folded p → folded (pop p).
Proof.
  intros [->|(q & n & -> & Hq)]%folded_inv; [apply folded_root|]. by rewrite pop_push.
Qed.

Lemma folded_prefix p q : folded p → q `prefix_of` p → q ≠ [] → folded q.
Proof.
  intros [ns ->] [k Hk] Hne. destruct q as [|c q]; [done|].
  injection Hk as <- Hk. apply fmap_app_inv in Hk as (l1 & l2 & -> & -> & ->).
  by exists l1.
Qed.

Lemma normalize_step_folded out c : folded out → folded (normalize_step out c).
Proof. destruct c; simpl; auto using folded_pop, folded_push. Qed.

Lemma foldl_folded parts out : folded out → folded (foldl normalize_step out parts).
Proof. revert out; induction parts; simpl; auto using normalize_step_folded. Qed.

Lemma normalize_folded p : folded (normalize p).
Proof. apply foldl_folded, folded_root. Qed.

Lemma foldl_names out names : foldl normalize_step out (Normal <$> names) = out ++ (Normal <$> names).
Proof.
  revert out; induction names as [|n ns IH]; intros out; simpl; [by rewrite app_nil_r|].
  rewrite IH. unfold push. by rewrite <-app_assoc.
Qed.

(** A folded path is its own folding. *)
Lemma normalize_id p : folded p → normalize p = p.
Proof. intros [ns ->]. unfold normalize. simpl. by rewrite foldl_names. Qed.

Lemma folded_absolute p : folded p → is_absolute p = true.
Proof. by intros [ns ->]. Qed.

Lemma absolute_folded p st : folded (absolute p st).
Proof. unfold absolute. destruct (is_absolute p); apply normalize_folded. Qed.

Lemma absolute_id p st : folded p → absolute p st = p.
Proof. intros H. unfold absolute. by rewrite folded_absolute, normalize_id. Qed.

Lemma normalize_app p q : normalize (p ++ q) = foldl normalize_step (normalize p) q.
Proof. apply foldl_app. Qed.

(** ** The shape of the filesystem *)
Record wf (st : MemState) : Prop := {
  wf_cwd : folded (cwd st);
  wf_root : root ∈ dirs st;
  wf_dirs p : p ∈ dirs st → folded p;
  wf_up p q : p ∈ dirs st → parent p = Some q → q ∈ dirs st;
  wf_files p : is_Some (files st !! p) → folded p;
  wf_home p q : is_Some (files st !! p) → parent p = Some q → q ∈ dirs st;
}.

(** [mkdir_p] puts in the path's prefixes and keeps the shape. *)
Lemma mkdir_folded names : ∀ cur ds,
  foldl mkdir_step (cur, ds) (Normal <$> names) =
  (cur ++ (Normal <$> names),
   ds ∪ list_to_set ((λ k, cur ++ (Normal <$> take (S k) names)) <$> seq 0 (length names))).
Proof.
  induction names as [|n ns IH]; intros cur ds; simpl.
  { rewrite app_nil_r. f_equal. set_solver. }
  rewrite IH. unfold push. rewrite <-app_assoc. simpl. f_equal.
  rewrite <-fmap_S_seq, <-list_fmap_compose.
  rewrite <-(assoc_L (∪)). f_equal. f_equal. f_equal. apply list_fmap_ext. intros i k _.
  simpl. by rewrite <-app_assoc.
Qed.

Lemma mkdir_dirs p st q :
  folded p →
  q ∈ dirs (mkdir_p p st) ↔ q ∈ dirs st ∨ (q ≠ root ∧ q `prefix_of` p ∧ folded q).
Proof.
  intros [ns ->]. unfold mkdir_p. simpl. rewrite mkdir_folded. simpl.
  rewrite elem_of_union, elem_of_list_to_set, list_elem_of_fmap.
  apply or_iff_compat_l. split.
  - intros (k & -> & Hk%elem_of_seq). simpl. split_and!.
    + destruct ns; simpl in *; [lia|done].
    + apply prefix_cons. exists (Normal <$> drop (S k) ns). by rewrite <-fmap_app, take_drop.
    + by eexists.
  - intros (Hne & Hp & [ms ->]). destruct ms as [|m ms]; [done|].
    apply prefix_cons_inv_2 in Hp. destruct Hp as [k Hk].
    apply fmap_app_inv in Hk as (l1 & l2 & Hl1 & -> & ->).
    apply (inj (fmap Normal)) in Hl1 as <-. exists (length ms). split.
    + simpl. f_equal. by rewrite take_app_length.
    + rewrite elem_of_seq, length_app. simpl. lia.
Qed.

Lemma mkdir_keeps p st : cwd (mkdir_p p st) = cwd st ∧ files (mkdir_p p st) = files st.
Proof. done. Qed.

Lemma mkdir_self p st : folded p → root ∈ dirs st → p ∈ dirs (mkdir_p p st).
Proof.
  intros Hf Hr. apply mkdir_dirs; [done|]. destruct (decide (p = root)) as [->|]; [by left|].
  right. by split_and!.
Qed.

Lemma prefix_parent (p q u : Path) : q `prefix_of` p → parent q = Some u → u `prefix_of` p.
Proof.
  intros Hp (c & -> & _)%parent_Some. etrans; [|done]. by eexists.
Qed.

Lemma mkdir_wf p st : wf st → folded p → wf (mkdir_p p st).
Proof.
  intros Hwf Hf. split; simpl.
  - apply (wf_cwd st Hwf).
  - apply mkdir_dirs; [done|]. left. apply (wf_root st Hwf).
  - intros q [?|(_ & _ & ?)]%mkdir_dirs; [by apply (wf_dirs st Hwf)|done|done].
  - intros q u Hq Hu. apply mkdir_dirs; [done|].
    apply mkdir_dirs in Hq as [Hq|(Hne & Hp & Hq)]; [left; by apply (wf_up st Hwf q)| |done].
    destruct (decide (u = root)) as [->|]; [left; apply (wf_root st Hwf)|]. right.
    split_and!; [done|by eapply prefix_parent|by eapply folded_parent].
  - apply (wf_files st Hwf).
  - intros q u Hq Hu. apply mkdir_dirs; [done|]. left. by apply (wf_home st Hwf q).
Qed.

Lemma insert_file_wf p bs st :
  wf st → folded p → (∀ q, parent p = Some q → q ∈ dirs st) →
  wf (set_files (<[p := bs]> (files st)) st).
Proof.
  intros Hwf Hf Hup. split; simpl; try apply Hwf.
  - intros q [<-|[_ ?]]%lookup_insert_is_Some; [done|by apply (wf_files st Hwf)].
  - intros q u [<-|[_ ?]]%lookup_insert_is_Some; [apply Hup|by apply (wf_home st Hwf)].
Qed.

Lemma new_wf : wf new.
Proof.
  split; simpl.
  - apply folded_root.
  - set_solver.
  - intros p ->%elem_of_singleton. apply folded_root.
  - by intros p q ->%elem_of_singleton.
  - by intros p [? ?%lookup_empty_Some].
  - by intros p q [? ?%lookup_empty_Some].
Qed.

Lemma add_file_files p bs st : files (add_file p bs st) = <[absolute p st := bs]> (files st).
Proof. unfold add_file. by destruct (parent _). Qed.

(** A file put right under the root makes no directory. *)
Lemma add_file_dirs p bs st :
  parent (absolute p st) = Some root → dirs (add_file p bs st) = dirs st.
Proof. intros Hp. unfold add_file. by rewrite Hp. Qed.

Lemma add_file_wf p bs st : wf st → wf (add_file p bs st).
Proof.
  intros Hwf. unfold add_file. pose proof (absolute_folded p st) as Hf.
  destruct (parent (absolute p st)) as [up|] eqn:Hup.
  - pose proof (folded_parent _ _ Hf Hup) as [Hfu _].
    apply insert_file_wf; [by apply mkdir_wf|done|].
    intros q Hq. rewrite Hup in Hq. injection Hq as <-.
    apply mkdir_self; [done|apply (wf_root st Hwf)].
  - apply insert_file_wf; [done..|]. intros q Hq. congruence.
Qed.

Lemma write_wf p data append st : wf st → wf (mem_write p data append st).2.
Proof.
  intros Hwf. unfold mem_write. destruct (is_dir _ st); [done|].
  destruct (negb _) eqn:Hup; [done|]. apply negb_false_iff, bool_decide_eq_true in Hup.
  assert (Hq : ∀ q, parent (absolute p st) = Some q → q ∈ dirs st).
  { intros q Hq. by rewrite Hq in Hup. }
  pose proof (absolute_folded p st). by destruct append; apply insert_file_wf.
Qed.

Lemma remove_file_wf p st : wf st → wf (mem_remove_file p st).2.
Proof.
  intros Hwf. unfold mem_remove_file. destruct (is_dir _ st); [done|].
  destruct (files st !! _); [|done]. split; simpl; try apply Hwf.
  - intros q [_ ?]%lookup_delete_is_Some. by apply (wf_files st Hwf).
  - intros q u [_ ?]%lookup_delete_is_Some. by apply (wf_home st Hwf).
Qed.

Lemma create_dir_all_wf p st : wf st → wf (mem_create_dir_all p st).2.
Proof.
  intros Hwf. unfold mem_create_dir_all. case_bool_decide; [done|].
  apply mkdir_wf; [done|apply absolute_folded].
Qed.

Lemma remove_dir_all_wf p st : wf st → wf (mem_remove_dir_all p st).2.
Proof.
  intros Hwf. unfold mem_remove_dir_all. set (abs := absolute p st). split; simpl.
  - apply (wf_cwd st Hwf).
  - apply elem_of_filter. split; [by right|apply (wf_root st Hwf)].
  - intros q [_ ?]%elem_of_filter. by apply (wf_dirs st Hwf).
  - intros q u [Hq Hin]%elem_of_filter Hu. apply elem_of_filter. split; [|by apply (wf_up st Hwf q)].
    destruct Hq as [Hq| ->]; [|by rewrite parent_root in Hu].
    left. intros Hp. apply Hq. etrans; [done|]. by eapply prefix_parent.
  - intros q [x [Hx _]%map_lookup_filter_Some]. apply (wf_files st Hwf). by eexists.
  - intros q u [x [Hx Hq]%map_lookup_filter_Some] Hu. apply elem_of_filter.
    split; [|by apply (wf_home st Hwf q); [eexists|]].
    left. intros Hp. apply Hq. simpl. etrans; [exact Hp|]. by apply (prefix_parent q q u).
Qed.

(** ** What a directory lists *)

#[export] Instance str_le_trans : Transitive str_le.
Proof.
  unfold str_le. intros a b c Hab Hbc. destruct (klt c a) eqn:Hca; [|done].
  destruct (klt a b) eqn:H.
  - pose proof (klt_trans _ _ _ Hca H). congruence.
  - rewrite (klt_total a b H Hab) in Hca. congruence.
Qed.
#[export] Instance str_le_total : Total str_le.
Proof.
  unfold str_le. intros a b. destruct (klt b a) eqn:H1; [|by left]. right.
  destruct (klt a b) eqn:H2; [|done]. pose proof (klt_trans _ _ _ H1 H2) as H3.
  by rewrite klt_irrefl in H3.
Qed.
#[export] Instance str_le_antisymm : AntiSymm (=) str_le.
Proof.
  unfold str_le. intros a b Hab Hba. by apply klt_total.
Qed.

Lemma names_dedup_elem x (l : list string) : x ∈ dedup l ↔ x ∈ l.
Proof.
  induction l as [|y [|z l] IH]; [done..|].
  change (dedup (y :: z :: l)) with (if bool_decide (y = z) then dedup (z :: l) else y :: dedup (z :: l)).
  case_bool_decide as Hy.
  - subst. rewrite IH, !elem_of_cons. naive_solver.
  - rewrite !elem_of_cons, IH, elem_of_cons. done.
Qed.

Lemma names_dedup_nodup (l : list string) : StronglySorted str_le l → NoDup (dedup l).
Proof.
  induction l as [|y [|z l] IH]; intros Hs; [constructor|apply NoDup_singleton|].
  change (dedup (y :: z :: l)) with (if bool_decide (y = z) then dedup (z :: l) else y :: dedup (z :: l)).
  apply StronglySorted_inv in Hs as [Hs Hy]. case_bool_decide as He; [by apply IH|].
  apply NoDup_cons. split; [|by apply IH]. rewrite names_dedup_elem. intros Hin.
  apply StronglySorted_inv in Hs as [_ Hz]. rewrite Forall_forall in Hy, Hz.
  apply He, (anti_symm str_le); [apply Hy; set_solver|].
  apply elem_of_cons in Hin as [->|Hin]; [apply Hy; set_solver|by apply Hz].
Qed.

Lemma names_under_elem p paths n : n ∈ names_under p paths ↔ push p n ∈ paths.
Proof.
  unfold names_under. rewrite list_elem_of_omap. split.
  - intros (q & Hq & Hn). case_bool_decide as Hp; [|done].
    apply file_name_Some in Hn as [u ->]. rewrite parent_snoc in Hp. by injection Hp as ->.
  - intros Hin. exists (push p n). split; [done|]. unfold push.
    by rewrite parent_snoc, bool_decide_true, file_name_snoc.
Qed.

(** A directory lists each name right under it once. *)
Lemma read_dir_names p st :
  folded p → p ∈ dirs st →
  ∃ names, mem_read_dir p st = Ok names ∧ NoDup names
    ∧ ∀ n, n ∈ names ↔ push p n ∈ dirs st ∨ is_Some (files st !! push p n).
Proof.
  intros Hf Hp. unfold mem_read_dir. rewrite absolute_id by done.
  unfold is_dir. rewrite bool_decide_true by done. simpl. eexists. split; [done|]. split.
  - apply names_dedup_nodup. by apply (StronglySorted_merge_sort str_le).
  - intros n. rewrite names_dedup_elem, merge_sort_Permutation, names_under_elem, elem_of_app.
    by rewrite !elem_of_elements, elem_of_dom.
Qed.

(** ** Every history *)
Inductive mem_op :=
  | AddDir (p : Path) | AddFile (p : Path) (bs : bytes) | SetCwd (p : Path)
  | Write (p : Path) (data : bytes) (append : bool) | RemoveFile (p : Path)
  | CreateDirAll (p : Path) | RemoveDirAll (p : Path).

Definition run_op (st : MemState) (o : mem_op) : MemState :=
  match o with
  | AddDir p => add_dir p st
  | AddFile p bs => add_file p bs st
  | SetCwd p => set_cwd p st
  | Write p data append => (mem_write p data append st).2
  | RemoveFile p => (mem_remove_file p st).2
  | CreateDirAll p => (mem_create_dir_all p st).2
  | RemoveDirAll p => (mem_remove_dir_all p st).2
  end.

Lemma run_op_wf st o : wf st → wf (run_op st o).
Proof.
  intros Hwf. destruct o; simpl.
  - apply mkdir_wf; [done|apply absolute_folded].
  - by apply add_file_wf.
  - assert (Hm : wf (mkdir_p (absolute p st) st)) by (apply mkdir_wf; [done|apply absolute_folded]).
    split; simpl; [apply absolute_folded|apply Hm..].
  - by apply write_wf.
  - by apply remove_file_wf.
  - by apply create_dir_all_wf.
  - by apply remove_dir_all_wf.
Qed.

(** Every file system the operations build is well formed. *)
Lemma mem_wf ops : wf (foldl run_op new ops).
Proof.
  assert (H : ∀ st, wf st → wf (foldl run_op st ops)); [|apply H, new_wf].
  induction ops as [|o ops IH]; intros st Hst; [done|]. apply IH. by apply run_op_wf.
Qed.

(** C40: However the filesystem was used, its root is a directory, every path in
    it is absolute and folded, and every directory and file is inside a
    directory. *)
Theorem mem_shape ops : wf (foldl run_op new ops).
Proof. apply mem_wf. Qed.

(** A path below a file can be made a directory, which makes the file's own
    path one: it then reads as a directory. *)
Example directory_over_file :
  let note := path_of "/r/note.txt" in
  let st := add_file note (as_bytes "n") new in
  mem_read note st = Ok (as_bytes "n")
  ∧ (mem_create_dir_all (path_of "/r/note.txt/x") st).1 = Ok tt
  ∧ mem_read note (mem_create_dir_all (path_of "/r/note.txt/x") st).2
    = Err (MkIoError IsADirectory note).
Proof. by vm_compute. Qed.
End MemFsFacts.
