(* ===== verification/Jail.v ===== *)
(** * The fs connector and its jail

    [connectors/fs/src/lib.rs]: a scope grants a directory (or a volume), a
    program names files inside it, and a path that names or resolves outside
    is refused.  What the argument and scope deserializers read from a value
    is the class [FsWire]; opening a volume file is [Volumes_open], the
    volume library's. *)

From stdpp Require Import gmap.
From S2P Require Import Prelude.
From S2P Require Import Bytes.
From S2P Require Import Value.
From S2P Require Import Caps.
From S2P Require Import Connector.
From S2P Require Import Backend.

Module Jail.

Definition DEFAULT_MAX_BYTES : N := (1024 * 1024)%N.
Definition DEFAULT_VOLUME : string := "drt".

Record FsScope := MkFsScope {
  fs_scope : string;
  fs_access : option string;
  fs_max_bytes : option N;
}.

Record VolumeScope := MkVolumeScope {
  volume_file : string;
  volume : option string;
  mount_point : option string;
  vs_access : option string;
  vs_max_bytes : option N;
}.

Inductive FsGrant := GDir (sc : FsScope) | GVolume (v : VolumeScope).

Record WriteArgs := MkWriteArgs { wa_path : string; wa_data : option Value; wa_append : bool }.

(** [rmpv::ext::from_value] at each of the four types. *)
Class FsWire := {
  scope_from_value : Value → result FsScope string;
  volume_from_value : Value → result VolumeScope string;
  path_args_from_value : Value → result string string;
  write_args_from_value : Value → result WriteArgs string;
}.

(** ** The scope *)
Section scope.
Context `{!FsWire}.

Definition parse (scope : option Scope) : result FsScope string :=
  match scope with
  | None => Err "scope is required: name the directory this connector may use"
  | Some sc =>
      parsed ←? match as_str (scope_value sc) with
                | Some dir => Ok (MkFsScope dir None None)
                | None => map_err (λ e, "scope does not parse: " +:+ e)
                            (scope_from_value (scope_value sc))
                end;
      if str_is_empty (fs_scope parsed) then Err "scope names no directory"
      else match fs_access parsed with
           | None => Ok parsed
           | Some a =>
               if bool_decide (a = "read") || bool_decide (a = "readwrite") then Ok parsed
               else Err ("config.connectors.fs.access must be " +:+ String (of_byte 34) "read"
                         +:+ String (of_byte 34) " or " +:+ String (of_byte 34) "readwrite"
                         +:+ String (of_byte 34) " (got '" +:+ a +:+ "')")
           end
  end.

Definition names_volume (scope : option Scope) : bool :=
  match scope with
  | None => false
  | Some sc =>
      match as_map (scope_value sc) with
      | Some m => existsb (λ kv, key_is "volume_file" kv.1) m
      | None => false
      end
  end.

Definition grant_parse (scope : option Scope) : result FsGrant string :=
  if negb (names_volume scope) then sc ←? parse scope; Ok (GDir sc)
  else
    match scope with
    | None => Err "a volume scope was found in it"
    | Some sc =>
        parsed ←? map_err (λ e, "scope does not parse: " +:+ e) (volume_from_value (scope_value sc));
        if str_is_empty (volume_file parsed) then Err "volume_file names no file"
        else
          _ ←? parse (Some (MkScope (VMap [(vstr "scope", vstr "/");
                                           (vstr "access", vstr (default "read" (vs_access parsed)))])));
          Ok (GVolume parsed)
    end.
End scope.

Definition writable (sc : FsScope) : bool := bool_decide (fs_access sc = Some "readwrite").
Definition max_bytes (sc : FsScope) : N := default DEFAULT_MAX_BYTES (fs_max_bytes sc).

(** ** The jail *)
Definition names_a_root (p : Path) : bool := has_root p || is_absolute p.

Definition outside (rel : string) : string :=
  "'" +:+ rel +:+ "' resolves outside the granted scope; a program names files within what the "
  +:+ "host granted, and nothing beyond it".

(** The loop of [lexically_within]: the depth under the root. *)
Fixpoint within_from (depth : Z) (parts : Path) : bool :=
  match parts with
  | [] => true
  | CurDir :: rest => within_from depth rest
  | ParentDir :: rest => if bool_decide (depth - 1 < 0)%Z then false else within_from (depth - 1) rest
  | Normal _ :: rest => within_from (depth + 1) rest
  | RootDir :: _ => false
  end.
Definition lexically_within (rel : Path) : bool := within_from 0 rel.

Section jail.
Context {F : Type} `{!Backend F}.

Definition jail_root (sc : FsScope) (fs : F) : result Path string :=
  map_err (λ e, "scope directory " +:+ fs_scope sc +:+ " cannot be resolved: " +:+ io_text e)
    (canonicalize (path_of (fs_scope sc)) fs).

Definition resolve (sc : FsScope) (fs : F) (rel : string) (must_exist : bool) : result Path string :=
  root ←? jail_root sc fs;
  let rel_path := path_of rel in
  if names_a_root rel_path then
    Err ("'" +:+ rel +:+ "' is absolute; name a path inside the granted scope")
  else if str_is_empty rel then Err "the path is empty"
  else if negb (lexically_within rel_path) then Err (outside rel)
  else
    let joined := path_join root rel_path in
    resolved ←?
      (if must_exist then
         map_err (λ e, "'" +:+ rel +:+ "': " +:+ io_text e) (canonicalize joined fs)
       else
         match parent joined with
         | None => Err ("'" +:+ rel +:+ "' has no parent directory")
         | Some up =>
             up ←? map_err (λ e, "'" +:+ rel +:+ "': the containing directory " +:+ io_text e)
                     (canonicalize up fs);
             match file_name joined with
             | None => Err ("'" +:+ rel +:+ "' names no file")
             | Some name => Ok (path_join up [Normal name])
             end
         end);
    if negb (path_starts_with resolved root) then Err (outside rel) else Ok resolved.
End jail.

(** ** Volumes *)
Definition MountKey : Type := string * string * string * bool.

Definition mount_key (v : VolumeScope) : MountKey :=
  (volume_file v, default DEFAULT_VOLUME (volume v), default "/" (mount_point v),
   bool_decide (vs_access v = Some "readwrite")).

(** [AloeliteFs::open], by the key. *)
Class Volumes_open (F : Type) := volume_open : MountKey → result F string.

(** The connector: the host's filesystem and the volumes it has open. *)
Record FsConnector (F : Type) := MkFsConnector { fs : F; volumes : gmap MountKey F }.
Arguments MkFsConnector {F} _ _.
Arguments fs {F} _.
Arguments volumes {F} _.

Section connector.
Context {F : Type} `{!Backend F, !Volumes_open F, !FsWire}.
Implicit Types w : FsConnector F.

Definition with_backend (b : F) : FsConnector F := MkFsConnector b ∅.

(** [Volumes::get]: a volume opened once is kept. *)
Definition volumes_get (v : VolumeScope) w : result F string * FsConnector F :=
  let key := mount_key v in
  match volumes w !! key with
  | Some f => (Ok f, w)
  | None =>
      match volume_open key with
      | Err e => (Err e, w)
      | Ok f => (Ok f, MkFsConnector (fs w) (<[key := f]> (volumes w)))
      end
  end.

(** [Grant::open]: the jail, and where the filesystem it runs over is kept. *)
Definition place (g : FsGrant) : option MountKey :=
  match g with GDir _ => None | GVolume v => Some (mount_key v) end.

Definition grant_open (g : FsGrant) w : result (FsScope * F) string * FsConnector F :=
  match g with
  | GDir sc => (Ok (sc, fs w), w)
  | GVolume v =>
      match volumes_get v w with
      | (Err e, w) => (Err e, w)
      | (Ok f, w) => (Ok (MkFsScope "/" (vs_access v) (vs_max_bytes v), f), w)
      end
  end.

(** The filesystem is shared: what a call leaves is put back in its place. *)
Definition put_back (at_ : option MountKey) (f : F) w : FsConnector F :=
  match at_ with
  | None => MkFsConnector f (volumes w)
  | Some key => MkFsConnector (fs w) (<[key := f]> (volumes w))
  end.

Definition bytes_of (v : Value) : option bytes :=
  match v with VStr s => Some s | VBin b => Some b | _ => None end.

Definition need_args (call : string) (args : option Value) (what : string) : result Value CallError :=
  match args with
  | Some v => Ok v
  | None => Err (CallError.new (call +:+ " takes args " +:+ what))
  end.

Definition call_read (sc : FsScope) (args : option Value) (f : F) : CallResult :=
  v ←? need_args "fs/read" args "{path}";
  a ←? map_err (λ e, CallError.new ("fs/read args: " +:+ e)) (path_args_from_value v);
  path ←? map_err CallError.new (resolve sc f a true);
  meta ←? map_err (λ e, CallError.new ("'" +:+ a +:+ "': " +:+ io_text e)) (metadata path f);
  if bool_decide (max_bytes sc < md_len meta)%N then
    Err (CallError.new ("'" +:+ a +:+ "' is " +:+ dec (md_len meta) +:+ " bytes, past the "
                        +:+ dec (max_bytes sc) +:+ "-byte cap this scope allows"))
  else
    bs ←? map_err (λ e, CallError.new ("'" +:+ a +:+ "': " +:+ io_text e)) (read path f);
    Ok (VBin bs).

(** What a write checks before it touches anything: the path, the bytes, and
    whether they are appended. *)
Definition write_checks (sc : FsScope) (args : option Value) (f : F) :
    result (WriteArgs * Path * bytes) CallError :=
  v ←? need_args "fs/write" args "{path, data, append?}";
  a ←? map_err (λ e, CallError.new ("fs/write args: " +:+ e)) (write_args_from_value v);
  data ←? match wa_data a ≫= bytes_of with
          | Some d => Ok d
          | None => Err (CallError.new "fs/write needs data (a string)")
          end;
  path ←? map_err CallError.new (resolve sc f (wa_path a) false);
  let existing :=
    if wa_append a then match metadata path f with Ok m => md_len m | Err _ => 0%N end else 0%N in
  let reached := (existing + N.of_nat (length data))%N in
  if bool_decide (max_bytes sc < reached)%N then
    Err (CallError.new ("writing '" +:+ wa_path a +:+ "' would reach " +:+ dec reached
                        +:+ " bytes, past the " +:+ dec (max_bytes sc)
                        +:+ "-byte cap this scope allows"))
  else Ok (a, path, data).

Definition call_write (sc : FsScope) (args : option Value) (f : F) : CallResult * F :=
  match write_checks sc args f with
  | Err e => (Err e, f)
  | Ok (a, path, data) =>
      let '(r, f) := write path data (wa_append a) f in
      (match r with
       | Ok _ => Ok VNil
       | Err e => Err (CallError.new ("'" +:+ wa_path a +:+ "': " +:+ io_text e))
       end, f)
  end.

(** The path of a listing is looked up by hand, and is [.] when there is none. *)
Definition list_path (args : option Value) : string :=
  default "." (v ← args; m ← as_map v; kv ← find_first (λ kv, key_is "path" kv.1) m; as_str kv.2).

Definition call_list (sc : FsScope) (args : option Value) (f : F) : CallResult :=
  let rel := list_path args in
  dir ←? map_err CallError.new (resolve sc f rel true);
  names ←? map_err (λ e, CallError.new ("'" +:+ rel +:+ "': " +:+ io_text e)) (read_dir dir f);
  Ok (VArr (vstr <$> names)).

Definition call_remove (sc : FsScope) (args : option Value) (f : F) : CallResult * F :=
  match (v ←? need_args "fs/remove" args "{path}";
         a ←? map_err (λ e, CallError.new ("fs/remove args: " +:+ e)) (path_args_from_value v);
         path ←? map_err CallError.new (resolve sc f a true); Ok (a, path)) with
  | Err e => (Err e, f)
  | Ok (a, path) =>
      let '(r, f) := remove_file path f in
      (match r with
       | Ok _ => Ok VNil
       | Err e => Err (CallError.new ("'" +:+ a +:+ "': " +:+ io_text e))
       end, f)
  end.

(** A call once the scope is open. *)
Definition call_in (sc : FsScope) (call : string) (args : option Value) (f : F) : CallResult * F :=
  let writing := bool_decide (call = "fs/write") || bool_decide (call = "fs/remove") in
  if writing && negb (writable sc) then
    (Err (CallError.new ("'" +:+ call +:+ "' needs access = " +:+ String (of_byte 34) "readwrite"
                         +:+ String (of_byte 34) "; this scope is read-only")), f)
  else if bool_decide (call = "fs/read") then (call_read sc args f, f)
  else if bool_decide (call = "fs/write") then call_write sc args f
  else if bool_decide (call = "fs/list") then (call_list sc args f, f)
  else if bool_decide (call = "fs/remove") then call_remove sc args f
  else (Err (CallError.new
          ("the fs connector answers 'fs/read', 'fs/write', 'fs/list' and 'fs/remove'; '"
           +:+ call +:+ "' is none of them")), f).

(** [Connector::call]. *)
Definition call (name : string) (args : option Value) (scope : option Scope) w :
    CallResult * FsConnector F :=
  match grant_parse scope with
  | Err e => (Err (CallError.new e), w)
  | Ok g =>
      match grant_open g w with
      | (Err e, w) => (Err (CallError.new e), w)
      | (Ok (sc, f), w) =>
          let '(r, f) := call_in sc name args f in (r, put_back (place g) f w)
      end
  end.

(** [FsScopeType] and [GrantScopeType]: a scope that does not resolve is
    refused, by the text of the refusal. *)
Definition scope_validate (scope : option Scope) w : option string :=
  match (sc ←? parse scope; jail_root sc (fs w)) with Ok _ => None | Err e => Some e end.

Definition grant_validate (scope : option Scope) w : option string * FsConnector F :=
  match grant_parse scope with
  | Err e => (Some e, w)
  | Ok g =>
      match grant_open g w with
      | (Err e, w) => (Some e, w)
      | (Ok (sc, f), w) => (match jail_root sc f with Ok _ => None | Err e => Some e end, w)
      end
  end.
End connector.
End Jail.
