(* ===== verification/JailSpec.v ===== *)
(** * The jail holds

    Over the in-memory filesystem a call changes nothing outside the granted
    directory and its answer depends on nothing outside it, and no file grows
    past the cap.  Over a filesystem with links the last name of a written
    path is not resolved, and a write goes through it.

    At the end, the theorems applied at a concrete jail. *)

From stdpp Require Import gmap sorting.
From S2P Require Import Prelude.
From S2P Require Import Bytes.
From S2P Require Import Value.
From S2P Require Import Caps.
From S2P Require Import Connector.
From S2P Require Import Backend.
From S2P Require Import Jail.
Import MemFs MemFsFacts Jail.

Module JailFacts.

(** ** Staying under the root *)

Lemma within_app d a b : within_from d (a ++ b) = true → within_from d a = true.
Proof.
  revert d; induction a as [|c a IH]; intros d; [done|]. simpl.
  destruct c; [done|apply IH| |apply IH]. case_bool_decide; [done|apply IH].
Qed.

(** Folding what never climbs above its start stays under the start. *)
Lemma within_fold parts : ∀ base names,
  folded base → within_from (Z.of_nat (length names)) parts = true →
  ∃ names', foldl normalize_step (base ++ (Normal <$> names)) parts = base ++ (Normal <$> names').
Proof.
  induction parts as [|c parts IH]; intros base names Hb Hw; simpl in *; [by exists names|].
  destruct c as [| | |n]; [done|by apply IH| |].
  - case_bool_decide as Hd; [done|].
    destruct names as [|n names _] using rev_ind; [simpl in Hd; lia|].
    rewrite fmap_app, app_assoc. simpl. fold (push (base ++ (Normal <$> names)) n).
    rewrite pop_push. apply IH; [done|]. rewrite length_app in Hw. simpl in Hw.
    by replace (Z.of_nat (length names + 1) - 1)%Z with (Z.of_nat (length names)) in Hw by lia.
  - cbn [normalize_step]. unfold push. rewrite <-app_assoc.
    change [Normal n] with (Normal <$> [n]). rewrite <-fmap_app. apply IH; [done|].
    rewrite length_app. simpl.
    by replace (Z.of_nat (length names + 1)) with (Z.of_nat (length names) + 1)%Z by lia.
Qed.

Lemma within_under base parts :
  folded base → within_from 0 parts = true → base `prefix_of` foldl normalize_step base parts.
Proof.
  intros Hb Hw. destruct (within_fold parts base [] Hb Hw) as [ns Hns].
  rewrite app_nil_r in Hns. rewrite Hns. by eexists.
Qed.

(** What is joined to a root: the relative parts, still within. *)
Lemma join_parts base rel :
  folded base → names_a_root rel = false → lexically_within rel = true →
  ∃ parts, path_join base rel = base ++ parts ∧ within_from 0 parts = true.
Proof.
  intros [ns ->] Hr Hw. unfold names_a_root, is_absolute in Hr. apply orb_false_iff in Hr as [Hr _].
  unfold path_join, lexically_within in *. rewrite Hr.
  destruct rel as [|[| | |n] rel]; simpl in *; [by exists []|done|by exists rel|done|].
  by exists (Normal n :: rel).
Qed.

Lemma normalize_under base parts :
  folded base → within_from 0 parts = true → base `prefix_of` normalize (base ++ parts).
Proof. intros Hb Hw. rewrite normalize_app, normalize_id by done. by apply within_under. Qed.

Lemma absolute_joined base parts st :
  folded base → absolute (base ++ parts) st = normalize (base ++ parts).
Proof. intros [ns ->]. done. Qed.

Lemma canonicalize_Ok p st q :
  mem_canonicalize p st = Ok q →
  q = absolute p st ∧ folded q ∧ (q ∈ dirs st ∨ is_Some (files st !! q)).
Proof.
  unfold mem_canonicalize. destruct (_ || _) eqn:Hb; [|done]. intros [= <-].
  split; [done|]. split; [apply absolute_folded|].
  apply orb_true_iff in Hb as [Hb|Hb]; apply bool_decide_eq_true in Hb; auto.
Qed.

Lemma jail_root_Ok sc (st : MemState) root :
  jail_root sc st = Ok root → folded root ∧ (root ∈ dirs st ∨ is_Some (files st !! root)).
Proof.
  unfold jail_root. simpl. destruct (mem_canonicalize _ st) as [p|] eqn:Hc; [|done].
  intros [= <-]. by apply canonicalize_Ok in Hc as (_ & ? & ?).
Qed.

(** A resolved path is under the root, and folded. *)
Lemma resolve_under sc (st : MemState) rel me p :
  resolve sc st rel me = Ok p →
  ∃ root, jail_root sc st = Ok root ∧ (root `prefix_of` p) ∧ folded p.
Proof.
  unfold resolve. destruct (jail_root sc st) as [root|e] eqn:Hr; [|done]. cbn [rbind].
  destruct (names_a_root _); [done|]. destruct (str_is_empty rel); [done|].
  destruct (negb (lexically_within _)); [done|]. intros (q & Hq & Hp)%rbind_Ok.
  destruct (path_starts_with q root) eqn:Hs; [|done]. injection Hp as <-.
  exists root. split; [done|]. split; [by apply path_starts_with_iff|].
  destruct me.
  - simpl in Hq. destruct (mem_canonicalize _ st) eqn:Hc; [|done]. injection Hq as <-.
    by apply canonicalize_Ok in Hc as (_ & ? & _).
  - destruct (parent _) as [up|]; [|done]. simpl in Hq.
    destruct (mem_canonicalize up st) as [u|] eqn:Hc; [|done]. cbn [map_err rbind] in Hq.
    destruct (file_name _) as [n|]; [|done]. injection Hq as <-.
    apply canonicalize_Ok in Hc as (_ & Hf & _). destruct Hf as [ns ->].
    by apply (folded_push _ n); exists ns.
Qed.

(** ** Nothing outside changes *)

Lemma write_at p data append (st : MemState) r st' :
  folded p → mem_write p data append st = (r, st') →
  cwd st' = cwd st ∧ dirs st' = dirs st ∧ (∀ q, q ≠ p → files st' !! q = files st !! q)
  ∧ (r = Ok tt → (p ∉ dirs st)
     ∧ files st' !! p = Some (if append then default [] (files st !! p) ++ data else data)).
Proof.
  intros Hf. unfold mem_write. rewrite absolute_id by done.
  destruct (is_dir p st) eqn:Hd; [by intros [= <- <-]|].
  apply bool_decide_eq_false in Hd.
  destruct (negb _); [by intros [= <- <-]|].
  destruct append; intros [= <- <-]; simpl; (split_and!; [done..| |]);
    try (by intros q ?; rewrite lookup_insert_ne); intros _; by rewrite lookup_insert_eq.
Qed.

Lemma remove_at_path p (st : MemState) r st' :
  folded p → mem_remove_file p st = (r, st') →
  cwd st' = cwd st ∧ dirs st' = dirs st ∧ ∀ q, q ≠ p → files st' !! q = files st !! q.
Proof.
  intros Hf. unfold mem_remove_file. rewrite absolute_id by done.
  destruct (is_dir p st); [by intros [= <- <-]|].
  destruct (files st !! p); intros [= <- <-]; [|done]. simpl.
  split_and!; [done..|]. intros q ?. by rewrite lookup_delete_ne.
Qed.

Lemma merge_sort_perm l1 l2 : l1 ≡ₚ l2 → merge_sort str_le l1 = merge_sort str_le l2.
Proof.
  intros Hp. apply (Sorted_unique str_le); [apply Sorted_merge_sort, _..|].
  by rewrite !merge_sort_Permutation.
Qed.

(** ** Nothing outside shows

    Two filesystems alike under a root. *)
Record agree (root : Path) (st1 st2 : MemState) : Prop := {
  agree_cwd : cwd st1 = cwd st2;
  agree_dirs q : root `prefix_of` q → q ∈ dirs st1 ↔ q ∈ dirs st2;
  agree_files q : root `prefix_of` q → files st1 !! q = files st2 !! q;
}.

Section agreement.
Context (root : Path) (st1 st2 : MemState).
Context (Hwf1 : wf st1) (Hwf2 : wf st2) (Hag : agree root st1 st2).

Lemma agree_absolute p : absolute p st1 = absolute p st2.
Proof. unfold absolute. by rewrite (agree_cwd _ _ _ Hag). Qed.

Lemma agree_is_dir p : root `prefix_of` p → is_dir p st1 = is_dir p st2.
Proof. intros Hp. apply bool_decide_ext. by apply (agree_dirs _ _ _ Hag). Qed.

Lemma agree_canonicalize p :
  root `prefix_of` absolute p st1 → mem_canonicalize p st1 = mem_canonicalize p st2.
Proof.
  intros Hp. unfold mem_canonicalize. rewrite <-agree_absolute, agree_is_dir by done.
  by rewrite (agree_files _ _ _ Hag _ Hp).
Qed.

Lemma agree_metadata p : folded p → root `prefix_of` p → mem_metadata p st1 = mem_metadata p st2.
Proof.
  intros Hf Hp. unfold mem_metadata. rewrite !absolute_id, agree_is_dir by done.
  by rewrite (agree_files _ _ _ Hag _ Hp).
Qed.

Lemma agree_read p : folded p → root `prefix_of` p → mem_read p st1 = mem_read p st2.
Proof.
  intros Hf Hp. unfold mem_read. rewrite !absolute_id, agree_is_dir by done.
  by rewrite (agree_files _ _ _ Hag _ Hp).
Qed.

(** A directory above something that is there is there. *)
Lemma up_exists st p q :
  wf st → folded p → p ∈ dirs st ∨ is_Some (files st !! p) → parent p = Some q →
  mem_canonicalize q st = Ok q.
Proof.
  intros Hwf Hf Hp Hq. unfold mem_canonicalize.
  destruct (folded_parent _ _ Hf Hq) as [Hfq _]. rewrite absolute_id by done.
  assert (Hd : q ∈ dirs st) by (destruct Hp; [by apply (wf_up st Hwf p)|by apply (wf_home st Hwf p)]).
  unfold is_dir. by rewrite bool_decide_true.
Qed.

Lemma agree_there p :
  root `prefix_of` p → p ∈ dirs st1 ∨ is_Some (files st1 !! p) →
  p ∈ dirs st2 ∨ is_Some (files st2 !! p).
Proof. intros Hp. by rewrite (agree_dirs _ _ _ Hag p Hp), (agree_files _ _ _ Hag p Hp). Qed.

(** What is above a joined path is the same on both sides. *)
Lemma agree_parent parts up :
  folded root → root ∈ dirs st1 ∨ is_Some (files st1 !! root) →
  within_from 0 parts = true → parent (root ++ parts) = Some up →
  mem_canonicalize up st1 = mem_canonicalize up st2.
Proof.
  intros Hf Hthere Hw Hup. destruct parts as [|c parts _] using rev_ind.
  - rewrite app_nil_r in Hup. rewrite !(up_exists _ root up); auto using agree_there.
  - rewrite app_assoc in Hup. destruct (parent_Some _ _ Hup) as (c' & Heq & _).
    apply app_inj_tail in Heq as [<- <-].
    apply agree_canonicalize. rewrite absolute_joined by done.
    apply normalize_under; [done|]. by eapply within_app.
Qed.

Lemma agree_root sc : jail_root sc st1 = Ok root → jail_root sc st2 = Ok root.
Proof.
  intros Hr. unfold jail_root in *. simpl in *.
  rewrite <-agree_canonicalize; [done|].
  destruct (mem_canonicalize _ st1) as [p|] eqn:Hc; [|done]. injection Hr as ->.
  by apply canonicalize_Ok in Hc as (<- & _).
Qed.

Lemma agree_resolve sc rel me :
  jail_root sc st1 = Ok root → resolve sc st1 rel me = resolve sc st2 rel me.
Proof.
  intros Hr. pose proof (agree_root sc Hr) as Hr2.
  destruct (jail_root_Ok sc st1 root Hr) as [Hf Hthere].
  unfold resolve. rewrite Hr, Hr2. cbn [rbind].
  destruct (names_a_root (path_of rel)) eqn:Hn; [done|]. destruct (str_is_empty rel); [done|].
  destruct (lexically_within (path_of rel)) eqn:Hw; [|done]. cbn [negb].
  destruct (join_parts root (path_of rel) Hf Hn Hw) as (parts & -> & Hp).
  f_equal. destruct me.
  - f_equal. apply agree_canonicalize. rewrite absolute_joined by done. by apply normalize_under.
  - destruct (parent (root ++ parts)) as [up|] eqn:Hup; [|done].
    simpl. by rewrite (agree_parent parts up).
Qed.

(** The names in a directory under the root. *)
Lemma names_under_perm p (l1 l2 : list Path) :
  (∀ q, parent q = Some p → q ∈ l1 ↔ q ∈ l2) → NoDup l1 → NoDup l2 →
  names_under p l1 ≡ₚ names_under p l2.
Proof.
  intros Hq H1 H2.
  assert (Hcons : ∀ q l, names_under p (q :: l) =
    if bool_decide (parent q = Some p) then option_list (file_name q) ++ names_under p l
    else names_under p l).
  { intros q l. unfold names_under. simpl. case_bool_decide; [|done]. by destruct (file_name q). }
  assert (Hfilter : ∀ l, names_under p l = names_under p (filter (λ q, parent q = Some p) l)).
  { induction l as [|q l IH]; [done|]. rewrite Hcons, filter_cons.
    case_bool_decide; case_decide; try done. by rewrite Hcons, bool_decide_true, IH by done. }
  rewrite (Hfilter l1), (Hfilter l2). apply omap_Permutation.
  apply NoDup_Permutation; [by apply NoDup_filter..|].
  intros q. rewrite !list_elem_of_filter. naive_solver.
Qed.
Lemma names_under_app p l1 l2 : names_under p (l1 ++ l2) = names_under p l1 ++ names_under p l2.
Proof. apply omap_app. Qed.

Lemma agree_read_dir p : folded p → root `prefix_of` p → mem_read_dir p st1 = mem_read_dir p st2.
Proof.
  intros Hf Hp. unfold mem_read_dir. rewrite !absolute_id, <-agree_is_dir by done.
  rewrite <-(agree_files _ _ _ Hag _ Hp). destruct (negb _); [done|]. do 2 f_equal.
  assert (Hchild : ∀ q, parent q = Some p → root `prefix_of` q).
  { intros q (c & -> & _)%parent_Some. etrans; [exact Hp|by eexists]. }
  apply merge_sort_perm. rewrite !names_under_app. apply Permutation_app.
  - apply names_under_perm; [|apply NoDup_elements..].
    intros q Hq. rewrite !elem_of_elements. apply (agree_dirs _ _ _ Hag). by apply Hchild.
  - apply names_under_perm; [|apply NoDup_elements..].
    intros q Hq. rewrite !elem_of_elements, !elem_of_dom.
    by rewrite (agree_files _ _ _ Hag q (Hchild q Hq)).
Qed.
Lemma agree_insert p bs1 bs2 :
  bs1 = bs2 →
  agree root (set_files (<[p := bs1]> (files st1)) st1) (set_files (<[p := bs2]> (files st2)) st2).
Proof.
  intros <-. split; simpl; [apply Hag|apply Hag|]. intros q Hq.
  destruct (decide (q = p)) as [->|]; [by rewrite !lookup_insert_eq|].
  rewrite !lookup_insert_ne by done. by apply Hag.
Qed.

Lemma agree_delete p :
  agree root (set_files (delete p (files st1)) st1) (set_files (delete p (files st2)) st2).
Proof.
  split; simpl; [apply Hag|apply Hag|]. intros q Hq.
  destruct (decide (q = p)) as [->|]; [by rewrite !lookup_delete_eq|].
  rewrite !lookup_delete_ne by done. by apply Hag.
Qed.

(** Whether what is above a path under the root is a directory. *)
Lemma agree_home p :
  folded p → root `prefix_of` p → root ∈ dirs st1 ∨ is_Some (files st1 !! root) →
  is_dir p st1 = false → is_dir (default [] (parent p)) st1 = is_dir (default [] (parent p)) st2.
Proof.
  intros Hf Hp Hthere Hnd. destruct (decide (p = root)) as [->|Hne].
  - apply bool_decide_eq_false in Hnd. destruct Hthere as [?|Hfile]; [done|].
    destruct (parent root) as [up|] eqn:Hup; simpl.
    + unfold is_dir. rewrite !bool_decide_true; [done| |].
      * apply (wf_home st2 Hwf2 root); [|done].
        by rewrite <-(agree_files _ _ _ Hag root) by done.
      * by apply (wf_home st1 Hwf1 root).
    + unfold is_dir. rewrite !bool_decide_false; [done| |].
      * by intros [ns [=]]%(wf_dirs st2 Hwf2).
      * by intros [ns [=]]%(wf_dirs st1 Hwf1).
  - destruct Hp as [k ->]. destruct k as [|c k _] using rev_ind; [by rewrite app_nil_r in Hne|].
    rewrite app_assoc. destruct (parent ((root ++ k) ++ [c])) as [up|] eqn:Hup; simpl.
    + apply parent_Some in Hup as (c' & Heq & _). apply app_inj_tail in Heq as [<- _].
      apply agree_is_dir. by eexists.
    + unfold is_dir. rewrite !bool_decide_false; [done| |].
      * by intros [ns [=]]%(wf_dirs st2 Hwf2).
      * by intros [ns [=]]%(wf_dirs st1 Hwf1).
Qed.

Lemma agree_write p data append :
  folded p → root `prefix_of` p → root ∈ dirs st1 ∨ is_Some (files st1 !! root) →
  (mem_write p data append st1).1 = (mem_write p data append st2).1
  ∧ agree root (mem_write p data append st1).2 (mem_write p data append st2).2.
Proof.
  intros Hf Hp Hthere. unfold mem_write. rewrite !absolute_id, <-agree_is_dir by done.
  destruct (is_dir p st1) eqn:Hd; [done|]. rewrite <-agree_home by done.
  destruct (negb _); [done|].
  destruct append; (split; [done|]); apply agree_insert; [|done].
  by rewrite (agree_files _ _ _ Hag p Hp).
Qed.

Lemma agree_remove p :
  folded p → root `prefix_of` p →
  (mem_remove_file p st1).1 = (mem_remove_file p st2).1
  ∧ agree root (mem_remove_file p st1).2 (mem_remove_file p st2).2.
Proof.
  intros Hf Hp. unfold mem_remove_file. rewrite !absolute_id, <-agree_is_dir by done.
  destruct (is_dir p st1); [done|]. rewrite <-(agree_files _ _ _ Hag p Hp).
  destruct (files st1 !! p); [|done]. split; [done|]. apply agree_delete.
Qed.
End agreement.

Section calls.
Context `{!FsWire}.

(** What a call may leave: the same, but for files under the root. *)
Definition confined (sc : FsScope) (st st' : MemState) : Prop :=
  cwd st' = cwd st ∧ dirs st' = dirs st
  ∧ ∀ q, files st' !! q ≠ files st !! q →
      ∃ root, jail_root sc st = Ok root ∧ root `prefix_of` q.

Lemma confined_refl sc st : confined sc st st.
Proof. by split_and!. Qed.

Lemma write_checks_Ok sc args (st : MemState) a p data :
  write_checks sc args st = Ok (a, p, data) →
  resolve sc st (wa_path a) false = Ok p
  ∧ ((if wa_append a then match metadata p st with Ok m => md_len m | Err _ => 0 end else 0)
     + N.of_nat (length data) ≤ max_bytes sc)%N.
Proof.
  unfold write_checks. intros (v & _ & Hk)%rbind_Ok. apply rbind_Ok in Hk as (a' & _ & Hk).
  apply rbind_Ok in Hk as (d & _ & Hk). apply rbind_Ok in Hk as (p' & Hr & Hk).
  destruct (resolve sc st (wa_path a') false) as [p''|] eqn:Hres; [|done]. injection Hr as ->.
  revert Hk. case_bool_decide as Hcap; [done|]. intros [= -> -> ->]. split; [done|lia].
Qed.

Lemma call_write_confined sc args (st : MemState) r st' :
  call_write sc args st = (r, st') → confined sc st st'.
Proof.
  unfold call_write. destruct (write_checks sc args st) as [[[a p] data]|e] eqn:Hc;
    [|intros [= _ <-]; apply confined_refl].
  apply write_checks_Ok in Hc as [Hr _]. apply resolve_under in Hr as (root & Hroot & Hp & Hf).
  destruct (write p data (wa_append a) st) as [w st1] eqn:Hw. intros [= _ <-].
  apply write_at in Hw as (H1 & H2 & H3 & _); [|done]. split_and!; [done..|].
  intros q Hq. exists root. split; [done|]. destruct (decide (q = p)) as [->|]; [done|].
  by destruct Hq; apply H3.
Qed.

Lemma call_remove_confined sc args (st : MemState) r st' :
  call_remove sc args st = (r, st') → confined sc st st'.
Proof.
  unfold call_remove.
  destruct (rbind (need_args _ _ _) _) as [[a p]|e] eqn:Hc;
    [|intros [= _ <-]; apply confined_refl].
  apply rbind_Ok in Hc as (v & _ & Hc). apply rbind_Ok in Hc as (a' & _ & Hc).
  apply rbind_Ok in Hc as (p' & Hr & [= -> ->]).
  destruct (resolve sc st a true) as [p''|] eqn:Hres; [|done]. injection Hr as ->.
  apply resolve_under in Hres as (root & Hroot & Hp & Hf).
  destruct (remove_file p st) as [w st1] eqn:Hw. intros [= _ <-].
  apply remove_at_path in Hw as (H1 & H2 & H3); [|done]. split_and!; [done..|].
  intros q Hq. exists root. split; [done|]. destruct (decide (q = p)) as [->|]; [done|].
  by destruct Hq; apply H3.
Qed.

(** C10: Whatever a program asks, what changes is a file under the granted
    directory, and nothing changes in a scope that is not writable. *)
Theorem jail_confines sc name args (st : MemState) r st' :
  call_in sc name args st = (r, st') →
  confined sc st st' ∧ (writable sc = false → st' = st).
Proof.
  unfold call_in. destruct (_ && negb (writable sc)) eqn:Hw.
  { intros [= _ <-]. split; [apply confined_refl|done]. }
  destruct (bool_decide (name = "fs/read")); [intros [= _ <-]; split; [apply confined_refl|done]|].
  destruct (bool_decide (name = "fs/write")) eqn:Hwr.
  { intros Hc. split; [by eapply call_write_confined|]. intros Hro. by rewrite Hro in Hw. }
  destruct (bool_decide (name = "fs/list")); [intros [= _ <-]; split; [apply confined_refl|done]|].
  destruct (bool_decide (name = "fs/remove")) eqn:Hrm.
  { intros Hc. split; [by eapply call_remove_confined|]. intros Hro. by rewrite Hro in Hw. }
  intros [= _ <-]. split; [apply confined_refl|done].
Qed.

(** A file a write leaves changed, and what a read answers, are within the
    scope's cap. *)
Theorem cap_holds sc args (st : MemState) :
  (∀ v st', call_in sc "fs/write" args st = (Ok v, st') →
     ∃ p bs, files st' !! p = Some bs ∧ (N.of_nat (length bs) ≤ max_bytes sc)%N
       ∧ ∀ q, q ≠ p → files st' !! q = files st !! q)
  ∧ (∀ v st', call_in sc "fs/read" args st = (Ok v, st') →
     ∃ bs, v = VBin bs ∧ (N.of_nat (length bs) ≤ max_bytes sc)%N ∧ st' = st).
Proof.
  split.
  - intros v st'. unfold call_in. destruct (_ && _); [done|]. simpl.
    unfold call_write. destruct (write_checks sc args st) as [[[a p] data]|e] eqn:Hc; [|done].
    apply write_checks_Ok in Hc as [Hr Hcap]. apply resolve_under in Hr as (root & _ & _ & Hf).
    simpl in Hcap |- *. destruct (mem_write p data (wa_append a) st) as [[[]|e] st1] eqn:Hw; [|done].
    intros [= _ <-]. apply write_at in Hw as (_ & _ & H3 & H4); [|done].
    destruct (H4 eq_refl) as [Hnd Hfile].
    exists p. eexists. split; [exact Hfile|]. split; [|exact H3].
    destruct (wa_append a); [|lia]. unfold mem_metadata in Hcap.
    rewrite absolute_id in Hcap by done. unfold is_dir in Hcap. rewrite bool_decide_false in Hcap by done.
    rewrite length_app. destruct (files st !! p); simpl in *; lia.
  - intros v st'. unfold call_in. simpl. unfold call_read. intros [= Hc <-].
    apply rbind_Ok in Hc as (x & _ & Hc). apply rbind_Ok in Hc as (a & _ & Hc).
    apply rbind_Ok in Hc as (p & _ & Hc). apply rbind_Ok in Hc as (m & Hm & Hc).
    revert Hc. case_bool_decide as Hcap; [done|]. intros (bs & Hb & [= <-])%rbind_Ok.
    exists bs. split; [done|]. split; [|done]. simpl in Hm, Hb.
    unfold mem_metadata, mem_read in *. destruct (is_dir _ st); [done|].
    destruct (files st !! _); [|done]. simpl in *. simplify_eq. simpl in Hcap. lia.
Qed.

Section blind.
Context (sc : FsScope) (root : Path) (st1 st2 : MemState).
Context (Hwf1 : wf st1) (Hwf2 : wf st2) (Hag : agree root st1 st2).
Context (Hroot : jail_root sc st1 = Ok root).

Lemma blind_resolve rel me p :
  resolve sc st1 rel me = Ok p → folded p ∧ (root `prefix_of` p).
Proof.
  intros (root' & Hr & Hp & Hf)%resolve_under. rewrite Hroot in Hr. by injection Hr as <-.
Qed.

Lemma blind_read args : call_read sc args st1 = call_read sc args st2.
Proof.
  unfold call_read. destruct (need_args _ _ _) as [v|]; [|done]. simpl rbind.
  destruct (path_args_from_value v) as [a|]; [|done]. simpl rbind.
  rewrite <-(agree_resolve root st1 st2) by done.
  destruct (resolve sc st1 a true) as [p|] eqn:Hres; [|done]. cbn [map_err rbind].
  apply blind_resolve in Hres as [Hf Hp]. simpl.
  rewrite <-(agree_metadata root st1 st2), <-(agree_read root st1 st2) by done. done.
Qed.

Lemma blind_list args : call_list sc args st1 = call_list sc args st2.
Proof.
  unfold call_list. rewrite <-(agree_resolve root st1 st2) by done.
  destruct (resolve sc st1 _ true) as [p|] eqn:Hres; [|done]. cbn [map_err rbind].
  apply blind_resolve in Hres as [Hf Hp]. simpl.
  by rewrite <-(agree_read_dir root st1 st2) by done.
Qed.

Lemma blind_checks args : write_checks sc args st1 = write_checks sc args st2.
Proof.
  unfold write_checks. destruct (need_args _ _ _) as [v|]; [|done]. simpl rbind.
  destruct (write_args_from_value v) as [a|]; [|done]. simpl rbind.
  destruct (match wa_data a ≫= bytes_of with Some d => _ | None => _ end) as [d|]; [|done].
  cbn [rbind]. rewrite <-(agree_resolve root st1 st2) by done.
  destruct (resolve sc st1 _ false) as [p|] eqn:Hres; [|done]. cbn [map_err rbind].
  apply blind_resolve in Hres as [Hf Hp]. simpl.
  by rewrite <-(agree_metadata root st1 st2) by done.
Qed.

Lemma blind_write args :
  (call_write sc args st1).1 = (call_write sc args st2).1
  ∧ agree root (call_write sc args st1).2 (call_write sc args st2).2.
Proof.
  unfold call_write. rewrite <-blind_checks.
  destruct (write_checks sc args st1) as [[[a p] data]|e] eqn:Hc; [|done].
  apply write_checks_Ok in Hc as [Hr _]. apply blind_resolve in Hr as [Hf Hp].
  destruct (jail_root_Ok _ _ _ Hroot) as [_ Hthere].
  destruct (agree_write root st1 st2 Hwf1 Hwf2 Hag p data (wa_append a) Hf Hp Hthere) as [H1 H2].
  simpl. destruct (mem_write p data _ st1), (mem_write p data _ st2). simpl in *. by subst.
Qed.

Lemma blind_remove args :
  (call_remove sc args st1).1 = (call_remove sc args st2).1
  ∧ agree root (call_remove sc args st1).2 (call_remove sc args st2).2.
Proof.
  unfold call_remove. destruct (need_args _ _ _) as [v|]; [|done]. simpl rbind.
  destruct (path_args_from_value v) as [a|]; [|done]. simpl rbind.
  rewrite <-(agree_resolve root st1 st2) by done.
  destruct (resolve sc st1 a true) as [p|] eqn:Hres; [|done]. cbn [map_err rbind].
  apply blind_resolve in Hres as [Hf Hp].
  destruct (agree_remove root st1 st2 Hag p Hf Hp) as [H1 H2].
  simpl. destruct (mem_remove_file p st1), (mem_remove_file p st2). simpl in *. by subst.
Qed.

(** What a call answers, and what it leaves under the granted directory,
    depends on nothing outside that directory. *)
Theorem jail_blind name args :
  (call_in sc name args st1).1 = (call_in sc name args st2).1
  ∧ agree root (call_in sc name args st1).2 (call_in sc name args st2).2.
Proof.
  unfold call_in. destruct (_ && _); [done|].
  destruct (bool_decide (name = "fs/read")); [split; [apply blind_read|done]|].
  destruct (bool_decide (name = "fs/write")); [apply blind_write|].
  destruct (bool_decide (name = "fs/list")); [split; [apply blind_list|done]|].
  by destruct (bool_decide (name = "fs/remove")); [apply blind_remove|].
Qed.
End blind.
End calls.
End JailFacts.
Import MemFs MemFsFacts Jail JailFacts.

(** ** The arguments as maps *)
Definition field (name : string) (v : Value) : option Value :=
  m ← as_map v; kv ← find_first (λ kv, key_is name kv.1) m; Some kv.2.

#[export] Instance demo_fs_wire : FsWire := {|
  scope_from_value v :=
    match field "scope" v ≫= as_str with
    | Some d => Ok (MkFsScope d (field "access" v ≫= as_str) (field "max_bytes" v ≫= as_u64))
    | None => Err "missing field `scope`"
    end;
  volume_from_value v :=
    match field "volume_file" v ≫= as_str with
    | Some d => Ok (MkVolumeScope d (field "volume" v ≫= as_str) (field "mount_point" v ≫= as_str)
                      (field "access" v ≫= as_str) (field "max_bytes" v ≫= as_u64))
    | None => Err "missing field `volume_file`"
    end;
  path_args_from_value v :=
    match field "path" v ≫= as_str with Some p => Ok p | None => Err "missing field `path`" end;
  write_args_from_value v :=
    match field "path" v ≫= as_str with
    | Some p => Ok (MkWriteArgs p (field "data" v) (match field "append" v with Some (VBool b) => b | _ => false end))
    | None => Err "missing field `path`"
    end;
|}.

Definition demo_scope : FsScope := MkFsScope "/work" (Some "readwrite") (Some 16%N).
Definition demo_fs : MemState :=
  add_file (path_of "/secret.txt") (as_bytes "outside")
    (add_file (path_of "/work/note.txt") (as_bytes "hello") new).
Definition other_fs : MemState :=
  add_file (path_of "/work/note.txt") (as_bytes "hello") new.
Definition work : Path := path_of "/work".

Definition write_args (p data : string) : option Value :=
  Some (VMap [(vstr "path", vstr p); (vstr "data", vstr data); (vstr "append", VBool true)]).
Definition path_args (p : string) : option Value := Some (VMap [(vstr "path", vstr p)]).

Lemma jail_demo_wf : wf demo_fs.
Proof. apply (mem_wf [AddFile (path_of "/work/note.txt") (as_bytes "hello");
                         AddFile (path_of "/secret.txt") (as_bytes "outside")]). Qed.
Lemma other_wf : wf other_fs.
Proof. apply (mem_wf [AddFile (path_of "/work/note.txt") (as_bytes "hello")]). Qed.

Example read_refusals :
  (λ p, is_ok (resolve demo_scope demo_fs p true)) <$>
    ["note.txt"; "./note.txt"; "x/../note.txt"; "../secret.txt"; "/secret.txt"; ""; "missing"]
  = [true; true; true; false; false; false; false].
Proof. by vm_compute. Qed.

Lemma jail_confines_witness :
  confined demo_scope demo_fs (call_in demo_scope "fs/write" (write_args "note.txt" "!") demo_fs).2
  ∧ files (call_in demo_scope "fs/write" (write_args "note.txt" "!") demo_fs).2 !! path_of "/work/note.txt"
    = Some (as_bytes "hello!").
Proof.
  split; [|by vm_compute].
  eapply (jail_confines demo_scope "fs/write" (write_args "note.txt" "!") demo_fs).
  apply surjective_pairing.
Defined.

(** Alike under [/work]. *)
Lemma demo_agree : agree work demo_fs other_fs.
Proof.
  split.
  - done.
  - intros q Hq. unfold demo_fs. by rewrite add_file_dirs by by vm_compute.
  - intros q Hq. unfold demo_fs. rewrite add_file_files, lookup_insert_ne; [done|].
    intros <-. by destruct Hq as [k [=]].
Qed.

Lemma jail_blind_witness :
  (call_in demo_scope "fs/list" None demo_fs).1 = (call_in demo_scope "fs/list" None other_fs).1
  ∧ (call_in demo_scope "fs/list" None demo_fs).1 = Ok (VArr [vstr "note.txt"]).
Proof.
  split; [|by vm_compute].
  apply (jail_blind demo_scope work demo_fs other_fs jail_demo_wf other_wf demo_agree).
  by vm_compute.
Defined.

(** ** A filesystem with links *)
Module LinkFs.

Inductive Node := NDir | NFile (bs : bytes) | NLink (target : Path).
Definition Links : Type := gmap Path Node.

(** [realpath]: each name is looked up, a link's target takes its place; the
    fuel bounds the links followed. *)
Fixpoint walk (fuel : nat) (fs : Links) (at_ : Path) (rest : Path) : result Path IoError :=
  match fuel with
  | 0 => Err (MkIoError OtherKind at_)
  | S fuel' =>
      match rest with
      | [] => Ok at_
      | RootDir :: rest' => walk fuel' fs [RootDir] rest'
      | CurDir :: rest' => walk fuel' fs at_ rest'
      | ParentDir :: rest' => walk fuel' fs (pop at_) rest'
      | Normal n :: rest' =>
          match fs !! push at_ n with
          | None => Err (MkIoError NotFound (push at_ n))
          | Some (NLink t) => walk fuel' fs at_ (t ++ rest')
          | Some _ => walk fuel' fs (push at_ n) rest'
          end
      end
  end.

Definition realpath (p : Path) (fs : Links) : result Path IoError := walk 64 fs [RootDir] p.

Definition at_path {A} (p : Path) (fs : Links) (k : Path → option Node → result A IoError) :
    result A IoError :=
  q ←? realpath p fs; k q (fs !! q).

Definition link_metadata (p : Path) (fs : Links) : result Metadata IoError :=
  at_path p fs (λ q o, match o with
    | Some (NFile bs) => Ok (MkMetadata (N.of_nat (length bs)) false)
    | _ => Ok (MkMetadata 0 true)
    end).

Definition link_read (p : Path) (fs : Links) : result bytes IoError :=
  at_path p fs (λ q o, match o with
    | Some (NFile bs) => Ok bs
    | _ => Err (MkIoError IsADirectory p)
    end).

(** Opening for writing follows a link at the end of the path. *)
Definition link_write (p : Path) (data : bytes) (append : bool) (fs : Links) :
    result unit IoError * Links :=
  match realpath p fs with
  | Ok q =>
      match fs !! q with
      | Some (NFile bs) => (Ok tt, <[q := NFile (if append then bs ++ data else data)]> fs)
      | _ => (Err (MkIoError IsADirectory p), fs)
      end
  | Err e =>
      match parent p, file_name p with
      | Some up, Some n =>
          match realpath up fs with
          | Ok u => (Ok tt, <[push u n := NFile data]> fs)
          | Err e => (Err e, fs)
          end
      | _, _ => (Err e, fs)
      end
  end.

Definition unsupported {A} (p : Path) (fs : Links) : result A IoError * Links :=
  (Err (MkIoError OtherKind p), fs).

#[export] Instance link_backend : Backend Links := {|
  canonicalize := realpath;
  metadata := link_metadata;
  read := link_read;
  write := link_write;
  read_dir p fs := Ok [];
  remove_file := unsupported;
  create_dir_all := unsupported;
  remove_dir_all := unsupported;
  io_text e := path_text (io_path e);
|}.

(** A granted directory holding a link to a file outside it. *)
Definition linked : Links :=
  list_to_map [(path_of "/", NDir); (path_of "/work", NDir);
               (path_of "/work/link", NLink (path_of "/secret.txt"));
               (path_of "/secret.txt", NFile (as_bytes "outside"))].

Definition link_args (p data : string) : option Value :=
  Some (VMap [(vstr "path", vstr p); (vstr "data", vstr data)]).

(** The jail resolves the directory a written file is in but not the file's
    own name: a read through a link that leaves the granted directory is
    refused, a write through the same link changes the file outside. *)
Theorem write_follows_link :
  (call_in demo_scope "fs/read" (path_args "link") linked).1
    = Err (CallError.new (outside "link"))
  ∧ (call_in demo_scope "fs/write" (link_args "link" "changed") linked).1 = Ok VNil
  ∧ link_read (path_of "/secret.txt") (call_in demo_scope "fs/write" (link_args "link" "changed") linked).2
    = Ok (as_bytes "changed").
Proof. split; [|split]; vm_compute; reflexivity. Qed.
End LinkFs.
