(* ===== verification/Reach.v ===== *)
(** * Internet addresses as Rust's standard library has them

    [IpAddr] with its text and its classes, unsigned decimal text of other
    widths, and little-endian integers.  Nothing here is code of the
    repository.

    ** Who may connect, and what may be reached

    [crates/drt-rtc/src/cidr.rs] (ranges of addresses), [scope.rs] (the
    targets a block names, checked before a connection and again on the
    resolved address) and [wisp.rs] (the packets on a channel). *)

From S2P Require Import Prelude.
From S2P Require Import Bytes.
From S2P Require Import Node.

(** [u32] and [u128] for the two families. *)
Inductive IpAddr := V4 (a : N) | V6 (a : N).
#[export] Instance IpAddr_eq_dec : EqDecision IpAddr.
Proof. solve_decision. Defined.

Definition ip_ok (ip : IpAddr) : Prop :=
  match ip with V4 a => (a < 2 ^ 32)%N | V6 a => (a < 2 ^ 128)%N end.

Definition is_ipv4 (ip : IpAddr) : bool := match ip with V4 _ => true | V6 _ => false end.

(** [Ipv6Addr::to_ipv4_mapped]: [::ffff:a.b.c.d]. *)
Definition to_ipv4_mapped (a : N) : option N :=
  if bool_decide (a / 2 ^ 32 = 65535)%N then Some (a `mod` 2 ^ 32)%N else None.
Definition mapped (a : N) : N := (65535 * 2 ^ 32 + a)%N.

(** The classes of [Ipv4Addr] and [Ipv6Addr]. *)
Definition v4_is_loopback (a : N) : bool := bool_decide (a / 2 ^ 24 = 127)%N.
Definition v4_is_link_local (a : N) : bool := bool_decide (a / 2 ^ 16 = 169 * 256 + 254)%N.
Definition v4_is_unspecified (a : N) : bool := bool_decide (a = 0)%N.
Definition v4_is_multicast (a : N) : bool := bool_decide (a / 2 ^ 28 = 14)%N.
Definition v4_is_broadcast (a : N) : bool := bool_decide (a = 2 ^ 32 - 1)%N.
Definition v6_is_loopback (a : N) : bool := bool_decide (a = 1)%N.
Definition v6_is_unspecified (a : N) : bool := bool_decide (a = 0)%N.
Definition v6_is_multicast (a : N) : bool := bool_decide (a / 2 ^ 120 = 255)%N.
Definition is_loopback (ip : IpAddr) : bool :=
  match ip with V4 a => v4_is_loopback a | V6 a => v6_is_loopback a end.

(** ** Text

    The standard library's recursive-descent parser: each reader takes what
    it reads off the front, or nothing. *)
Definition hex_val (c : ascii) : option N :=
  let v := byte_val c in
  if in_range 48 57 v then Some (v - 48)%N
  else if in_range 65 70 v then Some (v - 55)%N
  else if in_range 97 102 v then Some (v - 87)%N
  else None.

Definition digit_in (radix : N) (c : ascii) : option N :=
  d ← hex_val c; if bool_decide (d < radix)%N then Some d else None.

Fixpoint read_digits (radix : N) (s : string) (acc : N) (count : nat) : N * nat * string :=
  match s with
  | String c s' =>
      match digit_in radix c with
      | Some d => read_digits radix s' (acc * radix + d)%N (S count)
      | None => (acc, count, s)
      end
  | EmptyString => (acc, count, s)
  end.

(** [read_number] of at most [maxd] digits, below [limit]. *)
Definition read_number (radix : N) (maxd : nat) (zero_prefix : bool) (limit : N) (s : string) :
    option (N * string) :=
  let '(n, count, rest) := read_digits radix s 0 0 in
  if bool_decide (count = 0) || bool_decide (maxd < count) then None
  else if negb zero_prefix && starts_with s "0" && bool_decide (1 < count) then None
  else if bool_decide (n < limit)%N then Some (n, rest) else None.

Definition read_given (c : ascii) (s : string) : option string :=
  match s with
  | String a s' => if bool_decide (a = c) then Some s' else None
  | EmptyString => None
  end.

Definition read_octet (s : string) : option (N * string) := read_number 10 3 false 256 s.

Definition read_v4 (s : string) : option (N * string) :=
  '(a, s) ← read_octet s; s ← read_given "." s;
  '(b, s) ← read_octet s; s ← read_given "." s;
  '(c, s) ← read_octet s; s ← read_given "." s;
  '(d, s) ← read_octet s;
  Some (((a * 256 + b) * 256 + c) * 256 + d, s)%N.

(** [read_groups]: up to [limit] groups from the [i]th on, the last two
    possibly an embedded [v4]. *)
Fixpoint read_groups (limit i : nat) (left : nat) (s : string) : list N * bool * string :=
  match left with
  | 0 => ([], false, s)
  | S left' =>
      let sep := if bool_decide (i = 0) then Some s else read_given ":" s in
      match (if bool_decide (i < limit - 1) then s1 ← sep; read_v4 s1 else None) with
      | Some (v4, rest) => ([v4 / 65536; v4 `mod` 65536]%N, true, rest)
      | None =>
          match (s1 ← sep; read_number 16 4 true 65536 s1) with
          | Some (g, rest) =>
              let '(gs, emb, rest) := read_groups limit (S i) left' rest in (g :: gs, emb, rest)
          | None => ([], false, s)
          end
      end
  end.

Definition of_groups (gs : list N) : N := foldl (λ acc g, acc * 65536 + g)%N 0%N gs.

Definition read_v6 (s : string) : option (N * string) :=
  let '(hd, hd_v4, s1) := read_groups 8 0 8 s in
  if bool_decide (length hd = 8) then Some (of_groups hd, s1)
  else if hd_v4 : bool then None
  else
    s2 ← read_given ":" s1; s3 ← read_given ":" s2;
    let limit := 8 - (length hd + 1) in
    let '(tl, _, s4) := read_groups limit 0 limit s3 in
    Some (of_groups (hd ++ replicate (8 - length hd - length tl) 0%N ++ tl), s4).

(** [str::parse::<IpAddr>]. *)
Definition parse_ip (s : string) : option IpAddr :=
  match read_v4 s with
  | Some (a, rest) => if str_is_empty rest then Some (V4 a) else None
  | None =>
      match read_v6 s with
      | Some (a, rest) => if str_is_empty rest then Some (V6 a) else None
      | None => None
      end
  end.

Example parses :
  parse_ip <$> ["10.9.0.7"; "::1"; "fd00::1"; "::ffff:10.9.0.7"; "1:2:3:4:5:6:7:8"; "1::";
                "10.9.0"; "010.9.0.7"; "256.1.1.1"; "box.lan"; "1:2:3:4:5:6:7:8:9"; ":::"; ""]
  = [Some (V4 168361991); Some (V6 1); Some (V6 (64768 * 2 ^ 112 + 1));
     Some (V6 (mapped 168361991)); Some (V6 (of_groups [1; 2; 3; 4; 5; 6; 7; 8]%N)); Some (V6 (2 ^ 112));
     None; None; None; None; None; None; None]%N.
Proof. by vm_compute. Qed.

(** [str::parse] of an unsigned integer below [limit]. *)
Definition parse_unsigned (limit : N) (s : string) : option N :=
  let digits := match s with String "+" s' => s' | _ => s end in
  if str_is_empty digits then None
  else n ← parse_digits 0 digits; if bool_decide (n < limit)%N then Some n else None.

Lemma parse_unsigned_bound limit s n : parse_unsigned limit s = Some n → (n < limit)%N.
Proof.
  unfold parse_unsigned. destruct (str_is_empty _); [done|].
  destruct (parse_digits _ _) as [m|]; [|done]. simpl. case_bool_decide; [|done]. by intros [= <-].
Qed.

Lemma parse_unsigned_dec limit n : (n < limit)%N → parse_unsigned limit (dec n) = Some n.
Proof.
  intros Hn. unfold parse_unsigned.
  assert (Hd : ∀ s, Forall is_digit (as_bytes s) → match s with String "+" s' => s' | _ => s end = s).
  { intros [|c s] Hs; [done|]. apply Forall_cons in Hs as [[d Hd] _].
    repeat (case_match; try done). }
  rewrite Hd by apply dec_digits. unfold str_is_empty.
  rewrite bool_decide_false by apply dec_not_empty.
  rewrite parse_digits_dec. simpl. by rewrite bool_decide_true.
Qed.

(** ** Little-endian integers *)
Definition le16 (n : N) : bytes := [of_byte (n `mod` 256); of_byte (n / 256)].
Definition le32 (n : N) : bytes := reverse (be32 n).
Definition from_le (bs : bytes) : N := from_be (reverse bs).

Lemma from_le16 n : (n < 65536)%N → from_le (le16 n) = n.
Proof. intros Hn. change (from_le (le16 n)) with (from_be (be16 n)). by apply from_be16. Qed.

Lemma from_le32 n : (n < 2 ^ 32)%N → from_le (le32 n) = n.
Proof. intros Hn. unfold from_le, le32. rewrite reverse_involutive. by apply from_be32. Qed.

Lemma le32_from_le a b c d : le32 (from_le [a; b; c; d]) = [a; b; c; d].
Proof. unfold le32, from_le. change (reverse [a; b; c; d]) with [d; c; b; a]. by rewrite be32_from_be. Qed.

Lemma from_le32_bound a b c d : (from_le [a; b; c; d] < 2 ^ 32)%N.
Proof.
  pose proof (byte_val_lt a); pose proof (byte_val_lt b); pose proof (byte_val_lt c);
    pose proof (byte_val_lt d).
  unfold from_le, from_be. change (reverse [a; b; c; d]) with [d; c; b; a].
  cbn -[N.mul N.add N.lt]. change (2 ^ 32)%N with 4294967296%N. lia.
Qed.

Lemma from_le16_bound a b : (from_le [a; b] < 65536)%N.
Proof.
  pose proof (byte_val_lt a); pose proof (byte_val_lt b).
  unfold from_le, from_be. change (reverse [a; b]) with [b; a]. cbn -[N.mul N.add N.lt]. lia.
Qed.

Lemma le16_from_le a b : le16 (from_le [a; b]) = [a; b].
Proof.
  pose proof (byte_val_lt a); pose proof (byte_val_lt b).
  unfold from_le, from_be, le16. change (reverse [a; b]) with [b; a]. cbn -[N.mul N.add N.div N.modulo].
  assert (Hb : ∀ x y, byte_val x = y → of_byte y = x) by (intros x y <-; apply of_byte_val).
  repeat f_equal; apply Hb; zify; Z.to_euclidean_division_equations; lia.
Qed.

(** ** Ranges *)
Module Cidr.

Record Cidr := MkCidr { ip : IpAddr; prefix : N }.

(** [trim_start_matches(c)] and [trim_end_matches(c)]. *)
Fixpoint trim_start_matches (c : ascii) (s : string) : string :=
  match s with
  | String a s' => if bool_decide (a = c) then trim_start_matches c s' else s
  | EmptyString => ""
  end.
Definition trim_end_matches (c : ascii) (s : string) : string :=
  of_bytes (reverse (as_bytes (trim_start_matches c (of_bytes (reverse (as_bytes s)))))).

Definition bits (ip : IpAddr) : N := if is_ipv4 ip then 32 else 128.

Definition parse (s : string) : result Cidr string :=
  let '(text, pfx) := match split_once "/" s with
                      | Some (ip, p) => (ip, Some p)
                      | None => (s, None)
                      end in
  match parse_ip (trim_end_matches "]" (trim_start_matches "[" text)) with
  | None => Err ("'" +:+ s +:+ "' is not an address or an address/prefix range")
  | Some ip =>
      match pfx with
      | None => Ok (MkCidr ip (bits ip))
      | Some p =>
          match parse_unsigned 256 p with
          | Some n =>
              if bool_decide (n ≤ bits ip)%N then Ok (MkCidr ip n)
              else Err ("'" +:+ s +:+ "': the prefix is not 0..=" +:+ dec (bits ip))
          | None => Err ("'" +:+ s +:+ "': the prefix is not 0..=" +:+ dec (bits ip))
          end
      end
  end.

Definition unmap (ip : IpAddr) : IpAddr :=
  match ip with
  | V6 a => match to_ipv4_mapped a with Some v4 => V4 v4 | None => V6 a end
  | V4 a => V4 a
  end.

(** A mask of [w] bits, [None] where the subtraction leaves its width. *)
Definition mask (w prefix : N) : option N :=
  if bool_decide (prefix = 0)%N then Some 0%N
  else if bool_decide (w < prefix)%N then None
  else Some (N.shiftl (2 ^ w - 1) (w - prefix) `mod` 2 ^ w)%N.
Definition mask32 : N → option N := mask 32.
Definition mask128 : N → option N := mask 128.

Definition contains (c : Cidr) (addr : IpAddr) : option bool :=
  match ip c, unmap addr with
  | V4 net, V4 a => m ← mask32 (prefix c); Some (bool_decide (N.land net m = N.land a m))
  | V6 net, V6 a => m ← mask128 (prefix c); Some (bool_decide (N.land net m = N.land a m))
  | _, _ => Some false
  end.

Definition is_single (c : Cidr) : bool := bool_decide (prefix c = bits (ip c)).
End Cidr.

(** ** Targets *)
Module Scope.

Definition SCHEMES : list (string * N) := [("http", 80); ("https", 443); ("ssh", 22)]%N.

Definition is_service_name (name : string) : bool :=
  let b := as_bytes name in
  bool_decide (1 ≤ length b ≤ 32)
  && negb (bool_decide (head b = Some "-"%char))
  && forallb (λ c, in_range 97 122 (byte_val c) || in_range 48 57 (byte_val c)
                   || bool_decide (c = "-"%char)) b.

Record Entry := MkEntry { scheme : string; e_host : string; port : N }.

Definition parse_port (entry p : string) : result N string :=
  match parse_unsigned 65536 p with
  | Some n => if bool_decide (n = 0)%N
              then Err ("scope entry '" +:+ entry +:+ "': '" +:+ p +:+ "' is not a port")
              else Ok n
  | None => Err ("scope entry '" +:+ entry +:+ "': '" +:+ p +:+ "' is not a port")
  end.

(** [split_once] at a text rather than a character. *)
Fixpoint split_text (sep s : string) : option (string * string) :=
  match strip_prefix sep s with
  | Some r => Some ("", r)
  | None =>
      match s with
      | EmptyString => None
      | String a s' => '(l, r) ← split_text sep s'; Some (String a l, r)
      end
  end.

Definition lowercase (s : string) : string := of_bytes (to_ascii_lowercase <$> as_bytes s).

Definition default_port_of (scheme : string) : option N :=
  kv ← find_first (λ kv, bool_decide (kv.1 = scheme)) SCHEMES; Some kv.2.

Definition host_and_port (s authority : string) (default_port : N) : result (string * N) string :=
  match strip_prefix "[" authority with
  | Some v6 =>
      match split_once "]" v6 with
      | None => Err ("scope entry '" +:+ s +:+ "': unclosed '['")
      | Some (addr, after) =>
          match strip_prefix ":" after with
          | Some p => port ←? parse_port s p; Ok (addr, port)
          | None => if str_is_empty after then Ok (addr, default_port)
                    else Err ("scope entry '" +:+ s +:+ "': junk after ']'")
          end
      end
  | None =>
      match rsplit_once ":" authority with
      | Some (h, p) => port ←? parse_port s p; Ok (h, port)
      | None => Ok (authority, default_port)
      end
  end.

Definition parse (s : string) : result Entry string :=
  match split_text "://" s with
  | None => Err ("scope entry '" +:+ s +:+ "' is not scheme://host[:port]")
  | Some (sch, rest) =>
      let sch := lowercase sch in
      match default_port_of sch with
      | None => Err ("scope entry '" +:+ s +:+ "': scheme must be one of http, https, ssh")
      | Some default_port =>
          let authority := default rest (strip_suffix "/" rest) in
          if existsb (λ c, contains_char c authority) ["/"; "?"; "#"; "@"]%char then
            Err ("scope entry '" +:+ s +:+ "' names more than a host and port; the host enforces only those")
          else
            hp ←? host_and_port s authority default_port;
            if str_is_empty hp.1 then Err ("scope entry '" +:+ s +:+ "' has no host")
            else Ok (MkEntry sch hp.1 hp.2)
      end
  end.

Definition url (e : Entry) : string :=
  if contains_char ":" (e_host e)
  then scheme e +:+ "://[" +:+ e_host e +:+ "]:" +:+ dec (port e)
  else scheme e +:+ "://" +:+ e_host e +:+ ":" +:+ dec (port e).

Definition unbracket (host : string) : string :=
  default host (h ← strip_prefix "[" host; strip_suffix "]" h).

Definition allows (entries : list Entry) (host : string) (port_ : N) : option Entry :=
  let host := unbracket host in
  find_first (λ e, bool_decide (port e = port_) && eq_ignore_ascii_case (e_host e) host) entries.

Definition special_v4 (a : N) : bool :=
  v4_is_loopback a || v4_is_link_local a || v4_is_unspecified a || v4_is_multicast a
  || v4_is_broadcast a || bool_decide (a = ((100 * 256 + 100) * 256 + 100) * 256 + 200)%N.

Definition special_purpose (ip : IpAddr) : bool :=
  match ip with
  | V4 a => special_v4 a
  | V6 a =>
      match to_ipv4_mapped a with
      | Some v4 => special_v4 v4
      | None =>
          v6_is_loopback a || v6_is_unspecified a || v6_is_multicast a
          || bool_decide (N.land (a / 2 ^ 112) 65472 = 65152)%N
          || bool_decide (a = of_groups [64768; 3778; 0; 0; 0; 0; 0; 596]%N)
      end
  end.

Definition resolved_ok (e : Entry) (ip : IpAddr) : bool :=
  if negb (special_purpose ip) then true
  else match parse_ip (e_host e) with
       | Some literal => bool_decide (literal = ip)
       | None => eq_ignore_ascii_case (e_host e) "localhost" && is_loopback ip
       end.
End Scope.

(** ** Packets *)
Module Wisp.

Definition MAX_MESSAGE : nat := 16 * 1024.
Definition HEADER : nat := 5.
Definition MAX_PAYLOAD : nat := MAX_MESSAGE - HEADER.

Definition CONNECT : N := 1.
Definition DATA : N := 2.
Definition CONTINUE : N := 3.
Definition CLOSE : N := 4.
Definition END : N := 5.

(** [reason::name]. *)
Definition reason_name (code : N) : string :=
  match find_first (λ kv, bool_decide (kv.1 = code))
    [(1, "unspecified"); (2, "voluntary"); (3, "network_error"); (65, "invalid");
     (66, "unreachable"); (67, "timeout"); (68, "refused"); (71, "idle"); (72, "blocked");
     (73, "throttled"); (129, "client_error")]%N with
  | Some kv => kv.2
  | None => "unknown"
  end.

Inductive Packet :=
  | Connect (stream kind port : N) (host : bytes)
  | Data (stream : N) (payload : bytes)
  | Continue (stream remaining : N)
  | Close (stream reason : N)
  | End_ (stream : N)
  | Malformed (kind stream : N)
  | Unknown (kind stream : N).

Definition parse (msg : bytes) : option Packet :=
  match msg with
  | k :: a :: b :: c :: d :: body =>
      let kind := byte_val k in
      let stream := from_le [a; b; c; d] in
      Some
        (if bool_decide (kind = CONNECT) then
           match body with
           | sk :: p0 :: p1 :: host => Connect stream (byte_val sk) (from_le [p0; p1]) host
           | _ => Malformed kind stream
           end
         else if bool_decide (kind = DATA) then Data stream body
         else if bool_decide (kind = CONTINUE) then
           match body with
           | r0 :: r1 :: r2 :: r3 :: _ => Continue stream (from_le [r0; r1; r2; r3])
           | _ => Malformed kind stream
           end
         else if bool_decide (kind = CLOSE) then
           match body with r :: _ => Close stream (byte_val r) | [] => Malformed kind stream end
         else if bool_decide (kind = END) then End_ stream
         else Unknown kind stream)
  | _ => None
  end.

Definition header (kind stream : N) : bytes := of_byte kind :: le32 stream.
Definition connect (stream kind port : N) (host : string) : bytes :=
  header CONNECT stream ++ of_byte kind :: le16 port ++ as_bytes host.
Definition data (stream : N) (payload : bytes) : bytes := header DATA stream ++ payload.
Definition cont (stream remaining : N) : bytes := header CONTINUE stream ++ le32 remaining.
Definition end_ (stream : N) : bytes := header END stream.
Definition close (stream reason : N) : bytes := header CLOSE stream ++ [of_byte reason].
End Wisp.

Example cidr_parses :
  (λ s, is_ok (Cidr.parse s)) <$>
    ["10.9.0.0/24"; "192.0.2.1"; "fd00::/16"; "0.0.0.0/0"; "[::1]"; "10.9.0.0/33"; "box.lan"; "fd00::/129"; "10.9/8"; ""]
  = [true; true; true; true; true; false; false; false; false; false].
Proof. by vm_compute. Qed.

Example entry_parses :
  (λ s, match Scope.parse s with
        | Ok e => Some (Scope.scheme e, Scope.e_host e, Scope.port e)
        | Err _ => None
        end) <$>
    ["http://127.0.0.1:8123"; "ssh://box"; "HTTPS://Box.Lan/"; "http://[fd00::1]:8096"; "http://h/path"; "http://u@h";
     "ftp://h"; "h:80"; "http://h:0"; "http://h:99999"; "http://"]
  = [Some ("http", "127.0.0.1", 8123); Some ("ssh", "box", 22); Some ("https", "Box.Lan", 443);
     Some ("http", "fd00::1", 8096); None; None; None; None; None; None; None]%N.
Proof. by vm_compute. Qed.
