(* ===== verification/ReachSpec.v ===== *)
(** * What ranges, targets and packets promise

    A range holds the addresses that share its leading bits, an entry
    written and read is the same entry, the addresses it lets through are
    those it names, and a packet written is the packet read. *)

From S2P Require Import Prelude.
From S2P Require Import Bytes.
From S2P Require Import Node.
From S2P Require Import Reach.

Module CidrFacts.
Import Cidr.

Lemma mask_bits w p m i :
  (p ≤ w)%N → mask w p = Some m → N.testbit m i = bool_decide (w - p ≤ i < w)%N.
Proof.
  unfold mask. intros Hp. case_bool_decide as H0.
  { intros [= <-]. rewrite N.bits_0. symmetry. apply bool_decide_eq_false. lia. }
  rewrite bool_decide_false by lia. intros [= <-].
  replace (2 ^ w - 1)%N with (N.ones w) by (rewrite N.ones_equiv; lia).
  destruct (N.lt_ge_cases i w) as [Hi|Hi].
  - rewrite N.mod_pow2_bits_low by done. destruct (N.lt_ge_cases i (w - p)) as [Hl|Hl].
    + rewrite N.shiftl_spec_low by done. symmetry. apply bool_decide_eq_false. lia.
    + rewrite N.shiftl_spec_high by lia. rewrite N.ones_spec_low by lia.
      symmetry. apply bool_decide_eq_true. lia.
  - rewrite N.mod_pow2_bits_high by done. symmetry. apply bool_decide_eq_false. lia.
Qed.

(** The first [p] of [w] bits are the same. *)
Definition leading (w p net a : N) : Prop :=
  ∀ i, (w - p ≤ i < w)%N → N.testbit net i = N.testbit a i.

Lemma masked_leading w p m net a :
  (p ≤ w)%N → mask w p = Some m → N.land net m = N.land a m ↔ leading w p net a.
Proof.
  intros Hp Hm. rewrite <-N.bits_inj_iff. unfold N.eqf, leading. split.
  - intros H i Hi. specialize (H i). rewrite !N.land_spec, (mask_bits w p m i) in H by done.
    rewrite bool_decide_true in H by done. by rewrite !andb_true_r in H.
  - intros H i. rewrite !N.land_spec, (mask_bits w p m i) by done.
    case_bool_decide; [|by rewrite !andb_false_r]. by rewrite H.
Qed.

Lemma mask_total w p : (p ≤ w)%N → ∃ m, mask w p = Some m.
Proof. intros Hp. unfold mask. case_bool_decide; [by eexists|]. rewrite bool_decide_false by lia. by eexists. Qed.

(** What it means to be in a range: the family of the range, and its leading
    bits. *)
Definition in_cidr (c : Cidr) (addr : IpAddr) : Prop :=
  match ip c, unmap addr with
  | V4 net, V4 a => leading 32 (prefix c) net a
  | V6 net, V6 a => leading 128 (prefix c) net a
  | _, _ => False
  end.

Lemma parse_prefix s c : parse s = Ok c → (prefix c ≤ bits (ip c))%N.
Proof.
  unfold parse. destruct (match split_once "/" s with Some _ => _ | None => _ end) as [text pfx].
  destruct (parse_ip _) as [addr|]; [|done]. destruct pfx as [p|]; [|intros [= <-]; simpl; lia].
  destruct (parse_unsigned 256 p); [|done]. case_bool_decide; [|done]. by intros [= <-].
Qed.

(** A parsed range always answers, and answers by its leading bits. *)
Theorem cidr_contains s c addr :
  parse s = Ok c → ∃ b, contains c addr = Some b ∧ (b = true ↔ in_cidr c addr).
Proof.
  intros Hp%parse_prefix. unfold contains, in_cidr, bits in *.
  destruct (ip c) as [net|net], (unmap addr) as [a|a]; simpl in Hp; try (by exists false).
  - destruct (mask_total 32 (prefix c) Hp) as [m Hm]. unfold mask32. rewrite Hm. simpl.
    eexists. split; [done|]. rewrite bool_decide_eq_true. by apply masked_leading.
  - destruct (mask_total 128 (prefix c) Hp) as [m Hm]. unfold mask128. rewrite Hm. simpl.
    eexists. split; [done|]. rewrite bool_decide_eq_true. by apply masked_leading.
Qed.

Lemma cidr_contains_witness :
  ∃ c, parse "10.9.0.0/24" = Ok c
    ∧ ∃ b, contains c (V6 (mapped 168361991)) = Some b ∧ (b = true ↔ in_cidr c (V6 (mapped 168361991))).
Proof.
  exists (MkCidr (V4 168361984) 24). split; [by vm_compute|].
  apply (cidr_contains "10.9.0.0/24"). by vm_compute.
Defined.

Lemma leading_shiftr p net a :
  (96 ≤ p ≤ 128)%N → (net < 2 ^ 128)%N → (a < 2 ^ 128)%N → leading 128 p net a →
  (net / 2 ^ 32 = a / 2 ^ 32)%N.
Proof.
  intros Hp Hn Ha Hl. rewrite <-!N.shiftr_div_pow2. apply N.bits_inj. intros i.
  rewrite !N.shiftr_spec by lia. destruct (N.lt_ge_cases (i + 32) 128) as [Hi|Hi].
  - apply Hl. lia.
  - assert (Hhigh : ∀ x, (x < 2 ^ 128)%N → N.testbit x (i + 32) = false).
    { intros x Hx. destruct (decide (x = 0)%N) as [->|]; [apply N.bits_0|].
      apply N.bits_above_log2. apply N.log2_lt_pow2; [lia|].
      eapply N.lt_le_trans; [done|]. apply N.pow_le_mono_r; lia. }
    by rewrite !Hhigh.
Qed.

(** A range written as mapped addresses holds none: the address asked about
    is unmapped first and the range is not, so neither spelling of an
    address inside it is admitted. *)
Theorem mapped_range_empty net v4 p addr :
  to_ipv4_mapped net = Some v4 → (96 ≤ p ≤ 128)%N → ip_ok addr →
  contains (MkCidr (V6 net) p) addr = Some false.
Proof.
  intros Hmap Hp Hok. unfold contains. simpl.
  destruct (unmap addr) as [a|a] eqn:Hu; [done|].
  assert (Ha : (a < 2 ^ 128)%N ∧ to_ipv4_mapped a = None).
  { destruct addr as [x|x]; simpl in Hu; [done|].
    destruct (to_ipv4_mapped x) eqn:Hx; [done|]. by injection Hu as ->. }
  destruct Ha as [Ha Hnone]. unfold to_ipv4_mapped in *.
  destruct (bool_decide_reflect (net / 2 ^ 32 = 65535)%N) as [Hn|]; [|done].
  destruct (bool_decide_reflect (a / 2 ^ 32 = 65535)%N) as [|Hna]; [done|].
  destruct (mask_total 128 p) as [m Hm]; [lia|]. unfold mask128. rewrite Hm. simpl.
  f_equal. apply bool_decide_eq_false. rewrite (masked_leading 128 p m) by (done || lia). intros Hl.
  apply Hna. rewrite <-(leading_shiftr p net a); [done|done| |done|done].
  pose proof (N.div_mod net (2 ^ 32) ltac:(done)) as Hdm. rewrite Hn in Hdm.
  pose proof (N.mod_lt net (2 ^ 32) ltac:(done)) as Hlt.
  assert (net < 2 ^ 48)%N by (change (2 ^ 48)%N with (65536 * 2 ^ 32)%N; lia).
  eapply N.lt_trans; [done|]. by apply N.pow_lt_mono_r.
Qed.

Lemma mapped_range_empty_witness :
  parse "::ffff:203.0.113.0/120" = Ok (MkCidr (V6 (mapped 3405803776)) 120)
  ∧ contains (MkCidr (V6 (mapped 3405803776)) 120) (V4 3405803777) = Some false.
Proof.
  split; [by vm_compute|].
  apply (mapped_range_empty (mapped 3405803776) 3405803776 120 (V4 3405803777));
    [by vm_compute|lia|by vm_compute].
Defined.
End CidrFacts.

Module ScopeFacts.
Import Scope.

(** ** Special addresses *)
Definition ordinary_v4 (a : N) : Prop :=
  (a / 2 ^ 24 ≠ 127 ∧ a / 2 ^ 16 ≠ 169 * 256 + 254 ∧ a ≠ 0 ∧ a / 2 ^ 28 ≠ 14 ∧ a ≠ 2 ^ 32 - 1
   ∧ a ≠ ((100 * 256 + 100) * 256 + 100) * 256 + 200)%N.

Definition ordinary_v6 (a : N) : Prop :=
  (a ≠ 1 ∧ a ≠ 0 ∧ a / 2 ^ 120 ≠ 255 ∧ a / 2 ^ 118 ≠ 1018
   ∧ a ≠ of_groups [64768; 3778; 0; 0; 0; 0; 0; 596])%N.

(** An address that is none of the special ones, in its own family or as the
    v4 address it maps. *)
Definition ordinary (addr : IpAddr) : Prop :=
  match Cidr.unmap addr with V4 a => ordinary_v4 a | V6 a => ordinary_v6 a end.

Lemma special_v4_iff a : special_v4 a = false ↔ ordinary_v4 a.
Proof.
  unfold special_v4, ordinary_v4, v4_is_loopback, v4_is_link_local, v4_is_unspecified,
    v4_is_multicast, v4_is_broadcast.
  rewrite !orb_false_iff, !bool_decide_eq_false. tauto.
Qed.

(** Masking the low bits of a number that has no others. *)
Lemma land_high n k x :
  (x < 2 ^ (n + k))%N → N.land x (N.shiftl (N.ones k) n) = (x / 2 ^ n * 2 ^ n)%N.
Proof.
  intros Hx. rewrite <-N.shiftr_div_pow2, <-N.shiftl_mul_pow2.
  apply N.bits_inj. intros i. rewrite N.land_spec.
  destruct (N.lt_ge_cases i n) as [Hi|Hi].
  - by rewrite !N.shiftl_spec_low, andb_false_r by done.
  - rewrite !N.shiftl_spec_high by lia. rewrite N.shiftr_spec by lia.
    replace (i - n + n)%N with i by lia.
    destruct (N.lt_ge_cases (i - n) k) as [Hj|Hj].
    + by rewrite N.ones_spec_low, andb_true_r by done.
    + rewrite N.ones_spec_high, andb_false_r by done.
      destruct (decide (x = 0)%N) as [->|]; [by rewrite N.bits_0|].
      symmetry. apply N.bits_above_log2.
      assert (N.log2 x < n + k)%N by (apply N.log2_lt_pow2; [lia|exact Hx]). lia.
Qed.

(** The first ten of sixteen bits. *)
Lemma link_local_bits x : (x < 65536)%N → N.land x 65472 = 65152%N ↔ (x / 64 = 1018)%N.
Proof.
  intros Hx. change 65472%N with (N.shiftl (N.ones 10) 6). rewrite land_high by done.
  change (2 ^ 6)%N with 64%N. lia.
Qed.

(** The first seven of eight. *)
Lemma unique_local_bits x : (x < 256)%N → N.land x 254 = 252%N ↔ (x / 2 = 126)%N.
Proof.
  intros Hx. change 254%N with (N.shiftl (N.ones 7) 1). rewrite land_high by done.
  change (2 ^ 1)%N with 2%N. lia.
Qed.

Lemma special_purpose_iff addr : ip_ok addr → special_purpose addr = false ↔ ordinary addr.
Proof.
  destruct addr as [a|a]; unfold ordinary; simpl; [intros _; apply special_v4_iff|].
  intros Ha. destruct (to_ipv4_mapped a); [apply special_v4_iff|].
  unfold ordinary_v6, v6_is_loopback, v6_is_unspecified, v6_is_multicast.
  rewrite !orb_false_iff, !bool_decide_eq_false.
  assert (Hx : (a / 2 ^ 112 < 65536)%N).
  { apply N.Div0.div_lt_upper_bound. change (2 ^ 112 * 65536)%N with (2 ^ 128)%N. done. }
  rewrite (link_local_bits _ Hx).
  assert (Hd : (a / 2 ^ 112 / 64 = a / 2 ^ 118)%N).
  { rewrite N.Div0.div_div. done. }
  rewrite Hd. tauto.
Qed.

(** An entry connects to a resolved address that is not special, to a special
    one it names itself, and, as [localhost], to loopback; and the address a
    v4 address maps to is as special as it. *)
Theorem resolved_ok_spec e addr :
  ip_ok addr →
  (resolved_ok e addr = true ↔
     ordinary addr ∨ parse_ip (e_host e) = Some addr
     ∨ (parse_ip (e_host e) = None ∧ eq_ignore_ascii_case (e_host e) "localhost" = true
        ∧ is_loopback addr = true))
  ∧ ∀ a, (a < 2 ^ 32)%N → ordinary (V6 (mapped a)) ↔ ordinary (V4 a).
Proof.
  intros Hok. split.
  - unfold resolved_ok. rewrite <-(special_purpose_iff addr Hok).
    destruct (special_purpose addr); simpl; [|naive_solver].
    destruct (parse_ip (e_host e)) as [lit|].
    + rewrite bool_decide_eq_true. naive_solver.
    + rewrite andb_true_iff. naive_solver.
  - intros a Ha. unfold ordinary. simpl. unfold to_ipv4_mapped, mapped.
    rewrite N.div_add_l, N.div_small by done. rewrite bool_decide_true by done.
    rewrite N.add_comm, N.Div0.mod_add, N.mod_small by done. done.
Qed.

(** ** The text of an entry *)

Lemma split_text_hit sep r : split_text sep (sep +:+ r) = Some ("", r).
Proof. pose proof (strip_prefix_app sep r) as H. destruct (sep +:+ r); simpl; by rewrite H. Qed.

Lemma split_text_app l r :
  contains_char ":" l = false → split_text "://" (l +:+ "://" +:+ r) = Some (l, r).
Proof.
  induction l as [|c l IH]; intros Hc; [exact (split_text_hit "://" r)|].
  rewrite contains_char_cons in Hc. apply orb_false_iff in Hc as [Hc Hl].
  apply bool_decide_eq_false in Hc. rewrite str_app_cons. cbn [split_text].
  destruct (strip_prefix "://" _) as [q|] eqn:Hs; [|by rewrite IH].
  apply strip_prefix_Some in Hs. injection Hs as -> _. done.
Qed.

Lemma split_text_Some sep s l r : split_text sep s = Some (l, r) → s = l +:+ sep +:+ r.
Proof.
  revert l r; induction s as [|c s IH]; intros l r; cbn [split_text].
  - destruct (strip_prefix sep "") as [q|] eqn:Hs; [|done]. intros [= <- <-].
    by apply strip_prefix_Some in Hs.
  - destruct (strip_prefix sep (String c s)) as [q|] eqn:Hs.
    + intros [= <- <-]. by apply strip_prefix_Some in Hs.
    + destruct (split_text sep s) as [[l' r']|] eqn:Hsp; [|done]. intros [= <- <-].
      rewrite str_app_cons. f_equal. by apply IH.
Qed.

Lemma strip_suffix_without c s : contains_char c s = false → strip_suffix (String c "") s = None.
Proof.
  intros Hc. destruct (strip_suffix _ s) as [r|] eqn:Hs; [|done].
  apply strip_suffix_Some in Hs as ->. rewrite contains_char_app, contains_char_cons in Hc.
  rewrite bool_decide_true in Hc by done. by rewrite orb_true_r in Hc.
Qed.

Lemma strip_prefix_without c s : contains_char c s = false → strip_prefix (String c "") s = None.
Proof.
  intros Hc. destruct (strip_prefix _ s) as [r|] eqn:Hs; [|done].
  apply strip_prefix_Some in Hs as ->. change (String c "" +:+ r) with (String c r) in Hc.
  rewrite contains_char_cons, bool_decide_true in Hc by done. done.
Qed.

(** What a parsed entry is: one of the schemes, a host that is not empty and
    names nothing but a host, and a port that is not zero. *)
Definition forbidden : list ascii := ["/"; "?"; "#"; "@"]%char.

Definition entry_ok (e : Entry) : Prop :=
  (∃ d, (scheme e, d) ∈ SCHEMES) ∧ e_host e ≠ ""
  ∧ existsb (λ c, contains_char c (e_host e)) forbidden = false ∧ (0 < port e < 65536)%N.

Lemma parse_port_ok s p n : parse_port s p = Ok n → (0 < n < 65536)%N.
Proof.
  unfold parse_port. destruct (parse_unsigned _ p) as [m|] eqn:Hm; [|done].
  apply parse_unsigned_bound in Hm. case_bool_decide; [done|]. intros [= <-]. lia.
Qed.

Lemma parse_port_dec s n : (0 < n < 65536)%N → parse_port s (dec n) = Ok n.
Proof. intros Hn. unfold parse_port. rewrite parse_unsigned_dec by lia. by rewrite bool_decide_false by lia. Qed.

(** A host and its port are parts of the authority. *)
Lemma host_and_port_parts s a d h p :
  (0 < d < 65536)%N → host_and_port s a d = Ok (h, p) →
  (∃ l r, a = l +:+ h +:+ r) ∧ (0 < p < 65536)%N.
Proof.
  intros Hd. unfold host_and_port. destruct (strip_prefix "[" a) as [v6|] eqn:Hv6.
  - destruct (split_once "]" v6) as [[addr after]|] eqn:Hsp; [|done].
    apply strip_prefix_Some in Hv6 as ->. apply split_once_Some in Hsp as ->.
    destruct (strip_prefix ":" after) as [t|].
    + intros (n & Hn%parse_port_ok & [= <- <-])%rbind_Ok. split; [by eexists _, _|done].
    + destruct (str_is_empty after); [|done]. intros [= <- <-]. split; [by eexists _, _|done].
  - destruct (rsplit_once ":" a) as [[l t]|] eqn:Hr.
    + apply rsplit_once_Some in Hr as ->.
      intros (n & Hn%parse_port_ok & [= <- <-])%rbind_Ok. split; [by exists "", (String ":" t)|done].
    + intros [= <- <-]. split; [|done]. exists "", "". by rewrite str_app_nil_r.
Qed.

Lemma forbidden_part l h r :
  existsb (λ c, contains_char c (l +:+ h +:+ r)) forbidden = false →
  existsb (λ c, contains_char c h) forbidden = false.
Proof.
  rewrite !existsb_false_elem_of. intros H c Hc. specialize (H c Hc).
  rewrite !contains_char_app, !orb_false_iff in H. tauto.
Qed.

Lemma parse_entry_ok s e : parse s = Ok e → entry_ok e.
Proof.
  unfold parse. destruct (split_text "://" s) as [[sch rest]|]; [|done].
  destruct (default_port_of (lowercase sch)) as [d|] eqn:Hd; [|done].
  destruct (existsb _ _) eqn:Hf; [done|]. intros ([h p] & Hhp & He)%rbind_Ok. simpl in He.
  destruct (str_is_empty h) eqn:Hh; [done|]. injection He as <-.
  unfold default_port_of in Hd. destruct (find_first _ SCHEMES) as [[n q]|] eqn:Hff; [|done].
  apply find_first_Some in Hff as [Hin Hn%bool_decide_eq_true]. simpl in *. injection Hd as ->. subst n.
  apply host_and_port_parts in Hhp as [(l & r & Ha) Hp].
  - rewrite Ha in Hf. apply forbidden_part in Hf.
    repeat split; simpl; [by exists d|by apply bool_decide_eq_false in Hh|done|lia|lia].
  - repeat apply elem_of_cons in Hin as [[= _ ->]|Hin]; [lia..|by apply not_elem_of_nil in Hin].
Qed.

(** The text a report shows is an entry again, and the same one. *)
Lemma parse_url e :
  entry_ok e → contains_char "[" (e_host e) = false → contains_char "]" (e_host e) = false →
  parse (url e) = Ok e.
Proof.
  intros ((d & Hd) & Hh & Hf & Hp) Hopen Hclose. destruct e as [sch h p]; cbn [scheme e_host port] in *.
  set (authority := if contains_char ":" h then "[" +:+ h +:+ "]:" +:+ dec p else h +:+ ":" +:+ dec p).
  assert (Hurl : url (MkEntry sch h p) = sch +:+ "://" +:+ authority).
  { unfold url, authority. simpl. by destruct (contains_char ":" h). }
  assert (Hsch : contains_char ":" sch = false ∧ lowercase sch = sch ∧ ∃ d, default_port_of sch = Some d).
  { repeat apply elem_of_cons in Hd as [[= -> ->]|Hd];
      [by vm_compute; eauto..|by apply not_elem_of_nil in Hd]. }
  destruct Hsch as (Hcol & Hlow & d' & Hdef).
  assert (Hall : existsb (λ c, contains_char c authority) forbidden = false).
  { rewrite existsb_false_elem_of in Hf |- *. intros c Hc. specialize (Hf c Hc).
    assert (Hdec : contains_char c (dec p) = false).
    { apply dec_no_char.
      by repeat apply elem_of_cons in Hc as [->|Hc]; [..|by apply not_elem_of_nil in Hc]. }
    unfold authority. destruct (contains_char ":" h); rewrite !contains_char_app, Hf, Hdec;
      by repeat apply elem_of_cons in Hc as [->|Hc]; [..|by apply not_elem_of_nil in Hc]. }
  assert (Hslash : strip_suffix "/" authority = None).
  { apply strip_suffix_without. rewrite existsb_false_elem_of in Hall. apply Hall. by left. }
  assert (Hhp : ∀ s, host_and_port s authority d' = Ok (h, p)).
  { intros s. unfold host_and_port, authority. destruct (contains_char ":" h) eqn:Hc.
    - rewrite strip_prefix_app. change ("]:" +:+ dec p) with (String "]" (":" +:+ dec p)).
      rewrite split_once_app by done. rewrite strip_prefix_app. by rewrite parse_port_dec.
    - destruct h as [|x h]; [done|]. rewrite strip_prefix_without.
      + change (":" +:+ dec p) with (String ":" (dec p)).
        rewrite rsplit_once_app by by apply dec_no_char. by rewrite parse_port_dec.
      + rewrite !contains_char_app, Hopen. by rewrite dec_no_char. }
  rewrite Hurl. unfold parse. rewrite split_text_app by done. rewrite Hlow, Hdef, Hslash. simpl default.
  change ["/"; "?"; "#"; "@"]%char with forbidden. rewrite Hall, Hhp. simpl.
  unfold str_is_empty. by rewrite bool_decide_false.
Qed.

(** An entry's [url] parses back to the entry, whatever text it came from. *)
Theorem entry_roundtrip s e :
  parse s = Ok e → contains_char "[" (e_host e) = false → contains_char "]" (e_host e) = false →
  parse (url e) = Ok e.
Proof. intros He%parse_entry_ok. by apply parse_url. Qed.

Lemma entry_roundtrip_witness :
  parse "HTTPS://[fd00::1]/" = Ok (MkEntry "https" "fd00::1" 443)
  ∧ parse (url (MkEntry "https" "fd00::1" 443)) = Ok (MkEntry "https" "fd00::1" 443).
Proof.
  split; [by vm_compute|].
  apply (entry_roundtrip "HTTPS://[fd00::1]/"); by vm_compute.
Defined.

Lemma resolved_ok_spec_witness :
  let e := MkEntry "http" "box.lan" 80 in
  ip_ok (V4 2851995905)
  ∧ (resolved_ok e (V4 2851995905) = true ↔
       ordinary (V4 2851995905) ∨ parse_ip (e_host e) = Some (V4 2851995905)
       ∨ (parse_ip (e_host e) = None ∧ eq_ignore_ascii_case (e_host e) "localhost" = true
          ∧ is_loopback (V4 2851995905) = true)).
Proof. split; [done|]. by apply (resolved_ok_spec _ (V4 2851995905)). Defined.
End ScopeFacts.

Module WispFacts.
Import Wisp.

(** What a packet's text is, per kind. *)
Definition encode (p : Packet) : option bytes :=
  match p with
  | Connect s k q h => Some (connect s k q (of_bytes h))
  | Data s b => Some (data s b)
  | Continue s r => Some (cont s r)
  | Close s r => Some (close s r)
  | End_ s => Some (end_ s)
  | Malformed _ _ | Unknown _ _ => None
  end.

Definition packet_ok (p : Packet) : Prop :=
  match p with
  | Connect s k q _ => s < 2 ^ 32 ∧ k < 256 ∧ q < 65536
  | Data s _ | End_ s => s < 2 ^ 32
  | Continue s r => s < 2 ^ 32 ∧ r < 2 ^ 32
  | Close s r => s < 2 ^ 32 ∧ r < 256
  | Malformed k s | Unknown k s => k < 256 ∧ s < 2 ^ 32
  end%N.

Lemma header_bytes k s body :
  (k < 256)%N → (s < 2 ^ 32)%N →
  ∃ a b c d, header k s ++ body = of_byte k :: a :: b :: c :: d :: body
    ∧ from_le [a; b; c; d] = s ∧ byte_val (of_byte k) = k.
Proof.
  intros Hk Hs. do 4 eexists. split; [reflexivity|]. split; [by apply from_le32|by apply byte_of_byte].
Qed.

Lemma body_le32 n :
  (n < 2 ^ 32)%N → ∃ a b c d, le32 n = [a; b; c; d] ∧ from_le [a; b; c; d] = n.
Proof. intros Hn. do 4 eexists. split; [reflexivity|]. by apply from_le32. Qed.

Lemma parse_encode p b : packet_ok p → encode p = Some b → parse b = Some p.
Proof.
  destruct p as [s k q h|s pl|s r|s r|s|k s|k s]; simpl; intros Hok [= <-].
  - destruct Hok as (Hs & Hk & Hq). unfold connect, CONNECT.
    destruct (header_bytes 1 s (of_byte k :: le16 q ++ as_bytes (of_bytes h)))
      as (a & b & c & d & -> & Hst & _); [done|done|].
    cbn -[from_le N.modulo N.div of_byte byte_val]. rewrite Hst, as_of_bytes, (byte_of_byte k Hk).
    fold (le16 q). by rewrite (from_le16 q Hq).
  - unfold data, DATA. destruct (header_bytes 2 s pl) as (a & b & c & d & -> & Hst & _); [done|done|].
    cbn -[from_le of_byte byte_val]. by rewrite Hst.
  - destruct Hok as (Hs & Hr). unfold cont, CONTINUE.
    destruct (body_le32 r Hr) as (r0 & r1 & r2 & r3 & -> & Hrem).
    destruct (header_bytes 3 s [r0; r1; r2; r3]) as (a & b & c & d & -> & Hst & _); [done|done|].
    cbn -[from_le of_byte byte_val]. by rewrite Hst, Hrem.
  - destruct Hok as (Hs & Hr). unfold close, CLOSE.
    destruct (header_bytes 4 s [of_byte r]) as (a & b & c & d & -> & Hst & _); [done|done|].
    cbn -[from_le of_byte byte_val]. by rewrite Hst, (byte_of_byte r Hr).
  - unfold end_, END. rewrite <-(app_nil_r (header 5 s)).
    destruct (header_bytes 5 s []) as (a & b & c & d & -> & Hst & _); [done|done|].
    cbn -[from_le of_byte byte_val]. by rewrite Hst.
Qed.

Lemma parse_None msg : parse msg = None ↔ length msg < HEADER.
Proof.
  unfold HEADER. destruct msg as [|? [|? [|? [|? [|? ?]]]]]; simpl; split; try done; lia.
Qed.

(** What is read writes itself back. *)
Definition rereads (msg : bytes) (p : Packet) : Prop :=
  packet_ok p ∧ ∀ b, encode p = Some b →
    ∃ rest, msg = b ++ rest
      ∧ match p with Connect _ _ _ _ | Data _ _ => rest = [] | _ => True end.

Lemma header_of k a b c d n :
  byte_val k = n → header n (from_le [a; b; c; d]) = [k; a; b; c; d].
Proof. intros <-. unfold header. by rewrite of_byte_val, le32_from_le. Qed.

Lemma parse_rereads msg p : parse msg = Some p → rereads msg p.
Proof.
  destruct msg as [|k [|a [|b [|c [|d body]]]]]; try done.
  unfold parse. pose proof (from_le32_bound a b c d) as Hs. pose proof (byte_val_lt k) as Hk.
  intros Hp%(inj Some). revert Hp. unfold rereads.
  case_bool_decide as H1.
  { destruct body as [|sk [|p0 [|p1 host]]]; intros <-; try done.
    pose proof (byte_val_lt sk). pose proof (from_le16_bound p0 p1).
    split; [done|]. intros w <-%(inj Some). exists []. split; [|done].
    unfold connect. rewrite (header_of _ _ _ _ _ _ H1), of_byte_val, le16_from_le, as_of_bytes.
    by rewrite app_nil_r. }
  case_bool_decide as H2.
  { intros <-. split; [done|]. intros w <-%(inj Some). exists []. split; [|done].
    unfold data. by rewrite (header_of _ _ _ _ _ _ H2), app_nil_r. }
  case_bool_decide as H3.
  { destruct body as [|r0 [|r1 [|r2 [|r3 rest]]]]; intros <-; try done.
    pose proof (from_le32_bound r0 r1 r2 r3). split; [done|]. intros w <-%(inj Some).
    exists rest. split; [|done]. unfold cont. by rewrite (header_of _ _ _ _ _ _ H3), le32_from_le. }
  case_bool_decide as H4.
  { destruct body as [|r rest]; intros <-; [done|]. pose proof (byte_val_lt r). split; [done|].
    intros w <-%(inj Some). exists rest. split; [|done].
    unfold close. by rewrite (header_of _ _ _ _ _ _ H4), of_byte_val. }
  case_bool_decide as H5; intros <-; [|done]. split; [done|]. intros w <-%(inj Some).
  exists body. split; [|done]. unfold end_. by rewrite (header_of _ _ _ _ _ _ H5).
Qed.

(** Every packet the module writes is read back as the packet it was; only a
    message shorter than the header is ignored; and every message it reads is
    the packet's own bytes, with something after them only where the packet's
    text does not run to the end. *)
Theorem wisp_roundtrip :
  (∀ p b, packet_ok p → encode p = Some b → parse b = Some p)
  ∧ (∀ msg, parse msg = None ↔ length msg < HEADER)
  ∧ ∀ msg p, parse msg = Some p → rereads msg p.
Proof. split; [apply parse_encode|]. split; [apply parse_None|apply parse_rereads]. Qed.
End WispFacts.
