(* ===== verification/Args.v ===== *)
(** * One spelling for a version ([crates/drt-config/src/version.rs])

    A root's pin and a binary's own version may be written under either of
    two grammars; they are compared under one.

    ** Entries and arguments ([crates/drt-config/src/resolve.rs], first half)

    What a root program is, the arguments a profile declares for it, and how
    a command line overrides them: the declared default's type is the
    parser. *)

From S2P Require Import Prelude.
From S2P Require Import Bytes.
From S2P Require Import Value.

Definition LEGACY_KIND : string := "rc".

Definition is_ascii_digit (c : ascii) : bool := in_range 48 57 (byte_val c).
Definition all_digits (s : string) : bool := forallb is_ascii_digit (as_bytes s).

(** The digits at the front, and the rest. *)
Fixpoint span_digits (s : string) : string * string :=
  match s with
  | String c s' =>
      if is_ascii_digit c then let '(d, r) := span_digits s' in (String c d, r) else ("", s)
  | EmptyString => ("", "")
  end.

(** [left] components of a version, each but the first after a dot. *)
Fixpoint components (left : nat) (first : bool) (s : string) : option (string * string) :=
  match left with
  | 0 => Some ("", s)
  | S left' =>
      rest ← (if first then Some s else strip_prefix "." s);
      let '(digits, rest) := span_digits rest in
      if str_is_empty digits then None
      else
        '(base, rest) ← components left' false rest;
        Some ((if first then "" else ".") +:+ digits +:+ base, rest)
  end.

Definition split_base (spelling : string) : option (string * string) := components 3 true spelling.

Definition canonical (spelling : string) : string :=
  match split_base spelling with
  | None => spelling
  | Some (base, rest) =>
      match strip_prefix LEGACY_KIND rest with
      | Some n => if negb (str_is_empty n) && all_digits n
                  then base +:+ "-" +:+ LEGACY_KIND +:+ "." +:+ n else spelling
      | None => spelling
      end
  end.

Definition same (a b : string) : bool := bool_decide (canonical a = canonical b).

Example canonical_examples :
  canonical <$> ["0.5.0rc9"; "0.5.0-rc.9"; "0.5.0"; "0.5.0rc"; "0.5.0a1"; "v0.5.0rc9"; "garbage"; ""]
  = ["0.5.0-rc.9"; "0.5.0-rc.9"; "0.5.0"; "0.5.0rc"; "0.5.0a1"; "v0.5.0rc9"; "garbage"; ""].
Proof. by vm_compute. Qed.

(** ** Facts *)

Module VersionFacts.

(** Some digits and nothing else. *)
Definition number_text (s : string) : Prop := s ≠ "" ∧ all_digits s = true.

(** [X.Y.Z]. *)
Definition is_base (s : string) : Prop :=
  ∃ x y z, number_text x ∧ number_text y ∧ number_text z ∧ s = x +:+ "." +:+ y +:+ "." +:+ z.

Definition no_digit_head (s : string) : Prop :=
  match s with String c _ => is_ascii_digit c = false | EmptyString => True end.

Lemma span_digits_app d r :
  all_digits d = true → no_digit_head r → span_digits (d +:+ r) = (d, r).
Proof.
  intros Hd Hr. induction d as [|c d IH].
  - destruct r as [|c r]; [done|]. simpl in *. by rewrite Hr.
  - unfold all_digits in *. simpl in Hd. apply andb_true_iff in Hd as [Hc Hd].
    rewrite str_app_cons. simpl. by rewrite Hc, IH.
Qed.

Lemma span_digits_spec s d r :
  span_digits s = (d, r) → s = d +:+ r ∧ all_digits d = true ∧ no_digit_head r.
Proof.
  revert d r; induction s as [|c s IH]; intros d r; simpl; [by intros [= <- <-]|].
  destruct (is_ascii_digit c) eqn:Hc; [|by intros [= <- <-]].
  destruct (span_digits s) as [d' r']. intros [= <- <-].
  destruct (IH _ _ eq_refl) as (-> & Hd & Hr).
  split; [by rewrite str_app_cons|]. split; [|done]. unfold all_digits in *. simpl. by rewrite Hc.
Qed.

Lemma component_app (first : bool) left d r :
  number_text d → no_digit_head r →
  components (S left) first ((if first then "" else ".") +:+ d +:+ r)
  = '(base, rest) ← components left false r; Some ((if first then "" else ".") +:+ d +:+ base, rest).
Proof.
  intros [Hne Hd] Hr. cbn [components]. destruct first.
  - change ("" +:+ d +:+ r) with (d +:+ r). cbn [mbind option_bind].
    rewrite span_digits_app by done. unfold str_is_empty. by rewrite bool_decide_false.
  - rewrite strip_prefix_app. cbn [mbind option_bind].
    rewrite span_digits_app by done. unfold str_is_empty. by rewrite bool_decide_false.
Qed.

Lemma split_base_app b r : is_base b → no_digit_head r → split_base (b +:+ r) = Some (b, r).
Proof.
  intros (x & y & z & Hx & Hy & Hz & ->) Hr. unfold split_base.
  rewrite !str_app_assoc.
  pose proof (component_app true 2 x ("." +:+ y +:+ "." +:+ z +:+ r) Hx eq_refl) as E.
  change (("" +:+ x) +:+ ?t) with (x +:+ t) in E. change ("" +:+ ?t) with t in E.
  etrans; [exact E|]. clear E.
  rewrite (component_app false 1 y ("." +:+ z +:+ r) Hy) by done.
  rewrite (component_app false 0 z r Hz Hr). cbn [components mbind option_bind].
  by rewrite !str_app_nil_r.
Qed.

Lemma split_base_Some s b r :
  split_base s = Some (b, r) → s = b +:+ r ∧ is_base b ∧ no_digit_head r.
Proof.
  assert (Hstep : ∀ left (first : bool) s b r, components (S left) first s = Some (b, r) →
            ∃ d base t, number_text d ∧ no_digit_head t
              ∧ s = (if first then "" else ".") +:+ d +:+ t
              ∧ components left false t = Some (base, r)
              ∧ b = (if first then "" else ".") +:+ d +:+ base).
  { clear s b r. intros left first s b r. cbn [components].
    destruct (if first then Some s else strip_prefix "." s) as [rest|] eqn:Hp; [|done].
    cbn [mbind option_bind]. destruct (span_digits rest) as [d t] eqn:Hs.
    destruct (str_is_empty d) eqn:He; [done|].
    destruct (components left false t) as [[base u]|] eqn:Hc; [|done].
    cbn [mbind option_bind]. intros [= <- <-].
    apply span_digits_spec in Hs as (-> & Hd & Ht). unfold str_is_empty in He.
    apply bool_decide_eq_false in He. exists d, base, t. split_and!; try done.
    destruct first; [by injection Hp as ->|by apply strip_prefix_Some in Hp]. }
  intros (x & b1 & t1 & Hx & _ & -> & H1 & ->)%Hstep.
  apply Hstep in H1 as (y & b2 & t2 & Hy & _ & -> & H2 & ->).
  apply Hstep in H2 as (z & b3 & t3 & Hz & Ht & -> & [= <- <-] & ->).
  split; [|split; [|done]].
  - change ("" +:+ ?t) with t. rewrite !str_app_nil_r. by rewrite !str_app_assoc.
  - exists x, y, z. by rewrite !str_app_nil_r.
Qed.

(** A version in the old grammar. *)
Definition legacy (b n : string) : string := b +:+ "rc" +:+ n.
(** The same version in the new one. *)
Definition modern (b n : string) : string := b +:+ "-rc." +:+ n.

Lemma canonical_legacy b n : is_base b → number_text n → canonical (legacy b n) = modern b n.
Proof.
  intros Hb [Hne Hn]. unfold canonical, legacy. rewrite split_base_app by done.
  unfold LEGACY_KIND. rewrite strip_prefix_app. unfold str_is_empty.
  by rewrite bool_decide_false, Hn.
Qed.

Lemma canonical_other s :
  (∀ b n, is_base b → number_text n → s ≠ legacy b n) → canonical s = s.
Proof.
  intros H. unfold canonical. destruct (split_base s) as [[b r]|] eqn:Hs; [|done].
  apply split_base_Some in Hs as (-> & Hb & _).
  destruct (strip_prefix LEGACY_KIND r) as [n|] eqn:Hn; [|done]. apply strip_prefix_Some in Hn as ->.
  destruct (str_is_empty n) eqn:He; [done|]. destruct (all_digits n) eqn:Hd; [|done].
  apply bool_decide_eq_false in He. by destruct (H b n Hb (conj He Hd)).
Qed.

Lemma modern_not_legacy b n b' n' :
  is_base b → is_base b' → number_text n' → modern b n ≠ legacy b' n'.
Proof.
  intros Hb Hb' [Hne' _] E. unfold modern, legacy in E.
  assert (H : split_base (b +:+ "-rc." +:+ n) = Some (b, "-rc." +:+ n)) by by apply split_base_app.
  rewrite E, split_base_app in H by done. by simplify_eq.
Qed.

Lemma legacy_inj b n b' n' :
  is_base b → is_base b' → legacy b n = legacy b' n' → b = b' ∧ n = n'.
Proof.
  intros Hb Hb' E. unfold legacy in E.
  assert (H : split_base (b +:+ "rc" +:+ n) = Some (b, "rc" +:+ n)) by by apply split_base_app.
  rewrite E, split_base_app in H by done. by simplify_eq.
Qed.

Lemma modern_inj b n b' n' :
  is_base b → is_base b' → modern b n = modern b' n' → b = b' ∧ n = n'.
Proof.
  intros Hb Hb' E. unfold modern in E.
  assert (H : split_base (b +:+ "-rc." +:+ n) = Some (b, "-rc." +:+ n)) by by apply split_base_app.
  rewrite E, split_base_app in H by done. by simplify_eq.
Qed.

Lemma legacy_dec s :
  (∃ b n, is_base b ∧ number_text n ∧ s = legacy b n)
  ∨ ∀ b n, is_base b → number_text n → s ≠ legacy b n.
Proof.
  destruct (decide (canonical s = s)) as [Hc|Hc].
  - right. intros b n Hb Hn ->. rewrite canonical_legacy in Hc by done.
    by apply modern_not_legacy in Hc.
  - left. unfold canonical in Hc. destruct (split_base s) as [[b r]|] eqn:Hs; [|done].
    apply split_base_Some in Hs as (-> & Hb & _).
    destruct (strip_prefix LEGACY_KIND r) as [n|] eqn:Hn; [|done]. apply strip_prefix_Some in Hn as ->.
    destruct (str_is_empty n) eqn:He; [done|]. destruct (all_digits n) eqn:Hd; [|done].
    apply bool_decide_eq_false in He. by exists b, n.
Qed.

(** Two spellings are one version exactly when they are one text, or the old
    and the new grammar's text for one base and one candidate. *)
Theorem same_iff a b :
  same a b = true ↔
    a = b ∨ ∃ v n, is_base v ∧ number_text n
              ∧ ((a = legacy v n ∧ b = modern v n) ∨ (a = modern v n ∧ b = legacy v n)).
Proof.
  unfold same. rewrite bool_decide_eq_true. split.
  - destruct (legacy_dec a) as [(v & n & Hv & Hn & ->)|Ha], (legacy_dec b) as [(w & m & Hw & Hm & ->)|Hb];
      rewrite ?(canonical_legacy v n), ?(canonical_legacy w m), ?(canonical_other a), ?(canonical_other b) by done.
    + intros [-> ->]%modern_inj; [by left|done|done].
    + intros <-. right. exists v, n. auto.
    + intros ->. right. exists w, m. auto.
    + by left.
  - intros [->|(v & n & Hv & Hn & [[-> ->]|[-> ->]])]; [done| |];
      rewrite canonical_legacy by done; [|symmetry]; rewrite canonical_other; try done;
      intros b' n' Hb' Hn'; by apply modern_not_legacy.
Qed.

End VersionFacts.

(** ** Entries *)

Inductive Entry :=
  | EntryFile (path : string)
  | EntryStdlib (name : string).

Definition STDLIB_PREFIX : string := "stdlib:".

Inductive BadEntry := EntryEmpty | EmptyStdlibName.

Module Entry.

Definition parse (text : string) : result Entry BadEntry :=
  match strip_prefix STDLIB_PREFIX text with
  | Some name => if str_is_empty name then Err EmptyStdlibName else Ok (EntryStdlib name)
  | None => if str_is_empty text then Err EntryEmpty else Ok (EntryFile text)
  end.

Definition as_written (e : Entry) : string :=
  match e with
  | EntryFile path => path
  | EntryStdlib name => STDLIB_PREFIX +:+ name
  end.

End Entry.

(** ** Arguments *)

Inductive ArgValue :=
  | ArgBool (b : bool)
  | ArgInt (n : Z)
  | ArgStr (s : string)
  | ArgList (items : list string).

Definition arg_to_msgpack (a : ArgValue) : Value :=
  match a with
  | ArgBool b => VBool b
  | ArgInt n => VInt n
  | ArgStr s => vstr s
  | ArgList items => VArr (vstr <$> items)
  end.

Definition type_name (a : ArgValue) : string :=
  match a with
  | ArgBool _ => "a boolean"
  | ArgInt _ => "an integer"
  | ArgStr _ => "a string"
  | ArgList _ => "a list"
  end.

Definition ARGS_QUEUE : string := "args".

(** Occurrences in the order they were typed. *)
Abbreviation Overrides := (list (string * option string)).

Definition args_to_msgpack (args : btree string ArgValue) : Value :=
  VMap ((λ kv, (vstr kv.1, arg_to_msgpack kv.2)) <$> args).

Inductive ArgError :=
  | NotAnArgument (token : string)
  | UndeclaredKey (key : string) (known : list string)
  | MissingValue (key wanted : string)
  | NotTheDeclaredType (key wanted got : string).

(** A list with [", "] between its items. *)
Fixpoint join_comma (l : list string) : string :=
  match l with
  | [] => ""
  | [x] => x
  | x :: l' => x +:+ ", " +:+ join_comma l'
  end.

(** The [Display] of an argument's refusal. *)
Definition arg_error_text (e : ArgError) : string :=
  match e with
  | NotAnArgument token =>
      "'" +:+ token
      +:+ "' is not an argument; arguments to the entry are written '--key value' or '--key=value'"
  | UndeclaredKey key known =>
      "'--" +:+ key +:+ "' is not an argument this profile declares; it declares "
      +:+ (if bool_decide (known = []) then "none" else join_comma known)
  | MissingValue key wanted => "'--" +:+ key +:+ "' wants " +:+ wanted
  | NotTheDeclaredType key wanted got =>
      "'--" +:+ key +:+ "' wants " +:+ wanted +:+ ", not '" +:+ got +:+ "'"
  end.

Fixpoint parse_overrides (tokens : list string) : result Overrides ArgError :=
  match tokens with
  | [] => Ok []
  | token :: tokens' =>
      match strip_prefix "--" token with
      | None => Err (NotAnArgument token)
      | Some rest =>
          match split_once "=" rest with
          | Some (key, value) => out ←? parse_overrides tokens'; Ok ((key, Some value) :: out)
          | None =>
              match tokens' with
              | next :: tokens'' =>
                  if negb (starts_with next "--") then
                    out ←? parse_overrides tokens''; Ok ((rest, Some next) :: out)
                  else out ←? parse_overrides tokens'; Ok ((rest, None) :: out)
              | [] => Ok [(rest, None)]
              end
          end
      end
  end.

(** The value an occurrence stands for. *)
Definition want (key : string) (default : ArgValue) (raw : option string) : result string ArgError :=
  match raw with Some s => Ok s | None => Err (MissingValue key (type_name default)) end.

Definition override_value (key : string) (default : ArgValue) (held : option ArgValue)
    (raw : option string) : result ArgValue ArgError :=
  match default with
  | ArgBool _ =>
      match raw with
      | None => Ok (ArgBool true)
      | Some s =>
          if bool_decide (s = "true") then Ok (ArgBool true)
          else if bool_decide (s = "false") then Ok (ArgBool false)
          else Err (NotTheDeclaredType key "a boolean" s)
      end
  | ArgInt _ =>
      text ←? want key default raw;
      match parse_i64 text with
      | Some n => Ok (ArgInt n)
      | None => Err (NotTheDeclaredType key "an integer" text)
      end
  | ArgStr _ => s ←? want key default raw; Ok (ArgStr s)
  | ArgList _ =>
      let list := match held with Some (ArgList existing) => existing | _ => [] end in
      s ←? want key default raw; Ok (ArgList (list ++ [s]))
  end.

Fixpoint merge_onto (declared merged : btree string ArgValue) (overrides : Overrides) :
    result (btree string ArgValue) ArgError :=
  match overrides with
  | [] => Ok merged
  | (key, raw) :: overrides' =>
      match bt_get (K := string) key declared with
      | None => Err (UndeclaredKey key (bt_keys declared))
      | Some default =>
          value ←? override_value key default (bt_get (K := string) key merged) raw;
          merge_onto declared (bt_insert (K := string) key value merged) overrides'
      end
  end.

Definition merge_args (declared : btree string ArgValue) (overrides : Overrides) :
    result (btree string ArgValue) ArgError :=
  merge_onto declared declared overrides.

(** ** Facts *)

Module ArgsFacts.

Lemma entry_roundtrip_both s e :
  Entry.parse s = Ok e → Entry.as_written e = s ∧ Entry.parse (Entry.as_written e) = Ok e.
Proof.
  intros H. assert (Entry.as_written e = s) as E.
  { unfold Entry.parse in H. destruct (strip_prefix _ s) as [name|] eqn:Hs.
    - apply strip_prefix_Some in Hs as ->. destruct (str_is_empty name); [done|].
      by injection H as <-.
    - destruct (str_is_empty s); [done|]. by injection H as <-. }
  split; [done|]. by rewrite E.
Qed.

(** *** Command lines *)

(** An occurrence in the spelling that needs no look ahead. *)
Definition render (o : string * option string) : string :=
  match o with
  | (key, Some v) => "--" +:+ key +:+ "=" +:+ v
  | (key, None) => "--" +:+ key
  end.

Definition plain_key (o : string * option string) : Prop := contains_char "=" o.1 = false.

Lemma parse_render_cons o tokens out :
  plain_key o → (∀ t, head tokens = Some t → starts_with t "--" = true) →
  parse_overrides tokens = Ok out → parse_overrides (render o :: tokens) = Ok (o :: out).
Proof.
  destruct o as [key [v|]]; intros Hk Hh Hout; cbn [parse_overrides render].
  - rewrite strip_prefix_app. change ("=" +:+ v) with (String "=" v).
    by rewrite split_once_app, Hout by done.
  - rewrite strip_prefix_app. unfold plain_key in Hk. simpl in Hk.
    rewrite (proj2 (split_once_None _ _) Hk).
    destruct tokens as [|t tokens]; [by injection Hout as <-|].
    rewrite (Hh t eq_refl). cbn [negb]. by rewrite Hout.
Qed.

Lemma render_starts o : starts_with (render o) "--" = true.
Proof. destruct o as [key [v|]]; apply starts_with_iff; by eexists. Qed.

Lemma parse_render ovs : Forall plain_key ovs → parse_overrides (render <$> ovs) = Ok ovs.
Proof.
  induction 1 as [|o ovs Ho _ IH]; [done|]. cbn [fmap list_fmap]. apply parse_render_cons; [done| |done].
  destruct ovs; [done|]. intros t [= <-]. apply render_starts.
Qed.

Lemma parse_plain tokens ovs : parse_overrides tokens = Ok ovs → Forall plain_key ovs.
Proof.
  remember (length tokens) as n eqn:Hn. revert tokens ovs Hn.
  induction (lt_wf n) as [n _ IH]; intros tokens ovs ->.
  destruct tokens as [|token tokens]; cbn [parse_overrides]; [by intros [= <-]|].
  destruct (strip_prefix "--" token) as [rest|]; [|done].
  destruct (split_once "=" rest) as [[key v]|] eqn:Hs.
  - intros (out & Hout & [= <-])%rbind_Ok. apply split_once_head in Hs.
    constructor; [done|].
    apply (IH (length tokens)) with tokens; [simpl; lia|done|done].
  - apply split_once_None in Hs. destruct tokens as [|next tokens]; [intros [= <-]; by repeat constructor|].
    destruct (negb (starts_with next "--")).
    + intros (out & Hout & [= <-])%rbind_Ok. constructor; [done|].
      apply (IH (length tokens)) with tokens; [simpl; lia|done|done].
    + intros (out & Hout & [= <-])%rbind_Ok. constructor; [done|].
      apply (IH (length (next :: tokens))) with (next :: tokens); [simpl; lia|done|done].
Qed.

(** A command line that parses says the same overrides in the spelling that
    needs no look ahead; and every list of overrides whose keys hold no equals
    sign is some command line's. *)
Theorem overrides_roundtrip :
  (∀ tokens ovs, parse_overrides tokens = Ok ovs → parse_overrides (render <$> ovs) = Ok ovs)
  ∧ ∀ ovs, Forall plain_key ovs → parse_overrides (render <$> ovs) = Ok ovs.
Proof. split; [|apply parse_render]. intros tokens ovs H. by apply parse_render, (parse_plain tokens). Qed.

(** *** Merging *)

(** What an override is refused for, before any other is looked at. *)
Definition refusal (declared : btree string ArgValue) (o : string * option string) : option ArgError :=
  match bt_get (K := string) o.1 declared with
  | None => Some (UndeclaredKey o.1 (bt_keys declared))
  | Some (ArgBool _) =>
      match o.2 with
      | Some s => if decide (s = "true" ∨ s = "false") then None
                  else Some (NotTheDeclaredType o.1 "a boolean" s)
      | None => None
      end
  | Some (ArgInt _) =>
      match o.2 with
      | Some s => match parse_i64 s with
                  | Some _ => None
                  | None => Some (NotTheDeclaredType o.1 "an integer" s)
                  end
      | None => Some (MissingValue o.1 "an integer")
      end
  | Some (ArgStr _) => match o.2 with Some _ => None | None => Some (MissingValue o.1 "a string") end
  | Some (ArgList _) => match o.2 with Some _ => None | None => Some (MissingValue o.1 "a list") end
  end.

(** A declared default after the occurrences of its key, in order. *)
Definition overridden (default : ArgValue) (raws : list (option string)) : ArgValue :=
  match default with
  | ArgList l => ArgList (l ++ omap id raws)
  | _ =>
      match last raws with
      | None => default
      | Some raw =>
          match default, raw with
          | ArgBool _, r => ArgBool (bool_decide (r ≠ Some "false"))
          | ArgInt _, Some s => match parse_i64 s with Some n => ArgInt n | None => default end
          | ArgStr _, Some s => ArgStr s
          | _, _ => default
          end
      end
  end.

Definition occurrences (key : string) (ovs : Overrides) : list (option string) :=
  snd <$> filter (λ o, o.1 = key) ovs.

(** The table after some overrides. *)
Definition merged_by (declared merged : btree string ArgValue) (ovs : Overrides) : Prop :=
  bt_keys merged = bt_keys declared
  ∧ ∀ k d, bt_get (K := string) k declared = Some d →
      bt_get (K := string) k merged = Some (overridden d (occurrences k ovs)).

Lemma override_value_spec declared key raw d raws :
  bt_get (K := string) key declared = Some d →
  override_value key d (Some (overridden d raws)) raw
  = match refusal declared (key, raw) with
    | Some e => Err e
    | None => Ok (overridden d (raws ++ [raw]))
    end.
Proof.
  intros Hd. unfold refusal, override_value, want. simpl. rewrite Hd.
  unfold overridden. rewrite last_snoc.
  destruct d as [b|n|s|l]; simpl.
  - destruct raw as [s|]; [|done]. repeat case_bool_decide; subst; try done;
      case_decide; naive_solver.
  - destruct raw as [s|]; [|done]. simpl. by destruct (parse_i64 s).
  - by destruct raw.
  - destruct raw as [s|]; [|done]. simpl. rewrite omap_app. simpl. by rewrite app_assoc.
Qed.

Lemma occurrences_snoc k ovs o :
  occurrences k (ovs ++ [o]) = occurrences k ovs ++ (if decide (o.1 = k) then [o.2] else []).
Proof.
  unfold occurrences. rewrite list.filter_app, fmap_app. f_equal.
  destruct (decide (o.1 = k)); [by rewrite filter_cons_True|by rewrite filter_cons_False].
Qed.

Lemma merge_onto_spec declared ovs : ∀ merged past,
  bt_sorted merged → merged_by declared merged past →
  match merge_onto declared merged ovs with
  | Ok m => (∀ o, o ∈ ovs → refusal declared o = None) ∧ merged_by declared m (past ++ ovs)
  | Err e => ∃ pre o post, ovs = pre ++ o :: post
               ∧ (∀ o', o' ∈ pre → refusal declared o' = None) ∧ refusal declared o = Some e
  end.
Proof.
  induction ovs as [|[key raw] ovs IH]; intros merged past Hs Hm; cbn [merge_onto].
  { rewrite app_nil_r. split; [by intros o ?%not_elem_of_nil|done]. }
  destruct (bt_get (K := string) key declared) as [d|] eqn:Hd.
  2: { exists [], (key, raw), ovs. split_and!; [done|by intros o ?%not_elem_of_nil|].
       unfold refusal. simpl. by rewrite Hd. }
  destruct Hm as [Hkeys Hget]. rewrite (Hget _ _ Hd).
  rewrite (override_value_spec declared) by done.
  destruct (refusal declared (key, raw)) as [e|] eqn:Hr.
  { simpl. exists [], (key, raw), ovs. split_and!; [done|by intros o ?%not_elem_of_nil|done]. }
  cbn [rbind]. set (v := overridden d _).
  assert (Hm' : merged_by declared (bt_insert (K := string) key v merged) (past ++ [(key, raw)])).
  { split.
    - rewrite bt_get_is_Some_insert_keys; [done| |done|apply _].
      rewrite (Hget _ _ Hd). by eexists.
    - intros k d' Hk. rewrite occurrences_snoc. simpl. destruct (decide (key = k)) as [->|Hne].
      + rewrite bt_get_insert_eq. rewrite Hd in Hk. injection Hk as <-. done.
      + rewrite bt_get_insert_ne, app_nil_r by done. auto. }
  specialize (IH _ _ (bt_sorted_insert _ _ _ Hs) Hm').
  destruct (merge_onto _ _ ovs) as [m|e].
  - destruct IH as [Hall Hfin]. rewrite <-app_assoc in Hfin. split; [|done].
    intros o [->|Ho]%elem_of_cons; [done|auto].
  - destruct IH as (pre & o & post & -> & Hpre & Ho). exists ((key, raw) :: pre), o, post.
    split_and!; [done| |done]. intros o' [->|Ho']%elem_of_cons; [done|auto].
Qed.

(** A command line's arguments are the declared ones: the same keys, every
    scalar the last occurrence read at the declared type, every list its
    declared items and then each occurrence in order.  It is refused exactly
    when some override is, and then for the first one that is. *)
Theorem merge_args_spec declared ovs :
  bt_sorted declared →
  match merge_args declared ovs with
  | Ok merged => (∀ o, o ∈ ovs → refusal declared o = None) ∧ merged_by declared merged ovs
  | Err e => ∃ pre o post, ovs = pre ++ o :: post
               ∧ (∀ o', o' ∈ pre → refusal declared o' = None) ∧ refusal declared o = Some e
  end.
Proof.
  intros Hs. apply (merge_onto_spec declared ovs declared []); [done|].
  split; [done|]. intros k d Hd. rewrite Hd. f_equal. by destruct d; simpl; rewrite ?app_nil_r.
Qed.

Lemma merge_args_spec_witness :
  let declared := [("port", ArgInt 8092); ("stun", ArgList ["a"]); ("verbose", ArgBool false)] in
  let ovs := [("stun", Some "b"); ("verbose", None); ("stun", Some "c"); ("port", Some "1")] in
  bt_sorted declared
  ∧ match merge_args declared ovs with
    | Ok merged => (∀ o, o ∈ ovs → refusal declared o = None) ∧ merged_by declared merged ovs
    | Err e => ∃ pre o post, ovs = pre ++ o :: post
                 ∧ (∀ o', o' ∈ pre → refusal declared o' = None) ∧ refusal declared o = Some e
    end.
Proof.
  intros declared ovs.
  assert (Hs : bt_sorted declared).
  { unfold declared. rewrite !bt_sorted_cons. repeat split; try apply bt_sorted_nil;
      unfold bt_keys; simpl; intros k; rewrite ?elem_of_cons, ?elem_of_nil; naive_solver. }
  split; [done|]. by apply (merge_args_spec declared ovs).
Defined.

End ArgsFacts.

Example merge_example :
  merge_args [("port", ArgInt 8092); ("stun", ArgList ["a"]); ("verbose", ArgBool false)]
    [("stun", Some "b"); ("verbose", None); ("stun", Some "c"); ("port", Some "1")]
  = Ok [("port", ArgInt 1); ("stun", ArgList ["a"; "b"; "c"]); ("verbose", ArgBool true)].
Proof. by vm_compute. Qed.

Example overrides_example :
  parse_overrides ["--port"; "1"; "--verbose"; "--stun=--x"; "--k=a=b"]
  = Ok [("port", Some "1"); ("verbose", None); ("stun", Some "--x"); ("k", Some "a=b")]
  ∧ parse_overrides ["debug"; "verbose"] = Err (NotAnArgument "debug").
Proof. by vm_compute. Qed.
