(* ===== verification/Resolve.v ===== *)
(** * What a start would do ([crates/drt-config/src/resolve.rs], second half)

    Resolution: a pure function of what was read, which picks a profile, its
    entry and its arguments, says by which rule, and collects everything that
    is wrong. *)

From S2P Require Import Prelude.
From S2P Require Import Bytes.
From S2P Require Import Value.
From S2P Require Import Caps.
From S2P Require Import Config.
From S2P Require Import Id.
From S2P Require Import Canon.
From S2P Require Import Project.
From S2P Require Import Consent.
From S2P Require Import Args.

(** [RootConfig].  The blocks resolution only hands on (connectors,
    listeners, commands and the like) are kept by name. *)
Record RootConfig := MkRootConfig {
  rc_root : InstanceConfig;
  rc_dlua_dir : option string;
  rc_entry : option Entry;
  rc_args : btree string ArgValue;
  rc_blocks : btree string Json;
}.

(** ** One argument to what it means *)

Inductive Explicit := ExplicitFile | ExplicitCode | ExplicitProfile.

(** A newline, parentheses, both quotes, an equals sign and a semicolon. *)
Definition CODE_EVIDENCE : list ascii :=
  [of_byte 10; "("; ")"; "'"; of_byte 34; "="; ";"]%char.

Definition STDIN : string := "-".

Inductive Requested :=
  | ReqDefault
  | ReqProfile (name : string)
  | ReqFile (path : string)
  | ReqCode (code : string)
  | ReqStdlib (name : string)
  | ReqStdin.

Definition classify (token : string) (explicit : option Explicit) (profiles : list ProfileName) :
    Requested :=
  match explicit with
  | Some ExplicitFile => ReqFile token
  | Some ExplicitCode => ReqCode token
  | Some ExplicitProfile => ReqProfile token
  | None =>
      if bool_decide (token = STDIN) then ReqStdin
      else
        match strip_prefix STDLIB_PREFIX token with
        | Some name => ReqStdlib name
        | None =>
            if starts_with token "/" || starts_with token "./" then ReqFile token
            else if existsb (λ c, contains_char c token) CODE_EVIDENCE then ReqCode token
            else if existsb (λ p, bool_decide (p = token)) profiles then ReqProfile token
            else ReqFile token
        end
  end.

Definition no_such_file (token : string) : string :=
  "no file '" +:+ token
  +:+ "'; use -c to run it as code, -p for a profile, or -f to insist it is a file".

(** ** What resolution may look at *)

Record RootInputs := MkRootInputs {
  in_project : option ProjectJson;
  in_consent : option ConsentJson;
  in_profiles : btree string RootConfig;
  in_profile_dir : list string;
  in_dlua_dir : list string;
  in_init : list string;
  in_binary_version : option string;
}.

Record ResolveInputs := MkResolveInputs {
  in_root : option RootInputs;
  in_config_flag : option RootConfig;
  in_requested : Requested;
  in_overrides : Overrides;
  in_cwd : list string;
}.

(** ** What it answers *)

Inductive Rule :=
  | RuleExplicit
  | RuleDefaultProfile
  | RuleFallbackOrder (file : string)
  | RuleConfigFlag
  | RuleFromProfile
  | RuleProjectCeiling
  | RuleNoRootDefault
  | RuleDefault.

Definition rule_text (r : Rule) : string :=
  match r with
  | RuleExplicit => "named on the command line"
  | RuleDefaultProfile => "default_profile"
  | RuleFallbackOrder file => "fallback order, " +:+ file
  | RuleConfigFlag => "--config"
  | RuleFromProfile => "from the profile"
  | RuleProjectCeiling => "project.json caps"
  | RuleNoRootDefault => "no root, no config"
  | RuleDefault => "default"
  end.

Record Decided (T : Type) := MkDecided { value : T; rule : Rule }.
Arguments MkDecided {T}.
Arguments value {T}.
Arguments rule {T}.

Inductive Finding :=
  | NothingToRun
  | NoProfilesDeclared
  | NoDefaultProfile (declared : nat)
  | UndeclaredProfile (name : string) (declared : list string)
  | DeclaredProfileMissing (filename : string)
  | UndeclaredProfilePresent (filename : string)
  | NoEntry (profile : string)
  | EntryMissing (profile entry dlua_dir : string)
  | DluaDirWithoutEntry (profile : string)
  | PinMismatch (pinned present : string)
  | NoPin
  | ProfileExceedsCeiling (profile : string) (source : ConfigError)
  | NoProjectName
  | NoProjectVersion
  | FindNoCeiling
  | FindConsent (e : ConsentFailure)
  | FindArgs (e : ArgError)
  | BadProfileFilename (e : BadProfileName).

Definition blocks (f : Finding) : bool :=
  match f with
  | NoProjectName | NoProjectVersion | NoPin | UndeclaredProfilePresent _ => false
  | _ => true
  end.

Record Resolution := MkResolution {
  r_profile : option (Decided ProfileName);
  r_entry : option (Decided Entry);
  r_dlua_dir : option (Decided string);
  r_ceiling : option (Decided (list Grant));
  r_args : btree string ArgValue;
  r_consent : option ConsentCheck;
  r_pin : option (Decided string);
  r_findings : list Finding;
}.

Definition default_resolution : Resolution := MkResolution None None None None [] None None [].

Definition set_profile (x : option (Decided ProfileName)) (r : Resolution) : Resolution :=
  MkResolution x (r_entry r) (r_dlua_dir r) (r_ceiling r) (r_args r) (r_consent r) (r_pin r) (r_findings r).
Definition set_entry (x : option (Decided Entry)) (r : Resolution) : Resolution :=
  MkResolution (r_profile r) x (r_dlua_dir r) (r_ceiling r) (r_args r) (r_consent r) (r_pin r) (r_findings r).
Definition set_dlua_dir (x : option (Decided string)) (r : Resolution) : Resolution :=
  MkResolution (r_profile r) (r_entry r) x (r_ceiling r) (r_args r) (r_consent r) (r_pin r) (r_findings r).
Definition set_ceiling (x : option (Decided (list Grant))) (r : Resolution) : Resolution :=
  MkResolution (r_profile r) (r_entry r) (r_dlua_dir r) x (r_args r) (r_consent r) (r_pin r) (r_findings r).
Definition set_args (x : btree string ArgValue) (r : Resolution) : Resolution :=
  MkResolution (r_profile r) (r_entry r) (r_dlua_dir r) (r_ceiling r) x (r_consent r) (r_pin r) (r_findings r).
Definition set_consent (x : option ConsentCheck) (r : Resolution) : Resolution :=
  MkResolution (r_profile r) (r_entry r) (r_dlua_dir r) (r_ceiling r) (r_args r) x (r_pin r) (r_findings r).
Definition set_pin (x : option (Decided string)) (r : Resolution) : Resolution :=
  MkResolution (r_profile r) (r_entry r) (r_dlua_dir r) (r_ceiling r) (r_args r) (r_consent r) x (r_findings r).
Definition find (fs : list Finding) (r : Resolution) : Resolution :=
  MkResolution (r_profile r) (r_entry r) (r_dlua_dir r) (r_ceiling r) (r_args r) (r_consent r) (r_pin r)
    (r_findings r ++ fs).

Definition blocker (r : Resolution) : option Finding := find_first blocks (r_findings r).

(** ** The checks *)

Definition FALLBACK_ORDER : list string :=
  ["debug.config.json"; "default.config.json"; "release.config.json"].

Definition has (l : list string) (f : string) : bool := existsb (λ x, bool_decide (x = f)) l.

Definition fallback (cwd : list string) : option string := find_first (has cwd) FALLBACK_ORDER.

Definition take_profile_fields (config : RootConfig) (profile : string) (rule : Rule)
    (out : Resolution) : Resolution :=
  let out := match rc_dlua_dir config with
             | Some dir => set_dlua_dir (Some (MkDecided dir rule)) out
             | None => out
             end in
  match rc_entry config with
  | Some entry => set_entry (Some (MkDecided entry rule)) out
  | None =>
      match r_entry out with
      | None => find [match rc_dlua_dir config with
                      | Some _ => DluaDirWithoutEntry profile
                      | None => NoEntry profile
                      end] out
      | Some _ => out
      end
  end.

Definition merge_into (config : RootConfig) (overrides : Overrides) (out : Resolution) : Resolution :=
  match merge_args (rc_args config) overrides with
  | Ok args => set_args args out
  | Err e => find [FindArgs e] (set_args (rc_args config) out)
  end.

Definition check_pin (project : ProjectJson) (root : RootInputs) (out : Resolution) : Resolution :=
  match drt project, in_binary_version root with
  | Some pinned, Some present =>
      if negb (Args.same pinned present) then
        find [PinMismatch pinned present] (set_pin (Some (MkDecided pinned RuleProjectCeiling)) out)
      else set_pin (Some (MkDecided pinned RuleProjectCeiling)) out
  | Some pinned, None => set_pin (Some (MkDecided pinned RuleProjectCeiling)) out
  | None, _ => find [NoPin] out
  end.

Definition check_profile_dir (declared : btree ProfileName string) (root : RootInputs)
    (out : Resolution) : Resolution :=
  let missing := filter (λ f, has (in_profile_dir root) f = false) (bt_values declared) in
  let stray := filter (λ f, has (bt_values declared) f = false) (in_profile_dir root) in
  find (UndeclaredProfilePresent <$> stray) (find (DeclaredProfileMissing <$> missing) out).

(** The ceiling as the parent every profile must attenuate under. *)
Definition ceiling_parent (project : ProjectJson) : InstanceConfig :=
  MkInstanceConfig None (Project.caps project) (MkBudget None None) (MkNumeric None None).

(** A profile's complaint, where it has one. *)
Definition exceeds (project : ProjectJson) (root : RootInputs) (nf : ProfileName * string) :
    option Finding :=
  config ← bt_get (K := string) nf.2 (in_profiles root);
  match check_attenuation (rc_root config) (ceiling_parent project) with
  | Err source => Some (ProfileExceedsCeiling nf.1 source)
  | Ok _ => None
  end.

Definition check_ceiling (project : ProjectJson) (declared : btree ProfileName string)
    (root : RootInputs) (out : Resolution) : Resolution :=
  find (omap (exceeds project root) declared) out.

Definition check_entry (profile : string) (root : RootInputs) (out : Resolution) : Resolution :=
  match r_entry out with
  | Some d =>
      match value d with
      | EntryFile path =>
          let '(listing, where_from) := match r_dlua_dir out with
                                        | Some dir => (in_dlua_dir root, value dir)
                                        | None => (in_init root, "init/")
                                        end in
          if negb (has listing path) then find [EntryMissing profile path where_from] out else out
      | EntryStdlib _ => out
      end
  | None => out
  end.

(** ** Resolution *)

(** [--config] with no root, or neither. *)
Definition resolve_no_root (inputs : ResolveInputs) : Resolution :=
  match in_config_flag inputs with
  | Some config =>
      let caps := Config.caps (rc_root config) in
      let out := take_profile_fields config "--config" RuleConfigFlag default_resolution in
      let out := set_ceiling
        (Some (MkDecided (if bool_decide (caps = []) then [grant "host:*"] else caps)
                 (if bool_decide (caps = []) then RuleNoRootDefault else RuleConfigFlag))) out in
      merge_into config (in_overrides inputs) out
  | None => find [NothingToRun] default_resolution
  end.

(** A root with no [project.json]. *)
Definition resolve_no_project (inputs : ResolveInputs) (root : RootInputs) : Resolution :=
  match fallback (in_cwd inputs) with
  | Some file =>
      match (match bt_get (K := string) file (in_profiles root) with
             | Some config => Some config
             | None => in_config_flag inputs
             end) with
      | Some config =>
          merge_into config (in_overrides inputs)
            (take_profile_fields config file (RuleFallbackOrder file) default_resolution)
      | None => default_resolution
      end
  | None => find [NothingToRun] default_resolution
  end.

Section resolve.
Context `{JsonText} `{Digest} `{ScopeJson} `{ScopeEq}.

(** The descriptor's own findings, the pin, the ceiling, consent and every
    declared profile. *)
Definition resolve_project (project : ProjectJson) (root : RootInputs) : Resolution :=
  let out := default_resolution in
  let out := match project_name project with None => find [NoProjectName] out | Some _ => out end in
  let out := match project_version project with None => find [NoProjectVersion] out | Some _ => out end in
  let out := check_pin project root out in
  let out := set_ceiling (Some (MkDecided (Project.caps project) RuleProjectCeiling)) out in
  let out := if bool_decide (Project.caps project = []) then find [FindNoCeiling] out
             else match check project (in_consent root) with
                  | Ok c => set_consent (Some c) out
                  | Err e => find [FindConsent e] out
                  end in
  let '(declared, bad) := ProjectJson.declared_profiles project in
  let out := find (BadProfileFilename <$> bad) out in
  let out := check_profile_dir declared root out in
  check_ceiling project declared root out.

(** Which profile runs, and by which rule. *)
Definition pick (project : ProjectJson) (requested : Requested) (out : Resolution) :
    option (string * Rule) * Resolution :=
  let by_default := n ← default_profile project; Some (n, RuleDefaultProfile) in
  let declared := (ProjectJson.declared_profiles project).1 in
  match requested with
  | ReqProfile name => (Some (name, RuleExplicit), out)
  | ReqDefault =>
      match default_profile project with
      | Some name => (Some (name, RuleDefaultProfile), out)
      | None => (None, find [if bool_decide (declared = []) then NoProfilesDeclared
                             else NoDefaultProfile (length declared)] out)
      end
  | ReqFile path => (by_default, set_entry (Some (MkDecided (EntryFile path) RuleExplicit)) out)
  | ReqStdlib name => (by_default, set_entry (Some (MkDecided (EntryStdlib name) RuleExplicit)) out)
  | ReqCode _ | ReqStdin => (by_default, out)
  end.

(** The picked profile's fields. *)
Definition resolve_profile (inputs : ResolveInputs) (project : ProjectJson) (root : RootInputs)
    (picked : string) (rule : Rule) (out : Resolution) : Resolution :=
  let declared := (ProjectJson.declared_profiles project).1 in
  match ProfileName.new picked with
  | Err e => find [BadProfileFilename e] out
  | Ok name =>
      match bt_get (K := string) name declared with
      | None => find [UndeclaredProfile name (bt_keys declared)] out
      | Some filename =>
          match bt_get (K := string) filename (in_profiles root) with
          | None => find [DeclaredProfileMissing filename] out
          | Some config =>
              let out := set_profile (Some (MkDecided name rule)) out in
              let explicit_entry := r_entry out in
              let out := take_profile_fields config name RuleFromProfile out in
              let out := match explicit_entry with
                         | None => out
                         | Some _ =>
                             match in_requested inputs with
                             | ReqFile path => set_entry (Some (MkDecided (EntryFile path) RuleExplicit)) out
                             | ReqStdlib n => set_entry (Some (MkDecided (EntryStdlib n) RuleExplicit)) out
                             | _ => out
                             end
                         end in
              merge_into config (in_overrides inputs) (check_entry name root out)
          end
      end
  end.

Definition resolve (inputs : ResolveInputs) : Resolution :=
  match in_root inputs with
  | None => resolve_no_root inputs
  | Some root =>
      match in_project root with
      | None => resolve_no_project inputs root
      | Some project =>
          let '(picked, out) := pick project (in_requested inputs) (resolve_project project root) in
          match picked with
          | None => out
          | Some (name, rule) => resolve_profile inputs project root name rule out
          end
      end
  end.

End resolve.

(** ** What is said of a finding *)

Definition bad_profile_name_text (e : BadProfileName) : string :=
  match e with
  | ProfileEmpty => "a profile name cannot be empty"
  | ProfileReserved name => "'" +:+ name +:+ "' is a reserved name and cannot name a profile"
  | NotAName name =>
      "'" +:+ name +:+ "' is not a profile name; a name has no '.', '/' or '\' in it -- '" +:+ name
      +:+ PROFILE_SUFFIX +:+ "' is the filename"
  | NotAProfileFilename filename =>
      "'" +:+ filename +:+ "' is not a profile filename; every profile is named '<name>" +:+ PROFILE_SUFFIX
      +:+ "'"
  end.

Definition consent_failure_text (e : ConsentFailure) : string :=
  match e with
  | RootIdMismatch expected found =>
      "consent.json is for root " +:+ Uuid7.display found +:+ ", but this root is " +:+ Uuid7.display expected
      +:+ "; a consent file never travels, so one that does not match is not this root's"
  | NoCeiling =>
      "this root declares no ceiling; a root with a project.json states its caps or does not start (the wide default belongs to the no-root path)"
  | CeilingHash e =>
      "the ceiling cannot be hashed: " +:+ detail e
      +:+ "; a scope holding something JSON has no form for cannot be consented to"
  | PeersNotSupported binding =>
      "consent.json binds the peer " +:+ binding
      +:+ ", and peer delivery is not supported in this build; remove the binding to start"
  end.

Definition finding_text (f : Finding) : string :=
  match f with
  | NothingToRun =>
      "no project.json and none of " +:+ join_comma FALLBACK_ORDER
      +:+ " in this directory; name a config with --config, or run dollup init"
  | NoProfilesDeclared => "this root declares no profiles"
  | NoDefaultProfile declared =>
      "no default_profile is set, and this root declares " +:+ dec (N.of_nat declared)
      +:+ " profiles; name one"
  | UndeclaredProfile name declared =>
      "'" +:+ name +:+ "' is not a profile this root declares; it declares " +:+ join_comma declared
  | DeclaredProfileMissing filename =>
      "'" +:+ filename +:+ "' is declared in project.json but is not in profile/"
  | UndeclaredProfilePresent filename =>
      "'" +:+ filename +:+ "' is in profile/ but not declared in project.json, so it is ignored"
  | NoEntry profile =>
      "profile '" +:+ profile +:+ "' declares no entry; a deployment is config plus a program"
  | EntryMissing profile entry dlua_dir =>
      "profile '" +:+ profile +:+ "' names entry '" +:+ entry +:+ "', which is not under dlua_dir '"
      +:+ dlua_dir +:+ "'"
  | DluaDirWithoutEntry profile =>
      "profile '" +:+ profile +:+ "' names a dlua_dir but no entry inside it"
  | PinMismatch pinned present =>
      "the pinned drt is " +:+ pinned +:+ " and this binary is " +:+ present
  | NoPin => "no drt version is pinned in project.json"
  | ProfileExceedsCeiling profile source => "profile '" +:+ profile +:+ "': " +:+ config_error_text source
  | NoProjectName => "no project_name is set"
  | NoProjectVersion => "no project_version is set"
  | FindNoCeiling => consent_failure_text NoCeiling
  | FindConsent e => consent_failure_text e
  | FindArgs e => arg_error_text e
  | BadProfileFilename e => "project.json: " +:+ bad_profile_name_text e
  end.
