(* ===== verification/ResolveSpec.v ===== *)
(** * What resolution promises

    What bounds a run, and a report that is neither missing a problem nor
    inventing one. *)

From S2P Require Import Prelude.
From S2P Require Import Bytes.
From S2P Require Import Value.
From S2P Require Import Caps.
From S2P Require Import Config.
From S2P Require Import Id.
From S2P Require Import Canon.
From S2P Require Import Project.
From S2P Require Import Consent.
From S2P Require Import Args.
From S2P Require Import Resolve.

Module ResolveFacts.
Import ProjectFacts.

Lemma has_iff l f : has l f = true ↔ f ∈ l.
Proof.
  unfold has. rewrite existsb_elem_of. split.
  - intros (x & Hx & Hf%bool_decide_eq_true). by subst.
  - intros Hf. exists f. by rewrite bool_decide_true.
Qed.

Lemma has_false l f : has l f = false ↔ f ∉ l.
Proof. rewrite <-has_iff. by destruct (has l f). Qed.

Lemma blocker_None r : blocker r = None ↔ ∀ f, f ∈ r_findings r → blocks f = false.
Proof.
  unfold blocker. split; [intros H f; by apply find_first_None|].
  intros H. destruct (find_first _ _) as [f|] eqn:E; [|done].
  apply find_first_Some in E as [Hin Hb]. rewrite (H f Hin) in Hb. done.
Qed.

(** The declared profiles: the well-named files of the list. *)
Definition declares (p : ProjectJson) (n f : string) : Prop :=
  f ∈ profiles p ∧ ProfileName.from_filename f = Ok n.

Lemma declared_get p n f :
  bt_get (K := string) n (ProjectJson.declared_profiles p).1 = Some f ↔ declares p n f.
Proof.
  destruct (name_profiles_spec (profiles p) [] []) as (H1 & H2 & _ & _); [done|].
  split; [|intros [? ?]; by apply H2]. intros Hf. unfold declares.
  by apply H1 in Hf as [Hf [?|?]].
Qed.

Lemma name_profiles_sorted files : ∀ named bad,
  bt_sorted named → bt_sorted (ProjectJson.name_profiles files named bad).1.
Proof.
  induction files as [|f files IH]; intros named bad Hs; [done|]. cbn [ProjectJson.name_profiles].
  destruct (ProfileName.from_filename f); apply IH; [|done]. by apply bt_sorted_insert.
Qed.

Lemma declared_elem p n f : (n, f) ∈ (ProjectJson.declared_profiles p).1 ↔ declares p n f.
Proof.
  rewrite <-declared_get. split; [|apply bt_get_elem].
  apply bt_sorted_get_elem, name_profiles_sorted, bt_sorted_nil.
Qed.

Lemma declared_values p f :
  f ∈ bt_values (ProjectJson.declared_profiles p).1 ↔ ∃ n, declares p n f.
Proof.
  unfold bt_values. rewrite list_elem_of_fmap. split.
  - intros ([n f'] & -> & Hin). exists n. by apply declared_elem.
  - intros (n & Hn). exists (n, f). split; [done|]. by apply declared_elem.
Qed.

Lemma declared_keys p n :
  n ∈ bt_keys (ProjectJson.declared_profiles p).1 ↔ ∃ f, declares p n f.
Proof.
  unfold bt_keys. rewrite list_elem_of_fmap. split.
  - intros ([n' f] & -> & Hin). exists f. by apply declared_elem.
  - intros (f & Hn). exists (n, f). split; [done|]. by apply declared_elem.
Qed.

Lemma declared_bad p e :
  e ∈ (ProjectJson.declared_profiles p).2 ↔ ∃ f, f ∈ profiles p ∧ ProfileName.from_filename f = Err e.
Proof.
  destruct (name_profiles_spec (profiles p) [] []) as (_ & _ & _ & H4); [done|].
  assert (E : (ProjectJson.declared_profiles p).2
    = omap (λ f, match ProfileName.from_filename f with Ok _ => None | Err e => Some e end) (profiles p))
    by exact H4.
  rewrite E, list_elem_of_omap. split.
  - intros (f & Hf & He). exists f. split; [done|].
    destruct (ProfileName.from_filename f); by simplify_eq.
  - intros (f & Hf & He). exists f. by rewrite He.
Qed.

Section facts.
Context `{JsonText} `{Digest} `{ScopeJson} `{ScopeEq}.

(** *** What each stage adds to the report *)

(** What is wrong with a root whatever is asked of it. *)
Definition root_reason (project : ProjectJson) (root : RootInputs) (f : Finding) : Prop :=
  match f with
  | NoProjectName => project_name project = None
  | NoProjectVersion => project_version project = None
  | NoPin => drt project = None
  | PinMismatch p b =>
      drt project = Some p ∧ in_binary_version root = Some b ∧ Args.same p b = false
  | FindNoCeiling => Project.caps project = []
  | FindConsent e => Project.caps project ≠ [] ∧ check project (in_consent root) = Err e
  | BadProfileFilename e => ∃ f, f ∈ profiles project ∧ ProfileName.from_filename f = Err e
  | DeclaredProfileMissing f => (∃ n, declares project n f) ∧ f ∉ in_profile_dir root
  | UndeclaredProfilePresent f => f ∈ in_profile_dir root ∧ ¬ ∃ n, declares project n f
  | ProfileExceedsCeiling n source =>
      ∃ f config, declares project n f
        ∧ bt_get (K := string) f (in_profiles root) = Some config
        ∧ check_attenuation (rc_root config) (ceiling_parent project) = Err source
  | _ => False
  end.

Lemma check_pin_reports project root out f :
  f ∈ r_findings (check_pin project root out) ↔
    f ∈ r_findings out ∨
    match f with
    | NoPin => drt project = None
    | PinMismatch p b =>
        drt project = Some p ∧ in_binary_version root = Some b ∧ Args.same p b = false
    | _ => False
    end.
Proof.
  unfold check_pin. destruct (drt project) as [p|], (in_binary_version root) as [b|];
    try (destruct (Args.same p b) eqn:Hs); simpl;
    rewrite ?elem_of_app, ?list_elem_of_singleton; destruct f;
    first [split; [tauto|intros [?|?]; destruct_and?; simplify_eq; congruence]|naive_solver].
Qed.

Lemma check_profile_dir_reports project root out f :
  f ∈ r_findings (check_profile_dir (ProjectJson.declared_profiles project).1 root out) ↔
    f ∈ r_findings out ∨
    match f with
    | DeclaredProfileMissing f => (∃ n, declares project n f) ∧ f ∉ in_profile_dir root
    | UndeclaredProfilePresent f => f ∈ in_profile_dir root ∧ ¬ ∃ n, declares project n f
    | _ => False
    end.
Proof.
  unfold check_profile_dir. simpl. rewrite !elem_of_app, !list_elem_of_fmap. split.
  - intros [[?|(x & -> & [Hh Hx]%list_elem_of_filter)]|(x & -> & [Hh Hx]%list_elem_of_filter)]; [by left|right..].
    + apply has_false in Hh. by apply declared_values in Hx.
    + apply has_false in Hh. split; [done|]. by rewrite <-declared_values.
  - intros [?|Hf]; [by left; left|]. destruct f as [| | | |x|x| | | | | | | | | | | |]; try done.
    + destruct Hf as [Hn Hx]. left; right. exists x. split; [done|].
      apply list_elem_of_filter. rewrite has_false. split; [done|]. by apply declared_values.
    + destruct Hf as [Hx Hn]. right. exists x. split; [done|].
      apply list_elem_of_filter. by rewrite has_false, declared_values.
Qed.

Lemma check_ceiling_reports project root out f :
  f ∈ r_findings (check_ceiling project (ProjectJson.declared_profiles project).1 root out) ↔
    f ∈ r_findings out ∨
    match f with
    | ProfileExceedsCeiling n source =>
        ∃ f config, declares project n f
          ∧ bt_get (K := string) f (in_profiles root) = Some config
          ∧ check_attenuation (rc_root config) (ceiling_parent project) = Err source
    | _ => False
    end.
Proof.
  unfold check_ceiling. simpl. rewrite elem_of_app, list_elem_of_omap. split.
  - intros [?|([n file] & Hin%declared_elem & Hf)]; [by left|right].
    unfold exceeds in Hf. simpl in Hf.
    destruct (bt_get (K := string) file (in_profiles root)) as [config|] eqn:Hc; [|done]. simpl in Hf.
    destruct (check_attenuation _ _) as [[]|source] eqn:Ha; [done|]. injection Hf as <-. eauto 10.
  - intros [?|Hf]; [by left|right]. destruct f; try done.
    destruct Hf as (file & config & Hd & Hc & Ha). exists (profile, file).
    split; [by apply declared_elem|]. unfold exceeds. simpl. by rewrite Hc; simpl; rewrite Ha.
Qed.

Lemma resolve_project_reports project root f :
  f ∈ r_findings (resolve_project project root) ↔ root_reason project root f.
Proof.
  unfold resolve_project.
  rewrite (surjective_pairing (ProjectJson.declared_profiles project)).
  rewrite check_ceiling_reports, check_profile_dir_reports. simpl.
  rewrite elem_of_app, list_elem_of_fmap.
  setoid_rewrite declared_bad.
  set (out := check_pin project root _).
  assert (Hout : ∀ f, f ∈ r_findings out ↔
            match f with
            | NoProjectName => project_name project = None
            | NoProjectVersion => project_version project = None
            | NoPin => drt project = None
            | PinMismatch p b =>
                drt project = Some p ∧ in_binary_version root = Some b ∧ Args.same p b = false
            | _ => False
            end).
  { intros g. unfold out. rewrite check_pin_reports.
    destruct (project_name project), (project_version project); simpl;
      rewrite ?elem_of_cons, ?elem_of_nil; destruct g; naive_solver. }
  destruct (bool_decide_reflect (Project.caps project = [])) as [Hcaps|Hcaps].
  - simpl. rewrite elem_of_app, list_elem_of_singleton, Hout. unfold root_reason.
    destruct f; naive_solver.
  - destruct (check project (in_consent root)) as [c|e] eqn:Hc; simpl;
      rewrite ?elem_of_app, ?list_elem_of_singleton, Hout; unfold root_reason;
      destruct f; rewrite ?Hc; try naive_solver;
      (split; [intros Hf; repeat destruct Hf as [Hf|Hf]; destruct_and?; simplify_eq; naive_solver
              |intros [_ Hf]; by simplify_eq; tauto]).
Qed.

(** *** Which profile runs, and what that adds *)

(** The profile a request runs, by name. *)
Definition asked (project : ProjectJson) (req : Requested) : option string :=
  match req with ReqProfile n => Some n | _ => default_profile project end.

Definition asked_rule (req : Requested) : Rule :=
  match req with ReqProfile _ => RuleExplicit | _ => RuleDefaultProfile end.

(** The program the command line names itself. *)
Definition explicit_entry (req : Requested) : option Entry :=
  match req with
  | ReqFile path => Some (EntryFile path)
  | ReqStdlib n => Some (EntryStdlib n)
  | _ => None
  end.

Definition entry_of (req : Requested) (config : RootConfig) : option Entry :=
  match explicit_entry req with Some e => Some e | None => rc_entry config end.

(** Profile [n] runs, as [config]. *)
Definition runs (inputs : ResolveInputs) (project : ProjectJson) (root : RootInputs)
    (n : string) (config : RootConfig) : Prop :=
  asked project (in_requested inputs) = Some n
  ∧ ∃ f, declares project n f ∧ bt_get (K := string) f (in_profiles root) = Some config.

(** Where a file entry has to be. *)
Definition source_of (root : RootInputs) (config : RootConfig) : list string * string :=
  match rc_dlua_dir config with
  | Some dir => (in_dlua_dir root, dir)
  | None => (in_init root, "init/")
  end.

(** What is wrong with what was asked of a root. *)
Definition run_reason (inputs : ResolveInputs) (project : ProjectJson) (root : RootInputs)
    (f : Finding) : Prop :=
  let req := in_requested inputs in
  match f with
  | NoProfilesDeclared =>
      req = ReqDefault ∧ default_profile project = None ∧ ¬ ∃ n f, declares project n f
  | NoDefaultProfile k =>
      req = ReqDefault ∧ default_profile project = None
      ∧ k = length (bt_keys (ProjectJson.declared_profiles project).1) ∧ k ≠ 0
  | BadProfileFilename e => ∃ n, asked project req = Some n ∧ ProfileName.new n = Err e
  | UndeclaredProfile n known =>
      asked project req = Some n ∧ ProfileName.new n = Ok n ∧ (¬ ∃ f, declares project n f)
      ∧ known = bt_keys (ProjectJson.declared_profiles project).1
  | DeclaredProfileMissing f =>
      ∃ n, asked project req = Some n ∧ declares project n f
        ∧ bt_get (K := string) f (in_profiles root) = None
  | NoEntry n =>
      ∃ config, runs inputs project root n config ∧ entry_of req config = None
        ∧ rc_dlua_dir config = None
  | DluaDirWithoutEntry n =>
      ∃ config, runs inputs project root n config ∧ entry_of req config = None
        ∧ is_Some (rc_dlua_dir config)
  | EntryMissing n path dir =>
      ∃ config, runs inputs project root n config ∧ entry_of req config = Some (EntryFile path)
        ∧ (path ∉ (source_of root config).1) ∧ dir = (source_of root config).2
  | FindArgs e =>
      ∃ n config, runs inputs project root n config
        ∧ merge_args (rc_args config) (in_overrides inputs) = Err e
  | _ => False
  end.

Lemma declares_name p n f : declares p n f → f = ProfileName.filename n ∧ ProfileName.new n = Ok n.
Proof. intros [_ Hf]. by apply from_filename_inv in Hf. Qed.

Lemma declares_fun p n f f' : declares p n f → declares p n f' → f = f'.
Proof. intros [-> _]%declares_name [-> _]%declares_name. done. Qed.

Lemma new_Ok n m : ProfileName.new n = Ok m → m = n.
Proof. unfold ProfileName.new. repeat case_match; by intros [= <-]. Qed.

(** The findings of a profile that runs, in order. *)
Definition profile_findings (inputs : ResolveInputs) (root : RootInputs) (n : string)
    (config : RootConfig) : list Finding :=
  let entry := entry_of (in_requested inputs) config in
  let '(listing, dir) := source_of root config in
  (match entry with
   | Some _ => []
   | None => [match rc_dlua_dir config with Some _ => DluaDirWithoutEntry n | None => NoEntry n end]
   end)
  ++ (match entry with
      | Some (EntryFile path) => if has listing path then [] else [EntryMissing n path dir]
      | _ => []
      end)
  ++ (match merge_args (rc_args config) (in_overrides inputs) with Ok _ => [] | Err e => [FindArgs e] end).

Lemma resolve_profile_runs inputs project root n rule out config f :
  declares project n f → bt_get (K := string) f (in_profiles root) = Some config →
  value <$> r_entry out = explicit_entry (in_requested inputs) → r_dlua_dir out = None →
  let r := resolve_profile inputs project root n rule out in
  r_profile r = Some (MkDecided n rule)
  ∧ (value <$> r_entry r) = entry_of (in_requested inputs) config
  ∧ r_ceiling r = r_ceiling out ∧ r_consent r = r_consent out ∧ r_pin r = r_pin out
  ∧ r_args r = match merge_args (rc_args config) (in_overrides inputs) with
               | Ok args => args
               | Err _ => rc_args config
               end
  ∧ r_findings r = r_findings out ++ profile_findings inputs root n config.
Proof.
  intros Hd Hc He Hdir. pose proof (declares_name _ _ _ Hd) as [_ Hn].
  unfold resolve_profile. rewrite Hn, (proj2 (declared_get _ _ _) Hd), Hc.
  unfold profile_findings, source_of, entry_of, merge_into, check_entry, take_profile_fields.
  destruct out as [pr en dl ce ar co pi fi]. cbn [r_entry r_dlua_dir] in He, Hdir. subst dl.
  destruct en as [[e er]|], (in_requested inputs) as [|?|?|?|?|]; try done; simpl in He;
    try (injection He as ->); destruct (rc_dlua_dir config) as [dir|] eqn:Hdl,
      (rc_entry config) as [[q|q]|] eqn:Hen, (merge_args _ _) as [args|err]; simpl;
    repeat match goal with |- context [has ?l ?x] => destruct (has l x) end; simpl;
    by rewrite ?app_nil_r, <-?app_assoc.
Qed.

Lemma resolve_project_entry project root : r_entry (resolve_project project root) = None.
Proof.
  unfold resolve_project, check_pin.
  rewrite (surjective_pairing (ProjectJson.declared_profiles project)). simpl.
  by repeat case_match.
Qed.

Lemma resolve_project_dlua project root : r_dlua_dir (resolve_project project root) = None.
Proof.
  unfold resolve_project, check_pin.
  rewrite (surjective_pairing (ProjectJson.declared_profiles project)). simpl.
  by repeat case_match.
Qed.

Lemma resolve_project_ceiling project root :
  r_ceiling (resolve_project project root) = Some (MkDecided (Project.caps project) RuleProjectCeiling).
Proof.
  unfold resolve_project, check_pin.
  rewrite (surjective_pairing (ProjectJson.declared_profiles project)). simpl.
  by repeat case_match.
Qed.

Lemma resolve_project_consent project root :
  Project.caps project ≠ [] →
  r_consent (resolve_project project root)
  = match check project (in_consent root) with Ok c => Some c | Err _ => None end.
Proof.
  intros Hc. unfold resolve_project, check_pin.
  rewrite (surjective_pairing (ProjectJson.declared_profiles project)). simpl.
  rewrite bool_decide_false by done. by repeat case_match.
Qed.

(** What asking adds before a profile is looked for. *)
Definition pick_findings (project : ProjectJson) (req : Requested) : list Finding :=
  let declared := (ProjectJson.declared_profiles project).1 in
  match req, default_profile project with
  | ReqDefault, None =>
      [if bool_decide (declared = []) then NoProfilesDeclared else NoDefaultProfile (length declared)]
  | _, _ => []
  end.

Lemma pick_spec project req out :
  r_entry out = None →
  let r := (pick project req out).2 in
  (pick project req out).1 = (λ n, (n, asked_rule req)) <$> asked project req
  ∧ value <$> r_entry r = explicit_entry req
  ∧ r_dlua_dir r = r_dlua_dir out ∧ r_ceiling r = r_ceiling out ∧ r_consent r = r_consent out
  ∧ r_pin r = r_pin out ∧ r_profile r = r_profile out
  ∧ r_findings r = r_findings out ++ pick_findings project req.
Proof.
  intros He. unfold pick, pick_findings, asked.
  destruct req, (default_profile project); simpl; rewrite ?He, ?app_nil_r; done.
Qed.

(** What a name that runs nothing adds. *)
Definition unrun_finding (project : ProjectJson) (root : RootInputs) (n : string) : list Finding :=
  let declared := (ProjectJson.declared_profiles project).1 in
  match ProfileName.new n with
  | Err e => [BadProfileFilename e]
  | Ok name =>
      match bt_get (K := string) name declared with
      | None => [UndeclaredProfile name (bt_keys declared)]
      | Some f => match bt_get (K := string) f (in_profiles root) with
                  | None => [DeclaredProfileMissing f]
                  | Some _ => []
                  end
      end
  end.

(** A name runs a configuration, or says why not. *)
Lemma runs_or_not inputs project root n rule out :
  asked project (in_requested inputs) = Some n →
  value <$> r_entry out = explicit_entry (in_requested inputs) → r_dlua_dir out = None →
  (∃ config, runs inputs project root n config
     ∧ r_findings (resolve_profile inputs project root n rule out)
       = r_findings out ++ profile_findings inputs root n config
     ∧ unrun_finding project root n = [])
  ∨ ((∀ config, ¬ runs inputs project root n config)
     ∧ resolve_profile inputs project root n rule out = find (unrun_finding project root n) out
     ∧ unrun_finding project root n ≠ []).
Proof.
  intros Hask He Hdir. unfold unrun_finding.
  destruct (ProfileName.new n) as [m|e] eqn:Hn.
  2: { right. split_and!; [|by unfold resolve_profile; rewrite Hn|done].
       intros config (_ & f & Hd & _). apply declares_name in Hd as [_ Hd]. congruence. }
  assert (m = n) as -> by by apply new_Ok in Hn.
  destruct (bt_get (K := string) n _) as [f|] eqn:Hf.
  2: { right. split_and!; [|by unfold resolve_profile; rewrite Hn, Hf|done].
       intros config (_ & f & Hd & _). apply declared_get in Hd. congruence. }
  apply declared_get in Hf as Hd.
  destruct (bt_get (K := string) f (in_profiles root)) as [config|] eqn:Hc.
  2: { right. split_and!; [|by unfold resolve_profile; rewrite Hn, Hf, Hc|done].
       intros config (_ & f' & Hd' & Hc'). rewrite (declares_fun _ _ _ _ Hd' Hd) in Hc'. congruence. }
  left. exists config. split_and!; [split; [done|by exists f]| |done].
  by apply (resolve_profile_runs inputs project root n rule out config f).
Qed.

Lemma profile_findings_reports inputs root n config f :
  f ∈ profile_findings inputs root n config ↔
    match f with
    | NoEntry m => m = n ∧ entry_of (in_requested inputs) config = None ∧ rc_dlua_dir config = None
    | DluaDirWithoutEntry m =>
        m = n ∧ entry_of (in_requested inputs) config = None ∧ is_Some (rc_dlua_dir config)
    | EntryMissing m path dir =>
        m = n ∧ entry_of (in_requested inputs) config = Some (EntryFile path)
        ∧ (path ∉ (source_of root config).1) ∧ dir = (source_of root config).2
    | FindArgs e => merge_args (rc_args config) (in_overrides inputs) = Err e
    | _ => False
    end.
Proof.
  unfold profile_findings. rewrite (surjective_pairing (source_of root config)), !elem_of_app.
  assert (Hargs : ∀ g, g ∈ (match merge_args (rc_args config) (in_overrides inputs) with
                            | Ok _ => [] | Err e => [FindArgs e] end)
                 ↔ ∃ e, g = FindArgs e ∧ merge_args (rc_args config) (in_overrides inputs) = Err e).
  { intros g. destruct (merge_args _ _) as [a|e]; rewrite ?list_elem_of_singleton, ?elem_of_nil;
      split; try naive_solver; intros (? & ? & ?); by simplify_eq. }
  rewrite Hargs. destruct (entry_of _ _) as [[path|name]|].
  - destruct (has _ path) eqn:Hh; [apply has_iff in Hh|apply has_false in Hh];
      rewrite ?list_elem_of_singleton, ?elem_of_nil; destruct f; naive_solver.
  - rewrite ?elem_of_nil; destruct f; naive_solver.
  - destruct (rc_dlua_dir config) as [dir|]; rewrite ?list_elem_of_singleton, ?elem_of_nil; destruct f;
      try naive_solver; rewrite is_Some_alt; naive_solver.
Qed.

Lemma pick_findings_reports project req f :
  f ∈ pick_findings project req ↔
    match f with
    | NoProfilesDeclared =>
        req = ReqDefault ∧ default_profile project = None ∧ ¬ ∃ n f, declares project n f
    | NoDefaultProfile k =>
        req = ReqDefault ∧ default_profile project = None
        ∧ k = length (bt_keys (ProjectJson.declared_profiles project).1) ∧ k ≠ 0
    | _ => False
    end.
Proof.
  unfold pick_findings, bt_keys. rewrite length_fmap.
  assert (Hnil : (ProjectJson.declared_profiles project).1 = [] ↔ ¬ ∃ n f, declares project n f).
  { split.
    - intros E (n & g & Hd%declared_elem). rewrite E in Hd. by apply not_elem_of_nil in Hd.
    - intros Hno. destruct (ProjectJson.declared_profiles project).1 as [|[n g] l] eqn:E; [done|].
      destruct Hno. exists n, g. apply declared_elem. rewrite E. by left. }
  destruct req, (default_profile project); rewrite ?elem_of_nil; try (destruct f; naive_solver).
  rewrite list_elem_of_singleton. case_bool_decide as Hd.
  - rewrite Hd. destruct f; naive_solver.
  - assert (length (ProjectJson.declared_profiles project).1 ≠ 0) as Hl.
    { by intros ?%nil_length_inv. }
    destruct f; naive_solver.
Qed.

Lemma unrun_reports project root n f :
  f ∈ unrun_finding project root n ↔
    match f with
    | BadProfileFilename e => ProfileName.new n = Err e
    | UndeclaredProfile m known =>
        m = n ∧ ProfileName.new n = Ok n ∧ (¬ ∃ f, declares project n f)
        ∧ known = bt_keys (ProjectJson.declared_profiles project).1
    | DeclaredProfileMissing f =>
        declares project n f ∧ bt_get (K := string) f (in_profiles root) = None
    | _ => False
    end.
Proof.
  unfold unrun_finding. destruct (ProfileName.new n) as [m|e] eqn:Hn.
  2: { rewrite list_elem_of_singleton. assert (∀ g, ¬ declares project n g).
       { intros g Hd. apply declares_name in Hd as [_ Hd]. congruence. }
       destruct f; naive_solver. }
  assert (m = n) as -> by by apply new_Ok in Hn.
  destruct (bt_get (K := string) n _) as [g|] eqn:Hf.
  - apply declared_get in Hf. assert (Hfun : ∀ g', declares project n g' → g' = g).
    { intros g' Hd. by apply (declares_fun project n). }
    destruct (bt_get (K := string) g (in_profiles root)) eqn:Hc;
      rewrite ?list_elem_of_singleton, ?elem_of_nil; destruct f; naive_solver.
  - assert (Hno : ∀ g, ¬ declares project n g).
    { intros g Hd%declared_get. congruence. }
    rewrite list_elem_of_singleton. destruct f; naive_solver.
Qed.

Lemma asked_pick project req n : asked project req = Some n → pick_findings project req = [].
Proof. unfold asked, pick_findings. destruct req, (default_profile project); done. Qed.

(** The resolution of a root with a descriptor, by whether a profile runs. *)
Lemma resolve_cases inputs root project :
  in_root inputs = Some root → in_project root = Some project →
  let base := resolve_project project root in
  (asked project (in_requested inputs) = None
   ∧ r_findings (resolve inputs) = r_findings base ++ pick_findings project (in_requested inputs)
   ∧ r_profile (resolve inputs) = r_profile base
   ∧ r_ceiling (resolve inputs) = r_ceiling base ∧ r_consent (resolve inputs) = r_consent base)
  ∨ (∃ n, asked project (in_requested inputs) = Some n
       ∧ (∀ config, ¬ runs inputs project root n config)
       ∧ r_findings (resolve inputs) = r_findings base ++ unrun_finding project root n
       ∧ unrun_finding project root n ≠ []
       ∧ r_profile (resolve inputs) = r_profile base
       ∧ r_ceiling (resolve inputs) = r_ceiling base ∧ r_consent (resolve inputs) = r_consent base)
  ∨ (∃ n config, runs inputs project root n config
       ∧ unrun_finding project root n = []
       ∧ r_findings (resolve inputs) = r_findings base ++ profile_findings inputs root n config
       ∧ r_profile (resolve inputs) = Some (MkDecided n (asked_rule (in_requested inputs)))
       ∧ (value <$> r_entry (resolve inputs)) = entry_of (in_requested inputs) config
       ∧ r_ceiling (resolve inputs) = r_ceiling base ∧ r_consent (resolve inputs) = r_consent base
       ∧ r_args (resolve inputs) = match merge_args (rc_args config) (in_overrides inputs) with
                                   | Ok args => args
                                   | Err _ => rc_args config
                                   end).
Proof.
  intros Hr Hp base. unfold resolve. rewrite Hr, Hp. fold base.
  pose proof (pick_spec project (in_requested inputs) base (resolve_project_entry project root))
    as (Hpick & He & Hd & Hce & Hco & _ & Hpr & Hfi).
  rewrite (surjective_pairing (pick project (in_requested inputs) base)).
  rewrite Hpick. set (out := (pick project (in_requested inputs) base).2) in *.
  unfold base in Hd. rewrite resolve_project_dlua in Hd.
  destruct (asked project (in_requested inputs)) as [n|] eqn:Hask; simpl.
  2: { left. by rewrite Hfi. }
  right. rewrite (asked_pick _ _ _ Hask), app_nil_r in Hfi.
  destruct (runs_or_not inputs project root n (asked_rule (in_requested inputs)) out Hask He Hd)
    as [(config & Hrun & Hf & Hun)|(Hno & Hf & Hun)].
  - right. exists n, config. rewrite Hf, Hfi. split; [done|]. split; [done|].
    destruct Hrun as (_ & f & Hdecl & Hcfg).
    destruct (resolve_profile_runs inputs project root n (asked_rule (in_requested inputs)) out config f)
      as (H1' & H2' & H3' & H4' & _ & H6' & _); [done..|].
    by rewrite H3', H4', Hce, Hco.
  - left. exists n. rewrite Hf. simpl. by rewrite Hfi, Hpr, Hce, Hco.
Qed.

Lemma reports_iff inputs root project f :
  in_root inputs = Some root → in_project root = Some project →
  f ∈ r_findings (resolve inputs) ↔
    root_reason project root f ∨ run_reason inputs project root f.
Proof.
  intros Hr Hp. rewrite <-resolve_project_reports.
  destruct (resolve_cases inputs root project Hr Hp)
    as [(Hask & Hf & _)|[(n & Hask & Hno & Hf & _)|(n & config & Hrun & Hun & Hf & _)]];
    rewrite Hf, elem_of_app; apply or_iff_compat_l.
  - rewrite pick_findings_reports. unfold run_reason, runs. rewrite Hask.
    destruct f; naive_solver.
  - rewrite unrun_reports.
    assert (Hpick : ¬ f ∈ pick_findings project (in_requested inputs)).
    { rewrite (asked_pick _ _ _ Hask). apply not_elem_of_nil. }
    rewrite pick_findings_reports in Hpick. unfold run_reason. rewrite Hask.
    assert (∀ m c, ¬ runs inputs project root m c).
    { intros m c Hc. apply (Hno c). destruct Hc as [Hm Hc]. rewrite Hask in Hm. by simplify_eq. }
    destruct f; naive_solver.
  - rewrite profile_findings_reports.
    assert (Hask : asked project (in_requested inputs) = Some n) by apply Hrun.
    assert (Hpick : ¬ f ∈ pick_findings project (in_requested inputs)).
    { rewrite (asked_pick _ _ _ Hask). apply not_elem_of_nil. }
    assert (Hun' : ¬ f ∈ unrun_finding project root n) by (rewrite Hun; apply not_elem_of_nil).
    rewrite pick_findings_reports in Hpick. rewrite unrun_reports in Hun'.
    assert (Hfun : ∀ m c, runs inputs project root m c ↔ m = n ∧ c = config).
    { intros m c. split; [|by intros [-> ->]]. intros (Hm & g & Hd & Hg). rewrite Hask in Hm.
      injection Hm as <-. split; [done|]. destruct Hrun as (_ & g' & Hd' & Hg').
      rewrite (declares_fun _ _ _ _ Hd Hd') in Hg. congruence. }
    unfold run_reason. rewrite Hask. destruct f; try setoid_rewrite Hfun; naive_solver.
Qed.

(** C12: The report is complete and invents nothing: a finding is reported exactly
    when what was read gives its reason. *)
Theorem resolve_reports inputs root project :
  in_root inputs = Some root → in_project root = Some project →
  ∀ f, f ∈ r_findings (resolve inputs) ↔
    root_reason project root f ∨ run_reason inputs project root f.
Proof. intros Hr Hp f. by apply reports_iff. Qed.

(** What an unblocked root is known to be. *)
Lemma unblocked_root inputs root project :
  in_root inputs = Some root → in_project root = Some project →
  blocker (resolve inputs) = None →
  (r_ceiling (resolve inputs) = Some (MkDecided (Project.caps project) RuleProjectCeiling)
     ∧ Project.caps project ≠ [])
  ∧ (∃ c, r_consent (resolve inputs) = Some c ∧ check project (in_consent root) = Ok c)
  ∧ (∀ p b, drt project = Some p → in_binary_version root = Some b → Args.same p b = true)
  ∧ (∀ f, f ∈ profiles project → ∃ n, ProfileName.from_filename f = Ok n ∧ f ∈ in_profile_dir root
       ∧ ∀ config, bt_get (K := string) f (in_profiles root) = Some config →
           check_attenuation (rc_root config) (ceiling_parent project) = Ok tt)
  ∧ ∀ n, asked project (in_requested inputs) = Some n →
       ∃ config, runs inputs project root n config
         ∧ r_profile (resolve inputs) = Some (MkDecided n (asked_rule (in_requested inputs)))
         ∧ merge_args (rc_args config) (in_overrides inputs) = Ok (r_args (resolve inputs))
         ∧ ∃ e, entry_of (in_requested inputs) config = Some e
             ∧ (value <$> r_entry (resolve inputs)) = Some e
             ∧ ∀ path, e = EntryFile path → path ∈ (source_of root config).1.
Proof.
  intros Hr Hp Hb. rewrite blocker_None in Hb.
  assert (Hnot : ∀ f, blocks f = true → ¬ (root_reason project root f ∨ run_reason inputs project root f)).
  { intros f Hf Hreason. apply (reports_iff inputs root project f Hr Hp), Hb in Hreason. congruence. }
  assert (Hcaps : Project.caps project ≠ []).
  { intros E. apply (Hnot FindNoCeiling eq_refl). by left. }
  assert (Hcheck : ∃ c, check project (in_consent root) = Ok c).
  { destruct (check project (in_consent root)) as [c|e] eqn:Hc; [by exists c|].
    destruct (Hnot (FindConsent e) eq_refl). by left. }
  destruct Hcheck as [c Hc].
  pose proof (resolve_cases inputs root project Hr Hp) as Hcases.
  assert (Hce : r_ceiling (resolve inputs) = r_ceiling (resolve_project project root)
              ∧ r_consent (resolve inputs) = r_consent (resolve_project project root)) by naive_solver.
  destruct Hce as [-> ->]. rewrite resolve_project_ceiling, resolve_project_consent, Hc by done.
  split_and!; [done|done|by eexists| | |].
  - intros p b Hdrt Hbin. destruct (Args.same p b) eqn:Hs; [done|].
    destruct (Hnot (PinMismatch p b) eq_refl). by left.
  - intros f Hf. destruct (ProfileName.from_filename f) as [n|e] eqn:Hn.
    2: { destruct (Hnot (BadProfileFilename e) eq_refl). left. by exists f. }
    exists n. split; [done|]. assert (Hd : declares project n f) by done. split.
    + destruct (decide (f ∈ in_profile_dir root)) as [|Hno]; [done|].
      destruct (Hnot (DeclaredProfileMissing f) eq_refl). left. split; [by exists n|done].
    + intros config Hconf. destruct (check_attenuation _ _) as [[]|source] eqn:Ha; [done|].
      destruct (Hnot (ProfileExceedsCeiling n source) eq_refl). left. by exists f, config.
  - intros n Hask. destruct Hcases as [(Hno & _)|[(m & Hm & _ & Hf & Hun & _)|Hruns]]; [congruence| |].
    + destruct (unrun_finding project root m) as [|g l] eqn:Hu; [done|].
      assert (Hg : g ∈ unrun_finding project root m) by (rewrite Hu; by left).
      assert (blocks g = false) by (apply Hb; rewrite Hf; apply elem_of_app; right; by left).
      rewrite unrun_reports in Hg. by destruct g.
    + destruct Hruns as (m & config & Hrun & _ & Hf & Hpr & He & _ & _ & Ha).
      assert (m = n) as -> by (destruct Hrun as [Hm _]; congruence).
      assert (Hok : ∀ g, g ∈ profile_findings inputs root n config → blocks g = false).
      { intros g Hg. apply Hb. rewrite Hf. apply elem_of_app. by right. }
      exists config. split; [done|]. split; [done|]. split.
      { rewrite Ha. destruct (merge_args _ _) as [args|e] eqn:Hm; [done|].
        assert (blocks (FindArgs e) = false); [|done]. apply Hok. by apply profile_findings_reports. }
      rewrite He. destruct (entry_of _ config) as [e|] eqn:Hent.
      2: { destruct (rc_dlua_dir config) as [dir|] eqn:Hdir.
           - assert (blocks (DluaDirWithoutEntry n) = false); [|done]. apply Hok, profile_findings_reports.
             rewrite Hdir. by eauto.
           - assert (blocks (NoEntry n) = false); [|done]. apply Hok, profile_findings_reports. done. }
      exists e. split; [done|]. split; [done|]. intros path ->.
      destruct (decide (path ∈ (source_of root config).1)) as [|Hno]; [done|].
      assert (blocks (EntryMissing n path (source_of root config).2) = false); [|done].
      apply Hok, profile_findings_reports. done.
Qed.

(** A root that nothing blocks: its ceiling is stated and is the run's, the
    consent check answered, the pin is met, every declared profile is a file
    that is there and, where it was read, attenuates under the ceiling; and
    what was asked of it runs, with a program that is where it should be and
    arguments its profile declares. *)
Theorem start_is_bounded inputs root project :
  in_root inputs = Some root → in_project root = Some project →
  blocker (resolve inputs) = None →
  (r_ceiling (resolve inputs) = Some (MkDecided (Project.caps project) RuleProjectCeiling)
     ∧ Project.caps project ≠ [])
  ∧ (∃ c, r_consent (resolve inputs) = Some c ∧ check project (in_consent root) = Ok c)
  ∧ (∀ p b, drt project = Some p → in_binary_version root = Some b → Args.same p b = true)
  ∧ (∀ f, f ∈ profiles project → ∃ n, ProfileName.from_filename f = Ok n ∧ f ∈ in_profile_dir root
       ∧ ∀ config, bt_get (K := string) f (in_profiles root) = Some config →
           check_attenuation (rc_root config) (ceiling_parent project) = Ok tt)
  ∧ ∀ n, asked project (in_requested inputs) = Some n →
       ∃ config, runs inputs project root n config
         ∧ r_profile (resolve inputs) = Some (MkDecided n (asked_rule (in_requested inputs)))
         ∧ merge_args (rc_args config) (in_overrides inputs) = Ok (r_args (resolve inputs))
         ∧ ∃ e, entry_of (in_requested inputs) config = Some e
             ∧ (value <$> r_entry (resolve inputs)) = Some e
             ∧ ∀ path, e = EntryFile path → path ∈ (source_of root config).1.
Proof. apply unblocked_root. Qed.

(** The wide default belongs to the path with no root: it is the ceiling
    exactly when there is no root and a configuration that states no caps. *)
Theorem wide_default_no_root inputs :
  (∃ gs, r_ceiling (resolve inputs) = Some (MkDecided gs RuleNoRootDefault)) ↔
    in_root inputs = None ∧ ∃ config, in_config_flag inputs = Some config
                               ∧ Config.caps (rc_root config) = [].
Proof.
  assert (Hkeep : ∀ config ovs out, r_ceiling (merge_into config ovs out) = r_ceiling out).
  { intros. unfold merge_into. by destruct (merge_args _ _). }
  assert (Htake : ∀ config p rl out, r_ceiling (take_profile_fields config p rl out) = r_ceiling out).
  { intros. unfold take_profile_fields. by repeat case_match. }
  destruct (in_root inputs) as [root|] eqn:Hr.
  - split; [|by intros [? _]]. intros [gs Hgs]. exfalso.
    destruct (in_project root) as [project|] eqn:Hp.
    + assert (E : r_ceiling (resolve inputs) = r_ceiling (resolve_project project root)).
      { pose proof (resolve_cases inputs root project Hr Hp). naive_solver. }
      rewrite E, resolve_project_ceiling in Hgs. done.
    + unfold resolve in Hgs. rewrite Hr, Hp in Hgs. unfold resolve_no_project in Hgs.
      destruct (fallback _); [|done]. repeat case_match; rewrite ?Hkeep, ?Htake in Hgs; done.
  - unfold resolve, resolve_no_root. rewrite Hr. destruct (in_config_flag inputs) as [config|]; simpl.
    + rewrite Hkeep. simpl. case_bool_decide; split; naive_solver.
    + split; naive_solver.
Qed.

(** A root with no descriptor and a recognized configuration beside it that
    is not also among its profiles: nothing is resolved, and nothing is
    reported to stop a start. *)
Theorem fallback_says_nothing inputs root file :
  in_root inputs = Some root → in_project root = None → in_config_flag inputs = None →
  fallback (in_cwd inputs) = Some file → bt_get (K := string) file (in_profiles root) = None →
  resolve inputs = default_resolution ∧ blocker (resolve inputs) = None.
Proof.
  intros Hr Hp Hc Hf Hg. unfold resolve. rewrite Hr, Hp. unfold resolve_no_project.
  by rewrite Hf, Hg, Hc.
Qed.

End facts.
End ResolveFacts.
