(* ===== verification/Root.v ===== *)
(** * What a root has committed ([crates/drt-config/src/envelope.rs])

    The hash of each committed file, the envelope's own hash, and how a root
    and its envelope disagree.

    ** A root on disk ([crates/drt/src/drt_root.rs])

    Where a root is, what is in it, what encloses it, and the writing of its
    consent file, over any filesystem backend. *)

From stdpp Require Import gmap sorting.
From S2P Require Import Prelude.
From S2P Require Import Bytes.
From S2P Require Import Value.
From S2P Require Import Id.
From S2P Require Import Node.
From S2P Require Import Time.
From S2P Require Import Canon.
From S2P Require Import Project.
From S2P Require Import Consent.
From S2P Require Import Backend.
From S2P Require Import Args.
From S2P Require Import Resolve.

Definition ENVELOPE_FILENAME : string := "envelope.json".

Record Envelope := MkEnvelope {
  env_root_id : Uuid7;
  env_files : btree string Hash;
  committed_at : Timestamp;
}.

Inductive Difference :=
  | Missing (path : string)
  | Changed (path : string)
  | Uncommitted (path : string).

Definition difference_text (d : Difference) : string :=
  match d with
  | Missing path => "'" +:+ path +:+ "' is in the envelope and not in init/"
  | Changed path => "'" +:+ path +:+ "' has changed since it was committed"
  | Uncommitted path => "'" +:+ path +:+ "' is in init/ and not in the envelope"
  end.

Module Envelope.

Definition new (root_id : Uuid7) (committed_at : Timestamp) : Envelope :=
  MkEnvelope root_id [] committed_at.

(** The derived [Serialize]. *)
Definition to_json (e : Envelope) : Json :=
  object [("root_id", JString (Uuid7.display (env_root_id e)));
          ("files", JObject ((λ kv, (kv.1, JString kv.2)) <$> env_files e));
          ("committed_at", JString (Timestamp.display (committed_at e)))].

Definition hash `{JsonText} `{Digest} (e : Envelope) : Hash := hash_value (to_json e).

(** A committed path against what is there. *)
Definition compare (actual : btree string Hash) (kv : string * Hash) : option Difference :=
  match bt_get (K := string) kv.1 actual with
  | None => Some (Missing kv.1)
  | Some found => if bool_decide (found ≠ kv.2) then Some (Changed kv.1) else None
  end.

Definition differences (e : Envelope) (actual : btree string Hash) : list Difference :=
  omap (compare actual) (env_files e)
  ++ omap (λ path, match bt_get (K := string) path (env_files e) with
                   | None => Some (Uncommitted path)
                   | Some _ => None
                   end) (bt_keys actual).

End Envelope.

Definition content_hash `{Digest} (bs : bytes) : Hash := hash bs.

(** ** Facts *)
Module EnvelopeFacts.
Import Envelope.

(** The differences are exact: a path is named missing, changed or
    uncommitted exactly when it is, and there are none exactly when the root
    holds the committed files and no others. *)
Theorem differences_spec e actual :
  bt_sorted (env_files e) → bt_sorted actual →
  (∀ p, Missing p ∈ differences e actual ↔
     is_Some (bt_get (K := string) p (env_files e)) ∧ bt_get (K := string) p actual = None)
  ∧ (∀ p, Changed p ∈ differences e actual ↔
       ∃ h h', bt_get (K := string) p (env_files e) = Some h
         ∧ bt_get (K := string) p actual = Some h' ∧ h' ≠ h)
  ∧ (∀ p, Uncommitted p ∈ differences e actual ↔
       is_Some (bt_get (K := string) p actual) ∧ bt_get (K := string) p (env_files e) = None)
  ∧ (differences e actual = [] ↔
       ∀ p, bt_get (K := string) p actual = bt_get (K := string) p (env_files e)).
Proof.
  intros He Ha.
  assert (Hget : ∀ p h, (p, h) ∈ env_files e ↔ bt_get (K := string) p (env_files e) = Some h).
  { intros p h. split; [by apply bt_sorted_get_elem|apply bt_get_elem]. }
  assert (Hin : ∀ d, d ∈ differences e actual ↔
            (∃ p h, bt_get (K := string) p (env_files e) = Some h ∧ compare actual (p, h) = Some d)
            ∨ ∃ p, is_Some (bt_get (K := string) p actual)
                ∧ bt_get (K := string) p (env_files e) = None ∧ d = Uncommitted p).
  { intros d. unfold differences. rewrite elem_of_app, !list_elem_of_omap. f_equiv.
    - split; [intros ([p h] & Hp & Hd); exists p, h; by rewrite <-Hget|].
      intros (p & h & Hp & Hd). exists (p, h). by rewrite Hget.
    - split.
      + intros (p & Hp & Hd). exists p. rewrite bt_get_is_Some.
        destruct (bt_get (K := string) p (env_files e)); [done|]. by injection Hd as <-.
      + intros (p & Hp & Hn & ->). exists p. rewrite <-bt_get_is_Some. by rewrite Hn. }
  assert (Hmis : ∀ p, Missing p ∈ differences e actual ↔
     is_Some (bt_get (K := string) p (env_files e)) ∧ bt_get (K := string) p actual = None).
  { intros p. rewrite Hin. unfold compare. simpl. split.
    - intros [(q & h & Hq & Hc)|(q & _ & _ & [=])].
      destruct (bt_get (K := string) q actual) eqn:E; [by case_bool_decide|].
      injection Hc as <-. by rewrite Hq, E.
    - intros ([h Hh] & Hn). left. exists p, h. by rewrite Hn. }
  assert (Hch : ∀ p, Changed p ∈ differences e actual ↔
       ∃ h h', bt_get (K := string) p (env_files e) = Some h
         ∧ bt_get (K := string) p actual = Some h' ∧ h' ≠ h).
  { intros p. rewrite Hin. unfold compare. simpl. split.
    - intros [(q & h & Hq & Hc)|(q & _ & _ & [=])].
      destruct (bt_get (K := string) q actual) as [h'|] eqn:E; [|done].
      case_bool_decide; [|done]. injection Hc as <-. by exists h, h'.
    - intros (h & h' & Hh & Hh' & Hne). left. exists p, h. rewrite Hh'. by rewrite bool_decide_true. }
  assert (Hun : ∀ p, Uncommitted p ∈ differences e actual ↔
       is_Some (bt_get (K := string) p actual) ∧ bt_get (K := string) p (env_files e) = None).
  { intros p. rewrite Hin. split.
    - intros [(q & h & Hq & Hc)|(q & ? & ? & [= ->])]; [|done].
      unfold compare in Hc. repeat case_match; done.
    - intros [Hs Hn]. right. by exists p. }
  split_and!; [done..|]. split.
  - intros Hnil p. rewrite Hnil in Hmis, Hch, Hun.
    destruct (bt_get (K := string) p actual) as [h'|] eqn:Ea,
      (bt_get (K := string) p (env_files e)) as [h|] eqn:Ee; [|exfalso..|done].
    + destruct (decide (h' = h)) as [->|Hne]; [done|]. exfalso.
      apply (not_elem_of_nil (Changed p)), Hch. by exists h, h'.
    + apply (not_elem_of_nil (Uncommitted p)), Hun. by rewrite Ea.
    + apply (not_elem_of_nil (Missing p)), Hmis. by rewrite Ee.
  - intros Heq. destruct (differences e actual) as [|d l]; [done|]. exfalso.
    assert (Hd : d ∈ d :: l) by by left. destruct d as [p|p|p].
    + apply Hmis in Hd as [[h Hh] Hn]. rewrite Heq in Hn. congruence.
    + apply Hch in Hd as (h & h' & Hh & Hh' & Hne). rewrite Heq in Hh'. congruence.
    + apply Hun in Hd as [[h Hh] Hn]. rewrite Heq in Hh. congruence.
Qed.

Lemma differences_spec_witness :
  let e := MkEnvelope (replicate 16 (of_byte 1)) [("a", "h1"); ("b", "h2")] 0%Z in
  let actual := [("b", "h3"); ("c", "h4")] in
  bt_sorted (env_files e) ∧ bt_sorted actual
  ∧ differences e actual = [Missing "a"; Changed "b"; Uncommitted "c"]
  ∧ ∀ p, Changed p ∈ differences e actual ↔
       ∃ h h', bt_get (K := string) p (env_files e) = Some h
         ∧ bt_get (K := string) p actual = Some h' ∧ h' ≠ h.
Proof.
  intros e actual.
  assert (Hs : bt_sorted (env_files e) ∧ bt_sorted actual).
  { unfold e, actual. cbn [env_files]. rewrite !bt_sorted_cons.
    repeat split; try apply bt_sorted_nil; unfold bt_keys; simpl; intros k;
      rewrite ?elem_of_cons, ?elem_of_nil; naive_solver. }
  destruct Hs as [He Ha]. split; [done|]. split; [done|]. split; [by vm_compute|].
  apply (differences_spec e actual); done.
Defined.

End EnvelopeFacts.

Definition ROOT_DIR : string := ".drt_root".

(** The derived readers and the writer of a root's files: text to a value or
    the reader's message. *)
Class RootText := {
  read_project : string → result ProjectJson string;
  read_consent : string → result ConsentJson string;
  read_profile : string → result RootConfig string;
  print_consent : ConsentJson → result string string;
}.

(** What the build stamped: its release tag, where it has one, and the
    version of its crates. *)
Class Build := { release_tag : option string; crate_version : string }.

Definition pin_string (tag : option string) (crate_version : string) : string :=
  match tag with
  | Some t => let t := trim t in
              if str_is_empty t then crate_version else default t (strip_prefix "v" t)
  | None => crate_version
  end.

Definition binary_version `{Build} : string := pin_string release_tag crate_version.

Module Root.

Record Root := MkRoot { dir : Path }.

Definition at_ (base : Path) (name : string) : Path := path_join base (path_of name).

Definition meta (r : Root) : Path := at_ (dir r) ROOT_DIR.
Definition project_json (r : Root) : Path := at_ (meta r) "project.json".
Definition consent_json (r : Root) : Path := at_ (meta r) "consent.json".
Definition init (r : Root) : Path := at_ (meta r) INIT_DIR.
Definition live (r : Root) : Path := at_ (meta r) LIVE_DIR.
Definition log (r : Root) : Path := at_ (meta r) LOG_DIR.
Definition profile_dir (r : Root) : Path := at_ (meta r) PROFILE_DIR.
Definition state (r : Root) : Path := at_ (meta r) STATE_DIR.

Section fs.
Context {F : Type} `{!Backend F}.

Definition discover (cwd : Path) (flag : option Path) (fs : F) : option Root :=
  let root := MkRoot (default cwd flag) in
  if is_dir_at (meta root) fs then Some root else None.

Definition check_named (flag : option Path) (fs : F) : result unit string :=
  match flag with
  | Some named =>
      if negb (is_dir_at (meta (MkRoot named)) fs) then
        Err ("--root " +:+ path_text named
             +:+ ": not a drt root (no .drt_root/ there); `dollup init` makes one")
      else Ok tt
  | None => Ok tt
  end.

(** ** What encloses a root *)

Inductive Nesting :=
  | Free
  | Allowed (outer : Path)
  | NestWarn (outer : Path)
  | Refused (outer : Path).

Definition nested_in (policy : AllowNested) (outer : Path) : Nesting :=
  match policy with Allow => Allowed outer | Warn => NestWarn outer | Error_ => Refused outer end.

(** The walk up, a directory at a time; each step shortens the path, so its
    length is fuel enough. *)
Fixpoint walk_out (fuel : nat) (cursor : option Path) (policy : AllowNested) (fs : F) : Nesting :=
  match fuel, cursor with
  | S fuel', Some d =>
      if is_dir_at (at_ d ROOT_DIR) fs then nested_in policy d
      else walk_out fuel' (parent d) policy fs
  | _, _ => Free
  end.

Definition nesting (r : Root) (policy : AllowNested) (fs : F) : Nesting :=
  walk_out (length (dir r)) (parent (dir r)) policy fs.

(** ** Reading *)

Definition read_json {T} (reader : string → result T string) (path : Path) (soft : list string)
    (fs : F) : option T * list string :=
  match read_to_string path fs with
  | Err _ => (None, soft)
  | Ok text =>
      match reader text with
      | Ok value => (Some value, soft)
      | Err e => (None, soft ++ [path_text path +:+ ": " +:+ e])
      end
  end.

Definition names_in (path : Path) (fs : F) : list string :=
  match read_dir path fs with Ok names => names | Err _ => [] end.

Context `{RootText} `{Build}.

Fixpoint read_profiles (base : Path) (names : list string) (profiles : btree string RootConfig)
    (soft : list string) (fs : F) : btree string RootConfig * list string :=
  match names with
  | [] => (profiles, soft)
  | filename :: names' =>
      let '(config, soft) := read_json read_profile (at_ base filename) soft fs in
      let profiles := match config with
                      | Some config => bt_insert (K := string) filename config profiles
                      | None => profiles
                      end in
      read_profiles base names' profiles soft fs
  end.

Definition dlua_names (r : Root) (profiles : btree string RootConfig) (fs : F) : list string :=
  MemFs.dedup (merge_sort str_le
    (mjoin ((λ config, match rc_dlua_dir config with
                       | Some d => names_in (at_ (dir r) d) fs
                       | None => []
                       end) <$> bt_values profiles))).

Definition read (r : Root) (requested : Requested) (overrides : Overrides) (fs : F) :
    ResolveInputs * list string :=
  let '(project, soft) := read_json read_project (project_json r) [] fs in
  let '(consent, soft) := read_json read_consent (consent_json r) soft fs in
  let files := names_in (profile_dir r) fs in
  let '(profiles, soft) := read_profiles (profile_dir r) files [] soft fs in
  (MkResolveInputs
     (Some (MkRootInputs project consent profiles files (dlua_names r profiles fs)
              (names_in (init r) fs) (Some binary_version)))
     None requested overrides (names_in (dir r) fs),
   soft).

(** ** Writing *)

Definition newline : string := String (of_byte 10) "".

Definition write_consent (r : Root) (consent : ConsentJson) (fs : F) : result unit string * F :=
  match print_consent consent with
  | Err e => (Err ("cannot serialize consent.json: " +:+ e), fs)
  | Ok text =>
      match create_dir_all (meta r) fs with
      | (Err e, fs) => (Err ("cannot create " +:+ path_text (meta r) +:+ ": " +:+ io_text e), fs)
      | (Ok _, fs) =>
          match write (consent_json r) (as_bytes (text +:+ newline)) false fs with
          | (Err e, fs) => (Err ("cannot write " +:+ path_text (consent_json r) +:+ ": " +:+ io_text e), fs)
          | (Ok _, fs) => (Ok tt, fs)
          end
      end
  end.

End fs.
End Root.

Example pins :
  pin_string (Some "v0.5.0rc9") "0.5.0" = "0.5.0rc9" ∧ pin_string (Some "  ") "0.5.0" = "0.5.0"
  ∧ pin_string None "0.5.0" = "0.5.0".
Proof. by vm_compute. Qed.
