(* ===== verification/Gate.v ===== *)
(** * The consent gate ([crates/drt/src/consent_gate.rs])

    What a start does about a consent check: proceed, ask, take an answer
    given in advance, write the acceptance, or refuse.

    ** What the consent gate promises

    It proceeds only past a ceiling its check accepts or a person or a flag
    said yes to, and writes exactly the entry that answer makes. *)

From S2P Require Import Prelude.
From S2P Require Import Bytes.
From S2P Require Import Value.
From S2P Require Import Caps.
From S2P Require Import Id.
From S2P Require Import Time.
From S2P Require Import Realm.
From S2P Require Import Canon.
From S2P Require Import Project.
From S2P Require Import Consent.
From S2P Require Import Backend.
From S2P Require Import Args.
From S2P Require Import Resolve.
From S2P Require Import Root.

Record Flags := MkFlags { yes : bool; accept_changes : bool }.

(** [Ask]: whether anyone is there, telling them, and their answer. *)
Class Ask (A : Type) := {
  interactive : A → bool;
  say : string → A → A;
  ask_confirm : string → A → result bool string * A;
}.

(** The wall clock, read once where an acceptance is written. *)
Class Clock := { now : Timestamp }.

Definition plural (n : nat) (one many : string) : string := if bool_decide (n = 1) then one else many.

Definition objection_text (o : Objection) : string :=
  match o with
  | ObjectCaps e => "the ceiling widened: " +:+ attenuation_error_text e
  | ObjectPeers added =>
      "the ceiling widened: it declares " +:+ plural (length added) "a peer role" "peer roles"
      +:+ " nobody has consented to (" +:+ join_comma added +:+ ")"
  end.

Definition describe (gs : list Grant) : list string :=
  ((λ g, "deny  " +:+ capability g) <$> filter (λ g, effect g = Deny) gs)
  ++ ((λ g, "grant " +:+ capability g) <$> filter (λ g, effect g = Grant_) gs).

Section gate.
Context {A F : Type} `{!Ask A, !Backend F} `{RootText} `{Clock}.
Context `{JsonText} `{Digest} `{ScopeJson} `{ScopeEq}.

Definition say_all (lines : list string) (a : A) : A := foldl (λ a l, say ("    " +:+ l) a) a lines.

Definition confirm (question flag detail : string) (a : A) : result bool string * A :=
  if negb (interactive a) then
    let because := if str_is_empty detail then "" else " " +:+ detail +:+ "." in
    (Err (question +:+ " -- but there is no terminal to ask." +:+ because +:+ " Pass " +:+ flag
          +:+ " to answer in advance, or run `dollup consent` where somebody can read it."), a)
  else
    match ask_confirm question a with
    | (Err e, a) => (Err ("cannot read an answer from the terminal: " +:+ e), a)
    | (Ok b, a) => (Ok b, a)
    end.

(** The consent file an acceptance leaves. *)
Definition accepting (project : ProjectJson) (existing : option ConsentJson) (hash : Hash) : ConsentJson :=
  let consent := default (ConsentJson.new (root_id project)) existing in
  {| consent_root_id := consent_root_id consent;
     accepted := filter (λ e, Accepted.realm e ≠ Realm.root) (accepted consent)
                 ++ [Listed Realm.root hash (declared_ceiling project) now];
     signers := signers consent;
     consent_peers := consent_peers consent |}.

Definition write_entry (root : Root.Root) (project : ProjectJson) (existing : option ConsentJson)
    (hash : Hash) (fs : F) : result unit string * F :=
  Root.write_consent root (accepting project existing hash) fs.

Definition shown_name (project : ProjectJson) : string := default "this root" (project_name project).

(** The five answers, an arm each; the gate and what it wrote. *)
Definition gate (root : Root.Root) (project : ProjectJson) (consent : option ConsentJson)
    (flags : Flags) (a : A) (fs : F) : result unit string * A * F :=
  match check project consent with
  | Err e => (Err (consent_failure_text e), a, fs)
  | Ok (Blanket _ ceiling_changed) =>
      let a := if ceiling_changed : bool then
                 say "note: blanket operator consent is in force, and this root's ceiling has changed since it was accepted. `dollup audit` prints the date." a
               else a in
      (Ok tt, a, fs)
  | Ok Unchanged => (Ok tt, a, fs)
  | Ok (First hash) =>
      let write a := let '(r, fs) := write_entry root project consent hash fs in (r, a, fs) in
      if negb (yes flags) then
        let a := say (shown_name project +:+ " declares a ceiling this operator has not accepted:") a in
        let a := say_all (describe (caps project)) a in
        let a := say "" a in
        let a := say "A ceiling bounds every grant any node in this root can ever hold. Accepting it does not grant anything." a in
        match confirm "accept this ceiling?" "-y" "" a with
        | (Err e, a) => (Err e, a, fs)
        | (Ok false, a) => (Err "the ceiling was not accepted; nothing started", a, fs)
        | (Ok true, a) => write a
        end
      else write a
  | Ok (Narrowed hash _) =>
      let '(r, fs) := write_entry root project consent hash fs in (r, a, fs)
  | Ok (Widened hash objection change) =>
      let write a := let '(r, fs) := write_entry root project consent hash fs in (r, a, fs) in
      if negb (accept_changes flags) then
        let a := say ("the ceiling of " +:+ shown_name project +:+ " has widened since it was accepted:") a in
        let a := say_all (Change.lines change) a in
        let a := say "" a in
        match confirm "accept the widened ceiling?" "--accept-changes" (objection_text objection) a with
        | (Err e, a) => (Err e, a, fs)
        | (Ok false, a) =>
            (Err ("the widened ceiling was not accepted; nothing started (" +:+ objection_text objection +:+ ")"), a, fs)
        | (Ok true, a) => write a
        end
      else write a
  end.

End gate.

(** The real terminal's reading of an answer. *)
Definition answer_is_yes (line : string) : bool :=
  bool_decide (trim line ∈ ["y"; "Y"; "yes"; "Yes"]).

(** Telling an operator something does not make one appear or leave. *)
Class AskLaws (A : Type) `{!Ask A} : Prop := {
  say_interactive l a : interactive (say l a) = interactive a;
}.

Module GateFacts.

Section facts.
Context {A F : Type} `{!Ask A, !Backend F} `{RootText} `{Clock}.
Context `{JsonText} `{Digest} `{ScopeJson} `{ScopeEq}.

(** *** The entry an acceptance writes *)

Lemma root_entry_snoc l e :
  (∀ x, x ∈ l → Accepted.realm x ≠ Realm.root) → Accepted.realm e = Realm.root →
  find_first (λ e, bool_decide (Accepted.realm e = Realm.root)) (l ++ [e]) = Some e.
Proof.
  intros Hl He. induction l as [|x l IH]; simpl.
  - by rewrite bool_decide_true.
  - rewrite bool_decide_false by (apply Hl; by left). apply IH. intros y Hy. apply Hl. by right.
Qed.

Lemma accepting_entry project existing h :
  ConsentJson.root_entry (accepting project existing h)
  = Some (Listed Realm.root h (declared_ceiling project) now).
Proof.
  unfold ConsentJson.root_entry, accepting. simpl. apply root_entry_snoc; [|done].
  by intros x [Hx _]%list_elem_of_filter.
Qed.

(** The hash an answer carries is the declared ceiling's. *)
Definition answer_hash (c : ConsentCheck) : option Hash :=
  match c with
  | First h | Narrowed h _ | Widened h _ _ => Some h
  | Blanket _ _ | Unchanged => None
  end.

(** What an answered check says of the consent file. *)
Lemma check_facts project consent c :
  check project consent = Ok c →
  caps project ≠ [] ∧ ∃ hash, ceiling_hash project = Ok hash
    ∧ (∀ h, answer_hash c = Some h → h = hash)
    ∧ ∀ j, consent = Some j → consent_root_id j = root_id project ∧ consent_peers j = [].
Proof.
  unfold check. case_bool_decide as Hcaps; [done|].
  destruct (ceiling_hash project) as [hash|e]; [|done]. cbn [map_err rbind].
  intros Hc. split; [done|]. exists hash. split; [done|].
  destruct consent as [j|]; [|injection Hc as <-; split; [by intros h [= <-]|done]].
  case_bool_decide as Hid; [done|].
  destruct (consent_peers j) as [|b l] eqn:Hp; [|done].
  split; [|by intros ? [= <-]].
  destruct (ConsentJson.root_entry j) as [[? ? ?|? hh ? ?]|].
  - by injection Hc as <-.
  - case_bool_decide; [by injection Hc as <-|].
    destruct (widen_check_ceiling _ _); injection Hc as <-; by intros h [= <-].
  - injection Hc as <-. by intros h [= <-].
Qed.

(** Once accepted, a ceiling needs no second answer. *)
Lemma check_accepting project consent c h :
  check project consent = Ok c → answer_hash c = Some h →
  check project (Some (accepting project consent h)) = Ok Unchanged.
Proof.
  intros Hc Hh. destruct (check_facts project consent c Hc) as (Hcaps & hash & Hhash & Heq & Hj).
  rewrite (Heq h Hh). unfold check. rewrite bool_decide_false by done. rewrite Hhash. cbn [map_err rbind].
  assert (Hid : consent_root_id (accepting project consent hash) = root_id project
                ∧ consent_peers (accepting project consent hash) = []).
  { unfold accepting. destruct consent as [j|]; simpl; [by apply Hj|done]. }
  destruct Hid as [Hid Hpeers]. rewrite bool_decide_false by (intros Hn; by apply Hn).
  by rewrite Hpeers, accepting_entry, bool_decide_true.
Qed.

(** *** Who says yes *)

(** The operator, told what a first acceptance tells, and a widening. *)
Definition told_first (project : ProjectJson) (a : A) : A :=
  let a := say (shown_name project +:+ " declares a ceiling this operator has not accepted:") a in
  let a := say_all (describe (caps project)) a in
  let a := say "" a in
  say "A ceiling bounds every grant any node in this root can ever hold. Accepting it does not grant anything." a.
Definition told_widened (project : ProjectJson) (change : Change) (a : A) : A :=
  let a := say ("the ceiling of " +:+ shown_name project +:+ " has widened since it was accepted:") a in
  let a := say_all (Change.lines change) a in
  say "" a.

(** Somebody is there, and answers yes. *)
Definition answers_yes (question : string) (a : A) : Prop :=
  interactive a = true ∧ (ask_confirm question a).1 = Ok true.

(** A check a start may go on from. *)
Definition approved (project : ProjectJson) (flags : Flags) (a : A) (c : ConsentCheck) : Prop :=
  match c with
  | Blanket _ _ | Unchanged | Narrowed _ _ => True
  | First _ => yes flags = true ∨ answers_yes "accept this ceiling?" (told_first project a)
  | Widened _ _ change =>
      accept_changes flags = true
      ∨ answers_yes "accept the widened ceiling?" (told_widened project change a)
  end.

Lemma confirm_yes q f d (a : A) : (confirm q f d a).1 = Ok true ↔ answers_yes q a.
Proof.
  unfold confirm, answers_yes. destruct (interactive a); simpl; [|naive_solver].
  destruct (ask_confirm q a) as [[[]|e] a']; simpl; naive_solver.
Qed.

(** The gate opens exactly for an approved check whose acceptance, where one
    is due, was written; an unapproved one leaves the files alone. *)
Lemma gate_cases root project consent flags (a : A) (fs : F) r a' fs' :
  gate root project consent flags a fs = (r, a', fs') →
  match check project consent with
  | Err e => r = Err (consent_failure_text e) ∧ fs' = fs
  | Ok c =>
      (approved project flags a c
       ∧ match answer_hash c with
         | None => r = Ok tt ∧ fs' = fs
         | Some h => write_entry root project consent h fs = (r, fs')
         end)
      ∨ (¬ approved project flags a c ∧ (∃ e, r = Err e) ∧ fs' = fs)
  end.
Proof.
  unfold gate. destruct (check project consent) as [c|e]; [|by intros [= <- <- <-]].
  destruct c as [at_ ch|h| |h ch|h o ch]; cbn [approved answer_hash].
  - intros [= <- <- <-]. by left.
  - destruct (yes flags) eqn:Hy; simpl.
    + destruct (write_entry _ _ _ _ _) as [r0 fs0]. intros [= <- <- <-]. left. auto.
    + fold (told_first project a).
      pose proof (confirm_yes "accept this ceiling?" "-y" "" (told_first project a)) as Hcy.
      change (say _ (say "" (say_all _ _))) with (told_first project a).
      destruct (confirm _ _ _ _) as [[[]|e] a2]; simpl in Hcy.
      * destruct (write_entry _ _ _ _ _) as [r0 fs0]. intros [= <- <- <-]. left. naive_solver.
      * intros [= <- <- <-]. right. split; [|eauto]. intros [?|Hyes%Hcy]; done.
      * intros [= <- <- <-]. right. split; [|eauto]. intros [?|Hyes%Hcy]; done.
  - intros [= <- <- <-]. by left.
  - destruct (write_entry _ _ _ _ _) as [r0 fs0]. intros [= <- <- <-]. left. auto.
  - destruct (accept_changes flags) eqn:Hy; simpl.
    + destruct (write_entry _ _ _ _ _) as [r0 fs0]. intros [= <- <- <-]. left. auto.
    + pose proof (confirm_yes "accept the widened ceiling?" "--accept-changes" (objection_text o)
                    (told_widened project ch a)) as Hcy.
      change (say "" (say_all _ _)) with (told_widened project ch a).
      destruct (confirm _ _ _ _) as [[[]|e] a2]; simpl in Hcy.
      * destruct (write_entry _ _ _ _ _) as [r0 fs0]. intros [= <- <- <-]. left. naive_solver.
      * intros [= <- <- <-]. right. split; [|eauto]. intros [?|Hyes%Hcy]; done.
      * intros [= <- <- <-]. right. split; [|eauto]. intros [?|Hyes%Hcy]; done.
Qed.

(** C21: The gate opens only for an approved check: a blanket entry, a matching
    hash or a narrowing without a word, a first acceptance or a widening only
    by the flag that is for it or by somebody's yes.  What it writes is the
    acceptance of the declared ceiling, after which the check is settled; in
    every other case it leaves the files alone. *)
Theorem gate_opens root project consent flags (a : A) (fs : F) :
  let '(r, _, fs') := gate root project consent flags a fs in
  (r = Ok tt →
     ∃ c, check project consent = Ok c ∧ approved project flags a c
       ∧ match answer_hash c with
         | None => fs' = fs
         | Some h => write_entry root project consent h fs = (Ok tt, fs')
                     ∧ check project (Some (accepting project consent h)) = Ok Unchanged
         end)
  ∧ (fs' = fs ∨
     ∃ c h, check project consent = Ok c ∧ approved project flags a c ∧ answer_hash c = Some h
       ∧ fs' = (write_entry root project consent h fs).2).
Proof.
  destruct (gate root project consent flags a fs) as [[r a'] fs'] eqn:Hg.
  apply gate_cases in Hg. destruct (check project consent) as [c|e] eqn:Hc.
  2: { destruct Hg as [-> ->]. split; [done|by left]. }
  destruct Hg as [[Happ Hw]|(_ & [e ->] & ->)]; [|by split; [|left]].
  destruct (answer_hash c) as [h|] eqn:Hh.
  - split.
    + intros ->. exists c. rewrite Hh. split_and!; [done..|]. by eapply check_accepting.
    + right. exists c, h. by rewrite Hw.
  - destruct Hw as [-> ->]. split; [|by left]. intros _. exists c. by rewrite Hh.
Qed.

(** An acceptance keeps the operator's signers, peers and every other realm's
    entry, and is the one entry at the root. *)
Theorem accepting_keeps project existing h :
  let j := default (ConsentJson.new (root_id project)) existing in
  let j' := accepting project existing h in
  consent_root_id j' = consent_root_id j ∧ signers j' = signers j ∧ consent_peers j' = consent_peers j
  ∧ (∀ e, Accepted.realm e ≠ Realm.root → e ∈ accepted j' ↔ e ∈ accepted j)
  ∧ ∀ e, Accepted.realm e = Realm.root →
      e ∈ accepted j' ↔ e = Listed Realm.root h (declared_ceiling project) now.
Proof.
  unfold accepting. simpl. split_and!; try done; intros e He;
    rewrite elem_of_app, list_elem_of_singleton, list_elem_of_filter; [|naive_solver].
  split; [intros [[_ ?]| ->]; [done|]; by destruct He|by left].
Qed.

(** Telling leaves nobody where nobody was. *)
Lemma told_interactive `{!AskLaws A} lines (a : A) :
  interactive (say_all lines a) = interactive a.
Proof.
  unfold say_all. revert a; induction lines as [|l lines IH]; intros a; [done|]. simpl.
  by rewrite IH, say_interactive.
Qed.

Lemma unattended_approved `{!AskLaws A} project flags (a : A) c :
  interactive a = false → approved project flags a c →
  match c with
  | First _ => yes flags = true
  | Widened _ _ _ => accept_changes flags = true
  | _ => True
  end.
Proof.
  intros Ha. unfold approved, answers_yes, told_first, told_widened.
  destruct c; try done; intros [?|[Hi _]]; try done;
    by rewrite ?say_interactive, told_interactive, say_interactive, Ha in Hi.
Qed.

End facts.

Section unattended.
Context {A F : Type} `{!Ask A, !AskLaws A, !Backend F} `{RootText} `{Clock}.
Context `{JsonTextLaws} `{Digest} `{ScopeJson} `{ScopeEq}.
Import CapSetFacts.
Import ConsentFacts.

(** With nobody there and no word that changes are accepted, a start past the
    gate never holds more than was accepted, whatever [-y] says. *)
Theorem unattended_never_widens root project consent flags (a a' : A) (fs fs' : F) realm h acc at_ :
  (∀ x j, scope_json x = Ok j → wf_json j) →
  (∀ v v', ceiling_json acc = Ok v → ceiling_json (declared_ceiling project) = Ok v' →
     sha256 (to_canonical_bytes v) = sha256 (to_canonical_bytes v') →
     to_canonical_bytes v = to_canonical_bytes v') →
  clean_grants (ceiling_caps acc) → clean_denies (caps project) →
  ConsentJson.root_entry consent = Some (Listed realm h acc at_) → ceiling_hash_of acc = Ok h →
  interactive a = false → accept_changes flags = false →
  gate root project (Some consent) flags a fs = (Ok tt, a', fs') →
  (∀ want, ceiling_holds (declared_ceiling project) want = true → ceiling_holds acc want = true)
  ∧ DeclaredCeiling.roles (declared_ceiling project) ⊆ DeclaredCeiling.roles acc.
Proof.
  intros Hwf Hcol Hg Hd He Hh Hi Hf Hgate. apply gate_cases in Hgate.
  destruct (check project (Some consent)) as [c|e] eqn:Hc; [|by destruct Hgate].
  destruct Hgate as [[Happ _]|(_ & [e ?] & _)]; [|done].
  apply (unattended_approved project flags a c Hi) in Happ.
  apply (silent_narrows project consent realm h acc at_ c); try done.
  destruct (check_listed _ _ _ _ _ _ _ Hc He) as (hash & _ & _ & _ & _ & Hr). rewrite Hr in Happ |- *.
  case_bool_decide; [done|]. destruct (widen_check_ceiling _ _); [done|]. congruence.
Qed.
End unattended.
End GateFacts.
