(* ===== verification/Deploy.v ===== *)
(** * Deploying, removing, committing ([crates/drt/src/deploy.rs])

    The three directories of a root and the two moves between them: what is
    authored or delivered goes to [live/], which runs, and from there back to
    [init/] with an envelope. *)

From S2P Require Import Prelude.
From S2P Require Import Bytes.
From S2P Require Import Value.
From S2P Require Import Id.
From S2P Require Import Time.
From S2P Require Import Canon.
From S2P Require Import Project.
From S2P Require Import Root.
From S2P Require Import Args.
From S2P Require Import Resolve.
From S2P Require Import Backend.
From S2P Require Import Gate.

Definition MAX_FILES : N := 10000.
Definition MAX_BYTES : N := 256 * 1024 * 1024.

Inductive Source := DluaDir (p : Path) | InitDir (p : Path).

Definition source_path (s : Source) : Path := match s with DluaDir p | InitDir p => p end.
Definition source_describe (s : Source) : string :=
  match s with DluaDir _ => "dlua_dir" | InitDir _ => "init/" end.

Definition source_for (root : Root.Root) (config : RootConfig) : Source :=
  match rc_dlua_dir config with
  | Some d => DluaDir (Root.at_ (Root.dir root) d)
  | None => InitDir (Root.init root)
  end.

Definition deployment_name (root : Root.Root) (project : option ProjectJson) : string :=
  match (p ← project; project_name p) with
  | Some name => name
  | None => match file_name (Root.dir root) with
            | Some name => if utf8_valid (as_bytes name) then name else "deployment"
            | None => "deployment"
            end
  end.

Definition live_path (root : Root.Root) (name : string) : Path := Root.at_ (Root.live root) name.

Record Report := MkReport { r_files : N; r_bytes : N }.

(** The printer of an envelope. *)
Class EnvelopeText := { print_envelope : Envelope → result string string }.

Section fs.
Context {F : Type} `{!Backend F}.

Definition is_deployed (root : Root.Root) (name : string) (fs : F) : bool :=
  is_dir_at (live_path root name) fs.

Definition remove (root : Root.Root) (name : string) (fs : F) : result unit string * F :=
  match remove_dir_all (live_path root name) fs with
  | (Err e, fs) => (Err ("cannot remove " +:+ path_text (live_path root name) +:+ ": " +:+ io_text e), fs)
  | (Ok _, fs) => (Ok tt, fs)
  end.

(** ** The copy *)

(** One name of a directory being copied: a directory waits on the stack, a
    file is counted, checked against the bounds and written. *)
Definition copy_name (from source target : Path) (name : string)
    (stack : list (Path * Path)) (report : Report) (fs : F) :
    result (list (Path * Path) * Report) string * F :=
  let child := Root.at_ source name in
  let into := Root.at_ target name in
  if is_dir_at child fs then (Ok ((child, into) :: stack, report), fs)
  else
    match read child fs with
    | Err e => (Err ("cannot read " +:+ path_text child +:+ ": " +:+ io_text e), fs)
    | Ok bs =>
        let report := MkReport (r_files report + 1) (r_bytes report + N.of_nat (length bs)) in
        if bool_decide (MAX_FILES < r_files report)%N then
          (Err ("more than " +:+ dec MAX_FILES +:+ " files under " +:+ path_text from
                +:+ "; a root is source code, and a tree this size is one to look at before deploying"), fs)
        else if bool_decide (MAX_BYTES < r_bytes report)%N then
          (Err ("more than " +:+ dec (MAX_BYTES / (1024 * 1024)) +:+ " MiB under " +:+ path_text from
                +:+ "; same reason"), fs)
        else
          match write into bs false fs with
          | (Err e, fs) => (Err ("cannot write " +:+ path_text into +:+ ": " +:+ io_text e), fs)
          | (Ok _, fs) => (Ok (stack, report), fs)
          end
    end.

Fixpoint copy_names (from source target : Path) (names : list string)
    (stack : list (Path * Path)) (report : Report) (fs : F) :
    result (list (Path * Path) * Report) string * F :=
  match names with
  | [] => (Ok (stack, report), fs)
  | name :: names' =>
      match copy_name from source target name stack report fs with
      | (Err e, fs) => (Err e, fs)
      | (Ok (stack, report), fs) => copy_names from source target names' stack report fs
      end
  end.

(** The loop over the stack, its top first; [None] when the fuel runs out
    before the stack does. *)
Fixpoint copy_loop (fuel : nat) (from : Path) (stack : list (Path * Path)) (report : Report) (fs : F) :
    option (result Report string * F) :=
  match stack with
  | [] => Some (Ok report, fs)
  | (source, target) :: stack =>
      match fuel with
      | 0 => None
      | S fuel' =>
          match create_dir_all target fs with
          | (Err e, fs) => Some (Err ("cannot create " +:+ path_text target +:+ ": " +:+ io_text e), fs)
          | (Ok _, fs) =>
              match read_dir source fs with
              | Err e => Some (Err ("cannot read " +:+ path_text source +:+ ": " +:+ io_text e), fs)
              | Ok names =>
                  match copy_names from source target names stack report fs with
                  | (Err e, fs) => Some (Err e, fs)
                  | (Ok (stack, report), fs) => copy_loop fuel' from stack report fs
                  end
              end
          end
      end
  end.

Definition copy_tree (fuel : nat) (from to : Path) (fs : F) : option (result Report string * F) :=
  match create_dir_all to fs with
  | (Err e, fs) => Some (Err ("cannot create " +:+ path_text to +:+ ": " +:+ io_text e), fs)
  | (Ok _, fs) => copy_loop fuel from [(from, to)] (MkReport 0 0) fs
  end.

Definition deploy (fuel : nat) (root : Root.Root) (name : string) (source : Source) (fs : F) :
    option (result Report string * F) :=
  let into := live_path root name in
  if negb (is_dir_at (source_path source) fs) then
    Some (Err ("there is nothing to deploy: " +:+ path_text (source_path source) +:+ " ("
               +:+ source_describe source +:+ ") is not a directory"), fs)
  else
    match remove_dir_all into fs with
    | (Err e, fs) => Some (Err ("cannot clear " +:+ path_text into +:+ ": " +:+ io_text e), fs)
    | (Ok _, fs) => copy_tree fuel (source_path source) into fs
    end.

(** ** Hashing and committing *)

Section commit.
Context `{Digest} `{JsonText} `{EnvelopeText} `{Clock}.

Fixpoint hash_names (path : Path) (prefix : string) (names : list string)
    (stack : list (Path * string)) (out : btree string Hash) (fs : F) :
    result (list (Path * string) * btree string Hash) string :=
  match names with
  | [] => Ok (stack, out)
  | name :: names' =>
      let child := Root.at_ path name in
      let relative := if str_is_empty prefix then name else prefix +:+ "/" +:+ name in
      if is_dir_at child fs then hash_names path prefix names' ((child, relative) :: stack) out fs
      else
        match read child fs with
        | Err e => Err ("cannot read " +:+ path_text child +:+ ": " +:+ io_text e)
        | Ok bs =>
            hash_names path prefix names' stack
              (bt_insert (K := string) relative (content_hash bs) out) fs
        end
  end.

Fixpoint hashes_loop (fuel : nat) (stack : list (Path * string)) (out : btree string Hash) (fs : F) :
    option (result (btree string Hash) string) :=
  match stack with
  | [] => Some (Ok out)
  | (path, prefix) :: stack =>
      match fuel with
      | 0 => None
      | S fuel' =>
          match hash_names path prefix (Root.names_in path fs) stack out fs with
          | Err e => Some (Err e)
          | Ok (stack, out) => hashes_loop fuel' stack out fs
          end
      end
  end.

Definition hashes (fuel : nat) (dir : Path) (fs : F) : option (result (btree string Hash) string) :=
  hashes_loop fuel [(dir, "")] [] fs.

Record Committed := MkCommitted { c_report : Report; c_hash : Hash }.

(** The envelope written under [state/]. *)
Definition write_envelope (root : Root.Root) (envelope : Envelope) (report : Report) (fs : F) :
    result Committed string * F :=
  let hash := Envelope.hash envelope in
  let state := Root.state root in
  match create_dir_all state fs with
  | (Err e, fs) => (Err ("cannot create " +:+ path_text state +:+ ": " +:+ io_text e), fs)
  | (Ok _, fs) =>
      let path := Root.at_ state ENVELOPE_FILENAME in
      match print_envelope envelope with
      | Err e => (Err ("cannot serialize the envelope: " +:+ e), fs)
      | Ok body =>
          match write path (as_bytes (body +:+ Root.newline)) false fs with
          | (Err e, fs) => (Err ("cannot write " +:+ path_text path +:+ ": " +:+ io_text e), fs)
          | (Ok _, fs) => (Ok (MkCommitted report hash), fs)
          end
      end
  end.

Definition commit (fuel : nat) (root : Root.Root) (name : string) (project : ProjectJson) (fs : F) :
    option (result Committed string * F) :=
  let from := live_path root name in
  let into := Root.init root in
  if negb (is_dir_at from fs) then
    Some (Err ("nothing is deployed as '" +:+ name
               +:+ "', so there is nothing to commit; `drt deploy` first"), fs)
  else
    match remove_dir_all into fs with
    | (Err e, fs) => Some (Err ("cannot clear " +:+ path_text into +:+ ": " +:+ io_text e), fs)
    | (Ok _, fs) =>
        '(r, fs) ← copy_tree fuel from into fs;
        match r with
        | Err e => Some (Err e, fs)
        | Ok report =>
            h ← hashes fuel into fs;
            match h with
            | Err e => Some (Err e, fs)
            | Ok files =>
                Some (write_envelope root (MkEnvelope (root_id project) files now) report fs)
            end
        end
    end.

End commit.
End fs.
