(* ===== verification/DeploySpec.v ===== *)
(** * A deploy copies its source

    Over the in-memory filesystem: [copy_tree] visits every directory of its
    source once, and what is at its target afterwards is what the source
    held, unless the source is over the bounds, when it says so.  The name of
    a deployment is a path that is joined, and it can lead anywhere. *)

From stdpp Require Import gmap sorting.
From S2P Require Import Prelude.
From S2P Require Import Bytes.
From S2P Require Import Value.
From S2P Require Import Backend.
From S2P Require Import Id.
From S2P Require Import Project.
From S2P Require Import Root.
From S2P Require Import Deploy.
Import MemFs MemFsFacts.

Module DeployFacts.

(** A name that is one component of a path. *)
Definition plain (n : string) : Prop := path_of n = [Normal n].

(** The files a directory holds at any depth, and how much they weigh. *)
Definition content (from : Path) (st : MemState) : gmap Path bytes :=
  filter (λ kv, from `prefix_of` kv.1 ∧ kv.1 ∉ dirs st) (files st).
Definition weight (m : gmap Path bytes) : N :=
  map_fold (λ _ (bs : bytes) n, N.of_nat (length bs) + n)%N 0%N m.
Definition fits (m : gmap Path bytes) : Prop :=
  (N.of_nat (size m) ≤ MAX_FILES ∧ weight m ≤ MAX_BYTES)%N.

(** [st'] holds at [into] what [st] holds at [from], and is [st] elsewhere
    but for the directories on the way. *)
Definition copied (from into : Path) (st st' : MemState) : Prop :=
  (∀ rel, files st' !! (into ++ rel) = content from st !! (from ++ rel)
     ∧ (into ++ rel ∈ dirs st' ↔ from ++ rel ∈ dirs st))
  ∧ ∀ q, ¬ into `prefix_of` q →
     files st' !! q = files st !! q
     ∧ (q ∈ dirs st' ↔ q ∈ dirs st ∨ (folded q ∧ q `prefix_of` into)).

(** ** Weights *)

Lemma weight_insert m p bs :
  m !! p = None → weight (<[p := bs]> m) = (weight m + N.of_nat (length bs))%N.
Proof.
  intros Hp. unfold weight. rewrite map_fold_insert_L by (done || intros; lia). lia.
Qed.

Lemma weight_mono m1 m2 : m1 ⊆ m2 → (weight m1 ≤ weight m2)%N.
Proof.
  intros Hsub. rewrite <-(map_difference_union _ _ Hsub).
  generalize (m2 ∖ m1), (map_disjoint_difference_r1 m2 m1 m1 (reflexivity m1)). intros m Hd.
  induction m as [|p bs m Hp IH] using map_ind; [by rewrite (right_id_L ∅ (∪))|].
  apply map_disjoint_insert_r in Hd as [Hn Hd].
  rewrite <-insert_union_r by done. rewrite weight_insert; [specialize (IH Hd); lia|].
  by apply lookup_union_None.
Qed.

(** ** Paths under a directory *)

Lemma prefix_strict (p q : Path) : p `prefix_of` q → p ≠ q → ∃ c r, q = p ++ c :: r.
Proof. intros [[|c r] ->] Hne; [by rewrite app_nil_r in Hne|by exists c, r]. Qed.

Definition lives (st : MemState) (q : Path) : Prop := q ∈ dirs st ∨ is_Some (files st !! q).

Lemma lives_folded st q : wf st → lives st q → folded q.
Proof. intros Hwf [H|H]; [by apply (wf_dirs st Hwf)|by apply (wf_files st Hwf)]. Qed.

(** What is above something that is there is a directory. *)
Lemma lives_above st p q :
  wf st → lives st q → p `prefix_of` q → p ≠ [] → p ≠ q → p ∈ dirs st.
Proof.
  intros Hwf. induction q as [|c q IH] using rev_ind; intros Hq Hp Hne Hpq.
  { by apply prefix_nil_inv in Hp. }
  destruct (folded_inv _ (lives_folded _ _ Hwf Hq)) as [Hr|(u & n & Hu & Hf)].
  { unfold root in Hr. destruct Hp as [k Hk]. rewrite Hr in Hk, Hpq.
    destruct p as [|? [|]]; [done| |done]. by destruct k; simplify_eq. }
  unfold push in Hu. apply app_inj_tail in Hu as [<- ->].
  assert (Hud : q ∈ dirs st).
  { destruct Hq as [Hq|Hq];
      [apply (wf_up st Hwf _ q Hq)|apply (wf_home st Hwf _ q Hq)]; apply parent_snoc. }
  destruct (decide (p = q)) as [->|Hne']; [done|].
  destruct (prefix_strict _ _ Hp Hpq) as (d & r & Hr).
  destruct r as [|r x _] using rev_ind.
  { by apply app_inj_tail in Hr as [-> _]. }
  rewrite app_comm_cons, app_assoc in Hr. apply app_inj_tail in Hr as [-> _].
  apply IH; [by left|by eexists|done..].
Qed.

Lemma lives_child st p c r :
  wf st → p ≠ [] → lives st (p ++ c :: r) → ∃ n, c = Normal n ∧ lives st (push p n).
Proof.
  intros Hwf Hp Hl.
  pose proof (lives_folded _ _ Hwf Hl) as Hf.
  assert (Hpre : p ++ [c] `prefix_of` p ++ c :: r) by (exists r; by rewrite <-app_assoc).
  assert (Hl' : lives st (p ++ [c])).
  { destruct (decide (p ++ [c] = p ++ c :: r)) as [->|Hne]; [done|].
    left. eapply lives_above; [done|done|done|by destruct p|done]. }
  destruct (folded_inv _ (lives_folded _ _ Hwf Hl')) as [Hr|(u & n & Hu & _)].
  { unfold root in Hr. by destruct p as [|? []]. }
  unfold push in Hu. apply app_inj_tail in Hu as [<- ->]. by exists n.
Qed.

(** ** The walk

    [st] has nothing at or below [into], and neither of the two directories
    is in the other. *)
Section walk.
Context (st : MemState) (from into : Path).
Context (Hwf : wf st) (Hfrom : folded from) (Hinto : folded into).
Context (Hsrc : from ∈ dirs st).
Context (Hapart : ¬ from `prefix_of` into) (Hapart' : ¬ into `prefix_of` from).
Context (Hclear : ∀ rel, ¬ lives st (into ++ rel)).

Definition pending (todo : list Path) (q : Path) : Prop := ∃ t, t ∈ todo ∧ t `prefix_of` q.
#[local] Instance pending_dec todo q : Decision (pending todo q).
Proof.
  refine (cast_if (decide (Exists (λ t, t `prefix_of` q) todo)));
    unfold pending; by rewrite <-Exists_exists.
Defined.

(** The files that are not at or below what is still to do, and the
    directories that are. *)
Definition finished (todo : list Path) : gmap Path bytes :=
  filter (λ kv, ¬ pending todo kv.1) (content from st).
Definition left_dirs (todo : list Path) : gset Path := filter (pending todo) (dirs st).

(** What is to do is there, and no part of it is below another. *)
Record Todo (todo : list Path) : Prop := {
  todo_lives p : p ∈ todo → from `prefix_of` p ∧ lives st p;
  todo_nodup : NoDup todo;
  todo_anti a b : a ∈ todo → b ∈ todo → a `prefix_of` b → a = b;
}.

Record Inv (todo : list Path) (rep : Report) (fs : MemState) : Prop := {
  inv_wf : wf fs;
  inv_out q : ¬ into `prefix_of` q →
    files fs !! q = files st !! q
    ∧ (q ∈ dirs fs ↔ q ∈ dirs st ∨ (folded q ∧ q `prefix_of` into));
  inv_files rel : files fs !! (into ++ rel) = finished todo !! (from ++ rel);
  inv_made rel : into ++ rel ∈ dirs fs → from ++ rel ∈ dirs st;
  inv_dirs rel : from ++ rel ∈ dirs st → ¬ pending todo (from ++ rel) → into ++ rel ∈ dirs fs;
  inv_todo : Todo todo;
  inv_report : rep = MkReport (N.of_nat (size (finished todo))) (weight (finished todo));
  inv_fits : fits (finished todo);
}.

#[local] Instance pending_perm : Proper ((≡ₚ) ==> (=) ==> iff) pending.
Proof. intros l l' Hp q ? <-. unfold pending. by setoid_rewrite Hp. Qed.

Lemma pending_app l1 l2 q : pending (l1 ++ l2) q ↔ pending l1 q ∨ pending l2 q.
Proof. unfold pending. setoid_rewrite elem_of_app. naive_solver. Qed.

Lemma pending_cons t l q : pending (t :: l) q ↔ t `prefix_of` q ∨ pending l q.
Proof. unfold pending. setoid_rewrite elem_of_cons. naive_solver. Qed.

Lemma finished_ext todo todo' :
  (∀ q, is_Some (content from st !! q) → pending todo q ↔ pending todo' q) →
  finished todo = finished todo'.
Proof.
  intros H. apply map_filter_ext. intros q bs Hq. simpl. by rewrite H by by eexists.
Qed.

Lemma inv_perm todo todo' rep fs : todo ≡ₚ todo' → Inv todo rep fs → Inv todo' rep fs.
Proof.
  intros Hp [H1 H2 H3 H4 H5 [Hl Hn Ha] H7 H8].
  assert (Hf : finished todo' = finished todo) by (apply finished_ext; intros; by rewrite Hp).
  split; [done|done|by rewrite Hf|done| | |by rewrite Hf..].
  - intros rel ?. rewrite <-Hp. by apply H5.
  - split; [intros p|by rewrite <-Hp|intros a b]; rewrite <-!Hp; [apply Hl|apply Ha].
Qed.

Lemma content_lives q : is_Some (content from st !! q) → lives st q ∧ from `prefix_of` q ∧ q ∉ dirs st.
Proof. intros [bs (? & ? & ?)%map_lookup_filter_Some]. split; [right; by eexists|done]. Qed.

(** Nothing is at or below both. *)
Lemma not_under rel : ¬ into `prefix_of` (from ++ rel).
Proof.
  intros H. destruct (prefix_weak_total into from (from ++ rel)); [done|by eexists|done..].
Qed.

Lemma source_file fs todo rep rel : Inv todo rep fs → files fs !! (from ++ rel) = files st !! (from ++ rel).
Proof. intros HI. apply (inv_out _ _ _ HI), not_under. Qed.

Lemma source_dir fs todo rep rel : Inv todo rep fs → from ++ rel ∈ dirs fs ↔ from ++ rel ∈ dirs st.
Proof.
  intros HI. destruct (inv_out _ _ _ HI (from ++ rel) (not_under rel)) as [_ ->].
  split; [intros [?|[_ Hp]]; [done|]|by left].
  destruct Hapart. etrans; [|done]. by eexists.
Qed.

(** *** The list *)

Definition expand (d : Path) (ns : list string) (todo : list Path) : list Path :=
  (push d <$> ns) ++ todo.

Section expand.
Context (todo : list Path) (d : Path) (ns : list string).
Context (Htodo : Todo (d :: todo)) (Hd : d ∈ dirs st) (Hnd : NoDup ns).
Context (Hns : ∀ n, n ∈ ns ↔ lives st (push d n)).

Lemma expand_elem t : t ∈ expand d ns todo ↔ (∃ n, t = push d n ∧ n ∈ ns) ∨ t ∈ todo.
Proof. unfold expand. by rewrite elem_of_app, list_elem_of_fmap. Qed.

Lemma below_other t n : t ∈ todo → ¬ t `prefix_of` push d n.
Proof.
  intros Ht Hp. pose proof (todo_nodup _ Htodo) as [Hnin _]%NoDup_cons.
  destruct (decide (t `prefix_of` d)) as [Htd|Htd].
  - by rewrite (todo_anti _ Htodo t d) in Ht by set_solver.
  - assert (t = push d n) as ->.
    { destruct (decide (t = push d n)) as [|Hne]; [done|]. destruct Htd.
      destruct (prefix_strict _ _ Hp Hne) as (c & r & Hr). unfold push in Hr.
      destruct r as [|r x _] using rev_ind; [by apply app_inj_tail in Hr as [-> _]|].
      rewrite app_comm_cons, app_assoc in Hr. apply app_inj_tail in Hr as [-> _]. by eexists. }
    rewrite <-(todo_anti _ Htodo d (push d n)) in Ht; [done|set_solver..|by eexists].
Qed.

Lemma expand_todo : Todo (expand d ns todo).
Proof.
  pose proof (todo_nodup _ Htodo) as [Hnin Hnt]%NoDup_cons. split.
  - intros p [(n & -> & Hn)|Hp]%expand_elem; [|apply (todo_lives _ Htodo); set_solver].
    split; [|by apply Hns]. etrans; [apply (todo_lives _ Htodo d); set_solver|by eexists].
  - apply NoDup_app. split_and!; [|intros t (n & -> & _)%list_elem_of_fmap Ht|done].
    + apply NoDup_fmap_2; [|done]. intros a b Hab. unfold push in Hab. by simplify_list_eq.
    + by apply (below_other _ n) in Ht.
  - intros a b [(n & -> & Hn)|Ha]%expand_elem [(m & -> & Hm)|Hb]%expand_elem Hab.
    + destruct Hab as [k Hk]. unfold push in Hk. rewrite <-app_assoc in Hk.
      by simplify_list_eq.
    + rewrite <-(todo_anti _ Htodo d b) in Hb; [done|set_solver..|].
      etrans; [|exact Hab]. by eexists.
    + by apply below_other in Hab.
    + apply (todo_anti _ Htodo); set_solver.
Qed.

Lemma expand_self : ¬ pending (expand d ns todo) d.
Proof.
  pose proof (todo_nodup _ Htodo) as [Hnin _]%NoDup_cons.
  intros (t & [(n & -> & _)|Ht]%expand_elem & Hp); [by apply prefix_snoc_not in Hp|].
  by rewrite (todo_anti _ Htodo t d) in Ht by set_solver.
Qed.

(** What is at or below the directory is below one of its names, itself
    apart. *)
Lemma expand_pending q :
  (pending (expand d ns todo) q → pending (d :: todo) q)
  ∧ (lives st q → pending (d :: todo) q → q = d ∨ pending (expand d ns todo) q).
Proof.
  assert (Hfd : folded d) by by apply (wf_dirs st Hwf).
  assert (Hne : d ≠ []) by (intros Hn; rewrite Hn in Hfd; by destruct Hfd).
  split.
  - intros (t & [(n & -> & _)|Ht]%expand_elem & Hp).
    + exists d. split; [set_solver|]. etrans; [|exact Hp]. by eexists.
    + exists t. set_solver.
  - intros Hl (t & [->|Ht]%elem_of_cons & Hp).
    + destruct (decide (d = q)) as [|Hdq]; [by left|]. right.
      destruct (prefix_strict _ _ Hp Hdq) as (c & r & ->).
      destruct (lives_child _ _ _ _ Hwf Hne Hl) as (n & -> & Hn).
      exists (push d n). split; [apply expand_elem; left; exists n; by rewrite Hns|].
      exists r. unfold push. by rewrite <-app_assoc.
    + right. exists t. split; [apply expand_elem; by right|done].
Qed.

Lemma expand_finished : finished (expand d ns todo) = finished (d :: todo).
Proof.
  apply finished_ext. intros q (Hl & _ & Hq)%content_lives.
  destruct (expand_pending q) as [H1 H2]. split; [done|].
  intros Hp. destruct (H2 Hl Hp) as [->|]; [done|done].
Qed.

Lemma expand_left : size (left_dirs (expand d ns todo)) < size (left_dirs (d :: todo)).
Proof.
  apply subset_size. split.
  - intros q [Hq Hin]%elem_of_filter. apply elem_of_filter. split; [|done]. by apply expand_pending.
  - intros Hsub. assert (Hin : d ∈ left_dirs (d :: todo)).
    { apply elem_of_filter. split; [|done]. exists d. set_solver. }
    apply Hsub, elem_of_filter in Hin as [Hp _]. by apply expand_self.
Qed.
End expand.

(** *** The steps *)

Lemma into_inj rel rel' : into ++ rel = into ++ rel' → rel = rel'.
Proof. intros H. by simplify_list_eq. Qed.

(** A directory on the list is made at the target, and what it holds goes on
    the list in its place. *)
Lemma step_dir todo rep fs rel ns (d := from ++ rel) :
  Inv (d :: todo) rep fs → d ∈ dirs st → folded (into ++ rel) →
  NoDup ns → (∀ n, n ∈ ns ↔ lives st (push d n)) →
  ∃ fs', mem_create_dir_all (into ++ rel) fs = (Ok tt, fs') ∧ Inv (expand d ns todo) rep fs'.
Proof.
  intros HI Hd Hfi Hnd Hns. pose proof (inv_todo _ _ _ HI) as Htd.
  assert (Hf : finished (d :: todo) !! d = None).
  { apply map_lookup_filter_None_2. right. intros bs _ Hp. apply Hp. exists d. set_solver. }
  exists (mkdir_p (into ++ rel) fs). split.
  { unfold mem_create_dir_all. rewrite absolute_id by done.
    rewrite (inv_files _ _ _ HI). fold d. rewrite Hf. by rewrite bool_decide_false by (by intros []). }
  assert (Hfin : finished (expand d ns todo) = finished (d :: todo)) by by apply expand_finished.
  split; rewrite ?Hfin; [| |apply HI| | |by apply expand_todo|apply HI..].
  - apply mkdir_wf; [apply HI|done].
  - intros q Hq. destruct (inv_out _ _ _ HI q Hq) as [Hqf Hqd]. split; [done|].
    rewrite mkdir_dirs, Hqd by done. split; [|tauto].
    intros [?|(_ & Hp & Hfq)]; [done|]. right. split; [done|].
    destruct (prefix_weak_total q into (into ++ rel)); [done|by eexists|done..].
  - intros rel' [H|(Hne & Hp & _)]%mkdir_dirs; [by apply (inv_made _ _ _ HI)| |done].
    apply prefix_app_inv in Hp. destruct (decide (rel' = rel)) as [->|Hr]; [done|].
    apply (lives_above st _ d); [done|by left|by apply prefix_app| |].
    + destruct Hfrom as [? ->]. done.
    + unfold d. intros H. by simplify_list_eq.
  - intros rel' Hd' Hnp. apply mkdir_dirs; [done|].
    destruct (decide (rel' = rel)) as [->|Hr].
    + destruct (decide (into ++ rel = root)) as [Hr|]; [left|right; by split_and!].
      rewrite Hr. apply (wf_root fs), HI.
    + left. apply (inv_dirs _ _ _ HI); [done|]. intros Hp.
      assert (H : lives st (from ++ rel') → pending (d :: todo) (from ++ rel') →
                    from ++ rel' = d ∨ pending (expand d ns todo) (from ++ rel')) by by apply expand_pending.
      destruct (H (or_introl Hd') Hp) as [He|]; [|done].
      apply Hr. unfold d in He. by simplify_list_eq.
Qed.

(** A file on the list: its directory is not pending, and what is finished
    without it on the list is what was and the file. *)
Lemma file_home todo rel bs (p := from ++ rel) :
  Todo (p :: todo) → p ∉ dirs st → files st !! p = Some bs →
  ∃ u c, rel = u ++ [c] ∧ from ++ u ∈ dirs st ∧ ¬ pending (p :: todo) (from ++ u).
Proof.
  intros Htd Hnd Hbs. destruct rel as [|c u _] using rev_ind.
  { unfold p in Hnd. by rewrite app_nil_r in Hnd. }
  exists u, c. split; [done|].
  assert (Hup : from ++ u `prefix_of` p) by (exists [c]; unfold p; by rewrite app_assoc).
  assert (Hne : from ++ u ≠ p) by (unfold p; intros He%app_inv_head; by apply (f_equal length) in He; rewrite length_app in He; simpl in He; lia).
  assert (Hf : from ++ u ≠ []) by by destruct Hfrom as [? ->].
  split; [eapply lives_above; [done|right; by eexists|done..]|].
  intros (t & Ht & Htp).
  assert (t = p) as -> by (apply (todo_anti _ Htd); [done|set_solver|by etrans]).
  apply Hne, (anti_symm prefix); done.
Qed.

Lemma file_finished todo rel bs (p := from ++ rel) :
  Todo (p :: todo) → p ∉ dirs st → files st !! p = Some bs →
  finished todo = <[p := bs]> (finished (p :: todo)) ∧ finished (p :: todo) !! p = None.
Proof.
  intros Htd Hnd Hbs. pose proof (todo_nodup _ Htd) as [Hnin _]%NoDup_cons. split.
  - apply map_eq. intros q. destruct (decide (q = p)) as [->|Hq].
    + rewrite lookup_insert_eq. apply map_lookup_filter_Some. split.
      * apply map_lookup_filter_Some. split; [done|]. split; [by eexists|done].
      * intros (t & Ht & Htp). by rewrite (todo_anti _ Htd t p) in Ht by set_solver.
    + rewrite lookup_insert_ne by done. unfold finished. rewrite !map_lookup_filter.
      destruct (content from st !! q) as [x|] eqn:Hx; [|done]. simpl.
      destruct (content_lives q) as (Hl & _ & _); [by eexists|].
      assert (Hiff : pending (p :: todo) q ↔ pending todo q).
      { rewrite pending_cons. split; [|tauto]. intros [Hpq|]; [|done].
        destruct Hnd. eapply lives_above; [done|done|done| |done].
        unfold p. by destruct Hfrom as [? ->]. }
      by rewrite (option_guard_iff _ _ _ (not_iff_compat Hiff)).
  - apply map_lookup_filter_None_2. right. intros x _ Hn. apply Hn. exists p. set_solver.
Qed.

Lemma file_report todo rep fs rel bs (p := from ++ rel) :
  Inv (p :: todo) rep fs → p ∉ dirs st → files st !! p = Some bs →
  MkReport (r_files rep + 1) (r_bytes rep + N.of_nat (length bs))
  = MkReport (N.of_nat (size (finished todo))) (weight (finished todo)).
Proof.
  intros HI Hnd Hbs. destruct (file_finished todo rel bs (inv_todo _ _ _ HI) Hnd Hbs) as [-> Hnew].
  rewrite (inv_report _ _ _ HI). rewrite map_size_insert_None, weight_insert by done.
  cbn [r_files r_bytes]. fold p. f_equal; lia.
Qed.

(** A file is read from the source as it was and written at the target. *)
Lemma step_file todo rep fs rel bs (p := from ++ rel)
    (rep' := MkReport (r_files rep + 1) (r_bytes rep + N.of_nat (length bs))) :
  Inv (p :: todo) rep fs → p ∉ dirs st → files st !! p = Some bs → folded (into ++ rel) →
  (r_files rep' ≤ MAX_FILES)%N → (r_bytes rep' ≤ MAX_BYTES)%N →
  ∃ fs', mem_write (into ++ rel) bs false fs = (Ok tt, fs') ∧ Inv todo rep' fs'.
Proof.
  intros HI Hnd Hbs Hfi Hmf Hmb. pose proof (inv_todo _ _ _ HI) as Htd.
  pose proof (file_finished todo rel bs Htd Hnd Hbs) as [Hfin Hnew].
  fold p in Hfin, Hnew.
  exists (set_files (<[into ++ rel := bs]> (files fs)) fs).
  assert (Hhome : ∀ q, parent (into ++ rel) = Some q → q ∈ dirs fs).
  { intros q Hq. destruct (file_home todo rel bs Htd Hnd Hbs) as (u & c & -> & Hu & Hnu).
    rewrite app_assoc in Hq. apply parent_Some in Hq as (? & [<- _]%app_inj_tail & _).
    by apply (inv_dirs _ _ _ HI). }
  split.
  { unfold mem_write. rewrite absolute_id by done. unfold is_dir. rewrite bool_decide_false.
    2: { by intros ?%(inv_made _ _ _ HI). }
    destruct (parent (into ++ rel)) as [q|] eqn:Hq; simpl.
    - by rewrite bool_decide_true by by apply Hhome.
    - destruct (file_home todo rel bs Htd Hnd Hbs) as (u & c & -> & _).
      destruct (folded_inv _ Hfi) as [Hr|(v & n & Hv & _)].
      + destruct Hinto as [ns Hns]. rewrite Hns in Hr. apply (f_equal length) in Hr.
        revert Hr. simpl. rewrite !length_app. simpl. lia.
      + unfold push in Hv. by rewrite Hv, parent_snoc in Hq. }
  pose proof (file_report todo rep fs rel bs HI Hnd Hbs) as Hrep. fold rep' in Hrep.
  split.
  - by apply insert_file_wf; [apply HI|..].
  - intros q Hq. simpl. rewrite lookup_insert_ne by (intros <-; apply Hq; by eexists).
    by apply (inv_out _ _ _ HI).
  - intros rel'. simpl. rewrite Hfin. destruct (decide (rel' = rel)) as [->|Hr].
    + by rewrite !lookup_insert_eq.
    + rewrite !lookup_insert_ne by (unfold p; intros ?%app_inv_head; congruence).
      apply (inv_files _ _ _ HI).
  - apply HI.
  - intros rel' Hd Hnp. apply (inv_dirs _ _ _ HI); [done|]. rewrite pending_cons.
    intros [Hpre|]; [|done]. apply Hnd.
    destruct (decide (p = from ++ rel')) as [->|Hne]; [done|].
    apply (lives_above st _ (from ++ rel')); [done|by left|done| |done].
    unfold p. by destruct Hfrom as [? ->].
  - split; [intros q Hq; apply (todo_lives _ Htd); apply elem_of_cons; by right|by pose proof (todo_nodup _ Htd) as [_ ?]%NoDup_cons|].
    intros a b Ha Hb. apply (todo_anti _ Htd); apply elem_of_cons; by right.
  - done.
  - by rewrite Hrep in Hmf, Hmb.
Qed.
(** *** The code's loops *)

Context (Hplain : ∀ p n, from `prefix_of` p → lives st (push p n) → plain n).

Lemma at_plain p n : plain n → Root.at_ p n = push p n.
Proof. intros Hn. unfold Root.at_. rewrite Hn. by destruct p. Qed.

Lemma target_folded rel : lives st (from ++ rel) → folded (into ++ rel).
Proof.
  intros Hl. pose proof (lives_folded _ _ Hwf Hl) as [ms Hms].
  destruct Hfrom as [ns ->], Hinto as [ks ->]. simpl in Hms. injection Hms as Hms.
  symmetry in Hms. apply fmap_app_inv in Hms as (l1 & l2 & _ & -> & _).
  exists (ks ++ l2). by rewrite fmap_app.
Qed.

Lemma finished_fits todo : fits (content from st) → fits (finished todo).
Proof.
  intros [Hs Hw]. assert (Hsub : finished todo ⊆ content from st) by apply map_filter_subseteq.
  split; [pose proof (map_subseteq_size _ _ Hsub)|pose proof (weight_mono _ _ Hsub)]; lia.
Qed.

Definition Stack (stack : list (Path * Path)) : Prop :=
  Forall (λ e, ∃ rel, e = (from ++ rel, into ++ rel) ∧ from ++ rel ∈ dirs st) stack.

(** What the walk asks of the source has the answer it had at the start. *)
Lemma source_is_dir todo rep fs rel :
  Inv todo rep fs → lives st (from ++ rel) →
  is_dir_at (from ++ rel) fs = bool_decide (from ++ rel ∈ dirs st).
Proof.
  intros HI Hl. pose proof (source_dir fs todo rep rel HI) as Hd.
  unfold is_dir_at, metadata, mem_backend, mem_metadata.
  rewrite absolute_id by by eapply lives_folded. unfold is_dir.
  rewrite (bool_decide_ext _ _ Hd), (source_file fs todo rep) by done.
  case_bool_decide; [done|]. by destruct (files st !! _).
Qed.

Lemma source_read todo rep fs rel bs :
  Inv todo rep fs → from ++ rel ∉ dirs st → files st !! (from ++ rel) = Some bs →
  read (from ++ rel) fs = Ok bs.
Proof.
  intros HI Hd Hbs. unfold read, mem_backend, mem_read.
  rewrite absolute_id by (by eapply lives_folded; [|right]).
  unfold is_dir. rewrite (bool_decide_ext _ _ (source_dir fs todo rep rel HI)), bool_decide_false by done.
  by rewrite (source_file fs todo rep), Hbs.
Qed.

(** One name: a directory is put on the stack, a file copied; the refusals
    are the bounds. *)
Lemma copy_name_step rel name names stack rep fs :
  Inv (expand (from ++ rel) (name :: names) stack.*1) rep fs → Stack stack →
  match copy_name from (from ++ rel) (into ++ rel) name stack rep fs with
  | (Ok (stack', rep'), fs') =>
      Stack stack' ∧ Inv (expand (from ++ rel) names stack'.*1) rep' fs'
      ∧ left_dirs (expand (from ++ rel) names stack'.*1)
        ⊆ left_dirs (expand (from ++ rel) (name :: names) stack.*1)
  | (Err _, _) => ¬ fits (content from st)
  end.
Proof.
  set (rel' := rel ++ [Normal name]). intros HI Hst.
  assert (Hl : lives st (from ++ rel')).
  { unfold rel'. rewrite app_assoc. apply (todo_lives _ (inv_todo _ _ _ HI)). set_solver. }
  assert (Hn : plain name).
  { apply (Hplain (from ++ rel)); [by eexists|]. unfold push. by rewrite <-app_assoc. }
  assert (Hfi : folded (into ++ rel')) by by apply target_folded.
  unfold copy_name. rewrite !at_plain by done. unfold push. rewrite <-!app_assoc. fold rel'.
  rewrite (source_is_dir _ _ _ _ HI Hl). case_bool_decide as Hd.
  { split; [by apply Forall_cons; split; [exists rel'|]|].
    assert (Hp : expand (from ++ rel) names ((from ++ rel', into ++ rel') :: stack).*1
                 ≡ₚ expand (from ++ rel) (name :: names) stack.*1).
    { unfold expand. rewrite fmap_cons, <-Permutation_middle. simpl. unfold push.
      by rewrite <-app_assoc. }
    split; [by eapply inv_perm|]. unfold left_dirs. intros q. rewrite !elem_of_filter. by rewrite Hp. }
  destruct Hl as [?|[bs Hbs]]; [done|]. rewrite (source_read _ _ _ _ bs HI Hd Hbs).
  assert (HI' : Inv ((from ++ rel') :: expand (from ++ rel) names stack.*1) rep fs).
  { revert HI. unfold expand. simpl. unfold push at 1. by rewrite <-app_assoc. }
  pose proof (file_report _ _ _ _ _ HI' Hd Hbs) as Hrep.
  destruct (bool_decide _) eqn:Hmf; [apply bool_decide_eq_true in Hmf|apply bool_decide_eq_false in Hmf].
  { intros Hfit. apply (finished_fits (expand (from ++ rel) names stack.*1)) in Hfit as [Hs _].
    rewrite Hrep in Hmf. simpl in Hmf. lia. }
  destruct (bool_decide _) eqn:Hmb; [apply bool_decide_eq_true in Hmb|apply bool_decide_eq_false in Hmb].
  { intros Hfit. apply (finished_fits (expand (from ++ rel) names stack.*1)) in Hfit as [_ Hw].
    rewrite Hrep in Hmb. simpl in Hmb. lia. }
  destruct (step_file _ _ _ _ bs HI' Hd Hbs Hfi) as (fs' & Hw & HI''); [lia..|].
  unfold write, mem_backend. rewrite Hw. split_and!; [done..|].
  unfold left_dirs. intros q. rewrite !elem_of_filter. intros [(t & Ht & Hp) ?].
  split; [|done]. exists t. split; [|done]. revert Ht. unfold expand. set_solver.
Qed.

Lemma copy_names_step rel names : ∀ stack rep fs,
  Inv (expand (from ++ rel) names stack.*1) rep fs → Stack stack →
  match copy_names from (from ++ rel) (into ++ rel) names stack rep fs with
  | (Ok (stack', rep'), fs') =>
      Stack stack' ∧ Inv stack'.*1 rep' fs'
      ∧ left_dirs stack'.*1 ⊆ left_dirs (expand (from ++ rel) names stack.*1)
  | (Err _, _) => ¬ fits (content from st)
  end.
Proof.
  induction names as [|name names IH]; intros stack rep fs HI Hst; simpl; [done|].
  pose proof (copy_name_step rel name names stack rep fs HI Hst) as Hc.
  destruct (copy_name _ _ _ _ _ _ _) as [[[stack' rep']|e] fs']; [|done].
  destruct Hc as (Hst' & HI' & Hleft). specialize (IH stack' rep' fs' HI' Hst').
  destruct (copy_names _ _ _ _ _ _ _) as [[[stack'' rep'']|e] fs'']; [|done].
  destruct IH as (? & ? & ?). split_and!; [done..|]. by etrans.
Qed.

(** A directory of the stack is made, and listed as it was at the start. *)
Lemma made_and_listed todo rep fs rel (d := from ++ rel) :
  Inv (d :: todo) rep fs → d ∈ dirs st →
  ∃ fs' ns, mem_create_dir_all (into ++ rel) fs = (Ok tt, fs') ∧ mem_read_dir d fs' = Ok ns
    ∧ Inv (expand d ns todo) rep fs'
    ∧ size (left_dirs (expand d ns todo)) < size (left_dirs (d :: todo)).
Proof.
  intros HI Hd. assert (Hf : folded d) by by apply (wf_dirs st Hwf).
  assert (Hfi : folded (into ++ rel)) by (apply target_folded; by left).
  destruct (read_dir_names d st) as (ns & _ & Hnd & Hns); [done..|].
  destruct (step_dir todo rep fs rel ns HI Hd Hfi Hnd Hns) as (fs' & Hc & HI').
  destruct (read_dir_names d fs') as (ns' & Hr & Hnd' & Hns');
    [done|by apply (source_dir _ _ _ _ HI')|].
  assert (Hl : ∀ n, n ∈ ns' ↔ lives st (push d n)).
  { intros n. rewrite Hns'. unfold push, d. rewrite <-app_assoc.
    by rewrite (source_dir _ _ _ _ HI'), (source_file _ _ _ _ HI'). }
  destruct (step_dir todo rep fs rel ns' HI Hd Hfi Hnd' Hl) as (fs2 & Hc2 & HI2).
  rewrite Hc in Hc2. injection Hc2 as <-. exists fs', ns'. split_and!; [done..|].
  apply expand_left; [apply (inv_todo _ _ _ HI)|done..].
Qed.

(** The loop ends within a round for each directory left, with everything
    copied or over the bounds. *)
Lemma copy_loop_ends fuel : ∀ stack rep fs,
  Inv stack.*1 rep fs → Stack stack → size (left_dirs stack.*1) ≤ fuel →
  ∃ r fs', copy_loop fuel from stack rep fs = Some (r, fs')
    ∧ match r with Ok rep' => Inv [] rep' fs' | Err _ => ¬ fits (content from st) end.
Proof.
  induction fuel as [|fuel IH]; intros [|[src tgt] stack] rep fs HI Hst Hfuel;
    [by eexists _, _| |by eexists _, _|].
  all: apply Forall_cons in Hst as [(rel & [= -> ->] & Hd) Hst].
  { assert (Hin : from ++ rel ∈ left_dirs ((from ++ rel, into ++ rel) :: stack).*1).
    { apply elem_of_filter. split; [|done]. exists (from ++ rel). rewrite fmap_cons. set_solver. }
    assert (Hz : size (left_dirs ((from ++ rel, into ++ rel) :: stack).*1) = 0) by lia.
    apply size_empty_inv in Hz. set_solver. }
  rewrite fmap_cons in *. cbn [fst] in *.
  destruct (made_and_listed stack.*1 rep fs rel HI Hd) as (fs1 & ns & Hc & Hr & HI1 & Hless).
  simpl. unfold create_dir_all, read_dir, mem_backend. rewrite Hc, Hr.
  fold mem_backend. pose proof (copy_names_step rel ns stack rep fs1 HI1 Hst) as Hn.
  destruct (copy_names _ _ _ _ _ _ _) as [[[stack' rep']|e] fs2]; [|by eexists _, _].
  destruct Hn as (Hst' & HI2 & Hsub). apply IH; [done..|].
  apply subseteq_size in Hsub. lia.
Qed.

(** Before the first round nothing is copied; after the last, everything. *)
Lemma walk_starts :
  ∃ fs, mem_create_dir_all into st = (Ok tt, fs) ∧ Inv [from] (MkReport 0 0) fs.
Proof.
  assert (Hnf : ∀ rel, files st !! (into ++ rel) = None).
  { intros rel. apply eq_None_not_Some. intros H. apply (Hclear rel). by right. }
  assert (Hfin : finished [from] = ∅).
  { apply map_empty. intros q. apply map_lookup_filter_None_2. right. intros bs Hq Hn.
    apply Hn. exists from. split; [set_solver|]. by apply map_lookup_filter_Some in Hq as (_ & ? & _). }
  exists (mkdir_p into st). split.
  { unfold mem_create_dir_all. rewrite absolute_id by done.
    pose proof (Hnf []) as Hn. rewrite app_nil_r in Hn. rewrite Hn.
    by rewrite bool_decide_false by (by intros []). }
  split; rewrite ?Hfin.
  - by apply mkdir_wf.
  - intros q Hq. split; [done|]. rewrite mkdir_dirs by done. split; [naive_solver|].
    intros [?|[? ?]]; [by left|]. destruct (decide (q = root)) as [->|]; [left; apply (wf_root st Hwf)|].
    right. by split_and!.
  - intros rel. simpl. by rewrite Hnf, lookup_empty.
  - intros rel [H|(_ & Hp & _)]%mkdir_dirs; [|..|done].
    { destruct (Hclear rel). by left. }
    destruct rel as [|c rel]; [by rewrite app_nil_r|].
    destruct Hp as [k Hk]. apply (f_equal length) in Hk. rewrite !length_app in Hk. simpl in Hk. lia.
  - intros rel _ Hn. destruct Hn. exists from. split; [set_solver|by eexists].
  - split; [intros p ->%list_elem_of_singleton; split; [done|by left]|apply NoDup_singleton|].
    by intros a b ->%list_elem_of_singleton ->%list_elem_of_singleton.
  - done.
  - by split.
Qed.

Lemma walk_done rep fs :
  Inv [] rep fs →
  copied from into st fs ∧ fits (content from st)
  ∧ rep = MkReport (N.of_nat (size (content from st))) (weight (content from st)).
Proof.
  intros HI. assert (Hnp : ∀ q, ¬ pending [] q) by by intros q (t & ?%not_elem_of_nil & _).
  assert (Hfin : finished [] = content from st).
  { apply map_filter_id. intros q bs _. apply Hnp. }
  split; [split|].
  - intros rel. rewrite (inv_files _ _ _ HI), Hfin. split; [done|]. split.
    + apply (inv_made _ _ _ HI).
    + intros Hd. by apply (inv_dirs _ _ _ HI).
  - apply (inv_out _ _ _ HI).
  - rewrite <-Hfin. split; apply HI.
Qed.

Lemma copy_tree_exact fuel :
  size (filter (λ q, from `prefix_of` q) (dirs st)) ≤ fuel →
  ∃ r st', copy_tree fuel from into st = Some (r, st')
    ∧ match r with
      | Ok rep => fits (content from st) ∧ copied from into st st'
          ∧ rep = MkReport (N.of_nat (size (content from st))) (weight (content from st))
      | Err _ => ¬ fits (content from st)
      end.
Proof.
  intros Hfuel. unfold copy_tree, create_dir_all, mem_backend.
  destruct walk_starts as (fs & -> & HI). fold mem_backend.
  destruct (copy_loop_ends fuel [(from, into)] (MkReport 0 0) fs) as (r & st' & Hl & Hr).
  - done.
  - apply Forall_singleton. exists []. by rewrite !app_nil_r.
  - etrans; [|done]. apply subseteq_size. unfold left_dirs. intros q.
    rewrite !elem_of_filter. intros [(t & ->%list_elem_of_singleton & ?) ?]. done.
  - exists r, st'. split; [done|]. destruct r as [rep|]; [|done].
    destruct (walk_done _ _ Hr) as (? & ? & ?). done.
Qed.
End walk.

(** ** Deploying *)

Lemma clear_away into st :
  folded into → into ≠ root →
  ∃ st1, mem_remove_dir_all into st = (Ok tt, st1)
    ∧ (∀ rel, ¬ lives st1 (into ++ rel))
    ∧ ∀ q, ¬ into `prefix_of` q → files st1 !! q = files st !! q ∧ (q ∈ dirs st1 ↔ q ∈ dirs st).
Proof.
  intros Hf Hne. unfold mem_remove_dir_all. rewrite absolute_id by done.
  eexists. split; [done|]. split.
  - intros rel [[[Hn|Hr] _]%elem_of_filter|[bs [_ Hn]%map_lookup_filter_Some]].
    + apply Hn. by eexists.
    + destruct Hf as [ns ->]. destruct ns; [done|]. by destruct rel.
    + apply Hn. by eexists.
  - intros q Hq. simpl. rewrite elem_of_filter. split; [|naive_solver].
    rewrite map_lookup_filter. by destruct (files st !! q); simpl; [rewrite option_guard_True|].
Qed.

Lemma content_away from into st st1 :
  (∀ rel, ¬ into `prefix_of` (from ++ rel)) →
  (∀ q, ¬ into `prefix_of` q → files st1 !! q = files st !! q ∧ (q ∈ dirs st1 ↔ q ∈ dirs st)) →
  content from st1 = content from st.
Proof.
  intros Hun Hag. apply map_eq. intros q. unfold content. rewrite !map_lookup_filter. simpl.
  destruct (decide (from `prefix_of` q)) as [[rel ->]|Hn].
  - destruct (Hag _ (Hun rel)) as [-> Hd]. destruct (files st !! _); [|done]. simpl.
    apply option_guard_iff. by rewrite Hd.
  - by destruct (files st1 !! q), (files st !! q); simpl; rewrite ?option_guard_False by tauto.
Qed.

(** C14: Over the in-memory filesystem, when source and target are spelled out
    in full, neither is inside the other, and every name in the source is one
    component: a deploy ends; it is refused exactly when the source is not a
    directory, and then nothing has changed, or is over the bounds; otherwise
    the target holds what the source holds and nothing else, and the rest of
    the filesystem is what it was, but for the directories on the way. *)
Theorem deploy_exact fuel root name source st (from := source_path source)
    (into := live_path root name) :
  wf st → folded from → folded into →
  ¬ from `prefix_of` into → ¬ into `prefix_of` from →
  (∀ p n, from `prefix_of` p → lives st (push p n) → plain n) →
  size (filter (λ q, from `prefix_of` q) (dirs st)) ≤ fuel →
  ∃ r st', deploy fuel root name source st = Some (r, st')
    ∧ match r with
      | Ok rep => from ∈ dirs st ∧ fits (content from st) ∧ copied from into st st'
          ∧ rep = MkReport (N.of_nat (size (content from st))) (weight (content from st))
      | Err _ => ((from ∉ dirs st) ∧ st' = st) ∨ (from ∈ dirs st ∧ ¬ fits (content from st))
      end.
Proof.
  intros Hwf Hff Hf Hap Hap' Hpl Hfuel.
  destruct (decide (from ∈ dirs st)) as [Hd|Hd].
  2: { eexists (Err _), st. split; [|left; by split]. unfold deploy, is_dir_at, metadata, mem_backend, mem_metadata.
    rewrite absolute_id by done. unfold is_dir. fold from. rewrite bool_decide_false by done.
    by destruct (files st !! from). }
  assert (Hne : into ≠ MemFs.root).
  { intros He. apply Hap'. rewrite He. destruct Hff as [ns ->]. by eexists. }
  destruct (clear_away into st Hf Hne) as (st1 & Hrm & Hclear & Hag).
  pose proof (remove_dir_all_wf into st Hwf) as Hwf1. rewrite Hrm in Hwf1. simpl in Hwf1.
  assert (Hun : ∀ rel, ¬ into `prefix_of` (from ++ rel)).
  { intros rel Hp. destruct (prefix_weak_total into from (from ++ rel)); [done|by eexists|done..]. }
  assert (Hag' : ∀ rel, files st1 !! (from ++ rel) = files st !! (from ++ rel)
                        ∧ (from ++ rel ∈ dirs st1 ↔ from ++ rel ∈ dirs st)).
  { intros rel. apply Hag, Hun. }
  pose proof (content_away from into st st1 Hun Hag) as Hcon.
  assert (Hd1 : from ∈ dirs st1).
  { destruct (Hag' []) as [_ Hi]. rewrite app_nil_r in Hi. by apply Hi. }
  assert (Hpl1 : ∀ p n, from `prefix_of` p → lives st1 (push p n) → plain n).
  { intros p n [rel ->] Hl. apply (Hpl (from ++ rel)); [by eexists|]. revert Hl.
    unfold push, lives. rewrite <-!app_assoc. by rewrite (proj1 (Hag' _)), (proj2 (Hag' _)). }
  assert (Hfuel1 : size (filter (λ q, from `prefix_of` q) (dirs st1)) ≤ fuel).
  { etrans; [|done]. apply subseteq_size. intros q. rewrite !elem_of_filter.
    intros [[rel ->] ?]. split; [by eexists|]. by apply (Hag' rel). }
  destruct (copy_tree_exact st1 from into Hwf1 Hff Hf Hd1 Hap Hap' Hclear Hpl1 fuel Hfuel1)
    as (r & st' & Hc & Hr).
  exists r, st'. rewrite Hcon in Hr. split.
  { unfold deploy, is_dir_at, metadata, mem_backend, mem_metadata, remove_dir_all.
    rewrite absolute_id by done. unfold is_dir. fold from into. rewrite bool_decide_true by done.
    cbn [negb md_is_dir]. rewrite Hrm. exact Hc. }
  destruct r as [rep|e]; [|by right]. destruct Hr as (Hfit & [Hin Hout] & Hrep).
  split_and!; [done|done|split|done].
  - intros rel. destruct (Hin rel) as [Hfile Hdir].
    by rewrite Hfile, Hdir, Hcon, (proj2 (Hag' rel)).
  - intros q Hq. destruct (Hout q Hq) as [Hfile Hdir], (Hag q Hq) as [Hfile1 Hdir1].
    by rewrite Hfile, Hdir, Hfile1, Hdir1.
Qed.

(** *** Where a deployment goes

    The directory under [live/] is the project's name joined to it, whatever
    the name: an absolute one is the directory that is cleared. *)
Theorem deployment_anywhere root project name (st : MemState) :
  project_name project = Some name → has_root (path_of name) = true →
  let named := deployment_name root (Some project) in
  live_path root named = path_of name
  ∧ (remove root named st).1 = Ok tt
  ∧ ∀ q, normalize (path_of name) `prefix_of` q → files (remove root named st).2 !! q = None.
Proof.
  intros Hn Hr. unfold deployment_name. simpl. rewrite Hn.
  assert (Hl : live_path root name = path_of name).
  { unfold live_path, Root.at_, path_join. by rewrite Hr. }
  split_and!; [done|done|]. intros q Hq. unfold remove. rewrite Hl. simpl.
  apply map_lookup_filter_None_2. right. intros bs _ Hnq. apply Hnq. simpl.
  unfold absolute, is_absolute. by rewrite Hr.
Qed.

(** ** One deploy *)

Definition demo_dir : Path := path_of "/work/.drt_root".
Definition demo_root : Root.Root := Root.MkRoot (path_of "/work").
Definition demo_st : MemState :=
  add_file (path_of "/work/dlua/lib/util.lua") (as_bytes "return 1")
    (add_file (path_of "/work/dlua/main.lua") (as_bytes "print(1)")
      (add_file (path_of "/work/.drt_root/live/demo/old.lua") (as_bytes "gone") new)).
Definition demo_source : Source := DluaDir (path_of "/work/dlua").

Lemma deploy_demo_wf : wf demo_st.
Proof.
  apply (mem_wf [AddFile (path_of "/work/.drt_root/live/demo/old.lua") (as_bytes "gone");
                 AddFile (path_of "/work/dlua/main.lua") (as_bytes "print(1)");
                 AddFile (path_of "/work/dlua/lib/util.lua") (as_bytes "return 1")]).
Qed.

Lemma deploy_demo_plain p n :
  source_path demo_source `prefix_of` p → lives demo_st (push p n) → plain n.
Proof.
  assert (Hall : Forall (λ q, match file_name q with
                              | Some n => bool_decide (path_of n = [Normal n]) = true
                              | None => True
                              end) (elements (dirs demo_st) ++ elements (dom (files demo_st)))).
  { vm_compute. by repeat constructor. }
  intros _ Hl. rewrite Forall_forall in Hall. specialize (Hall (push p n)).
  unfold push in Hall. rewrite file_name_snoc in Hall.
  apply (bool_decide_eq_true (path_of n = [Normal n])), Hall. rewrite elem_of_app, !elem_of_elements, elem_of_dom. exact Hl.
Qed.

Lemma deploy_exact_witness :
  ∃ r st', deploy 2 demo_root "demo" demo_source demo_st = Some (Ok r, st')
    ∧ copied (path_of "/work/dlua") (path_of "/work/.drt_root/live/demo") demo_st st'
    ∧ r = MkReport 2 16.
Proof.
  destruct (deploy_exact 2 demo_root "demo" demo_source demo_st) as (r & st' & Hd & Hr).
  - apply deploy_demo_wf.
  - by exists ["work"; "dlua"].
  - by exists ["work"; ".drt_root"; "live"; "demo"].
  - intros [k Hk]. by vm_compute in Hk.
  - intros [k Hk]. by vm_compute in Hk.
  - apply deploy_demo_plain.
  - by vm_compute.
  - destruct r as [rep|e].
    + destruct Hr as (_ & _ & Hc & ->). exists (MkReport 2 16), st'. split_and!; [|done|done].
      rewrite Hd. by vm_compute.
    + destruct Hr as [[Hn _]|[_ Hn]]; [destruct Hn; by vm_compute|]. destruct Hn. by split; vm_compute.
Defined.

(** A project that calls itself [/home/op] clears that directory. *)
Lemma deployment_anywhere_witness :
  files (remove demo_root "/home/op"
           (add_file (path_of "/home/op/notes.txt") (as_bytes "mine") demo_st)).2
    !! path_of "/home/op/notes.txt" = None.
Proof.
  set (project := MkProjectJson (Some "/home/op") None [] None None [] [] default_nesting [] false None []).
  apply (deployment_anywhere demo_root project "/home/op"); [done|done|].
  apply (bool_decide_unpack _). by vm_compute.
Defined.
End DeployFacts.
