(* ===== verification/Boot.v ===== *)
(** * Before a deployment's first step ([crates/drt/src/boot.rs])

    Find the root, resolve what would run, gate it on consent, and hand on a
    configuration.  The registry of shipped programs is [stdlib.rs]'s.

    ** What a boot promises

    A root's deployment starts under a configuration no wider than the
    declared ceiling, which the operator has consented to. *)

From S2P Require Import Prelude.
From S2P Require Import Bytes.
From S2P Require Import Value.
From S2P Require Import Caps.
From S2P Require Import Config.
From S2P Require Import Canon.
From S2P Require Import Project.
From S2P Require Import Consent.
From S2P Require Import Backend.
From S2P Require Import Args.
From S2P Require Import Resolve.
From S2P Require Import ResolveSpec.
From S2P Require Import Root.
From S2P Require Import Gate.
From S2P Require Import Deploy.

(** ** Shipped programs ([crates/drt/src/stdlib.rs]) *)

Inductive Kind := KindSource (source : string) | KindNative (name : string).

Definition PREFLIGHT : string := "preflight".
Definition STDLIB_NAMES : list string :=
  [PREFLIGHT; "netcheck"; "relay"; "stun"; "bridge"; "turn"; "wg"; "browser-access"; "p2p-match";
   "jwks"; "session"].

(** The sources a build carries, by name: what its features compiled in. *)
Class Stdlib := { carried_source : string → option string }.

Definition lookup `{Stdlib} (name : string) : option Kind :=
  if bool_decide (name = PREFLIGHT) then Some (KindNative PREFLIGHT)
  else if has STDLIB_NAMES name then KindSource <$> carried_source name
  else None.

Definition names `{Stdlib} : list string := filter (λ n, is_Some (lookup n)) STDLIB_NAMES.

(** ** What a boot hands on *)

Inductive Runnable := RunProgram (p : Program) | RunNative (name : string).

Record Deployment := MkDeployment {
  dep_name : string;
  dep_source : Source;
  dep_deployed : bool;
}.

(** Everything of [Booted] but the wired connectors, [D]. *)
Record Booted (D : Type) := MkBooted {
  b_config : RootConfig;
  b_dispatcher : D;
  b_root : option Root.Root;
  b_resolution : option Resolution;
  b_runnable : option Runnable;
  b_deployment : option Deployment;
}.
Arguments MkBooted {D}.
Arguments b_config {D}.
Arguments b_dispatcher {D}.
Arguments b_root {D}.
Arguments b_resolution {D}.
Arguments b_runnable {D}.
Arguments b_deployment {D}.

Definition set_rc_args (args : btree string ArgValue) (c : RootConfig) : RootConfig :=
  MkRootConfig (rc_root c) (rc_dlua_dir c) (rc_entry c) args (rc_blocks c).
Definition set_program (p : option Program) (c : RootConfig) : RootConfig :=
  MkRootConfig (MkInstanceConfig p (Config.caps (rc_root c)) (budget (rc_root c)) (numeric (rc_root c)))
    (rc_dlua_dir c) (rc_entry c) (rc_args c) (rc_blocks c).

Definition default_config : RootConfig :=
  MkRootConfig (MkInstanceConfig None [] (MkBudget None None) (MkNumeric None None)) None None [] [].

(** [local_defaults] of [cli.rs]: the time connector, where it is built in. *)
Definition local_defaults (connector_time : bool) (c : RootConfig) : RootConfig :=
  if connector_time then
    let connectors := match bt_get (K := string) "connectors" (rc_blocks c) with
                      | Some (JObject m) => m
                      | _ => []
                      end in
    MkRootConfig (rc_root c) (rc_dlua_dir c) (rc_entry c) (rc_args c)
      (bt_insert (K := string) "connectors" (JObject (bt_insert (K := string) "time" (JObject []) connectors))
         (rc_blocks c))
  else c.

Section boot.
Context {A F D : Type} `{!Ask A, !Backend F}.
Context `{RootText} `{Build} `{Stdlib} `{Clock}.
Context `{JsonText} `{Digest} `{ScopeJson} `{ScopeEq}.
(** Reading a configuration file, and wiring connectors behind a
    configuration: [config.rs] and [cli.rs]. *)
Variable load : Path → F → result RootConfig string.
Variable wire : RootConfig → result D string.
Variable connector_time : bool.

Definition entry_runnable (root : Root.Root) (deployment : string) (entry : Entry) :
    result Runnable string :=
  match entry with
  | EntryFile path =>
      Ok (RunProgram (Config.Path (path_text (Root.at_ (live_path root deployment) path))))
  | EntryStdlib name =>
      match lookup name with
      | Some (KindNative native) => Ok (RunNative native)
      | Some (KindSource src) => Ok (RunProgram (Config.Source src))
      | None => Err ("this build carries no stdlib program called '" +:+ name +:+ "'; it carries "
                     +:+ join_comma names)
      end
  end.

(** Say something about being nested, or refuse. *)
Definition nesting (root : Root.Root) (policy : AllowNested) (a : A) (fs : F) : result unit string * A :=
  match Root.nesting root policy fs with
  | Root.Free | Root.Allowed _ => (Ok tt, a)
  | Root.NestWarn outer =>
      (Ok tt, say ("drt start: this root is nested beneath " +:+ path_text outer
                   +:+ " -- they are peers, not parent and child, and neither knows about the other. Set `allow_nested` to silence this.") a)
  | Root.Refused outer =>
      (Err ("this root is nested beneath " +:+ path_text outer
            +:+ " and its `allow_nested` is " +:+ String (of_byte 34) "error" +:+ String (of_byte 34) ""), a)
  end.

Definition profile_config (root : Root.Root) (rooted : RootInputs) (resolution : Resolution)
    (project : ProjectJson) (fs : F) : result (RootConfig * Runnable * Deployment) string :=
  match r_profile resolution with
  | None => Err "no profile resolved, and nothing said why"
  | Some name =>
      let filename := ProfileName.filename (value name) in
      match bt_get (K := string) filename (in_profiles rooted) with
      | None => Err ("'" +:+ filename +:+ "' is declared but not in profile/")
      | Some config =>
          match r_entry resolution with
          | None => Err ("profile '" +:+ value name +:+ "' declares no entry")
          | Some entry =>
              let dname := deployment_name root (Some project) in
              let deployment := MkDeployment dname (source_for root config) (is_deployed root dname fs) in
              let config := set_rc_args (r_args resolution) config in
              runnable ←? entry_runnable root dname (value entry);
              let config := match runnable with
                            | RunProgram program => set_program (Some program) config
                            | RunNative _ => config
                            end in
              Ok (config, runnable, deployment)
          end
      end
  end.

(** Rule 1: no root. *)
Definition boot_no_root (config_flag : option Path) (profile : option string) (overrides : Overrides)
    (fs : F) : result (Booted D) string :=
  config ←? match config_flag with
            | Some path => load path fs
            | None => Ok (local_defaults connector_time default_config)
            end;
  match profile with
  | Some name => Err ("there is no root here, so '" +:+ name
                      +:+ "' names no profile; `--config <path>` is the self-contained form")
  | None =>
      if negb (bool_decide (overrides = [])) then
        Err "arguments for the entry come from a profile's declared `args`, and there is no root here to resolve one"
      else dispatcher ←? wire config; Ok (MkBooted config dispatcher None None None None)
  end.

(** Rule 4: a [--config] inside a root attenuates under its ceiling. *)
Definition under_flag (flag : option RootConfig) (project : ProjectJson) (config : RootConfig) :
    result RootConfig string :=
  match flag with
  | None => Ok config
  | Some flag =>
      match check_attenuation (rc_root flag) (ceiling_parent project) with
      | Err e => Err ("--config is not a consent bypass: " +:+ config_error_text e)
      | Ok _ => Ok flag
      end
  end.

(** What a boot inside a root reads and resolves: the lines said, and the
    inputs or the loader's refusal. *)
Definition boot_inputs (root : Root.Root) (config_flag : option Path) (profile : option string)
    (overrides : Overrides) (a : A) (fs : F) : result ResolveInputs string * A :=
  let requested := match profile with Some name => ReqProfile name | None => ReqDefault end in
  let '(inputs, soft) := Root.read root requested overrides fs in
  let a := foldl (λ a line, say ("drt start: " +:+ line) a) a soft in
  match config_flag with
  | None => (Ok inputs, a)
  | Some path =>
      match load path fs with
      | Err e => (Err e, a)
      | Ok flag =>
          (Ok (MkResolveInputs (in_root inputs) (Some flag) (in_requested inputs) (in_overrides inputs)
                 (in_cwd inputs)), a)
      end
  end.

(** Rules 2 to 4, in the order they fire. *)
Definition boot_root (root : Root.Root) (inputs : ResolveInputs) (flags : Flags) (a : A) (fs : F) :
    result (Booted D) string * A * F :=
  let resolution := resolve inputs in
  match blocker resolution with
  | Some b => (Err (finding_text b), a, fs)
  | None =>
      match in_root inputs with
      | Some rooted =>
          match in_project rooted with
          | None =>
              (Err "this directory has a .drt_root but no project.json; `dollup init` writes one, or name a config with --config", a, fs)
          | Some project =>
              match nesting root (allow_nested project) a fs with
              | (Err e, a) => (Err e, a, fs)
              | (Ok _, a) =>
                  match profile_config root rooted resolution project fs with
                  | Err e => (Err e, a, fs)
                  | Ok (config, runnable, deployment) =>
                      let '(gated, a, fs) :=
                        match runnable with
                        | RunNative _ => (Ok tt, a, fs)
                        | RunProgram _ => gate root project (in_consent rooted) flags a fs
                        end in
                      match (_ ←? gated;
                             config ←? under_flag (in_config_flag inputs) project config;
                             dispatcher ←? wire config;
                             Ok (config, dispatcher)) with
                      | Err e => (Err e, a, fs)
                      | Ok (config, dispatcher) =>
                          (Ok (MkBooted config dispatcher (Some root) (Some resolution) (Some runnable)
                                 (Some deployment)), a, fs)
                      end
                  end
              end
          end
      | None =>
          (Err "this directory has a .drt_root but no project.json; `dollup init` writes one, or name a config with --config", a, fs)
      end
  end.

Definition boot_with (cwd : Path) (root_flag config_flag : option Path) (profile : option string)
    (overrides : Overrides) (flags : Flags) (a : A) (fs : F) : result (Booted D) string * A * F :=
  match Root.discover cwd root_flag fs with
  | None => (boot_no_root config_flag profile overrides fs, a, fs)
  | Some root =>
      match boot_inputs root config_flag profile overrides a fs with
      | (Err e, a) => (Err e, a, fs)
      | (Ok inputs, a) => boot_root root inputs flags a fs
      end
  end.

Definition boot (cwd : Path) (root_flag config_flag : option Path) (profile : option string)
    (flags : Flags) (a : A) (fs : F) : result (Booted D) string * A * F :=
  boot_with cwd root_flag config_flag profile [] flags a fs.

End boot.

Module BootFacts.
Import ResolveFacts.
Import GateFacts.
Import CapSet.
Import CapSetFacts.
Import ConsentFacts.

(** Setting the program and the arguments changes neither capabilities nor
    bounds. *)
Lemma attenuation_same c c' parent :
  Config.caps c' = Config.caps c → budget c' = budget c → numeric c' = numeric c →
  check_attenuation c' parent = check_attenuation c parent.
Proof. unfold check_attenuation. by intros -> -> ->. Qed.

(** An attenuated configuration holds no more than its parent. *)
Lemma attenuation_holds c parent want :
  clean_grants (Config.caps parent) → clean_denies (Config.caps c) →
  check_attenuation c parent = Ok tt →
  holds (CapSet.root (Config.caps c)) want = true → holds (CapSet.root (Config.caps parent)) want = true.
Proof.
  unfold check_attenuation, attenuate. intros Hg Hd Hc.
  destruct (attenuate_held_by _ _ _ _) as [child|] eqn:E; [|done]. intros Hw.
  apply (attenuate_narrows (CapSet.root (Config.caps parent)) None "attenuation-check" (Config.caps c) child want);
    try done.
  by apply attenuate_inv in E as [-> _].
Qed.

Section facts.
Context {A F D : Type} `{!Ask A, !AskLaws A, !Backend F}.
Context `{RootText} `{Build} `{Stdlib} `{Clock}.
Context `{JsonText} `{Digest} `{ScopeJson} `{ScopeEq}.
Variable load : Path → F → result RootConfig string.
Variable wire : RootConfig → result D string.
Variable connector_time : bool.

(** What a root's files say, where they are there and can be read. *)
Definition project_on (root : Root.Root) (fs : F) : option ProjectJson :=
  (Root.read_json read_project (Root.project_json root) [] fs).1.
Definition consent_on (root : Root.Root) (fs : F) : option ConsentJson :=
  (Root.read_json read_consent (Root.consent_json root) [] fs).1.

Lemma read_json_fst {T} (reader : string → result T string) path soft (fs : F) :
  (Root.read_json reader path soft fs).1 = (Root.read_json reader path [] fs).1.
Proof. unfold Root.read_json. by repeat case_match. Qed.

Lemma read_root root req ovs (fs : F) :
  let inputs := (Root.read root req ovs fs).1 in
  in_requested inputs = req ∧ in_overrides inputs = ovs
  ∧ ∃ rooted, in_root inputs = Some rooted ∧ in_project rooted = project_on root fs
      ∧ in_consent rooted = consent_on root fs.
Proof.
  unfold Root.read, project_on, consent_on.
  destruct (Root.read_json read_project _ _ fs) as [project soft] eqn:E1.
  pose proof (read_json_fst read_consent (Root.consent_json root) soft fs) as Hc.
  destruct (Root.read_json read_consent _ soft fs) as [consent soft2] eqn:E2.
  destruct (Root.read_profiles _ _ _ _ fs) as [profiles soft3]. simpl in *.
  split_and!; [done|done|]. eexists. split; [done|]. done.
Qed.

Lemma say_lines pre lines (a : A) :
  interactive (foldl (λ a line, say (pre +:+ line) a) a lines) = interactive a.
Proof. revert a; induction lines as [|l lines IH]; intros a; [done|]. simpl. by rewrite IH, say_interactive. Qed.

Lemma boot_inputs_spec root config_flag profile ovs (a : A) (fs : F) inputs a' :
  boot_inputs load root config_flag profile ovs a fs = (Ok inputs, a') →
  interactive a' = interactive a
  ∧ in_requested inputs = match profile with Some n => ReqProfile n | None => ReqDefault end
  ∧ ∃ rooted, in_root inputs = Some rooted ∧ in_project rooted = project_on root fs
      ∧ in_consent rooted = consent_on root fs.
Proof.
  unfold boot_inputs. set (req := match profile with Some n => ReqProfile n | None => ReqDefault end).
  destruct (read_root root req ovs fs) as (Hreq & _ & Hroot).
  destruct (Root.read root req ovs fs) as [inp soft]. simpl in *.
  assert (Hi : interactive (foldl (λ a line, say ("drt start: " +:+ line) a) a soft) = interactive a)
    by apply say_lines.
  destruct config_flag as [path|].
  - destruct (load path fs) as [flag|e]; [|done]. intros [= <- <-]. simpl. done.
  - intros [= <- <-]. done.
Qed.

Lemma profile_config_spec root rooted res project (fs : F) config runnable deployment :
  profile_config root rooted res project fs = Ok (config, runnable, deployment) →
  ∃ d cfg, r_profile res = Some d
    ∧ bt_get (K := string) (ProfileName.filename (value d)) (in_profiles rooted) = Some cfg
    ∧ Config.caps (rc_root config) = Config.caps (rc_root cfg)
    ∧ budget (rc_root config) = budget (rc_root cfg) ∧ numeric (rc_root config) = numeric (rc_root cfg).
Proof.
  unfold profile_config. destruct (r_profile res) as [d|]; [|done].
  destruct (bt_get _ _) as [cfg|] eqn:Hc; [|done]. destruct (r_entry res) as [e|]; [|done].
  intros (run & Hrun & Hok)%rbind_Ok. exists d, cfg. split; [done|]. split; [done|].
  destruct run; by injection Hok as <- _ _.
Qed.

Lemma resolve_project_profile project rooted : r_profile (resolve_project project rooted) = None.
Proof.
  unfold resolve_project, check_pin.
  rewrite (surjective_pairing (ProjectJson.declared_profiles project)). simpl.
  by repeat case_match.
Qed.

(** The profile an unblocked resolution hands on attenuates under the
    ceiling. *)
Lemma handed_on_within inputs rooted project d cfg :
  in_root inputs = Some rooted → in_project rooted = Some project →
  blocker (resolve inputs) = None → r_profile (resolve inputs) = Some d →
  bt_get (K := string) (ProfileName.filename (value d)) (in_profiles rooted) = Some cfg →
  check_attenuation (rc_root cfg) (ceiling_parent project) = Ok tt.
Proof.
  intros Hr Hp Hb Hd Hcfg.
  destruct (unblocked_root inputs rooted project Hr Hp Hb) as (_ & _ & _ & Hall & Hask).
  destruct (asked project (in_requested inputs)) as [n|] eqn:Hn.
  - destruct (Hask n eq_refl) as (config & Hrun & Hprof & _).
    rewrite Hprof in Hd. injection Hd as <-. simpl in Hcfg.
    destruct Hrun as (_ & f & Hdecl & _). pose proof (declares_name _ _ _ Hdecl) as [-> _].
    destruct Hdecl as [Hin _]. destruct (Hall _ Hin) as (m & _ & _ & Hatt). by apply Hatt.
  - destruct (resolve_cases inputs rooted project Hr Hp) as [(_ & _ & Hnone & _)|[(m & Hm & _)|(m & c & Hm & _)]].
    + rewrite Hnone, resolve_project_profile in Hd. done.
    + congruence.
    + destruct Hm as [Hm _]. congruence.
Qed.

Lemma under_flag_within flag project config c :
  check_attenuation (rc_root config) (ceiling_parent project) = Ok tt →
  under_flag flag project config = Ok c →
  check_attenuation (rc_root c) (ceiling_parent project) = Ok tt.
Proof.
  intros Hc. unfold under_flag. destruct flag as [f|]; [|by intros [= <-]].
  destruct (check_attenuation (rc_root f) _) as [[]|] eqn:E; [|done]. by intros [= <-].
Qed.

Lemma nesting_keeps root policy (a : A) (fs : F) r a' :
  nesting root policy a fs = (r, a') → interactive a' = interactive a.
Proof.
  unfold nesting. destruct (Root.nesting root policy fs); intros [= <- <-]; by rewrite ?say_interactive.
Qed.

(** What a boot inside a root does to the files, and what it hands on. *)
Lemma boot_root_cases root inputs flags rooted (a : A) (fs : F) r a' fs' :
  in_root inputs = Some rooted →
  boot_root wire root inputs flags a fs = (r, a', fs') →
  (fs' = fs ∧ ((∃ e, r = Err e) ∨ ∃ b native, r = Ok b ∧ b_runnable b = Some (RunNative native)
      ∧ ∃ project, in_project rooted = Some project ∧ Project.caps project ≠ []
          ∧ check_attenuation (rc_root (b_config b)) (ceiling_parent project) = Ok tt))
  ∨ ∃ project a0 g a1, in_project rooted = Some project ∧ interactive a0 = interactive a
      ∧ gate root project (in_consent rooted) flags a0 fs = (g, a1, fs')
      ∧ ∀ b, r = Ok b → g = Ok tt ∧ Project.caps project ≠ []
          ∧ check_attenuation (rc_root (b_config b)) (ceiling_parent project) = Ok tt.
Proof.
  intros Hr. unfold boot_root. destruct (blocker (resolve inputs)) as [f|] eqn:Hb.
  { intros [= <- <- <-]. left. eauto. }
  rewrite Hr. destruct (in_project rooted) as [project|] eqn:Hp.
  2: { intros [= <- <- <-]. left. eauto. }
  destruct (nesting root (allow_nested project) a fs) as [[[]|e] a0] eqn:Hn.
  2: { intros [= <- <- <-]. left. eauto. }
  apply nesting_keeps in Hn.
  destruct (profile_config root rooted (resolve inputs) project fs) as [[[config run] dep]|e] eqn:Hpc.
  2: { intros [= <- <- <-]. left. eauto. }
  apply profile_config_spec in Hpc as (d & cfg & Hd & Hcfg & Hcaps & Hbud & Hnum).
  assert (Hwithin : check_attenuation (rc_root config) (ceiling_parent project) = Ok tt).
  { rewrite (attenuation_same (rc_root cfg)) by done. by apply (handed_on_within inputs rooted project d). }
  assert (Hne : Project.caps project ≠ []).
  { by destruct (unblocked_root inputs rooted project Hr Hp Hb) as ((_ & ?) & _). }
  destruct run as [p|native].
  - destruct (gate root project (in_consent rooted) flags a0 fs) as [[g a1] fs1] eqn:Hg.
    intros Hb2. right. exists project, a0, g, a1.
    destruct g as [[]|e]; cbn [rbind] in Hb2.
    + destruct (under_flag _ _ _) as [c|e] eqn:Hu; cbn [rbind] in Hb2; [|injection Hb2 as <- <- <-; by split_and!].
      destruct (wire c) as [disp|e]; cbn [rbind] in Hb2; injection Hb2 as <- <- <-; [|by split_and!].
      split_and!; try done. intros b [= <-]. simpl. split_and!; [done..|].
      by eapply under_flag_within.
    + injection Hb2 as <- <- <-. by split_and!.
  - cbn [rbind]. intros Hb2. left.
    destruct (under_flag _ _ _) as [c|e] eqn:Hu; cbn [rbind] in Hb2; [|injection Hb2 as <- <- <-; by eauto].
    destruct (wire c) as [disp|e]; cbn [rbind] in Hb2; injection Hb2 as <- <- <-; [|by eauto].
    split; [done|]. right. do 2 eexists. split; [done|]. split; [done|].
    exists project. split_and!; [done..|]. by eapply under_flag_within.
Qed.


(** A boot writes nothing but an acceptance its gate approved. *)
Theorem boot_writes cwd root_flag config_flag profile ovs flags (a : A) (fs : F) :
  let '(_, _, fs') := boot_with load wire connector_time cwd root_flag config_flag profile ovs flags a fs in
  fs' = fs
  ∨ ∃ root project a0 c h, Root.discover cwd root_flag fs = Some root
      ∧ project_on root fs = Some project ∧ interactive a0 = interactive a
      ∧ check project (consent_on root fs) = Ok c ∧ approved project flags a0 c ∧ answer_hash c = Some h
      ∧ fs' = (write_entry root project (consent_on root fs) h fs).2.
Proof.
  destruct (boot_with _ _ _ _ _ _ _ _ _ _ _) as [[r a'] fs'] eqn:Hboot. unfold boot_with in Hboot.
  destruct (Root.discover cwd root_flag fs) as [root|] eqn:Hd; [|injection Hboot as <- <- <-; by left].
  destruct (boot_inputs _ _ _ _ _ _ _) as [[inputs|e] a0] eqn:Hi; [|injection Hboot as <- <- <-; by left].
  apply boot_inputs_spec in Hi as (Ha0 & _ & rooted & Hr & Hp & Hc).
  apply (boot_root_cases root inputs flags rooted) in Hboot; [|done].
  destruct Hboot as [[-> _]|(project & a1 & g & a2 & Hproj & Ha1 & Hg & _)]; [by left|].
  apply gate_cases in Hg. destruct (check project (in_consent rooted)) as [c|e] eqn:Hcheck.
  2: { left. apply Hg. }
  destruct Hg as [[Happ Hw]|(_ & _ & ->)]; [|by left].
  destruct (answer_hash c) as [h|] eqn:Hh; [|left; apply Hw].
  right. exists root, project, a1, c, h. rewrite <-Hp, <-Hc, Hcheck, Hw. split_and!; try done. congruence.
Qed.

(** A configuration named on the command line inside a root is handed on as
    it is: neither the arguments resolution merged nor the program it found
    reach it. *)
Theorem config_flag_replaces root inputs flags (a a' : A) (fs fs' : F) b flag :
  in_config_flag inputs = Some flag →
  boot_root wire root inputs flags a fs = (Ok b, a', fs') →
  b_config b = flag ∧ b_resolution b = Some (resolve inputs).
Proof.
  intros Hf. unfold boot_root.
  destruct (blocker (resolve inputs)); [done|]. destruct (in_root inputs) as [rooted|]; [|done].
  destruct (in_project rooted) as [project|]; [|done].
  destruct (nesting _ _ a fs) as [[[]|e] a0]; [|done].
  destruct (profile_config _ _ _ _ fs) as [[[config run] dep]|e]; [|done].
  destruct (match run with RunProgram _ => _ | RunNative _ => _ end) as [[[[]|e] a1] fs1]; [|done].
  cbn [rbind]. unfold under_flag. rewrite Hf.
  destruct (check_attenuation (rc_root flag) _); [|done]. cbn [rbind].
  destruct (wire flag); [|done]. cbn [rbind]. by intros [= <- _ _].
Qed.

(** A consent file that is there and cannot be read counts as none: with
    [-y], and nobody there, the declared ceiling is accepted as a first one,
    whatever had been accepted, and the signers and the other realms' entries
    of the file are gone. *)
Theorem yes_forgets root project flags (a : A) (fs : F) text e :
  read_to_string (Root.consent_json root) fs = Ok text → read_consent text = Err e →
  yes flags = true → Project.caps project ≠ [] →
  ∀ h, ceiling_hash project = Ok h →
  gate root project (consent_on root fs) flags a fs
  = (let '(r, fs') := Root.write_consent root
       {| consent_root_id := root_id project;
          accepted := [Listed Realm.Realm.root h (declared_ceiling project) now];
          signers := []; consent_peers := [] |} fs in (r, a, fs')).
Proof.
  intros Ht He Hy Hne h Hh. assert (Hnone : consent_on root fs = None).
  { unfold consent_on, Root.read_json. by rewrite Ht, He. }
  rewrite Hnone. unfold gate, check. rewrite bool_decide_false by done. rewrite Hh. cbn [map_err rbind].
  rewrite Hy. reflexivity.
Qed.

End facts.
End BootFacts.
