(* ===== verification/BootDemo.v ===== *)
(** * Resolution, the gate and a boot at concrete inputs

    A filesystem that is a list of files, an operator who is not there, one
    root with two profiles, and the theorems applied to them. *)

From stdpp Require Import gmap.
From S2P Require Import Prelude.
From S2P Require Import Bytes.
From S2P Require Import Value.
From S2P Require Import Caps.
From S2P Require Import Config.
From S2P Require Import Id.
From S2P Require Import Time.
From S2P Require Import Realm.
From S2P Require Import Canon.
From S2P Require Import Sign.
From S2P Require Import Project.
From S2P Require Import Consent.
From S2P Require Import ConsentDemo.
From S2P Require Import Args.
From S2P Require Import Resolve.
From S2P Require Import ResolveSpec.
From S2P Require Import Backend.
From S2P Require Import Root.
From S2P Require Import Gate.
From S2P Require Import Deploy.
From S2P Require Import Boot.

#[local] Existing Instance plain_text.
#[local] Existing Instance plain_digest.
#[local] Existing Instance text_scopes.
#[local] Existing Instance text_scope_eq.

(** ** Files in a list *)

Abbreviation Files := (list (Path * bytes)).

Definition file_at (p : Path) (fs : Files) : option bytes :=
  kv ← find_first (λ kv, bool_decide (kv.1 = p)) fs; Some kv.2.
Definition above_file (p : Path) (fs : Files) : bool :=
  existsb (λ kv, bool_decide (p `prefix_of` kv.1) && negb (bool_decide (p = kv.1))) fs.

#[local] Instance files_backend : Backend Files := {|
  canonicalize p fs := Ok p;
  metadata p fs :=
    if above_file p fs then Ok (MkMetadata 0 true)
    else match file_at p fs with
         | Some bs => Ok (MkMetadata (N.of_nat (length bs)) false)
         | None => Err (MkIoError NotFound p)
         end;
  read p fs := match file_at p fs with Some bs => Ok bs | None => Err (MkIoError NotFound p) end;
  write p bs append fs := (Ok tt, (p, bs) :: fs);
  read_dir p fs := Ok (remove_dups (omap (λ kv, n ← head (drop (length p) kv.1);
      if bool_decide (p `prefix_of` kv.1) then match n with Normal n => Some n | _ => None end else None) fs));
  remove_file p fs := (Ok tt, filter (λ kv, kv.1 ≠ p) fs);
  create_dir_all p fs := (Ok tt, fs);
  remove_dir_all p fs := (Ok tt, filter (λ kv, ¬ p `prefix_of` kv.1) fs);
  io_text e := path_text (io_path e);
|}.

(** ** Nobody there *)
Inductive Nobody := nobody.
#[local] Instance nobody_ask : Ask Nobody := {|
  interactive _ := false; say _ a := a; ask_confirm _ a := (Ok true, a) |}.
#[local] Instance nobody_laws : AskLaws Nobody.
Proof. done. Qed.

#[local] Instance noon : Clock := {| now := 43200%Z |}.
#[local] Instance dev_build : Build := {| release_tag := Some "v0.6.0-rc.2"; crate_version := "0.6.0" |}.
#[local] Instance no_stdlib : Stdlib := {| carried_source _ := None |}.

(** ** One root *)

Definition staged : ProjectJson :=
  {| project_name := Some "demo"; project_version := None; root_id := demo_id; duplicated_from := None;
     drt := Some "0.6.0rc2"; Project.caps := [grant "host:fs/read"; deny "host:fs/remove"]; peers := [];
     allow_nested := Warn; sources := []; require_signatures := true; default_profile := Some "main";
     profiles := ["main.config.json"; "wide.config.json"] |}.

Definition profile_of (gs : list Grant) : RootConfig :=
  MkRootConfig (MkInstanceConfig None gs (MkBudget None None) (MkNumeric None None)) None
    (Some (EntryFile "app.dlua")) [("port", ArgInt 80)] [].

Definition rooted_of (wide_caps : list Grant) : RootInputs :=
  MkRootInputs (Some staged) None
    [("main.config.json", profile_of [grant "host:fs/read"; deny "host:fs/remove"]);
     ("wide.config.json", profile_of wide_caps)]
    ["main.config.json"; "stray.config.json"; "wide.config.json"] [] ["app.dlua"]
    (Some "0.6.0-rc.2").
Definition inputs_of (wide_caps : list Grant) : ResolveInputs :=
  MkResolveInputs (Some (rooted_of wide_caps)) None ReqDefault [("port", Some "8080")] [].

Lemma resolve_reports_witness :
  let inputs := inputs_of [grant "host:*"] in
  let root := rooted_of [grant "host:*"] in
  in_root inputs = Some root ∧ in_project root = Some staged
  ∧ UndeclaredProfilePresent "stray.config.json" ∈ r_findings (resolve inputs)
  ∧ ∀ f, f ∈ r_findings (resolve inputs) ↔
      ResolveFacts.root_reason staged root f ∨ ResolveFacts.run_reason inputs staged root f.
Proof.
  intros inputs root. split; [reflexivity|]. split; [reflexivity|].
  pose proof (ResolveFacts.resolve_reports inputs root staged eq_refl eq_refl) as Hall.
  split; [|exact Hall]. apply Hall. left. split; [by right; left|].
  intros (n & Hin & _). repeat apply elem_of_cons in Hin as [[=]|Hin]. by apply not_elem_of_nil in Hin.
Defined.

Lemma start_is_bounded_witness :
  let caps := [grant "host:fs/read"; deny "host:fs/remove"] in
  blocker (resolve (inputs_of caps)) = None
  ∧ r_ceiling (resolve (inputs_of caps)) = Some (MkDecided (Project.caps staged) RuleProjectCeiling).
Proof.
  intros caps.
  assert (Hb : blocker (resolve (inputs_of caps)) = None) by (vm_compute; reflexivity).
  split; [exact Hb|].
  exact (proj1 (proj1 (ResolveFacts.start_is_bounded (inputs_of caps) (rooted_of caps) staged
                         eq_refl eq_refl Hb))).
Defined.

Lemma fallback_says_nothing_witness :
  let inputs := MkResolveInputs (Some (MkRootInputs None None [] [] [] [] None)) None ReqDefault []
                  ["debug.config.json"; "app.dlua"] in
  fallback (in_cwd inputs) = Some "debug.config.json"
  ∧ resolve inputs = default_resolution ∧ blocker (resolve inputs) = None.
Proof.
  split; [reflexivity|].
  apply (ResolveFacts.fallback_says_nothing _ (MkRootInputs None None [] [] [] [] None) "debug.config.json");
    reflexivity.
Defined.

(** ** The root's files *)

#[local] Instance demo_text : RootText := {|
  read_project s := if bool_decide (s = "P") then Ok staged else Err "not a descriptor";
  read_consent s := if bool_decide (s = "C") then Ok (consent_of (hash_of wide) wide) else Err "expected a value";
  read_profile s := Ok (profile_of [grant "host:fs/read"; deny "host:fs/remove"]);
  print_consent _ := Ok "C'";
|}.

Definition here : Path := path_of "/srv/demo".
Definition demo_root : Root.Root := Root.MkRoot here.

Definition files_with (consent : string) : Files :=
  (λ kv, (path_of kv.1, as_bytes kv.2)) <$>
    [("/srv/demo/.drt_root/project.json", "P");
     ("/srv/demo/.drt_root/consent.json", consent);
     ("/srv/demo/.drt_root/profile/main.config.json", "M");
     ("/srv/demo/.drt_root/profile/wide.config.json", "W");
     ("/srv/demo/.drt_root/init/app.dlua", "")].

Abbreviation demo_boot := (λ (flags : Flags) (fs : Files),
  boot_with (λ _ _, Err "no such file" : result _ string) (λ _, Ok tt) true here None None None [] flags nobody fs).


Lemma unattended_never_widens_witness :
  ∃ a' fs', gate demo_root staged (Some (consent_of (hash_of wide) wide)) (MkFlags true false) nobody
              (files_with "C") = (Ok tt, a', fs')
    ∧ (∀ want, ConsentFacts.ceiling_holds (declared_ceiling staged) want = true →
               ConsentFacts.ceiling_holds wide want = true)
    ∧ DeclaredCeiling.roles (declared_ceiling staged) ⊆ DeclaredCeiling.roles wide.
Proof.
  destruct (gate demo_root staged (Some (consent_of (hash_of wide) wide)) (MkFlags true false) nobody
              (files_with "C")) as [[[[]|e] a'] fs'] eqn:E.
  2: { exfalso. vm_compute in E. discriminate. }
  exists a', fs'. split; [reflexivity|].
  apply (GateFacts.unattended_never_widens demo_root staged (consent_of (hash_of wide) wide)
           (MkFlags true false) nobody a' (files_with "C") fs' Realm.root (hash_of wide) wide 0%Z).
  - apply text_scopes_wf.
  - intros v v' _ _. apply no_collision.
  - by refine (singleton_clean (λ g, is_grant g = true → clean (capability g) = true)
               (grant "host:fs/*") (deny "host:fs/remove") _ _).
  - by refine (singleton_clean (λ g, is_deny g = true → clean (capability g) = true)
               (grant "host:fs/read") (deny "host:fs/remove") _ _).
  - reflexivity.
  - vm_compute. reflexivity.
  - reflexivity.
  - reflexivity.
  - exact E.
Defined.

Lemma yes_forgets_witness :
  BootFacts.consent_on demo_root (files_with "C") = Some (consent_of (hash_of wide) wide)
  ∧ ∃ h, gate demo_root staged (BootFacts.consent_on demo_root (files_with "{")) (MkFlags true false) nobody
           (files_with "{")
         = (let '(r, fs') := Root.write_consent demo_root
              {| consent_root_id := root_id staged;
                 accepted := [Listed Realm.root h (declared_ceiling staged) now];
                 signers := []; consent_peers := [] |} (files_with "{") in (r, nobody, fs')).
Proof.
  split; [vm_compute; reflexivity|].
  destruct (ceiling_hash staged) as [h|e] eqn:E; [|exfalso; vm_compute in E; discriminate].
  exists h. apply (BootFacts.yes_forgets demo_root staged (MkFlags true false) nobody (files_with "{")
                     "{" "expected a value"); [vm_compute; reflexivity|reflexivity|reflexivity|done|exact E].
Defined.

(** With the consent file whole, the same flags refuse a ceiling wider than
    the accepted one; with it cut short, they take it. *)
Definition widened : ProjectJson := project_of [grant "host:*"] [].

Example broken_consent_takes_more :
  let run consent := (gate (F := Files) demo_root widened (BootFacts.consent_on demo_root (files_with consent))
                        (MkFlags true false) nobody (files_with consent)).1.1 in
  is_ok (run "C") = false ∧ run "{" = Ok tt.
Proof. vm_compute. split; reflexivity. Qed.
