(* ===== verification/Rest.v ===== *)
(** * Outbound HTTP: what a guest may ask of which origin
    ([connectors/rest/src/lib.rs])

    URLs, the scope and its refusals, the addresses a guest is kept from,
    and the request as it is written to the socket.  The exchange is in
    [RestBody]. *)

From S2P Require Import Prelude.
From S2P Require Import Bytes.
From S2P Require Import Value.
From S2P Require Import Node.
From S2P Require Import Caps.
From S2P Require Import Connector.
From S2P Require Import Reach.

(** The process's environment, [std::env::var]; the PEM files a scope names
    and what the TLS library makes of them; the derived readers of the
    connector's arguments. *)
Class Env := env_var : string → option string.

Class Pem := {
  Cert : Type;
  pem_file : string → result (list (result Cert string)) string;
  unparsable : list Cert → N;
}.

(** ** Bounds *)
Module Rest.

Definition MAX_BODY : N := 16 * 1024 * 1024.
Definition DEFAULT_MS : N := 15000.
Definition MAX_MS : N := 120000.
Definition RESP_HDRS : nat := 32.
Definition RESP_NAME_MAX : nat := 64.
Definition RESP_VAL_MAX : nat := 4096.
Definition REQ_HEADERS : nat := 64.

Abbreviation Headers := (btree string string).

Definition lowercase : string → string := Reach.Scope.lowercase.
Definition CR : ascii := of_byte 13.
Definition LF : ascii := of_byte 10.
Definition crlf : string := String CR (String LF "").

(** ** URLs *)
Module Url.

Record Url := MkUrl { tls : bool; host : string; port : N; path : string }.

(** [str::trim_matches] of the two brackets. *)
Fixpoint trim_brackets (s : bytes) : bytes :=
  match s with
  | c :: s' => if bool_decide (c = "["%char ∨ c = "]"%char) then trim_brackets s' else s
  | [] => []
  end.
Definition unbracket (s : string) : string :=
  of_bytes (reverse (trim_brackets (reverse (trim_brackets (as_bytes s))))).

Definition scheme_of (raw : string) : result (bool * string) string :=
  match strip_prefix "https://" raw with
  | Some r => Ok (true, r)
  | None => match strip_prefix "http://" raw with
            | Some r => Ok (false, r)
            | None => Err "the url must begin http:// or https://"
            end
  end.

(** At the first slash; a URL without one asks for the root. *)
Definition authority_of (rest : string) : string * string :=
  match split_once "/" rest with
  | Some (a, p) => (a, String "/" p)
  | None => (rest, "/")
  end.

Definition default_port (tls : bool) : N := if tls then 443 else 80.

Definition port_of (tls : bool) (authority : string) : result (string * N) string :=
  match rsplit_once ":" authority with
  | Some (h, p) =>
      if negb (bool_decide (as_bytes "]" `suffix_of` as_bytes authority)) && negb (str_is_empty h) then
        match parse_unsigned 65536 p with
        | Some n => Ok (h, n)
        | None => Err ("the url's port is not a number: '" +:+ p +:+ "'")
        end
      else Ok (authority, default_port tls)
  | None => Ok (authority, default_port tls)
  end.

Definition parse (raw : string) : result Url string :=
  sr ←? scheme_of raw;
  let '(tls, rest) := sr in
  let '(authority, path) := authority_of rest in
  if str_is_empty authority then Err "the url names no host"
  else if contains_char "@" authority then
    Err "the url carries userinfo, which this connector refuses"
  else
    hp ←? port_of tls authority;
    Ok (MkUrl tls (unbracket hp.1) hp.2 path).

Definition origin (u : Url) : string :=
  (if tls u then "https" else "http") +:+ "://" +:+ host u +:+ ":" +:+ dec (port u).
End Url.

(** ** The scope *)

(** Headers the connector owns. *)
Definition is_reserved (lower : string) : bool :=
  bool_decide (lower ∈ ["host"; "connection"; "content-length"; "transfer-encoding"]).

(** The octets of a V4 address. *)
Definition octet0 (a : N) : N := a / 2 ^ 24.
Definition octet1 (a : N) : N := (a / 2 ^ 16) `mod` 256.

(** [Ipv4Addr::is_private], [is_documentation]. *)
Definition v4_is_private (a : N) : bool :=
  bool_decide (octet0 a = 10)%N
  || (bool_decide (octet0 a = 172)%N && in_range 16 31 (octet1 a))
  || (bool_decide (octet0 a = 192)%N && bool_decide (octet1 a = 168)%N).
Definition v4_is_documentation (a : N) : bool :=
  bool_decide (a / 2 ^ 8 = (192 * 256 + 0) * 256 + 2)%N
  || bool_decide (a / 2 ^ 8 = (198 * 256 + 51) * 256 + 100)%N
  || bool_decide (a / 2 ^ 8 = (203 * 256 + 0) * 256 + 113)%N.

Definition private_v4 (a : N) : bool :=
  v4_is_private a || v4_is_loopback a || v4_is_link_local a || v4_is_broadcast a
  || v4_is_documentation a || v4_is_unspecified a
  || bool_decide (octet0 a = 0)%N
  || (bool_decide (octet0 a = 100)%N && in_range 64 127 (octet1 a))
  || (bool_decide (octet0 a = 198)%N && (bool_decide (octet1 a = 18)%N || bool_decide (octet1 a = 19)%N))
  || bool_decide (240 ≤ octet0 a)%N.

Definition is_private (ip : IpAddr) : bool :=
  match ip with
  | V4 a => private_v4 a
  | V6 a =>
      v6_is_loopback a || v6_is_unspecified a
      || bool_decide (N.land (a / 2 ^ 112) 65472 = 65152)%N
      || bool_decide (N.land (a / 2 ^ 120) 254 = 252)%N
      || match to_ipv4_mapped a with Some m => private_v4 m | None => false end
  end.

(** One granted origin and its header terms; [None] lets the guest set any
    header that is nobody's. *)
Record AllowEntry := MkAllowEntry {
  origin : Url.Url;
  headers : Headers;
  allow_headers : option (list string);
}.

Definition guest_may_set (e : AllowEntry) (lower : string) : bool :=
  match bt_get (K := string) lower (headers e) with
  | Some _ => false
  | None => match allow_headers e with
            | Some set => bool_decide (lower ∈ set)
            | None => true
            end
  end.

(** The shapes a scope is written in. *)
Inductive HeaderValue := Text (v : string) | EnvValue (env : string).
Inductive EntryShape :=
  | Origin (o : string)
  | Table (o : string) (hs : btree string HeaderValue) (allow : option (list string)).
Inductive ScopeShape :=
  | One (s : string)
  | Many (v : list EntryShape)
  | Full (allow : list EntryShape) (allow_private : bool) (extra_roots : list string).

Record GetArgs := MkGetArgs { ga_url : string; ga_headers : option Headers; ga_timeout : option N }.
Record PostArgs := MkPostArgs {
  pa_url : string; pa_headers : option Headers; pa_body : option Value; pa_timeout : option N }.

Class RestWire := {
  shape_from_value : Value → result ScopeShape string;
  get_args_from_value : Value → result GetArgs string;
  post_args_from_value : Value → result PostArgs string;
}.

Section scope.
Context `{!Env} `{!Pem} `{!RestWire}.

Record RestScope := MkRestScope {
  allow : list AllowEntry;
  extra_roots : list Cert;
  allow_private : bool;
}.

Definition empty_scope : RestScope := MkRestScope [] [] false.

Definition resolve_value (v : HeaderValue) (origin name : string) : result string string :=
  match v with
  | Text v => Ok v
  | EnvValue env =>
      match env_var env with
      | Some v => Ok v
      | None => Err ("allow entry '" +:+ origin +:+ "': header '" +:+ name
                     +:+ "' names env var '" +:+ env +:+ "', which is not set")
      end
  end.

(** [load_roots]: every certificate of every file, or the file that has one
    that cannot be used. *)
Fixpoint load_roots (paths : list string) : result (list Cert) string :=
  match paths with
  | [] => Ok []
  | name :: paths =>
      let named e := "extra_roots '" +:+ name +:+ "': " +:+ e in
      read ←? map_err named (pem_file name);
      certs ←? map_err named (try_map (λ c, c) read);
      if bool_decide (certs = []) then Err (named "no certificate in it")
      else if bool_decide (0 < unparsable certs)%N then
        Err (named (dec (unparsable certs) +:+ " certificate(s) are not usable as trust anchors"))
      else r ←? load_roots paths; Ok (certs ++ r)
  end.

Definition has_newline (s : string) : bool := contains_char CR s || contains_char LF s.

(** The loop over an entry's injected headers. *)
Fixpoint lower_headers (raw_origin : string) (hs : btree string HeaderValue) (lowered : Headers) :
    result Headers string :=
  match hs with
  | [] => Ok lowered
  | (k, v) :: hs =>
      v ←? resolve_value v raw_origin k;
      let lk := lowercase k in
      if str_is_empty lk || has_newline lk || contains_char ":" lk || has_newline v then
        Err ("allow entry '" +:+ raw_origin +:+ "': header '" +:+ k +:+ "' contains a forbidden character")
      else if is_reserved lk then
        Err ("allow entry '" +:+ raw_origin +:+ "': header '" +:+ k +:+ "' is set by the connector")
      else lower_headers raw_origin hs (bt_insert (K := string) lk v lowered)
  end.

Definition entry_of (e : EntryShape) : result AllowEntry string :=
  let '(raw_origin, hs, allow) :=
    match e with Origin o => (o, [], None) | Table o hs allow => (o, hs, allow) end in
  origin ←? map_err (λ e, "allow entry '" +:+ raw_origin +:+ "': " +:+ e) (Url.parse raw_origin);
  lowered ←? lower_headers raw_origin hs [];
  Ok (MkAllowEntry origin lowered ((λ l : list string, lowercase <$> l) <$> allow)).

(** [RestScope::parse]: no scope grants nothing. *)
Definition parse (scope : option Scope) : result RestScope string :=
  match scope with
  | None => Ok empty_scope
  | Some s =>
      shape ←? map_err (λ e, "the rest scope is not an origin, a list of them, or {allow, allow_private}: " +:+ e)
                 (shape_from_value (scope_value s));
      let '(raw, private, files) :=
        match shape with
        | One s => ([Origin s], false, [])
        | Many v => (v, false, [])
        | Full allow private roots => (allow, private, roots)
        end in
      roots ←? load_roots files;
      allow ←? try_map entry_of raw;
      Ok (MkRestScope allow roots private)
  end.

(** [matching]: the first entry of the URL's origin; a wildcard is a strict
    subdomain. *)
Definition host_matches (pattern host : string) : bool :=
  match strip_prefix "*." pattern with
  | Some suffix =>
      match strip_suffix suffix host with
      | Some p => bool_decide (as_bytes "." `suffix_of` as_bytes p) && bool_decide (1 < str_len p)
      | None => false
      end
  | None => eq_ignore_ascii_case pattern host
  end.

Definition covers (url : Url.Url) (a : AllowEntry) : bool :=
  bool_decide (Url.tls (origin a) = Url.tls url)
  && bool_decide (Url.port (origin a) = Url.port url)
  && host_matches (Url.host (origin a)) (Url.host url).

Definition matching (sc : RestScope) (url : Url.Url) : option AllowEntry :=
  find_first (covers url) (allow sc).

Definition is_empty (sc : RestScope) : bool := bool_decide (allow sc = []).
Definition permits (sc : RestScope) (url : Url.Url) : bool := bool_decide (is_Some (matching sc url)).
Definition permits_address (sc : RestScope) (ip : IpAddr) : bool :=
  if allow_private sc then true else negb (is_private ip).

(** [RestScopeType]. *)
Definition describe : string :=
  let q := String (of_byte 34) "" in
  "allowed origins: " +:+ q +:+ "https://api.example.com" +:+ q
  +:+ ", a list of them, or {allow: [...], allow_private?: bool}".
Definition validate (scope : option Scope) : result unit string :=
  sc ←? parse scope;
  if is_empty sc then
    Err ("the rest scope grants no origins, so every call would be refused; name at least one, e.g. "
         +:+ String (of_byte 34) "https://api.example.com" +:+ String (of_byte 34) "")
  else Ok tt.

(** ** The request *)

Definition named_agent (hs : option Headers) (entry : AllowEntry) : bool :=
  existsb (λ k, eq_ignore_ascii_case k "user-agent") (bt_keys (default [] hs))
  || existsb (λ k, eq_ignore_ascii_case k "user-agent") (bt_keys (headers entry)).

Definition line (name value : string) : string := name +:+ ": " +:+ value +:+ crlf.

Definition host_value (url : Url.Url) : string :=
  if bool_decide (Url.port url = Url.default_port (Url.tls url)) then Url.host url
  else Url.host url +:+ ":" +:+ dec (Url.port url).

(** The loop over the guest's headers. *)
Fixpoint guest_lines (entry : AllowEntry) (h : Headers) : result string string :=
  match h with
  | [] => Ok ""
  | (name, value) :: h =>
      let lower := lowercase name in
      if str_is_empty name || has_newline name || contains_char ":" name || has_newline value then
        Err ("header '" +:+ name +:+ "' contains a forbidden character")
      else if is_reserved lower then Err ("header '" +:+ name +:+ "' is set by the connector")
      else if negb (guest_may_set entry lower) then
        Err ("header '" +:+ name +:+ "' is not one this instance may set on " +:+ Url.origin (origin entry))
      else r ←? guest_lines entry h; Ok (line lower value +:+ r)
  end.

Fixpoint injected_lines (h : Headers) : string :=
  match h with
  | [] => ""
  | (name, value) :: h => line name value +:+ injected_lines h
  end.

(** [version] is the crate's, from its build. *)
Definition request_bytes (version : string) (url : Url.Url) (method : string) (hs : option Headers)
    (body : option bytes) (entry : AllowEntry) : result bytes string :=
  let first := method +:+ " " +:+ Url.path url +:+ " HTTP/1.1" +:+ crlf in
  let own := line "host" (host_value url) +:+ "connection: close" +:+ crlf in
  guest ←? match hs with
           | None => Ok ""
           | Some h =>
               if bool_decide (REQ_HEADERS < length h) then
                 Err ("at most " +:+ dec (N.of_nat REQ_HEADERS) +:+ " request headers, "
                      +:+ dec (N.of_nat (length h)) +:+ " given")
               else guest_lines entry h
           end;
  let agent := if named_agent hs entry then "" else line "user-agent" ("drt/" +:+ version) in
  let length_ := match body with
                 | Some b => line "content-length" (dec (N.of_nat (length b)))
                 | None => ""
                 end in
  Ok (as_bytes (first +:+ own +:+ guest +:+ injected_lines (headers entry) +:+ agent +:+ length_ +:+ crlf)
      ++ default [] body).

End scope.

End Rest.
