(* ===== verification/RestBody.v ===== *)
(** * Outbound HTTP: the exchange ([connectors/rest/src/lib.rs])

    The response's head and the framing of its body, the resumable decoder
    of chunked bodies, the loop that reads until the framing says the body
    has ended, and the call a guest makes. *)

From S2P Require Import Prelude.
From S2P Require Import Bytes.
From S2P Require Import Value.
From S2P Require Import Node.
From S2P Require Import Caps.
From S2P Require Import Connector.
From S2P Require Import Reach.
From S2P Require Import Rest.

Module RestBody.
Import Rest.

(** ** The head *)

Inductive BodyEnd := Length (n : N) | Chunked | Close.
#[export] Instance BodyEnd_eq_dec : EqDecision BodyEnd.
Proof. solve_decision. Defined.

Record Head := MkHead {
  status : N;
  head_headers : list (string * string);
  consumed : nat;
  body_end : BodyEnd;
}.

(** [httparse::Response::parse]: nothing yet, or the status code, the
    headers as they were sent and the bytes they took; or its refusal. *)
Record Parsed := MkParsed {
  code : option N;
  sent : list (string * bytes);
  took : nat;
}.
Class Httparse := http_parse : bytes → result (option Parsed) string.

(** [str::contains] of a text. *)
Definition contains_text (sep s : string) : bool := bool_decide (is_Some (Reach.Scope.split_text sep s)).

(** The loop over the headers: whether it is chunked, and its length. *)
Fixpoint framing_loop (hs : list (string * bytes)) (length_ : option N) (chunked : bool) :
    result (option N * bool) string :=
  match hs with
  | [] => Ok (length_, chunked)
  | (name, value) :: hs =>
      if eq_ignore_ascii_case name "transfer-encoding" then
        framing_loop hs length_
          (chunked || contains_text "chunked" (lowercase (from_utf8_lossy value)))
      else if eq_ignore_ascii_case name "content-length" then
        match (v ← from_utf8 value; parse_unsigned (2 ^ 64) (trim v)) with
        | None => Err "status: the response's content-length is not a number"
        | Some n =>
            if match length_ with Some prev => negb (bool_decide (prev = n)) | None => false end
            then Err "status: the response carries two different content-lengths"
            else framing_loop hs (Some n) chunked
        end
      else framing_loop hs length_ chunked
  end.

Definition interim (status : N) : bool := in_range 100 199 status.

Definition framing (status : N) (hs : list (string * bytes)) : result BodyEnd string :=
  lc ←? framing_loop hs None false;
  let '(length_, chunked) := lc in
  if interim status || bool_decide (status = 204)%N || bool_decide (status = 304)%N then Ok (Length 0)
  else if chunked : bool then Ok Chunked
  else Ok match length_ with Some n => Length n | None => Close end.

(** The headers a guest sees: bounded, a long one dropped whole. *)
Fixpoint kept_headers (hs : list (string * bytes)) (kept : list (string * string)) :
    list (string * string) :=
  match hs with
  | [] => kept
  | (name, value) :: hs =>
      if bool_decide (RESP_HDRS ≤ length kept) then kept
      else
        let name := lowercase name in
        match from_utf8 value with
        | None => kept_headers hs kept
        | Some v =>
            if bool_decide (RESP_NAME_MAX < str_len name) || bool_decide (RESP_VAL_MAX < str_len v)
            then kept_headers hs kept
            else kept_headers hs (kept ++ [(name, v)])
        end
  end.

Section http.
Context `{!Httparse}.

Definition parse_head (buf : bytes) : result (option Head) string :=
  p ←? map_err (λ e, "status: " +:+ e) (http_parse buf);
  match p with
  | None => Ok None
  | Some p =>
      match code p with
      | None => Err "status: the response carries no code"
      | Some status =>
          let kept := kept_headers (sent p) [] in
          e ←? framing status (sent p);
          Ok (Some (MkHead status kept (took p) e))
      end
  end.

(** Past the interim heads; [None] when the fuel runs out before they do. *)
Fixpoint final_head_from (fuel at_ : nat) (buf : bytes) : option (result (option Head) string) :=
  match fuel with
  | 0 => None
  | S fuel' =>
      match parse_head (drop at_ buf) with
      | Err e => Some (Err e)
      | Ok None => Some (Ok None)
      | Ok (Some h) =>
          if interim (status h) then final_head_from fuel' (at_ + consumed h) buf
          else Some (Ok (Some (MkHead (status h) (head_headers h) (at_ + consumed h) (body_end h))))
      end
  end.

Definition final_head (buf : bytes) : option (result (option Head) string) :=
  final_head_from (S (length buf)) 0 buf.
End http.

(** ** Chunked bodies *)

Record Dechunker := MkDechunker { out : bytes; at_ : nat; done : bool }.
Definition dechunker_default : Dechunker := MkDechunker [] 0 false.

(** The first line end. *)
Fixpoint find_crlf (s : bytes) : option nat :=
  match s with
  | a :: (b :: _) as s' =>
      if bool_decide (a = CR ∧ b = LF) then Some 0 else S <$> find_crlf s'
  | _ => None
  end.

(** What precedes the chunk extensions. *)
Fixpoint before_semicolon (s : bytes) : bytes :=
  match s with
  | [] => []
  | c :: s => if bool_decide (c = ";"%char) then [] else c :: before_semicolon s
  end.

(** [usize::from_str_radix(_, 16)]: an optional plus, then digits. *)
Fixpoint hex_digits (acc : N) (s : string) : option N :=
  match s with
  | EmptyString => Some acc
  | String c s => d ← digit_in 16 c; hex_digits (acc * 16 + d) s
  end.
Definition parse_hex (s : string) : option N :=
  let digits := match s with String "+" s' => s' | _ => s end in
  if str_is_empty digits then None
  else n ← hex_digits 0 digits; if bool_decide (n < 2 ^ 64)%N then Some n else None.

(** An addition of two [usize]s: where it leaves the width, a build with the
    checks panics and one without them wraps. *)
Section width.
Context (wraps : bool).

Definition uadd (a b : N) : M Dechunker N :=
  if bool_decide (a + b < 2 ^ 64)%N then mret (a + b)%N
  else if wraps then mret ((a + b) `mod` 2 ^ 64)%N else overflow.

(** [&s[from..to]], which panics outside the bytes. *)
Definition slice (s : bytes) (from to : N) : M Dechunker bytes :=
  if bool_decide (from ≤ to ∧ to ≤ N.of_nat (length s))%N
  then mret (take (N.to_nat (to - from)) (drop (N.to_nat from) s))
  else panic.

(** One turn of the loop: whether to go on, or the answer. *)
Definition feed_step (raw : bytes) : M Dechunker (option (result unit string)) :=
  d ← get_state;
  let rest := drop (at_ d) raw in
  match find_crlf rest with
  | None => mret (Some (Ok tt))
  | Some eol =>
      match from_utf8 (before_semicolon (take eol rest)) with
      | None => mret (Some (Err "chunked: a chunk size was not text"))
      | Some t =>
          let t := trim t in
          match parse_hex t with
          | None => mret (Some (Err ("chunked: '" +:+ t +:+ "' is not a chunk size")))
          | Some size =>
              let data := (N.of_nat eol + 2)%N in
              if bool_decide (size = 0)%N then
                put_state (MkDechunker (out d) (at_ d + N.to_nat data) true);; mret (Some (Ok tt))
              else
                total ← uadd (N.of_nat (length (out d))) size;
                if bool_decide (MAX_BODY < total)%N then mret (Some (Err "too_large"))
                else
                  data_end ← uadd data size;
                  chunk_end ← uadd data_end 2;
                  if bool_decide (N.of_nat (length rest) < chunk_end)%N then mret (Some (Ok tt))
                  else
                    mark ← slice rest data_end chunk_end;
                    if negb (bool_decide (mark = [CR; LF])) then
                      mret (Some (Err "chunked: a chunk did not end where its size said"))
                    else
                      bs ← slice rest data data_end;
                      put_state (MkDechunker (out d ++ bs) (at_ d + N.to_nat chunk_end) false);;
                      mret None
          end
      end
  end.

(** [Dechunker::feed]. *)
Fixpoint feed (fuel : nat) (raw : bytes) : M Dechunker (result unit string) :=
  match fuel with
  | 0 => no_fuel
  | S fuel' =>
      d ← get_state;
      if done d then mret (Ok tt)
      else r ← feed_step raw; match r with Some r => mret r | None => feed fuel' raw end
  end.

(** ** The exchange

    A socket is what becomes of the writes and what the reads after them
    give, in their order; when the reads are used up the peer has not
    answered yet. *)
Inductive Read := Got (bs : bytes) | UnexpectedEof | ReadError (e : string).
Record Sock := MkSock {
  write_all : bytes → result unit string;
  flush : result unit string;
  reads : bytes → list Read;
}.

Record Response := MkResponse {
  resp_status : N;
  resp_headers : list (string * string);
  resp_body : bytes;
}.

(** [Response::header]. *)
Definition response_header (r : Response) (lower : string) : option string :=
  kv ← find_first (λ kv, bool_decide (kv.1 = lower)) (resp_headers r); Some kv.2.

Definition short_body (got : nat) (want : option N) (unclean : bool) : string :=
  let close := if unclean then "the peer closed without close_notify" else "the peer closed" in
  match want with
  | Some n => "read: read " +:+ dec (N.of_nat got) +:+ " of " +:+ dec n +:+ " bytes, then " +:+ close
  | None => "read: the chunked body reached no final chunk in " +:+ dec (N.of_nat got)
            +:+ " bytes, then " +:+ close
  end.

(** How the read loop was left: still waiting, refused, or out of the loop. *)
Inductive Ended :=
  | Waiting
  | Failed (e : string)
  | Read_ (buf : bytes) (head : option Head) (unclean : bool).

Section exchange.
Context `{!Httparse}.

Definition with_fuel {A} (o : option A) : M Dechunker A :=
  match o with Some a => mret a | None => no_fuel end.

(** The framing's test that the body has ended. *)
Definition complete (h : Head) (buf : bytes) (d : Dechunker) : bool :=
  match body_end h with
  | Length n => bool_decide (n ≤ N.of_nat (length buf - consumed h `min` length buf))%N
  | Chunked => done d
  | Close => false
  end.

(** What is done with the bytes once a read has added to them. *)
Definition absorb (buf : bytes) (head : option Head) : M Dechunker (result (option Head) string) :=
  head ← match head with
         | Some h => mret (Ok (Some h))
         | None => with_fuel (final_head buf)
         end;
  match head with
  | Err e => mret (Err e)
  | Ok head =>
      fed ← match head with
            | Some h =>
                match body_end h with
                | Length n => mret (if bool_decide (MAX_BODY < n)%N then Err "too_large" else Ok tt)
                | Chunked => feed (S (length buf)) (drop (consumed h) buf)
                | Close => mret (Ok tt)
                end
            | None => mret (Ok tt)
            end;
      mret (match fed with
            | Err e => Err e
            | Ok _ => if bool_decide (MAX_BODY + 64 * 1024 < N.of_nat (length buf))%N
                      then Err "too_large" else Ok head
            end)
  end.

Fixpoint read_loop (rs : list Read) (buf : bytes) (head : option Head) : M Dechunker Ended :=
  d ← get_state;
  if match head with Some h => complete h buf d | None => false end
  then mret (Read_ buf head false)
  else
    match rs with
    | [] => mret Waiting
    | ReadError e :: _ => mret (Failed ("read: " +:+ e))
    | UnexpectedEof :: _ => mret (Read_ buf head true)
    | Got [] :: _ => mret (Read_ buf head false)
    | Got bs :: rs =>
        r ← absorb (buf ++ bs) head;
        match r with
        | Err e => mret (Failed e)
        | Ok head => read_loop rs (buf ++ bs) head
        end
    end.

(** The body, by its framing. *)
Definition body_of (h : Head) (raw : bytes) (unclean : bool) : M Dechunker (result bytes string) :=
  match body_end h with
  | Length n =>
      mret (if bool_decide (N.of_nat (length raw) < n)%N
            then Err (short_body (length raw) (Some n) unclean)
            else Ok (take (N.to_nat n) raw))
  | Chunked =>
      r ← feed (S (length raw)) raw;
      match r with
      | Err e => mret (Err e)
      | Ok _ => d ← get_state;
                mret (if negb (done d) then Err (short_body (length raw) None unclean) else Ok (out d))
      end
  | Close => mret (Ok raw)
  end.

Definition after_loop (buf : bytes) (head : option Head) (unclean : bool) :
    M Dechunker (result Response string) :=
  again ← with_fuel (final_head buf);
  match again with
  | Err e => mret (Err e)
  | Ok again =>
      match (match head with Some h => Some h | None => again end) with
      | None => mret (Err "status: the response head never completed")
      | Some h =>
          body ← body_of h (drop (consumed h) buf) unclean;
          mret (body ←? body;
                if bool_decide (MAX_BODY < N.of_nat (length body))%N then Err "too_large"
                else Ok (MkResponse (status h) (head_headers h) body))
      end
  end.

(** [None] is a peer that has not answered yet. *)
Definition exchange (sock : Sock) (request : bytes) : M Dechunker (option (result Response string)) :=
  match write_all sock request, flush sock with
  | Err e, _ | Ok _, Err e => mret (Some (Err ("send: " +:+ e)))
  | Ok _, Ok _ =>
      put_state dechunker_default;;
      r ← read_loop (reads sock request) [] None;
      match r with
      | Waiting => mret None
      | Failed e => mret (Some (Err e))
      | Read_ buf head unclean => r ← after_loop buf head unclean; mret (Some r)
      end
  end.
End exchange.
End width.

(** ** The call *)

(** The resolver, the dialling of an address (with its [TCP_NODELAY]), the
    TLS client with what it trusts beside the public roots, and whether a
    timeout passes first. *)
Class Net `{!Pem} := {
  lookup_host : string → N → option (list (IpAddr * N));
  connect : IpAddr * N → result Sock string;
  tls_connect : list Cert → string → Sock → option Sock;
  elapsed : N → bool;
}.

Section call.
Context (wraps : bool) (version : string).
Context `{!Env} `{!Pem} `{!RestWire} `{!Httparse} `{!Net}.

(** The peer that is dialled, or the refusal. *)
Definition dial (url : Url.Url) (sc : RestScope) : result Sock string :=
  match lookup_host (Url.host url) (Url.port url) with
  | None => Err "dns"
  | Some addrs =>
      if bool_decide (addrs = []) then Err "dns"
      else
        match find_first (λ a, permits_address sc a.1) addrs with
        | None => Err ("'" +:+ Url.host url
                       +:+ "' resolves only into private address space, which this instance was not granted (allow_private)")
        | Some addr => map_err (λ e, "connect: " +:+ e) (connect addr)
        end
  end.

Definition fetch (url : Url.Url) (method : string) (hs : option Headers) (body : option bytes)
    (sc : RestScope) (entry : AllowEntry) : M Dechunker (option (result Response string)) :=
  match request_bytes version url method hs body entry with
  | Err e => mret (Some (Err e))
  | Ok request =>
      match dial url sc with
      | Err e => mret (Some (Err e))
      | Ok stream =>
          if Url.tls url then
            match tls_connect (extra_roots sc) (Url.host url) stream with
            | None => mret (Some (Err "tls"))
            | Some tls => exchange wraps tls request
            end
          else exchange wraps stream request
      end
  end.

(** [tokio::time::timeout] around it: what has not answered has not answered
    in time. *)
Definition in_time (ms : N) (work : M Dechunker (option (result Response string))) :
    M Dechunker (result Response string) :=
  if elapsed ms then mret (Err "timeout")
  else r ← work; mret (default (Err "timeout") r).

(** [request], for the connectors that speak over HTTP. *)
Definition request (url : Url.Url) (method : string) (hs : option Headers) (body : option bytes)
    (sc : RestScope) (ms : N) : M Dechunker (result Response string) :=
  match matching sc url with
  | None => mret (Err ("'" +:+ Url.origin url +:+ "' is outside this instance's granted origins"))
  | Some entry => in_time ms (fetch url method hs body sc entry)
  end.

Definition bytes_of (v : Value) : option bytes :=
  match v with VStr s => Some s | VBin b => Some b | _ => None end.

(** What the arguments ask for: the method, the URL, the headers, the body
    and the timeout. *)
Definition asked (call : string) (args : option Value) :
    result (string * string * option Headers * option bytes * option N) CallError :=
  v ←? match args with
       | Some v => Ok v
       | None => Err (CallError.new (call +:+ " takes args {url, ...}"))
       end;
  if bool_decide (call = "rest/get") then
    a ←? map_err (λ e, CallError.new ("rest/get args: " +:+ e)) (get_args_from_value v);
    Ok ("GET", ga_url a, ga_headers a, None, ga_timeout a)
  else
    a ←? map_err (λ e, CallError.new ("rest/post args: " +:+ e)) (post_args_from_value v);
    Ok ("POST", pa_url a, pa_headers a, Some (default [] (pa_body a ≫= bytes_of)), pa_timeout a).

Definition answer_of (resp : Response) : Value :=
  let ct := match response_header resp "content-type" with Some v => vstr v | None => VNil end in
  VMap [(vstr "status", vnat (resp_status resp));
        (vstr "body", VBin (resp_body resp));
        (vstr "content_type", ct);
        (vstr "headers", VMap ((λ nv, (vstr nv.1, vstr nv.2)) <$> resp_headers resp))].

(** [RestConnector::call]. *)
Definition call (name : string) (args : option Value) (scope : option Scope) : M Dechunker CallResult :=
  if negb (bool_decide (name = "rest/get" ∨ name = "rest/post")) then
    mret (Err (CallError.new ("'" +:+ name +:+ "' is not a rest call")))
  else
    match (sc ←? map_err CallError.new (parse scope);
           a ←? asked name args;
           let '(method, raw, hs, body, timeout) := a in
           url ←? map_err CallError.new (Url.parse raw);
           match matching sc url with
           | None => Err (CallError.new ("'" +:+ Url.origin url +:+ "' is outside this instance's granted origins"))
           | Some entry => Ok (sc, url, method, hs, body, timeout, entry)
           end) with
    | Err e => mret (Err e)
    | Ok (sc, url, method, hs, body, timeout, entry) =>
        r ← in_time (N.min (default DEFAULT_MS timeout) MAX_MS) (fetch url method hs body sc entry);
        mret (match r with Err e => Err (CallError.new e) | Ok resp => Ok (answer_of resp) end)
    end.
End call.
End RestBody.
