(* ===== verification/RestSpec.v ===== *)
(** * What a guest can make the connector send, and where

    Which URLs a scope covers, which addresses it lets be dialled, what the
    written request says to the server that reads it, and how a URL's path
    says anything at all. *)

From S2P Require Import Prelude.
From S2P Require Import Bytes.
From S2P Require Import Value.
From S2P Require Import Node.
From S2P Require Import Caps.
From S2P Require Import Reach.
From S2P Require Import ReachSpec.
From S2P Require Import Rest.
From S2P Require Import RestBody.

Module RestFacts.
Import Rest RestBody.

(** ** Addresses *)

(** The blocks kept from a guest, first and last address. *)
Definition private_blocks : list (N * N) := [
  (0, 16777215);                  (* 0.0.0.0/8 *)
  (167772160, 184549375);         (* 10.0.0.0/8 *)
  (1681915904, 1686110207);       (* 100.64.0.0/10 *)
  (2130706432, 2147483647);       (* 127.0.0.0/8 *)
  (2851995648, 2852061183);       (* 169.254.0.0/16 *)
  (2886729728, 2887778303);       (* 172.16.0.0/12 *)
  (3221225984, 3221226239);       (* 192.0.2.0/24 *)
  (3232235520, 3232301055);       (* 192.168.0.0/16 *)
  (3323068416, 3323199487);       (* 198.18.0.0/15 *)
  (3325256704, 3325256959);       (* 198.51.100.0/24 *)
  (3405803776, 3405804031);       (* 203.0.113.0/24 *)
  (4026531840, 4294967295)        (* 240.0.0.0/4 *)
]%N.

Definition kept_v4 (a : N) : Prop := Exists (λ b, b.1 ≤ a ≤ b.2)%N private_blocks.

(** Loopback, unspecified, link-local, unique-local, or the V4 it maps. *)
Definition kept (ip : IpAddr) : Prop :=
  match ip with
  | V4 a => kept_v4 a
  | V6 a => a = 1%N ∨ a = 0%N ∨ (a / 2 ^ 118 = 1018)%N ∨ (a / 2 ^ 121 = 126)%N
            ∨ ∃ m, (m < 2 ^ 32)%N ∧ a = mapped m ∧ kept_v4 m
  end.

(** An address by its octets. *)
Lemma octets a :
  ∃ o0 o1 o2 o3, (a = ((o0 * 256 + o1) * 256 + o2) * 256 + o3)%N
    ∧ (o1 < 256 ∧ o2 < 256 ∧ o3 < 256)%N
    ∧ (a / 2 ^ 24 = o0)%N ∧ (a / 2 ^ 16 = o0 * 256 + o1)%N ∧ ((a / 2 ^ 16) `mod` 256 = o1)%N
    ∧ (a / 2 ^ 8 = (o0 * 256 + o1) * 256 + o2)%N.
Proof.
  exists (a / 2 ^ 24)%N, ((a / 2 ^ 16) `mod` 256)%N, ((a / 2 ^ 8) `mod` 256)%N, (a `mod` 256)%N.
  assert (H1 : (a / 2 ^ 8 = a / 256)%N) by done.
  assert (H2 : (a / 2 ^ 16 = a / 2 ^ 8 / 256)%N) by (by rewrite N.Div0.div_div).
  assert (H3 : (a / 2 ^ 24 = a / 2 ^ 16 / 256)%N) by (by rewrite N.Div0.div_div).
  pose proof (N.div_mod' a 256). pose proof (N.div_mod' (a / 2 ^ 8) 256).
  pose proof (N.div_mod' (a / 2 ^ 16) 256).
  split_and!; try done; try (apply N.mod_lt; done); lia.
Qed.

(** The disjunct that holds, by arithmetic. *)
Ltac pick_block :=
  lazymatch goal with
  | |- _ ∨ _ => first [left; pick_block | right; pick_block]
  | _ => lia
  end.

Lemma private_v4_iff a : (a < 2 ^ 32)%N → private_v4 a = true ↔ kept_v4 a.
Proof.
  intros Ha. unfold private_v4, kept_v4, private_blocks, v4_is_private, v4_is_documentation,
    v4_is_loopback, v4_is_link_local, v4_is_broadcast, v4_is_unspecified, octet0, octet1, in_range.
  rewrite !Exists_cons, Exists_nil, !orb_true_iff, !andb_true_iff, !orb_true_iff, !bool_decide_eq_true.
  cbn [fst snd]. destruct (octets a) as (o0 & o1 & o2 & o3 & He & Hb & H0 & H1 & H1' & H2).
  rewrite H1', H0, H1, H2. clear H0 H1 H1' H2.
  split; intros Hp; destruct_or? Hp; pick_block.
Qed.

Lemma to_mapped_iff a m : to_ipv4_mapped a = Some m ↔ (m < 2 ^ 32)%N ∧ a = mapped m.
Proof.
  unfold to_ipv4_mapped, mapped. pose proof (N.div_mod' a (2 ^ 32)).
  pose proof (N.mod_lt a (2 ^ 32)). case_bool_decide as Hd; split.
  - intros [= <-]. split; [by apply N.mod_lt|]. lia.
  - intros [Hm ->]. f_equal. rewrite N.add_comm, N.Div0.mod_add. by apply N.mod_small.
  - done.
  - intros [Hm ->]. destruct Hd. by rewrite N.div_add_l, (N.div_small m) by done.
Qed.

(** The addresses a guest without [allow_private] is kept from are the
    private blocks, in V6 the addresses of the same kinds, and what maps one
    of them. *)
Lemma is_private_iff ip : ip_ok ip → is_private ip = true ↔ kept ip.
Proof.
  destruct ip as [a|a]; simpl; [apply private_v4_iff|]. intros Ha.
  unfold v6_is_loopback, v6_is_unspecified. rewrite !orb_true_iff, !bool_decide_eq_true.
  assert (H112 : (a / 2 ^ 112 < 65536)%N).
  { apply N.Div0.div_lt_upper_bound. by change (2 ^ 112 * 65536)%N with (2 ^ 128)%N. }
  assert (H120 : (a / 2 ^ 120 < 256)%N).
  { apply N.Div0.div_lt_upper_bound. by change (2 ^ 120 * 256)%N with (2 ^ 128)%N. }
  rewrite (ScopeFacts.link_local_bits _ H112), (ScopeFacts.unique_local_bits _ H120).
  rewrite !N.Div0.div_div. change (2 ^ 112 * 64)%N with (2 ^ 118)%N. change (2 ^ 120 * 2)%N with (2 ^ 121)%N.
  assert (Hm : (match to_ipv4_mapped a with Some m => private_v4 m | None => false end = true)
               ↔ ∃ m, (m < 2 ^ 32)%N ∧ a = mapped m ∧ kept_v4 m).
  { destruct (to_ipv4_mapped a) as [m|] eqn:E.
    - apply to_mapped_iff in E as [Hm ->]. rewrite private_v4_iff by done. split; [by exists m|].
      intros (m' & _ & Heq & Hk). unfold mapped in Heq. by replace m with m' by lia.
    - split; [done|]. intros (m & Hm & Ha' & _).
      by rewrite (proj2 (to_mapped_iff a m)) in E by done. }
  rewrite Hm. tauto.
Qed.

(** A scope permits every address, or all that are outside the blocks kept
    from a guest. *)
Theorem permits_address_spec `{!Pem} sc ip :
  ip_ok ip → permits_address sc ip = true ↔ allow_private sc = true ∨ ¬ kept ip.
Proof.
  intros Hok. unfold permits_address. destruct (allow_private sc); [naive_solver|].
  rewrite negb_true_iff, <-not_true_iff_false, is_private_iff by done. naive_solver.
Qed.

(** ** Origins *)

(** The hosts an entry's host covers. *)
Definition covered_host (pattern host : string) : Prop :=
  match strip_prefix "*." pattern with
  | Some suffix => ∃ label, label ≠ "" ∧ host = label +:+ "." +:+ suffix
  | None => eq_ignore_ascii_case pattern host = true
  end.

Lemma host_matches_iff pattern host : host_matches pattern host = true ↔ covered_host pattern host.
Proof.
  unfold host_matches, covered_host. destruct (strip_prefix _ _) as [suffix|]; [|done].
  destruct (strip_suffix suffix host) as [p|] eqn:E.
  - apply strip_suffix_Some in E as ->. rewrite andb_true_iff, !bool_decide_eq_true. split.
    + intros [[l Hl] Hlen]. exists (of_bytes l). assert (Hp : p = of_bytes l +:+ ".").
      { apply as_bytes_inj. by rewrite as_bytes_app, as_of_bytes. }
      split; [|by rewrite Hp, str_app_assoc]. intros He. rewrite Hp, He in Hlen. by apply Nat.lt_irrefl in Hlen.
    + intros (label & Hne & Heq). rewrite <-str_app_assoc in Heq.
      apply (f_equal as_bytes) in Heq. rewrite !as_bytes_app in Heq. apply app_inv_tail in Heq.
      split; [rewrite Heq; by eexists|]. unfold str_len. rewrite Heq, length_app.
      destruct label; [done|]. simpl. lia.
  - split; [done|]. intros (label & _ & ->). rewrite <-str_app_assoc in E.
    by rewrite (proj2 (strip_suffix_Some suffix _ (label +:+ ".")) eq_refl) in E.
Qed.

Definition same_origin (e : AllowEntry) (u : Url.Url) : Prop :=
  Url.tls (origin e) = Url.tls u ∧ Url.port (origin e) = Url.port u
  ∧ covered_host (Url.host (origin e)) (Url.host u).

Lemma covers_same_origin u e : covers u e = true ↔ same_origin e u.
Proof.
  unfold covers, same_origin. rewrite !andb_true_iff, !bool_decide_eq_true, host_matches_iff. tauto.
Qed.

(** ** The request, as a server reads it *)

(** A head's lines up to the empty one, and what follows it. *)
Fixpoint read_lines (fuel : nat) (s : bytes) : option (list bytes * bytes) :=
  match fuel with
  | 0 => None
  | S fuel' =>
      match find_crlf s with
      | None => None
      | Some 0 => Some ([], drop 2 s)
      | Some eol => '(ls, rest) ← (read_lines fuel' (drop (eol + 2) s)); Some (take eol s :: ls, rest)
      end
  end.

Definition no_newline (l : bytes) : Prop := (CR ∉ l) ∧ (LF ∉ l).

Lemma has_newline_false s : has_newline s = false ↔ no_newline (as_bytes s).
Proof.
  unfold has_newline, no_newline, contains_char.
  by rewrite orb_false_iff, !bool_decide_eq_false.
Qed.

Lemma no_newline_app l l' : no_newline (l ++ l') ↔ no_newline l ∧ no_newline l'.
Proof. unfold no_newline. set_solver. Qed.

Lemma find_crlf_line l rest : CR ∉ l → find_crlf (l ++ CR :: LF :: rest) = Some (length l).
Proof.
  induction l as [|c l IH]; intros Hl; [by vm_compute|].
  apply not_elem_of_cons in Hl as [Hc Hl]. simpl.
  rewrite IH by done. destruct (l ++ CR :: LF :: rest) as [|b r] eqn:E; [by destruct l|].
  by rewrite bool_decide_false by naive_solver.
Qed.

Lemma read_lines_step fuel l tail :
  CR ∉ l → l ≠ [] →
  read_lines (S fuel) (l ++ CR :: LF :: tail) = ('(ls, rest) ← read_lines fuel tail; Some (l :: ls, rest)).
Proof.
  intros Hcr Hne. cbn [read_lines]. rewrite find_crlf_line by done.
  destruct (length l) as [|n] eqn:El; [by destruct l|]. rewrite <-El.
  by rewrite drop_app_add, take_app_length.
Qed.

(** Lines, each with its end, and what follows. *)
Fixpoint lines_text (ls : list bytes) (tail : bytes) : bytes :=
  match ls with
  | [] => tail
  | l :: ls => l ++ CR :: LF :: lines_text ls tail
  end.

Lemma lines_text_app ls ls' tail : lines_text (ls ++ ls') tail = lines_text ls (lines_text ls' tail).
Proof. induction ls as [|l ls IH]; [done|]. simpl. by rewrite IH. Qed.

Lemma read_lines_text ls rest :
  Forall (λ l, no_newline l ∧ l ≠ []) ls →
  read_lines (S (length ls)) (lines_text ls (CR :: LF :: rest)) = Some (ls, rest).
Proof.
  induction ls as [|l ls IH]; intros Hls; [done|].
  apply Forall_cons in Hls as [[[Hcr _] Hne] Hls]. specialize (IH Hls).
  cbn [length lines_text]. rewrite read_lines_step by done. by rewrite IH.
Qed.

(** A header as its line says it. *)
Definition line_text (nv : string * string) : bytes := as_bytes (nv.1 +:+ ": " +:+ nv.2).

Lemma line_bytes n v tail : as_bytes (line n v) ++ tail = lines_text [line_text (n, v)] tail.
Proof.
  unfold line, line_text. cbn [fst snd lines_text]. rewrite !as_bytes_app. by rewrite <-!app_assoc.
Qed.

Lemma injected_bytes hs tail :
  as_bytes (injected_lines hs) ++ tail = lines_text (line_text <$> hs) tail.
Proof.
  induction hs as [|[n v] hs IH]; [done|]. cbn [injected_lines].
  by rewrite as_bytes_app, <-app_assoc, IH, line_bytes.
Qed.

(** The guest's headers as written: lowered, nobody else's, and without a
    line end. *)
Definition lowered (h nv : string * string) : Prop := nv = (lowercase h.1, h.2).
Definition guests (entry : AllowEntry) (nv : string * string) : Prop :=
  is_reserved nv.1 = false ∧ guest_may_set entry nv.1 = true
  ∧ no_newline (as_bytes nv.1) ∧ no_newline (as_bytes nv.2).

Lemma lower_newline c : to_ascii_lowercase c = CR ∨ to_ascii_lowercase c = LF → c = CR ∨ c = LF.
Proof. destruct c as [[] [] [] [] [] [] [] []]; vm_compute; intros [H|H]; first [discriminate H|by left|by right]. Qed.

Lemma lowercase_newline s : has_newline s = false → no_newline (as_bytes (lowercase s)).
Proof.
  rewrite has_newline_false. intros [Hc Hl]. unfold lowercase, Reach.Scope.lowercase.
  rewrite as_of_bytes.
  split; intros (c & Heq & Hin)%list_elem_of_fmap;
    destruct (lower_newline c) as [->| ->]; auto.
Qed.

Lemma guest_lines_spec entry h text :
  guest_lines entry h = Ok text →
  ∃ gs, (∀ tail, as_bytes text ++ tail = lines_text (line_text <$> gs) tail)
    ∧ Forall2 lowered h gs ∧ Forall (guests entry) gs.
Proof.
  revert text; induction h as [|[n v] h IH]; intros text; simpl.
  { intros [= <-]. exists []. split_and!; [done|constructor..]. }
  destruct (_ || _ || _ || _) eqn:Hf; [done|].
  rewrite !orb_false_iff in Hf. destruct Hf as [[[Hne Hn] _] Hv].
  destruct (is_reserved _) eqn:Hr; [done|].
  destruct (guest_may_set entry (lowercase n)) eqn:Hg; [|done]. simpl.
  intros (text' & Ht & [= <-])%rbind_Ok. destruct (IH text' Ht) as (gs & Hgs & H2 & Hall).
  exists ((lowercase n, v) :: gs). split_and!; [|by constructor|].
  { intros tail. by rewrite as_bytes_app, <-app_assoc, Hgs, line_bytes. } apply Forall_cons. split; [|done].
  unfold guests. cbn [fst snd]. split_and!; [done|done|by apply lowercase_newline|].
  by apply has_newline_false.
Qed.

(** An entry's own headers, as its parsing leaves them. *)
Definition entry_ok (e : AllowEntry) : Prop :=
  Forall (λ nv, is_reserved nv.1 = false ∧ no_newline (as_bytes nv.1) ∧ no_newline (as_bytes nv.2))
    (headers e).

Lemma bt_insert_Forall {V} (P : string * V → Prop) k v m :
  P (k, v) → Forall P m → Forall P (bt_insert (K := string) k v m).
Proof.
  intros Hk Hm. induction m as [|[k' v'] m IH]; simpl; [by constructor|].
  apply Forall_cons in Hm as [Hv Hm]. repeat case_match; repeat constructor; auto.
Qed.

Lemma lower_headers_ok `{!Env} o hs : ∀ acc out,
  Forall (λ nv, is_reserved nv.1 = false ∧ no_newline (as_bytes nv.1) ∧ no_newline (as_bytes nv.2)) acc →
  lower_headers o hs acc = Ok out →
  Forall (λ nv, is_reserved nv.1 = false ∧ no_newline (as_bytes nv.1) ∧ no_newline (as_bytes nv.2)) out.
Proof.
  induction hs as [|[k v] hs IH]; intros acc out Hacc; cbn [lower_headers]; [by intros [= <-]|].
  intros (w & _ & Hrun)%rbind_Ok. cbn zeta in Hrun.
  destruct (_ || _ || _ || _) eqn:Hf in Hrun; [done|].
  rewrite !orb_false_iff in Hf. destruct Hf as [[[_ Hn] _] Hv].
  destruct (is_reserved _) eqn:Hr in Hrun; [done|].
  apply (IH _ _) in Hrun; [done|]. apply bt_insert_Forall; [|done].
  cbn [fst snd]. rewrite <-!has_newline_false. done.
Qed.

Lemma entry_of_ok `{!Env} shape e : entry_of shape = Ok e → entry_ok e.
Proof.
  unfold entry_of. destruct shape as [o|o hs al]; intros (u & _ & Hrun)%rbind_Ok;
    apply rbind_Ok in Hrun as (l & Hl & [= <-]); unfold entry_ok; simpl;
    by eapply lower_headers_ok; [constructor|].
Qed.

(** A URL without a line end in it. *)
Definition one_line (u : Url.Url) : Prop := has_newline (Url.host u) = false ∧ has_newline (Url.path u) = false.

(** The connector's own lines, before the guest's and after them. *)
Definition own_lines (url : Url.Url) : list (string * string) :=
  [("host", host_value url); ("connection", "close")].
Definition closing_lines (version : string) (hs : option Headers) (body : option bytes)
    (entry : AllowEntry) : list (string * string) :=
  (if named_agent hs entry then [] else [("user-agent", "drt/" +:+ version)])
  ++ match body with Some b => [("content-length", dec (N.of_nat (length b)))] | None => [] end.

Lemma no_newline_str s t : no_newline (as_bytes (s +:+ t)) ↔ no_newline (as_bytes s) ∧ no_newline (as_bytes t).
Proof. by rewrite as_bytes_app, no_newline_app. Qed.

Lemma dec_no_newline n : no_newline (as_bytes (dec n)).
Proof.
  rewrite <-has_newline_false. unfold has_newline. by rewrite !dec_no_char by done.
Qed.

Lemma line_text_ok n v :
  no_newline (as_bytes n) → no_newline (as_bytes v) →
  no_newline (line_text (n, v)) ∧ line_text (n, v) ≠ [].
Proof.
  intros Hn Hv. unfold line_text. cbn [fst snd]. split.
  - rewrite !no_newline_str. split_and!; [done| |done]. by rewrite <-has_newline_false.
  - rewrite !as_bytes_app. by destruct (as_bytes n).
Qed.

Lemma pairs_ok hs :
  Forall (λ nv, no_newline (as_bytes nv.1) ∧ no_newline (as_bytes nv.2)) hs →
  Forall (λ l, no_newline l ∧ l ≠ []) (line_text <$> hs).
Proof.
  intros Hhs. apply Forall_fmap. eapply Forall_impl; [exact Hhs|].
  intros [n v] [Hn Hv]. by apply line_text_ok.
Qed.

#[local] Ltac plain := by apply has_newline_false.

Lemma own_ok url : one_line url → Forall (λ l, no_newline l ∧ l ≠ []) (line_text <$> own_lines url).
Proof.
  intros [Hh _]. apply has_newline_false in Hh. apply pairs_ok. unfold own_lines.
  apply Forall_cons; split; [|apply Forall_singleton]; split; try plain.
  cbn [snd]. unfold host_value. case_bool_decide; [done|].
  rewrite !no_newline_str. split_and!; [done|plain|apply dec_no_newline].
Qed.

Lemma closing_ok version hs body entry :
  has_newline version = false →
  Forall (λ l, no_newline l ∧ l ≠ []) (line_text <$> closing_lines version hs body entry).
Proof.
  intros Hv%has_newline_false. apply pairs_ok. unfold closing_lines. apply Forall_app. split.
  - destruct (named_agent _ _); [constructor|]. apply Forall_singleton. split; [plain|].
    cbn [snd]. rewrite no_newline_str. split; [plain|done].
  - destruct body; [|constructor]. apply Forall_singleton. split; [plain|apply dec_no_newline].
Qed.

(** What [request_bytes] writes, line by line. *)
Lemma request_lines version url method hs body entry bs :
  request_bytes version url method hs body entry = Ok bs →
  ∃ guest, Forall2 lowered (default [] hs) guest ∧ Forall (guests entry) guest
    ∧ length guest ≤ REQ_HEADERS
    ∧ bs = lines_text
        (as_bytes (method +:+ " " +:+ Url.path url +:+ " HTTP/1.1")
         :: (line_text <$> own_lines url ++ guest ++ headers entry ++ closing_lines version hs body entry))
        (CR :: LF :: default [] body).
Proof.
  unfold request_bytes. intros (text & Ht & [= <-])%rbind_Ok.
  assert (∃ guest, (∀ tail, as_bytes text ++ tail = lines_text (line_text <$> guest) tail)
    ∧ Forall2 lowered (default [] hs) guest ∧ Forall (guests entry) guest ∧ length guest ≤ REQ_HEADERS)
    as (guest & Hg & H2 & Hall & Hlen).
  { destruct hs as [h|]; [|injection Ht as <-; exists []; split_and!; [done|constructor..|]; simpl; lia].
    case_bool_decide as Hn; [done|]. destruct (guest_lines_spec _ _ _ Ht) as (gs & ? & H2 & ?).
    exists gs. split_and!; [done..|]. apply Forall2_length in H2. simpl in *. lia. }
  exists guest. split_and!; [done..|].
  cbn [lines_text]. rewrite !fmap_app, !lines_text_app, !as_bytes_app.
  rewrite <-!app_assoc, Hg, injected_bytes, line_bytes.
  change (as_bytes ("connection: close" +:+ crlf)) with (line_text ("connection", "close") ++ [CR; LF]).
  unfold own_lines, closing_lines. cbn [fmap list_fmap lines_text].
  destruct (named_agent hs entry), body; cbn [app fmap list_fmap lines_text];
    rewrite <-?app_assoc; try rewrite line_bytes; try rewrite line_bytes; done.
Qed.

(** C37: A request for a URL of one line is read back as its request line, the
    connector's lines, the guest's headers in their order and lower case, the
    operator's, and the body: a guest sets no header that is the connector's
    or the operator's, and nothing beyond its own. *)
Theorem request_reads_back `{!Env} version url method hs body shape entry bs :
  entry_of shape = Ok entry → one_line url → has_newline method = false → has_newline version = false →
  request_bytes version url method hs body entry = Ok bs →
  ∃ guest fuel,
    Forall2 lowered (default [] hs) guest ∧ length guest ≤ REQ_HEADERS
    ∧ (∀ nv, nv ∈ guest → is_reserved nv.1 = false ∧ (nv.1 ∉ bt_keys (headers entry))
         ∧ ∀ set, allow_headers entry = Some set → (nv.1 ∈ set))
    ∧ read_lines fuel bs = Some
        (as_bytes (method +:+ " " +:+ Url.path url +:+ " HTTP/1.1")
         :: (line_text <$> own_lines url ++ guest ++ headers entry ++ closing_lines version hs body entry),
         default [] body).
Proof.
  intros Hentry Hurl Hm Hv Hbs. apply entry_of_ok in Hentry.
  destruct (request_lines _ _ _ _ _ _ _ Hbs) as (guest & H2 & Hall & Hlen & ->).
  eexists guest, _. split_and!; [done..| |].
  - intros nv Hin. rewrite Forall_forall in Hall. destruct (Hall nv Hin) as (Hr & Hg & _).
    unfold guest_may_set in Hg. destruct (bt_get _ _) eqn:Hk; [done|].
    split_and!; [done|by apply (bt_get_None (K := string))|].
    intros set Hs. rewrite Hs in Hg. by apply bool_decide_eq_true in Hg.
  - apply read_lines_text. apply Forall_cons. split.
    + destruct Hurl as [_ Hp]. apply has_newline_false in Hp, Hm.
      split; [rewrite !no_newline_str; split_and!; try plain; done|].
      rewrite !as_bytes_app. by destruct (as_bytes method).
    + rewrite !fmap_app, !Forall_app. split_and!; [by apply own_ok| | |by apply closing_ok].
      * apply pairs_ok. eapply Forall_impl; [exact Hall|]. by intros nv (_ & _ & ?).
      * apply pairs_ok. eapply Forall_impl; [exact Hentry|]. by intros nv (_ & ?).
Qed.

(** *** A path of more than one line *)

(** Whatever text follows the slash of a granted URL, the URL is granted and
    the text is in the request as it stands. *)
Theorem path_speaks `{!Pem} sc origin_text u entry text :
  contains_char "/" origin_text = false → Url.parse ("https://" +:+ origin_text) = Ok u →
  matching sc u = Some entry →
  ∃ u', Url.parse ("https://" +:+ origin_text +:+ "/ HTTP/1.1" +:+ crlf +:+ text) = Ok u'
    ∧ matching sc u' = Some entry
    ∧ ∀ version method, ∃ rest, request_bytes version u' method None None entry
        = Ok (as_bytes (method +:+ " / HTTP/1.1" +:+ crlf +:+ text) ++ rest).
Proof.
  intros Hs Hp Hm.
  assert (Hsplit : ∀ r, Url.scheme_of ("https://" +:+ r) = Ok (true, r)).
  { intros r. unfold Url.scheme_of. by rewrite strip_prefix_app. }
  unfold Url.parse in *. rewrite Hsplit in *. cbn [rbind] in *.
  unfold Url.authority_of in *. rewrite (proj2 (split_once_None _ _)) in Hp by done.
  change ("/ HTTP/1.1" +:+ crlf +:+ text) with (String "/" (" HTTP/1.1" +:+ crlf +:+ text)).
  rewrite split_once_app by done.
  destruct (str_is_empty origin_text); [done|]. destruct (contains_char "@" origin_text); [done|].
  destruct (Url.port_of true origin_text) as [hp|]; [|done]. injection Hp as <-.
  eexists. split; [reflexivity|]. split; [exact Hm|]. intros version method.
  unfold request_bytes. cbn [rbind]. eexists.
  change (Url.path _) with ("/ HTTP/1.1" +:+ crlf +:+ text).
  change (" / HTTP/1.1" +:+ crlf +:+ text) with (" " +:+ ("/ HTTP/1.1" +:+ crlf +:+ text)).
  rewrite !str_app_assoc, !as_bytes_app, <-!app_assoc. reflexivity.
Qed.
End RestFacts.
