(* ===== verification/ChunkSpec.v ===== *)
(** * What the chunked decoder makes of the bytes

    The decoder of [RestBody] against the grammar it decodes, in whatever
    pieces the bytes come, and the sizes that leave the machine's width. *)

From S2P Require Import Prelude.
From S2P Require Import Bytes.
From S2P Require Import Value.
From S2P Require Import Reach.
From S2P Require Import Rest.
From S2P Require Import RestBody.

Module ChunkFacts.
Import Rest RestBody.

(** ** The grammar of a chunked body *)

(** A chunk's first line, extensions and all, and the size it says. *)
Definition size_line (line : bytes) (n : N) : Prop :=
  find_crlf line = None
  ∧ ∃ t, from_utf8 (before_semicolon line) = Some t ∧ parse_hex (trim t) = Some n.

(** [chunked raw body used]: the first [used] bytes of [raw] are the chunks
    of [body], the last one empty. *)
Inductive chunked : bytes → bytes → nat → Prop :=
  | chunked_end line rest :
      size_line line 0 → chunked (line ++ [CR; LF] ++ rest) [] (length line + 2)
  | chunked_chunk line data rest body used :
      data ≠ [] → size_line line (N.of_nat (length data)) → chunked rest body used →
      chunked (line ++ [CR; LF] ++ data ++ [CR; LF] ++ rest) (data ++ body)
        (length line + 2 + length data + 2 + used).

Lemma find_crlf_cons a b s :
  find_crlf (a :: b :: s) = if bool_decide (a = CR ∧ b = LF) then Some 0 else S <$> find_crlf (b :: s).
Proof. done. Qed.

Lemma find_crlf_here line rest :
  find_crlf line = None → find_crlf (line ++ CR :: LF :: rest) = Some (length line).
Proof.
  induction line as [|a line IH]; intros Hl; [done|].
  assert (Hrest : find_crlf line = None ∧ ¬ (a = CR ∧ head line = Some LF)).
  { destruct line as [|b line]; [split; [done|intros [_ Hh]; discriminate Hh]|]. rewrite find_crlf_cons in Hl.
    case_bool_decide as Hab; [done|]. split; [by destruct (find_crlf (b :: line))|].
    intros [-> [= ->]]. by destruct Hab. }
  destruct Hrest as [Hn Hab]. specialize (IH Hn).
  destruct (line ++ CR :: LF :: rest) as [|b s] eqn:E; [by destruct line|].
  cbn [app length]. rewrite E, find_crlf_cons.
  rewrite bool_decide_false; [by rewrite IH|].
  intros [-> ->]. destruct line as [|c line]; [by injection E|]. apply Hab.
  by injection E as ->.
Qed.

Lemma find_crlf_Some s eol :
  find_crlf s = Some eol →
  ∃ line rest, s = line ++ CR :: LF :: rest ∧ length line = eol ∧ find_crlf line = None.
Proof.
  revert eol; induction s as [|a [|b s] IH]; intros eol He; [done..|].
  rewrite find_crlf_cons in He. case_bool_decide as Hab.
  - destruct Hab as [-> ->]. injection He as <-. by exists [], s.
  - destruct (find_crlf (b :: s)) as [n|] eqn:E; [|done]. injection He as <-.
    destruct (IH n eq_refl) as (line & rest & Heq & <- & Hn).
    exists (a :: line), rest. split_and!; [by rewrite Heq|done|].
    destruct line as [|c line]; [done|]. injection Heq as -> Heq.
    rewrite find_crlf_cons, bool_decide_false by done. by rewrite Hn.
Qed.

Lemma find_crlf_app s more eol : find_crlf s = Some eol → find_crlf (s ++ more) = Some eol.
Proof.
  intros (line & rest & -> & <- & Hn)%find_crlf_Some. rewrite <-app_assoc.
  by apply (find_crlf_here line (rest ++ more)).
Qed.

Lemma find_crlf_bound s eol : find_crlf s = Some eol → eol + 2 ≤ length s.
Proof. intros (line & rest & -> & <- & _)%find_crlf_Some. rewrite length_app. simpl. lia. Qed.

(** ** One turn of the decoder

    What a turn comes to while the additions stay inside the width. *)
Inductive Turn := TWait | TErr (e : string) | TOver | TDone (d : Dechunker) | TChunk (d : Dechunker).

Definition turn (raw : bytes) (d : Dechunker) : Turn :=
  let rest := drop (at_ d) raw in
  match find_crlf rest with
  | None => TWait
  | Some eol =>
      match from_utf8 (before_semicolon (take eol rest)) with
      | None => TErr "chunked: a chunk size was not text"
      | Some t =>
          match parse_hex (trim t) with
          | None => TErr ("chunked: '" +:+ trim t +:+ "' is not a chunk size")
          | Some size =>
              if bool_decide (size = 0)%N then TDone (MkDechunker (out d) (at_ d + (eol + 2)) true)
              else if bool_decide (2 ^ 64 ≤ N.of_nat (length (out d)) + size)%N then TOver
              else if bool_decide (MAX_BODY < N.of_nat (length (out d)) + size)%N then TErr "too_large"
              else
                let n := N.to_nat size in
                if bool_decide (length rest < eol + 2 + n + 2) then TWait
                else if negb (bool_decide (take 2 (drop (eol + 2 + n) rest) = [CR; LF]))
                then TErr "chunked: a chunk did not end where its size said"
                else TChunk (MkDechunker (out d ++ take n (drop (eol + 2) rest))
                               (at_ d + (eol + 2 + n + 2)) false)
          end
      end
  end.

(** An answer of a turn is its answer with more bytes behind it. *)
Lemma turn_app raw more d :
  at_ d ≤ length raw → turn raw d ≠ TWait → turn (raw ++ more) d = turn raw d.
Proof.
  intros Hat. unfold turn. rewrite drop_app_le by done. set (rest := drop (at_ d) raw).
  destruct (find_crlf rest) as [eol|] eqn:He; [|done]. rewrite (find_crlf_app _ _ _ He).
  pose proof (find_crlf_bound _ _ He) as Hb. rewrite take_app_le by lia.
  destruct (from_utf8 _) as [t|]; [|done]. destruct (parse_hex _) as [size|]; [|done].
  case_bool_decide; [done|]. case_bool_decide; [done|]. case_bool_decide; [done|].
  rewrite length_app.
  destruct (bool_decide (length rest < _)) eqn:Hl; [done|]. apply bool_decide_eq_false in Hl. intros _.
  rewrite bool_decide_false by lia.
  rewrite !drop_app_le by lia. rewrite !take_app_le by (rewrite length_drop; lia). done.
Qed.

Lemma uadd_small wraps a b s : (a + b < 2 ^ 64)%N → uadd wraps a b s = Ret (a + b)%N s.
Proof. intros Hab. unfold uadd. by rewrite bool_decide_true. Qed.

Lemma uadd_over wraps a b s :
  (a < 2 ^ 64)%N → (b < 2 ^ 64)%N → (2 ^ 64 ≤ a + b)%N →
  uadd wraps a b s = if wraps then Ret (a + b - 2 ^ 64)%N s else Overflow.
Proof.
  intros Ha Hb Hab. unfold uadd. rewrite bool_decide_false by lia. destruct wraps; [|done].
  unfold mret, M_ret. f_equal. symmetry. apply (N.mod_unique _ _ 1); lia.
Qed.

Lemma slice_in s from to st :
  (from ≤ to)%N → (to ≤ N.of_nat (length s))%N →
  slice s from to st = Ret (take (N.to_nat (to - from)) (drop (N.to_nat from) s)) st.
Proof. intros. unfold slice. by rewrite bool_decide_true. Qed.

Lemma slice_out s from to st :
  (to < from)%N → slice s from to st = Panic.
Proof. intros. unfold slice. by rewrite bool_decide_false by lia. Qed.

Section feed.
Context (wraps : bool).

Definition turned (t : Turn) (d : Dechunker) : outcome Dechunker (option (result unit string)) :=
  match t with
  | TWait => Ret (Some (Ok tt)) d
  | TErr e => Ret (Some (Err e)) d
  | TOver => Overflow
  | TDone d' => Ret (Some (Ok tt)) d'
  | TChunk d' => Ret None d'
  end.

Lemma feed_step_turn raw d :
  (N.of_nat (length raw) < 2 ^ 63)%N → turn raw d ≠ TOver →
  feed_step wraps raw d = turned (turn raw d) d.
Proof.
  intros Hr. unfold feed_step, turn, get_state. unfold mbind, M_bind. cbn beta iota zeta.
  set (rest := drop (at_ d) raw).
  assert (Hlen : length rest ≤ length raw) by (unfold rest; rewrite length_drop; lia).
  destruct (find_crlf rest) as [eol|] eqn:He; [|done]. pose proof (find_crlf_bound _ _ He) as Hb.
  destruct (from_utf8 _) as [t|]; [|done]. destruct (parse_hex _) as [size|]; [|done].
  destruct (bool_decide (size = 0)%N) eqn:Hz.
  { intros _. unfold put_state, mret, M_ret. cbn. do 2 f_equal. lia. }
  destruct (bool_decide (2 ^ 64 ≤ _)%N) eqn:Hover; [done|]. intros _.
  apply bool_decide_eq_false in Hz, Hover. rewrite uadd_small by lia.
  destruct (bool_decide (MAX_BODY < _)%N) eqn:Hmax; [done|]. apply bool_decide_eq_false in Hmax.
  assert (Hsz : (size ≤ MAX_BODY)%N) by lia. unfold MAX_BODY in Hsz.
  rewrite uadd_small by lia. rewrite uadd_small by lia.
  rewrite (bool_decide_ext (_ < N.of_nat eol + 2 + size + 2)%N (length rest < eol + 2 + N.to_nat size + 2))
    by lia.
  case_bool_decide as Hfit; [done|]. rewrite slice_in by lia.
  replace (N.to_nat (N.of_nat eol + 2 + size + 2 - (N.of_nat eol + 2 + size))) with 2 by lia.
  replace (N.to_nat (N.of_nat eol + 2 + size)) with (eol + 2 + N.to_nat size) by lia.
  destruct (bool_decide (_ = [CR; LF])); [|done]. cbn [negb]. rewrite slice_in by lia.
  replace (N.to_nat (N.of_nat eol + 2 + size - (N.of_nat eol + 2))) with (N.to_nat size) by lia.
  replace (N.to_nat (N.of_nat eol + 2)) with (eol + 2) by lia.
  unfold put_state, mret, M_ret. cbn [turned]. do 2 f_equal. lia.
Qed.

(** The first line end is the first. *)
Lemma find_crlf_first s eol e :
  find_crlf s = Some eol → take 2 (drop e s) = [CR; LF] → eol ≤ e ∧ e ≠ S eol.
Proof.
  revert eol e; induction s as [|a [|b s] IH]; intros eol e He Hm; [done..|].
  rewrite find_crlf_cons in He. destruct e as [|e].
  - simpl in Hm. injection Hm as -> ->. rewrite bool_decide_true in He by done. by injection He as <-.
  - cbn [drop] in Hm. case_bool_decide as Hab.
    + injection He as <-. destruct Hab as [-> ->]. split; [lia|]. intros [= ->]. by simpl in Hm.
    + destruct (find_crlf (b :: s)) as [n|]; [|done]. injection He as <-.
      destruct (IH n e eq_refl Hm). lia.
Qed.

Lemma parse_hex_bound s n : parse_hex s = Some n → (n < 2 ^ 64)%N.
Proof.
  unfold parse_hex. destruct (str_is_empty _); [done|]. destruct (hex_digits _ _); [|done].
  simpl. case_bool_decide; [|done]. by intros [= <-].
Qed.

(** A size that leaves the width gives nothing to the body, whichever the
    build. *)
Lemma feed_step_over raw d :
  (N.of_nat (length raw) < 2 ^ 63)%N → (N.of_nat (length (out d)) ≤ MAX_BODY)%N → turn raw d = TOver →
  match feed_step wraps raw d with Ret (Some _) d' => d' = d | Ret None _ => False | _ => True end.
Proof.
  intros Hr Ho. unfold feed_step, turn, get_state. unfold mbind, M_bind. cbn beta iota zeta.
  set (rest := drop (at_ d) raw).
  assert (Hlen : length rest ≤ length raw) by (unfold rest; rewrite length_drop; lia).
  destruct (find_crlf rest) as [eol|] eqn:He; [|done]. pose proof (find_crlf_bound _ _ He) as Hb.
  destruct (from_utf8 _) as [t|]; [|done]. destruct (parse_hex _) as [size|] eqn:Hs; [|done].
  apply parse_hex_bound in Hs. destruct (bool_decide (size = 0)%N); [done|].
  destruct (bool_decide (2 ^ 64 ≤ _)%N) eqn:Hover; [|by repeat case_match]. intros _.
  apply bool_decide_eq_true in Hover. unfold MAX_BODY in *.
  rewrite uadd_over by lia. destruct wraps; [|done].
  rewrite bool_decide_false by lia.
  destruct (decide (N.of_nat eol + 2 + size < 2 ^ 64)%N) as [Hd|Hd].
  - rewrite uadd_small by done.
    destruct (decide (N.of_nat eol + 2 + size + 2 < 2 ^ 64)%N) as [Hc|Hc].
    + rewrite uadd_small by done. by rewrite bool_decide_true by lia.
    + rewrite uadd_over by lia. rewrite bool_decide_false by lia. by rewrite slice_out by lia.
  - rewrite uadd_over by lia. rewrite uadd_small by lia.
    case_bool_decide as Hfit; [done|]. rewrite slice_in by lia.
    set (e := (N.of_nat eol + 2 + size - 2 ^ 64)%N) in *.
    replace (N.to_nat (e + 2 - e)) with 2 by lia.
    case_bool_decide as Hm; [|done]. cbn [negb].
    destruct (find_crlf_first _ _ _ He Hm). by rewrite slice_out by lia.
Qed.

(** ** The loop *)

(** The turns of a [feed] that leaves the width nowhere. *)
Inductive feeds (raw : bytes) : Dechunker → result unit string → Dechunker → Prop :=
  | feeds_already d : done d = true → feeds raw d (Ok tt) d
  | feeds_wait d : done d = false → turn raw d = TWait → feeds raw d (Ok tt) d
  | feeds_err d e : done d = false → turn raw d = TErr e → feeds raw d (Err e) d
  | feeds_done d d' : done d = false → turn raw d = TDone d' → feeds raw d (Ok tt) d'
  | feeds_chunk d d' r d'' :
      done d = false → turn raw d = TChunk d' → feeds raw d' r d'' → feeds raw d r d''.

(** A decoder that is not past its bytes nor over its bound. *)
Definition sane (raw : bytes) (d : Dechunker) : Prop :=
  at_ d ≤ length raw ∧ (N.of_nat (length (out d)) ≤ MAX_BODY)%N.

Lemma turn_sane raw d d' :
  sane raw d → turn raw d = TDone d' ∨ turn raw d = TChunk d' → sane raw d' ∧ at_ d < at_ d'.
Proof.
  intros [Hat Ho]. unfold turn. set (rest := drop (at_ d) raw).
  assert (Hl : length rest = length raw - at_ d) by apply length_drop.
  destruct (find_crlf rest) as [eol|] eqn:He; [|naive_solver]. pose proof (find_crlf_bound _ _ He) as Hb.
  destruct (from_utf8 _) as [t|]; [|naive_solver]. destruct (parse_hex _) as [size|]; [|naive_solver].
  case_bool_decide as Hz; [intros [[= <-]|[=]]; split; [split|]; simpl; [lia|done|lia]|].
  case_bool_decide; [naive_solver|]. case_bool_decide as Hm; [naive_solver|].
  case_bool_decide as Hfit; [naive_solver|]. destruct (negb _); [naive_solver|].
  intros [[=]|[= <-]]. split; [split|]; simpl; [lia| |lia].
  rewrite length_app, length_take, length_drop. lia.
Qed.

Lemma turn_chunk_open raw d d' : turn raw d = TChunk d' → done d' = false.
Proof. unfold turn. repeat case_match; try done; intros; by simplify_eq. Qed.

Lemma turn_done_done raw d d' : turn raw d = TDone d' → done d' = true ∧ out d' = out d.
Proof. unfold turn. repeat case_match; try done; intros; by simplify_eq. Qed.

Lemma feed_S fuel raw d :
  feed wraps (S fuel) raw d =
  if done d then Ret (Ok tt) d
  else match feed_step wraps raw d with
       | Ret (Some r) d' => Ret r d'
       | Ret None d' => feed wraps fuel raw d'
       | Panic => Panic
       | Overflow => Overflow
       | OutOfFuel => OutOfFuel
       end.
Proof.
  cbn [feed]. unfold get_state, mbind, M_bind. destruct (done d); [done|].
  by destruct (feed_step wraps raw d) as [[r|] d'| | |].
Qed.

Lemma feeds_feed raw d r d' fuel :
  (N.of_nat (length raw) < 2 ^ 63)%N → feeds raw d r d' → sane raw d →
  length raw - at_ d < fuel → feed wraps fuel raw d = Ret r d'.
Proof.
  intros Hr Hf. revert fuel. induction Hf as [d Hd|d Hd Ht|d e Hd Ht|d d' Hd Ht|d d' r d'' Hd Ht Hf IH];
    intros [|fuel] Hs Hfuel; try lia; rewrite feed_S, Hd; try done;
    rewrite feed_step_turn, Ht by (done || by rewrite Ht); cbn [turned]; try done.
  destruct (turn_sane raw d d' Hs) as [Hs' Hlt]; [by right|].
  apply IH; [done|]. destruct Hs'. lia.
Qed.

(** A [feed] that returns took such turns, or met a size that leaves the
    width and gave nothing more to the body. *)
Lemma feed_feeds raw fuel : ∀ d r d',
  (N.of_nat (length raw) < 2 ^ 63)%N → sane raw d →
  feed wraps fuel raw d = Ret r d' → feeds raw d r d' ∨ done d' = false.
Proof.
  induction fuel as [|fuel IH]; intros d r d' Hr Hs; [done|]. rewrite feed_S.
  destruct (done d) eqn:Hd; [intros [= <- <-]; left; by constructor|].
  assert (Hcase : turn raw d = TOver ∨ turn raw d ≠ TOver) by (destruct (turn raw d); naive_solver).
  destruct Hcase as [Ho|Ho].
  { pose proof (feed_step_over raw d Hr (proj2 Hs) Ho) as Hover.
    destruct (feed_step wraps raw d) as [[r0|] d0| | |]; [|done..]. intros [= <- <-].
    right. by rewrite Hover. }
  rewrite feed_step_turn by done. destruct (turn raw d) as [|e| |d1|d1] eqn:Ht; cbn [turned]; [| |done| |].
  - intros [= <- <-]. left. by apply feeds_wait.
  - intros [= <- <-]. left. by apply feeds_err.
  - intros [= <- <-]. left. by apply feeds_done.
  - intros Hf. destruct (turn_sane raw d d1 Hs) as [Hs' Hlt]; [by right|].
    destruct (IH d1 r d' Hr Hs' Hf); [|by right]. left. by eapply feeds_chunk.
Qed.

(** *** Bytes in pieces *)

Lemma feeds_resume raw more d r d1 :
  feeds raw d r d1 → sane raw d →
  match r with
  | Ok _ => ∀ r' d2, feeds (raw ++ more) d1 r' d2 → feeds (raw ++ more) d r' d2
  | Err e => feeds (raw ++ more) d (Err e) d1
  end.
Proof.
  induction 1 as [d Hd|d Hd Ht|d e Hd Ht|d d' Hd Ht|d d' r d'' Hd Ht Hf IH]; intros Hs; [done|done| | |].
  - apply feeds_err; [done|]. by rewrite turn_app by (apply Hs || by rewrite Ht).
  - intros r' d2 H2. destruct (turn_done_done _ _ _ Ht) as [Hdone _].
    inversion H2; subst; try congruence.
    apply feeds_done; [done|]. by rewrite turn_app by (apply Hs || by rewrite Ht).
  - assert (Ht' : turn (raw ++ more) d = TChunk d') by by rewrite turn_app by (apply Hs || by rewrite Ht).
    destruct (turn_sane raw d d' Hs) as [Hs' _]; [by right|]. specialize (IH Hs').
    destruct r as [[]|e]; [|by eapply feeds_chunk]. intros r' d2 H2. eapply feeds_chunk; [done..|auto].
Qed.

(** *** The grammar *)

Lemma drop_after (raw line rest : bytes) n k :
  drop n raw = line ++ rest → k = length line → drop (n + k) raw = rest.
Proof. intros H ->. rewrite <-drop_drop, H. apply drop_app_length. Qed.

Lemma turn_end raw d line rest :
  drop (at_ d) raw = line ++ CR :: LF :: rest → size_line line 0 →
  turn raw d = TDone (MkDechunker (out d) (at_ d + (length line + 2)) true).
Proof.
  intros Hd (Hl & t & Ht & Hs). unfold turn. rewrite Hd, find_crlf_here by done.
  by rewrite take_app_length, Ht, Hs.
Qed.

Lemma turn_chunk raw d line data rest :
  drop (at_ d) raw = line ++ CR :: LF :: data ++ CR :: LF :: rest → data ≠ [] →
  size_line line (N.of_nat (length data)) →
  (N.of_nat (length (out d ++ data)) ≤ MAX_BODY)%N →
  turn raw d = TChunk (MkDechunker (out d ++ data) (at_ d + (length line + 2 + length data + 2)) false).
Proof.
  intros Hd Hne (Hl & t & Ht & Hs) Hmax. rewrite length_app in Hmax. unfold MAX_BODY in Hmax.
  unfold turn. rewrite Hd, find_crlf_here by done. rewrite take_app_length, Ht, Hs.
  assert (length data ≠ 0) by by destruct data.
  rewrite !bool_decide_false by (unfold MAX_BODY; lia). cbn zeta.
  rewrite Nat2N.id.
  assert (Hlen : length (line ++ CR :: LF :: data ++ CR :: LF :: rest)
                 = length line + 2 + length data + 2 + length rest).
  { rewrite length_app. simpl. rewrite length_app. simpl. lia. }
  rewrite bool_decide_false by lia.
  assert (Hdata : drop (length line + 2) (line ++ CR :: LF :: data ++ CR :: LF :: rest)
                  = data ++ CR :: LF :: rest) by by rewrite drop_app_add.
  rewrite <-drop_drop, Hdata, drop_app_length. cbn [take].
  rewrite bool_decide_true by done. cbn [negb]. by rewrite take_app_length.
Qed.

Lemma turn_answers raw d :
  match turn raw d with
  | TDone d' => ∃ line rest, drop (at_ d) raw = line ++ CR :: LF :: rest ∧ size_line line 0
      ∧ d' = MkDechunker (out d) (at_ d + (length line + 2)) true
  | TChunk d' => ∃ line data rest, drop (at_ d) raw = line ++ CR :: LF :: data ++ CR :: LF :: rest
      ∧ data ≠ [] ∧ size_line line (N.of_nat (length data))
      ∧ d' = MkDechunker (out d ++ data) (at_ d + (length line + 2 + length data + 2)) false
  | _ => True
  end.
Proof.
  unfold turn. set (s := drop (at_ d) raw).
  destruct (find_crlf s) as [eol|] eqn:He; [|done].
  destruct (find_crlf_Some _ _ He) as (line & rest & Hs & <- & Hl).
  rewrite Hs, take_app_length. destruct (from_utf8 _) as [t|] eqn:Ht; [|done].
  destruct (parse_hex _) as [size|] eqn:Hsz; [|done].
  case_bool_decide as Hz.
  { subst size. exists line, rest. split_and!; [done| |done]. split; [done|by exists t]. }
  case_bool_decide; [done|]. case_bool_decide; [done|]. case_bool_decide as Hfit; [done|].
  destruct (bool_decide (_ = [CR; LF])) eqn:Hm; [|done]. apply bool_decide_eq_true in Hm. cbn [negb].
  rewrite <-drop_drop in Hm.
  assert (Hr : drop (length line + 2) (line ++ CR :: LF :: rest) = rest) by by rewrite drop_app_add.
  rewrite Hr in *. rewrite length_app in Hfit. simpl in Hfit.
  exists line, (take (N.to_nat size) rest), (drop (N.to_nat size + 2) rest).
  assert (Hlen : length (take (N.to_nat size) rest) = N.to_nat size) by (rewrite length_take; lia).
  rewrite Hlen, N2Nat.id. split_and!; [|intros Hn; rewrite Hn in Hlen; simpl in Hlen; lia| |done].
  - do 2 f_equal. rewrite <-(take_drop (N.to_nat size) rest) at 1. f_equal.
    rewrite <-(take_drop 2 (drop (N.to_nat size) rest)), Hm, drop_drop. done.
  - split; [done|by exists t].
Qed.

Lemma chunked_feeds s body used raw d :
  chunked s body used → drop (at_ d) raw = s → done d = false →
  (N.of_nat (length (out d ++ body)) ≤ MAX_BODY)%N →
  feeds raw d (Ok tt) (MkDechunker (out d ++ body) (at_ d + used) true).
Proof.
  intros Hc. revert d. induction Hc as [line rest Hs|line data rest body used Hne Hs Hc IH]; intros d Hd Ho Hmax.
  - rewrite app_nil_r. apply feeds_done; [done|]. by apply (turn_end raw d line rest).
  - rewrite app_assoc in Hmax.
    eapply feeds_chunk; [done|apply (turn_chunk raw d line data rest); [done..|]|].
    { rewrite length_app in Hmax. lia. }
    match goal with |- feeds _ ?x _ _ => specialize (IH x) end. cbn [at_ out done] in IH.
    rewrite app_assoc. rewrite !Nat.add_assoc. rewrite !Nat.add_assoc in IH. apply IH; [|done..].
    rewrite <-!Nat.add_assoc. apply (drop_after raw (line ++ [CR; LF] ++ data ++ [CR; LF])).
    + by rewrite Hd, <-!app_assoc.
    + rewrite !length_app. simpl. lia.
Qed.

Lemma feeds_chunked raw d r d' :
  feeds raw d r d' → done d = false → done d' = true →
  ∃ body used, chunked (drop (at_ d) raw) body used ∧ out d' = out d ++ body ∧ at_ d' = at_ d + used.
Proof.
  induction 1 as [d Hd|d Hd Ht|d e Hd Ht|d d' Hd Ht|d d' r d'' Hd Ht Hf IH]; intros Hopen Hdone;
    try congruence; pose proof (turn_answers raw d) as Ha; rewrite Ht in Ha.
  - destruct Ha as (line & rest & Heq & Hs & ->). exists [], (length line + 2).
    rewrite Heq, app_nil_r. split_and!; [|done..]. by apply chunked_end.
  - destruct Ha as (line & data & rest & Heq & Hne & Hs & ->).
    destruct (IH eq_refl Hdone) as (body & used & Hc & Ho & Hat). cbn [at_ out] in *.
    exists (data ++ body), (length line + 2 + length data + 2 + used).
    split_and!; [|by rewrite Ho, app_assoc|lia].
    rewrite Heq. apply chunked_chunk; [done..|].
    rewrite (drop_after raw (line ++ [CR; LF] ++ data ++ [CR; LF]) rest) in Hc; [done| |].
    + by rewrite Heq, <-!app_assoc.
    + rewrite !length_app. simpl. lia.
Qed.

Lemma feeds_sane raw d r d' : feeds raw d r d' → sane raw d → sane raw d'.
Proof.
  induction 1 as [d Hd|d Hd Ht|d e Hd Ht|d d' Hd Ht|d d' r d'' Hd Ht Hf IH]; intros Hs; try done.
  - apply (turn_sane raw d); [done|by left].
  - apply IH, (turn_sane raw d); [done|by right].
Qed.

(** Fed the same bytes again it stays where it is. *)
Lemma feeds_again raw d r d' : feeds raw d r d' → r = Ok tt → feeds raw d' (Ok tt) d'.
Proof.
  induction 1 as [d Hd|d Hd Ht|d e Hd Ht|d d' Hd Ht|d d' r d'' Hd Ht Hf IH]; intros Hr; try done.
  - by apply feeds_already.
  - by apply feeds_wait.
  - apply feeds_already. by apply (turn_done_done raw d).
  - by apply IH.
Qed.

Lemma default_sane raw : sane raw dechunker_default.
Proof. split; simpl; [lia|unfold MAX_BODY; lia]. Qed.

(** In either build: a chunked body within the bound is decoded to its bytes,
    and what is decoded is a chunked body's bytes. *)
Theorem dechunk_spec raw :
  (N.of_nat (length raw) < 2 ^ 63)%N →
  (∀ body used, chunked raw body used → (N.of_nat (length body) ≤ MAX_BODY)%N →
     feed wraps (S (length raw)) raw dechunker_default = Ret (Ok tt) (MkDechunker body used true))
  ∧ ∀ fuel r d, feed wraps fuel raw dechunker_default = Ret r d → done d = true →
      chunked raw (out d) (at_ d) ∧ (N.of_nat (length (out d)) ≤ MAX_BODY)%N.
Proof.
  intros Hr. pose proof (default_sane raw) as Hs. split.
  - intros body used Hc Hmax. apply feeds_feed; [done| |done|simpl; lia].
    by apply (chunked_feeds _ body used raw dechunker_default Hc).
  - intros fuel r d Hf Hdone. destruct (feed_feeds _ _ _ _ _ Hr Hs Hf) as [H|H]; [|congruence].
    destruct (feeds_chunked _ _ _ _ H eq_refl Hdone) as (body & used & Hc & Ho & Ha).
    split; [by rewrite Ho, Ha|]. apply (feeds_sane _ _ _ _ H Hs).
Qed.

(** Fed as the bytes come, one call for each arrival. *)
Fixpoint feed_pieces (seen : bytes) (pieces : list bytes) (d : Dechunker) : outcome Dechunker (result unit string) :=
  match pieces with
  | [] => Ret (Ok tt) d
  | p :: pieces =>
      match feed wraps (S (length (seen ++ p))) (seen ++ p) d with
      | Ret (Ok _) d => feed_pieces (seen ++ p) pieces d
      | o => o
      end
  end.

Lemma turn_waits raw d : turn raw d = TWait ∨ turn raw d ≠ TWait.
Proof. destruct (turn raw d); [by left|by right..]. Qed.

Lemma feeds_prefix raw more d r d2 :
  feeds (raw ++ more) d r d2 → sane raw d →
  ∃ r1 d1, feeds raw d r1 d1 ∧ sane raw d1
    ∧ match r1 with Ok _ => feeds (raw ++ more) d1 r d2 | Err e => r = Err e ∧ d1 = d2 end.
Proof.
  intros Hf. induction Hf as [d Hd|d Hd Ht|d e Hd Ht|d d' Hd Ht|d d' r d'' Hd Ht Hf IH]; intros Hs.
  { exists (Ok tt), d. split_and!; [by constructor|done|by constructor]. }
  all: destruct (turn_waits raw d) as [Hw|Hw];
    [exists (Ok tt), d; split; [by apply feeds_wait|split; [done|]]
    |rewrite turn_app in Ht by (apply Hs || done)].
  - by apply feeds_wait.
  - done.
  - by apply feeds_err.
  - exists (Err e), d. split_and!; [by apply feeds_err|done..].
  - by apply feeds_done.
  - exists (Ok tt), d'. split; [by apply feeds_done|].
    split; [apply (turn_sane raw d d' Hs); by left|]. apply feeds_already. by apply (turn_done_done raw d).
  - by eapply feeds_chunk.
  - destruct (turn_sane raw d d' Hs) as [Hs1 _]; [by right|].
    destruct (IH Hs1) as (r1 & d3 & Hf1 & Hs3 & Hr). exists r1, d3.
    split_and!; [by eapply feeds_chunk|done..].
Qed.

Lemma feed_pieces_whole p pieces : ∀ seen d r d2,
  feeds (seen ++ p ++ concat pieces) d r d2 → sane seen d →
  (N.of_nat (length (seen ++ p ++ concat pieces)) < 2 ^ 63)%N →
  feed_pieces seen (p :: pieces) d = Ret r d2.
Proof.
  revert p. induction pieces as [|q pieces IH]; intros p seen d r d2 Hf [Hat Ho] Hlen.
  - cbn [concat] in *. rewrite app_nil_r in *. cbn [feed_pieces].
    rewrite (feeds_feed _ _ _ _ _ Hlen Hf) by (repeat split; rewrite ?length_app; lia).
    by destruct r as [[]|e].
  - assert (Hs : sane (seen ++ p) d) by (split; rewrite ?length_app; lia).
    rewrite (app_assoc seen) in Hf, Hlen.
    destruct (feeds_prefix _ _ _ _ _ Hf Hs) as (r1 & d1 & Hf1 & Hs1 & Hr1).
    change (feed_pieces seen (p :: q :: pieces) d)
      with (match feed wraps (S (length (seen ++ p))) (seen ++ p) d with
            | Ret (Ok _) d => feed_pieces (seen ++ p) (q :: pieces) d
            | o => o
            end).
    assert (Hseen : (N.of_nat (length (seen ++ p)) < 2 ^ 63)%N).
    { rewrite length_app in Hlen. lia. }
    rewrite (feeds_feed _ _ _ _ _ Hseen Hf1 Hs) by lia.
    destruct r1 as [[]|e]; [by apply IH|]. by destruct Hr1 as [-> ->].
Qed.

(** However a chunked body is cut into arrivals, and whatever follows it, it
    is decoded to its bytes. *)
Theorem dechunk_pieces pieces body used :
  chunked (concat pieces) body used → (N.of_nat (length body) ≤ MAX_BODY)%N →
  (N.of_nat (length (concat pieces)) < 2 ^ 63)%N →
  feed_pieces [] pieces dechunker_default = Ret (Ok tt) (MkDechunker body used true).
Proof.
  intros Hc Hmax Hlen. pose proof (default_sane []) as Hs.
  destruct pieces as [|p pieces].
  { cbn in Hc. inversion Hc; match goal with E : ?l ++ _ = [] |- _ => by destruct l end. }
  apply (feed_pieces_whole p pieces []); [|done..].
  by apply (chunked_feeds _ body used _ dechunker_default Hc).
Qed.
End feed.

(** A size next to the width: a build that checks its additions panics, one
    that does not slices backwards and panics too. *)
Definition hostile : bytes :=
  as_bytes ("2" +:+ crlf +:+ "ab" +:+ crlf +:+ "fffffffffffffffe" +:+ crlf).

Theorem hostile_size :
  feed false (S (length hostile)) hostile dechunker_default = Overflow
  ∧ feed true (S (length hostile)) hostile dechunker_default = Panic.
Proof. by vm_compute. Qed.

(** ** What a decoder is made of *)

Definition step (raw : bytes) (d d' : Dechunker) : Prop :=
  RestBody.done d = false ∧ turn raw d = TChunk d'.

(** What some chunks of the bytes, and perhaps the last, make of a decoder. *)
Definition decoding (raw : bytes) (d d' : Dechunker) : Prop :=
  ∃ dm, rtc (step raw) d dm ∧ (d' = dm ∨ RestBody.done dm = false ∧ turn raw dm = TDone d').

Lemma decoding_refl raw d : decoding raw d d.
Proof. exists d. split; [constructor|by left]. Qed.

Lemma steps_sane raw d d' : rtc (step raw) d d' → sane raw d → sane raw d'.
Proof.
  induction 1 as [d|d d1 d' [_ Ht] _ IH]; [done|]. intros Hs. apply IH, (turn_sane raw d); [done|by right].
Qed.

Lemma decoding_sane raw d d' : decoding raw d d' → sane raw d → sane raw d'.
Proof.
  intros (dm & Hr & Hd) Hs. pose proof (steps_sane _ _ _ Hr Hs) as Hm.
  destruct Hd as [->|[_ Ht]]; [done|]. apply (turn_sane raw dm); [done|by left].
Qed.

Lemma decoding_feed wraps raw fuel : ∀ d r d',
  (N.of_nat (length raw) < 2 ^ 63)%N → sane raw d → feed wraps fuel raw d = Ret r d' → decoding raw d d'.
Proof.
  induction fuel as [|fuel IH]; intros d r d' Hr Hs; [done|]. rewrite feed_S.
  destruct (RestBody.done d) eqn:Hd; [intros [= <- <-]; apply decoding_refl|].
  assert (Hcase : turn raw d = TOver ∨ turn raw d ≠ TOver) by (destruct (turn raw d); naive_solver).
  destruct Hcase as [Ho|Ho].
  { pose proof (feed_step_over wraps raw d Hr (proj2 Hs) Ho) as Hover.
    destruct (feed_step wraps raw d) as [[r0|] d0| | |]; [|done..]. intros [= <- <-].
    rewrite Hover. apply decoding_refl. }
  rewrite feed_step_turn by done. destruct (turn raw d) as [|e| |d1|d1] eqn:Ht; cbn [turned];
    [intros [= <- <-]; apply decoding_refl..|done| |].
  - intros [= <- <-]. exists d. split; [constructor|by right].
  - intros Hf. destruct (turn_sane raw d d1 Hs) as [Hs' _]; [by right|].
    destruct (IH d1 r d' Hr Hs' Hf) as (dm & Hsteps & Hm). exists dm. split; [|done].
    by eapply rtc_l.
Qed.

Lemma decoding_more raw more d d' : decoding raw d d' → sane raw d → decoding (raw ++ more) d d'.
Proof.
  intros (dm & Hr & Hd) Hs. exists dm. split.
  - clear Hd. induction Hr as [d|d d1 dn [Ho Ht] _ IH]; [constructor|].
    apply (rtc_l _ _ d1).
    + split; [done|]. by rewrite turn_app by (apply Hs || by rewrite Ht).
    + apply IH, (turn_sane raw d); [done|by right].
  - destruct Hd as [->|[Ho Ht]]; [by left|right]. split; [done|].
    rewrite turn_app by (apply (steps_sane _ _ _ Hr Hs) || by rewrite Ht). done.
Qed.

Lemma decoding_trans raw d d1 d2 : decoding raw d d1 → decoding raw d1 d2 → decoding raw d d2.
Proof.
  intros (dm & Hr & Hd) (dn & Hr' & Hd'). destruct Hd as [->|[Ho Ht]].
  - exists dn. split; [by etrans|done].
  - destruct (turn_done_done _ _ _ Ht) as [Hdone _].
    assert (dn = d1) as -> by (inversion Hr' as [|? ? ? [Ho' _]]; subst; [done|congruence]).
    destruct Hd' as [->|[Ho' _]]; [|congruence]. exists dm. split; [done|by right].
Qed.

(** A finished decoding is of a chunked body. *)
Lemma decoding_chunked raw d :
  decoding raw dechunker_default d → RestBody.done d = true → ∃ used, chunked raw (out d) used.
Proof.
  intros (dm & Hr & Hd) Hdone.
  assert (Hf : feeds raw dechunker_default (Ok tt) d).
  { clear -Hr Hd Hdone. induction Hr as [d0|d0 d1 dn [Ho Ht] _ IH].
    - destruct Hd as [->|[Ho Ht]]; [by apply feeds_already|by apply feeds_done].
    - eapply feeds_chunk; [done..|]. by apply IH. }
  destruct (feeds_chunked _ _ _ _ Hf eq_refl Hdone) as (body & used & Hc & Ho & _).
  exists used. by rewrite Ho.
Qed.
End ChunkFacts.
