(* ===== verification/BodySpec.v ===== *)
(** * What the exchange makes of a response

    The exchange of [RestBody]: a response is answered with its body however
    it is cut into arrivals and whatever follows it, one cut short never is,
    and nothing is answered that its framing does not hold; and the call,
    which dials nothing its scope does not let it. *)

From S2P Require Import Prelude.
From S2P Require Import Bytes.
From S2P Require Import Value.
From S2P Require Import Node.
From S2P Require Import Caps.
From S2P Require Import Connector.
From S2P Require Import Reach.
From S2P Require Import Rest.
From S2P Require Import RestBody.
From S2P Require Import ChunkSpec.

Module BodyFacts.
Import Rest RestBody ChunkFacts.

(** ** The head

    What is relied on of the parser of heads: a head is read from its own
    bytes whatever follows them, a head cut short is waited for, and a head
    takes some of the bytes it is read from. *)
Class HttparseLaws `{!Httparse} := {
  parse_own buf p more :
    http_parse buf = Ok (Some p) → http_parse (take (took p) buf ++ more) = Ok (Some p);
  parse_short buf p n : http_parse buf = Ok (Some p) → n < took p → http_parse (take n buf) = Ok None;
  parse_took buf p : http_parse buf = Ok (Some p) → 0 < took p ≤ length buf;
}.

Section head.
Context `{!Httparse} `{!HttparseLaws}.

Lemma parse_head_inv buf h :
  parse_head buf = Ok (Some h) → ∃ p, http_parse buf = Ok (Some p) ∧ took p = consumed h.
Proof.
  unfold parse_head. destruct (http_parse buf) as [[p|]|e] eqn:Hp; simpl; [|done..].
  destruct (code p) as [c|]; [|done]. destruct (framing c (sent p)); simpl; [|done].
  intros [= <-]. by exists p.
Qed.

Lemma parse_head_took buf h : parse_head buf = Ok (Some h) → 0 < consumed h ≤ length buf.
Proof. intros (p & Hp & <-)%parse_head_inv. by apply parse_took. Qed.

(** A head in the first bytes is there or not yet. *)
Lemma parse_head_take buf h n :
  parse_head buf = Ok (Some h) →
  parse_head (take n buf) = if bool_decide (n < consumed h) then Ok None else Ok (Some h).
Proof.
  intros Hh. destruct (parse_head_inv _ _ Hh) as (p & Hp & Ht). case_bool_decide as Hn.
  - unfold parse_head. by rewrite (parse_short buf p n) by (done || lia).
  - assert (Hq : http_parse (take n buf) = Ok (Some p)).
    { pose proof (parse_own buf p (take (n - took p) (drop (took p) buf)) Hp) as Hown.
      rewrite take_take_drop in Hown. by replace (took p + (n - took p)) with n in Hown by lia. }
    revert Hh. unfold parse_head. by rewrite Hp, Hq.
Qed.

(** The final head and where it is: past the interim ones. *)
Inductive heads (buf : bytes) : nat → Head → Prop :=
  | heads_final from h :
      parse_head (drop from buf) = Ok (Some h) → interim (status h) = false →
      heads buf from (MkHead (status h) (head_headers h) (from + consumed h) (body_end h))
  | heads_interim from h h' :
      parse_head (drop from buf) = Ok (Some h) → interim (status h) = true →
      heads buf (from + consumed h) h' → heads buf from h'.

Lemma heads_after buf from h : heads buf from h → from < consumed h ≤ length buf.
Proof.
  induction 1 as [from h Hp|from h h' Hp Hi _ IH]; simpl;
    destruct (parse_head_took _ _ Hp) as [Ht1 Ht2]; rewrite length_drop in Ht2; lia.
Qed.

Lemma final_head_heads buf fuel : ∀ from h,
  final_head_from fuel from buf = Some (Ok (Some h)) → heads buf from h.
Proof.
  induction fuel as [|fuel IH]; intros from h; simpl; [done|].
  destruct (parse_head _) as [[g|]|e] eqn:Hp; [|done..].
  destruct (interim (status g)) eqn:Hi; intros Hf.
  - eapply heads_interim; eauto.
  - injection Hf as <-. by apply heads_final.
Qed.

Lemma heads_take buf from h fuel n :
  heads buf from h → from ≤ n → n < from + fuel →
  final_head_from fuel from (take n buf)
  = Some (Ok (if bool_decide (n < consumed h) then None else Some h)).
Proof.
  intros Hh. revert fuel. induction Hh as [from h Hp Hi|from h h' Hp Hi Hh IH]; intros [|fuel] Hn Hfuel;
    [lia| |lia|]; simpl; rewrite skipn_firstn_comm;
    rewrite (parse_head_take _ _ _ Hp).
  - destruct (decide (n - from < consumed h)) as [Hc|Hc].
    + by rewrite !bool_decide_true by lia.
    + by rewrite (bool_decide_false (n - from < _)), Hi, bool_decide_false by lia.
  - pose proof (heads_after _ _ _ Hh) as Ha. destruct (parse_head_took _ _ Hp).
    destruct (decide (n - from < consumed h)) as [Hc|Hc].
    + by rewrite !bool_decide_true by lia.
    + rewrite (bool_decide_false (n - from < _)), Hi by done. apply IH; lia.
Qed.

(** The final head is found in as many bytes as hold it, and in no fewer. *)
Lemma final_head_take buf h n :
  final_head buf = Some (Ok (Some h)) → n ≤ length buf →
  final_head (take n buf) = Some (Ok (if bool_decide (n < consumed h) then None else Some h)).
Proof.
  intros Hh%final_head_heads Hn. unfold final_head. rewrite length_take.
  apply heads_take; [done|lia..].
Qed.
End head.

(** ** The exchange *)

Lemma feeds_det raw d r1 d1 r2 d2 :
  (N.of_nat (length raw) < 2 ^ 63)%N → sane raw d →
  feeds raw d r1 d1 → feeds raw d r2 d2 → r1 = r2 ∧ d1 = d2.
Proof.
  intros Hr Hs Hf1 Hf2.
  pose proof (feeds_feed true _ _ _ _ (S (length raw)) Hr Hf1 Hs ltac:(lia)) as H1'.
  pose proof (feeds_feed true _ _ _ _ (S (length raw)) Hr Hf2 Hs ltac:(lia)) as H2'.
  rewrite H1' in H2'. by injection H2'.
Qed.

Section loop.
Context (wraps : bool) `{!Httparse} `{!HttparseLaws}.
Context (whole : bytes) (h : Head).
Context (Hh : final_head whole = Some (Ok (Some h))).
Context (Hlen : (N.of_nat (length whole) ≤ MAX_BODY + 64 * 1024)%N).

(** Bytes the framing takes, as far as they go: a length within the bound,
    chunks the decoder does not refuse. *)
Definition fine : Prop :=
  match body_end h with
  | Length n => (n ≤ MAX_BODY)%N
  | Chunked => ∃ d, feeds (drop (consumed h) whole) dechunker_default (Ok tt) d
  | Close => True
  end.

(** What the loop holds after some of the bytes. *)
Definition held (n : nat) (head : option Head) (d : Dechunker) : Prop :=
  if bool_decide (n < consumed h) then head = None ∧ d = dechunker_default
  else head = Some h ∧
    match body_end h with
    | Chunked => feeds (drop (consumed h) (take n whole)) dechunker_default (Ok tt) d
    | _ => d = dechunker_default
    end.

Lemma small_prefix (raw : bytes) : length raw ≤ length whole → (N.of_nat (length raw) < 2 ^ 63)%N.
Proof. clear Hh. unfold MAX_BODY in Hlen. lia. Qed.

(** What the decoder holds after the first bytes, and what it makes of some
    more. *)
Lemma feed_more raw i j d dw fuel :
  length raw ≤ length whole → i ≤ j → length (take j raw) < fuel →
  feeds raw dechunker_default (Ok tt) dw →
  feeds (take i raw) dechunker_default (Ok tt) d →
  ∃ d', feed wraps fuel (take j raw) d = Ret (Ok tt) d'
    ∧ feeds (take j raw) dechunker_default (Ok tt) d'.
Proof.
  intros Hl Hij Hfuel Hw Hd.
  assert (Hds : sane (take i raw) d) by (apply (feeds_sane _ _ _ _ Hd), default_sane).
  rewrite <-(take_drop i raw) in Hw.
  destruct (feeds_prefix _ _ _ _ _ Hw (default_sane _)) as (r1 & d1 & Hf1 & _ & Hr1).
  assert (Hi : length (take i raw) ≤ length whole) by (rewrite length_take; lia).
  destruct (feeds_det _ _ _ _ _ _ (small_prefix _ Hi) (default_sane _) Hd Hf1) as [<- <-].
  assert (Hj : take j raw = take i raw ++ take (j - i) (drop i raw)).
  { rewrite take_take_drop. f_equal. lia. }
  rewrite take_drop in Hr1. rewrite <-(take_drop j raw) in Hr1.
  assert (Hs : sane (take j raw) d).
  { destruct Hds as [Hat Ho]. split; [|done]. rewrite length_take in *. lia. }
  destruct (feeds_prefix _ _ _ _ _ Hr1 Hs) as (r2 & d2 & Hf2 & _ & Hr2).
  destruct r2 as [[]|e]; [|by destruct Hr2]. exists d2. split.
  - apply feeds_feed; [apply small_prefix; rewrite length_take; lia|done..|lia].
  - rewrite Hj in Hf2 |- *. by apply (feeds_resume _ _ _ _ _ Hd (default_sane _)).
Qed.

Lemma bind_ret {A B} (a : A) (f : A → M Dechunker B) (m : M Dechunker A) d d' :
  m d = Ret a d' → (m ≫= f) d = f a d'.
Proof. unfold mbind, M_bind. by intros ->. Qed.

Context (Hfine : fine).

(** The decoder against the bytes behind the head. *)
Definition decoded (n : nat) (d : Dechunker) : Prop :=
  match body_end h with
  | Chunked => feeds (drop (consumed h) (take n whole)) dechunker_default (Ok tt) d
  | _ => d = dechunker_default
  end.

Lemma held_decoded n head d : held n head d → decoded n d ∧ (n < consumed h → d = dechunker_default).
Proof.
  unfold held, decoded. destruct (decide (n < consumed h)) as [Hn|Hn].
  - rewrite bool_decide_true by done. intros [-> ->]. split; [|done].
    destruct (body_end h); [done| |done]. rewrite drop_ge by (rewrite length_take; lia).
    by apply feeds_wait.
  - rewrite bool_decide_false by done. intros [_ Hd]. by split.
Qed.

Lemma held_head n head d m :
  n ≤ m → m ≤ length whole → held n head d →
  (match head with Some h => mret (Ok (Some h)) | None => with_fuel (final_head (take m whole)) end) d
  = Ret (Ok (if bool_decide (m < consumed h) then None else Some h)) d.
Proof.
  intros Hnm Hm. unfold held. destruct (decide (n < consumed h)) as [Hn|Hn].
  - rewrite (bool_decide_true (n < _)) by done. intros [-> ->]. by rewrite (final_head_take whole h m Hh Hm).
  - rewrite (bool_decide_false (n < _)) by done. intros [-> _]. by rewrite bool_decide_false by lia.
Qed.

Lemma decoded_more n m d :
  n ≤ m → m ≤ length whole → consumed h ≤ m → body_end h = Chunked → decoded n d →
  ∃ d', feed wraps (S (length (take m whole))) (drop (consumed h) (take m whole)) d = Ret (Ok tt) d'
    ∧ decoded m d'.
Proof.
  intros Hnm Hm Hc Hb. unfold decoded. rewrite Hb. intros Hd. unfold fine in Hfine. rewrite Hb in Hfine.
  destruct Hfine as [dw Hw]. rewrite !skipn_firstn_comm in *.
  apply (feed_more _ (n - consumed h) _ _ dw); rewrite ?length_take, ?length_drop; try done; lia.
Qed.

(** One arrival. *)
Lemma absorb_held n m head d :
  n ≤ m → m ≤ length whole → held n head d →
  ∃ head' d', absorb wraps (take m whole) head d = Ret (Ok head') d' ∧ held m head' d'.
Proof.
  intros Hnm Hm Hheld. unfold absorb.
  assert (Hlim : bool_decide (MAX_BODY + 64 * 1024 < N.of_nat (length (take m whole)))%N = false).
  { apply bool_decide_eq_false. rewrite length_take. lia. }
  rewrite (bind_ret _ _ _ _ _ (held_head _ _ _ _ Hnm Hm Hheld)).
  destruct (held_decoded _ _ _ Hheld) as [Hd Hd0]. unfold held. rewrite Hlim.
  destruct (decide (m < consumed h)) as [Hc|Hc].
  { rewrite !bool_decide_true by done. exists None, d. rewrite (bind_ret (Ok tt) _ _ _ d) by done.
    split; [done|split; [done|apply Hd0; lia]]. }
  rewrite !(bool_decide_false (m < _)) by done. exists (Some h).
  destruct (body_end h) as [len| |] eqn:Hb.
  - exists d. unfold fine in Hfine. unfold decoded in Hd. rewrite Hb in Hfine, Hd.
    rewrite (bind_ret (Ok tt) _ _ _ d) by by rewrite bool_decide_false by lia. done.
  - destruct (decoded_more n m d) as (d' & Hf & Hd'); [done|done|lia|done|done|].
    exists d'. rewrite (bind_ret _ _ _ _ _ Hf). unfold decoded in Hd'. by rewrite Hb in Hd'.
  - exists d. unfold decoded in Hd. rewrite Hb in Hd. by rewrite (bind_ret (Ok tt) _ _ _ d).
Qed.

(** The loop over the arrivals: it stops with the body complete, or has read
    them all. *)
Lemma loop_reads pieces tail n head d :
  Forall (λ p, p ≠ []) pieces → take n whole ++ concat pieces = whole → n ≤ length whole → held n head d →
  ∃ m head' d', n ≤ m ≤ length whole ∧ held m head' d'
    ∧ ((∃ g, head' = Some g ∧ complete g (take m whole) d' = true
        ∧ read_loop wraps ((Got <$> pieces) ++ tail) (take n whole) head d
          = Ret (Read_ (take m whole) head' false) d')
      ∨ m = length whole
        ∧ read_loop wraps ((Got <$> pieces) ++ tail) (take n whole) head d
          = read_loop wraps tail whole head' d').
Proof.
  intros Hp. revert n head d. induction Hp as [|p pieces Hne Hp IH]; intros n head d Heq Hn Hheld.
  - exists (length whole), head, d. cbn [concat] in Heq. rewrite app_nil_r in Heq.
    assert (n = length whole) as ->.
    { apply (f_equal length) in Heq. rewrite length_take in Heq. lia. }
    split_and!; [lia..|done|]. right. split; [done|]. cbn [fmap list_fmap app]. by rewrite take_ge by done.
  - destruct (match head with Some g => complete g (take n whole) d | None => false end) eqn:Hc.
    { exists n, head, d. split_and!; [lia|done|done|]. left. destruct head as [g|]; [|done].
      exists g. split_and!; [done..|]. cbn. unfold get_state, mbind, M_bind. by rewrite Hc. }
    set (m := n + length p). cbn [concat] in Heq.
    assert (Hm : m ≤ length whole).
    { apply (f_equal length) in Heq. rewrite !length_app, length_take in Heq. lia. }
    assert (Htake : take n whole ++ p = take m whole).
    { rewrite <-Heq at 2. rewrite app_assoc. symmetry. apply take_app_length'.
      rewrite length_app, length_take. lia. }
    destruct (absorb_held n m head d ltac:(lia) Hm Hheld) as (head1 & d1 & Ha & Hheld1).
    rewrite app_assoc, Htake in Heq.
    destruct (IH m head1 d1 Heq Hm Hheld1) as (k & head2 & d2 & Hk & Hheld2 & Hrest).
    exists k, head2, d2. split_and!; [lia|lia|done|].
    assert (Hstep : read_loop wraps ((Got <$> p :: pieces) ++ tail) (take n whole) head d
                    = read_loop wraps ((Got <$> pieces) ++ tail) (take m whole) head1 d1).
    { destruct p as [|c p]; [done|]. cbn [fmap list_fmap app read_loop].
      unfold get_state. rewrite (bind_ret d _ _ d d) by done. rewrite Hc, Htake.
      by rewrite (bind_ret _ _ _ _ _ Ha). }
    by rewrite Hstep.
Qed.

Lemma held_start : held 0 None dechunker_default.
Proof.
  pose proof (heads_after _ _ _ (final_head_heads _ _ _ _ Hh)) as Ha.
  unfold held. by rewrite bool_decide_true by lia.
Qed.

Lemma held_some m g d : held m (Some g) d → g = h ∧ consumed h ≤ m ∧ decoded m d.
Proof.
  intros Hheld. destruct (held_decoded _ _ _ Hheld) as [Hd _]. unfold held in Hheld.
  destruct (decide (m < consumed h)) as [Hm|Hm].
  - rewrite bool_decide_true in Hheld by done. by destruct Hheld.
  - rewrite bool_decide_false in Hheld by done. destruct Hheld as [[= ->] _]. split_and!; [done|lia|done].
Qed.

Lemma held_end d head : held (length whole) head d → head = Some h ∧ decoded (length whole) d.
Proof.
  pose proof (heads_after _ _ _ (final_head_heads _ _ _ _ Hh)) as Ha.
  intros Hheld. destruct (held_decoded _ _ _ Hheld) as [Hd _]. unfold held in Hheld.
  rewrite bool_decide_false in Hheld by lia. by destruct Hheld as [-> _].
Qed.

(** After the loop, with the whole or with as much as the framing asks. *)
Lemma after_loop_held m d unclean :
  m ≤ length whole → consumed h ≤ m →
  after_loop wraps (take m whole) (Some h) unclean d
  = (body ← body_of wraps h (drop (consumed h) (take m whole)) unclean;
     mret (body ←? body;
           if bool_decide (MAX_BODY < N.of_nat (length body))%N then Err "too_large"
           else Ok (MkResponse (status h) (head_headers h) body))) d.
Proof.
  intros Hm Hc. unfold after_loop. rewrite (final_head_take whole h m Hh Hm).
  by rewrite (bind_ret _ _ _ d d) by done.
Qed.
End loop.

(** The bytes behind the head that are the body, by the framing. *)
Definition body_in (h : Head) (raw body : bytes) : Prop :=
  match body_end h with
  | Length n => (n ≤ N.of_nat (length raw))%N ∧ body = take (N.to_nat n) raw
  | Chunked => ∃ used, chunked raw body used
  | Close => body = raw
  end.

(** Bytes behind the head that are only the first of such a body. *)
Definition cut_short (h : Head) (raw : bytes) : Prop :=
  match body_end h with
  | Length n => (N.of_nat (length raw) < n ≤ MAX_BODY)%N
  | Chunked => ∃ more body used, chunked (raw ++ more) body used
      ∧ (N.of_nat (length body) ≤ MAX_BODY)%N ∧ length raw < used
  | Close => False
  end.

(** The reads with which a peer ends its sending, and whether uncleanly. *)
Inductive closing : list Read → bool → Prop :=
  | closing_clean rs : closing (Got [] :: rs) false
  | closing_unclean rs : closing (UnexpectedEof :: rs) true.

Section exchange.
Context (wraps : bool) `{!Httparse} `{!HttparseLaws}.

(** The bytes of a response, cut into arrivals. *)
Context (pieces : list bytes) (Hpieces : Forall (λ p, p ≠ []) pieces).
Context (h : Head) (Hh : final_head (concat pieces) = Some (Ok (Some h))).
Context (Hlen : (N.of_nat (length (concat pieces)) ≤ MAX_BODY + 64 * 1024)%N).
Abbreviation whole := (concat pieces).
Abbreviation raw := (drop (consumed h) whole).

Lemma small_raw : (N.of_nat (length raw) < 2 ^ 63)%N.
Proof. rewrite length_drop. unfold MAX_BODY in Hlen. lia. Qed.

(** Where the framing says the body has ended, it has, and the body is that. *)
Lemma complete_body m d unclean body :
  m ≤ length whole → body_in h raw body → (N.of_nat (length body) ≤ MAX_BODY)%N →
  decoded whole h m d → complete h (take m whole) d = true →
  body_of wraps h (drop (consumed h) (take m whole)) unclean d = Ret (Ok body) d.
Proof.
  intros Hm Hin Hmax Hd. unfold complete, body_of, body_in, decoded in *.
  assert (Hsub : length (drop (consumed h) (take m whole))
                 = length (take m whole) - consumed h `min` length (take m whole)).
  { rewrite length_drop. lia. }
  destruct (body_end h) as [n| |]; [| |done].
  - rewrite <-Hsub, skipn_firstn_comm. intros Hn%bool_decide_eq_true. destruct Hin as [Hin ->].
    rewrite bool_decide_false by lia. rewrite take_take.
    rewrite length_take in Hn. by replace (N.to_nat n `min` (m - consumed h)) with (N.to_nat n) by lia.
  - intros Hdone. destruct Hin as [used Hc]. rewrite skipn_firstn_comm in *.
    rewrite (bind_ret (Ok tt) _ _ _ d) by by rewrite feed_S, Hdone.
    unfold get_state. rewrite (bind_ret d _ _ d d) by done. rewrite Hdone. cbn [negb].
    pose proof (chunked_feeds _ _ _ raw dechunker_default Hc eq_refl eq_refl Hmax) as Hw.
    pose proof (feeds_resume _ (drop (m - consumed h) raw) _ _ _ Hd (default_sane _)) as Hres.
    rewrite take_drop in Hres. specialize (Hres _ _ (feeds_already _ _ Hdone)).
    destruct (feeds_det _ _ _ _ _ _ small_raw (default_sane _) Hres Hw) as [_ ->]. done.
Qed.

Lemma ended_complete body d :
  body_end h ≠ Close → body_in h raw body → (N.of_nat (length body) ≤ MAX_BODY)%N →
  decoded whole h (length whole) d → complete h whole d = true.
Proof.
  intros Hb Hin Hmax Hd. unfold complete, body_in, decoded in *.
  destruct (body_end h) as [n| |]; [| |done].
  - apply bool_decide_eq_true. destruct Hin as [Hin _]. rewrite length_drop in Hin. lia.
  - destruct Hin as [used Hc]. rewrite take_ge in Hd by done.
    pose proof (chunked_feeds _ _ _ raw dechunker_default Hc eq_refl eq_refl Hmax) as Hw.
    by destruct (feeds_det _ _ _ _ _ _ small_raw (default_sane _) Hd Hw) as [_ ->].
Qed.

Lemma body_fine body : body_in h raw body → (N.of_nat (length body) ≤ MAX_BODY)%N → fine whole h.
Proof.
  intros Hin Hmax. unfold body_in, fine in *. destruct (body_end h) as [n| |]; [| |done].
  - destruct Hin as [Hn ->]. rewrite length_take in Hmax. lia.
  - destruct Hin as [used Hc]. eexists.
    apply (chunked_feeds _ _ _ raw dechunker_default Hc eq_refl eq_refl Hmax).
Qed.

Lemma exchange_reads sock request d :
  write_all sock request = Ok tt → flush sock = Ok tt →
  exchange wraps sock request d
  = (r ← read_loop wraps (reads sock request) [] None;
     match r with
     | Waiting => mret None
     | Failed e => mret (Some (Err e))
     | Read_ buf head unclean => r ← after_loop wraps buf head unclean; mret (Some r)
     end) dechunker_default.
Proof. intros Hw Hf. unfold exchange. by rewrite Hw, Hf. Qed.

(** The loop has left with a head and what is behind it. *)
Lemma exchange_after sock request d m unclean d' r :
  write_all sock request = Ok tt → flush sock = Ok tt →
  read_loop wraps (reads sock request) [] None dechunker_default
    = Ret (Read_ (take m whole) (Some h) unclean) d' →
  m ≤ length whole → consumed h ≤ m →
  body_of wraps h (drop (consumed h) (take m whole)) unclean d' = Ret r d' →
  exchange wraps sock request d
  = Ret (Some (body ←? r;
               if bool_decide (MAX_BODY < N.of_nat (length body))%N then Err "too_large"
               else Ok (MkResponse (status h) (head_headers h) body))) d'.
Proof.
  intros Hw Hf Hr Hm Hc Hb. rewrite exchange_reads, (bind_ret _ _ _ _ _ Hr) by done.
  unfold mbind at 1, M_bind at 1. rewrite (after_loop_held wraps whole) by done.
  by rewrite (bind_ret _ _ _ _ _ Hb).
Qed.

Lemma loop_complete tail buf g d :
  complete g buf d = true → read_loop wraps tail buf (Some g) d = Ret (Read_ buf (Some g) false) d.
Proof. intros Hc. by destruct tail as [|[]]; cbn; unfold get_state, mbind, M_bind; rewrite Hc. Qed.

Lemma loop_closing tail unclean buf g d :
  closing tail unclean → complete g buf d = false →
  read_loop wraps tail buf (Some g) d = Ret (Read_ buf (Some g) unclean) d.
Proof. intros [rs|rs] Hc; cbn; unfold get_state, mbind, M_bind; by rewrite Hc. Qed.

(** However a complete response is cut into arrivals, and whatever its peer
    does after it, it is answered with its body. *)
Theorem exchange_answers sock request body tail unclean d :
  write_all sock request = Ok tt → flush sock = Ok tt →
  reads sock request = (Got <$> pieces) ++ tail → body_in h raw body →
  (N.of_nat (length body) ≤ MAX_BODY)%N → (body_end h = Close → closing tail unclean) →
  ∃ d', exchange wraps sock request d
        = Ret (Some (Ok (MkResponse (status h) (head_headers h) body))) d'.
Proof.
  intros Hw Hf Hreads Hin Hmax Hclose.
  assert (Hans : ∀ m d' uncl, m ≤ length whole → consumed h ≤ m →
    read_loop wraps (reads sock request) [] None dechunker_default
      = Ret (Read_ (take m whole) (Some h) uncl) d' →
    body_of wraps h (drop (consumed h) (take m whole)) uncl d' = Ret (Ok body) d' →
    ∃ d', exchange wraps sock request d
        = Ret (Some (Ok (MkResponse (status h) (head_headers h) body))) d').
  { intros m d' uncl Hm Hc Hr Hb. exists d'. rewrite (exchange_after _ _ _ m uncl d' _ Hw Hf Hr Hm Hc Hb).
    simpl. by rewrite bool_decide_false by lia. }
  destruct (loop_reads wraps whole h Hh Hlen (body_fine body Hin Hmax) pieces tail 0 None dechunker_default)
    as (m & head & d' & Hm & Hheld & Hcase); [done..|lia|by apply held_start|].
  rewrite take_0, <-Hreads in Hcase. destruct Hcase as [(g & -> & Hcomp & Hr)|[-> Hr]].
  - apply held_some in Hheld as (-> & Hc & Hd); [|done..].
    apply (Hans m d' false); [lia|done..|]. by apply complete_body; [lia|..].
  - apply held_end in Hheld as [-> Hd]; [|done..].
    pose proof (heads_after _ _ _ (final_head_heads _ _ _ _ Hh)) as Ha.
    assert (Hsame : take (length whole) whole = whole) by by apply take_ge.
    destruct (body_end h) eqn:Hb.
    1, 2: assert (Hcomp : complete h whole d' = true)
            by (apply (ended_complete body); by rewrite ?Hb);
          apply (Hans (length whole) d' false); [lia..| |];
          [by rewrite Hsame, Hr, loop_complete|by apply complete_body; [lia|..|by rewrite Hsame]].
    apply (Hans (length whole) d' unclean); [lia..| |].
    + rewrite Hsame, Hr. apply loop_closing; [by apply Hclose|]. unfold complete. by rewrite Hb.
    + unfold body_of, body_in in *. rewrite Hb, Hsame in *. by rewrite Hin.
Qed.

(** What a body cut short leaves in the decoder. *)
Lemma cut_fine : cut_short h raw → fine whole h.
Proof.
  unfold cut_short, fine. destruct (body_end h) as [n| |]; [lia| |done].
  intros (more & body & used & Hc & Hmax & _).
  pose proof (chunked_feeds _ _ _ _ dechunker_default Hc eq_refl eq_refl Hmax) as Hw.
  destruct (feeds_prefix _ _ _ _ _ Hw (default_sane _)) as ([[]|e] & d1 & Hf & _ & Hr); [eauto|].
  by destruct Hr.
Qed.

Lemma decoded_done m d :
  body_end h = Chunked → decoded whole h m d → RestBody.done d = true →
  feeds raw dechunker_default (Ok tt) d.
Proof.
  unfold decoded. intros -> Hd Hdone. rewrite skipn_firstn_comm in Hd.
  pose proof (feeds_resume _ (drop (m - consumed h) raw) _ _ _ Hd (default_sane _)) as Hres.
  rewrite take_drop in Hres. exact (Hres _ _ (feeds_already _ _ Hdone)).
Qed.

Lemma cut_incomplete m d :
  cut_short h raw → decoded whole h m d → complete h (take m whole) d = false.
Proof.
  intros Hcut Hd. unfold complete. pose proof (decoded_done m d) as Hdd. unfold cut_short in Hcut.
  destruct (body_end h) as [n| |]; [| |done].
  - apply bool_decide_eq_false. rewrite length_drop in Hcut. rewrite length_take. lia.
  - destruct Hcut as (more & body & used & Hc & Hmax & Hused).
    destruct (RestBody.done d) eqn:Hdone; [|done]. exfalso. specialize (Hdd eq_refl Hd eq_refl).
    pose proof (chunked_feeds _ _ _ _ dechunker_default Hc eq_refl eq_refl Hmax) as Hw.
    destruct (feeds_prefix _ _ _ _ _ Hw (default_sane _)) as (r1 & d1 & Hf & Hs & Hr).
    destruct (feeds_det _ _ _ _ _ _ small_raw (default_sane _) Hdd Hf) as [<- <-].
    inversion Hr; subst; try congruence. destruct Hs as [Hs _]. simpl in Hs. lia.
Qed.

Lemma cut_body d unclean :
  cut_short h raw → decoded whole h (length whole) d → complete h whole d = false →
  body_of wraps h raw unclean d
  = Ret (Err (short_body (length raw) match body_end h with Length n => Some n | _ => None end unclean)) d.
Proof.
  intros Hcut Hd Hinc. unfold body_of, complete, cut_short, decoded in *. rewrite take_ge in Hd by done.
  destruct (body_end h) as [n| |]; [|..|done].
  - by rewrite bool_decide_true by lia.
  - pose proof (feeds_again _ _ _ _ Hd eq_refl) as Hf.
    rewrite (bind_ret (Ok tt) _ _ _ d).
    + unfold get_state. rewrite (bind_ret d _ _ d d) by done. by rewrite Hinc.
    + apply feeds_feed; [apply small_raw|done| |lia]. apply (feeds_sane _ _ _ _ Hd), default_sane.
Qed.

(** A body that ends early is an error that says how early, never an
    answer. *)
Theorem exchange_short sock request tail unclean d :
  write_all sock request = Ok tt → flush sock = Ok tt →
  reads sock request = (Got <$> pieces) ++ tail → cut_short h raw → closing tail unclean →
  ∃ d', exchange wraps sock request d
        = Ret (Some (Err (short_body (length raw)
                            match body_end h with Length n => Some n | _ => None end unclean))) d'.
Proof.
  intros Hw Hf Hreads Hcut Hclose.
  destruct (loop_reads wraps whole h Hh Hlen (cut_fine Hcut) pieces tail 0 None dechunker_default)
    as (m & head & d' & Hm & Hheld & Hcase); [done..|lia|by apply held_start|].
  pose proof (heads_after _ _ _ (final_head_heads _ _ _ _ Hh)) as Ha.
  rewrite take_0, <-Hreads in Hcase. destruct Hcase as [(g & -> & Hcomp & Hr)|[-> Hr]].
  - apply held_some in Hheld as (-> & Hc & Hd); [|done..]. by rewrite cut_incomplete in Hcomp.
  - apply held_end in Hheld as [-> Hd]; [|done..]. exists d'.
    assert (Hinc : complete h whole d' = false).
    { rewrite <-(take_ge whole (length whole)) by done. by apply cut_incomplete. }
    rewrite (loop_closing _ unclean) in Hr by done.
    assert (Hsame : take (length whole) whole = whole) by by apply take_ge.
    pose proof (cut_body d' unclean Hcut Hd Hinc) as Hb. rewrite <-Hsame in Hr, Hb at 1.
    by rewrite (exchange_after sock request d _ unclean d' _ Hw Hf Hr ltac:(lia) ltac:(lia) Hb).
Qed.
End exchange.

(** ** What an answer is made of *)

Section sound.
Context (wraps : bool) `{!Httparse} `{!HttparseLaws}.

Lemma parse_head_app buf more h :
  parse_head buf = Ok (Some h) → parse_head (buf ++ more) = Ok (Some h).
Proof.
  intros Hh. destruct (parse_head_inv _ _ Hh) as (p & Hp & _). revert Hh. unfold parse_head. rewrite Hp.
  pose proof (parse_own buf p (drop (took p) buf ++ more) Hp) as Hown.
  rewrite app_assoc, take_drop in Hown. by rewrite Hown.
Qed.

Lemma heads_app buf more from h : heads buf from h → heads (buf ++ more) from h.
Proof.
  induction 1 as [from h Hp Hi|from h h' Hp Hi _ IH];
    pose proof (parse_head_took _ _ Hp) as Ht; rewrite length_drop in Ht;
    apply (parse_head_app _ more) in Hp; rewrite <-drop_app_le in Hp by lia.
  - by apply heads_final.
  - by eapply heads_interim.
Qed.

Lemma final_head_app buf more h :
  final_head buf = Some (Ok (Some h)) → final_head (buf ++ more) = Some (Ok (Some h)).
Proof.
  intros Hh%final_head_heads. pose proof (heads_after _ _ _ Hh) as Ha.
  apply (heads_app _ more) in Hh.
  pose proof (heads_take _ _ _ (S (length (buf ++ more))) (length (buf ++ more)) Hh) as Ht.
  rewrite take_ge in Ht by done. unfold final_head. rewrite Ht by lia.
  rewrite bool_decide_false; [done|]. rewrite length_app. lia.
Qed.

Lemma bind_inv {A B} (m : M Dechunker A) (f : A → M Dechunker B) d r d' :
  (m ≫= f) d = Ret r d' → ∃ a d1, m d = Ret a d1 ∧ f a d1 = Ret r d'.
Proof. unfold mbind, M_bind. destruct (m d) as [a d1| | |]; [|done..]. eauto. Qed.

Lemma mret_inv {A} (a b : A) (d d' : Dechunker) : (mret a : M Dechunker A) d = Ret b d' → b = a ∧ d' = d.
Proof. by intros [= -> ->]. Qed.

(** What the loop holds: the head of the bytes so far, and a decoding of what
    is behind it. *)
Definition holds (buf : bytes) (head : option Head) (d : Dechunker) : Prop :=
  (N.of_nat (length buf) ≤ MAX_BODY + 64 * 1024)%N
  ∧ match head with
    | None => d = dechunker_default
    | Some h => final_head buf = Some (Ok (Some h)) ∧ decoding (drop (consumed h) buf) dechunker_default d
    end.

Lemma absorb_holds buf bs head d head' d' :
  holds buf head d → absorb wraps (buf ++ bs) head d = Ret (Ok head') d' → holds (buf ++ bs) head' d'.
Proof.
  intros [Hl Hheld] Ha. unfold absorb in Ha.
  apply bind_inv in Ha as (r1 & d1 & H1' & Ha).
  assert (Hr1 : d1 = d ∧ (r1 = Ok None → d = dechunker_default) ∧ ∀ h, r1 = Ok (Some h) → final_head (buf ++ bs) = Some (Ok (Some h))
     ∧ decoding (drop (consumed h) (buf ++ bs)) dechunker_default d).
  { destruct head as [h|].
    - apply mret_inv in H1' as [-> ->]. split_and!; [done..|]. intros h' [= <-]. destruct Hheld as [Hf Hd].
      split; [by apply final_head_app|].
      pose proof (heads_after _ _ _ (final_head_heads _ _ _ _ Hf)) as Hc.
      rewrite drop_app_le by lia. apply decoding_more; [done|apply default_sane].
    - subst d. unfold with_fuel in H1'. destruct (final_head (buf ++ bs)) as [r|] eqn:Hf; [|done].
      apply mret_inv in H1' as [-> ->]. split_and!; [done..|]. intros h ->. split; [done|apply decoding_refl]. }
  destruct Hr1 as (-> & Hnone & Hr1). destruct r1 as [head1|e]; [|by apply mret_inv in Ha as [? _]].
  apply bind_inv in Ha as (fed & d2 & H2' & Ha).
  destruct fed as [[]|e]; [|by apply mret_inv in Ha as [? _]]. case_bool_decide as Hsz;
    [by apply mret_inv in Ha as [? _]|]. apply mret_inv in Ha as [[= ->] ->].
  split; [lia|]. destruct head1 as [h|]; [|apply mret_inv in H2' as [_ ->]; by apply Hnone].
  destruct (Hr1 h eq_refl) as [Hf Hd]. split; [done|].
  destruct (body_end h); [by apply mret_inv in H2' as [_ ->]| |by apply mret_inv in H2' as [_ ->]].
  apply (decoding_trans _ _ _ _ Hd). eapply decoding_feed; [| |exact H2'].
  - rewrite length_drop. unfold MAX_BODY in Hsz. lia.
  - apply (decoding_sane _ _ _ Hd), default_sane.
Qed.

Lemma loop_holds rs : ∀ buf head d buf' head' unclean d',
  holds buf head d → read_loop wraps rs buf head d = Ret (Read_ buf' head' unclean) d' →
  ∃ pieces rest, rs = (Got <$> pieces) ++ rest ∧ buf' = buf ++ concat pieces ∧ holds buf' head' d'.
Proof.
  induction rs as [|r rs IH]; intros buf head d buf' head' unclean d' Hh Hr.
  all: cbn [read_loop] in Hr; apply bind_inv in Hr as (d1 & d2 & [= <- <-] & Hr);
    destruct (match head with Some h => complete h buf d | None => false end).
  1, 3: apply mret_inv in Hr as [[= -> -> ->] ->]; eexists [], _; split_and!; [done|by rewrite app_nil_r|done].
  - by apply mret_inv in Hr as [? _].
  - destruct r as [[|b bs]| |e]; [| | |by apply mret_inv in Hr as [? _]].
    1, 3: apply mret_inv in Hr as [[= -> -> ->] ->]; eexists [], _; split_and!; [done|by rewrite app_nil_r|done].
    apply bind_inv in Hr as ([head1|e] & d1 & Ha & Hr); [|by apply mret_inv in Hr as [? _]].
    pose proof (absorb_holds _ _ _ _ _ _ Hh Ha) as Hh1.
    destruct (IH _ _ _ _ _ _ _ Hh1 Hr) as (pieces & rest & -> & -> & Hh2).
    exists ((b :: bs) :: pieces), rest. cbn [concat fmap list_fmap].
    rewrite <-app_assoc in *. by split_and!.
Qed.

Lemma with_fuel_inv {A} (o : option A) a (d d' : Dechunker) : with_fuel o d = Ret a d' → o = Some a ∧ d' = d.
Proof. destruct o; [|done]. by intros [-> ->]%mret_inv. Qed.

Lemma body_of_in h raw unclean d body d' :
  (N.of_nat (length raw) < 2 ^ 63)%N → decoding raw dechunker_default d →
  body_of wraps h raw unclean d = Ret (Ok body) d' → body_in h raw body.
Proof.
  intros Hl Hd. unfold body_of, body_in. destruct (body_end h) as [n| |].
  - case_bool_decide; intros [Hb _]%mret_inv; [done|]. injection Hb as ->. split; [lia|done].
  - intros ([[]|e] & d1 & Hf & Hb)%bind_inv; [|by apply mret_inv in Hb as [? _]].
    apply bind_inv in Hb as (d2 & d3 & [= <- <-] & Hb). apply mret_inv in Hb as [Hb _].
    destruct (RestBody.done d1) eqn:Hdone; [|done]. cbn [negb] in Hb. injection Hb as ->.
    apply decoding_chunked; [|done]. apply (decoding_trans _ _ _ _ Hd).
    eapply decoding_feed; [done| |exact Hf]. apply (decoding_sane _ _ _ Hd), default_sane.
  - intros [[= ->] _]%mret_inv. done.
Qed.

(** An answer is a head the peer sent and the body its framing says, whole
    and within the bound. *)
Theorem exchange_framed sock request d resp d' :
  exchange wraps sock request d = Ret (Some (Ok resp)) d' →
  write_all sock request = Ok tt ∧ flush sock = Ok tt
  ∧ ∃ pieces rest h, reads sock request = (Got <$> pieces) ++ rest
      ∧ final_head (concat pieces) = Some (Ok (Some h))
      ∧ resp_status resp = status h ∧ resp_headers resp = head_headers h
      ∧ body_in h (drop (consumed h) (concat pieces)) (resp_body resp)
      ∧ (N.of_nat (length (resp_body resp)) ≤ MAX_BODY)%N.
Proof.
  unfold exchange. destruct (write_all sock request) as [[]|]; [|by intros [? _]%mret_inv].
  destruct (flush sock) as [[]|]; [|by intros [? _]%mret_inv]. intros Hx. split_and!; [done..|].
  apply bind_inv in Hx as ([] & d0 & [= <-] & Hx). apply bind_inv in Hx as (r & d1 & Hr & Hx).
  destruct r as [|e|buf head unclean]; [by apply mret_inv in Hx as [? _]..|].
  apply bind_inv in Hx as (r & d2 & Ha & Hx). apply mret_inv in Hx as [[= <-] ->].
  assert (Hstart : holds [] None dechunker_default) by (split; [simpl; lia|done]).
  destruct (loop_holds _ _ _ _ _ _ _ _ Hstart Hr) as (pieces & rest & Hrs & -> & [Hl Hh]).
  rewrite app_nil_l in *. exists pieces, rest.
  unfold after_loop in Ha. apply bind_inv in Ha as (again & d3 & Hag & Ha).
  apply with_fuel_inv in Hag as [Hag ->]. destruct again as [again|e]; [|by apply mret_inv in Ha as [? _]].
  destruct (match head with Some h => Some h | None => again end) as [h|] eqn:Hsel;
    [|by apply mret_inv in Ha as [? _]].
  assert (Hd : final_head (concat pieces) = Some (Ok (Some h))
               ∧ decoding (drop (consumed h) (concat pieces)) dechunker_default d1).
  { destruct head as [h'|]; [by injection Hsel as ->|]. subst. split; [done|apply decoding_refl]. }
  destruct Hd as [Hf Hd]. apply bind_inv in Ha as ([body|e] & d4 & Hb & Ha); apply mret_inv in Ha as [Ha _]; [|done].
  exists h. cbn in Ha. case_bool_decide; [done|]. injection Ha as ->. simpl.
  split_and!; [done..| |lia]. eapply body_of_in; [|done..]. rewrite length_drop. unfold MAX_BODY in Hl. lia.
Qed.
End sound.

(** ** The call *)

Section blind.
Context (wraps : bool) (version : string).
Context `{!Env} `{!Pem} `{!RestWire} `{!Httparse}.

(** Two networks that are the same wherever the scope lets a call look: at
    the names of granted origins and at the addresses it permits. *)
Record alike (sc : RestScope) (n1 n2 : Net) : Prop := {
  alike_lookup url : permits sc url = true →
    @lookup_host _ n1 (Url.host url) (Url.port url) = @lookup_host _ n2 (Url.host url) (Url.port url);
  alike_connect a : permits_address sc a.1 = true → @connect _ n1 a = @connect _ n2 a;
  alike_tls roots host sock : @tls_connect _ n1 roots host sock = @tls_connect _ n2 roots host sock;
  alike_time ms : @elapsed _ n1 ms = @elapsed _ n2 ms;
}.

Lemma dial_alike sc n1 n2 url :
  alike sc n1 n2 → permits sc url = true → @dial _ n1 url sc = @dial _ n2 url sc.
Proof.
  intros Ha Hp. unfold dial. rewrite (alike_lookup _ _ _ Ha url Hp).
  destruct (lookup_host _ _) as [addrs|]; [|done]. destruct (bool_decide _); [done|].
  destruct (find_first _ addrs) as [a|] eqn:Hf; [|done].
  apply find_first_Some in Hf as [_ Hf]. by rewrite (alike_connect _ _ _ Ha a Hf).
Qed.

Lemma fetch_alike sc n1 n2 url method hs body entry d :
  alike sc n1 n2 → permits sc url = true →
  @fetch wraps version _ _ n1 url method hs body sc entry d
  = @fetch wraps version _ _ n2 url method hs body sc entry d.
Proof.
  intros Ha Hp. unfold fetch. destruct (request_bytes _ _ _ _ _ _); [|done].
  rewrite (dial_alike sc n1 n2 url Ha Hp). destruct (dial url sc); [|done].
  by rewrite (alike_tls _ _ _ Ha).
Qed.

(** C36: What a call answers depends on nothing the scope keeps from it: no name
    is looked up but a granted origin's, no address dialled but a permitted
    one. *)
Theorem call_stays_inside scope sc n1 n2 name args d :
  parse scope = Ok sc → alike sc n1 n2 →
  @call wraps version _ _ _ _ n1 name args scope d = @call wraps version _ _ _ _ n2 name args scope d.
Proof.
  intros Hs Ha. unfold call. destruct (negb _); [done|]. rewrite Hs. cbn [map_err].
  destruct (asked name args) as [[[[[method raw] hs] body] timeout]|e]; [|done]. cbn [rbind].
  destruct (map_err _ (Url.parse raw)) as [url|e]; [|done]. cbn [rbind].
  destruct (matching sc url) as [entry|] eqn:Hm; [|done].
  unfold mbind, M_bind, in_time. rewrite (alike_time _ _ _ Ha). destruct (elapsed _); [done|].
  unfold mbind, M_bind. rewrite (fetch_alike sc n1 n2); [done|done|].
  unfold permits. rewrite Hm. by apply bool_decide_eq_true.
Qed.
End blind.
End BodyFacts.
