(* ===== verification/RestDemo.v ===== *)
(** * Outbound HTTP, at concrete inputs

    The theorems on the REST connector applied: a granted origin, requests
    for it, responses by length and by chunks cut into arrivals, and two
    networks that differ only where the scope keeps a call from looking. *)

From S2P Require Import Prelude.
From S2P Require Import Bytes.
From S2P Require Import Value.
From S2P Require Import Node.
From S2P Require Import Caps.
From S2P Require Import Connector.
From S2P Require Import Reach.
From S2P Require Import Rest.
From S2P Require Import RestBody.
From S2P Require Import RestSpec.
From S2P Require Import ChunkSpec.
From S2P Require Import BodySpec.

Module RestDemo.
Import Rest RestBody RestFacts ChunkFacts BodyFacts.

(** ** The world around it *)

#[local] Instance no_env : Env := λ _, None.
#[local] Instance no_pem : Pem := {|
  Cert := unit;
  pem_file _ := Err "no such file";
  unparsable _ := 0%N;
|}.

(** Scopes and arguments as their plain texts. *)
#[local] Instance plain_wire : RestWire := {|
  shape_from_value v :=
    match v with
    | VStr s => match from_utf8 s with Some t => Ok (One t) | None => Err "not text" end
    | _ => Err "not an origin"
    end;
  get_args_from_value v :=
    match v with
    | VStr s => match from_utf8 s with Some t => Ok (MkGetArgs t None None) | None => Err "not text" end
    | _ => Err "no url"
    end;
  post_args_from_value v := Err "no url";
|}.

(** A peer whose heads are all the one: it is read once it is all there, and
    waited for until it is. *)
Definition head_text (framing_line : string) : bytes :=
  as_bytes ("HTTP/1.1 200 OK" +:+ crlf +:+ framing_line +:+ crlf +:+ crlf).

Definition one_head (text : bytes) (sent : list (string * bytes)) : Httparse := λ buf,
  if bool_decide (take (length text) buf = text) then Ok (Some (MkParsed (Some 200%N) sent (length text)))
  else if bool_decide (buf = take (length buf) text) then Ok None
  else Err "invalid".

Lemma one_head_laws text sent : text ≠ [] → @HttparseLaws (one_head text sent).
Proof.
  intros Hne. assert (Hpos : 0 < length text) by (destruct text; [done|simpl; lia]).
  assert (Hinv : ∀ buf p, one_head text sent buf = Ok (Some p) →
    take (length text) buf = text ∧ p = MkParsed (Some 200%N) sent (length text)).
  { intros buf p. unfold one_head. case_bool_decide as Ht; [|by case_bool_decide]. by intros [= <-]. }
  split.
  - intros buf p more Hp. destruct (Hinv _ _ Hp) as [Ht ->]. unfold http_parse, one_head. simpl. rewrite Ht.
    by rewrite take_app_length, bool_decide_true.
  - intros buf p n Hp Hn. destruct (Hinv _ _ Hp) as [Ht ->]. simpl in Hn. unfold http_parse, one_head.
    assert (Hlen : length text ≤ length buf) by (rewrite <-Ht, length_take; lia).
    rewrite bool_decide_false.
    + rewrite bool_decide_true; [done|]. rewrite length_take, <-Ht, take_take. f_equal. lia.
    + intros Heq. apply (f_equal length) in Heq. rewrite !length_take in Heq. lia.
  - intros buf p Hp. destruct (Hinv _ _ Hp) as [Ht ->]. simpl. split; [done|].
    rewrite <-Ht at 1. rewrite length_take. lia.
Qed.

Definition length_head : bytes := head_text "content-length: 5".
Definition chunk_head : bytes := head_text "transfer-encoding: chunked".
Definition by_length : Httparse := one_head length_head [("content-length", as_bytes "5")].
Definition by_chunks : Httparse := one_head chunk_head [("transfer-encoding", as_bytes "chunked")].

#[local] Instance length_laws : @HttparseLaws by_length.
Proof. by apply one_head_laws. Qed.
#[local] Instance chunk_laws : @HttparseLaws by_chunks.
Proof. by apply one_head_laws. Qed.

(** A peer that takes the request and sends what it is given to send. *)
Definition sending (rs : list Read) : Sock := MkSock (λ _, Ok tt) (Ok tt) (λ _, rs).

(** ** Addresses and requests *)

Lemma permits_address_spec_witness :
  ip_ok (V4 2852039166%N)
  ∧ (permits_address empty_scope (V4 2852039166%N) = true
     ↔ allow_private empty_scope = true ∨ ¬ kept (V4 2852039166%N)).
Proof. split; [done|]. by apply permits_address_spec. Defined.

Definition api_shape : EntryShape :=
  Table "https://api.example" [("Authorization", Text "Bearer s3cret")] None.
Definition api_url : Url.Url := Url.MkUrl true "api.example" 443 "/v1".
Definition api_entry : AllowEntry :=
  MkAllowEntry (Url.MkUrl true "api.example" 443 "/") [("authorization", "Bearer s3cret")] None.
Definition api_headers : Headers := [("X-Trace", "7")].

Lemma api_entry_of : entry_of api_shape = Ok api_entry.
Proof. by vm_compute. Qed.

Lemma request_reads_back_witness :
  ∃ bs, request_bytes "1.0" api_url "GET" (Some api_headers) None api_entry = Ok bs
  ∧ ∃ guest fuel, Forall2 lowered api_headers guest ∧ length guest ≤ REQ_HEADERS
    ∧ (∀ nv, nv ∈ guest → is_reserved nv.1 = false ∧ (nv.1 ∉ bt_keys (headers api_entry))
         ∧ ∀ set, allow_headers api_entry = Some set → (nv.1 ∈ set))
    ∧ read_lines fuel bs = Some
        (as_bytes ("GET" +:+ " " +:+ Url.path api_url +:+ " HTTP/1.1")
         :: (line_text <$> own_lines api_url ++ guest ++ headers api_entry
               ++ closing_lines "1.0" (Some api_headers) None api_entry), []).
Proof.
  eexists. split; [by vm_compute|].
  apply (request_reads_back "1.0" api_url "GET" (Some api_headers) None api_shape api_entry);
    [apply api_entry_of|by split; vm_compute|by vm_compute..].
Defined.

Definition api_scope : RestScope := MkRestScope [api_entry] [] false.

Lemma path_speaks_witness :
  ∃ u', Url.parse ("https://" +:+ "api.example" +:+ "/ HTTP/1.1" +:+ crlf
                   +:+ ("authorization: mine" +:+ crlf)) = Ok u'
    ∧ matching api_scope u' = Some api_entry
    ∧ ∀ version method, ∃ rest, request_bytes version u' method None None api_entry
        = Ok (as_bytes (method +:+ " / HTTP/1.1" +:+ crlf +:+ ("authorization: mine" +:+ crlf)) ++ rest).
Proof.
  by apply (path_speaks api_scope "api.example" (Url.MkUrl true "api.example" 443 "/") api_entry
              ("authorization: mine" +:+ crlf)); vm_compute.
Defined.

(** ** Chunked bodies *)

(** ["hello"] and [" world"], the first with an extension, in two arrivals
    cut inside a chunk, and bytes of another response behind them. *)
Definition piece1 : bytes := as_bytes ("5;x=1" +:+ crlf +:+ "hel").
Definition piece2 : bytes :=
  as_bytes ("lo" +:+ crlf +:+ "6" +:+ crlf +:+ " world" +:+ crlf +:+ "0" +:+ crlf +:+ crlf +:+ "HTTP/1.1").
Definition hello : bytes := as_bytes "hello world".

Lemma hello_chunked : chunked (piece1 ++ piece2) hello 28.
Proof.
  apply (chunked_chunk (as_bytes "5;x=1") (as_bytes "hello") (drop 14 (piece1 ++ piece2)) (as_bytes " world") 14);
    [done|split; [done|by exists "5"]|].
  apply (chunked_chunk (as_bytes "6") (as_bytes " world") (drop 25 (piece1 ++ piece2)) [] 3);
    [done|split; [done|by exists "6"]|].
  apply (chunked_end (as_bytes "0") (drop 28 (piece1 ++ piece2))). split; [done|by exists "0"].
Qed.

Lemma dechunk_spec_witness :
  feed false (S (length (piece1 ++ piece2))) (piece1 ++ piece2) dechunker_default
    = Ret (Ok tt) (MkDechunker hello 28 true)
  ∧ chunked (piece1 ++ piece2) hello 28 ∧ (N.of_nat (length hello) ≤ MAX_BODY)%N.
Proof.
  assert (Hsmall : (N.of_nat (length (piece1 ++ piece2)) < 2 ^ 63)%N) by by vm_compute.
  assert (Hf : feed false (S (length (piece1 ++ piece2))) (piece1 ++ piece2) dechunker_default
               = Ret (Ok tt) (MkDechunker hello 28 true)).
  { apply (dechunk_spec false _ Hsmall); [apply hello_chunked|by vm_compute]. }
  split; [exact Hf|]. by apply (proj2 (dechunk_spec false _ Hsmall) _ _ _ Hf).
Defined.

Lemma dechunk_pieces_witness :
  feed_pieces true [] [piece1; piece2] dechunker_default = Ret (Ok tt) (MkDechunker hello 28 true).
Proof.
  apply (dechunk_pieces true [piece1; piece2]); [|by vm_compute..]. apply hello_chunked.
Defined.

(** ** Responses *)

Definition length_pieces : list bytes := [take 10 length_head; drop 10 length_head ++ as_bytes "hel"; as_bytes "lo!!"].
Definition length_got : Head := MkHead 200 [("content-length", "5")] (length length_head) (Length 5).
Definition chunk_pieces : list bytes := [chunk_head ++ piece1; piece2].
Definition chunk_got : Head := MkHead 200 [("transfer-encoding", "chunked")] (length chunk_head) Chunked.

(** Five bytes and the start of something else, after which the connection
    breaks; and the chunks above, after which nothing ever comes. *)
Lemma exchange_answers_witness :
  (∃ d', @exchange true by_length (sending ((Got <$> length_pieces) ++ [ReadError "reset"])) [] dechunker_default
        = Ret (Some (Ok (MkResponse 200 [("content-length", "5")] (as_bytes "hello")))) d')
  ∧ ∃ d', @exchange false by_chunks (sending ((Got <$> chunk_pieces) ++ [])) [] dechunker_default
        = Ret (Some (Ok (MkResponse 200 [("transfer-encoding", "chunked")] hello))) d'.
Proof.
  split.
  - apply (@exchange_answers true by_length _ length_pieces) with (h := length_got) (tail := [ReadError "reset"])
      (unclean := false); try by vm_compute.
    by repeat constructor.
  - apply (@exchange_answers false by_chunks _ chunk_pieces) with (h := chunk_got) (tail := []) (unclean := false);
      try by vm_compute.
    + by repeat constructor.
    + exists 28. apply hello_chunked.
Defined.

(** The same, broken off early. *)
Definition short_pieces : list bytes := [length_head; as_bytes "hel"].
Definition short_text : string :=
  short_body (length (drop (consumed length_got) (concat short_pieces))) (Some 5%N) true.
Definition unfinished_pieces : list bytes := [chunk_head ++ piece1].
Definition unfinished_text : string :=
  short_body (length (drop (consumed chunk_got) (concat unfinished_pieces))) None false.

Lemma exchange_short_witness :
  (∃ d', @exchange true by_length (sending ((Got <$> short_pieces) ++ [UnexpectedEof])) [] dechunker_default
        = Ret (Some (Err short_text)) d')
  ∧ (∃ d', @exchange false by_chunks (sending ((Got <$> unfinished_pieces) ++ [Got []])) [] dechunker_default
        = Ret (Some (Err unfinished_text)) d')
  ∧ short_text = "read: read 3 of 5 bytes, then the peer closed without close_notify"
  ∧ unfinished_text = "read: the chunked body reached no final chunk in 10 bytes, then the peer closed".
Proof.
  split_and!; [| |by vm_compute..].
  - apply (@exchange_short true by_length _ short_pieces)
      with (h := length_got) (tail := [UnexpectedEof]) (unclean := true);
      [by repeat constructor|by vm_compute|by vm_compute|done|done|done|by vm_compute|constructor].
  - apply (@exchange_short false by_chunks _ unfinished_pieces)
      with (h := chunk_got) (tail := [Got []]) (unclean := false);
      [by repeat constructor|by vm_compute|by vm_compute|done|done|done| |constructor].
    exists piece2, hello, 28. split_and!; [apply hello_chunked|by vm_compute|vm_compute; lia].
Defined.

Lemma exchange_framed_witness :
  ∃ d', @exchange true by_length (sending (Got <$> length_pieces)) [] dechunker_default
        = Ret (Some (Ok (MkResponse 200 [("content-length", "5")] (as_bytes "hello")))) d'
  ∧ ∃ pieces rest h, Got <$> length_pieces = (Got <$> pieces) ++ rest
      ∧ @final_head by_length (concat pieces) = Some (Ok (Some h))
      ∧ body_in h (drop (consumed h) (concat pieces)) (as_bytes "hello").
Proof.
  assert (Hx : @exchange true by_length (sending (Got <$> length_pieces)) [] dechunker_default
    = Ret (Some (Ok (MkResponse 200 [("content-length", "5")] (as_bytes "hello")))) dechunker_default)
    by by vm_compute.
  exists dechunker_default. split; [exact Hx|].
  destruct (exchange_framed _ _ _ _ _ _ Hx) as (_ & _ & pieces & rest & h & Hr & Hf & _ & _ & Hb & _).
  by exists pieces, rest, h.
Defined.

(** ** A call

    The granted name resolves to the metadata address and to a public one; a
    second network answers otherwise for every other name and every address
    that is kept from a guest. *)
Definition metadata_ip : IpAddr := V4 2852039166.
Definition public_ip : IpAddr := V4 1572395042.

Definition network (elsewhere : option (list (IpAddr * N))) (inside : list Read) : Net := {|
  lookup_host host port :=
    if eq_ignore_ascii_case "api.example" host && bool_decide (port = 80%N)
    then Some [(metadata_ip, port); (public_ip, port)] else elsewhere;
  connect a := if is_private a.1 then Ok (sending inside) else Ok (sending (Got <$> length_pieces));
  tls_connect _ _ _ := None;
  elapsed _ := false;
|}.
Definition net1 : Net := network None [].
Definition net2 : Net := network (Some [(metadata_ip, 80%N)]) [Got (as_bytes "credentials")].

Definition http_scope : Scope := MkScope (vstr "http://api.example").
Definition http_entry : AllowEntry := MkAllowEntry (Url.MkUrl false "api.example" 80 "/") [] None.
Definition http_rest : RestScope := MkRestScope [http_entry] [] false.

Lemma nets_alike : alike http_rest net1 net2.
Proof.
  split; [| |done..].
  - intros url Hp. unfold permits, matching in Hp. apply bool_decide_eq_true in Hp. cbn [find_first allow http_rest] in Hp.
    destruct (covers url http_entry) eqn:Hc; [|by destruct Hp].
    unfold covers in Hc. apply andb_true_iff in Hc as [[_ Hport]%andb_true_iff Hhost].
    apply bool_decide_eq_true in Hport. cbn [lookup_host net1 net2 network].
    change (host_matches _ (Url.host url)) with (eq_ignore_ascii_case "api.example" (Url.host url)) in Hhost.
    rewrite Hhost, <-Hport. done.
  - intros a Ha. change (negb (is_private a.1) = true) in Ha. apply negb_true_iff in Ha.
    cbn [connect net1 net2 network]. by rewrite Ha.
Qed.

Lemma call_stays_inside_witness :
  @call true "1.0" _ _ _ by_length net1 "rest/get" (Some (vstr "http://api.example/x")) (Some http_scope)
      dechunker_default
  = @call true "1.0" _ _ _ by_length net2 "rest/get" (Some (vstr "http://api.example/x")) (Some http_scope)
      dechunker_default.
Proof.
  apply (@call_stays_inside true "1.0" _ _ _ by_length (Some http_scope) http_rest net1 net2);
    [by vm_compute|apply nets_alike].
Defined.

(** And it is answered, by the public address. *)
Lemma call_answered :
  @call true "1.0" _ _ _ by_length net2 "rest/get" (Some (vstr "http://api.example/x")) (Some http_scope)
      dechunker_default
  = Ret (Ok (answer_of (MkResponse 200 [("content-length", "5")] (as_bytes "hello")))) dechunker_default.
Proof. by vm_compute. Qed.
End RestDemo.
