(* ===== verification/Float.v ===== *)
(** * Doubles as Rust's standard library reads, writes and stores them

    An [f64] is its 64 bits.  [str::parse::<f64>], the [Debug] text, the
    conversion of an [f32], the little-endian bytes of a word.  Nothing here
    is code of the repository.

    ** Text as characters

    The characters of a text that is UTF-8: its bytes are theirs, and the
    characters of texts put together are the characters of each. *)

From Stdlib Require Import SpecFloat.
From S2P Require Import Prelude.
From S2P Require Import Bytes.

(** ** Bits *)

Definition SIGN : N := 2 ^ 63.
Definition sign_bit (s : bool) : N := if s then SIGN else 0%N.
Definition INF : N := 2047 * 2 ^ 52.
Definition QNAN : N := INF + 2 ^ 51.

Definition f64_of_bits (n : N) : spec_float :=
  let s := N.testbit n 63 in
  let e := ((n / 2 ^ 52) `mod` 2048)%N in
  let m := (n `mod` 2 ^ 52)%N in
  if bool_decide (e = 2047)%N then if bool_decide (m = 0)%N then S754_infinity s else S754_nan
  else match (if bool_decide (e = 0)%N then m else m + 2 ^ 52)%N with
       | N0 => S754_zero s
       | Npos p => S754_finite s p (Z.of_N (N.max e 1) - 1075)
       end.

Definition bits_of_f64 (f : spec_float) : N :=
  match f with
  | S754_zero s => sign_bit s
  | S754_infinity s => sign_bit s + INF
  | S754_nan => QNAN
  | S754_finite s m e =>
      if bool_decide (N.pos m < 2 ^ 52)%N then sign_bit s + N.pos m
      else sign_bit s + Z.to_N (e + 1075) * 2 ^ 52 + (N.pos m - 2 ^ 52)
  end%N.

Definition is_nan (n : N) : bool :=
  match f64_of_bits n with S754_nan => true | _ => false end.

(** [f as f64] of an [f32]'s bits: exact, a NaN's payload kept and quieted. *)
Definition widen_f32 (n : N) : N :=
  let s := N.testbit n 31 in
  let e := ((n / 2 ^ 23) `mod` 256)%N in
  let m := (n `mod` 2 ^ 23)%N in
  if bool_decide (e = 255)%N then
    if bool_decide (m = 0)%N then sign_bit s + INF
    else sign_bit s + N.lor QNAN (m * 2 ^ 29)
  else match (if bool_decide (e = 0)%N then m else m + 2 ^ 23)%N with
       | N0 => sign_bit s
       | Npos p => bits_of_f64 (binary_round 53 1024 s p (Z.of_N (N.max e 1) - 150))
       end%N.

(** ** Text *)

(** The double nearest [m * 10 ^ e]. *)
Definition round_decimal (s : bool) (m : N) (e : Z) : spec_float :=
  match m with
  | N0 => S754_zero s
  | Npos p =>
      if bool_decide (0 ≤ e)%Z then binary_round 53 1024 s (Z.to_pos (Z.pos p * 10 ^ e)) 0
      else SFdiv 53 1024 (S754_finite s p 0) (S754_finite false (Z.to_pos (10 ^ (- e))) 0)
  end.

(** The digits at the front, as a number and how many, and the rest. *)
Fixpoint take_digits (acc : N) (n : nat) (s : string) : N * nat * string :=
  match s with
  | String c s' =>
      match digit_val c with
      | Some d => take_digits (acc * 10 + d) (S n) s'
      | None => (acc, n, s)
      end
  | EmptyString => (acc, n, s)
  end.

Definition parse_exponent (s : string) : option Z :=
  match s with
  | EmptyString => Some 0%Z
  | String c s' =>
      if bool_decide (c = "e"%char ∨ c = "E"%char) then
        let '(negative, digits) := split_sign s' in
        let '(e, n, rest) := take_digits 0 0 digits in
        if bool_decide (n = 0) || negb (str_is_empty rest) then None
        else Some (if negative : bool then - Z.of_N e else Z.of_N e)%Z
      else None
  end.

(** Digits with a point somewhere among them, and an exponent. *)
Definition parse_number (s : string) : option (N * Z) :=
  let '(whole, n1, rest) := take_digits 0 0 s in
  let '(m, n2, rest) :=
    match rest with
    | String "." rest => take_digits whole 0 rest
    | _ => (whole, 0, rest)
    end in
  if bool_decide (n1 + n2 = 0) then None
  else e ← parse_exponent rest; Some (m, e - Z.of_nat n2)%Z.

(** [str::eq_ignore_ascii_case] with a lower-case text. *)
Definition lower (c : ascii) : ascii :=
  if in_range 65 90 (byte_val c) then of_byte (byte_val c + 32) else c.
Definition same_word (word s : string) : bool := bool_decide (lower <$> as_bytes s = as_bytes word).

(** [str::parse::<f64>], as bits. *)
Definition parse_f64 (s : string) : option N :=
  let '(negative, t) := split_sign s in
  match parse_number t with
  | Some (m, e) => Some (bits_of_f64 (round_decimal negative m e))
  | None =>
      if same_word "nan" t then Some (sign_bit negative + QNAN)%N
      else if same_word "inf" t || same_word "infinity" t then Some (sign_bit negative + INF)%N
      else None
  end.

(** [m * 2 ^ e] as a fraction. *)
Definition fraction (m : positive) (e : Z) : Z * Z :=
  if bool_decide (0 ≤ e)%Z then (Z.pos m * 2 ^ e, 1)%Z else (Z.pos m, 2 ^ (- e))%Z.

(** The [k] with [10 ^ (k - 1) <= num / den < 10 ^ k]. *)
Definition below_power (num den k : Z) : bool :=
  if bool_decide (0 ≤ k)%Z then bool_decide (num < den * 10 ^ k)%Z
  else bool_decide (num * 10 ^ (- k) < den)%Z.
Definition decimal_exponent (num den : Z) : Z :=
  let k := ((Z.log2 num - Z.log2 den - 1) * 30103 / 100000)%Z in
  if below_power num den k then k
  else if below_power num den (k + 1) then (k + 1)%Z else (k + 2)%Z.

(** Of the two [n]-digit decimals about the double, the nearer of those that
    are read back as it. *)
Definition candidate (f : spec_float) (num den k : Z) (n : nat) : option N :=
  let shift := (Z.of_nat n - k)%Z in
  let '(num, den) := if bool_decide (0 ≤ shift)%Z then (num * 10 ^ shift, den)%Z
                     else (num, den * 10 ^ (- shift))%Z in
  let lo := (num / den)%Z in
  let reads d := bool_decide (bits_of_f64 (round_decimal false (Z.to_N d) (- shift)) = bits_of_f64 f) in
  if bool_decide (2 * (num - lo * den) ≤ den)%Z then
    if reads lo then Some (Z.to_N lo) else if reads (lo + 1)%Z then Some (Z.to_N (lo + 1)) else None
  else
    if reads (lo + 1)%Z then Some (Z.to_N (lo + 1)) else if reads lo then Some (Z.to_N lo) else None.

Fixpoint shortest (fuel n : nat) (f : spec_float) (num den k : Z) : N * Z :=
  match candidate f num den k n, fuel with
  | Some d, _ => (d, k - Z.of_nat n)%Z
  | None, 0 => (Z.to_N num, 0%Z)
  | None, S fuel => shortest fuel (S n) f num den k
  end.

(** Without the zeroes at the end. *)
Fixpoint strip_zeros (fuel : nat) (d : N) (e : Z) : N * Z :=
  match fuel with
  | 0 => (d, e)
  | S fuel => if bool_decide (d `mod` 10 = 0)%N then strip_zeros fuel (d / 10)%N (e + 1)%Z else (d, e)
  end.

Definition plain_text (digits : string) (k : Z) : string :=
  let n := Z.of_nat (str_len digits) in
  if bool_decide (k ≤ 0)%Z then "0." +:+ zeros (Z.to_nat (- k)) +:+ digits
  else if bool_decide (n ≤ k)%Z then digits +:+ zeros (Z.to_nat (k - n)) +:+ ".0"
  else of_bytes (take (Z.to_nat k) (as_bytes digits)) +:+ "."
       +:+ of_bytes (drop (Z.to_nat k) (as_bytes digits)).

Definition scientific_text (digits : string) (k : Z) : string :=
  match digits with
  | String c EmptyString => String c "e" +:+ fmt_zero 0 (k - 1)
  | String c rest => String c "." +:+ rest +:+ "e" +:+ fmt_zero 0 (k - 1)
  | EmptyString => ""
  end.

(** The [Debug] text of a double: the shortest that is read back as it, with
    an exponent outside [1e-4 .. 1e16]. *)
Definition debug_f64 (n : N) : string :=
  match f64_of_bits n with
  | S754_nan => "NaN"
  | S754_infinity s => (if s then "-inf" else "inf")
  | S754_zero s => (if s then "-0.0" else "0.0")
  | S754_finite s m e =>
      let '(num, den) := fraction m e in
      let '(d, x) := shortest 17 1 (S754_finite false m e) num den (decimal_exponent num den) in
      let '(d, x) := strip_zeros 20 d x in
      let digits := dec d in
      let k := (x + Z.of_nat (str_len digits))%Z in
      (if s then "-" else "")
      +:+ (if bool_decide (-4 < k ≤ 16)%Z then plain_text digits k else scientific_text digits k)
  end.

(** ** Words *)

(** [to_le_bytes] of a 64-bit word and back. *)
Definition le_word (n : N) : bytes :=
  (λ i : nat, of_byte ((n / 2 ^ (8 * N.of_nat i)) `mod` 256)%N) <$> seq 0 8.
Definition word_le (bs : bytes) : N := foldr (λ c acc, byte_val c + 256 * acc)%N 0%N bs.

(** An [i64] as a word and back. *)
Definition word_of_i64 (z : Z) : N := Z.to_N (z `mod` 2 ^ 64).
Definition i64_of_word (n : N) : Z := (if bool_decide (n < 2 ^ 63)%N then Z.of_N n else Z.of_N n - 2 ^ 64)%Z.

Example debug_texts :
  ((λ s, debug_f64 <$> parse_f64 s)
     <$> ["0.1"; "1e16"; "123456.789"; "-2.5e-7"; "5e-324"; "1e-323"; "1.7976931348623157e308"; "1e23"; "+3";
          "0.0001"; "9007199254740993"; "Infinity"; "-nan"; "-0"; ".5"; "5."])
  = Some <$> ["0.1"; "1e16"; "123456.789"; "-2.5e-7"; "5e-324"; "1e-323"; "1.7976931348623157e308"; "1e23"; "3.0";
              "0.0001"; "9007199254740992.0"; "inf"; "NaN"; "-0.0"; "0.5"; "5.0"].
Proof. by vm_compute. Qed.

Lemma le_word_length n : length (le_word n) = 8.
Proof. done. Qed.

Lemma word_le_seq k : ∀ n, (n < 256 ^ N.of_nat k)%N →
  word_le ((λ i : nat, of_byte ((n / 2 ^ (8 * N.of_nat i)) `mod` 256)%N) <$> seq 0 k) = n.
Proof.
  induction k as [|k IH]; intros n Hn; [simpl in *; lia|].
  rewrite <-cons_seq, <-fmap_S_seq, fmap_cons, <-list_fmap_compose.
  assert (Hk : (n / 256 < 256 ^ N.of_nat k)%N).
  { apply N.Div0.div_lt_upper_bound. by rewrite <-N.pow_succ_r', <-Nat2N.inj_succ. }
  rewrite (list_fmap_ext _ (λ i : nat, of_byte (((n / 256) / 2 ^ (8 * N.of_nat i)) `mod` 256)%N)).
  - unfold word_le in *. cbn [foldr]. rewrite (IH _ Hk), byte_of_byte by (apply N.mod_lt; lia). change (2 ^ (8 * N.of_nat 0))%N with 1%N.
    rewrite N.div_1_r. pose proof (N.div_mod n 256 ltac:(lia)). lia.
  - intros i x _. simpl. do 2 f_equal. rewrite N.Div0.div_div. f_equal.
    change 256%N with (2 ^ 8)%N. rewrite <-N.pow_add_r. f_equal. lia.
Qed.

Lemma word_le_word n : (n < 2 ^ 64)%N → word_le (le_word n) = n.
Proof. intros Hn. by apply (word_le_seq 8). Qed.

Lemma i64_word z : (- 2 ^ 63 ≤ z < 2 ^ 63)%Z → i64_of_word (word_of_i64 z) = z.
Proof.
  intros Hz. unfold i64_of_word, word_of_i64.
  destruct (decide (0 ≤ z)%Z) as [Hp|Hp].
  - rewrite Z.mod_small by lia. case_bool_decide; lia.
  - replace (z `mod` 2 ^ 64)%Z with (z + 2 ^ 64)%Z; [case_bool_decide; lia|].
    rewrite <-(Z.mod_small (z + 2 ^ 64) (2 ^ 64)) by lia.
    by rewrite <-(Z_mod_plus_full z 1 (2 ^ 64)), Z.mul_1_l.
Qed.

Lemma word_i64 w : (w < 2 ^ 64)%N → word_of_i64 (i64_of_word w) = w.
Proof.
  intros Hw. unfold i64_of_word, word_of_i64. case_bool_decide.
  - rewrite Z.mod_small by lia. lia.
  - rewrite <-(Z_mod_plus_full _ 1). rewrite Z.mod_small by lia. lia.
Qed.

Lemma i64_of_word_bound w : (w < 2 ^ 64)%N → (- 2 ^ 63 ≤ i64_of_word w < 2 ^ 63)%Z.
Proof. intros Hw. unfold i64_of_word. case_bool_decide; lia. Qed.

Lemma word_of_i64_bound z : (word_of_i64 z < 2 ^ 64)%N.
Proof. unfold word_of_i64. pose proof (Z.mod_pos_bound z (2 ^ 64) ltac:(lia)). lia. Qed.

Lemma word_le_bound bs : length bs ≤ 8 → (word_le bs < 2 ^ 64)%N.
Proof.
  intros Hl. apply N.lt_le_trans with (256 ^ N.of_nat (length bs))%N.
  - clear Hl. induction bs as [|c bs IH]; [done|]. cbn [word_le foldr length]. fold (word_le bs).
    rewrite Nat2N.inj_succ, N.pow_succ_r'. pose proof (byte_val_lt c). lia.
  - change (2 ^ 64)%N with (256 ^ 8)%N. apply N.pow_le_mono_r; lia.
Qed.

(** One well-formed sequence. *)
Definition is_char (c : bytes) : Prop := c ≠ [] ∧ utf8_head c = (true, length c).

Definition text (cs : list bytes) : string := of_bytes (mjoin cs).

Lemma utf8_head_pos bs : 1 ≤ (utf8_head bs).2.
Proof. unfold utf8_head. repeat case_match; simpl; lia. Qed.

(** A well-formed sequence is the same whatever follows it. *)
Lemma utf8_head_app c r : is_char c → utf8_head (c ++ r) = (true, length c).
Proof.
  intros [Hne Hc]. destruct c as [|c1 [|c2 [|c3 [|c4 [|c5 c]]]]]; [done|..]; revert Hc;
    unfold utf8_head; cbn -[in_range]; repeat case_match; intros; simplify_eq; done.
Qed.

Lemma utf8_head_take bs n : utf8_head bs = (true, n) → n ≤ length bs → is_char (take n bs).
Proof.
  intros Hh Hn. pose proof (utf8_head_pos bs) as Hp. rewrite Hh in Hp. simpl in Hp. split.
  - intros He%(f_equal length). rewrite length_take in He. simpl in He. lia.
  - rewrite length_take, Nat.min_l by done. rewrite <-Hh. revert Hh Hn Hp.
    destruct bs as [|c1 [|c2 [|c3 [|c4 bs]]]]; destruct n as [|[|[|[|[|n]]]]]; simpl length; try lia; intros Hh _ _;
      revert Hh; unfold utf8_head; cbn -[in_range]; repeat case_match; intros; simplify_eq; done.
Qed.

Lemma utf8_head_bound bs n : utf8_head bs = (true, n) → bs ≠ [] → n ≤ length bs.
Proof.
  intros Hh Hne. revert Hh. destruct bs as [|c1 [|c2 [|c3 [|c4 bs]]]]; [done|..];
    unfold utf8_head; cbn -[in_range]; repeat case_match; intros; simplify_eq; simpl; try lia;
    match goal with H : in_range _ _ 0 = true |- _ => by vm_compute in H end.
Qed.

Lemma chars_go_fuel fuel : ∀ fuel' bs,
  length bs ≤ fuel → length bs ≤ fuel' → chars_go fuel bs = chars_go fuel' bs.
Proof.
  induction fuel as [|fuel IH]; intros [|fuel'] [|c bs] H1 H2; simpl in H1, H2; try lia; [done..|].
  cbn [chars_go]. f_equal. pose proof (utf8_head_pos (c :: bs)). apply IH; rewrite length_drop; simpl; lia.
Qed.

Lemma chars_cons c r : is_char c → chars (of_bytes (c ++ r)) = c :: chars (of_bytes r).
Proof.
  intros Hc. unfold chars, str_len. rewrite !as_of_bytes, length_app. destruct Hc as [Hne Hh].
  destruct (c ++ r) as [|x l] eqn:E; [by destruct c|].
  destruct (length c) as [|n] eqn:Hlen; [by destruct c|]. cbn [Nat.add chars_go].
  rewrite <-E, (utf8_head_app c r), Hlen by (by split; [|rewrite Hlen]). cbn [snd]. rewrite <-Hlen.
  rewrite take_app_length, drop_app_length. f_equal. apply chars_go_fuel; lia.
Qed.

Lemma chars_text cs r : Forall is_char cs → chars (of_bytes (mjoin cs ++ r)) = cs ++ chars (of_bytes r).
Proof.
  induction 1 as [|c cs Hc _ IH]; [done|].
  change (mjoin (c :: cs)) with (c ++ mjoin cs). rewrite <-app_assoc, chars_cons by done. by rewrite IH.
Qed.

Lemma chars_of cs : Forall is_char cs → chars (text cs) = cs.
Proof. intros Hc. unfold text. rewrite <-(app_nil_r (mjoin cs)), chars_text by done. apply app_nil_r. Qed.

Lemma valid_chars_go fuel : ∀ bs, length bs ≤ fuel → utf8_valid_go fuel bs = true →
  Forall is_char (chars_go fuel bs) ∧ mjoin (chars_go fuel bs) = bs.
Proof.
  induction fuel as [|fuel IH]; intros [|c bs] Hl Hv; simpl in Hl; try done; try lia.
  cbn [utf8_valid_go chars_go] in *. destruct (utf8_head (c :: bs)) as [ok n] eqn:Hh.
  destruct ok; [|done]. cbn [andb snd] in *. pose proof (utf8_head_bound _ _ Hh ltac:(done)) as Hb.
  pose proof (utf8_head_pos (c :: bs)) as Hp. rewrite Hh in Hp. simpl in Hp, Hb.
  destruct (IH (drop n (c :: bs))) as [Hf Hj]; [rewrite length_drop; simpl; lia|done|].
  split; [constructor; [|done]|].
  - by apply utf8_head_take.
  - change (take n (c :: bs) ++ mjoin (chars_go fuel (drop n (c :: bs))) = c :: bs).
    rewrite Hj. apply take_drop.
Qed.

(** UTF-8 text is its characters. *)
Lemma valid_text s : utf8_valid (as_bytes s) = true → Forall is_char (chars s) ∧ text (chars s) = s.
Proof.
  intros Hv. destruct (valid_chars_go (str_len s) (as_bytes s)) as [Hf Hj]; [done|done|].
  split; [done|]. unfold text, chars. rewrite Hj. apply of_as_bytes.
Qed.

Lemma mjoin_app_bytes (cs cs' : list bytes) : mjoin (cs ++ cs') = mjoin cs ++ mjoin cs'.
Proof. induction cs as [|c cs IH]; [done|].
  change (c ++ mjoin (cs ++ cs') = (c ++ mjoin cs) ++ mjoin cs'). by rewrite IH, app_assoc. Qed.

Lemma text_app cs cs' : text (cs ++ cs') = text cs +:+ text cs'.
Proof. apply as_bytes_inj. rewrite as_bytes_app. unfold text. by rewrite !as_of_bytes, mjoin_app_bytes. Qed.

Lemma chars_app s s' : utf8_valid (as_bytes s) = true → chars (s +:+ s') = chars s ++ chars s'.
Proof.
  intros [Hc Ht]%valid_text. rewrite <-(of_as_bytes (s +:+ s')), as_bytes_app.
  rewrite <-Ht at 1. unfold text. by rewrite as_of_bytes, chars_text, of_as_bytes.
Qed.

(** A seven-bit character. *)
Lemma ascii_char c : (byte_val c < 128)%N → is_char [c].
Proof. intros Hc. split; [done|]. by apply utf8_head_ascii. Qed.

Lemma ascii_valid s : is_ascii_text s → Forall is_char (chars s) ∧ text (chars s) = s.
Proof.
  intros Ha. rewrite chars_ascii by done. split.
  - apply Forall_fmap. eapply Forall_impl; [exact Ha|]. intros c Hc. by apply ascii_char.
  - unfold text. rewrite <-(of_as_bytes s) at 2. f_equal. clear Ha.
    induction (as_bytes s) as [|c l IH]; [done|].
    change (c :: mjoin ((λ b, [b]) <$> l) = c :: l). by rewrite IH.
Qed.

(** A sequence of more than one byte has none below 128. *)
Lemma is_char_high c x : is_char x → c ∈ x → (byte_val c < 128)%N → x = [c].
Proof.
  intros [Hne Hx] Hin Hc. revert Hx.
  destruct x as [|c1 [|c2 [|c3 [|c4 [|c5 x]]]]]; [done|..]; unfold utf8_head; cbn -[in_range];
    repeat case_match; intros; simplify_eq; unfold in_range in *;
    repeat match goal with H : bool_decide _ = true |- _ => apply bool_decide_eq_true in H end;
    rewrite ?elem_of_cons in Hin; destruct_or?; subst; try done; try lia; by apply elem_of_nil in Hin.
Qed.

(** A byte below 128 is in a text exactly when its character is. *)
Lemma char_in_text c cs : Forall is_char cs → (byte_val c < 128)%N → contains_char c (text cs) = true ↔ ([c] ∈ cs).
Proof.
  intros Hcs Hc. unfold contains_char, text. rewrite bool_decide_eq_true, as_of_bytes.
  induction Hcs as [|x cs Hx Hcs IH]; [split; intros H; by apply elem_of_nil in H|].
  change (mjoin (x :: cs)) with (x ++ mjoin cs). rewrite elem_of_app, elem_of_cons, IH.
  split; (intros [H|H]; [left|by right]).
  - symmetry. by apply is_char_high.
  - subst. by left.
Qed.
