(* ===== verification/Table.v ===== *)
(** * Tables of columns ([connectors/data/src/lib.rs])

    The three shapes a column takes, the answer a read gives, what a guest
    hands back to be written, and tables as CSV text. *)

From S2P Require Import Prelude.
From S2P Require Import Bytes.
From S2P Require Import Value.
From S2P Require Import Float.
From S2P Require Import Hostcall.

(** ** Columns *)
Module Column.

(** Eight little-endian bytes a row; a text column's are codes into its
    distinct strings. *)
Inductive Column :=
  | F64 (bs : bytes)
  | I64 (bs : bytes)
  | Text (codes : bytes) (uniques : list string).

Definition column_bytes (c : Column) : bytes :=
  match c with F64 b | I64 b => b | Text codes _ => codes end.
Definition rows (c : Column) : nat := length (column_bytes c) / 8.
End Column.
Abbreviation Column := Column.Column.

Module Table.

Definition DEFAULT_MAX_BYTES : N := 1024 * 1024.

(** The canonical quiet NaN, as bytes. *)
Definition NULL_F64 : bytes := of_byte <$> [0; 0; 0; 0; 0; 0; 248; 127]%N.

(** A column read, with one byte a row saying whether it has a value, or no
    byte at all. *)
Record Decoded := MkDecoded { dec_name : string; dec_column : Column; dec_valid : bytes }.

Definition into_value (d : Decoded) : Value :=
  let fields :=
    match dec_column d with
    | Column.F64 bs => [(vstr "values", column F64 bs)]
    | Column.I64 bs => [(vstr "values", column I64 bs)]
    | Column.Text codes uniques => [(vstr "codes", column I64 codes); (vstr "uniques", VArr (vstr <$> uniques))]
    end in
  VMap (fields ++ if bool_decide (dec_valid d = []) then [] else [(vstr "valid", column U8 (dec_valid d))]).

(** A column to be written, with one byte a row saying whether it is null,
    or no byte at all. *)
Record Writable := MkWritable { w_name : string; w_column : Column; w_nulls : bytes }.

Definition zero : ascii := of_byte 0.
Definition one : ascii := of_byte 1.

(** The distinct strings so far, and where each is. *)
Record Interner := MkInterner { uniques : list string; index : gmap bytes nat }.
Definition interner : Interner := MkInterner [] ∅.
Definition intern (key : bytes) (text : string) (i : Interner) : nat * Interner :=
  match index i !! key with
  | Some code => (code, i)
  | None => let code := length (uniques i) in
            (code, MkInterner (uniques i ++ [text]) (<[key := code]> (index i)))
  end.

(** The mask of a column from its null bytes. *)
Definition mask_of (c : Column) (nulls : bytes) : bytes :=
  match c with
  | Column.F64 _ => []
  | _ => if bool_decide (one ∈ nulls) then (λ n, of_byte (1 - byte_val n)) <$> nulls else []
  end.

(** ** CSV *)

Definition DQ : ascii := of_byte 34.
Definition CR : ascii := of_byte 13.
Definition LF : ascii := of_byte 10.

(** [split_csv]: the loop over the characters, with the field so far. *)
Fixpoint split_chars (delimiter : bytes) (cs : list bytes) (field : string) (quoted : bool) : list string :=
  match cs with
  | [] => [field]
  | c :: cs =>
      if bool_decide (c = [DQ]) then
        match cs with
        | q :: cs' =>
            if quoted && bool_decide (q = [DQ]) then split_chars delimiter cs' (field +:+ String DQ "") quoted
            else split_chars delimiter cs field (negb quoted)
        | [] => split_chars delimiter cs field (negb quoted)
        end
      else if bool_decide (c = delimiter) && negb quoted then field :: split_chars delimiter cs "" quoted
      else split_chars delimiter cs (field +:+ of_bytes c) quoted
  end.
Definition split_csv (line : string) (delimiter : bytes) : list string :=
  split_chars delimiter (chars line) "" false.

(** [str::lines]: a line ends at a newline, with the carriage return before
    it; what follows the last newline is a line when there is any. *)
Definition strip_cr (s : string) : string := default s (strip_suffix (String CR "") s).
Fixpoint end_lines (pieces : list string) : list string :=
  match pieces with
  | [] => []
  | [last] => if str_is_empty last then [] else [last]
  | p :: pieces => strip_cr p :: end_lines pieces
  end.
Definition lines (text : string) : list string := end_lines (split_on LF text).

(** What a column of cells looks like. *)
Definition infer (cells : list string) : string :=
  let filled := filter (λ c, c ≠ "") cells in
  if existsb (λ c, bool_decide (parse_i64 c = None) && bool_decide (parse_f64 c = None)) filled then "str"
  else if bool_decide (filled = []) then "str"
  else if existsb (λ c, bool_decide (parse_i64 c = None)) filled then "f64"
  else "i64".

(** The loop over the cells of a column: its null bytes, its words, its
    strings. *)
Definition cell_word (name dtype : string) (row : nat) (cell : string) (i : Interner) :
    result (N * Interner) string :=
  let at_ := "column '" +:+ name +:+ "' row " +:+ dec (N.of_nat row) +:+ ": '" +:+ cell in
  if bool_decide (dtype = "f64") then
    match parse_f64 cell with Some v => Ok (v, i) | None => Err (at_ +:+ "' is not a number") end
  else if bool_decide (dtype = "i64") then
    match parse_i64 cell with
    | Some v => Ok (word_of_i64 v, i)
    | None => Err (at_ +:+ "' is not an integer")
    end
  else let '(code, i) := intern (as_bytes cell) cell i in Ok (N.of_nat code, i).

Fixpoint csv_cells (name dtype : string) (fill : bytes) (row : nat) (cells : list string)
    (nulls values : bytes) (i : Interner) : result (bytes * bytes * Interner) string :=
  match cells with
  | [] => Ok (nulls, values, i)
  | cell :: cells =>
      if str_is_empty cell then
        csv_cells name dtype fill (S row) cells (nulls ++ [one]) (values ++ fill) i
      else
        wi ←? cell_word name dtype row cell i;
        csv_cells name dtype fill (S row) cells (nulls ++ [zero]) (values ++ le_word wi.1) wi.2
  end.

Definition csv_column (name : string) (cells : list string) (dtype : string) : result Decoded string :=
  let fill := if bool_decide (dtype = "f64") then NULL_F64 else replicate 8 zero in
  nvi ←? csv_cells name dtype fill 0 cells [] [] interner;
  let '(nulls, values, i) := nvi in
  let column :=
    if bool_decide (dtype = "f64") then Column.F64 values
    else if bool_decide (dtype = "i64") then Column.I64 values
    else Column.Text values (uniques i) in
  Ok (MkDecoded name column (mask_of column nulls)).

Definition dtype_of (hints : btree string string) (name : string) (cells : list string) : result string string :=
  match bt_get (K := string) name hints with
  | Some d =>
      if bool_decide (d = "f64" ∨ d = "i64" ∨ d = "str") then Ok d
      else Err ("dtypes." +:+ name +:+ ": '" +:+ d +:+ "' is not one of f64, i64, str")
  | None => Ok (infer cells)
  end.

(** A row that is too short has empty fields at its end; one that is too
    long loses them. *)
Definition read_csv_rows (rows : list string) (names : list string) (hints : btree string string)
    (delimiter : bytes) : result (nat * list Decoded) string :=
  let fields := (λ line, split_csv line delimiter) <$> rows in
  let cells i := (λ f : list string, default "" (f !! i)) <$> fields in
  out ←? try_map (λ iname : nat * string,
           dtype ←? dtype_of hints iname.2 (cells iname.1);
           csv_column iname.2 (cells iname.1) dtype)
         (imap pair names);
  Ok (length rows, out).

Definition read_csv_text (text : string) (hints : btree string string) (header : bool) (delimiter : bytes) :
    result (nat * list Decoded) string :=
  let kept := filter (λ l, l ≠ "") (lines text) in
  match kept with
  | [] => Ok (0, [])
  | first :: rest =>
      if header then read_csv_rows rest (split_csv first delimiter) hints delimiter
      else
        let names := (λ i : nat, "c" +:+ dec (N.of_nat i)) <$> seq 0 (length (split_csv first delimiter)) in
        read_csv_rows kept names hints delimiter
  end.

(** [quote]. *)
Definition doubled (field : string) : string :=
  of_bytes (as_bytes field ≫= λ c, if bool_decide (c = DQ) then [DQ; DQ] else [c]).
Definition quote (field : string) (delimiter : bytes) : string :=
  if bool_decide (delimiter ∈ chars field) || contains_char DQ field || contains_char LF field
  then String DQ "" +:+ doubled field +:+ String DQ ""
  else field.

(** [<[_]>::join]. *)
Definition join_with (sep : string) (l : list string) : string := String.concat sep l.

(** The word of a row. *)
Definition word_at (bs : bytes) (row : nat) : N := word_le (take 8 (drop (row * 8) bs)).

(** The string a code stands for. *)
Definition text_of (uniques : list string) (code : Z) : option string :=
  if bool_decide (0 ≤ code)%Z then uniques !! Z.to_nat code else None.

Definition csv_field (delimiter : bytes) (row : nat) (c : Writable) : result string string :=
  if bool_decide (w_nulls c !! row = Some one) then Ok ""
  else
    let w := word_at (Column.column_bytes (w_column c)) row in
    match w_column c with
    | Column.F64 _ => Ok (debug_f64 w)
    | Column.I64 _ => Ok (fmt_zero 0 (i64_of_word w))
    | Column.Text _ uniques =>
        let code := i64_of_word w in
        match text_of uniques code with
        | Some t => Ok (quote t delimiter)
        | None => Err ("column '" +:+ w_name c +:+ "' row " +:+ dec (N.of_nat row) +:+ " has code "
                       +:+ fmt_zero 0 code +:+ ", and uniques has " +:+ dec (N.of_nat (length uniques))
                       +:+ " entries")
        end
    end.

Definition first_rows (columns : list Writable) : nat :=
  match columns with c :: _ => Column.rows (w_column c) | [] => 0 end.

(** Every column as long as the first, or the refusal naming one that is
    not. *)
Definition same_rows (after : string) (columns : list Writable) : result unit string :=
  let rows := first_rows columns in
  match find_first (λ c, negb (bool_decide (Column.rows (w_column c) = rows))) columns with
  | Some c => Err ("column '" +:+ w_name c +:+ "' has " +:+ dec (N.of_nat (Column.rows (w_column c)))
                   +:+ " rows and the first has " +:+ dec (N.of_nat rows) +:+ after)
  | None => Ok tt
  end.

Definition write_csv_text (columns : list Writable) (header : bool) (delimiter : bytes) : result string string :=
  _ ←? same_rows "" columns;
  let sep := of_bytes delimiter in
  let line fields := join_with sep fields +:+ String LF "" in
  body ←? try_map (λ row, fields ←? try_map (csv_field delimiter row) columns; Ok (line fields))
            (seq 0 (first_rows columns));
  let names := (λ c, quote (w_name c) delimiter) <$> columns in
  Ok ((if header then line names else "") +:+ String.concat "" body).
End Table.
