(* ===== verification/TableSpec.v ===== *)
(** * What is written as CSV is read back

    A table written with a header, and read with the dtypes it was written
    with, is the same table: each column's name and kind and the value or
    null of each of its rows. *)

From S2P Require Import Prelude.
From S2P Require Import Bytes.
From S2P Require Import Value.
From S2P Require Import Float.
From S2P Require Import Table.

Module TableFacts.
Import Table.

(** ** A line *)

Lemma dq_char : is_char [DQ].
Proof. by apply ascii_char. Qed.

Lemma text_cons c cs : text (c :: cs) = of_bytes c +:+ text cs.
Proof.
  change (c :: cs) with ([c] ++ cs). rewrite text_app. f_equal. unfold text.
  change (mjoin [c]) with (c ++ []). by rewrite app_nil_r.
Qed.

Section line.
Context (d : bytes) (Hd : is_char d) (Hdq : d ≠ [DQ]).

Definition doubled_chars (cs : list bytes) : list bytes :=
  cs ≫= λ c, if bool_decide (c = [DQ]) then [[DQ]; [DQ]] else [c].
Definition needs_quotes (cs : list bytes) : bool :=
  bool_decide (d ∈ cs) || bool_decide ([DQ] ∈ cs) || bool_decide ([LF] ∈ cs).
Definition quoted_chars (cs : list bytes) : list bytes :=
  if needs_quotes cs then [DQ] :: doubled_chars cs ++ [[DQ]] else cs.

Lemma doubled_cons c cs :
  doubled_chars (c :: cs) = (if bool_decide (c = [DQ]) then [[DQ]; [DQ]] else [c]) ++ doubled_chars cs.
Proof. done. Qed.

Lemma split_plain cs : ∀ rest f, [DQ] ∉ cs → d ∉ cs →
  split_chars d (cs ++ rest) f false = split_chars d rest (f +:+ text cs) false.
Proof.
  induction cs as [|c cs IH]; intros rest f Hq Hc.
  - by rewrite (str_app_nil_r f : f +:+ text [] = f).
  - apply not_elem_of_cons in Hq as [Hq Hqs]. apply not_elem_of_cons in Hc as [Hc Hcs].
    cbn [app split_chars]. rewrite bool_decide_false by done. rewrite (bool_decide_false (c = d)) by done.
    cbn [andb negb]. by rewrite IH, text_cons, str_app_assoc.
Qed.

Lemma split_quoted cs : ∀ rest f, head rest ≠ Some [DQ] →
  split_chars d (doubled_chars cs ++ [DQ] :: rest) f true = split_chars d rest (f +:+ text cs) false.
Proof.
  induction cs as [|c cs IH]; intros rest f Hr.
  - rewrite (str_app_nil_r f : f +:+ text [] = f). cbn [doubled_chars mbind list_bind app split_chars].
    rewrite bool_decide_true by done. destruct rest as [|q rest]; [done|].
    rewrite (bool_decide_false (q = [DQ])); [done|]. intros ->. by apply Hr.
  - rewrite doubled_cons, text_cons, <-str_app_assoc. case_bool_decide as Hc.
    + subst c. cbn [app split_chars]. rewrite !bool_decide_true by done. cbn [andb]. by apply IH.
    + cbn [app split_chars]. rewrite bool_decide_false by done. rewrite andb_false_r. by apply IH.
Qed.

Lemma split_field cs rest : head rest ≠ Some [DQ] →
  split_chars d (quoted_chars cs ++ rest) "" false = split_chars d rest (text cs) false.
Proof.
  intros Hr. unfold quoted_chars. destruct (needs_quotes cs) eqn:Hn.
  - cbn [app split_chars]. rewrite bool_decide_true by done. rewrite <-app_assoc. cbn [andb negb app].
    pose proof (split_quoted cs rest "" Hr) as Hs.
    destruct (doubled_chars cs ++ [DQ] :: rest) as [|q l] eqn:E; [by destruct (doubled_chars cs)|].
    exact Hs.
  - unfold needs_quotes in Hn. rewrite !orb_false_iff, !bool_decide_eq_false in Hn.
    destruct Hn as [[Hnd Hnq] _]. by apply split_plain.
Qed.

(** The characters of fields joined into a line. *)
Fixpoint line_chars (fs : list (list bytes)) : list bytes :=
  match fs with
  | [] => []
  | [f] => quoted_chars f
  | f :: fs => quoted_chars f ++ d :: line_chars fs
  end.

Lemma split_line fs : fs ≠ [] → split_chars d (line_chars fs) "" false = text <$> fs.
Proof.
  induction fs as [|f [|g fs] IH]; intros Hne; [done| |].
  - cbn [line_chars]. rewrite <-(app_nil_r (quoted_chars f)). by rewrite split_field.
  - change (line_chars (f :: g :: fs)) with (quoted_chars f ++ d :: line_chars (g :: fs)).
    rewrite split_field by (intros [=]; done). cbn [split_chars].
    rewrite bool_decide_false by done. rewrite bool_decide_true by done. cbn [andb negb].
    rewrite IH by done. done.
Qed.

(** *** The line as text *)

Lemma doubled_text cs : Forall is_char cs → doubled (text cs) = text (doubled_chars cs).
Proof.
  intros Hcs. unfold doubled. apply as_bytes_inj. unfold text. rewrite !as_of_bytes.
  induction Hcs as [|c cs Hc _ IH]; [done|].
  rewrite doubled_cons, mjoin_app_bytes. change (mjoin (c :: cs)) with (c ++ mjoin cs).
  rewrite bind_app, IH. f_equal. case_bool_decide as Hdc; [by subst|].
  change (mjoin [c]) with (c ++ []). rewrite app_nil_r.
  assert (Hno : DQ ∉ c) by (intros Hin; apply Hdc; by apply is_char_high).
  clear -Hno. induction c as [|x c IH]; [done|]. apply not_elem_of_cons in Hno as [Hx Hno].
  cbn [mbind list_bind]. rewrite bool_decide_false by done. cbn [app]. f_equal. by apply IH.
Qed.

Lemma contains_chars c s :
  utf8_valid (as_bytes s) = true → (byte_val c < 128)%N →
  contains_char c s = bool_decide ([c] ∈ chars s).
Proof.
  intros [Hcs Ht]%valid_text Hc. rewrite <-Ht at 1. apply Bool.eq_iff_eq_true.
  by rewrite bool_decide_eq_true, char_in_text.
Qed.

Lemma doubled_all cs : Forall is_char cs → Forall is_char (doubled_chars cs).
Proof.
  induction 1 as [|c cs Hc _ IH]; [constructor|]. rewrite doubled_cons. apply Forall_app. split; [|done].
  pose proof dq_char. case_bool_decide; by rewrite !Forall_cons, Forall_nil.
Qed.

Lemma quoted_all cs : Forall is_char cs → Forall is_char (quoted_chars cs).
Proof.
  intros Hcs. unfold quoted_chars. destruct (needs_quotes cs); [|done].
  constructor; [apply dq_char|]. apply Forall_app. split; [by apply doubled_all|].
  constructor; [apply dq_char|constructor].
Qed.

Lemma quote_text s : utf8_valid (as_bytes s) = true → quote s d = text (quoted_chars (chars s)).
Proof.
  intros Hv. destruct (valid_text s Hv) as [Hcs Ht]. unfold quote, quoted_chars, needs_quotes.
  rewrite !contains_chars by done. destruct (_ || _ || _); [|done].
  change ([DQ] :: doubled_chars (chars s) ++ [[DQ]]) with ([[DQ]] ++ doubled_chars (chars s) ++ [[DQ]]).
  rewrite !text_app. rewrite <-doubled_text, Ht by done. done.
Qed.

Lemma join_text ss :
  Forall (λ s, utf8_valid (as_bytes s) = true) ss →
  join_with (of_bytes d) ((λ s, quote s d) <$> ss) = text (line_chars (chars <$> ss)).
Proof.
  induction 1 as [|s ss Hs Hss IH]; [done|]. destruct ss as [|s' ss].
  - exact (quote_text s Hs).
  - change (chars <$> s :: s' :: ss) with (chars s :: chars s' :: (chars <$> ss)).
    change (line_chars (chars s :: chars s' :: (chars <$> ss)))
      with (quoted_chars (chars s) ++ d :: line_chars (chars s' :: (chars <$> ss))).
    rewrite text_app, text_cons, <-(quote_text s Hs). unfold join_with in *.
    by rewrite <-(IH : String.concat _ _ = text (line_chars (chars s' :: (chars <$> ss)))).
Qed.

Lemma line_all fs : Forall (Forall is_char) fs → Forall is_char (line_chars fs).
Proof.
  induction 1 as [|f fs Hf Hfs IH]; [constructor|]. destruct fs as [|g fs]; [by apply quoted_all|].
  change (line_chars (f :: g :: fs)) with (quoted_chars f ++ d :: line_chars (g :: fs)).
  apply Forall_app. split; [by apply quoted_all|by constructor].
Qed.

(** The fields of a joined line. *)
Lemma split_joined ss :
  ss ≠ [] → Forall (λ s, utf8_valid (as_bytes s) = true) ss →
  split_csv (join_with (of_bytes d) ((λ s, quote s d) <$> ss)) d = ss.
Proof.
  intros Hne Hv. unfold split_csv. rewrite join_text by done.
  assert (Hall : Forall (Forall is_char) (chars <$> ss)).
  { apply Forall_fmap. eapply Forall_impl; [exact Hv|]. intros s Hs. by apply valid_text. }
  rewrite chars_of by by apply line_all. rewrite split_line by by destruct ss.
  rewrite <-list_fmap_compose. rewrite <-(list_fmap_id ss) at 2. apply list_fmap_ext.
  intros i s Hs. eapply Forall_lookup_1 in Hv; [|done]. by apply valid_text.
Qed.

Lemma doubled_elem x cs : x ∈ doubled_chars cs → x ∈ cs.
Proof.
  unfold doubled_chars. rewrite list_elem_of_bind. intros (c & Hx & Hc). case_bool_decide.
  - subst c. by rewrite !elem_of_cons, elem_of_nil in Hx; destruct Hx as [->|[->|[]]].
  - by apply list_elem_of_singleton in Hx as ->.
Qed.

Lemma quoted_elem x cs : x ∈ quoted_chars cs → x = [DQ] ∨ x ∈ cs.
Proof.
  unfold quoted_chars. destruct (needs_quotes cs); [|by right].
  rewrite elem_of_cons, elem_of_app, list_elem_of_singleton. intros [->|[Hx| ->]]; [by left| |by left].
  right. by apply doubled_elem.
Qed.

Lemma line_elem x fs : x ∈ line_chars fs → x = d ∨ x = [DQ] ∨ Exists (λ f, x ∈ f) fs.
Proof.
  induction fs as [|f [|g fs] IH]; [by intros ?%elem_of_nil| |].
  - intros [->|Hx]%quoted_elem; [by right; left|]. right; right. by left.
  - change (line_chars (f :: g :: fs)) with (quoted_chars f ++ d :: line_chars (g :: fs)).
    rewrite elem_of_app, elem_of_cons. intros [[->|Hx]%quoted_elem|[->|Hx]].
    + by right; left.
    + right; right. by left.
    + by left.
    + destruct (IH Hx) as [->|[->|He]]; [by left|by right; left|]. right; right. by right.
Qed.

(** A joined line has no line end its fields and the delimiter have not. *)
Lemma joined_no c ss :
  (byte_val c < 128)%N → c ≠ DQ → d ≠ [c] →
  Forall (λ s, utf8_valid (as_bytes s) = true ∧ contains_char c s = false) ss →
  contains_char c (join_with (of_bytes d) ((λ s, quote s d) <$> ss)) = false.
Proof.
  intros Hc Hcq Hcd [Hv Hno]%Forall_and. rewrite join_text by done.
  assert (Hall : Forall (Forall is_char) (chars <$> ss)).
  { apply Forall_fmap. eapply Forall_impl; [exact Hv|]. intros s Hs. by apply valid_text. }
  apply not_true_iff_false. intros Hin. apply char_in_text in Hin; [|by apply line_all|done].
  apply line_elem in Hin as [Hx|[Hx|He]]; [by apply Hcd|by injection Hx|].
  apply Exists_exists in He as (f & Hf & Hx). apply list_elem_of_fmap in Hf as (s & -> & Hs).
  rewrite Forall_forall in Hv, Hno. specialize (Hv s Hs). specialize (Hno s Hs). cbn in Hv, Hno.
  rewrite contains_chars in Hno by done. by apply bool_decide_eq_false in Hno.
Qed.

Lemma quote_nonempty s : s ≠ "" → quote s d ≠ "".
Proof. unfold quote. intros Hs. by destruct (_ || _). Qed.

(** A line is not empty unless it is one empty field. *)
Lemma joined_nonempty ss :
  2 ≤ length ss ∨ Forall (λ s, s ≠ "") ss → ss ≠ [] → join_with (of_bytes d) ((λ s, quote s d) <$> ss) ≠ "".
Proof.
  intros Hlong Hne. destruct ss as [|s [|s' ss]]; [done| |].
  - destruct Hlong as [Hl|Hs]; [simpl in Hl; lia|]. apply Forall_inv in Hs. by apply quote_nonempty.
  - change (join_with _ _) with (quote s d +:+ of_bytes d +:+ join_with (of_bytes d) ((λ s, quote s d) <$> s' :: ss)).
    intros H%(f_equal as_bytes). rewrite !as_bytes_app, as_of_bytes in H.
    apply app_eq_nil in H as [_ H]. apply app_eq_nil in H as [H _]. by destruct Hd.
Qed.
End line.

(** ** Lines *)

Lemma lines_text ls :
  Forall (λ l, contains_char LF l = false ∧ contains_char CR l = false) ls →
  lines (String.concat "" ((λ l, l +:+ String LF "") <$> ls)) = ls.
Proof.
  intros Hls. unfold lines.
  assert (Hsp : split_on LF (String.concat "" ((λ l, l +:+ String LF "") <$> ls)) = ls ++ [""]).
  { induction Hls as [|l ls [Hl _] _ IH]; [done|].
    assert (Hc : String.concat "" ((λ l, l +:+ String LF "") <$> l :: ls)
                 = l +:+ String LF (String.concat "" ((λ l, l +:+ String LF "") <$> ls))).
    { destruct ls as [|l' ls]; [done|]. cbn [fmap list_fmap String.concat]. by rewrite str_app_assoc. }
    rewrite Hc, split_on_app, IH, split_on_none by done. done. }
  rewrite Hsp. clear Hsp. induction Hls as [|l ls [_ Hcr] _ IH]; [done|].
  assert (Hs : strip_cr l = l).
  { unfold strip_cr. destruct (strip_suffix (String CR "") l) as [r|] eqn:E; [|done].
    apply strip_suffix_Some in E as ->. rewrite contains_char_app in Hcr.
    apply orb_false_iff in Hcr as [_ Hcr]. by vm_compute in Hcr. }
  destruct (ls ++ [""]) as [|x xs] eqn:E; [by destruct ls|].
  change ((l :: ls) ++ [""]) with (l :: (ls ++ [""])). rewrite E. cbn [end_lines]. rewrite Hs. f_equal. exact IH.
Qed.

(** ** What a table says *)

(** A double that is a number, by its bits; an integer; a string. *)
Inductive Cell := Num (w : N) | Int (z : Z) | Str (s : string).
#[export] Instance Cell_eq_dec : EqDecision Cell.
Proof. solve_decision. Defined.

Definition kind_of (c : Column) : string :=
  match c with Column.F64 _ => "f64" | Column.I64 _ => "i64" | Column.Text _ _ => "str" end.

Definition cell_at (c : Column) (row : nat) : option Cell :=
  let w := word_at (Column.column_bytes c) row in
  match c with
  | Column.F64 _ => if is_nan w then None else Some (Num w)
  | Column.I64 _ => Some (Int (i64_of_word w))
  | Column.Text _ uniques => Str <$> text_of uniques (i64_of_word w)
  end.

(** The rows of a column that is written and of one that was read. *)
Definition written_cell (c : Writable) (row : nat) : option Cell :=
  if bool_decide (w_nulls c !! row = Some one) then None else cell_at (w_column c) row.
Definition written_cells (c : Writable) : list (option Cell) :=
  written_cell c <$> seq 0 (Column.rows (w_column c)).

Definition read_cell (d : Decoded) (row : nat) : option Cell :=
  if bool_decide (dec_valid d = []) || bool_decide (dec_valid d !! row = Some one)
  then cell_at (dec_column d) row else None.
Definition read_cells (d : Decoded) : list (option Cell) :=
  read_cell d <$> seq 0 (Column.rows (dec_column d)).

(** *** Words *)

Lemma words_length (ws : list N) : length (mjoin (le_word <$> ws)) = 8 * length ws.
Proof.
  induction ws as [|w ws IH]; [done|].
  change (mjoin (le_word <$> w :: ws)) with (le_word w ++ mjoin (le_word <$> ws)).
  rewrite length_app, IH, le_word_length. simpl. lia.
Qed.

Lemma words_rows (ws : list N) : length (mjoin (le_word <$> ws)) / 8 = length ws.
Proof. rewrite words_length, Nat.mul_comm. by apply Nat.div_mul. Qed.

Lemma word_at_words ws row w :
  ws !! row = Some w → (w < 2 ^ 64)%N → word_at (mjoin (le_word <$> ws)) row = w.
Proof.
  intros Hw Hb. unfold word_at. revert row Hw. induction ws as [|v ws IH]; intros row Hw; [done|].
  change (mjoin (le_word <$> v :: ws)) with (le_word v ++ mjoin (le_word <$> ws)).
  destruct row as [|row].
  - injection Hw as ->. rewrite drop_0, take_app_length' by done. by apply word_le_word.
  - change (S row * 8) with (8 + row * 8). rewrite <-drop_drop.
    rewrite (drop_app_length' (le_word v)) by done. by apply IH.
Qed.

Lemma word_at_bound bs row : (word_at bs row < 2 ^ 64)%N.
Proof. apply word_le_bound. rewrite length_take. lia. Qed.

(** ** Cells as text *)

Definition raw_text (cell : option Cell) : string :=
  match cell with
  | None => ""
  | Some (Num w) => debug_f64 w
  | Some (Int z) => fmt_zero 0 z
  | Some (Str s) => s
  end.

(** Text of one line. *)
Definition plain (s : string) : Prop :=
  utf8_valid (as_bytes s) = true ∧ contains_char LF s = false ∧ contains_char CR s = false.

(** What a CSV with this delimiter can say of a cell: a number whose text is
    read back and needs no quotes, a string of one line that is not empty. *)
Definition cell_ok (d : bytes) (cell : option Cell) : Prop :=
  match cell with
  | None => True
  | Some (Num w) => parse_f64 (debug_f64 w) = Some w ∧ plain (debug_f64 w) ∧ quote (debug_f64 w) d = debug_f64 w
  | Some (Int z) => plain (fmt_zero 0 z) ∧ quote (fmt_zero 0 z) d = fmt_zero 0 z
  | Some (Str s) => s ≠ "" ∧ plain s
  end.

(** The null bytes of an [f64] column are its NaNs, as the connector has
    them. *)
Definition nulls_ok (c : Writable) : Prop :=
  match w_column c with
  | Column.F64 bs => ∀ row, row < length bs / 8 → is_nan (word_at bs row) = true → w_nulls c !! row = Some one
  | _ => True
  end.

Lemma csv_field_text d row c t :
  csv_field d row c = Ok t → row < Column.rows (w_column c) → nulls_ok c → cell_ok d (written_cell c row) →
  t = quote (raw_text (written_cell c row)) d.
Proof.
  unfold csv_field, written_cell, nulls_ok, Column.rows. intros Hf Hrow Hn.
  case_bool_decide as Hnull; [intros _; by injection Hf as <-|].
  unfold cell_at. destruct (w_column c) as [bs|bs|codes us]; simpl in *.
  - destruct (is_nan (word_at bs row)) eqn:Hnan; [destruct (Hnull (Hn row Hrow Hnan))|].
    intros (_ & _ & Hq). simpl. rewrite Hq. by injection Hf.
  - intros (_ & Hq). simpl. rewrite Hq. by injection Hf.
  - destruct (text_of us _) as [s|]; [|done]. intros _. simpl. by injection Hf.
Qed.

(** ** Text as cells *)

Definition of_kind (k : string) (cell : option Cell) : Prop :=
  match cell with
  | None => True
  | Some (Num w) => k = "f64" ∧ is_nan w = false ∧ (w < 2 ^ 64)%N
  | Some (Int z) => k = "i64" ∧ (- 2 ^ 63 ≤ z < 2 ^ 63)%Z
  | Some (Str _) => k = "str"
  end.

Definition known (k : string) : Prop := k = "f64" ∨ k = "i64" ∨ k = "str".

(** The word of a cell, its strings interned. *)
Definition fill_word (k : string) : N := if bool_decide (k = "f64") then QNAN else 0%N.
Definition represents (k : string) (us : list string) (cell : option Cell) (w : N) : Prop :=
  (w < 2 ^ 64)%N ∧
  match cell with
  | None => k = "f64" → is_nan w = true
  | Some (Num v) => w = v
  | Some (Int z) => w = word_of_i64 z
  | Some (Str s) => (w < 2 ^ 63)%N ∧ us !! N.to_nat w = Some s
  end.

Lemma represents_more k us us' cell w : us `prefix_of` us' → represents k us cell w → represents k us' cell w.
Proof.
  intros Hp [Hw Hr]. split; [done|]. destruct cell as [[v|z|s]|]; [done..| |done].
  destruct Hr as [Hb Hl]. split; [done|]. by eapply prefix_lookup_Some.
Qed.

(** Codes lead to the texts of the keys they were given for. *)
Definition interned (text : bytes → string) (i : Interner) : Prop :=
  ∀ key code, index i !! key = Some code → uniques i !! code = Some (text key).

Lemma interned_nil text : interned text interner.
Proof. intros key code Hc. cbn in Hc. by rewrite lookup_empty in Hc. Qed.

Lemma intern_spec text key i :
  interned text i → let '(code, i') := intern key (text key) i in
  interned text i' ∧ uniques i `prefix_of` uniques i' ∧ uniques i' !! code = Some (text key)
  ∧ length (uniques i') ≤ S (length (uniques i)).
Proof.
  intros Hi. unfold intern. destruct (index i !! key) as [code|] eqn:E.
  - split_and!; [done|done|by apply Hi|lia].
  - cbn [uniques]. split_and!.
    + intros key' code'. cbn [index uniques]. destruct (decide (key' = key)) as [->|Hs].
      * rewrite lookup_insert_eq. intros [= <-]. by rewrite lookup_app_r, Nat.sub_diag.
      * rewrite lookup_insert_ne by congruence. intros Hc%Hi. by apply lookup_app_l_Some.
    + by apply prefix_app_r.
    + by rewrite lookup_app_r, Nat.sub_diag.
    + rewrite length_app. simpl. lia.
Qed.

Definition null_byte (cell : option Cell) : ascii := match cell with Some _ => zero | None => one end.

Lemma cell_word_spec d name k row cell i :
  known k → interned of_bytes i → (N.of_nat (S (length (uniques i))) < 2 ^ 63)%N →
  cell ≠ None → of_kind k cell → cell_ok d cell →
  ∃ w i', cell_word name k row (raw_text cell) i = Ok (w, i')
    ∧ interned of_bytes i' ∧ uniques i `prefix_of` uniques i' ∧ length (uniques i') ≤ S (length (uniques i))
    ∧ represents k (uniques i') cell w.
Proof.
  intros Hk Hi Hl Hne Hof Hok. destruct cell as [[v|z|s]|]; [..|done]; unfold cell_word; simpl in Hof, Hok.
  - destruct Hof as (-> & _ & Hb). rewrite bool_decide_true by done. simpl. rewrite (proj1 Hok).
    exists v, i. split_and!; [done..|lia|done].
  - destruct Hof as (-> & Hz). rewrite bool_decide_false, bool_decide_true by done. simpl.
    rewrite parse_i64_fmt by done. exists (word_of_i64 z), i. split_and!; [done..|lia|].
    split; [apply word_of_i64_bound|done].
  - subst k. rewrite !bool_decide_false by done. simpl.
    pose proof (intern_spec of_bytes (as_bytes s) i Hi) as Hs. rewrite of_as_bytes in Hs.
    destruct (intern (as_bytes s) s i) as [code i'].
    destruct Hs as (Hi' & Hp & Hcode & Hlen). exists (N.of_nat code), i'. split_and!; [done..|].
    apply lookup_lt_Some in Hcode as Hlt. unfold represents. rewrite Nat2N.id. split_and!; [lia|lia|done].
Qed.

Lemma fill_word_text k : known k → (if bool_decide (k = "f64") then NULL_F64 else replicate 8 zero) = le_word (fill_word k).
Proof. intros _. unfold fill_word. by case_bool_decide; vm_compute. Qed.

Lemma raw_empty d cell : cell_ok d cell → str_is_empty (raw_text cell) = bool_decide (cell = None).
Proof.
  intros Hok. unfold str_is_empty. apply bool_decide_ext. destruct cell as [[v|z|s]|]; simpl in *; [..|done];
    (split; [|done]); intros He.
  - destruct Hok as (Hp & _). rewrite He in Hp. by vm_compute in Hp.
  - destruct (fmt_zero_parts 0 z) as (ds & Hs & Hne & _). rewrite He in Hs. injection Hs as _ Hs. by subst.
  - by destruct Hok.
Qed.

Lemma csv_cells_spec d name k cs : known k → ∀ row nulls values i,
  interned of_bytes i → (N.of_nat (length (uniques i) + length cs) < 2 ^ 63)%N →
  Forall (λ c, of_kind k c ∧ cell_ok d c) cs →
  ∃ ws i', csv_cells name k (le_word (fill_word k)) row (raw_text <$> cs) nulls values i
           = Ok (nulls ++ (null_byte <$> cs), values ++ mjoin (le_word <$> ws), i')
    ∧ uniques i `prefix_of` uniques i' ∧ Forall2 (represents k (uniques i')) cs ws.
Proof.
  intros Hk. induction cs as [|cell cs IH]; intros row nulls values i Hi Hl Hcs.
  { exists [], i. cbn [fmap list_fmap csv_cells mjoin list_join]. by rewrite !app_nil_r. }
  apply Forall_cons in Hcs as [[Hof Hok] Hcs]. simpl length in Hl.
  assert (Hone : ∃ w i1, (if str_is_empty (raw_text cell) then Ok (fill_word k, i) else cell_word name k row (raw_text cell) i)
                         = Ok (w, i1)
    ∧ interned of_bytes i1 ∧ uniques i `prefix_of` uniques i1 ∧ length (uniques i1) ≤ S (length (uniques i))
    ∧ represents k (uniques i1) cell w).
  { rewrite (raw_empty d) by done. destruct (decide (cell = None)) as [->|Hne].
    - rewrite bool_decide_true by done. exists (fill_word k), i. split_and!; [done..|lia|].
      split; [unfold fill_word; by case_bool_decide; vm_compute|]. intros ->. by vm_compute.
    - rewrite bool_decide_false by done. apply (cell_word_spec d); try done. lia. }
  destruct Hone as (w & i1 & He & Hi1 & Hp1 & Hl1 & Hr).
  destruct (IH (S row) (nulls ++ [null_byte cell]) (values ++ le_word w) i1) as (ws & i2 & Hc & Hp2 & Hws);
    [done|lia|done|].
  exists (w :: ws), i2. split_and!; [|by etrans|].
  - change (mjoin (le_word <$> w :: ws)) with (le_word w ++ mjoin (le_word <$> ws)).
    change (null_byte <$> cell :: cs) with ([null_byte cell] ++ (null_byte <$> cs)).
    rewrite (app_assoc nulls), (app_assoc values), <-Hc.
    cbn [fmap list_fmap csv_cells]. rewrite (raw_empty d) in * by done.
    destruct (decide (cell = None)) as [->|Hne].
    + rewrite bool_decide_true in * by done. by injection He as <- <-.
    + rewrite bool_decide_false in * by done. rewrite He. by destruct cell.
  - constructor; [|done]. by eapply represents_more.
Qed.

Definition column_of_kind (k : string) (bs : bytes) (us : list string) : Column :=
  if bool_decide (k = "f64") then Column.F64 bs
  else if bool_decide (k = "i64") then Column.I64 bs else Column.Text bs us.

(** A represented cell is read out of the column it is in. *)
Lemma cell_at_represented k us ws row cell w :
  known k → of_kind k cell → represents k us cell w → ws !! row = Some w →
  (cell = None → k = "f64") → cell_at (column_of_kind k (mjoin (le_word <$> ws)) us) row = cell.
Proof.
  intros Hk Hof [Hb Hr] Hw Hnone. unfold cell_at, column_of_kind.
  destruct cell as [[v|z|s]|]; simpl in Hof, Hr.
  - destruct Hof as (-> & Hn & _). subst w. rewrite bool_decide_true by done. simpl.
    by rewrite (word_at_words _ _ _ Hw), Hn.
  - destruct Hof as (-> & Hz). subst w. rewrite bool_decide_false, bool_decide_true by done. simpl.
    rewrite (word_at_words _ _ _ Hw) by done. by rewrite i64_word.
  - destruct Hr as [Hs Hl]. subst k. rewrite !bool_decide_false by done. simpl.
    rewrite (word_at_words _ _ _ Hw) by done. unfold i64_of_word, text_of.
    rewrite (bool_decide_true (w < 2 ^ 63)%N) by done. rewrite bool_decide_true by lia.
    replace (Z.to_nat (Z.of_N w)) with (N.to_nat w) by lia. by rewrite Hl.
  - specialize (Hnone eq_refl) as ->. rewrite bool_decide_true by done. simpl.
    rewrite (word_at_words _ _ _ Hw) by done. by rewrite Hr.
Qed.

Lemma mask_text k bs us cs :
  k ≠ "f64" →
  mask_of (column_of_kind k bs us) (null_byte <$> cs)
  = if bool_decide (None ∈ cs) then (λ c : option Cell, if c is Some _ then one else zero) <$> cs else [].
Proof.
  intros Hk. unfold mask_of, column_of_kind. rewrite bool_decide_false by done.
  assert (Hin : bool_decide (one ∈ null_byte <$> cs) = bool_decide (None ∈ cs)).
  { apply bool_decide_ext. rewrite list_elem_of_fmap. split; [|by exists None].
    by intros ([c|] & Hc & Hin). }
  assert (Hmap : (λ n, of_byte (1 - byte_val n)) <$> (null_byte <$> cs)
                 = (λ c : option Cell, if c is Some _ then one else zero) <$> cs).
  { rewrite <-list_fmap_compose. apply list_fmap_ext. by intros i [c|] _. }
  by destruct (bool_decide (k = "i64")); rewrite Hin, Hmap.
Qed.

Lemma mask_nil c : mask_of c [] = [].
Proof. unfold mask_of. destruct c; [done|..]; by rewrite bool_decide_false by apply not_elem_of_nil. Qed.

Lemma kind_of_column k bs us : known k → kind_of (column_of_kind k bs us) = k.
Proof. by intros [->|[->| ->]]. Qed.

Lemma column_rows k ws us : Column.rows (column_of_kind k (mjoin (le_word <$> ws)) us) = length ws.
Proof.
  unfold Column.rows. rewrite <-(words_rows ws). unfold column_of_kind. by repeat case_bool_decide.
Qed.

(** A column of the words that represent cells, with the mask of its null
    bytes, says those cells. *)
Lemma decoded_cells k us name ws cs nulls :
  known k → Forall (of_kind k) cs → Forall2 (represents k us) cs ws →
  (k ≠ "f64" → nulls = null_byte <$> cs ∨ nulls = [] ∧ None ∉ cs) →
  let column := column_of_kind k (mjoin (le_word <$> ws)) us in
  read_cells (MkDecoded name column (mask_of column nulls)) = cs.
Proof.
  intros Hk Hof Hws Hnulls. cbn zeta. pose proof (Forall2_length _ _ _ Hws) as Hlen.
  apply list_eq. intros row. unfold read_cells. cbn [dec_column]. rewrite column_rows, <-Hlen, list_lookup_fmap.
  destruct (cs !! row) as [cell|] eqn:Hc; [|by rewrite lookup_seq_ge by by apply lookup_ge_None].
  rewrite lookup_seq_lt by by eapply lookup_lt_Some. simpl. f_equal.
  eapply Forall2_lookup_l in Hws as (w & Hw & Hr); [|done]. eapply Forall_lookup_1 in Hof; [|done].
  unfold read_cell. cbn [dec_column dec_valid]. destruct (decide (k = "f64")) as [Hf|Hf].
  - assert (Hm : mask_of (column_of_kind k (mjoin (le_word <$> ws)) us) nulls = []).
    { unfold mask_of, column_of_kind. by rewrite bool_decide_true. }
    rewrite Hm, bool_decide_true by done. by apply (cell_at_represented k us ws row cell w).
  - assert (Hcell : cell = None → nulls = null_byte <$> cs).
    { intros ->. destruct (Hnulls Hf) as [?|[_ Hno]]; [done|]. destruct Hno. by eapply list_elem_of_lookup_2. }
    destruct cell as [c|].
    + rewrite (cell_at_represented k us ws row (Some c) w) by done.
      destruct (Hnulls Hf) as [->|[-> _]].
      * rewrite mask_text by done. destruct (bool_decide (None ∈ cs)); [|done].
        rewrite list_lookup_fmap, Hc. simpl. by rewrite orb_true_r.
      * by rewrite mask_nil.
    + rewrite (Hcell eq_refl), mask_text by done. assert (Hin : None ∈ cs) by by eapply list_elem_of_lookup_2.
      rewrite (bool_decide_true (None ∈ cs)) by done. rewrite list_lookup_fmap, Hc. simpl.
      rewrite (bool_decide_false (_ = [])) by (by destruct cs). done.
Qed.

Lemma csv_column_spec d name k cs :
  known k → (N.of_nat (length cs) < 2 ^ 63)%N → Forall (λ c, of_kind k c ∧ cell_ok d c) cs →
  ∃ col, csv_column name (raw_text <$> cs) k = Ok col
    ∧ dec_name col = name ∧ kind_of (dec_column col) = k ∧ read_cells col = cs.
Proof.
  intros Hk Hl Hcs. unfold csv_column. rewrite fill_word_text by done.
  destruct (csv_cells_spec d name k cs Hk 0 [] [] interner) as (ws & i & He & _ & Hws);
    [apply interned_nil|simpl; lia|done|].
  rewrite He. cbn [rbind app].
  change (if bool_decide (k = "f64") then _ else _) with (column_of_kind k (mjoin (le_word <$> ws)) (uniques i)).
  eexists. split; [reflexivity|]. cbn [dec_name dec_column].
  split; [done|split; [by apply kind_of_column|]].
  apply decoded_cells; [done| |done|by left]. eapply Forall_impl; [exact Hcs|]. by intros c [? _].
Qed.

(** ** The round trip *)

(** The tables a CSV with this delimiter can say: no line of it is empty,
    every name is text of one line and every cell can be said. *)
Record sayable (d : bytes) (cols : list Writable) : Prop := {
  say_cols : cols ≠ [];
  say_each : Forall (λ c, plain (w_name c) ∧ nulls_ok c ∧ Forall (cell_ok d) (written_cells c)) cols;
  say_lines : 2 ≤ length cols ∨ Forall (λ c, w_name c ≠ "" ∧ None ∉ written_cells c) cols;
  say_rows : (N.of_nat (first_rows cols) < 2 ^ 63)%N;
}.

(** One character that is neither a quote nor ends a line. *)
Definition delimits (d : bytes) : Prop := is_char d ∧ d ≠ [DQ] ∧ d ≠ [LF] ∧ d ≠ [CR].

Lemma written_of_kind c row : of_kind (kind_of (w_column c)) (written_cell c row).
Proof.
  unfold written_cell. case_bool_decide; [done|]. unfold cell_at.
  pose proof (word_at_bound (Column.column_bytes (w_column c)) row) as Hb.
  destruct (w_column c) as [bs|bs|codes us]; simpl in *.
  - by destruct (is_nan _) eqn:E.
  - split; [done|]. unfold i64_of_word. case_bool_decide; lia.
  - by destruct (text_of _ _).
Qed.

Lemma same_rows_Ok after cols c : same_rows after cols = Ok tt → c ∈ cols → Column.rows (w_column c) = first_rows cols.
Proof.
  unfold same_rows. destruct (find_first _ _) as [c'|] eqn:E; [done|]. intros _ Hc.
  pose proof (find_first_None _ _ c E Hc) as Hn. cbn in Hn. apply negb_false_iff in Hn.
  by apply bool_decide_eq_true in Hn.
Qed.

(** What is written: the line of the names and a line for each row. *)
Definition table_lines (d : bytes) (cols : list Writable) : list (list string) :=
  (w_name <$> cols) :: ((λ row, (λ c, raw_text (written_cell c row)) <$> cols) <$> seq 0 (first_rows cols)).
Definition csv_line (d : bytes) (fields : list string) : string :=
  join_with (of_bytes d) ((λ s, quote s d) <$> fields).

Lemma try_map_as {A B E} (f : A → result B E) (g : A → B) l ys :
  try_map f l = Ok ys → (∀ x y, x ∈ l → f x = Ok y → y = g x) → ys = g <$> l.
Proof.
  rewrite try_map_Ok. induction 1 as [|x y l ys Hy _ IH]; intros Hg; [done|].
  rewrite fmap_cons. f_equal; [by apply Hg; [left|]|]. apply IH. intros z w Hz. apply Hg. by right.
Qed.

Lemma concat_cons s ss : String.concat "" (s :: ss) = s +:+ String.concat "" ss.
Proof. destruct ss; [by rewrite str_app_nil_r|done]. Qed.

Lemma write_csv_lines d cols t :
  sayable d cols → write_csv_text cols true d = Ok t →
  t = String.concat "" ((λ l, l +:+ String LF "") <$> (csv_line d <$> table_lines d cols))
  ∧ ∀ c, c ∈ cols → Column.rows (w_column c) = first_rows cols.
Proof.
  intros Hs. unfold write_csv_text. destruct (same_rows "" cols) as [[]|e] eqn:Hsame; [|done]. cbn [rbind].
  destruct (try_map _ (seq 0 (first_rows cols))) as [body|e] eqn:Hbody; [|done]. cbn [rbind].
  intros [= <-]. pose proof (λ c, same_rows_Ok "" cols c Hsame) as Hrows. split; [|done].
  unfold table_lines. rewrite !fmap_cons, concat_cons. f_equal.
  { f_equal. unfold csv_line. by rewrite <-list_fmap_compose. }
  f_equal. rewrite <-!list_fmap_compose. apply (try_map_as _ _ _ _ Hbody). intros row line Hrow Hline.
  apply rbind_Ok in Hline as (fields & Hfields & [= <-]). cbn. f_equal. unfold csv_line. f_equal.
  rewrite <-list_fmap_compose. apply (try_map_as _ _ _ _ Hfields). intros c text Hc Htext. cbn.
  apply elem_of_seq in Hrow. pose proof (say_each _ _ Hs) as Heach. rewrite Forall_forall in Heach.
  destruct (Heach c Hc) as (_ & Hn & Hok).
  apply csv_field_text; [done|rewrite Hrows by done; lia|done|].
  rewrite Forall_forall in Hok. apply Hok. unfold written_cells. apply list_elem_of_fmap. exists row.
  split; [done|]. apply elem_of_seq. rewrite Hrows by done. lia.
Qed.

Lemma cell_plain d cell : cell_ok d cell → plain (raw_text cell).
Proof. destruct cell as [[v|z|s]|]; simpl; [naive_solver..|done]. Qed.

(** Every field of every line is text of one line. *)
Lemma table_plain d cols :
  sayable d cols → (∀ c, c ∈ cols → Column.rows (w_column c) = first_rows cols) →
  Forall (λ fields, Forall plain fields ∧ fields ≠ []
                    ∧ (2 ≤ length fields ∨ Forall (λ s, s ≠ "") fields)) (table_lines d cols).
Proof.
  intros [Hne Heach Hlong _] Hrows. rewrite Forall_forall in Heach.
  assert (Hcell : ∀ c row, c ∈ cols → row ∈ seq 0 (first_rows cols) →
    cell_ok d (written_cell c row) ∧ (written_cell c row ∈ written_cells c)).
  { intros c row Hc Hrow. destruct (Heach c Hc) as (_ & _ & Hok). rewrite Forall_forall in Hok.
    assert (Hin : written_cell c row ∈ written_cells c).
    { unfold written_cells. apply list_elem_of_fmap. exists row. by rewrite (Hrows c Hc). }
    split; [by apply Hok|done]. }
  apply Forall_cons. split.
  - split_and!; [|by destruct cols|].
    + apply Forall_fmap, Forall_forall. intros c Hc. apply (Heach c Hc).
    + rewrite length_fmap. destruct Hlong as [Hl|Hl]; [by left|right].
      apply Forall_fmap. eapply Forall_impl; [exact Hl|]. by intros c [? _].
  - apply Forall_fmap, Forall_forall. intros row Hrow. cbn. split_and!; [|by destruct cols|].
    + apply Forall_fmap, Forall_forall. intros c Hc. by eapply cell_plain, Hcell.
    + rewrite length_fmap. destruct Hlong as [Hl|Hl]; [by left|right].
      rewrite Forall_forall in Hl. apply Forall_fmap, Forall_forall. intros c Hc. cbn.
      destruct (Hcell c row Hc Hrow) as [Hok Hin]. pose proof (raw_empty d _ Hok) as Hre.
      unfold str_is_empty in Hre. intros He. rewrite bool_decide_true in Hre by done.
      symmetry in Hre. apply bool_decide_eq_true in Hre. rewrite Hre in Hin. by apply (Hl c Hc).
Qed.

Lemma filter_all {A} (P : A → Prop) `{!∀ x, Decision (P x)} l : Forall P l → filter P l = l.
Proof.
  induction 1 as [|x l Hx _ IH]; [done|]. rewrite filter_cons_True by done. by rewrite IH.
Qed.

(** The lines are read back, each as its fields. *)
Lemma read_lines_back d cols t :
  delimits d → sayable d cols → write_csv_text cols true d = Ok t →
  filter (λ l, l ≠ "") (lines t) = csv_line d <$> table_lines d cols
  ∧ Forall (λ fields, split_csv (csv_line d fields) d = fields) (table_lines d cols).
Proof.
  intros (Hd & Hdq & Hlf & Hcr) Hs Hw. destruct (write_csv_lines d cols t Hs Hw) as [-> Hrows].
  pose proof (table_plain d cols Hs Hrows) as Hplain. split.
  - rewrite lines_text.
    + apply filter_all. apply Forall_fmap. eapply Forall_impl; [exact Hplain|].
      intros fields (_ & Hne & Hlong). by apply joined_nonempty.
    + apply Forall_fmap. eapply Forall_impl; [exact Hplain|]. intros fields (Hp & _). cbn.
      split; (apply joined_no; [done..|]); (eapply Forall_impl; [exact Hp|]); by intros s (? & ? & ?).
  - eapply Forall_impl; [exact Hplain|]. intros fields (Hp & Hne & _). apply split_joined; [done..|].
    eapply Forall_impl; [exact Hp|]. by intros s (? & _).
Qed.

(** What was read of a column that was written. *)
Definition same_column (c : Writable) (r : Decoded) : Prop :=
  dec_name r = w_name c ∧ kind_of (dec_column r) = kind_of (w_column c) ∧ read_cells r = written_cells c.

Lemma try_map_exists {A B E} (f : A → result B E) (P : A → B → Prop) l :
  (∀ x, x ∈ l → ∃ y, f x = Ok y ∧ P x y) → ∃ ys, try_map f l = Ok ys ∧ Forall2 P l ys.
Proof.
  induction l as [|x l IH]; intros Hl; [by exists []|].
  destruct (Hl x ltac:(by left)) as (y & Hy & HP). destruct IH as (ys & Hys & HPs); [intros z Hz; apply Hl; by right|].
  exists (y :: ys). simpl. rewrite Hy. simpl. rewrite Hys. by split; [|constructor].
Qed.

Lemma known_kind c : known (kind_of c).
Proof. destruct c; unfold known; naive_solver. Qed.

Lemma read_rows_back d cols hints :
  delimits d → sayable d cols → (∀ c, c ∈ cols → Column.rows (w_column c) = first_rows cols) →
  Forall (λ fields, split_csv (csv_line d fields) d = fields) (table_lines d cols) →
  (∀ c, c ∈ cols → bt_get (K := string) (w_name c) hints = Some (kind_of (w_column c))) →
  ∃ ds, read_csv_rows (csv_line d <$> tail (table_lines d cols)) (w_name <$> cols) hints d
        = Ok (first_rows cols, ds) ∧ Forall2 same_column cols ds.
Proof.
  intros Hd Hs Hrows Hsplit Hhints. unfold read_csv_rows. rewrite length_fmap.
  cbn [tail table_lines]. rewrite length_fmap, length_seq.
  set (fields := (λ line, split_csv line d) <$> _).
  assert (Hfields : fields = (λ row, (λ c, raw_text (written_cell c row)) <$> cols) <$> seq 0 (first_rows cols)).
  { unfold fields. apply Forall_cons in Hsplit as [_ Hsplit]. rewrite <-!list_fmap_compose.
    rewrite Forall_fmap in Hsplit. apply list_fmap_ext. intros i row Hi.
    eapply Forall_lookup_1 in Hsplit; [|done]. exact Hsplit. }
  assert (Hcells : ∀ i c, cols !! i = Some c →
    (λ f : list string, default "" (f !! i)) <$> fields = raw_text <$> written_cells c).
  { intros i c Hc. rewrite Hfields. unfold written_cells. rewrite (Hrows c) by by eapply list_elem_of_lookup_2.
    rewrite <-!list_fmap_compose. apply list_fmap_ext. intros j row _. cbn. by rewrite list_lookup_fmap, Hc. }
  clearbody fields. clear Hsplit Hfields.
  destruct (try_map_exists (λ iname : nat * string,
      dtype ←? dtype_of hints iname.2 ((λ f : list string, default "" (f !! iname.1)) <$> fields);
      csv_column iname.2 ((λ f : list string, default "" (f !! iname.1)) <$> fields) dtype)
    (λ iname r, ∀ c, cols !! iname.1 = Some c → same_column c r) (imap pair (w_name <$> cols)))
    as (ds & Hds & Hall).
  - intros [i name] Hin. apply elem_of_lookup_imap_1 in Hin as (j & n & [= -> ->] & Hj).
    rewrite list_lookup_fmap in Hj. destruct (cols !! j) as [c|] eqn:Hc; [|done]. injection Hj as <-.
    assert (Hcin : c ∈ cols) by by eapply list_elem_of_lookup_2.
    pose proof (say_each _ _ Hs) as Heach. rewrite Forall_forall in Heach. destruct (Heach c Hcin) as (_ & _ & Hok).
    cbn [fst snd]. rewrite (Hcells j c Hc). unfold dtype_of. rewrite (Hhints c Hcin).
    rewrite bool_decide_true by apply known_kind. cbn [rbind].
    destruct (csv_column_spec d (w_name c) (kind_of (w_column c)) (written_cells c)) as (col & Hcol & Hn & Hk & Hr).
    + apply known_kind.
    + unfold written_cells. rewrite length_fmap, length_seq, (Hrows c Hcin). apply (say_rows _ _ Hs).
    + rewrite Forall_forall in Hok |- *. intros cell Hcell. split; [|by apply Hok].
      apply list_elem_of_fmap in Hcell as (row & -> & _). apply written_of_kind.
    + exists col. split; [done|]. intros c' Hc'. by assert (c' = c) as -> by congruence.
  - exists ds. rewrite Hds. split; [done|]. apply Forall2_same_length_lookup. split.
    + apply Forall2_length in Hall. by rewrite length_imap, length_fmap in Hall.
    + intros i c r Hc Hr. eapply Forall2_lookup_r in Hall as ([j n] & Hj & HP); [|done].
      rewrite list_lookup_imap, list_lookup_fmap, Hc in Hj. injection Hj as <- <-. by apply HP.
Qed.

(** A table that can be said, written with its names and read with the kinds
    it was written with, is read as itself. *)
Theorem csv_roundtrip d cols hints t :
  delimits d → sayable d cols →
  (∀ c, c ∈ cols → bt_get (K := string) (w_name c) hints = Some (kind_of (w_column c))) →
  write_csv_text cols true d = Ok t →
  ∃ ds, read_csv_text t hints true d = Ok (first_rows cols, ds) ∧ Forall2 same_column cols ds.
Proof.
  intros Hd Hs Hhints Hw. destruct (read_lines_back d cols t Hd Hs Hw) as [Hlines Hsplit].
  destruct (write_csv_lines d cols t Hs Hw) as [_ Hrows].
  unfold read_csv_text. rewrite Hlines. cbn [table_lines fmap list_fmap].
  change (list_fmap _ _ (csv_line d) ?l) with (csv_line d <$> l).
  rewrite (Forall_inv Hsplit). by apply read_rows_back.
Qed.
End TableFacts.
