(* ===== verification/Parquet.v ===== *)
(** * Tables as Parquet files ([connectors/data/src/lib.rs])

    Reading columns out of the row groups a range touches, with one slot a
    row, and writing them as dense values with their levels.  The library
    that reads and writes the format is the classes below. *)

From S2P Require Import Prelude.
From S2P Require Import Bytes.
From S2P Require Import Float.
From S2P Require Import Hostcall.
From S2P Require Import Table.

(** [parquet::basic::Type] and a batch of values of each that is read:
    doubles and floats by their bits. *)
Inductive Physical :=
  | BOOLEAN | INT32 | INT64 | INT96 | FLOAT | DOUBLE | BYTE_ARRAY | FIXED_LEN_BYTE_ARRAY.
#[export] Instance Physical_eq_dec : EqDecision Physical.
Proof. solve_decision. Defined.

Inductive Batch :=
  | Doubles (vs : list N)
  | Floats (vs : list N)
  | Longs (vs : list Z)
  | Ints (vs : list Z)
  | Bools (vs : list bool)
  | ByteArrays (vs : list bytes).

(** A leaf column of a schema, with the largest definition and repetition
    level it can have, which the code does not ask for. *)
Record Leaf := MkLeaf {
  leaf_name : string;
  leaf_physical : Physical;
  leaf_required : bool;
  leaf_max_def : nat;
  leaf_max_rep : nat;
}.

(** The library's reader: a file's schema and the rows of its groups, and a
    column of a group, which skips records and reads some of those that are
    left (with how many, their values and, when asked, their levels). *)
Class ParquetReader := {
  PFile : Type;
  PGroup : Type;
  PReader : Type;
  open_file : bytes → result PFile string;
  leaves : PFile → list Leaf;
  group_rows : PFile → list nat;
  get_row_group : PFile → nat → result PGroup string;
  get_column_reader : PGroup → nat → result PReader string;
  skip_records : PReader → nat → result PReader string;
  read_records : PReader → nat → bool → result (nat * Batch * list nat * PReader) string;
}.

(** A field of a schema that is written: whether it is optional, whether its
    bytes are text. *)
Record Field := MkField { f_name : string; f_physical : Physical; f_optional : bool; f_utf8 : bool }.
Inductive Compression := UNCOMPRESSED | SNAPPY | GZIP | LZ4_RAW | ZSTD.

(** The library's writer: a schema out of fields, a file of it, its one row
    group, its columns in their order. *)
Class ParquetWriter := {
  PSchema : Type;
  PWriter : Type;
  build_field : Field → result unit string;
  build_schema : list Field → result PSchema string;
  start_file : PSchema → Compression → result PWriter string;
  next_row_group : PWriter → result PWriter string;
  next_column : PWriter → result (option (Physical * PWriter)) string;
  write_batch : PWriter → Batch → option (list nat) → result PWriter string;
  close_column : PWriter → result PWriter string;
  close_group : PWriter → result PWriter string;
  close_file : PWriter → result bytes string;
}.

Module Parquet.

Definition codecs : list (string * Compression) :=
  [("none", UNCOMPRESSED); ("snappy", SNAPPY); ("gzip", GZIP); ("lz4", LZ4_RAW); ("zstd", ZSTD)].
Definition DEFAULT_COMPRESSION : string := "snappy".

(** [physical_to_column]. *)
Definition physical_to_column (p : Physical) : result Dtype string :=
  match p with
  | DOUBLE | FLOAT => Ok F64
  | INT64 | INT32 | BOOLEAN => Ok I64
  | BYTE_ARRAY => Ok I64
  | INT96 => Err ("INT96 is a legacy timestamp with no lossless 64-bit form; rewrite the file with "
                  +:+ "a TIMESTAMP logical type")
  | FIXED_LEN_BYTE_ARRAY =>
      Err ("FIXED_LEN_BYTE_ARRAY carries decimals and UUIDs whose width this connector cannot "
           +:+ "guess; read it as BYTE_ARRAY or convert the column")
  end.

(** ** Reading *)

Record Accumulator := MkAccumulator {
  physical : Physical;
  nullable : bool;
  values : bytes;
  nulls : bytes;
  strings : Table.Interner;
}.
Definition new (p : Physical) (nullable : bool) : Accumulator :=
  MkAccumulator p nullable [] [] Table.interner.

Definition null_fill (a : Accumulator) : bytes :=
  match physical a with DOUBLE | FLOAT => Table.NULL_F64 | _ => replicate 8 Table.zero end.

(** A batch as words, its strings interned. *)
Fixpoint intern_all (vs : list bytes) (i : Table.Interner) : list N * Table.Interner :=
  match vs with
  | [] => ([], i)
  | v :: vs =>
      let '(code, i) := Table.intern v (from_utf8_lossy v) i in
      let '(ws, i) := intern_all vs i in
      (N.of_nat code :: ws, i)
  end.

Definition words (b : Batch) (i : Table.Interner) : list N * Table.Interner :=
  match b with
  | Doubles vs => (vs, i)
  | Floats vs => (widen_f32 <$> vs, i)
  | Longs vs | Ints vs => (word_of_i64 <$> vs, i)
  | Bools vs => ((λ b : bool, if b then 1%N else 0%N) <$> vs, i)
  | ByteArrays vs => intern_all vs i
  end.

(** A slot for each level: the next value, or the fill where there is none. *)
Fixpoint slots (fill : bytes) (ws : list N) (defs : list nat) : bytes * bytes :=
  match defs with
  | [] => ([], [])
  | d :: defs =>
      match d, ws with
      | S _, w :: ws => let '(vs, ns) := slots fill ws defs in (le_word w ++ vs, Table.zero :: ns)
      | _, _ => let '(vs, ns) := slots fill ws defs in (fill ++ vs, Table.one :: ns)
      end
  end.

Definition expand (ws : list N) (defs : list nat) (records : nat) (a : Accumulator) : Accumulator :=
  if nullable a then
    let '(vs, ns) := slots (null_fill a) ws (take records defs) in
    MkAccumulator (physical a) true (values a ++ vs) (nulls a ++ ns) (strings a)
  else MkAccumulator (physical a) false (values a ++ mjoin (le_word <$> take records ws)) (nulls a) (strings a).

Definition set_strings (i : Table.Interner) (a : Accumulator) : Accumulator :=
  MkAccumulator (physical a) (nullable a) (values a) (nulls a) i.

Definition finish (name : string) (a : Accumulator) : Table.Decoded :=
  let column :=
    match physical a with
    | DOUBLE | FLOAT => Column.F64 (values a)
    | BYTE_ARRAY => Column.Text (values a) (Table.uniques (strings a))
    | _ => Column.I64 (values a)
    end in
  Table.MkDecoded name column (Table.mask_of column (nulls a)).

Section read.
Context `{!ParquetReader}.

(** The loop of [consume]: [fuel] turns at most, each of which reads a
    record or ends it. *)
Fixpoint read_batches (fuel : nat) (r : PReader) (want : nat) (a : Accumulator) :
    option (result Accumulator string) :=
  match want, fuel with
  | 0, _ => Some (Ok a)
  | _, 0 => None
  | _, S fuel =>
      match read_records r want (nullable a) with
      | Err e => Some (Err e)
      | Ok (0, _, _, _) => Some (Ok a)
      | Ok (records, batch, defs, r) =>
          let '(ws, i) := words batch (strings a) in
          read_batches fuel r (want - records) (expand ws defs records (set_strings i a))
      end
  end.

Definition consume (r : PReader) (skip want : nat) (a : Accumulator) : option (result Accumulator string) :=
  match (if bool_decide (0 < skip) then skip_records r skip else Ok r) with
  | Err e => Some (Err e)
  | Ok r => read_batches want r want a
  end.

(** The walk over the row groups: those the range does not touch are passed
    over. *)
Fixpoint walk_groups (file : PFile) (index : nat) (name : string) (start take_ : nat) (g row : nat)
    (groups : list nat) (a : Accumulator) : option (result Accumulator string) :=
  match groups with
  | [] => Some (Ok a)
  | rows_here :: groups =>
      let group_end := row + rows_here in
      if bool_decide (group_end ≤ start) || bool_decide (start + take_ ≤ row) then
        walk_groups file index name start take_ (S g) group_end groups a
      else
        let skip := start - row in
        let want := (start + take_) `min` group_end - row `max` start in
        let at_ := "column '" +:+ name +:+ "': " in
        match (group ←? map_err (λ e, at_ +:+ "row group " +:+ dec (N.of_nat g) +:+ ": " +:+ e)
                          (get_row_group file g);
               map_err (λ e, at_ +:+ e) (get_column_reader group index)) with
        | Err e => Some (Err e)
        | Ok column =>
            match consume column skip want a with
            | None => None
            | Some (Err e) => Some (Err (at_ +:+ e))
            | Some (Ok a) => walk_groups file index name start take_ (S g) group_end groups a
            end
        end
  end.

Definition read_column (file : PFile) (start take_ : nat) (ic : nat * Leaf) :
    option (result Table.Decoded string) :=
  let '(index, leaf) := ic in
  match physical_to_column (leaf_physical leaf) with
  | Err why => Some (Err ("column '" +:+ leaf_name leaf +:+ "': " +:+ why))
  | Ok _ =>
      a ← walk_groups file index (leaf_name leaf) start take_ 0 0 (group_rows file)
            (new (leaf_physical leaf) (negb (leaf_required leaf)));
      Some (a ←? a; Ok (finish (leaf_name leaf) a))
  end.

Fixpoint read_columns (file : PFile) (start take_ : nat) (chosen : list (nat * Leaf)) :
    option (result (list Table.Decoded) string) :=
  match chosen with
  | [] => Some (Ok [])
  | ic :: chosen =>
      match read_column file start take_ ic with
      | Some (Ok d) => ds ← read_columns file start take_ chosen; Some (ds ←? ds; Ok (d :: ds))
      | Some (Err e) => Some (Err e)
      | None => None
      end
  end.

(** Which columns, in the order of the schema, or a name it does not have. *)
Definition choose (wanted : list string) (have : list Leaf) : result (list (nat * Leaf)) string :=
  let chosen := filter (λ ic : nat * Leaf, wanted = [] ∨ (leaf_name ic.2 ∈ wanted)) (imap pair have) in
  match find_first (λ want, negb (existsb (λ ic, bool_decide (leaf_name ic.2 = want)) chosen)) wanted with
  | Some want => Err ("no column named '" +:+ want +:+ "'; the file has "
                      +:+ Table.join_with ", " (leaf_name <$> have))
  | None => Ok chosen
  end.

(** [read_parquet_bytes]; [None] when the fuel of a loop runs out. *)
Definition read_parquet_bytes (bs : bytes) (wanted : list string) (start : nat) (len : option nat) :
    option (result (nat * list Table.Decoded) string) :=
  match map_err (λ e, "not a readable parquet file: " +:+ e) (open_file bs) with
  | Err e => Some (Err e)
  | Ok file =>
      match choose wanted (leaves file) with
      | Err e => Some (Err e)
      | Ok chosen =>
          let total := sum_list (group_rows file) in
          let start := start `min` total in
          let take_ := default (total - start) len `min` (total - start) in
          out ← read_columns file start take_ chosen;
          Some (out ←? out; Ok (take_, out))
      end
  end.
End read.

(** ** Writing *)

Definition field_of (c : Table.Writable) : Field :=
  let '(physical, utf8) :=
    match Table.w_column c with
    | Column.F64 _ => (DOUBLE, false)
    | Column.I64 _ => (INT64, false)
    | Column.Text _ _ => (BYTE_ARRAY, true)
    end in
  MkField (Table.w_name c) physical (negb (bool_decide (Table.w_nulls c = []))) utf8.

(** The levels of a column, when it has nulls, and the rows that are
    present. *)
Definition levels_of (c : Table.Writable) : option (list nat) :=
  if bool_decide (Table.w_nulls c = []) then None
  else Some ((λ i, if bool_decide (Table.w_nulls c !! i = Some Table.one) then 0 else 1)
               <$> seq 0 (Column.rows (Table.w_column c))).
Definition is_present (levels : option (list nat)) (i : nat) : bool :=
  match levels with Some d => bool_decide (d !! i = Some 1) | None => true end.
Definition present (c : Table.Writable) : list nat :=
  filter (λ i, is_present (levels_of c) i = true) (seq 0 (Column.rows (Table.w_column c))).

Definition row_text (uniques : list string) (bs : bytes) (i : nat) : result bytes string :=
  let code := i64_of_word (Table.word_at bs i) in
  match Table.text_of uniques code with
  | Some t => Ok (as_bytes t)
  | None => Err ("row " +:+ dec (N.of_nat i) +:+ " has code " +:+ fmt_zero 0 code
                 +:+ ", and uniques has " +:+ dec (N.of_nat (length uniques)) +:+ " entries")
  end.

Section write.
Context `{!ParquetWriter}.

Definition write_one (kind : Physical) (w : PWriter) (c : Table.Writable) : result PWriter string :=
  let bs := Column.column_bytes (Table.w_column c) in
  match kind, Table.w_column c with
  | DOUBLE, Column.F64 _ => write_batch w (Doubles (Table.word_at bs <$> present c)) (levels_of c)
  | INT64, Column.I64 _ =>
      write_batch w (Longs ((λ i, i64_of_word (Table.word_at bs i)) <$> present c)) (levels_of c)
  | BYTE_ARRAY, Column.Text _ uniques =>
      vs ←? try_map (row_text uniques bs) (present c);
      write_batch w (ByteArrays vs) (levels_of c)
  | _, _ => Err "the column's bytes and the schema disagree"
  end.

Fixpoint write_columns (w : PWriter) (columns : list Table.Writable) : result PWriter string :=
  match columns with
  | [] => Ok w
  | c :: columns =>
      let at_ e := "column '" +:+ Table.w_name c +:+ "': " +:+ e in
      next ←? map_err at_ (next_column w);
      match next with
      | None => Err (at_ "the schema ran out of columns")
      | Some (kind, w) =>
          w ←? map_err at_ (write_one kind w c);
          w ←? map_err at_ (close_column w);
          write_columns w columns
      end
  end.

Definition write_parquet_bytes (columns : list Table.Writable) (compression : Compression) :
    result bytes string :=
  _ ←? Table.same_rows "; a table's columns are the same length" columns;
  fields ←? try_map (λ c, _ ←? map_err (λ e, "column '" +:+ Table.w_name c +:+ "': " +:+ e)
                               (build_field (field_of c));
                          Ok (field_of c)) columns;
  schema ←? map_err (λ e, "schema: " +:+ e) (build_schema fields);
  w ←? map_err (λ e, "cannot start the file: " +:+ e) (start_file schema compression);
  w ←? map_err (λ e, "cannot start a row group: " +:+ e) (next_row_group w);
  w ←? write_columns w columns;
  w ←? map_err (λ e, "cannot close the row group: " +:+ e) (close_group w);
  map_err (λ e, "cannot close the file: " +:+ e) (close_file w).
End write.
End Parquet.
