(* ===== verification/ParquetSpec.v ===== *)
(** * What is read of a Parquet file

    A range of rows is that range of the rows of each column chosen, however
    the file cuts them into row groups and the library into batches, and
    reading always ends. *)

From S2P Require Import Prelude.
From S2P Require Import Bytes.
From S2P Require Import Float.
From S2P Require Import Hostcall.
From S2P Require Import Table.
From S2P Require Import TableSpec.
From S2P Require Import Parquet.

Module ParquetFacts.
Import Table TableFacts Parquet.

(** ** Rows *)

(** A value as its word, or a string. *)
Inductive Val := VWord (w : N) | VBytes (b : bytes).

Definition vals (b : Batch) : list Val :=
  match b with
  | Doubles vs => VWord <$> vs
  | Floats vs => (λ v, VWord (widen_f32 v)) <$> vs
  | Longs vs | Ints vs => (λ z, VWord (word_of_i64 z)) <$> vs
  | Bools vs => (λ b : bool, VWord (if b then 1%N else 0%N)) <$> vs
  | ByteArrays vs => VBytes <$> vs
  end.

(** A value of a physical type. *)
Definition typed (p : Physical) (v : Val) : Prop :=
  match v with
  | VWord w => p ≠ BYTE_ARRAY ∧ (w < 2 ^ 64)%N
  | VBytes _ => p = BYTE_ARRAY
  end.

(** The kind of column a physical type is read into, and a row as a cell of
    it. *)
Definition kind (p : Physical) : string :=
  match p with DOUBLE | FLOAT => "f64" | BYTE_ARRAY => "str" | _ => "i64" end.

Definition cell_of (p : Physical) (o : option Val) : option Cell :=
  match o with
  | None => None
  | Some (VBytes b) => Some (Str (from_utf8_lossy b))
  | Some (VWord w) =>
      if bool_decide (kind p = "f64") then if is_nan w then None else Some (Num w)
      else Some (Int (i64_of_word w))
  end.

(** A flat column: no list around it, and no group whose absence a level
    would have to tell. *)
Definition flat (l : Leaf) : Prop := leaf_max_rep l = 0 ∧ leaf_max_def l = if leaf_required l then 0 else 1.

(** What is relied on of the library, of a column without repetition: its
    reader has some records left, each with a definition level and, at the
    largest one, a value; skipping and reading take from the front, a reading
    no more than it is asked for, and none only when none is left; it gives
    the values and, when asked, the levels. *)
Class ParquetLaws `{!ParquetReader} := {
  max_def : PReader → nat;
  max_rep : PReader → nat;
  records_left : PReader → list (nat * option Val);
  record_levels r : max_rep r = 0 →
    Forall (λ e : nat * option Val, e.1 ≤ max_def r ∧ (is_Some e.2 ↔ e.1 = max_def r)) (records_left r);
  skip_takes r n r' : max_rep r = 0 → skip_records r n = Ok r' →
    max_rep r' = 0 ∧ max_def r' = max_def r ∧ records_left r' = drop n (records_left r);
  read_takes r n nullable k batch defs r' :
    max_rep r = 0 → 0 < n → read_records r n nullable = Ok (k, batch, defs, r') →
    max_rep r' = 0 ∧ max_def r' = max_def r
    ∧ k ≤ n ∧ (k = 0 → records_left r = []) ∧ k ≤ length (records_left r) ∧ records_left r' = drop k (records_left r)
    ∧ vals batch = omap snd (take k (records_left r))
    ∧ (nullable = true → defs = (take k (records_left r)).*1);
}.

(** ** A column as it is built *)

(** The rows so far, and the words and nulls that stand for them. *)
Definition built (p : Physical) (nullable_ : bool) (rows : list (option Val)) (a : Accumulator) : Prop :=
  physical a = p ∧ nullable a = nullable_ ∧ interned from_utf8_lossy (strings a)
  ∧ length (uniques (strings a)) ≤ length rows
  ∧ (∃ ws, values a = mjoin (le_word <$> ws) ∧ Forall2 (represents (kind p) (uniques (strings a))) (cell_of p <$> rows) ws)
  ∧ nulls a = if nullable_ then (λ o : option Val, if o is Some _ then zero else one) <$> rows else [].

Lemma built_new p nb : built p nb [] (new p nb).
Proof.
  unfold built. split_and!; [done|done|apply interned_nil|done|by exists []|by destruct nb].
Qed.

Lemma fill_kind a : null_fill a = le_word (fill_word (kind (physical a))).
Proof. unfold null_fill, fill_word, kind. by destruct (physical a); vm_compute. Qed.

(** Words for values, once their strings are interned. *)
Definition word_for (us : list string) (v : Val) (w : N) : Prop :=
  match v with
  | VWord x => w = x
  | VBytes b => (w < 2 ^ 63)%N ∧ us !! N.to_nat w = Some (from_utf8_lossy b)
  end.

Lemma intern_all_spec vs : ∀ i,
  interned from_utf8_lossy i → (N.of_nat (length (uniques i) + length vs) < 2 ^ 63)%N →
  let '(ws, i') := intern_all vs i in
  interned from_utf8_lossy i' ∧ uniques i `prefix_of` uniques i'
  ∧ length (uniques i') ≤ length (uniques i) + length vs
  ∧ Forall2 (word_for (uniques i')) (VBytes <$> vs) ws.
Proof.
  induction vs as [|v vs IH]; intros i Hi Hl; simpl.
  { split_and!; [done|done|lia|constructor]. }
  pose proof (intern_spec from_utf8_lossy v i Hi) as Hs. destruct (intern v (from_utf8_lossy v) i) as [code i1].
  destruct Hs as (Hi1 & Hp1 & Hcode & Hl1). simpl in Hl. specialize (IH i1 Hi1 ltac:(lia)).
  destruct (intern_all vs i1) as [ws i2]. destruct IH as (Hi2 & Hp2 & Hl2 & Hws).
  split_and!; [done|by etrans|lia|]. constructor; [|done]. simpl. rewrite Nat2N.id.
  apply lookup_lt_Some in Hcode as Hlt. split; [lia|]. by eapply prefix_lookup_Some.
Qed.

Lemma words_spec b i :
  interned from_utf8_lossy i → (N.of_nat (length (uniques i) + length (vals b)) < 2 ^ 63)%N →
  let '(ws, i') := words b i in
  interned from_utf8_lossy i' ∧ uniques i `prefix_of` uniques i'
  ∧ length (uniques i') ≤ length (uniques i) + length (vals b)
  ∧ Forall2 (word_for (uniques i')) (vals b) ws.
Proof.
  intros Hi Hl. destruct b as [vs|vs|vs|vs|vs|vs]; simpl in *;
    try (split_and!; [done|done|lia|]; rewrite Forall2_fmap; apply Forall_Forall2_diag, Forall_true; done).
  - split_and!; [done|done|lia|]. rewrite Forall2_fmap_l. apply Forall_Forall2_diag, Forall_true; done.
  - rewrite length_fmap in Hl |- *. by apply intern_all_spec.
Qed.

Lemma word_for_more us us' v w : us `prefix_of` us' → word_for us v w → word_for us' v w.
Proof.
  intros Hp. destruct v as [x|b]; [done|]. intros [Hb Hl]. split; [done|]. by eapply prefix_lookup_Some.
Qed.

Lemma word_represents p us v w :
  typed p v → word_for us v w → represents (kind p) us (cell_of p (Some v)) w.
Proof.
  destruct v as [x|b]; simpl.
  - intros [_ Hx] ->. case_bool_decide as Hk.
    + destruct (is_nan x) eqn:Hn; by split.
    + split; [done|]. by rewrite word_i64.
  - intros _ [Hw Hl]. split; [lia|done].
Qed.

Lemma fill_represents p us : represents (kind p) us None (fill_word (kind p)).
Proof.
  split; [unfold fill_word; case_bool_decide; by vm_compute|]. intros ->. by vm_compute.
Qed.

Definition level (o : option Val) : nat := if o is Some _ then 1 else 0.
Definition mark (o : option Val) : ascii := if o is Some _ then zero else one.

Lemma slots_spec p us taken : ∀ ws,
  Forall (typed p) (omap id taken) → Forall2 (word_for us) (omap id taken) ws →
  ∃ ws', slots (le_word (fill_word (kind p))) ws (level <$> taken) = (mjoin (le_word <$> ws'), mark <$> taken)
    ∧ Forall2 (represents (kind p) us) (cell_of p <$> taken) ws'.
Proof.
  induction taken as [|[v|] taken IH]; intros ws Ht Hws; [by exists []| |].
  - change (omap id (Some v :: taken)) with (v :: omap id taken) in Ht, Hws.
    apply Forall_cons in Ht as [Hv Ht]. apply Forall2_cons_inv_l in Hws as (w & ws1 & Hw & Hws & ->).
    destruct (IH ws1 Ht Hws) as (ws' & Hs & Hr). exists (w :: ws').
    change (level <$> Some v :: taken) with (1 :: (level <$> taken)). cbn [slots]. rewrite Hs. split; [done|].
    constructor; [by apply word_represents|done].
  - change (omap id (None :: taken)) with (omap id taken) in Ht, Hws.
    destruct (IH ws Ht Hws) as (ws' & Hs & Hr). exists (fill_word (kind p) :: ws').
    change (level <$> None :: taken) with (0 :: (level <$> taken)). cbn [slots]. rewrite Hs. split; [done|].
    constructor; [apply fill_represents|done].
Qed.

(** Rows that all have a value are their values. *)
Lemma dense_represents p us taken ws :
  Forall is_Some taken → Forall (typed p) (omap id taken) → Forall2 (word_for us) (omap id taken) ws →
  Forall2 (represents (kind p) us) (cell_of p <$> taken) ws ∧ length ws = length taken.
Proof.
  intros Hs. revert ws. induction Hs as [|o taken [v ->] _ IH]; intros ws Ht Hws.
  { apply Forall2_nil_inv_l in Hws as ->. by split. }
  change (omap id (Some v :: taken)) with (v :: omap id taken) in Ht, Hws.
  apply Forall_cons in Ht as [Hv Ht]. apply Forall2_cons_inv_l in Hws as (w & ws1 & Hw & Hws & ->).
  destruct (IH ws1 Ht Hws) as [Hr Hl]. split; [|simpl; by rewrite Hl].
  constructor; [by apply word_represents|done].
Qed.

Lemma length_omap_le {A} (l : list (option A)) : length (omap id l) ≤ length l.
Proof.
  induction l as [|[v|] l IH]; [done| |].
  - change (omap id (Some v :: l)) with (v :: omap id l). simpl. lia.
  - change (omap id (None :: l)) with (omap id l). simpl. lia.
Qed.

Lemma expand_built p nb rows taken b a defs :
  built p nb rows a → vals b = omap id taken → Forall (typed p) (omap id taken) →
  (nb = false → Forall is_Some taken) → (nb = true → defs = level <$> taken) →
  (N.of_nat (length rows + length taken) < 2 ^ 63)%N →
  let '(ws, i) := words b (strings a) in
  built p nb (rows ++ taken) (expand ws defs (length taken) (set_strings i a)).
Proof.
  intros (Hp & Hnb & Hi & Hl & (ws0 & Hv & Hr0) & Hn) Hvals Ht Hall Hdefs Hlen.
  assert (Homap : length (omap id taken) ≤ length taken).
  { apply length_omap_le. }
  pose proof (words_spec b (strings a) Hi) as Hw. rewrite Hvals in Hw. specialize (Hw ltac:(lia)).
  destruct (words b (strings a)) as [ws i]. destruct Hw as (Hi' & Hpre & Hl' & Hws).
  assert (Hold : Forall2 (represents (kind p) (uniques i)) (cell_of p <$> rows) ws0).
  { eapply Forall2_impl; [exact Hr0|]. intros. by eapply represents_more. }
  unfold expand, set_strings. cbn [nullable]. rewrite Hnb. destruct nb.
  - rewrite (Hdefs eq_refl), firstn_all2 by by rewrite length_fmap.
    assert (Hfill : null_fill (MkAccumulator (physical a) true (values a) (nulls a) i) = le_word (fill_word (kind p))).
    { rewrite fill_kind. cbn [physical]. by rewrite Hp. }
    cbn [physical values nulls strings]. rewrite Hfill.
    destruct (slots_spec p (uniques i) taken ws Ht Hws) as (ws' & -> & Hr').
    unfold built. cbn [physical nullable values nulls strings]. split_and!; try done.
    + rewrite length_app. lia.
    + exists (ws0 ++ ws'). split; [by rewrite Hv, fmap_app, mjoin_app_bytes|]. rewrite fmap_app. by apply Forall2_app.
    + by rewrite Hn, fmap_app.
  - destruct (dense_represents p (uniques i) taken ws (Hall eq_refl) Ht Hws) as [Hr' Hlw].
    rewrite firstn_all2 by lia. unfold built. cbn [physical nullable values nulls strings]. split_and!; try done.
    + rewrite length_app. lia.
    + exists (ws0 ++ ws). split; [by rewrite Hv, fmap_app, mjoin_app_bytes|]. rewrite fmap_app. by apply Forall2_app.
Qed.

(** ** Reading *)

Section reading.
Context `{PR : ParquetReader, PL : !ParquetLaws}.

(** The rows a reader has left. *)
Definition rows_left (r : PReader) : list (option Val) := (records_left r).*2.

(** A reader of a flat column. *)
Definition flat_reader (nb : bool) (r : PReader) : Prop := max_rep r = 0 ∧ max_def r = if nb then 1 else 0.

Lemma omap_snd {A B} (l : list (A * option B)) : omap snd l = omap id l.*2.
Proof. induction l as [|[a [b|]] l IH]; [done|exact (f_equal (cons b) IH)|exact IH]. Qed.

Lemma flat_levels r : flat_reader true r → (records_left r).*1 = level <$> rows_left r.
Proof.
  intros [Hrep Hdef]. pose proof (record_levels r Hrep) as Hl. unfold rows_left. rewrite Hdef in Hl.
  induction Hl as [|[d [v|]] l [Hd Hv] _ IH]; [done| |]; cbn in *; f_equal; try exact IH.
  - by apply Hv.
  - destruct d as [|d]; [done|]. assert (S d = 1) as Hd1 by lia. apply Hv in Hd1 as [v Hv']. done.
Qed.

Lemma skip_rows nb r n r' :
  flat_reader nb r → skip_records r n = Ok r' → flat_reader nb r' ∧ rows_left r' = drop n (rows_left r).
Proof.
  intros [Hrep Hdef] Hs. destruct (skip_takes r n r' Hrep Hs) as (H1 & H2 & H3).
  split; [split; [done|congruence]|]. unfold rows_left. by rewrite H3, fmap_drop.
Qed.

Lemma read_rows nb r n k batch defs r' :
  flat_reader nb r → 0 < n → read_records r n nb = Ok (k, batch, defs, r') →
  flat_reader nb r' ∧ k ≤ n ∧ (k = 0 → rows_left r = []) ∧ k ≤ length (rows_left r) ∧ rows_left r' = drop k (rows_left r)
  ∧ vals batch = omap id (take k (rows_left r)) ∧ (nb = true → defs = level <$> take k (rows_left r)).
Proof.
  intros [Hrep Hdef] Hn Hr. destruct (read_takes r n nb k batch defs r' Hrep Hn Hr) as (H1 & H2 & Hk & H0 & Hl & Hd & Hv & Hdf).
  unfold rows_left in *. rewrite length_fmap, <- !fmap_take, Hd, fmap_drop.
  split_and!; [split; [done|congruence]|done|by intros ->%H0|done|done| |].
  - rewrite Hv. apply omap_snd.
  - intros ->. rewrite (Hdf eq_refl), !fmap_take, (flat_levels r); done.
Qed.

(** A result that is no error, and a library that makes none reading. *)
Definition good {A E} (r : result A E) : Prop := ∃ x, r = Ok x.
Definition faultless : Prop :=
  (∀ r n, good (skip_records r n)) ∧ (∀ r n nb, good (read_records r n nb)).

(** A row a column can have. *)
Definition row_ok (p : Physical) (nb : bool) (o : option Val) : Prop :=
  match o with Some v => typed p v | None => nb = true end.

Lemma rows_typed p nb rows : Forall (row_ok p nb) rows → Forall (typed p) (omap id rows).
Proof.
  induction 1 as [|[v|] rows Ho _ IH]; [constructor| |].
  - change (omap id (Some v :: rows)) with (v :: omap id rows). by constructor.
  - exact IH.
Qed.

Lemma rows_present p rows : Forall (row_ok p false) rows → Forall is_Some rows.
Proof. intros Hok. eapply Forall_impl; [exact Hok|]. by intros [v|]. Qed.

Lemma bound_le (a b c : nat) : (N.of_nat (a + b) < 2 ^ 63)%N → c ≤ b → (N.of_nat (a + c) < 2 ^ 63)%N.
Proof. lia. Qed.

(** The loop reads the rows it is asked for, or all there are, and ends. *)
Lemma read_batches_spec p nb fuel : ∀ r want rows a,
  want ≤ fuel → flat_reader nb r → built p nb rows a → Forall (row_ok p nb) (rows_left r) →
  (N.of_nat (length rows + length (take want (rows_left r))) < 2 ^ 63)%N →
  ∃ res, read_batches fuel r want a = Some res ∧ (faultless → good res) ∧
    ∀ a', res = Ok a' → built p nb (rows ++ take want (rows_left r)) a'.
Proof.
  induction fuel as [|fuel IH]; intros r [|want] rows a Hf Hfl Hb Hok Hlen; try lia.
  1,2: eexists; split; [done|]; split; [by eexists|]; intros a' [= <-]; by rewrite take_0, app_nil_r.
  cbn [read_batches]. assert (Hnb : nullable a = nb) by apply Hb. rewrite Hnb.
  destruct (read_records r (S want) nb) as [[[[k batch] defs] r']|e] eqn:Hread;
    [|eexists; split; [done|]; split; [|done]; intros [_ Hg]; destruct (Hg r (S want) nb) as [x Hx]; congruence].
  apply (read_rows nb) in Hread as (Hfl' & Hk & Hend & Hleft & Hr' & Hvals & Hdefs); [|done|lia].
  destruct k as [|k].
  { eexists; split; [done|]. split; [by eexists|]. intros a' [= <-]. rewrite Hend by done. by rewrite take_nil, app_nil_r. }
  assert (Hall : Forall (row_ok p nb) (take (S k) (rows_left r))) by by apply Forall_take.
  assert (Hsplit : take (S want) (rows_left r)
                   = take (S k) (rows_left r) ++ take (S want - S k) (rows_left r')).
  { rewrite Hr', take_take_drop. f_equal. lia. }
  rewrite Hsplit, length_app in Hlen.
  pose proof (expand_built p nb rows (take (S k) (rows_left r)) batch a defs Hb Hvals (rows_typed p nb _ Hall)) as He.
  rewrite length_take_le in He by done.
  destruct (words batch (strings a)) as [ws i].
  rewrite length_take_le in Hlen by done.
  destruct (IH r' (S want - S k) (rows ++ take (S k) (rows_left r)) (expand ws defs (S k) (set_strings i a)))
    as (res & Hres & Hgood & Hbuilt).
  - lia.
  - done.
  - apply He; [intros ->; by apply rows_present with p|done|lia].
  - rewrite Hr'. by apply Forall_drop.
  - rewrite length_app, length_take_le by done. lia.
  - exists res. split; [done|]. split; [done|]. intros a' Ha. rewrite Hsplit, app_assoc. by apply Hbuilt.
Qed.

Lemma consume_spec p nb r skip want rows a :
  flat_reader nb r → built p nb rows a → Forall (row_ok p nb) (rows_left r) →
  (N.of_nat (length rows + length (take want (drop skip (rows_left r)))) < 2 ^ 63)%N →
  ∃ res, consume r skip want a = Some res ∧ (faultless → good res) ∧
    ∀ a', res = Ok a' → built p nb (rows ++ take want (drop skip (rows_left r))) a'.
Proof.
  intros Hfl Hb Hok Hlen. unfold consume. case_bool_decide as Hs.
  - destruct (skip_records r skip) as [r'|e] eqn:Hr;
      [|eexists; split; [done|]; split; [|done]; intros [Hg _]; destruct (Hg r skip) as [x Hx]; congruence].
    apply (skip_rows nb) in Hr as [Hfl' Hr]; [|done]. rewrite <- Hr in *.
    apply read_batches_spec; [lia|done|done| |done]. rewrite Hr. by apply Forall_drop.
  - assert (skip = 0) as -> by lia. rewrite drop_0 in *. by apply read_batches_spec.
Qed.

(** A range over the first part of some rows and over the rest. *)
Lemma range_app {A} (c rest : list A) start stop row :
  drop (start - row) (take (stop - row) (c ++ rest))
  = take (stop `min` (row + length c) - row `max` start) (drop (start - row) c)
    ++ drop (start - (row + length c)) (take (stop - (row + length c)) rest).
Proof.
  rewrite take_app, drop_app, length_take. f_equal.
  - rewrite skipn_firstn_comm. destruct (decide (stop ≤ row + length c)).
    + f_equal. lia.
    + rewrite !take_ge by (rewrite length_drop; lia). done.
  - destruct (decide (stop ≤ row + length c)).
    + replace (stop - row - length c) with 0 by lia. replace (stop - (row + length c)) with 0 by lia.
      by rewrite take_0, !drop_nil.
    + rewrite Nat.min_r by lia. by rewrite <- !Nat.sub_add_distr.
Qed.

(** What a file holds: a reader has the levels its column's schema says, and
    the rows of each flat column of each of the row groups are as many as the
    group says, of the column's type. *)
Context (contents : PFile → nat → nat → list (option Val)).
Record sound (file : PFile) : Prop := {
  sound_levels g i grp r leaf : get_row_group file g = Ok grp → get_column_reader grp i = Ok r →
    leaves file !! i = Some leaf → max_def r = leaf_max_def leaf ∧ max_rep r = leaf_max_rep leaf;
  sound_read g i grp r leaf : get_row_group file g = Ok grp → get_column_reader grp i = Ok r →
    leaves file !! i = Some leaf → flat leaf → rows_left r = contents file g i;
  sound_length g i leaf n : leaves file !! i = Some leaf → flat leaf →
    group_rows file !! g = Some n → length (contents file g i) = n;
  sound_rows g i leaf : leaves file !! i = Some leaf → flat leaf →
    Forall (row_ok (leaf_physical leaf) (negb (leaf_required leaf))) (contents file g i);
  sound_total : (N.of_nat (sum_list (group_rows file)) < 2 ^ 63)%N;
}.

Definition readable (file : PFile) : Prop :=
  faultless ∧ ∀ g i, g < length (group_rows file) → i < length (leaves file) →
    ∃ grp, get_row_group file g = Ok grp ∧ good (get_column_reader grp i).

(** The rows of a column from one of its groups on. *)
Definition rows_from (file : PFile) (i g n : nat) : list (option Val) :=
  mjoin ((λ g, contents file g i) <$> seq g n).
Definition column_rows (file : PFile) (i : nat) : list (option Val) :=
  rows_from file i 0 (length (group_rows file)).

Lemma rows_from_S file i g n : rows_from file i g (S n) = contents file g i ++ rows_from file i (S g) n.
Proof. done. Qed.

Lemma walk_groups_spec file i leaf start take_ groups : ∀ g row rows a,
  sound file → leaves file !! i = Some leaf → flat leaf →
  (∀ k n, groups !! k = Some n → group_rows file !! (g + k) = Some n) →
  built (leaf_physical leaf) (negb (leaf_required leaf)) rows a →
  (N.of_nat (length rows + sum_list groups) < 2 ^ 63)%N →
  ∃ res, walk_groups file i (leaf_name leaf) start take_ g row groups a = Some res ∧
    (readable file → good res) ∧ ∀ a', res = Ok a' →
      built (leaf_physical leaf) (negb (leaf_required leaf))
        (rows ++ drop (start - row) (take (start + take_ - row) (rows_from file i g (length groups)))) a'.
Proof.
  induction groups as [|here groups IH]; intros g row rows a Hs Hleaf Hflat Hg Hb Hlen.
  { eexists. split; [done|]. split; [by eexists|]. intros a' [= <-]. cbn. by rewrite take_nil, drop_nil, app_nil_r. }
  assert (Hhere : length (contents file g i) = here).
  { eapply sound_length; [done..|]. specialize (Hg 0 here eq_refl). by rewrite Nat.add_0_r in Hg. }
  assert (Hrest : ∀ k n, groups !! k = Some n → group_rows file !! (S g + k) = Some n).
  { intros k n Hk. specialize (Hg (S k) n Hk). by rewrite <- Nat.add_succ_comm in Hg. }
  cbn [length]. rewrite rows_from_S, range_app, Hhere. change (sum_list (here :: groups)) with (here + sum_list groups) in Hlen. cbn [walk_groups].
  case_bool_decide as H1; [|case_bool_decide as H2]; cbn [orb].
  1,2: replace (take _ (drop (start - row) (contents file g i))) with (@nil (option Val));
    [apply IH; try done; lia|].
  - symmetry. rewrite drop_ge by lia. by rewrite take_nil.
  - symmetry. replace (_ - row `max` start) with 0 by lia. apply take_0.
  - assert (Hread : readable file → ∃ grp, get_row_group file g = Ok grp ∧ good (get_column_reader grp i)).
    { intros [_ Hr]. apply Hr; apply lookup_lt_is_Some; [|by eexists].
      exists here. specialize (Hg 0 here eq_refl). by rewrite Nat.add_0_r in Hg. }
    destruct (get_row_group file g) as [grp|e] eqn:Hgrp; cbn;
      [|eexists; split; [done|]; split; [|done]; intros (x & Hx & _)%Hread; congruence].
    destruct (get_column_reader grp i) as [r|e] eqn:Hr; cbn;
      [|eexists; split; [done|]; split; [|done]; intros (x & [= <-] & y & Hy)%Hread; congruence].
    assert (Hleft : rows_left r = contents file g i) by by eapply sound_read.
    set (taken := take _ (drop (start - row) (contents file g i))).
    assert (Hl : length taken ≤ here) by (unfold taken; rewrite length_take, length_drop; lia).
    destruct (consume_spec (leaf_physical leaf) (negb (leaf_required leaf)) r (start - row)
                ((start + take_) `min` (row + here) - row `max` start) rows a) as (res & Hres & Hgood & Hbuilt).
    + destruct (sound_levels file Hs g i grp r leaf) as [Hd Hp]; [done..|]. destruct Hflat as [Hp' Hd'].
      split; [congruence|]. rewrite Hd, Hd'. by destruct (leaf_required leaf).
    + done.
    + rewrite Hleft. by eapply sound_rows.
    + rewrite Hleft. change (N.of_nat (length rows + length taken) < 2 ^ 63)%N. lia.
    + rewrite Hres. rewrite Hleft in Hbuilt. change (take _ (drop (start - row) _)) with taken in Hbuilt.
      destruct res as [a'|e];
        [|eexists; split; [done|]; split; [|done]; intros [Hf _]; destruct (Hgood Hf) as [x Hx]; congruence].
      destruct (IH (S g) (row + here) (rows ++ taken) a') as (res & Hres' & Hgood' & Hb'); try done.
      * by apply Hbuilt.
      * rewrite length_app. lia.
      * exists res. split; [done|]. split; [done|]. intros a'' Ha. rewrite app_assoc. by apply Hb'.
Qed.

(** A finished column has the cells of its rows. *)
Lemma finish_cells p nb rows a name :
  built p nb rows a → Forall (row_ok p nb) rows → read_cells (finish name a) = cell_of p <$> rows.
Proof.
  intros (Hp & Hnb & Hi & _ & (ws & Hv & Hr) & Hn) Hok.
  assert (Hfin : finish name a = MkDecoded name (column_of_kind (kind p) (mjoin (le_word <$> ws)) (uniques (strings a)))
                   (mask_of (column_of_kind (kind p) (mjoin (le_word <$> ws)) (uniques (strings a))) (nulls a))).
  { unfold finish. rewrite Hp, Hv. by destruct p. }
  rewrite Hfin. apply decoded_cells; [by destruct p; cbn; unfold known; auto| |done|].
  - apply Forall_fmap. eapply Forall_impl; [exact Hok|]. intros [[w|b]|]; cbn; [| |done].
    + intros [Hty Hw]. case_bool_decide as Hk; [destruct (is_nan w) eqn:E; by cbn|].
      cbn. split; [by destruct p|]. by apply i64_of_word_bound.
    + intros ->. done.
  - intros Hk. destruct nb.
    + left. rewrite Hn, <- list_fmap_compose. apply list_fmap_ext. intros _ [[w|b]|] _; cbn; [|done..].
      by rewrite bool_decide_false by done.
    + right. split; [done|]. intros (o & Ho & Hin)%list_elem_of_fmap.
      eapply Forall_forall in Hok; [|exact Hin]. destruct o as [[w|b]|]; cbn in Ho; [|done..].
      by rewrite bool_decide_false in Ho by done.
Qed.

(** ** Reading ends, whatever the columns are *)

Lemma read_batches_ends fuel : ∀ r want a, want ≤ fuel → is_Some (read_batches fuel r want a).
Proof.
  induction fuel as [|fuel IH]; intros r [|want] a Hf; [by eexists|lia|by eexists|].
  cbn [read_batches]. destruct (read_records _ _ _) as [[[[[|k] batch] defs] r']|e]; [by eexists| |by eexists].
  destruct (words _ _). apply IH. lia.
Qed.

Lemma consume_ends r skip want a : is_Some (consume r skip want a).
Proof. unfold consume. destruct (if bool_decide _ then _ else _); [by apply read_batches_ends|by eexists]. Qed.

Lemma walk_groups_ends file i name start n groups : ∀ g row a, is_Some (walk_groups file i name start n g row groups a).
Proof.
  induction groups as [|here groups IH]; intros g row a; [by eexists|]. cbn [walk_groups].
  destruct (_ || _); [apply IH|]. destruct (_ ←? _; _) as [r|e]; [|by eexists].
  destruct (consume_ends r (start - row) ((start + n) `min` (row + here) - row `max` start) a) as [[a'|e] ->];
    [apply IH|by eexists].
Qed.

Lemma read_columns_ends file start n chosen : is_Some (read_columns file start n chosen).
Proof.
  induction chosen as [|[i leaf] chosen IH]; [by eexists|]. cbn [read_columns].
  assert (is_Some (read_column file start n (i, leaf))) as [[d|e] ->]; [|destruct IH as [ds ->]; by eexists|by eexists].
  unfold read_column. destruct (physical_to_column _); [|by eexists].
  destruct (walk_groups_ends file i (leaf_name leaf) start n (group_rows file) 0 0
              (new (leaf_physical leaf) (negb (leaf_required leaf)))) as [x ->]. by eexists.
Qed.

Lemma read_ends bs wanted start len : is_Some (read_parquet_bytes bs wanted start len).
Proof.
  unfold read_parquet_bytes. destruct (map_err _ _) as [file|e]; [|by eexists].
  destruct (choose _ _) as [chosen|e]; [|by eexists].
  edestruct (read_columns_ends file) as [x ->]. by eexists.
Qed.

(** ** The file *)

(** The column of a leaf holds a range of its rows. *)
Definition holds_range (file : PFile) (start n : nat) (ic : nat * Leaf) (d : Decoded) : Prop :=
  dec_name d = leaf_name ic.2
  ∧ read_cells d = cell_of (leaf_physical ic.2) <$> take n (drop start (column_rows file ic.1)).

Lemma read_column_spec file start n i leaf :
  sound file → leaves file !! i = Some leaf → flat leaf →
  ∃ res, read_column file start n (i, leaf) = Some res
    ∧ (readable file → good (physical_to_column (leaf_physical leaf)) → good res) ∧ ∀ d, res = Ok d → holds_range file start n (i, leaf) d.
Proof.
  intros Hs Hleaf Hflat. unfold read_column. destruct (physical_to_column (leaf_physical leaf)) as [k|e];
    [|eexists; split; [done|]; split; [|done]; intros _ [x Hx]; congruence].
  destruct (walk_groups_spec file i leaf start n (group_rows file) 0 0 [] (new (leaf_physical leaf) (negb (leaf_required leaf))))
    as (res & -> & Hgood & Hb); [done|done|done|done|apply built_new|apply Hs|].
  eexists. split; [done|]. split; [intros [a ->]%Hgood _; by eexists|]. destruct res as [a|e]; cbn; [|done]. intros d [= <-].
  specialize (Hb a eq_refl). rewrite !Nat.sub_0_r, app_nil_l in Hb.
  change (rows_from file i 0 (length (group_rows file))) with (column_rows file i) in Hb.
  split; [done|]. rewrite (finish_cells _ _ _ _ _ Hb).
  - cbn. by rewrite skipn_firstn_comm, Nat.add_sub_swap, Nat.sub_diag by done.
  - apply Forall_drop, Forall_take. unfold column_rows, rows_from. apply Forall_join, Forall_fmap, Forall_forall.
    intros g _. by eapply sound_rows.
Qed.

Lemma rows_from_length file i leaf groups : ∀ g,
  sound file → leaves file !! i = Some leaf → flat leaf → (∀ k n, groups !! k = Some n → group_rows file !! (g + k) = Some n) →
  length (rows_from file i g (length groups)) = sum_list groups.
Proof.
  induction groups as [|here groups IH]; intros g Hs Hleaf Hflat Hg; [done|].
  cbn [length]. rewrite rows_from_S, length_app, IH; [|done..|].
  - rewrite (sound_length file Hs g i leaf here); [done..|]. specialize (Hg 0 here eq_refl). by rewrite Nat.add_0_r in Hg.
  - intros k n Hk. specialize (Hg (S k) n Hk). by rewrite <- Nat.add_succ_comm in Hg.
Qed.


(** A column that is one of the file's. *)
Definition indexed (file : PFile) (ic : nat * Leaf) : Prop := leaves file !! ic.1 = Some ic.2.

Lemma column_rows_length file ic :
  sound file → indexed file ic → flat ic.2 → length (column_rows file ic.1) = sum_list (group_rows file).
Proof. intros Hs Hic Hflat. by eapply rows_from_length. Qed.

Lemma read_columns_spec file start n chosen :
  sound file → Forall (indexed file) chosen → Forall (λ ic, flat ic.2) chosen →
  ∃ res, read_columns file start n chosen = Some res
    ∧ (readable file → Forall (λ ic, good (physical_to_column (leaf_physical ic.2))) chosen → good res)
    ∧ ∀ ds, res = Ok ds → Forall2 (holds_range file start n) chosen ds.
Proof.
  intros Hs. induction 1 as [|[i leaf] chosen Hic _ IH]; intros Hfl.
  { eexists. split; [done|]. split; [by eexists|]. intros ds [= <-]. constructor. }
  apply Forall_cons in Hfl as [Hflat Hfl]. destruct (IH Hfl) as (res & Hres & Hgood & Hall).
  destruct (read_column_spec file start n i leaf Hs Hic Hflat) as (r & Hr & Hgood1 & Hd). cbn [read_columns]. rewrite Hr.
  destruct r as [d|e];
    [|eexists; split; [done|]; split; [|done]; intros Hf [Hic' _]%Forall_cons; destruct (Hgood1 Hf Hic'); congruence].
  rewrite Hres. eexists. split; [done|]. split.
  { intros Hf [_ Hrest]%Forall_cons. destruct (Hgood Hf Hrest) as [ds ->]. by eexists. }
  destruct res as [ds|e]; cbn; [|done]. intros ds' [= <-]. constructor; [by apply Hd|by apply Hall].
Qed.

(** The columns of the file that are wanted, all of them when none is
    named. *)
Definition selected (wanted : list string) (file : PFile) : list (nat * Leaf) :=
  filter (λ ic : nat * Leaf, wanted = [] ∨ leaf_name ic.2 ∈ wanted) (imap pair (leaves file)).

Lemma selected_indexed wanted file : Forall (indexed file) (selected wanted file).
Proof.
  apply Forall_forall. intros ic [_ Hin]%list_elem_of_filter.
  apply list_elem_of_lookup in Hin as [k Hk]. rewrite list_lookup_imap in Hk.
  destruct (leaves file !! k) as [leaf|] eqn:E; cbn in Hk; [|done]. by injection Hk as <-.
Qed.

Lemma choose_spec wanted file :
  match choose wanted (leaves file) with
  | Ok chosen => chosen = selected wanted file ∧ ∀ want, want ∈ wanted → want ∈ leaf_name <$> leaves file
  | Err _ => ∃ want, want ∈ wanted ∧ want ∉ leaf_name <$> leaves file
  end.
Proof.
  assert (Hhas : ∀ want, want ∈ wanted →
    existsb (λ ic : nat * Leaf, bool_decide (leaf_name ic.2 = want)) (selected wanted file) = true
      ↔ want ∈ leaf_name <$> leaves file).
  { intros want Hw. rewrite existsb_exists, list_elem_of_fmap. split.
    - intros (ic & Hin%list_elem_of_In & <-%bool_decide_eq_true).
      pose proof (selected_indexed wanted file) as Hall. eapply Forall_forall in Hall; [|exact Hin].
      exists ic.2. split; [done|]. by eapply list_elem_of_lookup_2.
    - intros (leaf & -> & [k Hk]%list_elem_of_lookup). exists (k, leaf).
      split; [|by apply bool_decide_eq_true]. apply list_elem_of_In, list_elem_of_filter. split; [by right|].
      apply list_elem_of_lookup_2 with k. by rewrite list_lookup_imap, Hk. }
  unfold choose. change (filter _ (imap pair (leaves file))) with (selected wanted file).
  destruct (find_first _ wanted) as [want|] eqn:E.
  - apply find_first_Some in E as [Hin Hno]. exists want. split; [done|]. intros Hc%Hhas; [|done].
    by rewrite Hc in Hno.
  - split; [done|]. intros want Hin. apply Hhas; [done|]. eapply find_first_None in E; [|exact Hin].
    by apply negb_false_iff.
Qed.

Lemma read_range_of bs wanted start len file :
  open_file bs = Ok file → sound file → Forall (λ ic, flat ic.2) (selected wanted file) →
  ∃ res, read_parquet_bytes bs wanted start len = Some res
  ∧ (readable file → (∀ want, want ∈ wanted → want ∈ leaf_name <$> leaves file) →
     Forall (λ ic, good (physical_to_column (leaf_physical ic.2))) (selected wanted file) → good res)
  ∧ ∀ rows out, res = Ok (rows, out) →
      (∀ want, want ∈ wanted → want ∈ leaf_name <$> leaves file)
      ∧ rows = default (sum_list (group_rows file)) len `min` (sum_list (group_rows file) - start)
      ∧ Forall (λ d, length (read_cells d) = rows) out
      ∧ Forall2 (holds_range file start rows) (selected wanted file) out.
Proof.
  intros Hopen Hs Hflat. unfold read_parquet_bytes. rewrite Hopen. cbn [map_err].
  pose proof (choose_spec wanted file) as Hc. destruct (choose wanted (leaves file)) as [chosen|e];
    [|eexists; split; [done|]; split; [|done]; destruct Hc as (want & Hin & Hno); intros _ Hw; by destruct Hno; apply Hw].
  destruct Hc as [-> Hnames]. set (total := sum_list (group_rows file)).
  destruct (read_columns_spec file (start `min` total)
              (default (total - start `min` total) len `min` (total - start `min` total))
              (selected wanted file) Hs (selected_indexed _ _) Hflat) as (res & -> & Hgood & Hall).
  eexists. split; [done|]. split; [intros Hf _ Hp; destruct (Hgood Hf Hp) as [ds ->]; by eexists|].
  destruct res as [ds|e]; [|by intros]. intros rows out [= <- <-].
  specialize (Hall ds eq_refl).
  assert (Hrows : default (total - start `min` total) len `min` (total - start `min` total)
                  = default total len `min` (total - start)) by (destruct len; cbn; lia).
  rewrite Hrows in *. set (n := default total len `min` (total - start)) in *.
  assert (Hall' : Forall2 (holds_range file start n) (selected wanted file) ds).
  { apply Forall2_same_length_lookup. split; [by eapply Forall2_length|]. intros k ic d Hic Hd.
    eapply Forall2_lookup_lr in Hall as [Hn Hcells]; [|exact Hic|exact Hd].
    split; [done|]. rewrite Hcells. do 2 f_equal.
    pose proof (selected_indexed wanted file) as Hix. eapply Forall_lookup_1 in Hix; [|exact Hic].
    pose proof (column_rows_length file ic Hs Hix (Forall_lookup_1 _ _ _ _ Hflat Hic)) as Hl. change (sum_list (group_rows file)) with total in Hl.
    destruct (decide (start ≤ total)); [by rewrite Nat.min_l|]. rewrite !drop_ge by lia. done. }
  split; [done|]. split; [done|]. split; [|done].
  rewrite Forall_forall. intros d [k Hk]%list_elem_of_lookup.
  eapply Forall2_lookup_r in Hall' as (ic & Hic & _ & Hcells); [|exact Hk]. rewrite Hcells, length_fmap.
  pose proof (selected_indexed wanted file) as Hix. eapply Forall_lookup_1 in Hix; [|exact Hic].
  rewrite length_take, length_drop, column_rows_length; [|done|done|by apply (Forall_lookup_1 _ _ _ _ Hflat Hic)]. fold total. subst n. lia.
Qed.

(** C39: Reading a Parquet file always ends.  When the columns asked for are
    flat ones (no list and no optional group around them), what it answers is
    the range asked for of them, however the rows are cut into groups and
    batches: as many rows as the file has of it, each column under its name,
    in the order of the file, with nulls where its rows have none.  There is
    an answer when the library makes no error, every name wanted is the
    file's and the columns are of types that are read. *)
Theorem read_range bs wanted start len :
  ∃ res, read_parquet_bytes bs wanted start len = Some res ∧ ∀ file,
  open_file bs = Ok file → sound file → Forall (λ ic, flat ic.2) (selected wanted file) →
  (readable file → (∀ want, want ∈ wanted → want ∈ leaf_name <$> leaves file) →
     Forall (λ ic, good (physical_to_column (leaf_physical ic.2))) (selected wanted file) → good res)
  ∧ ∀ rows out, res = Ok (rows, out) →
      (∀ want, want ∈ wanted → want ∈ leaf_name <$> leaves file)
      ∧ rows = default (sum_list (group_rows file)) len `min` (sum_list (group_rows file) - start)
      ∧ Forall (λ d, length (read_cells d) = rows) out
      ∧ Forall2 (holds_range file start rows) (selected wanted file) out.
Proof.
  destruct (read_ends bs wanted start len) as [res Hres]. exists res. split; [done|]. intros file Hopen Hs Hflat.
  destruct (read_range_of bs wanted start len file Hopen Hs Hflat) as (res' & Hres' & H). simplify_eq. exact H.
Qed.
End reading.
End ParquetFacts.
