(* ===== verification/Data.v ===== *)
(** * The data connector ([connectors/data/src/lib.rs])

    What a guest hands back to be written, the answers, and the four calls
    over the file jail.

    ** What the data connector does and does not

    The file jail holds for its four calls; the columns a guest hands back
    are taken once each, and naming one twice in the order is a panic; a
    range read out of a Parquet file is that range of its rows. *)

From S2P Require Import Prelude.
From S2P Require Import Bytes.
From S2P Require Import Value.
From S2P Require Import Caps.
From S2P Require Import Hostcall.
From S2P Require Import Connector.
From S2P Require Import Backend.
From S2P Require Import Jail.
From S2P Require Import JailSpec.
From S2P Require Import Float.
From S2P Require Import Table.
From S2P Require Import Parquet.

Module Data.
Import Table.

(** ** Arguments *)

Record ReadParquetArgs := MkReadParquetArgs {
  rp_path : string; rp_columns : list string; rp_start : option N; rp_len : option N }.
Record ReadCsvArgs := MkReadCsvArgs {
  rc_path : string; rc_dtypes : btree string string; rc_header : bool; rc_delimiter : option string }.
Record WriteArgs := MkWriteArgs {
  wr_path : string; wr_columns : Value; wr_order : list string; wr_compression : option string;
  wr_header : bool; wr_delimiter : option string }.

(** [rmpv::ext::from_value] at each of them. *)
Class DataWire := {
  read_parquet_from_value : Value → result ReadParquetArgs string;
  read_csv_from_value : Value → result ReadCsvArgs string;
  write_from_value : Value → result WriteArgs string;
}.

(** One delimiter character; [debug] is the [Debug] text of a string. *)
Definition delimiter_of (debug : string → string) (given : option string) : result bytes string :=
  match given with
  | None => Ok [","%char]
  | Some s => match chars s with
              | [c] => Ok c
              | _ => Err ("delimiter must be one character (got " +:+ debug s +:+ ")")
              end
  end.

(** ** What a guest hands back *)

(** The entries by their names, the last of a name. *)
Fixpoint by_name (entries : list (Value * Value)) (m : btree string Value) : result (btree string Value) string :=
  match entries with
  | [] => Ok m
  | (name, column) :: entries =>
      match as_str name with
      | None => Err "a column name must be a string"
      | Some n => by_name entries (bt_insert (K := string) n column m)
      end
  end.

Definition field (fields : list (Value * Value)) (n : string) : option Value :=
  snd <$> find_first (λ kv, key_is n kv.1) fields.
Definition raw (v : option Value) : option bytes :=
  match v with Some (VBin b) | Some (VStr b) => Some b | _ => None end.

Definition column_of (name : string) (fields : list (Value * Value)) : result Column string :=
  let at_ := "column '" +:+ name +:+ "'" in
  match raw (field fields "values"), raw (field fields "codes") with
  | Some values, None =>
      match field fields "dtype" ≫= as_str with
      | None => Ok (Column.F64 values)
      | Some d =>
          if bool_decide (d = "f64") then Ok (Column.F64 values)
          else if bool_decide (d = "i64") then Ok (Column.I64 values)
          else Err (at_ +:+ ": dtype '" +:+ d +:+ "' is not f64 or i64")
      end
  | None, Some codes =>
      us ←? match field fields "uniques" ≫= as_array with
            | Some a => Ok a
            | None => Err (at_ +:+ ": codes without uniques is not a text column")
            end;
      uniques ←? try_map (λ v, match as_str v with
                               | Some s => Ok s
                               | None => Err (at_ +:+ ": uniques holds a non-string")
                               end) us;
      Ok (Column.Text codes uniques)
  | Some _, Some _ => Err (at_ +:+ " has both values and codes; a column is one or the other")
  | None, None => Err (at_ +:+ " has neither values nor codes")
  end.

(** The null bytes of a column: an [f64] column's are its NaNs. *)
Definition nan_mask (bs : bytes) : bytes :=
  (λ row, if is_nan (word_at bs row) then one else zero) <$> seq 0 (length bs / 8).
Definition nulls_of (name : string) (c : Column) (valid : bytes) : result bytes string :=
  match c with
  | Column.F64 bs =>
      if negb (bool_decide (valid = [])) then
        Err ("column '" +:+ name +:+ "': an f64 column says null with NaN and takes no valid mask")
      else
        let mask := nan_mask bs in
        Ok (if bool_decide (one ∈ mask) then mask else [])
  | _ => Ok ((λ v, of_byte (1 - N.min (byte_val v) 1)) <$> valid)
  end.

Definition writable_of (name : string) (v : Value) : result Writable string :=
  match v with
  | VMap fields =>
      let valid := default [] (raw (field fields "valid")) in
      column ←? column_of name fields;
      let n := length (Column.column_bytes column) in
      if negb (bool_decide (n `mod` 8 = 0)) then
        Err ("column '" +:+ name +:+ "': " +:+ dec (N.of_nat n)
             +:+ " bytes is not a whole number of eight-byte elements")
      else if negb (bool_decide (valid = [])) && negb (bool_decide (length valid = Column.rows column)) then
        Err ("column '" +:+ name +:+ "': valid has " +:+ dec (N.of_nat (length valid))
             +:+ " bytes and the column has " +:+ dec (N.of_nat (Column.rows column)) +:+ " rows")
      else nulls ←? nulls_of name column valid; Ok (MkWritable name column nulls)
  | _ => Err ("column '" +:+ name +:+ "' must be a table")
  end.

(** Each name's column is taken out of the map; one that is not there any
    more is a panic. *)
Fixpoint take_columns (names : list string) : M (btree string Value) (result (list Writable) string) :=
  match names with
  | [] => mret (Ok [])
  | name :: names =>
      m ← get_state;
      value ← expect (bt_get (K := string) name m);
      put_state (bt_remove (K := string) name m);;
      match writable_of name value with
      | Err e => mret (Err e)
      | Ok w => ws ← take_columns names; mret (ws ←? ws; Ok (w :: ws))
      end
  end.

Definition writables (value : Value) (order : list string) : outcome (btree string Value) (result (list Writable) string) :=
  match value with
  | VMap entries =>
      match by_name entries [] with
      | Err e => Ret (Err e) []
      | Ok m =>
          match find_first (λ want, bool_decide (bt_get (K := string) want m = None)) order with
          | Some want => Ret (Err ("order names '" +:+ want +:+ "', which columns does not have")) m
          | None => take_columns (if bool_decide (order = []) then bt_keys m else order) m
          end
      end
  | _ => Ret (Err "columns must be a table of name -> column") []
  end.

(** ** Answers *)

Definition read_answer (rows : nat) (decoded : list Decoded) : Value :=
  VMap [(vstr "rows", vnat (N.of_nat rows));
        (vstr "order", VArr ((λ d, vstr (dec_name d)) <$> decoded));
        (vstr "columns", VMap ((λ d, (vstr (dec_name d), into_value d)) <$> decoded))].

Definition written (rows bytes : nat) : Value :=
  VMap [(vstr "rows", vnat (N.of_nat rows)); (vstr "bytes", vnat (N.of_nat bytes))].

(** ** Calls *)

Section call.
Context {F : Type} `{!Backend F, !Jail.FsWire, !DataWire, !ParquetReader, !ParquetWriter}.
Context (debug : string → string).

Definition slurp (sc : Jail.FsScope) (path : string) (fs : F) : result bytes CallError :=
  resolved ←? map_err CallError.new (Jail.resolve sc fs path true);
  meta ←? map_err (λ e, CallError.new ("'" +:+ path +:+ "': " +:+ io_text e)) (metadata resolved fs);
  if bool_decide (Jail.max_bytes sc < md_len meta)%N then
    Err (CallError.new ("'" +:+ path +:+ "' is " +:+ dec (md_len meta) +:+ " bytes and this scope's max_bytes is "
                        +:+ dec (Jail.max_bytes sc)))
  else map_err (λ e, CallError.new ("'" +:+ path +:+ "': " +:+ io_text e)) (read resolved fs).

Definition spill (sc : Jail.FsScope) (path : string) (bs : bytes) : M F (result unit CallError) :=
  if bool_decide (Jail.max_bytes sc < N.of_nat (length bs))%N then
    mret (Err (CallError.new ("'" +:+ path +:+ "' would be " +:+ dec (N.of_nat (length bs))
                              +:+ " bytes and this scope's max_bytes is " +:+ dec (Jail.max_bytes sc))))
  else
    fs ← get_state;
    match Jail.resolve sc fs path false with
    | Err e => mret (Err (CallError.new e))
    | Ok resolved =>
        let '(r, fs) := write resolved bs false fs in
        put_state fs;;
        mret (map_err (λ e, CallError.new ("'" +:+ path +:+ "': " +:+ io_text e)) r)
    end.

(** Out of the columns a guest hands back; a panic there is the caller's. *)
Definition columns_of (v : Value) (order : list string) : M F (result (list Writable) CallError) := λ fs,
  match writables v order with
  | Ret r _ => Ret (map_err CallError.new r) fs
  | Panic => Panic
  | Overflow => Overflow
  | OutOfFuel => OutOfFuel
  end.

Definition call_read_parquet (sc : Jail.FsScope) (v : Value) : M F CallResult :=
  fs ← get_state;
  match (a ←? map_err (λ e, CallError.new ("data/read_parquet args: " +:+ e)) (read_parquet_from_value v);
         bs ←? slurp sc (rp_path a) fs; Ok (a, bs)) with
  | Err e => mret (Err e)
  | Ok (a, bs) =>
      match Parquet.read_parquet_bytes bs (rp_columns a) (N.to_nat (default 0%N (rp_start a)))
              (N.to_nat <$> rp_len a) with
      | None => no_fuel
      | Some (Err e) => mret (Err (CallError.new e))
      | Some (Ok (rows, decoded)) => mret (Ok (read_answer rows decoded))
      end
  end.

Definition call_read_csv (sc : Jail.FsScope) (v : Value) : M F CallResult :=
  fs ← get_state;
  mret (a ←? map_err (λ e, CallError.new ("data/read_csv args: " +:+ e)) (read_csv_from_value v);
        delimiter ←? map_err CallError.new (delimiter_of debug (rc_delimiter a));
        bs ←? slurp sc (rc_path a) fs;
        match from_utf8 bs with
        | None => Err (CallError.new "the file is not UTF-8 text")
        | Some text =>
            rd ←? map_err CallError.new (read_csv_text text (rc_dtypes a) (rc_header a) delimiter);
            Ok (read_answer rd.1 rd.2)
        end).

Definition call_write_parquet (sc : Jail.FsScope) (v : Value) : M F CallResult :=
  match (a ←? map_err (λ e, CallError.new ("data/write_parquet args: " +:+ e)) (write_from_value v);
         let name := default Parquet.DEFAULT_COMPRESSION (wr_compression a) in
         match find_first (λ nc, bool_decide (nc.1 = name)) Parquet.codecs with
         | Some nc => Ok (a, nc.2)
         | None => Err (CallError.new ("compression '" +:+ name +:+ "' is not one of "
                                       +:+ join_with ", " Parquet.codecs.*1))
         end) with
  | Err e => mret (Err e)
  | Ok (a, codec) =>
      columns ← columns_of (wr_columns a) (wr_order a);
      match (columns ←? columns; bs ←? map_err CallError.new (Parquet.write_parquet_bytes columns codec);
             Ok (columns, bs)) with
      | Err e => mret (Err e)
      | Ok (columns, bs) =>
          r ← spill sc (wr_path a) bs;
          mret (_ ←? r; Ok (written (first_rows columns) (length bs)))
      end
  end.

Definition call_write_csv (sc : Jail.FsScope) (v : Value) : M F CallResult :=
  match (a ←? map_err (λ e, CallError.new ("data/write_csv args: " +:+ e)) (write_from_value v);
         delimiter ←? map_err CallError.new (delimiter_of debug (wr_delimiter a)); Ok (a, delimiter)) with
  | Err e => mret (Err e)
  | Ok (a, delimiter) =>
      columns ← columns_of (wr_columns a) (wr_order a);
      match (columns ←? columns;
             text ←? map_err CallError.new (write_csv_text columns (wr_header a) delimiter);
             Ok (columns, as_bytes text)) with
      | Err e => mret (Err e)
      | Ok (columns, bs) =>
          r ← spill sc (wr_path a) bs;
          mret (_ ←? r; Ok (written (first_rows columns) (length bs)))
      end
  end.

(** [DataConnector::call]. *)
Definition call (name : string) (args : option Value) (scope : option Scope) : M F CallResult :=
  match (sc ←? map_err CallError.new (Jail.parse scope);
         v ←? match args with
              | Some v => Ok v
              | None => Err (CallError.new (name +:+ " takes args, and got none"))
              end; Ok (sc, v)) with
  | Err e => mret (Err e)
  | Ok (sc, v) =>
      let writing := bool_decide (name = "data/write_parquet" ∨ name = "data/write_csv") in
      if writing && negb (Jail.writable sc) then
        mret (Err (CallError.new ("'" +:+ name +:+ "' needs access = " +:+ String DQ "readwrite"
                                  +:+ String DQ "; this scope is read-only")))
      else if bool_decide (name = "data/read_parquet") then call_read_parquet sc v
      else if bool_decide (name = "data/read_csv") then call_read_csv sc v
      else if bool_decide (name = "data/write_parquet") then call_write_parquet sc v
      else if bool_decide (name = "data/write_csv") then call_write_csv sc v
      else mret (Err (CallError.new
             ("'" +:+ name +:+ "' is not a data call (read_parquet, write_parquet, read_csv, write_csv)")))
  end.
End call.
End Data.

Module DataFacts.
Import Table Data MemFs MemFsFacts JailFacts.

(** ** The jail *)

Section jail.
Context `{!Jail.FsWire, !DataWire, !ParquetReader, !ParquetWriter}.
Context (debug : string → string).

(** Two ends of a call that answer alike and leave the same under the
    granted directory. *)
Definition ends_alike (root : Path) (o1 o2 : outcome MemState CallResult) : Prop :=
  match o1, o2 with
  | Ret r1 s1, Ret r2 s2 => r1 = r2 ∧ agree root s1 s2
  | Panic, Panic | Overflow, Overflow | OutOfFuel, OutOfFuel => True
  | _, _ => False
  end.

Lemma spill_confined sc path bs (st : MemState) r st' :
  spill sc path bs st = Ret r st' → confined sc st st'.
Proof.
  unfold spill. case_bool_decide; [intros [= _ <-]; apply confined_refl|].
  unfold get_state, mbind, M_bind. destruct (Jail.resolve sc st path false) as [p|e] eqn:Hr;
    [|intros [= _ <-]; apply confined_refl].
  apply resolve_under in Hr as (root & Hroot & Hp & Hf). simpl.
  destruct (mem_write p bs false st) as [w st1] eqn:Hw. intros [= _ <-].
  apply write_at in Hw as (Hc1 & Hc2 & Hc3 & _); [|done]. split_and!; [done..|].
  intros q Hq. exists root. split; [done|]. destruct (decide (q = p)) as [->|]; [done|].
  by destruct Hq; apply Hc3.
Qed.

Section blind.
Context (sc : Jail.FsScope) (root : Path) (st1 st2 : MemState).
Context (Hwf1 : wf st1) (Hwf2 : wf st2) (Hag : agree root st1 st2).
Context (Hroot : Jail.jail_root sc st1 = Ok root).

Lemma blind_slurp path : slurp sc path st1 = slurp sc path st2.
Proof.
  unfold slurp. rewrite <-(agree_resolve root st1 st2) by done.
  destruct (Jail.resolve sc st1 path true) as [p|] eqn:Hres; [|done]. cbn [map_err rbind].
  apply (blind_resolve sc root st1 Hroot) in Hres as [Hf Hp]. simpl.
  by rewrite <-(agree_metadata root st1 st2), <-(agree_read root st1 st2).
Qed.

Lemma blind_spill path bs :
  match spill sc path bs st1, spill sc path bs st2 with
  | Ret r1 s1, Ret r2 s2 => r1 = r2 ∧ agree root s1 s2
  | _, _ => False
  end.
Proof.
  unfold spill. case_bool_decide; [done|]. unfold get_state, mbind, M_bind.
  rewrite <-(agree_resolve root st1 st2) by done.
  destruct (Jail.resolve sc st1 path false) as [p|] eqn:Hres; [|done].
  apply (blind_resolve sc root st1 Hroot) in Hres as [Hf Hp].
  destruct (jail_root_Ok _ _ _ Hroot) as [_ Hthere].
  destruct (agree_write root st1 st2 Hwf1 Hwf2 Hag p bs false Hf Hp Hthere) as [Ha1 Ha2].
  simpl. destruct (mem_write p bs false st1), (mem_write p bs false st2). simpl in *. by subst.
Qed.
End blind.

Lemma columns_of_keeps v order (st : MemState) :
  match columns_of v order st with Ret _ st' => st' = st | _ => True end.
Proof. unfold columns_of. by destruct (writables v order). Qed.

(** The four calls, each as what is decided before the files are written and
    the writing. *)
Ltac writes := unfold mbind, M_bind.

Lemma write_csv_confined sc v (st : MemState) r st' :
  call_write_csv debug sc v st = Ret r st' → confined sc st st'.
Proof.
  unfold call_write_csv. destruct (a ←? _; _) as [[a d]|e]; [|intros [= _ <-]; apply confined_refl].
  writes. pose proof (columns_of_keeps (wr_columns a) (wr_order a) st) as Hk.
  destruct (columns_of _ _ st) as [cols st1| | |]; [|done..]. subst st1.
  destruct (columns ←? cols; _) as [[cols' bs]|e]; [|intros [= _ <-]; apply confined_refl].
  destruct (spill _ _ _ st) as [r1 st2| | |] eqn:Hs; [|done..]. intros [= _ <-]. by eapply spill_confined.
Qed.

Lemma write_parquet_confined sc v (st : MemState) r st' :
  call_write_parquet sc v st = Ret r st' → confined sc st st'.
Proof.
  unfold call_write_parquet. destruct (a ←? _; _) as [[a d]|e]; [|intros [= _ <-]; apply confined_refl].
  writes. pose proof (columns_of_keeps (wr_columns a) (wr_order a) st) as Hk.
  destruct (columns_of _ _ st) as [cols st1| | |]; [|done..]. subst st1.
  destruct (columns ←? cols; _) as [[cols' bs]|e]; [|intros [= _ <-]; apply confined_refl].
  destruct (spill _ _ _ st) as [r1 st2| | |] eqn:Hs; [|done..]. intros [= _ <-]. by eapply spill_confined.
Qed.

Lemma read_csv_same sc v (st : MemState) r st' : call_read_csv debug sc v st = Ret r st' → st' = st.
Proof. unfold call_read_csv. writes. unfold get_state. by intros [= _ <-]. Qed.

Lemma read_parquet_same sc v (st : MemState) r st' : call_read_parquet sc v st = Ret r st' → st' = st.
Proof.
  unfold call_read_parquet. writes. unfold get_state.
  destruct (a ←? _; _) as [[a bs]|e]; [|by intros [= _ <-]].
  destruct (Parquet.read_parquet_bytes _ _ _ _) as [[[rows ds]|e]|]; [by intros [= _ <-]..|done].
Qed.

(** Whatever a guest asks, what changes is a file under the granted
    directory, and nothing changes in a scope that is not writable. *)
Theorem data_confines name args scope (st : MemState) r st' sc :
  Jail.parse scope = Ok sc → call debug name args scope st = Ret r st' →
  confined sc st st' ∧ (Jail.writable sc = false → st' = st).
Proof.
  intros Hsc. unfold call. rewrite Hsc. cbn [map_err rbind].
  destruct args as [v|]; [|intros [= _ <-]; split; [apply confined_refl|done]]. cbn [rbind].
  destruct (_ && negb (Jail.writable sc)) eqn:Hw; [intros [= _ <-]; split; [apply confined_refl|done]|].
  destruct (bool_decide (name = "data/read_parquet")).
  { intros ->%read_parquet_same. split; [apply confined_refl|done]. }
  destruct (bool_decide (name = "data/read_csv")).
  { intros ->%read_csv_same. split; [apply confined_refl|done]. }
  destruct (bool_decide (name = "data/write_parquet")) eqn:Hn1.
  { intros Hc. split; [by eapply write_parquet_confined|]. intros Hro. rewrite Hro, andb_true_r in Hw.
    apply bool_decide_eq_true in Hn1. apply bool_decide_eq_false in Hw. destruct Hw. by left. }
  destruct (bool_decide (name = "data/write_csv")) eqn:Hn2.
  { intros Hc. split; [by eapply write_csv_confined|]. intros Hro. rewrite Hro, andb_true_r in Hw.
    apply bool_decide_eq_true in Hn2. apply bool_decide_eq_false in Hw. destruct Hw. by right. }
  intros [= _ <-]. split; [apply confined_refl|done].
Qed.

(** What a call answers, and what it leaves under the granted directory,
    depends on nothing outside that directory. *)
Theorem data_blind name args scope sc root (st1 st2 : MemState) :
  wf st1 → wf st2 → agree root st1 st2 → Jail.parse scope = Ok sc → Jail.jail_root sc st1 = Ok root →
  ends_alike root (call debug name args scope st1) (call debug name args scope st2).
Proof.
  intros Hwf1 Hwf2 Hag Hsc Hroot. unfold call. rewrite Hsc. cbn [map_err rbind].
  destruct args as [v|]; [|done]. cbn [rbind]. destruct (_ && negb (Jail.writable sc)); [done|].
  pose proof (λ path, blind_slurp sc root st1 st2 Hwf1 Hwf2 Hag Hroot path) as Hslurp.
  pose proof (λ path bs, blind_spill sc root st1 st2 Hwf1 Hwf2 Hag Hroot path bs) as Hspill.
  destruct (bool_decide (name = "data/read_parquet")).
  { unfold call_read_parquet. writes. unfold get_state.
    destruct (map_err _ (read_parquet_from_value v)) as [a|]; [|done]. cbn [rbind]. rewrite <-Hslurp.
    destruct (slurp sc _ st1) as [bs|]; [|done]. cbn [rbind].
    by destruct (Parquet.read_parquet_bytes _ _ _ _) as [[[rows ds]|e]|]. }
  destruct (bool_decide (name = "data/read_csv")).
  { unfold call_read_csv. writes. unfold get_state.
    destruct (map_err _ (read_csv_from_value v)) as [a|]; [|done]. cbn [rbind].
    destruct (map_err _ (delimiter_of _ _)) as [d|]; [|done]. cbn [rbind]. by rewrite <-Hslurp. }
  destruct (bool_decide (name = "data/write_parquet")).
  { unfold call_write_parquet. destruct (a ←? _; _) as [[a d]|e]; [|done]. writes. unfold columns_of.
    destruct (writables _ _) as [cols m| | |]; [|done..].
    destruct (columns ←? _; _) as [[cols' bs]|e]; [|done]. specialize (Hspill (wr_path a) bs).
    destruct (spill _ _ _ st1), (spill _ _ _ st2); try done. by destruct Hspill as [-> ?]. }
  destruct (bool_decide (name = "data/write_csv")); [|done].
  unfold call_write_csv. destruct (a ←? _; _) as [[a d]|e]; [|done]. writes. unfold columns_of.
  destruct (writables _ _) as [cols m| | |]; [|done..].
  destruct (columns ←? _; _) as [[cols' bs]|e]; [|done]. specialize (Hspill (wr_path a) bs).
  destruct (spill _ _ _ st1), (spill _ _ _ st2); try done. by destruct Hspill as [-> ?].
Qed.
End jail.

(** ** The columns a guest hands back *)

Lemma take_columns_cons name names m :
  take_columns (name :: names) m
  = match bt_get (K := string) name m with
    | None => Panic
    | Some value =>
        match writable_of name value with
        | Err e => Ret (Err e) (bt_remove (K := string) name m)
        | Ok w =>
            match take_columns names (bt_remove (K := string) name m) with
            | Ret ws m => Ret (ws ←? ws; Ok (w :: ws)) m
            | o => o
            end
        end
    end.
Proof.
  cbn [take_columns]. unfold mbind, M_bind, get_state, put_state, expect.
  destruct (bt_get name m) as [v|]; [|done]. cbn. destruct (writable_of name v) as [w|e]; [|done].
  by destruct (take_columns names _).
Qed.

Lemma take_columns_total names : ∀ m,
  NoDup names → (∀ n, n ∈ names → is_Some (bt_get (K := string) n m)) → take_columns names m ≠ Panic.
Proof.
  induction names as [|name names IH]; intros m Hnd Hin; [done|]. rewrite take_columns_cons.
  apply NoDup_cons in Hnd as [Hnotin Hnd]. destruct (Hin name ltac:(by left)) as [v ->].
  destruct (writable_of name v) as [w|e]; [|done].
  assert (Hrest : take_columns names (bt_remove (K := string) name m) ≠ Panic).
  { apply IH; [done|]. intros n Hn. rewrite bt_get_remove_ne; [apply Hin; by right|]. by intros ->. }
  by destruct (take_columns names _).
Qed.

Lemma take_columns_panic names : ∀ m,
  (∀ n v, n ∈ names → bt_get (K := string) n m = Some v → is_ok (writable_of n v) = true) →
  ¬ NoDup names ∨ Exists (λ n, bt_get (K := string) n m = None) names → take_columns names m = Panic.
Proof.
  induction names as [|name names IH]; intros m Hok Hbad.
  { destruct Hbad as [Hd|He]; [destruct Hd; constructor|by apply Exists_nil in He]. }
  rewrite take_columns_cons. destruct (bt_get name m) as [v|] eqn:Hv; [|done].
  specialize (Hok name v ltac:(by left) Hv) as Hw. destruct (writable_of name v) as [w|e]; [|done].
  rewrite IH; [done| |].
  - intros n v' Hn Hg. apply (Hok n v'); [by right|]. destruct (decide (n = name)) as [->|Hne].
    + by rewrite bt_get_remove_eq in Hg.
    + by rewrite bt_get_remove_ne in Hg.
  - destruct (decide (name ∈ names)) as [Hin|Hnotin].
    + right. apply Exists_exists. exists name. split; [done|]. apply bt_get_remove_eq.
    + destruct Hbad as [Hd|He].
      * left. intros Hnd. apply Hd. by constructor.
      * right. apply Exists_cons in He as [He|He]; [congruence|].
        apply Exists_exists in He as (n & Hn & Hnone). apply Exists_exists. exists n. split; [done|].
        rewrite bt_get_remove_ne; [done|]. by intros ->.
Qed.

Lemma by_name_sorted entries : ∀ m m', bt_sorted m → by_name entries m = Ok m' → bt_sorted m'.
Proof.
  induction entries as [|[k v] entries IH]; intros m m' Hm; simpl; [by intros [= <-]|].
  destruct (as_str k) as [n|]; [|done]. apply IH. by apply bt_sorted_insert.
Qed.

(** An order that names no column twice is never a panic; one that does,
    over columns that can be written, always is. *)
Theorem writables_panic order :
  (NoDup order → ∀ value, writables value order ≠ Panic)
  ∧ (¬ NoDup order → ∀ entries m,
      by_name entries [] = Ok m →
      (∀ n, n ∈ order → ∃ v w, bt_get (K := string) n m = Some v ∧ writable_of n v = Ok w) →
      writables (VMap entries) order = Panic).
Proof.
  split.
  - intros Hnd value. unfold writables. destruct value; try done.
    destruct (by_name kvs []) as [m|e] eqn:Hm; [|done].
    destruct (find_first _ order) as [want|] eqn:Hf; [done|]. apply take_columns_total.
    + case_bool_decide; [|done]. apply bt_sorted_NoDup. eapply by_name_sorted; [|done]. apply bt_sorted_nil.
    + intros n. case_bool_decide as Ho; [by rewrite bt_get_is_Some|].
      intros Hn. pose proof (find_first_None _ _ n Hf Hn) as Hb. cbn in Hb.
      apply bool_decide_eq_false in Hb. by destruct (bt_get n m); [|destruct Hb].
  - intros Hnd entries m Hm Hok. unfold writables. rewrite Hm.
    destruct (find_first _ order) as [want|] eqn:Hf.
    { apply find_first_Some in Hf as [Hin Hb]. apply bool_decide_eq_true in Hb.
      destruct (Hok want Hin) as (v & w & Hg & _). congruence. }
    rewrite bool_decide_false by (intros ->; apply Hnd; constructor).
    apply take_columns_panic; [|by left]. intros n v Hn Hg.
    destruct (Hok n Hn) as (v' & w & Hg' & Hw). rewrite Hg in Hg'. injection Hg' as <-. by rewrite Hw.
Qed.
End DataFacts.
