(* ===== verification/DataDemo.v ===== *)
(** * The data connector at concrete tables

    Argument shapes, a library whose files are lists of rows, and a table of
    three columns, at which the theorems about the connector hold; and three
    tables that are not read back as they were written. *)

From stdpp Require Import gmap.
From S2P Require Import Prelude.
From S2P Require Import Bytes.
From S2P Require Import Value.
From S2P Require Import Float.
From S2P Require Import Hostcall.
From S2P Require Import Caps.
From S2P Require Import Connector.
From S2P Require Import Backend.
From S2P Require Import Jail.
From S2P Require Import JailSpec.
From S2P Require Import Table.
From S2P Require Import TableSpec.
From S2P Require Import Parquet.
From S2P Require Import ParquetSpec.
From S2P Require Import Data.

Module DataDemo.
Import Table TableFacts Parquet ParquetFacts Data DataFacts MemFs MemFsFacts Jail JailFacts.

(** ** A table *)

Definition words_of (ws : list N) : bytes := mjoin (le_word <$> ws).
Definition ints_of (zs : list Z) : bytes := words_of (word_of_i64 <$> zs).
Definition num (s : string) : N := default 0%N (parse_f64 s).
Definition comma : bytes := [","%char].

Definition quoted_text : string := "say " +:+ String DQ "hi, you" +:+ String DQ "".
Definition table : list Writable :=
  [MkWritable "x" (Column.F64 (words_of [num "1.5"; QNAN])) [zero; one];
   MkWritable "n, all" (Column.I64 (ints_of [-3; 7]%Z)) [];
   MkWritable "s" (Column.Text (ints_of [1; 0]%Z) ["plain"; quoted_text]) []].
Definition table_text : string := default "" (match write_csv_text table true comma with Ok t => Some t | _ => None end).
Definition table_hints : btree string string := foldr (λ kv m, bt_insert (K := string) kv.1 kv.2 m) [] [("x", "f64"); ("n, all", "i64"); ("s", "str")].

Example table_lines_text :
  lines table_text
  = ["x," +:+ String DQ "n, all" +:+ String DQ ",s";
     "1.5,-3," +:+ String DQ "say " +:+ String DQ (String DQ "hi, you") +:+ String DQ (String DQ (String DQ ""));
     ",7,plain"].
Proof. by vm_compute. Qed.

Lemma table_sayable : sayable comma table.
Proof.
  split; [done| |left; vm_compute; lia|by vm_compute].
  repeat constructor; try by vm_compute. all: intros row Hr; vm_compute in Hr.
  destruct row as [|[|]]; [by vm_compute..|lia].
Qed.

Lemma csv_roundtrip_witness :
  (∃ ds, read_csv_text table_text table_hints true comma = Ok (2, ds) ∧ Forall2 same_column table ds)
  ∧ (written_cells <$> table)
    = [[Some (Num (num "1.5")); None]; [Some (Int (-3)); Some (Int 7)]; [Some (Str quoted_text); Some (Str "plain")]].
Proof.
  split; [|by vm_compute].
  apply (csv_roundtrip comma table table_hints table_text).
  - by vm_compute.
  - exact table_sayable.
  - by intros c [->|[->|[->|[]%elem_of_nil]%elem_of_cons]%elem_of_cons]%elem_of_cons; vm_compute.
  - by vm_compute.
Defined.

(** ** Tables that are not read back *)

Definition read_back (cols : list Writable) (hints : btree string string) (delimiter : bytes) :
    option (nat * list (list (option Cell))) :=
  match (t ←? write_csv_text cols true delimiter; read_csv_text t hints true delimiter) with
  | Ok (rows, ds) => Some (rows, read_cells <$> ds)
  | Err _ => None
  end.

Definition with_null : list Writable :=
  [MkWritable "s" (Column.Text (ints_of [0; 0; 1]%Z) ["a"; "b"]) [zero; one; zero]].
Definition with_break : list Writable :=
  [MkWritable "s" (Column.Text (ints_of [0]%Z) ["a" +:+ String LF "b"]) []].
Definition with_point : list Writable :=
  [MkWritable "x" (Column.F64 (words_of [num "2.5"])) []; MkWritable "y" (Column.F64 (words_of [num "7.5"])) []].

(** A null of a table's only column is a line with nothing on it, which a
    reader passes over: the row is gone. *)
Theorem null_row_lost :
  (written_cells <$> with_null) = [[Some (Str "a"); None; Some (Str "b")]]
  ∧ read_back with_null [("s", "str")] comma = Some (2, [[Some (Str "a"); Some (Str "b")]]).
Proof. by vm_compute. Qed.

(** A string of two lines is quoted, and read as two rows: nothing says that
    it was one. *)
Theorem break_read_as_rows :
  (written_cells <$> with_break) = [[Some (Str ("a" +:+ String LF "b"))]]
  ∧ read_back with_break [("s", "str")] comma = Some (2, [[Some (Str "a"); Some (Str "b")]]).
Proof. by vm_compute. Qed.

(** Numbers are not quoted: where the delimiter is a point they are cut at
    theirs, and the columns after take their pieces. *)
Theorem point_cuts_numbers :
  (written_cells <$> with_point) = [[Some (Num (num "2.5"))]; [Some (Num (num "7.5"))]]
  ∧ read_back with_point [("x", "f64"); ("y", "f64")] ["."%char]
    = Some (1, [[Some (Num (num "2"))]; [Some (Num (num "5"))]]).
Proof. by vm_compute. Qed.

(** ** A library whose files are rows *)

(** The rows of a column: doubles and texts that are all there, optional
    integers, and integers that are optional in an optional group. *)
Inductive Rows := RDouble (l : list N) | RText (l : list bytes) | RLong (l : list (option Z)) | RNest (l : list (option (option Z))).

Definition record_of (o : option Z) : nat * option Val :=
  match o with Some z => (1, Some (VWord (word_of_i64 z))) | None => (0, None) end.
Definition nested_record (o : option (option Z)) : nat * option Val :=
  match o with Some o => let '(d, v) := record_of o in (S d, v) | None => (0, None) end.
Definition records_of (r : Rows) : list (nat * option Val) :=
  match r with
  | RDouble l => (λ w, (0, Some (VWord w))) <$> l
  | RText l => (λ b, (0, Some (VBytes b))) <$> l
  | RLong l => record_of <$> l
  | RNest l => nested_record <$> l
  end.
Definition top (r : Rows) : nat := match r with RDouble _ | RText _ => 0 | RLong _ => 1 | RNest _ => 2 end.
Definition rows_drop (n : nat) (r : Rows) : Rows :=
  match r with
  | RDouble l => RDouble (drop n l)
  | RText l => RText (drop n l)
  | RLong l => RLong (drop n l)
  | RNest l => RNest (drop n l)
  end.
Definition batch_of (n : nat) (r : Rows) : Batch :=
  match r with
  | RDouble l => Doubles (take n l)
  | RText l => ByteArrays (take n l)
  | RLong l => Longs (omap id (take n l))
  | RNest l => Longs (omap (default None) (take n l))
  end.

Record RowFile := MkRowFile { rf_leaves : list Leaf; rf_counts : list nat; rf_groups : list (list Rows) }.

(** Two rows at most a batch. *)
Definition read_some (r : Rows) (n : nat) : result (nat * Batch * list nat * Rows) string :=
  let k := (n `min` 2) `min` length (records_of r) in
  Ok (k, batch_of k r, (take k (records_of r)).*1, rows_drop k r).

Definition demo_file : RowFile :=
  MkRowFile [MkLeaf "x" DOUBLE true 0 0; MkLeaf "n" INT64 false 1 0; MkLeaf "s" BYTE_ARRAY true 0 0] [3; 2]
    [[RDouble (num <$> ["1.5"; "2"; "3"]); RLong [Some 1; None; Some (-5)]%Z; RText (as_bytes <$> ["a"; "b"; "a"])];
     [RDouble (num <$> ["4"; "5.25"]); RLong [None; Some 9%Z]; RText (as_bytes <$> ["c"; "b"])]].

(** A column in an optional group: a group without a value, one with, none. *)
Definition nested_file : RowFile := MkRowFile [MkLeaf "n" INT64 false 2 0] [3] [[RNest [Some None; Some (Some 7%Z); None]]].

#[export] Instance demo_reader : ParquetReader := {|
  PFile := RowFile;
  PGroup := list Rows;
  PReader := Rows;
  open_file bs :=
    if bool_decide (bs = as_bytes "PAR1") then Ok demo_file
    else if bool_decide (bs = as_bytes "nested") then Ok nested_file else Err "Invalid Parquet file";
  leaves := rf_leaves;
  group_rows := rf_counts;
  get_row_group f g := default (Err "no such group") (Ok <$> rf_groups f !! g);
  get_column_reader c i := default (Err "no such column") (Ok <$> c !! i);
  skip_records r n := Ok (rows_drop n r);
  read_records r n nullable := read_some r n;
|}.

Lemma records_of_drop n r : records_of (rows_drop n r) = drop n (records_of r).
Proof. destruct r; cbn; by rewrite fmap_drop. Qed.

Lemma vals_batch n r : vals (batch_of n r) = omap snd (take n (records_of r)).
Proof.
  destruct r as [l|l|l|l]; cbn; rewrite <- fmap_take;
    induction (take n l) as [|x l' IH]; try done; try exact (f_equal (cons _) IH);
    [destruct x as [z|]; [exact (f_equal (cons _) IH)|exact IH]|].
  destruct x as [[z|]|]; [exact (f_equal (cons _) IH)|exact IH|exact IH].
Qed.

#[export] Instance demo_laws : ParquetLaws.
Proof.
  apply (Build_ParquetLaws demo_reader top (λ _, 0) records_of).
  - intros r _. destruct r as [l|l|l|l]; apply Forall_fmap, Forall_true;
      [intros w|intros b|intros [z|]|intros [[z|]|]]; cbn; (split; [lia|]);
      (split; [by intros []|]); first [by intros _; eexists|done].
  - intros r n r' _ [= <-]. split; [done|]. split; [by destruct r|apply records_of_drop].
  - intros r n nb k batch defs r' _ Hn [= <- <- <- <-]. split; [done|]. split; [by destruct r|]. split; [lia|]. split.
    { intros Hk. apply length_zero_iff_nil. lia. }
    split; [lia|]. split; [apply records_of_drop|]. split; [apply vals_batch|done].
Defined.

Definition demo_contents (f : RowFile) (g i : nat) : list (option Val) :=
  default [] (cs ← rf_groups f !! g; (λ r, (records_of r).*2) <$> cs !! i).

Lemma demo_sound : sound demo_contents demo_file.
Proof.
  split.
  - intros g i grp r leaf. cbn [get_row_group get_column_reader demo_reader].
    destruct g as [|[|g]]; intros Hg; try discriminate Hg; injection Hg as <-;
      (destruct i as [|[|[|i]]]; intros Hi; try discriminate Hi; injection Hi as <-; intros Hl; injection Hl as <-; done).
  - intros g i grp r leaf Hg Hi _ _. revert Hg Hi. unfold demo_contents. cbn [get_row_group get_column_reader demo_reader].
    destruct (rf_groups demo_file !! g) as [cs|]; cbn; [|done]. intros [= <-].
    destruct (cs !! i) as [c|]; cbn; [|done]. by intros [= <-].
  - intros g i leaf n Hl _ Hg. destruct i as [|[|[|i]]]; [..|discriminate Hl];
      (destruct g as [|[|g]]; [..|discriminate Hg]); injection Hg as <-; by vm_compute.
  - intros g i leaf Hl _. destruct i as [|[|[|i]]]; [..|discriminate Hl]; injection Hl as <-;
      (destruct g as [|[|g]]; [..|constructor]); repeat (constructor; [by vm_compute|]); constructor.
  - by vm_compute.
Qed.

Definition demo_read : option (result (nat * list Decoded) string) :=
  read_parquet_bytes (as_bytes "PAR1") ["s"; "n"] 1 (Some 3).

Lemma demo_readable : readable demo_file.
Proof.
  split; [split; intros; by eexists|].
  intros g i Hg Hi. destruct i as [|[|[|i]]]; [..|cbn in Hi; lia];
    (destruct g as [|[|g]]; [..|cbn in Hg; lia]); eexists; (split; [reflexivity|by eexists]).
Qed.

Lemma read_range_witness :
  (∃ rows out, demo_read = Some (Ok (rows, out)) ∧ rows = 3
     ∧ Forall2 (holds_range demo_contents demo_file 1 rows) (selected ["s"; "n"] demo_file) out)
  ∧ match demo_read with
    | Some (Ok (rows, out)) => (λ d, (dec_name d, read_cells d)) <$> out
    | _ => []
    end = [("n", [None; Some (Int (-5)); None]); ("s", [Some (Str "b"); Some (Str "a"); Some (Str "c")])].
Proof.
  split; [|by vm_compute].
  destruct (read_range (PR := demo_reader) demo_contents (as_bytes "PAR1") ["s"; "n"] 1 (Some 3)) as (res & Hres & Hfile).
  destruct (Hfile demo_file) as [Hgood Hall]; [by vm_compute|exact demo_sound|by repeat constructor|].
  destruct Hgood as [[rows out] ->].
  - exact demo_readable.
  - intros want [->|[->|[]%elem_of_nil]%elem_of_cons]%elem_of_cons; repeat constructor.
  - repeat constructor; by eexists.
  - destruct (Hall rows out eq_refl) as (_ & -> & _ & Hr). eexists _, out. split; [exact Hres|]. split; [done|exact Hr].
Defined.

(** Only flat columns are read, and none is refused that is not: the level of
    a group that is there is taken for that of a value, and the next value is
    put in its row. *)
Theorem nested_value_moves :
  demo_contents nested_file 0 0 = [None; Some (VWord 7); None]
  ∧ match read_parquet_bytes (as_bytes "nested") [] 0 None with
    | Some (Ok (rows, out)) => read_cells <$> out
    | _ => []
    end = [[Some (Int 7); None; None]].
Proof. by vm_compute. Qed.

(** ** Calls *)

Definition args_field (name : string) (v : Value) : option Value :=
  m ← as_map v; kv ← find_first (λ kv, key_is name kv.1) m; Some kv.2.
Definition with_path {A} (v : Value) (k : string → A) : result A string :=
  match args_field "path" v ≫= as_str with Some p => Ok (k p) | None => Err "missing field `path`" end.

#[export] Instance demo_data_wire : DataWire := {|
  read_parquet_from_value v :=
    with_path v (λ p, MkReadParquetArgs p [] (args_field "start" v ≫= as_u64) (args_field "len" v ≫= as_u64));
  read_csv_from_value v :=
    with_path v (λ p, MkReadCsvArgs p [] true (args_field "delimiter" v ≫= as_str));
  write_from_value v :=
    with_path v (λ p, Data.MkWriteArgs p (default VNil (args_field "columns" v)) [] (args_field "compression" v ≫= as_str)
                        true (args_field "delimiter" v ≫= as_str));
|}.

#[export] Instance demo_writer : ParquetWriter := {|
  PSchema := unit;
  PWriter := list Physical;
  build_field _ := Ok tt;
  build_schema _ := Ok tt;
  start_file _ _ := Err "this library only reads";
  next_row_group w := Ok w;
  next_column w := Ok (match w with k :: w => Some (k, w) | [] => None end);
  write_batch w _ _ := Ok w;
  close_column w := Ok w;
  close_group w := Ok w;
  close_file _ := Ok [];
|}.

Definition data_scope : Scope :=
  MkScope (VMap [(vstr "scope", vstr "/work"); (vstr "access", vstr "readwrite"); (vstr "max_bytes", vnat 64)]).
Definition data_sc : FsScope := MkFsScope "/work" (Some "readwrite") (Some 64%N).
Definition csv_write : Value :=
  VMap [(vstr "path", vstr "out.csv");
        (vstr "columns", VMap [(vstr "x", VMap [(vstr "values", VBin (words_of [num "1.5"; num "2"]))])])].
Definition csv_read : Value := VMap [(vstr "path", vstr "../secret.txt")].

Lemma data_confines_witness :
  ∃ r st', Data.call (λ s, s) "data/write_csv" (Some csv_write) (Some data_scope) demo_fs = Ret r st'
    ∧ confined data_sc demo_fs st'
    ∧ files st' !! path_of "/work/out.csv" = Some (as_bytes ("x" +:+ String LF "1.5" +:+ String LF "2.0" +:+ String LF "")).
Proof.
  destruct (Data.call (λ s, s) "data/write_csv" (Some csv_write) (Some data_scope) demo_fs) as [r st'| | |] eqn:E;
    [|by vm_compute in E..].
  exists r, st'. split; [done|]. split.
  - by apply (data_confines (λ s, s) "data/write_csv" (Some csv_write) (Some data_scope) demo_fs r st' data_sc).
  - vm_compute in E. by injection E as <- <-.
Defined.

Lemma data_blind_witness :
  ends_alike work (Data.call (λ s, s) "data/read_csv" (Some csv_read) (Some data_scope) demo_fs)
                  (Data.call (λ s, s) "data/read_csv" (Some csv_read) (Some data_scope) other_fs).
Proof.
  apply (data_blind (λ s, s) "data/read_csv" (Some csv_read) (Some data_scope) data_sc work demo_fs other_fs
           jail_demo_wf other_wf demo_agree); by vm_compute.
Defined.
End DataDemo.
