(* ===== verification/Presence.v ===== *)
(** * Presence records ([crates/drt-rtc/src/record.rs])

    What each side of a session publishes: credentials, a certificate's
    digest and candidate lines, as a short JSON text.

    ** Records, written and read

    What a host publishes of itself is read back as it was, but for the
    candidates a session cannot use; and nothing is read that breaks a rule
    of the record's. *)

From S2P Require Import Prelude.
From S2P Require Import Bytes.
From S2P Require Import Value.
From S2P Require Import Node.
From S2P Require Import Canon.
From S2P Require Import Sign.
From S2P Require Import Reach.

(** [serde_json::from_str] at a value; an object's entries are in key
    order, each key once. *)
Class JsonRead := { json_read : string → result Json string }.

(** The value's accessors. *)
Definition json_get (k : string) (v : Json) : option Json :=
  match v with JObject m => bt_get (K := string) k m | _ => None end.
Definition json_str (v : Json) : option string := match v with JString s => Some s | _ => None end.
Definition json_array (v : Json) : option (list Json) := match v with JArray l => Some l | _ => None end.
Definition json_u64 (v : Json) : option N := match v with JNumber (PosInt n) => Some n | _ => None end.

(** [split_ascii_whitespace]. *)
Definition ascii_space (c : ascii) : bool := bool_decide (byte_val c ∈ [9; 10; 12; 13; 32]%N).
Fixpoint split_spaces (s : string) : list string :=
  match s with
  | EmptyString => []
  | String c s' =>
      if ascii_space c then split_spaces s'
      else
        let ws := split_spaces s' in
        match s', ws with
        | String c' _, w :: ws' => if ascii_space c' then String c "" :: ws else String c w :: ws'
        | _, _ => String c "" :: ws
        end
  end.

Definition ends_with (s p : string) : bool := bool_decide (as_bytes p `suffix_of` as_bytes s).
Definition alphanumeric (c : ascii) : bool :=
  let n := byte_val c in in_range 48 57 n || in_range 65 90 n || in_range 97 122 n.
Definition all_bytes (p : ascii → bool) (s : string) : bool := forallb p (as_bytes s).
Definition all_digits (s : string) : bool := all_bytes (λ c, in_range 48 57 (byte_val c)) s.

Module Presence.

Definition MAX_BYTES : nat := 512.
Definition MAX_CANDIDATES : nat := 8.
Definition UFRAG_LEN : nat * nat := (4, 32).
Definition PWD_LEN : nat * nat := (22, 64).
Definition VERSION : N := 1.
Definition within (r : nat * nat) (s : string) : bool := bool_decide (r.1 ≤ str_len s ≤ r.2).

Record Record_ := MkRecord {
  ufrag : string;
  pwd : string;
  fingerprint : bytes;
  candidates : list string;
}.
#[export] Instance Record_eq_dec : EqDecision Record_.
Proof. solve_decision. Defined.

Inductive RecordError :=
  | TooLong (n : nat)
  | NotJson (e : string)
  | NotAnObject
  | Version
  | Missing (k : string)
  | WrongType (k : string)
  | Ufrag
  | Pwd
  | Fingerprint
  | TooManyCandidates (n : nat)
  | Candidate (c : string).

Definition tick (k : string) : string := String (of_byte 96) k +:+ String (of_byte 96) "".
Definition error_text (e : RecordError) : string :=
  match e with
  | TooLong n => "record is " +:+ dec (N.of_nat n) +:+ " bytes, over " +:+ dec (N.of_nat MAX_BYTES)
  | NotJson e => "record is not JSON: " +:+ e
  | NotAnObject => "record is not a JSON object"
  | Version => "record version is not " +:+ dec VERSION
  | Missing k => "record has no " +:+ tick k
  | WrongType k => "record " +:+ tick k +:+ " has the wrong type"
  | Ufrag => "record " +:+ tick "u" +:+ " is not 4..=32 ice-chars"
  | Pwd => "record " +:+ tick "p" +:+ " is not 22..=64 ice-chars"
  | Fingerprint => "record " +:+ tick "f" +:+ " is not padded base64 of a 32-byte digest"
  | TooManyCandidates n =>
      "record carries " +:+ dec (N.of_nat n) +:+ " candidates, over " +:+ dec (N.of_nat MAX_CANDIDATES)
  | Candidate c => "record candidate is not a " +:+ tick "candidate:" +:+ " line: " +:+ c
  end.

(** RFC 8839's [ice-char]. *)
Definition ice_char (c : ascii) : bool := alphanumeric c || bool_decide (c = "+"%char) || bool_decide (c = "/"%char).

Definition candidate_line (c : string) : bool :=
  starts_with c "candidate:" && negb (contains_char (of_byte 13) c) && negb (contains_char (of_byte 10) c).

Definition check (r : Record_) : result unit RecordError :=
  if negb (within UFRAG_LEN (ufrag r) && all_bytes ice_char (ufrag r)) then Err Ufrag
  else if negb (within PWD_LEN (pwd r) && all_bytes ice_char (pwd r)) then Err Pwd
  else if bool_decide (MAX_CANDIDATES < length (candidates r)) then Err (TooManyCandidates (length (candidates r)))
  else match find_first (λ c, negb (candidate_line c)) (candidates r) with
       | Some c => Err (Candidate c)
       | None => Ok tt
       end.

(** Whether a line is one a session can use. *)
Definition usable_candidate (line : string) : bool :=
  match strip_prefix "candidate:" line with
  | None => false
  | Some rest =>
      match split_spaces rest with
      | _ :: component :: transport :: priority :: address :: port :: typ :: type_ :: _ =>
          let numeric s := negb (str_is_empty s) && all_digits s in
          bool_decide (typ = "typ")
          && numeric component && numeric priority && numeric port
          && bool_decide (is_Some (parse_unsigned 65536 port))
          && eq_ignore_ascii_case transport "udp"
          && existsb (λ k, eq_ignore_ascii_case type_ k) ["host"; "srflx"; "prflx"]
          && negb (ends_with (Scope.lowercase address) ".local")
      | _ => false
      end
  end.

(** A digest as SDP spells it. *)
Definition upper_hex (n : N) : ascii := of_byte (if bool_decide (n < 10)%N then 48 + n else 55 + n).
Definition hex_pair (b : ascii) : string :=
  String (upper_hex (byte_val b / 16)) (String (upper_hex (byte_val b `mod` 16)) "").
Definition fingerprint_hex (digest : bytes) : string := String.concat ":" (hex_pair <$> digest).

(** The answer a browser builds from the host's record. *)
Definition CRLF : string := String (of_byte 13) (String (of_byte 10) "").
Definition answer_sdp (host : Record_) (mid : string) : string :=
  String.concat CRLF
    (["v=0"; "o=- 0 2 IN IP4 127.0.0.1"; "s=-"; "t=0 0"; "a=group:BUNDLE " +:+ mid;
      "m=application 9 UDP/DTLS/SCTP webrtc-datachannel"; "c=IN IP4 0.0.0.0"; "a=mid:" +:+ mid;
      "a=ice-ufrag:" +:+ ufrag host; "a=ice-pwd:" +:+ pwd host;
      "a=fingerprint:sha-256 " +:+ fingerprint_hex (fingerprint host);
      "a=setup:passive"; "a=sctp-port:5000"; "a=max-message-size:262144"]
     ++ ((λ c, "a=" +:+ c) <$> candidates host) ++ ["a=end-of-candidates"]) +:+ CRLF.

Section codec.
Context `{JT : JsonText} `{JR : JsonRead} `{B : Base64}.

(** The fields in the order they are written. *)
Definition wire_text (r : Record_) : string :=
  let q := quote in
  "{" +:+ q "v" +:+ ":" +:+ dec VERSION +:+ "," +:+ q "u" +:+ ":" +:+ q (ufrag r) +:+ ","
  +:+ q "p" +:+ ":" +:+ q (pwd r) +:+ "," +:+ q "f" +:+ ":" +:+ q (b64_encode (fingerprint r)) +:+ ","
  +:+ q "c" +:+ ":" +:+ "[" +:+ String.concat "," (q <$> candidates r) +:+ "]" +:+ "}".

Definition encode (r : Record_) : result string RecordError :=
  _ ←? check r;
  let s := wire_text r in
  if bool_decide (MAX_BYTES < str_len s) then Err (TooLong (str_len s)) else Ok s.

Definition decode_fingerprint (f : string) : result bytes RecordError :=
  if negb (bool_decide (str_len f = 44)) then Err Fingerprint
  else match b64_decode f with
       | Ok bs => if bool_decide (length bs = 32) then Ok bs else Err Fingerprint
       | Err _ => Err Fingerprint
       end.

Definition field (obj : Json) (k : string) : result Json RecordError :=
  match json_get k obj with Some v => Ok v | None => Err (Missing k) end.
Definition typed {A} (k : string) (o : option A) : result A RecordError :=
  match o with Some a => Ok a | None => Err (WrongType k) end.
Definition text (obj : Json) (k : string) : result string RecordError :=
  v ←? field obj k; typed k (json_str v).

Definition decode (s : string) : result Record_ RecordError :=
  if bool_decide (MAX_BYTES < str_len s) then Err (TooLong (str_len s))
  else
    obj ←? map_err NotJson (json_read s);
    match obj with
    | JObject _ =>
        v ←? field obj "v";
        if negb (bool_decide (json_u64 v = Some VERSION)) then Err Version
        else
          u ←? text obj "u";
          p ←? text obj "p";
          f ←? text obj "f";
          c ←? field obj "c";
          c ←? typed "c" (json_array c);
          lines ←? try_map (λ l, typed "c" (json_str l)) c;
          fp ←? decode_fingerprint f;
          let r := MkRecord u p fp lines in
          _ ←? check r;
          Ok (MkRecord u p fp (filter (λ c, usable_candidate c = true) lines))
    | _ => Err NotAnObject
    end.
End codec.

Example candidates_used :
  usable_candidate <$>
    ["candidate:1 1 udp 2130706431 192.168.1.20 50212 typ host";
     "candidate:2 1 UDP 1694498815 203.0.113.7 50212 typ srflx raddr 0.0.0.0 rport 0";
     "candidate:4 1 udp 2130706431 fd00::1 50212 typ host generation 0";
     "candidate:1 1 tcp 1518280447 192.0.2.5 9 typ host tcptype active";
     "candidate:1 1 udp 41885439 198.51.100.1 3478 typ relay raddr 0.0.0.0 rport 0";
     "candidate:1 1 udp 2113937151 x.local 61234 typ host";
     "candidate:1 1 udp 2130706431 192.0.2.1 70000 typ host"]
  = [true; true; true; false; false; false; false].
Proof. by vm_compute. Qed.
End Presence.

Module PresenceFacts.
Import Presence.

Section facts.
Context `{JT : JsonText} `{JR : JsonRead} `{B64 : Base64}.

(** A record's object, its keys in order. *)
Definition wire_value (r : Record_) : Json :=
  JObject [("c", JArray (JString <$> candidates r)); ("f", JString (b64_encode (fingerprint r)));
           ("p", JString (pwd r)); ("u", JString (ufrag r)); ("v", JNumber (PosInt VERSION))].

Definition usable (r : Record_) : Record_ :=
  MkRecord (ufrag r) (pwd r) (fingerprint r) (filter (λ c, usable_candidate c = true) (candidates r)).

Lemma lines_read l : try_map (λ l, typed "c" (json_str l)) (JString <$> l) = Ok l.
Proof. induction l as [|x l IH]; [done|]. cbn. by rewrite IH. Qed.

(** What is written is read back, where the reader gives the text's value
    and base64 the digest's. *)
Lemma decode_encode r s :
  encode r = Ok s → length (fingerprint r) = 32 → str_len (b64_encode (fingerprint r)) = 44 →
  b64_decode (b64_encode (fingerprint r)) = Ok (fingerprint r) → json_read s = Ok (wire_value r) →
  decode s = Ok (usable r).
Proof.
  unfold encode. destruct (check r) as [[]|e] eqn:Hc; [|done]. cbn.
  case_bool_decide as Hmax; [done|]. intros [= <-] Hfp Hlen Hb Hr. unfold decode.
  rewrite bool_decide_false by done. rewrite Hr. cbn [map_err rbind wire_value]. fold (wire_value r).
  change (field (wire_value r) "v") with (Ok (B := RecordError) (JNumber (PosInt VERSION))).
  change (field (wire_value r) "c") with (Ok (B := RecordError) (JArray (JString <$> candidates r))).
  change (text (wire_value r) "u") with (Ok (B := RecordError) (ufrag r)).
  change (text (wire_value r) "p") with (Ok (B := RecordError) (pwd r)).
  change (text (wire_value r) "f") with (Ok (B := RecordError) (b64_encode (fingerprint r))).
  cbn [rbind json_u64 json_array typed]. rewrite bool_decide_true by done. cbn [negb]. rewrite lines_read.
  unfold decode_fingerprint. rewrite bool_decide_true by done. cbn [negb]. rewrite Hb, bool_decide_true by done.
  destruct r as [u p f c]. cbn [rbind ufrag pwd fingerprint candidates] in *. by rewrite Hc.
Qed.

(** A record keeps to the rules. *)
Record record_ok (r : Record_) : Prop := {
  ok_ufrag : 4 ≤ str_len (ufrag r) ≤ 32 ∧ Forall (λ c, ice_char c = true) (as_bytes (ufrag r));
  ok_pwd : 22 ≤ str_len (pwd r) ≤ 64 ∧ Forall (λ c, ice_char c = true) (as_bytes (pwd r));
  ok_count : length (candidates r) ≤ 8;
  ok_lines : Forall (λ c, candidate_line c = true) (candidates r);
}.

Lemma find_first_none {A} (p : A → bool) l : find_first p l = None ↔ Forall (λ x, p x = false) l.
Proof.
  induction l as [|x l IH]; [done|]. cbn [find_first]. rewrite Forall_cons. destruct (p x); naive_solver.
Qed.

Lemma all_bytes_spec p s : all_bytes p s = true ↔ Forall (λ c, p c = true) (as_bytes s).
Proof. unfold all_bytes. rewrite forallb_forall, Forall_forall. by setoid_rewrite list_elem_of_In. Qed.

Lemma check_spec r : check r = Ok tt ↔ record_ok r.
Proof.
  unfold check, within. rewrite !negb_andb. split.
  - destruct (_ || _) eqn:Hu; [done|]. apply orb_false_iff in Hu as [Hu1 Hu2]. apply negb_false_iff in Hu1, Hu2.
    apply bool_decide_eq_true in Hu1. apply all_bytes_spec in Hu2.
    destruct (_ || _) eqn:Hp; [done|]. apply orb_false_iff in Hp as [Hp1 Hp2]. apply negb_false_iff in Hp1, Hp2.
    apply bool_decide_eq_true in Hp1. apply all_bytes_spec in Hp2.
    case_bool_decide as Hn; [done|]. destruct (find_first _ _) eqn:Hf; [done|]. intros _.
    apply find_first_none in Hf. split; [done|done|unfold MAX_CANDIDATES in Hn; lia|].
    eapply Forall_impl; [exact Hf|]. intros c. by rewrite negb_false_iff.
  - intros [[Hu1 Hu2] [Hp1 Hp2] Hn Hl]. apply all_bytes_spec in Hu2, Hp2. rewrite Hu2, Hp2.
    rewrite !bool_decide_true by done. cbn. rewrite bool_decide_false by (unfold MAX_CANDIDATES; lia).
    destruct (find_first _ _) eqn:Hf; [|done]. exfalso.
    assert (Hnone : find_first (λ c, negb (candidate_line c)) (candidates r) = None); [|congruence].
    apply find_first_none. eapply Forall_impl; [exact Hl|]. intros c. by rewrite negb_false_iff.
Qed.

Lemma all_usable l : Forall (λ c, usable_candidate c = true) l → filter (λ c, usable_candidate c = true) l = l.
Proof. induction 1 as [|c l Hc _ IH]; [done|]. rewrite filter_cons_True by done. by rewrite IH. Qed.

Lemma decode_within s r :
  decode s = Ok r →
  str_len s ≤ 512 ∧ record_ok r ∧ length (fingerprint r) = 32 ∧ Forall (λ c, usable_candidate c = true) (candidates r).
Proof.
  unfold decode. case_bool_decide as Hmax; [done|]. intros (obj & _ & Hr)%rbind_Ok.
  destruct obj as [| | | | |m]; try done. apply rbind_Ok in Hr as (v & _ & Hr). destruct (negb _); [done|].
  apply rbind_Ok in Hr as (u & _ & Hr). apply rbind_Ok in Hr as (p & _ & Hr). apply rbind_Ok in Hr as (f & _ & Hr).
  apply rbind_Ok in Hr as (cv & _ & Hr). apply rbind_Ok in Hr as (c & _ & Hr).
  apply rbind_Ok in Hr as (lines & _ & Hr). apply rbind_Ok in Hr as (fp & Hfp & Hr).
  apply rbind_Ok in Hr as ([] & Hc & [= <-]). apply check_spec in Hc as [Hu Hp Hn Hl]. cbn in *.
  unfold MAX_BYTES in Hmax. split_and!; [lia|split; cbn; try done| |].
  - pose proof (length_filter (λ c, usable_candidate c = true) lines). lia.
  - rewrite Forall_forall in *. intros x Hx. apply list_elem_of_filter in Hx as [_ Hx]. by apply Hl.
  - unfold decode_fingerprint in Hfp. destruct (negb _); [done|]. destruct (b64_decode f) as [bs|]; [|done].
    case_bool_decide; [|done]. by injection Hfp as <-.
  - apply Forall_forall. intros x Hx. by apply list_elem_of_filter in Hx as [Hx _].
Qed.

(** A record that is published is read back as it was, less the candidates
    no session can use; what is read, from whatever text, is a record within
    every bound and of usable candidates only; and what can be published is
    the records that keep to the rules and whose text is short enough. *)
Theorem presence_roundtrip :
  (∀ r s, encode r = Ok s → length (fingerprint r) = 32 → str_len (b64_encode (fingerprint r)) = 44 →
     b64_decode (b64_encode (fingerprint r)) = Ok (fingerprint r) → json_read s = Ok (wire_value r) →
     decode s = Ok (usable r))
  ∧ (∀ s r, decode s = Ok r →
       str_len s ≤ 512 ∧ record_ok r ∧ length (fingerprint r) = 32
       ∧ Forall (λ c, usable_candidate c = true) (candidates r) ∧ usable r = r)
  ∧ ∀ r, (∃ s, encode r = Ok s) ↔ record_ok r ∧ str_len (wire_text r) ≤ 512.
Proof.
  split; [apply decode_encode|]. split.
  - intros s r Hd. destruct (decode_within s r Hd) as (H1 & H2 & H3 & H4). split_and!; try done.
    unfold usable. rewrite all_usable by done. by destruct r.
  - intros r. unfold encode. rewrite <- check_spec. destruct (check r) as [[]|e]; cbn; [|naive_solver].
    unfold MAX_BYTES. case_bool_decide; naive_solver lia.
Qed.
End facts.
End PresenceFacts.
