(* ===== verification/Forward.v ===== *)
(** * What a session's streams reach

    Targets a caller asks for ([crates/drt-rtc/src/caller.rs]), sets of
    ports, what a host forwards to, where it routes a connection and how it
    dials it, and what it says of itself ([host.rs]). *)

From S2P Require Import Prelude.
From S2P Require Import Bytes.
From S2P Require Import Canon.
From S2P Require Import Node.
From S2P Require Import Reach.
From S2P Require Import Presence.

(** [SocketAddr]. *)
Record SocketAddr := MkSocketAddr { sa_ip : IpAddr; sa_port : N }.
#[export] Instance IpAddr_eq_dec : EqDecision IpAddr.
Proof. solve_decision. Defined.
#[export] Instance SocketAddr_eq_dec : EqDecision SocketAddr.
Proof. solve_decision. Defined.
#[export] Instance Entry_eq_dec : EqDecision Scope.Entry.
Proof. solve_decision. Defined.

Module Target.

Inductive Target :=
  | Service (name : string)
  | Address (host : string) (port : N)
  | Default
  | Port (port : N).
#[export] Instance Target_eq_dec : EqDecision Target.
Proof. solve_decision. Defined.

(** A port number that is not zero. *)
Definition port_of (p : string) : option N :=
  n ← parse_unsigned 65536 p; if bool_decide (n = 0)%N then None else Some n.

Definition bad_port (s : string) : string := "'" +:+ s +:+ "': the port is not 1..65535".

Definition parse (s : string) : result Target string :=
  if str_is_empty s then Ok Default
  else if all_digits s then
    match port_of s with Some p => Ok (Port p) | None => Err (bad_port s) end
  else if Scope.is_service_name s then Ok (Service s)
  else match rsplit_once ":" s with
       | None => Err ("'" +:+ s +:+ "' is neither a service name nor host:port")
       | Some (host, port) =>
           match port_of port with
           | None => Err (bad_port s)
           | Some port =>
               let host := Cidr.trim_end_matches "]" (Cidr.trim_start_matches "[" host) in
               if str_is_empty host then Ok (Port port) else Ok (Address host port)
           end
       end.

Definition STREAM_TCP : N := 1.
Definition STREAM_UDP : N := 2.

Definition connect_packet (t : Target) (stream : N) : bytes :=
  match t with
  | Service name => Wisp.connect stream STREAM_TCP 0 name
  | Address host port => Wisp.connect stream STREAM_TCP port host
  | Default => Wisp.connect stream STREAM_TCP 0 ""
  | Port port => Wisp.connect stream STREAM_TCP port ""
  end.

Definition text (t : Target) : string :=
  match t with
  | Service name => "the service " +:+ name
  | Address host port => host +:+ ":" +:+ dec port
  | Default => "what the far side forwards to"
  | Port port => "port " +:+ dec port +:+ " of what the far side forwards to"
  end.
End Target.

Module PortSet.

Record PortSet := MkPortSet { ranges : list (N * N); any_port : bool }.
#[export] Instance PortSet_eq_dec : EqDecision PortSet.
Proof. solve_decision. Defined.

Definition any : PortSet := MkPortSet [] true.

Definition port (s p : string) : result N string :=
  match Target.port_of p with
  | Some n => Ok n
  | None => Err ("'" +:+ s +:+ "': '" +:+ p +:+ "' is not a port")
  end.

Definition range_of (s item : string) : result (N * N) string :=
  let item := trim item in
  match split_once ":" item with
  | Some (low, high) =>
      low ←? port s low;
      high ←? port s high;
      if bool_decide (high < low)%N then
        Err ("'" +:+ s +:+ "': " +:+ dec low +:+ ":" +:+ dec high +:+ " runs backwards")
      else Ok (low, high)
  | None => p ←? port s item; Ok (p, p)
  end.

Definition parse (s : string) : result PortSet string :=
  rs ←? try_map (range_of s) (split_on "," s);
  Ok (MkPortSet rs false).

Definition contains (ps : PortSet) (p : N) : bool :=
  any_port ps || existsb (λ r : N * N, bool_decide (r.1 ≤ p ≤ r.2)%N) (ranges ps).

Definition single (ps : PortSet) : option N :=
  match ranges ps with
  | [(lo, hi)] => if bool_decide (lo = hi) && negb (any_port ps) then Some lo else None
  | _ => None
  end.

Definition text (ps : PortSet) : string :=
  if any_port ps then "every port"
  else String.concat ","
         ((λ r : N * N, if bool_decide (r.1 = r.2) then dec r.1 else dec r.1 +:+ ":" +:+ dec r.2) <$> ranges ps).
End PortSet.

(** ** A host *)
Module Forward.
Section host.
Context {Svc : Type}.

(** Where a stream ends: a target to dial, or something in the process. *)
Inductive Sink := Dial (e : Scope.Entry) | Local (s : Svc).

Inductive Forward :=
  | FNone
  | FOne (sink : Sink)
  | FPorts (host : string) (ports : PortSet.PortSet)
  | FRelay.

Record HostConfig := MkHostConfig {
  service : string;
  default_entry : option Scope.Entry;
  scope : list Scope.Entry;
  services : list (string * Sink);
  max_sessions : nat;
  max_streams : nat;
  idle_timeout : N;
  direct : bool;
  hello_scope : bool;
  forward : Forward;
  caps : list string;
  accept : list Cidr.Cidr;
  publish_host_candidates : bool;
  stun_refresh : N;
  id_ufrag : string;
  id_pwd : string;
  id_fingerprint : bytes;
}.

Definition INVALID : N := 65.
Definition UNREACHABLE : N := 66.
Definition TIMEOUT : N := 67.
Definition REFUSED : N := 68.
Definition IDLE : N := 71.
Definition BLOCKED : N := 72.
Definition THROTTLED : N := 73.
Definition VOLUNTARY : N := 2.
Definition NETWORK_ERROR : N := 3.

(** [admitted]; a range's mask is in its width, as its parser saw to. *)
Definition admitted (ranges : list Cidr.Cidr) (ip : IpAddr) : bool :=
  bool_decide (ranges = []) || existsb (λ r, bool_decide (Cidr.contains r ip = Some true)) ranges.

Definition tcp_entry (host : string) (port : N) : Scope.Entry := Scope.MkEntry "tcp" host port.

(** Where a connection goes, or the reason it is closed. *)
Definition route (cfg : HostConfig) (host : string) (port : N) : result Sink N :=
  if str_is_empty host then
    match forward cfg with
    | FNone | FRelay => Err INVALID
    | FOne sink => Ok sink
    | FPorts h ports =>
        if bool_decide (port = 0)%N then
          match PortSet.single ports with
          | Some p => Ok (Dial (tcp_entry h p))
          | None => Err BLOCKED
          end
        else if PortSet.contains ports port then Ok (Dial (tcp_entry h port))
        else Err BLOCKED
    end
  else if bool_decide (port = 0)%N then
    match find_first (λ ns, bool_decide (ns.1 = host)) (services cfg) with
    | Some ns => Ok ns.2
    | None => Err BLOCKED
    end
  else
    match Scope.allows (scope cfg) host port with
    | Some entry => Ok (Dial entry)
    | None =>
        match forward cfg with
        | FPorts h ports =>
            if eq_ignore_ascii_case h host && PortSet.contains ports port then Ok (Dial (tcp_entry h port))
            else Err BLOCKED
        | _ => Err BLOCKED
        end
    end.

(** [hello]. *)
Definition entry_json (e : Scope.Entry) : Json :=
  JObject [("scheme", JString (Scope.scheme e)); ("host", JString (Scope.e_host e));
           ("port", JNumber (PosInt (Scope.port e)))].
Definition hello_json (cfg : HostConfig) : Json :=
  JObject
    ([("v", JNumber (PosInt 1)); ("t", JString "hello"); ("service", JString (service cfg));
      ("limits", JObject [("max_streams", JNumber (PosInt (N.of_nat (max_streams cfg))))]);
      ("scope", JArray (if hello_scope cfg then entry_json <$> scope cfg else []))]
     ++ (if hello_scope cfg then match default_entry cfg with Some d => [("default", entry_json d)] | None => [] end
         else [])
     ++ (if bool_decide (length (services cfg) = 0) then []
         else [("services", JArray ((λ ns, JString ns.1) <$> services cfg))])
     ++ (match forward cfg with FRelay => [("forwarding", JBool true)] | _ => [] end)
     ++ (if bool_decide (caps cfg = []) then [] else [("caps", JArray (JString <$> caps cfg))])
     ++ [("half_close", JBool true)]).
End host.

(** ** The dial: the addresses a name has, and what becomes of a connection
    to one. *)
Inductive Lookup := LookupTimeout | LookupFailed | Found (addrs : list SocketAddr).
Inductive Attempt := Connected | ConnectionRefused | ConnectError | ConnectTimeout.

Fixpoint dial_each (attempt : SocketAddr → Attempt) (last : N) (addrs : list SocketAddr) : result SocketAddr N :=
  match addrs with
  | [] => Err last
  | a :: addrs =>
      match attempt a with
      | Connected => Ok a
      | ConnectionRefused => dial_each attempt REFUSED addrs
      | ConnectError => dial_each attempt NETWORK_ERROR addrs
      | ConnectTimeout => dial_each attempt TIMEOUT addrs
      end
  end.

Definition dial (entry : Scope.Entry) (found : Lookup) (attempt : SocketAddr → Attempt) : result SocketAddr N :=
  match found with
  | LookupTimeout => Err TIMEOUT
  | LookupFailed => Err UNREACHABLE
  | Found addrs =>
      if bool_decide (addrs = []) then Err UNREACHABLE
      else
        let allowed := filter (λ a, Scope.resolved_ok entry (sa_ip a) = true) addrs in
        if bool_decide (allowed = []) then Err BLOCKED else dial_each attempt UNREACHABLE allowed
  end.
End Forward.
