(* ===== verification/Host.v ===== *)
(** * The host of sessions ([crates/drt-rtc/src/host.rs])

    One task owns the socket and every session; what reaches it (a datagram,
    a command, a message from a stream's tasks, the clock) is a step.  The
    connection itself (ICE, DTLS, SCTP) is a library's, the class below; what
    a step asks of anything else (an event reported, a task started, bytes
    for a stream's target) is an effect it leaves. *)

From stdpp Require Import gmap.
From S2P Require Import Prelude.
From S2P Require Import Bytes.
From S2P Require Import Canon.
From S2P Require Import Sign.
From S2P Require Import Reach.
From S2P Require Import Presence.
From S2P Require Import Forward.

(** ** The library *)

Inductive Channel := Control | WispChannel | OtherChannel (id : N).
#[export] Instance Channel_eq_dec : EqDecision Channel.
Proof. solve_decision. Defined.

Inductive RtcEvent :=
  | RtcConnected
  | IceDisconnected
  | ChannelOpen (ch : Channel)
  | ChannelData (ch : Channel) (data : bytes)
  | ChannelClose (ch : Channel)
  | BufferedAmountLow
  | RtcOther.

Inductive Output :=
  | OutTimeout (at_ : N)
  | OutTransmit (destination : SocketAddr) (contents : bytes)
  | OutEvent (e : RtcEvent).

(** A datagram as it arrived. *)
Record Datagram := MkDatagram { dg_source : SocketAddr; dg_contents : bytes }.

(** How a session is set up against its record. *)
Record Roles := MkRoles { verify_fingerprint : bool; calling : bool }.

(** One connection.  [rtc_new] is its making from this host's identity and
    candidate and the peer's record; [wisp_write] says whether the packet was
    taken. *)
Class Rtc (R : Type) := {
  rtc_new : Roles → Presence.Record_ → N → result R string;
  is_packet : bytes → bool;
  rtc_accepts : Datagram → R → bool;
  rtc_receive : N → Datagram → R → result unit string * R;
  rtc_timeout : N → R → result unit string * R;
  rtc_poll : R → result Output string * R;
  rtc_disconnect : R → R;
  control_write : bytes → R → R;
  wisp_threshold : N → R → R;
  wisp_write : bytes → R → bool * R;
  wisp_buffered : R → N;
}.

Module Host.
Import Forward.

Definition WISP_BUFFER : N := 128.
Definition HIGH_WATER : N := 96 * 1024.
Definition LOW_WATER : N := 32 * 1024.
Definition SETUP_DEADLINE : N := 30000.
Definition STUN_RETRY : N := 2000.
Definition TICK : N := 1000.
Definition DIRECT_UFRAG_LEN : nat * nat := (22, 32).

Inductive Command :=
  | Open (peer rtc : string)
  | Call (peer rtc : string)
  | Close (peer : string).

Inductive SessionState := SConnected | SClosed.
Inductive StreamState := StOpen | StClosed.

Inductive Event :=
  | ERecord (rtc : string)
  | ESession (peer : string) (state : SessionState) (reason : option string)
  | EStream (peer : string) (stream : N) (host : string) (port : N) (state : StreamState)
            (reason : option string) (bytes_up bytes_down : N).

(** A terminal's size. *)
Record Window := MkWindow { cols : N; rows : N }.
Definition no_window : Window := MkWindow 0 0.

Section session.
(** A sender of packets, a task's handle, an in-process service. *)
Context {Chan Task Svc : Type}.

(** What ends a task: a stream's own dial, or a task its dial started. *)
Inductive Handle := HDial (key stream : N) | HTask (t : Task).

(** What a stream's tasks, a relay's call and the resolver tell the loop. *)
Inductive Internal :=
  | StunServers (found : list SocketAddr)
  | IConnected (key stream : N) (to_tcp : Chan) (tasks : list Task)
  | Failed (key stream code : N)
  | TcpData (key stream : N) (bs : bytes)
  | Written (key stream : N)
  | TcpDone (key stream code : N)
  | RelayUp (key : N) (to : Chan) (hello : string)
  | RelayFailed (key : N) (why : string)
  | RelayPacket (key : N) (packet : bytes)
  | RelayDone (key : N)
  | Granted (key stream : N) (caps : list string).

(** What a step leaves for the rest of the program. *)
Inductive Effect :=
  | Report (e : Event)
  | Transmit (destination : SocketAddr) (contents : bytes)
  | Connect (key stream : N) (sink : Sink (Svc := Svc)) (host : string) (port : N)
  | Send (c : Chan) (bs : bytes)
  | DropSender (c : Chan)
  | Abort (t : Handle)
  | CallRelay (key : N) (to : string).

Record Stream := MkStream {
  st_host : string;
  st_port : N;
  window : Window;
  to_tcp : option Chan;
  early : list bytes;
  queued : N;
  written_since_continue : N;
  bytes_up : N;
  bytes_down : N;
  last_activity : N;
  tasks : list Handle;
  ended_in : bool;
  ended_out : bool;
}.

Inductive RelayState := RNone | Calling (waiting : list bytes) | Up (to : Chan).

Context {R : Type} `{RR : !Rtc R}.

Record Session := MkSession {
  s_key : N;
  s_peer : string;
  remote_ufrag : string;
  rtc : R;
  wisp_open : bool;
  connected : bool;
  created : N;
  timeout : N;
  outbox : list bytes;
  gate : bool;
  streams : gmap N Stream;
  dead : option string;
  relay : RelayState;
  peer_half_close : bool;
}.

(** Field updates. *)
Definition set_rtc (r : R) (s : Session) : Session :=
  MkSession (s_key s) (s_peer s) (remote_ufrag s) r (wisp_open s) (connected s) (created s) (timeout s) (outbox s)
    (gate s) (streams s) (dead s) (relay s) (peer_half_close s).
Definition set_wisp_open (b : bool) (s : Session) : Session :=
  MkSession (s_key s) (s_peer s) (remote_ufrag s) (rtc s) b (connected s) (created s) (timeout s) (outbox s)
    (gate s) (streams s) (dead s) (relay s) (peer_half_close s).
Definition set_connected (b : bool) (s : Session) : Session :=
  MkSession (s_key s) (s_peer s) (remote_ufrag s) (rtc s) (wisp_open s) b (created s) (timeout s) (outbox s)
    (gate s) (streams s) (dead s) (relay s) (peer_half_close s).
Definition set_timeout (t : N) (s : Session) : Session :=
  MkSession (s_key s) (s_peer s) (remote_ufrag s) (rtc s) (wisp_open s) (connected s) (created s) t (outbox s)
    (gate s) (streams s) (dead s) (relay s) (peer_half_close s).
Definition set_outbox (o : list bytes) (s : Session) : Session :=
  MkSession (s_key s) (s_peer s) (remote_ufrag s) (rtc s) (wisp_open s) (connected s) (created s) (timeout s) o
    (gate s) (streams s) (dead s) (relay s) (peer_half_close s).
Definition set_gate (b : bool) (s : Session) : Session :=
  MkSession (s_key s) (s_peer s) (remote_ufrag s) (rtc s) (wisp_open s) (connected s) (created s) (timeout s)
    (outbox s) b (streams s) (dead s) (relay s) (peer_half_close s).
Definition set_streams (m : gmap N Stream) (s : Session) : Session :=
  MkSession (s_key s) (s_peer s) (remote_ufrag s) (rtc s) (wisp_open s) (connected s) (created s) (timeout s)
    (outbox s) (gate s) m (dead s) (relay s) (peer_half_close s).
Definition set_dead (d : option string) (s : Session) : Session :=
  MkSession (s_key s) (s_peer s) (remote_ufrag s) (rtc s) (wisp_open s) (connected s) (created s) (timeout s)
    (outbox s) (gate s) (streams s) d (relay s) (peer_half_close s).
Definition set_relay (r : RelayState) (s : Session) : Session :=
  MkSession (s_key s) (s_peer s) (remote_ufrag s) (rtc s) (wisp_open s) (connected s) (created s) (timeout s)
    (outbox s) (gate s) (streams s) (dead s) r (peer_half_close s).
Definition set_half_close (b : bool) (s : Session) : Session :=
  MkSession (s_key s) (s_peer s) (remote_ufrag s) (rtc s) (wisp_open s) (connected s) (created s) (timeout s)
    (outbox s) (gate s) (streams s) (dead s) (relay s) b.

(** A step of a session: the session after it, and its effects in order. *)
Definition Act : Type := Session → Session * list Effect.
Definition done_ : Act := λ s, (s, []).
Definition upd (f : Session → Session) : Act := λ s, (f s, []).
Definition emit (e : Effect) : Act := λ s, (s, [e]).
Definition andthen (a b : Act) : Act := λ s,
  let '(s, o1) := a s in let '(s, o2) := b s in (s, o1 ++ o2).
Definition read (k : Session → Act) : Act := λ s, k s s.
Infix "▷" := andthen (at level 85, right associativity).

Definition report (e : Event) : Act := emit (Report e).
Definition push (pkt : bytes) : Act := upd (λ s, set_outbox (outbox s ++ [pkt]) s).


(** ** Streams *)

Definition live (f : Stream → Stream) (id : N) : Act := upd (λ s, set_streams (alter f id (streams s)) s).

(** Dropping a stream ends its tasks and its writer's sender. *)
Definition drop_stream (st : Stream) : list Effect :=
  (Abort <$> tasks st) ++ (match to_tcp st with Some c => [DropSender c] | None => [] end).

(** [flush]: the packets the library takes, in order; then the gate. *)
Fixpoint write_outbox (o : list bytes) (r : R) : list bytes * R :=
  match o with
  | [] => ([], r)
  | pkt :: o' => let '(ok, r') := wisp_write pkt r in if ok : bool then write_outbox o' r' else (o, r')
  end.

Definition flush : Act := upd (λ s,
  let s := if wisp_open s then let '(o, r) := write_outbox (outbox s) (rtc s) in set_rtc r (set_outbox o s)
           else s in
  let buffered := wisp_buffered (rtc s) in
  if gate s && (bool_decide (HIGH_WATER < buffered)%N || negb (bool_decide (outbox s = []))) then set_gate false s
  else if negb (gate s) && bool_decide (buffered < LOW_WATER)%N && bool_decide (outbox s = []) then set_gate true s
  else s).

(** [end]. *)
Definition end_ (reason : string) : Act := upd (λ s,
  set_rtc (rtc_disconnect (rtc s)) (match dead s with None => set_dead (Some reason) s | Some _ => s end)).

Definition closed_event (peer : string) (id : N) (st : Stream) (reason : string) : Event :=
  EStream peer id (st_host st) (st_port st) StClosed (Some reason) (bytes_up st) (bytes_down st).

Definition close_stream (id code : N) (tell_browser : bool) : Act := read (λ s,
  match streams s !! id with
  | None => done_
  | Some st =>
      upd (λ s, set_streams (delete id (streams s)) s)
      ▷ (if tell_browser then push (Wisp.close id code) else done_)
      ▷ report (closed_event (s_peer s) id st (Wisp.reason_name code))
      ▷ (λ s, (s, drop_stream st))
  end).

(** The streams end in the order the map drains them. *)
Definition close_all_streams (why : string) : Act := λ s,
  (set_streams ∅ s,
   mjoin ((λ kv : N * Stream, Report (closed_event (s_peer s) kv.1 kv.2 why) :: drop_stream kv.2)
            <$> map_to_list (streams s))).

Definition refuse (id : N) (host : string) (port code : N) : Act := read (λ s,
  push (Wisp.close id code)
  ▷ report (EStream (s_peer s) id host port StClosed (Some (Wisp.reason_name code)) 0 0)).

(** ** What the peer says *)

Section config.
Context `{JT : JsonText} `{JR : JsonRead} `{B64 : Base64}.
Context (cfg : HostConfig (Svc := Svc)).

Definition is_relay : bool := match forward cfg with FRelay => true | _ => false end.

(** [on_call]: once a session. *)
Definition on_call (to : string) : Act := read (λ s,
  match relay s with
  | RNone =>
      if is_relay && negb (str_is_empty to) then
        upd (set_relay (Calling [])) ▷ emit (CallRelay (s_key s) to)
      else done_
  | _ => done_
  end).

Definition json_at (k : string) (v : Json) : Json := default JNull (json_get k v).

Definition resize (id cols_ rows_ : N) : Act :=
  if bool_decide (id < 2 ^ 32)%N then
    live (λ st, MkStream (st_host st) (st_port st) (MkWindow (N.min cols_ 65535) (N.min rows_ 65535)) (to_tcp st)
                  (early st) (queued st) (written_since_continue st) (bytes_up st) (bytes_down st)
                  (last_activity st) (tasks st) (ended_in st) (ended_out st)) id
  else done_.

Definition json_from_slice (msg : bytes) : option Json :=
  t ← from_utf8 msg; match json_read t with Ok v => Some v | Err _ => None end.

Definition on_control (msg : bytes) : Act :=
  match json_from_slice msg with
  | None => done_
  | Some v =>
      match json_str (json_at "t" v) with
      | Some t =>
          if bool_decide (t = "call") then on_call (default "" (json_str (json_at "to" v)))
          else if bool_decide (t = "features") then
            upd (set_half_close (match json_at "half_close" v with JBool b => b | _ => false end))
          else if bool_decide (t = "resize") then
            match json_u64 (json_at "stream" v), json_u64 (json_at "cols" v), json_u64 (json_at "rows" v) with
            | Some id, Some c, Some r => resize id c r
            | _, _, _ => done_
            end
          else done_
      | None => done_
      end
  end.

Definition new_stream (key id : N) (host : string) (port now : N) : Stream :=
  MkStream host port no_window None [] 0 0 0 0 now [HDial key id] false false.

Definition on_connect (now id kind port : N) (host : bytes) : Act :=
  match from_utf8 host with
  | None => refuse id "" port INVALID
  | Some host =>
      if bool_decide (id = 0)%N
         || (bool_decide (port = 0)%N && negb (str_is_empty host) && negb (Scope.is_service_name host)) then
        refuse id host port INVALID
      else if str_is_empty host && match forward cfg with FNone => true | _ => false end then
        refuse id host port INVALID
      else read (λ s,
        match streams s !! id with
        | Some _ => close_stream id INVALID true ▷ refuse id host port INVALID
        | None =>
            if bool_decide (kind = Target.STREAM_UDP) then refuse id host port BLOCKED
            else if negb (bool_decide (kind = Target.STREAM_TCP)) then refuse id host port INVALID
            else if bool_decide (max_streams cfg ≤ size (streams s)) then refuse id host port THROTTLED
            else match route cfg host port with
                 | Err code => refuse id host port code
                 | Ok sink =>
                     emit (Connect (s_key s) id sink host port)
                     ▷ upd (λ s', set_streams (<[id := new_stream (s_key s) id host port now]> (streams s')) s')
                 end
        end)
  end.

(** A stream with one more packet of the peer's in its queue. *)
Definition took (now : N) (payload : bytes) (st : Stream) : Stream :=
  MkStream (st_host st) (st_port st) (window st) (to_tcp st) (early st) (queued st + 1) (written_since_continue st)
    (bytes_up st + N.of_nat (length payload)) (bytes_down st) now (tasks st) (ended_in st) (ended_out st).
Definition hold (payload : bytes) (st : Stream) : Stream :=
  MkStream (st_host st) (st_port st) (window st) (to_tcp st) (early st ++ [payload]) (queued st)
    (written_since_continue st) (bytes_up st) (bytes_down st) (last_activity st) (tasks st) (ended_in st)
    (ended_out st).
Definition end_in (now : N) (st : Stream) : Stream :=
  MkStream (st_host st) (st_port st) (window st) None (early st) (queued st) (written_since_continue st)
    (bytes_up st) (bytes_down st) now (tasks st) true (ended_out st).

Definition on_data (now id : N) (payload : bytes) : Act := read (λ s,
  match streams s !! id with
  | None => done_
  | Some st =>
      live (took now payload) id
      ▷ (if bool_decide (WISP_BUFFER < queued st + 1)%N then close_stream id THROTTLED true
         else match to_tcp st with
              | Some c => emit (Send c payload)
              | None => if ended_in st then done_ else live (hold payload) id
              end)
  end).

Definition on_end (now id : N) : Act := read (λ s,
  match streams s !! id with
  | None => done_
  | Some st =>
      live (end_in now) id
      ▷ (match to_tcp st with Some c => emit (DropSender c) | None => done_ end)
      ▷ (if ended_out st then close_stream id VOLUNTARY true else done_)
  end).

Definition on_wisp (now : N) (msg : bytes) : Act := read (λ s,
  if is_relay then
    match relay s with
    | Up to => emit (Send to msg)
    | Calling waiting => upd (set_relay (Calling (waiting ++ [msg])))
    | RNone =>
        match Wisp.parse msg with
        | Some (Wisp.Connect id _ _ _) => refuse id "" 0 BLOCKED
        | _ => done_
        end
    end
  else
    match Wisp.parse msg with
    | Some (Wisp.Connect id kind port host) => on_connect now id kind port host
    | Some (Wisp.Malformed kind id) => if bool_decide (kind = Wisp.CONNECT) then refuse id "" 0 INVALID else done_
    | Some (Wisp.Data id payload) => on_data now id payload
    | Some (Wisp.Close id code) => close_stream id code false
    | Some (Wisp.End_ id) => on_end now id
    | _ => done_
    end).

(** ** What a stream's tasks say *)

Definition told (fields : list (string * Json)) : bytes := as_bytes (write_canonical (JObject fields)).
Definition tell (msg : bytes) : Act := upd (λ s, set_rtc (control_write msg (rtc s)) s).

(** A stream whose target answered: what was held goes out, and its writer
    is kept unless the peer has ended. *)
Definition connect_stream (now : N) (c : Chan) (ts : list Task) (st : Stream) : Stream :=
  MkStream (st_host st) (st_port st) (window st) (if ended_in st then to_tcp st else Some c) [] (queued st)
    (written_since_continue st) (bytes_up st) (bytes_down st) now (tasks st ++ (HTask <$> ts)) (ended_in st) (ended_out st).

Definition on_connected (now id : N) (c : Chan) (ts : list Task) : Act := read (λ s,
  match streams s !! id with
  | None => λ s, (s, (Abort ∘ HTask <$> ts) ++ [DropSender c])
  | Some st =>
      (λ s, (s, Send c <$> early st))
      ▷ (match to_tcp st with Some old => if ended_in st then done_ else emit (DropSender old) | None => done_ end)
      ▷ live (connect_stream now c ts) id
      ▷ report (EStream (s_peer s) id (st_host st) (st_port st) StOpen None 0 0)
      ▷ (if ended_in st then emit (DropSender c) else done_)
      ▷ flush
  end).

Definition end_out (now : N) (st : Stream) : Stream :=
  MkStream (st_host st) (st_port st) (window st) (to_tcp st) (early st) (queued st) (written_since_continue st)
    (bytes_up st) (bytes_down st) now (tasks st) (ended_in st) true.

Definition on_tcp_done (now id code : N) : Act := read (λ s,
  match streams s !! id with
  | Some st =>
      if bool_decide (code = VOLUNTARY) && peer_half_close s && negb (ended_out st) then
        live (end_out now) id
        ▷ push (Wisp.end_ id)
        ▷ (if ended_in st then close_stream id VOLUNTARY true else done_)
      else close_stream id code true
  | None => done_
  end) ▷ flush.

Definition downed (now : N) (bs : bytes) (st : Stream) : Stream :=
  MkStream (st_host st) (st_port st) (window st) (to_tcp st) (early st) (queued st) (written_since_continue st)
    (bytes_up st) (bytes_down st + N.of_nat (length bs)) now (tasks st) (ended_in st) (ended_out st).

Definition wrote (queued_ written : N) (st : Stream) : Stream :=
  MkStream (st_host st) (st_port st) (window st) (to_tcp st) (early st) queued_ written (bytes_up st)
    (bytes_down st) (last_activity st) (tasks st) (ended_in st) (ended_out st).

(** One packet written; half a buffer of them is granted back. *)
Definition on_written (id : N) : Act := read (λ s,
  match streams s !! id with
  | None => done_
  | Some st =>
      let q := (queued st - 1)%N in
      let w := (written_since_continue st + 1)%N in
      (if bool_decide (WISP_BUFFER / 2 ≤ w)%N then live (wrote q 0) id ▷ push (Wisp.cont id (WISP_BUFFER - q))
       else live (wrote q w) id)
      ▷ flush
  end).

Definition on_internal (now : N) (i : Internal) : Act :=
  match i with
  | StunServers _ => flush
  | IConnected _ id c ts => on_connected now id c ts
  | TcpDone _ id code => on_tcp_done now id code
  | Written _ id => on_written id
  | Failed _ id code => close_stream id code true ▷ flush
  | TcpData _ id bs => read (λ s,
      match streams s !! id with
      | None => done_
      | Some _ => live (downed now bs) id ▷ push (Wisp.data id bs) ▷ flush
      end)
  | RelayUp _ to hello =>
      read (λ s, let waiting := match relay s with Calling w => w | _ => [] end in
        upd (set_relay (Up to))
        ▷ (match relay s with Up old => emit (DropSender old) | _ => done_ end)
        ▷ (λ s, (s, Send to <$> waiting)))
      ▷ tell (told [("t", JString "called"); ("hello", JString hello)])
      ▷ flush
  | RelayFailed _ why =>
      tell (told [("t", JString "failed"); ("why", JString why)])
      ▷ end_ ("the destination could not be reached: " +:+ why)
      ▷ flush
  | RelayPacket _ packet => push packet ▷ flush
  | RelayDone _ => end_ "the destination's session ended" ▷ flush
  | Granted _ id caps =>
      read (λ s,
        match streams s !! id with
        | Some _ => tell (told [("t", JString "granted"); ("stream", JNumber (PosInt id));
                                ("caps", JArray (JString <$> caps))])
        | None => done_
        end)
      ▷ flush
  end.

(** ** What the library says, and the clock *)

Definition on_rtc_event (now : N) (e : RtcEvent) : Act :=
  match e with
  | RtcConnected => upd (set_connected true) ▷ read (λ s, report (ESession (s_peer s) SConnected None))
  | IceDisconnected => end_ "ice disconnected"
  | ChannelOpen Control => tell (as_bytes (write_canonical (hello_json cfg)))
  | ChannelOpen WispChannel =>
      upd (λ s, set_rtc (wisp_threshold LOW_WATER (rtc s)) (set_wisp_open true s)) ▷ push (Wisp.cont 0 WISP_BUFFER)
  | ChannelData WispChannel data => on_wisp now data
  | ChannelData Control data => on_control data
  | ChannelClose WispChannel | ChannelClose Control => end_ "a data channel closed"
  | BufferedAmountLow => flush
  | _ => done_
  end.

Fixpoint in_turn (l : list Act) : Act :=
  match l with [] => done_ | a :: l => a ▷ in_turn l end.

(** What the library has to say before it next waits. *)
Fixpoint poll_all (fuel : nat) (events : list RtcEvent) (s : Session) :
    option (Session * list Effect * option (list RtcEvent)) :=
  match fuel with
  | 0 => None
  | S fuel =>
      match rtc_poll (rtc s) with
      | (Ok (OutTimeout t), r) => Some (set_timeout t (set_rtc r s), [], Some events)
      | (Ok (OutTransmit dest bs), r) =>
          '(s, o, ev) ← poll_all fuel events (set_rtc r s); Some (s, Transmit dest bs :: o, ev)
      | (Ok (OutEvent e), r) => poll_all fuel (events ++ [e]) (set_rtc r s)
      | (Err e, r) => let '(s, o) := end_ ("rtc: " +:+ e) (set_rtc r s) in Some (s, o, None)
      end
  end.

(** [drive]; [None] when the fuel of a loop runs out. *)
Fixpoint drive (fuel : nat) (now : N) (s : Session) : option (Session * list Effect) :=
  match fuel with
  | 0 => None
  | S fuel' =>
      '(s, o, ev) ← poll_all fuel [] s;
      match ev with
      | None | Some [] => Some (s, o)
      | Some events =>
          let '(s, o1) := (in_turn (on_rtc_event now <$> events) ▷ flush) s in
          '(s, o2) ← drive fuel' now s;
          Some (s, o ++ o1 ++ o2)
      end
  end.

Definition input_timeout (now : N) : Act := λ s,
  match rtc_timeout now (rtc s) with
  | (Ok _, r) => (set_rtc r s, [])
  | (Err e, r) => end_ ("rtc: " +:+ e) (set_rtc r s)
  end.

Definition stale (now idle : N) (s : Session) : list N :=
  (filter (λ kv : N * Stream, (idle < now - last_activity kv.2)%N) (map_to_list (streams s))).*1.

Definition housekeep (now idle : N) : Act := read (λ s,
  if negb (connected s) && bool_decide (SETUP_DEADLINE < now - created s)%N then end_ "never connected"
  else in_turn ((λ id, close_stream id IDLE true) <$> stale now idle s) ▷ flush).

(** [Session::new]. *)
Definition new_session (key : N) (peer : string) (record : Presence.Record_) (now : N) (roles : Roles) :
    result Session string :=
  r ←? rtc_new roles record now;
  Ok (MkSession key peer (Presence.ufrag record) r false false now now [] true ∅ None RNone false).

(** ** The loop *)

Definition addr_key (a : SocketAddr) : N * N * N :=
  match sa_ip a with V4 n => (4, n, sa_port a)%N | V6 n => (6, n, sa_port a)%N end.
Definition key_lt (a b : N * N * N) : bool :=
  let '(a1, a2, a3) := a in
  let '(b1, b2, b3) := b in
  bool_decide (a1 < b1)%N
  || bool_decide (a1 = b1) && (bool_decide (a2 < b2)%N || bool_decide (a2 = b2) && bool_decide (a3 < b3)%N).

Record Loop := MkLoop {
  sessions : list Session;
  next_key : N;
  stun_servers : list SocketAddr;
  stun_pending : list (bytes * (SocketAddr * N));
  mapped : list (SocketAddr * SocketAddr);
  next_stun : N;
  next_tick : N;
  last_record : option string;
}.

(** The STUN messages, and the candidate lines the library writes. *)
Context (stun_request : bytes → bytes) (stun_success : bytes → option (bytes * SocketAddr)).
Context (base : SocketAddr) (host_candidate : string) (server_reflexive : SocketAddr → option string).

Definition set_sessions (l : list Session) (h : Loop) : Loop :=
  MkLoop l (next_key h) (stun_servers h) (stun_pending h) (mapped h) (next_stun h) (next_tick h) (last_record h).

(** A step of the first session that satisfies a predicate. *)
Fixpoint first_session (p : Session → bool) (a : Act) (l : list Session) : option (list Session * list Effect) :=
  match l with
  | [] => None
  | s :: l =>
      if p s then let '(s, o) := a s in Some (s :: l, o)
      else '(l, o) ← first_session p a l; Some (s :: l, o)
  end.

Definition with_session (p : Session → bool) (a : Act) (h : Loop) : option (Loop * list Effect) :=
  '(l, o) ← first_session p a (sessions h); Some (set_sessions l h, o).

Fixpoint every_session (a : Act) (l : list Session) : list Session * list Effect :=
  match l with
  | [] => ([], [])
  | s :: l => let '(s, o1) := a s in let '(l, o2) := every_session a l in (s :: l, o1 ++ o2)
  end.

Definition refused (peer reason : string) : list Effect := [Report (ESession peer SClosed (Some reason))].

(** [open]. *)
Definition open (now : N) (peer rtc : string) (calling : bool) (h : Loop) : Loop * list Effect :=
  match Presence.decode rtc with
  | Err e => (h, refused peer (Presence.error_text e))
  | Ok record =>
      if bool_decide (max_sessions cfg ≤ length (sessions h)) then
        (h, refused peer "busy: the session cap is reached")
      else if existsb (λ s, bool_decide (s_peer s = peer)
                            || bool_decide (remote_ufrag s = Presence.ufrag record)) (sessions h) then
        (h, refused peer "duplicate: that peer or ufrag already has a session")
      else
        let key := (next_key h + 1)%N in
        let h := MkLoop (sessions h) key (stun_servers h) (stun_pending h) (mapped h) (next_stun h) (next_tick h)
                   (last_record h) in
        match new_session key peer record now (MkRoles true calling) with
        | Ok s => (set_sessions (sessions h ++ [s]) h, [])
        | Err e => (h, refused peer e)
        end
  end.

Definition on_command (now : N) (c : Command) (h : Loop) : Loop * list Effect :=
  match c with
  | Open peer rtc => open now peer rtc false h
  | Call peer rtc => open now peer rtc true h
  | Close peer => default (h, []) (with_session (λ s, bool_decide (s_peer s = peer)) (end_ "closed by the program") h)
  end.

(** [direct_ufrag]: the attributes of a binding request. *)
Definition u16_at (buf : bytes) (i : nat) : option N :=
  match take 2 (drop i buf) with [a; b] => Some (from_be [a; b]) | _ => None end.
Definition slice (buf : bytes) (i n : nat) : option bytes :=
  if bool_decide (i + n ≤ length buf) then Some (take n (drop i buf)) else None.
Definition MAGIC_COOKIE : bytes := of_byte <$> [33; 18; 164; 66]%N.
Definition USERNAME : N := 6.

Fixpoint find_username (fuel at_ : nat) (buf : bytes) (host_ufrag : string) : option string :=
  match fuel with
  | 0 => None
  | S fuel =>
      if bool_decide (length buf < at_ + 4) then None
      else
        kind ← u16_at buf at_;
        len ← N.to_nat <$> u16_at buf (at_ + 2);
        value ← slice buf (at_ + 4) len;
        if bool_decide (kind = USERNAME) then
          t ← from_utf8 value;
          '(host, browser) ← split_once ":" t;
          if bool_decide (host = host_ufrag) && Presence.within DIRECT_UFRAG_LEN browser
             && all_bytes Presence.ice_char browser then Some browser else None
        else find_username fuel (at_ + 4 + (len + 3) / 4 * 4) buf host_ufrag
  end.

Definition direct_ufrag (buf : bytes) (host_ufrag : string) : option string :=
  kind ← u16_at buf 0;
  if negb (bool_decide (kind = 1)%N) then None
  else
    cookie ← slice buf 4 4;
    if negb (bool_decide (cookie = MAGIC_COOKIE)) then None
    else
      len ← u16_at buf 2;
      if negb (bool_decide (20 + N.to_nat len = length buf)) then None
      else find_username (length buf) 20 buf host_ufrag.

Definition receive (now : N) (d : Datagram) : Act := λ s,
  match rtc_receive now d (rtc s) with
  | (Ok _, r) => (set_rtc r s, [])
  | (Err e, r) => end_ ("rtc: " +:+ e) (set_rtc r s)
  end.

Definition direct_session (now : N) (d : Datagram) (h : Loop) : Loop * list Effect :=
  match direct_ufrag (dg_contents d) (id_ufrag cfg) with
  | None => (h, [])
  | Some remote =>
      if bool_decide (max_sessions cfg ≤ length (sessions h))
         || existsb (λ s, bool_decide (remote_ufrag s = remote)) (sessions h) then (h, [])
      else
        let record := Presence.MkRecord remote remote (replicate 32 (of_byte 0)) [] in
        match new_session (next_key h + 1) ("direct:" +:+ remote) record now (MkRoles false false) with
        | Err _ => (h, [])
        | Ok s =>
            if negb (rtc_accepts d (rtc s)) then (h, [])
            else
              let '(s, o) := receive now d s in
              (MkLoop (sessions h ++ [s]) (next_key h + 1) (stun_servers h) (stun_pending h) (mapped h)
                 (next_stun h) (next_tick h) (last_record h), o)
        end
  end.

Context (ip_text : IpAddr → string).

(** [publish_record]. *)
Definition split_raddr (line : string) : string :=
  match Scope.split_text " raddr " line with Some (head, _) => head | None => line end.
Definition srflx_line (line : string) (addr : SocketAddr) : string :=
  split_raddr line +:+ " raddr " +:+ (if is_ipv4 (sa_ip addr) then "0.0.0.0" else "::") +:+ " rport 0".

Fixpoint reflexive_lines (seen : list SocketAddr) (addrs : list SocketAddr) : list string :=
  match addrs with
  | [] => []
  | addr :: addrs =>
      if bool_decide (addr = base) || bool_decide (addr ∈ seen) then reflexive_lines seen addrs
      else match server_reflexive addr with
           | Some line => srflx_line line addr :: reflexive_lines (seen ++ [addr]) addrs
           | None => reflexive_lines (seen ++ [addr]) addrs
           end
  end.

Definition publish_record (h : Loop) : Loop * list Effect :=
  let candidates := (if publish_host_candidates cfg then [host_candidate] else [])
                    ++ reflexive_lines [] (mapped h).*2 in
  let record := Presence.MkRecord (id_ufrag cfg) (id_pwd cfg) (id_fingerprint cfg)
                  (take Presence.MAX_CANDIDATES candidates) in
  match Presence.encode record with
  | Err _ => (h, [])
  | Ok rtc =>
      if bool_decide (last_record h = Some rtc) then (h, [])
      else (MkLoop (sessions h) (next_key h) (stun_servers h) (stun_pending h) (mapped h) (next_stun h) (next_tick h)
              (Some rtc), [Report (ERecord rtc)])
  end.

(** A server's mapping, in the order of the servers' addresses. *)
Fixpoint insert_mapped (k v : SocketAddr) (m : list (SocketAddr * SocketAddr)) : list (SocketAddr * SocketAddr) :=
  match m with
  | [] => [(k, v)]
  | (k', v') :: m' =>
      if bool_decide (k = k') then (k, v) :: m'
      else if key_lt (addr_key k) (addr_key k') then (k, v) :: m
      else (k', v') :: insert_mapped k v m'
  end.

Definition stun_answer (buf : bytes) (h : Loop) : option (Loop * list Effect) :=
  '(txid, m) ← stun_success buf;
  p ← find_first (λ p, bool_decide (p.1 = txid)) (stun_pending h);
  Some (publish_record
    (MkLoop (sessions h) (next_key h) (stun_servers h) (filter (λ p, p.1 ≠ txid) (stun_pending h))
       (insert_mapped p.2.1 m (mapped h)) (next_stun h) (next_tick h) (last_record h))).

(** [ask_stun], with the transaction ids it draws. *)
Definition ask_stun (now : N) (txids : list bytes) (h : Loop) : Loop * list Effect :=
  let asked := zip txids (stun_servers h) in
  (MkLoop (sessions h) (next_key h) (stun_servers h)
     (filter (λ p : bytes * (SocketAddr * N), (now - p.2.2 < N.max STUN_RETRY (stun_refresh cfg))%N) (stun_pending h)
      ++ ((λ ts : bytes * SocketAddr, (ts.1, (ts.2, now))) <$> asked))
     (mapped h) (now + (if bool_decide (mapped h = []) then STUN_RETRY else stun_refresh cfg)) (next_tick h)
     (last_record h),
   (λ ts : bytes * SocketAddr, Transmit ts.2 (stun_request ts.1)) <$> asked).

(** [on_datagram]. *)
Definition not_admitted (ip : IpAddr) : string := "address " +:+ ip_text ip +:+ " is not admitted".

Definition on_datagram (now : N) (buf : bytes) (source : SocketAddr) (h : Loop) : Loop * list Effect :=
  match stun_answer buf h with
  | Some r => r
  | None =>
      if negb (is_packet buf) then (h, [])
      else
        let d := MkDatagram source buf in
        let ok := admitted (accept cfg) (sa_ip source) in
        match with_session (λ s, rtc_accepts d (rtc s))
                (if ok then receive now d else end_ (not_admitted (sa_ip source))) h with
        | Some r => r
        | None => if direct cfg && ok then direct_session now d h else (h, [])
        end
  end.

Definition key_of (i : Internal) : option N :=
  match i with
  | StunServers _ => None
  | IConnected k _ _ _ | Failed k _ _ | TcpData k _ _ | Written k _ | TcpDone k _ _ | RelayUp k _ _
  | RelayFailed k _ | RelayPacket k _ | RelayDone k | Granted k _ _ => Some k
  end.

Definition loop_internal (now : N) (i : Internal) (h : Loop) : Loop * list Effect :=
  match i, key_of i with
  | StunServers found, _ =>
      (MkLoop (sessions h) (next_key h) found (stun_pending h) (mapped h) now (next_tick h) (last_record h), [])
  | _, None => (h, [])
  | _, Some key =>
      match with_session (λ s, bool_decide (s_key s = key)) (on_internal now i) h with
      | Some r => r
      | None => match i with
                | IConnected _ _ c ts => (h, (Abort ∘ HTask <$> ts) ++ [DropSender c])
                | RelayUp _ to _ => (h, [DropSender to])
                | _ => (h, [])
                end
      end
  end.

(** [reap]. *)
Definition reap_session (s : Session) : option (list Effect) :=
  match dead s with
  | None => None
  | Some reason =>
      let '(s, o) := close_all_streams "session_closed" s in
      Some (o ++ [Report (ESession (s_peer s) SClosed (Some reason))]
            ++ match relay s with Up to => [DropSender to] | _ => [] end)
  end.

Fixpoint reap (l : list Session) : list Session * list Effect :=
  match l with
  | [] => ([], [])
  | s :: l =>
      let '(l, o) := reap l in
      match reap_session s with Some o1 => (l, o1 ++ o) | None => (s :: l, o) end
  end.

(** [on_time]. *)
Definition on_time (now : N) (txids : list bytes) (h : Loop) : Loop * list Effect :=
  let '(l, o1) := every_session (λ s, if bool_decide (timeout s ≤ now)%N then input_timeout now s else (s, []))
                    (sessions h) in
  let h := set_sessions l h in
  let '(h, o2) :=
    if bool_decide (next_tick h ≤ now)%N then
      let '(l, o) := every_session (housekeep now (idle_timeout cfg)) (sessions h) in
      (MkLoop l (next_key h) (stun_servers h) (stun_pending h) (mapped h) (next_stun h) (now + TICK) (last_record h), o)
    else (h, []) in
  let '(h, o3) := if negb (bool_decide (stun_servers h = [])) && bool_decide (next_stun h ≤ now)%N then
                    ask_stun now txids h else (h, []) in
  (h, o1 ++ o2 ++ o3).

(** The loop as [Host::start] makes it. *)
Definition start (now : N) : Loop * list Effect :=
  publish_record (MkLoop [] 0 [] [] [] now (now + TICK) None).

(** What wakes the loop. *)
Inductive Wake :=
  | WDatagram (buf : bytes) (source : SocketAddr)
  | WCommand (c : Command)
  | WInternal (i : Internal)
  | WDeadline.

Definition on_wake (now : N) (w : Wake) (h : Loop) : Loop * list Effect :=
  match w with
  | WDatagram buf source => on_datagram now buf source h
  | WCommand c => on_command now c h
  | WInternal i => loop_internal now i h
  | WDeadline => (h, [])
  end.

Fixpoint drive_all (fuel : nat) (now : N) (l : list Session) : option (list Session * list Effect) :=
  match l with
  | [] => Some ([], [])
  | s :: l =>
      '(s, o1) ← drive fuel now s;
      '(l, o2) ← drive_all fuel now l;
      Some (s :: l, o1 ++ o2)
  end.

(** One turn of [run]: every session is driven, the dead are reaped, and
    what woke the loop is handled. *)
Definition turn (fuel : nat) (now : N) (txids : list bytes) (w : Wake) (h : Loop) : option (Loop * list Effect) :=
  '(l, o1) ← drive_all fuel now (sessions h);
  let '(l, o2) := reap l in
  let '(h, o3) := on_wake now w (set_sessions l h) in
  let '(h, o4) := on_time now txids h in
  Some (h, o1 ++ o2 ++ o3 ++ o4).

(** The loops a host comes to, with all the effects so far. *)
Inductive runs : Loop → list Effect → Prop :=
  | runs_start now : runs (start now).1 (start now).2
  | runs_turn h o fuel now txids w h' o' :
      runs h o → turn fuel now txids w h = Some (h', o') → runs h' (o ++ o').

End config.
End session.
End Host.
