(* ===== verification/HostSpec.v ===== *)
(** * What a host keeps, whatever a peer sends

    Its sessions, their streams and the queue of each are bounded, and
    nothing is connected to that the configuration does not route to: an
    invariant of the loop's turns, for any library and any messages.

    ** What a session reaches, and who reaches a session

    Every connection a host makes is one its configuration grants, dialled at
    an address the entry allows; a datagram from outside the ranges it admits
    is never handed to a session; and a host that does not publish its scope
    says nothing that depends on it. *)

From stdpp Require Import gmap.
From S2P Require Import Prelude.
From S2P Require Import Bytes.
From S2P Require Import Node.
From S2P Require Import Canon.
From S2P Require Import Sign.
From S2P Require Import Reach.
From S2P Require Import Presence.
From S2P Require Import Forward.
From S2P Require Import Host.

Module HostFacts.
Import Forward Host.

Section facts.
Context {Chan Task Svc R : Type} `{RR : !Rtc R}.
Context `{JT : JsonText} `{JR : JsonRead} `{B64 : Base64}.
Context (cfg : HostConfig (Svc := Svc)).
Implicit Types (s : Session (Chan := Chan) (Task := Task) (R := R)) (st : Stream (Chan := Chan) (Task := Task)).
Implicit Types (a b : Act (Chan := Chan) (Task := Task) (Svc := Svc) (R := R)).

(** ** One session *)

(** A stream is one the configuration routes, and its queue is inside the
    credit that was granted for it. *)
Definition stream_ok (id : N) st : Prop :=
  id ≠ 0%N ∧ is_ok (route cfg (st_host st) (st_port st)) = true ∧ (queued st ≤ WISP_BUFFER)%N
  ∧ (written_since_continue st < WISP_BUFFER / 2)%N ∧ (to_tcp st ≠ None → early st = [] ∧ ended_in st = false).

Definition session_ok (key : N) (peer ufrag : string) s : Prop :=
  s_key s = key ∧ s_peer s = peer ∧ remote_ufrag s = ufrag
  ∧ size (streams s) ≤ max_streams cfg ∧ map_Forall stream_ok (streams s).

(** What is connected is what the configuration routes to. *)
Definition effect_ok (e : Effect (Chan := Chan) (Task := Task) (Svc := Svc)) : Prop :=
  match e with Connect _ id sink host port => id ≠ 0%N ∧ route cfg host port = Ok sink | _ => True end.

Section keeps.
Context (key : N) (peer ufrag : string).

(** A step that keeps a session so. *)
Definition keeps_at a s : Prop :=
  session_ok key peer ufrag s → session_ok key peer ufrag (a s).1 ∧ Forall effect_ok (a s).2.
Definition keeps a : Prop := ∀ s, keeps_at a s.

Lemma keeps_at_andthen a b s : keeps_at a s → keeps_at b (a s).1 → keeps_at (andthen a b) s.
Proof.
  unfold keeps_at, andthen. intros Ha Hb Hs. destruct (a s) as [s1 o1]. destruct (Ha Hs) as [H1 Q1].
  destruct (Hb H1) as [H2 Q2]. simpl in *. destruct (b s1) as [s2 o2]. split; [done|]. by apply Forall_app.
Qed.

Lemma keeps_andthen a b : keeps a → keeps b → keeps (andthen a b).
Proof. intros Ha Hb s. by apply keeps_at_andthen. Qed.
Lemma keeps_read k : (∀ s, keeps_at (k s) s) → keeps (read k).
Proof. intros Hk s. apply Hk. Qed.
Lemma keeps_done : keeps done_.
Proof. by intros s Hs. Qed.
Lemma keeps_upd f :
  (∀ s, session_ok key peer ufrag s → session_ok key peer ufrag (f s)) → keeps (upd f).
Proof. intros Hf s Hs. split; [by apply Hf|constructor]. Qed.
Lemma keeps_effect e : effect_ok e → keeps (emit e).
Proof. intros He s Hs. split; [done|by repeat constructor]. Qed.
Lemma keeps_effects l : Forall effect_ok l → keeps (λ s, (s, l)).
Proof. by intros Hl s Hs. Qed.
Lemma keeps_in_turn l : Forall keeps l → keeps (in_turn l).
Proof. induction 1; [apply keeps_done|by apply keeps_andthen]. Qed.

(** The streams of a session. *)
Lemma keeps_live f id : (∀ st, stream_ok id st → stream_ok id (f st)) → keeps (live f id).
Proof.
  intros Hf. apply keeps_upd. intros s (? & ? & ? & Hn & Hall). unfold session_ok. cbn.
  split_and!; [done..| |].
  - rewrite <- size_dom, dom_alter_L, size_dom. done.
  - intros j st Hj. destruct (decide (id = j)) as [<-|Hne].
    + rewrite lookup_alter_eq in Hj. destruct (streams s !! id) as [st0|] eqn:E; [|done].
      injection Hj as <-. by apply Hf, Hall.
    + rewrite lookup_alter_ne in Hj by done. by apply Hall.
Qed.

Lemma keeps_delete id : keeps (upd (λ s, set_streams (delete id (streams s)) s)).
Proof.
  apply keeps_upd. intros s (? & ? & ? & Hn & Hall). unfold session_ok. cbn. split_and!; [done..| |].
  - pose proof (map_size_delete id (streams s)) as Hd. 
    destruct (streams s !! id); (etrans; [apply Nat.eq_le_incl, Hd|]); [etrans; [apply Nat.le_pred_l|]|]; exact Hn.
  - by apply map_Forall_delete.
Qed.

Lemma keeps_same f :
  (∀ s, s_key (f s) = s_key s ∧ s_peer (f s) = s_peer s ∧ remote_ufrag (f s) = remote_ufrag s
        ∧ streams (f s) = streams s) → keeps (upd f).
Proof.
  intros Hf. apply keeps_upd. intros s Hs. destruct (Hf s) as (H1 & H2 & H3 & H4).
  unfold session_ok. by rewrite H1, H2, H3, H4.
Qed.

Lemma keeps_push pkt : keeps (push pkt).
Proof. by apply keeps_same. Qed.
Lemma keeps_report e : keeps (report e).
Proof. by apply keeps_effect. Qed.
Lemma keeps_tell msg : keeps (tell msg).
Proof. by apply keeps_same. Qed.
Lemma keeps_end why : keeps (end_ why).
Proof. apply keeps_same. intros s. cbn. by destruct (dead s). Qed.
Lemma keeps_flush : keeps flush.
Proof.
  apply keeps_same. intros s. destruct (wisp_open s); [destruct (write_outbox _ _) as [o r]|];
    cbn; repeat case_match; done.
Qed.

Lemma drop_ok st : Forall effect_ok (drop_stream st : list (Effect (Svc := Svc))).
Proof.
  apply Forall_app. split; [apply Forall_fmap, Forall_true; done|]. destruct (to_tcp st); by repeat constructor.
Qed.

Lemma keeps_close id code tell_ : keeps (close_stream id code tell_).
Proof.
  apply keeps_read. intros s. destruct (streams s !! id) as [st|]; [|apply keeps_done].
  apply keeps_andthen; [apply keeps_delete|].
  apply keeps_andthen; [destruct tell_; [apply keeps_push|apply keeps_done]|].
  apply keeps_andthen; [apply keeps_report|apply keeps_effects, drop_ok].
Qed.

Lemma keeps_refuse id host port code : keeps (refuse id host port code).
Proof. apply keeps_read. intros s. apply keeps_andthen; [apply keeps_push|apply keeps_report]. Qed.

(** A stream that is changed and closed at once. *)
Lemma live_close f id code tell_ s :
  andthen (live f id) (close_stream id code tell_) s
  = match streams s !! id with
    | Some st =>
        andthen (if tell_ then push (Wisp.close id code) else done_)
          (andthen (report (closed_event (s_peer s) id (f st) (Wisp.reason_name code)))
             (λ s, (s, drop_stream (f st)))) (set_streams (delete id (streams s)) s)
    | None => (s, [] : list (Effect (Svc := Svc)))
    end.
Proof.
  unfold andthen at 1, live, upd at 1, close_stream, read. cbn [streams set_streams].
  rewrite lookup_alter_eq. destruct (streams s !! id) as [st|] eqn:E; cbn [fmap option_fmap option_map].
  - assert (Hd : delete id (alter f id (streams s)) = delete id (streams s)).
    { apply map_eq. intros j. destruct (decide (id = j)) as [<-|Hne]; [by rewrite !lookup_delete_eq|].
      by rewrite !lookup_delete_ne, lookup_alter_ne. }
    unfold andthen at 1, upd at 1. cbn [streams set_streams]. rewrite Hd. by destruct tell_.
  - assert (alter f id (streams s) = streams s) as ->; [|by destruct s].
    apply map_eq. intros j. destruct (decide (id = j)) as [<-|]; [by rewrite lookup_alter_eq, E|by rewrite lookup_alter_ne].
Qed.

Lemma keeps_live_close f id code tell_ : keeps (andthen (live f id) (close_stream id code tell_)).
Proof.
  intros s Hs. rewrite live_close. destruct (streams s !! id) as [st|]; [|by split].
  apply keeps_andthen; [destruct tell_; [apply keeps_push|apply keeps_done]| |].
  - apply keeps_andthen; [apply keeps_report|apply keeps_effects, drop_ok].
  - by destruct (keeps_delete id s Hs).
Qed.

(** ** What the peer says *)

Ltac keep := repeat first
  [ apply keeps_done | apply keeps_push | apply keeps_report | apply keeps_tell | apply keeps_end | apply keeps_flush
  | apply keeps_close | apply keeps_refuse | apply keeps_live_close | apply keeps_andthen
  | apply keeps_effects, drop_ok | apply keeps_same; done | case_match ].

Lemma keeps_control msg : keeps (on_control cfg msg).
Proof.
  unfold on_control. destruct (json_from_slice msg) as [v|]; [|keep].
  destruct (json_str (json_at "t" v)) as [t|]; [|keep].
  case_bool_decide; [|case_bool_decide; [|case_bool_decide; [|keep]]].
  - apply keeps_read. intros s. unfold on_call. destruct (relay s); [|keep..].
    destruct (is_relay cfg && _); [|keep]. apply keeps_andthen; [by apply keeps_same|by apply keeps_effect].
  - keep.
  - repeat (case_match; [|apply keeps_done]). unfold resize. case_bool_decide; [|keep].
    apply keeps_live. by intros st Hst.
Qed.

Lemma keeps_insert id st :
  stream_ok id st → ∀ s, size (streams s) < max_streams cfg → streams s !! id = None →
  keeps_at (upd (λ s, set_streams (<[id := st]> (streams s)) s)) s.
Proof.
  intros Hst s Hn Hno (? & ? & ? & _ & Hall). split; [|constructor]. unfold session_ok. cbn. split_and!; [done..| |].
  - rewrite map_size_insert_None by done. lia.
  - by apply map_Forall_insert_2.
Qed.

Lemma keeps_connect now id kind port host : keeps (on_connect cfg now id kind port host).
Proof.
  unfold on_connect. destruct (from_utf8 host) as [h|]; [|keep].
  destruct (bool_decide (id = 0)%N) eqn:Hid; [keep|]. apply bool_decide_eq_false in Hid.
  destruct (_ && _ && _); [keep|]. destruct (str_is_empty h && _); [keep|]. cbn [orb].
  apply keeps_read. intros s. destruct (streams s !! id) as [st|] eqn:E; [revert s E; intros s _; by keep|].
  repeat (case_bool_decide as Hn; [by keep|]). clear Hn.
  destruct (negb _); [by keep|]. case_bool_decide as Hmax; [by keep|].
  destruct (route cfg h port) as [sink|code] eqn:Hr; [|by keep].
  apply keeps_at_andthen; [by apply keeps_effect|]. cbn. apply keeps_insert; [|lia|done].
  unfold stream_ok. cbn. rewrite Hr. split_and!; [done|done|by vm_compute|by vm_compute|done].
Qed.

Lemma keeps_data now id payload : keeps (on_data now id payload).
Proof.
  apply keeps_read. intros s. destruct (streams s !! id) as [st0|] eqn:E; [|by keep].
  case_bool_decide as Hq; [by apply keeps_live_close|]. intros Hs.
  assert (Hst : stream_ok id st0) by by apply Hs.
  assert (Htook : ∀ st, st = st0 → stream_ok id (took now payload st)).
  { intros st ->. destruct Hst as (? & ? & ? & ? & ?). unfold stream_ok. cbn. split_and!; try done. lia. }
  destruct Hs as (H1 & H2 & H3 & Hn & Hall).
  assert (Hs1 : session_ok key peer ufrag (live (took now payload) id s : _ * list (Effect (Svc := Svc))).1).
  { unfold session_ok. cbn. split_and!; [done..| |].
    - by rewrite <- size_dom, dom_alter_L, size_dom.
    - intros j st Hj. destruct (decide (id = j)) as [<-|Hne].
      + rewrite lookup_alter_eq, E in Hj. injection Hj as <-. by apply Htook.
      + rewrite lookup_alter_ne in Hj by done. by apply Hall. }
  apply keeps_at_andthen; [by split; [|constructor]| |by split_and!].
  destruct (to_tcp st0) as [c|] eqn:Ht; [by apply keeps_effect|]. destruct (ended_in st0) eqn:He; [by keep|].
  intros _. split; [|constructor]. destruct Hs1 as (_ & _ & _ & Hn1 & Hall1). unfold session_ok. cbn in *.
  split_and!; [done..| |].
  - by rewrite <- !size_dom, !dom_alter_L, size_dom.
  - intros j st Hj. destruct (decide (id = j)) as [<-|Hne].
    + rewrite !lookup_alter_eq, E in Hj. injection Hj as <-. specialize (Htook st0 eq_refl).
      unfold stream_ok in *. cbn in *. destruct Htook as (? & ? & ? & ? & _). by split_and!.
    + rewrite lookup_alter_ne in Hj by done. by apply Hall1.
Qed.

Lemma keeps_end_in now id : keeps (on_end now id).
Proof.
  apply keeps_read. intros s. destruct (streams s !! id) as [st|]; [|by keep].
  apply keeps_andthen; [|by keep; apply keeps_effect].
  apply keeps_live. intros st0 (? & ? & ? & ? & ?). unfold stream_ok. by cbn.
Qed.

Lemma keeps_wisp now msg : keeps (on_wisp cfg now msg).
Proof.
  apply keeps_read. intros s. destruct (is_relay cfg).
  - destruct (relay s) as [|waiting|to]; [|by apply keeps_same|by apply keeps_effect].
    repeat (case_match; try by keep).
  - destruct (Wisp.parse msg) as [[]|]; try by keep.
    + apply keeps_connect.
    + apply keeps_data.
    + apply keeps_end_in.
Qed.

(** ** What its streams' tasks say *)

Lemma keeps_internal now i : keeps (on_internal now i).
Proof.
  destruct i; cbn [on_internal]; try by keep.
  - apply keeps_read. intros s. destruct (streams s !! stream) as [st|];
      [|by apply keeps_effects, Forall_app; split; [apply Forall_fmap, Forall_true|repeat constructor]].
    apply keeps_andthen; [by apply keeps_effects, Forall_fmap, Forall_true|].
    apply keeps_andthen; [repeat case_match; by first [apply keeps_done|apply keeps_effect]|].
    apply keeps_andthen; [|by keep; apply keeps_effect].
    apply keeps_live. intros st0 (H1 & H2 & H3 & H4 & H5). unfold stream_ok. cbn. split_and!; [done..|].
    destruct (ended_in st0) eqn:He; [|done]. intros Hc. destruct (H5 Hc). congruence.
  - apply keeps_read. intros s. destruct (streams s !! stream) as [st|]; [|by keep].
    apply keeps_andthen; [|by keep]. apply keeps_live. intros st0 Hst. exact Hst.
  - apply keeps_read. intros s. destruct (streams s !! stream) as [st|] eqn:E; [|by keep].
    apply keeps_at_andthen; [|by keep]. intros Hs.
    assert (Hst : stream_ok stream st) by by apply Hs.
    destruct Hst as (H1 & H2 & H3 & H4 & H5). revert Hs.
    assert (Hlive : ∀ w, (w < WISP_BUFFER / 2)%N → keeps_at (live (wrote (queued st - 1) w) stream) s).
    { intros w Hw (K1 & K2 & K3 & Hn & Hall). split; [|constructor]. unfold session_ok. cbn. split_and!; [done..| |].
      - by rewrite <- size_dom, dom_alter_L, size_dom.
      - intros j st0 Hj. destruct (decide (stream = j)) as [<-|Hne].
        + rewrite lookup_alter_eq, E in Hj. injection Hj as <-. unfold stream_ok. cbn. split_and!; try done. lia.
        + rewrite lookup_alter_ne in Hj by done. by apply Hall. }
    case_bool_decide as Hw.
    + apply keeps_at_andthen; [by apply Hlive; vm_compute|by keep].
    + apply Hlive. lia.
  - apply keeps_andthen; [|by keep]. apply keeps_read. intros s. destruct (streams s !! stream) as [st|]; [|by keep].
    destruct (_ && _ && _); [|by keep]. apply keeps_andthen; [|by keep].
    apply keeps_live. intros st0 Hst. exact Hst.
  - apply keeps_andthen; [|by keep]. apply keeps_read. intros s.
    apply keeps_andthen; [by apply keeps_same|].
    apply keeps_andthen; [case_match; by first [apply keeps_done|apply keeps_effect]|].
    by apply keeps_effects, Forall_fmap, Forall_true.
  - apply keeps_andthen; [|by keep]. apply keeps_read. intros s. by keep.
Qed.

(** ** What the library says, and the clock *)

Lemma keeps_event now e : keeps (on_rtc_event cfg now e).
Proof.
  destruct e as [| |ch|ch data|ch| |]; try destruct ch; cbn [on_rtc_event]; try by keep.
  - apply keeps_andthen; [by apply keeps_same|]. apply keeps_read. intros s. by keep.
  - apply keeps_control.
  - apply keeps_wisp.
Qed.

Lemma poll_keeps fuel : ∀ events s s' o ev,
  poll_all fuel events s = Some (s', o, ev) → session_ok key peer ufrag s →
  session_ok key peer ufrag s' ∧ Forall effect_ok (o : list (Effect (Svc := Svc))).
Proof.
  assert (Hrtc : ∀ r s, session_ok key peer ufrag s → session_ok key peer ufrag (set_rtc r s)) by done.
  induction fuel as [|fuel IH]; intros events s s' o ev; [done|]. cbn [poll_all].
  destruct (rtc_poll (rtc s)) as [[[t|dest bs|e]|e] r].
  - intros [= <- <- <-] Hs. by split.
  - destruct (poll_all fuel events (set_rtc r s)) as [[[s1 o1] ev1]|] eqn:E; [|done]. intros [= <- <- <-] Hs.
    destruct (IH _ _ _ _ _ E (Hrtc r s Hs)). split; [done|]. by constructor.
  - intros Hp Hs. by eapply IH.
  - pose proof (keeps_end ("rtc: " +:+ e) (set_rtc r s)) as Hk.
    destruct (end_ ("rtc: " +:+ e) (set_rtc r s)) as [s1 o1] eqn:Ee. intros [= <- <- <-] Hs.
    unfold keeps_at in Hk. rewrite Ee in Hk. by apply Hk.
Qed.

Lemma drive_keeps fuel now : ∀ s s' o,
  drive cfg fuel now s = Some (s', o) → session_ok key peer ufrag s →
  session_ok key peer ufrag s' ∧ Forall effect_ok o.
Proof.
  induction fuel as [|fuel IH]; intros s s' o; [done|]. cbn [drive].
  destruct (poll_all (Svc := Svc) (S fuel) [] s) as [[[s1 o1] ev]|] eqn:Ep; [|done].
  intros Hd Hs. destruct (poll_keeps _ _ _ _ _ _ Ep Hs) as [Hs1 Ho1].
  destruct ev as [[|e events]|]; [by injection Hd as <- <-| |by injection Hd as <- <-].
  set (act := andthen (in_turn (on_rtc_event cfg now <$> e :: events)) flush
              : Act (Chan := Chan) (Task := Task) (Svc := Svc) (R := R)).
  assert (Hd' : (let '(s2, o2) := act s1 in '(s3, o3) ← drive cfg fuel now s2; Some (s3, o1 ++ o2 ++ o3))
                = Some (s', o)) by exact Hd.
  assert (Hk : keeps act).
  { apply keeps_andthen; [|apply keeps_flush]. apply keeps_in_turn, Forall_fmap, Forall_true. intros. apply keeps_event. }
  specialize (Hk s1 Hs1). clearbody act. destruct (act s1) as [s2 o2]. cbn in Hk, Hd'.
  destruct (drive cfg fuel now s2) as [[s3 o3]|] eqn:E3; [|done].
  injection Hd' as <- <-. destruct Hk as [Hs2 Ho2]. destruct (IH _ _ _ E3 Hs2) as [Hs3 Ho3].
  split; [done|]. by rewrite !Forall_app.
Qed.

Lemma keeps_timeout now : keeps (input_timeout now).
Proof.
  intros s Hs. unfold input_timeout. destruct (rtc_timeout now (rtc s)) as [[[]|e] r]; [by split|].
  by apply keeps_end.
Qed.
Lemma keeps_receive now d : keeps (receive now d).
Proof.
  intros s Hs. unfold receive. destruct (rtc_receive now d (rtc s)) as [[[]|e] r]; [by split|].
  by apply keeps_end.
Qed.
Lemma keeps_housekeep now idle : keeps (housekeep now idle).
Proof.
  apply keeps_read. intros s. destruct (_ && _); [by keep|].
  apply keeps_andthen; [|by keep]. apply keeps_in_turn, Forall_fmap, Forall_true. intros. apply keeps_close.
Qed.

Lemma new_session_ok record now roles s :
  new_session key peer record now roles = Ok s → ufrag = Presence.ufrag record → session_ok key peer ufrag s.
Proof.
  unfold new_session. destruct (rtc_new roles record now) as [r|]; [|done]. intros [= <-] ->.
  unfold session_ok. cbn. split_and!; [done..| |apply map_Forall_empty]. rewrite map_size_empty. lia.
Qed.
End keeps.

(** ** The loop *)

Definition sane (l : list (Session (Chan := Chan) (Task := Task) (R := R))) : Prop :=
  Forall (λ s, session_ok (s_key s) (s_peer s) (remote_ufrag s) s) l.
Definition same (s s' : Session (Chan := Chan) (Task := Task) (R := R)) : Prop :=
  s_key s' = s_key s ∧ s_peer s' = s_peer s ∧ remote_ufrag s' = remote_ufrag s.

Record tidy (n : N) (l : list (Session (Chan := Chan) (Task := Task) (R := R))) : Prop := {
  tidy_length : length l ≤ max_sessions cfg;
  tidy_sane : sane l;
  tidy_keys : Forall (λ s, (s_key s ≤ n)%N) l;
  tidy_distinct : NoDup (s_key <$> l);
  tidy_ufrags : NoDup (remote_ufrag <$> l);
}.

Lemma keeps_same_one a s :
  (∀ key peer ufrag, keeps key peer ufrag a) → session_ok (s_key s) (s_peer s) (remote_ufrag s) s →
  same s (a s).1 ∧ session_ok (s_key (a s).1) (s_peer (a s).1) (remote_ufrag (a s).1) (a s).1
  ∧ Forall effect_ok (a s).2.
Proof.
  intros Ha Hs. destruct (Ha _ _ _ s Hs) as [Hs' Ho]. pose proof Hs' as (H1 & H2 & H3 & _).
  split; [done|]. split; [|done]. by rewrite H1, H2, H3.
Qed.

Lemma tidy_same n l l' : tidy n l → Forall2 same l l' → sane l' → tidy n l'.
Proof.
  intros [Hl Hsane Hk Hd Hu] Hsame Hs'. pose proof (Forall2_length _ _ _ Hsame) as Hlen.
  assert (Hkeys : s_key <$> l' = s_key <$> l ∧ remote_ufrag <$> l' = remote_ufrag <$> l).
  { clear -Hsame. induction Hsame as [|s s' l l' (H1 & _ & H3) _ [IH1 IH2]]; [done|]. cbn. by rewrite H1, H3, IH1, IH2. }
  destruct Hkeys as [Hk1 Hk2]. split; [lia|done| |by rewrite Hk1|by rewrite Hk2].
  apply Forall_forall. intros s' [i Hi]%list_elem_of_lookup.
  eapply Forall2_lookup_r in Hsame as (s & Hs & -> & _); [|exact Hi]. by eapply Forall_lookup_1 in Hk.
Qed.

Lemma same_refl l : Forall2 same l l.
Proof. by apply Forall_Forall2_diag, Forall_true. Qed.

Lemma first_session_ok p a l l' o :
  (∀ key peer ufrag, keeps key peer ufrag a) → sane l → first_session p a l = Some (l', o) →
  Forall2 same l l' ∧ sane l' ∧ Forall effect_ok o.
Proof.
  intros Ha. revert l' o. induction l as [|s l IH]; intros l' o Hs; [done|]. cbn [first_session].
  apply Forall_cons in Hs as [Hs Hl]. destruct (p s).
  - pose proof (keeps_same_one a s Ha Hs) as (Hsame & Hok & Ho). destruct (a s) as [s1 o1]. intros [= <- <-].
    split_and!; [by constructor; [|apply same_refl]|by constructor|done].
  - destruct (first_session p a l) as [[l1 o1]|] eqn:E; [|done]. intros [= <- <-].
    destruct (IH l1 o1 Hl eq_refl) as (H1 & H2 & H3). split_and!; [by constructor|by constructor|done].
Qed.

Lemma every_session_ok a l :
  (∀ key peer ufrag, keeps key peer ufrag a) → sane l →
  Forall2 same l (every_session a l).1 ∧ sane (every_session a l).1 ∧ Forall effect_ok (every_session a l).2.
Proof.
  intros Ha. induction l as [|s l IH]; intros Hs; [by repeat constructor|].
  apply Forall_cons in Hs as [Hs Hl]. destruct (IH Hl) as (H1 & H2 & H3). cbn [every_session].
  pose proof (keeps_same_one a s Ha Hs) as (Hsame & Hok & Ho). destruct (a s) as [s1 o1].
  destruct (every_session a l) as [l1 o2]. cbn in *. split_and!; [by constructor|by constructor|by apply Forall_app].
Qed.

Lemma drive_all_ok fuel now l : ∀ l' o,
  drive_all cfg fuel now l = Some (l', o) → sane l → Forall2 same l l' ∧ sane l' ∧ Forall effect_ok o.
Proof.
  induction l as [|s l IH]; intros l' o.
  { intros [= <- <-] _. by repeat constructor. }
  cbn [drive_all]. destruct (drive cfg fuel now s) as [[s1 o1]|] eqn:E; [|done]. cbn.
  destruct (drive_all cfg fuel now l) as [[l1 o2]|]; [|done]. intros [= <- <-] [Hs Hl]%Forall_cons.
  destruct (IH l1 o2 eq_refl Hl) as (H1 & H2 & H3).
  destruct (drive_keeps _ _ _ _ _ _ _ _ E Hs) as [Hs1 Ho1]. pose proof Hs1 as (K1 & K2 & K3 & _).
  split_and!; [by constructor|constructor; [by rewrite K1, K2, K3|done]|by apply Forall_app].
Qed.

Lemma sublist_fmap {A B} (f : A → B) l l' : l `sublist_of` l' → f <$> l `sublist_of` f <$> l'.
Proof. induction 1; cbn; by constructor. Qed.

Lemma reap_ok n l : tidy n l → tidy n (reap (Svc := Svc) l).1 ∧ Forall effect_ok (reap l).2.
Proof.
  assert (Hsub : (reap (Svc := Svc) l).1 `sublist_of` l ∧ Forall effect_ok (reap l).2).
  { induction l as [|s l [IH1 IH2]]; [by repeat constructor|]. cbn [reap]. destruct (reap l) as [l1 o1]. cbn in *.
    unfold reap_session. destruct (dead s) as [why|]; cbn; [|by split; [constructor|]].
    split; [by constructor|]. apply Forall_app. split; [|done]. apply Forall_app. split.
    - apply Forall_join, Forall_fmap, Forall_true. intros kv. constructor; [done|apply drop_ok].
    - constructor; [done|]. destruct (relay s); by repeat constructor. }
  destruct Hsub as [Hsub Ho]. intros [Hl Hsane Hk Hd Hu]. split; [|done]. split.
  - apply sublist_length in Hsub. lia.
  - unfold sane in *. rewrite Forall_forall in *. intros s Hin. eapply Hsane, elem_of_sublist; eauto.
  - rewrite Forall_forall in *. intros s Hin. eapply Hk, elem_of_sublist; eauto.
  - eapply sublist_NoDup; [exact Hd|by apply sublist_fmap].
  - eapply sublist_NoDup; [exact Hu|by apply sublist_fmap].
Qed.

Context (stun_request : bytes → bytes) (stun_success : bytes → option (bytes * SocketAddr)).
Context (base : SocketAddr) (host_candidate : string) (server_reflexive : SocketAddr → option string).
Context (ip_text : IpAddr → string).

Definition loop_ok (h : Loop (Chan := Chan) (Task := Task) (R := R)) : Prop := tidy (next_key h) (sessions h).

Lemma tidy_push n l key peer record now roles s :
  tidy n l → (n < key)%N → length l < max_sessions cfg → Presence.ufrag record ∉ (remote_ufrag <$> l) →
  ∀ s', new_session key peer record now roles = Ok s' → same s' s →
  session_ok (s_key s) (s_peer s) (remote_ufrag s) s → tidy key (l ++ [s]).
Proof.
  intros [Hl Hsane Hk Hd Hu] Hkey Hmax Hno s' Hnew (H1 & H2 & H3) Hs.
  assert (Hs' : s_key s' = key ∧ remote_ufrag s' = Presence.ufrag record).
  { unfold new_session in Hnew. destruct (rtc_new roles record now); [|done]. by injection Hnew as <-. }
  destruct Hs' as [K1 K2]. split.
  - rewrite length_app. simpl. lia.
  - apply Forall_app. split; [done|by constructor].
  - apply Forall_app. split.
    + eapply Forall_impl; [exact Hk|]. intros s0 Hs0. change (s_key s0 ≤ n)%N in Hs0. lia.
    + constructor; [|done]. rewrite H1, K1. done.
  - rewrite fmap_app. apply NoDup_app. split_and!; [done| |apply NoDup_singleton].
    intros k Hin Hk2. cbn in Hk2. apply list_elem_of_singleton in Hk2 as ->.
    apply list_elem_of_fmap in Hin as (s0 & Heq & Hin). rewrite Forall_forall in Hk. specialize (Hk s0 Hin).
    change (s_key s0 ≤ n)%N in Hk. rewrite <- Heq, H1, K1 in Hk. lia.
  - rewrite fmap_app. apply NoDup_app. split_and!; [done| |apply NoDup_singleton].
    intros u Hin Hu2. cbn in Hu2. apply list_elem_of_singleton in Hu2 as ->. by rewrite H3, K2 in Hin.
Qed.

Lemma tidy_more n n' l : tidy n l → (n ≤ n')%N → tidy n' l.
Proof. intros [? ? Hk ? ?] Hn. split; [done|done| |done|done]. eapply Forall_impl; [exact Hk|]. intros s Hs. change (s_key s ≤ n)%N in Hs. lia. Qed.

Lemma existsb_false_elem {A} (p : A → bool) l x : existsb p l = false → x ∈ l → p x = false.
Proof.
  intros Hf Hx. destruct (p x) eqn:E; [|done]. rewrite <- Hf. symmetry. apply existsb_exists. exists x.
  by rewrite <- list_elem_of_In.
Qed.

Lemma no_ufrag (p : Session → bool) u l :
  (∀ s, p s = false → remote_ufrag s ≠ u) → existsb p l = false → u ∉ remote_ufrag <$> l.
Proof.
  intros Hp He (s & -> & Hin)%list_elem_of_fmap. eapply existsb_false_elem in He; [|exact Hin]. by apply (Hp s He).
Qed.

Definition step_ok (r : Loop (Chan := Chan) (Task := Task) (R := R) * list (Effect (Svc := Svc))) : Prop :=
  loop_ok r.1 ∧ Forall effect_ok r.2.

Lemma step_out h o1 o2 o3 :
  loop_ok h → Forall effect_ok o1 → Forall effect_ok o2 → Forall effect_ok o3 → step_ok (h, o1 ++ o2 ++ o3).
Proof. intros. split; [done|]. cbn [snd]. by rewrite !Forall_app. Qed.

Lemma refused_ok peer why : Forall effect_ok (refused peer why : list (Effect (Svc := Svc))).
Proof. by repeat constructor. Qed.

Lemma open_ok now peer text calling h : loop_ok h → step_ok (open cfg now peer text calling h).
Proof.
  intros Hh. unfold open. destruct (Presence.decode text) as [record|e]; [|by split; [|apply refused_ok]].
  case_bool_decide as Hmax; [by split; [|apply refused_ok]|].
  destruct (existsb _ (sessions h)) eqn:Hdup; [by split; [|apply refused_ok]|].
  assert (Hm : loop_ok (MkLoop (sessions h) (next_key h + 1) (stun_servers h) (stun_pending h) (mapped h) (next_stun h)
                          (next_tick h) (last_record h))).
  { eapply tidy_more; [exact Hh|]. cbn. lia. }
  destruct (new_session _ peer record now _) as [s|e] eqn:Hnew; [|by split; [|apply refused_ok]].
  split; [|constructor]. unfold loop_ok. cbn.
  eapply (tidy_push (next_key h) _ _ peer record now _ s); [done|lia|lia| |exact Hnew|done|].
  - eapply no_ufrag; [|exact Hdup]. intros s0 [_ Hu%bool_decide_eq_false]%orb_false_iff. done.
  - pose proof (new_session_ok (next_key h + 1) peer (Presence.ufrag record) record now _ s Hnew eq_refl) as Hs.
    pose proof Hs as (K1 & K2 & K3 & _). by rewrite K1, K2, K3.
Qed.

Lemma with_session_ok p a h r :
  (∀ key peer ufrag, keeps key peer ufrag a) → loop_ok h → with_session p a h = Some r → step_ok r.
Proof.
  intros Ha Hh. unfold with_session. destruct (first_session p a (sessions h)) as [[l o]|] eqn:E; [|done].
  intros [= <-]. destruct (first_session_ok p a _ _ _ Ha (tidy_sane _ _ Hh) E) as (H1 & H2 & H3).
  split; [|done]. by eapply tidy_same.
Qed.

Lemma direct_ok now d h : loop_ok h → step_ok (direct_session cfg now d h).
Proof.
  intros Hh. unfold direct_session. destruct (direct_ufrag _ _) as [u|]; [|by split].
  destruct (_ || _) eqn:Hb; [by split|]. apply orb_false_iff in Hb as [Hmax%bool_decide_eq_false Hdup].
  destruct (new_session _ _ _ now _) as [s|e] eqn:Hnew; [|by split].
  destruct (negb _); [by split|].
  pose proof (new_session_ok (next_key h + 1) _ u _ now _ s Hnew eq_refl) as Hs.
  pose proof (keeps_receive _ _ _ now d s Hs) as [Hs' Ho]. destruct (receive now d s) as [s1 o1]. cbn in *.
  split; [|done]. unfold loop_ok. cbn. pose proof Hs as (K1 & K2 & K3 & _). pose proof Hs' as (L1 & L2 & L3 & _).
  eapply (tidy_push (next_key h) _ _ _ _ now _ s1); [done|lia|lia| |exact Hnew| |].
  - eapply no_ufrag; [|exact Hdup]. by intros s0 Hu%bool_decide_eq_false.
  - unfold same. by rewrite K1, K2, K3.
  - by rewrite L1, L2, L3.
Qed.

Lemma publish_ok h : loop_ok h → step_ok (publish_record cfg base host_candidate server_reflexive h).
Proof.
  intros Hh. unfold publish_record. destruct (Presence.encode _); [|by split].
  case_bool_decide; [by split|]. split; [done|by repeat constructor].
Qed.

Lemma datagram_ok now buf source h :
  loop_ok h → step_ok (on_datagram cfg stun_success base host_candidate server_reflexive ip_text now buf source h).
Proof.
  intros Hh. unfold on_datagram. destruct (stun_answer _ _ _ _ _ buf h) as [r|] eqn:Hstun.
  - unfold stun_answer in Hstun. destruct (stun_success buf) as [[txid m]|]; [|done]. cbn in Hstun.
    destruct (find_first _ _) as [p|]; [|done]. injection Hstun as <-. by apply publish_ok.
  - destruct (negb _); [by split|]. destruct (with_session _ _ h) as [r|] eqn:Hw.
    + eapply with_session_ok; [|exact Hh|exact Hw]. intros. destruct (admitted _ _); [apply keeps_receive|apply keeps_end].
    + destruct (_ && _); [by apply direct_ok|by split].
Qed.

Lemma internal_ok now i h : loop_ok h → step_ok (loop_internal now i h).
Proof.
  intros Hh. unfold loop_internal.
  assert (Hi : ∀ p r, with_session p (on_internal now i) h = Some r → step_ok r).
  { intros p r. apply with_session_ok; [|done]. intros. apply keeps_internal. }
  destruct i; cbn [key_of]; try by split.
  all: destruct (with_session _ _ h) as [r|] eqn:E; [by eapply Hi|split; [done|]]; try by repeat constructor.
  apply Forall_app. split; [by apply Forall_fmap, Forall_true|by repeat constructor].
Qed.

Lemma time_ok now txids h : loop_ok h → step_ok (on_time cfg stun_request now txids h).
Proof.
  intros Hh. unfold on_time.
  assert (Ht : ∀ key peer ufrag, keeps key peer ufrag
    (λ s, if bool_decide (timeout s ≤ now)%N then input_timeout now s else (s, []))).
  { intros key peer ufrag s Hs. case_bool_decide; [by apply keeps_timeout|by split]. }
  destruct (every_session_ok _ (sessions h) Ht (tidy_sane _ _ Hh)) as (H1 & H2 & H3).
  destruct (every_session _ (sessions h)) as [l o1]. cbn in H1, H2, H3.
  assert (Hl : tidy (next_key h) l) by by eapply tidy_same.
  assert (Hh2 : ∀ (b : bool), step_ok (if b then
     let '(l, o) := every_session (housekeep now (idle_timeout cfg)) (sessions (set_sessions l h)) in
      (MkLoop l (next_key h) (stun_servers h) (stun_pending h) (mapped h) (next_stun h) (now + TICK) (last_record h), o)
     else (set_sessions l h, []))).
  { intros []; [|by split]. cbn [sessions set_sessions].
    destruct (every_session_ok (housekeep now (idle_timeout cfg)) l) as (K1 & K2 & K3); [|done|].
    - intros. apply keeps_housekeep.
    - destruct (every_session _ l) as [l2 o2]. split; [|done]. unfold loop_ok. cbn in *. by eapply tidy_same. }
  specialize (Hh2 (bool_decide (next_tick h ≤ now)%N)). cbn [next_tick set_sessions] in *.
  destruct (if bool_decide (next_tick h ≤ now)%N then _ else _) as [h2 o2]. destruct Hh2 as [Hok2 Ho2]. cbn in Hok2, Ho2.
  destruct (_ && _); cbn; apply step_out; try done. by apply Forall_fmap, Forall_true.
Qed.

Lemma turn_ok fuel now txids w h r :
  loop_ok h →
  turn cfg stun_request stun_success base host_candidate server_reflexive ip_text fuel now txids w h = Some r →
  step_ok r.
Proof.
  intros Hh. unfold turn. destruct (drive_all cfg fuel now (sessions h)) as [[l1 o1]|] eqn:Ed; [|done]. cbn.
  destruct (drive_all_ok _ _ _ _ _ Ed (tidy_sane _ _ Hh)) as (H1 & H2 & Ho1).
  assert (Hl1 : tidy (next_key h) l1) by by eapply tidy_same.
  destruct (reap_ok _ _ Hl1) as [Hl2 Ho2]. destruct (reap l1) as [l2 o2]. cbn in Hl2, Ho2.
  assert (Hw : step_ok (on_wake cfg stun_success base host_candidate server_reflexive ip_text now w
                          (set_sessions l2 h))).
  { assert (Hh2 : loop_ok (set_sessions l2 h)) by done. destruct w as [buf source|c|i|]; cbn [on_wake].
    - by apply datagram_ok.
    - destruct c; cbn [on_command]; [by apply open_ok..|].
      destruct (with_session _ _ _) as [r'|] eqn:Ew; [|by split]. eapply with_session_ok; [|done|exact Ew].
      intros. apply keeps_end.
    - by apply internal_ok.
    - by split. }
  destruct (on_wake _ _ _ _ _ _ now w _) as [h3 o3]. destruct Hw as [Hh3 Ho3].
  pose proof (time_ok now txids h3 Hh3) as [Hh4 Ho4]. destruct (on_time _ _ now txids h3) as [h4 o4].
  intros [= <-]. apply step_out; [exact Hh4|done|done|]. by apply Forall_app.
Qed.

Lemma runs_ok h o :
  runs cfg stun_request stun_success base host_candidate server_reflexive ip_text h o →
  loop_ok h ∧ Forall effect_ok o.
Proof.
  induction 1 as [now|h o fuel now txids w h' o' _ [Hh Ho] Ht].
  - apply publish_ok. unfold loop_ok. cbn. split; cbn; [lia|constructor|constructor|constructor|constructor].
  - destruct (turn_ok _ _ _ _ _ _ Hh Ht) as [Hh' Ho']. split; [done|]. by apply Forall_app.
Qed.

(** C32: Whatever datagrams arrive, whatever the library makes of them and
    whatever tasks say, and in whatever order: a host holds no more sessions
    than its configuration allows, under distinct keys and distinct peers'
    credentials; each holds no more streams than it allows, every one to a
    target it routes to, with no more packets waiting than the credit
    granted; and all it ever connects to are targets it routes to. *)
Theorem host_bounded h o :
  runs cfg stun_request stun_success base host_candidate server_reflexive ip_text h o →
  tidy (next_key h) (sessions h) ∧ Forall effect_ok o.
Proof. apply runs_ok. Qed.
End facts.
End HostFacts.

Module AccessFacts.
Import Forward Host.

(** ** Grants *)
Section grants.
Context {Svc : Type} (cfg : HostConfig (Svc := Svc)).

(** What the configuration grants a peer that asks for [host] and [port]. *)
Inductive granted (host : string) (port : N) : Sink → Prop :=
  | granted_one sink : host = "" → forward cfg = FOne sink → granted host port sink
  | granted_only_port h ps p :
      host = "" → port = 0%N → forward cfg = FPorts h ps → PortSet.ranges ps = [(p, p)] → PortSet.any_port ps = false →
      granted host port (Dial (tcp_entry h p))
  | granted_port h ps :
      forward cfg = FPorts h ps → host = "" ∨ eq_ignore_ascii_case h host = true → port ≠ 0%N →
      PortSet.any_port ps = true ∨ (∃ lo hi, (lo, hi) ∈ PortSet.ranges ps ∧ lo ≤ port ≤ hi)%N →
      granted host port (Dial (tcp_entry h port))
  | granted_service name sink :
      host = name → host ≠ "" → port = 0%N → (name, sink) ∈ services cfg → granted host port sink
  | granted_scope e :
      host ≠ "" → port ≠ 0%N → e ∈ scope cfg → Scope.port e = port →
      eq_ignore_ascii_case (Scope.e_host e) (Scope.unbracket host) = true →
      granted host port (Dial e).

Lemma contains_spec ps p :
  PortSet.contains ps p = true →
  PortSet.any_port ps = true ∨ (∃ lo hi, (lo, hi) ∈ PortSet.ranges ps ∧ lo ≤ p ≤ hi)%N.
Proof.
  unfold PortSet.contains. intros [Ha|He]%orb_true_iff; [by left|]. right.
  apply existsb_exists in He as ([lo hi] & Hin & Hb%bool_decide_eq_true). exists lo, hi.
  by rewrite list_elem_of_In.
Qed.

Lemma single_spec ps p :
  PortSet.single ps = Some p → PortSet.ranges ps = [(p, p)] ∧ PortSet.any_port ps = false.
Proof.
  unfold PortSet.single. destruct (PortSet.ranges ps) as [|[lo hi] [|? ?]]; try done.
  destruct (bool_decide (lo = hi)) eqn:E; [|done]. apply bool_decide_eq_true in E as ->.
  destruct (PortSet.any_port ps); [done|]. by intros [= ->].
Qed.

Lemma route_granted host port sink : route cfg host port = Ok sink → granted host port sink.
Proof.
  unfold route. destruct (str_is_empty host) eqn:Hh.
  - assert (host = "") as -> by by destruct host. destruct (forward cfg) as [|sink0|h ps|] eqn:Hf; try done.
    + intros [= ->]. by apply granted_one.
    + case_bool_decide as Hp.
      * destruct (PortSet.single ps) as [p|] eqn:Hs; [|done]. intros [= <-]. apply single_spec in Hs as [H1 H2].
        by eapply granted_only_port.
      * destruct (PortSet.contains ps port) eqn:Hc; [|done]. intros [= <-].
        eapply granted_port; [done|by left|done|by apply contains_spec].
  - assert (Hne : host ≠ "") by by intros ->. case_bool_decide as Hp.
    + destruct (find_first _ (services cfg)) as [[name s]|] eqn:Hf; [|done]. intros [= <-].
      apply find_first_Some in Hf as [Hin Heq%bool_decide_eq_true]. cbn in *. by eapply granted_service.
    + destruct (Scope.allows (scope cfg) host port) as [e|] eqn:Ha.
      * intros [= <-]. apply find_first_Some in Ha as [Hin [Hb%bool_decide_eq_true He]%andb_true_iff].
        by apply granted_scope.
      * destruct (forward cfg) as [| |h ps|] eqn:Hf; try done. destruct (eq_ignore_ascii_case h host) eqn:He; [|done].
        cbn [andb]. destruct (PortSet.contains ps port) eqn:Hc; [|done]. intros [= <-].
        eapply granted_port; [done|by right|done|by apply contains_spec].
Qed.
End grants.

(** ** The dial *)
Lemma dial_each_ok attempt addrs : ∀ last a,
  dial_each attempt last addrs = Ok a →
  ∃ before after, addrs = before ++ a :: after ∧ attempt a = Connected ∧ Forall (λ b, attempt b ≠ Connected) before.
Proof.
  induction addrs as [|b addrs IH]; intros last a; [done|]. cbn [dial_each]. destruct (attempt b) eqn:E.
  { intros [= ->]. exists [], addrs. by repeat constructor. }
  all: intros Hd; destruct (IH _ _ Hd) as (before & after & -> & Ha & Hb); exists (b :: before), after;
    split; [done|]; split; [done|]; constructor; [by rewrite E|done].
Qed.

Section runs.
Context {Chan Task Svc R : Type} `{RR : !Rtc R}.
Context `{JT : JsonText} `{JR : JsonRead} `{B64 : Base64}.
Context (cfg : HostConfig (Svc := Svc)).
Context (stun_request : bytes → bytes) (stun_success : bytes → option (bytes * SocketAddr)).
Context (base : SocketAddr) (host_candidate : string) (server_reflexive : SocketAddr → option string).
Context (ip_text : IpAddr → string).
Abbreviation runs := (Host.runs (Chan := Chan) (Task := Task) cfg stun_request stun_success base host_candidate server_reflexive ip_text).

(** C33: Whatever its peers send: a host connects a stream only to what its
    configuration grants for the name and port asked; and where that is an
    address to dial, the connection made is to the first of the name's
    addresses the entry allows that answers. *)
Theorem reaches_only_granted h o key id sink host port :
  runs h o → Connect key id sink host port ∈ o →
  granted cfg host port sink
  ∧ ∀ e found attempt a, sink = Dial e → dial e found attempt = Ok a →
      ∃ addrs before after, found = Found addrs
        ∧ filter (λ a, Scope.resolved_ok e (sa_ip a) = true) addrs = before ++ a :: after
        ∧ a ∈ addrs ∧ Scope.resolved_ok e (sa_ip a) = true ∧ attempt a = Connected
        ∧ Forall (λ b, attempt b ≠ Connected) before.
Proof.
  intros Hr Hin. apply HostFacts.runs_ok in Hr as [_ Ho]. rewrite Forall_forall in Ho. apply Ho in Hin as [_ Hroute].
  split; [by apply route_granted|]. intros e found attempt a _. unfold dial. destruct found as [| |addrs]; try done.
  case_bool_decide; [done|]. cbv zeta. case_bool_decide; [done|].
  intros (before & after & Heq & Ha & Hb)%dial_each_ok. exists addrs, before, after.
  assert (Hel : a ∈ filter (λ a, Scope.resolved_ok e (sa_ip a) = true) addrs).
  { rewrite Heq. apply elem_of_app. right. by left. }
  apply list_elem_of_filter in Hel as [H1 H2]. done.
Qed.

(** ** Admission *)

(** What a refused datagram makes of a session. *)
Definition turned_away (why : string) (s : Session (Chan := Chan) (Task := Task) (R := R)) : Session :=
  (end_ (Svc := Svc) why s).1.

Lemma first_session_split p (a : Act (Chan := Chan) (Task := Task) (Svc := Svc) (R := R)) l r :
  first_session p a l = Some r →
  ∃ before s after, l = before ++ s :: after ∧ p s = true ∧ Forall (λ s, p s = false) before
    ∧ r = (before ++ (a s).1 :: after, (a s).2).
Proof.
  revert r. induction l as [|s l IH]; intros r; [done|]. cbn [first_session]. destruct (p s) eqn:E.
  - destruct (a s) as [s' o] eqn:Ea. intros [= <-]. exists [], s, l. rewrite Ea. by repeat constructor.
  - destruct (first_session p a l) as [[l' o]|]; [|done]. intros [= <-].
    destruct (IH _ eq_refl) as (before & s0 & after & -> & Hp & Hb & [= -> ->]). exists (s :: before), s0, after.
    by repeat constructor.
Qed.

(** A datagram from an address outside the ranges a host admits, unless it
    answers what the host asked a STUN server, reaches no session's library
    and makes no session: at most, the session whose it is ends. *)
Theorem admission_holds now buf source h :
  admitted (accept cfg) (sa_ip source) = false → stun_answer cfg stun_success base host_candidate server_reflexive buf h = None →
  let r := on_datagram cfg stun_success base host_candidate server_reflexive ip_text now buf source h in
  r.2 = [] ∧ (r.1 = h ∨
    ∃ before s after, sessions h = before ++ s :: after ∧ rtc_accepts (MkDatagram source buf) (rtc s) = true
      ∧ sessions r.1 = before ++ turned_away (not_admitted ip_text (sa_ip source)) s :: after).
Proof.
  intros Hadm Hstun. unfold on_datagram. rewrite Hstun, Hadm, andb_false_r. destruct (negb _); [by split; [|left]|].
  unfold with_session. destruct (first_session _ _ (sessions h)) as [r|] eqn:E; [|by split; [|left]].
  apply first_session_split in E as (before & s & after & Hs & Hp & _ & ->). cbn. split; [done|]. right.
  by exists before, s, after.
Qed.
End runs.

(** ** What a host says of itself *)

(** Two hosts that differ in what they may reach, and do not say so, greet
    alike. *)
Theorem hello_hides_scope {Svc} (cfg cfg' : HostConfig (Svc := Svc)) :
  hello_scope cfg = false → hello_scope cfg' = false → service cfg = service cfg' →
  max_streams cfg = max_streams cfg' → fst <$> services cfg = fst <$> services cfg' → caps cfg = caps cfg' →
  (forward cfg = FRelay ↔ forward cfg' = FRelay) → hello_json cfg = hello_json cfg'.
Proof.
  intros H1 H2 H3 H4 H5 H6 H7. unfold hello_json. rewrite H1, H2, H3, H4, H6.
  assert (Hl : length (services cfg) = length (services cfg')) by by rewrite <- (length_fmap fst), H5, length_fmap.
  rewrite Hl.
  assert (Hn : ((λ ns, JString ns.1) <$> services cfg) = ((λ ns, JString ns.1) <$> services cfg')).
  { change (λ ns : string * Sink, JString ns.1) with (JString ∘ @fst string (Sink (Svc := Svc))).
    by rewrite !list_fmap_compose, H5. }
  rewrite Hn.
  assert (Hf : match forward cfg with FRelay => [("forwarding", JBool true)] | _ => [] end
             = match forward cfg' with FRelay => [("forwarding", JBool true)] | _ => [] end).
  { destruct (forward cfg), (forward cfg'); try done; naive_solver. }
  by rewrite Hf.
Qed.
End AccessFacts.
