(* ===== verification/StreamSpec.v ===== *)
(** * What reaches a stream's target

    Over a stream's life the channel it was answered on is sent what the peer
    wrote, packet for packet and in order, and nothing the peer wrote after
    its end, as long as nobody else answers with that channel or for that
    stream: what came before the answer is held and goes first. *)

From stdpp Require Import gmap.
From S2P Require Import Prelude.
From S2P Require Import Bytes.
From S2P Require Import Canon.
From S2P Require Import Sign.
From S2P Require Import Reach.
From S2P Require Import Presence.
From S2P Require Import Forward.
From S2P Require Import Host.

Module StreamFacts.
Import Forward Host.

Section facts.
Context {Chan Task Svc R : Type} `{!EqDecision Chan} `{RR : !Rtc R}.
Context `{JT : JsonText} `{JR : JsonRead} `{B64 : Base64}.
Context (cfg : HostConfig (Svc := Svc)).
Implicit Types (s : Session (Chan := Chan) (Task := Task) (R := R)) (st : Stream (Chan := Chan) (Task := Task)).
Implicit Types (a b : Act (Chan := Chan) (Task := Task) (Svc := Svc) (R := R)).

(** ** A session's inputs *)
Inductive Input :=
  | FromPeer (now : N) (e : RtcEvent)
  | FromTask (now : N) (i : Internal (Chan := Chan) (Task := Task))
  | Tick_ (now idle : N).

Definition act_of (i : Input) : Act :=
  match i with
  | FromPeer now e => on_rtc_event cfg now e
  | FromTask now i => on_internal now i
  | Tick_ now idle => housekeep now idle
  end.
Definition run (ins : list Input) : Act := in_turn (act_of <$> ins).

(** What the peer writes on a stream until it ends its side. *)
Fixpoint said (id : N) (ins : list Input) : list bytes :=
  match ins with
  | [] => []
  | FromPeer _ (ChannelData WispChannel msg) :: ins =>
      match Wisp.parse msg with
      | Some (Wisp.Data j p) => if bool_decide (j = id) then p :: said id ins else said id ins
      | Some (Wisp.End_ j) => if bool_decide (j = id) then [] else said id ins
      | _ => said id ins
      end
  | _ :: ins => said id ins
  end.

(** What is sent on a channel, and whether a stream is never reported
    closed. *)
Definition sent (c : Chan) (o : list (Effect (Chan := Chan) (Task := Task) (Svc := Svc))) : list bytes :=
  omap (λ e, match e with Send c' bs => if bool_decide (c' = c) then Some bs else None | _ => None end) o.
Definition open_throughout (id : N) (o : list (Effect (Chan := Chan) (Task := Task) (Svc := Svc))) : Prop :=
  Forall (λ e, match e with Report (EStream _ j _ _ StClosed _ _ _) => j ≠ id | _ => True end) o.

(** The channel is the one every answer for the stream brings, and no other
    answer or relay does. *)
Definition own_channel (id : N) (c : Chan) (i : Input) : Prop :=
  match i with
  | FromTask _ (IConnected _ j c' _) => j = id ↔ c' = c
  | FromTask _ (RelayUp _ to _) => to ≠ c
  | _ => True
  end.

Section life.
Context (id : N) (c : Chan).

Definition core st : option Chan * list bytes * bool := (to_tcp st, early st, ended_in st).
Definition apart s : Prop := ∀ j st, j ≠ id → streams s !! j = Some st → to_tcp st ≠ Some c.

(** A step takes the stream from one such state to another and sends some
    packets, if it does not end it. *)
Definition takes_at a s (k k' : option Chan * list bytes * bool) (l : list bytes) : Prop :=
  apart s → (∃ st, streams s !! id = Some st ∧ core st = k) → open_throughout id (a s).2 →
  apart (a s).1 ∧ (∃ st, streams (a s).1 !! id = Some st ∧ core st = k') ∧ sent c (a s).2 = l.
Definition takes a k k' l : Prop := ∀ s, takes_at a s k k' l.

Lemma sent_app o1 o2 : sent c (o1 ++ o2) = sent c o1 ++ sent c o2.
Proof. apply omap_app. Qed.

Lemma takes_at_andthen a b s k k1 k2 l1 l2 :
  takes_at a s k k1 l1 → (takes_at b (a s).1 k1 k2 l2) → takes_at (andthen a b) s k k2 (l1 ++ l2).
Proof.
  unfold takes_at, andthen. intros Ha Hb Hs Hst. destruct (a s) as [s1 o1]. simpl in *. destruct (b s1) as [s2 o2].
  simpl in *. intros [Q1 Q2]%Forall_app. destruct (Ha Hs Hst Q1) as (H1 & H2 & <-).
  destruct (Hb H1 H2 Q2) as (H3 & H4 & <-). by rewrite sent_app.
Qed.
Lemma takes_andthen a b k k1 k2 l1 l2 : takes a k k1 l1 → takes b k1 k2 l2 → takes (andthen a b) k k2 (l1 ++ l2).
Proof. intros Ha Hb s. eapply takes_at_andthen; [apply Ha|apply Hb]. Qed.

(** Steps that leave the stream alone. *)
Definition idle a : Prop := ∀ k, takes a k k [].

Lemma idle_andthen a b : idle a → idle b → idle (andthen a b).
Proof. intros Ha Hb k. by apply (takes_andthen a b k k k [] []). Qed.
Lemma idle_done : idle done_.
Proof. by intros k s. Qed.
Lemma idle_same f : (∀ s, streams (f s) = streams s) → idle (upd f).
Proof. intros Hf k s Hs Hst _. unfold apart. cbn. by rewrite Hf. Qed.
Lemma idle_effects o : sent c o = [] → idle (λ s, (s, o)).
Proof. by intros Ho k s. Qed.
Lemma idle_read k : (∀ s, idle (k s)) → idle (read k).
Proof. intros Hk q s. apply (Hk s). Qed.
Lemma idle_push pkt : idle (push pkt).
Proof. by apply idle_same. Qed.
Lemma idle_report e : idle (report e).
Proof. by apply idle_effects. Qed.
Lemma idle_tell msg : idle (tell msg).
Proof. by apply idle_same. Qed.
Lemma idle_end why : idle (end_ why).
Proof. apply idle_same. intros s. cbn. by destruct (dead s). Qed.
Lemma idle_flush : idle flush.
Proof.
  apply idle_same. intros s. destruct (wisp_open s); [destruct (write_outbox _ _) as [o r]|];
    cbn; repeat case_match; done.
Qed.
Lemma idle_in_turn l : Forall idle l → idle (in_turn l).
Proof. induction 1; [apply idle_done|by apply idle_andthen]. Qed.

Lemma idle_other (g : gmap N Stream → gmap N Stream) :
  (∀ m, g m !! id = m !! id) →
  (∀ m j st, j ≠ id → g m !! j = Some st → to_tcp st = Some c → ∃ st0, m !! j = Some st0 ∧ to_tcp st0 = Some c) →
  idle (upd (λ s, set_streams (g (streams s)) s)).
Proof.
  intros Hid Hg k s Hs Hst _. cbn. rewrite Hid. split_and!; [|done|done].
  intros j st Hj Hl Hc. cbn in Hl. destruct (Hg _ j st Hj Hl Hc) as (st0 & H0 & Himp). by eapply Hs.
Qed.

Lemma idle_live f j :
  (∀ st, to_tcp (f st) = Some c → to_tcp st = Some c) → (j = id → ∀ st, core (f st) = core st) → idle (live f j).
Proof.
  intros Hf Hcore k s Hs (st & Hst & <-) _. cbn. split_and!; [| |done].
  - intros i sti Hi Hl Hc. cbn in Hl. destruct (decide (j = i)) as [<-|Hne].
    + rewrite lookup_alter_eq in Hl. destruct (streams s !! j) as [st0|] eqn:E; [|done]. injection Hl as <-.
      eapply Hs; eauto.
    + rewrite lookup_alter_ne in Hl by done. by eapply Hs.
  - destruct (decide (j = id)) as [->|Hne].
    + rewrite lookup_alter_eq, Hst. eexists. split; [done|]. by apply Hcore.
    + rewrite lookup_alter_ne by done. by exists st.
Qed.

Lemma sent_aborts {A} (f : A → Handle (Task := Task)) ts : sent c (Abort ∘ f <$> ts) = [].
Proof. by induction ts. Qed.
Lemma sent_drop st : sent c (drop_stream st) = [].
Proof. unfold drop_stream. rewrite sent_app, (sent_aborts (λ t, t)). by destruct (to_tcp st). Qed.

(** Another stream's close. *)
Lemma idle_close_other j code tell_ : j ≠ id → idle (close_stream j code tell_).
Proof.
  intros Hne. apply idle_read. intros s. destruct (streams s !! j) as [st|]; [|apply idle_done].
  apply idle_andthen.
  { apply (idle_other (delete j)); [intros m; by rewrite lookup_delete_ne|].
    intros m i st0 _ Hl Hc. apply lookup_delete_Some in Hl as [_ Hl]. by exists st0. }
  apply idle_andthen; [destruct tell_; [apply idle_push|apply idle_done]|].
  apply idle_andthen; [apply idle_report|apply idle_effects, sent_drop].
Qed.

(** The stream's own close is reported, so it is not a step of its life. *)
Lemma close_steps j code tell_ : ∀ k k' l, j = id ∨ k' = k ∧ l = [] → takes (close_stream j code tell_) k k' l.
Proof.
  intros k k' l Hj. destruct (decide (j = id)) as [->|Hne].
  - intros s Hs (st & Hst & _) Ho. exfalso. revert Ho. unfold close_stream, read. rewrite Hst. unfold andthen. cbn.
    destruct tell_; cbn; intros Ho; apply Forall_cons in Ho as [Ho _]; by apply Ho.
  - destruct Hj as [->|[-> ->]]; [done|]. by apply idle_close_other.
Qed.

Lemma refuse_steps j host port code :
  ∀ k k' l, j = id ∨ k' = k ∧ l = [] → takes (refuse j host port code) k k' l.
Proof.
  intros k k' l Hj. destruct (decide (j = id)) as [->|Hne].
  - intros s _ _ Ho. exfalso. unfold refuse, read, andthen in Ho. cbn in Ho. apply Forall_cons in Ho as [Ho _]. by apply Ho.
  - destruct Hj as [->|[-> ->]]; [done|]. apply idle_read. intros s.
    apply idle_andthen; [apply idle_push|apply idle_report].
Qed.

Lemma idle_close j code tell_ : idle (close_stream j code tell_).
Proof. intros k. apply close_steps. by right. Qed.
Lemma idle_refuse j host port code : idle (refuse j host port code).
Proof. intros k. apply refuse_steps. by right. Qed.

Ltac quiet := repeat first
  [ apply idle_done | apply idle_push | apply idle_report | apply idle_tell | apply idle_end | apply idle_flush
  | apply idle_close | apply idle_refuse | apply idle_andthen | apply idle_effects, sent_drop
  | apply idle_same; done | case_match ].

(** ** The stream's own steps *)

(** A stream that still has its writer has nothing held. *)
Definition writer_ok (k : option Chan * list bytes * bool) : Prop :=
  ∀ c', k.1.1 = Some c' → c' = c ∧ k.1.2 = [] ∧ k.2 = false.

Definition taken (p : bytes) (k : option Chan * list bytes * bool) : (option Chan * list bytes * bool) * list bytes :=
  match k with
  | (Some _, _, _) => (k, [p])
  | (None, e, false) => ((None, e ++ [p], false), [])
  | (None, e, true) => (k, [])
  end.

Lemma takes_live f k k' :
  (∀ st, core st = k → core (f st) = k') →
  takes (live f id) k k' [].
Proof.
  intros Hf s Hs (st & Hst & Hk) _. cbn. split_and!; [| |done].
  - intros j stj Hj Hl. cbn in Hl. rewrite lookup_alter_ne in Hl by done. by eapply Hs.
  - rewrite lookup_alter_eq, Hst. eexists. split; [done|]. by apply Hf.
Qed.

Lemma takes_read g k k' l :
  (∀ s st, streams s !! id = Some st → core st = k → takes_at (g s) s k k' l) → takes (read g) k k' l.
Proof. intros Hg s Hs (st & Hst & Hk) Ho. unfold read in *. by apply (Hg s st Hst Hk Hs); [exists st|]. Qed.
Lemma takes_emit k c' bs : takes (emit (Send c' bs)) k k (if bool_decide (c' = c) then [bs] else []).
Proof. intros s Hs Hst _. split_and!; [done|done|]. cbn. by case_bool_decide. Qed.
Lemma idle_sends c' l : c' ≠ c → idle (λ s, (s, Send c' <$> l)).
Proof. intros Hc. apply idle_effects. induction l as [|bs l IH]; [done|]. cbn. by rewrite bool_decide_false. Qed.
Lemma idle_drop c' : idle (emit (DropSender c')).
Proof. by apply idle_effects. Qed.
Lemma idle_aborts (ts : list Task) : idle (λ s, (s, Abort ∘ HTask <$> ts)).
Proof. apply idle_effects, sent_aborts. Qed.

Lemma data_takes now p k :
  writer_ok k → takes (on_data now id p) k (taken p k).1 (taken p k).2.
Proof.
  intros Hw. apply takes_read. intros s st Hst Hk. rewrite Hst.
  apply (takes_at_andthen _ _ s k k _ []); [by apply takes_live|].
  case_bool_decide; [apply close_steps; by left|]. unfold core in Hk.
  destruct k as [[tc e] en]. injection Hk as Htc He Hen. rewrite Htc. destruct tc as [c'|].
  - destruct (Hw c' eq_refl) as [-> _]. pose proof (takes_emit (Some c, e, en) c p) as Ht.
    rewrite bool_decide_true in Ht by done. apply Ht.
  - rewrite Hen. destruct en; [apply idle_done|]. apply takes_live.
    intros st0 Hc. unfold core in *. cbn. by injection Hc as -> -> ->.
Qed.

(** A step on another stream, given what that stream is. *)
Lemma idle_on (g : Session → Act) :
  (∀ s, apart s → ∀ k, takes_at (g s) s k k []) → idle (read g).
Proof. intros Hg k s Hs. unfold read. by apply Hg. Qed.

Lemma data_idle now j p : j ≠ id → idle (on_data now j p).
Proof.
  intros Hj. apply idle_on. intros s Hs k. destruct (streams s !! j) as [st|] eqn:E; [|by apply idle_done].
  apply (takes_at_andthen _ _ s k k k [] []); [by apply idle_live|].
  case_bool_decide; [by apply idle_close|]. destruct (to_tcp st) as [c'|] eqn:Hc.
  - pose proof (takes_emit k c' p) as Ht. rewrite bool_decide_false in Ht; [apply Ht|].
    intros ->. by apply (Hs j st Hj E).
  - destruct (ended_in st); [by apply idle_done|by apply idle_live].
Qed.

Definition ended (k : option Chan * list bytes * bool) : option Chan * list bytes * bool := (None, k.1.2, true).

Lemma end_takes now k : takes (on_end now id) k (ended k) [].
Proof.
  apply takes_read. intros s st Hst Hk. rewrite Hst.
  apply (takes_at_andthen _ _ s k (ended k) _ [] []).
  { apply takes_live. intros st0 Hc. unfold core, ended in *. cbn. by rewrite <- Hc. }
  apply idle_andthen; [|by quiet]. destruct (to_tcp st); [apply idle_drop|apply idle_done].
Qed.
Lemma end_idle now j : j ≠ id → idle (on_end now j).
Proof.
  intros Hj. apply idle_read. intros s. destruct (streams s !! j) as [st|]; [|apply idle_done].
  apply idle_andthen; [by apply idle_live|].
  apply idle_andthen; [|by quiet]. destruct (to_tcp st); [apply idle_drop|apply idle_done].
Qed.

(** The target answers. *)
Definition answered (k : option Chan * list bytes * bool) : option Chan * list bytes * bool :=
  (if k.2 then k.1.1 else Some c, [], k.2).

Lemma takes_sends k l : takes (λ s, (s, Send c <$> l)) k k l.
Proof.
  intros s Hs Hst _. split_and!; [done|done|]. cbn. induction l as [|bs l IH]; [done|].
  cbn. rewrite bool_decide_true by done. by f_equal.
Qed.

Lemma connected_takes now ts k : takes (on_connected now id c ts) k (answered k) k.1.2.
Proof.
  apply takes_read. intros s st Hst Hk. rewrite Hst.
  rewrite <- (app_nil_r k.1.2). apply (takes_at_andthen _ _ s k k _ k.1.2 []).
  { rewrite <- Hk. apply takes_sends. }
  apply (takes_at_andthen _ _ s k k _ [] []).
  { destruct (to_tcp st); [|apply idle_done]. destruct (ended_in st); [apply idle_done|apply idle_drop]. }
  apply (takes_andthen _ _ k (answered k) _ [] []).
  { apply takes_live. intros st0 <-. done. }
  apply idle_andthen; [apply idle_report|]. apply idle_andthen; [|apply idle_flush].
  destruct (ended_in st); [apply idle_drop|apply idle_done].
Qed.

Lemma connected_idle now j c' ts : j ≠ id → c' ≠ c → idle (on_connected now j c' ts).
Proof.
  intros Hj Hc. apply idle_read. intros s. destruct (streams s !! j) as [st|].
  - apply idle_andthen; [by apply idle_sends|].
    apply idle_andthen.
    { destruct (to_tcp st); [|apply idle_done]. destruct (ended_in st); [apply idle_done|apply idle_drop]. }
    apply idle_andthen.
    { apply idle_live; [|done]. intros st0. cbn. destruct (ended_in st0); [done|]. by intros [= ->]. }
    apply idle_andthen; [apply idle_report|]. apply idle_andthen; [|apply idle_flush].
    destruct (ended_in st); [apply idle_drop|apply idle_done].
  - apply idle_effects. by rewrite sent_app, sent_aborts.
Qed.

(** ** Any input *)

Lemma connect_idle now j kind port host : idle (on_connect cfg now j kind port host).
Proof.
  unfold on_connect. destruct (from_utf8 host) as [h|]; [|by quiet]. destruct (_ || _); [by quiet|].
  destruct (str_is_empty h && _); [by quiet|]. destruct (decide (j = id)) as [->|Hne].
  { intros k. apply takes_read. intros s st Hst _. rewrite Hst. by apply idle_andthen; quiet. }
  apply idle_read. intros s. destruct (streams s !! j); [by quiet|]. destruct (bool_decide (kind = _)); [by quiet|]. destruct (negb _); [by quiet|].
  destruct (bool_decide (max_streams cfg ≤ _)); [by quiet|]. destruct (route cfg h port); [|by quiet]. apply idle_andthen; [by apply idle_effects|].
  apply (idle_other (insert j (new_stream (s_key s) j h port now))); [intros m; by rewrite lookup_insert_ne|].
  intros m i st _ Hl Hc. destruct (decide (i = j)) as [->|Hi].
  - rewrite lookup_insert_eq in Hl. by injection Hl as <-.
  - rewrite lookup_insert_ne in Hl by done. by exists st.
Qed.

Lemma control_idle msg : idle (on_control cfg msg).
Proof.
  unfold on_control. destruct (json_from_slice msg) as [v|]; [|by quiet].
  destruct (json_str (json_at "t" v)) as [t|]; [|by quiet].
  case_bool_decide; [|case_bool_decide; [by quiet|case_bool_decide; [|by quiet]]].
  - apply idle_read. intros s. destruct (relay s); [|by quiet..]. destruct (is_relay cfg && _); [|by quiet].
    apply idle_andthen; [by apply idle_same|by apply idle_effects].
  - repeat (case_match; [|by quiet]). unfold resize. case_bool_decide; [|by quiet]. by apply idle_live.
Qed.

Lemma tcp_done_idle now j code : idle (on_tcp_done now j code).
Proof.
  apply idle_andthen; [|by quiet]. apply idle_read. intros s. case_match; [|by quiet]. case_match; [|by quiet].
  apply idle_andthen; [by apply idle_live|by quiet].
Qed.
Lemma written_idle j : idle (on_written j).
Proof.
  apply idle_read. intros s. case_match; [|by quiet]. apply idle_andthen; [|by quiet].
  case_match; [apply idle_andthen; [|by quiet]|]; by apply idle_live.
Qed.

(** What an input does to the stream, and what it sends its target. *)
Definition life (i : Input) (k : option Chan * list bytes * bool) :
    (option Chan * list bytes * bool) * list bytes :=
  match i with
  | FromPeer _ (ChannelData WispChannel msg) =>
      match Wisp.parse msg with
      | Some (Wisp.Data j p) => if bool_decide (j = id) then taken p k else (k, [])
      | Some (Wisp.End_ j) => (if bool_decide (j = id) then ended k else k, [])
      | _ => (k, [])
      end
  | FromTask _ (IConnected _ j _ _) => if bool_decide (j = id) then (answered k, k.1.2) else (k, [])
  | _ => (k, [])
  end.

Lemma internal_life now i k :
  own_channel id c (FromTask now i) → takes (on_internal now i) k (life (FromTask now i) k).1 (life (FromTask now i) k).2.
Proof.
  intros Hown. destruct i as [found|q j c' ts|q j code|q j bs|q j|q j code|q to hello|q why|q packet|q|q j caps];
    cbn [on_internal life fst snd own_channel] in *; try (revert k; by quiet).
  - case_bool_decide as Hj; [subst j; rewrite (proj1 Hown eq_refl); apply connected_takes|].
    apply connected_idle; [done|]. by intros ->; apply Hj, Hown.
  - apply idle_read. intros s. case_match; [|by quiet]. apply idle_andthen; [by apply idle_live|by quiet].
  - apply written_idle.
  - apply tcp_done_idle.
  - apply idle_andthen; [|by quiet]. apply idle_read. intros s.
    apply idle_andthen; [by apply idle_same|]. apply idle_andthen; [destruct (relay s); by apply idle_effects|].
    by apply idle_sends.
  - apply idle_andthen; [|by quiet]. apply idle_read. intros s. by quiet.
Qed.

Lemma peer_life now e k :
  is_relay cfg = false → writer_ok k →
  takes (on_rtc_event cfg now e) k (life (FromPeer now e) k).1 (life (FromPeer now e) k).2.
Proof.
  intros Hr Hw. destruct e as [| |ch|ch data|ch| |]; try destruct ch; cbn [on_rtc_event life fst snd];
    try (clear Hw; revert k; by quiet).
  - apply control_idle.
  - unfold on_wisp. rewrite Hr. 
    change (read (λ _, ?f)) with f.
    destruct (Wisp.parse data) as [[j kind port h|j p|j n|j code|j|kind j|kind j]|]; cbn [fst snd]; try (clear Hw; revert k; by quiet).
    + apply connect_idle.
    + case_bool_decide as Hj; [subst j; by apply data_takes|by apply data_idle].
    + case_bool_decide as Hj; [subst j; by apply end_takes|by apply end_idle].
Qed.

Lemma input_life i k :
  is_relay cfg = false → own_channel id c i → writer_ok k → takes (act_of i) k (life i k).1 (life i k).2.
Proof.
  intros Hr Hown Hw. destruct i as [now e|now i|now idle_]; cbn [act_of].
  - by apply peer_life.
  - by apply internal_life.
  - cbn [life fst snd]. clear Hw. revert k. apply idle_read. intros s. case_match; [by quiet|].
    apply idle_andthen; [|by quiet]. apply idle_in_turn, Forall_fmap, Forall_forall. intros j _. apply idle_close.
Qed.

(** What is still to reach the target: what is held, and what the peer goes
    on to say unless it has ended. *)
Definition owed (k : option Chan * list bytes * bool) (ins : list Input) : list bytes :=
  k.1.2 ++ if k.2 then [] else said id ins.

Lemma life_ok i k : own_channel id c i → writer_ok k → writer_ok (life i k).1.
Proof.
  intros Hown Hw. destruct i as [now e|now i|]; [| |done].
  - destruct e as [| |ch|ch data|ch| |]; try done. destruct ch; try done. cbn [life].
    destruct (Wisp.parse data) as [[]|]; try done; case_bool_decide; try done.
    destruct k as [[[c'|] e] []]; done.
  - destruct i; try done. cbn [life]. case_bool_decide; [|done]. destruct k as [[tc e] en].
    unfold writer_ok, answered. cbn. intros c' Hc'. destruct en; [|by injection Hc' as <-].
    destruct (Hw c' Hc') as (_ & _ & ?). done.
Qed.

Lemma life_owed i k ins : writer_ok k → owed k (i :: ins) = (life i k).2 ++ owed (life i k).1 ins.
Proof.
  intros Hw. unfold owed. destruct i as [now e|now i|]; [| |done].
  - destruct e as [| |ch|ch data|ch| |]; try done. destruct ch; try done. cbn [life said].
    destruct (Wisp.parse data) as [[]|]; try done; case_bool_decide; try done.
    + destruct k as [[[c'|] e] []]; try done.
      * destruct (Hw c' eq_refl) as (_ & _ & [=]).
      * destruct (Hw c' eq_refl) as (_ & He & _). cbn in *. by rewrite He.
      * cbn. by rewrite <- app_assoc.
    + cbn. by destruct k.2.
  - destruct i; try done. cbn [life said]. case_bool_decide; [|done]. unfold answered. cbn. by destruct k as [[? ?] []].
Qed.

(** A whole life. *)
Fixpoint lives (ins : list Input) (k : option Chan * list bytes * bool) :
    (option Chan * list bytes * bool) * list bytes :=
  match ins with
  | [] => (k, [])
  | i :: ins => let '(k, l) := life i k in let '(k, l') := lives ins k in (k, l ++ l')
  end.

Lemma run_lives ins : is_relay cfg = false → Forall (own_channel id c) ins → ∀ k s,
  writer_ok k → apart s → (∃ st, streams s !! id = Some st ∧ core st = k) → open_throughout id (run ins s).2 →
  ∃ st', streams (run ins s).1 !! id = Some st' ∧ core st' = (lives ins k).1 ∧ sent c (run ins s).2 = (lives ins k).2.
Proof.
  intros Hr. unfold run. induction 1 as [|i ins Hi _ IH]; intros k s Hw Hs Hst Ho.
  { destruct Hst as (st & Hst & Hk). by exists st. }
  change (in_turn (act_of <$> i :: ins)) with (andthen (act_of i) (in_turn (act_of <$> ins))) in *.
  pose proof (input_life i k Hr Hi Hw s Hs Hst) as Hstep. unfold andthen in *. cbn [lives].
  pose proof (life_ok i k Hi Hw) as Hw1.
  destruct (act_of i s) as [s1 o1]. destruct (life i k) as [k1 l1]. pose proof (IH k1 s1 Hw1) as Hrest.
  destruct (in_turn (act_of <$> ins) s1) as [s2 o2]. cbn [fst snd] in *. apply Forall_app in Ho as [Ho1 Ho2].
  destruct (Hstep Ho1) as (H1 & H2 & <-). destruct (Hrest H1 H2 Ho2) as (st' & H4 & H5 & H6).
  destruct (lives ins k1) as [k2 l2]. exists st'. rewrite sent_app. cbn in *. by rewrite H6.
Qed.

Lemma lives_owed ins : Forall (own_channel id c) ins → ∀ k,
  writer_ok k → owed k ins = (lives ins k).2 ++ owed (lives ins k).1 [].
Proof.
  induction 1 as [|i ins Hi _ IH]; intros k Hw; [done|]. rewrite life_owed by done. cbn [lives].
  pose proof (life_ok i k Hi Hw) as Hw1. destruct (life i k) as [k1 l1]. cbn [fst snd] in *. rewrite (IH k1 Hw1).
  destruct (lives ins k1). by rewrite app_assoc.
Qed.

(** Once its target answered, a stream holds nothing back. *)
Definition settled (k : option Chan * list bytes * bool) : Prop := k.1.2 = [] ∧ (k.1.1 = None → k.2 = true).
Definition answers (i : Input) : Prop := match i with FromTask _ (IConnected _ j _ _) => j = id | _ => False end.

Lemma life_settled i k : settled k ∨ answers i → settled (life i k).1.
Proof.
  destruct k as [[tc e] en]. destruct i as [now ev|now i|]; cbn [answers].
  - intros [[He Hen]|[]]. cbn in He, Hen. subst e. destruct ev as [| |ch|ch data|ch| |]; try done. destruct ch; try done.
    cbn [life]. destruct (Wisp.parse data) as [[]|]; try done; case_bool_decide; try done.
    destruct tc; [done|]. by rewrite (Hen eq_refl).
  - destruct i; cbn [life]; try by intros [?|[]]. case_bool_decide; [|by intros [?|?]].
    intros _. split; [done|]. cbn. by destruct en.
  - by intros [?|[]].
Qed.

Lemma lives_settled ins : ∀ k, settled k ∨ Exists answers ins → settled (lives ins k).1.
Proof.
  induction ins as [|i ins IH]; intros k; [intros [?|He]; [done|by inversion He]|].
  intros Hor. cbn [lives]. pose proof (life_settled i k) as Hi. destruct (life i k) as [k1 l1]. cbn [fst] in Hi.
  assert (Hk1 : settled k1 ∨ Exists answers ins).
  { rewrite Exists_cons in Hor. destruct Hor as [?|[?|?]]; [left; apply Hi; by left|left; apply Hi; by right|by right]. }
  pose proof (IH k1 Hk1) as H2. by destruct (lives ins k1).
Qed.

(** C31: On a session that is no relay, from a stream's making to any later
    moment before it is reported closed, when every answer that names it
    brings one and the same channel and no other stream's answer does
    ([own_channel]; a late answer of a closed stream of the same number
    breaks it, [closed_stream_answers]): what that channel's writer was sent
    is what the peer wrote on the stream until it ended its side, packet for
    packet and in order, but for what is held while the target has not
    answered; and once it has, nothing is held. *)
Theorem stream_in_order ins s st :
  is_relay cfg = false → Forall (own_channel id c) ins → apart s → streams s !! id = Some st →
  to_tcp st = None → early st = [] → ended_in st = false → open_throughout id (run ins s).2 →
  ∃ st', streams (run ins s).1 !! id = Some st' ∧ said id ins = sent c (run ins s).2 ++ early st'
         ∧ (Exists answers ins → early st' = []).
Proof.
  intros Hr Hins Hs Hst Htc He Hen Ho. set (k := (None, [], false) : option Chan * list bytes * bool).
  assert (Hw : writer_ok k) by done.
  assert (Hk : ∃ st, streams s !! id = Some st ∧ core st = k) by (exists st; unfold core, k; by rewrite Htc, He, Hen).
  destruct (run_lives ins Hr Hins k s Hw Hs Hk Ho) as (st' & H1 & H2 & ->). exists st'.
  pose proof (lives_owed ins Hins k Hw) as Howed. pose proof (lives_settled ins k) as Hset.
  destruct (lives ins k) as [k' l]. cbn [fst snd] in *. subst k'. unfold owed, core, settled in *. cbn in Howed, Hset.
  split; [done|]. split; [|intros Ha; by apply Hset; right]. rewrite Howed. f_equal.
  destruct (ended_in st'); by rewrite app_nil_r.
Qed.
End life.
End facts.
End StreamFacts.
