(* ===== verification/Caller.v ===== *)
(** * The caller of a session ([crates/drt-rtc/src/caller.rs])

    The task that owns a connection: what its holder orders, what the
    library and the answerer say.  Effects are as the host's: bytes for a
    stream's holder, an end told, packets handed on as they are.

    ** What a caller sends of its streams

    What a stream's holder writes reaches the channel whole and in order, in
    packets no longer than the answerer holds, and no more of them than the
    answerer granted: over any orders and any packets from the far side that
    leave the stream open. *)

From stdpp Require Import gmap.
From S2P Require Import Prelude.
From S2P Require Import Bytes.
From S2P Require Import Canon.
From S2P Require Import Reach.
From S2P Require Import ReachSpec.
From S2P Require Import Presence.
From S2P Require Import Forward.
From S2P Require Import Host.

Module Caller.

Definition DATA_MAX : nat := 16 * 1024 - 5.

Section driver.
Context {Chan : Type}.

(** What a holder asks. *)
Inductive Order :=
  | OOpen (target : Target.Target) (to_holder : Chan)
  | OData (stream : N) (bs : bytes)
  | OEof (stream : N)
  | OControl (text : string)
  | ORaw (incoming : Chan)
  | OPacket (pkt : bytes).

Inductive Effect :=
  | ToHolder (c : Chan) (bs : bytes)
  | HolderEnds (c : Chan)
  | Closed (stream code : N)
  | Opened (stream : N)
  | OpenRefused (why : string)
  | ControlOut (text : string)
  | RawIn (c : Chan) (pkt : bytes)
  | Ready (hello : string)
  | NotReady (why : string).

Record Stream := MkStream {
  remaining : N;
  queued : list bytes;
  to_holder : option Chan;
  ended_out : bool;
}.

Context {R : Type} `{RR : !Rtc R}.

Record Driver := MkDriver {
  d_rtc : R;
  open_control : bool;
  open_wisp : bool;
  hello : option string;
  credit : option N;
  ready : bool;
  d_streams : gmap N Stream;
  next_id : N;
  d_outbox : list bytes;
  ended : option string;
  raw : option Chan;
  d_half_close : bool;
}.

Definition start (r : R) : Driver := MkDriver r false false None None true ∅ 1 [] None None false.

Definition set_rtc (r : R) (d : Driver) : Driver :=
  MkDriver r (open_control d) (open_wisp d) (hello d) (credit d) (ready d) (d_streams d) (next_id d) (d_outbox d)
    (ended d) (raw d) (d_half_close d).
Definition set_outbox (o : list bytes) (d : Driver) : Driver :=
  MkDriver (d_rtc d) (open_control d) (open_wisp d) (hello d) (credit d) (ready d) (d_streams d) (next_id d) o
    (ended d) (raw d) (d_half_close d).
Definition set_streams (m : gmap N Stream) (d : Driver) : Driver :=
  MkDriver (d_rtc d) (open_control d) (open_wisp d) (hello d) (credit d) (ready d) m (next_id d) (d_outbox d)
    (ended d) (raw d) (d_half_close d).
Definition set_open (c w : bool) (d : Driver) : Driver :=
  MkDriver (d_rtc d) c w (hello d) (credit d) (ready d) (d_streams d) (next_id d) (d_outbox d)
    (ended d) (raw d) (d_half_close d).
Definition set_hello (t : string) (half : bool) (d : Driver) : Driver :=
  MkDriver (d_rtc d) (open_control d) (open_wisp d) (Some t) (credit d) (ready d) (d_streams d) (next_id d)
    (d_outbox d) (ended d) (raw d) half.
Definition set_credit (n : N) (d : Driver) : Driver :=
  MkDriver (d_rtc d) (open_control d) (open_wisp d) (hello d) (Some n) (ready d) (d_streams d) (next_id d)
    (d_outbox d) (ended d) (raw d) (d_half_close d).
Definition set_ended (why : string) (d : Driver) : Driver :=
  MkDriver (d_rtc d) (open_control d) (open_wisp d) (hello d) (credit d) (ready d) (d_streams d) (next_id d)
    (d_outbox d) (Some why) (raw d) (d_half_close d).
Definition told_ready (d : Driver) : Driver :=
  MkDriver (d_rtc d) (open_control d) (open_wisp d) (hello d) (credit d) false (d_streams d) (next_id d)
    (d_outbox d) (ended d) (raw d) (d_half_close d).
Definition set_raw (c : Chan) (d : Driver) : Driver :=
  MkDriver (d_rtc d) (open_control d) (open_wisp d) (hello d) (credit d) (ready d) (d_streams d) (next_id d)
    (d_outbox d) (ended d) (Some c) (d_half_close d).
Definition set_next (n : N) (d : Driver) : Driver :=
  MkDriver (d_rtc d) (open_control d) (open_wisp d) (hello d) (credit d) (ready d) (d_streams d) n (d_outbox d)
    (ended d) (raw d) (d_half_close d).

Definition Act : Type := Driver → Driver * list Effect.
Definition done_ : Act := λ d, (d, []).
Definition upd (f : Driver → Driver) : Act := λ d, (f d, []).
Definition emit (e : Effect) : Act := λ d, (d, [e]).
Definition andthen (a b : Act) : Act := λ d,
  let '(d, o1) := a d in let '(d, o2) := b d in (d, o1 ++ o2).
Definition read (k : Driver → Act) : Act := λ d, k d d.
Infix "▷" := andthen (at level 85, right associativity).

(** [flush] and [send]. *)
Definition flush : Act := upd (λ d,
  if open_wisp d then let '(o, r) := Host.write_outbox (d_outbox d) (d_rtc d) in set_rtc r (set_outbox o d) else d).
Definition send (pkt : bytes) : Act := upd (λ d, set_outbox (d_outbox d ++ [pkt]) d) ▷ flush.

Fixpoint send_all (pkts : list bytes) : Act :=
  match pkts with [] => done_ | p :: ps => send p ▷ send_all ps end.

(** [pump]: what is queued, as far as the credit goes. *)
Definition pump (id : N) : Act := read (λ d,
  match d_streams d !! id with
  | None => done_
  | Some s =>
      let n := N.to_nat (remaining s) `min` length (queued s) in
      upd (λ d, set_streams (<[id := MkStream (remaining s - N.of_nat n) (drop n (queued s)) (to_holder s)
                                       (ended_out s)]> (d_streams d)) d)
      ▷ send_all (take n (queued s))
  end).

Definition remove_stream (id : N) : Act := upd (λ d, set_streams (delete id (d_streams d)) d).

Definition half_closes `{JR : JsonRead} (t : string) : bool :=
  match json_read t with
  | Ok v => match json_get "half_close" v with Some (JBool b) => b | _ => false end
  | Err _ => false
  end.

(** [on_wisp]. *)
Definition on_end (id : N) : Act := read (λ d,
  match d_streams d !! id with
  | None => done_
  | Some s =>
      (match to_holder s with Some c => emit (HolderEnds c) | None => done_ end)
      ▷ (if ended_out s then
           remove_stream id ▷ emit (Closed id Forward.VOLUNTARY) ▷ send (Wisp.close id Forward.VOLUNTARY)
         else upd (λ d, set_streams (<[id := MkStream (remaining s) (queued s) None false]> (d_streams d)) d))
  end).

Definition on_wisp (msg : bytes) : Act :=
  match Wisp.parse msg with
  | Some (Wisp.Continue id n) =>
      if bool_decide (id = 0)%N then
        read (λ d, match credit d with None => upd (set_credit n) | Some _ => done_ end)
      else
        upd (λ d, set_streams (alter (λ s, MkStream n (queued s) (to_holder s) (ended_out s)) id (d_streams d)) d)
        ▷ pump id
  | Some (Wisp.Data id payload) => read (λ d,
      match d_streams d !! id ≫= to_holder with
      | Some c => emit (ToHolder c payload)
      | None => done_
      end)
  | Some (Wisp.End_ id) => on_end id
  | Some (Wisp.Close id code) => read (λ d,
      match d_streams d !! id with
      | Some s => remove_stream id ▷ emit (Closed id code)
                  ▷ (match to_holder s with Some c => emit (HolderEnds c) | None => done_ end)
      | None => done_
      end)
  | Some (Wisp.Connect id _ _ _) => send (Wisp.close id Forward.BLOCKED)
  | _ => done_
  end.

(** [bytes.chunks(DATA_MAX)]. *)
Fixpoint chunks (fuel : nat) (bs : bytes) : list bytes :=
  match fuel, bs with
  | 0, _ | _, [] => []
  | S fuel, _ => take DATA_MAX bs :: chunks fuel (drop DATA_MAX bs)
  end.

Definition open_stream (target : Target.Target) (c : Chan) : Act := read (λ d,
  match credit d with
  | None => emit (OpenRefused "rtc: the answerer serves nothing: it sent no credit")
  | Some n =>
      let id := next_id d in
      upd (λ d, set_streams (<[id := MkStream n [] (Some c) false]> (d_streams d)) (set_next ((id + 2) mod 2 ^ 32) d))
      ▷ send (Target.connect_packet target id)
      ▷ emit (Opened id)
  end).

Definition on_order (o : Order) : Act :=
  match o with
  | OOpen target c => open_stream target c
  | OData id bs =>
      upd (λ d, set_streams (alter (λ s, MkStream (remaining s)
                 (queued s ++ (Wisp.data id <$> chunks (length bs) bs)) (to_holder s) (ended_out s)) id (d_streams d)) d)
      ▷ pump id
  | OEof id => read (λ d,
      match d_streams d !! id with
      | None => done_
      | Some s =>
          if d_half_close d && bool_decide (is_Some (to_holder s)) && negb (ended_out s) then
            upd (λ d, set_streams (<[id := MkStream (remaining s) (queued s) (to_holder s) true]> (d_streams d)) d)
            ▷ send (Wisp.end_ id)
          else
            remove_stream id ▷ emit (Closed id Forward.VOLUNTARY)
            ▷ (match to_holder s with Some c => emit (HolderEnds c) | None => done_ end)
            ▷ send (Wisp.close id Forward.VOLUNTARY)
      end)
  | OControl text => upd (λ d, set_rtc (control_write (as_bytes text) (d_rtc d)) d)
  | ORaw c => upd (set_raw c)
  | OPacket pkt => send pkt
  end.

Definition FEATURES : bytes :=
  let q := String (of_byte 34) "" in
  as_bytes ("{" +:+ q +:+ "t" +:+ q +:+ ":" +:+ q +:+ "features" +:+ q +:+ "," +:+ q +:+ "half_close" +:+ q +:+ ":true}").

(** [on_event]; then whether the connection is ready. *)
Definition tell_ready : Act := read (λ d,
  match open_control d && open_wisp d, credit d, ready d, hello d with
  | true, Some _, true, Some h => upd told_ready ▷ emit (Ready h)
  | _, _, _, _ => done_
  end).

Definition on_event `{JR : JsonRead} (e : RtcEvent) : Act :=
  (match e with
   | ChannelOpen Control => upd (λ d, set_open true (open_wisp d) d)
   | ChannelOpen WispChannel => upd (λ d, set_open (open_control d) true d)
   | ChannelData Control data =>
       let text := from_utf8_lossy data in
       read (λ d, match hello d with
         | None => upd (λ d, let d := set_hello text (half_closes text) d in
                             set_rtc (control_write FEATURES (d_rtc d)) d)
         | Some _ => emit (ControlOut text)
         end)
   | ChannelData WispChannel data =>
       read (λ d, match raw d with Some c => emit (RawIn c data) | None => on_wisp data end)
   | ChannelClose _ => upd (set_ended "rtc: a data channel closed")
   | IceDisconnected => upd (set_ended "rtc: ice disconnected")
   | BufferedAmountLow => flush
   | _ => done_
   end) ▷ tell_ready.

(** [drain]: until the library only waits; [None] when the fuel runs out. *)
Fixpoint drain `{JR : JsonRead} (fuel : nat) (now : N) (d : Driver) : option (Driver * list Effect * N) :=
  match fuel with
  | 0 => None
  | S fuel =>
      match rtc_poll (d_rtc d) with
      | (Ok (OutTimeout t), r) => let '(d, o) := flush (set_rtc r d) in Some (d, o, t)
      | (Ok (OutTransmit _ _), r) => drain fuel now (set_rtc r d)
      | (Ok (OutEvent e), r) =>
          let '(d, o1) := on_event e (set_rtc r d) in
          '(d, o2, t) ← drain fuel now d; Some (d, o1 ++ o2, t)
      | (Err e, r) => Some (set_ended ("rtc: " +:+ e) (set_rtc r d), [], now)
      end
  end.

(** The end of a connection: whoever waits is told, and every stream. *)
Definition finish (why : string) : Act := λ d,
  (set_streams ∅ (told_ready d),
   (if ready d then [NotReady why] else [])
   ++ ((λ kv : N * Stream, Closed kv.1 Forward.NETWORK_ERROR) <$> map_to_list (d_streams d))).

(** What wakes the task. *)
Inductive Wake := WReceive (dg : Datagram) | WOrder (o : Order) | WTimeout.

Definition fed (r : result unit string * R) (d : Driver) : Driver :=
  match r with
  | (Ok _, r) => set_rtc r d
  | (Err e, r) => set_ended ("rtc: " +:+ e) (set_rtc r d)
  end.

Definition on_wake (now : N) (w : Wake) : Act :=
  match w with
  | WReceive dg => upd (λ d, if is_packet (dg_contents dg) then fed (rtc_receive now dg (d_rtc d)) d else d)
  | WOrder o => on_order o
  | WTimeout => upd (λ d, fed (rtc_timeout now (d_rtc d)) d)
  end.

(** One turn of [run], and whether it is the last. *)
Definition turn `{JR : JsonRead} (fuel : nat) (now : N) (w : Wake) (d : Driver) :
    option (Driver * list Effect * bool) :=
  '(d, o1, _) ← drain fuel now d;
  match ended d with
  | Some why => let '(d, o2) := finish why d in Some (d, o1 ++ o2, true)
  | None => let '(d, o2) := on_wake now w d in Some (d, o1 ++ o2, false)
  end.
End driver.
End Caller.

Module CallerFacts.
Import Caller.

(** ** Bytes in packets *)

Lemma chunks_whole fuel : ∀ bs, length bs ≤ fuel → mjoin (chunks fuel bs) = bs.
Proof.
  induction fuel as [|fuel IH]; intros [|b bs] Hn; try done; [simpl in Hn; lia|].
  change (mjoin (chunks (S fuel) (b :: bs)))
    with (take DATA_MAX (b :: bs) ++ mjoin (chunks fuel (drop DATA_MAX (b :: bs)))).
  rewrite IH; [by rewrite take_drop|]. rewrite length_drop. unfold DATA_MAX. cbn [length] in *. lia.
Qed.

Lemma chunks_bounded fuel : ∀ bs, Forall (λ p, 0 < length p ≤ DATA_MAX) (chunks fuel bs).
Proof.
  induction fuel as [|fuel IH]; intros [|b bs]; try by constructor.
  change (chunks (S fuel) (b :: bs)) with (take DATA_MAX (b :: bs) :: chunks fuel (drop DATA_MAX (b :: bs))).
  constructor; [|done]. rewrite length_take. unfold DATA_MAX. cbn [length]. lia.
Qed.

(** What a packet carries for a stream. *)
Definition carried (id : N) (pkt : bytes) : option bytes :=
  match Wisp.parse pkt with
  | Some (Wisp.Data j b) => if bool_decide (j = id) then Some b else None
  | _ => None
  end.
Definition data_of (id : N) (pkts : list bytes) : list bytes := omap (carried id) pkts.

Lemma data_of_app id l1 l2 : data_of id (l1 ++ l2) = data_of id l1 ++ data_of id l2.
Proof. apply omap_app. Qed.

Lemma parse_data j b : (j < 2 ^ 32)%N → Wisp.parse (Wisp.data j b) = Some (Wisp.Data j b).
Proof. intros Hj. by apply (WispFacts.parse_encode (Wisp.Data j b)). Qed.

Lemma data_of_own id l : (id < 2 ^ 32)%N → data_of id (Wisp.data id <$> l) = l.
Proof.
  intros Hid. induction l as [|b l IH]; [done|].
  change (data_of id (Wisp.data id <$> b :: l))
    with (match carried id (Wisp.data id b) with Some x => x :: data_of id (Wisp.data id <$> l)
          | None => data_of id (Wisp.data id <$> l) end).
  unfold carried at 1. rewrite parse_data by done. by rewrite bool_decide_true, IH.
Qed.

Lemma data_of_other id j l : (j < 2 ^ 32)%N → j ≠ id → data_of id (Wisp.data j <$> l) = [].
Proof.
  intros Hj Hne. induction l as [|b l IH]; [done|].
  change (data_of id (Wisp.data j <$> b :: l))
    with (match carried id (Wisp.data j b) with Some x => x :: data_of id (Wisp.data j <$> l)
          | None => data_of id (Wisp.data j <$> l) end).
  unfold carried at 1. rewrite parse_data by done. by rewrite bool_decide_false.
Qed.

(** The other packets carry nothing. *)
Lemma carried_close id j code : carried id (Wisp.close j code) = None.
Proof. done. Qed.
Lemma carried_end id j : carried id (Wisp.end_ j) = None.
Proof. done. Qed.
Lemma carried_connect id t j : carried id (Target.connect_packet t j) = None.
Proof. by destruct t. Qed.

Section facts.
Context {Chan R : Type} `{RR : !Rtc R} `{JR : JsonRead}.
Implicit Types (d : Driver (Chan := Chan) (R := R)) (st : Stream (Chan := Chan)).
Implicit Types (a b : Act (Chan := Chan) (R := R)).

(** What the library's channel has taken: a packet it does not take it
    leaves alone, and the control channel is another. *)
Context (taken : R → list bytes).
Hypothesis write_law : ∀ p r ok r', wisp_write p r = (ok, r') → taken r' = taken r ++ (if ok : bool then [p] else []).
Hypothesis control_law : ∀ m r, taken (control_write m r) = taken r.

(** All that has been sent: what the channel took, and what waits for it. *)
Definition wire d : list bytes := taken (d_rtc d) ++ d_outbox d.

Lemma write_outbox_wire o : ∀ r,
  taken (Host.write_outbox o r).2 ++ (Host.write_outbox o r).1 = taken r ++ o.
Proof.
  induction o as [|p o IH]; intros r; [done|]. cbn [Host.write_outbox].
  destruct (wisp_write p r) as [ok r'] eqn:E. pose proof (write_law _ _ _ _ E) as Hw. destruct ok.
  - by rewrite IH, Hw, <- app_assoc.
  - cbn. by rewrite Hw, app_nil_r.
Qed.

Lemma flush_wire d :
  d_streams (flush d).1 = d_streams d ∧ wire (flush d).1 = wire d ∧ next_id (flush d).1 = next_id d ∧ raw (flush d).1 = raw d.
Proof.
  unfold flush, upd. cbn [fst]. destruct (open_wisp d); [|done]. pose proof (write_outbox_wire (d_outbox d) (d_rtc d)) as Hw.
  destruct (Host.write_outbox _ _) as [o r]. done.
Qed.

(** ** A stream's inputs *)
Inductive Input := FromFar (e : RtcEvent) | Ask (o : Order (Chan := Chan)).
Definition act_of (i : Input) : Act := match i with FromFar e => on_event e | Ask o => on_order o end.
Fixpoint run (ins : list Input) : Act := match ins with [] => done_ | i :: ins => andthen (act_of i) (run ins) end.

Section life.
Context (id : N).
Hypothesis Hid : (id < 2 ^ 32)%N.
Hypothesis Hzero : id ≠ 0%N.

(** What a holder writes to the stream. *)
Definition asked (i : Input) : bytes :=
  match i with Ask (OData j bs) => if bool_decide (j = id) then bs else [] | _ => [] end.

(** The inputs of a life: the holder has not ended its writes, ids are as
    wide as they are, and the channel is not handed over as packets. *)
Definition usual (i : Input) : Prop :=
  match i with
  | Ask (OEof j) => j ≠ id ∧ (j < 2 ^ 32)%N
  | Ask (OData j _) => (j < 2 ^ 32)%N
  | Ask (OPacket _) | Ask (ORaw _) => False
  | _ => True
  end.

Definition stays_open (o : list (Effect (Chan := Chan))) : Prop :=
  Forall (λ e, match e with Closed j _ => j ≠ id | _ => True end) o.

(** Credit, and what waits for it. *)
Definition has k st : Prop :=
  remaining st = k.1 ∧ queued st = Wisp.data id <$> k.2 ∧ ended_out st = false.
Definition apart d : Prop :=
  ∀ j st, j ≠ id → d_streams d !! j = Some st → ∃ l, queued st = Wisp.data j <$> l ∧ (j < 2 ^ 32)%N.

Definition takes_now a d (k k' : N * list bytes) (l : list bytes) : Prop :=
  apart d → (∃ st, d_streams d !! id = Some st ∧ has k st) → stays_open (a d).2 →
  apart (a d).1 ∧ (∃ st, d_streams (a d).1 !! id = Some st ∧ has k' st)
  ∧ data_of id (wire (a d).1) = data_of id (wire d) ++ l ∧ next_id (a d).1 = next_id d ∧ raw (a d).1 = raw d.
Definition takes a k k' l : Prop := ∀ d, takes_now a d k k' l.
Definition calm a : Prop := ∀ k, takes a k k [].

Lemma takes_now_seq a b d k k1 k2 l1 l2 :
  takes_now a d k k1 l1 → takes_now b (a d).1 k1 k2 l2 → takes_now (andthen a b) d k k2 (l1 ++ l2).
Proof.
  unfold takes_now, andthen. intros Ha Hb Hs Hst. destruct (a d) as [d1 o1]. cbn [fst snd] in *.
  destruct (b d1) as [d2 o2]. cbn [fst snd] in *. intros [Q1 Q2]%Forall_app. destruct (Ha Hs Hst Q1) as (H1 & H2 & H3 & H4 & H4').
  destruct (Hb H1 H2 Q2) as (H5 & H6 & H7 & H8 & H8'). split_and!; [done|done| |congruence..].
  by rewrite H7, H3, app_assoc.
Qed.
Lemma takes_seq a b k k1 k2 l1 l2 : takes a k k1 l1 → takes b k1 k2 l2 → takes (andthen a b) k k2 (l1 ++ l2).
Proof. intros Ha Hb d. eapply takes_now_seq; [apply Ha|apply Hb]. Qed.
Lemma calm_andthen a b : calm a → calm b → calm (andthen a b).
Proof. intros Ha Hb k. by apply (takes_seq a b k k k [] []). Qed.

Lemma calm_done : calm done_.
Proof. intros k d Hs Hst _. by rewrite app_nil_r. Qed.
Lemma calm_emitted e : calm (emit e).
Proof. intros k d Hs Hst _. by rewrite app_nil_r. Qed.
Lemma calm_read (g : Driver → Act) : (∀ d, calm (g d)) → calm (read g).
Proof. intros Hg k d. apply (Hg d). Qed.
Lemma calm_same f :
  (∀ d, d_streams (f d) = d_streams d ∧ wire (f d) = wire d ∧ next_id (f d) = next_id d ∧ raw (f d) = raw d) → calm (upd f).
Proof.
  intros Hf k d Hs Hst _. destruct (Hf d) as (H1 & H2 & H3 & H4). unfold apart. cbn [upd fst]. rewrite H1, H2, H3, H4, app_nil_r.
  by split_and!.
Qed.
Lemma carries_read g k k' l :
  (∀ d st, d_streams d !! id = Some st → has k st → takes_now (g d) d k k' l) → takes (read g) k k' l.
Proof. intros Hg d Hs (st & Hst & Hk) Ho. unfold read in *. by apply (Hg d st Hst Hk Hs); [exists st|]. Qed.

Lemma calm_flush : calm flush.
Proof. apply calm_same. intros d. apply flush_wire. Qed.

Lemma carries_send k p : takes (send p) k k (data_of id [p]).
Proof.
  rewrite <- (app_nil_r (data_of id [p])). apply (takes_seq _ _ k k k); [|apply calm_flush].
  intros d Hs Hst _. split_and!; try done. unfold wire. cbn. by rewrite app_assoc, data_of_app.
Qed.
Lemma carries_sends k pkts : takes (send_all pkts) k k (data_of id pkts).
Proof.
  induction pkts as [|p pkts IH]; [apply calm_done|].
  change (p :: pkts) with ([p] ++ pkts). rewrite data_of_app.
  apply (takes_seq (send p) _ k k k); [apply carries_send|exact IH].
Qed.
Lemma calm_send p : carried id p = None → calm (send p).
Proof.
  intros Hp k. pose proof (carries_send k p) as Hs. unfold data_of in Hs.
  change (omap (carried id) [p]) with (match carried id p with Some x => [x] | None => [] end) in Hs. by rewrite Hp in Hs.
Qed.
Lemma calm_sends j l : (j < 2 ^ 32)%N → j ≠ id → calm (send_all (Wisp.data j <$> l)).
Proof. intros Hj Hne k. rewrite <- (data_of_other id j l Hj Hne). apply carries_sends. Qed.

Lemma carries_own f k k' :
  (∀ st, has k st → has k' (f st)) → takes (upd (λ d, set_streams (alter f id (d_streams d)) d)) k k' [].
Proof.
  intros Hf d Hs (st & Hst & Hk) _. cbn. split_and!; try done.
  - intros j stj Hj Hl. cbn in Hl. rewrite lookup_alter_ne in Hl by done. by apply Hs.
  - rewrite lookup_alter_eq, Hst. eexists. split; [done|]. by apply Hf.
  - by rewrite app_nil_r.
Qed.

(** The streams of the others. *)
Lemma idle_others (g : gmap N Stream → gmap N Stream) d :
  g (d_streams d) !! id = d_streams d !! id →
  (apart d → ∀ j st, j ≠ id → g (d_streams d) !! j = Some st → ∃ l, queued st = Wisp.data j <$> l ∧ (j < 2 ^ 32)%N) →
  ∀ k, takes_now (upd (λ d, set_streams (g (d_streams d)) d)) d k k [].
Proof.
  intros Hg Ho k Hs Hst _. cbn. rewrite Hg, app_nil_r. split_and!; try done. exact (Ho Hs).
Qed.
Lemma others_delete j : j ≠ id → calm (remove_stream j).
Proof.
  intros Hj k d. apply (idle_others (delete j)); [by rewrite lookup_delete_ne|].
  intros Hs i st Hi Hl. apply lookup_delete_Some in Hl as [_ Hl]. by apply Hs.
Qed.
Lemma others_insert j st d :
  j ≠ id → (apart d → ∃ l, queued st = Wisp.data j <$> l ∧ (j < 2 ^ 32)%N) →
  ∀ k, takes_now (upd (λ d, set_streams (<[j := st]> (d_streams d)) d)) d k k [].
Proof.
  intros Hj Hst. apply (idle_others (insert j st)); [by rewrite lookup_insert_ne|].
  intros Hs i sti Hi Hl. destruct (decide (i = j)) as [->|Hne].
  - rewrite lookup_insert_eq in Hl. injection Hl as <-. by apply Hst.
  - rewrite lookup_insert_ne in Hl by done. by apply Hs.
Qed.
Lemma others_alter j f :
  j ≠ id → (∀ st l, queued st = Wisp.data j <$> l → ∃ l', queued (f st) = Wisp.data j <$> l') →
  calm (upd (λ d, set_streams (alter f j (d_streams d)) d)).
Proof.
  intros Hj Hf k d. apply (idle_others (alter f j)); [by rewrite lookup_alter_ne|].
  intros Hs i sti Hi Hl. destruct (decide (i = j)) as [->|Hne].
  - rewrite lookup_alter_eq in Hl. destruct (d_streams d !! j) as [st|] eqn:E; [|done]. injection Hl as <-.
    destruct (Hs j st Hi E) as (l & Hl & Hb). destruct (Hf st l Hl) as [l' Hl']. by exists l'.
  - rewrite lookup_alter_ne in Hl by done. by apply Hs.
Qed.

(** ** Its steps *)

(** What the credit lets go. *)
Definition let_go (k : N * list bytes) : (N * list bytes) * list bytes :=
  let n := N.to_nat k.1 `min` length k.2 in ((k.1 - N.of_nat n, drop n k.2)%N, take n k.2).

Lemma pump_takes k : takes (pump id) k (let_go k).1 (let_go k).2.
Proof.
  apply carries_read. intros d st Hst Hk. rewrite Hst. destruct Hk as (Hr & Hq & He). rewrite Hr, Hq, length_fmap.
  unfold let_go. cbn [fst snd]. set (n := N.to_nat k.1 `min` length k.2).
  apply (takes_now_seq _ _ d k (k.1 - N.of_nat n, drop n k.2)%N _ []).
  - intros Hs _ _. cbn. split_and!; try done.
    + intros j stj Hj Hl. cbn in Hl. rewrite lookup_insert_ne in Hl by done. by apply Hs.
    + eexists. split; [apply lookup_insert_eq|]. unfold has. cbn. by rewrite fmap_drop.
    + by rewrite app_nil_r.
  - rewrite <- fmap_take. pose proof (carries_sends (k.1 - N.of_nat n, drop n k.2)%N (Wisp.data id <$> take n k.2)) as Ht.
    by rewrite (data_of_own id _ Hid) in Ht.
Qed.

Lemma pump_idle j : j ≠ id → calm (pump j).
Proof.
  intros Hj k d Hs. unfold pump, read. destruct (d_streams d !! j) as [st|] eqn:E; [|by apply calm_done].
  destruct (Hs j st Hj E) as (l & Hl & Hb). rewrite Hl, length_fmap. revert Hs.
  apply (takes_now_seq _ _ d k k k [] []).
  - apply others_insert; [done|]. intros _. cbn. eexists. by rewrite <- fmap_drop.
  - rewrite <- fmap_take. by apply calm_sends.
Qed.

(** What an input does to the stream's credit and queue, and what is sent. *)
Definition life (i : Input) (k : N * list bytes) : (N * list bytes) * list bytes :=
  match i with
  | Ask (OData j bs) => if bool_decide (j = id) then let_go (k.1, k.2 ++ chunks (length bs) bs) else (k, [])
  | FromFar (ChannelData WispChannel msg) =>
      match Wisp.parse msg with
      | Some (Wisp.Continue j n) => if bool_decide (j = id) then let_go (n, k.2) else (k, [])
      | _ => (k, [])
      end
  | _ => (k, [])
  end.

Ltac quiet := repeat first
  [ apply calm_send, carried_close | apply calm_send, carried_end
  | apply calm_done | apply calm_emitted | apply calm_flush | apply calm_andthen | apply calm_same; done ].

Lemma order_life o k :
  usual (Ask o) → (∀ t c, o ≠ OOpen t c) → takes (on_order o) k (life (Ask o) k).1 (life (Ask o) k).2.
Proof.
  intros Hu Hopen. destruct o as [t c|j bs|j|text|c|pkt]; cbn [on_order life fst snd]; try done.
  - by destruct (Hopen t c).
  - case_bool_decide as Hj.
    + subst j. set (cs := chunks (length bs) bs). apply (takes_seq _ _ k (k.1, k.2 ++ cs) _ []); [|apply pump_takes].
      apply carries_own. intros st (Hr & Hq & He). unfold has. cbn. rewrite Hr, Hq, fmap_app. done.
    + revert k. apply calm_andthen; [|by apply pump_idle]. apply others_alter; [done|].
      intros st l Hl. cbn. rewrite Hl, <- fmap_app. by eexists.
  - destruct Hu as [Hj Hb]. revert k. intros k d Hs. unfold read. destruct (d_streams d !! j) as [st|] eqn:E; [|by apply calm_done].
    revert Hs. destruct (_ && _ && _).
    + apply (takes_now_seq _ _ d k k k [] []); [|by quiet]. apply others_insert; [done|]. intros Hs. cbn. by apply Hs.
    + apply (takes_now_seq _ _ d k k k [] []); [by apply others_delete|].
      apply calm_andthen; [by quiet|]. destruct (to_holder st); by quiet.
  - revert k. apply calm_same. intros d. split_and!; try done. unfold wire. cbn. by rewrite control_law.
Qed.

(** Another stream opens, while there are ids left. *)
Lemma open_steps t c d k :
  next_id d ≠ id → (next_id d < 2 ^ 32)%N → apart d → (∃ st, d_streams d !! id = Some st ∧ has k st) →
  stays_open (on_order (OOpen t c) d).2 →
  apart (on_order (OOpen t c) d).1 ∧ (∃ st, d_streams (on_order (OOpen t c) d).1 !! id = Some st ∧ has k st)
  ∧ data_of id (wire (on_order (OOpen t c) d).1) = data_of id (wire d) ∧ raw (on_order (OOpen t c) d).1 = raw d
  ∧ (next_id (on_order (OOpen t c) d).1 = next_id d ∨ next_id (on_order (OOpen t c) d).1 = ((next_id d + 2) mod 2 ^ 32)%N).
Proof.
  intros Hne Hb Hs Hst. cbn [on_order]. unfold open_stream, read. destruct (credit d) as [n|]; [|by intros _; split_and!; try left].
  set (d1 := set_next ((next_id d + 2) mod 2 ^ 32) d). set (j := next_id d) in *.
  set (rest := andthen (send (Target.connect_packet t j)) (emit (Opened j))).
  assert (Ht : takes_now (andthen (upd (λ d, set_streams (<[j := MkStream n [] (Some c) false]> (d_streams d)) d)) rest)
                 d1 k k []).
  { apply (takes_now_seq _ _ d1 k k k [] []).
    - apply others_insert; [done|]. intros _. by exists [].
    - apply calm_andthen; [apply calm_send, carried_connect|by quiet]. }
  intros Ho. destruct (Ht Hs Hst Ho) as (H1 & H2 & H3 & H4 & H5). rewrite app_nil_r in H3. split_and!; try done. by right.
Qed.

Lemma calm_on (g : Driver → Act) : (∀ d k, takes_now (g d) d k k []) → calm (read g).
Proof. intros Hg k d. apply (Hg d k). Qed.

Lemma own_insert st k k' : has k' st → takes (upd (λ d, set_streams (<[id := st]> (d_streams d)) d)) k k' [].
Proof.
  intros Hst d Hs _ _. cbn. rewrite app_nil_r. split_and!; try done.
  - intros j stj Hj Hl. cbn in Hl. rewrite lookup_insert_ne in Hl by done. by apply Hs.
  - exists st. by rewrite lookup_insert_eq.
Qed.

Lemma on_end_idle j : calm (Caller.on_end j).
Proof.
  destruct (decide (j = id)) as [->|Hj].
  - intros k. apply carries_read. intros d st Hst (Hr & Hq & He). rewrite Hst, He.
    apply (takes_seq _ _ k k k [] []); [destruct (to_holder st); by quiet|]. by apply own_insert.
  - apply calm_on. intros d k. destruct (d_streams d !! j) as [st|] eqn:E; [|by apply calm_done].
    apply (takes_now_seq _ _ d k k k [] []); [destruct (to_holder st); by quiet|].
    assert (Hd : ∀ h : option Chan, ((match h with Some c => emit (HolderEnds c) | None => done_ end) d).1 = d) by by intros [].
    rewrite Hd. destruct (ended_out st).
    + apply calm_andthen; [by apply others_delete|]. by quiet.
    + apply others_insert; [done|]. intros Hs. cbn. by apply Hs.
Qed.

Lemma wisp_life msg k :
  takes (on_wisp msg) k (life (FromFar (ChannelData WispChannel msg)) k).1 (life (FromFar (ChannelData WispChannel msg)) k).2.
Proof.
  unfold on_wisp. cbn [life]. destruct (Wisp.parse msg) as [[j kind port h|j p|j n|j code|j|kind j|kind j]|]; cbn [fst snd];
    try by apply calm_done.
  - revert k. apply calm_send, carried_close.
  - revert k. apply calm_read. intros d. destruct (_ ≫= _); by quiet.
  - case_bool_decide as Hj; case_bool_decide as Hjid; try congruence.
    + revert k. apply calm_read. intros d. destruct (credit d); by quiet.
    + subst j. apply (takes_seq _ _ k (n, k.2) _ []); [|apply pump_takes]. apply carries_own.
      intros st (Hr & Hq & He). unfold has. by cbn.
    + revert k. apply calm_andthen; [|by apply pump_idle]. apply others_alter; [done|]. intros st l Hl. by exists l.
  - destruct (decide (j = id)) as [->|Hj].
    + intros d Hs (st & Hst & _) Ho. exfalso. revert Ho. unfold read. rewrite Hst. unfold remove_stream, upd, emit, andthen.
      cbn. destruct (to_holder st); cbn; intros Ho; apply Forall_cons in Ho as [Ho _]; by apply Ho.
    + revert k. apply calm_read. intros d. destruct (d_streams d !! j) as [st|]; [|by quiet].
      apply calm_andthen; [by apply others_delete|]. apply calm_andthen; [by quiet|]. destruct (to_holder st); by quiet.
  - apply on_end_idle.
Qed.

Lemma event_life e k d :
  raw d = None → takes_now (on_event e) d k (life (FromFar e) k).1 (life (FromFar e) k).2.
Proof.
  intros Hraw. unfold on_event.
  assert (Htell : calm tell_ready).
  { apply calm_read. intros d'. destruct (open_control d' && open_wisp d'), (credit d'), (ready d'), (hello d'); quiet. }
  rewrite <- (app_nil_r (life _ k).2). eapply takes_now_seq; [|apply Htell].
  destruct e as [| |ch|ch data|ch| |]; try destruct ch; try by (revert k d Hraw; intros k d _; revert k d; quiet).
  - revert d Hraw. intros d _. revert k d. apply calm_read. intros d. destruct (hello d); [by quiet|].
    apply calm_same. intros d'. split_and!; try done. unfold wire. cbn. by rewrite control_law.
  - intros Hs Hst. unfold read. rewrite Hraw, <- Hraw. exact (wisp_life data k d Hs Hst).
Qed.

(** ** A whole life *)
Fixpoint lives (ins : list Input) (k : N * list bytes) : (N * list bytes) * list bytes :=
  match ins with
  | [] => (k, [])
  | i :: ins => let '(k, l) := life i k in let '(k, l') := lives ins k in (k, l ++ l')
  end.

Lemma order_cases (o : Order (Chan := Chan)) : (∃ t c, o = OOpen t c) ∨ ∀ t c, o ≠ OOpen t c.
Proof. destruct o; [left; by eauto|right; done..]. Qed.

(** Ids enough for all that could open. *)
Definition ids_left (n : nat) d : Prop := (id < next_id d ∧ next_id d + 2 * N.of_nat n < 2 ^ 32)%N.

Lemma run_caller_lives ins : Forall usual ins → ∀ k d,
  raw d = None → ids_left (length ins) d → apart d → (∃ st, d_streams d !! id = Some st ∧ has k st) →
  stays_open (run ins d).2 →
  (∃ st, d_streams (run ins d).1 !! id = Some st ∧ has (lives ins k).1 st)
  ∧ data_of id (wire (run ins d).1) = data_of id (wire d) ++ (lives ins k).2.
Proof.
  induction 1 as [|i ins Hi _ IH]; intros k d Hraw Hn Hs Hst Ho; [by rewrite app_nil_r|].
  cbn [run lives]. unfold andthen. destruct Hn as [Hn1 Hn2]. cbn [length] in Hn2.
  assert (Hstep : stays_open (act_of i d).2 →
    apart (act_of i d).1 ∧ (∃ st, d_streams (act_of i d).1 !! id = Some st ∧ has (life i k).1 st)
    ∧ data_of id (wire (act_of i d).1) = data_of id (wire d) ++ (life i k).2
    ∧ raw (act_of i d).1 = None ∧ ids_left (length ins) (act_of i d).1).
  { unfold ids_left. destruct i as [e|o]; cbn [act_of]; intros Ho1.
    - destruct (event_life e k d Hraw Hs Hst Ho1) as (H1 & H2 & H3 & H4 & H5). rewrite H4, H5. split_and!; try done; lia.
    - destruct (order_cases o) as [(t & c & ->)|Hne].
      + destruct (open_steps t c d k) as (H1 & H2 & H3 & H4 & H5); [lia|lia|done|done|done|].
        rewrite H3, H4, app_nil_r. split_and!; try done.
        all: destruct H5 as [->| ->]; [lia|]; rewrite N.mod_small; lia.
      + destruct (order_life o k Hi Hne d Hs Hst Ho1) as (H1 & H2 & H3 & H4 & H5). rewrite H4, H5. split_and!; try done; lia. }
  revert Ho. cbn [run]. unfold andthen. destruct (act_of i d) as [d1 o1]. destruct (life i k) as [k1 l1].
  pose proof (IH k1 d1) as Hrest. destruct (run ins d1) as [d2 o2]. destruct (lives ins k1) as [k2 l2].
  cbn [fst snd] in *. intros [Ho1 Ho2]%Forall_app. destruct (Hstep Ho1) as (H1 & H2 & H3 & H4 & H5).
  destruct (Hrest H4 H5 H1 H2 Ho2) as [H6 H7]. by rewrite H7, H3, app_assoc.
Qed.

(** What is written is what goes out and what waits. *)
Lemma lives_whole ins : ∀ k,
  mjoin k.2 ++ mjoin (asked <$> ins) = mjoin (lives ins k).2 ++ mjoin (lives ins k).1.2.
Proof.
  assert (Hgo : ∀ k, mjoin k.2 = mjoin (let_go k).2 ++ mjoin (let_go k).1.2).
  { intros k. unfold let_go. cbn [fst snd]. by rewrite <- list.join_app, take_drop. }
  assert (Hlife : ∀ i k, mjoin k.2 ++ asked i = mjoin (life i k).2 ++ mjoin (life i k).1.2).
  { intros [e|o] k; cbn [asked life].
    - rewrite app_nil_r. destruct e as [| |ch|ch data|ch| |]; try done. destruct ch; try done.
      destruct (Wisp.parse data) as [[]|]; try done. case_bool_decide; [|done]. exact (Hgo (remaining0, k.2)).
    - destruct o; try by rewrite app_nil_r. case_bool_decide; [|by rewrite app_nil_r].
      rewrite <- (Hgo (k.1, k.2 ++ _)). cbn [snd]. by rewrite list.join_app, chunks_whole. }
  induction ins as [|i ins IH]; intros k; [by rewrite app_nil_r|]. cbn [lives].
  change (mjoin (asked <$> i :: ins)) with (asked i ++ mjoin (asked <$> ins)). rewrite app_assoc, Hlife.
  destruct (life i k) as [k1 l1]. cbn [fst snd]. rewrite <- app_assoc, IH. destruct (lives ins k1) as [k2 l2].
  cbn [fst snd]. by rewrite list.join_app, app_assoc.
Qed.

Definition fits (l : list bytes) : Prop := Forall (λ p, 0 < length p ≤ DATA_MAX) l.

Lemma lives_fit ins : ∀ k, fits k.2 → fits (lives ins k).2 ∧ fits (lives ins k).1.2.
Proof.
  assert (Hgo : ∀ k, fits k.2 → fits (let_go k).2 ∧ fits (let_go k).1.2).
  { intros k Hk. by split; [apply Forall_take|apply Forall_drop]. }
  assert (Hlife : ∀ i k, fits k.2 → fits (life i k).2 ∧ fits (life i k).1.2).
  { intros [e|o] k Hk; cbn [life].
    - destruct e as [| |ch|ch data|ch| |]; try by split; [constructor|]. destruct ch; try by split; [constructor|].
      destruct (Wisp.parse data) as [[]|]; try by split; [constructor|].
      case_bool_decide; [by apply Hgo|by split; [constructor|]].
    - destruct o; try by split; [constructor|]. case_bool_decide; [|by split; [constructor|]]. apply Hgo. apply Forall_app. split; [done|apply chunks_bounded]. }
  induction ins as [|i ins IH]; intros k Hk; [by split; [constructor|]|]. cbn [lives]. destruct (Hlife i k Hk) as [H1 H2].
  destruct (life i k) as [k1 l1]. destruct (IH k1 H2) as [H3 H4]. destruct (lives ins k1) as [k2 l2].
  cbn [fst snd] in *. split; [by apply Forall_app|done].
Qed.

(** What the far side grants the stream. *)
Definition granted (i : Input) : option N :=
  match i with
  | FromFar (ChannelData WispChannel msg) =>
      match Wisp.parse msg with
      | Some (Wisp.Continue j n) => if bool_decide (j = id) then Some n else None
      | _ => None
      end
  | _ => None
  end.
Definition ungranted : list Input → Prop := Forall (λ i, granted i = None).

Lemma let_go_credit k : ((let_go k).1.1 + N.of_nat (length (let_go k).2) = k.1)%N.
Proof. unfold let_go. cbn [fst snd]. rewrite length_take. lia. Qed.

(** Nothing waits that there is credit for. *)
Definition spent (k : N * list bytes) : Prop := k.2 = [] ∨ k.1 = 0%N.
Lemma let_go_spent k : spent (let_go k).1.
Proof.
  unfold let_go, spent. cbn [fst snd]. destruct (decide (N.to_nat k.1 ≤ length k.2)); [right; lia|left].
  apply drop_ge. lia.
Qed.

Lemma life_grant i n k : granted i = Some n → life i k = let_go (n, k.2).
Proof.
  destruct i as [e|o]; [|done]. destruct e as [| |ch|ch data|ch| |]; try done. destruct ch; try done.
  cbn [granted life]. destruct (Wisp.parse data) as [[]|]; try done. case_bool_decide; [|done]. by intros [= ->].
Qed.

Lemma life_credit i k : granted i = None → ((life i k).1.1 + N.of_nat (length (life i k).2) = k.1)%N.
Proof.
  intros Hg. destruct i as [e|o]; cbn [life granted] in *.
  - destruct e as [| |ch|ch data|ch| |]; try (cbn; lia). destruct ch; try (cbn; lia).
    destruct (Wisp.parse data) as [[]|]; try (cbn; lia). case_bool_decide; [done|cbn; lia].
  - destruct o; try (cbn; lia). case_bool_decide; [|cbn; lia]. apply (let_go_credit (k.1, k.2 ++ _)).
Qed.

Lemma life_spent i k : spent k → spent (life i k).1.
Proof.
  intros Hk. destruct i as [e|o]; cbn [life].
  - destruct e as [| |ch|ch data|ch| |]; try done. destruct ch; try done.
    destruct (Wisp.parse data) as [[]|]; try done. case_bool_decide; [apply let_go_spent|done].
  - destruct o; try done. case_bool_decide; [apply let_go_spent|done].
Qed.

Lemma lives_spent ins : ∀ k, spent k → spent (lives ins k).1.
Proof.
  induction ins as [|i ins IH]; intros k Hk; [done|]. cbn [lives]. pose proof (life_spent i k Hk) as H1.
  destruct (life i k) as [k1 l1]. pose proof (IH k1 H1) as H2. by destruct (lives ins k1).
Qed.

(** Between one grant and the next, what goes out comes out of the credit. *)
Lemma lives_credit ins : ungranted ins → ∀ k, ((lives ins k).1.1 + N.of_nat (length (lives ins k).2) = k.1)%N.
Proof.
  induction 1 as [|i ins Hi _ IH]; intros k; [cbn; lia|]. cbn [lives]. pose proof (life_credit i k Hi) as Hl.
  destruct (life i k) as [k1 l1]. specialize (IH k1). destruct (lives ins k1) as [k2 l2]. cbn [fst snd] in *.
  rewrite length_app. lia.
Qed.

Lemma lives_app pre post : ∀ k,
  lives (pre ++ post) k = ((lives post (lives pre k).1).1, (lives pre k).2 ++ (lives post (lives pre k).1).2).
Proof.
  induction pre as [|i pre IH]; intros k; [cbn; by destruct (lives post k)|]. cbn [app lives].
  destruct (life i k) as [k1 l1]. rewrite IH. destruct (lives pre k1) as [k2 l2]. cbn [fst snd]. by rewrite app_assoc.
Qed.

(** Since a grant, the credit is what was granted less what went out. *)
Lemma lives_since pre i n post k :
  granted i = Some n → ungranted post →
  ∃ since, (lives (pre ++ i :: post) k).2 = (lives pre k).2 ++ since
    ∧ ((lives (pre ++ i :: post) k).1.1 + N.of_nat (length since) = n)%N.
Proof.
  intros Hi Hp. rewrite lives_app. set (k1 := (lives pre k).1). exists (lives (i :: post) k1).2. split; [done|].
  cbn [lives fst snd]. rewrite (life_grant i n k1 Hi). pose proof (let_go_credit (n, k1.2)) as Hl.
  destruct (let_go (n, k1.2)) as [k2 l2]. pose proof (lives_credit post Hp k2) as Hc.
  destruct (lives post k2) as [k3 l3]. cbn [fst snd] in *. rewrite length_app. lia.
Qed.

Lemma run_app pre post d : run (pre ++ post) d = andthen (run pre) (run post) d.
Proof.
  revert d. induction pre as [|i pre IH]; intros d; cbn [app run]; unfold andthen; [by cbn; destruct (run post d)|].
  destruct (act_of i d) as [d1 o1]. rewrite IH. unfold andthen. destruct (run pre d1) as [d2 o2].
  destruct (run post d2) as [d3 o3]. by rewrite app_assoc.
Qed.

Lemma stays_open_pre pre post d : stays_open (run (pre ++ post) d).2 → stays_open (run pre d).2.
Proof.
  rewrite run_app. unfold andthen. destruct (run pre d) as [d1 o1]. destruct (run post d1) as [d2 o2].
  by intros [? _]%Forall_app.
Qed.

(** The stream is opened, with the credit streams begin with. *)
Lemma opened t c d n :
  credit d = Some n → next_id d = id → apart d → stays_open (on_order (OOpen t c) d).2 →
  let d1 := (on_order (OOpen t c) d).1 in
  apart d1 ∧ (∃ st, d_streams d1 !! id = Some st ∧ has (n, []) st)
  ∧ data_of id (wire d1) = data_of id (wire d) ∧ raw d1 = raw d ∧ next_id d1 = ((id + 2) mod 2 ^ 32)%N.
Proof.
  intros Hc Hn Hs. cbn [on_order]. unfold open_stream, read. rewrite Hc, Hn.
  set (d0 := set_streams (<[id := MkStream n [] (Some c) false]> (d_streams d)) (set_next ((id + 2) mod 2 ^ 32) d)).
  assert (Hcalm : calm (andthen (send (Target.connect_packet t id)) (emit (Opened id)))).
  { apply calm_andthen; [apply calm_send, carried_connect|apply calm_emitted]. }
  intros Ho. destruct (Hcalm (n, []) d0) as (H1 & H2 & H3 & H4 & H5).
  - intros j st Hj Hl. unfold d0 in Hl. cbn in Hl. rewrite lookup_insert_ne in Hl by done. by apply (Hs j).
  - eexists. split; [apply lookup_insert_eq|done].
  - exact Ho.
  - rewrite app_nil_r in H3. done.
Qed.

(** C34: From a stream's opening to any later moment at which it is still there,
    whatever the far side sends and whatever else the holders ask, while its
    holder has not ended its writes: the bytes its packets have carried and
    the bytes that wait are the bytes written to it, in order; no packet is
    empty or longer than the far side holds; what is left of its credit is
    the last grant (the one it opened with, while there is no other) less the
    packets that have gone out since; and nothing waits while credit is
    left. *)
Theorem caller_in_order t c ins d n :
  credit d = Some n → next_id d = id → (id + 2 * N.of_nat (S (length ins)) < 2 ^ 32)%N →
  raw d = None → apart d → Forall usual ins →
  let all := Ask (OOpen t c) :: ins in stays_open (run all d).2 →
  ∃ st' out waiting, d_streams (run all d).1 !! id = Some st' ∧ queued st' = Wisp.data id <$> waiting
    ∧ data_of id (wire (run all d).1) = data_of id (wire d) ++ out
    ∧ mjoin out ++ mjoin waiting = mjoin (asked <$> ins) ∧ fits (out ++ waiting)
    ∧ (ungranted ins → (remaining st' + N.of_nat (length out) = n)%N)
    ∧ (∀ pre i g post, ins = pre ++ i :: post → granted i = Some g → ungranted post →
         ∃ since, data_of id (wire (run all d).1) = data_of id (wire (run (Ask (OOpen t c) :: pre) d).1) ++ since
           ∧ (remaining st' + N.of_nat (length since) = g)%N)
    ∧ (waiting = [] ∨ remaining st' = 0%N).
Proof.
  intros Hc Hn Hids Hraw Hs Hu all. unfold all. cbn [run act_of].
  pose proof (opened t c d n Hc Hn Hs) as Hop.
  assert (Hrun : ∀ l, (andthen (on_order (OOpen t c)) (run l) d) = 
    ((run l (on_order (OOpen t c) d).1).1, (on_order (OOpen t c) d).2 ++ (run l (on_order (OOpen t c) d).1).2)).
  { intros l. unfold andthen. destruct (on_order (OOpen t c) d) as [d1 o1]. cbn [fst snd]. by destruct (run l d1). }
  setoid_rewrite Hrun. cbn [fst snd]. intros [Ho1 Ho2]%Forall_app. destruct (Hop Ho1) as (H1 & H2 & H3 & H4 & H5).
  set (d1 := (on_order (OOpen t c) d).1) in *. set (k := (n, []) : N * list bytes).
  rewrite N.mod_small in H5 by lia. rewrite Hraw in H4.
  assert (Hlives : ∀ l, Forall usual l → length l ≤ length ins → stays_open (run l d1).2 →
    (∃ st, d_streams (run l d1).1 !! id = Some st ∧ has (lives l k).1 st)
    ∧ data_of id (wire (run l d1).1) = data_of id (wire d) ++ (lives l k).2).
  { intros l Hl Hlen Hol. rewrite <- H3. apply run_caller_lives; try done. unfold ids_left. rewrite H5. lia. }
  destruct (Hlives ins Hu ltac:(done) Ho2) as ((st' & HS & Hr' & Hq' & _) & HD).
  destruct (lives_fit ins k) as [Hf1 Hf2]; [by constructor|].
  exists st', (lives ins k).2, (lives ins k).1.2. rewrite Hr'. split_and!; [done..| | | | |].
  - symmetry. exact (lives_whole ins k).
  - by apply Forall_app.
  - intros Hg. by apply (lives_credit ins Hg k).
  - intros pre i g post -> Hi Hp. destruct (lives_since pre i g post k Hi Hp) as (since & Hsince & Hcr).
    exists since. split; [|done]. apply Forall_app in Hu as [Hpre _].
    destruct (Hlives pre Hpre) as [_ Hdpre]; [rewrite length_app; lia|by eapply stays_open_pre|].
    by rewrite HD, Hdpre, Hsince, app_assoc.
  - apply (lives_spent ins k). by left.
Qed.
End life.
End facts.
End CallerFacts.
