(* ===== verification/HostDemo.v ===== *)
(** * Sessions at concrete inputs

    A library that keeps what it is given, a host with one service and one
    scope entry, and a caller: the hypotheses of the theorems hold there, and
    runs in which the code does not do what it means to. *)

From stdpp Require Import gmap.
From S2P Require Import Prelude.
From S2P Require Import Bytes.
From S2P Require Import Canon.
From S2P Require Import Sign.
From S2P Require Import Reach.
From S2P Require Import Presence.
From S2P Require Import Forward.
From S2P Require Import Host.
From S2P Require Import HostSpec.
From S2P Require Import StreamSpec.
From S2P Require Import Caller.

Module HostDemo.
Import Forward Host.

(** ** A library *)

Record Net := MkNet { to_poll : list Output; took_wisp : list bytes; took_control : list bytes }.

#[local] Instance demo_rtc : Rtc Net := {|
  rtc_new _ _ _ := Ok (MkNet [OutEvent RtcConnected; OutEvent (ChannelOpen Control); OutEvent (ChannelOpen WispChannel)] [] []);
  is_packet _ := true;
  rtc_accepts _ _ := true;
  rtc_receive _ d n :=
    (Ok tt, MkNet (to_poll n ++ [OutEvent (ChannelData WispChannel (dg_contents d))]) (took_wisp n) (took_control n));
  rtc_timeout _ n := (Ok tt, n);
  rtc_poll n := match to_poll n with
                | [] => (Ok (OutTimeout 60000), n)
                | o :: os => (Ok o, MkNet os (took_wisp n) (took_control n))
                end;
  rtc_disconnect n := n;
  control_write m n := MkNet (to_poll n) (took_wisp n) (took_control n ++ [m]);
  wisp_threshold _ n := n;
  wisp_write p n := (true, MkNet (to_poll n) (took_wisp n ++ [p]) (took_control n));
  wisp_buffered _ := 0%N;
|}.

#[local] Instance demo_base64 : Base64 := {|
  b64_encode bs := of_bytes (bs ++ replicate 12 "="%char);
  b64_decode s := let bs := as_bytes s in Ok (take (length bs - 12) bs);
|}.
#[local] Existing Instance plain_text.

Definition demo_record : Presence.Record_ :=
  Presence.MkRecord "abcd" "abcdefghijklmnopqrstuv" (replicate 32 "x"%char)
    ["candidate:1 1 udp 2130706431 192.168.1.20 50212 typ host"; "candidate:1 1 udp 2113937151 x.local 61234 typ host"].

(** Plain text of a few values. *)
Definition HELLO : string := "hello".
#[local] Instance demo_read : JsonRead := {|
  json_read s :=
    if bool_decide (s = HELLO) then Ok (JObject [("half_close", JBool true)])
    else Ok (PresenceFacts.wire_value demo_record);
|}.

Definition rtc_text : string := Presence.wire_text demo_record.

(** What is published is read back without the line no session can use. *)
Example record_read_back :
  Presence.encode demo_record = Ok rtc_text
  ∧ Presence.decode rtc_text = Ok (Presence.MkRecord "abcd" "abcdefghijklmnopqrstuv" (replicate 32 "x"%char)
      ["candidate:1 1 udp 2130706431 192.168.1.20 50212 typ host"]).
Proof. by vm_compute. Qed.

(** ** A host *)

(** Channels and tasks are numbers; the service is one. *)
Definition demo_cfg : HostConfig (Svc := N) :=
  MkHostConfig "demo" None [Scope.MkEntry "http" "box" 80] [("echo", Local 7%N)] 2 2 60000 false false FNone []
    [Cidr.MkCidr (V4 (10 * 2 ^ 24)) 8] true 5000 "host" "hosthosthosthosthosthost" (replicate 32 "h"%char).

Definition base : SocketAddr := MkSocketAddr (V4 (10 * 2 ^ 24 + 1)) 5000.
Definition far : SocketAddr := MkSocketAddr (V4 (10 * 2 ^ 24 + 2)) 6000.
Definition outsider : SocketAddr := MkSocketAddr (V4 (11 * 2 ^ 24 + 2)) 6000.
Definition line : string := "candidate:1 1 udp 2130706431 10.0.0.1 5000 typ host".

Abbreviation loop := (Loop (Chan := N) (Task := N) (R := Net)).
Abbreviation effects := (list (Effect (Chan := N) (Task := N) (Svc := N))).
Abbreviation demo_turn :=
  (Host.turn (Chan := N) (Task := N) demo_cfg (λ b, b) (λ _, None) base line (λ _, None) (λ _, "")).
Abbreviation demo_runs :=
  (Host.runs (Chan := N) (Task := N) demo_cfg (λ b, b) (λ _, None) base line (λ _, None) (λ _, "")).

(** A run of turns. *)
Fixpoint exec (ws : list (Wake (Chan := N) (Task := N))) (r : loop * effects) : option (loop * effects) :=
  match ws with
  | [] => Some r
  | w :: ws => '(h, o) ← demo_turn 9 0%N [] w r.1; exec ws (h, r.2 ++ o)
  end.

Lemma exec_runs ws : ∀ r r', demo_runs r.1 r.2 → exec ws r = Some r' → demo_runs r'.1 r'.2.
Proof.
  induction ws as [|w ws IH]; intros [h o] r' Hr; cbn [exec]; [by intros [= <-]|].
  destruct (demo_turn 9 0%N [] w h) as [[h1 o1]|] eqn:Et; cbn [fst snd]; [|rewrite Et; done].
  rewrite Et. cbn. apply IH. by eapply runs_turn.
Qed.

(** A peer opens a session, asks for a name in the scope, one that is not and
    the service, and writes before the first is up. *)
Definition script : list (Wake (Chan := N) (Task := N)) :=
  [WCommand (Open "browser" rtc_text); WDatagram (Wisp.connect 1 1 80 "box") far;
   WDatagram (Wisp.connect 3 1 22 "box") far; WDatagram (Wisp.connect 5 1 0 "echo") far;
   WDatagram (Wisp.data 1 ["a"; "b"]%char) far; WInternal (IConnected 1 1 4%N [8; 9]%N); WDeadline].
Definition outcome : option (loop * effects) :=
  exec script (Host.start demo_cfg base line (λ _, None) 0).

Definition connects (o : effects) : list (N * Sink (Svc := N) * string * N) :=
  omap (λ e, match e with Connect _ id sink host port => Some (id, sink, host, port) | _ => None end) o.
Definition sends (o : effects) : list (N * bytes) :=
  omap (λ e, match e with Send c bs => Some (c, bs) | _ => None end) o.

Lemma script_outcome :
  (λ r : loop * effects, (length (sessions r.1), (λ s, size (streams s)) <$> sessions r.1, connects r.2, sends r.2)) <$> outcome
  = Some (1, [2], [(1%N, Dial (Scope.MkEntry "http" "box" 80), "box", 80%N); (5%N, Local 7%N, "echo", 0%N)], [(4%N, ["a"; "b"]%char)]).
Proof. by vm_compute. Qed.

Lemma script_runs r : outcome = Some r → demo_runs r.1 r.2.
Proof. apply exec_runs, runs_start. Qed.

Lemma host_bounded_witness :
  ∃ h o, demo_runs h o ∧ HostFacts.tidy demo_cfg (next_key h) (sessions h) ∧ Forall (HostFacts.effect_ok demo_cfg) o
    ∧ length (sessions h) = 1 ∧ length (connects o) = 2.
Proof.
  pose proof script_outcome as Hs. pose proof script_runs as Hr. destruct outcome as [[h o]|]; [|discriminate Hs].
  specialize (Hr (h, o) eq_refl).
  cbv [fmap option_fmap option_map fst snd] in Hs. injection Hs as Hn _ Hc _.
  destruct (HostFacts.host_bounded demo_cfg (λ b, b) (λ _, None) base line (λ _, None) (λ _, "") h o Hr) as [H1 H2].
  exists h, o. split; [exact Hr|]. split; [exact H1|]. split; [exact H2|]. split; [exact Hn|].
  rewrite Hc. reflexivity.
Defined.

(** The first stream's target is dialled at the one address its name has. *)
Definition box_found : Lookup := Found [MkSocketAddr (V4 (127 * 2 ^ 24 + 1)) 80; far].

Lemma connects_elem id sink host port o :
  (id, sink, host, port) ∈ connects o → ∃ key, Connect key id sink host port ∈ o.
Proof.
  unfold connects. intros (e & He & Hm)%list_elem_of_omap. destruct e; try done. injection Hm as -> -> -> ->. by eexists.
Qed.

Lemma reaches_only_granted_witness :
  ∃ h o key, demo_runs h o ∧ Connect key 1 (Dial (Scope.MkEntry "http" "box" 80)) "box" 80 ∈ o
    ∧ AccessFacts.granted demo_cfg "box" 80 (Dial (Scope.MkEntry "http" "box" 80))
    ∧ dial (Scope.MkEntry "http" "box" 80) box_found (λ _, Connected) = Ok far
    ∧ Scope.resolved_ok (Scope.MkEntry "http" "box" 80) (sa_ip far) = true.
Proof.
  pose proof script_outcome as Hs.
  pose proof script_runs as Hr. destruct outcome as [[h o]|]; [|discriminate Hs]. specialize (Hr (h, o) eq_refl).
  cbv [fmap option_fmap option_map fst snd] in Hs. injection Hs as _ _ Hc _.
  assert (Hin : ∃ key, Connect key 1 (Dial (Scope.MkEntry "http" "box" 80)) "box" 80 ∈ o).
  { apply connects_elem. rewrite Hc. by left. }
  destruct Hin as [key Hin].
  destruct (AccessFacts.reaches_only_granted demo_cfg (λ b, b) (λ _, None) base line (λ _, None) (λ _, "") h o _ _ _ _ _ Hr Hin)
    as [Hg Hd].
  assert (Hdial : dial (Scope.MkEntry "http" "box" 80) box_found (λ _, Connected) = Ok far) by by vm_compute.
  exists h, o, key. do 3 (split; [assumption|]). split; [exact Hdial|].
  by destruct (Hd _ _ _ _ eq_refl Hdial) as (_ & _ & _ & _ & _ & _ & Ha & _).
Defined.

(** A datagram from outside the admitted range ends the session it would
    have reached. *)
Definition demo_session (m : gmap N (Host.Stream (Chan := N) (Task := N))) :
    Host.Session (Chan := N) (Task := N) (R := Net) :=
  MkSession 1 "browser" "abcd" (MkNet [] [] []) true true 0 60000 [] true m None RNone true.
Definition demo_loop : loop := MkLoop [demo_session ∅] 1 [] [] [] 0 1000 None.

Lemma admission_holds_witness :
  let r := on_datagram demo_cfg (λ _, None) base line (λ _, None) (λ _, "11.0.0.2") 5 (Wisp.connect 1 1 0 "echo") outsider demo_loop in
  admitted (accept demo_cfg) (sa_ip outsider) = false
  ∧ r.2 = [] ∧ (r.1 = demo_loop ∨
    ∃ before s after, sessions demo_loop = before ++ s :: after
      ∧ rtc_accepts (MkDatagram outsider (Wisp.connect 1 1 0 "echo")) (rtc s) = true
      ∧ sessions r.1 = before ++ AccessFacts.turned_away (Svc := N) (not_admitted (λ _, "11.0.0.2") (sa_ip outsider)) s :: after)
  ∧ (dead <$> sessions r.1) = [Some "address 11.0.0.2 is not admitted"].
Proof.
  intros r. assert (Ha : admitted (accept demo_cfg) (sa_ip outsider) = false) by by vm_compute.
  split; [exact Ha|].
  pose proof (AccessFacts.admission_holds demo_cfg (λ _, None) base line (λ _, None) (λ _, "11.0.0.2") 5
    (Wisp.connect 1 1 0 "echo") outsider demo_loop Ha eq_refl) as [H1 H2].
  split; [exact H1|]. split; [exact H2|]. by vm_compute.
Defined.

(** Two hosts that reach different things and greet alike. *)
Definition other_cfg : HostConfig (Svc := N) :=
  MkHostConfig "demo" (Some (Scope.MkEntry "ssh" "vault" 22)) [Scope.MkEntry "ssh" "vault" 22] [("echo", Local 8%N)]
    2 2 60000 false false FNone [] [] true 5000 "host" "hosthosthosthosthosthost" (replicate 32 "h"%char).

Lemma hello_hides_scope_witness : hello_json demo_cfg = hello_json other_cfg ∧ scope demo_cfg ≠ scope other_cfg.
Proof. split; [apply (AccessFacts.hello_hides_scope demo_cfg other_cfg); done|done]. Defined.

(** ** One stream *)

Abbreviation input := (StreamFacts.Input (Chan := N) (Task := N)).
Abbreviation hear := (λ msg, StreamFacts.FromPeer 0 (ChannelData WispChannel msg) : input).
Abbreviation run_stream := (StreamFacts.run (Chan := N) (Task := N) demo_cfg).
Definition one_stream : Host.Session (Chan := N) (Task := N) (R := Net) := demo_session {[ 1%N := new_stream 1 1 "box" 80 0 ]}.

(** Two packets before the target answers, one after, the peer's end, and
    one more. *)
Definition told_all : list input :=
  [hear (Wisp.data 1 ["a"%char]); hear (Wisp.connect 3 1 0 "echo"); hear (Wisp.data 1 ["b"%char]);
   StreamFacts.FromTask 0 (IConnected 1 3 6 []); StreamFacts.FromTask 0 (IConnected 1 1 4 [8]);
   hear (Wisp.data 1 ["c"%char]); hear (Wisp.data 3 ["x"%char]); hear (Wisp.end_ 1);
   hear (Wisp.data 1 ["d"%char])]%N.

Lemma stream_in_order_witness :
  ∃ st', streams (run_stream told_all one_stream).1 !! 1%N = Some st'
    ∧ StreamFacts.said 1 told_all = StreamFacts.sent 4%N (run_stream told_all one_stream).2 ++ early st'
    ∧ early st' = []
    ∧ StreamFacts.sent 4%N (run_stream told_all one_stream).2 = [["a"]; ["b"]; ["c"]]%char.
Proof.
  destruct (StreamFacts.stream_in_order demo_cfg 1 4%N told_all one_stream (new_stream 1 1 "box" 80 0))
    as (st' & H1 & H2 & H3).
  - reflexivity.
  - repeat (constructor; [first [exact I|by split; [intros ?|intros ?]]|]). constructor.
  - intros j st Hj Hl. cbv [one_stream demo_session streams] in Hl. apply lookup_singleton_Some in Hl as [<- _]. done.
  - reflexivity.
  - reflexivity.
  - reflexivity.
  - reflexivity.
  - vm_compute. repeat (constructor; [first [exact I|lia|done]|]). constructor.
  - exists st'. split; [exact H1|]. split; [exact H2|]. split; [|by vm_compute]. apply H3.
    do 4 apply Exists_cons_tl. apply Exists_cons_hd. reflexivity.
Defined.

(** ** A caller *)

Abbreviation ask := (λ o, CallerFacts.Ask o : CallerFacts.Input (Chan := N)).
Abbreviation far_says := (λ msg, CallerFacts.FromFar (Chan := N) (ChannelData WispChannel msg)).
Abbreviation run_caller := (CallerFacts.run (Chan := N) (R := Net)).

Lemma net_write p r ok r' : wisp_write p r = (ok, r') → took_wisp r' = took_wisp r ++ (if ok : bool then [p] else []).
Proof. by intros [= <- <-]. Qed.
Lemma net_control m r : took_wisp (control_write m r) = took_wisp r.
Proof. done. Qed.

(** A caller whose answerer grants two packets a stream and half-closes, with
    one stream open. *)
Definition connected_caller : Caller.Driver (Chan := N) (R := Net) :=
  (run_caller [CallerFacts.FromFar (ChannelOpen Control); CallerFacts.FromFar (ChannelOpen WispChannel);
    CallerFacts.FromFar (ChannelData Control (as_bytes HELLO)); far_says (Wisp.cont 0 2);
    ask (Caller.OOpen (Target.Service "echo") 4%N)] (Caller.start (MkNet [] [] []))).1.

(** The same before it opens one, and what happens next: two packets go out, a
    third waits for the one that is granted, and a fourth waits still. *)
Definition answered_caller : Caller.Driver (Chan := N) (R := Net) :=
  (run_caller [CallerFacts.FromFar (ChannelOpen Control); CallerFacts.FromFar (ChannelOpen WispChannel);
    CallerFacts.FromFar (ChannelData Control (as_bytes HELLO)); far_says (Wisp.cont 0 2)]
    (Caller.start (MkNet [] [] []))).1.

Definition writes_before : list (CallerFacts.Input (Chan := N)) :=
  [ask (Caller.OData 1 ["a"%char]); ask (Caller.OData 1 ["b"; "c"]%char); ask (Caller.OData 1 ["d"%char]);
   far_says (Wisp.data 1 ["x"%char]); ask (Caller.OOpen Target.Default 5%N)].
Definition writes : list (CallerFacts.Input (Chan := N)) :=
  writes_before ++ far_says (Wisp.cont 1 1) :: [ask (Caller.OData 1 ["e"%char])].

Abbreviation packets ins := (CallerFacts.data_of 1 (CallerFacts.wire took_wisp
  (run_caller (ask (Caller.OOpen (Target.Service "echo") 4%N) :: ins) answered_caller).1)).

Lemma caller_in_order_witness :
  packets writes_before = [["a"]; ["b"; "c"]]%char
  ∧ ∃ since waiting, packets writes = packets writes_before ++ since
    ∧ mjoin (packets writes) ++ mjoin waiting = ["a"; "b"; "c"; "d"; "e"]%char ∧ length since = 1.
Proof.
  split; [by vm_compute|].
  destruct (CallerFacts.caller_in_order took_wisp net_write net_control 1 eq_refl ltac:(done)
              (Target.Service "echo") 4%N writes answered_caller 2) as (st' & out & waiting & _ & _ & Hd & Hj & _ & _ & Hg & Hw).
  - by vm_compute.
  - by vm_compute.
  - by vm_compute.
  - by vm_compute.
  - intros j st Hj Hl. assert (Hn : Caller.d_streams answered_caller = ∅) by by vm_compute.
    rewrite Hn in Hl. by rewrite lookup_empty in Hl.
  - repeat (constructor; [first [exact I|reflexivity]|]). constructor.
  - vm_compute. repeat (constructor; [exact I|]). constructor.
  - destruct (Hg writes_before (far_says (Wisp.cont 1 1)) 1%N [ask (Caller.OData 1 ["e"%char])]) as (since & Hs & Hc);
      [reflexivity|by vm_compute|by repeat constructor|].
    exists since, waiting. split; [exact Hs|].
    assert (Ho : packets writes = out).
    { rewrite Hd. assert (Hz : CallerFacts.data_of 1 (CallerFacts.wire took_wisp answered_caller) = []) by by vm_compute.
      by rewrite Hz. }
    split; [rewrite Ho; exact Hj|].
    assert (Hall : packets writes = [["a"]; ["b"; "c"]; ["d"]]%char) by by vm_compute.
    assert (Hpre : packets writes_before = [["a"]; ["b"; "c"]]%char) by by vm_compute.
    rewrite Hall, Hpre in Hs. by injection Hs as <-.
Defined.

(** ** Where the code does not do what it means to *)

(** The end of a holder's writes overtakes what waits for credit: the END
    goes out before the last packet, and the host drops what comes after. *)
Theorem end_overtakes_data :
  let sent := CallerFacts.wire took_wisp
    (run_caller [ask (Caller.OData 1 ["a"%char]); ask (Caller.OData 1 ["b"%char]); ask (Caller.OData 1 ["c"%char]);
                 ask (Caller.OEof 1); far_says (Wisp.cont 1 128)] connected_caller).1 in
  sent = [Wisp.connect 1 1 0 "echo"; Wisp.data 1 ["a"%char]; Wisp.data 1 ["b"%char]; Wisp.end_ 1; Wisp.data 1 ["c"%char]]
  ∧ StreamFacts.sent 4%N
      (run_stream ((StreamFacts.FromTask 0 (IConnected 1 1 4 [])) :: (hear <$> drop 1 sent))%N one_stream).2
    = [["a"]; ["b"]]%char.
Proof. by vm_compute. Qed.

(** A peer that keeps to the credit it was granted is closed for breaking
    it: what is granted does not count what is on its way. *)
Theorem credit_counts_twice :
  let data := hear (Wisp.data 1 ["x"%char]) in
  let written := StreamFacts.FromTask 0 (Written 1 1) : input in
  (* the first grant is 128 packets; when 100 have come, 64 are written *)
  let '(s, o) := run_stream (replicate 100 data ++ replicate 64 written) (set_wisp_open true one_stream) in
  took_wisp (rtc s) = [Wisp.cont 1 92] ∧ o = []
  (* the other 28 come, and the 92 of the second grant *)
  ∧ (run_stream (replicate 28 data ++ replicate 92 data) s).2
    = [Report (EStream "browser" 1 "box" 80 StClosed (Some (Wisp.reason_name THROTTLED)) 193 0); Abort (HDial 1 1)].
Proof. by vm_compute. Qed.

(** What a dial has said of a stream, when the stream closes before the loop
    comes to it, is taken as the answer of the next stream of that id: its
    bytes go to the first one's target. *)
Theorem closed_stream_answers :
  let '(s, o) := run_stream
    [hear (Wisp.connect 1 1 80 "box"); hear (Wisp.close 1 2); hear (Wisp.connect 1 1 0 "echo");
     StreamFacts.FromTask 0 (IConnected 1 1 4 [8]); hear (Wisp.data 1 ["s"%char])]%N (demo_session ∅) in
  connects o = [(1%N, Dial (Scope.MkEntry "http" "box" 80), "box", 80%N); (1%N, Local 7%N, "echo", 0%N)]
  ∧ Report (EStream "browser" 1 "echo" 0 StOpen None 0 0) ∈ o
  ∧ sends o = [(4%N, ["s"%char])].
Proof. vm_compute. split; [reflexivity|]. split; [|reflexivity]. set_solver. Qed.

(** A second CONNECT of a live id that is refused for its name reports the
    stream closed, to the peer and to the program; the stream goes on. *)
Theorem refused_but_alive :
  let '(s, o) := run_stream [hear (Wisp.connect 1 1 0 "a.box")] one_stream in
  o = [Report (EStream "browser" 1 "a.box" 0 StClosed (Some (Wisp.reason_name INVALID)) 0 0)]
  ∧ is_Some (streams s !! 1%N).
Proof. vm_compute. split; [reflexivity|]. by eexists. Qed.
End HostDemo.
