(* ===== verification/Modules.v ===== *)
(** * Modules beside a program ([crates/drt-config/src/modules.rs],
    [crates/drt/src/modules.rs])

    The names [require] takes and the files that answer to them; the walk
    that collects the modules of a node; and the chunk that carries them, with
    the program, into a guest that has no filesystem.  The Lua text of that
    chunk is a constant here; what it does when it runs is in [Require]. *)

From stdpp Require Import gmap sorting.
From S2P Require Import Prelude.
From S2P Require Import Bytes.
From S2P Require Import Value.
From S2P Require Import Backend.
From S2P Require Import Root.

(** [str::contains] of a text. *)
Fixpoint contains (s sep : string) : bool :=
  starts_with s sep || match s with String _ s' => contains s' sep | EmptyString => false end.

(** ** The module-name rule *)
Module Names.

Definition RESERVED_COMPONENT : string := "stdlib".
Definition SOURCE_EXTENSIONS : list string := ["dlua"; "lua"].
Definition BYTECODE_EXTENSION : string := "dluac".

(** A name's characters are ASCII, so a text is all of them exactly when its
    bytes are. *)
Definition is_name_char (c : ascii) : bool :=
  in_range 48 57 (byte_val c) || in_range 65 90 (byte_val c) || in_range 97 122 (byte_val c)
  || bool_decide (c = "_"%char).

Definition is_component (component : string) : bool :=
  negb (str_is_empty component) && forallb is_name_char (as_bytes component).

Definition ends_with (s p : string) : bool := bool_decide (as_bytes p `suffix_of` as_bytes s).

Definition refuse_name (name : string) : option string :=
  if str_is_empty name then Some "a module name may not be empty"
  else if contains name ".." then Some "`..` is not a module name component"
  else if starts_with name "." || ends_with name "." then
    Some "a module name may not begin or end with `.`"
  else if negb (forallb (λ c, is_name_char c || bool_decide (c = "."%char)) (as_bytes name)) then
    Some "a module name holds letters, digits, `_` and the `.` between components"
  else if bool_decide (head (split_on "." name) = Some RESERVED_COMPONENT) then
    Some ("`" +:+ RESERVED_COMPONENT +:+ "` is reserved -- a stdlib program is reached by the `"
          +:+ RESERVED_COMPONENT +:+ ":` entry spelling, never by require")
  else None.

Definition module_extension (relative : string) : option string :=
  last_ ← last (split_on "/" relative);
  '(_, extension) ← rsplit_once "." last_;
  if bool_decide (extension = BYTECODE_EXTENSION) then Some BYTECODE_EXTENSION
  else find_first (λ e, bool_decide (e = extension)) SOURCE_EXTENSIONS.

(** The loop over the components of a path: each with a dot before it, the
    first apart. *)
Fixpoint name_loop (relative name : string) (components : list string) : result string string :=
  match components with
  | [] => Ok name
  | component :: components =>
      if negb (is_component component) then
        Err (relative +:+ ": `" +:+ component
             +:+ "` cannot be part of a module name, which holds letters, digits and `_` between the dots")
      else
        name_loop relative
          ((if str_is_empty name then "" else name +:+ ".") +:+ component) components
  end.

Definition name_for_path (relative : string) : result string string :=
  extension ←? match module_extension relative with
               | Some e => Ok e
               | None => Err (relative +:+ ": not a module file")
               end;
  let stem := of_bytes (take (str_len relative - str_len extension - 1) (as_bytes relative)) in
  name ←? name_loop relative "" (split_on "/" stem);
  match refuse_name name with
  | Some why => Err (relative +:+ ": " +:+ why)
  | None => Ok name
  end.

(** [str::replace] of one character. *)
Definition replace_char (from to : ascii) (s : string) : string :=
  of_bytes ((λ c, if bool_decide (c = from) then to else c) <$> as_bytes s).

Definition paths_for_name (name : string) : result (list string) string :=
  match refuse_name name with
  | Some why => Err why
  | None =>
      let stem := replace_char "." "/" name in
      Ok ((stem +:+ "." +:+ BYTECODE_EXTENSION)
          :: ((λ extension, stem +:+ "." +:+ extension) <$> SOURCE_EXTENSIONS))
  end.

End Names.

(** ** The modules of a node *)
Module Loader.
Import Names.

Definition MAX_MODULES : nat := 1000.
Definition MAX_BYTES : N := 16 * 1024 * 1024.
Definition BOOTSTRAP_NAME : string := "=drt:modules".
Definition BRACKET_CAP : nat := 64.

(** [Module]. *)
Record ModuleFile := MkModuleFile { m_name : string; m_file : string; m_source : string }.
#[export] Instance ModuleFile_eq_dec : EqDecision ModuleFile.
Proof. solve_decision. Defined.

Record Modules := MkModules { m_dir : string; modules : list ModuleFile }.
Record Loaded := MkLoaded { l_source : string; l_name : string; l_modules : nat }.

Definition modules_default : Modules := MkModules "" [].
Definition is_empty (m : Modules) : bool := bool_decide (modules m = []).
Definition len (m : Modules) : nat := length (modules m).
Definition names (m : Modules) : list string := m_name <$> modules m.

Definition LF : ascii := of_byte 10.
Definition CR : ascii := of_byte 13.
Definition DQ : ascii := of_byte 34.

(** From the first line end on. *)
Fixpoint from_newline (s : string) : string :=
  match s with
  | EmptyString => ""
  | String c s' => if bool_decide (c = LF) then s else from_newline s'
  end.

Definition skip_first_line_comment (source : string) : string :=
  if negb (starts_with source "#") then source else from_newline source.

(** [display]: a path as a module file is named. *)
Definition shown_component (c : Component) : option string :=
  match c with
  | Normal part => Some (from_utf8_lossy (as_bytes part))
  | CurDir => None
  | ParentDir => Some ".."
  | RootDir => Some ""
  end.
Definition display (p : Path) : string :=
  let shown := join "/" (omap shown_component p) in
  if str_is_empty shown then "." else shown.

(** [Path::file_name] and [to_str]. *)
Definition file_name_str (p : Path) : option string :=
  n ← file_name p; if utf8_valid (as_bytes n) then Some n else None.

Section walk.
Context {F : Type} `{!Backend F}.

Definition read_message (e : option IoError) : string :=
  match e with Some e => io_text e | None => "stream did not contain valid UTF-8" end.

Definition unreadable (p : Path) (e : string) : string := "cannot read " +:+ path_text p +:+ ": " +:+ e.

Definition bytecode_refusal (shown : string) : string :=
  shown +:+ ": bytecode modules are not built yet -- drt loads source only until there is a verifier for them (GUARANTEES.md), and reaching one through the guest's `load` would put unverified bytecode inside the sandbox. Ship the source beside it, or remove this file.".

(** What the walk has so far. *)
Record Found := MkFound { stack : list Path; found : btree string ModuleFile; total : N }.

(** The file [shown] at [full], its name checked and its source read. *)
Definition take_module (dir full : Path) (shown : string) (acc : Found) (fs : F) : result Found string :=
  name ←? name_for_path shown;
  source ←? map_err (λ e, unreadable full (read_message e)) (read_to_string full fs);
  let source := skip_first_line_comment source in
  let bytes_ := (total acc + N.of_nat (str_len source))%N in
  if bool_decide (MAX_MODULES ≤ length (found acc)) then
    Err ("more than " +:+ dec (N.of_nat MAX_MODULES) +:+ " modules under " +:+ path_text dir
         +:+ "; a node is source code, and a tree this size is one to look at before deploying")
  else if bool_decide (MAX_BYTES < bytes_)%N then
    Err ("more than " +:+ dec (MAX_BYTES / (1024 * 1024)) +:+ " MiB of module source under "
         +:+ path_text dir +:+ "; same reason")
  else
    match bt_get (K := string) name (found acc) with
    | Some clash =>
        Err (m_file clash +:+ " and " +:+ shown +:+ " are both the module `" +:+ name
             +:+ "`; a node may ship one file per module name")
    | None =>
        Ok (MkFound (stack acc)
              (bt_insert (K := string) name (MkModuleFile name shown source) (found acc)) bytes_)
    end.

(** One name of a directory. *)
Definition walk_name (dir relative : Path) (entry_file : option string) (entry : string) (acc : Found)
    (fs : F) : result Found string :=
  let child := Root.at_ relative entry in
  let full := path_join dir child in
  if is_dir_at full fs then
    Ok (if is_component entry then MkFound (child :: stack acc) (found acc) (total acc) else acc)
  else if bool_decide (relative = []) && bool_decide (Some entry = entry_file) then Ok acc
  else
    let shown := display child in
    match module_extension shown with
    | None => Ok acc
    | Some e =>
        if bool_decide (e = BYTECODE_EXTENSION) then Err (bytecode_refusal shown)
        else take_module dir full shown acc fs
    end.

Fixpoint walk_names (dir relative : Path) (entry_file : option string) (names : list string)
    (acc : Found) (fs : F) : result Found string :=
  match names with
  | [] => Ok acc
  | entry :: names =>
      acc ←? walk_name dir relative entry_file entry acc fs;
      walk_names dir relative entry_file names acc fs
  end.

(** The loop over the stack; [None] when the fuel runs out before it. *)
Fixpoint walk_loop (fuel : nat) (dir : Path) (entry_file : option string) (acc : Found) (fs : F) :
    option (result Found string) :=
  match stack acc with
  | [] => Some (Ok acc)
  | relative :: rest =>
      match fuel with
      | 0 => None
      | S fuel' =>
          let here := path_join dir relative in
          match read_dir here fs with
          | Err e => Some (Err (unreadable here (io_text e)))
          | Ok names =>
              match walk_names dir relative entry_file (merge_sort str_le names)
                      (MkFound rest (found acc) (total acc)) fs with
              | Err e => Some (Err e)
              | Ok acc => walk_loop fuel' dir entry_file acc fs
              end
          end
      end
  end.

(** The directory a program is in. *)
Definition node_dir (program : Path) : Path :=
  match parent program with
  | Some p => if bool_decide (p = []) then [CurDir] else p
  | None => [CurDir]
  end.

Definition discover (fuel : nat) (program : Path) (fs : F) : option (result Modules string) :=
  let dir := node_dir program in
  if negb (is_dir_at dir fs) then Some (Ok modules_default)
  else
    r ← walk_loop fuel dir (file_name_str program) (MkFound [[]] [] 0) fs;
    Some (acc ←? r; Ok (MkModules (display dir) (bt_values (found acc)))).

End walk.

(** ** Embedding source in a chunk *)

Definition equals (level : nat) : string := of_bytes (replicate level "="%char).
Definition open_of (level : nat) : string := "[" +:+ equals level +:+ "[".
Definition close_of (level : nat) : string := "]" +:+ equals level +:+ "]".

(** The first level whose close the source does not hold. *)
Definition bracket_level (source : string) : option nat :=
  find_first (λ level, negb (contains source (close_of level))) (seq 0 (S BRACKET_CAP)).

Definition brackets (source : string) : result (string * string) string :=
  match bracket_level source with
  | Some level => Ok (open_of level, close_of level)
  | None =>
      Err ("this source cannot be embedded: it contains every long-bracket close from `]]` to "
           +:+ dec (N.of_nat BRACKET_CAP) +:+ " `=` deep")
  end.

Definition quote_char (c : ascii) : string :=
  if bool_decide (c = DQ) then "\" +:+ String DQ ""
  else if bool_decide (c = "\"%char) then "\\"
  else if bool_decide (c = LF) then "\n"
  else if bool_decide (c = CR) then "\r"
  else if bool_decide (c = of_byte 9) then "\t"
  else if bool_decide (byte_val c < 32)%N then "\" +:+ dec (byte_val c)
  else String c "".
Fixpoint quote_body (text : string) : string :=
  match text with EmptyString => "" | String c s => quote_char c +:+ quote_body s end.
Definition quote (text : string) : string := String DQ "" +:+ quote_body text +:+ String DQ "".

(** [str::replace]. *)
Fixpoint replace_go (fuel : nat) (from to s : string) : string :=
  match fuel with
  | 0 => s
  | S fuel' =>
      match s with
      | EmptyString => ""
      | String c s' =>
          match strip_prefix from s with
          | Some r => to +:+ replace_go fuel' from to r
          | None => String c (replace_go fuel' from to s')
          end
      end
  end.
Definition replace (from to s : string) : string := replace_go (str_len s) from to s.

Definition NAME_CLASS_LUA : string := "A-Za-z0-9_.".

(** The text of a constant: its lines, a vertical bar (of which it has none)
    standing for the double quote. *)
Definition newline : string := String LF "".
Definition text_of (lines : list string) : string :=
  replace_char "|" DQ (foldr (λ l r, l +:+ newline +:+ r) "" lines).

Definition RUNTIME_TEMPLATE : string := text_of [
  "";
  "local __chunk, __loaded, __loading = {}, {}, {}";
  "";
  "for i = 1, #__mods do";
  "  local m = __mods[i]";
  "  -- `@` before the name is what makes a traceback print `db/claims.dlua:3:`";
  "  -- rather than quoting the whole source back at the reader.";
  "  local chunk, why = load(m.src, |@| .. m.file)";
  "  if not chunk then";
  "    error(|drt modules: | .. m.file .. |: | .. tostring(why), 0)";
  "  end";
  "  __chunk[m.name] = chunk";
  "end";
  "";
  "-- Why this is not a module name, or nil if it is. The host holds the same";
  "-- rule over the files it found; this one is for whatever the guest asks for,";
  "-- which the host never sees.";
  "local function __refusal(name)";
  "  if type(name) ~= |string| then";
  "    return |a module name must be a string, got | .. type(name)";
  "  end";
  "  if name == || then";
  "    return |a module name may not be empty|";
  "  end";
  "  if name:find(|%.%.|, 1) then";
  "    return |`..` is not a module name component|";
  "  end";
  "  if name:sub(1, 1) == |.| or name:sub(-1) == |.| then";
  "    return |a module name may not begin or end with `.`|";
  "  end";
  "  if name:find(|[^<<CLASS>>]|) then";
  "    return |a module name holds letters, digits, `_` and the `.` between components|";
  "  end";
  "  if name:match(|^[^.]+|) == |<<RESERVED>>| then";
  "    return |`<<RESERVED>>` is reserved -- a stdlib program is reached by the `<<RESERVED>>:` entry spelling, never by require|";
  "  end";
  "  return nil";
  "end";
  "";
  "function require(name)";
  "  local why = __refusal(name)";
  "  if why then";
  "    error(|require(| .. tostring(name) .. |): | .. why, 0)";
  "  end";
  "  -- A module that returned `false` is still a module that ran, so the cache";
  "  -- is tested against nil and not for truth.";
  "  local hit = __loaded[name]";
  "  if hit ~= nil then";
  "    return hit";
  "  end";
  "  local chunk = __chunk[name]";
  "  if chunk == nil then";
  "    error(|require(| .. name .. |): no such module in | .. __dir, 0)";
  "  end";
  "  if __loading[name] then";
  "    -- Without this the failure is a stack overflow, which names neither";
  "    -- module in the cycle.";
  "    error(|require(| .. name .. |): required while it was still loading -- a cycle|, 0)";
  "  end";
  "  __loading[name] = true";
  "  local ok, value = pcall(chunk, name)";
  "  __loading[name] = nil";
  "  if not ok then";
  "    error(value, 0)";
  "  end";
  "  -- Lua's own contract: a module that returns nothing is `true`, so that a";
  "  -- second require can tell |ran, returned nothing| from |never ran|.";
  "  if value == nil then";
  "    value = true";
  "  end";
  "  __loaded[name] = value";
  "  return value";
  "end"
].

Definition runtime : string :=
  replace "<<CLASS>>" NAME_CLASS_LUA (replace "<<RESERVED>>" RESERVED_COMPONENT RUNTIME_TEMPLATE).

(** [this_file] is what [file!()] gave the build. *)
Definition preamble (this_file : string) (count : nat) : string :=
  "-- Generated by drt (" +:+ this_file +:+ "). This is the chunk that was loaded; the" +:+ newline
  +:+ "-- program you wrote is compiled below, under its own name, so its" +:+ newline
  +:+ "-- line numbers are its own." +:+ newline
  +:+ "--" +:+ newline
  +:+ "-- " +:+ dec (N.of_nat count) +:+ " module(s) beside it, each compiled here rather than on first"
  +:+ newline
  +:+ "-- use, so a syntax error in one is a failure before any of this" +:+ newline
  +:+ "-- node's code runs." +:+ newline +:+ newline.

Definition module_text (m : ModuleFile) : result string string :=
  oc ←? brackets (m_source m);
  Ok ("  { name = " +:+ quote (m_name m) +:+ ", file = " +:+ quote (m_file m) +:+ ", src = "
      +:+ oc.1 +:+ newline +:+ m_source m +:+ oc.2 +:+ " }," +:+ newline).

Fixpoint modules_text (ms : list ModuleFile) : result string string :=
  match ms with
  | [] => Ok ""
  | m :: ms => t ←? module_text m; r ←? modules_text ms; Ok (t +:+ r)
  end.

Definition entry_text (entry_source entry_file : string) : result string string :=
  oc ←? brackets entry_source;
  Ok (newline +:+ "local __entry, __entry_why = load(" +:+ oc.1 +:+ newline +:+ entry_source +:+ oc.2
      +:+ ", " +:+ quote entry_file +:+ ")" +:+ newline
      +:+ "if not __entry then error(tostring(__entry_why), 0) end" +:+ newline
      +:+ "return __entry()" +:+ newline).

Definition bootstrap (this_file : string) (m : Modules) (entry_source entry_file : string) :
    result string string :=
  mods ←? modules_text (modules m);
  entry ←? entry_text entry_source entry_file;
  Ok (preamble this_file (len m)
      +:+ "local __dir = " +:+ quote (m_dir m) +:+ newline
      +:+ "local __mods = {" +:+ newline
      +:+ mods
      +:+ "}" +:+ newline +:+ newline
      +:+ runtime
      +:+ entry).

(** [program_load]. *)
Definition program_load {F} `{!Backend F} (this_file : string) (fuel : nat) (program : Path) (fs : F) :
    option (result Loaded string) :=
  match read_to_string program fs with
  | Err e => Some (Err (unreadable program (read_message e)))
  | Ok source =>
      let source := skip_first_line_comment source in
      let name := default "program" (file_name_str program) in
      r ← discover fuel program fs;
      Some (modules ←? r;
            if is_empty modules then Ok (MkLoaded source name 0)
            else
              chunk ←? bootstrap this_file modules source name;
              Ok (MkLoaded chunk BOOTSTRAP_NAME (len modules)))
  end.

End Loader.
