(* ===== verification/ModulesSpec.v ===== *)
(** * What the module rule and the walk promise

    A name and the files that answer to it are one fact from two sides; and
    what the walk of a node's directory finds is every module file under it
    and nothing else, or there is something wrong with one of them. *)

From stdpp Require Import gmap sorting.
From S2P Require Import Prelude.
From S2P Require Import Bytes.
From S2P Require Import Value.
From S2P Require Import Backend.
From S2P Require Import Canon.
From S2P Require Import Root.
From S2P Require Import Modules.

Module NamesFacts.
Import Names.

Definition nonempty (s : string) : Prop := s ≠ "".

(** What a name is: components between dots, of which the first is not the
    reserved one. *)
Definition is_name (name : string) : Prop :=
  Forall (λ c, is_component c = true) (split_on "." name)
  ∧ head (split_on "." name) ≠ Some RESERVED_COMPONENT.

(** ** Splitting *)

Lemma split_on_cons c a s :
  split_on c (String a s) =
  if bool_decide (a = c) then "" :: split_on c s
  else match split_on c s with p :: r => String a p :: r | [] => [String a ""] end.
Proof. done. Qed.

Lemma starts_with_char a s c : starts_with (String a s) (String c "") = bool_decide (a = c).
Proof.
  unfold starts_with. apply bool_decide_ext. cbn. split.
  - intros [k [=]]. congruence.
  - intros ->. by exists (as_bytes s).
Qed.

Lemma ends_with_cons a s c :
  ends_with (String a s) (String c "") = if str_is_empty s then bool_decide (a = c) else ends_with s (String c "").
Proof.
  unfold ends_with, str_is_empty. destruct s as [|b s]; [rewrite (bool_decide_true ("" = "")) by done|rewrite (bool_decide_false (String b s = "")) by done].
  - apply bool_decide_ext. cbn. split.
    + intros [k Hk]. destruct k as [|x [|y k]]; cbn in Hk; congruence.
    + intros ->. by exists [].
  - apply bool_decide_ext. cbn. split; intros [k Hk].
    + destruct k as [|x k]; [done|]. injection Hk as _ Hk. by exists k.
    + exists (a :: k). cbn. by f_equal.
Qed.

Lemma head_nonempty s : (∀ p, head (split_on "." s) = Some p → p ≠ "") ↔ s ≠ "" ∧ starts_with s "." = false.
Proof.
  destruct s as [|a s]; [naive_solver|]. rewrite split_on_cons, starts_with_char.
  case_bool_decide; [naive_solver|].
  pose proof (split_on_nonempty "." s). destruct (split_on "." s); [done|]. cbn. naive_solver.
Qed.

Lemma two_dots a s :
  contains (String a s) ".." = (bool_decide (a = "."%char) && starts_with s ".") || contains s "..".
Proof.
  cbn [contains]. f_equal. unfold starts_with. rewrite <-bool_decide_and. apply bool_decide_ext. cbn.
  split.
  - intros [k [=]]. split; [done|]. by exists k.
  - intros [-> [k Hk]]. exists k. cbn in *. by f_equal.
Qed.

Lemma split_dots s :
  Forall nonempty (tail (split_on "." s)) ↔ contains s ".." = false ∧ ends_with s "." = false.
Proof.
  induction s as [|a s IH]; [split; [done|constructor]|].
  rewrite two_dots, ends_with_cons, split_on_cons.
  pose proof (split_on_nonempty "." s) as Hne. pose proof (head_nonempty s) as Hh.
  unfold str_is_empty. repeat case_bool_decide; subst; cbn [andb orb].
  - cbn. split; [|naive_solver]. intros Hf. apply Forall_cons in Hf as [Hf _]. by destruct Hf.
  - destruct (split_on "." s) as [|p r]; [done|]. cbn [tail head] in *.
    assert (Hp : nonempty p ↔ starts_with s "." = false).
    { unfold nonempty. split; [intros ?; apply Hh; congruence|intros ?; by apply Hh]. }
    rewrite Forall_cons, IH, orb_false_iff, Hp. tauto.
  - done.
  - destruct (split_on "." s) as [|p r]; [done|]. exact IH.
Qed.

Lemma split_chars c s P : P c = true →
  forallb P (as_bytes s) = true ↔ Forall (λ p, forallb (λ a, P a && negb (bool_decide (a = c))) (as_bytes p) = true) (split_on c s).
Proof.
  intros Hc. induction s as [|a s IH]; [split; [by constructor|done]|].
  rewrite split_on_cons. cbn [as_bytes String.list_ascii_of_string forallb].
  fold (as_bytes s). rewrite andb_true_iff, IH. case_bool_decide as Ha.
  - subst. rewrite Forall_cons. naive_solver.
  - pose proof (split_on_nonempty c s). destruct (split_on c s) as [|p r]; [done|].
    rewrite !Forall_cons. cbn [as_bytes String.list_ascii_of_string forallb]. fold (as_bytes p).
    rewrite !andb_true_iff, (bool_decide_false (a = c)) by done. naive_solver.
Qed.

(** ** The rule *)

Lemma dot_not_name_char : is_name_char "." = false.
Proof. done. Qed.

Lemma component_chars p :
  forallb (λ a, (is_name_char a || bool_decide (a = "."%char)) && negb (bool_decide (a = "."%char))) (as_bytes p)
  = forallb is_name_char (as_bytes p).
Proof.
  induction (as_bytes p) as [|a l IH]; [done|]. cbn [forallb]. rewrite IH. f_equal.
  case_bool_decide as Ha; [subst a; by rewrite dot_not_name_char|]. by destruct (is_name_char a).
Qed.

Lemma is_component_iff c : is_component c = true ↔ nonempty c ∧ forallb is_name_char (as_bytes c) = true.
Proof. unfold is_component, str_is_empty, nonempty. case_bool_decide; naive_solver. Qed.

Lemma components_iff s :
  Forall (λ c, is_component c = true) (split_on "." s) ↔
  Forall nonempty (split_on "." s)
  ∧ forallb (λ c, is_name_char c || bool_decide (c = "."%char)) (as_bytes s) = true.
Proof.
  rewrite (split_chars "." s (λ c, is_name_char c || bool_decide (c = "."%char))) by done.
  rewrite !Forall_forall. setoid_rewrite is_component_iff. setoid_rewrite component_chars. naive_solver.
Qed.

Lemma pieces_nonempty s :
  Forall nonempty (split_on "." s) ↔
  s ≠ "" ∧ contains s ".." = false ∧ starts_with s "." = false ∧ ends_with s "." = false.
Proof.
  pose proof (split_on_nonempty "." s). pose proof (head_nonempty s). pose proof (split_dots s).
  destruct (split_on "." s) as [|p r]; [done|]. rewrite Forall_cons. cbn [head tail] in *.
  assert (Hp : nonempty p ↔ s ≠ "" ∧ starts_with s "." = false).
  { unfold nonempty. split; [intros ?; apply H0; congruence|intros ?; by apply H0]. }
  rewrite Hp. tauto.
Qed.

Lemma refuse_name_iff name : refuse_name name = None ↔ is_name name.
Proof.
  unfold is_name. rewrite components_iff, pieces_nonempty. unfold refuse_name, str_is_empty.
  destruct (decide (name = "")) as [Hn|Hn].
  { rewrite (bool_decide_true (name = "")) by done. split; [done|tauto]. }
  rewrite (bool_decide_false (name = "")) by done.
  destruct (contains name ".."); [split; [done|by intros [[(_ & ? & ? & ?) _] _]]|].
  destruct (starts_with name "."); [split; [done|by intros [[(_ & ? & ? & ?) _] _]]|].
  destruct (ends_with name "."); [split; [done|by intros [[(_ & ? & ? & ?) _] _]]|].
  destruct (forallb _ _); [|split; [done|by intros [[_ ?] _]]]. cbn [orb negb].
  case_bool_decide; split; (done || tauto).
Qed.


(** ** Names and files *)

Lemma rsplit_once_free c s : rsplit_once c s = None → contains_char c s = false.
Proof.
  induction s as [|a s IH]; [done|]. cbn [rsplit_once]. rewrite contains_char_cons.
  destruct (rsplit_once c s) as [[]|]; [done|]. case_bool_decide; [done|]. intros _.
  by rewrite bool_decide_false, IH by congruence.
Qed.

Lemma rsplit_once_inv c s l r :
  rsplit_once c s = Some (l, r) → s = l +:+ String c r ∧ contains_char c r = false.
Proof.
  revert l r. induction s as [|a s IH]; intros l r; [done|]. cbn [rsplit_once].
  destruct (rsplit_once c s) as [[l' r']|] eqn:Hs.
  - intros [= <- <-]. by destruct (IH l' r' eq_refl) as [-> ?].
  - case_bool_decide; [|done]. intros [= <- <-]. subst. split; [done|]. by apply rsplit_once_free.
Qed.

Lemma split_on_free c s : Forall (λ p, contains_char c p = false) (split_on c s).
Proof.
  induction s as [|a s IH]; [by constructor|]. rewrite split_on_cons.
  case_bool_decide as Ha; [by constructor|].
  destruct (split_on c s) as [|p r]; [by repeat constructor; rewrite contains_char_cons, bool_decide_false by congruence|].
  apply Forall_cons in IH as [Hp Hr]. constructor; [|done].
  rewrite contains_char_cons, Hp, bool_decide_false by congruence. done.
Qed.

Lemma split_join c ps :
  ps ≠ [] → Forall (λ p, contains_char c p = false) ps → split_on c (join c ps) = ps.
Proof.
  intros Hne Hf. induction Hf as [|p ps Hp Hf IH]; [done|].
  destruct ps as [|q ps]; [by apply split_on_none|].
  rewrite join_cons, split_on_app, IH by done. by rewrite split_on_none.
Qed.

Lemma join_tail c ps a t : join c (ps ++ [a +:+ t]) = join c (ps ++ [a]) +:+ t.
Proof.
  induction ps as [|p ps IH]; [done|]. cbn [app].
  rewrite !join_cons by (by destruct ps). by rewrite IH, str_app_assoc.
Qed.

Lemma replace_char_app from to a b :
  replace_char from to (a +:+ b) = replace_char from to a +:+ replace_char from to b.
Proof. apply as_bytes_inj. unfold replace_char. by rewrite !as_bytes_app, !as_of_bytes, fmap_app. Qed.

Lemma replace_char_none from to s : contains_char from s = false → replace_char from to s = s.
Proof.
  intros Hs. apply as_bytes_inj. unfold replace_char. rewrite as_of_bytes.
  apply bool_decide_eq_false in Hs. rewrite <-(list_fmap_id (as_bytes s)) at 2.
  apply list_fmap_ext. intros i c Hc%list_elem_of_lookup_2. rewrite bool_decide_false by congruence. done.
Qed.

Lemma replace_join from to ps :
  Forall (λ p, contains_char from p = false) ps → replace_char from to (join from ps) = join to ps.
Proof.
  induction 1 as [|p ps Hp Hf IH]; [done|].
  destruct ps as [|q ps]; [by apply replace_char_none|].
  rewrite !join_cons, replace_char_app, replace_char_none by done.
  change (String from (join from (q :: ps))) with (String from "" +:+ join from (q :: ps)).
  rewrite replace_char_app, IH.
  assert (replace_char from to (String from "") = String to "") as ->; [|done].
  unfold replace_char. cbn. by rewrite bool_decide_true.
Qed.

Lemma component_free c x : is_component x = true → is_name_char c = false → contains_char c x = false.
Proof.
  intros [_ Hx]%is_component_iff Hc. apply bool_decide_eq_false. intros Hin.
  rewrite forallb_forall in Hx. rewrite Hx in Hc; [done|by apply list_elem_of_In].
Qed.

Lemma components_free c ps :
  Forall (λ x, is_component x = true) ps → is_name_char c = false → Forall (λ x, contains_char c x = false) ps.
Proof. intros Hp Hc. eapply Forall_impl; [exact Hp|]. intros x Hx. by apply component_free. Qed.

(** The loop joins the components, when all of them are. *)
Lemma name_loop_iff relative ps : ∀ name n,
  name_loop relative name ps = Ok n ↔
  Forall (λ x, is_component x = true) ps
  ∧ n = foldl (λ name x, (if str_is_empty name then "" else name +:+ ".") +:+ x) name ps.
Proof.
  induction ps as [|p ps IH]; intros name n; cbn [name_loop foldl].
  - rewrite Forall_nil. naive_solver.
  - rewrite Forall_cons. destruct (is_component p); cbn [negb]; [rewrite IH|]; naive_solver.
Qed.

Lemma foldl_join ps : Forall nonempty ps → ∀ name, name ≠ "" →
  foldl (λ name x, (if str_is_empty name then "" else name +:+ ".") +:+ x) name ps = join "." (name :: ps).
Proof.
  induction 1 as [|p ps Hp Hf IH]; intros name Hn; [done|]. cbn [foldl].
  unfold str_is_empty at 2. rewrite bool_decide_false by done. rewrite IH.
  - destruct ps as [|q ps]; cbn [join]; by rewrite !str_app_assoc.
  - by destruct name.
Qed.

Lemma name_loop_join relative ps n :
  ps ≠ [] → name_loop relative "" ps = Ok n ↔ Forall (λ x, is_component x = true) ps ∧ n = join "." ps.
Proof.
  intros Hne. rewrite name_loop_iff. destruct ps as [|p ps]; [done|].
  assert (Hi : Forall (λ x, is_component x = true) (p :: ps) →
    foldl (λ name x, (if str_is_empty name then "" else name +:+ ".") +:+ x) "" (p :: ps) = join "." (p :: ps)).
  { intros Hp. cbn [foldl]. change (if str_is_empty "" then "" else _) with "".
    assert (Hn : Forall nonempty (p :: ps)).
    { eapply Forall_impl; [exact Hp|]. intros x Hx. by apply is_component_iff in Hx as [? _]. }
    apply Forall_cons in Hn as [Hx Hn]. by apply foldl_join. }
  split; intros [Hp ->]; (split; [done|]); rewrite Hi by done; done.
Qed.

Definition extensions : list string := BYTECODE_EXTENSION :: SOURCE_EXTENSIONS.

Lemma extension_plain e : e ∈ extensions → contains_char "." e = false ∧ contains_char "/" e = false.
Proof. unfold extensions. intros He. repeat (apply elem_of_cons in He as [->|He]; [done|]). by apply elem_of_nil in He. Qed.

(** A module file's name: slash-separated pieces and one of the three
    extensions. *)
Lemma module_extension_iff p e :
  module_extension p = Some e ↔
  e ∈ extensions ∧ ∃ ps a, Forall (λ x, contains_char "/" x = false) (ps ++ [a])
    ∧ p = join "/" (ps ++ [a]) +:+ "." +:+ e.
Proof.
  unfold module_extension. split.
  - destruct (last (split_on "/" p)) as [l|] eqn:Hl; [|done]. cbn [mbind option_bind].
    destruct (rsplit_once "." l) as [[a x]|] eqn:Hr; [|done]. cbn [mbind option_bind]. intros He.
    apply rsplit_once_inv in Hr as [-> Hx].
    assert (e = x ∧ e ∈ extensions) as [-> Hin].
    { revert He. case_bool_decide as Hb; [intros [= <-]; split; [done|]; by left|].
      intros [Hin Hq]%find_first_Some. apply bool_decide_eq_true in Hq as ->. split; [done|]. by right. }
    split; [done|]. apply last_Some in Hl as [ps Hps]. exists ps, a.
    pose proof (split_on_free "/" p) as Hf. rewrite Hps in Hf.
    apply Forall_app in Hf as [Hf Hf']. rewrite Forall_singleton in Hf'.
    rewrite contains_char_app in Hf'. apply orb_false_iff in Hf' as [Hf' _]. split.
    + apply Forall_app. split; [done|by apply Forall_singleton].
    + rewrite <-(join_split "/" p), Hps. change (String "." x) with ("." +:+ x). apply join_tail.
  - intros (Hin & ps & a & Hf & ->). destruct (extension_plain e Hin) as [Hd Hs].
    apply Forall_app in Hf as [Hf Hf']. rewrite Forall_singleton in Hf'.
    rewrite <-join_tail, split_join; [|by destruct ps|].
    + rewrite last_snoc. cbn [mbind option_bind]. change ("." +:+ e) with (String "." e).
      rewrite rsplit_once_app by done. cbn [mbind option_bind].
      revert Hin. unfold extensions. intros Hin.
      repeat (apply elem_of_cons in Hin as [->|Hin]; [done|]). by apply elem_of_nil in Hin.
    + apply Forall_app. split; [done|]. apply Forall_singleton.
      rewrite !contains_char_app, Hf', Hs. done.
Qed.

Lemma paths_iff name ps p :
  paths_for_name name = Ok ps ∧ p ∈ ps ↔
  paths_for_name name = Ok ps ∧ is_name name
  ∧ ∃ e, e ∈ extensions ∧ p = join "/" (split_on "." name) +:+ "." +:+ e.
Proof.
  unfold paths_for_name. destruct (refuse_name name) as [why|] eqn:Hr; [naive_solver|].
  apply refuse_name_iff in Hr as Hn.
  assert (Hrep : replace_char "." "/" name = join "/" (split_on "." name)).
  { rewrite <-(join_split "." name) at 1. apply replace_join, split_on_free. }
  rewrite Hrep. split; intros [[= <-] Hp]; (split; [done|]).
  - split; [done|]. rewrite !elem_of_cons, elem_of_nil in Hp. unfold extensions, SOURCE_EXTENSIONS.
    destruct Hp as [->|[->|[->|[]]]]; eexists; (split; [|done]); set_solver.
  - destruct Hp as (_ & e & He & ->). unfold extensions, SOURCE_EXTENSIONS in He.
    rewrite !elem_of_cons, elem_of_nil in He. destruct He as [->|[->|[->|[]]]]; set_solver.
Qed.

Lemma file_name_iff p name :
  name_for_path p = Ok name ↔
  is_name name ∧ ∃ e, e ∈ extensions ∧ p = join "/" (split_on "." name) +:+ "." +:+ e.
Proof.
  assert (Hstem : ∀ ps a e, Forall (λ x, contains_char "/" x = false) (ps ++ [a]) →
    split_on "/" (of_bytes (take (str_len (join "/" (ps ++ [a]) +:+ "." +:+ e) - str_len e - 1)
      (as_bytes (join "/" (ps ++ [a]) +:+ "." +:+ e)))) = ps ++ [a]).
  { intros ps a e Hf. rewrite !str_len_app, as_bytes_app. rewrite take_app_length'.
    - rewrite of_as_bytes, split_join; [done|by destruct ps|done].
    - change (str_len ".") with 1. unfold str_len. lia. }
  unfold name_for_path. split.
  - destruct (module_extension p) as [e|] eqn:He; [|done]. cbn [rbind].
    apply module_extension_iff in He as (Hin & qs & a & Hf & ->). rewrite Hstem by done.
    destruct (name_loop _ "" (qs ++ [a])) as [n|why] eqn:Hn; [|done]. cbn [rbind].
    apply name_loop_join in Hn as [Hc ->]; [|by destruct qs].
    destruct (refuse_name _) eqn:Hr; [done|]. intros [= <-]. split; [by apply refuse_name_iff|].
    exists e. split; [done|]. rewrite split_join; [done|by destruct qs|]. by apply components_free.
  - intros (Hn & e & Hin & ->). pose proof Hn as [Hc _].
    destruct (split_on "." name) as [|a qs _] eqn:Hs using rev_ind; [by apply split_on_nonempty in Hs|].
    assert (Hf : Forall (λ x, contains_char "/" x = false) (qs ++ [a])) by by apply components_free.
    assert (He : module_extension (join "/" (qs ++ [a]) +:+ "." +:+ e) = Some e)
      by (apply module_extension_iff; split; [done|by exists qs, a]).
    rewrite He. cbn [rbind]. rewrite Hstem by done.
    assert (Hl : name_loop (join "/" (qs ++ [a]) +:+ "." +:+ e) "" (qs ++ [a]) = Ok name).
    { apply name_loop_join; [by destruct qs|]. split; [done|]. by rewrite <-Hs, join_split. }
    rewrite Hl. cbn [rbind]. apply refuse_name_iff in Hn. by rewrite Hn.
Qed.

(** C35: A file answers to a name exactly when it is one of the paths the name
    could be answered by: a file has one name, and the two rules agree. *)
Theorem name_for_path_iff p name :
  name_for_path p = Ok name ↔ ∃ ps, paths_for_name name = Ok ps ∧ p ∈ ps.
Proof.
  rewrite file_name_iff. setoid_rewrite paths_iff. split; [|naive_solver].
  intros [Hn Hp]. apply refuse_name_iff in Hn as Hr. unfold paths_for_name. rewrite Hr.
  eexists. split_and!; done.
Qed.

End NamesFacts.

Module WalkFacts.
Import Names NamesFacts Loader.

(** A name that is one component of a path, and text. *)
Definition plain (n : string) : Prop := path_of n = [Normal n] ∧ utf8_valid (as_bytes n) = true.

Lemma inner_elem x pieces : Normal x ∈ inner pieces → x ∈ pieces ∧ x ≠ "".
Proof.
  unfold inner. intros (q & Hq & [[Hne _] Hin]%list_elem_of_filter)%list_elem_of_fmap.
  unfold component_of in Hq. case_bool_decide; [done|]. by injection Hq as ->.
Qed.

Lemma path_pieces x s : Normal x ∈ path_of s → x ∈ split_on "/" s ∧ x ≠ "".
Proof.
  unfold path_of. repeat case_match; subst; intros Hx;
    try (by apply inner_elem in Hx);
    try (apply elem_of_cons in Hx as [?|Hx]; [done|]; apply inner_elem in Hx as [??]; split; [by right|done]).
  by apply elem_of_nil in Hx.
Qed.

Lemma plain_free n : plain n → n ≠ "" ∧ contains_char "/" n = false.
Proof.
  intros [Hn _]. assert (Hin : Normal n ∈ path_of n) by (rewrite Hn; by apply list_elem_of_singleton).
  apply path_pieces in Hin as [Hin Hne]. split; [done|].
  pose proof (split_on_free "/" n) as Hf. rewrite Forall_forall in Hf. by apply Hf.
Qed.

Lemma at_push rel n : path_of n = [Normal n] → Root.at_ rel n = push rel n.
Proof. intros Hn. unfold Root.at_. rewrite Hn. by destruct rel. Qed.

Lemma component_path n : is_component n = true → path_of n = [Normal n].
Proof.
  intros Hn. pose proof (component_free "/" n Hn eq_refl) as Hs.
  pose proof (component_free "." n Hn eq_refl) as Hd. apply is_component_iff in Hn as [Hne _].
  unfold path_of. rewrite split_on_none by done.
  assert (Hi : inner [n] = [Normal n]).
  { unfold inner. rewrite filter_cons_True by (split; [done|by intros ->]). cbn. unfold component_of.
    rewrite bool_decide_false; [done|by intros ->]. }
  repeat case_match; simplify_eq; done.
Qed.

Lemma display_names ns :
  Forall (λ n, utf8_valid (as_bytes n) = true) ns → Forall nonempty ns → ns ≠ [] →
  display (Normal <$> ns) = join "/" ns.
Proof.
  intros Hu Hn Hne. unfold display.
  assert (He : omap shown_component (Normal <$> ns) = ns).
  { clear Hn Hne. induction Hu as [|n ns Hn Hu IH]; [done|]. cbn. rewrite lossy_valid, of_as_bytes by done.
    by f_equal. }
  rewrite He. unfold str_is_empty. rewrite bool_decide_false; [done|].
  destruct Hn as [|n ns Hx Hn]; [done|]. destruct ns; cbn; [done|]. by destruct n.
Qed.

Lemma display_names_inj ns ms :
  Forall plain ns → Forall plain ms → ns ≠ [] → ms ≠ [] →
  display (Normal <$> ns) = display (Normal <$> ms) → ns = ms.
Proof.
  intros Hns Hms Hn Hm.
  assert (Hp : ∀ l, Forall plain l → Forall (λ n, utf8_valid (as_bytes n) = true) l ∧ Forall nonempty l
                    ∧ Forall (λ p, contains_char "/" p = false) l).
  { intros l Hl. split_and!; (eapply Forall_impl; [exact Hl|]); intros x Hx; [apply Hx|by apply plain_free..]. }
  destruct (Hp ns Hns) as (? & ? & ?), (Hp ms Hms) as (? & ? & ?).
  rewrite !display_names by done. intros Heq%(f_equal (split_on "/")). by rewrite !split_join in Heq.
Qed.

(** ** The tree under a node *)
Section walk.
Context {F : Type} `{!Backend F} (fs : F) (dir : Path) (entry_file : option string).

Definition listing (rel : Path) : result (list string) IoError := read_dir (path_join dir rel) fs.
Definition is_directory (rel : Path) : bool := is_dir_at (path_join dir rel) fs.

(** The directories a name can reach. *)
Inductive reached : Path → Prop :=
  | reached_root : reached []
  | reached_below rel ns n :
      reached rel → listing rel = Ok ns → n ∈ ns → is_directory (push rel n) = true →
      is_component n = true → reached (push rel n).

(** A file that has a module's extension, the program itself apart. *)
Record candidate (rel : Path) (n e : string) : Prop := {
  cand_dir : reached rel;
  cand_listed : ∃ ns, listing rel = Ok ns ∧ n ∈ ns;
  cand_file : is_directory (push rel n) = false;
  cand_other : ¬ (rel = [] ∧ Some n = entry_file);
  cand_ext : module_extension (display (push rel n)) = Some e;
}.

(** What a module file makes: its name, the file as it is shown, and its text
    less a first line that is a comment. *)
Record module_at (child : Path) (m : ModuleFile) : Prop := {
  mod_cand : ∃ rel n e, child = push rel n ∧ candidate rel n e ∧ e ≠ BYTECODE_EXTENSION;
  mod_file : m_file m = display child;
  mod_name : name_for_path (m_file m) = Ok (m_name m);
  mod_source : ∃ text, read_to_string (path_join dir child) fs = Ok text
                 ∧ m_source m = skip_first_line_comment text;
}.

Definition size_of (ms : list ModuleFile) : N := foldr (λ m n, N.of_nat (str_len (m_source m)) + n)%N 0%N ms.

Lemma size_of_perm ms ms' : ms ≡ₚ ms' → size_of ms = size_of ms'.
Proof. induction 1; cbn [size_of foldr] in *; try fold (size_of l) in *; try fold (size_of l') in *; lia. Qed.

(** What can be wrong with a node. *)
Inductive trouble : Prop :=
  | unlisted rel e : reached rel → listing rel = Err e → trouble
  | bytecode rel n : candidate rel n BYTECODE_EXTENSION → trouble
  | unnamed rel n e why : candidate rel n e → name_for_path (display (push rel n)) = Err why → trouble
  | unread rel n e why : candidate rel n e → read_to_string (path_join dir (push rel n)) fs = Err why → trouble
  | twice c1 c2 m1 m2 : module_at c1 m1 → module_at c2 m2 → c1 ≠ c2 → m_name m1 = m_name m2 → trouble
  | too_much ms :
      NoDup ms → Forall (λ m, ∃ c, module_at c m) ms →
      MAX_MODULES < length ms ∨ (MAX_BYTES < size_of ms)%N → trouble.

(** Listings are of names, each once. *)
Context (Hlist : ∀ rel ns, reached rel → listing rel = Ok ns → NoDup ns ∧ Forall plain ns).

Lemma push_inj p n q m : push p n = push q m → p = q ∧ n = m.
Proof. unfold push. intros H%app_inj_tail. naive_solver. Qed.

Lemma reached_names rel : reached rel → ∃ ns, rel = Normal <$> ns ∧ Forall plain ns.
Proof.
  induction 1 as [|rel ns n Hr (ms & -> & Hms) Hl Hn _ _]; [by exists []|].
  exists (ms ++ [n]). split; [by rewrite fmap_app|]. apply Forall_app. split; [done|].
  apply Forall_singleton. destruct (Hlist _ _ Hr Hl) as [_ Hp]. rewrite Forall_forall in Hp. by apply Hp.
Qed.

Lemma candidate_names rel n e : candidate rel n e → ∃ ns, push rel n = Normal <$> ns ∧ Forall plain ns ∧ ns ≠ [].
Proof.
  intros [Hr (ls & Hl & Hn) _ _ _]. destruct (reached_names rel Hr) as (ns & -> & Hns).
  exists (ns ++ [n]). split; [by rewrite fmap_app|]. split; [|by destruct ns].
  apply Forall_app. split; [done|]. apply Forall_singleton.
  destruct (Hlist _ _ Hr Hl) as [_ Hp]. rewrite Forall_forall in Hp. by apply Hp.
Qed.

(** A file is shown as no other is. *)
Lemma module_child c1 c2 m1 m2 : module_at c1 m1 → module_at c2 m2 → m_file m1 = m_file m2 → c1 = c2.
Proof.
  intros [(r1 & n1 & e1 & -> & H1 & _) -> _ _] [(r2 & n2 & e2 & -> & H2 & _) -> _ _].
  destruct (candidate_names _ _ _ H1) as (ns & -> & ? & ?), (candidate_names _ _ _ H2) as (ms & -> & ? & ?).
  intros Heq. f_equal. by apply display_names_inj.
Qed.

Lemma module_fun c m1 m2 : module_at c m1 → module_at c m2 → m1 = m2.
Proof.
  intros [_ Hf1 Hn1 (t1 & Hr1 & Hs1)] [_ Hf2 Hn2 (t2 & Hr2 & Hs2)].
  destruct m1 as [n1 f1 s1], m2 as [n2 f2 s2]; cbn in *. congruence.
Qed.

(** ** What the walk keeps

    [left p n] is a name of a visited directory that is still to come. *)
Record Kept (vis : gset Path) (left : Path → string → Prop) (acc : Found) : Prop := {
  kept_nodup : NoDup (stack acc);
  kept_new x : x ∈ stack acc → (x ∉ vis) ∧ reached x;
  kept_seen x : x ∈ vis → reached x;
  kept_from x : x ∈ vis ∨ x ∈ stack acc → x = [] ∨ ∃ p n, x = push p n ∧ p ∈ vis ∧ ¬ left p n;
  kept_start : [] ∈ vis ∨ [] ∈ stack acc;
  kept_closed p : p ∈ vis → ∃ ns, listing p = Ok ns ∧ ∀ n, n ∈ ns → ¬ left p n →
    is_directory (push p n) = true → is_component n = true → push p n ∈ vis ∨ push p n ∈ stack acc;
  kept_sorted : bt_sorted (found acc);
  kept_found k m : (k, m) ∈ found acc ↔
    k = m_name m ∧ ∃ p n, p ∈ vis ∧ ¬ left p n ∧ module_at (push p n) m;
  kept_all p n e : p ∈ vis → ¬ left p n → candidate p n e → ∃ m, module_at (push p n) m;
  kept_total : total acc = size_of (bt_values (found acc));
  kept_len : length (found acc) ≤ MAX_MODULES;
  kept_size : (total acc ≤ MAX_BYTES)%N;
}.

Definition next_of (rel : Path) (ns : list string) (p : Path) (n : string) : Prop := p = rel ∧ n ∈ ns.

Section name.
Context (vis : gset Path) (rel : Path) (n : string) (ns : list string).
Context (Hrel : rel ∈ vis) (Hlisted : ∃ all, listing rel = Ok all ∧ n ∈ all).
Context (Hnd : n ∉ ns).

Lemma not_left p m : ¬ next_of rel ns p m ↔ (p = rel ∧ m = n) ∨ ¬ next_of rel (n :: ns) p m.
Proof.
  unfold next_of. rewrite elem_of_cons. split; [|naive_solver].
  intros H. destruct (decide (p = rel ∧ m = n)); naive_solver.
Qed.

(** A name that is neither a directory to enter nor a candidate. *)
Lemma kept_skip acc :
  (is_directory (push rel n) = true → is_component n = false) → (∀ e, ¬ candidate rel n e) →
  Kept vis (next_of rel (n :: ns)) acc → Kept vis (next_of rel ns) acc.
Proof.
  intros Hd Hc [H1 H2 H3 H4 H5 H6 H7 H8 H9 H10 H11 H12]. split; try done.
  - intros x Hx. destruct (H4 x Hx) as [|(p & m & -> & Hp & Hl)]; [by left|right].
    exists p, m. split_and!; [done..|]. apply not_left. by right.
  - intros p Hp. destruct (H6 p Hp) as (l & Hl & Hcl). exists l. split; [done|].
    intros m Hm [[-> ->]|Hleft]%not_left Hdir Hcomp; [|by apply Hcl].
    by rewrite Hd in Hcomp.
  - intros k m. rewrite H8. apply and_iff_compat_l. split; intros (p & m' & Hp & Hl & Hm).
    + exists p, m'. split_and!; [done| |done]. apply not_left. by right.
    + apply not_left in Hl as [[-> ->]|Hl]; [|by exists p, m'].
      destruct (mod_cand _ _ Hm) as (r & q & e & Heq & Hcand & _). apply push_inj in Heq as [<- <-].
      by destruct (Hc e).
  - intros p m e Hp [[-> ->]|Hl]%not_left Hcand; [by destruct (Hc e)|by eapply H9].
Qed.

(** A directory to enter goes on the stack. *)
Lemma kept_enter acc :
  is_directory (push rel n) = true → is_component n = true →
  Kept vis (next_of rel (n :: ns)) acc →
  Kept vis (next_of rel ns) (MkFound (push rel n :: stack acc) (found acc) (total acc)).
Proof.
  intros Hd Hcn HK. pose proof HK as [H1 H2 H3 H4 H5 H6 H7 H8 H9 H10 H11 H12].
  assert (Hfresh : ¬ (push rel n ∈ vis ∨ push rel n ∈ stack acc)).
  { intros [Hx|(p & m & Heq & Hp & Hl)]%H4; [by destruct rel|].
    apply push_inj in Heq as [<- <-]. apply Hl. split; [done|by left]. }
  assert (Hre : reached (push rel n)).
  { destruct Hlisted as (all & Hl & Hin). eapply reached_below; [by apply H3|done..]. }
  split; cbn [stack found total].
  - constructor; [tauto|done].
  - intros x [->|Hx]%elem_of_cons; [|by apply H2]. split; [tauto|done].
  - done.
  - intros x Hx. rewrite elem_of_cons in Hx.
    assert (Hc : x = push rel n ∨ (x ∈ vis ∨ x ∈ stack acc)) by tauto.
    destruct Hc as [->|Hc].
    + right. exists rel, n. split_and!; [done..|]. apply not_left. by left.
    + destruct (H4 x Hc) as [|(p & m & -> & Hp & Hl)]; [by left|right].
      exists p, m. split_and!; [done..|]. apply not_left. by right.
  - destruct H5; [by left|right; by right].
  - intros p Hp. destruct (H6 p Hp) as (l & Hl & Hcl). exists l. split; [done|].
    intros m Hm [[-> ->]|Hleft]%not_left Hdir Hcomp; [right; by left|].
    destruct (Hcl m Hm Hleft Hdir Hcomp); [by left|right; by right].
  - done.
  - intros k m. rewrite H8. apply and_iff_compat_l. split; intros (p & m' & Hp & Hl & Hm).
    + exists p, m'. split_and!; [done| |done]. apply not_left. by right.
    + apply not_left in Hl as [[-> ->]|Hl]; [|by exists p, m'].
      destruct (mod_cand _ _ Hm) as (r & q & e & Heq & Hcand & _). apply push_inj in Heq as [<- <-].
      by rewrite (cand_file _ _ _ Hcand) in Hd.
  - intros p m e Hp [[-> ->]|Hl]%not_left Hcand; [|by eapply H9].
    by rewrite (cand_file _ _ _ Hcand) in Hd.
  - done.
  - done.
  - done.
Qed.

(** A module file goes into what is found. *)
Lemma kept_add acc m :
  module_at (push rel n) m → bt_get (K := string) (m_name m) (found acc) = None →
  length (found acc) < MAX_MODULES →
  (total acc + N.of_nat (str_len (m_source m)) ≤ MAX_BYTES)%N →
  Kept vis (next_of rel (n :: ns)) acc →
  Kept vis (next_of rel ns)
    (MkFound (stack acc) (bt_insert (K := string) (m_name m) m (found acc))
       (total acc + N.of_nat (str_len (m_source m)))).
Proof.
  intros Hm Hget Hlen Hsize [H1 H2 H3 H4 H5 H6 H7 H8 H9 H10 H11 H12].
  assert (Hp : bt_insert (K := string) (m_name m) m (found acc) ≡ₚ (m_name m, m) :: found acc).
  { apply bt_insert_fresh. by apply bt_get_None. }
  assert (Hdir : is_directory (push rel n) = false).
  { destruct (mod_cand _ _ Hm) as (r & q & x & Heq & Hc & _). apply push_inj in Heq as [<- <-]. apply Hc. }
  split; cbn [stack found total].
  - done.
  - done.
  - done.
  - intros x Hx. destruct (H4 x Hx) as [|(p & q & -> & Hpv & Hl)]; [by left|right].
    exists p, q. split_and!; [done..|]. apply not_left. by right.
  - done.
  - intros p Hpv. destruct (H6 p Hpv) as (l & Hl & Hcl). exists l. split; [done|].
    intros q Hq [[-> ->]|Hleft]%not_left Hd Hcomp; [congruence|by apply Hcl].
  - by apply bt_sorted_insert.
  - intros k m'. rewrite Hp, elem_of_cons, H8. split.
    + intros [[= -> ->]|(-> & p & q & Hpv & Hl & Hm')]; (split; [done|]).
      * exists rel, n. split_and!; [done| |done]. apply not_left. by left.
      * exists p, q. split_and!; [done| |done]. apply not_left. by right.
    + intros (-> & p & q & Hpv & [[-> ->]|Hl]%not_left & Hm').
      * left. by rewrite (module_fun _ _ _ Hm' Hm).
      * right. split; [done|]. by exists p, q.
  - intros p q e Hpv [[-> ->]|Hl]%not_left Hcand; [by exists m|by eapply H9].
  - assert (Hv : bt_values (bt_insert (K := string) (m_name m) m (found acc)) ≡ₚ m :: bt_values (found acc)).
    { unfold bt_values. by rewrite Hp. }
    rewrite (size_of_perm _ _ Hv), H10. cbn [size_of foldr]. fold (size_of (bt_values (found acc))). lia.
  - rewrite Hp. cbn. lia.
  - done.
Qed.

(** What is found is modules of other files. *)
Lemma found_other acc m :
  Kept vis (next_of rel (n :: ns)) acc → m ∈ bt_values (found acc) →
  ∃ c, module_at c m ∧ c ≠ push rel n.
Proof.
  intros HK ([k m'] & -> & Hin)%list_elem_of_fmap. apply (kept_found _ _ _ HK) in Hin as (_ & p & q & Hp & Hl & Hm).
  exists (push p q). split; [done|]. intros [-> ->]%push_inj. apply Hl. split; [done|by left].
Qed.

Lemma found_nodup acc : Kept vis (next_of rel (n :: ns)) acc → NoDup (bt_values (found acc)).
Proof.
  intros HK. apply (NoDup_fmap_1 m_name). unfold bt_values. rewrite <-list_fmap_compose.
  rewrite (list_fmap_ext _ fst (found acc)); [apply bt_sorted_NoDup, HK|].
  intros i [k m] Hi%list_elem_of_lookup_2. cbn. by apply (kept_found _ _ _ HK) in Hi as [-> _].
Qed.

(** One more than what is found is too much of a node. *)
Lemma more_trouble acc m :
  Kept vis (next_of rel (n :: ns)) acc → module_at (push rel n) m →
  MAX_MODULES ≤ length (found acc) ∨ (MAX_BYTES < total acc + N.of_nat (str_len (m_source m)))%N → trouble.
Proof.
  intros HK Hm Hmore. apply (too_much (m :: bt_values (found acc))).
  - constructor; [|by apply found_nodup]. intros (c & Hc & Hne)%(found_other acc m HK).
    destruct Hne. by eapply module_child.
  - constructor; [by eexists|]. apply Forall_forall. intros m' (c & Hc & _)%(found_other acc m' HK). by exists c.
  - destruct Hmore as [Hl|Hs]; [left|right].
    + cbn. unfold bt_values. rewrite length_fmap. lia.
    + cbn [size_of foldr]. fold (size_of (bt_values (found acc))). rewrite <-(kept_total _ _ _ HK). lia.
Qed.

Lemma take_step acc e :
  Kept vis (next_of rel (n :: ns)) acc → candidate rel n e → e ≠ BYTECODE_EXTENSION →
  match take_module dir (path_join dir (push rel n)) (display (push rel n)) acc fs with
  | Ok acc' => Kept vis (next_of rel ns) acc'
  | Err _ => trouble
  end.
Proof.
  intros HK Hc He. unfold take_module.
  destruct (name_for_path (display (push rel n))) as [name|why] eqn:Hn; [|by eapply unnamed]. cbn [rbind].
  destruct (read_to_string _ fs) as [text|why] eqn:Ht; [|by eapply unread]. cbn [rbind map_err].
  set (m := MkModuleFile name (display (push rel n)) (skip_first_line_comment text)).
  assert (Hm : module_at (push rel n) m) by (split; [by exists rel, n, e|done..|by exists text]).
  case_bool_decide as Hlen; [by eapply more_trouble; [done..|left]|].
  case_bool_decide as Hsize; [by eapply more_trouble; [done..|right]|].
  destruct (bt_get _ _) as [clash|] eqn:Hg.
  - apply bt_get_elem in Hg as Hin. apply (kept_found _ _ _ HK) in Hin as (Hname & p & q & Hp & Hl & Hcl).
    eapply (twice (push p q) (push rel n) clash m); [done..| |done].
    intros [-> ->]%push_inj. apply Hl. split; [done|by left].
  - apply (kept_add acc m); try done; [lia|]. by apply N.le_ngt.
Qed.

Lemma walk_name_step acc :
  plain n → Kept vis (next_of rel (n :: ns)) acc →
  match walk_name dir rel entry_file n acc fs with
  | Ok acc' => Kept vis (next_of rel ns) acc'
  | Err _ => trouble
  end.
Proof.
  intros [Hpath _] HK. unfold walk_name. rewrite at_push by done.
  fold (is_directory (push rel n)). destruct (is_directory (push rel n)) eqn:Hd.
  { destruct (is_component n) eqn:Hc.
    - by apply kept_enter.
    - apply kept_skip; [done| |done]. intros e Hcand. by rewrite (cand_file _ _ _ Hcand) in Hd. }
  destruct (bool_decide (rel = []) && bool_decide (Some n = entry_file)) eqn:He.
  { apply andb_true_iff in He as [Hr%bool_decide_eq_true He%bool_decide_eq_true].
    apply kept_skip; [congruence| |done]. intros e Hcand. by apply (cand_other _ _ _ Hcand). }
  destruct (module_extension (display (push rel n))) as [e|] eqn:Hext.
  - assert (Hc : candidate rel n e).
    { split; [by apply (kept_seen _ _ _ HK)|destruct Hlisted as (l & ? & ?); by exists l|done| |done].
      intros [-> Hn]. by rewrite !bool_decide_true in He. }
    destruct (bool_decide (e = BYTECODE_EXTENSION)) eqn:Hb.
    + apply bool_decide_eq_true in Hb. subst e. by eapply bytecode.
    + apply bool_decide_eq_false in Hb. by eapply take_step.
  - apply kept_skip; [congruence| |done]. intros e Hcand. by rewrite (cand_ext _ _ _ Hcand) in Hext.
Qed.
End name.

Lemma walk_names_step vis rel all ns : ∀ acc,
  rel ∈ vis → listing rel = Ok all → (∀ n, n ∈ ns → n ∈ all) → NoDup ns → Forall plain ns →
  Kept vis (next_of rel ns) acc →
  match walk_names dir rel entry_file ns acc fs with
  | Ok acc' => Kept vis (next_of rel []) acc'
  | Err _ => trouble
  end.
Proof.
  induction ns as [|n ns IH]; intros acc Hrel Hall Hin Hnd Hpl HK; [done|].
  apply NoDup_cons in Hnd as [Hn Hnd]. apply Forall_cons in Hpl as [Hp Hpl]. cbn [walk_names].
  assert (Hl : ∃ all, listing rel = Ok all ∧ n ∈ all) by (exists all; split; [done|apply Hin; by left]).
  pose proof (walk_name_step vis rel n ns Hrel Hl Hn acc Hp HK) as Hs.
  destruct (walk_name _ _ _ _ _ _) as [acc'|e]; [|done]. cbn [rbind].
  apply IH; try done. intros x Hx. apply Hin. by right.
Qed.

(** What is left of no name is nothing. *)
Lemma kept_left vis l l' acc : (∀ p n, l p n ↔ l' p n) → Kept vis l acc → Kept vis l' acc.
Proof.
  intros Hl [H1 H2 H3 H4 H5 H6 H7 H8 H9 H10 H11 H12]. split; try done.
  - intros x Hx. setoid_rewrite <-Hl. by apply H4.
  - intros p Hp. setoid_rewrite <-Hl. by apply H6.
  - intros k m. setoid_rewrite <-Hl. by apply H8.
  - intros p n e. rewrite <-Hl. by apply H9.
Qed.

Definition settled (vis : gset Path) (acc : Found) : Prop := Kept vis (λ _ _, False) acc.

(** The directory on top of the stack is listed and gone through. *)
Lemma settled_open vis rel rest acc ns :
  settled vis acc → stack acc = rel :: rest → listing rel = Ok ns →
  Kept ({[ rel ]} ∪ vis) (next_of rel ns) (MkFound rest (found acc) (total acc)).
Proof.
  intros HK Hst Hns. pose proof HK as [H1 H2 H3 H4 H5 H6 H7 H8 H9 H10 H11 H12]. rewrite Hst in *.
  apply NoDup_cons in H1 as [Hnin H1].
  assert (Hrel : (rel ∉ vis) ∧ reached rel) by (apply H2; by left).
  assert (Hold : ∀ p n, p ∈ vis → ¬ next_of rel ns p n).
  { intros p n Hp [-> _]. tauto. }
  split; cbn [stack found total].
  - done.
  - intros x Hx. destruct (H2 x) as [??]; [by right|]. split; [|done]. set_solver.
  - intros x [->%elem_of_singleton|Hx]%elem_of_union; [tauto|by apply H3].
  - intros x Hx. destruct (H4 x) as [|(p & n & -> & Hp & _)]; [set_solver|by left|right].
    exists p, n. split_and!; [done|set_solver|by apply Hold].
  - set_solver.
  - intros p [->%elem_of_singleton|Hp]%elem_of_union.
    + exists ns. split; [done|]. intros n Hn Hl. by destruct Hl.
    + destruct (H6 p Hp) as (l & Hl & Hcl). exists l. split; [done|].
      intros n Hn _ Hd Hc. destruct (Hcl n Hn) as [?|?%elem_of_cons]; set_solver.
  - done.
  - intros k m. rewrite H8. apply and_iff_compat_l. split; intros (p & n & Hp & Hl & Hm).
    + exists p, n. split_and!; [set_solver|by apply Hold|done].
    + apply elem_of_union in Hp as [->%elem_of_singleton|Hp]; [|exists p, n; split_and!; [done|intros []|done]].
      destruct (mod_cand _ _ Hm) as (r & q & e & Heq & Hc & _). apply push_inj in Heq as [<- <-].
      destruct Hl. destruct (cand_listed _ _ _ Hc) as (l & Hll & Hin). rewrite Hns in Hll. by simplify_eq.
  - intros p n e [->%elem_of_singleton|Hp]%elem_of_union Hl Hc; [|by eapply H9; [done|intros []|done]].
    destruct Hl. destruct (cand_listed _ _ _ Hc) as (l & Hll & Hin). rewrite Hns in Hll. by simplify_eq.
  - done.
  - done.
  - done.
Qed.

Lemma settled_start : settled ∅ (MkFound [[]] [] 0).
Proof.
  split; cbn [stack found total].
  - apply NoDup_singleton.
  - intros x ->%list_elem_of_singleton. split; [set_solver|constructor].
  - set_solver.
  - intros x [?| ->%list_elem_of_singleton]; [set_solver|by left].
  - right. by left.
  - set_solver.
  - apply bt_sorted_nil.
  - intros k m. split; [by intros ?%elem_of_nil|]. set_solver.
  - set_solver.
  - done.
  - cbn. unfold MAX_MODULES. lia.
  - done.
Qed.

(** ** The end of the walk *)

Record whole (acc : Found) : Prop := {
  whole_sorted : bt_sorted (found acc);
  whole_found k m : (k, m) ∈ found acc ↔ k = m_name m ∧ ∃ c, module_at c m;
  whole_clean : ¬ trouble;
}.

Lemma settled_whole vis acc : settled vis acc → stack acc = [] → whole acc.
Proof.
  intros [H1 H2 H3 H4 H5 H6 H7 H8 H9 H10 H11 H12] Hst. rewrite Hst in *.
  assert (Hvis : ∀ p, reached p → p ∈ vis).
  { induction 1 as [|p ns n Hp IH Hl Hn Hd Hc]; [set_solver|].
    destruct (H6 p IH) as (l & Hl' & Hcl). rewrite Hl in Hl'. injection Hl' as <-.
    destruct (Hcl n Hn) as [|?%elem_of_nil]; [intros []|done..]. }
  assert (Hfound : ∀ k m, (k, m) ∈ found acc ↔ k = m_name m ∧ ∃ c, module_at c m).
  { intros k m. rewrite H8. apply and_iff_compat_l. split; [intros (p & n & _ & _ & Hm); by eexists|].
    intros [c Hm]. destruct (mod_cand _ _ Hm) as (p & n & e & -> & Hc & _).
    exists p, n. split_and!; [apply Hvis, Hc|intros []|done]. }
  assert (Hall : ∀ p n e, candidate p n e → ∃ m, module_at (push p n) m).
  { intros p n e Hc. eapply H9; [apply Hvis, Hc|intros []|done]. }
  split; [done..|]. intros [p e Hp Hl|p n Hc|p n e why Hc Hw|p n e why Hc Hw|c1 c2 m1 m2 Hm1 Hm2 Hne Hname|ms Hnd Hms Hmore].
  - destruct (H6 p (Hvis p Hp)) as (l & Hl' & _). by rewrite Hl in Hl'.
  - destruct (Hall _ _ _ Hc) as [m Hm]. destruct (mod_cand _ _ Hm) as (r & q & x & Heq & Hx & Hb).
    apply push_inj in Heq as [<- <-]. apply Hb.
    pose proof (cand_ext _ _ _ Hc) as E1. pose proof (cand_ext _ _ _ Hx) as E2. congruence.
  - destruct (Hall _ _ _ Hc) as [m Hm]. pose proof (mod_name _ _ Hm) as E.
    rewrite (mod_file _ _ Hm) in E. congruence.
  - destruct (Hall _ _ _ Hc) as [m Hm]. destruct (mod_source _ _ Hm) as (t & E & _). congruence.
  - assert (Hg1 : bt_get (m_name m1) (found acc) = Some m1)
      by (apply bt_sorted_get_elem; [done|]; apply Hfound; split; [done|by eexists]).
    assert (Hg2 : bt_get (m_name m2) (found acc) = Some m2)
      by (apply bt_sorted_get_elem; [done|]; apply Hfound; split; [done|by eexists]).
    rewrite Hname in Hg1. assert (m1 = m2) as -> by congruence. apply Hne. by eapply module_child.
  - assert (Hsub : ms ⊆+ bt_values (found acc)).
    { apply NoDup_submseteq; [done|]. intros m Hm. rewrite Forall_forall in Hms.
      apply list_elem_of_fmap. exists (m_name m, m). split; [done|]. apply Hfound. split; [done|]. by apply Hms. }
    destruct Hmore as [Hlen|Hsize].
    + apply submseteq_length in Hsub. unfold bt_values in Hsub. rewrite length_fmap in Hsub. lia.
    + apply submseteq_Permutation in Hsub as [k Hk]. rewrite (size_of_perm _ _ Hk) in H10.
      assert (Happ : size_of (ms ++ k) = (size_of ms + size_of k)%N).
      { clear. induction ms as [|m ms IH]; [done|]. cbn in *. unfold size_of in *. lia. }
      lia.
Qed.

(** A set that holds every directory a name can reach. *)
Context (tree : gset Path) (Htree : ∀ p, reached p → p ∈ tree).

Lemma walk_loop_ends fuel : ∀ vis acc,
  settled vis acc → size (tree ∖ vis) ≤ fuel →
  ∃ r, walk_loop fuel dir entry_file acc fs = Some r
    ∧ match r with Ok acc' => whole acc' | Err _ => trouble end.
Proof.
  induction fuel as [|fuel IH]; intros vis acc HK Hfuel.
  all: cbn [walk_loop]; destruct (stack acc) as [|rel rest] eqn:Hst;
    [eexists; split; [done|by eapply settled_whole]|].
  all: assert (Hrel : (rel ∉ vis) ∧ reached rel) by (apply (kept_new _ _ _ HK); rewrite Hst; by left).
  { exfalso. assert (Hz : size (tree ∖ vis) = 0) by lia. apply size_empty_inv in Hz.
    specialize (Htree rel). set_solver. }
  fold (listing rel). destruct (listing rel) as [ns|e] eqn:Hns.
  2: { eexists. split; [done|]. eapply unlisted; [apply Hrel|done]. }
  pose proof (settled_open vis rel rest acc ns HK Hst Hns) as Hopen.
  destruct (Hlist rel ns) as [Hnd Hpl]; [tauto|done|].
  assert (Hperm : merge_sort str_le ns ≡ₚ ns) by apply merge_sort_Permutation.
  assert (Hw : match walk_names dir rel entry_file (merge_sort str_le ns)
                 (MkFound rest (found acc) (total acc)) fs with
               | Ok acc' => Kept ({[ rel ]} ∪ vis) (next_of rel []) acc'
               | Err _ => trouble end).
  { apply (walk_names_step _ rel ns); [set_solver|done|by intros n; rewrite Hperm|by rewrite Hperm|by rewrite Hperm|].
    eapply kept_left; [|done]. intros p n. unfold next_of. by rewrite Hperm. }
  destruct (walk_names _ _ _ _ _ _) as [acc'|e]; [|by eexists].
  apply (IH ({[ rel ]} ∪ vis)).
  - eapply kept_left; [|exact Hw]. intros p n. unfold next_of. rewrite elem_of_nil. tauto.
  - assert (Hlt : tree ∖ ({[ rel ]} ∪ vis) ⊂ tree ∖ vis).
    { specialize (Htree rel (proj2 Hrel)). set_solver. }
    apply subset_size in Hlt. lia.
Qed.
End walk.
(** [discover] ends, and answers with every module file a name can reach, in
    the order of their names, or there is something wrong with the node. *)
Lemma discover_exact {F} `{!Backend F} (fs : F) (program : Path) (tree : gset Path) fuel
    (dir := node_dir program) (entry := file_name_str program) :
  is_dir_at dir fs = true →
  (∀ rel ns, reached fs dir rel → listing fs dir rel = Ok ns → NoDup ns ∧ Forall plain ns) →
  (∀ p, reached fs dir p → p ∈ tree) → size tree ≤ fuel →
  ∃ r, discover fuel program fs = Some r
    ∧ match r with
      | Ok ms =>
          m_dir ms = display dir ∧ StronglySorted (λ a b, klt (m_name a) (m_name b) = true) (modules ms)
          ∧ (∀ m, m ∈ modules ms ↔ ∃ c, module_at fs dir entry c m) ∧ ¬ trouble fs dir entry
      | Err _ => trouble fs dir entry
      end.
Proof.
  intros Hd Hlist Htree Hfuel. unfold discover. fold dir entry. rewrite Hd. cbn [negb].
  destruct (walk_loop_ends fs dir entry Hlist tree Htree fuel ∅ (MkFound [[]] [] 0)) as (r & Hr & Hw);
    [by apply settled_start|by rewrite difference_empty_L|].
  rewrite Hr. cbn [mbind option_bind]. eexists. split; [done|].
  destruct r as [acc|e]; [|done]. cbn [rbind]. destruct Hw as [Hs Hf Hc]. cbn [m_dir modules].
  split_and!; [done| | |done].
  - unfold bt_values. revert Hs Hf. generalize (found acc). intros l Hs Hf.
    assert (Hn : Forall (λ kv : string * ModuleFile, kv.1 = m_name kv.2) l).
    { apply Forall_forall. intros [k m] Hin. by apply Hf in Hin as [-> _]. }
    clear Hf. induction l as [|[k m] l IH]; [constructor|].
    apply bt_sorted_cons in Hs as [Hk Hs]. apply Forall_cons in Hn as [Hkm Hn]. cbn in Hkm. subst k.
    cbn [fmap list_fmap snd]. constructor; [by apply IH|]. apply Forall_forall.
    intros m' ([k' m''] & -> & Hin)%list_elem_of_fmap. cbn.
    rewrite Forall_forall in Hn. pose proof (Hn _ Hin) as He. cbn in He. rewrite <-He.
    apply Hk. apply list_elem_of_fmap. by exists (k', m'').
  - intros m. unfold bt_values. rewrite list_elem_of_fmap. split.
    + intros ([k m'] & -> & Hin). by apply Hf in Hin as [_ ?].
    + intros Hm. exists (m_name m, m). split; [done|]. by apply Hf.
Qed.

(** ** The memory filesystem *)
Import MemFs MemFsFacts.
Section mem.
Context (st : MemState) (dir : Path) (Hwf : wf st) (Hdir : folded dir) (Hin : dir ∈ dirs st).

Lemma join_push p n : (∃ ns, p = Normal <$> ns) → path_join dir (push p n) = push (path_join dir p) n.
Proof.
  intros [ns ->]. destruct Hdir as [ds ->]. unfold path_join, push.
  destruct ns as [|x ns]; cbn; [by rewrite app_nil_r|by rewrite <-app_assoc].
Qed.

Lemma mem_reached p : reached st dir p → (∃ ns, p = Normal <$> ns) ∧ path_join dir p ∈ dirs st.
Proof.
  induction 1 as [|p ns n Hp [[ms ->] IH] Hl Hn Hd Hc].
  - split; [by exists []|]. destruct Hdir as [ds ->]. unfold path_join. cbn. by rewrite app_nil_r.
  - split; [exists (ms ++ [n]); by rewrite fmap_app|].
    unfold is_directory, is_dir_at, metadata, mem_backend, mem_metadata in Hd.
    rewrite join_push in Hd |- * by by eexists.
    rewrite absolute_id in Hd by (apply folded_push; by apply (wf_dirs st Hwf)).
    unfold is_dir in Hd. case_bool_decide; [done|]. by destruct (files st !! _).
Qed.

Definition mem_tree : gset Path :=
  list_to_set (drop (length dir) <$> elements (filter (λ q, dir `prefix_of` q) (dirs st))).

Lemma list_to_set_size (l : list Path) : size (list_to_set l : gset Path) ≤ length l.
Proof.
  induction l as [|x l IH]; [done|]. cbn. rewrite size_union_alt, size_singleton.
  assert (Hs : (list_to_set l ∖ {[ x ]} : gset Path) ⊆ list_to_set l) by set_solver.
  apply subseteq_size in Hs. lia.
Qed.

Lemma mem_tree_size : size mem_tree ≤ size (dirs st).
Proof.
  unfold mem_tree. etrans; [apply list_to_set_size|]. rewrite length_fmap.
  change (length (elements ?X)) with (size X). apply subseteq_size. set_solver.
Qed.

Lemma mem_in_tree p : reached st dir p → p ∈ mem_tree.
Proof.
  intros [[ns Hp] Hd]%mem_reached. apply elem_of_list_to_set, list_elem_of_fmap.
  assert (Hj : path_join dir p = dir ++ p).
  { subst p. destruct Hdir as [ds ->]. by destruct ns. }
  exists (dir ++ p). rewrite drop_app_length. split; [done|].
  apply elem_of_elements, elem_of_filter. rewrite Hj in Hd. split; [by eexists|done].
Qed.

Lemma mem_listing rel ns :
  (∀ p n, push p n ∈ dirs st ∨ is_Some (files st !! push p n) → plain n) →
  reached st dir rel → listing st dir rel = Ok ns → NoDup ns ∧ Forall plain ns.
Proof.
  intros Hp [_ Hd]%mem_reached Hl.
  destruct (read_dir_names (path_join dir rel) st) as (ns' & Hr & Hnd & Hns); [by apply (wf_dirs st Hwf)|done|].
  unfold listing, read_dir, mem_backend in Hl. rewrite Hr in Hl. injection Hl as <-.
  split; [done|]. apply Forall_forall. intros n Hn%Hns. by eapply Hp.
Qed.
End mem.

(** C15: Over the memory filesystem, the walk of a node's directory ends, and
    finds exactly the module files a name can reach, in the order of their
    names; or something is wrong with the node: a file's name, its text, its
    being bytecode, two files for a name, more than a node may carry. *)
Theorem discover_finds (st : MemState) (program : Path) fuel
    (dir := node_dir program) (entry := file_name_str program) :
  wf st → folded dir → dir ∈ dirs st →
  (∀ p n, push p n ∈ dirs st ∨ is_Some (files st !! push p n) → plain n) →
  size (dirs st) ≤ fuel →
  ∃ r, discover fuel program st = Some r
    ∧ match r with
      | Ok ms =>
          m_dir ms = display dir ∧ StronglySorted (λ a b, klt (m_name a) (m_name b) = true) (modules ms)
          ∧ (∀ m, m ∈ modules ms ↔ ∃ c, module_at st dir entry c m) ∧ ¬ trouble st dir entry
      | Err _ => trouble st dir entry
      end.
Proof.
  intros Hwf Hf Hin Hp Hfuel. apply (discover_exact st program (mem_tree st dir)).
  - unfold is_dir_at, metadata, mem_backend, mem_metadata, is_dir. fold dir.
    by rewrite absolute_id, bool_decide_true by done.
  - intros rel ns. by apply (mem_listing st dir Hwf Hf Hin).
  - intros p. by apply (mem_in_tree st dir Hwf Hf Hin).
  - etrans; [by apply mem_tree_size|done].
Qed.

End WalkFacts.
