(* ===== verification/Chunk.v ===== *)
(** * What Lua reads of the generated chunk

    The chunk of [Modules] is text that a Lua compiler reads.  Here is a
    reader of Lua's tokens, after the lexical conventions of the Lua 5.4
    manual (3.1); and that what it reads of the chunk is the fixed program
    with every name, file and source inside one string token, for the
    sources a long bracket carries and the names that can be quoted. *)

From S2P Require Import Prelude.
From S2P Require Import Bytes.
From S2P Require Import Value.
From S2P Require Import Modules.
From S2P Require Import ModulesSpec.

Module Lua.
Import Loader.

Inductive Token :=
  | TName (s : string)
  | TNumber (s : string)
  | TString (s : string)
  | TPunct (s : string).

#[export] Instance Token_eq_dec : EqDecision Token.
Proof. solve_decision. Defined.

Definition is_line_end (c : ascii) : bool := bool_decide (c = LF ∨ c = CR).
Definition is_space (c : ascii) : bool := in_range 9 13 (byte_val c) || bool_decide (c = " "%char).
Definition is_digit (c : ascii) : bool := in_range 48 57 (byte_val c).
Definition is_name_start (c : ascii) : bool := Names.is_name_char c && negb (is_digit c).

Fixpoint span (p : ascii → bool) (s : string) : string * string :=
  match s with
  | String c s' => if p c then let '(l, r) := span p s' in (String c l, r) else ("", s)
  | EmptyString => ("", "")
  end.

(** What follows a prefix. *)
Fixpoint strip (p s : string) : option string :=
  match p, s with
  | EmptyString, _ => Some s
  | String a p', String b s' => if bool_decide (a = b) then strip p' s' else None
  | _, _ => None
  end.

(** A line end is a carriage return, a line feed or the two in either
    order. *)
Definition skip_line_end (s : string) : string :=
  match s with
  | String c s' =>
      if is_line_end c then
        match s' with
        | String d s'' => if is_line_end d && negb (bool_decide (d = c)) then s'' else s'
        | EmptyString => s'
        end
      else s
  | EmptyString => s
  end.

(** Up to the close of a long bracket; a line end is read as a line feed. *)
Fixpoint long_body (close s : string) : option (string * string) :=
  match strip close s with
  | Some r => Some ("", r)
  | None =>
      match s with
      | EmptyString => None
      | String c s' =>
          if is_line_end c then
            match s' with
            | String d s'' =>
                '(t, r) ← (if is_line_end d && negb (bool_decide (d = c))
                           then long_body close s'' else long_body close s');
                Some (String LF t, r)
            | EmptyString => '(t, r) ← long_body close s'; Some (String LF t, r)
            end
          else '(t, r) ← long_body close s'; Some (String c t, r)
      end
  end.

(** After an opening bracket: its level, when it opens a long bracket. *)
Fixpoint long_level (level : nat) (s : string) : option (nat * string) :=
  match s with
  | String c s' =>
      if bool_decide (c = "="%char) then long_level (S level) s'
      else if bool_decide (c = "["%char) then Some (level, s')
      else None
  | EmptyString => None
  end.

Definition long_bracket (s : string) : option (option (string * string)) :=
  '(level, s) ← long_level 0 s; Some (long_body (close_of level) (skip_line_end s)).

(** At most [n] decimal digits. *)
Fixpoint decimal (n : nat) (acc : N) (s : string) : N * string :=
  match n, s with
  | S n', String c s' =>
      match digit_val c with Some d => decimal n' (acc * 10 + d)%N s' | None => (acc, s) end
  | _, _ => (acc, s)
  end.

Definition simple_escape (c : ascii) : option ascii :=
  if bool_decide (c = "a"%char) then Some (of_byte 7)
  else if bool_decide (c = "b"%char) then Some (of_byte 8)
  else if bool_decide (c = "t"%char) then Some (of_byte 9)
  else if bool_decide (c = "n"%char) then Some LF
  else if bool_decide (c = "v"%char) then Some (of_byte 11)
  else if bool_decide (c = "f"%char) then Some (of_byte 12)
  else if bool_decide (c = "r"%char) then Some CR
  else if bool_decide (c = "\"%char ∨ c = DQ ∨ c = "'"%char ∨ c = LF) then Some c
  else None.

(** A short string up to its quote; the escapes [\x], [\z] and [\u], which
    the chunk has none of, are not read. *)
Fixpoint short_body (fuel : nat) (q : ascii) (s : string) : option (string * string) :=
  match fuel, s with
  | S fuel', String c s' =>
      if bool_decide (c = q) then Some ("", s')
      else if is_line_end c then None
      else if bool_decide (c = "\"%char) then
        match s' with
        | EmptyString => None
        | String d s'' =>
            match simple_escape d with
            | Some e => '(t, r) ← short_body fuel' q s''; Some (String e t, r)
            | None =>
                if is_digit d then
                  let '(n, r) := decimal 3 0 s' in
                  if bool_decide (n < 256)%N then '(t, r) ← short_body fuel' q r; Some (String (of_byte n) t, r)
                  else None
                else None
            end
        end
      else '(t, r) ← short_body fuel' q s'; Some (String c t, r)
  | _, _ => None
  end.

Definition punctuation : list string :=
  ["..."; "<<"; ">>"; "//"; "=="; "~="; "<="; ">="; "::"; ".."; "+"; "-"; "*"; "/"; "%"; "^"; "#"; "&";
   "~"; "|"; "<"; ">"; "="; "("; ")"; "{"; "}"; "["; "]"; ";"; ":"; ","; "."].

Definition punct (s : string) : option (string * string) :=
  p ← find_first (λ p, starts_with s p) punctuation;
  r ← strip p s; Some (p, r).

(** One token, or white space or a comment; the rest. *)
Definition lex_one (s : string) : option (option Token * string) :=
  match s with
  | EmptyString => None
  | String c s' =>
      if is_space c then Some (None, s')
      else if starts_with s "--" then
        let after := match s' with String _ r => r | EmptyString => "" end in
        match (match after with
               | String d r => if bool_decide (d = "["%char) then long_bracket r else None
               | EmptyString => None
               end) with
        | Some o => '(_, r) ← o; Some (None, r)
        | None => Some (None, (span (λ c, negb (is_line_end c)) after).2)
        end
      else if is_name_start c then let '(t, r) := span Names.is_name_char s in Some (Some (TName t), r)
      else if is_digit c then
        let '(t, r) := span (λ c, Names.is_name_char c || bool_decide (c = "."%char)) s in
        Some (Some (TNumber t), r)
      else if bool_decide (c = DQ ∨ c = "'"%char) then
        '(t, r) ← short_body (S (str_len s')) c s'; Some (Some (TString t), r)
      else
        match (if bool_decide (c = "["%char) then long_bracket s' else None) with
        | Some o => '(t, r) ← o; Some (Some (TString t), r)
        | None => '(p, r) ← punct s; Some (Some (TPunct p), r)
        end
  end.

Fixpoint lex (fuel : nat) (s : string) : option (list Token) :=
  match s with
  | EmptyString => Some []
  | _ =>
      match fuel with
      | 0 => None
      | S fuel' =>
          '(t, r) ← lex_one s; ts ← lex fuel' r;
          Some (match t with Some t => t :: ts | None => ts end)
      end
  end.

(** The tokens of a text; each takes at least a byte of it. *)
Definition tokens (s : string) : option (list Token) := lex (str_len s) s.

(** A text, which begins with a line end: the bracket, the text and what
    follows. *)
Definition embedded (level : nat) (source rest : string) : string :=
  open_of level +:+ newline +:+ source +:+ close_of level +:+ rest.

End Lua.

Module ChunkFacts.
Import Names Loader Lua.

#[local] Arguments str_len : simpl never.

(** ** Reading in steps *)

Inductive reads : string → list Token → string → Prop :=
  | reads_none s : reads s [] s
  | reads_skip s s' ts r : lex_one s = Some (None, s') → reads s' ts r → reads s ts r
  | reads_token s t s' ts r : lex_one s = Some (Some t, s') → reads s' ts r → reads s (t :: ts) r.

Lemma reads_app s ts s' ts' r : reads s ts s' → reads s' ts' r → reads s (ts ++ ts') r.
Proof. induction 1; intros; cbn; [done|eapply reads_skip|eapply reads_token]; eauto. Qed.

Lemma reads_past s s' ts r : reads s [] s' → reads s' ts r → reads s ts r.
Proof. intros H1 H2. exact (reads_app _ _ _ _ _ H1 H2). Qed.

(** Exactly [n] steps. *)
Fixpoint steps (n : nat) (s : string) : option (list Token * string) :=
  match n with
  | 0 => Some ([], s)
  | S n' =>
      '(t, s) ← lex_one s; '(ts, s) ← steps n' s;
      Some (match t with Some t => t :: ts | None => ts end, s)
  end.

Lemma steps_reads n s ts r : steps n s = Some (ts, r) → reads s ts r.
Proof.
  revert s ts r. induction n as [|n IH]; intros s ts r; cbn [steps]; [intros [= <- <-]; constructor|].
  destruct (lex_one s) as [[t s']|] eqn:Hl; [|done]. cbn.
  destruct (steps n s') as [[ts' s'']|] eqn:Hs; [|done]. cbn. intros [= <- <-].
  destruct t; [eapply reads_token|eapply reads_skip]; eauto.
Qed.

(** Every step takes something, so the length is fuel enough. *)
Lemma span_len p s : str_len (span p s).2 ≤ str_len s.
Proof.
  induction s as [|c s IH]; [done|]. rewrite str_len_cons. cbn [span]. destruct (p c); [|done].
  destruct (span p s) as [l r]. cbn [snd] in *. lia.
Qed.

Lemma skip_line_end_len s : str_len (skip_line_end s) ≤ str_len s.
Proof.
  unfold skip_line_end. destruct s as [|c s]; [done|]. destruct (is_line_end c); [|done].
  destruct s as [|d s]; rewrite !str_len_cons; [lia|]. destruct (_ && _); rewrite ?str_len_cons; lia.
Qed.

Lemma strip_eq p s : strip p s = strip_prefix p s.
Proof.
  revert s. induction p as [|a p IH]; intros s.
  - symmetry. apply (strip_prefix_app "" s).
  - destruct s as [|b s]; [done|]. cbn [strip]. case_bool_decide as He.
    + subst. rewrite IH. destruct (strip_prefix p s) as [r|] eqn:Hr; symmetry.
      * apply strip_prefix_Some in Hr as ->. apply (strip_prefix_app (String b p)).
      * destruct (strip_prefix (String b p) (String b s)) as [r|] eqn:Hr'; [|done].
        apply strip_prefix_Some in Hr'. injection Hr' as ->. by rewrite strip_prefix_app in Hr.
    + destruct (strip_prefix (String a p) (String b s)) as [r|] eqn:Hr; [|done].
      apply strip_prefix_Some in Hr. by injection Hr as ->.
Qed.

Lemma strip_prefix_len p s r : strip_prefix p s = Some r → str_len s = str_len p + str_len r.
Proof. intros ->%strip_prefix_Some. apply str_len_app. Qed.

Lemma long_body_len close n : ∀ s t r, str_len s ≤ n → long_body close s = Some (t, r) → str_len r ≤ str_len s.
Proof.
  induction n as [|n IH]; intros s t r Hn; destruct s as [|c s].
  1,3: cbn [long_body]; rewrite strip_eq; destruct (strip_prefix close "") eqn:Hp; [intros [= <- <-]; apply strip_prefix_len in Hp; lia|done].
  { rewrite str_len_cons in Hn. lia. }
  rewrite str_len_cons in *. cbn [long_body]. rewrite strip_eq. destruct (strip_prefix close (String c s)) eqn:Hp.
  { intros [= <- <-]. apply strip_prefix_len in Hp. rewrite str_len_cons in Hp. lia. }
  assert (Hle : ∀ s' t' r', str_len s' ≤ str_len s → long_body close s' = Some (t', r') → str_len r' ≤ str_len s).
  { intros s' t' r' Hs' Hl. apply IH in Hl; lia. }
  destruct (is_line_end c).
  - destruct s as [|d s2].
    + destruct (long_body close "") as [[t' r']|] eqn:Hl; [|done]. cbn. intros [= <- <-].
      apply Hle in Hl; [lia|done].
    + destruct (is_line_end d && negb (bool_decide (d = c))).
      * destruct (long_body close s2) as [[t' r']|] eqn:Hl; [|done]. cbn. intros [= <- <-].
        apply Hle in Hl; rewrite ?str_len_cons in *; lia.
      * destruct (long_body close (String d s2)) as [[t' r']|] eqn:Hl; [|done]. cbn. intros [= <- <-].
        apply Hle in Hl; [lia|done].
  - destruct (long_body close s) as [[t' r']|] eqn:Hl; [|done]. cbn. intros [= <- <-].
    apply Hle in Hl; [lia|done].
Qed.

Lemma long_level_len s : ∀ level l r, long_level level s = Some (l, r) → str_len r < str_len s.
Proof.
  induction s as [|c s IH]; intros level l r; [done|]. rewrite str_len_cons. cbn [long_level].
  case_bool_decide; [intros ?%IH; lia|]. case_bool_decide; [|done]. intros [= <- <-]. lia.
Qed.

Lemma long_bracket_len s t r : long_bracket s = Some (Some (t, r)) → str_len r < str_len s.
Proof.
  unfold long_bracket. destruct (long_level 0 s) as [[l x]|] eqn:Hl; [|done]. cbn.
  apply long_level_len in Hl. intros [= Hb]. apply (long_body_len _ (str_len (skip_line_end x))) in Hb; [|done].
  pose proof (skip_line_end_len x). lia.
Qed.

Lemma decimal_len n : ∀ acc s, str_len (decimal n acc s).2 ≤ str_len s.
Proof.
  induction n as [|n IH]; intros acc s; [done|]. destruct s as [|c s]; [done|]. cbn [decimal].
  destruct (digit_val c); [|done]. etrans; [apply IH|]. rewrite str_len_cons. lia.
Qed.

Lemma short_body_len q fuel : ∀ s t r, short_body fuel q s = Some (t, r) → str_len r < str_len s.
Proof.
  assert (Hc : ∀ c s, str_len (String c s) = S (str_len s)) by done.
  induction fuel as [|fuel IH]; intros [|c s] t r; cbn [short_body]; try done. rewrite Hc.
  case_bool_decide; [intros [= <- <-]; lia|]. destruct (is_line_end c); [done|].
  case_bool_decide.
  - destruct s as [|d s]; [done|]. rewrite Hc.
    destruct (simple_escape d).
    + destruct (short_body fuel q s) as [[t' r']|] eqn:Hs; [|done]. cbn. intros [= <- <-].
      apply IH in Hs. lia.
    + destruct (is_digit d); [|done].
      pose proof (decimal_len 3 0 (String d s)) as Hd. destruct (decimal 3 0 (String d s)) as [n x].
      rewrite Hc in Hd. cbn in Hd. case_bool_decide; [|done].
      destruct (short_body fuel q x) as [[t' r']|] eqn:Hs; [|done]. cbn. intros [= <- <-].
      apply IH in Hs. lia.
  - destruct (short_body fuel q s) as [[t' r']|] eqn:Hs; [|done]. cbn. intros [= <- <-].
    apply IH in Hs. lia.
Qed.

Lemma span_step p c s l r : p c = true → span p (String c s) = (l, r) → str_len r < S (str_len s).
Proof.
  cbn. intros ->. pose proof (span_len p s). destruct (span p s). intros [= <- <-]. cbn in *. lia.
Qed.

Lemma punct_len s p r : punct s = Some (p, r) → str_len r < str_len s.
Proof.
  unfold punct. destruct (find_first _ _) as [x|] eqn:Hf; [|done]. cbn.
  rewrite strip_eq. destruct (strip_prefix x s) as [y|] eqn:Hs; [|done]. cbn. intros [= <- <-].
  apply strip_prefix_len in Hs. apply find_first_Some in Hf as [Hin _].
  assert (str_len x ≠ 0); [|lia]. unfold punctuation in Hin.
  repeat (apply elem_of_cons in Hin as [->|Hin]; [done|]). by apply elem_of_nil in Hin.
Qed.

Lemma lex_one_len s t r : lex_one s = Some (t, r) → str_len r < str_len s.
Proof.
  destruct s as [|c s]; [done|]. assert (Hc : str_len (String c s) = S (str_len s)) by done.
  cbn [lex_one]. destruct (is_space c); [intros [= <- <-]; lia|].
  destruct (starts_with (String c s) "--") eqn:Hd.
  { set (after := match s with String _ r => r | EmptyString => "" end).
    assert (Ha : str_len after < str_len (String c s)).
    { unfold after. destruct s; rewrite ?str_len_cons; unfold str_len; cbn; lia. }
    destruct after as [|d x] eqn:He; [intros [= <- <-]; cbn [span snd]; lia|].
    pose proof (span_len (λ c, negb (is_line_end c)) (String d x)) as Hsp.
    destruct (span (λ c, negb (is_line_end c)) (String d x)) as [l y]. cbn [snd] in Hsp |- *.
    destruct (bool_decide (d = "["%char)).
    - destruct (long_bracket x) as [[[t' r']|]|] eqn:Hl; cbn [mbind option_bind].
      + intros [= <- <-]. apply long_bracket_len in Hl. change (str_len (String d x)) with (S (str_len x)) in Ha. lia.
      + done.
      + intros [= <- <-]. lia.
    - intros [= <- <-]. lia. }
  rewrite Hc. destruct (is_name_start c) eqn:Hn.
  { destruct (span _ (String c s)) as [l x] eqn:Hs. intros [= <- <-]. eapply span_step; [|exact Hs].
    unfold is_name_start in Hn. by apply andb_true_iff in Hn as [? _]. }
  destruct (is_digit c) eqn:Hdg.
  { destruct (span _ (String c s)) as [l x] eqn:Hs. intros [= <- <-]. eapply span_step; [|exact Hs].
    unfold is_digit in Hdg. unfold is_name_char. by rewrite Hdg. }
  destruct (bool_decide (c = DQ ∨ c = "'"%char)).
  { destruct (short_body _ c s) as [[t' r']|] eqn:Hs; [|done]. cbn. intros [= <- <-].
    apply short_body_len in Hs. lia. }
  assert (Hp : ∀ x, (p ← punct (String c s); let '(p, r) := p in Some (Some (TPunct p), r)) = Some x →
    str_len x.2 < S (str_len s)).
  { intros x. destruct (punct (String c s)) as [[p r']|] eqn:Hp; [|done]. cbn. intros [= <-].
    by apply punct_len in Hp. }
  destruct (bool_decide (c = "["%char)); [|intros Hx; by apply Hp in Hx].
  destruct (long_bracket s) as [[[t' r']|]|] eqn:Hl; [|done|intros Hx; by apply Hp in Hx].
  cbn. intros [= <- <-]. apply long_bracket_len in Hl. lia.
Qed.

Lemma reads_lex s ts e : reads s ts e → e = "" → ∀ fuel, str_len s ≤ fuel → lex fuel s = Some ts.
Proof.
  induction 1 as [|s s' ts r Hl Hr IH|s t s' ts r Hl Hr IH]; intros -> fuel Hf; [by destruct fuel|..].
  all: destruct s as [|c s]; [done|]; rewrite str_len_cons in Hf; destruct fuel as [|fuel]; [lia|].
  all: cbn [lex]; rewrite Hl; cbn [mbind option_bind]; apply lex_one_len in Hl; rewrite str_len_cons in Hl.
  all: by rewrite (IH eq_refl fuel) by lia.
Qed.

Lemma reads_tokens s ts : reads s ts "" → tokens s = Some ts.
Proof. intros Hr. by eapply reads_lex. Qed.

(** ** Long brackets *)

(** A source that the bracket chosen for it carries: no carriage return, and
    no end that makes the close come early. *)
Definition closes_early (source : string) : bool :=
  match bracket_level source with
  | Some l => ends_with source ("]" +:+ equals l)
  | None => false
  end.

Definition carried (source : string) : Prop :=
  contains_char CR source = false ∧ closes_early source = false.

Lemma equals_bytes l : as_bytes (equals l) = replicate l "="%char.
Proof. apply as_of_bytes. Qed.

Lemma close_bytes l : as_bytes (close_of l) = "]"%char :: replicate l "="%char ++ ["]"%char].
Proof. unfold close_of. rewrite !as_bytes_app, equals_bytes. done. Qed.

Lemma contains_cons c s p : contains (String c s) p = starts_with (String c s) p || contains s p.
Proof. done. Qed.

Lemma ends_with_tail c s p : ends_with s p = true → ends_with (String c s) p = true.
Proof.
  unfold ends_with. rewrite !bool_decide_eq_true. intros [k Hk]. exists (c :: k). cbn. by f_equal.
Qed.

(** The close comes no earlier than it should, but for a source that ends as
    the close begins. *)
Lemma close_in_place l c s rest :
  starts_with (String c s) (close_of l) = false →
  strip_prefix (close_of l) (String c s +:+ close_of l +:+ rest)
  = if bool_decide (String c s = "]" +:+ equals l) then Some (equals l +:+ "]" +:+ rest) else None.
Proof.
  intros Hs. case_bool_decide as He.
  - rewrite He. unfold close_of. apply strip_prefix_Some.
    apply as_bytes_inj. rewrite !as_bytes_app, equals_bytes. change (as_bytes "]") with ["]"%char].
    simplify_list_eq. done.
  - destruct (strip_prefix _ _) as [r|] eqn:Hp; [|done]. exfalso.
    apply strip_prefix_Some in Hp. apply (f_equal as_bytes) in Hp.
    apply bool_decide_eq_false in Hs. rewrite !as_bytes_app in Hp.
    assert (Hlen : length (as_bytes (String c s)) < length (as_bytes (close_of l))).
    { apply Nat.nle_gt. intros Hle. apply Hs.
      exists (drop (length (as_bytes (close_of l))) (as_bytes (String c s))).
      rewrite <-(take_drop (length (as_bytes (close_of l))) (as_bytes (String c s))) at 1. f_equal.
      apply (f_equal (take (length (as_bytes (close_of l))))) in Hp.
      rewrite take_app_le, take_app_length in Hp by done. done. }
    assert (Hpre : as_bytes (String c s) = take (length (as_bytes (String c s))) (as_bytes (close_of l))).
    { apply (f_equal (take (length (as_bytes (String c s))))) in Hp.
      rewrite take_app_length, take_app_le in Hp by lia. done. }
    set (n := length (as_bytes (String c s))) in *.
    assert (Hn : 0 < n) by (cbn; lia).
    assert (Hnext : as_bytes (close_of l) !! n = Some "]"%char).
    { apply (f_equal (lookup n)) in Hp. rewrite lookup_app_r in Hp by done.
      rewrite (lookup_app_l (as_bytes (close_of l)) (as_bytes r)) in Hp by done.
      fold n in Hp. rewrite Nat.sub_diag in Hp. rewrite <-Hp. by rewrite close_bytes. }
    rewrite close_bytes in Hnext, Hpre, Hlen. cbn [length] in Hlen. rewrite length_app, length_replicate in Hlen.
    cbn [length] in Hlen. destruct n as [|n]; [lia|].
    assert (Hnext' : (replicate l "="%char ++ ["]"%char]) !! n = Some "]"%char) by exact Hnext.
    destruct (decide (n < l)) as [Hl|Hl].
    { rewrite lookup_app_l in Hnext' by by rewrite length_replicate.
      by rewrite lookup_replicate_2 in Hnext'. }
    apply He. apply as_bytes_inj. rewrite Hpre, as_bytes_app, equals_bytes.
    assert (n = l) as -> by lia. cbn [take]. f_equal. rewrite take_app_length'; [done|by rewrite length_replicate].
Qed.

Lemma long_body_close close s r : strip_prefix close s = Some r → long_body close s = Some ("", r).
Proof. intros Hs. destruct s; cbn [long_body]; by rewrite strip_eq, Hs. Qed.

(** What a long bracket's body is read as. *)
Lemma long_body_reads l s rest :
  contains_char CR s = false → contains s (close_of l) = false → ends_with s ("]" +:+ equals l) = false →
  long_body (close_of l) (s +:+ close_of l +:+ rest) = Some (s, rest).
Proof.
  induction s as [|c s IH]; intros Hcr Hc He.
  - apply long_body_close. change ("" +:+ close_of l +:+ rest) with (close_of l +:+ rest). apply strip_prefix_app.
  - rewrite contains_cons in Hc. apply orb_false_iff in Hc as [Hs Hc].
    rewrite contains_char_cons in Hcr. apply orb_false_iff in Hcr as [Hcc Hcr].
    apply bool_decide_eq_false in Hcc.
    pose proof (close_in_place l c s rest Hs) as Hp. rewrite bool_decide_false in Hp.
    2: { intros Heq. rewrite Heq in He. apply bool_decide_eq_false in He. by apply He. }
    assert (He' : ends_with s ("]" +:+ equals l) = false).
    { destruct (ends_with s _) eqn:Hx; [|done]. by rewrite (ends_with_tail c) in He. }
    specialize (IH Hcr Hc He'). revert Hp.
    change (String c s +:+ close_of l +:+ rest) with (String c (s +:+ close_of l +:+ rest)).
    cbn [long_body]. rewrite strip_eq. intros ->. destruct (is_line_end c) eqn:Hle; [|by rewrite IH].
    unfold is_line_end in Hle. apply bool_decide_eq_true in Hle as [->|]; [|done].
    destruct (s +:+ close_of l +:+ rest) as [|d x] eqn:Hx; [by rewrite IH|].
    destruct (is_line_end d && negb (bool_decide (d = LF))) eqn:Hd; [|by rewrite IH].
    exfalso. apply andb_true_iff in Hd as [Hd Hn]. apply bool_decide_eq_true in Hd.
    apply negb_true_iff, bool_decide_eq_false in Hn. destruct Hd as [| ->]; [done|].
    destruct s as [|a s].
    + unfold close_of in Hx. done.
    + injection Hx as -> _. rewrite contains_char_cons, bool_decide_true in Hcr by done. done.
Qed.

Lemma contains_left a b p : contains (a +:+ b) p = false → contains a p = false.
Proof.
  induction a as [|c a IH]; intros Hc.
  - destruct b as [|c b]; [done|]. cbn [contains]. destruct p as [|d p]; [by destruct b|].
    unfold starts_with. by rewrite bool_decide_false by (intros [k Hk]; done).
  - change (String c a +:+ b) with (String c (a +:+ b)) in Hc. rewrite contains_cons in Hc |- *.
    apply orb_false_iff in Hc as [Hs Hc]. rewrite (IH Hc), orb_false_r.
    apply bool_decide_eq_false in Hs. apply bool_decide_eq_false. intros [k Hk]. apply Hs.
    exists (k ++ as_bytes b). change (String c (a +:+ b)) with (String c a +:+ b).
    by rewrite as_bytes_app, Hk, <-app_assoc.
Qed.

Lemma contains_mid a p b : contains (a +:+ p +:+ b) p = true.
Proof.
  induction a as [|c a IH].
  - assert (Hs : starts_with (p +:+ b) p = true) by (apply starts_with_iff; by exists b).
    change ("" +:+ p +:+ b) with (p +:+ b). destruct (p +:+ b); cbn [contains]; by rewrite Hs.
  - change (String c a +:+ p +:+ b) with (String c (a +:+ p +:+ b)). by rewrite contains_cons, IH, orb_true_r.
Qed.

(** The level that [brackets] takes. *)
Lemma bracket_level_ok source l : bracket_level source = Some l → contains source (close_of l) = false.
Proof. intros [_ Hn]%find_first_Some. by apply negb_true_iff. Qed.

Lemma long_level_reads l s n : long_level n (equals l +:+ "[" +:+ s) = Some (l + n, s).
Proof.
  revert n. induction l as [|l IH]; intros n; [done|].
  change (equals (S l) +:+ "[" +:+ s) with (String "=" (equals l +:+ "[" +:+ s)).
  cbn [long_level]. rewrite bool_decide_true by done. rewrite IH. f_equal. f_equal. lia.
Qed.

Lemma embedded_bracket l source rest :
  embedded l source rest = String "[" (equals l +:+ "[" +:+ newline +:+ source +:+ close_of l +:+ rest).
Proof. unfold embedded, open_of. by rewrite !str_app_assoc. Qed.

(** The line end after an opening bracket is not part of the text, and takes
    nothing of it away. *)
Lemma skip_newline source l rest :
  contains_char CR source = false →
  skip_line_end (newline +:+ source +:+ close_of l +:+ rest) = source +:+ close_of l +:+ rest.
Proof.
  intros Hs. destruct source as [|d s]; [done|].
  change (newline +:+ String d s +:+ close_of l +:+ rest) with (String LF (String d (s +:+ close_of l +:+ rest))).
  change (String d s +:+ close_of l +:+ rest) with (String d (s +:+ close_of l +:+ rest)).
  cbn [skip_line_end]. unfold is_line_end at 1. rewrite bool_decide_true by by left.
  rewrite contains_char_cons in Hs. apply orb_false_iff in Hs as [Hd _]. apply bool_decide_eq_false in Hd.
  destruct (is_line_end d && negb (bool_decide (d = LF))) eqn:He; [|done].
  apply andb_true_iff in He as [H1%bool_decide_eq_true H2]. apply negb_true_iff, bool_decide_eq_false in H2.
  naive_solver.
Qed.

Lemma lex_bracket l x : lex_one (String "[" (equals l +:+ "[" +:+ x)) =
  ('(t, r) ← long_body (close_of l) (skip_line_end x); Some (Some (TString t), r)).
Proof.
  assert (Hl : long_bracket (equals l +:+ "[" +:+ x) = Some (long_body (close_of l) (skip_line_end x))).
  { unfold long_bracket. rewrite long_level_reads, Nat.add_0_r. done. }
  cbn [lex_one]. change (is_space "[") with false. change (is_name_start "[") with false.
  change (is_digit "[") with false.
  assert (starts_with (String "[" (equals l +:+ "[" +:+ x)) "--" = false) as ->.
  { apply bool_decide_eq_false. by intros [k [=]]. }
  rewrite bool_decide_false by (by intros [|]). rewrite bool_decide_true by done. by rewrite Hl.
Qed.

(** A source in the bracket chosen for it is one token, that source; one that
    ends as the close begins is read short by that end. *)
Lemma source_token source l rest :
  bracket_level source = Some l → contains_char CR source = false →
  (closes_early source = false → lex_one (embedded l source rest) = Some (Some (TString source), rest))
  ∧ (∀ a, source = a +:+ "]" +:+ equals l →
     lex_one (embedded l source rest) = Some (Some (TString a), equals l +:+ "]" +:+ rest)).
Proof.
  intros Hb Hcr. pose proof (bracket_level_ok _ _ Hb) as Hc. unfold closes_early. rewrite Hb.
  rewrite embedded_bracket, lex_bracket, skip_newline by done. split.
  - intros He. by rewrite long_body_reads.
  - intros a ->. rewrite contains_char_app in Hcr. apply orb_false_iff in Hcr as [Hcr _].
    assert (Ha : contains a (close_of l) = false) by by eapply contains_left.
    assert (Hea : ends_with a ("]" +:+ equals l) = false).
    { apply bool_decide_eq_false. intros [k Hk].
      assert (Heq : a = of_bytes k +:+ "]" +:+ equals l).
      { apply as_bytes_inj. by rewrite as_bytes_app, as_of_bytes. }
      rewrite Heq in Hc. unfold close_of in Hc. rewrite !str_app_assoc in Hc.
      pose proof (contains_mid (of_bytes k) (close_of l) (equals l)) as Hm.
      unfold close_of in Hm. rewrite !str_app_assoc in Hm. by rewrite Hm in Hc. }
    pose proof (long_body_reads l a (equals l +:+ "]" +:+ rest) Hcr Ha Hea) as Hr.
    assert (Ht : (a +:+ "]" +:+ equals l) +:+ close_of l +:+ rest = a +:+ close_of l +:+ equals l +:+ "]" +:+ rest).
    { unfold close_of. by rewrite !str_app_assoc. }
    by rewrite Ht, Hr.
Qed.

(** ** Short strings *)

(** A control character that is quoted by its number. *)
Definition by_number (c : ascii) : bool :=
  bool_decide (byte_val c < 32)%N && negb (bool_decide (c = LF ∨ c = CR ∨ c = of_byte 9)).
Definition digit_first (s : string) : bool := match s with String c _ => is_digit c | EmptyString => false end.

(** No number in a quoted text is followed by a digit that is not its own. *)
Fixpoint quotable (s : string) : bool :=
  match s with
  | EmptyString => true
  | String c s' => negb (by_number c && digit_first s') && quotable s'
  end.

Lemma quote_char_number c : by_number c = true → quote_char c = "\" +:+ dec (byte_val c).
Proof.
  unfold by_number, quote_char. intros [Hlt Hn]%andb_true_iff. apply bool_decide_eq_true in Hlt as Hb.
  apply negb_true_iff, bool_decide_eq_false in Hn.
  rewrite (bool_decide_false (c = DQ)), (bool_decide_false (c = "\"%char)) by (intros ->; vm_compute in Hb; done).
  rewrite !(bool_decide_false (c = _)) by naive_solver. by rewrite Hlt.
Qed.

Lemma digit_first_quoted s rest : digit_first (quote_body s +:+ String DQ rest) = digit_first s.
Proof.
  destruct s as [|c s]; [done|]. cbn [quote_body digit_first]. unfold quote_char.
  repeat (case_bool_decide; [subst; try done|]).
  - unfold is_digit, in_range. symmetry. apply bool_decide_eq_false. lia.
  - done.
Qed.

Lemma is_digit_val c : is_digit c = false → digit_val c = None.
Proof.
  unfold is_digit, digit_val, in_range. intros Hd%bool_decide_eq_false.
  rewrite bool_decide_false; [done|]. lia.
Qed.

Lemma decimal_stop s k acc : digit_first s = false → decimal k acc s = (acc, s).
Proof.
  intros Hs. destruct k; [done|]. destruct s as [|c s]; [done|]. cbn [decimal]. by rewrite is_digit_val.
Qed.

Lemma decimal_parse s u : ∀ k acc v,
  digit_first s = false → str_len u ≤ k → parse_digits acc u = Some v → decimal k acc (u +:+ s) = (v, s).
Proof.
  induction u as [|c u IH]; intros k acc v Hs Hk Hp.
  - injection Hp as <-. by apply decimal_stop.
  - rewrite str_len_cons in Hk. destruct k as [|k]; [lia|]. cbn [parse_digits] in Hp.
    change (String c u +:+ s) with (String c (u +:+ s)). cbn [decimal].
    destruct (digit_val c) as [d|]; [|done]. cbn in Hp. apply IH; [done|lia|done].
Qed.

Lemma decimal_dec n s : (n < 32)%N → digit_first s = false → decimal 3 0 (dec n +:+ s) = (n, s).
Proof.
  intros Hn Hs. apply decimal_parse; [done| |apply parse_digits_dec].
  apply Nat.lt_le_incl, Nat.lt_succ_r, (dec_length n 1). cbn. lia.
Qed.

Lemma dec_digit_first n s : digit_first (dec n +:+ s) = true.
Proof.
  destruct (dec n) as [|c u] eqn:Hd; [by apply dec_not_empty in Hd|].
  pose proof (dec_digits n) as Hf. rewrite Hd in Hf. apply Forall_cons in Hf as [Hc _].
  change (is_digit c = true). unfold is_digit. unfold Bytes.is_digit, digit_val in Hc.
  destruct (in_range _ _ _); [done|]. by destruct Hc.
Qed.

Lemma escape_step d e x fuel t r :
  simple_escape d = Some e → short_body fuel DQ x = Some (t, r) →
  short_body (S fuel) DQ (String "\" (String d x)) = Some (String e t, r).
Proof.
  intros Hd Hx. cbn [short_body]. rewrite (bool_decide_false ("\"%char = DQ)) by done.
  change (is_line_end "\") with false. rewrite (bool_decide_true ("\"%char = "\"%char)) by done.
  by rewrite Hd, Hx.
Qed.

(** One step of a quoted text. *)
Lemma short_step c s rest fuel t r :
  by_number c && digit_first s = false →
  short_body fuel DQ (quote_body s +:+ String DQ rest) = Some (t, r) →
  short_body (S fuel) DQ (quote_char c +:+ quote_body s +:+ String DQ rest) = Some (String c t, r).
Proof.
  intros Hq Hs. destruct (by_number c) eqn:Hb.
  - rewrite quote_char_number by done. apply andb_true_iff in Hb as [Hlt _]. apply bool_decide_eq_true in Hlt.
    rewrite !str_app_assoc. change ("\" +:+ ?x) with (String "\" x).
    pose proof (dec_digit_first (byte_val c) (quote_body s +:+ String DQ rest)) as Hdf.
    pose proof (decimal_dec (byte_val c) (quote_body s +:+ String DQ rest) Hlt) as Hd.
    rewrite digit_first_quoted in Hd. specialize (Hd Hq).
    destruct (dec (byte_val c) +:+ quote_body s +:+ String DQ rest) as [|d x]; [done|].
    cbn [digit_first] in Hdf. cbn [short_body].
    rewrite (bool_decide_false ("\"%char = DQ)) by done. change (is_line_end "\") with false.
    rewrite (bool_decide_true ("\"%char = "\"%char)) by done.
    assert (simple_escape d = None) as ->.
    { unfold simple_escape. unfold is_digit in Hdf.
      repeat (rewrite bool_decide_false by (intros ?; destruct_or?; subst; done)). done. }
    rewrite Hdf, Hd. rewrite bool_decide_true by lia. rewrite Hs. cbn. by rewrite of_byte_val.
  - unfold quote_char.
    destruct (decide (c = DQ)) as [->|H1]; [by apply (escape_step DQ)|]. rewrite (bool_decide_false (c = DQ)) by done.
    destruct (decide (c = "\"%char)) as [->|H2]; [by apply (escape_step "\")|]. rewrite (bool_decide_false (c = "\"%char)) by done.
    destruct (decide (c = LF)) as [->|H3]; [by apply (escape_step "n")|]. rewrite (bool_decide_false (c = LF)) by done.
    destruct (decide (c = CR)) as [->|H4]; [by apply (escape_step "r")|]. rewrite (bool_decide_false (c = CR)) by done.
    destruct (decide (c = of_byte 9)) as [->|H5]; [by apply (escape_step "t")|].
    rewrite (bool_decide_false (c = of_byte 9)) by done.
    assert (bool_decide (byte_val c < 32)%N = false) as ->.
    { unfold by_number in Hb. apply andb_false_iff in Hb as [?|Hb]; [done|].
      apply negb_false_iff, bool_decide_eq_true in Hb. naive_solver. }
    change (String c "" +:+ ?x) with (String c x). cbn [short_body].
    rewrite (bool_decide_false (c = DQ)) by done.
    assert (is_line_end c = false) as -> by (apply bool_decide_eq_false; naive_solver).
    rewrite (bool_decide_false (c = "\"%char)) by done. by rewrite Hs.
Qed.

Lemma short_reads s rest fuel :
  quotable s = true → str_len s < fuel → short_body fuel DQ (quote_body s +:+ String DQ rest) = Some (s, rest).
Proof.
  revert fuel. induction s as [|c s IH]; intros fuel Hq Hf.
  - destruct fuel; [lia|]. done.
  - cbn [quotable] in Hq. apply andb_true_iff in Hq as [Hc Hq]. apply negb_true_iff in Hc.
    rewrite str_len_cons in Hf. destruct fuel as [|fuel]; [lia|].
    cbn [quote_body]. rewrite str_app_assoc. apply short_step; [done|]. apply IH; [done|lia].
Qed.

Lemma quote_body_len s : str_len s ≤ str_len (quote_body s).
Proof.
  induction s as [|c s IH]; [done|]. cbn [quote_body]. rewrite str_len_app, str_len_cons.
  assert (0 < str_len (quote_char c)); [|lia].
  unfold quote_char. repeat case_bool_decide; rewrite ?str_len_app, ?str_len_cons; lia.
Qed.

(** A quoted text is one token, that text. *)
Lemma quote_token s rest :
  quotable s = true → lex_one (quote s +:+ rest) = Some (Some (TString s), rest).
Proof.
  intros Hq. unfold quote. rewrite !str_app_assoc.
  change (String DQ "" +:+ rest) with (String DQ rest).
  change (String DQ "" +:+ quote_body s +:+ String DQ rest) with (String DQ (quote_body s +:+ String DQ rest)).
  cbn [lex_one]. change (is_space DQ) with false. change (is_name_start DQ) with false. change (is_digit DQ) with false.
  assert (starts_with (String DQ (quote_body s +:+ String DQ rest)) "--" = false) as ->.
  { apply bool_decide_eq_false. by intros [k [=]]. }
  rewrite bool_decide_true by by left. rewrite short_reads; [done..|].
  rewrite str_len_app, str_len_cons. pose proof (quote_body_len s). lia.
Qed.

(** ** The chunk *)

(** The tokens of a text that is fixed. *)
Definition fixed (s : string) : list Token := default [] (tokens s).

Definition module_tokens (m : ModuleFile) : list Token :=
  fixed "{ name =" ++ [TString (m_name m)] ++ fixed ", file =" ++ [TString (m_file m)]
  ++ fixed ", src =" ++ [TString (m_source m)] ++ fixed "},".

Definition chunk_tokens (m : Modules) (entry_source entry_file : string) : list Token :=
  fixed "local __dir =" ++ [TString (m_dir m)]
  ++ fixed "local __mods = {" ++ mjoin (module_tokens <$> modules m) ++ fixed "}"
  ++ fixed runtime
  ++ fixed "local __entry, __entry_why = load(" ++ [TString entry_source] ++ fixed "," ++ [TString entry_file]
  ++ fixed ") if not __entry then error(tostring(__entry_why), 0) end return __entry()".

(** How many steps a text takes. *)
Fixpoint count (fuel : nat) (s : string) : nat :=
  match fuel, lex_one s with
  | S fuel', Some (_, s') => S (count fuel' s')
  | _, _ => 0
  end.

(** A fixed text, whatever follows it. *)
Lemma reads_fixed txt ts s r : (∀ r, reads (txt +:+ r) ts r) → s = txt +:+ r → reads s ts r.
Proof. by intros H ->. Qed.

Ltac read_fixed txt :=
  let n := eval vm_compute in (count (S (str_len txt)) txt) in
  eapply (reads_fixed txt);
    [intros ?; apply (steps_reads n); vm_compute; reflexivity
    |rewrite ?str_app_assoc; reflexivity].

Lemma reads_one s t r : lex_one s = Some (Some t, r) → reads s [t] r.
Proof. intros H. eapply reads_token; [done|constructor]. Qed.

Lemma comment_line x rest :
  contains_char LF x = false → contains_char CR x = false → contains_char "[" x = false →
  reads ("--" +:+ x +:+ newline +:+ rest) [] rest.
Proof.
  intros Hl Hc Hb.
  assert (Hs : span (λ c, negb (is_line_end c)) (x +:+ newline +:+ rest) = (x, newline +:+ rest)).
  { clear Hb. induction x as [|c x IH]; [done|]. rewrite !contains_char_cons in Hl, Hc.
    apply orb_false_iff in Hl as [Hl1 Hl], Hc as [Hc1 Hc]. apply bool_decide_eq_false in Hl1, Hc1.
    change (String c x +:+ newline +:+ rest) with (String c (x +:+ newline +:+ rest)). cbn [span].
    assert (is_line_end c = false) as -> by (apply bool_decide_eq_false; naive_solver).
    cbn [negb]. by rewrite IH. }
  apply (reads_skip _ (newline +:+ rest)); [|by apply (reads_skip _ rest); [|constructor]].
  change ("--" +:+ x +:+ newline +:+ rest) with (String "-" (String "-" (x +:+ newline +:+ rest))).
  cbn [lex_one]. change (is_space "-") with false.
  assert (starts_with (String "-" (String "-" (x +:+ newline +:+ rest))) "--" = true) as ->.
  { apply starts_with_iff. by eexists. }
  rewrite Hs.
  destruct x as [|c x]; [done|]. change (String c x +:+ newline +:+ rest) with (String c (x +:+ newline +:+ rest)).
  rewrite contains_char_cons in Hb. apply orb_false_iff in Hb as [Hb _]. apply bool_decide_eq_false in Hb.
  by rewrite bool_decide_false by congruence.
Qed.

(** The comments before the program are nothing. *)
Lemma preamble_reads this_file count_ rest :
  contains_char LF this_file = false → contains_char CR this_file = false → contains_char "[" this_file = false →
  reads (preamble this_file count_ +:+ rest) [] rest.
Proof.
  intros Hl Hc Hb. unfold preamble. rewrite !str_app_assoc.
  apply (reads_app _ [] ("-- program you wrote is compiled below, under its own name, so its" +:+ newline
  +:+ "-- line numbers are its own." +:+ newline
  +:+ "--" +:+ newline
  +:+ "-- " +:+ dec (N.of_nat count_) +:+ " module(s) beside it, each compiled here rather than on first"
  +:+ newline
  +:+ "-- use, so a syntax error in one is a failure before any of this" +:+ newline
  +:+ "-- node's code runs." +:+ newline +:+ newline +:+ rest) []).
  { match goal with |- reads _ _ ?r =>
      pose proof (comment_line (" Generated by drt (" +:+ this_file +:+ "). This is the chunk that was loaded; the") r) as H
    end.
    rewrite !str_app_assoc in H. apply H; by rewrite !contains_char_app, ?Hl, ?Hc, ?Hb. }
  apply (reads_app _ [] ("-- " +:+ dec (N.of_nat count_)
    +:+ " module(s) beside it, each compiled here rather than on first" +:+ newline
    +:+ "-- use, so a syntax error in one is a failure before any of this" +:+ newline
    +:+ "-- node's code runs." +:+ newline +:+ newline +:+ rest) []).
  { match goal with |- reads _ _ ?r => generalize r end. intros r. apply (steps_reads 6). vm_compute. reflexivity. }
  apply (reads_app _ [] ("-- use, so a syntax error in one is a failure before any of this" +:+ newline
    +:+ "-- node's code runs." +:+ newline +:+ newline +:+ rest) []).
  { match goal with |- reads _ _ ?r =>
      pose proof (comment_line (" " +:+ dec (N.of_nat count_)
                                +:+ " module(s) beside it, each compiled here rather than on first") r) as H
    end.
    rewrite !str_app_assoc in H. apply H; rewrite !contains_char_app, dec_no_char by done; done. }
  apply (steps_reads 5). vm_compute. reflexivity.
Qed.

Lemma brackets_ok source oc :
  brackets source = Ok oc → ∃ l, bracket_level source = Some l ∧ oc = (open_of l, close_of l).
Proof. unfold brackets. destruct (bracket_level source) as [l|]; [|done]. intros [= <-]. by exists l. Qed.

(** What a module's name and file are spelled with needs no number. *)
Definition printable (s : string) : Prop := Forall (λ c, (32 ≤ byte_val c)%N) (as_bytes s).

Lemma printable_quotable s : printable s → quotable s = true.
Proof.
  unfold printable. induction s as [|c s IH]; [done|]. intros [Hc Hs]%Forall_cons. cbn [quotable].
  rewrite (IH Hs). unfold by_number. by rewrite bool_decide_false by lia.
Qed.

Lemma printable_app a b : printable (a +:+ b) ↔ printable a ∧ printable b.
Proof. unfold printable. by rewrite as_bytes_app, Forall_app. Qed.

Lemma printable_join c ps : (32 ≤ byte_val c)%N → Forall printable ps → printable (join c ps).
Proof.
  intros Hc. induction 1 as [|p ps Hp Hps IH]; [constructor|].
  destruct ps as [|q ps]; [done|]. rewrite join_cons by done. apply printable_app. split; [done|].
  by constructor.
Qed.

Lemma component_printable x : is_component x = true → printable x.
Proof.
  intros [_ Hx]%NamesFacts.is_component_iff. apply Forall_forall. intros c Hc.
  rewrite forallb_forall in Hx. specialize (Hx c). rewrite <-list_elem_of_In in Hx. specialize (Hx Hc).
  unfold is_name_char, in_range in Hx. rewrite !orb_true_iff, !bool_decide_eq_true in Hx.
  destruct Hx as [[[?|?]|?]| ->]; [lia..|]. by vm_compute.
Qed.

Lemma name_printable p name : name_for_path p = Ok name → printable p ∧ printable name.
Proof.
  intros (Hn & e & He & ->)%NamesFacts.file_name_iff. destruct Hn as [Hc _].
  assert (Hp : Forall printable (split_on "." name)) by (eapply Forall_impl; [exact Hc|apply component_printable]).
  split; [|rewrite <-(join_split "." name); apply printable_join; [by vm_compute|done]].
  rewrite !printable_app. split_and!; [apply printable_join; [by vm_compute|done]| |].
  - repeat constructor. by vm_compute.
  - unfold NamesFacts.extensions in He. repeat (apply elem_of_cons in He as [->|He]; [repeat constructor; by vm_compute|]).
    by apply elem_of_nil in He.
Qed.

(** What the walk gives, with a source a bracket carries. *)
Definition module_carried (m : ModuleFile) : Prop :=
  name_for_path (m_file m) = Ok (m_name m) ∧ carried (m_source m).

Lemma module_reads m t rest :
  module_text m = Ok t → module_carried m → reads (t +:+ rest) (module_tokens m) rest.
Proof.
  unfold module_text. destruct (brackets (m_source m)) as [oc|] eqn:Hb; [|done]. cbn [rbind].
  apply brackets_ok in Hb as (l & Hb & ->). intros [= <-] (Hname & Hcr & He). cbn [fst snd].
  apply name_printable in Hname as [Hf%printable_quotable Hn%printable_quotable].
  rewrite !str_app_assoc. unfold module_tokens.
  eapply reads_app; [read_fixed "  { name = "|].
  eapply reads_app; [by apply reads_one, quote_token|].
  eapply reads_app; [read_fixed ", file = "|].
  eapply reads_app; [by apply reads_one, quote_token|].
  eapply reads_app; [read_fixed ", src = "|].
  eapply reads_app; [apply reads_one, (proj1 (source_token _ _ _ Hb Hcr) He)|].
  read_fixed (" }," +:+ newline).
Qed.

Lemma modules_reads ms : ∀ t rest,
  modules_text ms = Ok t → Forall module_carried ms → reads (t +:+ rest) (mjoin (module_tokens <$> ms)) rest.
Proof.
  induction ms as [|m ms IH]; intros t rest; cbn [modules_text].
  - intros [= <-] _. constructor.
  - destruct (module_text m) as [u|] eqn:Hm; [|done]. cbn [rbind].
    destruct (modules_text ms) as [v|] eqn:Hms; [|done]. cbn [rbind].
    intros [= <-] [Hc Hcs]%Forall_cons. rewrite str_app_assoc. cbn [fmap list_fmap mjoin list_join].
    eapply reads_app; [by apply module_reads|]. by apply IH.
Qed.

Lemma entry_reads source file t :
  entry_text source file = Ok t → carried source → quotable file = true →
  reads t (fixed "local __entry, __entry_why = load(" ++ [TString source] ++ fixed "," ++ [TString file]
           ++ fixed ") if not __entry then error(tostring(__entry_why), 0) end return __entry()") "".
Proof.
  unfold entry_text. destruct (brackets source) as [oc|] eqn:Hb; [|done]. cbn [rbind].
  apply brackets_ok in Hb as (l & Hb & ->). intros [= <-] (Hcr & He) Hf. cbn [fst snd].
  eapply reads_app; [read_fixed (newline +:+ "local __entry, __entry_why = load(")|].
  eapply reads_app; [apply reads_one, (proj1 (source_token _ _ _ Hb Hcr) He)|].
  eapply reads_app; [read_fixed ", "|].
  eapply reads_app; [by apply reads_one, quote_token|].
  read_fixed (")" +:+ newline
      +:+ "if not __entry then error(tostring(__entry_why), 0) end" +:+ newline
      +:+ "return __entry()" +:+ newline).
Qed.

Lemma runtime_reads rest : reads (runtime +:+ rest) (fixed runtime) rest.
Proof. read_fixed runtime. Qed.

(** C16: When every source is one that its long bracket carries (no carriage
    return, and it does not end in the close picked for it less its last
    bracket), the modules bear the names the walk gives their files, the
    directory and the entry's file are quotable (no control byte before a
    digit), and the build's file name is one line without an opening bracket:
    a chunk is read, by Lua's lexical rules, as the program it was put
    together from, each name, file and source one string and the fixed text
    around them.  Without those conditions text of a file can be read as
    program: [program_cut_short], [number_takes_digit]. *)
Theorem bootstrap_reads this_file m entry_source entry_file chunk :
  bootstrap this_file m entry_source entry_file = Ok chunk →
  contains_char LF this_file = false → contains_char CR this_file = false → contains_char "[" this_file = false →
  quotable (m_dir m) = true → quotable entry_file = true →
  Forall module_carried (modules m) → carried entry_source →
  tokens chunk = Some (chunk_tokens m entry_source entry_file).
Proof.
  unfold bootstrap. destruct (modules_text _) as [mods|] eqn:Hm; [|done]. cbn [rbind].
  destruct (entry_text _ _) as [entry|] eqn:He; [|done]. cbn [rbind]. intros [= <-] Hl Hc Hb Hd Hf Hms Hs.
  apply reads_tokens. unfold chunk_tokens.
  eapply reads_past; [by apply preamble_reads|].
  eapply reads_app; [read_fixed "local __dir = "|].
  eapply reads_app; [by apply reads_one, quote_token|].
  eapply reads_app; [read_fixed (newline +:+ "local __mods = {" +:+ newline)|].
  eapply reads_app; [by apply modules_reads|].
  eapply reads_app; [read_fixed ("}" +:+ newline +:+ newline)|].
  eapply reads_app; [apply runtime_reads|]. by apply entry_reads.
Qed.

End ChunkFacts.
