(* ===== verification/Require.v ===== *)
(** * What the generated chunk does when it runs

    The Lua program in [RUNTIME_TEMPLATE] of [crates/drt/src/modules.rs]: the
    modules compiled before any of them runs, and [require] over them.  A
    compiled chunk is what it asks of [require] and what it makes of the
    answers; the Lua compiler is a parameter.

    At the end, a node of two modules that ask for each other, the theorems
    on its walk, its chunk and its run applied to it, and two chunks that are
    not read as what was put into them. *)

From stdpp Require Import gmap.
From S2P Require Import Prelude.
From S2P Require Import Bytes.
From S2P Require Import Value.
From S2P Require Import Modules.
From S2P Require Import ModulesSpec.
From S2P Require Import Backend.
From S2P Require Import Chunk.

Module Require.
Import Names Loader.

(** A value of Lua: tables, functions and the rest are their kind and an
    identity. *)
Inductive LuaValue :=
  | LNil
  | LBool (b : bool)
  | LStr (s : string)
  | LOther (kind : string) (id : N).
#[export] Instance LuaValue_eq_dec : EqDecision LuaValue.
Proof. solve_decision. Defined.

Definition type_of (v : LuaValue) : string :=
  match v with LNil => "nil" | LBool _ => "boolean" | LStr _ => "string" | LOther kind _ => kind end.

(** What a call of a chunk does: it returns, raises, or calls [require] and
    goes on with what that returned or raised. *)
Inductive Act :=
  | Returns (v : LuaValue)
  | Raises (e : LuaValue)
  | Requires (name : LuaValue) (k : result LuaValue LuaValue → Act).
Abbreviation Chunk := (list LuaValue → Act).

(** [load] of a text under a name, and [tostring]. *)
Class LuaHost := {
  load : string → string → result Chunk string;
  tostring : LuaValue → string;
}.

(** ** The name rule, as the guest has it *)

(** [[A-Za-z0-9_.]]. *)
Definition in_class (c : ascii) : bool :=
  in_range 65 90 (byte_val c) || in_range 97 122 (byte_val c) || in_range 48 57 (byte_val c)
  || bool_decide (c = "_"%char) || bool_decide (c = "."%char).

(** [name:match("^[^.]+")]. *)
Fixpoint up_to_dot (s : string) : string :=
  match s with
  | String c s' => if bool_decide (c = "."%char) then "" else String c (up_to_dot s')
  | EmptyString => ""
  end.
Definition match_component (s : string) : option string :=
  if str_is_empty (up_to_dot s) then None else Some (up_to_dot s).

Definition refusal (name : LuaValue) : option string :=
  match name with
  | LStr name =>
      if str_is_empty name then Some "a module name may not be empty"
      else if contains name ".." then Some "`..` is not a module name component"
      else if starts_with name "." || ends_with name "." then
        Some "a module name may not begin or end with `.`"
      else if existsb (λ c, negb (in_class c)) (as_bytes name) then
        Some "a module name holds letters, digits, `_` and the `.` between components"
      else if bool_decide (match_component name = Some RESERVED_COMPONENT) then
        Some ("`" +:+ RESERVED_COMPONENT +:+ "` is reserved -- a stdlib program is reached by the `"
              +:+ RESERVED_COMPONENT +:+ ":` entry spelling, never by require")
      else None
  | v => Some ("a module name must be a string, got " +:+ type_of v)
  end.

(** ** [require] *)

(** [__loaded] and [__loading]. *)
Record State := MkState { loaded : gmap string LuaValue; loading : gset string }.
Definition start : State := MkState ∅ ∅.

(** A call to its end, [require] being [req]. *)
Fixpoint act (req : LuaValue → State → option (result LuaValue LuaValue * State)) (a : Act) (st : State) :
    option (result LuaValue LuaValue * State) :=
  match a with
  | Returns v => Some (Ok v, st)
  | Raises e => Some (Err e, st)
  | Requires name k => '(r, st) ← req name st; act req (k r) st
  end.

Section node.
Context `{!LuaHost} (dir : string) (chunks : gmap string Chunk).

Definition error_text (s : string) : result LuaValue LuaValue := Err (LStr s).

(** [require], as deep as the fuel: [None] is a call deeper than it. *)
Fixpoint require (fuel : nat) (name : LuaValue) (st : State) : option (result LuaValue LuaValue * State) :=
  match fuel with
  | 0 => None
  | S fuel' =>
      match refusal name, name with
      | Some why, _ => Some (error_text ("require(" +:+ tostring name +:+ "): " +:+ why), st)
      | None, LStr n =>
          match loaded st !! n with
          | Some hit => Some (Ok hit, st)
          | None =>
              match chunks !! n with
              | None => Some (error_text ("require(" +:+ n +:+ "): no such module in " +:+ dir), st)
              | Some chunk =>
                  if decide (n ∈ loading st) then
                    Some (error_text ("require(" +:+ n +:+ "): required while it was still loading -- a cycle"), st)
                  else
                    '(r, st) ← act (require fuel') (chunk [LStr n]) (MkState (loaded st) ({[ n ]} ∪ loading st));
                    let st := MkState (loaded st) (loading st ∖ {[ n ]}) in
                    match r with
                    | Err e => Some (Err e, st)
                    | Ok value =>
                        let value := if decide (value = LNil) then LBool true else value in
                        Some (Ok value, MkState (<[ n := value ]> (loaded st)) (loading st))
                    end
              end
          end
      | None, _ => None
      end
  end.
End node.

Section program.
Context `{!LuaHost}.

(** The loop that compiles the modules. *)
Fixpoint link (ms : list ModuleFile) (chunks : gmap string Chunk) : result (gmap string Chunk) LuaValue :=
  match ms with
  | [] => Ok chunks
  | m :: ms =>
      match load (m_source m) ("@" +:+ m_file m) with
      | Err why => Err (LStr ("drt modules: " +:+ m_file m +:+ ": " +:+ why))
      | Ok chunk => link ms (<[ m_name m := chunk ]> chunks)
      end
  end.

(** The chunk, run: what [bootstrap] put together. *)
Definition run_node (fuel : nat) (m : Modules) (entry_source entry_file : string) :
    option (result LuaValue LuaValue * State) :=
  match link (modules m) ∅ with
  | Err e => Some (Err e, start)
  | Ok chunks =>
      match load entry_source entry_file with
      | Err why => Some (Err (LStr why), start)
      | Ok entry => act (require (m_dir m) chunks fuel) (entry []) start
      end
  end.
End program.

End Require.

Module RequireFacts.
Import Names NamesFacts Loader Require.

(** ** The two copies of the name rule *)

Lemma in_class_eq c : in_class c = is_name_char c || bool_decide (c = "."%char).
Proof. unfold in_class, is_name_char. by destruct (in_range 48 57 _), (in_range 65 90 _), (in_range 97 122 _). Qed.

Lemma existsb_class s :
  existsb (λ c, negb (in_class c)) (as_bytes s)
  = negb (forallb (λ c, is_name_char c || bool_decide (c = "."%char)) (as_bytes s)).
Proof.
  induction (as_bytes s) as [|c l IH]; [done|]. cbn [existsb forallb]. by rewrite IH, in_class_eq, negb_andb.
Qed.

Lemma up_to_dot_head s : head (split_on "." s) = Some (up_to_dot s).
Proof.
  induction s as [|c s IH]; [done|]. rewrite split_on_cons. cbn [up_to_dot].
  case_bool_decide; [done|]. destruct (split_on "." s); [done|]. cbn in *. congruence.
Qed.

(** What the guest's [require] refuses, and how it says so, is what the host
    refused of the files it found. *)
Lemma refusal_agrees s : refusal (LStr s) = refuse_name s.
Proof.
  unfold refusal, refuse_name. rewrite existsb_class, up_to_dot_head. unfold match_component.
  destruct (str_is_empty s); [done|]. destruct (contains s ".."); [done|]. destruct (_ || _); [done|].
  destruct (negb _); [done|]. unfold str_is_empty. destruct (decide (up_to_dot s = "")) as [He|He].
  - rewrite (bool_decide_true (up_to_dot s = "")) by done.
    rewrite (bool_decide_false (Some (up_to_dot s) = _)) by (rewrite He; done).
    by rewrite (bool_decide_false (None = _)) by done.
  - by rewrite (bool_decide_false (up_to_dot s = "")) by done.
Qed.

(** ** [require] ends *)
Section node.
Context `{!LuaHost} (dir : string) (chunks : gmap string Chunk).

(** What a call leaves of the state it found: nothing that was loaded is
    loaded again, what is loading is what was, and what is new is a module
    that was not loading. *)
Record kept (st st' : State) : Prop := {
  kept_loaded : loaded st ⊆ loaded st';
  kept_loading : loading st' = loading st;
  kept_new n v : loaded st' !! n = Some v → loaded st !! n = None →
    v ≠ LNil ∧ is_Some (chunks !! n) ∧ (n ∉ loading st) ∧ refuse_name n = None;
}.

Lemma kept_refl st : kept st st.
Proof. split; [done..|]. congruence. Qed.

Lemma kept_trans st1 st2 st3 : kept st1 st2 → kept st2 st3 → kept st1 st3.
Proof.
  intros [H1 H2 H3] [H4 H5 H6]. split; [by etrans|congruence|].
  intros n v Hn Hn1. destruct (loaded st2 !! n) as [v2|] eqn:Hn2.
  - apply (lookup_weaken _ (loaded st3)) in Hn2 as Hn3; [|done]. rewrite Hn in Hn3. injection Hn3 as <-. by apply H3.
  - rewrite <-H2. by apply (H6 n v).
Qed.

(** The modules that are not loading. *)
Definition idle (st : State) : gset string := dom chunks ∖ loading st.

Lemma act_ends req a : ∀ st,
  (∀ name st', kept st st' → ∃ r st'', req name st' = Some (r, st'') ∧ kept st' st'') →
  ∃ r st', act req a st = Some (r, st') ∧ kept st st'.
Proof.
  induction a as [v|e|name k IH]; intros st Hreq; cbn [act].
  - eexists _, _. split; [done|apply kept_refl].
  - eexists _, _. split; [done|apply kept_refl].
  - destruct (Hreq name st) as (r & st1 & Hr & Hk1); [apply kept_refl|]. rewrite Hr. cbn.
    destruct (IH r st1) as (r' & st2 & Ha & Hk2).
    { intros n st' Hst'. apply Hreq. by eapply kept_trans. }
    rewrite Ha. eexists _, _. split; [done|by eapply kept_trans].
Qed.

Lemma require_kept fuel : ∀ name st,
  size (idle st) < fuel →
  ∃ r st', require dir chunks fuel name st = Some (r, st') ∧ kept st st'
    ∧ ∀ v, r = Ok v → ∃ n, name = LStr n ∧ loaded st' !! n = Some v.
Proof.
  induction fuel as [|fuel IH]; intros name st Hf; [lia|]. cbn [require].
  assert (Herr : ∀ s, ∃ r st', Some (error_text s, st) = Some (r, st') ∧ kept st st'
            ∧ ∀ v, r = Ok v → ∃ n, name = LStr n ∧ loaded st' !! n = Some v).
  { intros s. eexists _, _. split; [done|]. split; [apply kept_refl|done]. }
  destruct (refusal name) as [why|] eqn:Href; [apply Herr|].
  destruct name as [|b|n|kind id]; [done|done| |done]. rewrite refusal_agrees in Href.
  destruct (loaded st !! n) as [hit|] eqn:Hl.
  { eexists _, _. split; [done|]. split; [apply kept_refl|]. intros v [= ->]. by exists n. }
  destruct (chunks !! n) as [chunk|] eqn:Hc; [|apply Herr].
  destruct (decide (n ∈ loading st)) as [Hn|Hn]; [apply Herr|].
  set (st1 := MkState (loaded st) ({[ n ]} ∪ loading st)).
  destruct (act_ends (require dir chunks fuel) (chunk [LStr n]) st1) as (r & st2 & Ha & [K1 K2 K3]).
  { intros name' st' [_ Hload _]. destruct (IH name' st') as (r & st2 & Hr & Hk & _); [|by exists r, st2].
    assert (Hsub : idle st' ⊂ idle st).
    { unfold idle. rewrite Hload. cbn. assert (n ∈ dom chunks) by (apply elem_of_dom; by eexists). set_solver. }
    apply subset_size in Hsub. lia. }
  rewrite Ha. cbn [mbind option_bind loaded loading]. cbn in K1, K2, K3.
  assert (Hout : loading st2 ∖ {[ n ]} = loading st) by (rewrite K2; set_solver).
  assert (Hnone : loaded st2 !! n = None).
  { apply eq_None_not_Some. intros [v Hv]. destruct (K3 n v Hv Hl) as (_ & _ & Hn' & _). set_solver. }
  destruct r as [value|e].
  - eexists _, _. split; [done|]. split.
    + split; cbn.
      * etrans; [exact K1|]. by apply insert_subseteq.
      * done.
      * intros n' v Hv Hv'. destruct (decide (n' = n)) as [->|Hne].
        { rewrite lookup_insert_eq in Hv. injection Hv as <-. split; [by case_decide|]. by split_and!. }
        rewrite lookup_insert_ne in Hv by done. destruct (K3 n' v Hv Hv') as (? & ? & Hn' & ?). set_solver.
    + intros v [= <-]. exists n. split; [done|]. apply lookup_insert_eq.
  - eexists _, _. split; [done|]. split; [|done]. split; cbn; [done..|].
    intros n' v Hv Hv'. destruct (K3 n' v Hv Hv') as (? & ? & Hn' & ?). set_solver.
Qed.

(** A module that is loaded is not run again. *)
Lemma require_again fuel n v st :
  loaded st !! n = Some v → refuse_name n = None → require dir chunks (S fuel) (LStr n) st = Some (Ok v, st).
Proof. intros Hl Hn. cbn [require]. by rewrite refusal_agrees, Hn, Hl. Qed.
End node.

(** ** A node *)
Section run.
Context `{!LuaHost}.

Lemma link_dom ms : ∀ chunks chunks',
  link ms chunks = Ok chunks' → dom chunks' = dom chunks ∪ list_to_set (m_name <$> ms).
Proof.
  induction ms as [|m ms IH]; intros chunks chunks'; cbn [link fmap list_fmap list_to_set].
  - intros [= <-]. set_solver.
  - destruct (load _ _) as [chunk|]; [|done]. intros Hl%IH. rewrite Hl, dom_insert_L. set_solver.
Qed.

Lemma dom_size ms (chunks : gmap string Chunk) : link ms ∅ = Ok chunks → size (dom chunks) ≤ length ms.
Proof.
  intros Hl. rewrite (link_dom _ _ _ Hl), dom_empty_L, (left_id_L ∅ (∪)). clear.
  induction ms as [|m ms IH]; [done|]. cbn. rewrite size_union_alt, size_singleton.
  assert (Hs : (list_to_set (m_name <$> ms) ∖ {[ m_name m ]} : gset string) ⊆ list_to_set (m_name <$> ms)) by set_solver.
  apply subseteq_size in Hs. lia.
Qed.

(** C19: Whatever the program and its modules ask of [require], in whatever order
    and however they take its errors, the run is never deeper than one call
    for each module and ends; nothing is left loading; and what is loaded is
    modules of the node, each with a value that is not nil and that [require]
    gives from then on without a call. *)
Theorem node_runs m entry_source entry_file fuel :
  length (modules m) < fuel →
  ∃ r st, run_node fuel m entry_source entry_file = Some (r, st)
    ∧ loading st = ∅
    ∧ ∀ n v, loaded st !! n = Some v → v ≠ LNil ∧ refuse_name n = None ∧ n ∈ m_name <$> modules m
        ∧ ∀ dir chunks k, require dir chunks (S k) (LStr n) st = Some (Ok v, st).
Proof.
  intros Hf. unfold run_node. destruct (link (modules m) ∅) as [chunks|e] eqn:Hl; [|by eexists _, _].
  destruct (load entry_source entry_file) as [entry|why]; [|by eexists _, _].
  pose proof (dom_size _ _ Hl) as Hd.
  destruct (act_ends chunks (require (m_dir m) chunks fuel) (entry []) start) as (r & st & Ha & [K1 K2 K3]).
  { intros name st' [_ Hload _]. destruct (require_kept (m_dir m) chunks fuel name st') as (r & st'' & Hr & Hk & _);
      [|by exists r, st'']. unfold idle. rewrite Hload.
    assert (Hs : dom chunks ∖ loading start ⊆ dom chunks) by set_solver. apply subseteq_size in Hs. lia. }
  exists r, st. split; [done|]. split; [done|]. intros n v Hv.
  destruct (K3 n v Hv) as (Hv' & Hc & _ & Hn); [done|].
  split_and!; [done..| |intros dir chunks' k; by apply require_again].
  apply elem_of_dom in Hc. rewrite (link_dom _ _ _ Hl) in Hc.
  apply elem_of_union in Hc as [Hc|Hc]; [set_solver|]. by rewrite elem_of_list_to_set in Hc.
Qed.
End run.

End RequireFacts.

Module ModulesDemo.
Import Names Loader WalkFacts MemFs MemFsFacts.

Definition program : Path := path_of "/n/entry.dlua".
Definition line_of (s : string) : string := s +:+ newline.
Definition a_source : string := line_of "return require('util.b')[1]".
Definition b_source : string := line_of "return pcall(require, 'a')".
Definition entry_source : string := line_of "print(require('a'))".

Definition node : MemState :=
  add_file (path_of "/n/.git/hook.dluac") (as_bytes "x")
    (add_file (path_of "/n/util/b.lua") (as_bytes b_source)
      (add_file (path_of "/n/a.dlua") (as_bytes a_source)
        (add_file program (as_bytes entry_source) new))).

Lemma node_wf : wf node.
Proof.
  apply (mem_wf [AddFile program (as_bytes entry_source); AddFile (path_of "/n/a.dlua") (as_bytes a_source);
                 AddFile (path_of "/n/util/b.lua") (as_bytes b_source);
                 AddFile (path_of "/n/.git/hook.dluac") (as_bytes "x")]).
Qed.

Definition plain_here (q : Path) : bool :=
  match file_name q with
  | Some n => bool_decide (path_of n = [Normal n]) && utf8_valid (as_bytes n)
  | None => true
  end.

Lemma plain_names st :
  forallb plain_here (elements (dirs st) ++ elements (dom (files st))) = true →
  ∀ p n, push p n ∈ dirs st ∨ is_Some (files st !! push p n) → plain n.
Proof.
  intros Hall p n Hl. rewrite forallb_forall in Hall.
  assert (Hn : plain_here (push p n) = true).
  { apply Hall. apply list_elem_of_In. by rewrite elem_of_app, !elem_of_elements, elem_of_dom. }
  unfold plain_here, push in Hn. rewrite file_name_snoc in Hn.
  apply andb_true_iff in Hn as [Hp Hu]. split; [by apply (bool_decide_eq_true (path_of n = [Normal n]))|done].
Qed.

Lemma node_plain : ∀ p n, push p n ∈ dirs node ∨ is_Some (files node !! push p n) → plain n.
Proof. apply plain_names. vm_compute. reflexivity. Qed.

Definition found_modules : Modules := MkModules "/n"
  [MkModuleFile "a" "a.dlua" a_source; MkModuleFile "util.b" "util/b.lua" b_source].

Lemma node_found : discover 5 program node = Some (Ok found_modules).
Proof. vm_compute. reflexivity. Qed.

(** The walk finds both, passes the program and the directory whose name is
    no component, and finds no more. *)
Lemma discover_finds_witness :
  discover 5 program node = Some (Ok found_modules)
  ∧ ∀ m, m ∈ modules found_modules ↔ ∃ c, module_at node (path_of "/n") (Some "entry.dlua") c m.
Proof.
  split; [apply node_found|]. destruct (discover_finds node program 5) as (r & Hr & Hm).
  - apply node_wf.
  - by exists ["n"].
  - apply (bool_decide_unpack _). by vm_compute.
  - apply node_plain.
  - vm_compute. lia.
  - assert (Hf : r = Ok found_modules).
    { assert (Some r = Some (Ok found_modules)) as [=->] by (rewrite <-Hr; apply node_found). done. }
    rewrite Hf in Hm. apply Hm.
Defined.

(** ** The chunk *)

Definition chunk_text : string :=
  match bootstrap "crates/drt/src/modules.rs" found_modules entry_source "entry.dlua" with
  | Ok c => c
  | Err e => e
  end.

Import Lua ChunkFacts.

Lemma bootstrap_reads_witness : tokens chunk_text = Some (chunk_tokens found_modules entry_source "entry.dlua").
Proof.
  apply (bootstrap_reads "crates/drt/src/modules.rs" found_modules entry_source "entry.dlua");
    [by vm_compute|reflexivity|reflexivity|reflexivity|reflexivity|reflexivity| |by split].
  repeat constructor.
Defined.

(** A program whose last line has no end and ends in a bracket: the close that
    is put after it begins with that bracket, and what is read is a program
    that is cut short and a bracket that nothing opens. *)
Example program_cut_short :
  bracket_level "return t[1]" = Some 0
  ∧ tokens (embedded 0 "return t[1]" "") = Some [TString "return t[1"; TPunct "]"]
  ∧ ∀ chunk, bootstrap "modules.rs" found_modules "return t[1]" "entry.dlua" = Ok chunk →
      tokens chunk ≠ Some (chunk_tokens found_modules "return t[1]" "entry.dlua").
Proof.
  split; [reflexivity|]. split; [vm_compute; reflexivity|].
  intros chunk Hc. assert (He : Ok chunk = bootstrap "modules.rs" found_modules "return t[1]" "entry.dlua") by done.
  vm_compute in He. injection He as ->. vm_compute. done.
Qed.

(** A control character before a digit: the number it is quoted by takes the
    digit in. *)
Example number_takes_digit :
  quote (String (of_byte 1) "2") = String DQ "\12" +:+ String DQ ""
  ∧ tokens (quote (String (of_byte 1) "2")) = Some [TString (String (of_byte 12) "")].
Proof. split; vm_compute; reflexivity. Qed.

(** ** The run *)

Import Require RequireFacts.

Definition pass (r : result LuaValue LuaValue) : Act := match r with Ok v => Returns v | Err e => Raises e end.

(** The three texts, compiled. *)
#[local] Instance demo_host : LuaHost := {|
  load src name :=
    if bool_decide (src = a_source) then Ok (λ _, Requires (LStr "util.b") pass)
    else if bool_decide (src = b_source) then
      Ok (λ _, Requires (LStr "a") (λ r, Returns (match r with Ok v => v | Err e => e end)))
    else if bool_decide (src = entry_source) then Ok (λ _, Requires (LStr "a") pass)
    else Err "unexpected symbol";
  tostring _ := "?";
|}.

Lemma node_runs_witness :
  ∃ st, run_node 3 found_modules entry_source "entry.dlua"
        = Some (Ok (LStr "require(a): required while it was still loading -- a cycle"), st)
    ∧ loading st = ∅.
Proof.
  destruct (node_runs found_modules entry_source "entry.dlua" 3) as (r & st & Hr & Hl & _); [vm_compute; lia|].
  exists st. split; [|done]. rewrite Hr. f_equal. f_equal.
  assert (He : fst <$> run_node 3 found_modules entry_source "entry.dlua"
               = Some (Ok (LStr "require(a): required while it was still loading -- a cycle"))) by (vm_compute; reflexivity).
  rewrite Hr in He. by injection He as ->.
Defined.

End ModulesDemo.
