(* ===== verification/Snapshot.v ===== *)
(** * The snapshot store ([crates/drt-swarm/src/snapshot.rs])

    Snapshots as files of one directory, each written beside its place and
    renamed into it; and that such a directory is a map from names to bytes,
    whatever a crash leaves of a write. *)

From stdpp Require Import gmap sorting.
From S2P Require Import Prelude.
From S2P Require Import Bytes.
From S2P Require Import Value.
From S2P Require Import Backend.
From S2P Require Import Root.
From S2P Require Import ModulesSpec.
Import MemFs.

Module Snapshot.

(** [std::fs::rename], of a file; the rest of [std::fs] is [Backend]. *)
Class Renames (F : Type) := rename : Path → Path → F → result unit IoError * F.

(** An [InvalidInput] with the name it is about, or the filesystem's. *)
Inductive StoreError := NotAName (name : string) | Io (e : IoError).

Definition SUFFIX : string := ".dvsnap".

Definition is_alphanumeric (c : ascii) : bool :=
  in_range 48 57 (byte_val c) || in_range 65 90 (byte_val c) || in_range 97 122 (byte_val c).
Definition is_name_char (c : ascii) : bool :=
  is_alphanumeric c || bool_decide (c = "-"%char) || bool_decide (c = "_"%char) || bool_decide (c = "."%char).

(** The test of [path_for]. *)
Definition is_snapshot_name (name : string) : bool :=
  negb (str_is_empty name) && negb (starts_with name ".") && forallb is_name_char (as_bytes name).

(** [Path::with_extension]: the last dot of a name and what follows it, when
    something precedes it. *)
Definition file_stem (n : string) : string :=
  match rsplit_once "." n with
  | Some (l, _) => if str_is_empty l then n else l
  | None => n
  end.
Definition with_extension (p : Path) (ext : string) : Path :=
  match file_name p with
  | Some n => pop p ++ [Normal (file_stem n +:+ "." +:+ ext)]
  | None => p
  end.

Definition snapshot_name (p : Path) : option string :=
  n ← file_name p;
  if utf8_valid (as_bytes n) then strip_suffix SUFFIX n else None.

Section store.
Context {F : Type} `{!Backend F} `{!Renames F} (dir : Path).

(** [DirectoryStore::open]. *)
Definition open (fs : F) : result unit IoError * F := create_dir_all dir fs.

Definition path_for (name : string) : result Path StoreError :=
  if is_snapshot_name name then Ok (Root.at_ dir (name +:+ SUFFIX)) else Err (NotAName name).

Definition put (name : string) (bs : bytes) (fs : F) : result unit StoreError * F :=
  match path_for name with
  | Err e => (Err e, fs)
  | Ok path =>
      let tmp := with_extension path "dvsnap.tmp" in
      match write tmp bs false fs with
      | (Err e, fs) => (Err (Io e), fs)
      | (Ok _, fs) => match rename tmp path fs with (r, fs) => (map_err Io r, fs) end
      end
  end.

Definition get (name : string) (fs : F) : result (option bytes) StoreError :=
  path ←? path_for name;
  match read path fs with
  | Ok bs => Ok (Some bs)
  | Err e => match io_kind e with NotFound => Ok None | _ => Err (Io e) end
  end.

Definition remove (name : string) (fs : F) : result unit StoreError * F :=
  match path_for name with
  | Err e => (Err e, fs)
  | Ok path =>
      match remove_file path fs with
      | (Ok _, fs) => (Ok tt, fs)
      | (Err e, fs) => (match io_kind e with NotFound => Ok tt | _ => Err (Io e) end, fs)
      end
  end.

Definition list_ (fs : F) : result (list string) StoreError :=
  entries ←? map_err Io (read_dir dir fs);
  Ok (merge_sort str_le (omap (λ entry, snapshot_name (Root.at_ dir entry)) entries)).
End store.

(** [std::fs::rename] of a file of the memory filesystem: what was at the
    target goes. *)
#[export] Instance mem_rename : Renames MemState := λ from to st,
  let a := absolute from st in
  let b := absolute to st in
  match files st !! a with
  | None => (Err (MkIoError NotFound from), st)
  | Some bs =>
      if is_dir b st then (Err (MkIoError IsADirectory to), st)
      else if negb (is_dir (default [] (parent b)) st) then (Err (MkIoError NotFound to), st)
      else (Ok tt, set_files (<[b := bs]> (delete a (files st))) st)
  end.

End Snapshot.

Module SnapshotFacts.
Import Snapshot MemFsFacts.

(** ** A filesystem that the process does not outlive

    [budget] counts what still reaches the disk: the opening of a file and
    each byte written to it are one, as is every other change. *)
Record Dying := MkDying { disk : MemState; budget : nat }.

Definition dead : IoError := MkIoError OtherKind root.

Definition alive (f : MemState → result unit IoError * MemState) (d : Dying) : result unit IoError * Dying :=
  match budget d with
  | 0 => (Err dead, d)
  | S n => let '(r, st) := f (disk d) in (r, MkDying st n)
  end.

Definition dying_write (p : Path) (bs : bytes) (append : bool) (d : Dying) : result unit IoError * Dying :=
  match budget d with
  | 0 => (Err dead, d)
  | S n =>
      if bool_decide (length bs ≤ n)
      then let '(r, st) := mem_write p bs append (disk d) in (r, MkDying st (n - length bs))
      else (Err dead, MkDying (mem_write p (take n bs) append (disk d)).2 0)
  end.

#[export] Instance dying_backend : Backend Dying := {|
  canonicalize p d := canonicalize p (disk d);
  metadata p d := metadata p (disk d);
  read p d := read p (disk d);
  write := dying_write;
  read_dir p d := read_dir p (disk d);
  remove_file p := alive (remove_file p);
  create_dir_all p := alive (create_dir_all p);
  remove_dir_all p := alive (remove_dir_all p);
  io_text := mem_text;
|}.
#[export] Instance dying_rename : Renames Dying := λ a b, alive (rename a b).

(** ** The specification

    A store is a map.  [Torn] is a [put] by a process that dies when its
    budget is spent: the snapshot is the new one whole or nothing has
    changed. *)
Inductive Op :=
  | Reopen
  | Put (name : string) (bs : bytes)
  | Torn (name : string) (bs : bytes) (budget : nat)
  | Get (name : string)
  | Remove (name : string)
  | List_.

Inductive Answer :=
  | Done (r : result unit StoreError)
  | Died
  | Got (r : result (option bytes) StoreError)
  | Listed (r : result (list string) StoreError).

Definition named {A} (name : string) (a : A) : result A StoreError :=
  if is_snapshot_name name then Ok a else Err (NotAName name).

Definition promised (op : Op) (s : gmap string bytes) : Answer * gmap string bytes :=
  match op with
  | Reopen => (Done (Ok tt), s)
  | Put name bs => (Done (named name tt), if is_snapshot_name name then <[ name := bs ]> s else s)
  | Torn name bs n =>
      (Died, if is_snapshot_name name && bool_decide (length bs + 2 ≤ n) then <[ name := bs ]> s else s)
  | Get name => (Got (named name (s !! name)), s)
  | Remove name => (Done (named name tt), delete name s)
  | List_ => (Listed (Ok (merge_sort str_le (elements (dom s)))), s)
  end.

(** What the store does of it. *)
Definition performed (dir : Path) (op : Op) (st : MemState) : Answer * MemState :=
  match op with
  | Reopen => let '(r, st) := open dir st in (Done (map_err Io r), st)
  | Put name bs => let '(r, st) := put dir name bs st in (Done r, st)
  | Torn name bs n => (Died, disk (put dir name bs (MkDying st n)).2)
  | Get name => (Got (get dir name st), st)
  | Remove name => let '(r, st) := remove dir name st in (Done r, st)
  | List_ => (Listed (list_ dir st), st)
  end.

Fixpoint run {S} (step : Op → S → Answer * S) (ops : list Op) (s : S) : list Answer :=
  match ops with
  | [] => []
  | op :: ops => let '(a, s) := step op s in a :: run step ops s
  end.

(** ** Names and paths *)

Definition file_of (name : string) : string := name +:+ SUFFIX.
Definition temp_of (name : string) : string := name +:+ ".dvsnap.tmp".

Lemma snapshot_chars name : is_snapshot_name name = true →
  name ≠ "" ∧ forallb is_name_char (as_bytes name) = true.
Proof.
  unfold is_snapshot_name, str_is_empty. intros [[Hn _]%andb_true_iff Hc]%andb_true_iff.
  apply negb_true_iff, bool_decide_eq_false in Hn. done.
Qed.

Lemma name_no_slash name : is_snapshot_name name = true → contains_char "/" name = false.
Proof.
  intros [_ Hc]%snapshot_chars. apply bool_decide_eq_false. intros Hin.
  rewrite forallb_forall in Hc. specialize (Hc "/"%char). rewrite <-list_elem_of_In in Hc. by specialize (Hc Hin).
Qed.

(** A text without a slash that is no dot directory is one component. *)
Lemma one_component n : contains_char "/" n = false → n ≠ "" → n ≠ "." → n ≠ ".." → path_of n = [Normal n].
Proof.
  intros Hs H0 H1 H2. unfold path_of. rewrite split_on_none by done.
  assert (Hi : inner [n] = [Normal n]).
  { unfold inner. rewrite filter_cons_True by done. cbn. unfold component_of. by rewrite bool_decide_false. }
  repeat case_match; simplify_eq; done.
Qed.

Lemma path_for_ok dir name :
  is_snapshot_name name = true → path_for dir name = Ok (push dir (file_of name)).
Proof.
  intros Hn. unfold path_for. rewrite Hn. f_equal. apply WalkFacts.at_push. unfold file_of. apply one_component.
  - by rewrite contains_char_app, name_no_slash.
  - by destruct name.
  - intros Hx%(f_equal str_len). rewrite str_len_app in Hx. cbn in Hx. lia.
  - intros Hx%(f_equal str_len). rewrite str_len_app in Hx. cbn in Hx. lia.
Qed.

Lemma temp_path dir name :
  is_snapshot_name name = true → with_extension (push dir (file_of name)) "dvsnap.tmp" = push dir (temp_of name).
Proof.
  intros [Hn _]%snapshot_chars. unfold with_extension, push. rewrite file_name_snoc.
  change (dir ++ [Normal (file_of name)]) with (push dir (file_of name)). rewrite pop_push.
  unfold file_of, SUFFIX, file_stem. change (name +:+ ".dvsnap") with (name +:+ String "." "dvsnap").
  rewrite rsplit_once_app by done. unfold str_is_empty. by rewrite bool_decide_false.
Qed.

Lemma str_app_inj_r a b t : a +:+ t = b +:+ t → a = b.
Proof.
  intros H. apply as_bytes_inj. apply (f_equal as_bytes) in H. rewrite !as_bytes_app in H. by apply app_inv_tail in H.
Qed.

Lemma file_not_temp a b : file_of a ≠ temp_of b.
Proof.
  unfold file_of, temp_of. intros H%(f_equal as_bytes). rewrite !as_bytes_app in H.
  change (as_bytes ".dvsnap.tmp") with (as_bytes ".dvs" ++ as_bytes "nap.tmp") in H. rewrite (assoc_L (++)) in H.
  by apply app_inj_2 in H as [_ H].
Qed.

(** ** What a directory of snapshots is

    Files only, each a snapshot or what is left of one that was being
    written; [s] has the snapshots. *)
Record holds (dir : Path) (s : gmap string bytes) (st : MemState) : Prop := {
  holds_wf : wf st;
  holds_folded : folded dir;
  holds_dir : dir ∈ dirs st;
  holds_place : files st !! dir = None;
  holds_flat n : push dir n ∉ dirs st;
  holds_files n : is_Some (files st !! push dir n) →
    ∃ name, is_snapshot_name name = true ∧ (n = file_of name ∨ n = temp_of name);
  holds_map name : is_snapshot_name name = true → files st !! push dir (file_of name) = s !! name;
  holds_names name : is_Some (s !! name) → is_snapshot_name name = true;
}.

Section store.
Context (dir : Path).

Lemma entry_folded n : folded dir → folded (push dir n).
Proof. apply folded_push. Qed.

Lemma parent_push n : parent (push dir n) = Some dir.
Proof. apply parent_snoc. Qed.

Lemma push_not_dir n : push dir n ≠ dir.
Proof. unfold push. intros H%(f_equal length). rewrite length_app in H. cbn in H. lia. Qed.

Lemma push_ne n m : n ≠ m → push dir n ≠ push dir m.
Proof. unfold push. intros Hne H%app_inj_tail. naive_solver. Qed.

(** A file of the directory is written. *)
Lemma write_entry n bs s st :
  holds dir s st → mem_write (push dir n) bs false st = (Ok tt, set_files (<[push dir n := bs]> (files st)) st).
Proof.
  intros [Hwf Hf Hd _ Hn _ _ _]. unfold mem_write, is_dir. rewrite absolute_id by by apply entry_folded.
  rewrite bool_decide_false by apply Hn. rewrite parent_push. cbn [default from_option id].
  by rewrite bool_decide_true.
Qed.

Lemma set_files_wf n bs s st : holds dir s st → wf (set_files (<[push dir n := bs]> (files st)) st).
Proof.
  intros [Hwf Hf Hd _ Hn _ _ _]. apply insert_file_wf; [done|by apply entry_folded|].
  intros q. rewrite parent_push. by intros [= <-].
Qed.

(** Writing beside a snapshot changes none. *)
Lemma holds_temp name part s st :
  is_snapshot_name name = true → holds dir s st →
  holds dir s (set_files (<[push dir (temp_of name) := part]> (files st)) st).
Proof.
  intros Hn HH. pose proof HH as [H1 H2 H3 H0 H4 H5 H6 H7]. split; try done; [by eapply set_files_wf|..]; cbn.
  - rewrite lookup_insert_ne by apply push_not_dir. done.
  - intros n. destruct (decide (n = temp_of name)) as [->|Hne]; [intros _; exists name; split; [done|by right]|].
    rewrite lookup_insert_ne by by apply push_ne. apply H5.
  - intros name' Hn'. rewrite lookup_insert_ne by (apply push_ne, not_eq_sym, file_not_temp). by apply H6.
Qed.

Lemma rename_wf a b bs s st :
  holds dir s st → files st !! push dir a = Some bs →
  wf (set_files (<[push dir b := bs]> (delete (push dir a) (files st))) st).
Proof.
  intros [Hwf Hf Hd _ Hn _ _ _] Ha.
  assert (Hdel : wf (set_files (delete (push dir a) (files st)) st)).
  { destruct Hwf. split; cbn; try done; intros p; [|intros q]; intros [x [_ Hx]%lookup_delete_Some]; eauto. }
  change (wf (set_files (<[push dir b := bs]> (files (set_files (delete (push dir a) (files st)) st)))
                (set_files (delete (push dir a) (files st)) st))).
  apply insert_file_wf; [done|by apply entry_folded|].
  intros q. rewrite parent_push. by intros [= <-].
Qed.

Lemma put_does name bs s st :
  holds dir s st →
  ∃ st', put dir name bs st = (named name tt, st')
    ∧ holds dir (if is_snapshot_name name then <[ name := bs ]> s else s) st'.
Proof.
  intros HH. unfold put, named. destruct (is_snapshot_name name) eqn:Hn.
  2: { unfold path_for. rewrite Hn. by eexists. }
  rewrite path_for_ok, temp_path by done. unfold write, mem_backend. rewrite (write_entry _ _ s) by done.
  set (st1 := set_files (<[push dir (temp_of name) := bs]> (files st)) st).
  assert (H1 : holds dir s st1) by by apply holds_temp.
  assert (Ht : files st1 !! push dir (temp_of name) = Some bs) by apply lookup_insert_eq.
  pose proof H1 as [Hwf Hf Hd Hpl Hfl Hfi Hm Hk].
  assert (Hr : rename (push dir (temp_of name)) (push dir (file_of name)) st1
     = (Ok tt, set_files (<[push dir (file_of name) := bs]> (delete (push dir (temp_of name)) (files st1))) st1)).
  { unfold rename, mem_rename. rewrite !absolute_id by by apply entry_folded. rewrite Ht.
    unfold is_dir. rewrite bool_decide_false by apply Hfl.
    rewrite parent_push. cbn [default from_option id]. by rewrite bool_decide_true. }
  rewrite Hr. eexists. split; [done|]. split; cbn [files dirs set_files]; try done.
  - by eapply rename_wf.
  - rewrite lookup_insert_ne by apply push_not_dir. apply lookup_delete_None. by right.
  - intros n. destruct (decide (n = file_of name)) as [->|Hne]; [intros _; exists name; split; [done|by left]|].
    rewrite lookup_insert_ne by by apply push_ne. intros [x [_ Hx]%lookup_delete_Some]. apply Hfi. by eexists.
  - intros name' Hn'. destruct (decide (name' = name)) as [->|Hne]; [by rewrite !lookup_insert_eq|].
    rewrite !lookup_insert_ne; [|done|].
    + rewrite lookup_delete_ne by (apply push_ne, not_eq_sym, file_not_temp). by apply Hm.
    + apply push_ne. intros Heq%str_app_inj_r. done.
  - intros name'. destruct (decide (name' = name)) as [->|Hne]; [done|].
    rewrite lookup_insert_ne by done. apply Hk.
Qed.

(** A process that dies in a [put] leaves the old snapshot or the new one. *)
Lemma torn_keeps name bs n s st :
  holds dir s st →
  holds dir (if is_snapshot_name name && bool_decide (length bs + 2 ≤ n) then <[ name := bs ]> s else s)
    (disk (put dir name bs (MkDying st n)).2).
Proof.
  intros HH. destruct (put_does name bs s st HH) as (st' & Hput & H'). revert Hput H'. unfold put.
  destruct (is_snapshot_name name) eqn:Hn; cbn [andb].
  2: { unfold path_for. by rewrite Hn. }
  rewrite path_for_ok, temp_path by done. unfold write at 1, mem_backend. rewrite (write_entry _ _ s) by done.
  unfold write, dying_backend, dying_write. cbn [budget disk]. destruct n as [|n].
  { intros _ _. by rewrite bool_decide_false by lia. }
  pose proof (holds_temp name bs s st Hn HH) as Hw.
  destruct (decide (length bs ≤ n)) as [Hle|Hle].
  2: { intros _ _. rewrite bool_decide_false, bool_decide_false by (done || lia).
       rewrite (write_entry _ _ s) by done. by apply holds_temp. }
  rewrite (bool_decide_true (length bs ≤ n)), (write_entry _ _ s) by done.
  unfold rename at 2, dying_rename, alive. cbn [budget disk]. destruct (n - length bs) as [|k] eqn:Hk.
  - intros _ _. by rewrite bool_decide_false by lia.
  - rewrite bool_decide_true by lia. cbn [disk]. destruct (rename _ _ _) as [r st'']. by intros [= _ ->].
Qed.

Lemma get_does name s st : holds dir s st → get dir name st = named name (s !! name).
Proof.
  intros [Hwf Hf Hd Hpl Hfl Hfi Hm Hk]. unfold get, named. destruct (is_snapshot_name name) eqn:Hn.
  2: { unfold path_for. by rewrite Hn. }
  rewrite path_for_ok by done. cbn [rbind]. unfold read, mem_backend, mem_read, is_dir.
  rewrite absolute_id by by apply entry_folded. rewrite bool_decide_false by apply Hfl.
  rewrite Hm by done. by destruct (s !! name).
Qed.

Lemma remove_does name s st :
  holds dir s st → ∃ st', remove dir name st = (named name tt, st') ∧ holds dir (delete name s) st'.
Proof.
  intros HH. pose proof HH as [Hwf Hf Hd Hpl Hfl Hfi Hm Hk]. unfold remove, named. destruct (is_snapshot_name name) eqn:Hn.
  2: { unfold path_for. rewrite Hn. eexists. split; [done|]. rewrite delete_id; [done|].
       apply eq_None_not_Some. intros Hs%Hk. congruence. }
  rewrite path_for_ok by done. unfold remove_file, mem_backend.
  pose proof (remove_file_wf (push dir (file_of name)) st Hwf) as Hw. revert Hw. unfold mem_remove_file, is_dir.
  rewrite absolute_id by by apply entry_folded. rewrite bool_decide_false by apply Hfl.
  rewrite Hm by done. destruct (s !! name) as [bs|] eqn:Hs; intros Hw; cbn in Hw |- *.
  - eexists. split; [done|]. split; cbn [files dirs set_files]; try done.
    + apply lookup_delete_None. by right.
    + intros n [x [_ Hx]%lookup_delete_Some]. apply Hfi. by eexists.
    + intros name' Hn'. destruct (decide (name' = name)) as [->|Hne]; [by rewrite !lookup_delete_eq|].
      rewrite !lookup_delete_ne; [by apply Hm|done|]. apply push_ne. intros Heq%str_app_inj_r. done.
    + intros name' [x [_ Hx]%lookup_delete_Some]. apply Hk. by eexists.
  - eexists. split; [done|]. by rewrite delete_id.
Qed.

Lemma name_ascii name : is_snapshot_name name = true → is_ascii_text name.
Proof.
  intros [_ Hc]%snapshot_chars. apply Forall_forall. intros c Hin.
  rewrite forallb_forall in Hc. specialize (Hc c). rewrite <-list_elem_of_In in Hc. specialize (Hc Hin).
  unfold is_name_char, is_alphanumeric, in_range in Hc. rewrite !orb_true_iff, !bool_decide_eq_true in Hc.
  destruct Hc as [[[[[?|?]|?]|?]| ?]|?]; subst; (lia || by vm_compute).
Qed.

Lemma entry_path name t :
  is_snapshot_name name = true → (t = SUFFIX ∨ t = ".dvsnap.tmp") →
  Root.at_ dir (name +:+ t) = push dir (name +:+ t) ∧ utf8_valid (as_bytes (name +:+ t)) = true.
Proof.
  intros Hn Ht. split.
  - apply WalkFacts.at_push, one_component.
    + rewrite contains_char_app, name_no_slash by done. by destruct Ht as [->| ->].
    + by destruct name; [destruct Ht as [->| ->]|].
    + intros Hx%(f_equal str_len). rewrite str_len_app in Hx. destruct Ht as [->| ->]; cbn in Hx; lia.
    + intros Hx%(f_equal str_len). rewrite str_len_app in Hx. destruct Ht as [->| ->]; cbn in Hx; lia.
  - apply ascii_utf8, is_ascii_app; [by apply name_ascii|].
    destruct Ht as [->| ->]; repeat constructor; by vm_compute.
Qed.

(** A snapshot is listed under its name, what is left of a write is not. *)
Lemma snapshot_file name :
  is_snapshot_name name = true →
  snapshot_name (Root.at_ dir (file_of name)) = Some name ∧ snapshot_name (Root.at_ dir (temp_of name)) = None.
Proof.
  intros Hn. destruct (entry_path name SUFFIX Hn) as [H1 U1]; [by left|].
  destruct (entry_path name ".dvsnap.tmp" Hn) as [H2 U2]; [by right|].
  unfold file_of, temp_of. rewrite H1, H2. unfold snapshot_name, push. rewrite !file_name_snoc.
  cbn [mbind option_bind]. rewrite U1, U2. split; [by apply strip_suffix_Some|].
  destruct (strip_suffix _ _) as [r|] eqn:Hr; [|done]. apply strip_suffix_Some in Hr.
  exfalso. by apply (file_not_temp r name).
Qed.

Lemma sorted_same (l l' : list string) : l ≡ₚ l' → merge_sort str_le l = merge_sort str_le l'.
Proof.
  intros Hp. apply (StronglySorted_unique str_le).
  - apply StronglySorted_merge_sort; apply _.
  - apply StronglySorted_merge_sort; apply _.
  - by rewrite !merge_sort_Permutation.
Qed.

Lemma list_does s st : holds dir s st → list_ dir st = Ok (merge_sort str_le (elements (dom s))).
Proof.
  intros HH. pose proof HH as [Hwf Hf Hd Hpl Hfl Hfi Hm Hk]. unfold list_.
  destruct (read_dir_names dir st Hf Hd) as (ns & Hr & Hnd & Hns).
  unfold read_dir, mem_backend. rewrite Hr. cbn [rbind map_err]. f_equal. apply sorted_same.
  assert (Hin : ∀ n, n ∈ ns → ∃ name, is_snapshot_name name = true ∧ (n = file_of name ∨ n = temp_of name)).
  { intros n [Hx|Hx]%Hns; [by destruct (Hfl n)|by apply Hfi]. }
  set (f := λ entry, snapshot_name (Root.at_ dir entry)).
  assert (Hf' : ∀ n name, n ∈ ns → f n = Some name ↔ is_snapshot_name name = true ∧ n = file_of name).
  { intros n name (name' & Hn' & Hx)%Hin. destruct (snapshot_file name' Hn') as [E1 E2]. unfold f. split.
    - destruct Hx as [->| ->]; [|by rewrite E2]. rewrite E1. by intros [= <-].
    - intros [Hn ->]. by apply snapshot_file. }
  apply NoDup_Permutation; [|apply NoDup_elements|].
  - clear Hns Hr. induction ns as [|n ns IH]; [constructor|]. apply NoDup_cons in Hnd as [Hn Hnd].
    cbn [omap list_omap]. assert (Hrec : NoDup (omap f ns)).
    { apply IH; [done|intros m Hm'; apply Hin; by right|intros m name Hm'; apply Hf'; by right]. }
    destruct (f n) as [name|] eqn:E; [|done]. constructor; [|done].
    intros (m & Hm' & E')%list_elem_of_omap. apply Hf' in E as [_ ->]; [|by left].
    apply Hf' in E' as [_ ->]; [done|by right].
  - intros name. rewrite list_elem_of_omap, elem_of_elements, elem_of_dom. split.
    + intros (n & Hn & E). apply Hf' in E as [Hv ->]; [|done]. rewrite <-Hm by done.
      apply Hns in Hn as [Hx|Hx]; [by destruct (Hfl (file_of name))|done].
    + intros Hs. pose proof (Hk _ Hs) as Hv. exists (file_of name). split; [|].
      * apply Hns. right. by rewrite Hm.
      * apply snapshot_file. done.
Qed.

Lemma open_does s st : holds dir s st → ∃ st', open dir st = (Ok tt, st') ∧ holds dir s st'.
Proof.
  intros HH. pose proof HH as [Hwf Hf Hd Hpl Hfl Hfi Hm Hk].
  unfold open, create_dir_all, mem_backend, mem_create_dir_all. rewrite absolute_id by done.
  rewrite Hpl, bool_decide_false by (by intros []). eexists. split; [done|]. split; try done.
  - by apply mkdir_wf.
  - apply mkdir_dirs; [done|by left].
  - intros n [Hx|(_ & [k Hx] & _)]%mkdir_dirs; [by destruct (Hfl n)| |done].
    apply (f_equal length) in Hx. unfold push in Hx. rewrite !length_app in Hx. cbn in Hx. lia.
Qed.

Lemma open_new : folded dir → ∃ st, open dir new = (Ok tt, st) ∧ holds dir ∅ st.
Proof.
  intros Hf. unfold open, create_dir_all, mem_backend, mem_create_dir_all. rewrite absolute_id by done.
  change (files new) with (∅ : gmap Path bytes). rewrite lookup_empty, bool_decide_false by (by intros []).
  eexists. split; [done|]. split; try done.
  - by apply (mkdir_wf dir new new_wf).
  - apply mkdir_self; [done|]. apply (wf_root new), new_wf.
  - intros n [Hx|(_ & [k Hx] & _)]%mkdir_dirs; [|..|done].
    + change (dirs new) with ({[ root ]} : gset Path) in Hx. apply elem_of_singleton in Hx. destruct Hf as [ns ->]. unfold push, root in Hx.
      apply (f_equal length) in Hx. rewrite length_app in Hx. cbn in Hx. lia.
    + apply (f_equal length) in Hx. unfold push in Hx. rewrite !length_app in Hx. cbn in Hx. lia.
  - intros n [x Hx]. done.
  - intros name [x Hx]. done.
Qed.

(** One operation. *)
Lemma performs op s st :
  holds dir s st →
  (performed dir op st).1 = (promised op s).1 ∧ holds dir (promised op s).2 (performed dir op st).2.
Proof.
  intros HH. destruct op as [|name bs|name bs n|name|name|]; cbn [performed promised].
  - destruct (open_does s st HH) as (st' & -> & H). done.
  - destruct (put_does name bs s st HH) as (st' & -> & H). done.
  - split; [done|]. by apply torn_keeps.
  - by rewrite (get_does name s st HH).
  - destruct (remove_does name s st HH) as (st' & -> & H). done.
  - by rewrite (list_does s st HH).
Qed.

Lemma runs ops : ∀ s st, holds dir s st → run (performed dir) ops st = run promised ops s.
Proof.
  induction ops as [|op ops IH]; intros s st HH; [done|]. cbn [run].
  destruct (performs op s st HH) as [Ha Hs].
  destruct (performed dir op st) as [a st'], (promised op s) as [b s']. cbn in Ha, Hs. subst b.
  f_equal. by apply IH.
Qed.
End store.

(** C30: A directory opened as a store answers every sequence of operations as a
    map from names to snapshots does: names that are no plain file name are
    refused and touch nothing, a put replaces the whole of a snapshot, and a
    put by a process that dies in the middle of it leaves the old snapshot or
    the new one, whole. *)
Theorem store_is_a_map dir ops :
  folded dir → run (performed dir) ops (open dir new).2 = run promised ops ∅.
Proof. intros Hf. destruct (open_new dir Hf) as (st & -> & HH). by apply runs. Qed.

Lemma store_is_a_map_witness :
  run (performed (path_of "/var/snapshots"))
    [Put "agent-1" (as_bytes "parked"); Torn "agent-1" (as_bytes "moved on") 4; Put "../escape" []; List_; Get "agent-1"]
    (open (path_of "/var/snapshots") new).2
  = [Done (Ok tt); Died; Done (Err (NotAName "../escape")); Listed (Ok ["agent-1"]);
     Got (Ok (Some (as_bytes "parked")))].
Proof.
  rewrite (store_is_a_map (path_of "/var/snapshots")); [vm_compute; reflexivity|]. by exists ["var"; "snapshots"].
Defined.

End SnapshotFacts.
