(* ===== verification/Kv.v ===== *)
(** * The kv connector ([connectors/kv/src/lib.rs])

    One topic of a signalling server's key-value store: the scope that names
    it, which becomes a scope of [Rest], and the five calls, each one request
    of [RestBody].
    The store of the server it talks to
    ([crates/drt/src/stdlib/p2p_match.dlua]), started with [--kv] and without
    [--topics]: a key is read, written or deleted at a version.  The SQL
    database is its table, whose statements do not fail; who watches the
    store, its listings and the counters of the status are not modelled. *)

From stdpp Require Import gmap.
From S2P Require Import Prelude.
From S2P Require Import Bytes.
From S2P Require Import Value.
From S2P Require Import Node.
From S2P Require Import Caps.
From S2P Require Import Connector.
From S2P Require Import Reach.
From S2P Require Import Canon.
From S2P Require Import Rest.
From S2P Require Import RestBody.

Module Kv.
Import Rest RestBody.

(** Milliseconds. *)
Definition TIMEOUT : N := 10000.
Definition WATCH_DEFAULT_MS : N := 20000.
Definition WATCH_MAX_MS : N := 25000.

Definition CALLS : list (string * string) := [
  ("kv/get", "GET /v1/<topic>/kv/<key>");
  ("kv/put", "PUT /v1/<topic>/kv/<key>[?ttl=s], If-Match or If-None-Match from version");
  ("kv/delete", "DELETE /v1/<topic>/kv/<key>, If-Match from version");
  ("kv/list", "GET /v1/<topic>/kv?prefix=&after=&limit=");
  ("kv/watch", "GET /v1/<topic>/kv?watch=poll&since=&prefix=")].

(** ** What is read of a scope and of arguments *)

Inductive Token := TokenText (t : string) | TokenEnv (env : string).
Inductive KvScopeShape :=
  | UrlShape (url : string)
  | FullShape (url : string) (token : option Token) (extra_roots : list string).

Record KeyArgs := MkKeyArgs { key : string; version : option N }.
Record PutArgs := MkPutArgs { put_key : string; value : string; ttl : option N; put_version : option N }.
Record ListArgs := MkListArgs { list_prefix : option string; after : option string; limit : option N }.
Record WatchArgs := MkWatchArgs { since : N; watch_prefix : option string; wait_ms : option N }.

(** The derived readers, and [serde_json] with [rmpv]'s reading of it. *)
Class KvWire := {
  kv_shape_from_value : Value → result KvScopeShape string;
  key_args_from_value : Value → result KeyArgs string;
  put_args_from_value : Value → result PutArgs string;
  list_args_from_value : Value → result ListArgs string;
  watch_args_from_value : Value → result WatchArgs string;
  json_from_slice : bytes → result Json string;
  json_to_value : Json → result Value string;
}.

Section kv.
Context `{!Env} `{!Pem} `{!RestWire} `{!KvWire}.

(** ** The scope *)

Record KvScope := MkKvScope { base : string; rest : RestScope }.

Definition is_digit_byte (c : ascii) : bool := in_range 48 57 (byte_val c).

(** The host of a [drt://] authority, and what is plain http to it. *)
Definition http_host (rest : string) : string :=
  let authority := match split_once "/" rest with Some (a, _) => a | None => rest end in
  let host :=
    match rsplit_once ":" authority with
    | Some (h, p) =>
        if forallb is_digit_byte (as_bytes p) && negb (bool_decide (as_bytes "]" `suffix_of` as_bytes authority))
        then h else authority
    | None => authority
    end in
  Cidr.trim_end_matches "]" (Cidr.trim_start_matches "[" host).

Definition http_url (url : string) : string :=
  match strip_prefix "drt://" url with
  | None => url
  | Some rest =>
      let host := http_host rest in
      let loopback := eq_ignore_ascii_case host "localhost"
                      || match parse_ip host with Some ip => is_loopback ip | None => false end in
      (if loopback then "http" else "https") +:+ "://" +:+ rest
  end.

(** The rest scope that grants the topic's origin alone, as the value it is
    read from. *)
Definition rest_value (origin : string) (token : option string) (extra_roots : list string) : Value :=
  let headers := match token with
                 | Some t => [(vstr "authorization", vstr ("Bearer " +:+ t))]
                 | None => []
                 end in
  VMap [(vstr "allow", VArr [VMap [(vstr "origin", vstr origin); (vstr "headers", VMap headers)]]);
        (vstr "allow_private", VBool true);
        (vstr "extra_roots", VArr (vstr <$> extra_roots))].

Definition token_text (t : Token) : result string string :=
  match t with
  | TokenText t => Ok t
  | TokenEnv env =>
      match env_var env with
      | Some t => Ok t
      | None => Err ("the kv token names env var '" +:+ env +:+ "', which is not set")
      end
  end.

Definition token_of (t : option Token) : result (option string) string :=
  match t with Some t => t ←? token_text t; Ok (Some t) | None => Ok None end.

(** [KvScope::parse]. *)
Definition parse (scope : option Scope) : result KvScope string :=
  match scope with
  | None =>
      Err ("the kv scope names the topic: " +:+ String dquote ("http://host:port/v1/<topic>" +:+ String dquote ""))
  | Some s =>
      shape ←? map_err (λ e, "the kv scope is a topic URL, or {url, token?, extra_roots?}: " +:+ e)
                 (kv_shape_from_value (scope_value s));
      let '(url, token, extra_roots) :=
        match shape with
        | UrlShape u => (u, None, [])
        | FullShape url token extra_roots => (url, token, extra_roots)
        end in
      let base := http_url (Cidr.trim_end_matches "/" url) in
      parsed ←? map_err (λ e, "the kv url '" +:+ url +:+ "': " +:+ e) (Url.parse base);
      let topic := default "" (strip_prefix "/v1/" (Url.path parsed)) in
      if str_is_empty topic || contains_char "/" topic || contains_char "?" topic || contains_char "#" topic then
        Err ("the kv url '" +:+ url +:+ "' does not end at a topic: http://host:port/v1/<topic>")
      else
        token ←? token_of token;
        rest ←? Rest.parse (Some (MkScope (rest_value (Url.origin parsed) token extra_roots)));
        Ok (MkKvScope base rest)
  end.

(** [KvScopeType]. *)
Definition describe : string :=
  "a topic URL at a signalling server, http(s)://host:port/v1/<topic>, or {url, token?, extra_roots?}".
Definition validate (scope : option Scope) : result unit string := _ ←? parse scope; Ok tt.

(** ** The requests *)

Definition is_alphanumeric (c : ascii) : bool :=
  in_range 48 57 (byte_val c) || in_range 65 90 (byte_val c) || in_range 97 122 (byte_val c).
Definition is_plain (c : ascii) : bool := is_alphanumeric c || bool_decide (c ∈ as_bytes "._~-/").

Definition upper_hex (d : N) : ascii := of_byte (if (d <? 10)%N then 48 + d else 55 + d).

Fixpoint escape (text : string) : string :=
  match text with
  | EmptyString => ""
  | String b text =>
      if is_plain b then String b (escape text)
      else String "%" (String (upper_hex (byte_val b / 16)) (String (upper_hex (byte_val b `mod` 16)) (escape text)))
  end.

Definition args_of {A} (from_value : Value → result A string) (call : string) (args : option Value) :
    result A CallError :=
  map_err (λ e, CallError.new (call +:+ " args: " +:+ e)) (from_value (default (VMap []) args)).

Definition json (call : string) (resp : Response) : CallResult :=
  v ←? map_err (λ e, CallError.new (call +:+ ": the server's reply is not JSON: " +:+ e))
         (json_from_slice (resp_body resp));
  map_err (λ e, CallError.new (call +:+ ": " +:+ e)) (json_to_value v).

(** [v["error"].as_str()]: a value that is no object, or an object without
    the key, has null there. *)
Definition error_text (v : Json) : option string :=
  match v with
  | JObject m => kv ← find_first (λ kv, bool_decide (kv.1 = "error")) m;
                 match kv.2 with JString s => Some s | _ => None end
  | _ => None
  end.

Definition refused (call : string) (resp : Response) : CallError :=
  let said := default "" (match json_from_slice (resp_body resp) with Ok v => error_text v | Err _ => None end) in
  CallError.new (if str_is_empty said then call +:+ ": the server answered " +:+ dec (resp_status resp)
                 else call +:+ ": the server answered " +:+ dec (resp_status resp) +:+ ": " +:+ said).

(** [trim_start_matches("W/")]. *)
Fixpoint trim_weak (s : string) : string :=
  match s with
  | String "W" (String "/" s) => trim_weak s
  | _ => s
  end.

Definition etag_version (resp : Response) : option N :=
  t ← response_header resp "etag";
  parse_unsigned (2 ^ 64) (Cidr.trim_end_matches dquote (Cidr.trim_start_matches dquote (trim_weak t))).

Definition map_ (pairs : list (string * Value)) : Value := VMap ((λ kv, (vstr kv.1, kv.2)) <$> pairs).

Definition conflict (resp : Response) : Value :=
  map_ (("conflict", VBool true)
        :: match etag_version resp with Some v => [("version", vnat v)] | None => [] end).

Definition version_value (resp : Response) : Value :=
  match etag_version resp with Some v => vnat v | None => VNil end.

(** ** The calls *)

Context (wraps : bool) (agent : string) `{!Httparse} `{!Net}.

(** [KvConnector::send]. *)
Definition send (sc : KvScope) (method tail : string) (headers : list (string * string))
    (body : option bytes) (timeout : N) : M Dechunker (result Response CallError) :=
  match Url.parse (base sc +:+ "/kv" +:+ tail) with
  | Err e => mret (Err (CallError.new e))
  | Ok url =>
      let hs := if bool_decide (headers = []) then None
                else Some (foldl (λ m kv, bt_insert (K := string) kv.1 kv.2 m) [] headers) in
      r ← request wraps agent url method hs body (rest sc) timeout;
      mret (map_err (λ e, CallError.new (base sc +:+ ": " +:+ e)) r)
  end.

(** A call's arguments, its request, and what it makes of the response. *)
Definition replied (r : result Response CallError) (answer : Response → CallResult) : CallResult :=
  resp ←? r; answer resp.

Definition if_match (v : N) : string * string := ("if-match", String dquote (dec v +:+ String dquote "")).

Definition get_answer (call : string) (resp : Response) : CallResult :=
  if decide (resp_status resp = 200%N) then
    Ok (map_ [("value", vstr (from_utf8_lossy (resp_body resp))); ("version", version_value resp)])
  else if decide (resp_status resp = 404%N) then Ok VNil
  else Err (refused call resp).

Definition kv_get (sc : KvScope) (call : string) (args : option Value) : M Dechunker CallResult :=
  match args_of key_args_from_value call args with
  | Err e => mret (Err e)
  | Ok a => r ← send sc "GET" ("/" +:+ escape (key a)) [] None TIMEOUT; mret (replied r (get_answer call))
  end.

Definition put_answer (call : string) (resp : Response) : CallResult :=
  if decide (resp_status resp = 200 ∨ resp_status resp = 201)%N then Ok (map_ [("version", version_value resp)])
  else if decide (resp_status resp = 412%N) then Ok (conflict resp)
  else Err (refused call resp).

Definition put_tail (a : PutArgs) : string :=
  let tail := "/" +:+ escape (put_key a) in
  match ttl a with Some n => tail +:+ "?ttl=" +:+ dec n | None => tail end.

Definition put_headers (v : option N) : list (string * string) :=
  match v with
  | Some v => if decide (v = 0%N) then [("if-none-match", "*")] else [if_match v]
  | None => []
  end.

Definition kv_put (sc : KvScope) (call : string) (args : option Value) : M Dechunker CallResult :=
  match args_of put_args_from_value call args with
  | Err e => mret (Err e)
  | Ok a =>
      r ← send sc "PUT" (put_tail a) (put_headers (put_version a)) (Some (as_bytes (value a))) TIMEOUT;
      mret (replied r (put_answer call))
  end.

Definition delete_answer (call : string) (resp : Response) : CallResult :=
  if decide (resp_status resp = 204%N) then Ok (map_ [("deleted", VBool true)])
  else if decide (resp_status resp = 404%N) then Ok (map_ [("deleted", VBool false)])
  else if decide (resp_status resp = 412%N) then Ok (conflict resp)
  else Err (refused call resp).

Definition delete_headers (v : option N) : list (string * string) :=
  match v with Some v => [if_match v] | None => [] end.

Definition kv_delete (sc : KvScope) (call : string) (args : option Value) : M Dechunker CallResult :=
  match args_of key_args_from_value call args with
  | Err e => mret (Err e)
  | Ok a =>
      r ← send sc "DELETE" ("/" +:+ escape (key a)) (delete_headers (version a)) None TIMEOUT;
      mret (replied r (delete_answer call))
  end.

Definition json_answer (call : string) (resp : Response) : CallResult :=
  if decide (resp_status resp = 200%N) then json call resp else Err (refused call resp).

Definition list_query (a : ListArgs) : list string :=
  match list_prefix a with Some p => ["prefix=" +:+ escape p] | None => [] end
  ++ match after a with Some p => ["after=" +:+ escape p] | None => [] end
  ++ match limit a with Some n => ["limit=" +:+ dec n] | None => [] end.
Definition list_tail (a : ListArgs) : string :=
  if bool_decide (list_query a = []) then "" else "?" +:+ String.concat "&" (list_query a).

Definition kv_list (sc : KvScope) (call : string) (args : option Value) : M Dechunker CallResult :=
  match args_of list_args_from_value call args with
  | Err e => mret (Err e)
  | Ok a => r ← send sc "GET" (list_tail a) [] None TIMEOUT; mret (replied r (json_answer call))
  end.

Definition watch_tail (a : WatchArgs) (wait : N) : string :=
  let tail := "?watch=poll&since=" +:+ dec (since a) +:+ "&wait=" +:+ dec wait in
  match watch_prefix a with Some p => tail +:+ "&prefix=" +:+ escape p | None => tail end.

Definition kv_watch (sc : KvScope) (call : string) (args : option Value) : M Dechunker CallResult :=
  match args_of watch_args_from_value call args with
  | Err e => mret (Err e)
  | Ok a =>
      let wait := default WATCH_DEFAULT_MS (wait_ms a) in
      if bool_decide (WATCH_MAX_MS < wait)%N then
        mret (Err (CallError.new ("kv/watch: wait_ms is at most " +:+ dec WATCH_MAX_MS +:+ ", the server's hold")))
      else
        r ← send sc "GET" (watch_tail a wait) [] None (TIMEOUT + wait); mret (replied r (json_answer call))
  end.

(** [KvConnector::call]. *)
Definition call (name : string) (args : option Value) (scope : option Scope) : M Dechunker CallResult :=
  if negb (existsb (λ c, bool_decide (c.1 = name)) CALLS) then
    mret (Err (CallError.new ("'" +:+ name +:+ "' is not a kv call")))
  else
    match parse scope with
    | Err e => mret (Err (CallError.new e))
    | Ok sc =>
        if decide (name = "kv/get") then kv_get sc name args
        else if decide (name = "kv/put") then kv_put sc name args
        else if decide (name = "kv/delete") then kv_delete sc name args
        else if decide (name = "kv/list") then kv_list sc name args
        else if decide (name = "kv/watch") then kv_watch sc name args
        else panic
    end.
End kv.

(** The source's own tests. *)
Example escapes : escape <$> ["bpi/info-2.x_~"; "a b?&"] = ["bpi/info-2.x_~"; "a%20b%3F%26"].
Proof. by vm_compute. Qed.

Example http_urls :
  http_url <$> ["drt://127.0.0.1:1/v1/t"; "drt://localhost/v1/t"; "drt://match.example/v1/t"; "https://x/v1/t"]
  = ["http://127.0.0.1:1/v1/t"; "http://localhost/v1/t"; "https://match.example/v1/t"; "https://x/v1/t"].
Proof. by vm_compute. Qed.

End Kv.

(** Diluvium's [json.encode]. *)
Class JsonText := json_text : Json → string.

Module KvServer.

Definition KV_VALUE_MAX : N := 16384.
Definition KV_KEY_MAX : N := 256.
Definition KV_TOPIC_MAX : N := 64.
Definition KV_TTL_MAX : N := 31536000.
Definition KV_EVENTS_KEPT : N := 1024.

(** ** Requests and replies *)

Record Message := MkMessage {
  method : string;
  target : string;
  m_headers : gmap string string;
  body : string;
}.

Record Reply := MkReply {
  status : N;
  reply_body : string;
  content_type : string;
  reply_headers : gmap string string;
}.

(** [split]: each piece of the query that has a name before an equals sign. *)
Fixpoint after_equals (s : string) : string :=
  match s with
  | String "=" s => after_equals s
  | _ => s
  end.
Definition split (target : string) : string * gmap string string :=
  let '(path, query) := default (target, "") (split_once "?" target) in
  (path, foldl (λ params piece,
           match split_once "=" (after_equals piece) with
           | Some (k, v) => <[ k := v ]> params
           | None => params
           end) ∅ (split_on "&" query)).

(** ** Keys *)

Definition hex_val (c : ascii) : option N :=
  let b := byte_val c in
  if in_range 48 57 b then Some (b - 48)%N
  else if in_range 65 70 b then Some (b - 55)%N
  else if in_range 97 102 b then Some (b - 87)%N
  else None.

Fixpoint kv_unescape (text : string) : string :=
  match text with
  | EmptyString => ""
  | String c s =>
      match c, s with
      | "%"%char, String h (String l s') =>
          match hex_val h, hex_val l with
          | Some a, Some b => String (of_byte (16 * a + b)) (kv_unescape s')
          | _, _ => String c (kv_unescape s)
          end
      | _, _ => String c (kv_unescape s)
      end
  end.

Definition is_word (c : ascii) : bool :=
  let b := byte_val c in in_range 48 57 b || in_range 65 90 b || in_range 97 122 b.
Definition key_char (c : ascii) : bool := is_word c || bool_decide (c ∈ as_bytes "._~/-").
Definition topic_char (c : ascii) : bool := is_word c || bool_decide (c ∈ as_bytes "._~-").

Fixpoint double_slash (s : string) : bool :=
  match s with
  | String "/" (String "/" _) => true
  | String _ s => double_slash s
  | EmptyString => false
  end.

(** [kv_valid_key] of a key. *)
Definition kv_valid_key (key : string) : bool :=
  if str_is_empty key then false
  else if bool_decide (KV_KEY_MAX < N.of_nat (str_len key))%N || negb (forallb key_char (as_bytes key))
          || starts_with key "/" || double_slash key then false
  else forallb (λ segment, negb (bool_decide (segment = "." ∨ segment = ".."))) (split_on "/" key).

(** ** The store *)

Record Row := MkRow { value : string; version : N; expires : N }.

Inductive KvOp := OpPut (version : N) (value : string) | OpDelete.
Record Event := MkEvent { e_topic : string; e_key : string; e_op : KvOp }.

Record Kv := MkKv {
  rows : gmap (string * string) Row;
  revision : N;
  events : gmap N Event;
  oldest : N;
  next_expiry : option N;
}.

(** [kv_open] of an empty database. *)
Definition empty : Kv := MkKv ∅ 0 ∅ 1 None.

Definition kv_row (topic key : string) (wall : N) (kv : Kv) : option Row :=
  r ← rows kv !! (topic, key);
  if bool_decide (0 < expires r ∧ expires r ≤ wall)%N then None else Some r.

(** The loop that forgets the events beyond those that are kept. *)
Fixpoint forget (fuel : nat) (revision : N) (events : gmap N Event) (oldest : N) : gmap N Event * N :=
  match fuel with
  | 0 => (events, oldest)
  | S fuel =>
      if bool_decide (KV_EVENTS_KEPT < revision + 1 - oldest)%N
      then forget fuel revision (delete oldest events) (oldest + 1)%N else (events, oldest)
  end.

Definition kv_commit (e : Event) (statement : gmap (string * string) Row → gmap (string * string) Row) (kv : Kv) : Kv :=
  let revision := (revision kv + 1)%N in
  let '(events, oldest) := forget (N.to_nat (revision + 1 - oldest kv)) revision (<[ revision := e ]> (events kv)) (oldest kv) in
  MkKv (statement (rows kv)) revision events oldest (next_expiry kv).

Definition kv_etag (version : N) : string := String dquote (dec version +:+ String dquote "").

Definition CORS : gmap string string := list_to_map [
  ("access-control-allow-origin", "*");
  ("access-control-allow-methods", "GET, PUT, POST, DELETE, OPTIONS");
  ("access-control-allow-headers", "authorization, content-type, last-event-id, drt-accept, drt-caller-token, if-match, if-none-match");
  ("access-control-expose-headers", "location, retry-after, etag")].

Section replies.
Context `{!JsonText}.

Definition with_ (extra : list (string * string)) : gmap string string :=
  foldl (λ h kv, <[ kv.1 := kv.2 ]> h) CORS extra.

Definition json (status : N) (body : string) (extra : list (string * string)) : Reply :=
  MkReply status body "application/json" (with_ extra).
Definition fail (status : N) (why : string) (extra : list (string * string)) : Reply :=
  json status (json_text (JObject [("error", JString why)])) extra.

(** The reply when the write may not go ahead. *)
Definition strip_weak (s : string) : string := default s (strip_prefix "W/" s).
Definition kv_precondition (m : Message) (row : option Row) : option Reply :=
  let ok :=
    match m_headers m !! "if-match", row with
    | Some match_, Some row => if decide (match_ = "*") then true
                               else bool_decide (strip_weak match_ = kv_etag (version row))
    | Some _, None => false
    | None, _ => true
    end in
  let ok := if ok && bool_decide (m_headers m !! "if-none-match" = Some "*")
            then bool_decide (row = None) else ok in
  if ok then None
  else Some (match row with
             | Some row => fail 412 "the key is at another version" [("etag", kv_etag (version row))]
             | None => fail 412 "no such key" []
             end).

Definition kv_get (topic key : string) (wall : N) (kv : Kv) : Reply :=
  match kv_row topic key wall kv with
  | None => fail 404 "no such key" []
  | Some row => MkReply 200 (value row) "text/plain;charset=utf-8"
                  (with_ [("etag", kv_etag (version row)); ("cache-control", "no-cache")])
  end.

Definition ttl_of (params : gmap string string) : option (option N) :=
  match params !! "ttl" with
  | None => Some None
  | Some t =>
      match parse_digits 0 t with
      | Some n => if str_is_empty t || bool_decide (n < 1 ∨ KV_TTL_MAX < n)%N then None else Some (Some n)
      | None => None
      end
  end.

Definition earlier (expires : N) (next : option N) : option N :=
  if bool_decide (0 < expires)%N
  then match next with
       | Some n => if bool_decide (expires < n)%N then Some expires else Some n
       | None => Some expires
       end
  else next.

Definition kv_put (m : Message) (topic key : string) (params : gmap string string) (wall : N) (kv : Kv) :
    Reply * Kv :=
  if negb (utf8_valid (as_bytes (body m))) then (fail 400 "a value is UTF-8 text" [], kv)
  else if bool_decide (KV_VALUE_MAX < N.of_nat (str_len (body m)))%N then
    (fail 413 ("a value is at most " +:+ dec KV_VALUE_MAX +:+ " bytes") [], kv)
  else
    match ttl_of params with
    | None => (fail 400 ("ttl is whole seconds, 1 to " +:+ dec KV_TTL_MAX) [], kv)
    | Some ttl =>
        let expires := match ttl with Some n => (wall + n * 1000)%N | None => 0%N end in
        let row := kv_row topic key wall kv in
        match kv_precondition m row with
        | Some refusal => (refusal, kv)
        | None =>
            let v := (revision kv + 1)%N in
            let kv := kv_commit (MkEvent topic key (OpPut v (body m)))
                        <[ (topic, key) := MkRow (body m) v expires ]> kv in
            (json (match row with Some _ => 200 | None => 201 end)
               (json_text (JObject [("key", JString key); ("version", JNumber (PosInt v))]))
               [("etag", kv_etag v)],
             MkKv (rows kv) (revision kv) (events kv) (oldest kv) (earlier expires (next_expiry kv)))
        end
    end.

Definition kv_delete (m : Message) (topic key : string) (wall : N) (kv : Kv) : Reply * Kv :=
  let row := kv_row topic key wall kv in
  if bool_decide (row = None ∧ m_headers m !! "if-match" = None) then (fail 404 "no such key" [], kv)
  else
    match kv_precondition m row with
    | Some refusal => (refusal, kv)
    | None => (json 204 "" [], kv_commit (MkEvent topic key OpDelete) (delete (topic, key)) kv)
    end.

(** [kv_route], on a key; [None] is the store's own path, which is listed or
    watched. *)
Definition kv_route (m : Message) (topic rest : string) (params : gmap string string) (wall : N) (kv : Kv) :
    option (Reply * Kv) :=
  if bool_decide (KV_TOPIC_MAX < N.of_nat (str_len topic))%N || negb (forallb topic_char (as_bytes topic)) then
    Some (fail 400 "a malformed topic" [], kv)
  else
    match kv_unescape rest with
    | "" | "/" =>
        if decide (method m = "GET") then None
        else Some (fail 405 "the kv itself is listed or watched, with GET" [], kv)
    | String _ key =>
        if negb (kv_valid_key key) then
          Some (fail 400 ("a key is 1 to " +:+ dec KV_KEY_MAX
                  +:+ " of A-Z a-z 0-9 . _ ~ - and /, with no empty, . or .. segment") [], kv)
        else if decide (method m = "GET") then Some (kv_get topic key wall kv, kv)
        else if decide (method m = "PUT") then Some (kv_put m topic key params wall kv)
        else if decide (method m = "DELETE") then Some (kv_delete m topic key wall kv)
        else Some (fail 405 "a key takes GET, PUT or DELETE" [], kv)
    end.

(** The branch of [route] that is the store's: [/v1/<topic>/kv] and what
    follows it. *)
Definition kv_path (path : string) : option (string * string) :=
  r ← strip_prefix "/v1/" path;
  '(topic, r) ← split_once "/" r;
  rest ← strip_prefix "kv" r;
  if str_is_empty topic || negb (str_is_empty rest || starts_with rest "/") then None else Some (topic, rest).

Definition route (m : Message) (wall : N) (kv : Kv) : option (Reply * Kv) :=
  let '(path, params) := split (target m) in
  if decide (method m = "OPTIONS") then Some (json 204 "" [], kv)
  else '(topic, rest) ← kv_path path; kv_route m topic rest params wall kv.
End replies.

End KvServer.
