(* ===== verification/KvSpec.v ===== *)
(** * What the kv connector promises

    The request each call writes is the topic's, and the server that reads it
    and the connector that reads its reply make a map with versions of the
    topic. *)

From stdpp Require Import gmap.
From S2P Require Import Prelude.
From S2P Require Import Bytes.
From S2P Require Import Value.
From S2P Require Import Node.
From S2P Require Import Caps.
From S2P Require Import Connector.
From S2P Require Import Reach.
From S2P Require Import Canon.
From S2P Require Import Rest.
From S2P Require Import RestBody.
From S2P Require Import RestSpec.
From S2P Require Import Kv.

Module KvFacts.
Import Rest RestBody RestFacts.

(** A call's arguments as the value they are read from. *)
Definition expecting (v : option N) : list (Value * Value) :=
  match v with Some v => [(vstr "version", vnat v)] | None => [] end.
Definition key_value (k : string) (v : option N) : Value := VMap ((vstr "key", vstr k) :: expecting v).
Definition put_value (k value : string) (v : option N) : Value :=
  VMap ((vstr "key", vstr k) :: (vstr "value", vstr value) :: expecting v).
Definition is_text (s : string) : Prop := utf8_valid (as_bytes s) = true.
Definition fits (v : option N) : Prop := ∀ n, v = Some n → (n < 2 ^ 64)%N.

(** The derived readers, of the rest scope [Kv.rest_value] makes and of the
    arguments of a call. *)
Class KvLaws `{!RestWire} `{!Kv.KvWire} : Prop := {
  reads_key_args k v : is_text k → fits v → Kv.key_args_from_value (key_value k v) = Ok (Kv.MkKeyArgs k v);
  reads_put_args k value v : is_text k → is_text value → fits v →
    Kv.put_args_from_value (put_value k value v) = Ok (Kv.MkPutArgs k value None v);
  reads_rest_value origin token roots :
    shape_from_value (Kv.rest_value origin token roots)
    = Ok (Full [Table origin match token with Some t => [("authorization", Text ("Bearer " +:+ t))] | None => [] end None]
            true roots);
}.

(** ** URLs *)

Lemma strip_prefix_more p a r s : strip_prefix p a = Some r → strip_prefix p (a +:+ s) = Some (r +:+ s).
Proof. rewrite !strip_prefix_Some. intros ->. by rewrite str_app_assoc. Qed.

Lemma split_once_more c a l r s : split_once c a = Some (l, r) → split_once c (a +:+ s) = Some (l, r +:+ s).
Proof.
  revert l r. induction a as [|x a IH]; intros l r; [done|].
  change (String x a +:+ s) with (String x (a +:+ s)). cbn [split_once].
  destruct (bool_decide (x = c)); [by intros [= <- <-]|].
  destruct (split_once c a) as [[l' r']|]; [|done]. intros [= <- <-]. by rewrite (IH l' r').
Qed.

Lemma scheme_more raw tls rest s :
  Url.scheme_of raw = Ok (tls, rest) → Url.scheme_of (raw +:+ s) = Ok (tls, rest +:+ s).
Proof.
  unfold Url.scheme_of. destruct (strip_prefix "https://" raw) as [r|] eqn:E.
  - intros [= <- <-]. by rewrite (strip_prefix_more _ _ _ _ E).
  - destruct (strip_prefix "http://" raw) as [r|] eqn:E'; [|done]. intros [= <- <-].
    rewrite (strip_prefix_more _ _ _ _ E'). apply strip_prefix_Some in E' as ->. done.
Qed.

(** What is written behind a URL with a path is behind its path. *)
Lemma parse_more raw u s :
  Url.parse raw = Ok u → Url.path u ≠ "/" →
  Url.parse (raw +:+ s) = Ok (Url.MkUrl (Url.tls u) (Url.host u) (Url.port u) (Url.path u +:+ s)).
Proof.
  unfold Url.parse. destruct (Url.scheme_of raw) as [[tls rest]|] eqn:Hs; [|done].
  rewrite (scheme_more _ _ _ _ Hs). cbn [rbind]. unfold Url.authority_of.
  destruct (split_once "/" rest) as [[a p]|] eqn:E.
  - rewrite (split_once_more _ _ _ _ _ E). destruct (str_is_empty a), (contains_char "@" a); try done.
    destruct (Url.port_of tls a) as [[h n]|]; [|done]. cbn [rbind fst snd]. by intros [= <-] _.
  - destruct (str_is_empty rest), (contains_char "@" rest); try done.
    destruct (Url.port_of tls rest) as [[h n]|]; [|done]. cbn [rbind fst snd]. by intros [= <-].
Qed.

Lemma trim_brackets_suffix l : Url.trim_brackets l `suffix_of` l.
Proof.
  induction l as [|c l IH]; [done|]. cbn. case_bool_decide; [|done]. by apply suffix_cons_r.
Qed.

Lemma trim_brackets_head l : match Url.trim_brackets l with c :: _ => c ≠ "["%char ∧ c ≠ "]"%char | [] => True end.
Proof. induction l as [|c l IH]; [done|]. cbn. case_bool_decide as Hc; [done|]. naive_solver. Qed.

Lemma trim_brackets_id c l : c ≠ "["%char → c ≠ "]"%char → Url.trim_brackets (c :: l) = c :: l.
Proof. intros H1 H2. cbn. by rewrite bool_decide_false by naive_solver. Qed.

Lemma unbracket_id h : Url.unbracket (Url.unbracket h) = Url.unbracket h.
Proof.
  unfold Url.unbracket. rewrite !as_of_bytes. f_equal.
  set (x := Url.trim_brackets (as_bytes h)). set (y := Url.trim_brackets (reverse x)).
  assert (Hy : Url.trim_brackets (reverse y) = reverse y).
  { pose proof (trim_brackets_head (as_bytes h)) as Hx. fold x in Hx.
    destruct (trim_brackets_suffix (reverse x)) as [k Hk]. fold y in Hk.
    apply (f_equal reverse) in Hk. rewrite reverse_involutive, reverse_app in Hk.
    destruct (reverse y) as [|c r]; [done|]. rewrite Hk in Hx. destruct Hx. by apply trim_brackets_id. }
  rewrite Hy, reverse_involutive.
  pose proof (trim_brackets_head (reverse x)) as Hx. fold y in Hx.
  destruct y as [|c r]; [done|]. destruct Hx. by rewrite trim_brackets_id.
Qed.

Lemma unbracket_char c h : contains_char c h = false → contains_char c (Url.unbracket h) = false.
Proof.
  unfold contains_char. rewrite !bool_decide_eq_false. unfold Url.unbracket. rewrite as_of_bytes.
  intros Hc Hin. apply Hc. apply elem_of_reverse in Hin.
  destruct (trim_brackets_suffix (reverse (Url.trim_brackets (as_bytes h)))) as [k Hk].
  assert (Hin' : c ∈ reverse (Url.trim_brackets (as_bytes h))) by (rewrite Hk; set_solver).
  apply elem_of_reverse in Hin'. destruct (trim_brackets_suffix (as_bytes h)) as [k' Hk']. rewrite Hk'. set_solver.
Qed.

Lemma scheme_origin tls h rest :
  Url.scheme_of ((if tls : bool then "https" else "http") +:+ "://" +:+ h +:+ rest) = Ok (tls, h +:+ rest).
Proof.
  unfold Url.scheme_of. destruct tls.
  - change ("https" +:+ "://" +:+ ?x) with ("https://" +:+ x). by rewrite strip_prefix_app.
  - change ("http" +:+ "://" +:+ ?x) with ("http://" +:+ x). by rewrite strip_prefix_app.
Qed.

Lemma port_bound tls a h n : Url.port_of tls a = Ok (h, n) → (n < 65536)%N.
Proof.
  assert (Hd : (Url.default_port tls < 65536)%N) by by destruct tls.
  unfold Url.port_of. destruct (rsplit_once ":" a) as [[x p]|]; [|by intros [= _ <-]].
  destruct (_ && _); [|by intros [= _ <-]].
  destruct (parse_unsigned 65536 p) as [m|] eqn:E; [|done]. intros [= _ <-]. by eapply parse_unsigned_bound.
Qed.

Lemma port_host tls a h n c : Url.port_of tls a = Ok (h, n) → contains_char c a = false → contains_char c h = false.
Proof.
  unfold Url.port_of. destruct (rsplit_once ":" a) as [[x p]|] eqn:E; [|by intros [= <- _]].
  destruct (_ && _); [|by intros [= <- _]].
  destruct (parse_unsigned 65536 p) as [m|]; [|done]. intros [= <- _].
  apply rsplit_once_Some in E as ->. rewrite contains_char_app. by intros [? _]%orb_false_iff.
Qed.

(** The origin of a URL is read back as that URL's, without its path. *)
Lemma origin_parse raw u :
  Url.parse raw = Ok u → Url.host u ≠ "" →
  Url.parse (Url.origin u) = Ok (Url.MkUrl (Url.tls u) (Url.host u) (Url.port u) "/").
Proof.
  unfold Url.parse at 1. destruct (Url.scheme_of raw) as [[tls rest]|]; [|done]. cbn [rbind].
  destruct (Url.authority_of rest) as [a p] eqn:Ha. destruct (str_is_empty a); [done|].
  destruct (contains_char "@" a) eqn:Hat; [done|].
  destruct (Url.port_of tls a) as [[h n]|] eqn:Hp; [|done]. cbn [rbind fst snd]. intros [= <-] Hne.
  cbn [Url.host Url.tls Url.port] in *.
  assert (Hsl : contains_char "/" a = false).
  { unfold Url.authority_of in Ha. destruct (split_once "/" rest) as [[a' p']|] eqn:E; injection Ha as <- _.
    - by eapply split_once_head.
    - by apply split_once_None. }
  pose proof (port_bound _ _ _ _ Hp) as Hn.
  pose proof (unbracket_char "/" h (port_host _ _ _ _ _ Hp Hsl)) as Hsl'.
  pose proof (unbracket_char "@" h (port_host _ _ _ _ _ Hp Hat)) as Hat'.
  pose proof (unbracket_id h) as Hid. revert Hne Hsl' Hat' Hid. generalize (Url.unbracket h). clear -Hn.
  intros h Hne Hsl Hat Hid. unfold Url.origin. cbn [Url.host Url.tls Url.port].
  unfold Url.parse. rewrite scheme_origin. cbn [rbind]. unfold Url.authority_of.
  rewrite (proj2 (split_once_None _ _)).
  2: { rewrite contains_char_app, Hsl. by rewrite contains_char_app, dec_no_char. }
  assert (He : str_is_empty (h +:+ ":" +:+ dec n) = false) by (apply bool_decide_eq_false; by destruct h).
  rewrite He. rewrite contains_char_app, Hat, contains_char_app, dec_no_char by done. cbn [orb].
  change (contains_char "@" ":") with false. cbn iota. unfold Url.port_of.
  change (":" +:+ dec n) with (String ":" (dec n)). rewrite (rsplit_once_app ":" h (dec n)) by by apply dec_no_char.
  rewrite bool_decide_false.
  - unfold str_is_empty. rewrite bool_decide_false by done. cbn [negb andb].
    rewrite parse_unsigned_dec by done. cbn [rbind fst snd]. by rewrite Hid.
  - intros [k Hk]. rewrite !as_bytes_app in Hk.
    change (as_bytes (String ":" ?s)) with ([":"%char] ++ as_bytes s) in Hk. rewrite (assoc_L (++)) in Hk.
    pose proof (dec_digits n) as Hd. pose proof (dec_not_empty n) as Hne'.
    destruct (as_bytes (dec n)) as [|d ds _] eqn:E using rev_ind; [by apply Hne', as_bytes_inj|].
    rewrite (assoc_L (++)) in Hk. apply app_inj_tail in Hk as [_ ->].
    apply Forall_app in Hd as [_ [[x Hx] _]%Forall_cons]. done.
Qed.

(** ** The scope *)

Definition injected (token : option string) : Headers :=
  match token with Some t => [("authorization", "Bearer " +:+ t)] | None => [] end.
Definition topic_entry (u : Url.Url) (token : option string) : AllowEntry :=
  MkAllowEntry (Url.MkUrl (Url.tls u) (Url.host u) (Url.port u) "/") (injected token) None.

(** What a parsed scope is: a topic's URL and a grant of its origin alone. *)
Record grants_topic `{!Pem} (sc : Kv.KvScope) (u : Url.Url) (topic : string) (token : option string) : Prop := {
  gt_url : Url.parse (Kv.base sc) = Ok u;
  gt_path : Url.path u = "/v1/" +:+ topic;
  gt_allow : allow (Kv.rest sc) = [topic_entry u token];
  gt_token : entry_ok (topic_entry u token);
}.

Section scope.
Context `{!Env} `{!Pem} `{!RestWire} `{!Kv.KvWire} `{!KvLaws}.

Lemma rest_of u token roots sc :
  Rest.parse (Some (MkScope (Kv.rest_value (Url.origin u) token roots))) = Ok sc →
  Url.parse (Url.origin u) = Ok (Url.MkUrl (Url.tls u) (Url.host u) (Url.port u) "/") →
  allow sc = [topic_entry u token] ∧ entry_ok (topic_entry u token).
Proof.
  unfold Rest.parse. cbn [scope_value]. rewrite reads_rest_value. cbn [map_err rbind].
  intros (certs & _ & (es & He & [= <-])%rbind_Ok)%rbind_Ok Hu. cbn [allow].
  cbn [try_map] in He. apply rbind_Ok in He as (e & He & [= <-]).
  pose proof (entry_of_ok _ _ He) as Hok. unfold entry_of in He. rewrite Hu in He. cbn [map_err rbind] in He.
  apply rbind_Ok in He as (hs & Hhs & [= <-]).
  assert (hs = injected token) as ->; [|done].
  destruct token as [t|]; cbn [lower_headers] in Hhs; [|by injection Hhs].
  cbn [resolve_value rbind] in Hhs. destruct (_ || _ || _ || _) in Hhs; [done|].
  change (is_reserved (lowercase "authorization")) with false in Hhs. by injection Hhs.
Qed.

Lemma parse_grants scope sc u :
  Kv.parse scope = Ok sc → Url.parse (Kv.base sc) = Ok u → Url.host u ≠ "" →
  ∃ topic token, grants_topic sc u topic token
    ∧ topic ≠ "" ∧ contains_char "/" topic = false ∧ contains_char "?" topic = false.
Proof.
  unfold Kv.parse. destruct scope as [[v]|]; [|done]. intros (shape & _ & Hrun)%rbind_Ok.
  destruct (match shape with Kv.UrlShape _ => _ | Kv.FullShape _ _ _ => _ end) as [[url tok] roots].
  cbn zeta in Hrun. apply rbind_Ok in Hrun as (u' & Hu & Hrun).
  destruct (Url.parse (Kv.http_url _)) as [u''|] eqn:Hp; [|done]. injection Hu as ->.
  destruct (_ || _ || _ || _) eqn:Ht in Hrun; [done|].
  rewrite !orb_false_iff in Ht. destruct Ht as [[[He Hs] Hq] _].
  apply rbind_Ok in Hrun as (token & _ & Hrun). apply rbind_Ok in Hrun as (rest & Hrest & [= <-]).
  cbn [Kv.base Kv.rest]. rewrite Hp. intros [= <-] Hne. apply bool_decide_eq_false in He.
  destruct (strip_prefix "/v1/" (Url.path u')) as [topic|] eqn:E; [|done]. apply strip_prefix_Some in E.
  destruct (rest_of _ _ _ _ Hrest (origin_parse _ _ Hp Hne)) as [Ha Hok].
  exists topic, token. by split_and!.
Qed.
End scope.

(** ** The request *)

Section wire.
Context `{!Pem} (wraps : bool) (agent : string) `{!Httparse} `{!Net}.
Context (sc : Kv.KvScope) (u : Url.Url) (topic : string) (token : option string).
Context (Hsc : grants_topic sc u topic token).

Definition asked_url (tail : string) : Url.Url :=
  Url.MkUrl (Url.tls u) (Url.host u) (Url.port u) (Url.path u +:+ "/kv" +:+ tail).

Definition asked (method tail : string) (hs : list (string * string)) (body : option bytes) : result bytes string :=
  request_bytes agent (asked_url tail) method (if bool_decide (hs = []) then None else Some hs) body
    (topic_entry u token).

(** What becomes of a request that is written to the topic's server. *)
Definition delivered (req : bytes) : M Dechunker (option (result Response string)) :=
  match dial u (Kv.rest sc) with
  | Err e => mret (Some (Err e))
  | Ok stream =>
      if Url.tls u then
        match tls_connect (extra_roots (Kv.rest sc)) (Url.host u) stream with
        | None => mret (Some (Err "tls"))
        | Some tls => exchange wraps tls req
        end
      else exchange wraps stream req
  end.

Lemma host_matches_self h : host_matches h h = true.
Proof.
  unfold host_matches. destruct (strip_prefix "*." h) as [s|] eqn:E.
  - apply strip_prefix_Some in E as ->. rewrite (proj2 (strip_suffix_Some s ("*." +:+ s) "*.")) by done. done.
  - unfold eq_ignore_ascii_case. by rewrite bool_decide_true.
Qed.

Lemma covers_topic tail : covers (asked_url tail) (topic_entry u token) = true.
Proof.
  unfold covers, asked_url, topic_entry. cbn [origin Url.tls Url.port Url.host].
  by rewrite !bool_decide_true, host_matches_self.
Qed.

(** A request of the connector is the request it asks for, delivered. *)
Lemma send_is method tail hs body ms req :
  length hs ≤ 1 → asked method tail hs body = Ok req →
  Kv.send wraps agent sc method tail hs body ms
  = (r ← in_time ms (delivered req); mret (map_err (λ e, CallError.new (Kv.base sc +:+ ": " +:+ e)) r)).
Proof.
  intros Hhs Hreq. unfold Kv.send.
  rewrite (parse_more _ u) by (apply Hsc || rewrite (gt_path _ _ _ _ Hsc); done).
  change (Url.MkUrl _ _ _ _) with (asked_url tail). cbn zeta.
  unfold request, matching. rewrite (gt_allow _ _ _ _ Hsc). cbn [find_first]. rewrite covers_topic.
  assert (Hl : foldl (λ m kv, bt_insert (K := string) kv.1 kv.2 m) [] hs = hs).
  { destruct hs as [|[n v] [|]]; [done..|cbn in Hhs; lia]. }
  rewrite Hl. unfold fetch. unfold asked in Hreq. rewrite Hreq. done.
Qed.
(** A request as the server has it: its first line, its headers by name and
    what follows them. *)
Definition header_of (l : bytes) : option (string * string) :=
  '(n, v) ← split_once ":" (of_bytes l); Some (n, default v (strip_prefix " " v)).
Definition message_of (req : bytes) : option KvServer.Message :=
  '(ls, rest) ← read_lines (S (length req)) req;
  first ← head ls;
  '(method, r) ← split_once " " (of_bytes first);
  '(target, _) ← split_once " " r;
  Some (KvServer.MkMessage method target (list_to_map (omap header_of (tail ls))) (of_bytes rest)).

(** The conditions a call puts on a write. *)
Inductive condition : list (string * string) → Prop :=
  | no_condition : condition []
  | if_absent : condition [("if-none-match", "*")]
  | if_version v : condition [Kv.if_match v].

Lemma if_match_newline v : has_newline (Kv.if_match v).2 = false.
Proof.
  apply has_newline_false. cbn [Kv.if_match snd].
  change (no_newline (as_bytes (String dquote "" +:+ dec v +:+ String dquote ""))).
  rewrite !no_newline_str. split_and!; [by apply has_newline_false|apply dec_no_newline|by apply has_newline_false].
Qed.

Lemma condition_lines hs :
  condition hs → guest_lines (topic_entry u token) hs = Ok (injected_lines hs).
Proof.
  destruct 1 as [| |v]; cbn [guest_lines]; [done|by destruct token|].
  pose proof (if_match_newline v) as Hv. destruct (Kv.if_match v) as [n w] eqn:E. cbn [snd] in Hv.
  rewrite Hv. injection E as <- _. by destruct token.
Qed.

Lemma read_lines_more k fuel s r : read_lines fuel s = Some r → read_lines (fuel + k) s = Some r.
Proof.
  revert s r. induction fuel as [|fuel IH]; intros s r; [done|]. cbn [read_lines Nat.add].
  destruct (find_crlf s) as [[|eol]|]; [done| |done].
  destruct (read_lines fuel _) as [[ls rest]|] eqn:E; [|done]. by rewrite (IH _ _ E).
Qed.

Lemma lines_text_length ls tail : length ls ≤ length (lines_text ls tail).
Proof. induction ls as [|l ls IH]; [cbn; lia|]. cbn [lines_text]. rewrite length_app. cbn. lia. Qed.

Lemma header_line n v : contains_char ":" n = false → header_of (line_text (n, v)) = Some (n, v).
Proof.
  intros Hn. unfold header_of, line_text. cbn [fst snd]. rewrite of_as_bytes.
  change (n +:+ ": " +:+ v) with (n +:+ String ":" (" " +:+ v)). rewrite split_once_app by done.
  cbn. by rewrite strip_prefix_app.
Qed.

Lemma header_lines hs :
  Forall (λ nv, contains_char ":" nv.1 = false) hs → omap header_of (line_text <$> hs) = hs.
Proof.
  induction hs as [|[n v] hs IH]; [done|]. intros [Hn Hhs]%Forall_cons.
  cbn [fmap list_fmap omap list_omap]. by rewrite header_line, IH.
Qed.

(** The headers of a request. *)
Definition sent_headers (hs : list (string * string)) (body : option bytes) : list (string * string) :=
  own_lines u ++ hs ++ injected token
  ++ ("user-agent", "drt/" +:+ agent)
     :: match body with Some b => [("content-length", dec (N.of_nat (length b)))] | None => [] end.

Lemma asked_reads method tail hs body :
  condition hs → one_line u → has_newline agent = false → has_newline method = false → has_newline tail = false →
  contains_char " " method = false → contains_char " " (Url.path u +:+ "/kv" +:+ tail) = false →
  ∃ req, asked method tail hs body = Ok req
    ∧ message_of req = Some (KvServer.MkMessage method (Url.path u +:+ "/kv" +:+ tail)
                               (list_to_map (sent_headers hs body)) (of_bytes (default [] body))).
Proof.
  intros Hc [Hh Hp] Hagent Hm Ht Hsm Hst. unfold asked.
  set (hs' := if bool_decide (hs = []) then None else Some hs).
  assert (Hreq : ∃ req, request_bytes agent (asked_url tail) method hs' body (topic_entry u token) = Ok req).
  { unfold request_bytes, hs'. destruct Hc as [| |v]; [by eexists|..];
      rewrite bool_decide_false by done; cbn [length]; rewrite bool_decide_false by (unfold REQ_HEADERS; lia);
      rewrite condition_lines by constructor; by eexists. }
  destruct Hreq as [req Hreq]. exists req. split; [done|].
  destruct (request_lines _ _ _ _ _ _ _ Hreq) as (guest & Hg & Hgs & _ & ->).
  assert (guest = hs) as ->.
  { unfold hs' in Hg. destruct Hc; cbn in Hg; inversion Hg as [|? ? ? ? Hl Hr]; subst; [done|..];
      inversion Hr; subst; by rewrite Hl. }
  assert (Hclose : closing_lines agent hs' body (topic_entry u token)
    = ("user-agent", "drt/" +:+ agent)
      :: match body with Some b => [("content-length", dec (N.of_nat (length b)))] | None => [] end).
  { unfold closing_lines, hs'. destruct Hc; by destruct token. }
  set (ls := as_bytes _ :: _).
  assert (Hurl : one_line (asked_url tail)).
  { split; [done|]. apply has_newline_false in Hp, Ht. apply has_newline_false.
    cbn [asked_url Url.path]. rewrite !no_newline_str. split_and!; try done; by apply has_newline_false. }
  assert (Hls : Forall (λ l, no_newline l ∧ l ≠ []) ls).
  { apply Forall_cons. split.
    - destruct Hurl as [_ Hpath]. apply has_newline_false in Hm, Hpath. split.
      + rewrite !no_newline_str. split_and!; try done; by apply has_newline_false.
      + rewrite !as_bytes_app. by destruct (as_bytes method).
    - rewrite !fmap_app, !Forall_app. split_and!; [by apply own_ok| | |by apply closing_ok].
      + apply pairs_ok. eapply Forall_impl; [exact Hgs|]. by intros nv (_ & _ & ?).
      + pose proof (gt_token _ _ _ _ Hsc) as Hok. apply pairs_ok. eapply Forall_impl; [exact Hok|]. by intros nv (_ & ?). }
  pose proof (read_lines_text ls (default [] body) Hls) as Hr. unfold message_of.
  pose proof (lines_text_length ls (CR :: LF :: default [] body)) as Hlen.
  apply (read_lines_more (length (lines_text ls (CR :: LF :: default [] body)) - length ls)) in Hr.
  replace (S (length ls) + _) with (S (length (lines_text ls (CR :: LF :: default [] body)))) in Hr by lia.
  rewrite Hr. cbn [mbind option_bind head ls]. rewrite of_as_bytes.
  change (method +:+ " " +:+ ?x) with (method +:+ String " " x). rewrite split_once_app by done. cbn [mbind option_bind].
  change (?p +:+ " HTTP/1.1") with (p +:+ String " " "HTTP/1.1"). cbn [asked_url Url.path].
  rewrite split_once_app by done. cbn [mbind option_bind].
  assert (Htl : list.tail ls = line_text <$> sent_headers hs body).
  { unfold ls. cbn [list.tail]. rewrite Hclose. done. }
  rewrite Htl, header_lines; [done|]. unfold sent_headers. rewrite !Forall_app. split_and!.
  - repeat constructor.
  - destruct Hc; repeat constructor.
  - destruct token; repeat constructor.
  - destruct body; repeat constructor.
Qed.
End wire.

(** ** Keys in a URL *)

Lemma hex_pair c :
  KvServer.hex_val (Kv.upper_hex (byte_val c / 16)) = Some (byte_val c / 16)%N
  ∧ KvServer.hex_val (Kv.upper_hex (byte_val c `mod` 16)) = Some (byte_val c `mod` 16)%N
  ∧ Kv.is_plain (Kv.upper_hex (byte_val c / 16)) = true
  ∧ Kv.is_plain (Kv.upper_hex (byte_val c `mod` 16)) = true.
Proof. destruct c as [[] [] [] [] [] [] [] []]; by vm_compute. Qed.

Lemma plain_not_percent c : Kv.is_plain c = true → c ≠ "%"%char.
Proof. by intros Hc ->. Qed.

Lemma unescape_plain c s : c ≠ "%"%char → KvServer.kv_unescape (String c s) = String c (KvServer.kv_unescape s).
Proof. intros Hc. destruct c as [[] [] [] [] [] [] [] []]; done. Qed.

(** A key comes out of a URL as it went in, whatever bytes it has. *)
Lemma unescape_escape k : KvServer.kv_unescape (Kv.escape k) = k.
Proof.
  induction k as [|c k IH]; [done|]. cbn [Kv.escape]. destruct (Kv.is_plain c) eqn:Hc.
  - rewrite unescape_plain by by apply plain_not_percent. by rewrite IH.
  - cbn [KvServer.kv_unescape]. destruct (hex_pair c) as (H1 & H2 & _ & _). rewrite H1, H2, IH. f_equal.
    rewrite <-N.div_mod by done. apply of_byte_val.
Qed.

Lemma escape_free c k : Kv.is_plain c = false → c ≠ "%"%char → contains_char c (Kv.escape k) = false.
Proof.
  intros Hc Hp. induction k as [|b k IH]; [done|]. cbn [Kv.escape]. destruct (Kv.is_plain b) eqn:Hb.
  - rewrite contains_char_cons, IH, bool_decide_false; [done|congruence].
  - destruct (hex_pair b) as (_ & _ & H1 & H2).
    rewrite !contains_char_cons, IH, !bool_decide_false by congruence. done.
Qed.

(** ** The server's reading of it *)

Definition valid_topic (topic : string) : Prop :=
  topic ≠ "" ∧ (N.of_nat (str_len topic) ≤ KvServer.KV_TOPIC_MAX)%N ∧ forallb KvServer.topic_char (as_bytes topic) = true.

Lemma topic_free c topic : valid_topic topic → KvServer.topic_char c = false → contains_char c topic = false.
Proof.
  intros (_ & _ & Ht) Hc. apply bool_decide_eq_false. intros Hin. rewrite forallb_forall in Ht.
  specialize (Ht c). rewrite <-list_elem_of_In in Ht. specialize (Ht Hin). congruence.
Qed.

Definition key_path (topic key : string) : string := "/v1/" +:+ topic +:+ "/kv" +:+ "/" +:+ Kv.escape key.

Lemma key_path_free c topic key :
  valid_topic topic → KvServer.topic_char c = false → Kv.is_plain c = false → c ≠ "%"%char →
  contains_char c (key_path topic key) = false.
Proof.
  intros Ht Hc Hp Hn. unfold key_path. rewrite !contains_char_app, escape_free, (topic_free c topic) by done.
  rewrite !orb_false_r. destruct c as [[] [] [] [] [] [] [] []]; done.
Qed.

Lemma key_path_reads topic key :
  valid_topic topic →
  KvServer.split (key_path topic key) = (key_path topic key, ∅)
  ∧ KvServer.kv_path (key_path topic key) = Some (topic, "/" +:+ Kv.escape key).
Proof.
  intros Ht. split.
  - unfold KvServer.split. rewrite (proj2 (split_once_None _ _)) by by apply key_path_free. done.
  - unfold KvServer.kv_path, key_path. rewrite strip_prefix_app. cbn [mbind option_bind].
    change (topic +:+ "/kv" +:+ "/" +:+ ?x) with (topic +:+ String "/" ("kv" +:+ "/" +:+ x)).
    rewrite split_once_app by by apply topic_free. cbn [mbind option_bind].
    rewrite strip_prefix_app. cbn [mbind option_bind]. unfold str_is_empty.
    rewrite bool_decide_false by apply Ht. by rewrite (proj2 (starts_with_iff _ "/")) by by eexists.
Qed.

Section server.
Context `{!JsonText}.

Definition serve (wall : N) (req : bytes) (kv : KvServer.Kv) : option (KvServer.Reply * KvServer.Kv) :=
  m ← message_of req; KvServer.route m wall kv.

Lemma route_key m topic key wall kv :
  valid_topic topic → KvServer.kv_valid_key key = true → KvServer.target m = key_path topic key →
  KvServer.method m ∈ ["GET"; "PUT"; "DELETE"] →
  KvServer.route m wall kv
  = if decide (KvServer.method m = "GET") then Some (KvServer.kv_get topic key wall kv, kv)
    else if decide (KvServer.method m = "PUT") then Some (KvServer.kv_put m topic key ∅ wall kv)
    else Some (KvServer.kv_delete m topic key wall kv).
Proof.
  intros Ht Hk Htar Hm. destruct (key_path_reads topic key Ht) as [Hs Hp].
  unfold KvServer.route. rewrite Htar, Hs. rewrite decide_False by (intros Heq; rewrite Heq in Hm; set_solver).
  rewrite Hp. cbn [mbind option_bind]. unfold KvServer.kv_route.
  destruct Ht as (_ & Hlen & Hall). rewrite bool_decide_false, Hall by lia. cbn [negb orb].
  change ("/" +:+ Kv.escape key) with (String "/" (Kv.escape key)). rewrite unescape_plain, unescape_escape by done.
  destruct key as [|c key]; [done|]. rewrite Hk. cbn [negb].
  repeat destruct (decide _); try done. exfalso. set_solver.
Qed.
End server.

(** ** A reply, read back *)

Lemma etag_reads resp v :
  response_header resp "etag" = Some (KvServer.kv_etag v) → (v < 2 ^ 64)%N → Kv.etag_version resp = Some v.
Proof.
  intros Hr Hv. unfold Kv.etag_version. rewrite Hr. cbn [mbind option_bind]. unfold KvServer.kv_etag.
  change (Kv.trim_weak (String dquote ?x)) with (String dquote x).
  pose proof (dec_digits v) as Hd. pose proof (dec_not_empty v) as Hne.
  assert (Hq : ∀ c, is_digit c → c ≠ dquote) by by intros c [x Hx] ->.
  assert (H1 : Cidr.trim_start_matches dquote (String dquote (dec v +:+ String dquote "")) = dec v +:+ String dquote "").
  { cbn [Cidr.trim_start_matches]. rewrite bool_decide_true by done.
    destruct (dec v) as [|c d]; [done|]. apply Forall_cons in Hd as [Hc _].
    change (String c d +:+ String dquote "") with (String c (d +:+ String dquote "")).
    cbn [Cidr.trim_start_matches]. by rewrite bool_decide_false by by apply Hq. }
  rewrite H1. unfold Cidr.trim_end_matches. rewrite as_bytes_app, reverse_app.
  change (of_bytes (reverse (as_bytes (String dquote "")) ++ ?l)) with (String dquote (of_bytes l)).
  cbn [Cidr.trim_start_matches]. rewrite bool_decide_true by done.
  assert (H2 : Cidr.trim_start_matches dquote (of_bytes (reverse (as_bytes (dec v)))) = of_bytes (reverse (as_bytes (dec v)))).
  { assert (Hrev : Forall is_digit (reverse (as_bytes (dec v)))) by by apply Forall_reverse.
    destruct (reverse (as_bytes (dec v))) as [|c d]; [done|]. apply Forall_cons in Hrev as [Hc _].
    change (of_bytes (c :: d)) with (String c (of_bytes d)).
    cbn [Cidr.trim_start_matches]. by rewrite bool_decide_false by by apply Hq. }
  rewrite H2, as_of_bytes, reverse_involutive, of_as_bytes. by apply parse_unsigned_dec.
Qed.

(** ** The specification: a map with versions

    A key has its value and the version of the write that put it there; a
    write that names a version goes ahead over that version only, and one
    that names zero only where there is nothing. *)
Inductive Op :=
  | Get (key : string)
  | Put (key value : string) (expected : option N)
  | Delete (key : string) (expected : option N).

Record Cas := MkCas { entries : gmap string (string * N); clock : N }.

Definition lost (current : option N) : Value :=
  Kv.map_ (("conflict", VBool true) :: match current with Some v => [("version", vnat v)] | None => [] end).

Definition admits (expected current : option N) : bool :=
  match expected with
  | None => true
  | Some n => if decide (n = 0)%N then bool_decide (current = None) else bool_decide (current = Some n)
  end.

Definition promised (op : Op) (m : Cas) : Value * Cas :=
  match op with
  | Get k =>
      (match entries m !! k with
       | Some (value, v) => Kv.map_ [("value", vstr value); ("version", vnat v)]
       | None => VNil
       end, m)
  | Put k value expected =>
      let current := snd <$> entries m !! k in
      if admits expected current then
        (Kv.map_ [("version", vnat (clock m + 1))],
         MkCas (<[ k := (value, clock m + 1)%N ]> (entries m)) (clock m + 1))
      else (lost current, m)
  | Delete k expected =>
      let current := snd <$> entries m !! k in
      match expected, current with
      | None, None => (Kv.map_ [("deleted", VBool false)], m)
      | _, _ =>
          if bool_decide (expected = None ∨ expected = current)
          then (Kv.map_ [("deleted", VBool true)], MkCas (delete k (entries m)) (clock m + 1))
          else (lost current, m)
      end
  end.

Fixpoint promises (ops : list Op) (m : Cas) : list CallResult :=
  match ops with
  | [] => []
  | op :: ops => let '(v, m) := promised op m in Ok v :: promises ops m
  end.

(** What the server takes. *)
Definition key_of (op : Op) : string := match op with Get k | Put k _ _ | Delete k _ => k end.
Definition expected_of (op : Op) : option N := match op with Get _ => None | Put _ _ v | Delete _ v => v end.
Definition valid_op (op : Op) : Prop :=
  KvServer.kv_valid_key (key_of op) = true ∧ fits (expected_of op)
  ∧ match op with
    | Put _ value _ => is_text value ∧ (N.of_nat (str_len value) ≤ KvServer.KV_VALUE_MAX)%N
    | _ => True
    end.

(** ** The table of the server as such a map *)
Record holds (topic : string) (m : Cas) (kv : KvServer.Kv) : Prop := {
  holds_rows k r : KvServer.rows kv !! (topic, k) = Some r →
    KvServer.expires r = 0%N ∧ is_text (KvServer.value r) ∧ (KvServer.version r ≤ KvServer.revision kv)%N;
  holds_map k : entries m !! k = (λ r, (KvServer.value r, KvServer.version r)) <$> KvServer.rows kv !! (topic, k);
  holds_clock : clock m = KvServer.revision kv;
}.

Lemma holds_row topic m kv k wall :
  holds topic m kv → KvServer.kv_row topic k wall kv = KvServer.rows kv !! (topic, k).
Proof.
  intros [Hr _ _]. unfold KvServer.kv_row. destruct (KvServer.rows kv !! (topic, k)) as [r|] eqn:E; [|done].
  cbn [mbind option_bind]. destruct (Hr _ _ E) as (-> & _). by rewrite bool_decide_false by lia.
Qed.

Lemma holds_current topic m kv k :
  holds topic m kv → snd <$> entries m !! k = KvServer.version <$> KvServer.rows kv !! (topic, k).
Proof. intros [_ Hm _]. rewrite Hm. by destruct (KvServer.rows kv !! (topic, k)). Qed.

Lemma commit_rows e f kv :
  KvServer.rows (KvServer.kv_commit e f kv) = f (KvServer.rows kv)
  ∧ KvServer.revision (KvServer.kv_commit e f kv) = (KvServer.revision kv + 1)%N.
Proof. unfold KvServer.kv_commit. by destruct (KvServer.forget _ _ _ _). Qed.

(** A put that went ahead. *)
Lemma holds_put topic m kv kv' k value :
  holds topic m kv → is_text value →
  KvServer.rows kv' = <[ (topic, k) := KvServer.MkRow value (KvServer.revision kv + 1) 0 ]> (KvServer.rows kv) →
  KvServer.revision kv' = (KvServer.revision kv + 1)%N →
  holds topic (MkCas (<[ k := (value, clock m + 1)%N ]> (entries m)) (clock m + 1)) kv'.
Proof.
  intros [Hr Hm Hc] Ht Hrows Hrev. split; cbn [entries clock]; rewrite ?Hrows, ?Hrev, ?Hc; [..|done].
  - intros k' r. rewrite lookup_insert_Some. intros [[_ <-]|[_ Hx]]; [cbn; split_and!; [done..|lia]|].
    destruct (Hr _ _ Hx) as (? & ? & ?). split_and!; [done..|lia].
  - intros k'. destruct (decide (k' = k)) as [->|Hne]; [by rewrite !lookup_insert_eq|].
    rewrite !lookup_insert_ne by congruence. apply Hm.
Qed.

(** A deletion that did. *)
Lemma holds_delete topic m kv kv' k :
  holds topic m kv → KvServer.rows kv' = delete (topic, k) (KvServer.rows kv) →
  KvServer.revision kv' = (KvServer.revision kv + 1)%N →
  holds topic (MkCas (delete k (entries m)) (clock m + 1)) kv'.
Proof.
  intros [Hr Hm Hc] Hrows Hrev. split; cbn [entries clock]; rewrite ?Hrows, ?Hrev, ?Hc; [..|done].
  - intros k' r. rewrite lookup_delete_Some. intros [_ Hx].
    destruct (Hr _ _ Hx) as (? & ? & ?). split_and!; [done..|lia].
  - intros k'. destruct (decide (k' = k)) as [->|Hne]; [by rewrite !lookup_delete_eq|].
    rewrite !lookup_delete_ne by congruence. apply Hm.
Qed.

(** ** One operation, on the server *)

Definition name_of (op : Op) : string :=
  match op with Get _ => "kv/get" | Put _ _ _ => "kv/put" | Delete _ _ => "kv/delete" end.
Definition args_of (op : Op) : Value :=
  match op with Get k => key_value k None | Put k value v => put_value k value v | Delete k v => key_value k v end.
Definition method_of (op : Op) : string :=
  match op with Get _ => "GET" | Put _ _ _ => "PUT" | Delete _ _ => "DELETE" end.
Definition conditions_of (op : Op) : list (string * string) :=
  match op with Get _ => [] | Put _ _ v => Kv.put_headers v | Delete _ v => Kv.delete_headers v end.
Definition body_of (op : Op) : option bytes := match op with Put _ value _ => Some (as_bytes value) | _ => None end.
Definition answer_of `{!Kv.KvWire} (op : Op) : Response → CallResult :=
  match op with
  | Get _ => Kv.get_answer (name_of op)
  | Put _ _ _ => Kv.put_answer (name_of op)
  | Delete _ _ => Kv.delete_answer (name_of op)
  end.

(** A response that carries a reply. *)
Record represents (resp : Response) (reply : KvServer.Reply) : Prop := {
  rep_status : resp_status resp = KvServer.status reply;
  rep_etag : response_header resp "etag" = KvServer.reply_headers reply !! "etag";
  rep_body : resp_body resp = as_bytes (KvServer.reply_body reply);
}.

Lemma conditions_condition op : condition (conditions_of op).
Proof.
  destruct op as [k|k value [v|]|k [v|]]; cbn; [constructor| |constructor..].
  destruct (decide (v = 0%N)); constructor.
Qed.

Lemma sent_condition agent u token hs body n :
  condition hs → n = "if-match" ∨ n = "if-none-match" →
  (list_to_map (sent_headers agent u token hs body) : gmap string string) !! n = (list_to_map hs : gmap string string) !! n.
Proof.
  intros Hc Hn. unfold sent_headers, own_lines.
  destruct Hc, token, body, Hn as [->| ->]; cbn [app injected list_to_map foldr fst snd Kv.if_match];
    repeat (rewrite lookup_insert_eq || rewrite lookup_insert_ne by done); done.
Qed.

Lemma kv_etag_inj v w : KvServer.kv_etag v = KvServer.kv_etag w → v = w.
Proof.
  unfold KvServer.kv_etag. intros [= H]. apply dec_inj, as_bytes_inj. apply (f_equal as_bytes) in H.
  rewrite !as_bytes_app in H. by apply app_inv_tail in H.
Qed.

Section op.
Context `{!JsonText}.

Definition refusal (row : option KvServer.Row) : KvServer.Reply :=
  match row with
  | Some row => KvServer.fail 412 "the key is at another version" [("etag", KvServer.kv_etag (KvServer.version row))]
  | None => KvServer.fail 412 "no such key" []
  end.

(** A condition, as the server checks it. *)
Lemma precondition_none m row :
  KvServer.m_headers m !! "if-match" = None → KvServer.m_headers m !! "if-none-match" = None →
  KvServer.kv_precondition m row = None.
Proof. intros H1 H2. unfold KvServer.kv_precondition. by rewrite H1, H2. Qed.

Lemma precondition_absent m row :
  KvServer.m_headers m !! "if-match" = None → KvServer.m_headers m !! "if-none-match" = Some "*" →
  KvServer.kv_precondition m row = if bool_decide (KvServer.version <$> row = None) then None else Some (refusal row).
Proof. intros H1 H2. unfold KvServer.kv_precondition. rewrite H1, H2. by destruct row. Qed.

Lemma precondition_version m row v :
  KvServer.m_headers m !! "if-match" = Some (KvServer.kv_etag v) → KvServer.m_headers m !! "if-none-match" = None →
  KvServer.kv_precondition m row
  = if bool_decide (KvServer.version <$> row = Some v) then None else Some (refusal row).
Proof.
  intros H1 H2. unfold KvServer.kv_precondition. rewrite H1, H2.
  destruct row as [row|]; [|by rewrite bool_decide_false]. cbn [fmap option_fmap option_map].
  destruct (decide (KvServer.kv_etag v = "*")) as [Hx|_]; [done|].
  change (KvServer.strip_weak (KvServer.kv_etag v)) with (KvServer.kv_etag v).
  rewrite (bool_decide_false (None = Some "*")), andb_false_r by done.
  destruct (decide (KvServer.version row = v)) as [<-|Hne].
  - by rewrite !bool_decide_true.
  - rewrite !bool_decide_false; [done|congruence|]. intros Hx%kv_etag_inj. done.
Qed.

(** A refusal is read as the conflict it is. *)
Lemma refusal_reads resp row :
  represents resp (refusal row) → (∀ r, row = Some r → (KvServer.version r < 2 ^ 64)%N) →
  resp_status resp = 412%N ∧ Kv.conflict resp = lost (KvServer.version <$> row).
Proof.
  intros [Hs He _] Hv. destruct row as [r|]; cbn in Hs; (split; [done|]); unfold Kv.conflict, lost.
  - rewrite (etag_reads resp (KvServer.version r)); [done| |by apply Hv]. rewrite He. apply lookup_insert_eq.
  - unfold Kv.etag_version. rewrite He. done.
Qed.

Context `{!Kv.KvWire}.

(** What a request made of the table, and what is made of its reply. *)
Definition effect (topic : string) (op : Op) (m : Cas) (r : option (KvServer.Reply * KvServer.Kv)) : Prop :=
  ∃ reply kv', r = Some (reply, kv') ∧ holds topic (promised op m).2 kv'
    ∧ ∀ resp, represents resp reply → answer_of op resp = Ok (promised op m).1.

Lemma refused_effect topic op m kv row :
  holds topic m kv → (KvServer.revision kv < 2 ^ 64)%N → row = KvServer.rows kv !! (topic, key_of op) →
  (∀ resp, resp_status resp = 412%N → answer_of op resp = Ok (Kv.conflict resp)) →
  promised op m = (lost (KvServer.version <$> row), m) →
  effect topic op m (Some (refusal row, kv)).
Proof.
  intros HH Hrev Hrow Ha Hp. exists (refusal row), kv. rewrite Hp. split_and!; [done..|].
  intros resp Hrep. destruct (refusal_reads resp row Hrep) as [Hs Hc].
  - intros r ->. destruct (holds_rows _ _ _ HH _ _ (eq_sym Hrow)) as (_ & _ & ?). lia.
  - cbn [fst]. by rewrite Ha, Hc.
Qed.

Lemma get_effect topic k wall m kv :
  holds topic m kv → (KvServer.revision kv < 2 ^ 64)%N →
  effect topic (Get k) m (Some (KvServer.kv_get topic k wall kv, kv)).
Proof.
  intros HH Hrev. unfold effect. eexists _, kv. split_and!; [done..|]. intros resp [Hs He Hb].
  cbn [answer_of promised fst]. unfold Kv.get_answer. unfold KvServer.kv_get in Hs, He, Hb.
  rewrite (holds_row _ _ _ _ _ HH) in Hs, He, Hb. rewrite (holds_map _ _ _ HH).
  destruct (KvServer.rows kv !! (topic, k)) as [r|] eqn:E; cbn in Hs; rewrite Hs; [|done].
  destruct (holds_rows _ _ _ HH _ _ E) as (_ & Ht & Hv). cbn [fmap option_fmap option_map].
  rewrite decide_True by done. cbn [KvServer.reply_body] in Hb. rewrite Hb, lossy_valid, of_as_bytes by done.
  unfold Kv.version_value. rewrite (etag_reads resp (KvServer.version r)); [done| |lia].
  rewrite He. cbn [KvServer.reply_headers KvServer.with_ foldl fst snd].
  rewrite lookup_insert_ne by done. apply lookup_insert_eq.
Qed.

Lemma put_effect topic k value expected wall msg m kv :
  holds topic m kv → (KvServer.revision kv + 1 < 2 ^ 64)%N → valid_op (Put k value expected) →
  KvServer.body msg = value →
  (∀ n, n = "if-match" ∨ n = "if-none-match" →
     KvServer.m_headers msg !! n = (list_to_map (Kv.put_headers expected) : gmap string string) !! n) →
  effect topic (Put k value expected) m (Some (KvServer.kv_put msg topic k ∅ wall kv)).
Proof.
  intros HH Hrev (_ & _ & Ht & Hlen) Hbody Hh. unfold KvServer.kv_put. rewrite Hbody, Ht.
  rewrite bool_decide_false by lia. cbn [negb]. unfold KvServer.ttl_of. rewrite lookup_empty.
  rewrite (holds_row _ _ _ _ _ HH). set (row := KvServer.rows kv !! (topic, k)).
  assert (Hpre : KvServer.kv_precondition msg row
    = if admits expected (KvServer.version <$> row) then None else Some (refusal row)).
  { pose proof (Hh _ (or_introl eq_refl)) as H1. pose proof (Hh _ (or_intror eq_refl)) as H2.
    destruct expected as [v|]; cbn [Kv.put_headers admits] in *; [|by apply precondition_none].
    destruct (decide (v = 0%N)); [by apply precondition_absent|by apply precondition_version]. }
  rewrite Hpre. pose proof (holds_current _ _ _ k HH) as Hcur. fold row in Hcur.
  destruct (admits expected (KvServer.version <$> row)) eqn:Ha.
  2: { apply refused_effect; [done|lia|done| |cbn [promised]; by rewrite Hcur, Ha].
       intros resp Hs. cbn. unfold Kv.put_answer. rewrite Hs. done. }
  eexists _, _. split; [done|]. cbn [promised]. rewrite Hcur, Ha. cbn [fst snd]. split.
  - apply (holds_put _ _ kv); [done..| |]; cbn [KvServer.rows KvServer.revision]; apply commit_rows.
  - intros resp [Hs He _]. cbn [answer_of]. unfold Kv.put_answer. rewrite decide_True.
    + unfold Kv.version_value. rewrite (etag_reads resp (KvServer.revision kv + 1)); [|done..].
      by rewrite (holds_clock _ _ _ HH).
    + cbn in Hs. destruct row; [by left|by right].
Qed.

Lemma deleted_effect topic k expected m kv :
  holds topic m kv →
  promised (Delete k expected) m
    = (Kv.map_ [("deleted", VBool true)], MkCas (delete k (entries m)) (clock m + 1)) →
  effect topic (Delete k expected) m
    (Some (KvServer.json 204 "" [],
           KvServer.kv_commit (KvServer.MkEvent topic k KvServer.OpDelete) (delete (topic, k)) kv)).
Proof.
  intros HH Hp. eexists _, _. rewrite Hp.
  split_and!; [done|apply (holds_delete _ _ kv); [done|apply commit_rows..]|].
  intros resp [Hs _ _]. cbn [answer_of]. unfold Kv.delete_answer. cbn in Hs. by rewrite Hs.
Qed.

Lemma delete_effect topic k expected wall msg m kv :
  holds topic m kv → (KvServer.revision kv + 1 < 2 ^ 64)%N →
  (∀ n, n = "if-match" ∨ n = "if-none-match" →
     KvServer.m_headers msg !! n = (list_to_map (Kv.delete_headers expected) : gmap string string) !! n) →
  effect topic (Delete k expected) m (Some (KvServer.kv_delete msg topic k wall kv)).
Proof.
  intros HH Hrev Hh. unfold KvServer.kv_delete. rewrite (holds_row _ _ _ _ _ HH).
  set (row := KvServer.rows kv !! (topic, k)).
  pose proof (Hh _ (or_introl eq_refl)) as H1. pose proof (Hh _ (or_intror eq_refl)) as H2.
  pose proof (holds_current _ _ _ k HH) as Hcur. fold row in Hcur.
  destruct expected as [v|]; cbn [Kv.delete_headers] in H1, H2.
  - change (KvServer.m_headers msg !! "if-match" = Some (KvServer.kv_etag v)) in H1.
    change (KvServer.m_headers msg !! "if-none-match" = None) in H2.
    rewrite bool_decide_false by (rewrite H1; naive_solver). rewrite (precondition_version _ _ v) by done.
    destruct (decide (KvServer.version <$> row = Some v)) as [He|He].
    + rewrite bool_decide_true by done. apply deleted_effect; [done|]. cbn [promised]. rewrite Hcur, He.
      by rewrite bool_decide_true by by right.
    + rewrite bool_decide_false by done. apply refused_effect; [done|lia|done| |].
      * intros resp Hs. cbn. unfold Kv.delete_answer. rewrite Hs. done.
      * cbn [promised]. rewrite Hcur. by rewrite bool_decide_false by naive_solver.
  - change (KvServer.m_headers msg !! "if-match" = None) in H1.
    change (KvServer.m_headers msg !! "if-none-match" = None) in H2.
    rewrite H1. destruct row as [r|] eqn:Hrow.
    + rewrite bool_decide_false by naive_solver. rewrite precondition_none by done.
      apply deleted_effect; [done|]. cbn [promised]. rewrite Hcur. cbn [fmap option_fmap option_map].
      by rewrite bool_decide_true by by left.
    + rewrite bool_decide_true by done. eexists _, kv. split; [done|]. cbn [promised]. rewrite Hcur. split; [done|].
      intros resp [Hs _ _]. cbn [answer_of]. unfold Kv.delete_answer. cbn in Hs. by rewrite Hs.
Qed.
End op.

Lemma key_text k : KvServer.kv_valid_key k = true → is_text k.
Proof.
  unfold KvServer.kv_valid_key. destruct (str_is_empty k); [done|].
  destruct (bool_decide _); [done|]. destruct (forallb KvServer.key_char (as_bytes k)) eqn:Hc; [|done]. intros _.
  apply ascii_utf8, Forall_forall. intros c Hin.
  rewrite forallb_forall in Hc. specialize (Hc c). rewrite <-list_elem_of_In in Hc. specialize (Hc Hin).
  destruct c as [[] [] [] [] [] [] [] []]; vm_compute in Hc |- *; done.
Qed.

(** ** A conversation with the server

    Each operation is the connector's call over a network that carries its
    request to the server and the server's reply back in time; the server
    keeps the time of its wall. *)
Section talk.
Context `{!Env} `{!Pem} `{!RestWire} `{!Kv.KvWire} `{!KvLaws} `{!Httparse} `{!JsonText}.
Context (wraps : bool) (agent : string) (scope : option Scope) (sc : Kv.KvScope) (u : Url.Url).
Context (link : bytes → KvServer.Reply → Net).

Definition request_of (op : Op) : option bytes :=
  let url := asked_url u ("/" +:+ Kv.escape (key_of op)) in
  entry ← matching (Kv.rest sc) url;
  let hs := if bool_decide (conditions_of op = []) then None else Some (conditions_of op) in
  match request_bytes agent url (method_of op) hs (body_of op) entry with Ok req => Some req | Err _ => None end.

Definition carries (net : Net) (req : bytes) (reply : KvServer.Reply) : Prop :=
  ∀ d, ∃ resp d', in_time Kv.TIMEOUT (delivered wraps sc u req) d = Ret (Ok resp) d' ∧ represents resp reply.

Fixpoint talk (ops : list (N * Op)) (kv : KvServer.Kv) : option (list CallResult) :=
  match ops with
  | [] => Some []
  | (wall, op) :: ops =>
      req ← request_of op;
      '(reply, kv) ← serve wall req kv;
      match @Kv.call _ _ _ _ wraps agent _ (link req reply) (name_of op) (Some (args_of op)) scope dechunker_default with
      | Ret r _ => rs ← talk ops kv; Some (r :: rs)
      | _ => None
      end
  end.

Fixpoint carried (ops : list (N * Op)) (kv : KvServer.Kv) : Prop :=
  match ops with
  | [] => True
  | (wall, op) :: ops => ∀ req reply kv', request_of op = Some req → serve wall req kv = Some (reply, kv') →
      carries (link req reply) req reply ∧ carried ops kv'
  end.

Context (Hscope : Kv.parse scope = Ok sc) (Hu : Url.parse (Kv.base sc) = Ok u).
Context (Hhost : Url.host u ≠ "") (Hline : one_line u) (Hagent : has_newline agent = false).
Context (topic : string) (Hpath : Url.path u = "/v1/" +:+ topic) (Htopic : valid_topic topic).

Lemma request_reads op topic' token :
  grants_topic sc u topic' token →
  ∃ req, asked agent u token (method_of op) ("/" +:+ Kv.escape (key_of op)) (conditions_of op) (body_of op) = Ok req
    ∧ request_of op = Some req
    ∧ message_of req = Some (KvServer.MkMessage (method_of op) (key_path topic (key_of op))
                               (list_to_map (sent_headers agent u token (conditions_of op) (body_of op)))
                               (of_bytes (default [] (body_of op)))).
Proof.
  intros Hg.
  assert (Hkey : key_path topic (key_of op) = Url.path u +:+ "/kv" +:+ "/" +:+ Kv.escape (key_of op)).
  { rewrite Hpath. unfold key_path. by rewrite str_app_assoc. }
  destruct (asked_reads agent sc u topic' token Hg (method_of op) ("/" +:+ Kv.escape (key_of op)) (conditions_of op)
              (body_of op)) as (req & Hreq & Hread).
  - apply conditions_condition.
  - done.
  - done.
  - by destruct op.
  - unfold has_newline. by rewrite !contains_char_app, !escape_free.
  - by destruct op.
  - rewrite <-Hkey. by apply key_path_free.
  - exists req. split_and!; [done| |by rewrite Hkey].
    unfold request_of, matching. rewrite (gt_allow _ _ _ _ Hg). cbn [find_first]. rewrite covers_topic.
    cbn [mbind option_bind]. unfold asked in Hreq. by rewrite Hreq.
Qed.

(** What the server does of a request. *)
Lemma serve_effect op wall m kv req token :
  valid_op op → holds topic m kv → (KvServer.revision kv + 1 < 2 ^ 64)%N →
  message_of req = Some (KvServer.MkMessage (method_of op) (key_path topic (key_of op))
                           (list_to_map (sent_headers agent u token (conditions_of op) (body_of op)))
                           (of_bytes (default [] (body_of op)))) →
  effect topic op m (serve wall req kv).
Proof.
  intros Hop HH Hrev Hread. unfold serve. rewrite Hread. cbn [mbind option_bind].
  rewrite (route_key _ topic (key_of op)); [|done|apply Hop|done|destruct op; set_solver].
  pose proof (λ n, sent_condition agent u token (conditions_of op) (body_of op) n (conditions_condition op)) as Hh.
  destruct op as [k|k value v|k v]; cbn [KvServer.method method_of].
  - rewrite decide_True by done. apply get_effect; [done|lia].
  - rewrite decide_False, decide_True by done. apply put_effect; [done..|by apply of_as_bytes|exact Hh].
  - rewrite !decide_False by done. apply delete_effect; [done..|exact Hh].
Qed.

(** What the connector's call is: the request, and the answer to it. *)
Lemma call_is (net : Net) op topic' token req d resp d' :
  valid_op op → grants_topic sc u topic' token →
  asked agent u token (method_of op) ("/" +:+ Kv.escape (key_of op)) (conditions_of op) (body_of op) = Ok req →
  in_time Kv.TIMEOUT (delivered wraps sc u req) d = Ret (Ok resp) d' →
  Kv.call wraps agent (name_of op) (Some (args_of op)) scope d = Ret (answer_of op resp) d'.
Proof.
  intros (Hk%key_text & Hfits & Hval) Hg Hreq Hd. unfold Kv.call. rewrite Hscope.
  destruct op as [k|k value v|k v]; cbn [name_of args_of answer_of key_of expected_of] in *.
  - change (negb _) with false. rewrite decide_True by done. unfold Kv.kv_get, Kv.args_of. cbn [default from_option id].
    rewrite reads_key_args by done. cbn [map_err Kv.key].
    rewrite (send_is _ _ _ u topic' token Hg _ _ _ _ _ req) by (done || cbn; lia).
    unfold mbind, M_bind. by rewrite Hd.
  - change (negb _) with false. rewrite decide_False, decide_True by done. unfold Kv.kv_put, Kv.args_of.
    cbn [default from_option id]. rewrite reads_put_args by (done || apply Hval). cbn [map_err Kv.put_version Kv.value].
    change (Kv.put_tail (Kv.MkPutArgs k value None v)) with ("/" +:+ Kv.escape k).
    rewrite (send_is _ _ _ u topic' token Hg _ _ _ _ _ req).
    + unfold mbind, M_bind. by rewrite Hd.
    + destruct v as [v|]; cbn; [|lia]. destruct (decide _); cbn; lia.
    + done.
  - change (negb _) with false. rewrite !decide_False, decide_True by done. unfold Kv.kv_delete, Kv.args_of.
    cbn [default from_option id]. rewrite reads_key_args by done. cbn [map_err Kv.key Kv.version].
    rewrite (send_is _ _ _ u topic' token Hg _ _ _ _ _ req).
    + unfold mbind, M_bind. by rewrite Hd.
    + destruct v; cbn; lia.
    + done.
Qed.

(** C22: The connector and the server it talks to are a map with versions: over a
    network that carries each request and its reply, calls on valid keys
    answer what the map does, a lost race as the conflict it is. *)
Theorem kv_is_a_map ops : ∀ m kv,
  Forall valid_op (snd <$> ops) → holds topic m kv → (clock m + N.of_nat (length ops) < 2 ^ 64)%N →
  carried ops kv → talk ops kv = Some (promises (snd <$> ops) m).
Proof.
  destruct (parse_grants scope sc u Hscope Hu Hhost) as (topic' & token & Hg & _).
  induction ops as [|[wall op] ops IH]; intros m kv Hops HH Hclock Hcar; [done|].
  apply Forall_cons in Hops as [Hop Hops]. cbn [length] in Hclock.
  pose proof (holds_clock _ _ _ HH) as Hrev.
  destruct (request_reads op topic' token Hg) as (req & Hasked & Hreq & Hread).
  destruct (serve_effect op wall m kv req token Hop HH ltac:(lia) Hread) as (reply & kv' & Hserve & HH' & Hans).
  destruct (Hcar req reply kv' Hreq Hserve) as [Hnet Hcar'].
  destruct (Hnet dechunker_default) as (resp & d' & Hd & Hrep).
  cbn [talk fmap list_fmap snd promises]. rewrite Hreq. cbn [mbind option_bind]. rewrite Hserve. cbn [mbind option_bind].
  rewrite (call_is (link req reply) op topic' token req _ resp d' Hop Hg Hasked Hd), (Hans resp Hrep).
  assert (Hc : (clock (promised op m).2 ≤ clock m + 1)%N).
  { destruct op as [k|k value v|k v]; cbn [promised]; [cbn; lia|..].
    - destruct (admits _ _); cbn; lia.
    - repeat case_match; cbn; lia. }
  rewrite (IH (promised op m).2 kv'); [|done..|lia|done]. by destruct (promised op m).
Qed.

(** The empty key's request is not one for a key: the server has it as one
    to list the store, and what it lists is answered as the key's value. *)
Lemma empty_key_lists wall kv :
  (∃ req, request_of (Get "") = Some req ∧ serve wall req kv = None)
  ∧ ∀ resp, resp_status resp = 200%N →
      answer_of (Get "") resp
      = Ok (Kv.map_ [("value", vstr (from_utf8_lossy (resp_body resp))); ("version", Kv.version_value resp)]).
Proof.
  destruct (parse_grants scope sc u Hscope Hu Hhost) as (topic' & token & Hg & _). split.
  - destruct (request_reads (Get "") topic' token Hg) as (req & _ & Hreq & Hread).
    exists req. split; [done|]. unfold serve. rewrite Hread. cbn [mbind option_bind].
    destruct (key_path_reads topic "" Htopic) as [Hs Hp]. unfold KvServer.route.
    cbn [KvServer.target KvServer.method key_of method_of]. rewrite Hs, decide_False by done.
    rewrite Hp. cbn [mbind option_bind]. unfold KvServer.kv_route.
    destruct Htopic as (_ & Hlen & ->). by rewrite bool_decide_false by lia.
  - intros resp Hs. cbn. unfold Kv.get_answer. by rewrite Hs.
Qed.

(** The requests and replies of a conversation. *)
Fixpoint exchanged (ops : list (N * Op)) (kv : KvServer.Kv) : list (bytes * KvServer.Reply) :=
  match ops with
  | [] => []
  | (wall, op) :: ops =>
      match (req ← request_of op; '(reply, kv) ← serve wall req kv; Some (req, reply, kv)) with
      | Some (req, reply, kv) => (req, reply) :: exchanged ops kv
      | None => []
      end
  end.

Lemma carried_exchanged ops : ∀ kv,
  Forall (λ e, carries (link e.1 e.2) e.1 e.2) (exchanged ops kv) → carried ops kv.
Proof.
  induction ops as [|[wall op] ops IH]; intros kv Hall; [done|]. intros req reply kv' Hreq Hserve.
  cbn [exchanged] in Hall. rewrite Hreq in Hall. cbn [mbind option_bind] in Hall. rewrite Hserve in Hall.
  cbn [mbind option_bind] in Hall. apply Forall_cons in Hall as [Hnet Hall]. split; [done|by apply IH].
Qed.
End talk.

Lemma holds_empty topic : holds topic (MkCas ∅ 0) KvServer.empty.
Proof. split; [|done..]. intros k r Hr. cbn in Hr. by rewrite lookup_empty in Hr. Qed.

End KvFacts.

(** ** At concrete inputs *)

Module KvDemo.
Import Rest RestBody RestFacts KvFacts.

#[local] Instance no_env : Env := λ _, None.
#[local] Instance no_pem : Pem := {|
  Cert := unit;
  pem_file _ := Err "no such file";
  unparsable _ := 0%N;
|}.

Definition text_in (v : Value) : string := match v with VStr s => of_bytes s | _ => "" end.

#[local] Instance rest_wire : RestWire := {|
  shape_from_value v :=
    match v with
    | VMap [(_, VArr [VMap [(_, VStr o); (_, VMap hs)]]); _; (_, VArr roots)] =>
        Ok (Full [Table (of_bytes o) ((λ kv, (text_in kv.1, Text (text_in kv.2))) <$> hs) None] true (text_in <$> roots))
    | _ => Err "no rest scope"
    end;
  get_args_from_value _ := Err "no url";
  post_args_from_value _ := Err "no url";
|}.

Definition version_in (kvs : list (Value * Value)) : option N :=
  match kvs with [(_, VInt v)] => Some (Z.to_N v) | _ => None end.

#[local] Instance kv_wire : Kv.KvWire := {|
  Kv.kv_shape_from_value v := Ok (Kv.FullShape (text_in v) (Some (Kv.TokenText "t0k")) []);
  Kv.key_args_from_value v :=
    match v with VMap ((_, k) :: kvs) => Ok (Kv.MkKeyArgs (text_in k) (version_in kvs)) | _ => Err "no key" end;
  Kv.put_args_from_value v :=
    match v with
    | VMap ((_, k) :: (_, x) :: kvs) => Ok (Kv.MkPutArgs (text_in k) (text_in x) None (version_in kvs))
    | _ => Err "no key"
    end;
  Kv.list_args_from_value _ := Err "no arguments";
  Kv.watch_args_from_value _ := Err "no arguments";
  Kv.json_from_slice _ := Err "not read";
  Kv.json_to_value _ := Err "not read";
|}.

#[local] Instance laws : KvLaws.
Proof.
  assert (Hv : ∀ v, version_in (expecting v) = v) by (intros [v|]; cbn; by rewrite ?N2Z.id).
  split.
  - intros k v _ _. cbn. by rewrite Hv, of_as_bytes.
  - intros k x v _ _ _. cbn. by rewrite Hv, !of_as_bytes.
  - intros o t roots. cbn. assert (Hr : text_in <$> (vstr <$> roots) = roots).
    { induction roots as [|r roots IH]; [done|]. cbn. by rewrite of_as_bytes, IH. }
    rewrite Hr, of_as_bytes. destruct t; cbn; by rewrite ?of_as_bytes.
Qed.

#[local] Instance no_json : JsonText := λ _, "{}".

(** A reply as it is sent, and the reader of its head. *)
Definition rendered (r : KvServer.Reply) : bytes :=
  as_bytes ("HTTP/1.1 " +:+ dec (KvServer.status r) +:+ crlf
    +:+ match KvServer.reply_headers r !! "etag" with Some e => "etag: " +:+ e +:+ crlf | None => "" end
    +:+ "content-length: " +:+ dec (N.of_nat (str_len (KvServer.reply_body r))) +:+ crlf +:+ crlf
    +:+ KvServer.reply_body r).

#[local] Instance head_reader : Httparse := λ buf,
  match read_lines (S (length buf)) buf with
  | Some (first :: ls, rest) =>
      Ok (Some (MkParsed (parse_digits 0 (of_bytes (drop 9 first)))
                  ((λ nv, (nv.1, as_bytes nv.2)) <$> omap header_of ls) (length buf - length rest)))
  | _ => Ok None
  end.

Definition loopback (req : bytes) (reply : KvServer.Reply) : Net := {|
  lookup_host _ port := Some [(V4 2130706433, port)];
  connect _ := Ok (MkSock (λ _, Ok tt) (Ok tt) (λ r, [Got (if bool_decide (r = req) then rendered reply else [])]));
  tls_connect _ _ _ := None;
  elapsed _ := false;
|}.

Definition home : option Scope := Some (MkScope (vstr "drt://127.0.0.1:8090/v1/home/")).
Definition home_url : Url.Url := Url.MkUrl false "127.0.0.1" 8090 "/v1/home".
Definition home_scope : Kv.KvScope :=
  Kv.MkKvScope "http://127.0.0.1:8090/v1/home" (MkRestScope [topic_entry home_url (Some "t0k")] [] true).

(** Two who switch a lamp: the second of them loses a race, and reads. *)
Definition lamp : list (N * Op) := [
  (10%N, Put "lamp" "on" (Some 0%N)); (11%N, Put "lamp" "off" (Some 0%N)); (12%N, Get "lamp");
  (13%N, Put "lamp" "off" (Some 1%N)); (14%N, Delete "lamp" (Some 1%N)); (15%N, Delete "lamp" None);
  (16%N, Get "lamp")].

(** What has gone over the wire is there on the other side. *)
Abbreviation answered req reply :=
  (@in_time _ (loopback req reply) Kv.TIMEOUT (@delivered _ true _ (loopback req reply) home_scope home_url req)).
Definition arrives (e : bytes * KvServer.Reply) : bool :=
  match answered e.1 e.2 dechunker_default with
  | Ret (Ok resp) _ =>
      bool_decide (resp_status resp = KvServer.status e.2)
      && bool_decide (response_header resp "etag" = KvServer.reply_headers e.2 !! "etag")
      && bool_decide (resp_body resp = as_bytes (KvServer.reply_body e.2))
  | _ => false
  end.

Lemma arrives_carries req reply :
  arrives (req, reply) = true → carries true home_scope home_url (loopback req reply) req reply.
Proof.
  unfold arrives. cbn [fst snd]. intros Hr d.
  change (answered req reply d) with (answered req reply dechunker_default).
  destruct (answered req reply dechunker_default) as [[resp|]| | |] eqn:E; try done.
  rewrite !andb_true_iff, !bool_decide_eq_true in Hr. destruct Hr as [[H1 H2] H3]. by eexists _, _.
Qed.

Lemma lamp_carried : carried true "1.0" home_scope home_url loopback lamp KvServer.empty.
Proof.
  apply carried_exchanged, Forall_forall. intros [req reply] Hin. apply arrives_carries.
  assert (Hall : forallb arrives (exchanged "1.0" home_scope home_url lamp KvServer.empty) = true) by by vm_compute.
  rewrite forallb_forall in Hall. by apply Hall, list_elem_of_In.
Qed.

Lemma home_parses : Kv.parse home = Ok home_scope.
Proof. by vm_compute. Qed.
Lemma home_url_parses : Url.parse (Kv.base home_scope) = Ok home_url.
Proof. by vm_compute. Qed.
Lemma lamp_valid : Forall valid_op (snd <$> lamp).
Proof.
  repeat (apply Forall_cons; split; [split_and!; [by vm_compute|by intros n [= <-]|try done; by vm_compute]|]).
  apply Forall_nil_2.
Qed.
Lemma home_valid : valid_topic "home".
Proof. split_and!; [done|by vm_compute..]. Qed.

Lemma kv_is_a_map_witness :
  talk true "1.0" home home_scope home_url loopback lamp KvServer.empty
  = Some [Ok (Kv.map_ [("version", vnat 1)]);
          Ok (Kv.map_ [("conflict", VBool true); ("version", vnat 1)]);
          Ok (Kv.map_ [("value", vstr "on"); ("version", vnat 1)]);
          Ok (Kv.map_ [("version", vnat 2)]);
          Ok (Kv.map_ [("conflict", VBool true); ("version", vnat 2)]);
          Ok (Kv.map_ [("deleted", VBool true)]);
          Ok VNil].
Proof.
  etransitivity.
  - refine (kv_is_a_map true "1.0" home home_scope home_url loopback home_parses home_url_parses _ _ _ "home" _
              home_valid lamp (MkCas ∅ 0) KvServer.empty lamp_valid (holds_empty _) _ lamp_carried);
      [done|by split; vm_compute|by vm_compute|done|by vm_compute].
  - vm_compute. reflexivity.
Defined.

(** A topic on a host without a name is a scope, and no call of it is made. *)
Lemma nameless_host_refused (net : Net) d :
  let scope := Some (MkScope (vstr "http://[]/v1/t")) in
  Kv.validate scope = Ok tt
  ∧ Kv.call true "1.0" "kv/get" (Some (key_value "lamp" None)) scope d
    = Ret (Err (CallError.new "http://[]/v1/t: 'http://:80' is outside this instance's granted origins")) d.
Proof. split; vm_compute; reflexivity. Qed.

End KvDemo.
