(* ===== verification/Listen.v ===== *)
(** * The http listener ([crates/drt/src/listen.rs])

    A bridge between connections and a program's queues: a request becomes
    one map on a queue, and the program answers with one map, or with the
    head and the chunks of a stream.  What a request means and what a reply
    says is [Listen]; the acceptor that polls its sockets is [Polled]. *)

From S2P Require Import Prelude.
From S2P Require Import Bytes.
From S2P Require Import Value.
From S2P Require Import Node.
From S2P Require Import Rest.

(** [httparse::Request::parse] with room for [MAX_HEADERS]: an error,
    nothing yet, or the method, the target, the headers and how far the head
    goes. *)
Record RequestHead := MkRequestHead {
  rq_method : string;
  rq_path : string;
  rq_headers : list (string * bytes);
  rq_len : nat;
}.
Class HttparseRequest := http_request : bytes → option (option RequestHead).

(** [str::to_lowercase], which goes by Unicode's tables. *)
Class ToLowercase := to_lowercase : string → string.

Module Listen.
Import Rest.

Definition HDR_ROOM : N := 8192.
Definition HDR_VALUE_MAX : N := 4096.
Definition STREAM_BACKLOG : N := 2 ^ 20.

(** Times are in nanoseconds. *)
Definition from_millis (ms : N) : N := ms * 10 ^ 6.
Definition POLL_TICK : N := from_millis 1.

(** ** What crosses *)

Inductive Closed := Client | Idle | Backlog.
Definition reason (c : Closed) : string :=
  match c with Client => "client" | Idle => "idle" | Backlog => "backlog" end.

Record Ingress := MkIngress { listener : nat; token : N; message : bytes }.

Abbreviation ReplyHeaders := (list (string * string)).

Inductive Outcome :=
  | Reply (status : N) (content_type : string) (headers : ReplyHeaders) (body : bytes)
  | Refused (status : N) (text : string)
  | Stream (status : N) (content_type : string) (headers : ReplyHeaders) (body : bytes)
  | Chunk (bs : bytes) (last : bool).

(** ** A listener as configured ([drt_config::Listener]), as far as [http]
    reads it *)
Record ListenerConfig := MkListenerConfig {
  scheme : string;
  address : string;
  cfg_queue : string;
  cfg_reply_queue : string;
  cfg_max_body : N;
  conn_deadline_ms : N;
  cfg_max_conns : nat;
  admit_timeout_ms : N;
  cfg_headers : list string;
  cfg_resp_headers : list string;
  cfg_streaming : bool;
  stream_idle_ms : N;
}.

Record ListenerRt := MkListenerRt {
  queue : string;
  reply_queue : string;
  hdr_allow : list string;
  resp_allow : list string;
  max_body : N;
  deadline : N;
  max_conns : nat;
  admit_wait : N;
  streaming : bool;
  stream_idle : option N;
}.

(** [ListenerRt::new]. *)
Definition new `{!ToLowercase} (idx : nat) (cfg : ListenerConfig) : result ListenerRt string :=
  if negb (bool_decide (scheme cfg = "http")) then
    Err ("listener " +:+ dec (N.of_nat idx) +:+ " speaks '" +:+ scheme cfg
         +:+ "'; a listener is 'http' (this queue bridge) or 'ssh' (the REPL over SSH)")
  else if bool_decide (16 < length (cfg_headers cfg)) || bool_decide (16 < length (cfg_resp_headers cfg)) then
    Err ("listener " +:+ dec (N.of_nat idx)
         +:+ " allowlists more than 16 headers in one direction; the bound is the C host's, and a list that long is a sign the boundary is dissolving")
  else
    Ok (MkListenerRt (cfg_queue cfg) (cfg_reply_queue cfg) (to_lowercase <$> cfg_headers cfg)
          (to_lowercase <$> cfg_resp_headers cfg) (cfg_max_body cfg) (from_millis (conn_deadline_ms cfg))
          (cfg_max_conns cfg) (from_millis (admit_timeout_ms cfg)) (cfg_streaming cfg)
          (if bool_decide (0 < stream_idle_ms cfg)%N then Some (from_millis (stream_idle_ms cfg)) else None)).

(** ** The request side

    A [usize] is 64 bits wide, and a head and a body of the configured size
    are shorter than that together. *)

Definition Refusal : Type := N * string.

(** The texts end their line. *)
Definition text_line (text : string) : string := text +:+ String LF "".

Inductive Parsed :=
  | Complete (token : N) (message : bytes)
  | Incomplete (headers_done : bool).

Definition cut_short (headers_done : bool) : Refusal :=
  if headers_done then (400%N, text_line "the connection went away mid-body") else (400%N, text_line "unparseable request").

(** The digits of a length, within the machine's word. *)
Fixpoint length_digits (v : N) (digits : bytes) : result N Refusal :=
  match digits with
  | [] => Ok v
  | d :: digits =>
      match digit_val d with
      | None => Err (400%N, text_line "Content-Length must be digits only")
      | Some n =>
          let v := (v * 10 + n)%N in
          if bool_decide (v < 2 ^ 64)%N then length_digits v digits
          else Err (413%N, text_line "Content-Length overflows")
      end
  end.

(** The loop over the headers, for the framing of the body. *)
Fixpoint body_length (hs : list (string * bytes)) (clen : N) (seen_clen : bool) : result N Refusal :=
  match hs with
  | [] => Ok clen
  | (name, value) :: hs =>
      step ←? (if eq_ignore_ascii_case name "content-length" then
                 if seen_clen || bool_decide (value = []) then
                   Err (400%N, text_line "a malformed or duplicated Content-Length")
                 else v ←? length_digits 0 value; Ok (v, true)
               else Ok (clen, seen_clen));
      if eq_ignore_ascii_case name "transfer-encoding" then
        Err (400%N, text_line "chunked bodies are not spoken here; the LB should buffer")
      else body_length hs step.1 step.2
  end.

(** The values of one allowlisted name, joined. *)
Fixpoint joined_values (name : string) (hs : list (string * bytes)) (joined : bytes) : result bytes Refusal :=
  match hs with
  | [] => Ok joined
  | (n, value) :: hs =>
      if negb (eq_ignore_ascii_case n name) || bool_decide (value = []) then joined_values name hs joined
      else
        let joined := (if bool_decide (joined = []) then joined else joined ++ as_bytes ", ") ++ value in
        if bool_decide (HDR_VALUE_MAX < N.of_nat (length joined))%N then
          Err (431%N, text_line "an allowlisted header is past this host's value bound")
        else joined_values name hs joined
  end.

Definition bytes_value (bs : bytes) : Value := if utf8_valid bs then VStr bs else VBin bs.

Fixpoint present_headers (allow : list string) (hs : list (string * bytes)) : result (list (Value * Value)) Refusal :=
  match allow with
  | [] => Ok []
  | name :: allow =>
      joined ←? joined_values name hs [];
      present ←? present_headers allow hs;
      Ok (if bool_decide (joined = []) then present else (vstr name, bytes_value joined) :: present)
  end.

(** The map that goes to the queue. *)
Definition request_map (rt : ListenerRt) (token : N) (peer : option string) (method path : string) (body : bytes)
    (present : list (Value * Value)) : Value :=
  VMap ([(vstr "conn", vnat token); (vstr "method", vstr method); (vstr "path", vstr path); (vstr "body", VBin body)]
        ++ match peer with Some p => [(vstr "peer", vstr p)] | None => [] end
        ++ if bool_decide (hdr_allow rt = []) then [] else [(vstr "headers", VMap present)]).

Section request.
Context `{!HttparseRequest} `{!Codec}.

(** [parse_request], with the counter that [mint] takes the token from: how
    many it has counted, of which a token is what 32 bits hold. *)
Definition parse_request (buf : bytes) (rt : ListenerRt) (peer : option string) (tokens : N) :
    result Parsed Refusal * N :=
  match http_request buf with
  | None => (Err (400%N, text_line "unparseable request"), tokens)
  | Some None =>
      if bool_decide (HDR_ROOM < N.of_nat (length buf))%N
      then (Err (400%N, text_line "headers past this host's room"), tokens)
      else (Ok (Incomplete false), tokens)
  | Some (Some req) =>
      match (clen ←? body_length (rq_headers req) 0 false;
             if bool_decide (max_body rt < clen)%N then Err (413%N, text_line "body past the configured cap")
             else present ←? present_headers (hdr_allow rt) (rq_headers req); Ok (clen, present)) with
      | Err e => (Err e, tokens)
      | Ok (clen, present) =>
          if bool_decide (N.of_nat (length buf) < N.of_nat (rq_len req) + clen)%N
          then (Ok (Incomplete true), tokens)
          else
            let body := take (N.to_nat clen) (drop (rq_len req) buf) in
            let token := (tokens `mod` 2 ^ 32)%N in
            match write_value (request_map rt token peer (rq_method req) (rq_path req) body present) with
            | None => (Err (500%N, text_line "encoding failed"), tokens + 1)%N
            | Some message => (Ok (Complete token message), tokens + 1)%N
            end
      end
  end.
End request.

(** ** The reply side *)

Definition field (map : Value) (name : string) : option Value :=
  m ← as_map map;
  kv ← find_first (λ kv, bool_decide (as_str kv.1 = Some name)) m;
  Some kv.2.

Definition clean (value : bytes) : bool :=
  negb (existsb (λ b, bool_decide (byte_val b < 32 ∨ byte_val b = 127)%N) value).

Definition str_bytes (v : Value) : option bytes :=
  match v with VStr s => Some s | VBin b => Some b | _ => None end.

(** [Value::as_bool] and [Value::as_i64]. *)
Definition is_true (v : option Value) : bool := match v with Some (VBool true) => true | _ => false end.
Definition as_i64 (v : Value) : option Z :=
  match v with VInt z => if bool_decide (-2 ^ 63 ≤ z < 2 ^ 63)%Z then Some z else None | _ => None end.

Definition NOT_STREAMING_TEXT : string :=
  text_line "the program sent a streamed response; this listener does not set 'streaming'".
Definition EARLY_CHUNK_TEXT : string := text_line "the program sent a chunk before a streamed response's head".
Definition CAP_TEXT : string := text_line "the listener is at its connection cap".
Definition LATE_TEXT : string := text_line "the program did not answer within the deadline".

Definition status_of (v : Value) : N :=
  match (s ← field v "status"; as_i64 s) with
  | Some s => if bool_decide (100 ≤ s ≤ 599)%Z then Z.to_N s else 200
  | None => 200
  end.

Definition content_type_of (v : Value) : string :=
  default "application/octet-stream"
    (b ← field v "content_type" ≫= str_bytes;
     if bool_decide (length b < 128) && clean b then from_utf8 b else None).

Definition position (allow : list string) (name : string) : option nat :=
  fst <$> list_find (λ a, eq_ignore_ascii_case a name = true) allow.

(** The loop over the reply's headers. *)
Fixpoint choose (allow : list string) (entries : list (Value * Value)) (chosen : list (option bytes)) :
    list (option bytes) :=
  match entries with
  | [] => chosen
  | (k, v) :: entries =>
      match (name ← as_str k; slot ← position allow name; bs ← str_bytes v; Some (slot, bs)) with
      | Some (slot, bs) =>
          if bool_decide (HDR_VALUE_MAX < N.of_nat (length bs))%N || negb (clean bs) then choose allow entries chosen
          else choose allow entries (<[ slot := Some bs ]> chosen)
      | None => choose allow entries chosen
      end
  end.

Definition reply_headers (owner : ListenerRt) (v : Value) : ReplyHeaders :=
  let empty := replicate (length (resp_allow owner)) None in
  let chosen := match field v "headers" with
                | Some (VMap entries) => choose (resp_allow owner) entries empty
                | _ => empty
                end in
  omap (λ nv : string * option bytes, v ← nv.2; t ← from_utf8 v; Some (nv.1, t)) (zip (resp_allow owner) chosen).

Section reply.
Context `{!Codec}.

Definition reply_token (raw : bytes) : N :=
  let value := default VNil (fst <$> read_value raw) in
  (default 0 (field value "conn" ≫= as_u64) `mod` 2 ^ 32)%N.

Definition parse_reply (raw : bytes) (owner : ListenerRt) : Outcome :=
  let value := default VNil (fst <$> read_value raw) in
  let chunk := field value "chunk" ≫= str_bytes in
  let done := is_true (field value "done") in
  if bool_decide (is_Some chunk) || done then Chunk (default [] chunk) done
  else
    let stream := is_true (field value "stream") in
    if stream && negb (streaming owner) then Refused 500 NOT_STREAMING_TEXT
    else
      let body := default [] (field value "body" ≫= str_bytes) in
      (if stream then Stream else Reply) (status_of value) (content_type_of value) (reply_headers owner value) body.

Definition closed_message (token : N) (why : Closed) : bytes :=
  default [] (write_value (VMap [(vstr "conn", vnat token); (vstr "event", vstr "closed"); (vstr "reason", vstr (reason why))])).
End reply.

(** ** The response's bytes *)

Definition reason_for (status : N) : string :=
  match status with
  | 200 => "OK" | 201 => "Created" | 204 => "No Content" | 400 => "Bad Request" | 404 => "Not Found"
  | 413 => "Content Too Large" | 431 => "Request Header Fields Too Large" | 500 => "Internal Server Error"
  | 503 => "Service Unavailable" | 504 => "Gateway Timeout" | _ => "Status"
  end%N.

Fixpoint header_lines (hs : ReplyHeaders) : string :=
  match hs with
  | [] => ""
  | (name, value) :: hs => name +:+ ": " +:+ value +:+ crlf +:+ header_lines hs
  end.

Definition head_start (status : N) (content_type : string) (hs : ReplyHeaders) : string :=
  "HTTP/1.1 " +:+ dec status +:+ " " +:+ reason_for status +:+ crlf
  +:+ "Content-Type: " +:+ content_type +:+ crlf +:+ header_lines hs.

Definition response_bytes (status : N) (content_type : string) (hs : ReplyHeaders) (body : bytes) : bytes :=
  as_bytes (head_start status content_type hs +:+ "Content-Length: " +:+ dec (N.of_nat (length body)) +:+ crlf
            +:+ "Connection: close" +:+ crlf +:+ crlf) ++ body.

(** [{:x}]. *)
Definition hex_digit (d : N) : ascii := of_byte (if (d <? 10)%N then 48 + d else 87 + d).
Fixpoint hex_go (fuel : nat) (n : N) (acc : string) : string :=
  match fuel with
  | 0 => acc
  | S fuel =>
      let acc := String (hex_digit (n `mod` 16)) acc in
      if (n / 16 =? 0)%N then acc else hex_go fuel (n / 16) acc
  end.
Definition hex (n : N) : string := hex_go (S (N.size_nat n)) n "".

Definition chunk_bytes (bs : bytes) (last : bool) : bytes :=
  (if bool_decide (bs = []) then []
   else as_bytes (hex (N.of_nat (length bs)) +:+ crlf) ++ bs ++ as_bytes crlf)
  ++ if last then as_bytes ("0" +:+ crlf +:+ crlf) else [].

Definition stream_head_bytes (status : N) (content_type : string) (hs : ReplyHeaders) (body : bytes) : bytes :=
  as_bytes (head_start status content_type hs +:+ "Transfer-Encoding: chunked" +:+ crlf
            +:+ "Connection: close" +:+ crlf +:+ crlf)
  ++ chunk_bytes body false.

Definition refusal_bytes (r : Refusal) : bytes := response_bytes r.1 "text/plain" [] (as_bytes r.2).

Definition outcome_bytes (o : Outcome) : bytes :=
  match o with
  | Reply status content_type hs body => response_bytes status content_type hs body
  | Refused status text => refusal_bytes (status, text)
  | Stream status content_type hs body => stream_head_bytes status content_type hs body
  | Chunk _ _ => refusal_bytes (500%N, EARLY_CHUNK_TEXT)
  end.

End Listen.

Module Polled.
Import Rest Listen.

(** Sockets that do not block, and the clock, over a world [W]: what is
    waiting on a listening socket, and the reads and writes of a connection.
    A read of no bytes is the end of the stream. *)
Inductive ReadResult := ReadOk (bs : bytes) | ReadBlock | ReadErr.
Inductive WriteResult := WroteOk (n : nat) | WriteBlock | WriteErr.

Class Sockets (W H : Type) := {
  accept : nat → W → option H * W;
  set_nonblocking : H → W → bool * W;
  sock_read : H → W → ReadResult * W;
  sock_write : H → bytes → W → WriteResult * W;
  sock_flush : H → W → W;
  peer_addr : H → W → option string * W;
  instant_now : W → N * W;
  sleep : N → W → W;
}.

Inductive State :=
  | Reading (buf : bytes) (headers_done : bool)
  | Waiting (token : N)
  | Writing (out : bytes) (off : nat)
  | Streaming (token : N) (out : bytes) (off : nat) (last_chunk : N) (ending : bool).

Record Conn {H : Type} := MkConn {
  stream : H;
  c_listener : nat;
  since : N;
  counted : bool;
  state : State;
}.
Arguments Conn : clear implicits.
Arguments MkConn {H} _ _ _ _ _.

Record Bound {H : Type} := MkBound {
  listeners : list ListenerRt;
  conns : list (Conn H);
  ready : list Ingress;
  tokens : N;
}.
Arguments Bound : clear implicits.
Arguments MkBound {H} _ _ _ _.

(** [Bound::bind], once every socket is bound. *)
Fixpoint bind_from `{!ToLowercase} (idx : nat) (configs : list ListenerConfig) : result (list ListenerRt) string :=
  match configs with
  | [] => Ok []
  | cfg :: configs => rt ←? Listen.new idx cfg; rts ←? bind_from (S idx) configs; Ok (rt :: rts)
  end.
Definition bind {H} `{!ToLowercase} (configs : list ListenerConfig) : result (Bound H) string :=
  rts ←? bind_from 0 configs; Ok (MkBound rts [] [] 1).

Definition writing (out : bytes) : State := Writing out 0.

(** [Conn::holds]. *)
Definition holds {H} (c : Conn H) (token : N) : bool :=
  match state c with
  | Waiting t => bool_decide (t = token)
  | Streaming t _ _ _ ending => bool_decide (t = token) && negb ending
  | _ => false
  end.

Section polled.
Context {W H : Type} `{!Sockets W H} `{!HttparseRequest} `{!Codec}.

Definition with_state (c : Conn H) (st : State) : Conn H := MkConn (stream c) (c_listener c) (since c) (counted c) st.

(** [Conn::turn]. *)
Definition turn (c : Conn H) (st : State) (w : W) : Conn H * W :=
  let '(now, w) := instant_now w in (MkConn (stream c) (c_listener c) now (counted c) st, w).

(** ** Accepting

    The loops of [poll] over what the world still has for them take a fuel;
    [None] is a loop that is not through. *)
Fixpoint accept_loop (fuel idx : nat) (rt : ListenerRt) (conns : list (Conn H)) (w : W) : option (list (Conn H) * W) :=
  match fuel with
  | 0 => None
  | S fuel =>
      match accept idx w with
      | (None, w) => Some (conns, w)
      | (Some stream, w) =>
          match set_nonblocking stream w with
          | (false, w) => accept_loop fuel idx rt conns w
          | (true, w) =>
              let held := length (filter (λ c, counted c = true ∧ c_listener c = idx) conns) in
              let '(counted, state) :=
                if bool_decide (max_conns rt ≤ held) then (false, writing (refusal_bytes (503%N, CAP_TEXT)))
                else (true, Reading [] false) in
              let '(now, w) := instant_now w in
              accept_loop fuel idx rt (conns ++ [MkConn stream idx now counted state]) w
          end
      end
  end.

Fixpoint accept_all (fuel idx : nat) (rts : list ListenerRt) (conns : list (Conn H)) (w : W) :
    option (list (Conn H) * W) :=
  match rts with
  | [] => Some (conns, w)
  | rt :: rts => '(conns, w) ← accept_loop fuel idx rt conns w; accept_all fuel (S idx) rts conns w
  end.

(** ** One connection

    What is left of it, if it stays, and what has become of the queue of
    requests and of the counter. *)
Definition Pass : Type := option (Conn H) * list Ingress * N * W.

Definition refuse (c : Conn H) (r : Refusal) (ready : list Ingress) (tokens : N) (w : W) : Pass :=
  let '(c, w) := turn c (writing (refusal_bytes r)) w in (Some c, ready, tokens, w).

Fixpoint read_loop (fuel : nat) (rt : ListenerRt) (c : Conn H) (buf : bytes) (headers_done : bool)
    (ready : list Ingress) (tokens : N) (w : W) : option Pass :=
  match fuel with
  | 0 => None
  | S fuel =>
      match sock_read (stream c) w with
      | (ReadOk [], w) => Some (refuse c (cut_short headers_done) ready tokens w)
      | (ReadBlock, w) => Some (Some (with_state c (Reading buf headers_done)), ready, tokens, w)
      | (ReadErr, w) => Some (None, ready, tokens, w)
      | (ReadOk bs, w) =>
          let buf := buf ++ bs in
          let '(peer, w) := peer_addr (stream c) w in
          match parse_request buf rt peer tokens with
          | (Ok (Complete token message), tokens) =>
              let '(c, w) := turn c (Waiting token) w in
              Some (Some c, ready ++ [MkIngress (c_listener c) token message], tokens, w)
          | (Ok (Incomplete done), tokens) => read_loop fuel rt c buf done ready tokens w
          | (Err r, tokens) => Some (refuse c r ready tokens w)
          end
      end
  end.

(** The writes while there is something owed: where they stopped and when
    the last one went through, or that the connection is over. *)
Fixpoint write_loop (fuel : nat) (s : H) (out : bytes) (off : nat) (now since : N) (w : W) :
    option (option (nat * N) * W) :=
  if bool_decide (length out ≤ off) then Some (Some (off, since), w)
  else
    match fuel with
    | 0 => None
    | S fuel =>
        match sock_write s (drop off out) w with
        | (WroteOk 0, w) => Some (None, w)
        | (WroteOk n, w) => write_loop fuel s out (off + n) now now w
        | (WriteBlock, w) => Some (Some (off, since), w)
        | (WriteErr, w) => Some (None, w)
        end
    end.

Definition closed (c : Conn H) (token : N) (why : Closed) (ready : list Ingress) : list Ingress :=
  ready ++ [MkIngress (c_listener c) token (closed_message token why)].

Definition stream_pass (rt : ListenerRt) (now : N) (c : Conn H) (token : N) (out : bytes) (off : nat)
    (last_chunk : N) (ending : bool) (ready : list Ingress) (tokens : N) (w : W) : option Pass :=
  r ← write_loop (S (length out)) (stream c) out off now (since c) w;
  let '(progress, w) := r in
  match progress with
  | None => Some (None, closed c token Client ready, tokens, w)
  | Some (off, since) =>
      let written := bool_decide (length out ≤ off) in
      if written && ending then Some (None, ready, tokens, sock_flush (stream c) w)
      else if negb written && bool_decide (deadline rt < now - since)%N then
        Some (None, closed c token Client ready, tokens, w)
      else
        let '(out, off) := if written then ([], 0) else (out, off) in
        match sock_read (stream c) w with
        | (ReadOk [], w) | (ReadErr, w) => Some (None, closed c token Client ready, tokens, w)
        | (ReadOk _, w) | (ReadBlock, w) =>
            if negb ending && match stream_idle rt with
                              | Some idle => bool_decide (idle ≤ now - last_chunk)%N
                              | None => false
                              end
            then Some (None, closed c token Idle ready, tokens, w)
            else Some (Some (MkConn (stream c) (c_listener c) since (counted c) (Streaming token out off last_chunk ending)),
                       ready, tokens, w)
        end
  end.

Definition write_pass (c : Conn H) (out : bytes) (off : nat) (now : N) (ready : list Ingress) (tokens : N) (w : W) :
    option Pass :=
  r ← write_loop (S (length out)) (stream c) out off now (since c) w;
  let '(progress, w) := r in
  match progress with
  | None => Some (None, ready, tokens, w)
  | Some (off, _) =>
      if bool_decide (length out ≤ off) then Some (None, ready, tokens, sock_flush (stream c) w)
      else Some (Some (with_state c (Writing out off)), ready, tokens, w)
  end.

(** The closure that [poll] keeps a connection by. *)
Definition poll_conn (fuel : nat) (rt : ListenerRt) (now : N) (c : Conn H) (ready : list Ingress) (tokens : N) (w : W) :
    option Pass :=
  let late := bool_decide (deadline rt < now - since c)%N in
  match state c with
  | Reading buf headers_done =>
      if late then Some (refuse c (cut_short headers_done) ready tokens w)
      else read_loop fuel rt c buf headers_done ready tokens w
  | Waiting token =>
      Some (if late then refuse c (504%N, LATE_TEXT) ready tokens w else (Some c, ready, tokens, w))
  | Streaming token out off last_chunk ending => stream_pass rt now c token out off last_chunk ending ready tokens w
  | Writing out off => if late then Some (None, ready, tokens, w) else write_pass c out off now ready tokens w
  end.

(** [retain_mut]; a connection's listener is one of the bound ones. *)
Fixpoint poll_conns (fuel : nat) (rts : list ListenerRt) (now : N) (cs : list (Conn H)) (ready : list Ingress)
    (tokens : N) (w : W) : option (list (Conn H) * list Ingress * N * W) :=
  match cs with
  | [] => Some ([], ready, tokens, w)
  | c :: cs =>
      rt ← rts !! c_listener c;
      '(kept, ready, tokens, w) ← poll_conn fuel rt now c ready tokens w;
      '(cs, ready, tokens, w) ← poll_conns fuel rts now cs ready tokens w;
      Some (match kept with Some c => c :: cs | None => cs end, ready, tokens, w)
  end.

(** [Bound::poll]. *)
Definition poll (fuel : nat) (b : Bound H) (w : W) : option (Bound H * W) :=
  '(cs, w) ← accept_all fuel 0 (listeners b) (conns b) w;
  let '(now, w) := instant_now w in
  '(cs, ready, tokens, w) ← poll_conns fuel (listeners b) now cs (ready b) (tokens b) w;
  Some (MkBound (listeners b) cs ready tokens, w).

(** ** The drive loop's side *)

(** [Acceptor::try_next]. *)
Definition try_next (fuel : nat) (b : Bound H) (w : W) : option (option Ingress * Bound H * W) :=
  '(b, w) ← poll fuel b w;
  Some (match ready b with
        | [] => (None, b, w)
        | i :: rest => (Some i, MkBound (listeners b) (conns b) rest (tokens b), w)
        end).

(** [Acceptor::next_within], which looks every [POLL_TICK]. *)
Fixpoint next_loop (looks fuel : nat) (deadline : N) (b : Bound H) (w : W) : option (option Ingress * Bound H * W) :=
  match looks with
  | 0 => None
  | S looks =>
      '(b, w) ← poll fuel b w;
      match ready b with
      | i :: rest => Some (Some i, MkBound (listeners b) (conns b) rest (tokens b), w)
      | [] =>
          let '(now, w) := instant_now w in
          if bool_decide (deadline ≤ now)%N then Some (None, b, w)
          else next_loop looks fuel deadline b (sleep (N.min (deadline - now) POLL_TICK) w)
      end
  end.
Definition next_within (looks fuel : nat) (timeout : N) (b : Bound H) (w : W) : option (option Ingress * Bound H * W) :=
  let '(now, w) := instant_now w in next_loop looks fuel (now + timeout) b w.

Definition owner_of (b : Bound H) (token : N) : option nat :=
  c_listener <$> find_first (λ c, holds c token) (conns b).

(** What [answer] makes of the connection that holds the token. *)
Definition answer_conn (c : Conn H) (token : N) (o : Outcome) (ready : list Ingress) (w : W) :
    Conn H * list Ingress * W :=
  match state c, o with
  | Waiting _, Stream _ _ _ _ =>
      let '(now, w) := instant_now w in
      let '(c, w) := turn c (Streaming token (outcome_bytes o) 0 now false) w in (c, ready, w)
  | Waiting _, _ => let '(c, w) := turn c (writing (outcome_bytes o)) w in (c, ready, w)
  | Streaming t out off last_chunk ending, Chunk bs last =>
      if bool_decide (STREAM_BACKLOG < N.of_nat (length out - off + length bs))%N then
        let ready := closed c token Backlog ready in
        let '(c, w) := turn c (writing []) w in (c, ready, w)
      else
        let '(now, w) := instant_now w in
        (with_state c (Streaming t (out ++ chunk_bytes bs last) off now last), ready, w)
  | Streaming _ _ _ _ _, Stream _ _ _ _ => (c, ready, w)
  | Streaming t out off last_chunk _, _ => (with_state c (Streaming t out off last_chunk true), ready, w)
  | _, _ => (c, ready, w)
  end.

(** [Acceptor::answer]. *)
Definition answer (b : Bound H) (token : N) (o : Outcome) (w : W) : Bound H * W :=
  match list_find (λ c, holds c token = true) (conns b) with
  | None => (b, w)
  | Some (i, c) =>
      let '(c, ready, w) := answer_conn c token o (ready b) w in
      (MkBound (listeners b) (<[ i := c ]> (conns b)) ready (tokens b), w)
  end.
End polled.

End Polled.
