(* ===== verification/ListenSpec.v ===== *)
(** * What the http listener promises

    A response is read back as the one the program gave, and nothing it says
    is a header but what the deployment names; a stream is read back whole or
    seen to be cut; a request's body is where its one length says; and the
    polled acceptor keeps its bounds and its tokens. *)

From S2P Require Import Prelude.
From S2P Require Import Bytes.
From S2P Require Import Value.
From S2P Require Import Node.
From S2P Require Import Reach.
From S2P Require Import Rest.
From S2P Require Import RestBody.
From S2P Require Import RestSpec.
From S2P Require Import ChunkSpec.
From S2P Require Import Listen.

Lemma sublist_Forall {A} (P : A → Prop) l k : l `sublist_of` k → Forall P k → Forall P l.
Proof.
  induction 1 as [|x l k _ IH|x l k _ IH]; [done|..]; intros [Hx Hk]%Forall_cons; [apply Forall_cons; auto|auto].
Qed.

(** ** Streams *)
Module StreamedFacts.
Import Rest RestBody RestFacts ChunkFacts Listen.

Definition hex_char (c : ascii) : Prop := ∃ d, (d < 16)%N ∧ c = hex_digit d.

Lemma below16 (P : N → Prop) : Forall P (N.of_nat <$> seq 0 16) → ∀ d, (d < 16)%N → P d.
Proof.
  intros HP d Hd. rewrite Forall_forall in HP. apply HP, list_elem_of_fmap.
  exists (N.to_nat d). rewrite elem_of_seq. lia.
Qed.

Lemma hex_char_plain c :
  hex_char c → c ≠ CR ∧ c ≠ LF ∧ c ≠ ";"%char ∧ c ≠ "+"%char ∧ is_whitespace [c] = false ∧ (byte_val c < 128)%N.
Proof.
  intros (d & Hd & ->). revert d Hd. apply below16.
  repeat (apply Forall_cons; split; [by vm_compute|]). apply Forall_nil_2.
Qed.

Lemma digit_in_hex d : (d < 16)%N → digit_in 16 (hex_digit d) = Some d.
Proof. revert d. apply below16. repeat (apply Forall_cons; split; [by vm_compute|]). apply Forall_nil_2. Qed.

Lemma hex_go_chars fuel n acc : Forall hex_char (as_bytes acc) → Forall hex_char (as_bytes (hex_go fuel n acc)).
Proof.
  revert n acc. induction fuel as [|fuel IH]; intros n acc Hacc; [done|]. cbn [hex_go].
  assert (H : Forall hex_char (as_bytes (String (hex_digit (n `mod` 16)) acc))).
  { apply Forall_cons. split; [|done]. eexists. split; [|done]. by apply N.mod_lt. }
  destruct (n / 16 =? 0)%N; [done|by apply IH].
Qed.

Lemma hex_go_parse fuel n acc :
  (n < 2 ^ N.of_nat fuel)%N → fuel ≠ 0 → hex_digits 0 (hex_go fuel n acc) = hex_digits n acc.
Proof.
  revert n acc. induction fuel as [|fuel IH]; intros n acc Hn Hf; [done|]. cbn [hex_go].
  pose proof (N.div_mod n 16 ltac:(done)) as Hdm. pose proof (N.mod_lt n 16 ltac:(done)) as Hlt.
  destruct (N.eqb_spec (n / 16) 0) as [H0|H0].
  - cbn [hex_digits]. rewrite digit_in_hex by lia. cbn [mbind option_bind]. f_equal. lia.
  - rewrite IH; [| |].
    + cbn [hex_digits]. rewrite digit_in_hex by lia. cbn [mbind option_bind]. f_equal. lia.
    + rewrite Nat2N.inj_succ, N.pow_succ_r' in Hn. apply N.Div0.div_lt_upper_bound. lia.
    + intros ->. apply H0, N.div_small. change (2 ^ N.of_nat 1)%N with 2%N in Hn. lia.
Qed.

Lemma hex_not_empty n : hex n ≠ "".
Proof.
  unfold hex. cbn [hex_go]. assert (H : ∀ fuel m c s, hex_go fuel m (String c s) ≠ "").
  { induction fuel as [|fuel IH]; intros m c s; [done|]. cbn [hex_go]. destruct (_ =? _)%N; [done|apply IH]. }
  destruct (_ =? _)%N; [done|apply H].
Qed.

Lemma hex_chars n : Forall hex_char (as_bytes (hex n)).
Proof. apply hex_go_chars. constructor. Qed.

Lemma parse_hex_hex n : (n < 2 ^ 64)%N → parse_hex (hex n) = Some n.
Proof.
  intros Hn. unfold parse_hex. pose proof (hex_not_empty n) as Hne. pose proof (hex_chars n) as Hc.
  assert (Hs : match hex n with String "+" s' => s' | _ => hex n end = hex n).
  { destruct (hex n) as [|c s]; [done|]. apply Forall_cons in Hc as [Hc _].
    apply hex_char_plain in Hc as (_ & _ & _ & Hp & _). destruct c as [[] [] [] [] [] [] [] []]; done. }
  rewrite Hs. unfold str_is_empty. rewrite bool_decide_false by done.
  unfold hex. rewrite hex_go_parse; [cbn; by rewrite bool_decide_true| |done]. apply size_nat_bound.
Qed.

Lemma trim_visible s :
  Forall (λ c, is_whitespace [c] = false ∧ (byte_val c < 128)%N) (as_bytes s) → trim s = s.
Proof.
  intros Hs. unfold trim. rewrite chars_ascii by (eapply Forall_impl; [exact Hs|]; by intros c []).
  assert (Hstart : ∀ l, Forall (λ c, is_whitespace [c] = false ∧ (byte_val c < 128)%N) l →
    trim_start_chars ((λ b, [b]) <$> l) = (λ b, [b]) <$> l).
  { destruct 1 as [|c l [Hc _] _]; [done|]. cbn [fmap list_fmap trim_start_chars]. by rewrite Hc. }
  rewrite Hstart by done. rewrite <-fmap_reverse, Hstart by by apply Forall_reverse.
  by rewrite <-fmap_reverse, reverse_involutive, mjoin_singles, of_as_bytes.
Qed.

Lemma before_semicolon_free l : ";"%char ∉ l → before_semicolon l = l.
Proof.
  induction l as [|c l IH]; [done|]. intros [Hc Hl]%not_elem_of_cons. cbn.
  rewrite bool_decide_false by congruence. by rewrite IH.
Qed.

Lemma find_crlf_free l : CR ∉ l → find_crlf l = None.
Proof.
  induction l as [|a l IH]; [done|]. intros [Ha Hl]%not_elem_of_cons. destruct l as [|b l]; [done|].
  rewrite find_crlf_cons, bool_decide_false by naive_solver. by rewrite IH.
Qed.

(** A length is read back from the line it is written on. *)
Lemma hex_size_line n : (n < 2 ^ 64)%N → size_line (as_bytes (hex n)) n.
Proof.
  intros Hn. pose proof (hex_chars n) as Hc.
  assert (Hfree : ∀ c, ¬ hex_char c → c ∉ as_bytes (hex n)).
  { intros c Hx Hin. rewrite Forall_forall in Hc. by apply Hx, Hc. }
  split.
  - apply find_crlf_free, Hfree. intros H%hex_char_plain. naive_solver.
  - exists (hex n). rewrite before_semicolon_free by (apply Hfree; intros H%hex_char_plain; naive_solver).
    unfold from_utf8. rewrite ascii_utf8, of_as_bytes by (eapply Forall_impl; [exact Hc|]; by intros c (_ & _ & _ & _ & _ & ?)%hex_char_plain).
    split; [done|]. rewrite trim_visible; [by apply parse_hex_hex|].
    eapply Forall_impl; [exact Hc|]. by intros c (_ & _ & _ & _ & ? & ?)%hex_char_plain.
Qed.

(** ** A stream on the wire: what its head brings, its chunks and its last. *)
Definition streamed (first : bytes) (cs : list bytes) (last : bytes) : bytes :=
  chunk_bytes first false ++ mjoin ((λ c, chunk_bytes c false) <$> cs) ++ chunk_bytes last true.
Definition body_of (first : bytes) (cs : list bytes) (last : bytes) : bytes := first ++ mjoin cs ++ last.

Lemma chunk_before bs rest body used :
  (N.of_nat (length bs) < 2 ^ 64)%N → chunked rest body used →
  chunked (chunk_bytes bs false ++ rest) (bs ++ body) (length (chunk_bytes bs false) + used).
Proof.
  intros Hlen Hc. unfold chunk_bytes. destruct (decide (bs = [])) as [->|Hne]; [by rewrite bool_decide_true|].
  rewrite bool_decide_false by done. rewrite as_bytes_app. change (as_bytes crlf) with [CR; LF].
  rewrite app_nil_r. rewrite <-!app_assoc.
  replace (length _ + used) with (length (as_bytes (hex (N.of_nat (length bs)))) + 2 + length bs + 2 + used)
    by (rewrite !length_app; cbn; lia).
  by apply chunked_chunk; [|apply hex_size_line|].
Qed.

Lemma streamed_chunked first cs last :
  (N.of_nat (length (body_of first cs last)) < 2 ^ 64)%N →
  chunked (streamed first cs last) (body_of first cs last) (length (streamed first cs last) - 2).
Proof.
  unfold streamed, body_of. intros Hlen. rewrite !length_app in Hlen.
  assert (Hend : chunked (chunk_bytes last true) last (length (chunk_bytes last true) - 2)).
  { assert (Ht : chunked (as_bytes ("0" +:+ crlf +:+ crlf)) [] 3).
    { change (as_bytes ("0" +:+ crlf +:+ crlf)) with (["0"%char] ++ [CR; LF] ++ [CR; LF]).
      apply (chunked_end ["0"%char] [CR; LF]). split; [by vm_compute|]. by exists "0". }
    pose proof (chunk_before last _ _ _ ltac:(lia) Ht) as Hc. rewrite app_nil_r in Hc.
    assert (Heq : chunk_bytes last true = chunk_bytes last false ++ as_bytes ("0" +:+ crlf +:+ crlf)).
    { unfold chunk_bytes. by rewrite app_nil_r. }
    rewrite Heq, length_app. change (length (as_bytes ("0" +:+ crlf +:+ crlf))) with 5.
    replace (length (chunk_bytes last false) + 5 - 2) with (length (chunk_bytes last false) + 3) by lia. done. }
  assert (H2 : 2 ≤ length (chunk_bytes last true)).
  { unfold chunk_bytes. rewrite length_app. change (length (as_bytes ("0" +:+ crlf +:+ crlf))) with 5. lia. }
  assert (Hsub : ∀ a b, 2 ≤ b → a + b - 2 = a + (b - 2)) by lia.
  assert (Hmid : chunked (mjoin ((λ c, chunk_bytes c false) <$> cs) ++ chunk_bytes last true) (mjoin cs ++ last)
                   (length (mjoin ((λ c, chunk_bytes c false) <$> cs) ++ chunk_bytes last true) - 2)).
  { revert Hlen. generalize (length first). induction cs as [|c cs IH]; intros n Hlen; [done|].
    rewrite fmap_cons. change (mjoin (?x :: ?l)) with (x ++ mjoin l) in *. rewrite <-!app_assoc.
    rewrite length_app in Hlen. rewrite (length_app (chunk_bytes c false)).
    rewrite Hsub by (rewrite length_app; etrans; [exact H2|apply Nat.le_add_l]).
    apply chunk_before; [lia|]. apply (IH n). lia. }
  rewrite (length_app (chunk_bytes first false)).
  rewrite Hsub by (rewrite length_app; etrans; [exact H2|apply Nat.le_add_l]).
  apply chunk_before; [lia|done].
Qed.

(** C29: What a program streams is what a client that reads chunks has of it,
    however it arrives; and a client whose stream stops before its end knows
    that it did. *)
Theorem stream_reads_back wraps first cs last :
  let whole := streamed first cs last in
  (N.of_nat (length (body_of first cs last)) ≤ MAX_BODY)%N → (N.of_nat (length whole) < 2 ^ 63)%N →
  (∀ pieces, concat pieces = whole →
     feed_pieces wraps [] pieces dechunker_default
     = Ret (Ok tt) (MkDechunker (body_of first cs last) (length whole - 2) true))
  ∧ ∀ n, n < length whole - 2 →
      ∃ d, feed wraps (S n) (take n whole) dechunker_default = Ret (Ok tt) d ∧ RestBody.done d = false.
Proof.
  intros whole Hmax Hlen.
  assert (Hc : chunked whole (body_of first cs last) (length whole - 2)).
  { apply streamed_chunked. unfold MAX_BODY in Hmax. lia. }
  split.
  - intros pieces Hp. apply dechunk_pieces; [by rewrite Hp|done|by rewrite Hp].
  - intros n Hn.
    pose proof (chunked_feeds _ _ _ _ dechunker_default Hc eq_refl eq_refl Hmax) as Hw.
    assert (Hw' : feeds (take n whole ++ drop n whole) dechunker_default (Ok tt)
              (MkDechunker (out dechunker_default ++ body_of first cs last) (at_ dechunker_default + (length whole - 2)) true))
      by by rewrite take_drop.
    destruct (feeds_prefix _ _ _ _ _ Hw' (default_sane _)) as (r1 & d1 & Hf & Hs & Hr).
    destruct r1 as [[]|e]; [|by destruct Hr]. exists d1. split.
    + apply feeds_feed; [rewrite length_take; lia|done|apply default_sane|rewrite length_take; cbn; lia].
    + inversion Hr; subst; try done. destruct Hs as [Hs _]. rewrite length_take in Hs. cbn in Hs. lia.
Qed.

End StreamedFacts.

(** ** Replies *)
Module ReplyFacts.
Import Rest RestBody RestFacts ChunkFacts Listen.

Definition safe_value (bs : bytes) : Prop := no_newline bs ∧ (N.of_nat (length bs) ≤ HDR_VALUE_MAX)%N.

Lemma clean_newline bs : clean bs = true → no_newline bs.
Proof.
  unfold clean. intros Hc%negb_true_iff.
  assert (Hx : ∀ c, (byte_val c < 32)%N → c ∉ bs).
  { intros c Hlt Hin. apply not_true_iff_false in Hc. apply Hc, existsb_exists. exists c.
    rewrite <-list_elem_of_In. split; [done|]. apply bool_decide_eq_true. by left. }
  split; apply Hx; by vm_compute.
Qed.

Lemma choose_safe allow entries : ∀ chosen,
  Forall (λ o, ∀ bs, o = Some bs → safe_value bs) chosen →
  Forall (λ o, ∀ bs, o = Some bs → safe_value bs) (choose allow entries chosen).
Proof.
  induction entries as [|[k v] entries IH]; intros chosen Hc; [done|]. cbn [choose].
  destruct (_ ≫= _) as [[slot bs]|]; [|by apply IH].
  destruct (bool_decide _ || negb (clean bs)) eqn:Hb; apply IH; [done|].
  rewrite orb_false_iff, bool_decide_eq_false, negb_false_iff in Hb. destruct Hb as [Hl Hcl].
  apply Forall_insert; [done|]. intros bs' [= <-]. split; [by apply clean_newline|lia].
Qed.

Lemma choose_length allow entries : ∀ chosen, length (choose allow entries chosen) = length chosen.
Proof.
  induction entries as [|[k v] entries IH]; intros chosen; [done|]. cbn [choose].
  destruct (_ ≫= _) as [[slot bs]|]; [|done]. destruct (_ || _); [done|]. by rewrite IH, length_insert.
Qed.

Lemma kept_headers_spec names chosen :
  Forall (λ o, ∀ bs, o = Some bs → safe_value bs) chosen →
  let hs := omap (λ nv : string * option bytes, v ← nv.2; t ← from_utf8 v; Some (nv.1, t)) (zip names chosen) in
  hs.*1 `sublist_of` names ∧ Forall (λ nv, safe_value (as_bytes nv.2)) hs.
Proof.
  intros Hc. revert names. induction Hc as [|o chosen Ho _ IH]; intros [|n names]; cbn zeta; try (split; [apply sublist_nil_l|done]).
  cbn [zip zip_with omap list_omap mbind option_bind fst snd]. destruct (IH names) as [H1 H2].
  destruct o as [bs|]; cbn [mbind option_bind]; [|split; [by apply sublist_cons|done]].
  destruct (from_utf8 bs) as [t|] eqn:Et; [|split; [by apply sublist_cons|done]].
  apply from_utf8_Some in Et as ->. split; [by apply sublist_skip|].
  apply Forall_cons. split; [|done]. cbn [snd]. rewrite as_of_bytes. by apply Ho.
Qed.

(** Whatever a program puts into a reply's headers, those that are sent are
    some of the deployment's names, in its order, with values that hold no
    line end. *)
Lemma reply_headers_spec owner v :
  (reply_headers owner v).*1 `sublist_of` resp_allow owner
  ∧ Forall (λ nv, safe_value (as_bytes nv.2)) (reply_headers owner v).
Proof.
  unfold reply_headers. apply kept_headers_spec.
  assert (He : Forall (λ o : option bytes, ∀ bs, o = Some bs → safe_value bs)
                 (replicate (length (resp_allow owner)) None)) by by apply Forall_replicate.
  destruct (field v "headers") as [[]|]; try done. by apply choose_safe.
Qed.

Lemma content_type_safe v : no_newline (as_bytes (content_type_of v)).
Proof.
  unfold content_type_of. destruct (field v "content_type" ≫= str_bytes) as [b|]; [|by apply has_newline_false].
  cbn [mbind option_bind]. destruct (bool_decide _ && clean b) eqn:Hb; [|by apply has_newline_false].
  apply andb_true_iff in Hb as [_ Hc]. destruct (from_utf8 b) as [t|] eqn:Et; [|by apply has_newline_false].
  apply from_utf8_Some in Et as ->. cbn. rewrite as_of_bytes. by apply clean_newline.
Qed.

Lemma status_range v : (100 ≤ status_of v ≤ 599)%N.
Proof.
  unfold status_of. destruct (_ ≫= _) as [s|]; [|lia]. destruct (bool_decide _) eqn:Hb; [|lia].
  apply bool_decide_eq_true in Hb. lia.
Qed.

(** ** The bytes, line by line *)

Definition status_line (status : N) : string := "HTTP/1.1 " +:+ dec status +:+ " " +:+ reason_for status.
Definition by_length (body : bytes) : ReplyHeaders :=
  [("Content-Length", dec (N.of_nat (length body))); ("Connection", "close")].
Definition by_chunks : ReplyHeaders := [("Transfer-Encoding", "chunked"); ("Connection", "close")].

Definition response_lines (status : N) (content_type : string) (hs framing : ReplyHeaders) : list bytes :=
  as_bytes (status_line status) :: (line_text <$> ("Content-Type", content_type) :: hs ++ framing).

Lemma header_lines_text hs tail :
  as_bytes (header_lines hs) ++ tail = lines_text (line_text <$> hs) tail.
Proof.
  induction hs as [|[n v] hs IH]; [done|]. cbn [header_lines fmap list_fmap lines_text].
  rewrite <-IH. unfold line_text. cbn [fst snd]. rewrite !as_bytes_app, <-!app_assoc. done.
Qed.

Lemma head_text status content_type hs framing tail :
  as_bytes (head_start status content_type hs) ++ lines_text (line_text <$> framing) tail
  = lines_text (response_lines status content_type hs framing) tail.
Proof.
  unfold response_lines. cbn [lines_text]. rewrite !fmap_cons, fmap_app. cbn [lines_text].
  rewrite lines_text_app, <-(header_lines_text hs). unfold head_start, status_line, line_text. cbn [fst snd].
  rewrite !as_bytes_app, <-!app_assoc. done.
Qed.

Lemma response_text status content_type hs body :
  response_bytes status content_type hs body
  = lines_text (response_lines status content_type hs (by_length body)) (CR :: LF :: body).
Proof.
  rewrite <-head_text. unfold response_bytes, by_length, line_text. cbn [fmap list_fmap lines_text fst snd].
  rewrite !as_bytes_app, <-!app_assoc. done.
Qed.

Lemma stream_head_text status content_type hs body :
  stream_head_bytes status content_type hs body
  = lines_text (response_lines status content_type hs by_chunks) (CR :: LF :: chunk_bytes body false).
Proof.
  rewrite <-head_text. unfold stream_head_bytes, by_chunks, line_text. cbn [fmap list_fmap lines_text fst snd].
  rewrite !as_bytes_app, <-!app_assoc. done.
Qed.

Definition plain_names (owner : ListenerRt) : Prop := Forall (λ n, no_newline (as_bytes n)) (resp_allow owner).

Lemma reason_plain status : no_newline (as_bytes (reason_for status)).
Proof.
  apply has_newline_false. unfold reason_for. by repeat case_match.
Qed.

Lemma lines_plain status content_type hs framing :
  no_newline (as_bytes content_type) →
  Forall (λ nv, no_newline (as_bytes nv.1) ∧ no_newline (as_bytes nv.2)) hs →
  Forall (λ nv, no_newline (as_bytes nv.1) ∧ no_newline (as_bytes nv.2)) framing →
  Forall (λ l, no_newline l ∧ l ≠ []) (response_lines status content_type hs framing).
Proof.
  intros Hct Hhs Hfr. unfold response_lines. apply Forall_cons. split.
  - unfold status_line. rewrite !no_newline_str. split_and!; try (by apply has_newline_false);
      [apply dec_no_newline|apply reason_plain|by rewrite !as_bytes_app].
  - apply pairs_ok. apply Forall_cons. split; [split; [by apply has_newline_false|done]|]. by apply Forall_app.
Qed.

Lemma framing_plain body :
  Forall (λ nv, no_newline (as_bytes nv.1) ∧ no_newline (as_bytes nv.2)) (by_length body)
  ∧ Forall (λ nv, no_newline (as_bytes nv.1) ∧ no_newline (as_bytes nv.2)) by_chunks.
Proof.
  split; repeat (apply Forall_cons; split; [split; first [by apply has_newline_false|apply dec_no_newline]|]);
    apply Forall_nil_2.
Qed.

Lemma headers_plain owner v :
  plain_names owner →
  Forall (λ nv, no_newline (as_bytes nv.1) ∧ no_newline (as_bytes nv.2)) (reply_headers owner v).
Proof.
  intros Hn. destruct (reply_headers_spec owner v) as [Hs Hv].
  pose proof (sublist_Forall _ _ _ Hs Hn) as Hn'. rewrite Forall_fmap in Hn'.
  apply Forall_forall. intros nv Hin. rewrite Forall_forall in Hn', Hv. split; [by apply Hn'|by apply Hv].
Qed.

(** What a reply says, and the framing and the bytes behind its head. *)
Definition told (o : Outcome) : N * string * ReplyHeaders * ReplyHeaders * bytes :=
  match o with
  | Reply status ct hs body => (status, ct, hs, by_length body, body)
  | Stream status ct hs body => (status, ct, hs, by_chunks, chunk_bytes body false)
  | Refused status text => (status, "text/plain", [], by_length (as_bytes text), as_bytes text)
  | Chunk _ _ => (500%N, "text/plain", [], by_length (as_bytes EARLY_CHUNK_TEXT), as_bytes EARLY_CHUNK_TEXT)
  end.

(** C28: Whatever a program replies, its connection is sent one head and what
    belongs behind it: read line by line it is the status, the media type,
    headers that the deployment names, in its order, the framing that the
    listener chose, and the body. *)
Theorem response_reads_back `{!Codec} raw owner :
  plain_names owner →
  let o := parse_reply raw owner in
  let '(status, ct, hs, framing, rest) := told o in
  (100 ≤ status ≤ 599)%N ∧ hs.*1 `sublist_of` resp_allow owner
  ∧ ∃ fuel, read_lines fuel (outcome_bytes o) = Some (response_lines status ct hs framing, rest).
Proof.
  intros Hn o. unfold o, parse_reply. set (v := default VNil (fst <$> read_value raw)).
  destruct (reply_headers_spec owner v) as [Hs _]. pose proof (headers_plain owner v Hn) as Hp.
  pose proof (status_range v) as Hst. pose proof (content_type_safe v) as Hct.
  assert (Hrefuse : ∀ status text, (100 ≤ status ≤ 599)%N →
    (100 ≤ status ≤ 599)%N ∧ ([] : list string) `sublist_of` resp_allow owner
    ∧ ∃ fuel, read_lines fuel (refusal_bytes (status, text))
        = Some (response_lines status "text/plain" [] (by_length (as_bytes text)), as_bytes text)).
  { intros status text Hr. split_and!; [lia..|apply sublist_nil_l|]. unfold refusal_bytes. cbn [fst snd].
    rewrite response_text. eexists. apply read_lines_text.
    apply lines_plain; [by apply has_newline_false|done|apply framing_plain]. }
  destruct (_ || _); [by apply Hrefuse|]. destruct (is_true (field v "stream")); cbn [andb].
  - destruct (negb (streaming owner)); [by apply Hrefuse|]. cbn [told outcome_bytes].
    split_and!; [lia..|done|]. rewrite stream_head_text. eexists. apply read_lines_text.
    apply lines_plain; [done..|apply (framing_plain [])].
  - cbn [told outcome_bytes]. split_and!; [lia..|done|]. rewrite response_text. eexists. apply read_lines_text.
    apply lines_plain; [done..|apply framing_plain].
Qed.

End ReplyFacts.

(** ** The polled acceptor *)
Module PolledFacts.
Import Rest Listen Polled.

(** What the acceptor relies on.  Of [httparse]: a head lies within the bytes
    it was read from, and more bytes behind it do not change it.  Of the sockets: a read fills no more than the buffer it is
    given, and what has not been accepted or read yet is finite, which only
    the time between two passes may add to. *)
Class RequestLaws `{!HttparseRequest} := {
  head_within buf req : http_request buf = Some (Some req) → rq_len req ≤ length buf;
  head_stable buf req more :
    http_request buf = Some (Some req) → http_request (buf ++ more) = Some (Some req);
}.

Class SocketLaws (W H : Type) `{!Sockets W H} := {
  pending : W → nat;
  read_fits (h : H) (w : W) bs w' : sock_read h w = (ReadOk bs, w') → length bs ≤ 2048;
  accept_spends idx (w : W) (h : H) w' : accept idx w = (Some h, w') → pending w' < pending w;
  accept_adds_none idx (w w' : W) : accept idx w = (@None H, w') → pending w' ≤ pending w;
  read_spends (h : H) (w : W) b bs w' : sock_read h w = (ReadOk (b :: bs), w') → pending w' < pending w;
  read_adds_none (h : H) (w : W) : pending (sock_read h w).2 ≤ pending w;
  nonblocking_adds_none (h : H) (w : W) : pending (set_nonblocking h w).2 ≤ pending w;
  write_adds_none (h : H) bs (w : W) : pending (sock_write h bs w).2 ≤ pending w;
  flush_adds_none (h : H) (w : W) : pending (sock_flush h w) ≤ pending w;
  peer_adds_none (h : H) (w : W) : pending (peer_addr h w).2 ≤ pending w;
  clock_adds_none (w : W) : pending (instant_now w).2 ≤ pending w;
}.

(** *** Requests as they arrive *)

Definition ROOM : nat := N.to_nat HDR_ROOM + 2048.

(** What is held of a request that is not whole: a head that has not come to
    its end, or one that has, and less behind it than it says. *)
Definition held_request `{!HttparseRequest} (rt : ListenerRt) (buf : bytes) : Prop :=
  buf = [] ∨ (http_request buf = Some None ∧ length buf ≤ N.to_nat HDR_ROOM)
  ∨ ∃ req, http_request buf = Some (Some req) ∧ rq_len req ≤ ROOM ∧ length buf ≤ rq_len req + N.to_nat (max_body rt).

Section request.
Context `{!HttparseRequest} `{!RequestLaws} `{!Codec}.

Lemma parse_request_tokens buf rt peer tokens r tokens' :
  parse_request buf rt peer tokens = (r, tokens') →
  (tokens ≤ tokens' ∧
   match r with
   | Ok (Complete t _) => t = tokens `mod` 2 ^ 32 ∧ tokens' = tokens + 1
   | Ok (Incomplete _) => tokens' = tokens
   | Err _ => True
   end)%N.
Proof. unfold parse_request. intros Hp. repeat case_match; simplify_eq; split; try done; lia. Qed.

Lemma held_request_bound rt buf : held_request rt buf → length buf ≤ ROOM + N.to_nat (max_body rt).
Proof. unfold ROOM. intros [->|[[_ ?]|(req & _ & ? & ?)]]; unfold ROOM in *; [cbn|..]; lia. Qed.

Lemma parse_request_held buf bs rt peer tokens d tokens' :
  held_request rt buf → length bs ≤ 2048 →
  parse_request (buf ++ bs) rt peer tokens = (Ok (Incomplete d), tokens') → held_request rt (buf ++ bs).
Proof.
  intros Hh Hbs. unfold parse_request. destruct (http_request (buf ++ bs)) as [[req|]|] eqn:Hreq; [|intros Hp|done].
  - destruct (clen ←? _; _) as [[clen present]|e] eqn:Hl; [|done]. case_bool_decide as Hlen; [|by repeat case_match].
    intros _. right. right. exists req. split; [done|].
    assert (Hc : (clen ≤ max_body rt)%N).
    { destruct (body_length _ _ _) as [n|]; [|done]. cbn in Hl. case_bool_decide; [done|].
      destruct (present_headers _ _); [|done]. cbn in Hl. simplify_eq. lia. }
    split; [|lia]. unfold ROOM. destruct Hh as [->|[[Hp Hl']|(req' & Hr' & Hroom & _)]].
    + apply head_within in Hreq. cbn in Hreq. lia.
    + apply head_within in Hreq. rewrite length_app in Hreq. lia.
    + apply (head_stable _ _ bs) in Hr'. simplify_eq. done.
  - case_bool_decide; [done|]. right. left. split; [done|]. lia.
Qed.
End request.

(** *** Connections *)

(** The token that a connection answers for. *)
Definition token_of {H} (c : Conn H) : option N :=
  match state c with Waiting t | Streaming t _ _ _ _ => Some t | _ => None end.
Definition live {H} (cs : list (Conn H)) : list N := omap token_of cs.

(** The seats taken at a listener. *)
Definition seated {H} (idx : nat) (c : Conn H) : bool := counted c && bool_decide (c_listener c = idx).
Definition held {H} (idx : nat) (cs : list (Conn H)) : nat := length (filter (λ c, seated idx c = true) cs).

Definition buffer_ok `{!HttparseRequest} {H} (rt : ListenerRt) (c : Conn H) : Prop :=
  match state c with Reading buf _ => held_request rt buf | _ => True end.

Definition same_seat {H} (c c' : Conn H) : Prop := c_listener c' = c_listener c ∧ counted c' = counted c.

Section conns.
Context {W H : Type} `{!Sockets W H} `{!HttparseRequest} `{!Codec} `{!RequestLaws} `{!SocketLaws W H}.
Implicit Types (c : Conn H) (w : W).

(** What a pass does to one connection: it keeps its seat, its buffer stays
    within the bounds, and its token is the one it had, or a fresh one where
    it had none. *)
Definition passed (rt : ListenerRt) c (kept : option (Conn H)) (tokens tokens' : N) : Prop :=
  (tokens ≤ tokens')%N ∧
  match kept with
  | None => True
  | Some c' =>
      same_seat c c' ∧ (buffer_ok rt c → buffer_ok rt c')
      ∧ (token_of c' = None ∨ token_of c' = token_of c
         ∨ token_of c = None ∧ ∃ k, token_of c' = Some (k `mod` 2 ^ 32)%N ∧ (tokens ≤ k < tokens')%N)
  end.

Lemma passed_turn rt c st w c' w' tokens tokens' :
  turn c st w = (c', w') → (tokens ≤ tokens')%N →
  buffer_ok rt (with_state c st) → token_of (with_state c st) = None →
  passed rt c (Some c') tokens tokens'.
Proof. unfold turn. intros Ht Hle Hb Hn. case_match. simplify_eq. by split; [|split_and!; [done|intros _|left]]. Qed.

Lemma passed_refuse rt c r ready tokens w kept ready' tokens1 tokens' w' :
  refuse c r ready tokens w = (kept, ready', tokens', w') → (tokens1 ≤ tokens)%N → passed rt c kept tokens1 tokens'.
Proof.
  unfold refuse. destruct (turn _ _ _) as [c' w1] eqn:Ht. intros [= <- <- <- <-] Hle. by eapply passed_turn.
Qed.

Lemma passed_refl rt c tokens : passed rt c (Some c) tokens tokens.
Proof. split_and!; [lia|done|done|by right; left]. Qed.

Lemma read_loop_passed fuel rt c : ∀ buf hd ready tokens w kept ready' tokens' w',
  held_request rt buf → token_of c = None →
  read_loop fuel rt c buf hd ready tokens w = Some (kept, ready', tokens', w') → passed rt c kept tokens tokens'.
Proof.
  induction fuel as [|fuel IH]; intros buf hd ready tokens w kept ready' tokens' w' Hb Hn; [done|]. cbn [read_loop].
  destruct (sock_read _ _) as [[[|b bs]| |] w1] eqn:Hr.
  - intros [= Hx]. by eapply passed_refuse.
  - destruct (peer_addr _ _) as [peer w2]. destruct (parse_request _ _ _ _) as [r tokens1] eqn:Hp.
    pose proof (parse_request_tokens _ _ _ _ _ _ Hp) as [Hle Ht].
    destruct r as [[t m|d]|e].
    + unfold turn. destruct (instant_now w2) as [now w3]. intros [= <- <- <- <-]. destruct Ht as [-> ->].
      split_and!; [done..|]. right. right. split; [done|]. eexists. split; [done|]. lia.
    + intros Hl. subst tokens1. eapply IH; [|done..].
      eapply parse_request_held; [done|by eapply read_fits|done].
    + intros [= Hx]. by eapply passed_refuse.
  - intros [= <- <- <- <-]. split_and!; [lia|done|done|by left].
  - intros [= <- <- <- <-]. split; [lia|done].
Qed.

Lemma poll_conn_passed fuel rt now c ready tokens w kept ready' tokens' w' :
  buffer_ok rt c → poll_conn fuel rt now c ready tokens w = Some (kept, ready', tokens', w') →
  passed rt c kept tokens tokens'.
Proof.
  unfold poll_conn. intros Hb. destruct (state c) as [buf hd|t|out off|t out off lc e] eqn:Hst.
  - unfold buffer_ok in Hb. rewrite Hst in Hb. case_bool_decide.
    + intros [= Hx]. by eapply passed_refuse.
    + apply read_loop_passed; [done|]. unfold token_of. by rewrite Hst.
  - case_bool_decide; intros [= Hx]; [by eapply passed_refuse|]. simplify_eq. apply passed_refl.
  - case_bool_decide; [intros [= <- <- <- <-]; split; [lia|done]|]. unfold write_pass.
    destruct (write_loop _ _ _ _ _ _ _) as [[[[off' since']|] w1]|]; [| |done]; cbn [mbind option_bind].
    + case_bool_decide; intros [= <- <- <- <-]; [split; [lia|done]|]. split_and!; [lia|done..|by left].
    + intros [= <- <- <- <-]. split; [lia|done].
  - unfold stream_pass.
    destruct (write_loop _ _ _ _ _ _ _) as [[[[off' since']|] w1]|]; [| |done]; cbn [mbind option_bind].
    + destruct (_ && e); [intros [= <- <- <- <-]; split; [lia|done]|].
      destruct (negb _ && _); [intros [= <- <- <- <-]; split; [lia|done]|].
      destruct (if bool_decide _ then _ else _) as [out1 off1].
      destruct (sock_read _ _) as [[[|b bs]| |] w2]; try (intros [= <- <- <- <-]; split; [lia|done]);
        (destruct (negb e && _); intros [= <- <- <- <-]; [split; [lia|done]|];
         split_and!; [lia|done|done|right; left; unfold token_of; by rewrite Hst]).
    + intros [= <- <- <- <-]. split; [lia|done].
Qed.

(** *** All the connections *)

Definition conn_ok (rts : list ListenerRt) c : Prop :=
  ∃ rt, rts !! c_listener c = Some rt ∧ buffer_ok rt c.

Lemma held_cons idx c cs : held idx (c :: cs) = (if seated idx c then 1 else 0) + held idx cs.
Proof. unfold held. rewrite filter_cons. by destruct (seated idx c); case_decide. Qed.

Lemma seated_same idx c c' : same_seat c c' → seated idx c' = seated idx c.
Proof. unfold seated. by intros [-> ->]. Qed.

(** The tokens of a pass, of those that were there and those it has minted. *)
Definition fresh_from (tokens tokens' : N) (old new : list N) : Prop :=
  (tokens' ≤ 2 ^ 32)%N → NoDup old → Forall (λ t, t < tokens)%N old →
  NoDup new ∧ ∀ t, t ∈ new → t ∈ old ∨ (tokens ≤ t < tokens')%N.

Lemma live_cons c cs : live (c :: cs) = match token_of c with Some t => t :: live cs | None => live cs end.
Proof. done. Qed.

Lemma fresh_skip tokens tokens1 tokens' c cs new :
  (tokens ≤ tokens1)%N → fresh_from tokens1 tokens' (live cs) new → fresh_from tokens tokens' (live (c :: cs)) new.
Proof.
  unfold fresh_from. rewrite live_cons. intros Hle Hf Hmax Hnd Hlt.
  assert (NoDup (live cs) ∧ Forall (λ t, t < tokens)%N (live cs)) as [Hnd' Hlt'].
  { destruct (token_of c); [apply NoDup_cons in Hnd as [_ ?]; by apply Forall_cons in Hlt as [_ ?]|done]. }
  destruct Hf as [Hn Hin]; [done|done|eapply Forall_impl; [exact Hlt'|]; cbn; lia|]. split; [done|].
  intros t [Ht|Ht]%Hin; [left|right; lia]. destruct (token_of c); [by right|done].
Qed.

Lemma fresh_cons rt tokens tokens1 tokens' c c' cs cs' :
  passed rt c (Some c') tokens tokens1 → (tokens1 ≤ tokens')%N →
  fresh_from tokens1 tokens' (live cs) (live cs') → fresh_from tokens tokens' (live (c :: cs)) (live (c' :: cs')).
Proof.
  intros (Hle & _ & _ & Ht) Hle' Hf Hmax Hnd Hlt.
  destruct (fresh_skip _ _ _ c _ _ Hle Hf Hmax Hnd Hlt) as [Hn Hin].
  rewrite (live_cons c'). rewrite live_cons in *. destruct Ht as [->|[->|(Hnone & k & -> & Hk)]].
  - done.
  - destruct (token_of c) as [t|]; [|done]. apply NoDup_cons in Hnd as [Hni Hnd]. apply Forall_cons in Hlt as [Ht Hlt].
    split; [|intros t' [->|Hi]%elem_of_cons; [left; by left|by apply Hin]]. apply NoDup_cons. split; [|done].
    intros Hi. destruct Hf as [_ Hf]; [done|done|eapply Forall_impl; [exact Hlt|]; cbn; lia|].
    apply Hf in Hi as [Hi|Hi]; [done|lia].
  - rewrite Hnone in *. rewrite N.mod_small by lia. split.
    + apply NoDup_cons. split; [|done]. intros Hi.
      destruct Hf as [_ Hf]; [done|done|eapply Forall_impl; [exact Hlt|]; cbn; lia|].
      apply Hf in Hi as [Hi|Hi]; [|lia]. rewrite Forall_forall in Hlt. apply Hlt in Hi. lia.
    + intros t [->|Hi]%elem_of_cons; [right; lia|by apply Hin].
Qed.

Lemma poll_conns_passed fuel rts now cs : ∀ ready tokens w cs' ready' tokens' w',
  Forall (conn_ok rts) cs →
  poll_conns fuel rts now cs ready tokens w = Some (cs', ready', tokens', w') →
  (tokens ≤ tokens')%N ∧ Forall (conn_ok rts) cs' ∧ (∀ idx, held idx cs' ≤ held idx cs)
  ∧ fresh_from tokens tokens' (live cs) (live cs').
Proof.
  induction cs as [|c cs IH]; intros ready tokens w cs' ready' tokens' w' Hok; cbn [poll_conns].
  { intros [= <- <- <- <-]. split_and!; [lia|done|done|]. intros _ Hnd Hlt. split; [done|]. by left. }
  apply Forall_cons in Hok as [(rt & Hrt & Hb) Hok]. rewrite Hrt. cbn [mbind option_bind].
  destruct (poll_conn _ _ _ _ _ _ _) as [[[[kept ready1] tokens1] w1]|] eqn:Hp; [|done]. cbn [mbind option_bind].
  destruct (poll_conns _ _ _ _ _ _ _) as [[[[cs1 ready2] tokens2] w2]|] eqn:Hps; [|done]. cbn [mbind option_bind].
  apply poll_conn_passed in Hp; [|done]. apply IH in Hps as (Hle & Hok1 & Hheld & Hf); [|done].
  destruct kept as [c'|]; intros [= <- <- <- <-].
  - pose proof Hp as (Hle1 & Hs & Hb' & _). split_and!.
    + lia.
    + apply Forall_cons. split; [|done]. exists rt. split; [by rewrite (proj1 Hs)|by apply Hb'].
    + intros idx. rewrite !held_cons, (seated_same _ _ _ Hs). specialize (Hheld idx). lia.
    + by eapply fresh_cons.
  - destruct Hp as [Hle1 _]. split_and!; [lia|done| |by eapply fresh_skip].
    intros idx. rewrite held_cons. specialize (Hheld idx). lia.
Qed.

(** *** Accepting *)

Definition seats_ok (rts : list ListenerRt) (cs : list (Conn H)) : Prop :=
  ∀ idx rt, rts !! idx = Some rt → held idx cs ≤ max_conns rt.

Lemma held_snoc idx c cs : held idx (cs ++ [c]) = held idx cs + (if seated idx c then 1 else 0).
Proof. unfold held. rewrite filter_app, length_app. f_equal. rewrite filter_cons. by destruct (seated idx c); case_decide. Qed.

Lemma held_source idx cs : length (filter (λ c, counted c = true ∧ c_listener c = idx) cs) = held idx cs.
Proof.
  unfold held. f_equal. apply list_filter_iff. intros c. unfold seated.
  by rewrite andb_true_iff, bool_decide_eq_true.
Qed.

Lemma accept_loop_ok fuel rts idx rt : ∀ cs w cs' w',
  rts !! idx = Some rt → Forall (conn_ok rts) cs → seats_ok rts cs →
  accept_loop fuel idx rt cs w = Some (cs', w') →
  Forall (conn_ok rts) cs' ∧ seats_ok rts cs' ∧ live cs' = live cs.
Proof.
  induction fuel as [|fuel IH]; intros cs w cs' w' Hrt Hok Hseats; [done|]. cbn [accept_loop].
  destruct (accept idx w) as [[s|] w1]; [|by intros [= <- <-]].
  destruct (set_nonblocking s w1) as [[] w2]; [|by apply IH].
  rewrite held_source. destruct (if bool_decide _ then _ else _) as [cnt st] eqn:Hc.
  destruct (instant_now w2) as [now w3]. intros Hl.
  assert (Hnew : live (cs ++ [MkConn s idx now cnt st]) = live cs ∧ (cnt = true → held idx cs < max_conns rt)
                 ∧ buffer_ok rt (MkConn s idx now cnt st)).
  { unfold live. rewrite omap_app. case_bool_decide; simplify_eq; rewrite app_nil_r;
      (split_and!; [done|intros|by (try left)]); [done|lia]. }
  destruct Hnew as (Hlive & Hcnt & Hb). eapply IH in Hl as (Hok' & Hs' & Hl'); [|done| |].
  - split_and!; [done..|by rewrite Hl'].
  - apply Forall_app. split; [done|]. apply Forall_singleton. by exists rt.
  - intros i r Hr. rewrite held_snoc. unfold seated. cbn [counted c_listener].
    pose proof (Hseats _ _ Hr) as Hi. destruct cnt; cbn [andb]; [|lia]. destruct (decide (idx = i)) as [->|He].
    + rewrite bool_decide_true by done. simplify_eq. specialize (Hcnt eq_refl). lia.
    + rewrite bool_decide_false by done. lia.
Qed.

Lemma accept_all_ok fuel rts more : ∀ idx cs w cs' w',
  (∀ i rt, more !! i = Some rt → rts !! (idx + i) = Some rt) → Forall (conn_ok rts) cs → seats_ok rts cs →
  accept_all fuel idx more cs w = Some (cs', w') →
  Forall (conn_ok rts) cs' ∧ seats_ok rts cs' ∧ live cs' = live cs.
Proof.
  induction more as [|rt more IH]; intros idx cs w cs' w' Hm Hok Hs; cbn [accept_all]; [by intros [= <- <-]|].
  destruct (accept_loop _ _ _ _ _) as [[cs1 w1]|] eqn:Ha; [|done]. cbn [mbind option_bind].
  apply (accept_loop_ok _ rts) in Ha as (Hok1 & Hs1 & Hl1); [| |done..].
  - intros Hall. apply IH in Hall as (? & ? & Hl); [by rewrite Hl| |done..].
    intros i r Hr. rewrite Nat.add_succ_comm. by apply (Hm (S i)).
  - rewrite <-(Nat.add_0_r idx). by apply (Hm 0).
Qed.

(** *** The acceptor's state *)

Record bounded (b : Bound H) : Prop := {
  within : Forall (conn_ok (listeners b)) (conns b);
  seats : seats_ok (listeners b) (conns b);
  tokens_distinct : (tokens b ≤ 2 ^ 32)%N → NoDup (live (conns b)) ∧ Forall (λ t, t < tokens b)%N (live (conns b));
}.

Lemma poll_bounded fuel b w b' w' : bounded b → poll fuel b w = Some (b', w') → bounded b' ∧ listeners b' = listeners b.
Proof.
  intros [Hok Hs Ht]. unfold poll.
  destruct (accept_all _ _ _ _ _) as [[cs w1]|] eqn:Ha; [|done]. cbn [mbind option_bind].
  apply (accept_all_ok _ (listeners b)) in Ha as (Hok1 & Hs1 & Hl1); [|done..].
  destruct (instant_now w1) as [now w2].
  destruct (poll_conns _ _ _ _ _ _ _) as [[[[cs' ready'] tokens'] w3]|] eqn:Hp; [|done]. cbn [mbind option_bind].
  apply poll_conns_passed in Hp as (Hle & Hok' & Hheld & Hf); [|done]. intros [= <- <-].
  split; [split; cbn [listeners conns tokens]|done].
  - done.
  - intros idx rt Hrt. etrans; [apply Hheld|by apply Hs1].
  - intros Hmax. destruct Ht as [Hnd Hlt]; [lia|]. rewrite Hl1 in Hf.
    destruct Hf as [Hn Hin]; [done..|]. split; [done|]. apply Forall_forall. intros t Hi.
    rewrite Forall_forall in Hlt. apply Hin in Hi as [Hi|Hi]; [apply Hlt in Hi|]; lia.
Qed.

(** *** Answers *)

Lemma answer_conn_passed rt c token o ready w c' ready' w' tokens :
  holds c token = true → answer_conn c token o ready w = (c', ready', w') →
  passed rt c (Some c') tokens tokens ∧ (token_of c' = None ∨ token_of c' = token_of c).
Proof.
  unfold holds, answer_conn, turn, with_state. intros Hh.
  destruct (state c) as [buf hd|t|out off|t out off lc e] eqn:Hst; try done.
  - apply bool_decide_eq_true in Hh as ->.
    destruct o; repeat case_match; intros; simplify_eq; unfold passed, same_seat, buffer_ok, token_of; rewrite Hst; cbn;
      split_and!; try done; auto.
  - destruct o; repeat case_match; intros; simplify_eq; unfold passed, same_seat, buffer_ok, token_of; rewrite ?Hst;
      cbn; split_and!; try done; auto.
Qed.

Lemma live_app (cs cs' : list (Conn H)) : live (cs ++ cs') = live cs ++ live cs'.
Proof. apply omap_app. Qed.

Lemma answer_bounded b token o w b' w' :
  bounded b → answer b token o w = (b', w') → bounded b' ∧ listeners b' = listeners b.
Proof.
  intros Hb. unfold answer. destruct (list_find _ _) as [[i c]|] eqn:Hf; [|by intros [= <- <-]].
  apply list_find_Some in Hf as (Hi & Hh & _).
  destruct (answer_conn _ _ _ _ _) as [[c' ready'] w1] eqn:Ha. intros [= <- <-]. split; [|done].
  destruct Hb as [Hok Hs Ht].
  assert (Hc : conn_ok (listeners b) c) by by eapply Forall_lookup_1.
  destruct Hc as (rt & Hrt & Hbuf).
  destruct (answer_conn_passed rt _ _ _ _ _ _ _ _ (tokens b) Hh Ha) as [(_ & Hseat & Hbuf' & _) Htok].
  assert (Hlen : i < length (conns b)) by by eapply lookup_lt_Some.
  apply list_elem_of_split_length in Hi as (l1 & l2 & Hl & Hlen1).
  assert (Hl' : <[i := c']> (conns b) = l1 ++ c' :: l2).
  { rewrite Hl, insert_app_r_alt by lia. by rewrite Hlen1, Nat.sub_diag. }
  rewrite Hl'. rewrite Hl in Hok, Hs, Ht. split; cbn [listeners conns tokens].
  - apply Forall_app in Hok as [Hok1 Hok2]. apply Forall_cons in Hok2 as [_ Hok2].
    apply Forall_app. split; [done|]. apply Forall_cons. split; [|done].
    exists rt. split; [by rewrite (proj1 Hseat)|by apply Hbuf'].
  - intros idx r Hr. specialize (Hs _ _ Hr). revert Hs. unfold held. rewrite !filter_app, !length_app.
    change (length (filter ?P (?x :: l2))) with (held idx (x :: l2)). rewrite !held_cons, (seated_same _ _ _ Hseat). done.
  - intros Hmax. destruct (Ht Hmax) as [Hnd Hlt].
    assert (Hsub : live (l1 ++ c' :: l2) `sublist_of` live (l1 ++ c :: l2)).
    { rewrite !live_app, !live_cons. apply sublist_app; [done|].
      destruct Htok as [->| ->]; [|done]. destruct (token_of c); [by apply sublist_cons|done]. }
    split; [by eapply sublist_NoDup|]. by eapply sublist_Forall.
Qed.

Lemma pop_bounded b : bounded b → ∀ rest, bounded (MkBound (listeners b) (conns b) rest (tokens b)).
Proof. intros [? ? ?] rest. by split. Qed.

Lemma try_next_bounded fuel b w i b' w' :
  bounded b → try_next fuel b w = Some (i, b', w') → bounded b' ∧ listeners b' = listeners b.
Proof.
  intros Hb. unfold try_next. destruct (poll _ _ _) as [[b1 w1]|] eqn:Hp; [|done]. cbn [mbind option_bind].
  apply poll_bounded in Hp as [Hb1 Hl]; [|done].
  destruct (ready b1); intros [= <- <- <-]; [done|]. split; [by apply pop_bounded|done].
Qed.

Lemma next_loop_bounded looks fuel deadline : ∀ b w i b' w',
  bounded b → next_loop looks fuel deadline b w = Some (i, b', w') → bounded b' ∧ listeners b' = listeners b.
Proof.
  induction looks as [|looks IH]; intros b w i b' w' Hb; [done|]. cbn [next_loop].
  destruct (poll _ _ _) as [[b1 w1]|] eqn:Hp; [|done]. cbn [mbind option_bind].
  apply poll_bounded in Hp as [Hb1 Hl]; [|done].
  destruct (ready b1); [|intros [= <- <- <-]; split; [by apply pop_bounded|done]].
  destruct (instant_now w1) as [now w2]. case_bool_decide; [by intros [= <- <- <-]|].
  intros [Hb' Hl']%IH; [|done]. by rewrite Hl'.
Qed.

(** What the drive loop may do with an acceptor, in any order, while the
    world goes on beside it. *)
Inductive drives : Bound H → Bound H → Prop :=
  | drives_poll fuel b w b' w' : poll fuel b w = Some (b', w') → drives b b'
  | drives_try_next fuel b w i b' w' : try_next fuel b w = Some (i, b', w') → drives b b'
  | drives_next_within looks fuel timeout b w i b' w' :
      next_within looks fuel timeout b w = Some (i, b', w') → drives b b'
  | drives_answer b token o w b' w' : answer b token o w = (b', w') → drives b b'.

Lemma drives_bounded b b' : bounded b → drives b b' → bounded b' ∧ listeners b' = listeners b.
Proof.
  intros Hb Hd. destruct Hd as [fuel b w b' w' Hp|fuel b w i b' w' Hp|looks fuel timeout b w i b' w' Hp|b token o w b' w' Hp].
  - by eapply poll_bounded.
  - by eapply try_next_bounded.
  - unfold next_within in Hp. destruct (instant_now w). by eapply next_loop_bounded.
  - by eapply answer_bounded.
Qed.

(** *** A pass comes to its end *)

Lemma write_loop_ends fuel s out now : ∀ off since w,
  length out - off < fuel → ∃ p w', write_loop fuel s out off now since w = Some (p, w') ∧ pending w' ≤ pending w.
Proof.
  induction fuel as [|fuel IH]; intros off since w Hf; [lia|]. cbn [write_loop].
  case_bool_decide; [by eauto|].
  pose proof (write_adds_none s (drop off out) w) as Hp.
  destruct (sock_write _ _ _) as [[[|n]| |] w1]; cbn [snd] in Hp; [by eauto| |by eauto..].
  destruct (IH (off + S n) now w1) as (p & w' & -> & Hle); [lia|]. eexists _, _. split; [done|lia].
Qed.

Lemma turn_spends c st w : ∃ c' w', turn c st w = (c', w') ∧ pending w' ≤ pending w.
Proof.
  unfold turn. pose proof (clock_adds_none w) as Hp. destruct (instant_now w) as [now w1]. by eexists _, _.
Qed.

Lemma refuse_ends c r ready tokens w :
  ∃ k rd t w', refuse c r ready tokens w = (k, rd, t, w') ∧ pending w' ≤ pending w.
Proof.
  unfold refuse. destruct (turn_spends c (writing (refusal_bytes r)) w) as (c' & w' & -> & Hp). by eexists _, _, _, _.
Qed.

Definition ends (r : option (option (Conn H) * list Ingress * N * W)) w : Prop :=
  ∃ k rd t w', r = Some (k, rd, t, w') ∧ pending w' ≤ pending w.

Lemma ends_le r w w' : pending w' ≤ pending w → ends r w' → ends r w.
Proof. intros Hle (k & rd & t & w1 & -> & Hp). eexists _, _, _, _. split; [done|lia]. Qed.

Lemma ends_refuse c r ready tokens w : ends (Some (refuse c r ready tokens w)) w.
Proof. destruct (refuse_ends c r ready tokens w) as (k & rd & t & w' & -> & Hp). by eexists _, _, _, _. Qed.

Lemma read_loop_ends fuel rt c : ∀ buf hd ready tokens w,
  pending w < fuel → ends (read_loop fuel rt c buf hd ready tokens w) w.
Proof.
  induction fuel as [|fuel IH]; intros buf hd ready tokens w Hf; [lia|]. cbn [read_loop].
  pose proof (read_adds_none (stream c) w) as Hle.
  destruct (sock_read _ _) as [[[|b bs]| |] w1] eqn:Hr; cbn [snd] in Hle.
  - by eapply ends_le, ends_refuse.
  - apply read_spends in Hr. pose proof (peer_adds_none (stream c) w1) as Hp.
    destruct (peer_addr _ _) as [peer w2]. cbn [snd] in Hp.
    destruct (parse_request _ _ _ _) as [[[t m|d]|e] tokens1].
    + destruct (turn_spends c (Waiting t) w2) as (c' & w3 & -> & Hp3). eexists _, _, _, _. split; [done|lia].
    + eapply ends_le; [|apply IH]; lia.
    + eapply ends_le; [|apply ends_refuse]. lia.
  - by eexists _, _, _, _.
  - by eexists _, _, _, _.
Qed.

Lemma poll_conn_ends fuel rt now c ready tokens w :
  pending w < fuel → ends (poll_conn fuel rt now c ready tokens w) w.
Proof.
  intros Hf. unfold poll_conn. destruct (state c) as [buf hd|t|out off|t out off lc e].
  - case_bool_decide; [apply ends_refuse|by apply read_loop_ends].
  - case_bool_decide; [apply ends_refuse|by eexists _, _, _, _].
  - case_bool_decide; [by eexists _, _, _, _|]. unfold write_pass.
    destruct (write_loop_ends (S (length out)) (stream c) out now off (since c) w) as (p & w1 & -> & Hp); [lia|].
    cbn [mbind option_bind]. pose proof (flush_adds_none (stream c) w1) as Hfl. destruct p as [[off' since']|]; [|by eexists _, _, _, _].
    case_bool_decide; eexists _, _, _, _; (split; [done|lia]).
  - unfold stream_pass.
    destruct (write_loop_ends (S (length out)) (stream c) out now off (since c) w) as (p & w1 & -> & Hp); [lia|].
    cbn [mbind option_bind]. pose proof (flush_adds_none (stream c) w1) as Hfl. destruct p as [[off' since']|]; [|by eexists _, _, _, _].
    destruct (_ && e); [eexists _, _, _, _; split; [done|lia]|].
    destruct (negb _ && _); [by eexists _, _, _, _|].
    destruct (if bool_decide _ then _ else _) as [out1 off1].
    pose proof (read_adds_none (stream c) w1) as Hrd. destruct (sock_read _ _) as [[[|b bs]| |] w2]; cbn [snd] in Hrd;
      try (eexists _, _, _, _; split; [done|lia]);
      (destruct (negb e && _); eexists _, _, _, _; (split; [done|lia])).
Qed.

Lemma poll_conns_ends fuel rts now cs : ∀ ready tokens w,
  Forall (conn_ok rts) cs → pending w < fuel → is_Some (poll_conns fuel rts now cs ready tokens w).
Proof.
  induction cs as [|c cs IH]; intros ready tokens w Hok Hf; [by eexists|]. cbn [poll_conns].
  apply Forall_cons in Hok as [(rt & -> & _) Hok]. cbn [mbind option_bind].
  destruct (poll_conn_ends fuel rt now c ready tokens w Hf) as (k & rd & t & w1 & -> & Hp). cbn [mbind option_bind].
  destruct (IH rd t w1) as [[[[cs' rd'] t'] w2] ->]; [done|lia|]. cbn [mbind option_bind]. by eexists.
Qed.

Lemma accept_loop_ends fuel idx rt : ∀ cs w,
  pending w < fuel → ∃ cs' w', accept_loop fuel idx rt cs w = Some (cs', w') ∧ pending w' ≤ pending w.
Proof.
  induction fuel as [|fuel IH]; intros cs w Hf; [lia|]. cbn [accept_loop].
  destruct (accept idx w) as [[s|] w1] eqn:Ha; [|apply accept_adds_none in Ha; by eexists _, _].
  apply accept_spends in Ha. pose proof (nonblocking_adds_none s w1) as Hnb.
  destruct (set_nonblocking s w1) as [[] w2]; cbn [snd] in Hnb.
  - destruct (if bool_decide _ then _ else _) as [cnt st].
    pose proof (clock_adds_none w2) as Hck. destruct (instant_now w2) as [now w3]. cbn [snd] in Hck.
    destruct (IH (cs ++ [MkConn s idx now cnt st]) w3) as (cs' & w' & -> & Hle); [lia|].
    eexists _, _. split; [done|lia].
  - destruct (IH cs w2) as (cs' & w' & -> & Hle); [lia|]. eexists _, _. split; [done|lia].
Qed.

Lemma accept_all_ends fuel rts : ∀ idx cs w,
  pending w < fuel → ∃ cs' w', accept_all fuel idx rts cs w = Some (cs', w') ∧ pending w' ≤ pending w.
Proof.
  induction rts as [|rt rts IH]; intros idx cs w Hf; cbn [accept_all]; [by eauto|].
  destruct (accept_loop_ends fuel idx rt cs w Hf) as (cs1 & w1 & -> & Hp1). cbn [mbind option_bind].
  destruct (IH (S idx) cs1 w1) as (cs' & w' & -> & Hp2); [lia|]. eexists _, _. split; [done|lia].
Qed.

Lemma poll_ends fuel b w : bounded b → pending w < fuel → is_Some (poll fuel b w).
Proof.
  intros [Hok Hs _] Hf. unfold poll.
  destruct (accept_all_ends fuel (listeners b) 0 (conns b) w Hf) as (cs & w1 & Ha & Hp1). rewrite Ha. cbn [mbind option_bind].
  apply (accept_all_ok _ (listeners b)) in Ha as (Hok1 & _ & _); [|done..].
  pose proof (clock_adds_none w1) as Hck. destruct (instant_now w1) as [now w2]. cbn [snd] in Hck.
  destruct (poll_conns_ends fuel (listeners b) now cs (ready b) (tokens b) w2) as [[[[cs' rd] t] w3] ->]; [done|lia|].
  by eexists.
Qed.

Lemma bind_bounded `{!ToLowercase} cfgs b : bind cfgs = Ok b → bounded b.
Proof.
  unfold bind. destruct (bind_from 0 cfgs) as [rts|]; [|done]. cbn. intros [= <-]. split; cbn.
  - apply Forall_nil_2.
  - intros idx rt _. apply Nat.le_0_l.
  - intros _. split; [apply NoDup_nil_2|apply Forall_nil_2].
Qed.

(** C27: However the drive loop uses it and whatever its clients do, a polled
    acceptor seats no more connections at a listener than it is configured
    for, holds no more of a request than the room for a head, what one read
    can bring and the configured body, and gives each connection that waits or streams a
    token of its own until the counter has gone round; and a pass over its
    sockets comes to its end. *)
Theorem acceptor_bounded `{!ToLowercase} cfgs b0 b :
  bind cfgs = Ok b0 → rtc drives b0 b →
  (∀ idx rt, listeners b0 !! idx = Some rt → held idx (conns b) ≤ max_conns rt)
  ∧ (∀ c buf hd, c ∈ conns b → state c = Reading buf hd →
      ∃ rt, listeners b0 !! c_listener c = Some rt ∧ length buf ≤ ROOM + N.to_nat (max_body rt))
  ∧ ((tokens b ≤ 2 ^ 32)%N → NoDup (live (conns b)))
  ∧ ∀ fuel w, pending w < fuel → is_Some (poll fuel b w).
Proof.
  intros Hbind Hr. assert (Hb : bounded b ∧ listeners b = listeners b0).
  { apply bind_bounded in Hbind. revert Hbind. induction Hr as [b|b b1 b2 Hd _ IH]; intros Hb; [done|].
    apply drives_bounded in Hd as [Hb1 <-]; [|done]. by apply IH. }
  destruct Hb as [Hb <-]. pose proof Hb as [Hok Hs Ht]. split_and!.
  - done.
  - intros c buf hd Hin Hst. rewrite Forall_forall in Hok. destruct (Hok _ Hin) as (rt & Hrt & Hbuf).
    exists rt. split; [done|]. apply held_request_bound. unfold buffer_ok in Hbuf. by rewrite Hst in Hbuf.
  - intros Hmax. by apply Ht.
  - intros fuel w. by apply poll_ends.
Qed.
End conns.
End PolledFacts.

(** ** At concrete inputs *)
Module ListenDemo.
Import Rest RestBody RestFacts ChunkFacts StreamedFacts ReplyFacts PolledFacts Listen Polled.

Lemma stream_reads_back_witness :
  let first := as_bytes "ab" in let cs := [as_bytes "cde"; []] in let last := as_bytes "f" in
  (N.of_nat (length (body_of first cs last)) ≤ MAX_BODY)%N
  ∧ (N.of_nat (length (streamed first cs last)) < 2 ^ 63)%N
  ∧ feed_pieces true [] [take 9 (streamed first cs last); drop 9 (streamed first cs last)] dechunker_default
    = Ret (Ok tt) (MkDechunker (as_bytes "abcdef") (length (streamed first cs last) - 2) true).
Proof.
  intros first cs last. assert (H1 : (N.of_nat (length (body_of first cs last)) ≤ MAX_BODY)%N) by by vm_compute.
  assert (H2 : (N.of_nat (length (streamed first cs last)) < 2 ^ 63)%N) by by vm_compute.
  split_and!; [done..|]. apply (proj1 (stream_reads_back true first cs last H1 H2)). by vm_compute.
Defined.

(** A listener that lets a program set one header, and programs that reply
    with a map: the one that is told apart by what the message is. *)
Definition owner : ListenerRt := MkListenerRt "in" "out" [] ["x-trace"] 1024 1000 4 100 false None.

Definition says (status : Z) (body : string) : Value :=
  VMap [(vstr "conn", vnat 7); (vstr "status", VInt status);
        (vstr "headers", VMap [(vstr "Set-Cookie", vstr "admin=1"); (vstr "X-Trace", vstr "t1")]);
        (vstr "body", vstr body)].

Definition forged : string :=
  "HTTP/1.1 200 OK" +:+ crlf +:+ "Set-Cookie: admin=1" +:+ crlf +:+ "Content-Length: 2" +:+ crlf +:+ crlf +:+ "hi".

#[local] Instance programs : Codec := {|
  write_value _ := Some [];
  read_value raw := Some (match raw with ["f"%char] => says 100 forged | _ => says 200 "hi" end, []);
|}.

Lemma response_reads_back_witness :
  plain_names owner
  ∧ ∃ fuel, read_lines fuel (outcome_bytes (parse_reply [] owner))
    = Some (response_lines 200 "application/octet-stream" [("x-trace", "t1")] (by_length (as_bytes "hi")), as_bytes "hi").
Proof.
  assert (Hn : plain_names owner) by (apply Forall_cons; split; [by apply has_newline_false|apply Forall_nil_2]).
  split; [done|]. exact (proj2 (proj2 (response_reads_back [] owner Hn))).
Defined.

(** A head read off its lines, as the connector's reader does. *)
#[local] Instance line_reader : Httparse := λ buf,
  match read_lines (S (length buf)) buf with
  | Some (first :: ls, rest) =>
      Ok (Some (MkParsed (parse_digits 0 (of_bytes (take 3 (drop 9 first))))
                  (omap (λ l, '(n, v) ← split_once ":" (of_bytes l); Some (n, as_bytes v)) ls)
                  (length buf - length rest)))
  | _ => Ok None
  end.

(** The headers a client has of a reply. *)
Definition headers_seen (raw : bytes) : option (N * list string) :=
  match final_head (outcome_bytes (parse_reply raw owner)) with
  | Some (Ok (Some h)) => Some (RestBody.status h, (head_headers h).*1)
  | _ => None
  end.

(** A program's reply may say a status that is not final.  The client then
    goes on to the next head, and the reply's body is that: headers which the
    deployment does not name, and a cookie that the program was not let set. *)
Lemma interim_status_forges_headers :
  headers_seen ["p"%char] = Some (200%N, ["content-type"; "x-trace"; "content-length"; "connection"])
  ∧ headers_seen ["f"%char] = Some (200%N, ["set-cookie"; "content-length"]).
Proof. by vm_compute. Qed.

(** *** A polled acceptor

    A world of connections that wait to be accepted and of bytes that wait to
    be read, and a client that always leaves the last byte for later. *)
Definition World : Type := nat * list bytes.

#[local] Instance slow_clients : Sockets World unit := {|
  accept idx w := match idx, w with 0, (S n, rs) => (Some tt, (n, rs)) | _, _ => (None, w) end;
  set_nonblocking _ w := (true, w);
  sock_read _ w := match w.2 with [] => (ReadBlock, w) | r :: rs => (ReadOk (take 2048 r), (w.1, rs)) end;
  sock_write _ bs w := if bool_decide (length bs ≤ 1) then (WriteBlock, w) else (WroteOk (length bs - 1), w);
  sock_flush _ w := w;
  peer_addr _ w := (None, w);
  instant_now w := (0%N, w);
  sleep _ w := w;
|}.

Definition asked : bytes := as_bytes ("GET / HTTP/1.1" +:+ crlf +:+ crlf).
#[local] Instance one_request : HttparseRequest := λ buf,
  if bool_decide (take (length asked) buf = asked) then Some (Some (MkRequestHead "GET" "/" [] (length asked))) else Some None.
#[local] Instance ascii_lower : ToLowercase := lowercase.

Lemma asked_within buf : take (length asked) buf = asked → length asked ≤ length buf.
Proof. intros Ht%(f_equal length). rewrite length_take in Ht. lia. Qed.

#[local] Instance one_request_laws : RequestLaws.
Proof.
  split; unfold http_request, one_request.
  - intros buf req. case_bool_decide as Ht; [|done]. intros [= <-]. cbn [rq_len].
    by apply asked_within.
  - intros buf req more. case_bool_decide as Ht; [|done]. intros [= <-].
    rewrite take_app_le by by apply asked_within. by rewrite bool_decide_true.
Qed.

#[local] Instance slow_clients_laws : SocketLaws World unit.
Proof.
  apply (Build_SocketLaws World unit _ (λ w, w.1 + length w.2)).
  - intros [] [n [|r rs]] bs w'; cbn; [done|]. intros [= <- <-]. rewrite length_take. lia.
  - intros [|idx] [[|n] rs] [] w'; cbn; try done. intros [= <-]. cbn. lia.
  - intros [|idx] [[|n] rs] w'; cbn; try done; intros [= <-]; done.
  - intros [] [n [|r rs]] b bs w'; cbn; [done|]. intros [= _ <-]. cbn. lia.
  - intros [] [n [|r rs]]; cbn; lia.
  - done.
  - intros [] bs w. cbn. by case_bool_decide.
  - done.
  - done.
  - done.
Qed.

Definition one_seat : list ListenerConfig :=
  [MkListenerConfig "http" "127.0.0.1:8080" "in" "out" 1024 1000 1 100 [] [] false 0].

(** Two clients at a listener for one: a request is taken, and the other
    client is written to. *)
Lemma acceptor_bounded_witness :
  ∃ b0 b w', bind one_seat = Ok b0 ∧ poll 5 b0 (2, [asked]) = Some (b, w')
    ∧ (state <$> conns b = [Waiting 1; Writing (refusal_bytes (503%N, CAP_TEXT)) (length (refusal_bytes (503%N, CAP_TEXT)) - 1)])
    ∧ held 0 (conns b) ≤ 1.
Proof.
  eexists _, _, _. split; [reflexivity|]. split; [vm_compute; reflexivity|]. split; [by vm_compute|].
  refine (proj1 (acceptor_bounded one_seat _ _ eq_refl _) 0 _ eq_refl).
  apply rtc_once, (drives_poll 5 _ (2, [asked]) _ (0, [])). vm_compute. reflexivity.
Defined.

(** *** A stream that is never caught up with *)
Definition streaming_owner : ListenerRt := MkListenerRt "in" "out" [] [] 1024 1000 4 100 true None.
Definition streaming_to (out : bytes) (off : nat) : Bound unit :=
  MkBound [streaming_owner] [MkConn tt 0 0 true (Streaming 5 out off 0 false)] [] 6.

(** A chunk of one byte, and a pass. *)
Definition round (b : Bound unit) : option (Bound unit) :=
  fst <$> poll 1 (answer b 5 (Chunk ["x"%char] false) (0, [])).1 (0, []).

Lemma chunk_taken out off :
  length out = S off →
  answer (streaming_to out off) 5 (Chunk ["x"%char] false) (0, [])
  = (streaming_to (out ++ chunk_bytes ["x"%char] false) off, (0, [])).
Proof.
  intros Hl. unfold answer. cbn [streaming_to conns list_find].
  rewrite decide_True by done. unfold answer_conn. cbn [state].
  rewrite bool_decide_false by (rewrite Hl, Nat.sub_succ_l, Nat.sub_diag by done; by vm_compute). done.
Qed.

Lemma chunk_sent out off :
  length out = S off →
  fst <$> poll 1 (streaming_to (out ++ chunk_bytes ["x"%char] false) off) (0, [])
  = Some (streaming_to (out ++ chunk_bytes ["x"%char] false) (off + 6)).
Proof.
  intros Hl. unfold poll. cbn [streaming_to listeners accept_all accept_loop accept slow_clients conns mbind option_bind].
  cbn [instant_now poll_conns c_listener lookup list_lookup mbind option_bind]. unfold poll_conn. cbn [state].
  unfold stream_pass. set (o := out ++ _). assert (Ho : length o = off + 7) by (unfold o; rewrite length_app, Hl; change (length (chunk_bytes ["x"%char] false)) with 6; lia).
  assert (Hw : write_loop (S (length o)) tt o off 0 0 (0, []) = Some (Some (off + 6, 0%N), (0, []))).
  { destruct (length o) as [|[|k]] eqn:Hk; [lia..|]. cbn [write_loop]. rewrite bool_decide_false by lia.
    cbn [sock_write slow_clients]. rewrite length_drop. rewrite bool_decide_false by lia.
    replace (length o - off - 1) with 6 by lia. rewrite bool_decide_false by lia.
    rewrite length_drop. by rewrite bool_decide_true by lia. }
  change (instant_now (0, [])) with (0%N, (0, []) : World). cbn iota beta. cbn [stream since]. rewrite Hw.
  cbn [mbind option_bind]. rewrite bool_decide_false by lia. done.
Qed.

Definition rounds (n : nat) (b : Bound unit) : option (Bound unit) := Nat.iter n (λ b, b ≫= round) (Some b).

(** The bytes that a stream owes are bounded, and what it holds is not: what
    has been written stays until all of it is, so with a client that is
    never quite through a stream grows by every chunk, and is never closed. *)
Lemma written_bytes_are_kept n out off :
  length out = S off →
  ∃ out', rounds n (streaming_to out off) = Some (streaming_to out' (off + 6 * n)) ∧ length out' = S (off + 6 * n).
Proof.
  intros Hl. induction n as [|n (out' & Hr & Hl')].
  - exists out. by rewrite Nat.mul_0_r, Nat.add_0_r.
  - exists (out' ++ chunk_bytes ["x"%char] false). split.
    + change (rounds (S n) ?b) with (rounds n b ≫= round). rewrite Hr. cbn [mbind option_bind]. unfold round.
      rewrite chunk_taken by done. cbn [fst]. rewrite chunk_sent by done. do 2 f_equal. lia.
    + rewrite length_app, Hl'. change (length (chunk_bytes ["x"%char] false)) with 6. lia.
Qed.

End ListenDemo.
