(* ===== verification/Serve.v ===== *)
(** * A deployment that runs ([crates/drt/src/start.rs])

    The host that honours park timeouts on its clock ([DeployHost]), the
    residency policy and the driver around the swarm ([Driver]), and the loop
    that takes requests from listeners to the root program and replies back
    ([Serve]); then what is proved of them. *)

From stdpp Require Import sorting.
From S2P Require Import Prelude.
From S2P Require Import Toy.
From S2P Require Import SwarmDemo.
From S2P Require Import Bytes.
From S2P Require Import Value.
From S2P Require Import Caps.
From S2P Require Import Config.
From S2P Require Import Node.
From S2P Require Import Hostcall.
From S2P Require Import Connector.
From S2P Require Import Engine.
From S2P Require Import Requests.
From S2P Require Import Msgpack.
From S2P Require Import Swarm.
From S2P Require Import SwarmQuiet.
From S2P Require Import SwarmInv.
From S2P Require Import SwarmKill.
From S2P Require Import SwarmSafe.
From S2P Require Import SwarmStep.
From S2P Require Import SwarmLive.
From S2P Require Import SwarmSpec.
From S2P Require Import Pump.
From S2P Require Import Args.
From S2P Require Import Listen.
From S2P Require Import ListenSpec.

(** ** The host with a clock *)

(** [Instant::now], in nanoseconds: a look at the clock. *)
Class Instants (C : Type) := look : C → N * C.

Record Park := MkPark { pk_wait : option WaitSet; pk_deadline : option N }.

Record DeployHost (C : Type) := MkDeployHost {
  dh_parked : gmap N Park;
  dh_tick : N;
  dh_active : gmap N N;
  park_floor : option N;
  dh_clock : C;
}.
Arguments MkDeployHost {C}. Arguments dh_parked {C}. Arguments dh_tick {C}. Arguments dh_active {C}.
Arguments park_floor {C}. Arguments dh_clock {C}.

Module DeployHost.
Section host.
Context {I C : Type} `{!InstanceOps I} `{!Instants C}.
Abbreviation T := (DeployHost C).
Implicit Types (h : T) (id : InstanceId) (inst : I).

Definition new (clock : C) : T := MkDeployHost ∅ 0 ∅ None clock.
Definition with_park_floor (floor : N) (clock : C) : T := MkDeployHost ∅ 0 ∅ (Some floor) clock.

Definition set_parked (p : gmap N Park) h : T := MkDeployHost p (dh_tick h) (dh_active h) (park_floor h) (dh_clock h).
Definition count h : T := MkDeployHost (dh_parked h) (dh_tick h + 1) (dh_active h) (park_floor h) (dh_clock h).
Definition worked id h : T :=
  MkDeployHost (dh_parked h) (dh_tick h) (<[id := dh_tick h]> (dh_active h)) (park_floor h) (dh_clock h).
Definition now h : N * T :=
  let '(t, c) := look (dh_clock h) in (t, MkDeployHost (dh_parked h) (dh_tick h) (dh_active h) (park_floor h) c).

(** Whom a look at the clock finds due, in the table's order. *)
Definition passed (t : N) (p : Park) : bool :=
  match pk_deadline p with Some d => bool_decide (d ≤ t)%N | None => false end.
Definition due (t : N) h : list InstanceId :=
  (λ e : N * Park, e.1) <$> filter (λ e, passed t e.2 = true) (map_to_list (dh_parked h)).

Definition wait_of id h : option WaitSet := p ← dh_parked h !! id; pk_wait p.

(** [Iterator::min]. *)
Definition least (l : list N) : option N :=
  match l with [] => None | x :: l => Some (fold_left N.min l x) end.
Definition next_deadline h : option N := least (omap (λ e : N * Park, pk_deadline e.2) (map_to_list (dh_parked h))).

Definition last_active id h : N := default 0%N (dh_active h !! id).

Definition as_millis (d : N) : N := d / 10 ^ 6.

Definition arm (wait : WaitSet) h : result (option N) string * T :=
  match timeout wait with
  | None => (Ok None, h)
  | Some timeout =>
      match match park_floor h with
            | Some floor => if bool_decide (timeout < floor)%N then Some floor else None
            | None => None
            end with
      | Some floor =>
          (Err ("a park with a " +:+ dec (as_millis timeout) +:+ "ms timeout is under this deployment's park floor of "
                +:+ dec (as_millis floor) +:+ "ms (residency.park_floor_ms): a parked instance's deadline is a wake rate, "
                +:+ "and one re-armed that often is a rebuild loop"), h)
      | None => let '(t, h) := now h in (Ok (Some (t + timeout)%N), h)
      end
  end.

(** What [fault] writes on the standard error is left out. *)
Definition fault id (why : string) h : Driven * T := (Faulted why, set_parked (delete id (dh_parked h)) h).

Definition note id (step : Step) h : Driven * T :=
  match step with
  | Parked wait =>
      match arm wait h with
      | (Ok deadline, h) => (Alive, set_parked (<[id := MkPark (Some wait) deadline]> (dh_parked h)) h)
      | (Err why, h) => fault id why h
      end
  | Done => (Exited, set_parked (delete id (dh_parked h)) h)
  end.

(** What a drive finds the instance parked on. *)
Definition park_of id inst h : result (option (WaitSet * option N)) string * I * T :=
  match dh_parked h !! id with
  | Some (MkPark (Some wait) deadline) => (Ok (Some (wait, deadline)), inst, h)
  | Some (MkPark None deadline) =>
      let '(wait, inst) := i_current_wait inst in (Ok ((λ w, (w, deadline)) <$> wait), inst, h)
  | None =>
      let '(wait, inst) := i_current_wait inst in
      match wait with
      | None => (Ok None, inst, h)
      | Some wait => let '(r, h) := arm wait h in (deadline ←? r; Ok (Some (wait, deadline)), inst, h)
      end
  end.

(** What it then does with it. *)
Inductive Move :=
  | Run
  | Resume (q : QueueHandle)
  | ResumeTimeout
  | Stay (wait : WaitSet) (deadline : option N).

Definition move (park : option (WaitSet * option N)) inst h : Move * I * T :=
  match park with
  | None => (Run, inst, h)
  | Some (wait, deadline) =>
      let '(fired, inst) := StepHost.find_fired wait (WaitSet.queues wait) inst in
      match fired, deadline with
      | Some q, _ => (Resume q, inst, h)
      | None, None => (Stay wait None, inst, h)
      | None, Some d =>
          let '(t, h) := now h in
          (if bool_decide (d ≤ t)%N then ResumeTimeout else Stay wait (Some d), inst, h)
      end
  end.

Definition after id (r : result Step EngineError * I) h : Driven * I * T :=
  let h := worked id h in
  let '(driven, h) := match r.1 with Ok step => note id step h | Err e => fault id (engine_error_text e) h end in
  (driven, r.2, h).

Definition perform id (m : Move) inst h : Driven * I * T :=
  match m with
  | Run => after id (i_run inst) h
  | Resume q => after id (i_resume q inst) h
  | ResumeTimeout => after id (i_resume_timeout inst) h
  | Stay wait deadline => (Alive, inst, set_parked (<[id := MkPark (Some wait) deadline]> (dh_parked h)) h)
  end.

Definition drive id (caps : CapSet) inst h : Driven * I * T :=
  match park_of id inst h with
  | (Err why, inst, h) => let '(driven, h) := fault id why h in (driven, inst, h)
  | (Ok park, inst, h) => let '(m, inst, h) := move park inst (count h) in perform id m inst h
  end.

Definition attached id h : T :=
  match dh_parked h !! id with
  | Some p => set_parked (<[id := MkPark None (pk_deadline p)]> (dh_parked h)) h
  | None => h
  end.
Definition released id h : T := set_parked (delete id (dh_parked h)) h.
End host.
End DeployHost.

#[export] Instance deploy_host {I C} `{!InstanceOps I, !Instants C} : SwarmHost (DeployHost C) I := {|
  h_drive := DeployHost.drive;
  h_attached := DeployHost.attached;
  h_detached _ h := h;
  h_released := DeployHost.released;
  h_ended h := ([], h);
  h_notices h := ([], h)
|}.

(** ** The arguments of the root program *)
Record ArgsDelivery := MkArgsDelivery { ad_pending : option bytes; ad_keys : nat }.

(** ** The driver *)
Module Driver.
Section driver.
Context {E I C conn fut W : Type} `{!InstanceOps I, !EngineOps E I, !Instants C, !Connectors conn fut W, !HostcallWire,
  !Codec, !RefWire, !PumpFuel}.
Abbreviation Deployment := (Swarm E (PumpHost (DeployHost C) conn fut W) I).
Abbreviation Mn := (M Deployment).
Implicit Types (s : Deployment) (root id : InstanceId).

Definition IDLE_TICK : N := 10 ^ 6.

Definition inner s : DeployHost C := ph_inner (host s).

(** The process has the one clock, which the host keeps. *)
Definition instant : Mn N :=
  s ← get_state;
  let '(t, h) := DeployHost.now (inner s) in
  put_state (set_host (PumpHost.set_inner h (host s)) s);; mret t.

(** *** Residency *)

Definition candidates root s : list (N * InstanceId) :=
  (λ id, (DeployHost.last_active id (inner s), id))
    <$> filter (λ id, (negb (bool_decide (id = root)) && resident s id && wake_on_message s id) = true) (ids s).

(** The order of the keys [(at, Reverse(raw))]. *)
Definition older (a b : N * InstanceId) : Prop := (a.1 < b.1)%N ∨ a.1 = b.1 ∧ (b.2 ≤ a.2)%N.
#[global] Instance older_dec : RelDecision older.
Proof. intros a b. unfold older. apply _. Defined.

Fixpoint evict (over : nat) (l : list (N * InstanceId)) : Mn unit :=
  match over, l with
  | 0, _ | _, [] => mret tt
  | S over', (_, id) :: l => r ← hibernate id; evict (if is_ok r then over' else over) l
  end.

Definition enforce_residency root (max_resident : nat) : Mn unit :=
  s ← get_state;
  let cs := candidates root s in
  if bool_decide (length cs ≤ max_resident) then mret tt
  else evict (length cs - max_resident) (merge_sort older cs).

(** *** Arguments *)

Definition runtime_sender : Sender := Sender.runtime NodePath.root.

Definition args_new (args : btree string ArgValue) : ArgsDelivery :=
  if bool_decide (args = []) then MkArgsDelivery None 0
  else MkArgsDelivery (write_value (args_to_msgpack args)) (length args).

Definition args_deliver (root : InstanceId) (a : ArgsDelivery) : Mn ArgsDelivery :=
  match ad_pending a with
  | None => mret a
  | Some msg =>
      r ← push root ARGS_QUEUE runtime_sender msg;
      mret (match r with
            | Ok _ => MkArgsDelivery None (ad_keys a)
            | Err UnknownQueue | Err (Limit _) => a
            | Err _ => MkArgsDelivery None (ad_keys a)
            end)
  end.

(** *** A step *)

Definition wake_one id : Mn unit :=
  s ← get_state;
  if resident s id then mret tt
  else r ← wake id; if is_ok r then mret tt else _ ← kill id; mret tt.

(** [wake_due]; a fault's line on the standard error is left out here, and
    those of what was lost below. *)
Definition wake_due : Mn unit :=
  t ← instant; s ← get_state; for_each (DeployHost.due t (inner s)) wake_one.

Definition step (fuel : nat) root (max_resident : option nat) (a : ArgsDelivery) : Mn (nat * ArgsDelivery) :=
  wake_due;;
  alive ← Swarm.step fuel;
  modify (λ s, set_host (PumpHost.take_lost (host s)).2 s);;
  a ← args_deliver root a;
  match max_resident with Some n => enforce_residency root n | None => mret tt end;;
  mret (alive, a).

Definition idle : Mn N :=
  s ← get_state;
  match DeployHost.next_deadline (inner s) with
  | Some d => t ← instant; mret (N.min (d - t) IDLE_TICK)
  | None => mret IDLE_TICK
  end.

(** [Outcome] and [Next] of [drive.rs]; a deployment asks only for time. *)
Inductive Outcome := RunExited | RunExceeded.
Inductive Next := Sleep (d : N) | Input | Stuck (for_space : bool) | RunDone (o : Outcome) | RunFailed (why : string).

Definition tick (fuel : nat) root (max_resident : option nat) (a : ArgsDelivery) : Mn (Next * ArgsDelivery) :=
  '(alive, a) ← step fuel root max_resident a;
  if bool_decide (alive = 0) then mret (RunDone RunExited, a) else d ← idle; mret (Sleep d, a).
End driver.
End Driver.

(** ** What the drive loop asks of a bound listener set ([listen::Acceptor]) *)
Class Acceptor (B : Type) := {
  listeners : B → list Listen.ListenerRt;
  try_next : B → option Listen.Ingress * B;
  next_within : N → B → option Listen.Ingress * B;
  answer : N → Listen.Outcome → B → B;
  owner_of : N → B → option nat;
}.

Record Held := MkHeld { hd_ingress : Listen.Ingress; hd_until : N }.

Record Serving (S B : Type) := MkServing { sv_sw : S; sv_bound : B; sv_held : list Held; sv_noted : list string; sv_args : ArgsDelivery }.
Arguments MkServing {S B}. Arguments sv_sw {S B}. Arguments sv_bound {S B}. Arguments sv_held {S B}.
Arguments sv_noted {S B}. Arguments sv_args {S B}.

(** ** The loop *)
Module Serve.
Section serve.
Context {E I C conn fut W B : Type} `{!InstanceOps I, !EngineOps E I, !Instants C, !Connectors conn fut W, !HostcallWire,
  !Codec, !RefWire, !PumpFuel, !Acceptor B}.
Abbreviation Deployment := (Swarm E (PumpHost (DeployHost C) conn fut W) I).
Abbreviation St := (Serving Deployment B).
Abbreviation Mn := (M St).
Implicit Types (root : InstanceId).

Definition NO_QUEUE_TEXT : string := Listen.text_line "the program declares no request queue".
Definition NOT_RESIDENT_TEXT : string := Listen.text_line "the root instance is not resident".

Definition set_sw (x : Deployment) (s : St) : St := MkServing x (sv_bound s) (sv_held s) (sv_noted s) (sv_args s).
Definition set_bound (x : B) (s : St) : St := MkServing (sv_sw s) x (sv_held s) (sv_noted s) (sv_args s).
Definition set_held (x : list Held) (s : St) : St := MkServing (sv_sw s) (sv_bound s) x (sv_noted s) (sv_args s).
Definition set_noted (x : list string) (s : St) : St := MkServing (sv_sw s) (sv_bound s) (sv_held s) x (sv_args s).
Definition set_args (x : ArgsDelivery) (s : St) : St := MkServing (sv_sw s) (sv_bound s) (sv_held s) (sv_noted s) x.

(** A call on the swarm, and an answer. *)
Definition on_sw {A} (m : M Deployment A) : Mn A := λ s,
  match m (sv_sw s) with
  | Ret a sw => Ret a (set_sw sw s)
  | Panic => Panic
  | Overflow => Overflow
  | OutOfFuel => OutOfFuel
  end.
Definition answered (token : N) (o : Listen.Outcome) : Mn unit := modify (λ s, set_bound (answer token o (sv_bound s)) s).
Definition refused (token status : N) (text : string) : Mn unit := answered token (Listen.Refused status text).

Definition listener_at (idx : nat) : Mn Listen.ListenerRt := s ← get_state; expect (listeners (sv_bound s) !! idx).

Definition deliver root (i : Listen.Ingress) : Mn (option Listen.Ingress) :=
  rt ← listener_at (Listen.listener i);
  r ← on_sw (push root (Listen.queue rt) Driver.runtime_sender (Listen.message i));
  match r with
  | Ok _ => mret None
  | Err UnknownQueue => mret (Some i)
  | Err (Gone | Unknown) => refused (Listen.token i) 503 NOT_RESIDENT_TEXT;; mret None
  | Err (Limit _) =>
      refused (Listen.token i) 503 (Listen.text_line "the request queue is full; try again");; mret None
  | Err _ => refused (Listen.token i) 500 (Listen.text_line "delivery failed");; mret None
  end.

(** The line that says the queue is absent is left out; that it has been
    said is kept. *)
Definition hold (undelivered : option Listen.Ingress) : Mn unit :=
  match undelivered with
  | None => mret tt
  | Some i =>
      rt ← listener_at (Listen.listener i);
      let grace := Listen.admit_wait rt in
      if bool_decide (grace = 0)%N then refused (Listen.token i) 503 NO_QUEUE_TEXT
      else
        modify (λ s, if bool_decide (Listen.queue rt ∈ sv_noted s) then s
                     else set_noted (sv_noted s ++ [Listen.queue rt]) s);;
        t ← on_sw Driver.instant;
        modify (λ s, set_held (sv_held s ++ [MkHeld i (t + grace)]) s)
  end.

(** One turn of the loop of [retry_held]. *)
Definition retry_one root (t : N) (h : Held) : Mn unit :=
  s ← get_state;
  match owner_of (Listen.token (hd_ingress h)) (sv_bound s) with
  | None => mret tt
  | Some _ =>
      r ← deliver root (hd_ingress h);
      match r with
      | None => mret tt
      | Some i =>
          if bool_decide (hd_until h ≤ t)%N then refused (Listen.token i) 503 NO_QUEUE_TEXT
          else modify (λ s, set_held (sv_held s ++ [MkHeld i (hd_until h)]) s)
      end
  end.

Fixpoint retry_loop (n : nat) root (t : N) : Mn unit :=
  match n with
  | 0 => mret tt
  | S n =>
      s ← get_state;
      match sv_held s with
      | [] => mret tt
      | h :: held => put_state (set_held held s);; retry_one root t h;; retry_loop n root t
      end
  end.

Definition retry_held root : Mn unit := t ← on_sw Driver.instant; s ← get_state; retry_loop (length (sv_held s)) root t.

(** *** Replies

    [instance_mut(root)], for one call on it. *)
Definition root_call {A} root (f : I → A * I) : Mn (option A) :=
  s ← get_state;
  match find (sv_sw s) root with
  | None => mret None
  | Some i => on_sw (inst_call i f)
  end.

Definition finish_one (rts : list Listen.ListenerRt) (raw : bytes) : Mn unit :=
  let token := Listen.reply_token raw in
  s ← get_state;
  match owner_of token (sv_bound s) with
  | None => mret tt
  | Some owner => rt ← expect (rts !! owner); answered token (Listen.parse_reply raw rt)
  end.

Definition pop_body (rts : list Listen.ListenerRt) root (q : QueueHandle) : Mn bool :=
  r ← root_call root (i_pop q);
  match r with
  | Some (Ok (Some raw)) => finish_one rts raw;; mret true
  | _ => mret false
  end.

Fixpoint replies_loop (fuel : nat) (rts : list Listen.ListenerRt) root (more : list Listen.ListenerRt)
    (drained : list string) : Mn unit :=
  match more with
  | [] => mret tt
  | rt :: more =>
      let q := Listen.reply_queue rt in
      if bool_decide (q ∈ drained) then replies_loop fuel rts root more drained
      else
        handle ← root_call root (i_queue q);
        match handle with
        | None => mret tt
        | Some None => replies_loop fuel rts root more (drained ++ [q])
        | Some (Some handle) => loop fuel (pop_body rts root handle);; replies_loop fuel rts root more (drained ++ [q])
        end
  end.

Definition pump_replies (fuel : nat) root : Mn unit :=
  s ← get_state; let rts := listeners (sv_bound s) in replies_loop fuel rts root rts [].

(** *** One time round

    For a deployment whose only block is its listeners, with nobody that
    watches; [stopping] is what the control endpoint says. *)
Definition take_up root (i : Listen.Ingress) : Mn unit := r ← deliver root i; hold r.

Definition next_body root : Mn bool :=
  s ← get_state;
  let '(i, b) := try_next (sv_bound s) in
  put_state (set_bound b s);;
  match i with Some i => take_up root i;; mret true | None => mret false end.

Definition until_next : Mn N :=
  s ← get_state;
  idle ← on_sw Driver.idle;
  match DeployHost.least (hd_until <$> sv_held s) with
  | Some until => t ← on_sw Driver.instant; mret (N.min idle (until - t))
  | None => mret idle
  end.

(** [true] while the deployment runs. *)
Definition pass (fuel : nat) root (max_resident : option nat) (stopping : bool) : Mn bool :=
  s ← get_state;
  '(alive, a) ← on_sw (Driver.step fuel root max_resident (sv_args s));
  modify (set_args a);;
  pump_replies fuel root;;
  retry_held root;;
  if bool_decide (alive = 0) || stopping then
    s ← get_state;
    for_each (sv_held s) (λ h, refused (Listen.token (hd_ingress h)) 503 NOT_RESIDENT_TEXT);;
    modify (set_held []);; mret false
  else
    sleep ← until_next;
    s ← get_state;
    let '(i, b) := next_within sleep (sv_bound s) in
    put_state (set_bound b s);;
    match i with Some i => take_up root i | None => mret tt end;;
    loop fuel (next_body root);;
    mret true.
End serve.
End Serve.

(** ** Park timeouts *)
Module ParkFacts.
Import DeployHost.
Section parks.
Context {I C : Type} `{!InstanceOps I} `{!Instants C}.
Abbreviation T := (DeployHost C).
Implicit Types (h : T) (id : InstanceId) (inst : I).

(** What the drive loop may do to a host while an instance waits: drive
    others, and it, as long as it stays; hibernate and wake anybody; release
    others; look at the clock. *)
Inductive meanwhile id : T → T → Prop :=
  | mw_other id' caps inst h : id' ≠ id → meanwhile id h (h_drive id' caps inst h).2
  | mw_stays caps inst h p inst1 h1 w d inst2 h2 :
      park_of id inst h = (Ok p, inst1, h1) → move p inst1 (count h1) = (Stay w d, inst2, h2) →
      meanwhile id h (h_drive id caps inst h).2
  | mw_detached id' h : meanwhile id h (h_detached (I := I) id' h)
  | mw_attached id' h : meanwhile id h (h_attached (I := I) id' h)
  | mw_released id' h : id' ≠ id → meanwhile id h (h_released (I := I) id' h)
  | mw_look h : meanwhile id h (now h).2.

Lemma arm_keeps wait h : dh_parked (arm wait h).2 = dh_parked h.
Proof. unfold arm, now. by repeat case_match; simplify_eq. Qed.

Lemma park_of_keeps id inst h : dh_parked (park_of id inst h).2 = dh_parked h.
Proof.
  unfold park_of. destruct (dh_parked h !! id) as [[[w|] d]|]; [done|by destruct (i_current_wait inst)|].
  destruct (i_current_wait inst) as [[w|] inst1]; [|done].
  pose proof (arm_keeps w h) as Ha. by destruct (arm w h).
Qed.

Lemma move_keeps p inst h : dh_parked (move p inst h).2 = dh_parked h.
Proof. unfold move, now. by repeat case_match; simplify_eq. Qed.

Lemma note_others id step h id' : id' ≠ id → dh_parked (note id step h).2 !! id' = dh_parked h !! id'.
Proof.
  intros Hne. unfold note, fault. destruct step as [w|]; [|by apply lookup_delete_ne].
  pose proof (arm_keeps w h) as Ha. destruct (arm w h) as [[d|e] h1]; cbn [snd dh_parked set_parked] in *; rewrite Ha.
  - by apply lookup_insert_ne.
  - by apply lookup_delete_ne.
Qed.

Lemma after_others id (r : result Step EngineError * I) h id' : id' ≠ id → dh_parked (after id r h).2 !! id' = dh_parked h !! id'.
Proof.
  intros Hne. unfold after. destruct r.1 as [step|e].
  - pose proof (note_others id step (worked id h) id' Hne) as Hn. by destruct (note id step (worked id h)).
  - by apply lookup_delete_ne.
Qed.

Lemma drive_others id caps inst h id' : id' ≠ id → dh_parked (drive id caps inst h).2 !! id' = dh_parked h !! id'.
Proof.
  intros Hne. unfold drive. pose proof (park_of_keeps id inst h) as Hp.
  destruct (park_of id inst h) as [[[p|e] inst1] h1]; cbn [snd] in Hp.
  - pose proof (move_keeps p inst1 (count h1)) as Hm. destruct (move p inst1 (count h1)) as [[m inst2] h2].
    cbn [snd count dh_parked] in Hm. rewrite <-Hp, <-Hm.
    destruct m; cbn [perform]; try by apply after_others. by apply lookup_insert_ne.
  - rewrite <-Hp. by apply lookup_delete_ne.
Qed.

Definition deadline_of id h : option (option N) := pk_deadline <$> dh_parked h !! id.

(** A kept deadline is what a drive goes by. *)
Lemma park_of_deadline id inst h d :
  deadline_of id h = Some d →
  ∃ p inst1, park_of id inst h = (Ok p, inst1, h)
    ∧ match p with Some (w, d') => d' = d | None => (i_current_wait inst).1 = None end.
Proof.
  unfold deadline_of, park_of. destruct (dh_parked h !! id) as [[[w|] d']|]; cbn; intros [= ->]; [by eexists _, _|].
  destruct (i_current_wait inst) as [[w|] inst1]; by eexists _, _.
Qed.

Lemma meanwhile_keeps id h h' d : meanwhile id h h' → deadline_of id h = Some d → deadline_of id h' = Some d.
Proof.
  unfold deadline_of. intros Hm Hd. destruct Hm as [id' caps inst h Hne|caps inst h p inst1 h1 w d' inst2 h2 Hp Hm|id' h|id' h|id' h Hne|h].
  - cbn [h_drive deploy_host]. by rewrite drive_others.
  - cbn [h_drive deploy_host]. unfold drive. rewrite Hp, Hm. cbn [perform snd set_parked dh_parked].
    rewrite lookup_insert_eq. cbn. f_equal.
    destruct (park_of_deadline id inst h d Hd) as (p' & i' & Hp' & Hd'). rewrite Hp' in Hp. simplify_eq.
    destruct p as [[w0 d0]|]; [|done]. subst d0. unfold move in Hm. by repeat case_match; simplify_eq.
  - done.
  - cbn [h_attached deploy_host]. unfold attached. destruct (dh_parked h !! id') as [q|] eqn:Hq; [|done].
    cbn [set_parked dh_parked]. destruct (decide (id' = id)) as [->|Hne].
    + rewrite lookup_insert_eq. rewrite Hq in Hd. done.
    + by rewrite lookup_insert_ne.
  - cbn [h_released deploy_host]. unfold released. cbn [set_parked dh_parked]. by rewrite lookup_delete_ne.
  - unfold now. by destruct (look _).
Qed.

Lemma due_spec id t h d : deadline_of id h = Some (Some d) → id ∈ due t h ↔ (d ≤ t)%N.
Proof.
  unfold deadline_of, due. intros Hd. destruct (dh_parked h !! id) as [p|] eqn:Hp; [|done]. cbn in Hd.
  rewrite list_elem_of_fmap. setoid_rewrite list_elem_of_filter. split.
  - intros ([id' p'] & -> & Hpass & Hin). apply elem_of_map_to_list in Hin. cbn in *. simplify_eq.
    unfold passed in Hpass. destruct (pk_deadline p); [|done]. simplify_eq. by apply bool_decide_eq_true in Hpass.
  - intros Hle. exists (id, p). split; [done|]. split; [|by apply elem_of_map_to_list].
    unfold passed. cbn [snd]. destruct (pk_deadline p); [|done]. simplify_eq. by apply bool_decide_eq_true.
Qed.

(** C26: A timeout is kept from when it is armed until it is answered.
    An instance that parks with a timeout is due that long after it parked
    and no sooner, whoever runs and however often it is hibernated and woken
    meanwhile; then, at a drive, a queue that is ready wins, the timeout is
    handed to it from that instant on, and before it the instance stays. *)
Theorem timeout_outlives_residency id wait T h0 h1 :
  note id (Parked wait) h0 = (Alive, h1) → timeout wait = Some T →
  let until := ((look (dh_clock h0)).1 + T)%N in
  (∀ floor, park_floor h0 = Some floor → (floor ≤ T)%N)
  ∧ ∀ h2, rtc (meanwhile id) h1 h2 →
    (∀ t, id ∈ due t h2 ↔ (until ≤ t)%N)
    ∧ ∀ inst, ∃ p inst1, park_of id inst h2 = (Ok p, inst1, h2)
      ∧ let '(m, _, _) := move p inst1 (count h2) in
        let t := (look (dh_clock h2)).1 in
        match p with
        | None => (i_current_wait inst).1 = None
        | Some (w, _) =>
            match m with
            | Resume q => (StepHost.find_fired w (WaitSet.queues w) inst1).1 = Some q
            | ResumeTimeout => (StepHost.find_fired w (WaitSet.queues w) inst1).1 = None ∧ (until ≤ t)%N
            | Stay _ d => (StepHost.find_fired w (WaitSet.queues w) inst1).1 = None ∧ (t < until)%N ∧ d = Some until
            | Run => False
            end
        end.
Proof.
  intros Hnote HT until. assert (Hd : (∀ floor, park_floor h0 = Some floor → (floor ≤ T)%N) ∧ deadline_of id h1 = Some (Some until)).
  { revert Hnote. unfold note, arm. rewrite HT. unfold now, until.
    destruct (look (dh_clock h0)) as [t0 c0]. destruct (park_floor h0) as [floor|]; [case_bool_decide as Hf|].
    - done.
    - intros [= <-]. split; [intros f [= <-]; lia|]. unfold deadline_of. cbn. by rewrite lookup_insert_eq.
    - intros [= <-]. split; [done|]. unfold deadline_of. cbn. by rewrite lookup_insert_eq. }
  destruct Hd as [Hfloor Hd]. split; [done|]. intros h2 Hr.
  assert (Hd2 : deadline_of id h2 = Some (Some until)).
  { clear Hnote. induction Hr as [|h1 h h2 Hm _ IH]; [done|]. apply IH. by eapply meanwhile_keeps. }
  split; [intros t; by apply due_spec|]. intros inst.
  destruct (park_of_deadline id inst h2 _ Hd2) as (p & inst1 & Hp & Hpd). exists p, inst1. split; [done|].
  destruct p as [[w d]|]; [subst d|by destruct (move _ _ _) as [[]]].
  unfold move, now. cbn [count dh_clock]. destruct (StepHost.find_fired _ _ _) as [[q|] inst2]; [done|].
  destruct (look (dh_clock h2)) as [t c]. cbn [fst]. case_bool_decide; [done|]. split_and!; [done|lia|done].
Qed.
End parks.
End ParkFacts.

(** ** Residency *)
Module ResidencyFacts.
Import Driver.
#[local] Existing Instances any_name any_flow.

Section hibernating.
Context {E H I : Type} `{Ops : !InstanceOps I, EOps : !EngineOps E I, Host : !SwarmHost H I, Cdc : !Codec, RW : !RefWire}.
Implicit Types (s : Swarm E H I) (id : InstanceId).

(** The engine does not give up this instance. *)
Definition refuses s id : Prop :=
  ∃ sl inst e, slot_of s id = Some sl ∧ s_inst sl = Some inst ∧ (i_snapshot (host_identity s) inst).1 = Err e.

Lemma hibernate_settings s id i sl inst :
  find s id = Some i → slots s !! i = Some sl → s_alive sl = true → s_inst sl = Some inst → sw_allow_hibernation s = true →
  wp true (hibernate id) (λ _ s', host_identity s' = host_identity s ∧ sw_allow_hibernation s' = true) s.
Proof.
  intros Hf Hsl Hal Hinst Hallow. unfold hibernate. do 2 wp_step. rewrite Hf. wp_step. eapply wp_slot_at; [done|].
  rewrite Hal, Hallow. cbn [negb]. rewrite bool_decide_eq_false_2 by congruence.
  assert (Hlt : i < length (slots s)) by by eapply lookup_lt_Some.
  wp_step. eapply wp_inst_call; [done|]. rewrite Hinst. wp_step. eapply wp_expect; [done|].
  destruct (i_snapshot (host_identity s) inst).1 as [snap|e]; wp_step; [|done].
  eapply wp_upd_slot; [by apply list_lookup_insert_eq|].
  wp_step. eapply wp_upd_slot; [apply list_lookup_insert_eq; cbn; by rewrite length_insert|].
  unfold host_do. by wp_steps.
Qed.

(** What stays of a slot that is hibernated, or asked to. *)
Definition slot_kept (sl sl' : Slot I) : Prop :=
  s_id sl' = s_id sl ∧ s_alive sl' = s_alive sl ∧ s_wake_on_message sl' = s_wake_on_message sl.

Lemma hibernate_one s id sl inst :
  wf s → sw_allow_hibernation s = true → slot_of s id = Some sl → s_alive sl = true → s_inst sl = Some inst →
  ∃ r s', hibernate id s = Ret r s' ∧ wf s' ∧ sw_allow_hibernation s' = true ∧ host_identity s' = host_identity s
    ∧ host s' = (if is_ok r then h_detached id (host s) else host s)
    ∧ (∀ id', id' ≠ id → slot_of s' id' = slot_of s id')
    ∧ (∃ sl', slot_of s' id = Some sl' ∧ slot_kept sl sl'
        ∧ if is_ok r then s_inst sl' = None ∧ is_Some (s_snap sl') else is_Some (s_inst sl') ∧ refuses s id)
    ∧ ids s' = ids s.
Proof.
  intros Hwf Hallow Hsl Hal Hinst. pose proof Hsl as (i & Hf & Hi)%bind_Some.
  destruct (hibernate_spec s id i sl inst Hf Hi Hal Hinst Hallow) as (r & s' & Hrun & Hix & Hr).
  pose proof (wp_ret_inv _ _ _ _ _ _ (wp_hibernate (Fl := any_flow) true s id Hwf) Hrun) as (Hwf' & _).
  pose proof (wp_ret_inv _ _ _ _ _ _ (hibernate_settings s id i sl inst Hf Hi Hal Hinst Hallow) Hrun) as [Hid Hal'].
  assert (Hslots : ∃ sl', slots s' = <[i := sl']> (slots s) ∧ slot_kept sl sl' ∧ host s' = (if is_ok r then h_detached id (host s) else host s)
    ∧ if is_ok r then s_inst sl' = None ∧ is_Some (s_snap sl') else is_Some (s_inst sl') ∧ refuses s id).
  { destruct (i_snapshot (host_identity s) inst).1 as [snap|e] eqn:Hsn.
    - destruct Hr as (-> & Hh & Hs). eexists. split; [exact Hs|]. split; [done|]. split; [exact Hh|]. split; [done|by eexists].
    - destruct Hr as ((why & ->) & Hh & Hs). eexists. split; [exact Hs|]. split; [done|]. split; [exact Hh|]. split; [by eexists|by exists sl, inst, e]. }
  destruct Hslots as (sl' & Hs & Hk & Hh & Hg). assert (Hlt : i < length (slots s)) by by eapply lookup_lt_Some.
  assert (Hfind : ∀ id', find s' id' = find s id') by (intros id'; unfold find; by rewrite Hix).
  exists r, s'. split_and!; [done..| | |].
  - intros id' Hne. unfold slot_of. rewrite Hfind. destruct (find s id') as [j|] eqn:Hj; [|done]. cbn.
    rewrite Hs. apply list_lookup_insert_ne. intros ->.
    apply wf_find in Hf as (_ & a & Ha & Hida); [|apply Hwf]. apply wf_find in Hj as (_ & b & Hb & Hidb); [|apply Hwf].
    congruence.
  - exists sl'. split; [|done]. unfold slot_of. rewrite Hfind, Hf. cbn. rewrite Hs. by apply list_lookup_insert_eq.
  - unfold ids. rewrite Hs. destruct Hk as (Hki & Hka & _).
    rewrite <-(take_drop_middle _ _ _ Hi) at 2. rewrite (insert_take_drop _ _ _ Hlt).
    rewrite !filter_app, !fmap_app. f_equal. rewrite !filter_cons. unfold is_live. rewrite Hki, Hka.
    case_decide; [|done]. cbn. by rewrite Hki.
Qed.
End hibernating.

Section residency.
Context {E I C conn fut W : Type} `{!InstanceOps I, !EngineOps E I, !Instants C, !Connectors conn fut W, !HostcallWire,
  !Codec, !RefWire, !PumpFuel}.
Abbreviation Deployment := (Swarm E (PumpHost (DeployHost C) conn fut W) I).
Implicit Types (s : Deployment) (root id : InstanceId).

Definition hibernatable root s id : bool := negb (bool_decide (id = root)) && resident s id && wake_on_message s id.
(** Those whom the policy counts. *)
Definition awake root s : list InstanceId := filter (λ id, hibernatable root s id = true) (ids s).

Lemma candidates_awake root s : (candidates root s).*2 = awake root s.
Proof.
  unfold candidates, awake. rewrite <-list_fmap_compose. cbn. etrans; [|apply list_fmap_id]. by apply list_fmap_ext.
Qed.

Lemma NoDup_fmap_filter {A B} (f : A → B) (P : A → Prop) `{∀ x, Decision (P x)} (l : list A) :
  (∀ i j a b, l !! i = Some a → l !! j = Some b → P a → P b → f a = f b → i = j) → NoDup (f <$> filter P l).
Proof.
  induction l as [|x l IH]; intros Hinj; [apply NoDup_nil_2|].
  assert (Hl : NoDup (f <$> filter P l)).
  { apply IH. intros i j a b Ha Hb Hpa Hpb Hab. by injection (Hinj (S i) (S j) a b Ha Hb Hpa Hpb Hab). }
  rewrite filter_cons. case_decide as Hx; [|done]. cbn [fmap list_fmap]. apply NoDup_cons. split; [|done].
  intros (y & Hxy & [Hy Hin]%list_elem_of_filter)%list_elem_of_fmap.
  apply list_elem_of_lookup in Hin as [j Hj]. by specialize (Hinj 0 (S j) x y eq_refl Hj Hx Hy Hxy).
Qed.

Lemma ids_NoDup s : wf s → NoDup (ids s).
Proof.
  intros [Hwf _]. apply NoDup_fmap_filter. intros i j a b Ha Hb Hla _ Hab.
  unfold is_live in Hla. apply andb_true_iff in Hla as [Hz%bool_decide_eq_true _]. by eapply wf_unique.
Qed.

Lemma awake_spec root s id : wf s → id ∈ awake root s ↔
  id ≠ root ∧ wake_on_message s id = true ∧ ∃ sl inst, slot_of s id = Some sl ∧ s_alive sl = true ∧ s_inst sl = Some inst.
Proof.
  intros Hwf. unfold awake, hibernatable, resident. rewrite list_elem_of_filter, !andb_true_iff, negb_true_iff, bool_decide_eq_false.
  split.
  - intros [[[Hr Hres] Hw] _]. split_and!; [done..|]. destruct (slot_of s id) as [sl|]; [|done]. cbn in Hres.
    apply andb_true_iff in Hres as [Ha Hi]. apply bool_decide_eq_true in Hi as [inst Hi]. eauto.
  - intros (Hr & Hw & sl & inst & Hsl & Ha & Hi). rewrite Hsl. cbn. rewrite Ha, Hi, bool_decide_true by by eexists.
    split; [done|]. apply (wf_slot_of s id sl (proj1 Hwf)) in Hsl as (Hz & i & Hs & Hid).
    unfold ids. apply list_elem_of_fmap. exists sl. split; [done|]. apply list_elem_of_filter.
    split; [|by eapply list_elem_of_lookup_2]. unfold is_live. by rewrite Hid, bool_decide_true, Ha.
Qed.

Lemma filter_same {A} (p q : A → bool) (l : list A) :
  (∀ x, x ∈ l → q x = p x) → filter (λ x, q x = true) l = filter (λ x, p x = true) l.
Proof.
  induction l as [|x l IH]; intros Hx; [done|]. rewrite !filter_cons, (Hx x) by by left.
  rewrite IH by by intros y Hy; apply Hx; right. done.
Qed.

(** One fewer where one is put to sleep. *)
Lemma count_less (p q : InstanceId → bool) (l : list InstanceId) id :
  NoDup l → id ∈ l → p id = true → q id = false → (∀ x, x ≠ id → q x = p x) →
  length (filter (λ x, p x = true) l) = S (length (filter (λ x, q x = true) l)).
Proof.
  intros Hnd Hin Hp Hq Hx. induction l as [|x l IH]; [by apply not_elem_of_nil in Hin|].
  apply NoDup_cons in Hnd as [Hni Hnd]. rewrite !filter_cons. apply elem_of_cons in Hin as [<-|Hin].
  - rewrite decide_True, decide_False by congruence. cbn. f_equal. f_equal.
    symmetry. apply filter_same. intros y Hy. apply Hx. by intros ->.
  - assert (x ≠ id) by by intros ->. specialize (IH Hnd Hin).
    destruct (decide (p x = true)) as [Hpx|Hpx]; [rewrite decide_True by by rewrite Hx|rewrite decide_False by by rewrite Hx]; cbn; lia.
Qed.

(** What asking [l] in turn does, until [over] have gone. *)
Lemma evict_spec root over l s :
  wf s → sw_allow_hibernation s = true → NoDup l.*2 → Forall (λ c, c.2 ∈ awake root s) l →
  ∃ s' tried rest k, evict over l s = Ret tt s' ∧ l = tried ++ rest ∧ wf s'
    ∧ (∀ id, id ∉ tried.*2 → slot_of s' id = slot_of s id)
    ∧ (∀ c, c ∈ tried → (c.2 ∉ awake root s') ∧ (∃ sl', slot_of s' c.2 = Some sl' ∧ s_alive sl' = true ∧ is_Some (s_snap sl'))
                        ∨ c.2 ∈ awake root s' ∧ refuses s c.2)
    ∧ k ≤ over ∧ length (awake root s') + k = length (awake root s) ∧ (k = over ∨ rest = []).
Proof.
  revert over s. induction l as [|[at_ id] l IH]; intros over s Hwf Hallow Hnd Hin.
  { exists s, [], [], 0. destruct over; (split_and!; [done..|by intros c []%elem_of_nil|lia|lia|by auto]). }
  destruct over as [|over].
  { exists s, [], ((at_, id) :: l), 0. split_and!; [done..|by intros c []%elem_of_nil|lia|lia|by auto]. }
  cbn [fmap list_fmap snd] in Hnd. apply NoDup_cons in Hnd as [Hni Hnd]. apply Forall_cons in Hin as [Hid Hin]. cbn [snd] in Hid.
  pose proof Hid as (Hroot & Hwake & sl & inst & Hsl & Hal & Hinst)%awake_spec; [|done].
  destruct (hibernate_one s id sl inst Hwf Hallow Hsl Hal Hinst)
    as (r & s1 & Hrun & Hwf1 & Hallow1 & Hident & _ & Hothers & (sl1 & Hsl1 & (_ & Hka & Hkw) & Hgone) & Hids).
  assert (Hsame : ∀ x, x ≠ id → hibernatable root s1 x = hibernatable root s x).
  { intros x Hx. unfold hibernatable, resident, wake_on_message. by rewrite Hothers. }
  assert (Hin1 : Forall (λ c, c.2 ∈ awake root s1) l).
  { apply Forall_forall. intros c Hc. rewrite Forall_forall in Hin. specialize (Hin c Hc).
    assert (c.2 ≠ id) by (intros <-; apply Hni; by apply list_elem_of_fmap_2). unfold awake in *.
    rewrite Hids. apply list_elem_of_filter in Hin as [Hh ?]. apply list_elem_of_filter. by rewrite Hsame. }
  assert (Hback : ∀ x, x ≠ id → refuses s1 x → refuses s x).
  { intros x Hx (a & b & e & Ha & Hb & He). exists a, b, e. rewrite <-Hothers, <-Hident by done. done. }
  set (over1 := if is_ok r then over else S over).
  destruct (IH over1 s1 Hwf1 Hallow1 Hnd Hin1) as (s' & tried & rest & k & Hev & Hl & Hwf' & Hout & Htried & Hk & Hcount & Hrest).
  assert (Hnt : id ∉ tried.*2) by (intros Hx; apply Hni; rewrite Hl, fmap_app; by apply elem_of_app; left).
  pose proof (Hout _ Hnt) as Hsl'. rewrite Hsl1 in Hsl'.
  exists s', ((at_, id) :: tried), rest, (if is_ok r then S k else k). split_and!.
  - cbn [evict]. unfold mbind, M_bind. rewrite Hrun. done.
  - by rewrite Hl.
  - done.
  - intros x [Hx Hxt]%not_elem_of_cons. cbn in Hx. rewrite Hout by done. by apply Hothers.
  - intros c [->|Hc]%elem_of_cons; cbn [snd].
    + destruct (is_ok r); [left|right].
      * destruct Hgone as [Hi Hsnap]. split; [|exists sl1; split_and!; [done|congruence|done]].
        intros (_ & _ & a & b & Ha & _ & Hb)%awake_spec; [|done]. congruence.
      * destruct Hgone as [[i' Hi'] Hrf]. split; [|done]. apply awake_spec; [done|]. split; [done|].
        split; [|exists sl1, i'; split_and!; [done|congruence|done]].
        unfold wake_on_message in *. rewrite Hsl'. rewrite Hsl in Hwake. cbn in *. congruence.
    + destruct (Htried c Hc) as [?|[? Hrf]]; [by left|right]. split; [done|]. apply Hback; [|done].
      intros <-. apply Hnt. by apply list_elem_of_fmap_2.
  - unfold over1 in Hk. destruct (is_ok r); lia.
  - destruct (is_ok r) eqn:Er.
    + assert (Hless : length (awake root s) = S (length (awake root s1))).
      { unfold awake. rewrite Hids. apply (count_less _ _ _ id); [by apply ids_NoDup| | | |done].
        - by apply list_elem_of_filter in Hid as [_ ?].
        - by apply list_elem_of_filter in Hid as [? _].
        - unfold hibernatable, resident. rewrite Hsl1. cbn. destruct Hgone as [-> _].
          rewrite (bool_decide_false (is_Some _)) by by intros []. by rewrite !andb_false_r. }
      lia.
    + rewrite Hcount. unfold awake. rewrite Hids. f_equal. apply filter_same. intros x _.
      destruct (decide (x = id)) as [->|Hx]; [|by apply Hsame]. destruct Hgone as [[i' Hi'] _].
      unfold hibernatable, resident, wake_on_message. rewrite Hsl1, Hsl. cbn. rewrite Hka, Hkw, Hi', Hinst.
      by rewrite !(bool_decide_true (is_Some _)) by by eexists.
  - unfold over1 in Hrest. destruct (is_ok r); destruct Hrest as [->|]; auto.
Qed.

#[global] Instance older_total : Total older.
Proof. intros a b. unfold older. lia. Qed.
#[global] Instance older_trans : Transitive older.
Proof. intros a b c. unfold older. lia. Qed.

Lemma sorted_split (l1 l2 : list (N * InstanceId)) a b :
  StronglySorted older (l1 ++ l2) → a ∈ l1 → b ∈ l2 → older a b.
Proof.
  induction l1 as [|x l1 IH]; intros Hs Ha Hb; [by apply not_elem_of_nil in Ha|]. cbn in Hs. inversion Hs as [|? ? Hs' Hf]; subst.
  apply elem_of_cons in Ha as [->|Ha]; [|by apply IH]. rewrite Forall_forall in Hf. apply Hf, elem_of_app. by right.
Qed.

(** C25: The policy puts to sleep whom it must and nobody else.  After a pass
    of it no more instances are awake than the deployment allows, but for
    those the engine does not give up, and no fewer than it allows; whoever
    was put to sleep is alive in its snapshot and had been idle for longer
    than anyone left awake; and the root, and whoever would not hear a
    message in its sleep, are as they were. *)
Theorem residency_lru root n s (Hwf : wf s) (Hallow : sw_allow_hibernation s = true) :
  ∃ s', enforce_residency root n s = Ret tt s' ∧ wf s'
    ∧ (length (awake root s') ≤ n ∨ ∀ id, id ∈ awake root s' → refuses s id)
    ∧ min n (length (awake root s)) ≤ length (awake root s')
    ∧ (∀ a b, a ∈ candidates root s → b ∈ candidates root s → a.2 ∉ awake root s' → b.2 ∈ awake root s' →
         refuses s b.2 ∨ older a b)
    ∧ (∀ id, id ∉ awake root s → slot_of s' id = slot_of s id)
    ∧ ∀ id, id ∈ awake root s → id ∈ awake root s' ∨ ∃ sl', slot_of s' id = Some sl' ∧ s_alive sl' = true ∧ is_Some (s_snap sl').
Proof.
  unfold enforce_residency, mbind, M_bind, get_state. cbv beta iota zeta.
  pose proof (candidates_awake root s) as Hca.
  assert (Hlen : length (candidates root s) = length (awake root s)) by by rewrite <-Hca, length_fmap.
  case_bool_decide as Hn.
  { exists s. split_and!; [done|done|left; lia|lia| |done|by left].
    intros a b Ha _ Hna. destruct Hna. rewrite <-Hca. by apply list_elem_of_fmap_2. }
  set (cs := merge_sort older (candidates root s)).
  assert (Hperm : cs ≡ₚ candidates root s) by apply merge_sort_Permutation.
  assert (Hnd : NoDup cs.*2).
  { rewrite Hperm, Hca. by apply NoDup_filter, ids_NoDup. }
  assert (Hin : Forall (λ c, c.2 ∈ awake root s) cs).
  { apply Forall_forall. intros c Hc. rewrite <-Hca. rewrite Hperm in Hc. by apply list_elem_of_fmap_2. }
  destruct (evict_spec root (length (candidates root s) - n) cs s Hwf Hallow Hnd Hin)
    as (s' & tried & rest & k & Hev & Hl & Hwf' & Hout & Htried & Hk & Hcount & Hrest).
  assert (Hall : ∀ id, id ∈ awake root s → ∃ c, c ∈ cs ∧ c.2 = id).
  { intros id. rewrite <-Hca. intros (c & -> & Hc)%list_elem_of_fmap. exists c. by rewrite Hperm. }
  assert (Hstay : ∀ id, id ∉ tried.*2 → id ∈ awake root s' ↔ id ∈ awake root s).
  { intros id Hnt. rewrite !awake_spec by done. unfold wake_on_message. by rewrite (Hout _ Hnt). }
  assert (Hsub : ∀ id, id ∈ tried.*2 → id ∈ awake root s).
  { intros id (c & -> & Hc)%list_elem_of_fmap. rewrite Forall_forall in Hin. apply Hin. rewrite Hl. by apply elem_of_app; left. }
  exists s'. split_and!.
  - done.
  - done.
  - destruct Hrest as [->|Hrest]; [left; lia|right]. intros id Hid. rewrite Hrest, app_nil_r in Hl.
    assert (Hold : id ∈ awake root s).
    { destruct (decide (id ∈ tried.*2)); [by apply Hsub|by apply Hstay]. }
    destruct (Hall id Hold) as (c & Hc & <-). rewrite Hl in Hc. by destruct (Htried c Hc) as [[]|[_ ?]].
  - lia.
  - intros a b Ha Hb Hna Hb'. rewrite <-Hperm in Ha, Hb.
    assert (Hat : a ∈ tried).
    { rewrite Hl in Ha. apply elem_of_app in Ha as [?|Ha]; [done|]. destruct Hna. apply Hstay.
      - intros Hx. rewrite Hl, fmap_app in Hnd. apply NoDup_app in Hnd as (_ & Hd & _). apply (Hd _ Hx). by apply list_elem_of_fmap_2.
      - rewrite Forall_forall in Hin. apply Hin. rewrite Hl. by apply elem_of_app; right. }
    rewrite Hl in Hb. apply elem_of_app in Hb as [Hb|Hb]; [left; by destruct (Htried b Hb) as [[]|[_ ?]]|right].
    eapply sorted_split; [|done..]. rewrite <-Hl. apply StronglySorted_merge_sort; apply _.
  - intros id Hid. apply Hout. intros Hx. by apply Hid, Hsub.
  - intros id Hid. destruct (decide (id ∈ tried.*2)) as [Ht|Ht]; [|left; by apply Hstay].
    apply list_elem_of_fmap in Ht as (c & -> & Hc). destruct (Htried c Hc) as [[_ ?]|[? _]]; [by right|by left].
Qed.
End residency.
End ResidencyFacts.

(** ** The loop's promises *)
Module ServeFacts.
Import Serve.
#[local] Existing Instances any_name any_flow.

(** What the loop relies on in an acceptor: its listeners stay, whom it hands
    on and whom it owns belong to one of them, an answer concerns the
    connection it names alone, and, while tokens are told apart, one that
    refuses ends it. *)
Class AcceptorLaws (B : Type) `{!Acceptor B} := {
  a_ok : B → Prop;
  a_distinct : B → Prop;
  ok_answer t o (b : B) : a_ok b → a_ok (answer t o b);
  ok_try (b : B) : a_ok b → a_ok (try_next b).2;
  ok_within d (b : B) : a_ok b → a_ok (next_within d b).2;
  same_answer t o (b : B) : listeners (answer t o b) = listeners b;
  same_try (b : B) : a_ok b → listeners (try_next b).2 = listeners b;
  same_within d (b : B) : a_ok b → listeners (next_within d b).2 = listeners b;
  try_bound (b : B) i : a_ok b → (try_next b).1 = Some i → Listen.listener i < length (listeners b);
  within_bound d (b : B) i : a_ok b → (next_within d b).1 = Some i → Listen.listener i < length (listeners b);
  owner_bound t (b : B) i : a_ok b → owner_of t b = Some i → i < length (listeners b);
  distinct_answer t o (b : B) : a_distinct b → a_distinct (answer t o b);
  refused_ends t status text (b : B) : a_distinct b → owner_of t (answer t (Listen.Refused status text) b) = None;
  answer_others t t' o (b : B) : t' ≠ t → owner_of t' (answer t o b) = owner_of t' b;
}.

Section serve.
Context {E I C conn fut W B : Type} `{!InstanceOps I, !EngineOps E I, !Instants C, !Connectors conn fut W, !HostcallWire,
  !Codec, !RefWire, !RefWireLaws, !PumpFuel, !Acceptor B, !AcceptorLaws B}.
Abbreviation Deployment := (Swarm E (PumpHost (DeployHost C) conn fut W) I).
Abbreviation St := (Serving Deployment B).
Implicit Types (s : St) (sw : Deployment) (root : InstanceId).

Lemma wp_on_sw {A} t (m : M Deployment A) (Q : A → St → Prop) s :
  wp t m (λ a sw, Q a (set_sw sw s)) (sv_sw s) → wp t (on_sw m) Q s.
Proof. unfold wp, on_sw. by destruct (m (sv_sw s)). Qed.

Lemma wf_host f sw : wf sw → wf (set_host f sw).
Proof. intros Hwf. apply (wf_settings sw); try done. apply Hwf. Qed.

Lemma wp_instant t (Q : N → Deployment → Prop) sw :
  (∀ n h, Q n (set_host h sw)) → wp t Driver.instant Q sw.
Proof. intros HQ. unfold Driver.instant. do 2 wp_step. destruct (DeployHost.now _) as [n h]. by wp_steps. Qed.

Definition tok (h : Held) : N := Listen.token (hd_ingress h).

Record serving_ok s : Prop := {
  ok_sw : wf (sv_sw s);
  ok_bound : a_ok (sv_bound s);
  ok_held : Forall (λ h, Listen.listener (hd_ingress h) < length (listeners (sv_bound s))) (sv_held s);
}.

(** *** Held requests *)

Lemma push_returns root q from msg sw :
  wf sw → ∃ r sw', push root q from msg sw = Ret r sw' ∧ wf sw'.
Proof.
  intros Hwf. apply wp_sure; [apply sure_push|].
  eapply wp_mono; [apply (wp_quiet (Fl := any_flow) true 0); [by apply calm_push|done|lia]|]. by intros r s' [? _].
Qed.

(** What a try makes of a request, by what the push says: taken up, refused,
    or, while its queue is absent, kept until its grace is over. *)
Definition kept (t : N) (e : Held * result unit SwarmError) : bool :=
  bool_decide (e.2 = Err UnknownQueue) && bool_decide (t < hd_until e.1)%N.
Definition turned_away (t : N) (e : Held * result unit SwarmError) : bool := negb (is_ok e.2) && negb (kept t e).

(** The pushes that were tried, and what they said. *)
Inductive pushes (rts : list Listen.ListenerRt) root : list (Held * result unit SwarmError) → Deployment → Deployment → Prop :=
  | pushes_nil sw : pushes rts root [] sw sw
  | pushes_cons h rt r es sw sw1 sw2 :
      rts !! Listen.listener (hd_ingress h) = Some rt →
      push root (Listen.queue rt) Driver.runtime_sender (Listen.message (hd_ingress h)) sw = Ret r sw1 →
      pushes rts root es sw1 sw2 → pushes rts root ((h, r) :: es) sw sw2.

(** The refusal of a request that is turned away. *)
Definition refusal (r : result unit SwarmError) : N * string :=
  match r with
  | Err (Gone | Unknown) => (503%N, NOT_RESIDENT_TEXT)
  | Err (Limit _) => (503%N, Listen.text_line "the request queue is full; try again")
  | Err UnknownQueue => (503%N, NO_QUEUE_TEXT)
  | _ => (500%N, Listen.text_line "delivery failed")
  end.
Definition turn_away (r : result unit SwarmError) (h : Held) (b : B) : B :=
  answer (tok h) (Listen.Refused (refusal r).1 (refusal r).2) b.

Definition owned (b : B) (h : Held) : bool := bool_decide (is_Some (owner_of (tok h) b)).

Lemma refused_run token status text s :
  refused token status text s = Ret tt (set_bound (answer token (Listen.Refused status text) (sv_bound s)) s).
Proof. done. Qed.

Lemma run_get {S A} (f : S → M S A) (x : S) : (get_state ≫= f) x = f x x.
Proof. done. Qed.
Lemma run_bind {S A A'} (m : M S A) (f : A → M S A') (x y : S) a : m x = Ret a y → (m ≫= f) x = f a y.
Proof. unfold mbind, M_bind. by intros ->. Qed.

(** One try. *)
Lemma retry_one_spec root t h s :
  wf (sv_sw s) → Listen.listener (hd_ingress h) < length (listeners (sv_bound s)) →
  if owned (sv_bound s) h then
    ∃ rt r sw', listeners (sv_bound s) !! Listen.listener (hd_ingress h) = Some rt
      ∧ push root (Listen.queue rt) Driver.runtime_sender (Listen.message (hd_ingress h)) (sv_sw s) = Ret r sw' ∧ wf sw'
      ∧ retry_one root t h s
        = Ret tt (if kept t (h, r) then set_held (sv_held s ++ [h]) (set_sw sw' s)
                  else if turned_away t (h, r) then set_bound (turn_away r h (sv_bound s)) (set_sw sw' s)
                  else set_sw sw' s)
  else retry_one root t h s = Ret tt s.
Proof.
  intros Hwf Hl. unfold owned, retry_one. rewrite run_get. change (Listen.token (hd_ingress h)) with (tok h).
  destruct (owner_of (tok h) (sv_bound s)) as [o|]; [|by rewrite (bool_decide_false (is_Some _)) by by intros []].
  rewrite (bool_decide_true (is_Some _)) by by eexists. apply lookup_lt_is_Some in Hl as [rt Hrt].
  destruct (push_returns root (Listen.queue rt) Driver.runtime_sender (Listen.message (hd_ingress h)) _ Hwf) as (r & sw' & Hp & Hwf').
  exists rt, r, sw'. split_and!; [done..|].
  assert (Hd : deliver root (hd_ingress h) s = match r with
               | Ok _ => Ret None (set_sw sw' s)
               | Err UnknownQueue => Ret (Some (hd_ingress h)) (set_sw sw' s)
               | _ => Ret None (set_bound (turn_away r h (sv_bound s)) (set_sw sw' s))
               end).
  { unfold deliver. erewrite run_bind; [|unfold listener_at; rewrite run_get, Hrt; done].
    erewrite run_bind; [|unfold on_sw; by rewrite Hp]. by destruct r as [[]|[]]. }
  unfold turned_away, kept. cbn [fst snd]. destruct h as [i until]. cbn [hd_ingress hd_until] in *.
  destruct r as [[]|[]]; (erewrite run_bind; [|exact Hd]); cbv beta iota; cbn [is_ok negb];
    repeat case_bool_decide; simplify_eq; try done; lia.
Qed.
(** What the tries make of the acceptor, and whom it then owns. *)
Definition settle (t : N) (b : B) (e : Held * result unit SwarmError) : B := if turned_away t e then turn_away e.2 e.1 b else b.
Definition ended (t : N) (es : list (Held * result unit SwarmError)) : list N :=
  (λ e, tok e.1) <$> filter (λ e, turned_away t e = true) es.

Lemma settle_listeners t b e : listeners (settle t b e) = listeners b.
Proof. unfold settle, turn_away. destruct (turned_away t e); [apply same_answer|done]. Qed.

Lemma settle_ok t b e : a_ok b → a_ok (settle t b e).
Proof. unfold settle, turn_away. destruct (turned_away t e); [apply ok_answer|done]. Qed.

Lemma settle_distinct t b e : a_distinct b → a_distinct (settle t b e).
Proof. unfold settle, turn_away. destruct (turned_away t e); [apply distinct_answer|done]. Qed.

Lemma settle_leaves t b e k : k ≠ tok e.1 → owner_of k (settle t b e) = owner_of k b.
Proof. unfold settle, turn_away. intros Hk. destruct (turned_away t e); [by apply answer_others|done]. Qed.

Lemma settled_ok t es : ∀ b, a_ok b → a_ok (fold_left (settle t) es b) ∧ listeners (fold_left (settle t) es b) = listeners b.
Proof.
  induction es as [|e es IH]; intros b Hb; [done|]. cbn. rewrite <-(settle_listeners t b e). by apply IH, settle_ok.
Qed.

Lemma settled_owners t es : ∀ b k, a_distinct b → NoDup ((λ e, tok e.1) <$> es) →
  owner_of k (fold_left (settle t) es b) = if bool_decide (k ∈ ended t es) then None else owner_of k b.
Proof.
  induction es as [|e es IH]; intros b k Hb Hnd; [done|]. cbn [fold_left fmap list_fmap] in *.
  apply NoDup_cons in Hnd as [Hni Hnd]. rewrite IH by (done || by apply settle_distinct). unfold ended. rewrite filter_cons.
  assert (Hsub : ∀ x, x ∈ ended t es → x ∈ (λ e, tok e.1) <$> es).
  { intros x (y & -> & [_ Hy]%list_elem_of_filter)%list_elem_of_fmap. by apply (list_elem_of_fmap_2 (λ e, tok e.1)). }
  destruct (decide (k = tok e.1)) as [->|Hk].
  - rewrite bool_decide_false by by intros Hx%Hsub. unfold settle, turn_away. destruct (turned_away t e) eqn:Et.
    + rewrite decide_True by done. rewrite bool_decide_true by by left. by apply refused_ends.
    + rewrite decide_False by congruence. by rewrite bool_decide_false by by intros Hx%Hsub.
  - rewrite settle_leaves by done. case_decide; [|done]. cbn [fmap list_fmap].
    case_bool_decide as H1'; case_bool_decide as H2'; try done; exfalso; [apply H2'; by right|].
    apply elem_of_cons in H2' as [?|?]; done.
Qed.

Lemma retry_loop_spec root t rts todo : ∀ rest s,
  wf (sv_sw s) → listeners (sv_bound s) = rts → Forall (λ h, Listen.listener (hd_ingress h) < length rts) todo →
  NoDup (tok <$> todo) → sv_held s = todo ++ rest →
  ∃ s' es, retry_loop (length todo) root t s = Ret tt s' ∧ wf (sv_sw s')
    ∧ es.*1 = filter (λ h, owned (sv_bound s) h = true) todo
    ∧ pushes rts root es (sv_sw s) (sv_sw s')
    ∧ sv_held s' = rest ++ (filter (λ e, kept t e = true) es).*1
    ∧ sv_bound s' = fold_left (settle t) es (sv_bound s).
Proof.
  induction todo as [|h todo IH]; intros rest s Hwf Hl Hin Hnd Hh.
  { exists s, []. split_and!; [done..|constructor|by rewrite app_nil_r|done]. }
  apply Forall_cons in Hin as [Hi Hin]. cbn [fmap list_fmap] in Hnd. apply NoDup_cons in Hnd as [Hni Hnd].
  cbn [length retry_loop]. rewrite run_get, Hh. cbn [app].
  set (s0 := set_held (todo ++ rest) s).
  assert (Hput : ∀ A (f : unit → M St A), (put_state s0 ≫= f) s = f tt s0) by done. rewrite Hput.
  pose proof (retry_one_spec root t h s0 Hwf) as Hone. rewrite <-Hl in Hi. specialize (Hone Hi).
  rewrite filter_cons. destruct (owned (sv_bound s) h) eqn:Ho.
  - change (owned (sv_bound s0) h) with (owned (sv_bound s) h) in Hone. rewrite Ho in Hone.
    destruct Hone as (rt & r & sw' & Hrt & Hp & Hwf' & Hone). rewrite (run_bind _ _ _ _ _ Hone).
    set (s1 := if kept t (h, r) then _ else _) in *.
    assert (H1' : sv_sw s1 = sw' ∧ sv_bound s1 = settle t (sv_bound s) (h, r)
                  ∧ sv_held s1 = todo ++ rest ++ (if kept t (h, r) then [h] else [])).
    { unfold s1, settle, turned_away. cbn [fst snd].
      destruct (kept t (h, r)); [|destruct (is_ok r)]; cbn; rewrite ?andb_false_r, ?app_nil_r, <-?app_assoc; done. }
    destruct H1' as (Hsw & Hb & Hheld).
    assert (Hsame : ∀ x, x ∈ todo → owned (sv_bound s1) x = owned (sv_bound s) x).
    { intros x Hx. unfold owned. rewrite Hb, settle_leaves; [done|]. cbn. intros He. apply Hni. rewrite <-He.
      by apply list_elem_of_fmap_2. }
    destruct (IH (rest ++ (if kept t (h, r) then [h] else [])) s1) as (s' & es & Hrun & Hwf2 & Hes & Hpush & Hk & Hbd);
      [by rewrite Hsw|by rewrite Hb, settle_listeners|done..|].
    exists s', ((h, r) :: es). split_and!.
    + done.
    + done.
    + cbn. rewrite decide_True by done. f_equal. rewrite Hes. by apply ResidencyFacts.filter_same.
    + econstructor; [rewrite <-Hl; exact Hrt|exact Hp|by rewrite <-Hsw].
    + rewrite Hk, filter_cons, <-app_assoc. f_equal. destruct (kept t (h, r)); case_decide; done.
    + cbn [fold_left]. by rewrite Hbd, Hb.
  - change (owned (sv_bound s0) h) with (owned (sv_bound s) h) in Hone. rewrite Ho in Hone. rewrite (run_bind _ _ _ _ _ Hone).
    destruct (IH rest s0) as (s' & es & ? & ? & Hes & ? & ? & ?); [done..|].
    exists s', es. split_and!; done.
Qed.

(** C24: No request is lost between a listener and the program.  When held
    requests are taken up again, each whose client still waits is tried once,
    oldest first; those whose queue is still absent and whose grace is not
    over stay held, in their order, and are still owned; those the program
    has taken are owned still and held no longer; the others are answered
    and owned no longer; and no other connection is touched. *)
Theorem held_requests_settle root s :
  serving_ok s → a_distinct (sv_bound s) → NoDup (tok <$> sv_held s) →
  let now := DeployHost.now (Driver.inner (sv_sw s)) in
  ∃ s' es, retry_held root s = Ret tt s' ∧ serving_ok s'
    ∧ es.*1 = filter (λ h, owned (sv_bound s) h = true) (sv_held s)
    ∧ pushes (listeners (sv_bound s)) root es (set_host (PumpHost.set_inner now.2 (host (sv_sw s))) (sv_sw s)) (sv_sw s')
    ∧ sv_held s' = (filter (λ e, kept now.1 e = true) es).*1
    ∧ ∀ k, owner_of k (sv_bound s') = if bool_decide (k ∈ ended now.1 es) then None else owner_of k (sv_bound s).
Proof.
  intros [Hsw Hb Hheld] Hd Hnd. cbv zeta. unfold retry_held.
  destruct (DeployHost.now (Driver.inner (sv_sw s))) as [t h] eqn:Hnow. cbn [fst snd].
  set (sw1 := set_host (PumpHost.set_inner h (host (sv_sw s))) (sv_sw s)).
  assert (Hi : on_sw Driver.instant s = Ret t (set_sw sw1 s)).
  { unfold on_sw, Driver.instant. rewrite run_get, Hnow. done. }
  rewrite (run_bind _ _ _ _ _ Hi), run_get. change (sv_held (set_sw sw1 s)) with (sv_held s).
  destruct (retry_loop_spec root t (listeners (sv_bound s)) (sv_held s) [] (set_sw sw1 s))
    as (s' & es & Hrun & Hwf & Hes & Hp & Hk & Hbd); [by apply wf_host|done..|by rewrite app_nil_r|].
  exists s', es. cbn [set_sw sv_bound sv_sw] in *. split_and!; [done| |done|done|done|].
  - split; [done| |].
    + rewrite Hbd. by apply settled_ok.
    + assert (Hll : listeners (sv_bound s') = listeners (sv_bound s)).
      { rewrite Hbd. by apply settled_ok. }
      rewrite Hll, Hk. apply Forall_forall. intros x Hx. cbn in Hx.
      apply list_elem_of_fmap in Hx as (e & -> & [_ He]%list_elem_of_filter).
      assert (Hin : e.1 ∈ es.*1) by by apply list_elem_of_fmap_2. rewrite Hes in Hin.
      apply list_elem_of_filter in Hin as [_ Hin]. rewrite Forall_forall in Hheld. by apply Hheld.
  - intros k. rewrite Hbd. apply settled_owners; [done|].
    replace ((λ e, tok e.1) <$> es) with (tok <$> es.*1) by by rewrite <-list_fmap_compose.
    rewrite Hes. clear -Hnd. induction (sv_held s) as [|x l IH]; [apply NoDup_nil_2|]. cbn in Hnd. apply NoDup_cons in Hnd as [Hni Hnd].
    rewrite filter_cons. case_decide; [|by apply IH]. cbn. apply NoDup_cons. split; [|by apply IH].
    intros (y & Hy & [_ Hl]%list_elem_of_filter)%list_elem_of_fmap. apply Hni. rewrite Hy. by apply list_elem_of_fmap_2.
Qed.
(** *** Whatever runs, nothing panics *)

Lemma wp_push t root q from msg sw : wf sw → wp t (push root q from msg) (λ _ sw', wf sw') sw.
Proof.
  intros Hwf. eapply wp_mono; [apply (wp_quiet (Fl := any_flow) t 0); [by apply calm_push|done|lia]|]. by intros r s' [? _].
Qed.

Lemma wp_wake_one id sw : wf sw → wp false (Driver.wake_one id) (λ _ sw', wf sw') sw.
Proof.
  intros Hwf. unfold Driver.wake_one. do 2 wp_step. destruct (resident sw id); [by wp_step|]. wp_step.
  eapply wp_mono; [by apply wp_wake|]. intros r s1 [Hwf1 _]. destruct (is_ok r); [by wp_step|].
  wp_step. unfold kill. do 2 wp_step. destruct (find s1 id); [|by wp_steps].
  wp_step. eapply wp_mono; [by apply (wp_kill_subtree (Fl := any_flow))|]. intros u s2 [? _]. by wp_steps.
Qed.

Lemma wp_evict over l : ∀ sw, wf sw → wp false (Driver.evict over l) (λ _ sw', wf sw') sw.
Proof.
  revert over. induction l as [|[at_ id] l IH]; intros [|over] sw Hwf; cbn [Driver.evict]; try by apply wp_ret. wp_step.
  eapply wp_mono; [by apply (wp_hibernate (Fl := any_flow))|]. intros r s1 [Hwf1 _]. by apply IH.
Qed.

Lemma wp_driver_step fuel root mr a sw : wf sw → wp false (Driver.step fuel root mr a) (λ _ sw', wf sw') sw.
Proof.
  intros Hwf. unfold Driver.step. wp_step. unfold Driver.wake_due. wp_step. apply wp_instant. intros n h. do 2 wp_step.
  eapply wp_mono; [apply (wp_for_each false (λ sw, wf sw)); [by apply wf_host|intros id s1 _; by apply wp_wake_one]|].
  intros u s1 Hwf1. cbv beta in Hwf1. wp_step. eapply wp_mono; [by apply (wp_step_swarm false fuel any_flow any_flow)|].
  intros alive s2 [Hwf2 _]. do 3 wp_step. unfold Driver.args_deliver. destruct (ad_pending a).
  - wp_step. eapply wp_mono; [by apply wp_push, wf_host|]. intros r s3 Hwf3. do 2 wp_step.
    destruct mr; [|by wp_steps]. unfold Driver.enforce_residency. do 2 wp_step. case_bool_decide; [by wp_steps|].
    eapply wp_mono; [by apply wp_evict|]. intros u4 s4 Hwf4. cbv beta in Hwf4. by wp_steps.
  - do 2 wp_step. destruct mr; [|by wp_steps; apply wf_host]. unfold Driver.enforce_residency. do 2 wp_step.
    case_bool_decide; [by wp_steps; apply wf_host|].
    eapply wp_mono; [by apply wp_evict, wf_host|]. intros u4 s4 Hwf4. cbv beta in Hwf4. by wp_steps.
Qed.

(** The loop between two calls, for listeners that stay. *)
Definition good (rts : list Listen.ListenerRt) s : Prop := serving_ok s ∧ listeners (sv_bound s) = rts.

Lemma good_sw rts sw s : wf sw → good rts s → good rts (set_sw sw s).
Proof. intros Hwf [[? ? ?] Hl]. by split; [split|]. Qed.

Lemma good_answered rts t o s : good rts s → good rts (set_bound (answer t o (sv_bound s)) s).
Proof.
  intros [[? ? ?] Hl]. split; [|by cbn; rewrite same_answer]. split; cbn; [done|by apply ok_answer|by rewrite same_answer].
Qed.

Lemma wp_answered t o rts s : good rts s → wp false (answered t o) (λ _ s', good rts s') s.
Proof. intros Hg. unfold answered. wp_step. by apply good_answered. Qed.

Lemma wp_now rts s (Q : N → St → Prop) :
  good rts s → (∀ n s', good rts s' → Q n s') → wp false (on_sw Driver.instant) Q s.
Proof. intros Hg HQ. apply wp_on_sw, wp_instant. intros n h. apply HQ, good_sw; [apply wf_host, Hg|done]. Qed.

Lemma wp_deliver root rts i s :
  good rts s → Listen.listener i < length rts →
  wp false (deliver root i) (λ r s', good rts s' ∧ ∀ i', r = Some i' → i' = i) s.
Proof.
  intros Hg Hi. unfold deliver. wp_step. unfold listener_at. do 2 wp_step. pose proof (proj2 Hg) as Hl.
  apply lookup_lt_is_Some in Hi as [rt Hrt]. eapply wp_expect; [by rewrite Hl|]. wp_step. apply wp_on_sw.
  eapply wp_mono; [apply wp_push, Hg|]. intros r sw' Hwf. pose proof (good_sw rts sw' s Hwf Hg) as Hg'.
  assert (Hre : ∀ k st tx, wp false (refused k st tx;; mret None) (λ r s', good rts s' ∧ ∀ i', r = Some i' → i' = i) (set_sw sw' s)).
  { intros k st tx. wp_step. eapply wp_mono; [by apply wp_answered|]. intros u s1 Hg1. by wp_step. }
  destruct r as [[]|[]]; try apply Hre; wp_step; (split; [done|]); by intros i' [= <-].
Qed.

Lemma good_held rts l s : Forall (λ h, Listen.listener (hd_ingress h) < length rts) l → good rts s → good rts (set_held l s).
Proof. intros Hl [[? ? ?] Hs]. split; [split|]; [done..| |done]. cbn. by rewrite Hs. Qed.

Lemma held_valid rts s : good rts s → Forall (λ h, Listen.listener (hd_ingress h) < length rts) (sv_held s).
Proof. intros [[_ _ Hh] <-]. done. Qed.

Lemma wp_hold rts o s :
  good rts s → (∀ i, o = Some i → Listen.listener i < length rts) → wp false (hold o) (λ _ s', good rts s') s.
Proof.
  intros Hg Ho. destruct o as [i|]; [|by apply wp_ret]. specialize (Ho i eq_refl). cbn [hold]. wp_step. unfold listener_at.
  do 2 wp_step. pose proof Ho as [rt Hrt]%lookup_lt_is_Some. eapply wp_expect; [by rewrite (proj2 Hg)|].
  case_bool_decide; [by apply wp_answered|]. do 2 wp_step.
  set (s1 := if bool_decide _ then s else _). assert (Hg1 : good rts s1).
  { unfold s1. case_bool_decide; [done|]. destruct Hg as [[? ? ?] ?]. by split; [split|]. }
  wp_step. apply (wp_now rts); [done|]. intros t s2 Hg2. wp_step. apply good_held; [|done].
  apply Forall_app. split; [by apply held_valid|by apply Forall_singleton].
Qed.

Lemma wp_take_up root rts i s : good rts s → Listen.listener i < length rts → wp false (take_up root i) (λ _ s', good rts s') s.
Proof.
  intros Hg Hi. unfold take_up. wp_step. eapply wp_mono; [by apply wp_deliver|]. intros r s1 [Hg1 Hr].
  apply wp_hold; [done|]. by intros i' ->%Hr.
Qed.

Lemma wp_retry_held root rts s : good rts s → wp false (retry_held root) (λ _ s', good rts s') s.
Proof.
  intros Hg. unfold retry_held. wp_step. apply (wp_now rts); [done|]. intros t s1 Hg1. do 2 wp_step.
  generalize (length (sv_held s1)) as n. clear Hg. intros n. revert s1 Hg1.
  induction n as [|n IH]; intros s1 Hg1; cbn [retry_loop]; [by apply wp_ret|]. do 2 wp_step.
  pose proof (held_valid _ _ Hg1) as Hv. destruct (sv_held s1) as [|h l] eqn:Hh; [by wp_step|].
  apply Forall_cons in Hv as [Hi Hv]. do 2 wp_step. assert (Hg2 : good rts (set_held l s1)) by by apply good_held.
  wp_step. eapply (wp_mono _ _ (λ _ s', good rts s')); [|by intros u s3 Hg3; apply IH].
  unfold retry_one. do 2 wp_step. destruct (owner_of _ _); [|by wp_step]. wp_step.
  eapply wp_mono; [by apply wp_deliver|]. intros r s3 [Hg3 Hr]. destruct r as [i|]; [|by wp_step].
  specialize (Hr i eq_refl). subst i. case_bool_decide; [by apply wp_answered|]. wp_step. apply good_held; [|done].
  apply Forall_app. split; [by apply held_valid|by apply Forall_singleton].
Qed.

(** *** Replies *)

Lemma wp_root_call {A} root (f : I → A * I) rts (Q : option A → St → Prop) s :
  good rts s → (∀ r s', good rts s' → Q r s') → wp false (root_call root f) Q s.
Proof.
  intros Hg HQ. unfold root_call. do 2 wp_step. destruct (find (sv_sw s) root) as [i|] eqn:Hf; [|wp_step; by apply HQ].
  apply wp_on_sw. pose proof (ok_sw _ (proj1 Hg)) as Hwf.
  apply wf_find in Hf as (_ & sl & Hsl & _); [|apply Hwf].
  eapply wp_mono; [apply (wp_quiet (Fl := any_flow) false (S i) (inst_call i f));
    [by apply calm_inst_call|done|by eapply lookup_lt_Some]|].
  intros r sw' [Hwf' _]. by apply HQ, good_sw.
Qed.

Lemma wp_pump_replies fuel root rts s : good rts s → wp false (pump_replies fuel root) (λ _ s', good rts s') s.
Proof.
  intros Hg. unfold pump_replies. do 2 wp_step. rewrite (proj2 Hg).
  cut (∀ more drained s, good rts s → wp false (replies_loop fuel rts root more drained) (λ _ s', good rts s') s); [auto|].
  clear Hg s. intros more. induction more as [|rt more IH]; intros drained s Hg; cbn [replies_loop]; [by apply wp_ret|].
  case_bool_decide; [by apply IH|]. wp_step. apply (wp_root_call _ _ rts); [done|]. intros [[q|]|] s1 Hg1; [|by apply IH|by wp_step].
  wp_step. eapply wp_mono; [apply (wp_loop false (λ s, good rts s) (λ s, good rts s) (λ _, 0)); [done..|]|by intros u s2 Hg2; apply IH].
  intros s2 Hg2. unfold pop_body. wp_step. apply (wp_root_call _ _ rts); [done|]. intros r s3 Hg3.
  destruct r as [[[raw|]|]|]; [|by wp_step..]. wp_step. unfold finish_one. do 2 wp_step.
  destruct (owner_of _ _) as [o|] eqn:Ho; [|by do 2 wp_step].
  apply owner_bound in Ho; [|apply Hg3]. rewrite (proj2 Hg3) in Ho. apply lookup_lt_is_Some in Ho as [rt' Hrt'].
  wp_step. eapply wp_expect; [done|]. eapply wp_mono; [by apply wp_answered|]. intros u s4 Hg4. by wp_step.
Qed.

(** *** The pass *)
Lemma good_args rts a s : good rts s → good rts (set_args a s).
Proof. intros [[? ? ?] ?]. by split; [split|]. Qed.

Lemma wp_until_next rts s (Q : N → St → Prop) :
  good rts s → (∀ n s', good rts s' → Q n s') → wp false until_next Q s.
Proof.
  intros Hg HQ. unfold until_next. do 3 wp_step.
  assert (Hidle : wp false (on_sw Driver.idle) (λ _ s', good rts s') s).
  { apply wp_on_sw. unfold Driver.idle. do 2 wp_step. destruct (DeployHost.next_deadline _).
    - wp_step. apply wp_instant. intros now h. wp_step. apply good_sw; [apply wf_host, Hg|done].
    - wp_step. apply good_sw; [apply Hg|done]. }
  eapply wp_mono; [apply Hidle|]. intros idle s1 Hg1. destruct (DeployHost.least _); [|by wp_step; apply HQ].
  wp_step. apply (wp_now rts); [done|]. intros t s2 Hg2. wp_step. by apply HQ.
Qed.

Lemma good_bound rts b s : a_ok b → listeners b = rts → good rts s → good rts (set_bound b s).
Proof. intros Hb Hl [[? ? Hh] Hs]. split; [split|]; [done..| |done]. cbn. rewrite Hl. by rewrite Hs in Hh. Qed.

Lemma wp_pass fuel root mr stopping rts s : good rts s → wp false (pass fuel root mr stopping) (λ _ s', good rts s') s.
Proof.
  intros Hg. unfold pass. do 3 wp_step. apply wp_on_sw. eapply wp_mono; [apply wp_driver_step, Hg|].
  intros [alive a] sw1 Hwf1. do 3 wp_step.
  assert (Hg1 : good rts (set_args a (set_sw sw1 s))) by by apply good_args, good_sw.
  eapply wp_mono; [by apply wp_pump_replies|]. intros u2 s2 Hg2. cbv beta in Hg2. wp_step.
  eapply wp_mono; [by apply wp_retry_held|]. intros u3 s3 Hg3. cbv beta in Hg3. destruct (_ || stopping).
  - do 3 wp_step. eapply wp_mono; [apply (wp_for_each false (λ s, good rts s)); [done|intros h s4 _ Hg4; by apply wp_answered]|].
    intros u4 s4 Hg4. cbv beta in Hg4. do 3 wp_step. by apply good_held.
  - wp_step. apply (wp_until_next rts); [done|]. intros sleep s4 Hg4. do 2 wp_step.
    pose proof (ok_bound _ (proj1 Hg4)) as Hb4. pose proof (ok_within sleep _ Hb4) as Hok5. pose proof (same_within sleep _ Hb4) as Hl5.
    pose proof (λ i, within_bound sleep _ i Hb4) as Hi5.
    destruct (next_within sleep (sv_bound s4)) as [i b] eqn:Hnext. cbn [fst snd] in *. do 2 wp_step.
    assert (Hg5 : good rts (set_bound b s4)) by (apply good_bound; [done|by rewrite Hl5; apply Hg4|done]).
    wp_step. eapply (wp_mono _ _ (λ _ s', good rts s')).
    { destruct i as [i|]; [|by wp_step]. apply wp_take_up; [done|]. rewrite <-(proj2 Hg4). by apply Hi5. }
    intros u6 s6 Hg6. cbv beta in Hg6. wp_step.
    eapply wp_mono; [apply (wp_loop false (λ s, good rts s) (λ s, good rts s) (λ _, 0)); [done..|]|intros u8 s8 Hg8; cbv beta in Hg8; by wp_step].
    intros s7 Hg7. unfold next_body. do 2 wp_step.
    pose proof (ok_bound _ (proj1 Hg7)) as Hb7. pose proof (ok_try _ Hb7) as Hok8. pose proof (same_try _ Hb7) as Hl8.
    destruct (try_next (sv_bound s7)) as [i8 b8] eqn:Htry. cbn [fst snd] in *. do 2 wp_step.
    assert (Hg8 : good rts (set_bound b8 s7)) by (apply good_bound; [done|by rewrite Hl8; apply Hg7|done]).
    destruct i8 as [i8|]; [|by wp_step]. wp_step. eapply wp_mono; [apply (wp_take_up root rts)|].
    + done.
    + rewrite <-(proj2 Hg7). eapply try_bound; [done|]. by rewrite Htry.
    + intros u9 s9 Hg9. cbv beta in Hg9. by wp_step.
Qed.

(** Passes until the deployment is over. *)
Fixpoint passes (fuel : nat) root (mr : option nat) (stops : list bool) : M St bool :=
  match stops with
  | [] => mret true
  | stop :: stops => again ← pass fuel root mr stop; if (again : bool) then passes fuel root mr stops else mret false
  end.

(** C23: A deployment does not fall over.  Whatever the programs, the engine,
    the connectors and the clients do, and whoever is asked to stop it, no
    pass of the drive loop panics; between passes the table is well-formed,
    and every held request belongs to a listener. *)
Theorem serving_never_panics fuel root mr stops s :
  serving_ok s →
  match passes fuel root mr stops s with
  | Ret _ s' => serving_ok s' ∧ listeners (sv_bound s') = listeners (sv_bound s)
  | Panic => False
  | Overflow | OutOfFuel => True
  end.
Proof.
  intros Hs. assert (Hw : wp false (passes fuel root mr stops) (λ _ s', good (listeners (sv_bound s)) s') s).
  { assert (Hg : good (listeners (sv_bound s)) s) by by split. revert Hg. generalize (listeners (sv_bound s)) as rts. clear Hs.
    intros rts. revert s. induction stops as [|stop stops IH]; intros s Hg; cbn [passes]; [by apply wp_ret|].
    wp_step. eapply wp_mono; [by apply wp_pass|]. intros again s' Hg'. destruct again; [by apply IH|by wp_step]. }
  unfold wp in Hw. by destruct (passes _ _ _ _ _).
Qed.
End serve.
End ServeFacts.

(** ** The polled acceptor is one *)
Module PolledServe.
Import PolledFacts ServeFacts.

Section polled.
Context {W H : Type} `{!Polled.Sockets W H} `{!HttparseRequest} `{!Codec}.
Context (fuel : W → nat) (looks : nat).
Abbreviation B := (Polled.Bound H * W)%type.

(** With the fuel of a world; a pass that it does not suffice for leaves the
    set as it is. *)
Definition handed (b : B) (r : option (option Listen.Ingress * Polled.Bound H * W)) : option Listen.Ingress * B :=
  match r with Some (i, b, w) => (i, (b, w)) | None => (None, b) end.

#[local] Instance polled_acceptor : Acceptor B := {|
  listeners b := Polled.listeners b.1;
  try_next b := handed b (Polled.try_next (fuel b.2) b.1 b.2);
  next_within timeout b := handed b (Polled.next_within looks (fuel b.2) timeout b.1 b.2);
  answer t o b := Polled.answer b.1 t o b.2;
  owner_of t b := Polled.owner_of b.1 t;
|}.

(** *** What is handed on *)
Definition from (n : nat) (l : list Listen.Ingress) : Prop := Forall (λ i, Listen.listener i < n) l.

Lemma from_snoc n l i : from n l → Listen.listener i < n → from n (l ++ [i]).
Proof. intros Hl Hi. apply Forall_app. split; [done|by apply Forall_singleton]. Qed.

Lemma read_loop_from n f rt (c : Polled.Conn H) : ∀ buf hd ready tokens w k ready' tokens' w',
  Polled.c_listener c < n → from n ready →
  Polled.read_loop f rt c buf hd ready tokens w = Some (k, ready', tokens', w') → from n ready'.
Proof.
  induction f as [|f IH]; intros buf hd ready tokens w k ready' tokens' w' Hc Hr; [done|]. cbn [Polled.read_loop].
  destruct (Polled.sock_read _ _) as [[[|x xs]| |] w1]; try (unfold Polled.refuse; by repeat case_match; intros; simplify_eq).
  destruct (Polled.peer_addr _ _) as [peer w2]. destruct (Listen.parse_request _ _ _ _) as [[[t m|d]|e] tokens1].
  - unfold Polled.turn. destruct (Polled.instant_now w2) as [now w3]. intros [= <- <- <- <-]. by apply from_snoc.
  - by apply IH.
  - unfold Polled.refuse. destruct (Polled.turn _ _ _) as [c' w3]. by intros [= <- <- <- <-].
Qed.

Lemma poll_conn_from n f rt now (c : Polled.Conn H) ready tokens w k ready' tokens' w' :
  Polled.c_listener c < n → from n ready →
  Polled.poll_conn f rt now c ready tokens w = Some (k, ready', tokens', w') → from n ready'.
Proof.
  intros Hc Hr. unfold Polled.poll_conn. destruct (Polled.state c) as [buf hd|t|out off|t out off lc e].
  - case_bool_decide; [|by apply read_loop_from]. unfold Polled.refuse. case_match. intros. by simplify_eq.
  - case_bool_decide; unfold Polled.refuse; repeat case_match; intros; by simplify_eq.
  - case_bool_decide; [intros; by simplify_eq|]. unfold Polled.write_pass.
    destruct (Polled.write_loop _ _ _ _ _ _ _) as [[[[? ?]|] w1]|]; cbn [mbind option_bind]; [|intros; by simplify_eq|done].
    case_bool_decide; intros; by simplify_eq.
  - assert (Hclosed : ∀ why, from n (Polled.closed c t why ready)) by (intros why; by apply from_snoc).
    unfold Polled.stream_pass.
    destruct (Polled.write_loop _ _ _ _ _ _ _) as [[[[? ?]|] w1]|]; cbn [mbind option_bind]; [|intros; by simplify_eq|done].
    repeat case_match; intros; simplify_eq; auto.
Qed.

Lemma poll_conns_from n f rts now cs : ∀ ready tokens w cs' ready' tokens' w',
  Forall (λ c : Polled.Conn H, Polled.c_listener c < n) cs → from n ready →
  Polled.poll_conns f rts now cs ready tokens w = Some (cs', ready', tokens', w') → from n ready'.
Proof.
  induction cs as [|c cs IH]; intros ready tokens w cs' ready' tokens' w' Hcs Hr; cbn [Polled.poll_conns].
  { intros. by simplify_eq. }
  apply Forall_cons in Hcs as [Hc Hcs]. destruct (rts !! _) as [rt|]; [|done]. cbn [mbind option_bind].
  destruct (Polled.poll_conn _ _ _ _ _ _ _) as [[[[k ready1] tokens1] w1]|] eqn:Hp; [|done]. cbn [mbind option_bind].
  destruct (Polled.poll_conns _ _ _ _ _ _ _) as [[[[cs1 ready2] tokens2] w2]|] eqn:Hps; [|done]. cbn [mbind option_bind].
  intros. simplify_eq. eapply IH; [done| |done]. by eapply poll_conn_from.
Qed.

Context `{!RequestLaws} `{!SocketLaws W H}.

Definition steady (b : Polled.Bound H) : Prop := bounded b ∧ from (length (Polled.listeners b)) (Polled.ready b).

Lemma poll_steady f b w b' w' :
  steady b → Polled.poll f b w = Some (b', w') → steady b' ∧ Polled.listeners b' = Polled.listeners b.
Proof.
  intros [Hb Hr] Hp. pose proof (poll_bounded f b w b' w' Hb Hp) as [Hb' Hl]. split; [|done]. split; [done|]. rewrite Hl.
  revert Hp. unfold Polled.poll.
  destruct (Polled.accept_all _ _ _ _ _) as [[cs w1]|] eqn:Ha; [|done]. cbn [mbind option_bind].
  pose proof Hb as [Hok Hs _]. apply (accept_all_ok _ (Polled.listeners b)) in Ha as (Hok1 & _ & _); [|done..].
  destruct (Polled.instant_now w1) as [now w2].
  destruct (Polled.poll_conns _ _ _ _ _ _ _) as [[[[cs' ready'] tokens'] w3]|] eqn:Hps; [|done]. cbn [mbind option_bind].
  intros [= <- <-]. cbn. eapply poll_conns_from; [|exact Hr|exact Hps].
  eapply Forall_impl; [exact Hok1|]. intros c (rt & Hrt & _). by eapply lookup_lt_Some.
Qed.

Lemma steady_pop b i rest :
  steady b → Polled.ready b = i :: rest →
  steady (Polled.MkBound (Polled.listeners b) (Polled.conns b) rest (Polled.tokens b))
  ∧ Listen.listener i < length (Polled.listeners b).
Proof.
  intros [Hb Hr] He. rewrite He in Hr. apply Forall_cons in Hr as [Hi Hr]. split; [|done]. by split; [apply pop_bounded|].
Qed.

Lemma try_steady f b w i b' w' :
  steady b → Polled.try_next f b w = Some (i, b', w') →
  steady b' ∧ Polled.listeners b' = Polled.listeners b ∧ ∀ x, i = Some x → Listen.listener x < length (Polled.listeners b).
Proof.
  intros Hb. unfold Polled.try_next. destruct (Polled.poll _ _ _) as [[b1 w1]|] eqn:Hp; [|done]. cbn [mbind option_bind].
  apply poll_steady in Hp as [Hb1 Hl]; [|done].
  destruct (Polled.ready b1) as [|x rest] eqn:Hr; intros [= <- <- <-]; [done|].
  destruct (steady_pop _ _ _ Hb1 Hr) as [? Hx]. split_and!; [done..|]. rewrite <-Hl. by intros y [= <-].
Qed.

Lemma loop_steady f deadline n : ∀ b w i b' w',
  steady b → Polled.next_loop n f deadline b w = Some (i, b', w') →
  steady b' ∧ Polled.listeners b' = Polled.listeners b ∧ ∀ x, i = Some x → Listen.listener x < length (Polled.listeners b).
Proof.
  induction n as [|n IH]; intros b w i b' w' Hb; [done|]. cbn [Polled.next_loop].
  destruct (Polled.poll _ _ _) as [[b1 w1]|] eqn:Hp; [|done]. cbn [mbind option_bind].
  apply poll_steady in Hp as [Hb1 Hl]; [|done]. destruct (Polled.ready b1) as [|x rest] eqn:Hr.
  - destruct (Polled.instant_now w1) as [now w2]. case_bool_decide; [by intros [= <- <- <-]|].
    intros (? & Hl' & Hx)%IH; [|done]. rewrite <-Hl. by rewrite Hl'.
  - intros [= <- <- <-]. destruct (steady_pop _ _ _ Hb1 Hr) as [? Hx]. split_and!; [done..|]. rewrite <-Hl. by intros y [= <-].
Qed.

(** *** Answers *)

Lemma answer_split (b : Polled.Bound H) t o w :
  (∀ c, c ∈ Polled.conns b → Polled.holds c t = false) ∧ Polled.answer b t o w = (b, w)
  ∨ ∃ l1 c l2 c' ready' w', Polled.conns b = l1 ++ c :: l2 ∧ Polled.holds c t = true
      ∧ Polled.answer_conn c t o (Polled.ready b) w = (c', ready', w')
      ∧ Polled.answer b t o w = (Polled.MkBound (Polled.listeners b) (l1 ++ c' :: l2) ready' (Polled.tokens b), w')
      ∧ ∀ x, x ∈ l1 → Polled.holds x t = false.
Proof.
  unfold Polled.answer. destruct (list_find _ _) as [[i c]|] eqn:Hf; [right|left].
  - apply list_find_Some in Hf as (Hi & Hh & Hfirst).
    assert (Hlen : i < length (Polled.conns b)) by by eapply lookup_lt_Some.
    destruct (Polled.answer_conn _ _ _ _ _) as [[c' ready'] w'] eqn:Ha.
    pose proof Hi as Hsplit. apply list_elem_of_split_length in Hsplit as (l1 & l2 & Hl & Hlen1).
    exists l1, c, l2, c', ready', w'. split_and!; [done..| |].
    + rewrite Hl, insert_app_r_alt by lia. by rewrite Hlen1, Nat.sub_diag.
    + intros x [j Hj]%list_elem_of_lookup. apply not_true_iff_false, (Hfirst j x).
      * rewrite Hl. by apply lookup_app_l_Some.
      * rewrite Hlen1. by eapply lookup_lt_Some.
  - apply list_find_None in Hf. split; [|done]. intros c Hc. rewrite Forall_forall in Hf. by apply not_true_iff_false, Hf.
Qed.

Lemma holds_token (c : Polled.Conn H) t : Polled.holds c t = true → token_of c = Some t.
Proof.
  unfold Polled.holds, token_of. destruct (Polled.state c); try done; [intros ?%bool_decide_eq_true|intros [?%bool_decide_eq_true _]%andb_true_iff]; by subst.
Qed.

Lemma find_first_app {A} (p : A → bool) l1 l2 :
  find_first p (l1 ++ l2) = match find_first p l1 with Some x => Some x | None => find_first p l2 end.
Proof. induction l1 as [|x l1 IH]; [done|]. cbn. by destruct (p x). Qed.

Lemma answer_conn_from n (c : Polled.Conn H) t o ready w c' ready' w' :
  Polled.c_listener c < n → from n ready → Polled.answer_conn c t o ready w = (c', ready', w') → from n ready'.
Proof.
  intros Hc Hr. unfold Polled.answer_conn. assert (Hx : from n (Polled.closed c t Listen.Backlog ready)) by by apply from_snoc.
  repeat case_match; intros; simplify_eq; done.
Qed.

Lemma answer_conn_after (c : Polled.Conn H) t o ready w c' ready' w' :
  Polled.holds c t = true → Polled.answer_conn c t o ready w = (c', ready', w') →
  (token_of c' = None ∨ token_of c' = token_of c)
  ∧ (∀ status text, o = Listen.Refused status text → Polled.holds c' t = false)
  ∧ ∀ t', t' ≠ t → Polled.holds c t' = false ∧ Polled.holds c' t' = false.
Proof.
  unfold Polled.holds, Polled.answer_conn, Polled.turn, Polled.with_state, token_of. intros Hh.
  destruct (Polled.state c) as [buf hd|t0|out off|t0 out off lc e] eqn:Hst; try done.
  - apply bool_decide_eq_true in Hh as ->.
    destruct o; repeat case_match; intros; simplify_eq; cbn in *; simplify_eq;
      (split_and!; [by auto|by intros ? ? [=]|intros t' Hne; by rewrite ?bool_decide_eq_false_2 by congruence]).
  - apply andb_true_iff in Hh as [->%bool_decide_eq_true ->].
    destruct o; repeat case_match; intros; simplify_eq; cbn in *; simplify_eq; rewrite ?Hst in *; simplify_eq;
      (split_and!; [by auto|intros ? ? [=]; by rewrite ?andb_false_r|intros t' Hne; by rewrite ?bool_decide_eq_false_2 by congruence]).
Qed.

Lemma no_holder t (l : list (Polled.Conn H)) :
  (∀ c, c ∈ l → Polled.holds c t = false) → find_first (λ c, Polled.holds c t) l = None.
Proof.
  induction l as [|c l IH]; intros Hl; [done|]. cbn. rewrite Hl by by left. apply IH. intros x Hx. apply Hl. by right.
Qed.

#[local] Instance polled_laws : AcceptorLaws B.
Proof.
  apply (Build_AcceptorLaws B _ (λ b, steady b.1) (λ b, NoDup (live (Polled.conns b.1)))).
  - intros t o [b w] [Hb Hr]. cbn. destruct (Polled.answer b t o w) as [b' w'] eqn:Ha.
    pose proof (answer_bounded _ _ _ _ _ _ Hb Ha) as [Hb' Hl]. split; [done|]. cbn. rewrite Hl.
    destruct (answer_split b t o w) as [[_ Hs]|(l1 & c & l2 & c' & r' & w1 & Hc & _ & Hac & Hs & _)];
      rewrite Hs in Ha; simplify_eq; [done|]. cbn. eapply answer_conn_from; [|exact Hr|exact Hac].
    pose proof (within _ Hb) as Hw. cbn [fst] in Hw. rewrite Hc in Hw. apply Forall_app in Hw as [_ Hw].
    apply Forall_cons in Hw as [(rt & Hrt & _) _]. by eapply lookup_lt_Some.
  - intros [b w] Hb. cbn. destruct (Polled.try_next _ _ _) as [[[i b'] w']|] eqn:Ht; [|done]. cbn. by eapply try_steady.
  - intros d [b w] Hb. cbn. unfold Polled.next_within. destruct (Polled.instant_now w) as [now w1].
    destruct (Polled.next_loop _ _ _ _ _) as [[[i b'] w']|] eqn:Ht; [|done]. cbn. by eapply loop_steady.
  - intros t o [b w]. cbn. destruct (answer_split b t o w) as [[_ Hs]|(l1 & c & l2 & c' & r' & w1 & _ & _ & _ & Hs & _)]; by rewrite Hs.
  - intros [b w] Hb. cbn. destruct (Polled.try_next _ _ _) as [[[i b'] w']|] eqn:Ht; [|done]. cbn. by eapply try_steady.
  - intros d [b w] Hb. cbn. unfold Polled.next_within. destruct (Polled.instant_now w) as [now w1].
    destruct (Polled.next_loop _ _ _ _ _) as [[[i b'] w']|] eqn:Ht; [|done]. cbn. by eapply loop_steady.
  - intros [b w] i Hb. cbn. destruct (Polled.try_next _ _ _) as [[[i0 b'] w']|] eqn:Ht; [|done]. cbn. by eapply try_steady.
  - intros d [b w] i Hb. cbn. unfold Polled.next_within. destruct (Polled.instant_now w) as [now w1].
    destruct (Polled.next_loop _ _ _ _ _) as [[[i0 b'] w']|] eqn:Ht; [|done]. cbn. by eapply loop_steady.
  - intros t [b w] i [Hb _]. cbn. unfold Polled.owner_of. intros (c & Hc & ->)%fmap_Some.
    apply find_first_Some in Hc as [Hin _]. pose proof (within _ Hb) as Hw. rewrite Forall_forall in Hw.
    destruct (Hw _ Hin) as (rt & Hrt & _). by eapply lookup_lt_Some.
  - intros t o [b w] Hnd. cbn in *.
    destruct (answer_split b t o w) as [[_ Hs]|(l1 & c & l2 & c' & r' & w1 & Hc & Hh & Hac & Hs & _)]; rewrite Hs; [done|]. cbn.
    change (NoDup (live (l1 ++ c' :: l2))).
    destruct (answer_conn_after _ _ _ _ _ _ _ _ Hh Hac) as [Htok _]. eapply sublist_NoDup; [exact Hnd|].
    rewrite Hc, !live_app, !live_cons. apply sublist_app; [done|].
    destruct Htok as [->| ->]; [|done]. destruct (token_of c); [by apply sublist_cons|done].
  - intros t status text [b w] Hnd. cbn in *. unfold Polled.owner_of.
    destruct (answer_split b t (Listen.Refused status text) w) as [[Hno Hs]|(l1 & c & l2 & c' & r' & w1 & Hc & Hh & Hac & Hs & Hl1)];
      rewrite Hs; cbn; [by rewrite no_holder|].
    destruct (answer_conn_after _ _ _ _ _ _ _ _ Hh Hac) as (_ & Hr & _). rewrite no_holder; [done|].
    intros x [Hx|[->|Hx]%elem_of_cons]%elem_of_app; [by apply Hl1|by eapply Hr|].
    apply not_true_iff_false. intros Hx'%holds_token. apply holds_token in Hh. rewrite Hc, live_app, live_cons, Hh in Hnd.
    apply NoDup_app in Hnd as (_ & _ & [Hni _]%NoDup_cons). apply Hni. apply list_elem_of_omap. by exists x.
  - intros t t' o [b w] Hne. cbn. unfold Polled.owner_of.
    destruct (answer_split b t o w) as [[_ Hs]|(l1 & c & l2 & c' & r' & w1 & Hc & Hh & Hac & Hs & _)]; rewrite Hs; [done|].
    destruct (answer_conn_after _ _ _ _ _ _ _ _ Hh Hac) as (_ & _ & Ho). destruct (Ho t' Hne) as [Ho1 Ho2].
    cbn. rewrite Hc, !find_first_app. cbn. by rewrite Ho1, Ho2.
Defined.
End polled.
End PolledServe.

(** ** At concrete inputs *)
Module ServeDemo.
Import ListenDemo.
#[local] Existing Instances any_name any_flow demo_wire slow_clients one_request ascii_lower one_request_laws slow_clients_laws.

(** A clock that moves on by one at every look. *)
#[local] Instance ticks : Instants N := λ c, (c, (c + 1)%N).
#[local] Instance rounds_of_calls : PumpFuel := 5.

Abbreviation DemoHost := (PumpHost (DeployHost N) MockConnector CallResult unit).
Abbreviation DemoDeployment := (Swarm (list ToyScript) DemoHost Toy).

(** *** Park timeouts *)
Definition waits : WaitSet := WaitSet.new [2%N] (Some 50%N) false.
Definition floored : DeployHost N := DeployHost.with_park_floor 20 100%N.
Definition armed : DeployHost N := (DeployHost.note 3 (Parked waits) floored).2.

(** Hibernated and woken, it is due when it was. *)
Lemma timeout_outlives_residency_witness :
  let away := DeployHost.attached 3 (h_detached (I := Toy) 3 armed) in
  (3%N ∈ DeployHost.due 150 away) ∧ ¬ 3%N ∈ DeployHost.due 149 away.
Proof.
  intros away.
  assert (Hw : rtc (ParkFacts.meanwhile (I := Toy) 3) armed away).
  { eapply rtc_l; [apply (ParkFacts.mw_detached (I := Toy) 3 3 armed)|].
    apply rtc_once. exact (ParkFacts.mw_attached (I := Toy) 3 3 _). }
  assert (Hn : DeployHost.note 3 (Parked waits) floored = (Alive, armed)) by (vm_compute; reflexivity).
  pose proof (proj2 (ParkFacts.timeout_outlives_residency (I := Toy) 3 waits 50 floored armed Hn eq_refl) away Hw) as [Hdue _].
  split; [apply Hdue; vm_compute; discriminate|]. intros Hd%Hdue. by vm_compute in Hd.
Defined.

(** *** Residency *)
Definition serving_host : DemoHost := PumpHost.new (DeployHost.new 0%N) demo_dispatcher tt.
Definition at_rest : DemoDeployment := with_limits demo_engine serving_host 8 8.
Definition settled_down : list call := demo_calls ++ [CAllowHibernation true].
Definition deployed : DemoDeployment := match run_calls 6 settled_down at_rest with Ret _ s => s | _ => at_rest end.

Lemma reached fuel cs (h : DemoHost) (s : DemoDeployment) :
  Forall call_ok cs → run_calls fuel cs (with_limits demo_engine h 8 8) = Ret tt s → wf s.
Proof.
  intros Hcs Hrun.
  assert (Hw : wp false (run_calls fuel cs) (λ _ s', wf s') (with_limits demo_engine h 8 8 : DemoDeployment)).
  { apply (wp_run_calls false fuel any_flow any_flow); [by apply wf_with_limits|done]. }
  exact (wp_ret_inv _ _ _ _ _ _ Hw Hrun).
Qed.

Lemma deployed_wf : wf deployed.
Proof. apply (reached 6 settled_down serving_host); [by repeat constructor|]. vm_compute. reflexivity. Qed.

(** Room for one: the two that ran longest ago go. *)
Lemma residency_lru_witness :
  ∃ s', Driver.enforce_residency 1 1 deployed = Ret tt s' ∧ wf s'
    ∧ ResidencyFacts.awake 1 deployed = [2; 3; 4]%N ∧ ResidencyFacts.awake 1 s' = [4]%N.
Proof.
  destruct (ResidencyFacts.residency_lru 1 1 deployed deployed_wf ltac:(vm_compute; reflexivity)) as (s' & Hrun & Hwf & _).
  exists s'. split; [exact Hrun|]. split; [exact Hwf|]. split; [vm_compute; reflexivity|].
  assert (Hc : match Driver.enforce_residency 1 1 deployed with Ret _ s => ResidencyFacts.awake 1 s | _ => [] end = [4]%N)
    by (vm_compute; reflexivity).
  rewrite Hrun in Hc. exact Hc.
Defined.

(** *** A request whose queue is not there yet *)
#[local] Instance demo_acceptor : Acceptor (Polled.Bound unit * World) := PolledServe.polled_acceptor (λ _, 5) 1.
#[local] Instance demo_acceptor_laws : ServeFacts.AcceptorLaws (Polled.Bound unit * World) := PolledServe.polled_laws (λ _, 5) 1.

(** A client waits for what its request is answered with. *)
Definition seat : Listen.ListenerRt := Listen.MkListenerRt "in" "out" [] [] 1024 1000 1 100 false None.
Definition asked_bound : Polled.Bound unit * World :=
  (Polled.MkBound [seat] [Polled.MkConn tt 0 0 true (Polled.Waiting 1)] [] 2, (0, [])).
Definition early : Held := MkHeld (Listen.MkIngress 0 1 (as_bytes "request")) 1000.
Definition serving : Serving DemoDeployment (Polled.Bound unit * World) :=
  MkServing deployed asked_bound [early] [] (MkArgsDelivery None 0).

Lemma serving_is_ok : ServeFacts.serving_ok serving.
Proof.
  split; [exact deployed_wf| |].
  - split; [split|apply Forall_nil_2].
    + apply Forall_singleton. by exists seat.
    + intros [|idx] rt; [|done]. intros [= <-]. vm_compute. lia.
    + intros _. split; [apply NoDup_singleton|by apply Forall_singleton].
  - apply Forall_singleton. vm_compute. lia.
Qed.

(** It stays held, and its client is not answered yet. *)
Lemma held_requests_settle_witness :
  ∃ s', Serve.retry_held 1 serving = Ret tt s' ∧ ServeFacts.serving_ok s' ∧ sv_held s' = [early]
    ∧ owner_of 1 (sv_bound s') = Some 0.
Proof.
  destruct (ServeFacts.held_requests_settle 1 serving serving_is_ok) as (s' & es & Hrun & Hok & _);
    [exact (NoDup_singleton 1%N)|exact (NoDup_singleton 1%N)|].
  exists s'. split; [exact Hrun|]. split; [exact Hok|].
  assert (Hc : match Serve.retry_held 1 serving with Ret _ s => (sv_held s, owner_of 1 (sv_bound s)) | _ => ([], None) end
               = ([early], Some 0)) by (vm_compute; reflexivity).
  rewrite Hrun in Hc. split; [exact (f_equal fst Hc)|exact (f_equal snd Hc)].
Defined.

(** Two passes, then a stop: whoever waits is told. *)
Lemma serving_never_panics_witness :
  ∃ s', ServeFacts.passes 6 1 (Some 1) [false; true] serving = Ret false s' ∧ ServeFacts.serving_ok s' ∧ sv_held s' = [].
Proof.
  pose proof (ServeFacts.serving_never_panics 6 1 (Some 1) [false; true] serving serving_is_ok) as Hn.
  assert (Hc : match ServeFacts.passes 6 1 (Some 1) [false; true] serving with Ret b s => Some (b, sv_held s) | _ => None end
               = Some (false, [])) by (vm_compute; reflexivity).
  destruct (ServeFacts.passes 6 1 (Some 1) [false; true] serving) as [b s'| | |]; [|discriminate Hc..].
  injection Hc as -> Hh. exists s'. split; [reflexivity|]. split; [exact (proj1 Hn)|exact Hh].
Defined.
End ServeDemo.
